(* ===== verification/_CoqProject ===== *)
-Q . S2P
Prelude.v
TreapNode.v
TreapTree.v
TreapMutable.v
TreapImmutable.v
TreapStore.v
TreapIter.v
DbCache.v
Vlq.v
Difficulty.v
Merkle.v
MedianTime.v
BlockIndex.v
ChainView.v
Threshold.v
OvmCode.v
OvmStack.v
OvmNum.v
OvmBytes.v
OvmEval.v
OvmControl.v
OvmCall.v
OvmState.v
OvmCommit.v
OvmInstr.v
OvmRun.v
OvmInv.v
OvmPure.v
Wire.v
Token.v
MsgTx.v
MsgBlock.v
WireMsgs.v
WireConsensus.v
WireMessage.v
Knowledge.v
Syncer.v
SyncerSafe.v
SyncerLive.v
ViewDb.v
UtxoEntry.v
BorderEntry.v
DefEntry.v
ViewSet.v
ViewFrame.v
PolygonGeom.v
UtxoView.v
UtxoStore.v
UtxoUndo.v
RightTree.v
ViewFaults.v
SpendJournal.v
OrphanMgr.v
ChainOps.v
Reorg.v
ChainStore.v
ChainLoad.v
ChainMap.v
TxDefs.v
TxCheck.v
TxValue.v
TxRights.v
BlockFiles.v
BlockKept.v
DbBlocks.v
KvIters.v
DbCursor.v
