(* ===== verification/Prelude.v ===== *)
(** * A verification library for the Zent (Omega) block chain node

    The node is a fork of btcd (directories [btcd] and [btcutil]) with a second
    chain of miner blocks, a consensus layer and a contract virtual machine
    (directory [omega]); [omgd] is the daemon.  This library models the parts that
    carry its logic as Rocq functions and proves what makes them correct.

    ** The parts and their files

    - The ordered store under the database: [TreapNode] (the heap cell and the
      parent stack, [btcd/database/internal/treap/common.go]), [TreapTree] (the
      abstract trees the heap represents, with no code of its own), [TreapMutable]
      ([mutable.go]), [TreapImmutable] ([immutable.go]), [TreapIter] ([treapiter.go]).
      Nodes live in a heap, a finite map from locations to nodes; the mutable and
      immutable treaps are roots into it, so sharing between snapshots is real.
      [TreapStore] has the interface ([OrderedStore] with its laws) that the
      database cache is proved against, and the refinement theorems.
    - The database cache: [DbCache] ([btcd/database/ffldb/dbcache.go] and the
      transaction keys of [db.go]).  It uses the treaps through [OrderedStore] and
      [StoreIter] only; leveldb is outside of the repository and is the class
      [LevelDB] with its laws, of which a map in memory is an instance.
    - Encodings: [Vlq] ([btcd/blockchain/bccompress/compress.go]) and [Difficulty]
      ([btcd/blockchain/difficulty.go], and the retarget step of
      [omega/minerchain/difficulty.go]).
    - [Merkle] ([btcd/blockchain/merkle.go]).
    - The block tree: [MedianTime], [BlockIndex] and [ChainView]
      ([btcd/blockchain/chainutil]).  Block nodes live in a heap as well; a branch
      is a list of nodes from a genesis block up.
    - Voting on rule changes: [Threshold] ([omega/minerchain/thresholdstate.go] and
      [versionbits.go]) over the nodes of [BlockIndex].
    - The contract virtual machine, [omega/ovm]: [OvmCode] (the parser of
      [contract.go]), [OvmStack] (the memory, [stack.go]); the operands of
      [instructions.go] in [OvmNum] ([getNum] and [addressing]) and [OvmBytes]
      ([getBig], [getHash], [getBytes]); its instructions in [OvmEval] (EVAL8 to
      EVAL64), [OvmControl] (IF, RETURN, memory), [OvmCall] (CALL) and [OvmInstr]
      (data, hashes, the contract's state, libraries, block information);
      [OvmState] (the cached state of a contract, [statedb.go]), [OvmCommit]
      (writing a block's changes and undoing them, [ovm.go] and [statedb.go]);
      [OvmRun] (the run loop of [interpreter.go] and the instruction table of
      [jump_table.go]), [OvmInv] (a run as a sequence of states) and [OvmPure]
      (contracts that may not write), both with no code of their own.
    - The wire format: [Wire] (readers and writers of elements,
      [btcd/wire/common/common.go]), [Token] (definitions and tokens,
      [omega/token/token.go]), [MsgTx] ([msgtx.go]), [MsgBlock] ([msgblock.go] and
      [blockheader.go]), [WireMsgs] and [WireConsensus] (the payloads of the other
      messages, [msg*.go]) and [WireMessage] (the framing, [message.go]).
    - The consensus of a committee on the block of a height, [omega/consensus]:
      [Knowledge] (who knows of whose block, [knowledge.go]), [Syncer] (the message
      handlers, the repeater and the signing of [syncer.go], with the shared state
      and the signature check of [miner.go]), [SyncerSafe] (the steps of a run, and
      what holds along every run) and [SyncerLive] (progress).

    - The views a block is checked and connected with, [omega/viewpoint]: [ViewDb]
      (the buckets of the database and its byte level helpers), [UtxoEntry] (outputs,
      [utxo.go]), [BorderEntry] (borders and their geometry, [border.go]), [DefEntry]
      (polygons, rights and sets of rights, [polygon.go] and [right.go]), [ViewSet] (the
      views together, fetching and adding definitions), [ViewFrame] (what a fetch
      changes, no code of its own), [PolygonGeom] (loops, areas and nesting,
      [polygon.go]), [UtxoView] (connecting, disconnecting and writing, [utxo.go] and
      [viewpoint.go]), [UtxoStore], [UtxoUndo], [RightTree] and [ViewFaults] (theorems
      about them).
    - The block chain, [btcd/blockchain]: [SpendJournal] (the records that undo a block,
      [chainio.go]), [OrphanMgr] ([chainutil/orphanmgr.go] and [process.go]), [ChainOps]
      ([chain.go]: forks, reorganisation, locators, sequence locks) with [Reorg],
      [ChainStore] ([chainio.go]: the index of blocks and the best state) with
      [ChainLoad].
    - [ChainMap] ([omega/chainmap/chainmap.go] and [btcd/wire/msgchainmap.go]).
    - The rules for transactions: [TxDefs] ([omega/validate/definitions.go] and
      [validate.go]), [TxCheck] ([btcd/blockchain/validate.go]) with [TxValue], and
      [TxRights] ([omega/validate/rights.go]).
    - The block files: [BlockFiles] ([btcd/database/ffldb/blockio.go] and
      [reconcile.go]), [BlockKept] (what they keep) and [DbBlocks] (the blocks of a
      transaction of the database, [db.go], over [BlockFiles] and [DbCache]).
    - Iterators and buckets: [KvIters] (two layers of keys merged, the code that
      [dbcache.go] and [db.go] share, with the interface [KvIter] and what it promises)
      and [DbCursor] (cursors, walks over buckets and nested buckets, [db.go],
      [dbcache.go] and [ldbtreapiter.go]).  The iterators of leveldb and its ranges of
      prefixes are classes with laws, with instances in memory.

    A block arrives in a message of [WireMessage], is put in the tree of [BlockIndex]
    and [ChainView], its contracts run in [OvmRun] over the state of [OvmState], which
    [OvmCommit] writes through the database of [DbCache], which uses the treaps; the
    transactions are checked by [TxCheck], [TxDefs] and [TxRights] against the views of
    [ViewSet] and connected by [UtxoView], with the journal of [SpendJournal]; the block
    itself goes to the files of [BlockFiles]; the members of a committee agree on the next block with the messages of
    [WireConsensus], in [Syncer].

    ** How code is modelled

    A Go function is a function into [outcome]: a result, a run-time panic (nil
    pointer, index out of range, negative [make]) or lack of fuel.  Mutable objects
    are in explicit state; script errors of the virtual machine are values of a sum
    inside the outcome.  Machine integers are [Z] with [uwrap] and [swrap] written
    where the code wraps around.  Random numbers, the clock, hash functions,
    [math.Log2] and [math.Pow] are arguments.  Loops are structural where the data
    allows it; a loop over text that jumps ahead counts the characters to skip.
    The reader of a stream is a state monad over the bytes left, with errors and
    panics; the handlers of the consensus are actions on a node that collect what is
    sent; runs of the interpreter and of the consensus are step relations.
    Loops over the heap have fuel: the number of heap cells for the treaps, the
    height of a block for the block tree, the pairs of its layers for an iterator, ten
    or eleven bytes for a uint64, 67 shifts for a 64-bit set of members; the interpreter takes its fuel as an argument.  The
    theorems say that the functions return [Ok], so that the fuel is enough, and
    that they do not panic.  Locks are not modelled: an operation is one step.

    ** What is proved

    - The treaps implement finite maps: lookups, sizes and ordered iteration, and
      old snapshots keep their contents; puts build binary search trees that are
      heaps; iterators visit exactly the keys of their range and survive changes.
    - A transaction of the database is atomic and reads its own writes; a flush does
      not change what readers see, even when it fails.
    - Variable length quantities, compact targets, amounts, operands and contract
      texts are read back as they were written, and encodings are unique.
    - The array of a Merkle tree holds the root of the recursive definition.
    - Median times are medians, clock adjustments are bounded, a view shows exactly
      the branch of its tip, forks are the last common blocks and locators list the
      right ancestors.
    - The cached threshold state is the one of the blocks alone; states only move
      along the edges of the state machine.
    - The memory of the virtual machine stores words; operands never make the parser
      panic; evaluation instructions compute the value of the expression tree whose
      postfix text they run; jumps stay in the code; memory stays under its limit.
    - The control state of the interpreter stays in order in every state that a run
      reaches by modelled instructions (the frames of calls, the code of libraries, the
      program counter), a call comes back behind itself with its frame removed, straight
      code of modelled instructions comes to an end with enough fuel, and a contract that
      may not write changes no stored value as long as it executes modelled instructions.
    - To a contract its state is a map; a commit writes what the contract saw, and
      undoing a block restores the database when no call of the block failed.
    - Definitions, transactions, blocks and messages are read back as they were
      written, whatever follows (but for invitations, which every reader refuses); the
      identity of a transaction does not depend on what contracts add, definitions added
      to a version without definitions aside; a message that is refused is skipped whole.
    - A member of a committee never signs two blocks of a height, and never takes a
      signature back, whatever messages arrive in whatever order; once it has signed,
      it repeats its signature until the run ends.  Knowledge is counted right.
    - A transaction of this chain, coin bases aside, that passes the rules pays out no more
      than it spends, of every type of amounts without rights that does not carry the number
      of the chain itself (for those types it can, and a theorem shows it), and pays its
      fees; hash tokens only change hands, and rights are neither made nor lost.
    - A view that is written is read back; a block that only moves tokens, connected and
      disconnected with the journal from disk, leaves the outputs and the references of
      borders as they were; rights form trees, polygons nest to a bounded depth, and the
      test for loops is exact.
    - The tree of blocks and the best state are read back from the database up to a height
      of 200000, above which the loader drops old blocks; the index of
      the main chain is a list, the nodes of a reorganisation are the two branches from
      the fork, the orphan pool is bounded and hands out exactly the descendants of a
      block, and the way between two chains is the one over their common ancestor.
    - Blocks that are committed are read back after any writes, with any faults of the
      file system, an undone write or a restart; a database transaction commits its blocks
      and keys together.
    - A walk over a bucket visits each key of the transaction's view once, in order, the
      pending keys, the cache and leveldb merged; a cursor does so in both directions and
      from any key; a new bucket has an identifier that no other bucket has.
    - Where the code departs from its intention a theorem says so.  Among others: one
      signature under two names is a quorum, a signature is sent before the guard
      against signing twice is consulted, short messages and scripts make the node
      panic, loading a library drops what its contract wrote in the block, a block after a
      failed call is not undone, the limit of steps of a contract has no effect, a commit can lose a
      write, hexadecimal operands are misread, deletion does not keep the heap order,
      iterators ignore one end of their range, a cursor that turns back goes on
      forwards, and a deleted bucket can keep keys.

    ** What is not modelled

    - Signatures of the curve, hash functions and leveldb are outside of the repository,
      and parameters here; locks and goroutines are left out, an operation is one step.
    - Of the virtual machine, EVAL256, SIGCHECK, EXEC, SELFDESTRUCT, MINT, LOG, LEDGER and
      the instructions that read or extend the transaction are a parameter of the
      instruction table, of which nothing is assumed; the entry points that run contracts
      for a transaction rest on them.
    - Of the consensus, the map of syncers and the relaying of messages between nodes.
    - Of the views and rules, the checks of a new polygon against its neighbours with the
      quad tree, the cross-chain rules, and the rules for whole blocks and headers; the
      drivers [connectBlock], [ProcessBlock] and the reorganisation itself run the parts
      modelled here over the database, the miner chain and the contracts at once.
    - Of the database, closing it and its registration as a driver.
    - The memory pool, mining, peers, the RPC server and its clients, the daemon and the
      general utilities of [btcutil]: network, file and process code around the parts
      modelled, and copies of packages of other projects.

    This file has what all others share: outcomes, machine integers, slices, byte
    order, the object store, generic lemmas, and the hints and tactics. *)
From stdpp Require Import gmap list sorting.
From Stdlib Require Import ZArith Lia.
From Stdlib Require Ascii String.

Open Scope Z_scope.

(** The bytes of a string constant. *)
Definition str (s : String.string) : list Z := map (fun a => Z.of_N (Ascii.N_of_ascii a)) (String.list_ascii_of_string s).

(** ** Outcomes of Go code *)

Inductive outcome (A : Type) : Type :=
  | Ok (a : A)
  | Panic
  | NoFuel.
Arguments Ok {A} a.
Arguments Panic {A}.
Arguments NoFuel {A}.

Global Instance outcome_ret : MRet outcome := fun A a => Ok a.
Global Instance outcome_bind : MBind outcome := fun A B f o =>
  match o with Ok a => f a | Panic => Panic | NoFuel => NoFuel end.

Lemma outcome_bind_ok {A B} (f : A -> outcome B) a : (Ok a ≫= f) = f a.
Proof. reflexivity. Qed.

Lemma bind_ok_inv {A B} (f : A -> outcome B) (o : outcome A) b :
  (o ≫= f) = Ok b -> exists a, o = Ok a /\ f a = Ok b.
Proof. destruct o; simpl; naive_solver. Qed.

(** ** Machine integers *)

Definition uwrap (w z : Z) : Z := z mod 2 ^ w.
Definition swrap (w z : Z) : Z := (z + 2 ^ (w - 1)) mod 2 ^ w - 2 ^ (w - 1).

Abbreviation u8 := (uwrap 8).
Abbreviation u16 := (uwrap 16).
Abbreviation u32 := (uwrap 32).
Abbreviation u64 := (uwrap 64).
Abbreviation i8 := (swrap 8).
Abbreviation i16 := (swrap 16).
Abbreviation i32 := (swrap 32).
Abbreviation i64 := (swrap 64).

Definition uint_range (w z : Z) : Prop := 0 <= z < 2 ^ w.
Definition sint_range (w z : Z) : Prop := - 2 ^ (w - 1) <= z < 2 ^ (w - 1).

Global Instance uint_range_dec w z : Decision (uint_range w z).
Proof. unfold uint_range. apply _. Defined.
Global Instance sint_range_dec w z : Decision (sint_range w z).
Proof. unfold sint_range. apply _. Defined.

(** ** Slices: indexing and assignment panic out of range *)

Definition slice_get {A} (s : list A) (i : Z) : outcome A :=
  if decide (0 <= i) then
    match s !! Z.to_nat i with Some x => Ok x | None => Panic end
  else Panic.

Definition slice_set {A} (s : list A) (i : Z) (x : A) : outcome (list A) :=
  if decide (0 <= i < Z.of_nat (length s)) then Ok (<[Z.to_nat i := x]> s) else Panic.

(** [s[lo:hi]] on a slice whose capacity is its length. *)
Definition slice_sub {A} (s : list A) (lo hi : Z) : outcome (list A) :=
  if decide (0 <= lo <= hi /\ hi <= Z.of_nat (length s)) then
    Ok (take (Z.to_nat (hi - lo)) (drop (Z.to_nat lo) s))
  else Panic.

(** ** Bytes *)

Abbreviation len l := (Z.of_nat (length l)).

Definition bytes (l : list Z) : Prop := Forall (uint_range 8) l.

(** The number whose little-endian bytes are [l]. *)
Definition le_value (l : list Z) : Z := foldr (fun b n => b + 256 * n) 0 l.

(** [n] little-endian bytes of [b]. *)
Fixpoint le_bytes (n : nat) (b : Z) : list Z :=
  match n with O => [] | S n => b mod 256 :: le_bytes n (b / 256) end.

(** ** [bytes.Compare]: lexicographic comparison of byte slices *)

Fixpoint bytes_compare (a b : list Z) : comparison :=
  match a, b with
  | [], [] => Eq
  | [], _ :: _ => Lt
  | _ :: _, [] => Gt
  | x :: a, y :: b =>
      match x ?= y with Eq => bytes_compare a b | c => c end
  end.

Definition bytes_lt (a b : list Z) : Prop := bytes_compare a b = Lt.

(** ** Pointers and the object store *)
Abbreviation loc := positive.
Abbreviation ptr := (option positive).

Definition fresh_loc {A} (h : gmap loc A) : loc :=
  map_fold (fun l _ m => Pos.max (Pos.succ l) m) 1%positive h.

Definition load {A} (h : gmap loc A) (p : ptr) : outcome A :=
  match p with
  | None => Panic
  | Some l => match h !! l with Some n => Ok n | None => Panic end
  end.

Definition modify {A} (h : gmap loc A) (p : ptr) (f : A -> A) : outcome (gmap loc A) :=
  match p with
  | None => Panic
  | Some l => match h !! l with Some n => Ok (<[l := f n]> h) | None => Panic end
  end.

Definition alloc {A} (h : gmap loc A) (a : A) : gmap loc A * ptr :=
  let l := fresh_loc h in (<[l := a]> h, Some l).

(** ** Generic lemmas *)

Lemma uwrap_range w z : 0 <= w -> uint_range w (uwrap w z).
Proof. intros. apply Z.mod_pos_bound. lia. Qed.

Lemma uwrap_id w z : uint_range w z -> uwrap w z = z.
Proof. apply Z.mod_small. Qed.

Lemma uwrap_uwrap w z : 0 <= w -> uwrap w (uwrap w z) = uwrap w z.
Proof. intros. unfold uwrap. apply Z.mod_mod. lia. Qed.

Lemma uwrap_add_l w a b : 0 <= w -> uwrap w (uwrap w a + b) = uwrap w (a + b).
Proof. intros. unfold uwrap. apply Zplus_mod_idemp_l. Qed.

Lemma uwrap_sub_l w a b : 0 <= w -> uwrap w (uwrap w a - b) = uwrap w (a - b).
Proof. intros. unfold uwrap. apply Zminus_mod_idemp_l. Qed.

Lemma uwrap_add_r w a b : 0 <= w -> uwrap w (a + uwrap w b) = uwrap w (a + b).
Proof. intros. unfold uwrap. apply Zplus_mod_idemp_r. Qed.

Lemma uwrap_sub_r w a b : 0 <= w -> uwrap w (a - uwrap w b) = uwrap w (a - b).
Proof. intros. unfold uwrap. apply Zminus_mod_idemp_r. Qed.

Lemma swrap_mod w a : 0 < w -> uwrap w (swrap w a) = uwrap w a.
Proof.
  intros. unfold uwrap, swrap. rewrite Zminus_mod_idemp_l. f_equal. lia.
Qed.

Lemma swrap_cong w a b : 0 < w -> uwrap w a = uwrap w b -> swrap w a = swrap w b.
Proof.
  unfold uwrap, swrap. intros ? E.
  rewrite (Z.add_mod a), (Z.add_mod b), E by lia. done.
Qed.

Lemma swrap_add_l w a b : 0 < w -> swrap w (swrap w a + b) = swrap w (a + b).
Proof.
  intros. apply swrap_cong; [done|].
  by rewrite <- uwrap_add_l, swrap_mod, uwrap_add_l by lia.
Qed.

Lemma swrap_sub_l w a b : 0 < w -> swrap w (swrap w a - b) = swrap w (a - b).
Proof.
  intros. apply swrap_cong; [done|].
  by rewrite <- uwrap_sub_l, swrap_mod, uwrap_sub_l by lia.
Qed.

Lemma swrap_range w z : 0 < w -> sint_range w (swrap w z).
Proof.
  intros. unfold sint_range, swrap.
  assert (2 ^ w = 2 * 2 ^ (w - 1)) as E
    by (rewrite <- Z.pow_succ_r by lia; f_equal; lia).
  pose proof (Z.mod_pos_bound (z + 2 ^ (w - 1)) (2 ^ w) ltac:(lia)). lia.
Qed.

Lemma swrap_id w z : 0 < w -> sint_range w z -> swrap w z = z.
Proof.
  unfold sint_range, swrap. intros.
  assert (2 ^ w = 2 * 2 ^ (w - 1)) as E
    by (rewrite <- Z.pow_succ_r by lia; f_equal; lia).
  rewrite Z.mod_small; lia.
Qed.

(** ** Bit operations as arithmetic *)

Lemma lor_shiftl_add n x k : 0 <= k -> 0 <= x < 2 ^ k -> Z.lor (Z.shiftl n k) x = n * 2 ^ k + x.
Proof.
  intros Hk Hx. assert (Z.land (Z.shiftl n k) x = 0) as Hd.
  { apply Z.bits_inj'. intros i Hi. rewrite Z.land_spec, Z.bits_0.
    destruct (decide (i < k)).
    - by rewrite Z.shiftl_spec_low by lia.
    - destruct (decide (x = 0)) as [->|]; [by rewrite Z.bits_0, andb_false_r|].
      rewrite (Z.bits_above_log2 x i); [apply andb_false_r|lia|].
      apply Z.lt_le_trans with k; [|lia]. apply Z.log2_lt_pow2; lia. }
  rewrite <- Z.lxor_lor, <- Z.add_nocarry_lxor, Z.shiftl_mul_pow2 by done. done.
Qed.

Lemma land_ones_mod n k : 0 <= k -> Z.land n (2 ^ k - 1) = n mod 2 ^ k.
Proof. intros. rewrite <- Z.land_ones by done. f_equal. rewrite Z.ones_equiv. lia. Qed.

(** ** Little-endian numbers *)

Lemma le_bytes_length n : forall b, length (le_bytes n b) = n.
Proof. induction n; intros; simpl; auto. Qed.

Lemma le_value_le_bytes n : forall b, le_value (le_bytes n b) = b mod 2 ^ (8 * Z.of_nat n).
Proof.
  induction n as [|n IH]; intros b; [by rewrite Z.mod_1_r|].
  change (le_value (le_bytes (S n) b)) with (b mod 256 + 256 * le_value (le_bytes n (b / 256))).
  rewrite IH. replace (8 * Z.of_nat (S n)) with (8 + 8 * Z.of_nat n) by lia.
  rewrite Z.pow_add_r by lia. change (2 ^ 8) with 256.
  rewrite (Z.rem_mul_r b 256) by lia. done.
Qed.

Lemma le_bytes_bytes n : forall b, bytes (le_bytes n b).
Proof.
  induction n; intros b; [constructor|]. constructor; [|apply IHn]. unfold uint_range.
  pose proof (Z.mod_pos_bound b 256 ltac:(lia)). lia.
Qed.

Lemma le_value_bound l : bytes l -> 0 <= le_value l < 2 ^ (8 * len l).
Proof.
  induction 1 as [|x l Hx _ IH]; [done|].
  change (le_value (x :: l)) with (x + 256 * le_value l).
  cbn [length]. replace (8 * len (x :: l)) with (8 + 8 * len l) by (cbn [length]; lia).
  rewrite Nat2Z.inj_succ. replace (8 * Z.succ (len l)) with (8 + 8 * len l) by lia.
  rewrite Z.pow_add_r by lia. unfold uint_range in Hx. change (2 ^ 8) with 256 in *. nia.
Qed.

Lemma le_value_app l1 : forall l2, le_value (l1 ++ l2) = le_value l1 + 2 ^ (8 * len l1) * le_value l2.
Proof.
  induction l1 as [|x l1 IH]; intros l2; [simpl; lia|].
  change (le_value ((x :: l1) ++ l2)) with (x + 256 * le_value (l1 ++ l2)).
  change (le_value (x :: l1)) with (x + 256 * le_value l1). rewrite IH.
  cbn [length]. rewrite Nat2Z.inj_succ. replace (8 * Z.succ (len l1)) with (8 + 8 * len l1) by lia.
  rewrite Z.pow_add_r by lia. change (2 ^ 8) with 256. lia.
Qed.

Lemma le_bytes_le_value l : bytes l -> le_bytes (length l) (le_value l) = l.
Proof.
  induction 1 as [|x l Hx _ IH]; [done|]. cbn [length le_bytes].
  change (le_value (x :: l)) with (x + 256 * le_value l). unfold uint_range in Hx.
  rewrite (Z.mul_comm 256), Z_mod_plus_full, Z.div_add, Z.mod_small, Z.div_small by lia. by rewrite Z.add_0_l, IH.
Qed.

(** ** Slices *)

Lemma slice_get_ok {A} (s : list A) i x :
  0 <= i -> s !! Z.to_nat i = Some x -> slice_get s i = Ok x.
Proof. intros ? H. unfold slice_get. rewrite decide_True by done. by rewrite H. Qed.

Lemma slice_set_ok {A} (s : list A) i x :
  0 <= i < Z.of_nat (length s) -> slice_set s i x = Ok (<[Z.to_nat i := x]> s).
Proof. intros. unfold slice_set. by rewrite decide_True by lia. Qed.

Lemma slice_sub_ok {A} (s : list A) lo hi :
  0 <= lo <= hi -> hi <= Z.of_nat (length s) ->
  slice_sub s lo hi = Ok (take (Z.to_nat (hi - lo)) (drop (Z.to_nat lo) s)).
Proof. intros. unfold slice_sub. by rewrite decide_True by lia. Qed.

Lemma slice_sub_head {A} (k l : list A) n : n = Z.of_nat (length k) -> slice_sub (k ++ l) 0 n = Ok k.
Proof.
  intros ->. rewrite slice_sub_ok by (rewrite ?length_app; lia). f_equal. rewrite drop_0, Z.sub_0_r, Nat2Z.id. apply take_app_length.
Qed.

Lemma slice_sub_tail {A} (k l : list A) n m :
  n = Z.of_nat (length k) -> m = Z.of_nat (length (k ++ l)) -> slice_sub (k ++ l) n m = Ok l.
Proof.
  intros -> ->. rewrite slice_sub_ok by (rewrite ?length_app; lia). f_equal. rewrite Nat2Z.id, drop_app_length.
  apply take_ge. rewrite length_app. lia.
Qed.

Lemma slice_sub_mid {A} (a b c : list A) n m : n = len a -> m = len a + len b -> slice_sub (a ++ b ++ c) n m = Ok b.
Proof.
  intros -> ->. rewrite slice_sub_ok by (rewrite ?length_app; lia). f_equal. rewrite Nat2Z.id, drop_app_length.
  replace (Z.to_nat (len a + len b - len a)) with (length b) by lia. apply take_app_length.
Qed.

Lemma slice_get_app {A} (pre post : list A) x i :
  i = Z.of_nat (length pre) -> slice_get (pre ++ x :: post) i = Ok x.
Proof. intros ->. apply slice_get_ok; [lia|]. by rewrite Nat2Z.id, lookup_app_r, Nat.sub_diag by lia. Qed.

Lemma slice_set_app {A} (pre post : list A) x y i :
  i = Z.of_nat (length pre) -> slice_set (pre ++ x :: post) i y = Ok (pre ++ y :: post).
Proof.
  intros ->.
  rewrite slice_set_ok by (rewrite length_app; simpl; lia).
  by rewrite Nat2Z.id, insert_app_r_alt, Nat.sub_diag by lia.
Qed.

Lemma bytes_compare_eq a b : bytes_compare a b = Eq <-> a = b.
Proof.
  revert b; induction a as [|x a IH]; intros [|y b]; simpl; try naive_solver.
  destruct (Z.compare_spec x y); subst; [rewrite IH; naive_solver | split; [done|] ..];
    injection 1; lia.
Qed.

Lemma bytes_compare_refl a : bytes_compare a a = Eq.
Proof. by apply bytes_compare_eq. Qed.

Lemma bytes_compare_antisym a b : bytes_compare b a = CompOpp (bytes_compare a b).
Proof.
  revert b; induction a as [|x a IH]; intros [|y b]; simpl; try done.
  rewrite (Z.compare_antisym x y). destruct (x ?= y); simpl; auto.
Qed.

Lemma bytes_compare_gt a b : bytes_compare a b = Gt <-> bytes_lt b a.
Proof.
  unfold bytes_lt. rewrite (bytes_compare_antisym b a).
  destruct (bytes_compare b a); simpl; naive_solver.
Qed.

Lemma bytes_lt_irrefl a : ~ bytes_lt a a.
Proof. unfold bytes_lt. by rewrite bytes_compare_refl. Qed.

Global Instance bytes_lt_trans : Transitive bytes_lt.
Proof.
  unfold bytes_lt. intros a b c; revert b c.
  induction a as [|x a IH]; intros [|y b] [|z c]; simpl; try done.
  destruct (Z.compare_spec x y), (Z.compare_spec y z), (Z.compare_spec x z);
    subst; try done; try lia; eauto.
Qed.

Lemma fresh_loc_above {A} (h : gmap loc A) l : is_Some (h !! l) -> (l < fresh_loc h)%positive.
Proof.
  unfold fresh_loc. revert l.
  apply (map_fold_weak_ind (fun r h => forall l, is_Some (h !! l) -> (l < r)%positive)).
  - intros l [? H]. by rewrite lookup_empty in H.
  - intros i x m r Hm IH l [y Hy].
    destruct (decide (i = l)) as [->|Hne]; [lia|].
    rewrite lookup_insert_ne in Hy by done.
    pose proof (IH l (mk_is_Some _ _ Hy)). lia.
Qed.

Lemma fresh_loc_None {A} (h : gmap loc A) : h !! fresh_loc h = None.
Proof.
  destruct (h !! fresh_loc h) eqn:E; [|done].
  pose proof (fresh_loc_above h (fresh_loc h) (mk_is_Some _ _ E)). lia.
Qed.

Lemma load_ok {A} (h : gmap loc A) l n : h !! l = Some n -> load h (Some l) = Ok n.
Proof. simpl. by intros ->. Qed.

Lemma modify_ok {A} (h : gmap loc A) l n f :
  h !! l = Some n -> modify h (Some l) f = Ok (<[l := f n]> h).
Proof. simpl. by intros ->. Qed.

Lemma alloc_eq {A} (h : gmap loc A) a :
  alloc h a = (<[fresh_loc h := a]> h, Some (fresh_loc h)).
Proof. reflexivity. Qed.

(** ** Automation *)

Create HintDb zent.
#[export] Hint Resolve uwrap_range uwrap_id swrap_range swrap_id : zent.
#[export] Hint Resolve fresh_loc_None load_ok modify_ok : zent.

(** Runs one monadic bind whose first computation is known to be [Ok]. *)
Ltac ok_step :=
  match goal with
  | |- context [load ?h (Some ?l)] =>
      first [ rewrite (load_ok h l _ ltac:(eassumption))
            | erewrite (load_ok h l) by (eauto with zent) ]
  | |- context [modify ?h (Some ?l) ?f] =>
      first [ rewrite (modify_ok h l _ f ltac:(eassumption))
            | erewrite (modify_ok h l) by (eauto with zent) ]
  end; simpl.

(** Right-associates appends. *)
Ltac list_norm := simpl; repeat (rewrite <- app_assoc; simpl).
