(* ===== verification/TreapNode.v ===== *)
(** * Treap nodes and the parent stack

    Models [btcd/database/internal/treap/common.go]: the heap cell [treapNode],
    its size estimate, and the [parentStack] with its static array of 128 slots
    and its overflow slice.  The treap operations are written against the class
    [ParentStack]; [parentStack_laws] discharges the laws for the real stack. *)
From stdpp Require Import gmap list.
From Stdlib Require Import ZArith Lia.
From S2P Require Import Prelude.

Open Scope Z_scope.

Definition staticDepth : Z := 128.
Definition nodeFieldsSize : Z := 72.
Definition emptySlice : list Z := [].

Record treapNode := TreapNode {
  tn_key : list Z;
  tn_value : list Z;
  tn_priority : Z;
  tn_left : ptr;
  tn_right : ptr;
}.

Definition set_value (v : list Z) (n : treapNode) : treapNode :=
  TreapNode (tn_key n) v (tn_priority n) (tn_left n) (tn_right n).
Definition set_left (p : ptr) (n : treapNode) : treapNode :=
  TreapNode (tn_key n) (tn_value n) (tn_priority n) p (tn_right n).
Definition set_right (p : ptr) (n : treapNode) : treapNode :=
  TreapNode (tn_key n) (tn_value n) (tn_priority n) (tn_left n) p.

(** The heap of treap nodes. *)
Abbreviation nheap := (gmap loc treapNode).

(** [nodeFieldsSize + uint64(len(node.key)+len(node.value))] *)
Definition nodeSize (n : treapNode) : Z :=
  u64 (nodeFieldsSize + u64 (Z.of_nat (length (tn_key n)) + Z.of_nat (length (tn_value n)))).

Definition newTreapNode (key value : list Z) (priority : Z) : treapNode :=
  TreapNode key value priority None None.

(** ** What the treap needs from a stack of parents *)

Class ParentStack (S : Type) := {
  stk_empty : S;
  stk_len : S -> Z;
  stk_at : S -> Z -> outcome ptr;
  stk_pop : S -> outcome (ptr * S);
  stk_push : S -> ptr -> outcome S;
}.

(** [stk_abs s l]: the stack [s] holds the pointers [l], topmost first. *)
Class ParentStackLaws (S : Type) `{ParentStack S} := {
  stk_abs : S -> list ptr -> Prop;
  stk_abs_empty : stk_abs stk_empty [];
  stk_abs_len s l : stk_abs s l -> stk_len s = Z.of_nat (length l);
  stk_abs_at s l n :
    stk_abs s l -> 0 <= n -> stk_at s n = Ok (mjoin (l !! Z.to_nat n));
  stk_abs_at_emptied s : stk_abs s [] -> stk_at s (-1) = Ok None;
  stk_abs_pop s p l :
    stk_abs s (p :: l) -> exists s', stk_pop s = Ok (p, s') /\ stk_abs s' l;
  stk_abs_pop_nil s : stk_abs s [] -> stk_pop s = Ok (None, s);
  stk_abs_push s p l :
    stk_abs s l -> exists s', stk_push s p = Ok s' /\ stk_abs s' (p :: l);
}.

(** ** The stack of common.go *)

Record parentStack := ParentStk {
  ps_index : Z;
  ps_items : list ptr;      (* [staticDepth]*treapNode *)
  ps_overflow : list ptr;   (* its capacity is always its length *)
}.

Definition ps_zero : parentStack :=
  ParentStk 0 (replicate (Z.to_nat staticDepth) None) [].

Definition ps_Len (s : parentStack) : Z := ps_index s.

Definition ps_At (s : parentStack) (n : Z) : outcome ptr :=
  let index := ps_index s - n - 1 in
  if decide (index < 0) then Ok None
  else if decide (index < staticDepth) then slice_get (ps_items s) index
  else slice_get (ps_overflow s) (index - staticDepth).

Definition ps_Pop (s : parentStack) : outcome (ptr * parentStack) :=
  if decide (ps_index s = 0) then Ok (None, s)
  else
    let index := ps_index s - 1 in
    if decide (index < staticDepth) then
      node ← slice_get (ps_items s) index;
      items ← slice_set (ps_items s) index None;
      Ok (node, ParentStk index items (ps_overflow s))
    else
      node ← slice_get (ps_overflow s) (index - staticDepth);
      overflow ← slice_set (ps_overflow s) (index - staticDepth) None;
      Ok (node, ParentStk index (ps_items s) overflow).

Definition ps_Push (s : parentStack) (node : ptr) : outcome parentStack :=
  if decide (ps_index s < staticDepth) then
    items ← slice_set (ps_items s) (ps_index s) node;
    Ok (ParentStk (ps_index s + 1) items (ps_overflow s))
  else
    let index := ps_index s - staticDepth in
    let cap := Z.of_nat (length (ps_overflow s)) in
    let overflow :=
      if decide (index + 1 > cap)
      then ps_overflow s ++ replicate (Z.to_nat (index + 1 - cap)) None
      else ps_overflow s in
    overflow ← slice_set overflow index node;
    Ok (ParentStk (ps_index s + 1) (ps_items s) overflow).

Global Instance parentStack_ops : ParentStack parentStack := {
  stk_empty := ps_zero;
  stk_len := ps_Len;
  stk_at := ps_At;
  stk_pop := ps_Pop;
  stk_push := ps_Push;
}.

(** The slots, static then dynamic, are the pushed pointers from the bottom up
    followed by nils. *)
Definition ps_abs (s : parentStack) (l : list ptr) : Prop :=
  ps_index s = Z.of_nat (length l) /\
  length (ps_items s) = Z.to_nat staticDepth /\
  exists k, ps_items s ++ ps_overflow s = reverse l ++ replicate k None.

Lemma ps_slots_get s l (i : Z) (p : ptr) :
  ps_abs s l -> 0 <= i -> (ps_items s ++ ps_overflow s) !! Z.to_nat i = Some p ->
  (if decide (i < staticDepth) then slice_get (ps_items s) i
   else slice_get (ps_overflow s) (i - staticDepth)) = Ok p.
Proof.
  intros (_ & Hlen & _) Hi Hp. unfold staticDepth in *.
  case_decide.
  - apply slice_get_ok; [done|]. rewrite lookup_app_l in Hp by lia. done.
  - apply slice_get_ok; [lia|]. rewrite lookup_app_r in Hp by lia.
    rewrite Hlen in Hp. by replace (Z.to_nat (i - 128)) with (Z.to_nat i - Z.to_nat 128)%nat by lia.
Qed.

Lemma reverse_lookup_top {A} (l : list A) (n : nat) :
  (n < length l)%nat -> reverse l !! (length l - S n)%nat = l !! n.
Proof.
  intros. rewrite reverse_lookup by lia. f_equal. lia.
Qed.

Lemma ps_at_ok s l n :
  ps_abs s l -> 0 <= n -> ps_At s n = Ok (mjoin (l !! Z.to_nat n)).
Proof.
  intros Habs Hn. pose proof Habs as (Hi & Hlen & k & Hk). unfold ps_At.
  case_decide.
  - rewrite lookup_ge_None_2 by lia. done.
  - assert (Z.to_nat n < length l)%nat as Hlt by lia.
    destruct (lookup_lt_is_Some_2 _ _ Hlt) as [p Hp]. rewrite Hp. simpl.
    apply (ps_slots_get s l); [done|lia|].
    rewrite Hk, lookup_app_l by (rewrite length_reverse; lia).
    rewrite <- Hp, <- (reverse_lookup_top l) by done. f_equal. lia.
Qed.

Lemma ps_pop_ok s p l :
  ps_abs s (p :: l) -> exists s', ps_Pop s = Ok (p, s') /\ ps_abs s' l.
Proof.
  intros Habs. pose proof Habs as (Hi & Hlen & k & Hk). unfold ps_Pop.
  rewrite decide_False by (rewrite Hi; simpl; lia).
  assert (ps_index s - 1 = Z.of_nat (length l)) as Hx by (rewrite Hi; simpl; lia).
  rewrite Hx. rewrite reverse_cons, <- app_assoc in Hk. simpl in Hk.
  assert ((ps_items s ++ ps_overflow s) !! length l = Some p) as Hp.
  { rewrite Hk, lookup_app_r by (rewrite length_reverse; lia).
    by rewrite length_reverse, Nat.sub_diag. }
  pose proof (ps_slots_get s _ (Z.of_nat (length l)) p Habs ltac:(lia)
    ltac:(by rewrite Nat2Z.id)) as Hget.
  assert (<[length l := None]> (ps_items s ++ ps_overflow s) = reverse l ++ replicate (S k) None) as Hset.
  { rewrite Hk, insert_app_r_alt by (rewrite length_reverse; lia).
    by rewrite length_reverse, Nat.sub_diag. }
  apply lookup_lt_Some in Hp. rewrite length_app in Hp.
  unfold staticDepth in *. case_decide; rewrite Hget; simpl.
  - rewrite slice_set_ok by lia. simpl. eexists; split; [done|].
    split; [done|split]; simpl; [by rewrite length_insert|].
    exists (S k). rewrite <- Hset, insert_app_l by lia. do 2 f_equal. lia.
  - rewrite slice_set_ok by lia. simpl. eexists; split; [done|].
    split; [done|split]; simpl; [done|].
    exists (S k). rewrite <- Hset, insert_app_r_alt by lia. do 2 f_equal. lia.
Qed.

Lemma ps_push_ok s p l :
  ps_abs s l -> exists s', ps_Push s p = Ok s' /\ ps_abs s' (p :: l).
Proof.
  intros (Hi & Hlen & k & Hk). unfold ps_Push. rewrite Hi.
  pose proof (f_equal length Hk) as Hkl.
  rewrite !length_app, length_reverse, length_replicate in Hkl.
  assert (forall k', <[length l := p]> (reverse l ++ replicate (S k') None)
          = reverse (p :: l) ++ replicate k' None) as Hset.
  { intros. rewrite insert_app_r_alt by (rewrite length_reverse; lia).
    by rewrite length_reverse, Nat.sub_diag, reverse_cons, <- app_assoc. }
  unfold staticDepth in *. case_decide.
  - rewrite slice_set_ok by lia. simpl. eexists; split; [done|].
    split; [simpl; lia|split]; simpl; [by rewrite length_insert|].
    destruct k as [|k]; [lia|]. exists k.
    rewrite <- Hset, <- Hk, insert_app_l by lia. do 2 f_equal. lia.
  - case_decide.
    + assert (k = 0)%nat as -> by lia. rewrite app_nil_r in Hk.
      rewrite slice_set_ok by (rewrite length_app, length_replicate; lia). simpl.
      eexists; split; [done|]. split; [simpl; lia|split]; simpl; [done|].
      exists 0%nat. rewrite <- Hset. simpl. rewrite <- Hk, <- app_assoc.
      rewrite (insert_app_r_alt (ps_items s)) by lia. f_equal. f_equal; [lia|].
      f_equal. by replace (Z.to_nat _) with 1%nat by lia.
    + rewrite slice_set_ok by lia. simpl. eexists; split; [done|].
      split; [simpl; lia|split]; simpl; [done|].
      destruct k as [|k]; [lia|]. exists k.
      rewrite <- Hset, <- Hk, insert_app_r_alt by lia. do 2 f_equal. lia.
Qed.

Global Instance parentStack_laws : ParentStackLaws parentStack.
Proof.
  refine {| stk_abs := ps_abs |}; simpl.
  - repeat split. exists (Z.to_nat staticDepth). by rewrite app_nil_r.
  - intros s l [Hi _]. exact Hi.
  - apply ps_at_ok.
  - intros s (Hi & Hlen & k & Hk). unfold ps_At. rewrite Hi.
    rewrite decide_False by done.
    apply (ps_slots_get s []); [repeat split; eauto|done|].
    simpl in Hk. rewrite Hk. apply lookup_replicate_2.
    pose proof (f_equal length Hk) as Hl. rewrite length_app, length_replicate in Hl.
    unfold staticDepth in *. simpl. lia.
  - apply ps_pop_ok.
  - intros s [Hi _]. unfold ps_Pop. by rewrite decide_True by done.
  - intros. by apply ps_push_ok.
Qed.
