(* ===== verification/TreapTree.v ===== *)
(** * Located trees: the abstraction of a treap in the heap

    A [ltree] is a binary tree whose nodes carry the heap location that stores
    them, so that [rep h t] says what the cells of [h] contain and the pointer
    operations of the treap become operations on [ltree]s and on zippers
    ([list frame]).  [inorder] is the abstract content of the treap, a list of
    key/value pairs sorted by key, and [contents] the finite map it denotes. *)
From stdpp Require Import gmap list sorting.
From Stdlib Require Import ZArith Lia.
From S2P Require Import Prelude TreapNode.

Open Scope Z_scope.

Abbreviation kv := (list Z * list Z)%type.

Record item := Item { it_key : list Z; it_value : list Z; it_prio : Z }.
Definition kv_of (d : item) : kv := (it_key d, it_value d).
Definition cell (d : item) (l r : ptr) : treapNode :=
  TreapNode (it_key d) (it_value d) (it_prio d) l r.

Inductive ltree :=
  | LLeaf
  | LNode (l : ltree) (a : loc) (d : item) (r : ltree).

Definition lroot (t : ltree) : ptr :=
  match t with LLeaf => None | LNode _ a _ _ => Some a end.

Fixpoint locs (t : ltree) : list loc :=
  match t with LLeaf => [] | LNode l a _ r => a :: locs l ++ locs r end.

Fixpoint inorder (t : ltree) : list kv :=
  match t with LLeaf => [] | LNode l _ d r => inorder l ++ kv_of d :: inorder r end.

Fixpoint rep (h : nheap) (t : ltree) : Prop :=
  match t with
  | LLeaf => True
  | LNode l a d r => h !! a = Some (cell d (lroot l) (lroot r)) /\ rep h l /\ rep h r
  end.

(** ** Zippers *)

Inductive frame :=
  | FLeft (a : loc) (d : item) (r : ltree)    (* the hole is the left child *)
  | FRight (l : ltree) (a : loc) (d : item).  (* the hole is the right child *)

Definition frame_loc (f : frame) : loc :=
  match f with FLeft a _ _ | FRight _ a _ => a end.
Definition frame_item (f : frame) : item :=
  match f with FLeft _ d _ | FRight _ _ d => d end.
Definition frame_sib (f : frame) : ltree :=
  match f with FLeft _ _ t | FRight t _ _ => t end.
Definition plug1 (f : frame) (t : ltree) : ltree :=
  match f with FLeft a d r => LNode t a d r | FRight l a d => LNode l a d t end.
Definition frame_cell (f : frame) (p : ptr) : treapNode :=
  match f with
  | FLeft _ d r => cell d p (lroot r)
  | FRight l _ d => cell d (lroot l) p
  end.

Fixpoint plug (path : list frame) (t : ltree) : ltree :=
  match path with [] => t | f :: path => plug path (plug1 f t) end.

(** The root pointer of [plug path t] when [p] is the root pointer of [t]. *)
Fixpoint ctx_root (path : list frame) (p : ptr) : ptr :=
  match path with [] => p | f :: path => ctx_root path (Some (frame_loc f)) end.

Fixpoint rep_ctx (h : nheap) (path : list frame) (p : ptr) : Prop :=
  match path with
  | [] => True
  | f :: path =>
      h !! frame_loc f = Some (frame_cell f p) /\ rep h (frame_sib f) /\
      rep_ctx h path (Some (frame_loc f))
  end.

Fixpoint path_locs (path : list frame) : list loc :=
  match path with
  | [] => []
  | f :: path => frame_loc f :: locs (frame_sib f) ++ path_locs path
  end.

(** The pairs before and after the hole. *)
Fixpoint before (path : list frame) : list kv :=
  match path with
  | [] => []
  | FLeft _ _ _ :: path => before path
  | FRight l _ d :: path => before path ++ inorder l ++ [kv_of d]
  end.
Fixpoint after (path : list frame) : list kv :=
  match path with
  | [] => []
  | FLeft _ d r :: path => kv_of d :: inorder r ++ after path
  | FRight _ _ _ :: path => after path
  end.

Definition path_ptrs (path : list frame) : list ptr := Some ∘ frame_loc <$> path.

Lemma inorder_plug path t : inorder (plug path t) = before path ++ inorder t ++ after path.
Proof.
  revert t; induction path as [|[a d r|l a d] path IH]; intros t; simpl.
  - by rewrite app_nil_r.
  - rewrite IH. simpl. by rewrite <- !app_assoc.
  - rewrite IH. simpl. by rewrite <- !app_assoc.
Qed.

Lemma inorder_plug_node path l a d r :
  inorder (plug path (LNode l a d r)) =
  (before path ++ inorder l) ++ kv_of d :: inorder r ++ after path.
Proof. rewrite inorder_plug. simpl. by rewrite <- !app_assoc. Qed.

Lemma lroot_plug path t : lroot (plug path t) = ctx_root path (lroot t).
Proof. revert t; induction path as [|[] path IH]; intros t; simpl; auto; by rewrite IH. Qed.

Lemma locs_plug path t : locs (plug path t) ≡ₚ locs t ++ path_locs path.
Proof.
  revert t; induction path as [|[a d r|l a d] path IH]; intros t; simpl;
    rewrite ?app_nil_r, ?IH; simpl; solve_Permutation.
Qed.

Lemma rep_plug h path t : rep h (plug path t) <-> rep_ctx h path (lroot t) /\ rep h t.
Proof.
  revert t; induction path as [|[a d r|l a d] path IH]; intros t; simpl;
    rewrite ?IH; simpl; naive_solver.
Qed.

(** ** Framing *)

Lemma rep_insert h t a n : a ∉ locs t -> rep h t -> rep (<[a := n]> h) t.
Proof.
  induction t as [|l IHl b d r IHr]; simpl; [done|].
  intros Ha (? & ? & ?). rewrite not_elem_of_cons, not_elem_of_app in Ha.
  rewrite lookup_insert_ne by naive_solver. naive_solver.
Qed.

Lemma rep_ctx_insert h path p a n :
  a ∉ path_locs path -> rep_ctx h path p -> rep_ctx (<[a := n]> h) path p.
Proof.
  revert p; induction path as [|f path IH]; intros p; simpl; [done|].
  rewrite not_elem_of_cons, not_elem_of_app. intros (? & ? & ?) (? & ? & ?).
  rewrite lookup_insert_ne by done. split_and!; auto using rep_insert.
Qed.

Lemma rep_mono h h' t : h ⊆ h' -> rep h t -> rep h' t.
Proof.
  intros Hsub. induction t as [|l IHl b d r IHr]; simpl; [done|].
  intros (? & ? & ?). split_and!; auto. by eapply lookup_weaken.
Qed.

Lemma rep_locs_dom h t a : rep h t -> a ∈ locs t -> is_Some (h !! a).
Proof.
  induction t as [|l IHl b d r IHr]; simpl; [by intros _ ?%elem_of_nil|].
  rewrite elem_of_cons, elem_of_app. intros (? & ? & ?) [->|[]]; eauto.
Qed.

Lemma rep_ctx_locs_dom h path p a : rep_ctx h path p -> a ∈ path_locs path -> is_Some (h !! a).
Proof.
  revert p; induction path as [|f path IH]; intros p; simpl; [by intros _ ?%elem_of_nil|].
  rewrite elem_of_cons, elem_of_app. intros (? & ? & ?) [->|[]]; eauto using rep_locs_dom.
Qed.

Lemma rep_size h t : rep h t -> NoDup (locs t) -> (length (locs t) <= size h)%nat.
Proof.
  intros Hrep Hnd. change (size h) with (size h). rewrite <- (size_dom h).
  rewrite <- (size_list_to_set (C := gset loc) (locs t)) by done.
  apply subseteq_size. intros a Ha%elem_of_list_to_set.
  apply elem_of_dom. by eapply rep_locs_dom.
Qed.

Lemma length_locs_inorder t : length (locs t) = length (inorder t).
Proof. induction t; simpl; [done|]. rewrite !length_app. simpl. lia. Qed.

Lemma lroot_elem t a : lroot t = Some a -> a ∈ locs t.
Proof. destruct t; simpl; [done|]. intros [= ->]. constructor. Qed.

(** ** Sorted content and the map it denotes *)

Definition keys_sorted (l : list kv) : Prop := StronglySorted bytes_lt l.*1.
Definition contents (t : ltree) : gmap (list Z) (list Z) := list_to_map (inorder t).

Definition all_lt (l : list kv) (k : list Z) : Prop := Forall (fun x => bytes_lt x.1 k) l.
Definition all_gt (l : list kv) (k : list Z) : Prop := Forall (fun x => bytes_lt k x.1) l.

Lemma keys_sorted_app l1 l2 :
  keys_sorted (l1 ++ l2) <->
  keys_sorted l1 /\ keys_sorted l2 /\ forall x y, x ∈ l1 -> y ∈ l2 -> bytes_lt x.1 y.1.
Proof.
  unfold keys_sorted. induction l1 as [|x l1 IH]; simpl.
  - split; [|naive_solver]. intros. split_and!; auto using SSorted_nil.
    by intros x y ?%elem_of_nil.
  - split.
    + inversion_clear 1 as [|? ? Hs Hf]. apply IH in Hs as (? & ? & Hx).
      rewrite fmap_app, Forall_app in Hf. destruct Hf as [Hf1 Hf2]. split_and!; auto.
      * by constructor.
      * intros y z [->|Hy]%elem_of_cons Hz; [|by auto].
        rewrite Forall_fmap, Forall_forall in Hf2. by apply Hf2.
    + intros (Hs1 & Hs2 & Hx). inversion_clear Hs1 as [|? ? Hs Hf]. constructor.
      * apply IH. split_and!; auto. intros; apply Hx; auto. by constructor.
      * rewrite fmap_app. apply Forall_app; split; [done|].
        rewrite Forall_fmap, Forall_forall. intros y Hy. apply Hx; [constructor|done].
Qed.

Lemma keys_sorted_cons x l : keys_sorted (x :: l) <-> keys_sorted l /\ all_gt l x.1.
Proof.
  unfold keys_sorted, all_gt. simpl. split.
  - inversion_clear 1 as [|? ? ? Hf]. by rewrite Forall_fmap in Hf.
  - intros [? ?]. constructor; [done|]. by rewrite Forall_fmap.
Qed.

Lemma keys_sorted_mid l1 x l2 :
  keys_sorted (l1 ++ x :: l2) <->
  keys_sorted (l1 ++ l2) /\ all_lt l1 x.1 /\ all_gt l2 x.1.
Proof.
  rewrite !keys_sorted_app, keys_sorted_cons. unfold all_lt, all_gt.
  rewrite !Forall_forall. split.
  - intros (? & [? ?] & Hx). split_and!; auto.
    + intros; apply Hx; auto. by apply elem_of_cons; right.
    + intros; apply Hx; auto. constructor.
  - intros ((? & ? & ?) & ? & ?). split_and!; auto.
    intros y z ? [->|]%elem_of_cons; auto.
Qed.

Lemma all_lt_not_key l k : all_lt l k -> k ∉ l.*1.
Proof.
  intros Hf (x & -> & Hx)%list_elem_of_fmap.
  eapply Forall_forall in Hf; [|done]. by apply bytes_lt_irrefl in Hf.
Qed.
Lemma all_gt_not_key l k : all_gt l k -> k ∉ l.*1.
Proof.
  intros Hf (x & -> & Hx)%list_elem_of_fmap.
  eapply Forall_forall in Hf; [|done]. by apply bytes_lt_irrefl in Hf.
Qed.

Lemma list_to_map_mid (l1 l2 : list kv) k v :
  k ∉ l1.*1 ->
  (list_to_map (l1 ++ (k, v) :: l2) : gmap _ _) = <[k := v]> (list_to_map (l1 ++ l2)).
Proof.
  induction l1 as [|[k' v'] l1 IH]; simpl; [done|].
  rewrite not_elem_of_cons. intros [? ?]. rewrite IH by done. by apply insert_insert_ne.
Qed.

Lemma list_to_map_notin (l1 l2 : list kv) k :
  k ∉ l1.*1 -> k ∉ l2.*1 -> (list_to_map (l1 ++ l2) : gmap _ (list Z)) !! k = None.
Proof.
  intros. apply not_elem_of_list_to_map_1. rewrite fmap_app, elem_of_app. tauto.
Qed.

(** ** Heap order *)

Definition prio_ge (t : ltree) (p : Z) : Prop :=
  match t with LLeaf => True | LNode _ _ d _ => p <= it_prio d end.

(** Every node's priority is at most its children's: the min-heap of the sources. *)
Fixpoint min_heap (t : ltree) : Prop :=
  match t with
  | LLeaf => True
  | LNode l _ d r =>
      prio_ge l (it_prio d) /\ prio_ge r (it_prio d) /\ min_heap l /\ min_heap r
  end.

Fixpoint ctx_heap (path : list frame) : Prop :=
  match path with
  | [] => True
  | f :: path =>
      prio_ge (frame_sib f) (it_prio (frame_item f)) /\ min_heap (frame_sib f) /\
      (match path with [] => True | g :: _ => it_prio (frame_item g) <= it_prio (frame_item f) end) /\
      ctx_heap path
  end.

Definition fits (path : list frame) (t : ltree) : Prop :=
  match path with [] => True | f :: _ => prio_ge t (it_prio (frame_item f)) end.

Lemma min_heap_plug path t : min_heap (plug path t) <-> ctx_heap path /\ min_heap t /\ fits path t.
Proof.
  revert t; induction path as [|f path IH]; intros t; simpl; [naive_solver|].
  rewrite IH. destruct f, path; simpl; naive_solver.
Qed.

(** ** The content of a treap, as the bookkeeping fields see it *)

(** The sum of the node sizes, before the wrap-around of [totalSize]. *)
Definition kv_size (x : kv) : Z :=
  nodeFieldsSize + Z.of_nat (length x.1) + Z.of_nat (length x.2).
Definition total_size (l : list kv) : Z := foldr (fun x s => kv_size x + s) 0 l.

Lemma total_size_app l1 l2 : total_size (l1 ++ l2) = total_size l1 + total_size l2.
Proof. induction l1 as [|x l1 IH]; simpl; [done|]. unfold total_size in *. simpl. lia. Qed.

Lemma total_size_cons x l : total_size (x :: l) = kv_size x + total_size l.
Proof. reflexivity. Qed.

Global Arguments total_size : simpl never.

Lemma nodeSize_cell d l r : nodeSize (cell d l r) = u64 (kv_size (kv_of d)).
Proof.
  unfold nodeSize, kv_size, uwrap, cell, kv_of. simpl.
  rewrite Zplus_mod_idemp_r. f_equal. lia.
Qed.

(** ** The searches of the treap, on located trees *)

(** Where [key] would be: the path from the root to the node that holds it, or
    to the leaf where it belongs. *)
Fixpoint lsearch (path : list frame) (t : ltree) (key : list Z) : list frame * ltree :=
  match t with
  | LLeaf => (path, LLeaf)
  | LNode l a d r =>
      match bytes_compare key (it_key d) with
      | Lt => lsearch (FLeft a d r :: path) l key
      | Gt => lsearch (FRight l a d :: path) r key
      | Eq => (path, t)
      end
  end.

Lemma lsearch_plug path t key path' t' :
  lsearch path t key = (path', t') -> plug path t = plug path' t'.
Proof.
  revert path; induction t as [|l IHl a d r IHr]; intros path; simpl; [naive_solver|].
  destruct (bytes_compare key (it_key d)); [naive_solver| |].
  - intros H. by apply IHl in H.
  - intros H. by apply IHr in H.
Qed.

Lemma lsearch_found path t key path' l a d r :
  lsearch path t key = (path', LNode l a d r) -> it_key d = key.
Proof.
  revert path; induction t as [|tl IHl b e tr IHr]; intros path; simpl; [naive_solver|].
  destruct (bytes_compare key (it_key e)) eqn:E; [|apply IHl|apply IHr].
  apply bytes_compare_eq in E. naive_solver.
Qed.

(** In a sorted tree, everything before the hole is smaller than the key and
    everything after it is larger. *)
Lemma lsearch_order path t key path' t' :
  keys_sorted (inorder (plug path t)) ->
  all_lt (before path) key -> all_gt (after path) key ->
  lsearch path t key = (path', t') ->
  all_lt (before path') key /\ all_gt (after path') key.
Proof.
  unfold all_lt, all_gt.
  revert path; induction t as [|l IHl a d r IHr]; intros path Hs Hb Ha; simpl; [naive_solver|].
  pose proof Hs as Hs'. rewrite inorder_plug_node in Hs'.
  apply keys_sorted_mid in Hs' as (_ & Hlt & Hgt).
  unfold all_lt, all_gt in Hlt, Hgt. rewrite Forall_app in Hlt, Hgt.
  destruct (bytes_compare key (it_key d)) eqn:E; [naive_solver| |].
  - apply IHl; simpl; [done|done|]. constructor; [done|].
    apply Forall_app; split; [|done].
    eapply Forall_impl; [apply Hgt|]. intros x ?. simpl in *. by transitivity (it_key d).
  - apply IHr; simpl; [done| |done]. rewrite !Forall_app. apply bytes_compare_gt in E.
    split_and!; [done| |by constructor].
    eapply Forall_impl; [apply Hlt|]. intros x ?. simpl in *. by transitivity (it_key d).
Qed.

(** Looking a key up in the map is searching for it in the tree. *)
Lemma contents_lookup t key path t' :
  keys_sorted (inorder t) -> lsearch [] t key = (path, t') ->
  contents t !! key = match t' with LLeaf => None | LNode _ _ d _ => Some (it_value d) end.
Proof.
  intros Hs Hl. pose proof (lsearch_plug _ _ _ _ _ Hl) as Hp. simpl in Hp.
  destruct (lsearch_order [] t key path t') as [Hb Ha]; [done|by constructor..|done|].
  unfold contents. rewrite Hp. destruct t' as [|l a d r].
  - rewrite inorder_plug. apply list_to_map_notin; auto using all_lt_not_key, all_gt_not_key.
  - apply lsearch_found in Hl as Hk. rewrite Hp, inorder_plug_node in Hs.
    rewrite inorder_plug_node. apply keys_sorted_mid in Hs as (_ & Hlt & _).
    unfold kv_of in *. simpl in Hlt.
    rewrite list_to_map_mid by (by apply all_lt_not_key).
    rewrite <- Hk. apply lookup_insert_eq.
Qed.

(** Replacing the value of the node that holds the key. *)
Lemma contents_replace path l a d r v :
  keys_sorted (inorder (plug path (LNode l a d r))) ->
  keys_sorted (inorder (plug path (LNode l a (Item (it_key d) v (it_prio d)) r))) /\
  contents (plug path (LNode l a (Item (it_key d) v (it_prio d)) r)) =
    <[it_key d := v]> (contents (plug path (LNode l a d r))).
Proof.
  unfold contents. rewrite !inorder_plug_node. intros Hs. pose proof Hs as (? & Hlt & ?)%keys_sorted_mid.
  split; [by apply keys_sorted_mid|].
  unfold kv_of. simpl in *. rewrite !list_to_map_mid by (by apply all_lt_not_key).
  by rewrite insert_insert_eq.
Qed.

(** Adding a pair where the search for its key ended. *)
Lemma contents_add t key path a v p :
  keys_sorted (inorder t) -> lsearch [] t key = (path, LLeaf) ->
  keys_sorted (inorder (plug path (LNode LLeaf a (Item key v p) LLeaf))) /\
  contents (plug path (LNode LLeaf a (Item key v p) LLeaf)) = <[key := v]> (contents t) /\
  contents t !! key = None.
Proof.
  intros Hs Hl. pose proof (lsearch_plug _ _ _ _ _ Hl) as Hp. simpl in Hp.
  destruct (lsearch_order [] t key path LLeaf) as [Hb Ha]; [done|by constructor..|done|].
  unfold contents. rewrite Hp, !inorder_plug in *. simpl in *. split_and!.
  - by apply keys_sorted_mid.
  - unfold kv_of; simpl. by rewrite list_to_map_mid by (by apply all_lt_not_key).
  - apply list_to_map_notin; auto using all_lt_not_key, all_gt_not_key.
Qed.

(** Removing the node that holds a key. *)
Lemma contents_remove t1 t2 (l1 l2 : list kv) x :
  inorder t1 = l1 ++ x :: l2 -> inorder t2 = l1 ++ l2 -> keys_sorted (inorder t1) ->
  keys_sorted (inorder t2) /\ contents t2 = delete x.1 (contents t1).
Proof.
  unfold contents. intros -> -> (? & Hlt & Hgt)%keys_sorted_mid. split; [done|].
  destruct x as [k v]. simpl in *. rewrite list_to_map_mid by (by apply all_lt_not_key).
  rewrite delete_insert_id; [done|].
  apply list_to_map_notin; auto using all_lt_not_key, all_gt_not_key.
Qed.

(** ** Rotations *)

(** The rotations of [Put]: while the node is smaller than its parent it takes
    the parent's place. *)
Fixpoint rotate_up (path : list frame) (l : ltree) (a : loc) (d : item) (r : ltree) : ltree :=
  match path with
  | [] => LNode l a d r
  | f :: path' =>
      if decide (it_prio (frame_item f) <= it_prio d) then plug path (LNode l a d r)
      else match f with
           | FLeft b e s => rotate_up path' l a d (LNode r b e s)
           | FRight s b e => rotate_up path' (LNode s b e l) a d r
           end
  end.

Lemma rotate_up_inorder path l a d r :
  inorder (rotate_up path l a d r) = inorder (plug path (LNode l a d r)).
Proof.
  revert l r; induction path as [|[b e s|s b e] path IH]; intros l r; simpl; [done| |];
    case_decide; try done; rewrite IH, !inorder_plug; by list_norm.
Qed.

Lemma rotate_up_locs path l a d r :
  locs (rotate_up path l a d r) ≡ₚ locs (plug path (LNode l a d r)).
Proof.
  revert l r; induction path as [|[b e s|s b e] path IH]; intros l r; simpl; [done| |];
    case_decide; try done; rewrite IH, !locs_plug; simpl; solve_Permutation.
Qed.

Lemma rotate_up_min_heap path l a d r :
  ctx_heap path -> min_heap (LNode l a d r) -> fits path l -> fits path r ->
  min_heap (rotate_up path l a d r).
Proof.
  revert l r; induction path as [|f path IH]; intros l r Hc Hm Hl Hr; [done|].
  unfold rotate_up; fold rotate_up. case_decide.
  - apply min_heap_plug. split_and!; done.
  - simpl in Hc. destruct Hc as (Hsib & Hms & Hg & Hc). simpl in Hm, Hl, Hr.
    assert (forall t, prio_ge t (it_prio (frame_item f)) -> fits path t) as Hfit.
    { intros t Ht. destruct path as [|g path]; simpl in *; [done|].
      destruct t; simpl in *; [done|]. lia. }
    destruct f as [b e s|s b e]; simpl in *; apply IH; simpl; auto;
      try (split_and!; naive_solver lia); destruct path; simpl; auto.
Qed.
