(* ===== verification/TreapMutable.v ===== *)
(** * The mutable treap

    Models [btcd/database/internal/treap/mutable.go] on the heap of treap nodes:
    every pointer assignment of the source is a [modify] of a cell.  The draw of
    [rand.Int()] for a new node is the argument [rnd] of [m_Put].  Loops carry a
    fuel, the number of cells of the heap, which the theorems show to suffice. *)
From stdpp Require Import gmap list sorting.
From Stdlib Require Import ZArith Lia.
From S2P Require Import Prelude TreapNode TreapTree.

Open Scope Z_scope.

Record Mutable := MkMutable { m_root : ptr; m_count : Z; m_totalSize : Z }.

Definition set_root (t : Mutable) (p : ptr) : Mutable :=
  MkMutable p (m_count t) (m_totalSize t).

Definition NewMutable : Mutable := MkMutable None 0 0.
Definition m_Reset (t : Mutable) : Mutable := MkMutable None 0 0.
Definition m_Len (t : Mutable) : Z := m_count t.
Definition m_Size (t : Mutable) : Z := m_totalSize t.

Fixpoint m_get_loop (fuel : nat) (h : nheap) (key : list Z) (node parent : ptr)
    : outcome (ptr * ptr) :=
  match node with
  | None => Ok (None, None)
  | Some _ =>
      match fuel with
      | O => NoFuel
      | S fuel =>
          n ← load h node;
          match bytes_compare key (tn_key n) with
          | Lt => m_get_loop fuel h key (tn_left n) node
          | Gt => m_get_loop fuel h key (tn_right n) node
          | Eq => Ok (node, parent)
          end
      end
  end.

Definition m_get (h : nheap) (t : Mutable) (key : list Z) : outcome (ptr * ptr) :=
  m_get_loop (size h) h key (m_root t) None.

Definition m_Has (h : nheap) (t : Mutable) (key : list Z) : outcome bool :=
  '(node, _) ← m_get h t key;
  Ok (match node with Some _ => true | None => false end).

Definition m_Get (h : nheap) (t : Mutable) (key : list Z) : outcome (option (list Z)) :=
  '(node, _) ← m_get h t key;
  match node with
  | Some _ => n ← load h node; Ok (Some (tn_value n))
  | None => Ok None
  end.

Definition m_relinkGrandparent (h : nheap) (t : Mutable) (node parent grandparent : ptr)
    : outcome (nheap * Mutable) :=
  match grandparent with
  | None => Ok (h, set_root t node)
  | Some _ =>
      g ← load h grandparent;
      h ← (if decide (tn_left g = parent)
           then modify h grandparent (set_left node)
           else modify h grandparent (set_right node));
      Ok (h, t)
  end.

(** The rotation that puts [node] in the place of its [parent]; [nd] and [pn]
    are what the two cells hold before it. *)
Definition rotate_nodes (h : nheap) (node parent : ptr) (nd pn : treapNode) : outcome nheap :=
  if decide (tn_left pn = node) then
    h1 ← modify h node (set_right parent);
    modify h1 parent (set_left (tn_right nd))
  else
    h1 ← modify h node (set_left parent);
    modify h1 parent (set_right (tn_left nd)).

(** Links a new node below [parent], on the side of the last comparison. *)
Definition link_child (h : nheap) (parent : ptr) (compareResult : comparison) (node : ptr)
    : outcome nheap :=
  match compareResult with
  | Lt => modify h parent (set_left node)
  | _ => modify h parent (set_right node)
  end.

Section Put.
Context {Stk : Type} `{ParentStack Stk}.

Fixpoint m_put_search (fuel : nat) (h : nheap) (key : list Z) (node : ptr)
    (parents : Stk) (compareResult : comparison) : outcome (ptr * Stk * comparison) :=
  match node with
  | None => Ok (None, parents, compareResult)
  | Some _ =>
      match fuel with
      | O => NoFuel
      | S fuel =>
          parents ← stk_push parents node;
          n ← load h node;
          match bytes_compare key (tn_key n) with
          | Lt => m_put_search fuel h key (tn_left n) parents Lt
          | Gt => m_put_search fuel h key (tn_right n) parents Gt
          | Eq => Ok (node, parents, Eq)
          end
      end
  end.

Fixpoint m_put_rotate (fuel : nat) (h : nheap) (t : Mutable) (node : ptr) (parents : Stk)
    : outcome (nheap * Mutable) :=
  if decide (stk_len parents > 0) then
    match fuel with
    | O => NoFuel
    | S fuel =>
        '(parent, parents) ← stk_pop parents;
        nd ← load h node;
        pn ← load h parent;
        if decide (tn_priority nd >= tn_priority pn) then Ok (h, t)
        else
          h ← rotate_nodes h node parent nd pn;
          grandparent ← stk_at parents 0;
          '(h, t) ← m_relinkGrandparent h t node parent grandparent;
          m_put_rotate fuel h t node parents
    end
  else Ok (h, t).

(** [value = None] is a nil slice. *)
Definition m_Put (h : nheap) (t : Mutable) (key : list Z) (value : option (list Z)) (rnd : Z)
    : outcome (nheap * Mutable) :=
  let value := default emptySlice value in
  match m_root t with
  | None =>
      let node := newTreapNode key value rnd in
      let '(h, p) := alloc h node in
      Ok (h, MkMutable p 1 (nodeSize node))
  | Some _ =>
      '(found, parents, compareResult) ←
        m_put_search (size h) h key (m_root t) stk_empty Eq;
      match found with
      | Some _ =>
          n ← load h found;
          let sz := u64 (m_totalSize t - Z.of_nat (length (tn_value n))) in
          let sz := u64 (sz + Z.of_nat (length value)) in
          h ← modify h found (set_value value);
          Ok (h, MkMutable (m_root t) (m_count t) sz)
      | None =>
          let node := newTreapNode key value rnd in
          let '(h, p) := alloc h node in
          let t := MkMutable (m_root t) (i64 (m_count t + 1))
                     (u64 (m_totalSize t + nodeSize node)) in
          parent ← stk_at parents 0;
          h ← link_child h parent compareResult p;
          m_put_rotate (Z.to_nat (stk_len parents)) h t p parents
      end
  end.

Fixpoint m_push_left (fuel : nat) (h : nheap) (node : ptr) (parents : Stk) : outcome Stk :=
  match node with
  | None => Ok parents
  | Some _ =>
      match fuel with
      | O => NoFuel
      | S fuel =>
          parents ← stk_push parents node;
          n ← load h node;
          m_push_left fuel h (tn_left n) parents
      end
  end.

(** The callback threads a state of type [A] and says whether to go on. *)
Fixpoint m_foreach_loop {A} (fuel : nat) (h : nheap) (fn : A -> list Z -> list Z -> A * bool)
    (st : A) (parents : Stk) : outcome A :=
  if decide (stk_len parents > 0) then
    match fuel with
    | O => NoFuel
    | S fuel =>
        '(node, parents) ← stk_pop parents;
        n ← load h node;
        let '(st, go) := fn st (tn_key n) (tn_value n) in
        if go then
          parents ← m_push_left (size h) h (tn_right n) parents;
          m_foreach_loop fuel h fn st parents
        else Ok st
    end
  else Ok st.

Definition m_ForEach {A} (h : nheap) (t : Mutable) (fn : A -> list Z -> list Z -> A * bool)
    (st : A) : outcome A :=
  parents ← m_push_left (size h) h (m_root t) stk_empty;
  m_foreach_loop (size h) h fn st parents.
End Put.

(** The child that [Delete] rotates up, and whether it is the left one. *)
Definition choose_child (h : nheap) (n : treapNode) : outcome (ptr * bool) :=
  match tn_left n, tn_right n with
  | None, _ => Ok (tn_right n, false)
  | _, None => Ok (tn_left n, true)
  | Some _, Some _ =>
      l ← load h (tn_left n);
      r ← load h (tn_right n);
      Ok (if decide (tn_priority l >= tn_priority r)
          then (tn_left n, true) else (tn_right n, false))
  end.

(** The rotation that moves [node] below its [child], whose cell holds [c]. *)
Definition sink_child (h : nheap) (node child : ptr) (c : treapNode) (isLeft : bool)
    : outcome nheap :=
  if isLeft then
    h1 ← modify h child (set_right node);
    modify h1 node (set_left (tn_right c))
  else
    h1 ← modify h child (set_left node);
    modify h1 node (set_right (tn_left c)).

Fixpoint m_del_rotate (fuel : nat) (h : nheap) (t : Mutable) (node parent : ptr)
    : outcome (nheap * Mutable * ptr) :=
  nd ← load h node;
  if decide (tn_left nd = None /\ tn_right nd = None) then Ok (h, t, parent)
  else
    match fuel with
    | O => NoFuel
    | S fuel =>
        '(child, isLeft) ← choose_child h nd;
        c ← load h child;
        h ← sink_child h node child c isLeft;
        '(h, t) ← m_relinkGrandparent h t child node parent;
        m_del_rotate fuel h t node child
    end.

(** Disconnects the leaf [node] from its [parent]. *)
Definition unlink_leaf (h : nheap) (parent node : ptr) : outcome nheap :=
  pn ← load h parent;
  if decide (tn_right pn = node)
  then modify h parent (set_right None)
  else modify h parent (set_left None).

Definition m_Delete (h : nheap) (t : Mutable) (key : list Z) : outcome (nheap * Mutable) :=
  '(node, parent) ← m_get h t key;
  match node with
  | None => Ok (h, t)
  | Some _ =>
      nd ← load h node;
      if decide (parent = None /\ tn_left nd = None /\ tn_right nd = None)
      then Ok (h, MkMutable None 0 0)
      else
        '(h, t, parent) ← m_del_rotate (size h) h t node parent;
        h ← unlink_leaf h parent node;
        nd ← load h node;
        Ok (h, MkMutable (m_root t) (i64 (m_count t - 1)) (u64 (m_totalSize t - nodeSize nd)))
  end.

(** ** The invariant *)

(** [mutable_ok h m t]: in the heap [h], the treap [m] is the search tree [t]. *)
Definition mutable_ok (h : nheap) (m : Mutable) (t : ltree) : Prop :=
  m_root m = lroot t /\ rep h t /\ NoDup (locs t) /\ keys_sorted (inorder t) /\
  m_count m = i64 (Z.of_nat (length (inorder t))) /\
  m_totalSize m = u64 (total_size (inorder t)).

(** Cells outside [ls] keep their content. *)
Definition heap_frame (h h' : nheap) (ls : list loc) : Prop :=
  forall x, x ∉ ls -> is_Some (h !! x) -> h' !! x = h !! x.

Ltac nodup :=
  repeat match goal with
  | H : context [NoDup (_ :: _)] |- _ => rewrite NoDup_cons in H
  | H : context [NoDup (_ ++ _)] |- _ => rewrite NoDup_app in H
  | H : _ /\ _ |- _ => destruct H
  | |- context [NoDup (_ :: _)] => rewrite NoDup_cons
  | |- context [NoDup (_ ++ _)] => rewrite NoDup_app
  | |- context [NoDup []] => rewrite (NoDup_nil (A := loc))
  end.

Lemma heap_frame_trans h1 h2 h3 ls ls' :
  heap_frame h1 h2 ls -> heap_frame h2 h3 ls' -> ls' ⊆ ls -> heap_frame h1 h3 ls.
Proof.
  intros H1 H2 Hp x Hx Hs. rewrite <- (H1 x Hx Hs). apply H2; [set_solver|].
  by rewrite H1.
Qed.

Lemma heap_frame_mono h1 h2 ls ls' : heap_frame h1 h2 ls -> ls ⊆ ls' -> heap_frame h1 h2 ls'.
Proof. intros H1 Hp x Hx. apply H1. set_solver. Qed.

Lemma rep_agree h h' t : (forall x, x ∈ locs t -> h' !! x = h !! x) -> rep h t -> rep h' t.
Proof.
  induction t as [|l IHl a d r IHr]; simpl; [done|]. intros Hx (? & ? & ?).
  split_and!; [rewrite Hx by constructor; done| |]; [apply IHl|apply IHr]; auto;
    intros; apply Hx; set_solver.
Qed.

Lemma NoDup_plug path t : NoDup (locs (plug path t)) <-> NoDup (locs t ++ path_locs path).
Proof. by rewrite locs_plug. Qed.

Lemma size_locs_plug path t : length (locs (plug path t)) = (length (locs t) + length (path_locs path))%nat.
Proof. by rewrite locs_plug, length_app. Qed.

Definition frame_locs (path : list frame) : list loc := frame_loc <$> path.

Lemma frame_locs_sub path : frame_locs path ⊆ path_locs path.
Proof. induction path as [|f path IH]; simpl; set_solver. Qed.

Lemma touched_sub path l a d r : a :: frame_locs path ⊆ locs (plug path (LNode l a d r)).
Proof.
  pose proof (frame_locs_sub path) as Hsub. intros x. rewrite locs_plug, elem_of_app. simpl.
  intros [->|Hx]%elem_of_cons; [left; constructor|right; by apply Hsub].
Qed.

Lemma length_path_ptrs path : length (path_ptrs path) = length path.
Proof. apply length_fmap. Qed.

Lemma length_path_locs path : (length path <= length (path_locs path))%nat.
Proof. induction path as [|f path IH]; simpl; [lia|]. rewrite length_app. lia. Qed.

Lemma rep_ctx_head h f path p :
  rep_ctx h (f :: path) p -> h !! frame_loc f = Some (frame_cell f p).
Proof. simpl. naive_solver. Qed.

(** The whole of a cell's path and subtree inside a heap. *)
Lemma fuel_bound h path t : rep h (plug path t) -> NoDup (locs (plug path t)) ->
  (length (locs t) + length (path_locs path) <= size h)%nat.
Proof. intros. rewrite <- size_locs_plug. by apply rep_size. Qed.

Lemma m_relink_ok h t path a b :
  rep_ctx h path (Some b) -> b ∉ path_locs path -> NoDup (path_locs path) ->
  m_root t = ctx_root path (Some b) ->
  exists h',
    m_relinkGrandparent h t (Some a) (Some b) (mjoin (path_ptrs path !! 0%nat)) =
      Ok (h', set_root t (ctx_root path (Some a))) /\
    rep_ctx h' path (Some a) /\
    (forall x, x ∉ frame_locs path -> h' !! x = h !! x).
Proof.
  intros Hc Hb Hnd Hr. destruct path as [|f path]; simpl.
  { eexists; split_and!; eauto. }
  destruct Hc as (Hf & Hsib & Hc). simpl in *.
  rewrite not_elem_of_cons, not_elem_of_app in Hb.
  rewrite Hf. simpl. exists (<[frame_loc f := frame_cell f (Some a)]> h).
  assert (set_root t (ctx_root path (Some (frame_loc f))) = t) as ->.
  { destruct t; simpl in *. by subst. }
  nodup. rewrite elem_of_app in *. split_and!.
  - destruct f as [c d r|l c d]; simpl in *.
    + by rewrite decide_True by done.
    + rewrite decide_False; [done|]. intros ?%lroot_elem. naive_solver.
  - apply lookup_insert_eq.
  - apply rep_insert; [naive_solver|done].
  - apply rep_ctx_insert; [naive_solver|done].
  - intros x. rewrite not_elem_of_cons. intros []. by rewrite lookup_insert_ne by done.
Qed.

(** The subtree after one rotation with the parent frame [f]. *)
Definition rotated (f : frame) (l : ltree) (a : loc) (d : item) (r : ltree) : ltree :=
  match f with
  | FLeft b e s => LNode l a d (LNode r b e s)
  | FRight s b e => LNode (LNode s b e l) a d r
  end.

Lemma rotated_locs f path l a d r :
  locs (plug path (rotated f l a d r)) ≡ₚ locs (plug (f :: path) (LNode l a d r)).
Proof. rewrite !locs_plug. destruct f; simpl; solve_Permutation. Qed.

Definition is_left (f : frame) : bool :=
  match f with FLeft _ _ _ => true | FRight _ _ _ => false end.

(** Moving the node of [f] below its child [c]; what [f] pointed to before is
    irrelevant. *)
Lemma sink_child_ok h f p path l c d r :
  h !! frame_loc f = Some (frame_cell f p) -> rep h (frame_sib f) ->
  rep_ctx h path (Some (frame_loc f)) -> rep h (LNode l c d r) ->
  NoDup (locs (plug (f :: path) (LNode l c d r))) ->
  exists h',
    sink_child h (Some (frame_loc f)) (Some c) (cell d (lroot l) (lroot r)) (is_left f) = Ok h' /\
    rep h' (rotated f l c d r) /\ rep_ctx h' path (Some (frame_loc f)) /\
    (forall x, x <> c -> x <> frame_loc f -> h' !! x = h !! x).
Proof.
  intros Hf Hsib Hc (Ha & Hl & Hr) Hnd%NoDup_plug. simpl in *. nodup.
  assert (c <> frame_loc f) as Hne by set_solver. unfold sink_child.
  destruct f as [b e s|s b e]; simpl in *; rewrite Ha; simpl;
    rewrite lookup_insert_ne, Hf by done; simpl; (eexists; split; [done|]);
    rewrite lookup_insert_ne, !lookup_insert_eq by done;
    (split_and!; auto; repeat first [apply rep_insert; [set_solver|] | apply rep_ctx_insert; [set_solver|]]; auto);
    intros; by rewrite !lookup_insert_ne by done.
Qed.

(** Lifting a node is sinking its parent. *)
Lemma sink_child_rotate h f cl c cd cr :
  c ∉ locs (frame_sib f) ->
  sink_child h (Some (frame_loc f)) (Some c) (cell cd (lroot cl) (lroot cr)) (is_left f) =
  rotate_nodes h (Some c) (Some (frame_loc f)) (cell cd (lroot cl) (lroot cr)) (frame_cell f (Some c)).
Proof.
  unfold sink_child, rotate_nodes. destruct f as [b e s|s b e]; simpl; intros Hc.
  - by rewrite decide_True by done.
  - rewrite decide_False; [done|]. intros ?%lroot_elem. done.
Qed.

Lemma rotate_nodes_ok h f path l a d r :
  rep h (plug (f :: path) (LNode l a d r)) ->
  NoDup (locs (plug (f :: path) (LNode l a d r))) ->
  exists h',
    rotate_nodes h (Some a) (Some (frame_loc f)) (cell d (lroot l) (lroot r))
      (frame_cell f (Some a)) = Ok h' /\
    rep h' (rotated f l a d r) /\ rep_ctx h' path (Some (frame_loc f)) /\
    (forall x, x <> a -> x <> frame_loc f -> h' !! x = h !! x).
Proof.
  intros [(Hf & Hsib & Hc) Ha]%rep_plug Hnd.
  rewrite <- sink_child_rotate; [by eapply sink_child_ok|].
  apply NoDup_plug in Hnd. simpl in Hnd. nodup. set_solver.
Qed.

Lemma set_root_self t p : m_root t = p -> set_root t p = t.
Proof. destruct t; simpl. by intros ->. Qed.

(** A rotation followed by the relinking of the grandparent. *)
Lemma rotate_relink_ok h t f path l a d r :
  m_root t = ctx_root path (Some (frame_loc f)) ->
  rep h (plug (f :: path) (LNode l a d r)) ->
  NoDup (locs (plug (f :: path) (LNode l a d r))) ->
  exists h2 h3,
    rotate_nodes h (Some a) (Some (frame_loc f)) (cell d (lroot l) (lroot r))
      (frame_cell f (Some a)) = Ok h2 /\
    m_relinkGrandparent h2 t (Some a) (Some (frame_loc f)) (mjoin (path_ptrs path !! 0%nat)) =
      Ok (h3, set_root t (ctx_root path (Some a))) /\
    rep h3 (plug path (rotated f l a d r)) /\
    NoDup (locs (plug path (rotated f l a d r))) /\
    heap_frame h h3 (a :: frame_locs (f :: path)).
Proof.
  intros Hroot Hrep Hnd.
  destruct (rotate_nodes_ok h f path l a d r Hrep Hnd) as (h2 & Hrot & HT & Hc2 & Hfr).
  apply NoDup_plug in Hnd as Hnd'. simpl in Hnd'. nodup.
  destruct (m_relink_ok h2 t path a (frame_loc f)) as (h3 & Hrl & Hc3 & Hfr3);
    [done|set_solver|done|done|].
  exists h2, h3. split_and!; [done|done| |by rewrite rotated_locs|].
  - apply rep_plug. split; [by destruct f|].
    eapply rep_agree; [|exact HT]. intros x Hx. apply Hfr3.
    pose proof (frame_locs_sub path). destruct f; simpl in *; set_solver.
  - intros x Hx _. simpl in Hx. rewrite Hfr3 by set_solver. apply Hfr; set_solver.
Qed.

Section PutProofs.

Context {Stk : Type} `{ParentStackLaws Stk}.

Lemma m_put_search_ok fuel h key t path parents c :
  stk_abs parents (path_ptrs path) -> rep h t -> (length (locs t) <= fuel)%nat ->
  let '(path', t') := lsearch path t key in
  exists parents' c',
    m_put_search fuel h key (lroot t) parents c = Ok (lroot t', parents', c') /\
    match t' with
    | LLeaf =>
        stk_abs parents' (path_ptrs path') /\
        (path' = path /\ c' = c \/
         exists f pp, path' = f :: pp /\
           c' = match f with FLeft _ _ _ => Lt | FRight _ _ _ => Gt end)
    | LNode _ a _ _ => True
    end.
Proof.
  revert fuel path parents c.
  induction t as [|l IHl a d r IHr]; intros fuel path parents c Habs Hrep Hfuel; simpl.
  { destruct fuel; simpl; eauto 10. }
  destruct Hrep as (Ha & Hl & Hr). simpl in Hfuel. rewrite length_app in Hfuel.
  destruct fuel as [|fuel]; [lia|]. simpl.
  destruct (stk_abs_push parents (Some a) _ Habs) as (ps & -> & Hps). simpl. rewrite Ha. simpl.
  destruct (bytes_compare key (it_key d)) eqn:E; [by eauto| |].
  - specialize (IHl fuel (FLeft a d r :: path) ps Lt Hps Hl ltac:(lia)).
    destruct (lsearch _ l key) as [path' t'] eqn:El. destruct IHl as (ps' & c' & -> & Hc).
    exists ps', c'. split; [done|]. destruct t'; [|done].
    destruct Hc as [? [[-> ->]|?]]; split; eauto 10.
  - specialize (IHr fuel (FRight l a d :: path) ps Gt Hps Hr ltac:(lia)).
    destruct (lsearch _ r key) as [path' t'] eqn:El. destruct IHr as (ps' & c' & -> & Hc).
    exists ps', c'. split; [done|]. destruct t'; [|done].
    destruct Hc as [? [[-> ->]|?]]; split; eauto 10.
Qed.

Lemma m_put_rotate_ok fuel h t path l a d r parents :
  stk_abs parents (path_ptrs path) -> (length path <= fuel)%nat ->
  m_root t = ctx_root path (Some a) ->
  rep h (plug path (LNode l a d r)) -> NoDup (locs (plug path (LNode l a d r))) ->
  exists h',
    m_put_rotate fuel h t (Some a) parents =
      Ok (h', set_root t (lroot (rotate_up path l a d r))) /\
    rep h' (rotate_up path l a d r) /\
    heap_frame h h' (a :: frame_locs path).
Proof.
  revert fuel h t l r parents.
  induction path as [|f path IH]; intros fuel h t l r parents Habs Hfuel Hroot Hrep Hnd.
  { exists h. destruct fuel; simpl;
      rewrite decide_False by (erewrite stk_abs_len by done; simpl; lia);
      rewrite set_root_self by done; done. }
  pose proof Hrep as [(Hf & _ & _) (Ha & _ & _)]%rep_plug. simpl in Hfuel.
  destruct fuel as [|fuel]; [lia|]. destruct (stk_abs_pop parents _ _ Habs) as (ps & Hpop & Hps).
  unfold m_put_rotate; fold (m_put_rotate (Stk := Stk)).
  rewrite decide_True by (erewrite stk_abs_len by done; simpl; lia).
  rewrite Hpop. simpl. rewrite Ha. simpl. rewrite Hf. simpl.
  assert (tn_priority (frame_cell f (Some a)) = it_prio (frame_item f)) as -> by by destruct f.
  destruct (decide (it_prio (frame_item f) <= it_prio d)) as [Hp|Hp].
  { rewrite decide_True by lia. exists h. split_and!; [|done|by intros ???].
    rewrite set_root_self; [done|]. by rewrite Hroot, lroot_plug; destruct f. }
  rewrite decide_False by lia.
  destruct (rotate_relink_ok h t f path l a d r Hroot Hrep Hnd)
    as (h2 & h3 & -> & Hrl & Hrep3 & Hnd3 & Hfr13). simpl.
  erewrite stk_abs_at by done.
  match goal with |- context [mjoin ?g] => change g with (path_ptrs path !! 0%nat) end.
  simpl. rewrite Hrl. simpl.
  destruct f as [b e s|s b e]; simpl in *.
  - destruct (IH fuel h3 (set_root t (ctx_root path (Some a))) l (LNode r b e s) ps)
      as (h4 & -> & Hrep4 & Hfr4); [done|lia|done..|].
    exists h4. split_and!; [done..|]. eapply heap_frame_trans; [done|exact Hfr4|set_solver].
  - destruct (IH fuel h3 (set_root t (ctx_root path (Some a))) (LNode s b e l) r ps)
      as (h4 & -> & Hrep4 & Hfr4); [done|lia|done..|].
    exists h4. split_and!; [done..|]. eapply heap_frame_trans; [done|exact Hfr4|set_solver].
Qed.

Lemma put_new_root h m key value rnd :
  mutable_ok h m LLeaf ->
  mutable_ok (<[fresh_loc h := newTreapNode key value rnd]> h)
    (MkMutable (Some (fresh_loc h)) 1 (nodeSize (newTreapNode key value rnd)))
    (LNode LLeaf (fresh_loc h) (Item key value rnd) LLeaf).
Proof.
  intros _. unfold mutable_ok. simpl. split_and!; auto.
  - by rewrite lookup_insert_eq.
  - apply NoDup_singleton.
  - repeat constructor.
  - change (newTreapNode key value rnd) with (cell (Item key value rnd) None None).
    by rewrite nodeSize_cell, total_size_cons, Z.add_0_r.
Qed.

(** Linking the new node below the leaf where the search ended. *)
Lemma put_link_ok h path a d (c : comparison) f pp :
  path = f :: pp -> c = match f with FLeft _ _ _ => Lt | FRight _ _ _ => Gt end ->
  rep h (plug path LLeaf) -> NoDup (locs (plug path LLeaf)) -> h !! a = None ->
  exists h',
    link_child (<[a := cell d None None]> h) (Some (frame_loc f)) c (Some a) = Ok h' /\
    rep h' (plug path (LNode LLeaf a d LLeaf)) /\
    NoDup (locs (plug path (LNode LLeaf a d LLeaf))) /\
    heap_frame h h' (frame_locs path).
Proof.
  intros -> -> Hrep Hnd Ha.
  assert (a ∉ path_locs (f :: pp)) as Hna.
  { intros Hin. apply rep_plug in Hrep as [Hc _].
    destruct (rep_ctx_locs_dom _ _ _ _ Hc Hin). congruence. }
  apply NoDup_plug in Hnd. pose proof Hrep as [(Hf & Hsib & Hc) _]%rep_plug. simpl in *.
  rewrite not_elem_of_cons, not_elem_of_app in Hna. nodup.
  exists (<[frame_loc f := frame_cell f (Some a)]> (<[a := cell d None None]> h)). split_and!.
  - destruct f; simpl; rewrite lookup_insert_ne by done; simpl in Hf; rewrite Hf; done.
  - change (plug pp (plug1 f (LNode LLeaf a d LLeaf)))
      with (plug (f :: pp) (LNode LLeaf a d LLeaf)). apply rep_plug. simpl. split_and!; auto.
    + by rewrite lookup_insert_eq.
    + do 2 (apply rep_insert; [set_solver|]). done.
    + do 2 (apply rep_ctx_insert; [set_solver|]). done.
    + by rewrite lookup_insert_ne, lookup_insert_eq by done.
  - change (plug pp (plug1 f (LNode LLeaf a d LLeaf)))
      with (plug (f :: pp) (LNode LLeaf a d LLeaf)). rewrite NoDup_plug. simpl. nodup. set_solver.
  - intros x. simpl. intros Hx [y Hy].
    rewrite !lookup_insert_ne; [done|congruence|set_solver].
Qed.

(** A key that is not in the treap: its node is linked, then rotated up. *)
Lemma put_insert_ok h m key v rnd f pp ps :
  let node := newTreapNode key v rnd in
  let a := fresh_loc h in
  mutable_ok h m (plug (f :: pp) LLeaf) ->
  keys_sorted (inorder (plug (f :: pp) (LNode LLeaf a (Item key v rnd) LLeaf))) ->
  stk_abs ps (path_ptrs (f :: pp)) ->
  exists h1 h2 m2,
    link_child (<[a := node]> h) (Some (frame_loc f))
      match f with FLeft _ _ _ => Lt | FRight _ _ _ => Gt end (Some a) = Ok h1 /\
    m_put_rotate (Z.to_nat (stk_len ps)) h1
      (MkMutable (m_root m) (i64 (m_count m + 1)) (u64 (m_totalSize m + nodeSize node)))
      (Some a) ps = Ok (h2, m2) /\
    mutable_ok h2 m2 (rotate_up (f :: pp) LLeaf a (Item key v rnd) LLeaf) /\
    heap_frame h h2 (frame_locs (f :: pp)).
Proof.
  intros node a (Hroot & Hrep & Hnd & Hs & Hcount & Hsize) Hs' Hps.
  set (d := Item key v rnd) in *. change node with (cell d None None).
  destruct (put_link_ok h (f :: pp) a d _ f pp eq_refl eq_refl Hrep Hnd (fresh_loc_None h))
    as (h1 & Hlink & Hrep1 & Hnd1 & Hfr1).
  destruct (m_put_rotate_ok (Z.to_nat (stk_len ps)) h1
      (MkMutable (m_root m) (i64 (m_count m + 1)) (u64 (m_totalSize m + nodeSize (cell d None None))))
      (f :: pp) LLeaf a d LLeaf ps) as (h2 & Hrot & Hrep2 & Hfr2);
    [done|by erewrite stk_abs_len, Nat2Z.id, length_path_ptrs by done| |done..|].
  { simpl m_root. rewrite Hroot, lroot_plug. by destruct f. }
  eexists h1, h2, _. split_and!; [done|exact Hrot| |].
  - unfold mutable_ok. rewrite rotate_up_inorder. split_and!; auto.
    + by rewrite rotate_up_locs.
    + simpl m_count. rewrite Hcount, swrap_add_l by lia.
      rewrite !inorder_plug, !length_app. simpl length. f_equal. lia.
    + simpl m_totalSize. rewrite Hsize, nodeSize_cell, uwrap_add_l, uwrap_add_r by lia.
      rewrite !inorder_plug, !total_size_app. simpl inorder.
      rewrite !total_size_cons. change (total_size []) with 0. f_equal. lia.
  - intros x Hx Hsome.
    assert (x <> a) by (intros ->; unfold a in Hsome; rewrite fresh_loc_None in Hsome; by destruct Hsome).
    rewrite <- (Hfr1 x Hx Hsome). apply Hfr2; [by rewrite not_elem_of_cons|by rewrite Hfr1].
Qed.

(** A key that is in the treap: its value is replaced in place. *)
Lemma put_replace_ok h m v path l a d r :
  let d' := Item (it_key d) v (it_prio d) in
  let sz := u64 (m_totalSize m - Z.of_nat (length (it_value d))) in
  mutable_ok h m (plug path (LNode l a d r)) ->
  mutable_ok (<[a := cell d' (lroot l) (lroot r)]> h)
    (MkMutable (m_root m) (m_count m) (u64 (sz + Z.of_nat (length v))))
    (plug path (LNode l a d' r)) /\
  h !! a = Some (cell d (lroot l) (lroot r)).
Proof.
  intros d' sz (Hroot & Hrep & Hnd & Hs & Hcount & Hsize). subst sz.
  pose proof Hrep as [Hc (Ha & Hl & Hr)]%rep_plug. apply NoDup_plug in Hnd as Hnd'.
  simpl in Hnd'. nodup. split; [|done]. unfold mutable_ok. split_and!.
  - by rewrite Hroot, !lroot_plug.
  - apply rep_plug. simpl. rewrite lookup_insert_eq.
    split_and!; auto; (apply rep_insert || apply rep_ctx_insert); set_solver.
  - by rewrite NoDup_plug in *.
  - by apply contents_replace.
  - rewrite Hcount, !inorder_plug, !length_app. simpl. by rewrite !length_app.
  - simpl m_totalSize. rewrite Hsize, uwrap_sub_l, uwrap_add_l by lia.
    rewrite !inorder_plug_node, !total_size_app, !total_size_cons.
    unfold kv_size, kv_of. simpl. f_equal. lia.
Qed.

Lemma m_Put_ok h m t key value rnd :
  mutable_ok h m t ->
  exists h' m' t',
    m_Put (Stk := Stk) h m key value rnd = Ok (h', m') /\ mutable_ok h' m' t' /\
    contents t' = <[key := default [] value]> (contents t) /\
    (min_heap t -> min_heap t') /\ heap_frame h h' (locs t).
Proof.
  intros Hok. pose proof Hok as (Hroot & Hrep & Hnd & Hs & _).
  unfold m_Put. destruct t as [|tl ta td tr] eqn:Et.
  { rewrite Hroot. simpl. do 3 eexists. split; [done|]. split_and!; [by apply (put_new_root h m)|done..|].
    intros x _ [y Hy]. rewrite lookup_insert_ne; [done|]. intros <-. by rewrite fresh_loc_None in Hy. }
  rewrite <- Et in *. assert (m_root m = Some ta) as -> by by rewrite Hroot, Et.
  pose proof (m_put_search_ok (size h) h key t [] stk_empty Eq
    stk_abs_empty Hrep (rep_size _ _ Hrep Hnd)) as Hsearch.
  destruct (lsearch [] t key) as [path t'] eqn:El. destruct Hsearch as (ps & c & Hse & Hc).
  replace (lroot t) with (Some ta) in Hse by by rewrite Et. rewrite Hse. simpl.
  pose proof (lsearch_plug _ _ _ _ _ El) as Hpl. simpl in Hpl.
  destruct t' as [|l a d r]; simpl.
  - destruct Hc as [Hps [[-> ->]|(f & pp & -> & ->)]]; [by subst t|].
    erewrite stk_abs_at by done. simpl.
    destruct (contents_add t key (f :: pp) (fresh_loc h) (default [] value) rnd Hs El)
      as (Hs' & Hadd & _).
    destruct (put_insert_ok h m key (default [] value) rnd f pp ps)
      as (h1 & h2 & m2 & Hlink & Hrot & Hok2 & Hfr2); [by rewrite Hpl in Hok|done..|].
    unfold emptySlice. replace (Some ta) with (m_root m) by by rewrite Hroot, Et.
    rewrite Hlink. simpl. rewrite Hrot. eexists h2, m2, _. split_and!; [done..| | |].
    + unfold contents. rewrite rotate_up_inorder. exact Hadd.
    + rewrite Hpl. change (plug pp (plug1 f LLeaf)) with (plug (f :: pp) LLeaf).
      intros (Hh & _ & _)%min_heap_plug. by apply rotate_up_min_heap.
    + eapply heap_frame_mono; [done|]. rewrite Hpl. change (plug pp (plug1 f LLeaf))
        with (plug (f :: pp) LLeaf). intros x. rewrite locs_plug. apply (frame_locs_sub (f :: pp)).
  - destruct (put_replace_ok h m (default [] value) path l a d r) as (Hok2 & Ha);
      [by rewrite Hpl in Hok|].
    rewrite Ha. simpl. eexists _, _, _.
    replace (Some ta) with (m_root m) by by rewrite Hroot, Et.
    split; [done|]. split_and!; [done| | |].
    3:{ intros x Hx _. rewrite lookup_insert_ne; [done|]. rewrite Hpl, locs_plug in Hx. set_solver. }
    + rewrite Hpl in Hs |- *. apply lsearch_found in El as <-. by apply contents_replace.
    + rewrite Hpl. intros (? & ? & ?)%min_heap_plug. apply min_heap_plug. by split_and!.
Qed.
End PutProofs.

(** ** Lookups *)

Lemma m_get_loop_ok fuel h key t path :
  rep h t -> (length (locs t) <= fuel)%nat ->
  let '(path', t') := lsearch path t key in
  m_get_loop fuel h key (lroot t) (mjoin (path_ptrs path !! 0%nat)) =
    Ok (lroot t', match t' with LLeaf => None | _ => mjoin (path_ptrs path' !! 0%nat) end).
Proof.
  revert fuel path. induction t as [|l IHl a d r IHr]; intros fuel path Hrep Hfuel; simpl.
  { by destruct fuel. }
  destruct Hrep as (Ha & Hl & Hr). simpl in Hfuel. rewrite length_app in Hfuel.
  destruct fuel as [|fuel]; [lia|]. simpl. rewrite Ha. simpl.
  destruct (bytes_compare key (it_key d)) eqn:E; [done| |].
  - apply (IHl fuel (FLeft a d r :: path)); [done|lia].
  - apply (IHr fuel (FRight l a d :: path)); [done|lia].
Qed.

Lemma m_get_ok h m t key :
  mutable_ok h m t ->
  let '(path, t') := lsearch [] t key in
  m_get h m key =
    Ok (lroot t', match t' with LLeaf => None | _ => mjoin (path_ptrs path !! 0%nat) end).
Proof.
  intros (Hroot & Hrep & Hnd & _). unfold m_get. rewrite Hroot.
  apply (m_get_loop_ok (size h) h key t []); auto using rep_size.
Qed.

Lemma m_Get_ok h m t key : mutable_ok h m t -> m_Get h m key = Ok (contents t !! key).
Proof.
  intros Hok. pose proof Hok as (_ & Hrep & _ & Hs & _). unfold m_Get.
  pose proof (m_get_ok h m t key Hok) as Hg. destruct (lsearch [] t key) as [path t'] eqn:El.
  rewrite Hg. simpl. rewrite (contents_lookup t key path t') by done.
  apply lsearch_plug in El. simpl in El. rewrite El in Hrep.
  destruct t' as [|l a d r]; simpl; [done|].
  apply rep_plug in Hrep as [_ (Ha & _)]. by rewrite Ha.
Qed.

Lemma m_Has_ok h m t key :
  mutable_ok h m t -> m_Has h m key = Ok (bool_decide (is_Some (contents t !! key))).
Proof.
  intros Hok. pose proof Hok as (_ & _ & _ & Hs & _). unfold m_Has.
  pose proof (m_get_ok h m t key Hok) as Hg. destruct (lsearch [] t key) as [path t'] eqn:El.
  rewrite Hg. simpl. rewrite (contents_lookup t key path t') by done. by destruct t'.
Qed.

(** ** Deletion *)

Lemma choose_child_ok h l a d r :
  rep h (LNode l a d r) -> ~ (l = LLeaf /\ r = LLeaf) ->
  exists f cl c cd cr,
    LNode l a d r = plug1 f (LNode cl c cd cr) /\ frame_loc f = a /\
    choose_child h (cell d (lroot l) (lroot r)) = Ok (Some c, is_left f).
Proof.
  intros (_ & Hl & Hr) Hne. unfold choose_child.
  destruct l as [|ll lc ld lr], r as [|rl rc rd rr]; simpl in *.
  - naive_solver.
  - by exists (FRight LLeaf a d), rl, rc, rd, rr.
  - by exists (FLeft a d LLeaf), ll, lc, ld, lr.
  - destruct Hl as (-> & _), Hr as (-> & _). simpl. case_decide.
    + by exists (FLeft a d (LNode rl rc rd rr)), ll, lc, ld, lr.
    + by exists (FRight (LNode ll lc ld lr) a d), rl, rc, rd, rr.
Qed.

(** The frame of the lifted child, above the sunk node. *)
Definition flip (f : frame) (cl : ltree) (c : loc) (cd : item) (cr : ltree) : frame :=
  match f with FLeft _ _ _ => FRight cl c cd | FRight _ _ _ => FLeft c cd cr end.
Definition sunk (f : frame) (cl cr : ltree) : ltree :=
  match f with FLeft a d r => LNode cr a d r | FRight l a d => LNode l a d cl end.

Lemma rotated_sunk f cl c cd cr :
  rotated f cl c cd cr = plug1 (flip f cl c cd cr) (sunk f cl cr).
Proof. by destruct f. Qed.

Lemma m_del_rotate_ok fuel h t path l a d r :
  m_root t = ctx_root path (Some a) -> rep h (plug path (LNode l a d r)) ->
  NoDup (locs (plug path (LNode l a d r))) -> (length (locs l) + length (locs r) <= fuel)%nat ->
  exists h' path',
    m_del_rotate fuel h t (Some a) (mjoin (path_ptrs path !! 0%nat)) =
      Ok (h', set_root t (ctx_root path' (Some a)), mjoin (path_ptrs path' !! 0%nat)) /\
    rep h' (plug path' (LNode LLeaf a d LLeaf)) /\
    locs (plug path' (LNode LLeaf a d LLeaf)) ≡ₚ locs (plug path (LNode l a d r)) /\
    before path' = before path ++ inorder l /\ after path' = inorder r ++ after path /\
    (path' = [] -> path = [] /\ l = LLeaf /\ r = LLeaf) /\
    heap_frame h h' (locs (plug path (LNode l a d r))).
Proof.
  revert h t path l r. induction fuel as [|fuel IH]; intros h t path l r Hroot Hrep Hnd Hfuel;
    pose proof Hrep as [_ Hn]%rep_plug; pose proof Hn as (Ha & _); simpl.
  - destruct l, r; simpl in *; try lia. rewrite Ha. simpl.
    exists h, path. rewrite set_root_self by done. split_and!; auto; by rewrite ?app_nil_r.
  - rewrite Ha. simpl. case_decide as Hdec.
    { destruct Hdec as [Hl Hr]. destruct l, r; simpl in *; try done.
      exists h, path. rewrite set_root_self by done. split_and!; auto; by rewrite ?app_nil_r. }
    destruct (choose_child_ok h l a d r Hn) as (f & cl & c & cd & cr & Heq & Hfl & ->).
    { intros [-> ->]. simpl in *. naive_solver. }
    simpl. rewrite Heq in *. change (plug path (plug1 f (LNode cl c cd cr)))
      with (plug (f :: path) (LNode cl c cd cr)) in *.
    pose proof Hrep as [(Hf & _) (Hc & _)]%rep_plug. rewrite Hc. simpl.
    apply NoDup_plug in Hnd as Hnd'. simpl in Hnd'. nodup. rewrite <- Hfl in Hroot |- *.
    rewrite sink_child_rotate by set_solver.
    destruct (rotate_relink_ok h t f path cl c cd cr Hroot Hrep Hnd)
      as (h2 & h3 & -> & Hrl & Hrep3 & Hnd3 & Hfr13). simpl. rewrite Hrl. simpl.
    rewrite rotated_sunk in Hrep3, Hnd3. pose proof (rotated_locs f path cl c cd cr) as Hlocs.
    rewrite rotated_sunk in Hlocs.
    assert (exists sl sr, sunk f cl cr = LNode sl a d sr /\
      (length (locs sl) + length (locs sr) <= fuel)%nat /\
      before (flip f cl c cd cr :: path) ++ inorder sl = before path ++ inorder l /\
      inorder sr ++ after (flip f cl c cd cr :: path) = inorder r ++ after path)
      as (sl & sr & Hsunk & Hlen & Hbef & Haft).
    { destruct f as [b e s|s b e]; simpl in *; simplify_eq; simpl in *;
        rewrite ?length_app in Hfuel; eexists _, _; (split; [done|]);
        rewrite ?length_app; (split; [lia|]); by list_norm. }
    rewrite Hsunk in *.
    destruct (IH h3 (set_root t (ctx_root path (Some c))) (flip f cl c cd cr :: path) sl sr)
      as (h4 & path' & Hrun & Hrep4 & Hlocs4 & Hb & Haf & Hnil & Hfr4); [|done..|].
    { simpl. by destruct f. }
    exists h4, path'. rewrite <- Hbef, <- Haft, Hfl. split_and!; auto.
    + by destruct f.
    + by rewrite Hlocs4.
    + intros ->. naive_solver.
    + eapply heap_frame_trans; [|done|by rewrite <- Hlocs].
      eapply heap_frame_mono; [done|]. apply (touched_sub (f :: path)).
Qed.

(** The last step of [Delete]: the node, now a leaf, is unlinked. *)
Lemma del_unlink_ok h path f pp a d :
  path = f :: pp -> rep h (plug path (LNode LLeaf a d LLeaf)) ->
  NoDup (locs (plug path (LNode LLeaf a d LLeaf))) ->
  exists h',
    unlink_leaf h (Some (frame_loc f)) (Some a) = Ok h' /\
    rep h' (plug path LLeaf) /\ NoDup (locs (plug path LLeaf)) /\
    h' !! a = Some (cell d None None) /\ (forall x, x <> frame_loc f -> h' !! x = h !! x).
Proof.
  intros -> [(Hf & Hsib & Hc) (Ha & _)]%rep_plug Hnd%NoDup_plug. simpl in *. nodup.
  assert (frame_loc f <> a) by set_solver.
  exists (<[frame_loc f := frame_cell f None]> h). split_and!.
  - unfold unlink_leaf. simpl. rewrite Hf. destruct f as [b e s|s b e]; simpl.
    + rewrite decide_False; [done|]. intros ?%lroot_elem. set_solver.
    + by rewrite decide_True by done.
  - change (plug pp (plug1 f LLeaf)) with (plug (f :: pp) LLeaf). apply rep_plug. simpl.
    rewrite lookup_insert_eq. split_and!; auto; (apply rep_insert || apply rep_ctx_insert); set_solver.
  - change (plug pp (plug1 f LLeaf)) with (plug (f :: pp) LLeaf). rewrite NoDup_plug. simpl.
    nodup. set_solver.
  - by rewrite lookup_insert_ne.
  - intros. by rewrite lookup_insert_ne.
Qed.

(** The bookkeeping of a deletion. *)
Lemma del_count_ok l1 x l2 l l' n :
  l = l1 ++ x :: l2 -> l' = l1 ++ l2 -> n = i64 (Z.of_nat (length l)) ->
  i64 (n - 1) = i64 (Z.of_nat (@length kv l')).
Proof.
  intros -> -> ->. rewrite swrap_sub_l, !length_app by lia. simpl length. f_equal. lia.
Qed.

Lemma del_size_ok l1 d l2 l l' n lp rp :
  l = l1 ++ kv_of d :: l2 -> l' = l1 ++ l2 -> n = u64 (total_size l) ->
  u64 (n - nodeSize (cell d lp rp)) = u64 (total_size l').
Proof.
  intros -> -> ->. rewrite nodeSize_cell, uwrap_sub_l, uwrap_sub_r by lia.
  rewrite !total_size_app, total_size_cons. f_equal. lia.
Qed.

Lemma m_Delete_ok h m t key :
  mutable_ok h m t ->
  exists h' m' t',
    m_Delete h m key = Ok (h', m') /\ mutable_ok h' m' t' /\
    contents t' = delete key (contents t) /\ heap_frame h h' (locs t).
Proof.
  intros Hok. pose proof Hok as (Hroot & Hrep & Hnd & Hs & Hcount & Hsize). unfold m_Delete.
  pose proof (m_get_ok h m t key Hok) as Hg. destruct (lsearch [] t key) as [path t'] eqn:El.
  rewrite Hg. simpl. pose proof (lsearch_plug _ _ _ _ _ El) as Hpl. simpl in Hpl.
  destruct t' as [|l a d r]; simpl.
  { exists h, m, t. split_and!; [done|done| |by intros ???].
    rewrite delete_id; [done|]. by rewrite (contents_lookup t key path LLeaf). }
  apply lsearch_found in El as Hk. rewrite Hpl in Hrep, Hnd, Hs, Hroot.
  pose proof Hrep as [_ (Ha & _)]%rep_plug. rewrite Ha. simpl. case_decide as Hone.
  { destruct Hone as (Hp & Hl & Hr). destruct path; [|done]. destruct l, r; try done.
    eexists h, _, LLeaf. split_and!; [done| | |by intros ???].
    - repeat split; try done; constructor.
    - unfold contents. rewrite Hpl. simpl. subst key. by rewrite delete_insert_eq, delete_empty. }
  destruct (m_del_rotate_ok (size h) h m path l a d r) as
    (h2 & path' & -> & Hrep2 & Hlocs & Hb & Haf & Hnil & Hfr2); [by rewrite Hroot, lroot_plug|done..| |].
  { pose proof (fuel_bound _ _ _ Hrep Hnd) as Hb. simpl in Hb. rewrite length_app in Hb. lia. }
  destruct path' as [|f pp]; [destruct Hnil as (-> & -> & ->); naive_solver|]. simpl.
  destruct (del_unlink_ok h2 (f :: pp) f pp a d) as (h3 & Hun & Hrep3 & Hnd3 & Ha3 & Hfr3);
    [done..|by rewrite Hlocs|].
  rewrite Hun. simpl.
  rewrite Ha3. simpl.
  assert (inorder t = before (f :: pp) ++ kv_of d :: after (f :: pp)) as Hin1
    by by rewrite Hpl, inorder_plug_node, Hb, Haf.
  assert (inorder (plug (f :: pp) LLeaf) = before (f :: pp) ++ after (f :: pp)) as Hin2
    by by rewrite inorder_plug.
  destruct (contents_remove t (plug (f :: pp) LLeaf) _ _ _ Hin1 Hin2) as [Hs3 Hc3]; [by rewrite Hpl|].
  eexists h3, _, (plug (f :: pp) LLeaf). split; [done|]. split_and!.
  - unfold mutable_ok. split_and!; auto.
    + simpl. rewrite lroot_plug. by destruct f.
    + by eapply del_count_ok.
    + by eapply del_size_ok.
  - subst key. exact Hc3.
  - intros x Hx Hsome. rewrite Hpl in Hx. rewrite Hfr3; [by apply Hfr2|].
    intros ->. apply Hx. rewrite <- Hlocs, locs_plug. simpl. set_solver.
Qed.

(** ** Iteration *)

(** What [ForEach] does to the callback's state on a list of pairs. *)
Fixpoint fold_while {A} (fn : A -> list Z -> list Z -> A * bool) (st : A) (l : list kv) : A :=
  match l with
  | [] => st
  | (k, v) :: l => let '(st, go) := fn st k v in if go then fold_while fn st l else st
  end.

(** The nodes on the stack of [ForEach]: still to visit, with their right subtrees. *)
Definition pend := list (loc * item * ltree).
Definition pend_ptrs (p : pend) : list ptr := (fun x => Some x.1.1) <$> p.
Fixpoint pend_kvs (p : pend) : list kv :=
  match p with [] => [] | (_, d, r) :: p => kv_of d :: inorder r ++ pend_kvs p end.
Definition pend_ok (h : nheap) (x : loc * item * ltree) : Prop :=
  rep h x.2 /\ NoDup (locs x.2) /\ exists lp, h !! x.1.1 = Some (cell x.1.2 lp (lroot x.2)).

Section ForEachProofs.
Context {Stk : Type} `{ParentStackLaws Stk}.

Lemma m_push_left_ok fuel h t p parents :
  stk_abs parents (pend_ptrs p) -> Forall (pend_ok h) p -> rep h t -> NoDup (locs t) ->
  (length (locs t) <= fuel)%nat ->
  exists ps p',
    m_push_left fuel h (lroot t) parents = Ok ps /\ stk_abs ps (pend_ptrs p') /\
    Forall (pend_ok h) p' /\ pend_kvs p' = inorder t ++ pend_kvs p.
Proof.
  revert fuel p parents. induction t as [|l IHl a d r _]; intros fuel p parents Habs Hp Hrep Hnd Hfuel.
  { exists parents, p. destruct fuel; simpl; auto. }
  destruct Hrep as (Ha & Hl & Hr). simpl in Hfuel, Hnd. rewrite length_app in Hfuel.
  destruct fuel as [|fuel]; [lia|]. simpl. nodup.
  destruct (stk_abs_push parents (Some a) _ Habs) as (ps & -> & Hps). simpl. rewrite Ha. simpl.
  destruct (IHl fuel ((a, d, r) :: p) ps) as (ps' & p' & ? & ? & ? & Hk); [done| |done|done|lia|].
  { constructor; [|done]. split_and!; eauto. }
  exists ps', p'. split_and!; auto. rewrite Hk. by list_norm.
Qed.

Lemma m_foreach_loop_ok {A} fuel h (fn : A -> list Z -> list Z -> A * bool) st p parents :
  stk_abs parents (pend_ptrs p) -> Forall (pend_ok h) p -> (length (pend_kvs p) <= fuel)%nat ->
  m_foreach_loop fuel h fn st parents = Ok (fold_while fn st (pend_kvs p)).
Proof.
  revert st p parents. induction fuel as [|fuel IH]; intros st [|[[a d] r] p] parents Habs Hp Hfuel;
    simpl in *; try lia;
    try (rewrite decide_False by (erewrite stk_abs_len by done; simpl; lia); done).
  rewrite decide_True by (erewrite stk_abs_len by done; simpl; lia).
  destruct (stk_abs_pop parents _ _ Habs) as (ps & -> & Hps). simpl.
  apply Forall_cons in Hp as [(Hr & Hnd & lp & Ha) Hp]. simpl in *. rewrite Ha. simpl.
  destruct (fn st (it_key d) (it_value d)) as [st' []]; [|done].
  destruct (m_push_left_ok (size h) h r p ps) as (ps' & p' & -> & Habs' & Hp' & Hk);
    auto using rep_size. simpl.
  rewrite (IH st' p' ps'), Hk; [done..|]. rewrite Hk. lia.
Qed.

Lemma m_ForEach_ok {A} h m t (fn : A -> list Z -> list Z -> A * bool) st :
  mutable_ok h m t -> m_ForEach (Stk := Stk) h m fn st = Ok (fold_while fn st (inorder t)).
Proof.
  intros (Hroot & Hrep & Hnd & _). unfold m_ForEach. rewrite Hroot.
  destruct (m_push_left_ok (size h) h t [] stk_empty) as (ps & p & -> & Habs & Hp & Hk);
    auto using rep_size, stk_abs_empty. simpl in *. rewrite app_nil_r in Hk.
  rewrite (m_foreach_loop_ok _ _ _ _ p), Hk; [done..|]. rewrite Hk.
  rewrite <- length_locs_inorder. by apply rep_size.
Qed.
End ForEachProofs.
