(* ===== verification/TreapImmutable.v ===== *)
(** * The immutable treap

    Models [btcd/database/internal/treap/immutable.go].  All snapshots share one
    heap; [Put] and [Delete] clone the nodes on the path to the change and only
    ever write to the clones, so that the heap they return extends the heap they
    were given: every older snapshot still reads the same cells. *)
From stdpp Require Import gmap list sorting.
From Stdlib Require Import ZArith Lia.
From S2P Require Import Prelude TreapNode TreapTree TreapMutable.

Open Scope Z_scope.

Record Immutable := MkImmutable { i_root : ptr; i_count : Z; i_totalSize : Z }.

Definition newImmutable (root : ptr) (count totalSize : Z) : Immutable :=
  MkImmutable root count totalSize.
Definition NewImmutable : Immutable := MkImmutable None 0 0.
Definition i_Len (t : Immutable) : Z := i_count t.
Definition i_Size (t : Immutable) : Z := i_totalSize t.

Definition cloneTreapNode (n : treapNode) : treapNode :=
  TreapNode (tn_key n) (tn_value n) (tn_priority n) (tn_left n) (tn_right n).

Fixpoint i_get_loop (fuel : nat) (h : nheap) (key : list Z) (node : ptr) : outcome ptr :=
  match node with
  | None => Ok None
  | Some _ =>
      match fuel with
      | O => NoFuel
      | S fuel =>
          n ← load h node;
          match bytes_compare key (tn_key n) with
          | Lt => i_get_loop fuel h key (tn_left n)
          | Gt => i_get_loop fuel h key (tn_right n)
          | Eq => Ok node
          end
      end
  end.

Definition i_get (h : nheap) (t : Immutable) (key : list Z) : outcome ptr :=
  i_get_loop (size h) h key (i_root t).

Definition i_Has (h : nheap) (t : Immutable) (key : list Z) : outcome bool :=
  node ← i_get h t key;
  Ok (match node with Some _ => true | None => false end).

Definition i_Get (h : nheap) (t : Immutable) (key : list Z) : outcome (option (list Z)) :=
  node ← i_get h t key;
  match node with
  | Some _ => n ← load h node; Ok (Some (tn_value n))
  | None => Ok None
  end.

(** Replaces the child [old] of the (cloned) parent by [new]; a nil parent has
    no child to replace. *)
Definition relink_child (h : nheap) (parent old new : ptr) : outcome nheap :=
  match parent with
  | None => Ok h
  | Some _ =>
      p ← load h parent;
      if decide (tn_left p = old)
      then modify h parent (set_left new)
      else modify h parent (set_right new)
  end.

Section Ops.
Context {Stk : Type} `{ParentStack Stk}.

(** The node found and its clone, when the key is in the treap. *)
Fixpoint i_put_search (fuel : nat) (h : nheap) (key : list Z) (node : ptr) (parents : Stk)
    (compareResult : comparison) : outcome (nheap * option (ptr * ptr) * Stk * comparison) :=
  match node with
  | None => Ok (h, None, parents, compareResult)
  | Some _ =>
      match fuel with
      | O => NoFuel
      | S fuel =>
          n ← load h node;
          let '(h, nodeCopy) := alloc h (cloneTreapNode n) in
          oldParent ← stk_at parents 0;
          h ← relink_child h oldParent node nodeCopy;
          parents ← stk_push parents nodeCopy;
          match bytes_compare key (tn_key n) with
          | Lt => i_put_search fuel h key (tn_left n) parents Lt
          | Gt => i_put_search fuel h key (tn_right n) parents Gt
          | Eq => Ok (h, Some (node, nodeCopy), parents, Eq)
          end
      end
  end.

Fixpoint i_put_rotate (fuel : nat) (h : nheap) (newRoot node : ptr) (parents : Stk)
    : outcome (nheap * ptr) :=
  if decide (stk_len parents > 0) then
    match fuel with
    | O => NoFuel
    | S fuel =>
        '(parent, parents) ← stk_pop parents;
        nd ← load h node;
        pn ← load h parent;
        if decide (tn_priority nd >= tn_priority pn) then Ok (h, newRoot)
        else
          h ← rotate_nodes h node parent nd pn;
          grandparent ← stk_at parents 0;
          match grandparent with
          | None => i_put_rotate fuel h node node parents
          | Some _ =>
              h ← relink_child h grandparent parent node;
              i_put_rotate fuel h newRoot node parents
          end
    end
  else Ok (h, newRoot).

Definition i_Put (h : nheap) (t : Immutable) (key : list Z) (value : option (list Z)) (rnd : Z)
    : outcome (nheap * Immutable) :=
  let value := default emptySlice value in
  match i_root t with
  | None =>
      let root := newTreapNode key value rnd in
      let '(h, p) := alloc h root in
      Ok (h, newImmutable p 1 (nodeSize root))
  | Some _ =>
      '(h, found, parents, compareResult) ←
        i_put_search (size h) h key (i_root t) stk_empty Eq;
      match found with
      | Some (node, nodeCopy) =>
          h ← modify h nodeCopy (set_value value);
          newRoot ← stk_at parents (stk_len parents - 1);
          n ← load h node;
          let newTotalSize :=
            u64 (u64 (i_totalSize t - Z.of_nat (length (tn_value n))) + Z.of_nat (length value)) in
          Ok (h, newImmutable newRoot (i_count t) newTotalSize)
      | None =>
          let node := newTreapNode key value rnd in
          let '(h, p) := alloc h node in
          parent ← stk_at parents 0;
          h ← link_child h parent compareResult p;
          newRoot ← stk_at parents (stk_len parents - 1);
          '(h, newRoot) ← i_put_rotate (Z.to_nat (stk_len parents)) h newRoot p parents;
          Ok (h, newImmutable newRoot (i64 (i_count t + 1)) (u64 (i_totalSize t + nodeSize node)))
      end
  end.

Fixpoint i_del_search (fuel : nat) (h : nheap) (key : list Z) (node : ptr) (parents : Stk)
    : outcome (ptr * Stk) :=
  match node with
  | None => Ok (None, parents)
  | Some _ =>
      match fuel with
      | O => NoFuel
      | S fuel =>
          parents ← stk_push parents node;
          n ← load h node;
          match bytes_compare key (tn_key n) with
          | Lt => i_del_search fuel h key (tn_left n) parents
          | Gt => i_del_search fuel h key (tn_right n) parents
          | Eq => Ok (node, parents)
          end
      end
  end.

(** [for i := parents.Len(); i > 0; i--]: clones the parents from the root down. *)
Fixpoint i_del_clone (i : nat) (h : nheap) (parents newParents : Stk) : outcome (nheap * Stk) :=
  match i with
  | O => Ok (h, newParents)
  | S i' =>
      node ← stk_at parents (Z.of_nat i - 1);
      n ← load h node;
      let '(h, nodeCopy) := alloc h (cloneTreapNode n) in
      oldParent ← stk_at newParents 0;
      h ← relink_child h oldParent node nodeCopy;
      newParents ← stk_push newParents nodeCopy;
      i_del_clone i' h parents newParents
  end.

Fixpoint i_del_rotate (fuel : nat) (h : nheap) (newRoot delNode parent : ptr)
    : outcome (nheap * ptr * ptr) :=
  nd ← load h delNode;
  if decide (tn_left nd = None /\ tn_right nd = None) then Ok (h, newRoot, parent)
  else
    match fuel with
    | O => NoFuel
    | S fuel =>
        '(child, isLeft) ← choose_child h nd;
        c ← load h child;
        let '(h, child) := alloc h (cloneTreapNode c) in
        h ← sink_child h delNode child c isLeft;
        match parent with
        | None => i_del_rotate fuel h child delNode child
        | Some _ =>
            h ← relink_child h parent delNode child;
            i_del_rotate fuel h newRoot delNode child
        end
    end.

Definition i_Delete (h : nheap) (t : Immutable) (key : list Z) : outcome (nheap * Immutable) :=
  '(delNode, parents) ← i_del_search (size h) h key (i_root t) stk_empty;
  match delNode with
  | None => Ok (h, t)
  | Some _ =>
      parent ← stk_at parents 1;
      nd ← load h delNode;
      if decide (parent = None /\ tn_left nd = None /\ tn_right nd = None)
      then Ok (h, newImmutable None 0 0)
      else
        '(h, newParents) ← i_del_clone (Z.to_nat (stk_len parents)) h parents stk_empty;
        '(delNode, newParents) ← stk_pop newParents;
        parent ← stk_at newParents 0;
        newRoot ← stk_at newParents (stk_len newParents - 1);
        '(h, newRoot, parent) ← i_del_rotate (size h) h newRoot delNode parent;
        h ← unlink_leaf h parent delNode;
        nd ← load h delNode;
        Ok (h, newImmutable newRoot (i64 (i_count t - 1)) (u64 (i_totalSize t - nodeSize nd)))
  end.

Definition i_ForEach {A} (h : nheap) (t : Immutable) (fn : A -> list Z -> list Z -> A * bool)
    (st : A) : outcome A :=
  parents ← m_push_left (size h) h (i_root t) stk_empty;
  m_foreach_loop (size h) h fn st parents.
End Ops.

(** ** The invariant *)

Definition as_mutable (m : Immutable) : Mutable :=
  MkMutable (i_root m) (i_count m) (i_totalSize m).

(** A snapshot satisfies the invariant of the mutable treap. *)
Definition immutable_ok (h : nheap) (m : Immutable) (t : ltree) : Prop :=
  mutable_ok h (as_mutable m) t.

(** ** Cloned paths *)

Fixpoint spine (h : nheap) (path : list frame) (p : ptr) : Prop :=
  match path with
  | [] => True
  | f :: path => h !! frame_loc f = Some (frame_cell f p) /\ spine h path (Some (frame_loc f))
  end.

Definition sib_rep (h : nheap) (path : list frame) : Prop :=
  Forall (fun f => rep h (frame_sib f)) path.

Fixpoint sib_locs (path : list frame) : list loc :=
  match path with [] => [] | f :: path => locs (frame_sib f) ++ sib_locs path end.

(** Equal but for the location. *)
Definition same_frame (f g : frame) : Prop :=
  match f, g with
  | FLeft _ d r, FLeft _ d' r' => d = d' /\ r = r'
  | FRight l _ d, FRight l' _ d' => d = d' /\ l = l'
  | _, _ => False
  end.

(** [cloned h0 h path path' p]: in [h], an extension of [h0], [path'] is a copy
    of [path] in new cells, with [p] in its hole. *)
Definition cloned (h0 h : nheap) (path path' : list frame) (p : ptr) : Prop :=
  h0 ⊆ h /\ Forall2 same_frame path path' /\ spine h path' p /\
  Forall (fun f => h0 !! frame_loc f = None) path' /\ NoDup (frame_locs path').

Lemma rep_ctx_spine h path p : rep_ctx h path p <-> spine h path p /\ sib_rep h path.
Proof.
  unfold sib_rep. revert p; induction path as [|f path IH]; intros p; simpl.
  - split; [by repeat constructor|done].
  - rewrite IH, Forall_cons. naive_solver.
Qed.

Lemma spine_insert h path p a n : a ∉ frame_locs path -> spine h path p -> spine (<[a := n]> h) path p.
Proof.
  revert p; induction path as [|f path IH]; intros p; simpl; [done|].
  rewrite not_elem_of_cons. intros [? ?] [? ?]. rewrite lookup_insert_ne by done. auto.
Qed.

Lemma path_locs_split path : path_locs path ≡ₚ frame_locs path ++ sib_locs path.
Proof. induction path as [|f path IH]; simpl; [done|]. rewrite IH. solve_Permutation. Qed.

Lemma same_frames path path' :
  Forall2 same_frame path path' ->
  before path' = before path /\ after path' = after path /\ sib_locs path' = sib_locs path /\
  (forall h, sib_rep h path' <-> sib_rep h path).
Proof.
  unfold sib_rep. induction 1 as [|f g path path' Hf _ (IHb & IHa & IHs & IHr)]; [done|].
  destruct f, g; simpl in *; destruct Hf as [-> ->] || done;
    rewrite IHb, IHa, IHs; (split_and!; [done..|]); intros h; by rewrite !Forall_cons, IHr.
Qed.

Lemma sib_rep_mono h h' path : h ⊆ h' -> sib_rep h path -> sib_rep h' path.
Proof. intros ? Hs. eapply Forall_impl; [exact Hs|]. intros. by eapply rep_mono. Qed.

Lemma sib_locs_dom h path a : sib_rep h path -> a ∈ sib_locs path -> is_Some (h !! a).
Proof.
  induction path as [|f path IH]; simpl; [by intros _ ?%elem_of_nil|].
  intros [? ?]%Forall_cons. rewrite elem_of_app. intros [?|?]; eauto using rep_locs_dom.
Qed.

(** Filling the copy's hole with a tree whose new cells are outside [h0] and the
    copied path. *)
Lemma cloned_rep h0 h path path' t :
  cloned h0 h path path' (lroot t) -> sib_rep h0 path -> rep h t -> rep h (plug path' t).
Proof.
  intros (Hsub & Hsame & Hsp & _ & _) Hsib Ht. apply rep_plug. split; [|done].
  apply rep_ctx_spine. split; [done|]. apply (same_frames _ _ Hsame). by eapply sib_rep_mono.
Qed.

Lemma cloned_nodup h0 h path path' p ls :
  cloned h0 h path path' p -> sib_rep h0 path -> NoDup (ls ++ sib_locs path) ->
  (forall x, x ∈ ls -> x ∉ frame_locs path') ->
  NoDup (ls ++ path_locs path').
Proof.
  intros (_ & Hsame & _ & Hfr & Hnd) Hsib Hls Hx. rewrite path_locs_split.
  apply same_frames in Hsame as (_ & _ & -> & _). nodup. split_and!; auto.
  - intros x ?. rewrite not_elem_of_app. auto.
  - intros x (f & -> & Hf)%list_elem_of_fmap Hin. eapply Forall_forall in Hfr; [|done].
    destruct (sib_locs_dom h0 path (frame_loc f)); [done..|congruence].
Qed.

Lemma spine_dom h path p f : spine h path p -> f ∈ path -> is_Some (h !! frame_loc f).
Proof.
  revert p; induction path as [|g path IH]; intros p; [by intros _ ?%elem_of_nil|].
  intros [? ?] [->|?]%elem_of_cons; eauto.
Qed.

(** One step of cloning: the cell [a] below the copied path is copied to a new
    cell, and the path's hole now points to the copy. *)
Lemma clone_step h0 h path path' a a' n :
  cloned h0 h path path' (Some a) -> a ∉ sib_locs path -> h !! a' = None ->
  exists h',
    relink_child (<[a' := n]> h) (mjoin (path_ptrs path' !! 0%nat)) (Some a) (Some a') = Ok h' /\
    cloned h0 h' path path' (Some a') /\ h' !! a' = Some n /\ h0 !! a' = None /\
    a' ∉ frame_locs path'.
Proof.
  intros (Hsub & Hsame & Hsp & Hfr & Hnd) Ha Hfresh.
  assert (h0 !! a' = None) as Ha0 by by eapply lookup_weaken_None.
  assert (h0 ⊆ <[a' := n]> h) as Hsub1 by by apply insert_subseteq_r.
  assert (a' ∉ frame_locs path') as Hna.
  { intros (f & Hf & Hin)%list_elem_of_fmap.
    apply spine_dom with (f := f) in Hsp as [? Hs]; [|done]. congruence. }
  destruct path' as [|f path']; simpl.
  { eexists; split; [done|]. split_and!; auto; [|by rewrite lookup_insert_eq].
    repeat split; auto. }
  simpl in Hna. rewrite not_elem_of_cons in Hna. destruct Hna as [Hne Hna].
  simpl in Hsp. destruct Hsp as [Hf Hsp]. rewrite lookup_insert_ne, Hf by done. simpl.
  exists (<[frame_loc f := frame_cell f (Some a')]> (<[a' := n]> h)). split_and!; auto.
  - apply same_frames in Hsame as (_ & _ & Hsl & _). simpl in Hsl. rewrite <- Hsl in Ha.
    rewrite not_elem_of_app in Ha. destruct f as [b e s|s b e]; simpl in *.
    + by rewrite decide_True.
    + rewrite decide_False; [done|]. intros ?%lroot_elem. naive_solver.
  - pose proof Hfr as [Hf0 _]%Forall_cons. simpl in Hnd. apply NoDup_cons in Hnd as Hnd'.
    repeat split; auto.
    + by apply insert_subseteq_r.
    + by rewrite lookup_insert_eq.
    + do 2 (apply spine_insert; [naive_solver|]). done.
  - by rewrite lookup_insert_ne, lookup_insert_eq by done.
  - simpl. by rewrite not_elem_of_cons.
Qed.

(** Extending the copied path by a copied cell. *)
Lemma cloned_extend h0 h path path' f a' p :
  cloned h0 h path path' (Some a') -> h !! a' = Some (frame_cell f p) ->
  h0 !! a' = None -> a' ∉ frame_locs path' ->
  exists f', frame_loc f' = a' /\ cloned h0 h (f :: path) (f' :: path') p /\ is_left f' = is_left f.
Proof.
  intros (Hsub & Hsame & Hsp & Hfr & Hnd) Ha Ha0 Hna.
  exists (match f with FLeft _ d r => FLeft a' d r | FRight l _ d => FRight l a' d end).
  destruct f; (split_and!; [done| |done]); repeat split; simpl; auto;
    try (constructor; by auto).
Qed.

Section Proofs.
Context {Stk : Type} `{ParentStackLaws Stk}.

(** What the searches of [Put] and [Delete] leave: the path copied, and the node
    found, if any, copied below it. *)
Lemma i_put_search_ok fuel h0 h key t path path' parents c :
  stk_abs parents (path_ptrs path') -> rep h0 t -> NoDup (locs t ++ sib_locs path) ->
  cloned h0 h path path' (lroot t) -> (length (locs t) <= fuel)%nat ->
  let '(p1, t1) := lsearch path t key in
  exists h' p1' found ps c',
    i_put_search fuel h key (lroot t) parents c = Ok (h', found, ps, c') /\
    match t1 with
    | LLeaf =>
        found = None /\ stk_abs ps (path_ptrs p1') /\ cloned h0 h' p1 p1' None /\
        (p1' = path' /\ c' = c \/
         exists f pp, p1' = f :: pp /\
           c' = match f with FLeft _ _ _ => Lt | FRight _ _ _ => Gt end)
    | LNode l a d r =>
        exists a', found = Some (Some a, Some a') /\ stk_abs ps (Some a' :: path_ptrs p1') /\
          cloned h0 h' p1 p1' (Some a') /\ h' !! a' = Some (cell d (lroot l) (lroot r)) /\
          h0 !! a' = None /\ a' ∉ frame_locs p1'
    end.
Proof.
  revert fuel h path path' parents c.
  induction t as [|l IHl a d r IHr]; intros fuel h path path' parents c Habs Hrep Hnd Hcl Hfuel; simpl.
  { destruct fuel; simpl; eexists _, _, _, _, _; split; eauto 10. }
  destruct Hrep as (Ha & Hl & Hr). simpl in Hfuel, Hnd. rewrite length_app in Hfuel.
  destruct fuel as [|fuel]; [lia|]. simpl.
  pose proof Hcl as (Hsub & _). rewrite (lookup_weaken _ _ _ _ Ha Hsub). simpl.
  change (cloneTreapNode (cell d (lroot l) (lroot r))) with (cell d (lroot l) (lroot r)).
  erewrite stk_abs_at by done. simpl. nodup.
  destruct (clone_step h0 h path path' a (fresh_loc h) (cell d (lroot l) (lroot r)))
    as (h1 & Hrl & Hcl1 & Ha1 & Ha0 & Hna); [done|set_solver|apply fresh_loc_None|].
  match goal with |- context [relink_child _ (mjoin ?g)] =>
    change g with (path_ptrs path' !! 0%nat) end.
  rewrite Hrl. simpl. destruct (stk_abs_push parents (Some (fresh_loc h)) _ Habs) as (ps & -> & Hps).
  simpl. destruct (bytes_compare key (it_key d)) eqn:E.
  - eexists _, _, _, _, _. split; [done|]. eauto 10.
  - destruct (cloned_extend h0 h1 path path' (FLeft a d r) (fresh_loc h) (lroot l))
      as (f' & Hf' & Hcl2 & Hleft); [done..|].
    specialize (IHl fuel h1 (FLeft a d r :: path) (f' :: path') ps Lt). simpl in IHl.
    rewrite Hf' in IHl. specialize (IHl Hps Hl). 
    destruct (lsearch _ l key) as [p1 t1] eqn:El.
    destruct IHl as (h2 & p1' & found & ps' & c' & -> & Hres); [nodup; set_solver|done|lia|].
    exists h2, p1', found, ps', c'. split; [done|]. destruct t1; [|done].
    destruct Hres as (? & ? & ? & [[-> ->]|?]); split_and!; auto.
    right. exists f', path'. split; [done|]. by destruct f'.
  - destruct (cloned_extend h0 h1 path path' (FRight l a d) (fresh_loc h) (lroot r))
      as (f' & Hf' & Hcl2 & Hleft); [done..|].
    specialize (IHr fuel h1 (FRight l a d :: path) (f' :: path') ps Gt). simpl in IHr.
    rewrite Hf' in IHr. specialize (IHr Hps Hr).
    destruct (lsearch _ r key) as [p1 t1] eqn:El.
    destruct IHr as (h2 & p1' & found & ps' & c' & -> & Hres); [nodup; set_solver|done|lia|].
    exists h2, p1', found, ps', c'. split; [done|]. destruct t1; [|done].
    destruct Hres as (? & ? & ? & [[-> ->]|?]); split_and!; auto.
    right. exists f', path'. split; [done|]. by destruct f'.
Qed.

(** The loop of [Immutable.Put] is that of [Mutable.Put] with the root in a variable. *)
Lemma i_put_rotate_eq fuel h root node (parents : Stk) c s :
  m_put_rotate fuel h (MkMutable root c s) node parents =
  ('(h', root') ← i_put_rotate fuel h root node parents; Ok (h', MkMutable root' c s)).
Proof.
  revert h root parents. induction fuel as [|fuel IH]; intros h root parents; simpl;
    case_decide; simpl; try done.
  destruct (stk_pop parents) as [[parent ps]| |]; simpl; [|done..].
  destruct (load h node) as [nd| |]; simpl; [|done..].
  destruct (load h parent) as [pn| |]; simpl; [|done..].
  case_decide; simpl; [done|].
  destruct (rotate_nodes h node parent nd pn) as [h1| |]; simpl; [|done..].
  destruct (stk_at ps 0) as [gp| |]; simpl; [|done..].
  destruct gp as [g|]; simpl; [|apply IH].
  destruct (h1 !! g) as [gn|] eqn:Eg; simpl; [|done].
  case_decide; simpl; apply IH.
Qed.

Lemma ctx_root_last path p q :
  mjoin ((p :: path_ptrs path) !! length path) = ctx_root path q <-> path <> [] \/ p = q.
Proof.
  revert p q; induction path as [|f path IH]; intros p q; simpl.
  - naive_solver.
  - split; [intros _; by left|intros _]. rewrite (IH _ (Some (frame_loc f))). by right.
Qed.

Lemma new_root_ok ps f pp :
  stk_abs ps (path_ptrs (f :: pp)) ->
  stk_at ps (stk_len ps - 1) = Ok (ctx_root pp (Some (frame_loc f))).
Proof.
  intros Habs. erewrite stk_abs_len by done. erewrite stk_abs_at by (done || simpl; lia).
  f_equal. simpl length. rewrite length_path_ptrs.
  replace (Z.to_nat _) with (length pp) by lia. apply ctx_root_last. by right.
Qed.
End Proofs.

Lemma plug_sib_rep h path t : rep h (plug path t) -> sib_rep h path.
Proof. intros [[_ ?]%rep_ctx_spine _]%rep_plug. done. Qed.

Lemma plug_sib_nodup path t : NoDup (locs (plug path t)) -> NoDup (locs t ++ sib_locs path).
Proof. rewrite NoDup_plug, path_locs_split. nodup. set_solver. Qed.

Lemma same_ctx_heap path path' : Forall2 same_frame path path' -> ctx_heap path -> ctx_heap path'.
Proof.
  induction 1 as [|f g path path' Hf Hp IH]; [done|]. simpl.
  assert (frame_sib f = frame_sib g /\ frame_item f = frame_item g) as [<- <-]
    by (destruct f, g; simpl in *; naive_solver).
  intros (? & ? & Hpar & ?). split_and!; auto.
  destruct Hp as [|f' g' ? ? Hf']; [done|].
  by assert (frame_item f' = frame_item g') as <- by (destruct f', g'; simpl in *; naive_solver).
Qed.

(** The copied path, with [t'] in its hole, is again a treap. *)
Lemma cloned_ok h0 h m path path' t t' :
  mutable_ok h0 m (plug path t) -> cloned h0 h path path' (lroot t') -> rep h t' ->
  inorder t' = inorder t -> NoDup (locs t' ++ sib_locs path) ->
  (forall x, x ∈ locs t' -> x ∉ frame_locs path') ->
  mutable_ok h (set_root m (lroot (plug path' t'))) (plug path' t').
Proof.
  intros (Hroot & Hrep & Hnd & Hs & Hcount & Hsize) Hcl Ht Hin Hnd' Hx.
  pose proof (plug_sib_rep _ _ _ Hrep) as Hsib.
  assert (inorder (plug path' t') = inorder (plug path t)) as Hio.
  { destruct Hcl as (_ & Hsame & _). apply same_frames in Hsame as (Hb & Ha & _).
    by rewrite !inorder_plug, Hb, Ha, Hin. }
  unfold mutable_ok. rewrite Hio. split_and!; auto.
  - by eapply cloned_rep.
  - apply NoDup_plug. by eapply cloned_nodup.
Qed.

Lemma cloned_frame h0 h h' path path' p ls :
  cloned h0 h path path' p -> heap_frame h h' ls ->
  (forall x, x ∈ ls -> h0 !! x = None) -> h0 ⊆ h'.
Proof.
  intros (Hsub & _) Hfr Hls. apply map_subseteq_spec. intros i x Hi.
  pose proof (lookup_weaken _ _ _ _ Hi Hsub) as Hi'. rewrite Hfr; [done| |by eauto].
  intros ?%Hls. congruence.
Qed.

Lemma cloned_fresh h0 h path path' p x :
  cloned h0 h path path' p -> x ∈ frame_locs path' -> h0 !! x = None.
Proof.
  intros (_ & _ & _ & Hfr & _) (f & -> & Hf)%list_elem_of_fmap. by eapply Forall_forall in Hfr.
Qed.

Section PutProofs.
Context {Stk : Type} `{ParentStackLaws Stk}.

Lemma i_put_insert_ok h0 h m t key v rnd path f pp ps :
  mutable_ok h0 m t -> lsearch [] t key = (path, LLeaf) ->
  cloned h0 h path (f :: pp) None -> stk_abs ps (path_ptrs (f :: pp)) ->
  let node := newTreapNode key v rnd in
  exists h1 h2 root t',
    link_child (<[fresh_loc h := node]> h) (Some (frame_loc f))
      match f with FLeft _ _ _ => Lt | FRight _ _ _ => Gt end (Some (fresh_loc h)) = Ok h1 /\
    i_put_rotate (Z.to_nat (stk_len ps)) h1 (ctx_root pp (Some (frame_loc f)))
      (Some (fresh_loc h)) ps = Ok (h2, root) /\ h0 ⊆ h2 /\
    mutable_ok h2 (MkMutable root (i64 (m_count m + 1)) (u64 (m_totalSize m + nodeSize node))) t' /\
    contents t' = <[key := v]> (contents t) /\ (min_heap t -> min_heap t').
Proof.
  intros Hok El Hcl Hps node. pose proof (lsearch_plug _ _ _ _ _ El) as Hpl. simpl in Hpl.
  pose proof Hok as (_ & Hrep & Hnd & Hs & _).
  destruct (contents_add t key path (fresh_loc h) v rnd Hs El) as (Hs' & Hadd & _).
  pose proof Hcl as (_ & Hsame & _). pose proof (same_frames _ _ Hsame) as (Hb & Ha & _ & _).
  assert (forall X, inorder (plug (f :: pp) X) = inorder (plug path X)) as Hio
    by (intros; by rewrite !inorder_plug, Hb, Ha).
  assert (mutable_ok h (set_root m (lroot (plug (f :: pp) LLeaf))) (plug (f :: pp) LLeaf)) as Hok1.
  { rewrite Hpl in Hok. eapply (cloned_ok h0 h m path (f :: pp) LLeaf LLeaf); [done..| |].
    - rewrite Hpl in Hnd. by apply plug_sib_nodup in Hnd.
    - by intros x ?%elem_of_nil. }
  destruct (put_insert_ok h _ key v rnd f pp ps Hok1) as (h1 & h2 & m2 & Hlink & Hrot & Hok2 & Hfr2);
    [by rewrite Hio|done|].
  simpl m_root in Hrot. rewrite lroot_plug in Hrot.
  replace (lroot (plug1 f LLeaf)) with (Some (frame_loc f)) in Hrot by by destruct f.
  rewrite i_put_rotate_eq in Hrot. apply bind_ok_inv in Hrot as ([h2' root] & Hrot & Heq).
  injection Heq as Hh2 Hm2. subst h2' m2. eexists h1, h2, root, _. split_and!; [done|done| |exact Hok2| |].
  - eapply cloned_frame; [done|exact Hfr2|]. intros. by eapply cloned_fresh.
  - unfold contents. rewrite rotate_up_inorder, Hio. exact Hadd.
  - rewrite Hpl. intros (Hh & _ & _)%min_heap_plug. apply rotate_up_min_heap; [|done..].
    by eapply same_ctx_heap.
Qed.

Lemma i_put_replace_ok h0 h m t key v path path' l a d r a' :
  mutable_ok h0 m t -> lsearch [] t key = (path, LNode l a d r) ->
  cloned h0 h path path' (Some a') -> h !! a' = Some (cell d (lroot l) (lroot r)) ->
  h0 !! a' = None -> a' ∉ frame_locs path' ->
  let sz := u64 (m_totalSize m - Z.of_nat (length (it_value d))) in
  let h' := <[a' := cell (Item (it_key d) v (it_prio d)) (lroot l) (lroot r)]> h in
  exists t',
    h0 ⊆ h' /\ h' !! a = Some (cell d (lroot l) (lroot r)) /\
    mutable_ok h' (MkMutable (ctx_root path' (Some a')) (m_count m) (u64 (sz + Z.of_nat (length v)))) t' /\
    contents t' = <[key := v]> (contents t) /\ (min_heap t -> min_heap t').
Proof.
  intros Hok El Hcl Ha' Ha0 Hna sz h'. pose proof (lsearch_plug _ _ _ _ _ El) as Hpl. simpl in Hpl.
  pose proof Hok as (_ & Hrep & Hnd & Hs & _). rewrite Hpl in Hok, Hrep, Hnd, Hs.
  pose proof Hrep as [_ (Ha & Hl & Hr)]%rep_plug. pose proof Hcl as (Hsub & Hsame & _).
  pose proof (same_frames _ _ Hsame) as (Hb & Haf & _ & _).
  assert (forall X, inorder (plug path' X) = inorder (plug path X)) as Hio
    by (intros; by rewrite !inorder_plug, Hb, Haf).
  assert (forall x, x ∈ locs l ++ locs r -> is_Some (h0 !! x)) as Hdom.
  { intros x [?|?]%elem_of_app; eauto using rep_locs_dom. }
  assert (mutable_ok h (set_root m (lroot (plug path' (LNode l a' d r)))) (plug path' (LNode l a' d r)))
    as Hok1.
  { eapply (cloned_ok h0 h m path path' (LNode l a d r) (LNode l a' d r)); [done..| |done| |].
    - simpl. split_and!; auto; by eapply rep_mono.
    - apply plug_sib_nodup in Hnd. simpl in *. rewrite NoDup_cons in *. split; [|naive_solver].
      intros [Hin|Hin]%elem_of_app; [destruct (Hdom a' Hin); congruence|].
      destruct (sib_locs_dom h0 path a'); [by eapply plug_sib_rep|done|congruence].
    - simpl. intros x [->|Hin]%elem_of_cons; [done|]. intros Hf.
      destruct (Hdom x Hin). eapply cloned_fresh in Hf; [|done]. congruence. }
  destruct (put_replace_ok h _ v path' l a' d r Hok1) as (Hok2 & _).
  exists (plug path' (LNode l a' (Item (it_key d) v (it_prio d)) r)). split_and!.
  - by apply insert_subseteq_r.
  - unfold h'. rewrite lookup_insert_ne by congruence. by eapply lookup_weaken.
  - rewrite lroot_plug in Hok2. exact Hok2.
  - rewrite Hpl. apply lsearch_found in El as <-.
    rewrite <- (proj2 (contents_replace path l a d r v Hs)).
    unfold contents. by rewrite Hio, !inorder_plug.
  - rewrite Hpl. intros (Hh & Hm & Hfit)%min_heap_plug. apply min_heap_plug. split_and!.
    + by eapply same_ctx_heap.
    + done.
    + destruct Hsame as [|f g ? ? Hf]; [done|]. simpl in *. by destruct f, g; simpl in *; naive_solver.
Qed.

Lemma i_Put_ok h m t key value rnd :
  immutable_ok h m t ->
  exists h' m' t',
    i_Put (Stk := Stk) h m key value rnd = Ok (h', m') /\ h ⊆ h' /\ immutable_ok h' m' t' /\
    contents t' = <[key := default [] value]> (contents t) /\ (min_heap t -> min_heap t').
Proof.
  intros Hok. pose proof Hok as (Hroot & Hrep & Hnd & Hs & _). simpl in Hroot.
  unfold i_Put. destruct t as [|tl ta td tr] eqn:Et.
  { rewrite Hroot. simpl. eexists _, _, (LNode LLeaf (fresh_loc h) (Item key (default [] value) rnd) LLeaf).
    split; [done|]. split_and!; [| |done..].
    - apply insert_subseteq_r; [apply fresh_loc_None|done].
    - by apply (put_new_root h (as_mutable m)). }
  rewrite <- Et in *. assert (i_root m = Some ta) as -> by by rewrite Hroot, Et.
  pose proof (i_put_search_ok (size h) h h key t [] [] stk_empty Eq stk_abs_empty Hrep) as Hsearch.
  simpl in Hsearch. rewrite app_nil_r in Hsearch.
  specialize (Hsearch Hnd ltac:(by repeat constructor) (rep_size _ _ Hrep Hnd)).
  destruct (lsearch [] t key) as [path t'] eqn:El.
  destruct Hsearch as (h1 & p1' & found & ps & c & Hse & Hres).
  replace (lroot t) with (Some ta) in Hse by by rewrite Et. rewrite Hse. simpl.
  destruct t' as [|l a d r]; simpl.
  - destruct Hres as (-> & Hps & Hcl & Hc). destruct Hc as [[-> ->]|(f & pp & -> & ->)].
    { destruct Hcl as (_ & Hsame & _). inversion Hsame; subst path.
      apply lsearch_plug in El. simpl in El. congruence. }
    rewrite (stk_abs_at ps _ 0 Hps) by lia. simpl.
    destruct (i_put_insert_ok h h1 (as_mutable m) t key (default [] value) rnd path f pp ps)
      as (h2 & h3 & root & t' & Hlink & Hrot & Hsub & Hok' & Hcont & Hheap); [done..|].
    unfold emptySlice. rewrite Hlink. simpl. erewrite new_root_ok by done. simpl.
    rewrite Hrot. simpl. eexists h3, _, t'. split_and!; [done..|exact Hok'|done|done].
  - destruct Hres as (a' & -> & Hps & Hcl & Ha' & Ha0 & Hna). rewrite (modify_ok _ _ _ _ Ha'). simpl.
    destruct (i_put_replace_ok h h1 (as_mutable m) t key (default [] value) path p1' l a d r a')
      as (t' & Hsub & Ha & Hok' & Hcont & Hheap); [done..|].
    assert (stk_at ps (stk_len ps - 1) = Ok (ctx_root p1' (Some a'))) as ->.
    { apply (new_root_ok ps (FLeft a' d r) p1'). done. }
    simpl. unfold emptySlice.
    change (set_value (default [] value) (cell d (lroot l) (lroot r))) with
      (cell (Item (it_key d) (default [] value) (it_prio d)) (lroot l) (lroot r)).
    rewrite Ha. simpl. eexists _, _, t'. split_and!; [done..|exact Hok'|done|done].
Qed.
End PutProofs.

(** ** Deletion *)

(** [relink_child] on the head of a path, from [m_relink_ok]. *)
Lemma relink_child_ok h path a b :
  rep_ctx h path (Some b) -> b ∉ path_locs path -> NoDup (path_locs path) ->
  exists h',
    relink_child h (mjoin (path_ptrs path !! 0%nat)) (Some b) (Some a) = Ok h' /\
    rep_ctx h' path (Some a) /\ (forall x, x ∉ frame_locs path -> h' !! x = h !! x).
Proof.
  intros Hc Hb Hnd.
  destruct (m_relink_ok h (MkMutable (ctx_root path (Some b)) 0 0) path a b) as (h' & Hr & ? & ?);
    [done..|]. exists h'. split_and!; auto.
  destruct path as [|f path]; simpl in *; [congruence|].
  destruct (h !! frame_loc f) as [g|]; simpl in *; [|done].
  case_decide; simpl in *; congruence.
Qed.

Lemma plug_app pre post t : plug (pre ++ post) t = plug post (plug pre t).
Proof. revert t; induction pre as [|f pre IH]; intros t; simpl; auto. Qed.

Lemma ctx_root_snoc pre g p : ctx_root (pre ++ [g]) p = Some (frame_loc g).
Proof. revert p; induction pre as [|f pre IH]; intros p; simpl; auto. Qed.

Section DeleteProofs.
Context {Stk : Type} `{ParentStackLaws Stk}.

Lemma i_del_search_ok fuel h key t path (parents : Stk) :
  stk_abs parents (path_ptrs path) -> rep h t -> (length (locs t) <= fuel)%nat ->
  let '(path', t') := lsearch path t key in
  exists ps,
    i_del_search fuel h key (lroot t) parents = Ok (lroot t', ps) /\
    match t' with LLeaf => True | LNode _ a _ _ => stk_abs ps (Some a :: path_ptrs path') end.
Proof.
  revert fuel path parents.
  induction t as [|l IHl a d r IHr]; intros fuel path parents Habs Hrep Hfuel; simpl.
  { destruct fuel; simpl; eauto. }
  destruct Hrep as (Ha & Hl & Hr). simpl in Hfuel. rewrite length_app in Hfuel.
  destruct fuel as [|fuel]; [lia|]. simpl.
  destruct (stk_abs_push parents (Some a) _ Habs) as (ps & -> & Hps). simpl. rewrite Ha. simpl.
  destruct (bytes_compare key (it_key d)) eqn:E; [by eauto| |].
  - apply (IHl fuel (FLeft a d r :: path) ps Hps Hl). lia.
  - apply (IHr fuel (FRight l a d :: path) ps Hps Hr). lia.
Qed.

Lemma i_del_clone_ok h0 pre : forall h post post' (parents newps : Stk) l a d r,
  rep h0 (plug (pre ++ post) (LNode l a d r)) ->
  NoDup (locs (plug (pre ++ post) (LNode l a d r))) ->
  stk_abs parents (Some a :: path_ptrs (pre ++ post)) -> stk_abs newps (path_ptrs post') ->
  cloned h0 h post post' (ctx_root pre (Some a)) ->
  exists h' path' a' ps',
    i_del_clone (S (length pre)) h parents newps = Ok (h', ps') /\
    stk_abs ps' (Some a' :: path_ptrs path') /\
    cloned h0 h' (pre ++ post) path' (Some a') /\
    h' !! a' = Some (cell d (lroot l) (lroot r)) /\ h0 !! a' = None /\ a' ∉ frame_locs path'.
Proof.
  induction pre as [|g pre IH] using rev_ind; intros h post post' parents newps l a d r Hrep Hnd Hps Hnps Hcl.
  - simpl. rewrite (stk_abs_at parents _ _ Hps) by lia. simpl in Hrep, Hnd, Hcl |- *.
    pose proof Hrep as [_ (Ha & _)]%rep_plug. pose proof Hcl as (Hsub & _).
    rewrite (lookup_weaken _ _ _ _ Ha Hsub). simpl.
    rewrite (stk_abs_at newps _ 0 Hnps) by lia. simpl.
    destruct (clone_step h0 h post post' a (fresh_loc h) (cell d (lroot l) (lroot r)))
      as (h1 & Hrl & Hcl1 & Ha1 & Ha0 & Hna); [done| |apply fresh_loc_None|].
    { apply plug_sib_nodup in Hnd. simpl in Hnd. nodup. set_solver. }
    match goal with |- context [relink_child _ (mjoin ?g)] =>
      change g with (path_ptrs post' !! 0%nat) end.
    change (cloneTreapNode (cell d (lroot l) (lroot r))) with (cell d (lroot l) (lroot r)).
    rewrite Hrl. simpl. destruct (stk_abs_push newps (Some (fresh_loc h)) _ Hnps) as (ps & -> & Hps').
    simpl. eexists _, _, _, _. split; [done|]. eauto 10.
  - rewrite <- app_assoc in *. simpl in Hrep, Hnd, Hps |- *. rewrite ctx_root_snoc in Hcl.
    pose proof Hrep as Hrep'. rewrite plug_app in Hrep'.
    apply rep_plug in Hrep' as [(Hg & _) _]. rewrite lroot_plug in Hg. simpl in Hg.
    rewrite length_app, Nat.add_1_r.
    assert (stk_at parents (Z.of_nat (S (S (length pre))) - 1) = Ok (Some (frame_loc g))) as Hat.
    { rewrite (stk_abs_at parents _ _ Hps) by lia. f_equal.
      replace (Z.to_nat _) with (S (length pre)) by lia. simpl. unfold path_ptrs.
      rewrite list_lookup_fmap, lookup_app_r, Nat.sub_diag by lia. done. }
    unfold i_del_clone; fold (i_del_clone (Stk := Stk)). rewrite Hat. simpl.
    pose proof Hcl as (Hsub & _). rewrite (lookup_weaken _ _ _ _ Hg Hsub). simpl.
    rewrite (stk_abs_at newps _ 0 Hnps) by lia. simpl.
    destruct (clone_step h0 h post post' (frame_loc g) (fresh_loc h) (frame_cell g (ctx_root pre (Some a))))
      as (h1 & Hrl & Hcl1 & Ha1 & Ha0 & Hna); [done| |apply fresh_loc_None|].
    { rewrite plug_app, NoDup_plug, path_locs_split in Hnd. simpl in Hnd. nodup. set_solver. }
    match goal with |- context [relink_child _ (mjoin ?g)] =>
      change g with (path_ptrs post' !! 0%nat) end.
    replace (cloneTreapNode (frame_cell g (ctx_root pre (Some a))))
      with (frame_cell g (ctx_root pre (Some a))) by by destruct g.
    rewrite Hrl. simpl. destruct (stk_abs_push newps (Some (fresh_loc h)) _ Hnps) as (ps & -> & Hps').
    destruct (cloned_extend h0 h1 post post' g (fresh_loc h) (ctx_root pre (Some a)))
      as (g' & Hg' & Hcl2 & _); [done..|]. simpl.
    apply (IH h1 (g :: post) (g' :: post') parents ps l a d r); auto.
    simpl. by rewrite Hg'.
Qed.
End DeleteProofs.

(** One rotation of [Immutable.Delete], on a clone [c'] of the child [c]. *)
Lemma i_del_step_ok h0 h f path cl c cd cr :
  h0 ⊆ h -> h0 !! frame_loc f = None -> (forall x, x ∈ frame_locs path -> h0 !! x = None) ->
  rep h (plug (f :: path) (LNode cl c cd cr)) -> NoDup (locs (plug (f :: path) (LNode cl c cd cr))) ->
  let c' := fresh_loc h in
  exists h2 h3,
    sink_child (<[c' := cell cd (lroot cl) (lroot cr)]> h) (Some (frame_loc f)) (Some c')
      (cell cd (lroot cl) (lroot cr)) (is_left f) = Ok h2 /\
    relink_child h2 (mjoin (path_ptrs path !! 0%nat)) (Some (frame_loc f)) (Some c') = Ok h3 /\
    h0 ⊆ h3 /\ h0 !! c' = None /\
    rep h3 (plug (flip f cl c' cd cr :: path) (sunk f cl cr)) /\
    NoDup (locs (plug (flip f cl c' cd cr :: path) (sunk f cl cr))).
Proof.
  intros Hsub Hf0 Hfr Hrep Hnd c'.
  assert (h !! c' = None) as Hc' by apply fresh_loc_None.
  assert (forall x, x ∈ locs (plug (f :: path) (LNode cl c cd cr)) -> x <> c') as Hne.
  { intros x Hx ->. destruct (rep_locs_dom _ _ _ Hrep Hx). congruence. }
  assert (NoDup (locs (plug (f :: path) (LNode cl c' cd cr)))) as Hnd1.
  { rewrite NoDup_plug in Hnd |- *. simpl in Hnd |- *. rewrite NoDup_cons in Hnd |- *.
    split; [|naive_solver]. intros Hin. eapply Hne; [|done]. rewrite locs_plug. simpl. by apply elem_of_cons; right. }
  assert (forall t, rep h t -> locs t ⊆ locs (plug (f :: path) (LNode cl c cd cr)) ->
    rep (<[c' := cell cd (lroot cl) (lroot cr)]> h) t) as Hins.
  { intros t Ht Hs. apply rep_insert; [|done]. intros ?%Hs%Hne. done. }
  pose proof Hrep as [(Hf & Hsib & Hc) (_ & Hl & Hr)]%rep_plug. simpl in Hc.
  assert (frame_loc f <> c') as Hfc by (intros E; rewrite E in Hf; congruence).
  destruct (sink_child_ok (<[c' := cell cd (lroot cl) (lroot cr)]> h) f (Some c) path cl c' cd cr)
    as (h2 & Hsink & HT & Hctx & Hfr2).
  { by rewrite lookup_insert_ne. }
  { apply Hins; [done|]. intros x. rewrite locs_plug. simpl. set_solver. }
  { apply rep_ctx_insert; [|done]. intros Hin. eapply Hne; [|done].
    rewrite locs_plug. simpl. set_solver. }
  { simpl. rewrite lookup_insert_eq. split_and!; [done| |]; apply Hins; auto; intros x;
      rewrite locs_plug; simpl; set_solver. }
  { done. }
  pose proof Hnd1 as Hnd2. rewrite NoDup_plug in Hnd2. simpl in Hnd2. nodup.
  destruct (relink_child_ok h2 path c' (frame_loc f)) as (h3 & Hrl & Hctx3 & Hfr3); [done|set_solver|done|].
  exists h2, h3. split_and!; auto.
  - apply map_subseteq_spec. intros i x Hi. pose proof (lookup_weaken _ _ _ _ Hi Hsub) as Hih.
    rewrite Hfr3 by (intros ?%Hfr; congruence). rewrite Hfr2 by congruence.
    by rewrite lookup_insert_ne by congruence.
  - by eapply lookup_weaken_None.
  - simpl. rewrite <- rotated_sunk. apply rep_plug. split; [by destruct f|].
    eapply rep_agree; [|exact HT]. intros x Hx. apply Hfr3. intros Hin%frame_locs_sub.
    rewrite <- rotated_locs, NoDup_plug, NoDup_app in Hnd1. naive_solver.
  - simpl. rewrite <- rotated_sunk. by rewrite rotated_locs.
Qed.

(** The rotations of [Immutable.Delete]: the frames above the node, and the node
    itself, are outside [h0]; its subtrees are in [h0]. *)
(** The node to delete after it has sunk below its child: it is smaller, and the keys are where they were. *)
Lemma sunk_ok fuel h0 f path cl c cd cr l a d r b :
  LNode l a d r = plug1 f (LNode cl c cd cr) -> rep h0 l -> rep h0 r ->
  (length (locs l) + length (locs r) <= S fuel)%nat ->
  exists sl sr, sunk f cl cr = LNode sl a d sr /\
    (length (locs sl) + length (locs sr) <= fuel)%nat /\ rep h0 sl /\ rep h0 sr /\
    before (flip f cl b cd cr :: path) ++ inorder sl = before path ++ inorder l /\
    inorder sr ++ after (flip f cl b cd cr :: path) = inorder r ++ after path.
Proof.
  intros Heq Hl Hr Hfuel. destruct f as [x e s|s x e]; simpl in *; simplify_eq; simpl in *;
    rewrite ?length_app in Hfuel; eexists _, _; (split; [done|]);
    rewrite ?length_app; (split; [lia|]); (split_and!; [naive_solver..| |]); by list_norm.
Qed.

Lemma i_del_rotate_ok fuel h0 h root path l a d r :
  h0 ⊆ h -> rep h0 l -> rep h0 r -> h0 !! a = None ->
  (forall x, x ∈ frame_locs path -> h0 !! x = None) ->
  (path = [] \/ root = ctx_root path (Some a)) ->
  rep h (plug path (LNode l a d r)) -> NoDup (locs (plug path (LNode l a d r))) ->
  (length (locs l) + length (locs r) <= fuel)%nat ->
  exists h' path',
    i_del_rotate fuel h root (Some a) (mjoin (path_ptrs path !! 0%nat)) =
      Ok (h', match path' with [] => root | _ => ctx_root path' (Some a) end,
          mjoin (path_ptrs path' !! 0%nat)) /\
    h0 ⊆ h' /\ (forall x, x ∈ frame_locs path' -> h0 !! x = None) /\
    rep h' (plug path' (LNode LLeaf a d LLeaf)) /\
    NoDup (locs (plug path' (LNode LLeaf a d LLeaf))) /\
    before path' = before path ++ inorder l /\ after path' = inorder r ++ after path /\
    (path' = [] -> path = [] /\ l = LLeaf /\ r = LLeaf).
Proof.
  revert h root path l r.
  induction fuel as [|fuel IH]; intros h root path l r Hsub Hl Hr Ha0 Hfr Hroot Hrep Hnd Hfuel;
    pose proof Hrep as [_ Hn]%rep_plug; pose proof Hn as (Ha & _); simpl.
  - destruct l, r; simpl in *; try lia. rewrite Ha. simpl.
    exists h, path. split_and!; auto; rewrite ?app_nil_r; auto.
    destruct path; [done|]. by destruct Hroot as [?| ->].
  - rewrite Ha. simpl. case_decide as Hdec.
    { destruct Hdec as [Hll Hrr]. destruct l, r; simpl in *; try done.
      exists h, path. split_and!; auto; rewrite ?app_nil_r; auto.
      destruct path; [done|]. by destruct Hroot as [?| ->]. }
    destruct (choose_child_ok h l a d r Hn) as (f & cl & c & cd & cr & Heq & Hfl & ->).
    { intros [-> ->]. simpl in *. naive_solver. }
    simpl. rewrite Heq in *. change (plug path (plug1 f (LNode cl c cd cr)))
      with (plug (f :: path) (LNode cl c cd cr)) in *.
    pose proof Hrep as [_ (Hc & _)]%rep_plug. rewrite Hc. simpl.
    destruct (i_del_step_ok h0 h f path cl c cd cr) as (h2 & h3 & Hsink & Hrl & Hsub3 & Hc0 & Hrep3 & Hnd3);
      [done|by rewrite Hfl|done|done|done|]. rewrite <- Hfl.
    change (cloneTreapNode (cell cd (lroot cl) (lroot cr))) with (cell cd (lroot cl) (lroot cr)).
    rewrite Hsink. simpl. rewrite Hfl in *.
    destruct (sunk_ok fuel h0 f path cl c cd cr l a d r (fresh_loc h) Heq Hl Hr Hfuel)
      as (sl & sr & Hsunk & Hlen & Hsl & Hsr & Hbef & Haft).
    rewrite Hsunk in *. set (g := flip f cl (fresh_loc h) cd cr) in *.
    assert (frame_loc g = fresh_loc h) as Hgl by by destruct f.
    rewrite <- Hbef, <- Haft.
    assert (forall root', (root' = ctx_root (g :: path) (Some a)) ->
      exists h' path', i_del_rotate fuel h3 root' (Some a) (Some (fresh_loc h)) =
        Ok (h', ctx_root path' (Some a), mjoin (path_ptrs path' !! 0%nat)) /\
      path' <> [] /\ h0 ⊆ h' /\ (forall x, x ∈ frame_locs path' -> h0 !! x = None) /\
      rep h' (plug path' (LNode LLeaf a d LLeaf)) /\ NoDup (locs (plug path' (LNode LLeaf a d LLeaf))) /\
      before path' = before (g :: path) ++ inorder sl /\
      after path' = inorder sr ++ after (g :: path)) as Hrec.
    { intros root' Hroot'.
      destruct (IH h3 root' (g :: path) sl sr) as (h4 & path' & Hrun & ? & ? & ? & ? & ? & ? & Hnil);
        [done|done|done|done| |by right|done|done|done|].
      { intros x [->|Hx]%elem_of_cons; [by rewrite Hgl|by apply Hfr]. }
      simpl in Hrun. rewrite Hgl in Hrun. exists h4, path'.
      assert (path' <> []) as Hne by (intros ->; naive_solver).
      split_and!; auto. rewrite Hrun. by destruct path'. }
    destruct path as [|q path]; simpl.
    + simpl in Hrl. injection Hrl as <-. destruct (Hrec (Some (fresh_loc h))) as (h4 & path' & -> & ?).
      { simpl. by rewrite Hgl. }
      exists h4, path'. destruct path'; naive_solver.
    + simpl in Hrl. rewrite Hrl. simpl. destruct (Hrec root) as (h4 & path' & -> & ?).
      { destruct Hroot as [?| ->]; done. }
      exists h4, path'. destruct path'; naive_solver.
Qed.

(** The copied path with the copied node in its hole. *)
Lemma i_clone_rep h0 h m path path' l a d r a' :
  mutable_ok h0 m (plug path (LNode l a d r)) -> cloned h0 h path path' (Some a') ->
  h !! a' = Some (cell d (lroot l) (lroot r)) -> h0 !! a' = None -> a' ∉ frame_locs path' ->
  rep h (plug path' (LNode l a' d r)) /\ NoDup (locs (plug path' (LNode l a' d r))).
Proof.
  intros (_ & Hrep & Hnd & _) Hcl Ha' Ha0 Hna.
  pose proof Hrep as [_ (_ & Hl & Hr)]%rep_plug. pose proof (plug_sib_rep _ _ _ Hrep) as Hsib.
  pose proof Hcl as (Hsub & _).
  assert (forall x, x ∈ locs l ++ locs r -> is_Some (h0 !! x)) as Hdom.
  { intros x [?|?]%elem_of_app; eauto using rep_locs_dom. }
  split.
  - eapply cloned_rep; [done..|]. simpl. split_and!; auto; by eapply rep_mono.
  - apply NoDup_plug. eapply cloned_nodup; [done..| |].
    + apply plug_sib_nodup in Hnd. simpl in *. rewrite NoDup_cons in *. split; [|naive_solver].
      intros [Hin|Hin]%elem_of_app; [destruct (Hdom a' Hin); congruence|].
      destruct (sib_locs_dom h0 path a'); [done..|congruence].
    + simpl. intros x [->|Hin]%elem_of_cons; [done|]. intros Hf.
      destruct (Hdom x Hin). eapply cloned_fresh in Hf; [|done]. congruence.
Qed.

Section DeleteSpec.
Context {Stk : Type} `{ParentStackLaws Stk}.

(** [newParents.At(newParents.Len()-1)], where [At(-1)] of an empty stack is nil. *)
Lemma last_parent_ok ps path p :
  stk_abs ps (path_ptrs path) ->
  stk_at ps (stk_len ps - 1) = Ok match path with [] => None | _ => ctx_root path p end.
Proof.
  destruct path as [|f pp]; intros Habs; [|by apply new_root_ok].
  erewrite stk_abs_len by done. by apply stk_abs_at_emptied.
Qed.

(** From the clone of the path to the new snapshot. *)
Lemma i_del_finish_ok h0 h m path path' l a d r a' root :
  mutable_ok h0 m (plug path (LNode l a d r)) -> ~ (path = [] /\ l = LLeaf /\ r = LLeaf) ->
  cloned h0 h path path' (Some a') -> h !! a' = Some (cell d (lroot l) (lroot r)) ->
  h0 !! a' = None -> a' ∉ frame_locs path' ->
  root = match path' with [] => None | _ => ctx_root path' (Some a') end ->
  exists h1 h2 parent root' t',
    i_del_rotate (size h) h root (Some a') (mjoin (path_ptrs path' !! 0%nat)) =
      Ok (h1, root', parent) /\
    unlink_leaf h1 parent (Some a') = Ok h2 /\ h0 ⊆ h2 /\ h2 !! a' = Some (cell d None None) /\
    mutable_ok h2 (MkMutable root' (i64 (m_count m - 1)) (u64 (m_totalSize m - nodeSize (cell d None None)))) t' /\
    contents t' = delete (it_key d) (contents (plug path (LNode l a d r))).
Proof.
  intros Hok Hone Hcl Ha' Ha0 Hna Hroot.
  destruct (i_clone_rep h0 h m path path' l a d r a') as [Hrep1 Hnd1]; [done..|].
  pose proof Hok as (_ & Hrep & _ & Hs & Hcount & Hsize).
  pose proof Hrep as [_ (_ & Hl & Hr)]%rep_plug. pose proof Hcl as (Hsub & Hsame & _).
  destruct (i_del_rotate_ok (size h) h0 h root path' l a' d r) as
    (h2 & path2 & Hrun & Hsub2 & Hfr2 & Hrep2 & Hnd2 & Hb & Haf & Hnil); [done..| | |done|done| |].
  { intros. by eapply cloned_fresh. }
  { destruct path'; [by left|by right]. }
  { pose proof (fuel_bound _ _ _ Hrep1 Hnd1) as Hlen. simpl in Hlen. rewrite length_app in Hlen. lia. }
  destruct path2 as [|f pp].
  { destruct Hnil as (-> & -> & ->); [done|]. inversion Hsame; subst. naive_solver. }
  destruct (del_unlink_ok h2 (f :: pp) f pp a' d) as (h3 & Hun & Hrep3 & Hnd3 & Ha3 & Hfr3); [done..|].
  pose proof (same_frames _ _ Hsame) as (Hbs & Hafs & _ & _).
  assert (inorder (plug path (LNode l a d r)) = before (f :: pp) ++ kv_of d :: after (f :: pp)) as Hin1
    by by rewrite inorder_plug_node, Hb, Haf, Hbs, Hafs.
  assert (inorder (plug (f :: pp) LLeaf) = before (f :: pp) ++ after (f :: pp)) as Hin2
    by by rewrite inorder_plug.
  destruct (contents_remove _ (plug (f :: pp) LLeaf) _ _ _ Hin1 Hin2 Hs) as [Hs3 Hc3].
  eexists h2, h3, _, _, (plug (f :: pp) LLeaf). split_and!; [exact Hrun|done| |done| |exact Hc3].
  - apply map_subseteq_spec. intros i x Hi. rewrite Hfr3.
    + by eapply lookup_weaken.
    + intros ->. assert (h0 !! frame_loc f = None) by (apply Hfr2; constructor). congruence.
  - unfold mutable_ok. split_and!; auto.
    + simpl. rewrite lroot_plug. by destruct f.
    + by eapply del_count_ok.
    + by eapply del_size_ok.
Qed.

Lemma i_Delete_ok h m t key :
  immutable_ok h m t ->
  exists h' m' t',
    i_Delete (Stk := Stk) h m key = Ok (h', m') /\ h ⊆ h' /\ immutable_ok h' m' t' /\
    contents t' = delete key (contents t).
Proof.
  intros Hok. pose proof Hok as (Hroot & Hrep & Hnd & Hs & _). simpl in Hroot. unfold i_Delete.
  rewrite Hroot. pose proof (i_del_search_ok (size h) h key t [] stk_empty stk_abs_empty Hrep
    (rep_size _ _ Hrep Hnd)) as Hse.
  destruct (lsearch [] t key) as [path t'] eqn:El. destruct Hse as (ps & -> & Hps). simpl.
  pose proof (lsearch_plug _ _ _ _ _ El) as Hpl. simpl in Hpl.
  destruct t' as [|l a d r]; simpl.
  { exists h, m, t. split_and!; [done..|]. rewrite delete_id; [done|].
    by rewrite (contents_lookup t key path LLeaf). }
  apply lsearch_found in El as Hk. rewrite Hpl in Hok, Hrep, Hnd.
  rewrite (stk_abs_at ps _ 1 Hps) by lia. simpl.
  pose proof Hrep as [_ (Ha & _)]%rep_plug. rewrite Ha. simpl. case_decide as Hone.
  { destruct Hone as (Hp & Hl & Hr). destruct path; [|done]. destruct l, r; try done.
    eexists h, _, LLeaf. split_and!; [done..| |].
    - repeat split; try done; constructor.
    - unfold contents. rewrite Hpl. simpl. subst key. by rewrite delete_insert_eq, delete_empty. }
  rewrite (stk_abs_len _ _ Hps). simpl length. rewrite length_path_ptrs, Nat2Z.id.
  destruct (i_del_clone_ok h path h [] [] ps stk_empty l a d r) as
    (h1 & path' & a' & ps' & -> & Hps' & Hcl & Ha' & Ha0 & Hna);
    rewrite ?app_nil_r; auto using stk_abs_empty.
  { repeat split; auto; constructor. }
  rewrite app_nil_r in Hcl. simpl.
  destruct (stk_abs_pop ps' _ _ Hps') as (ps2 & -> & Hps2). simpl.
  rewrite (stk_abs_at ps2 _ 0 Hps2) by lia. simpl.
  rewrite (last_parent_ok ps2 path' (Some a') Hps2). simpl.
  destruct (i_del_finish_ok h h1 (as_mutable m) path path' l a d r a'
    (match path' with [] => None | _ => ctx_root path' (Some a') end) Hok) as
    (h2 & h3 & parent & root' & t' & Hrun & Hun & Hsub & Ha3 & Hok' & Hc); auto.
  { intros (-> & -> & ->). apply Hone. done. }
  match goal with |- context [i_del_rotate _ _ _ _ (mjoin ?g)] =>
    change g with (path_ptrs path' !! 0%nat) end.
  rewrite Hrun. simpl. rewrite Hun. simpl. rewrite Ha3. simpl.
  eexists h3, _, t'. split_and!; [done|done|exact Hok'|]. subst key. by rewrite Hpl.
Qed.

Lemma i_ForEach_ok {A} h m t (fn : A -> list Z -> list Z -> A * bool) st :
  immutable_ok h m t -> i_ForEach (Stk := Stk) h m fn st = Ok (fold_while fn st (inorder t)).
Proof. apply (m_ForEach_ok h (as_mutable m)). Qed.
End DeleteSpec.

(** ** Lookups *)

Lemma i_get_loop_eq fuel h key node parent :
  i_get_loop fuel h key node = ('(n, _) ← m_get_loop fuel h key node parent; Ok n).
Proof.
  revert node parent. induction fuel as [|fuel IH]; intros [a|] parent; simpl; try done.
  destruct (h !! a) as [n|]; simpl; [|done]. destruct (bytes_compare key (tn_key n)); simpl; auto.
Qed.

Lemma i_Get_eq h m key : i_Get h m key = m_Get h (as_mutable m) key.
Proof.
  unfold i_Get, m_Get, i_get, m_get. rewrite (i_get_loop_eq _ _ _ _ None). simpl.
  by destruct (m_get_loop _ _ _ _ _) as [[]| |].
Qed.

Lemma i_Has_eq h m key : i_Has h m key = m_Has h (as_mutable m) key.
Proof.
  unfold i_Has, m_Has, i_get, m_get. rewrite (i_get_loop_eq _ _ _ _ None). simpl.
  by destruct (m_get_loop _ _ _ _ _) as [[]| |].
Qed.

Lemma i_Get_ok h m t key : immutable_ok h m t -> i_Get h m key = Ok (contents t !! key).
Proof. rewrite i_Get_eq. apply m_Get_ok. Qed.

Lemma i_Has_ok h m t key :
  immutable_ok h m t -> i_Has h m key = Ok (bool_decide (is_Some (contents t !! key))).
Proof. rewrite i_Has_eq. apply m_Has_ok. Qed.
