(* ===== verification/TreapStore.v ===== *)
(** * Treaps as ordered stores

    The interface [OrderedStore] is what the clients of the treap package rely
    on: a finite map from keys to values, read back in the order of its keys.
    Both treaps discharge it, and the theorems on sequences of operations are
    proved once, against the interface. *)
From stdpp Require Import gmap list sorting.
From Stdlib Require Import ZArith Lia.
From S2P Require Import Prelude TreapNode TreapTree TreapMutable TreapImmutable.

Open Scope Z_scope.

(** The values of a store are written with the priorities drawn for them. *)
Class OrderedStore (St : Type) := {
  os_new : St;
  os_put : St -> list Z -> option (list Z) -> Z -> outcome St;
  os_delete : St -> list Z -> outcome St;
  os_get : St -> list Z -> outcome (option (list Z));
  os_has : St -> list Z -> outcome bool;
  os_len : St -> Z;
  os_size : St -> Z;
  os_foreach : forall A, St -> (A -> list Z -> list Z -> A * bool) -> A -> outcome A;
}.

(** [sorted_pairs l m]: [l] lists the map [m] in the order of its keys. *)
Definition sorted_pairs (l : list kv) (m : gmap (list Z) (list Z)) : Prop :=
  keys_sorted l /\ list_to_map l = m.

Class OrderedStoreLaws (St : Type) `{OrderedStore St} := {
  os_abs : St -> gmap (list Z) (list Z) -> Prop;
  os_new_ok : os_abs os_new ∅;
  os_put_ok s m k v rnd :
    os_abs s m -> exists s', os_put s k v rnd = Ok s' /\ os_abs s' (<[k := default [] v]> m);
  os_delete_ok s m k :
    os_abs s m -> exists s', os_delete s k = Ok s' /\ os_abs s' (delete k m);
  os_get_ok s m k : os_abs s m -> os_get s k = Ok (m !! k);
  os_has_ok s m k : os_abs s m -> os_has s k = Ok (bool_decide (is_Some (m !! k)));
  os_len_ok s m : os_abs s m -> os_len s = i64 (Z.of_nat (size m));
  os_foreach_ok s m :
    os_abs s m -> exists l, sorted_pairs l m /\ os_size s = u64 (total_size l) /\
      forall A fn (st : A), os_foreach A s fn st = Ok (fold_while fn st l);
}.

(** ** Sorted lists of pairs *)

Lemma all_gt_elem l k x : all_gt l k -> x ∈ l -> bytes_lt k x.1.
Proof. intros Hf ?. by eapply Forall_forall in Hf. Qed.

Lemma keys_sorted_NoDup l : keys_sorted l -> NoDup l.*1.
Proof.
  induction l as [|x l IH]; simpl; [constructor|]. intros [? Hgt]%keys_sorted_cons.
  constructor; auto using all_gt_not_key.
Qed.

Lemma contents_size t : keys_sorted (inorder t) -> size (contents t) = length (inorder t).
Proof. intros. unfold contents. by rewrite map_size_list_to_map by (by apply keys_sorted_NoDup). Qed.

(** A sorted list is determined by the map it denotes. *)
Lemma sorted_pairs_eq l1 l2 m : sorted_pairs l1 m -> sorted_pairs l2 m -> l1 = l2.
Proof.
  intros [Hs1 <-] [Hs2 E].
  assert (l1 ≡ₚ l2) as Hp.
  { apply (list_to_map_inj (M := gmap (list Z))); [by apply keys_sorted_NoDup..|done]. }
  clear E. revert l2 Hs2 Hp. induction l1 as [|x l1 IH]; intros l2 Hs2 Hp.
  { by apply Permutation_nil_l in Hp as ->. }
  destruct l2 as [|y l2]; [by apply Permutation_nil_r in Hp|].
  apply keys_sorted_cons in Hs1 as [Hs1 Hx], Hs2 as [Hs2 Hy].
  assert (x = y) as ->.
  { assert (x ∈ y :: l2) as [?|Hin1]%elem_of_cons by (rewrite <- Hp; constructor); [done|].
    assert (y ∈ x :: l1) as [?|Hin2]%elem_of_cons by (rewrite Hp; constructor); [done|].
    exfalso. apply (bytes_lt_irrefl x.1). transitivity y.1; by eapply all_gt_elem. }
  f_equal. apply IH; auto. by apply Permutation_cons_inv in Hp.
Qed.

(** Collecting the pairs that [ForEach] visits. *)
Definition collect (acc : list kv) (k v : list Z) : list kv * bool := (acc ++ [(k, v)], true).

Lemma fold_while_collect acc l : fold_while collect acc l = acc ++ l.
Proof.
  revert acc; induction l as [|[k v] l IH]; intros acc; simpl; [by rewrite app_nil_r|].
  rewrite IH. by list_norm.
Qed.

(** ** Sequences of operations *)

Inductive store_op :=
  | OpPut (key : list Z) (value : option (list Z)) (rnd : Z)
  | OpDelete (key : list Z).

Definition store_step {St} `{OrderedStore St} (s : St) (o : store_op) : outcome St :=
  match o with
  | OpPut k v rnd => os_put s k v rnd
  | OpDelete k => os_delete s k
  end.

Fixpoint store_run {St} `{OrderedStore St} (ops : list store_op) (s : St) : outcome St :=
  match ops with [] => Ok s | o :: ops => s ← store_step s o; store_run ops s end.

(** The finite map that a sequence of operations denotes. *)
Definition map_step (m : gmap (list Z) (list Z)) (o : store_op) : gmap (list Z) (list Z) :=
  match o with OpPut k v _ => <[k := default [] v]> m | OpDelete k => delete k m end.
Definition map_run (ops : list store_op) (m : gmap (list Z) (list Z)) : gmap (list Z) (list Z) :=
  foldl map_step m ops.

Section Runs.
Context {St : Type} `{OrderedStoreLaws St}.

Lemma store_run_ok ops : forall s m,
  os_abs s m -> exists s', store_run ops s = Ok s' /\ os_abs s' (map_run ops m).
Proof.
  induction ops as [|o ops IH]; intros s m Habs; simpl; [by eauto|].
  assert (exists s1, store_step s o = Ok s1 /\ os_abs s1 (map_step m o)) as (s1 & -> & Hs1).
  { destruct o; [by apply os_put_ok|by apply os_delete_ok]. }
  apply IH, Hs1.
Qed.

Lemma store_foreach_sorted s m : os_abs s m ->
  exists l, os_foreach _ s collect [] = Ok l /\ sorted_pairs l m /\ os_size s = u64 (total_size l).
Proof.
  intros Habs. destruct (os_foreach_ok s m Habs) as (l & Hl & Hsz & Hf). exists l.
  by rewrite Hf, fold_while_collect.
Qed.
End Runs.

(** ** The two treaps *)

Global Instance mutable_store : OrderedStore (nheap * Mutable) := {
  os_new := (∅, NewMutable);
  os_put s k v rnd := m_Put (Stk := parentStack) s.1 s.2 k v rnd;
  os_delete s k := m_Delete s.1 s.2 k;
  os_get s k := m_Get s.1 s.2 k;
  os_has s k := m_Has s.1 s.2 k;
  os_len s := m_Len s.2;
  os_size s := m_Size s.2;
  os_foreach A s fn st := m_ForEach (Stk := parentStack) s.1 s.2 fn st;
}.

Global Instance immutable_store : OrderedStore (nheap * Immutable) := {
  os_new := (∅, NewImmutable);
  os_put s k v rnd := i_Put (Stk := parentStack) s.1 s.2 k v rnd;
  os_delete s k := i_Delete (Stk := parentStack) s.1 s.2 k;
  os_get s k := i_Get s.1 s.2 k;
  os_has s k := i_Has s.1 s.2 k;
  os_len s := i_Len s.2;
  os_size s := i_Size s.2;
  os_foreach A s fn st := i_ForEach (Stk := parentStack) s.1 s.2 fn st;
}.

Definition mutable_abs (s : nheap * Mutable) (m : gmap (list Z) (list Z)) : Prop :=
  exists t, mutable_ok s.1 s.2 t /\ contents t = m.
Definition immutable_abs (s : nheap * Immutable) (m : gmap (list Z) (list Z)) : Prop :=
  exists t, immutable_ok s.1 s.2 t /\ contents t = m.

Lemma mutable_ok_len h m t : mutable_ok h m t -> m_count m = i64 (Z.of_nat (size (contents t))).
Proof. intros (_ & _ & _ & Hs & Hc & _). by rewrite contents_size. Qed.

Global Instance mutable_store_laws : OrderedStoreLaws (nheap * Mutable).
Proof.
  refine {| os_abs := mutable_abs |}; simpl; unfold mutable_abs; [|intros [h x] m; simpl..].
  - exists LLeaf. repeat split; constructor.
  - intros k v rnd (t & Hok & <-).
    destruct (m_Put_ok (Stk := parentStack) h x t k v rnd Hok) as (h' & m' & t' & ? & ? & ? & _).
    exists (h', m'); simpl; eauto.
  - intros k (t & Hok & <-). destruct (m_Delete_ok h x t k Hok) as (h' & m' & t' & ? & ? & ? & _).
    exists (h', m'); simpl; eauto.
  - intros k (t & Hok & <-). by apply m_Get_ok.
  - intros k (t & Hok & <-). by apply m_Has_ok.
  - intros (t & Hok & <-). by eapply mutable_ok_len.
  - intros (t & Hok & <-). exists (inorder t). pose proof Hok as (_ & _ & _ & Hs & _ & Hsz).
    split_and!; [done|done|]. intros. by apply m_ForEach_ok.
Defined.

Global Instance immutable_store_laws : OrderedStoreLaws (nheap * Immutable).
Proof.
  refine {| os_abs := immutable_abs |}; simpl; unfold immutable_abs; [|intros [h x] m; simpl..].
  - exists LLeaf. repeat split; constructor.
  - intros k v rnd (t & Hok & <-).
    destruct (i_Put_ok (Stk := parentStack) h x t k v rnd Hok) as (h' & m' & t' & ? & _ & ? & ? & _).
    exists (h', m'); simpl; eauto.
  - intros k (t & Hok & <-).
    destruct (i_Delete_ok (Stk := parentStack) h x t k Hok) as (h' & m' & t' & ? & _ & ? & ?).
    exists (h', m'); simpl; eauto.
  - intros k (t & Hok & <-). by apply i_Get_ok.
  - intros k (t & Hok & <-). by apply i_Has_ok.
  - intros (t & Hok & <-). by eapply (mutable_ok_len _ (as_mutable x)).
  - intros (t & Hok & <-). exists (inorder t). pose proof Hok as (_ & _ & _ & Hs & _ & Hsz).
    split_and!; [done|done|]. intros. by apply i_ForEach_ok.
Defined.

Lemma empty_mutable_abs h : os_abs (h, NewMutable) ∅.
Proof. exists LLeaf. repeat split; constructor. Qed.
Lemma empty_immutable_abs h : os_abs (h, NewImmutable) ∅.
Proof. exists LLeaf. repeat split; constructor. Qed.

(** ** Snapshots *)

Lemma immutable_ok_mono h h' m t : h ⊆ h' -> immutable_ok h m t -> immutable_ok h' m t.
Proof. intros ? (? & ? & ?). split_and!; naive_solver eauto using rep_mono. Qed.

Lemma immutable_run_ok ops : forall h m t,
  immutable_ok h m t ->
  exists h' m' t', store_run ops (h, m) = Ok (h', m') /\ h ⊆ h' /\ immutable_ok h' m' t' /\
    contents t' = map_run ops (contents t).
Proof.
  induction ops as [|o ops IH]; intros h m t Hok; simpl; [by eauto 10|].
  assert (exists h1 m1 t1, store_step (h, m) o = Ok (h1, m1) /\ h ⊆ h1 /\ immutable_ok h1 m1 t1 /\
    contents t1 = map_step (contents t) o) as (h1 & m1 & t1 & -> & Hsub & Hok1 & Hc).
  { destruct o as [k v rnd|k].
    - destruct (i_Put_ok (Stk := parentStack) h m t k v rnd Hok) as (? & ? & ? & ? & ? & ? & ? & _).
      eauto 10.
    - destruct (i_Delete_ok (Stk := parentStack) h m t k Hok) as (? & ? & ? & ? & ? & ? & ?). eauto 10. }
  destruct (IH h1 m1 t1 Hok1) as (h2 & m2 & t2 & ? & ? & ? & Hc2). exists h2, m2, t2.
  split_and!; [done|by etransitivity|done|]. by rewrite Hc2, Hc.
Qed.

(** ** Insertions keep the heap order *)

Definition is_put (o : store_op) : Prop := match o with OpPut _ _ _ => True | OpDelete _ => False end.
Global Instance is_put_dec o : Decision (is_put o).
Proof. destruct o; apply _. Defined.

Lemma mutable_puts_heap ops : Forall is_put ops -> forall h m t,
  mutable_ok h m t -> min_heap t ->
  exists h' m' t', store_run ops (h, m) = Ok (h', m') /\ mutable_ok h' m' t' /\ min_heap t'.
Proof.
  induction 1 as [|o ops Ho _ IH]; intros h m t Hok Hh; simpl; [by eauto 10|].
  destruct o as [k v rnd|]; [|done]. simpl.
  destruct (m_Put_ok (Stk := parentStack) h m t k v rnd Hok) as (h1 & m1 & t1 & -> & ? & _ & ? & _).
  simpl. eauto.
Qed.

Lemma immutable_puts_heap ops : Forall is_put ops -> forall h m t,
  immutable_ok h m t -> min_heap t ->
  exists h' m' t', store_run ops (h, m) = Ok (h', m') /\ immutable_ok h' m' t' /\ min_heap t'.
Proof.
  induction 1 as [|o ops Ho _ IH]; intros h m t Hok Hh; simpl; [by eauto 10|].
  destruct o as [k v rnd|]; [|done]. simpl.
  destruct (i_Put_ok (Stk := parentStack) h m t k v rnd Hok) as (h1 & m1 & t1 & -> & _ & ? & _ & ?).
  simpl. eauto.
Qed.

(** ** The theorems *)

(** C5: every sequence of [Put] and [Delete] calls on a new mutable treap runs
    without a panic and implements the finite map it denotes: [Get] and [Has] are
    its lookups, [Len] its size, and [ForEach] visits its pairs in the order of
    their keys; [Size] is the sum of their sizes. *)
Theorem mutable_refines_map (ops : list store_op) :
  let m := map_run ops ∅ in
  exists h t,
    store_run ops (∅, NewMutable) = Ok (h, t) /\
    (forall k, m_Get h t k = Ok (m !! k)) /\
    (forall k, m_Has h t k = Ok (bool_decide (is_Some (m !! k)))) /\
    m_Len t = i64 (Z.of_nat (size m)) /\
    exists l, m_ForEach (Stk := parentStack) h t collect [] = Ok l /\ sorted_pairs l m /\
      m_Size t = u64 (total_size l).
Proof.
  intros m. destruct (store_run_ok ops _ _ (empty_mutable_abs ∅)) as ([h t] & Hr & Habs).
  exists h, t. split_and!; [done| | | |].
  - intros k. exact (os_get_ok _ _ k Habs).
  - intros k. exact (os_has_ok _ _ k Habs).
  - exact (os_len_ok _ _ Habs).
  - exact (store_foreach_sorted _ _ Habs).
Qed.

(** C13: the same for the immutable treap, and moreover every snapshot keeps its
    content: after further operations on it, the old root still reads the map it
    denoted when it was taken, while the new root reads the new map. *)
Theorem immutable_refines_map_and_persists (ops more : list store_op) :
  let m := map_run ops ∅ in
  let m' := map_run more m in
  exists h t h' t',
    store_run ops (∅, NewImmutable) = Ok (h, t) /\ store_run more (h, t) = Ok (h', t') /\
    (forall k, i_Get h' t k = Ok (m !! k) /\ i_Has h' t k = Ok (bool_decide (is_Some (m !! k)))) /\
    (forall k, i_Get h' t' k = Ok (m' !! k) /\ i_Has h' t' k = Ok (bool_decide (is_Some (m' !! k)))) /\
    i_Len t' = i64 (Z.of_nat (size m')) /\
    (exists l, i_ForEach (Stk := parentStack) h' t collect [] = Ok l /\ sorted_pairs l m) /\
    (exists l, i_ForEach (Stk := parentStack) h' t' collect [] = Ok l /\ sorted_pairs l m' /\
      i_Size t' = u64 (total_size l)).
Proof.
  intros m m'. assert (immutable_ok ∅ NewImmutable LLeaf) as Hok0 by (repeat split; constructor).
  destruct (immutable_run_ok ops _ _ _ Hok0) as (h & t & T & Hr & _ & Hok & Hc).
  destruct (immutable_run_ok more _ _ _ Hok) as (h' & t' & T' & Hr' & Hsub & Hok' & Hc').
  assert (os_abs (h', t) m) as Ha by (exists T; eauto using immutable_ok_mono).
  assert (os_abs (h', t') m') as Ha' by (exists T'; split; [done|by rewrite Hc', Hc]).
  exists h, t, h', t'. split_and!; [done..| | | | |].
  - intros k. split; [exact (os_get_ok _ _ k Ha)|exact (os_has_ok _ _ k Ha)].
  - intros k. split; [exact (os_get_ok _ _ k Ha')|exact (os_has_ok _ _ k Ha')].
  - exact (os_len_ok _ _ Ha').
  - destruct (store_foreach_sorted _ _ Ha) as (l & ? & ? & _). by exists l.
  - exact (store_foreach_sorted _ _ Ha').
Qed.

(** A treap built by insertions, whatever priorities are drawn, is a binary
    search tree on its keys and a min-heap on its priorities, mutable or not. *)
Theorem puts_build_treaps (ops : list store_op) (H : Forall is_put ops) :
  (exists h m t, store_run ops (∅, NewMutable) = Ok (h, m) /\ mutable_ok h m t /\ min_heap t) /\
  (exists h m t, store_run ops (∅, NewImmutable) = Ok (h, m) /\ immutable_ok h m t /\ min_heap t).
Proof.
  split; [apply (mutable_puts_heap _ H _ _ LLeaf)|apply (immutable_puts_heap _ H _ _ LLeaf)];
    repeat split; constructor.
Qed.

Definition three_puts : list store_op :=
  [OpPut [5] (Some [50]) 1; OpPut [3] None 2; OpPut [7] (Some [70]) 3].

Lemma puts_build_treaps_witness :
  exists h m t, store_run three_puts (∅, NewMutable) = Ok (h, m) /\ mutable_ok h m t /\ min_heap t.
Proof.
  apply (puts_build_treaps three_puts). repeat constructor.
Defined.

(** [Delete] does not keep the min-heap that [Put] maintains, in either
    treap: of two children it lifts the one with the larger priority, so that
    deleting the root 5 of the treap 3 (2) <- 5 (1) -> 7 (3) leaves 7, of priority
    3, above 3, of priority 2. *)
Theorem delete_breaks_min_heap :
  (exists h m n c, store_run (three_puts ++ [OpDelete [5]]) (∅, NewMutable) = Ok (h, m) /\
    load h (m_root m) = Ok n /\ load h (tn_left n) = Ok c /\ tn_priority c < tn_priority n) /\
  (exists h m n c, store_run (three_puts ++ [OpDelete [5]]) (∅, NewImmutable) = Ok (h, m) /\
    load h (i_root m) = Ok n /\ load h (tn_left n) = Ok c /\ tn_priority c < tn_priority n).
Proof.
  split; eexists _, _, _, _; (split; [vm_compute; reflexivity|]); vm_compute; auto.
Qed.
