(* ===== verification/TreapIter.v ===== *)
(** * Treap iterators

    Models [btcd/database/internal/treap/treapiter.go]: the iterator shared by the
    two treaps, with its stack of parents and its optional range.  Keys are
    slices other than nil.  [Next] and [Prev] mirror each other; the lemmas are
    proved once, for a direction [s] ([true] is forwards). *)
From stdpp Require Import gmap list sorting.
From Stdlib Require Import ZArith Lia.
From S2P Require Import Prelude TreapNode TreapTree TreapMutable TreapImmutable TreapStore.

Open Scope Z_scope.

(** [iter_t]: whether the iterator belongs to a mutable treap. *)
Record Iterator (Stk : Type) := MkIterator {
  iter_t : bool;
  iter_root : ptr;
  iter_node : ptr;
  iter_parents : Stk;
  iter_isNew : bool;
  iter_seekKey : option (list Z);
  iter_startKey : option (list Z);
  iter_limitKey : option (list Z);
}.
Arguments MkIterator {Stk}.
Arguments iter_t {Stk}.
Arguments iter_root {Stk}.
Arguments iter_node {Stk}.
Arguments iter_parents {Stk}.
Arguments iter_isNew {Stk}.
Arguments iter_seekKey {Stk}.
Arguments iter_startKey {Stk}.
Arguments iter_limitKey {Stk}.

Section Iter.
Context {Stk : Type} `{ParentStack Stk}.
Implicit Types iter : Iterator Stk.

Definition set_pos iter (node : ptr) (parents : Stk) : Iterator Stk :=
  MkIterator (iter_t iter) (iter_root iter) node parents (iter_isNew iter)
    (iter_seekKey iter) (iter_startKey iter) (iter_limitKey iter).
Definition set_isNew iter (b : bool) : Iterator Stk :=
  MkIterator (iter_t iter) (iter_root iter) (iter_node iter) (iter_parents iter) b
    (iter_seekKey iter) (iter_startKey iter) (iter_limitKey iter).
Definition set_seekKey iter (k : option (list Z)) : Iterator Stk :=
  MkIterator (iter_t iter) (iter_root iter) (iter_node iter) (iter_parents iter) (iter_isNew iter)
    k (iter_startKey iter) (iter_limitKey iter).
Definition set_iter_root iter (root : ptr) : Iterator Stk :=
  MkIterator (iter_t iter) root (iter_node iter) (iter_parents iter) (iter_isNew iter)
    (iter_seekKey iter) (iter_startKey iter) (iter_limitKey iter).

Definition limitIterator (h : nheap) iter : outcome (Iterator Stk * bool) :=
  match iter_node iter with
  | None => Ok (iter, false)
  | Some _ =>
      node ← load h (iter_node iter);
      let stop := Ok (set_pos iter None (iter_parents iter), false) in
      let limit :=
        match iter_limitKey iter with
        | Some limitKey =>
            match bytes_compare (tn_key node) limitKey with Lt => Ok (iter, true) | _ => stop end
        | None => Ok (iter, true)
        end in
      match iter_startKey iter with
      | Some startKey =>
          match bytes_compare (tn_key node) startKey with Lt => stop | _ => limit end
      | None => limit
      end
  end.

(** The descent of [seek]: the selected node, the stack, the depth of the
    selected node, and whether an exact match ended the loop. *)
Fixpoint seek_loop (fuel : nat) (h : nheap) (key : list Z) (exactMatch greater : bool)
    (node cur : ptr) (parents : Stk) (depth : Z) : outcome (ptr * Stk * Z * bool) :=
  match node with
  | None => Ok (cur, parents, depth, false)
  | Some _ =>
      match fuel with
      | O => NoFuel
      | S fuel =>
          parents ← stk_push parents node;
          n ← load h node;
          match bytes_compare key (tn_key n) with
          | Lt =>
              if greater
              then seek_loop fuel h key exactMatch greater (tn_left n) node parents (stk_len parents - 1)
              else seek_loop fuel h key exactMatch greater (tn_left n) cur parents depth
          | Gt =>
              if greater
              then seek_loop fuel h key exactMatch greater (tn_right n) cur parents depth
              else seek_loop fuel h key exactMatch greater (tn_right n) node parents (stk_len parents - 1)
          | Eq =>
              if exactMatch then
                '(_, parents) ← stk_pop parents;
                Ok (node, parents, depth, true)
              else
                seek_loop fuel h key exactMatch greater (if greater then tn_right n else tn_left n)
                  cur parents depth
          end
      end
  end.

(** [for i := iter.parents.Len(); i > selectedNodeDepth; i-- { iter.parents.Pop() }] *)
Fixpoint pop_n (n : nat) (parents : Stk) : outcome Stk :=
  match n with O => Ok parents | S n => '(_, parents) ← stk_pop parents; pop_n n parents end.

Definition seek (h : nheap) iter (key : list Z) (exactMatch greater : bool)
    : outcome (Iterator Stk * bool) :=
  '(cur, parents, depth, exact) ←
    seek_loop (size h) h key exactMatch greater (iter_root iter) None stk_empty 0;
  if exact : bool then limitIterator h (set_pos iter cur parents)
  else
    parents ← pop_n (Z.to_nat (stk_len parents - depth)) parents;
    limitIterator h (set_pos iter cur parents).

(** The left-most or right-most node, with the nodes above it pushed; [None] when
    the treap is empty. *)
Fixpoint edge_loop (fuel : nat) (h : nheap) (child : treapNode -> ptr) (node : ptr) (parents : Stk)
    : outcome (ptr * Stk) :=
  match node with
  | None => Ok (None, parents)
  | Some _ =>
      match fuel with
      | O => NoFuel
      | S fuel =>
          n ← load h node;
          match child n with
          | None => Ok (node, parents)
          | Some _ => parents ← stk_push parents node; edge_loop fuel h child (child n) parents
          end
      end
  end.

Definition edge (h : nheap) iter (child : treapNode -> ptr) : outcome (Iterator Stk * bool) :=
  '(node, parents) ← edge_loop (size h) h child (iter_root iter) stk_empty;
  match node with
  | Some _ => Ok (set_pos iter node parents, true)
  | None => Ok (set_pos iter (iter_node iter) parents, false)
  end.

Definition iter_First (h : nheap) iter : outcome (Iterator Stk * bool) :=
  let iter := set_isNew iter false in
  match iter_startKey iter with
  | Some startKey => seek h iter startKey true true
  | None => edge h iter tn_left
  end.

Definition iter_Last (h : nheap) iter : outcome (Iterator Stk * bool) :=
  let iter := set_isNew iter false in
  match iter_limitKey iter with
  | Some limitKey => seek h iter limitKey false false
  | None => edge h iter tn_right
  end.

(** [for parent != nil && parent.right == iter.node { iter.node = parent; parent = Pop() }] *)
Fixpoint climb_loop (fuel : nat) (h : nheap) (child : treapNode -> ptr) (node parent : ptr)
    (parents : Stk) : outcome (ptr * Stk) :=
  match parent with
  | None => Ok (None, parents)
  | Some _ =>
      match fuel with
      | O => NoFuel
      | S fuel =>
          p ← load h parent;
          if decide (child p = node) then
            '(parent', parents) ← stk_pop parents;
            climb_loop fuel h child parent parent' parents
          else Ok (parent, parents)
      end
  end.

(** [for node := iter.node.left; node != nil; node = node.left { Push(iter.node); iter.node = node }] *)
Fixpoint descend_loop (fuel : nat) (h : nheap) (child : treapNode -> ptr) (cur : ptr) (parents : Stk)
    : outcome (ptr * Stk) :=
  n ← load h cur;
  match child n with
  | None => Ok (cur, parents)
  | Some _ =>
      match fuel with
      | O => NoFuel
      | S fuel => parents ← stk_push parents cur; descend_loop fuel h child (child n) parents
      end
  end.

(** The step of [Next] and [Prev] once the node is known: [near] is the child
    visited before the node, [far] the one visited after it. *)
Definition advance (h : nheap) iter (near far : treapNode -> ptr) : outcome (Iterator Stk * bool) :=
  n ← load h (iter_node iter);
  match far n with
  | None =>
      '(parent, parents) ← stk_pop (iter_parents iter);
      '(node, parents) ← climb_loop (size h) h far (iter_node iter) parent parents;
      limitIterator h (set_pos iter node parents)
  | Some _ =>
      parents ← stk_push (iter_parents iter) (iter_node iter);
      '(node, parents) ← descend_loop (size h) h near (far n) parents;
      limitIterator h (set_pos iter node parents)
  end.

Definition iter_Next (h : nheap) iter : outcome (Iterator Stk * bool) :=
  if iter_isNew iter then iter_First h iter
  else
    match iter_node iter with
    | None => Ok (iter, false)
    | Some _ =>
        match iter_seekKey iter with
        | Some seekKey => seek h (set_seekKey iter None) seekKey false true
        | None => advance h iter tn_left tn_right
        end
    end.

Definition iter_Prev (h : nheap) iter : outcome (Iterator Stk * bool) :=
  if iter_isNew iter then iter_Last h iter
  else
    match iter_node iter with
    | None => Ok (iter, false)
    | Some _ =>
        match iter_seekKey iter with
        | Some seekKey => seek h (set_seekKey iter None) seekKey false false
        | None => advance h iter tn_right tn_left
        end
    end.

Definition iter_Seek (h : nheap) iter (key : list Z) : outcome (Iterator Stk * bool) :=
  seek h (set_isNew iter false) key true true.

Definition iter_Key (h : nheap) iter : outcome (option (list Z)) :=
  match iter_node iter with
  | None => Ok None
  | Some _ => n ← load h (iter_node iter); Ok (Some (tn_key n))
  end.
Definition iter_Value (h : nheap) iter : outcome (option (list Z)) :=
  match iter_node iter with
  | None => Ok None
  | Some _ => n ← load h (iter_node iter); Ok (Some (tn_value n))
  end.
Definition iter_Valid iter : bool := match iter_node iter with Some _ => true | None => false end.

(** [t] is the mutable treap of the iterator, as it is now. *)
Definition iter_ForceReseek (h : nheap) iter (t : Mutable) : outcome (Iterator Stk) :=
  if iter_t iter then
    let iter := set_iter_root iter (m_root t) in
    match iter_node iter with
    | None => Ok (set_seekKey iter None)
    | Some _ => n ← load h (iter_node iter); Ok (set_seekKey iter (Some (tn_key n)))
    end
  else Ok iter.

Definition m_Iterator (t : Mutable) (startKey limitKey : option (list Z)) : Iterator Stk :=
  MkIterator true (m_root t) None stk_empty true None startKey limitKey.
Definition i_Iterator (t : Immutable) (startKey limitKey : option (list Z)) : Iterator Stk :=
  MkIterator false (i_root t) None stk_empty true None startKey limitKey.

(** The loop of the clients: [for iter.Next() { ... iter.Key() ... iter.Value() }]. *)
Fixpoint drain (fuel : nat) (h : nheap) (step : Iterator Stk -> outcome (Iterator Stk * bool)) iter
    : outcome (list kv) :=
  match fuel with
  | O => NoFuel
  | S fuel =>
      '(iter, ok) ← step iter;
      if ok : bool then
        k ← iter_Key h iter;
        v ← iter_Value h iter;
        rest ← drain fuel h step iter;
        Ok ((default [] k, default [] v) :: rest)
      else Ok []
  end.
End Iter.

(** ** Positions in a tree, for a direction *)

Definition tn_near (s : bool) : treapNode -> ptr := if s then tn_left else tn_right.
Definition far_tree (s : bool) (l r : ltree) : ltree := if s then r else l.
Definition order (s : bool) (t : ltree) : list kv := if s then inorder t else reverse (inorder t).
(** What is visited after the subtree in the hole of [path]. *)
Definition ahead (s : bool) (path : list frame) : list kv :=
  if s then after path else reverse (before path).

(** The pairs from a position on. *)
Definition pos_list (s : bool) (path : list frame) (t : ltree) : list kv :=
  match t with LLeaf => [] | LNode l _ d r => kv_of d :: order s (far_tree s l r) ++ ahead s path end.
Definition pos_opt (s : bool) (o : option (list frame * ltree)) : list kv :=
  match o with None => [] | Some (path, t) => pos_list s path t end.

(** The closest ancestor that is visited after its subtree in the hole. *)
Fixpoint lclimb (s : bool) (path : list frame) (t : ltree) : option (list frame * ltree) :=
  match path with
  | [] => None
  | f :: path => if eqb (is_left f) s then Some (path, plug1 f t) else lclimb s path (plug1 f t)
  end.

Fixpoint ldescend (s : bool) (path : list frame) (t : ltree) : list frame * ltree :=
  match t with
  | LLeaf => (path, LLeaf)
  | LNode l a d r =>
      if s
      then match l with LLeaf => (path, t) | _ => ldescend s (FLeft a d r :: path) l end
      else match r with LLeaf => (path, t) | _ => ldescend s (FRight l a d :: path) r end
  end.

Fixpoint lseek (s exact : bool) (key : list Z) (path : list frame) (t : ltree)
    : option (list frame * ltree) :=
  match t with
  | LLeaf => lclimb s path LLeaf
  | LNode l a d r =>
      match bytes_compare key (it_key d) with
      | Lt => lseek s exact key (FLeft a d r :: path) l
      | Gt => lseek s exact key (FRight l a d :: path) r
      | Eq => if exact then Some (path, t)
              else if s then lseek s exact key (FRight l a d :: path) r
              else lseek s exact key (FLeft a d r :: path) l
      end
  end.

(** The keys that [seek] looks for. *)
Definition acc (s exact : bool) (key : list Z) (x : kv) : bool :=
  match bytes_compare key x.1 with Lt => s | Gt => negb s | Eq => exact end.

Definition is_node (t : ltree) : Prop := match t with LLeaf => False | _ => True end.

Lemma lclimb_ok s path t :
  pos_opt s (lclimb s path t) = ahead s path /\
  match lclimb s path t with
  | None => True
  | Some (p, t') => plug p t' = plug path t /\ is_node t' /\ exists pre, path = pre ++ p
  end.
Proof.
  revert t; induction path as [|f path IH]; intros t; simpl; [by destruct s|].
  destruct (eqb (is_left f) s) eqn:E.
  - apply eqb_prop in E as <-. destruct f; simpl.
    + split; [done|]. split_and!; [done..|by exists [FLeft a d r]].
    + rewrite !reverse_app. split; [by list_norm|]. split_and!; [done..|by exists [FRight l a d]].
  - destruct (IH (plug1 f t)) as [Hp Hc]. split.
    + rewrite Hp. by destruct f, s.
    + destruct (lclimb s path (plug1 f t)) as [[p t']|]; [|done].
      destruct Hc as (? & ? & pre & ->). split_and!; [done..|]. by exists (f :: pre).
Qed.

Lemma ldescend_ok s t : forall path, is_node t ->
  let '(p, t') := ldescend s path t in
  pos_list s p t' = order s t ++ ahead s path /\ plug p t' = plug path t /\ is_node t'.
Proof.
  induction t as [|l IHl a d r IHr]; intros path; [done|intros _].
  unfold ldescend; fold ldescend. destruct s.
  - destruct l as [|ll la ld lr] eqn:El; [done|]. rewrite <- El in *.
    specialize (IHl (FLeft a d r :: path) ltac:(by subst)).
    destruct (ldescend true _ l) as [p t']. destruct IHl as (-> & -> & ?).
    split_and!; [|done..]. simpl. by list_norm.
  - destruct r as [|rl ra rd rr] eqn:Er.
    { split_and!; [|done..]. simpl. rewrite reverse_app. by list_norm. }
    rewrite <- Er in *.
    specialize (IHr (FRight l a d :: path) ltac:(by subst)).
    destruct (ldescend false _ r) as [p t']. destruct IHr as (-> & -> & ?).
    split_and!; [|done..]. simpl. rewrite !reverse_app. simpl. rewrite reverse_cons. by list_norm.
Qed.

Lemma filter_all {A} (P : A -> Prop) `{!forall x, Decision (P x)} l : Forall P l -> filter P l = l.
Proof. induction 1; [done|]. rewrite filter_cons_True by done. by f_equal. Qed.
Lemma filter_none {A} (P : A -> Prop) `{!forall x, Decision (P x)} l :
  Forall (fun x => ~ P x) l -> filter P l = [].
Proof. induction 1; [done|]. by rewrite filter_cons_False. Qed.

Lemma keys_sorted_node l a d r :
  keys_sorted (inorder (LNode l a d r)) ->
  keys_sorted (inorder l) /\ keys_sorted (inorder r) /\
  all_lt (inorder l) (it_key d) /\ all_gt (inorder r) (it_key d).
Proof. simpl. intros (Hs & ? & ?)%keys_sorted_mid. apply keys_sorted_app in Hs as (? & ? & _). done. Qed.

Lemma acc_above s exact key l k :
  all_gt l k -> (key = k \/ bytes_lt key k) -> Forall (fun x => acc s exact key x = s) l.
Proof.
  intros Hl Hk. eapply Forall_impl; [exact Hl|]. intros x Hx. simpl in Hx. unfold acc.
  assert (bytes_lt key x.1) as -> by (destruct Hk as [->|?]; [done|by etransitivity]). done.
Qed.
Lemma acc_below s exact key l k :
  all_lt l k -> (key = k \/ bytes_lt k key) -> Forall (fun x => acc s exact key x = negb s) l.
Proof.
  intros Hl Hk. eapply Forall_impl; [exact Hl|]. intros x Hx. simpl in Hx. unfold acc.
  assert (bytes_lt x.1 key) as Hlt by (destruct Hk as [->|?]; [done|by etransitivity]).
  apply bytes_compare_gt in Hlt. by rewrite Hlt.
Qed.

Lemma Forall_reverse_iff {A} (P : A -> Prop) l : Forall P (reverse l) <-> Forall P l.
Proof. by rewrite reverse_Permutation. Qed.

Lemma acc_filter s exact key l b :
  Forall (fun x => acc s exact key x = b) l ->
  filter (fun x => acc s exact key x = true) l = if b then l else [].
Proof.
  intros Hf. destruct b; [by apply filter_all|]. apply filter_none.
  eapply Forall_impl; [exact Hf|]. simpl. intros x ->. done.
Qed.

(** [seek] lands on the first pair it looks for. *)
Lemma lseek_ok s exact key t : forall path,
  keys_sorted (inorder t) ->
  pos_opt s (lseek s exact key path t) =
    filter (fun x => acc s exact key x = true) (order s t) ++ ahead s path.
Proof.
  induction t as [|l IHl a d r IHr]; intros path Hs.
  { simpl. rewrite (proj1 (lclimb_ok s path LLeaf)). by destruct s. }
  apply keys_sorted_node in Hs as (Hl & Hr & Hlt & Hgt).
  assert (order s (LNode l a d r) = order s (far_tree (negb s) l r) ++ kv_of d :: order s (far_tree s l r)) as Ho.
  { destruct s; simpl; [done|]. rewrite reverse_app, reverse_cons. by list_norm. }
  assert (acc s exact key (kv_of d) = match bytes_compare key (it_key d) with Lt => s | Gt => negb s | Eq => exact end)
    as Hd by done.
  rewrite Ho, filter_app, filter_cons. simpl lseek.
  destruct (bytes_compare key (it_key d)) eqn:E; rewrite Hd.
  - apply bytes_compare_eq in E.
    pose proof (acc_filter s exact key _ _ (acc_above s exact key _ _ Hgt (or_introl E))) as Ha.
    pose proof (acc_filter s exact key _ _ (acc_below s exact key _ _ Hlt (or_introl E))) as Hb.
    pose proof (acc_filter false exact key (reverse (inorder r)) _ (proj2 (Forall_reverse_iff _ _) (acc_above false exact key _ _ Hgt (or_introl E)))) as Ha'.
    pose proof (acc_filter false exact key (reverse (inorder l)) _ (proj2 (Forall_reverse_iff _ _) (acc_below false exact key _ _ Hlt (or_introl E)))) as Hb'.
    destruct s; simpl in *; rewrite ?Ha, ?Hb, ?Ha', ?Hb'.
    + destruct exact; simpl; [done|]. rewrite (IHr (FRight l a d :: path) Hr). simpl. by rewrite Ha.
    + destruct exact; simpl; [done|]. rewrite (IHl (FLeft a d r :: path) Hl). simpl. by rewrite Hb'.
  - pose proof (acc_filter s exact key _ _ (acc_above s exact key _ _ Hgt (or_intror E))) as Ha.
    pose proof (acc_filter false exact key (reverse (inorder r)) _ (proj2 (Forall_reverse_iff _ _) (acc_above false exact key _ _ Hgt (or_intror E)))) as Ha'.
    rewrite (IHl (FLeft a d r :: path) Hl). destruct s; simpl in *; rewrite ?Ha, ?Ha'; by list_norm.
  - apply bytes_compare_gt in E.
    pose proof (acc_filter s exact key _ _ (acc_below s exact key _ _ Hlt (or_intror E))) as Hb.
    pose proof (acc_filter false exact key (reverse (inorder l)) _ (proj2 (Forall_reverse_iff _ _) (acc_below false exact key _ _ Hlt (or_intror E)))) as Hb'.
    rewrite (IHr (FRight l a d :: path) Hr). destruct s; simpl in *; rewrite ?Hb, ?Hb'; simpl; [done|].
    rewrite !reverse_app. by list_norm.
Qed.

Lemma lseek_pos s exact key t : forall path p t',
  lseek s exact key path t = Some (p, t') -> plug p t' = plug path t /\ is_node t'.
Proof.
  induction t as [|l IHl a d r IHr]; intros path p t'; simpl.
  - intros E. pose proof (lclimb_ok s path LLeaf) as [_ Hc]. rewrite E in Hc. naive_solver.
  - destruct (bytes_compare key (it_key d)); [destruct exact; [naive_solver|]; destruct s|..];
      first [apply IHl | apply IHr].
Qed.

(** ** The loops of the iterator *)

Section IterProofs.
Context {Stk : Type} `{ParentStackLaws Stk}.
Implicit Types iter : Iterator Stk.

Definition opt_root (o : option (list frame * ltree)) : ptr :=
  match o with None => None | Some (_, t) => lroot t end.
Definition opt_path (o : option (list frame * ltree)) : list frame :=
  match o with None => [] | Some (path, _) => path end.

Lemma climb_loop_ok h s path : forall fuel t a (ps : Stk),
  stk_abs ps (path_ptrs path) -> lroot t = Some a -> rep h (plug path t) ->
  NoDup (locs (plug path t)) -> (length path <= fuel)%nat ->
  exists ps',
    ('(parent, ps) ← stk_pop ps; climb_loop fuel h (tn_near (negb s)) (lroot t) parent ps) =
      Ok (opt_root (lclimb s path t), ps') /\
    stk_abs ps' (path_ptrs (opt_path (lclimb s path t))).
Proof.
  induction path as [|f path IH]; intros fuel t a ps Hps Ht Hrep Hnd Hfuel; simpl.
  { rewrite stk_abs_pop_nil by done. simpl. destruct fuel; eauto. }
  destruct (stk_abs_pop ps _ _ Hps) as (ps1 & -> & Hps1). simpl in *.
  destruct fuel as [|fuel]; [lia|]. simpl.
  pose proof Hrep as [Hc Ht']%(rep_plug h (f :: path) t). apply rep_ctx_head in Hc. rewrite Hc. simpl.
  apply (NoDup_plug (f :: path)) in Hnd as Hnd'. simpl in Hnd'. nodup.
  assert (forall p, p = Some a -> a ∉ locs (frame_sib f) -> lroot (frame_sib f) <> p) as Hsib.
  { intros p -> Hn ?%lroot_elem. done. }
  assert (a ∉ locs (frame_sib f)) as Hna by (apply lroot_elem in Ht; set_solver).
  destruct (eqb (is_left f) s) eqn:E.
  - apply eqb_prop in E as <-. rewrite decide_False by (destruct f; simpl; auto).
    eexists. split; [|done]. by destruct f.
  - rewrite decide_True by by destruct f, s.
    destruct (IH fuel (plug1 f t) (frame_loc f) ps1) as (ps' & Hrun & Hps'); auto; [by destruct f|lia|].
    replace (lroot (plug1 f t)) with (Some (frame_loc f)) in Hrun by by destruct f.
    exists ps'. split; [exact Hrun|done].
Qed.

Lemma descend_loop_ok h s t : forall fuel path (ps : Stk),
  stk_abs ps (path_ptrs path) -> is_node t -> rep h t -> (length (locs t) <= S fuel)%nat ->
  let '(p, t') := ldescend s path t in
  exists ps', descend_loop fuel h (tn_near s) (lroot t) ps = Ok (lroot t', ps') /\
    stk_abs ps' (path_ptrs p).
Proof.
  induction t as [|l IHl a d r IHr]; intros fuel path ps Hps Hn Hrep Hfuel; [done|].
  destruct Hrep as (Ha & Hl & Hr). simpl in Hfuel. rewrite length_app in Hfuel.
  assert (forall c f, (c = l \/ c = r) -> frame_loc f = a -> is_node c ->
    lroot c = tn_near s (cell d (lroot l) (lroot r)) ->
    (forall path ps, stk_abs ps (path_ptrs path) ->
       let '(p, t') := ldescend s path c in
       exists ps', descend_loop (pred fuel) h (tn_near s) (lroot c) ps = Ok (lroot t', ps') /\
       stk_abs ps' (path_ptrs p)) ->
    let '(p, t') := ldescend s (f :: path) c in
    exists ps', descend_loop fuel h (tn_near s) (Some a) ps = Ok (lroot t', ps') /\
    stk_abs ps' (path_ptrs p)) as Hstep.
  { intros c f Hc Hf Hcn Hnear IH.
    destruct fuel as [|fuel]; [destruct c; [done|]; destruct Hc; subst; simpl in *; lia|].
    destruct (stk_abs_push ps (Some a) _ Hps) as (ps1 & Hpush & Hps1).
    specialize (IH (f :: path) ps1). simpl in IH. rewrite Hf in IH. specialize (IH Hps1).
    destruct (ldescend s (f :: path) c) as [p t'] eqn:El. destruct IH as (ps' & IH & Hps').
    exists ps'. split; [|done]. simpl. rewrite Ha. simpl. rewrite <- Hnear.
    destruct (lroot c) eqn:Ec; [|by destruct c]. rewrite Hpush. simpl. exact IH. }
  destruct s.
  - destruct l as [|ll la ld lr] eqn:El.
    + simpl. exists ps. split; [|done]. destruct fuel; simpl; rewrite Ha; done.
    + rewrite <- El in *. replace (ldescend true path (LNode l a d r)) with
        (ldescend true (FLeft a d r :: path) l) by (subst; done).
      apply Hstep; [by left|done|by subst|done|]. intros. apply IHl; auto; [by subst|]. lia.
  - destruct r as [|rl ra rd rr] eqn:Er.
    + simpl. exists ps. split; [|done]. destruct fuel; simpl; rewrite Ha; done.
    + rewrite <- Er in *. replace (ldescend false path (LNode l a d r)) with
        (ldescend false (FRight l a d :: path) r) by (subst; done).
      apply Hstep; [by right|done|by subst|done|]. intros. apply IHr; auto; [by subst|]. lia.
Qed.

Lemma edge_loop_S fuel h child a (ps : Stk) :
  edge_loop (S fuel) h child (Some a) ps =
    (n ← load h (Some a);
     match child n with
     | None => Ok (Some a, ps)
     | Some _ => ps ← stk_push ps (Some a); edge_loop fuel h child (child n) ps
     end).
Proof. reflexivity. Qed.

(** The loop of [First] and [Last] is the descent from the root. *)
Lemma edge_loop_eq h s t fuel (ps : Stk) :
  is_node t -> rep h t -> (length (locs t) <= S fuel)%nat ->
  edge_loop (S fuel) h (tn_near s) (lroot t) ps = descend_loop fuel h (tn_near s) (lroot t) ps.
Proof.
  revert fuel ps. induction t as [|l IHl a d r IHr]; intros fuel ps Hn Hrep Hfuel; [done|].
  destruct Hrep as (Ha & Hl & Hr). simpl in Hfuel. rewrite length_app in Hfuel.
  assert (tn_near s (cell d (lroot l) (lroot r)) = lroot (far_tree (negb s) l r)) as Hnear by by destruct s.
  simpl lroot. rewrite edge_loop_S. destruct fuel as [|fuel]; unfold descend_loop; fold descend_loop;
    rewrite !(load_ok _ _ _ Ha), !outcome_bind_ok, Hnear.
  { destruct s, l, r; simpl in *; try done; lia. }
  destruct (far_tree (negb s) l r) as [|cl c cd cr] eqn:E; [done|].
  simpl lroot. destruct (stk_push ps (Some a)) as [ps1| |]; [|done..]. rewrite !outcome_bind_ok.
  change (Some c) with (lroot (LNode cl c cd cr)). rewrite <- E.
  destruct s; unfold far_tree in *; simpl negb in *; cbv iota in *; [apply IHl|apply IHr]; auto; try lia; by rewrite E.
Qed.

Lemma pop_n_ok (l1 l2 : list ptr) : forall ps : Stk,
  stk_abs ps (l1 ++ l2) -> exists ps', pop_n (length l1) ps = Ok ps' /\ stk_abs ps' l2.
Proof.
  induction l1 as [|p l1 IH]; intros ps Hps; simpl in *; [by eauto|].
  destruct (stk_abs_pop ps _ _ Hps) as (ps1 & -> & Hps1). simpl. auto.
Qed.

(** The node selected by [seek] so far is the one [lclimb] finds. *)
Definition sel_depth (s : bool) (path : list frame) : Z :=
  match lclimb s path LLeaf with None => 0 | Some (p, _) => Z.of_nat (length p) end.

Lemma lclimb_sel s path t :
  opt_root (lclimb s path t) = opt_root (lclimb s path LLeaf) /\
  opt_path (lclimb s path t) = opt_path (lclimb s path LLeaf).
Proof.
  assert (forall t', opt_root (lclimb s path t) = opt_root (lclimb s path t') /\
    opt_path (lclimb s path t) = opt_path (lclimb s path t')) as Hx; [|apply Hx].
  revert t; induction path as [|f path IH]; intros t t'; simpl; [done|].
  destruct (eqb (is_left f) s); [|by apply IH]. by destruct f.
Qed.

Lemma seek_loop_ok h s exact key t : forall fuel path (ps : Stk),
  stk_abs ps (path_ptrs path) -> rep h t -> (length (locs t) <= fuel)%nat ->
  exists ps' dep ex,
    seek_loop fuel h key exact s (lroot t) (opt_root (lclimb s path LLeaf)) ps (sel_depth s path) =
      Ok (opt_root (lseek s exact key path t), ps', dep, ex) /\
    (if ex : bool then stk_abs ps' (path_ptrs (opt_path (lseek s exact key path t)))
     else exists pre, stk_abs ps' (path_ptrs (pre ++ opt_path (lseek s exact key path t))) /\
            dep = Z.of_nat (length (opt_path (lseek s exact key path t)))).
Proof.
  induction t as [|l IHl a d r IHr]; intros fuel path ps Hps Hrep Hfuel.
  { assert (exists pre, stk_abs ps (path_ptrs (pre ++ opt_path (lclimb s path LLeaf))) /\
      sel_depth s path = Z.of_nat (length (opt_path (lclimb s path LLeaf)))) as Hres.
    { unfold sel_depth. pose proof (lclimb_ok s path LLeaf) as [_ Hc].
      destruct (lclimb s path LLeaf) as [[p t']|]; simpl.
      - destruct Hc as (_ & _ & pre & Hpre). exists pre. by rewrite <- Hpre.
      - exists path. by rewrite app_nil_r. }
    simpl. exists ps, (sel_depth s path), false. split; [|done]. by destruct fuel. }
  destruct Hrep as (Ha & Hl & Hr). simpl in Hfuel. rewrite length_app in Hfuel.
  destruct fuel as [|fuel]; [lia|]. simpl.
  destruct (stk_abs_push ps (Some a) _ Hps) as (ps1 & -> & Hps1). simpl. rewrite Ha. simpl.
  assert (stk_len ps1 - 1 = Z.of_nat (length path)) as Hlen.
  { rewrite (stk_abs_len _ _ Hps1). simpl length. rewrite length_path_ptrs. lia. }
  rewrite Hlen.
  pose proof (IHl fuel (FLeft a d r :: path) ps1 Hps1 Hl ltac:(lia)) as IHl'.
  pose proof (IHr fuel (FRight l a d :: path) ps1 Hps1 Hr ltac:(lia)) as IHr'.
  unfold sel_depth in IHl', IHr'. simpl in IHl', IHr'.
  assert (forall t', match lclimb s path t' with None => 0 | Some (p, _) => Z.of_nat (length p) end =
    sel_depth s path) as Hdep.
  { intros t'. unfold sel_depth. pose proof (lclimb_sel s path t') as [_ E].
    by destruct (lclimb s path t') as [[p1 t1]|], (lclimb s path LLeaf) as [[p2 t2]|]; simpl in *; subst. }
  destruct (bytes_compare key (it_key d)); [destruct exact|..]; [|destruct s; simpl in *..].
  - destruct (stk_abs_pop ps1 _ _ Hps1) as (ps2 & -> & Hps2). simpl. by eexists _, _, true.
  - rewrite Hdep, (proj1 (lclimb_sel true path (LNode l a d LLeaf))) in IHr'. exact IHr'.
  - rewrite Hdep, (proj1 (lclimb_sel false path (LNode LLeaf a d r))) in IHl'. exact IHl'.
  - exact IHl'.
  - rewrite Hdep, (proj1 (lclimb_sel false path (LNode LLeaf a d r))) in IHl'. exact IHl'.
  - rewrite Hdep, (proj1 (lclimb_sel true path (LNode l a d LLeaf))) in IHr'. exact IHr'.
  - exact IHr'.
Qed.
End IterProofs.

(** ** What the operations do *)

Definition ge_start (start : option (list Z)) (k : list Z) : bool :=
  match start with Some s => match bytes_compare k s with Lt => false | _ => true end | None => true end.
Definition lt_limit (limit : option (list Z)) (k : list Z) : bool :=
  match limit with Some s => match bytes_compare k s with Lt => true | _ => false end | None => true end.
Definition in_range (start limit : option (list Z)) (x : kv) : bool :=
  ge_start start x.1 && lt_limit limit x.1.

Fixpoint take_while {A} (p : A -> bool) (l : list A) : list A :=
  match l with [] => [] | x :: l => if p x then x :: take_while p l else [] end.

Section StepProofs.
Context {Stk : Type} `{ParentStackLaws Stk}.
Implicit Types iter : Iterator Stk.

(** The iterator has been positioned at the node [n] of the tree [plug path n]. *)
Definition iter_on iter (path : list frame) (n : ltree) : Prop :=
  iter_node iter = lroot n /\ stk_abs (iter_parents iter) (path_ptrs path) /\ is_node n /\
  iter_isNew iter = false /\ iter_seekKey iter = None.

Definition same_range iter iter' : Prop :=
  iter_startKey iter' = iter_startKey iter /\ iter_limitKey iter' = iter_limitKey iter.
Definition iter_range iter : kv -> bool := in_range (iter_startKey iter) (iter_limitKey iter).

(** [lands h t s iter L r]: the operation moved [iter] to the head of [L], the
    remaining pairs of [t] in the direction [s], if it is in the range. *)
Definition lands (t : ltree) (s : bool) iter (L : list kv) (r : Iterator Stk * bool) : Prop :=
  same_range iter r.1 /\
  match L with
  | [] => r.2 = false /\ iter_node r.1 = None
  | x :: _ =>
      if iter_range iter x
      then r.2 = true /\ exists path n, iter_on r.1 path n /\ plug path n = t /\ pos_list s path n = L
      else r.2 = false /\ iter_node r.1 = None
  end.

Lemma limit_lands h t s iter (o : option (list frame * ltree)) ps :
  rep h t -> match o with Some (p, n) => plug p n = t /\ is_node n | None => True end ->
  stk_abs ps (path_ptrs (opt_path o)) -> iter_isNew iter = false -> iter_seekKey iter = None ->
  exists r, limitIterator h (set_pos iter (opt_root o) ps) = Ok r /\ lands t s iter (pos_opt s o) r.
Proof.
  intros Hrep Ho Hps Hnew Hsk. unfold limitIterator, lands. destruct o as [[p n]|]; simpl.
  2:{ eexists; split; [done|]. by repeat split. }
  destruct Ho as [<- Hn]. destruct n as [|l a d r]; [done|]. simpl in *.
  pose proof Hrep as [_ (Ha & _)]%rep_plug. rewrite Ha. simpl. unfold iter_range, in_range, ge_start, lt_limit. simpl.
  assert (iter_on (set_pos iter (Some a) ps) p (LNode l a d r)) as Hon by by repeat split.
  destruct (iter_startKey iter) as [sk|], (iter_limitKey iter) as [lk|];
    repeat match goal with |- context [bytes_compare ?x ?y] => destruct (bytes_compare x y) end; simpl;
    eexists; (split; [done|]); (split; [done|]); eauto 10.
Qed.

Lemma seek_lands h t s exact key iter :
  rep h t -> NoDup (locs t) -> keys_sorted (inorder t) -> iter_root iter = lroot t ->
  iter_isNew iter = false -> iter_seekKey iter = None ->
  exists r, seek h iter key exact s = Ok r /\
    lands t s iter (filter (fun x => acc s exact key x = true) (order s t)) r.
Proof.
  intros Hrep Hnd Hs Hroot Hnew Hsk. unfold seek. rewrite Hroot.
  destruct (seek_loop_ok h s exact key t (size h) [] stk_empty stk_abs_empty Hrep (rep_size _ _ Hrep Hnd))
    as (ps & dep & ex & Hrun & Hres). simpl in Hrun. unfold sel_depth in Hrun. simpl in Hrun.
  rewrite Hrun. simpl.
  pose proof (lseek_ok s exact key t [] Hs) as Hpos. replace (ahead s []) with (@nil kv) in Hpos by by destruct s.
  rewrite app_nil_r in Hpos. rewrite <- Hpos.
  assert (match lseek s exact key [] t with Some (p, n) => plug p n = t /\ is_node n | None => True end) as Ho.
  { destruct (lseek s exact key [] t) as [[p n]|] eqn:E; [|done]. by apply lseek_pos in E. }
  destruct ex; [by apply limit_lands|]. destruct Hres as (pre & Hps & ->).
  assert (exists ps', pop_n (length pre) ps = Ok ps' /\ stk_abs ps' (path_ptrs (opt_path (lseek s exact key [] t))))
    as (ps' & Hpop & Hps').
  { rewrite <- (length_path_ptrs pre). apply pop_n_ok. unfold path_ptrs in *. by rewrite <- fmap_app. }
  rewrite (stk_abs_len _ _ Hps), length_path_ptrs, length_app.
  replace (Z.to_nat _) with (length pre) by lia. rewrite Hpop. simpl. by apply limit_lands.
Qed.

Lemma edge_lands h t s iter :
  rep h t -> NoDup (locs t) -> iter_root iter = lroot t ->
  iter_isNew iter = false -> iter_seekKey iter = None -> iter_node iter = None ->
  (forall x, iter_range iter x = true) ->
  exists r, edge h iter (tn_near s) = Ok r /\ lands t s iter (order s t) r.
Proof.
  intros Hrep Hnd Hroot Hnew Hsk Hnone Hall. unfold edge. rewrite Hroot.
  destruct t as [|tl ta td tr] eqn:Et; simpl lroot.
  { destruct (size h); simpl; (eexists; split; [done|]); unfold lands, same_range; destruct s; simpl; auto. }
  rewrite <- Et in *. assert (is_node t) as Hn by by rewrite Et.
  pose proof (rep_size _ _ Hrep Hnd) as Hsz.
  destruct (size h) as [|n] eqn:En; [rewrite Et in Hsz; simpl in Hsz; lia|].
  replace (Some ta) with (lroot t) by by rewrite Et. rewrite edge_loop_eq by done.
  pose proof (descend_loop_ok h s t n [] stk_empty stk_abs_empty Hn Hrep Hsz) as Hd.
  pose proof (ldescend_ok s t [] Hn) as Hl. destruct (ldescend s [] t) as [p t'].
  destruct Hd as (ps & -> & Hps), Hl as (Hpos & Hpl & Hn'). simpl.
  replace (ahead s []) with (@nil kv) in Hpos by by destruct s. rewrite app_nil_r in Hpos.
  destruct t' as [|l a d r]; [done|]. simpl. eexists; split; [done|]. unfold lands. rewrite <- Hpos.
  simpl. rewrite Hall. split; [done|]. split; [done|]. exists p, (LNode l a d r). by repeat split.
Qed.

Lemma tn_near_cell s d l r : tn_near s (cell d (lroot l) (lroot r)) = lroot (far_tree (negb s) l r).
Proof. by destruct s. Qed.

(** One step from a position lands on the next pair. *)
Lemma advance_lands h t s iter path n :
  rep h t -> NoDup (locs t) -> iter_on iter path n -> plug path n = t ->
  exists r, advance h iter (tn_near s) (tn_near (negb s)) = Ok r /\
    lands t s iter (tail (pos_list s path n)) r.
Proof.
  intros Hrep Hnd (Hnode & Hps & Hn & Hnew & Hsk) Hpl. destruct n as [|l a d r] eqn:En; [done|].
  rewrite <- En in *. assert (lroot n = Some a) as Hra by by rewrite En.
  unfold advance. rewrite Hnode.
  pose proof Hrep as Hrep'. rewrite <- Hpl, En in Hrep'.
  apply rep_plug in Hrep' as [_ (Ha & Hl & Hr)]. rewrite Hra. simpl. rewrite Ha. simpl.
  rewrite tn_near_cell, negb_involutive. rewrite <- Hra.
  assert (tail (pos_list s path n) = order s (far_tree s l r) ++ ahead s path) as -> by by rewrite En.
  assert (length path <= size h)%nat as Hlen.
  { pose proof (fuel_bound h path n) as Hf. rewrite Hpl in Hf. specialize (Hf Hrep Hnd).
    pose proof (length_path_locs path). lia. }
  destruct (far_tree s l r) as [|fl fa fd fr] eqn:Ef; simpl lroot.
  - destruct (climb_loop_ok h s path (size h) n a (iter_parents iter) Hps Hra) as (ps' & Hrun & Hps');
      [by rewrite Hpl..|done|].
    apply bind_ok_inv in Hrun as ([parent ps1] & Hpop & Hrun). rewrite Hpop. simpl.
    rewrite Hrun. simpl. replace (order s LLeaf) with (@nil kv) by by destruct s. simpl.
    pose proof (lclimb_ok s path n) as [<- Hc]. apply limit_lands; auto.
    destruct (lclimb s path n) as [[p t']|]; [|done]. destruct Hc as (? & ? & _). by rewrite <- Hpl.
  - destruct (stk_abs_push (iter_parents iter) (lroot n) _ Hps) as (ps1 & -> & Hps1). simpl.
    set (f := if s then FRight l a d else FLeft a d r).
    assert (plug (f :: path) (far_tree s l r) = t /\ ahead s (f :: path) = ahead s path) as [Hpf Haf].
    { rewrite <- Hpl, En. by destruct s. }
    assert (rep h (far_tree s l r)) as Hfr by by destruct s.
    pose proof (descend_loop_ok h s (far_tree s l r) (size h) (f :: path) ps1) as Hd.
    pose proof (ldescend_ok s (far_tree s l r) (f :: path)) as Hd'.
    rewrite Hra in Hps1. replace (path_ptrs (f :: path)) with (Some a :: path_ptrs path) in Hd by by destruct s.
    rewrite Ef in Hd, Hd', Hfr, Hpf. specialize (Hd Hps1 I Hfr). specialize (Hd' I).
    destruct (ldescend s (f :: path) (LNode fl fa fd fr)) as [p t'].
    destruct Hd as (ps' & Hrun & Hps').
    { pose proof (fuel_bound h (f :: path) (LNode fl fa fd fr)) as Hf. rewrite Hpf in Hf.
      specialize (Hf Hrep Hnd). lia. }
    simpl lroot in Hrun. rewrite Hrun. simpl. destruct Hd' as (Hpos & Hpl' & Hn'). rewrite Haf in Hpos.
    rewrite <- Hpos. apply (limit_lands h t s iter (Some (p, t')) ps'); auto. by rewrite Hpl', Hpf.
Qed.
End StepProofs.

(** ** Iterating to the end *)

Section DrainProofs.
Context {Stk : Type} `{ParentStackLaws Stk}.
Implicit Types iter : Iterator Stk.

Definition nav (s : bool) (h : nheap) iter : outcome (Iterator Stk * bool) :=
  if s then iter_Next h iter else iter_Prev h iter.

Lemma nav_on s h iter path n :
  iter_on iter path n -> nav s h iter = advance h iter (tn_near s) (tn_near (negb s)).
Proof.
  intros (Hnode & _ & Hn & Hnew & Hsk). destruct n; [done|]. simpl in Hnode.
  unfold nav, iter_Next, iter_Prev. rewrite Hnode, Hnew, Hsk. by destruct s.
Qed.

Lemma drain_lands h t s : rep h t -> NoDup (locs t) -> forall L fuel iter r,
  lands t s iter L r -> (length L <= fuel)%nat ->
  (if r.2 then
     k ← iter_Key h r.1; v ← iter_Value h r.1; rest ← drain fuel h (nav s h) r.1;
     Ok ((default [] k, default [] v) :: rest)
   else Ok []) = Ok (take_while (iter_range iter) L).
Proof.
  intros Hrep Hnd L. induction L as [|x L IH]; intros fuel iter [iter' b] [Hrange Hl] Hfuel; simpl in *.
  { by destruct Hl as [-> _]. }
  destruct (iter_range iter x); [|by destruct Hl as [-> _]].
  destruct Hl as (-> & path & n & Hon & Hpl & Hpos). simpl.
  destruct (advance_lands h t s iter' path n Hrep Hnd Hon Hpl) as (r2 & Hadv & Hlands).
  pose proof Hon as (Hnode & _ & Hn & _). destruct n as [|l a d r]; [done|]. simpl in Hnode, Hpos.
  injection Hpos as Hx HL. simpl in Hlands. rewrite HL in Hlands.
  assert (h !! a = Some (cell d (lroot l) (lroot r))) as Ha.
  { rewrite <- Hpl in Hrep. by apply rep_plug in Hrep as [_ (? & _)]. }
  unfold iter_Key, iter_Value. rewrite Hnode. simpl. rewrite Ha. simpl.
  destruct fuel as [|fuel]; [lia|]. simpl. rewrite (nav_on s h iter' path _ Hon), Hadv. simpl.
  pose proof (IH fuel iter' r2 Hlands ltac:(lia)) as Hrest. destruct r2 as [iter2 b2]. simpl in Hrest.
  match goal with |- (?X ≫= _) = _ => change X with
    (if b2 then k ← iter_Key h iter2; v ← iter_Value h iter2; rest ← drain fuel h (nav s h) iter2;
       Ok ((default [] k, default [] v) :: rest) else Ok []) end.
  rewrite Hrest. simpl.
  replace (iter_range iter') with (iter_range iter); [by rewrite <- Hx|].
  unfold iter_range. by destruct Hrange as [-> ->].
Qed.

(** A new iterator with the range [start], [limit]. *)
Definition fresh_iter (root : ptr) (start limit : option (list Z)) iter : Prop :=
  iter_root iter = root /\ iter_isNew iter = true /\ iter_node iter = None /\
  iter_seekKey iter = None /\ iter_startKey iter = start /\ iter_limitKey iter = limit.

(** The end of the range at which the direction starts. *)
Definition near_end (s : bool) (start limit : option (list Z)) : option (list Z) :=
  if s then start else limit.

Lemma nav_new_lands h t s start limit iter :
  rep h t -> NoDup (locs t) -> keys_sorted (inorder t) -> fresh_iter (lroot t) start limit iter ->
  (near_end s start limit = None -> near_end (negb s) start limit = None) ->
  exists r, nav s h iter = Ok r /\
    lands t s (set_isNew iter false)
      (match near_end s start limit with
       | None => order s t
       | Some k => filter (fun x => acc s s k x = true) (order s t)
       end) r.
Proof.
  intros Hrep Hnd Hs (Hroot & Hnew & Hnode & Hsk & Hst & Hli) Hends.
  assert (nav s h iter = match near_end s start limit with
    | Some k => seek h (set_isNew iter false) k s s
    | None => edge h (set_isNew iter false) (tn_near s) end) as ->.
  { unfold nav, iter_Next, iter_Prev, iter_First, iter_Last. rewrite Hnew. simpl. rewrite Hst, Hli.
    by destruct s. }
  destruct (near_end s start limit) as [k|] eqn:E; [by apply seek_lands|]. apply edge_lands; auto.
  specialize (Hends eq_refl). intros x. unfold iter_range, in_range. simpl. rewrite Hst, Hli.
  clear Hst Hli. destruct s; simpl in *; subst; done.
Qed.
End DrainProofs.

(** ** The range of a sorted list *)

(** The pairs of the list in the range, in the direction [s]. *)
Definition ranged (s : bool) (start limit : option (list Z)) (l : list kv) : list kv :=
  filter (fun x => in_range start limit x = true) (if s then l else reverse l).

Lemma take_while_filter {A} (p q : A -> bool) (l : list A) :
  StronglySorted (fun x y => q y = true -> q x = true) l ->
  take_while (fun x => p x && q x) (filter (fun x => p x = true) l) =
    filter (fun x => p x && q x = true) l.
Proof.
  induction 1 as [|x l _ IH Hx]; [done|]. rewrite !filter_cons.
  destruct (p x) eqn:Ep; simpl; [|exact IH]. rewrite Ep. simpl.
  destruct (q x) eqn:Eq; simpl; [rewrite IH; done|].
  rewrite filter_none; [done|]. eapply Forall_impl; [exact Hx|]. simpl. intros y Hy.
  destruct (p y), (q y); simpl; try done. by discriminate Hy.
Qed.

Lemma StronglySorted_reverse {A} (R : A -> A -> Prop) l :
  StronglySorted R l -> StronglySorted (fun x y => R y x) (reverse l).
Proof.
  induction 1 as [|x l Hs IH Hx]; [constructor|]. rewrite reverse_cons.
  assert (Forall (fun y => R x y) (reverse l)) as Hr by by rewrite Forall_reverse_iff.
  clear Hx Hs. revert IH Hr. generalize (reverse l). intros l' IH Hr.
  induction IH as [|y l' Hs IH' Hy]; simpl; [repeat constructor|].
  apply Forall_cons in Hr as [? ?]. constructor; [by apply IH'|].
  apply Forall_app; split; [done|]. by repeat constructor.
Qed.

Lemma StronglySorted_weaken {A} (R R' : A -> A -> Prop) l :
  (forall x y, R x y -> R' x y) -> StronglySorted R l -> StronglySorted R' l.
Proof.
  intros Hi. induction 1 as [|x l Hs IH Hx]; constructor; auto.
  eapply Forall_impl; [exact Hx|]. simpl. auto.
Qed.

Lemma keys_sorted_pairs l : keys_sorted l -> StronglySorted (fun x y : kv => bytes_lt x.1 y.1) l.
Proof.
  induction l as [|x l IH]; [constructor|]. intros [? ?]%keys_sorted_cons. constructor; auto.
Qed.

Lemma lt_limit_mono limit x y : bytes_lt x y -> lt_limit limit y = true -> lt_limit limit x = true.
Proof.
  unfold lt_limit. destruct limit as [k|]; [|done]. intros Hxy.
  destruct (bytes_compare y k) eqn:E; [done| |done]. intros _.
  assert (bytes_lt x k) as -> by by transitivity y. done.
Qed.

Lemma ge_start_mono start x y : bytes_lt x y -> ge_start start x = true -> ge_start start y = true.
Proof.
  unfold ge_start. destruct start as [k|]; [|done]. intros Hxy.
  assert (bytes_compare x k <> Lt -> bytes_compare y k <> Lt) as Hi.
  { intros Hx Hy. apply Hx. change (bytes_lt x k). by transitivity y. }
  destruct (bytes_compare x k), (bytes_compare y k); try done; intros _; by destruct Hi.
Qed.

Lemma acc_start k x : acc true true k x = ge_start (Some k) x.1.
Proof.
  unfold acc, ge_start. rewrite (bytes_compare_antisym k x.1). by destruct (bytes_compare k x.1).
Qed.
Lemma acc_limit k x : acc false false k x = lt_limit (Some k) x.1.
Proof.
  unfold acc, lt_limit. rewrite (bytes_compare_antisym k x.1). by destruct (bytes_compare k x.1).
Qed.

Lemma list_filter_ext {A} (p q : A -> bool) (l : list A) :
  (forall x, p x = q x) -> filter (fun x => p x = true) l = filter (fun x => q x = true) l.
Proof. intros E. induction l as [|x l IH]; [done|]. rewrite !filter_cons, E, IH. done. Qed.

Lemma take_while_ext {A} (p q : A -> bool) (l : list A) :
  (forall x, p x = q x) -> take_while p l = take_while q l.
Proof. intros E. induction l as [|x l IH]; simpl; [done|]. by rewrite E, IH. Qed.

(** Starting at the near end and stopping at the far end visits the whole range. *)
Lemma take_while_range s start limit l :
  keys_sorted l -> (near_end s start limit = None -> near_end (negb s) start limit = None) ->
  take_while (in_range start limit)
    (match near_end s start limit with
     | None => if s then l else reverse l
     | Some k => filter (fun x => acc s s k x = true) (if s then l else reverse l)
     end) = ranged s start limit l.
Proof.
  intros Hs Hends. unfold ranged, in_range.
  pose proof (keys_sorted_pairs l Hs) as Hss. destruct s; simpl in *.
  - rewrite <- (take_while_filter (fun x : kv => ge_start start x.1) (fun x : kv => lt_limit limit x.1)).
    + destruct start as [k|]; [|by rewrite filter_all by by apply Forall_true].
      by rewrite (list_filter_ext (acc true true k) _ l (acc_start k)).
    + eapply StronglySorted_weaken; [|exact Hss]. intros x y. apply lt_limit_mono.
  - rewrite (take_while_ext _ (fun x : kv => lt_limit limit x.1 && ge_start start x.1)) by (intros; apply andb_comm).
    rewrite (list_filter_ext _ (fun x : kv => lt_limit limit x.1 && ge_start start x.1)) by (intros; apply andb_comm).
    rewrite <- (take_while_filter (fun x : kv => lt_limit limit x.1) (fun x : kv => ge_start start x.1)).
    + destruct limit as [k|]; [|by rewrite filter_all by by apply Forall_true].
      by rewrite (list_filter_ext (acc false false k) _ _ (acc_limit k)).
    + eapply StronglySorted_weaken; [|by apply StronglySorted_reverse].
      intros x y. apply ge_start_mono.
Qed.

(** The first pair of [L], if it is in the range. *)
Definition landed (start limit : option (list Z)) (L : list kv) : option kv :=
  match L with x :: _ => if in_range start limit x then Some x else None | [] => None end.

Section IterSpec.
Context {Stk : Type} `{ParentStackLaws Stk}.
Implicit Types iter : Iterator Stk.

Lemma lands_reads h t s iter L r :
  rep h t -> lands t s iter L r ->
  let x := landed (iter_startKey iter) (iter_limitKey iter) L in
  r.2 = bool_decide (is_Some x) /\ iter_Key h r.1 = Ok (fst <$> x) /\ iter_Value h r.1 = Ok (snd <$> x) /\
  iter_Valid r.1 = r.2.
Proof.
  intros Hrep [_ Hl]. unfold landed. fold (iter_range iter). unfold iter_Key, iter_Value, iter_Valid.
  destruct L as [|x L]; simpl; [by destruct Hl as [-> ->]|].
  destruct (iter_range iter x); [|by destruct Hl as [-> ->]].
  destruct Hl as (-> & path & n & (Hnode & _ & Hn & _) & <- & Hpos).
  destruct n as [|l a d r']; [done|]. injection Hpos as <- _. rewrite Hnode.
  apply rep_plug in Hrep as [_ (Ha & _)]. simpl. rewrite Ha. done.
Qed.

Lemma drain_ok s h m t start limit iter fuel :
  mutable_ok h m t -> fresh_iter (lroot t) start limit iter ->
  (near_end s start limit = None -> near_end (negb s) start limit = None) ->
  (length (inorder t) < fuel)%nat ->
  drain fuel h (nav s h) iter = Ok (ranged s start limit (inorder t)).
Proof.
  intros (_ & Hrep & Hnd & Hs & _) Hf Hends Hfuel. destruct fuel as [|fuel]; [lia|].
  destruct (nav_new_lands h t s start limit iter Hrep Hnd Hs Hf Hends) as (r & Hnav & Hl).
  cbn [drain]. rewrite Hnav. simpl. destruct r as [iter' b].
  pose proof (drain_lands h t s Hrep Hnd _ fuel _ _ Hl) as Hd. simpl in Hd. rewrite Hd.
  - unfold iter_range. simpl. destruct Hf as (_ & _ & _ & _ & -> & ->).
    rewrite <- (take_while_range s start limit (inorder t)) by done. by destruct s.
  - assert (length (order s t) = length (inorder t)) as Ho by (destruct s; simpl; rewrite ?length_reverse; done).
    destruct (near_end s start limit); [|lia].
    pose proof (length_filter (fun x => acc s s l x = true) (order s t)). lia.
Qed.

(** [Seek] moves to the first pair at or after the key. *)
Lemma Seek_lands h m t iter key :
  mutable_ok h m t -> iter_root iter = lroot t -> iter_seekKey iter = None ->
  exists r, iter_Seek h iter key = Ok r /\
    lands t true iter (filter (fun x => acc true true key x = true) (inorder t)) r.
Proof.
  intros (_ & Hrep & Hnd & Hs & _) Hroot Hsk. unfold iter_Seek.
  apply (seek_lands h t true true key (set_isNew iter false)); done.
Qed.

(** After [ForceReseek], [Next] and [Prev] move from the old key in the new tree. *)
Lemma reseek_lands s h m t iter a n :
  mutable_ok h m t -> iter_t iter = true -> iter_isNew iter = false ->
  iter_node iter = Some a -> h !! a = Some n ->
  exists iter1 r, iter_ForceReseek h iter m = Ok iter1 /\ nav s h iter1 = Ok r /\
    lands t s iter (filter (fun x => acc s false (tn_key n) x = true) (order s t)) r.
Proof.
  intros (Hroot & Hrep & Hnd & Hs & _) Ht Hnew Hnode Ha. unfold iter_ForceReseek.
  rewrite Ht. simpl. rewrite Hnode. simpl. rewrite Ha. simpl.
  set (iter1 := set_seekKey (set_iter_root iter (m_root m)) None).
  destruct (seek_lands h t s false (tn_key n) iter1) as (r & Hr & Hl); [done..|].
  eexists _, r. split; [done|]. split; [|exact Hl].
  unfold nav, iter_Next, iter_Prev. simpl. rewrite Hnew, Hnode. by destruct s.
Qed.
End IterSpec.

(** ** Iterators that are told of updates *)

(** What a client that keeps iterators over a store it updates relies on. *)
Class StoreIter (St It : Type) := { si_reseek : St -> It -> outcome It }.

Class StoreIterLaws (St It : Type) `{OrderedStoreLaws St, !StoreIter St It} := {
  si_ok : St -> It -> Prop;
  si_put s s' k v rnd it : os_put s k v rnd = Ok s' -> si_ok s it -> si_ok s' it;
  si_delete s s' k it : os_delete s k = Ok s' -> si_ok s it -> si_ok s' it;
  si_reseek_ok s it : si_ok s it -> exists it', si_reseek s it = Ok it' /\ si_ok s it';
}.

(** No operation frees a cell. *)
Definition grows (h h' : nheap) : Prop := forall a, is_Some (h !! a) -> is_Some (h' !! a).
Global Instance grows_preorder : PreOrder grows.
Proof. split; [by intros h a|]. intros h1 h2 h3 H1 H2 a Ha. auto. Qed.

Lemma modify_grows h p f h' : modify h p f = Ok h' -> grows h h'.
Proof.
  destruct p as [l|]; simpl; [|done]. destruct (h !! l); [|done]. intros [= <-] a Ha.
  destruct (decide (l = a)) as [->|]; [by rewrite lookup_insert_eq|by rewrite lookup_insert_ne].
Qed.
Lemma alloc_grows h n : grows h (alloc h n).1.
Proof.
  intros a Ha. simpl. destruct (decide (fresh_loc h = a)) as [->|];
    [by rewrite lookup_insert_eq|by rewrite lookup_insert_ne].
Qed.

Local Arguments modify : simpl never.

(** Runs a hypothesis [_ = Ok _] through its binds and branches. *)
Ltac run_ok H :=
  repeat match type of H with
  | (_ ≫= _) = Ok _ => let x := fresh "x" in let Hx := fresh "Hx" in
      apply bind_ok_inv in H as (x & Hx & H); simpl in H
  | (let '(_, _) := ?p in _) = Ok _ => destruct p; simpl in H
  | match ?p with _ => _ end = Ok _ => destruct p eqn:?; simpl in H
  | Ok _ = Ok _ => injection H as H; subst
  | Panic = Ok _ => discriminate H
  | NoFuel = Ok _ => discriminate H
  end.
Ltac grow :=
  repeat match goal with
  | H : modify _ _ _ = Ok _ |- _ => apply modify_grows in H
  end; try assumption; try reflexivity.

Lemma rotate_nodes_grows h a b x y h' : rotate_nodes h a b x y = Ok h' -> grows h h'.
Proof. unfold rotate_nodes. case_decide; intros E; run_ok E; grow; etransitivity; eassumption. Qed.
Lemma sink_child_grows h a b x i h' : sink_child h a b x i = Ok h' -> grows h h'.
Proof. unfold sink_child. destruct i; intros E; run_ok E; grow; etransitivity; eassumption. Qed.
Lemma link_child_grows h p c n h' : link_child h p c n = Ok h' -> grows h h'.
Proof. unfold link_child. destruct c; intros E; grow. Qed.
Lemma unlink_leaf_grows h p n h' : unlink_leaf h p n = Ok h' -> grows h h'.
Proof. unfold unlink_leaf. intros E. run_ok E; grow. Qed.
Lemma relink_grows h t n p g h' t' : m_relinkGrandparent h t n p g = Ok (h', t') -> grows h h'.
Proof. unfold m_relinkGrandparent. destruct g; intros E; run_ok E; [case_decide|]; grow. Qed.

Lemma m_put_rotate_grows {Stk} `{ParentStack Stk} fuel : forall h t node (ps : Stk) h' t',
  m_put_rotate fuel h t node ps = Ok (h', t') -> grows h h'.
Proof.
  induction fuel as [|fuel IH]; intros h t node ps h' t' E; simpl in E; run_ok E; grow.
  apply rotate_nodes_grows in Hx2. apply relink_grows in Hx4. apply IH in E.
  etransitivity; [done|]. etransitivity; eassumption.
Qed.

Lemma m_Put_grows {Stk} `{ParentStack Stk} h t k v rnd h' t' :
  m_Put (Stk := Stk) h t k v rnd = Ok (h', t') -> grows h h'.
Proof.
  unfold m_Put. destruct (m_root t).
  - intros E. run_ok E; grow. apply m_put_rotate_grows in E. apply link_child_grows in Hx1.
    etransitivity; [apply (alloc_grows h (newTreapNode k (default emptySlice v) rnd))|].
    etransitivity; [exact Hx1|exact E].
  - intros [= <- <-]. apply (alloc_grows h).
Qed.

Lemma m_del_rotate_grows fuel : forall h t node parent h' t' p',
  m_del_rotate fuel h t node parent = Ok (h', t', p') -> grows h h'.
Proof.
  induction fuel as [|fuel IH]; intros h t node parent h' t' p' E; simpl in E; run_ok E; grow.
  apply sink_child_grows in Hx2. apply relink_grows in Hx3. apply IH in E.
  etransitivity; [done|]. etransitivity; eassumption.
Qed.

Lemma m_Delete_grows h t k h' t' : m_Delete h t k = Ok (h', t') -> grows h h'.
Proof.
  unfold m_Delete. intros E. run_ok E; grow. apply m_del_rotate_grows in Hx1.
  apply unlink_leaf_grows in Hx2. etransitivity; eassumption.
Qed.

Global Instance mutable_iters : StoreIter (nheap * Mutable) (Iterator parentStack) := {
  si_reseek s it := iter_ForceReseek s.1 it s.2
}.

(** The node of an iterator is a cell, of the treap or deleted from it. *)
Definition iter_cell (s : nheap * Mutable) (it : Iterator parentStack) : Prop :=
  match iter_node it with Some a => is_Some (s.1 !! a) | None => True end.

Global Instance mutable_iters_laws : StoreIterLaws (nheap * Mutable) (Iterator parentStack).
Proof.
  refine {| si_ok := iter_cell |}; unfold iter_cell.
  - intros [h t] [h' t'] k v rnd it E%m_Put_grows. destruct (iter_node it); [|done]. apply E.
  - intros [h t] [h' t'] k it E%m_Delete_grows. destruct (iter_node it); [|done]. apply E.
  - intros [h t] it Hit. simpl. unfold iter_ForceReseek.
    destruct (iter_t it); [|by eauto]. simpl. destruct (iter_node it) as [a|] eqn:E.
    + destruct Hit as [n Hn]. simpl in *. rewrite Hn. simpl. eexists. split; [done|]. simpl. rewrite E. eauto.
    + eexists. split; [done|]. simpl. by rewrite E.
Defined.

(** ** The theorems *)

Abbreviation iterator := (Iterator parentStack).

(** C37: on a treap built by any sequence of puts and deletes, a new iterator visits
    with [Next] exactly the pairs of the range, in the order of their keys, and
    with [Prev] the same pairs in reverse, then reports its end; an iterator with
    one end of the range must be started from that end (started from the other,
    the code does not look at it: see [first_and_last_ignore_the_other_end]). *)
Theorem iterator_visits_range (ops : list store_op) (start limit : option (list Z)) (fuel : nat)
    (Hfuel : (size (map_run ops ∅) < fuel)%nat) :
  exists h t l, store_run ops (∅, NewImmutable) = Ok (h, t) /\ sorted_pairs l (map_run ops ∅) /\
    let iter : iterator := i_Iterator t start limit in
    ((start = None -> limit = None) ->
       drain fuel h (iter_Next h) iter = Ok (ranged true start limit l)) /\
    ((limit = None -> start = None) ->
       drain fuel h (iter_Prev h) iter = Ok (ranged false start limit l)).
Proof.
  assert (immutable_ok ∅ NewImmutable LLeaf) as Hok0 by (repeat split; constructor).
  destruct (immutable_run_ok ops _ _ _ Hok0) as (h & t & T & Hr & _ & Hok & Hc).
  exists h, t, (inorder T). pose proof Hok as (Hroot & _ & _ & Hs & _).
  assert (contents T = map_run ops ∅) as HcT by by rewrite Hc.
  rewrite <- HcT, contents_size in Hfuel by done.
  split; [done|]. split; [by split|]. simpl. split.
  - intros Hends. apply (drain_ok true h (as_mutable t) T); auto. by repeat split.
  - intros Hends. apply (drain_ok false h (as_mutable t) T); auto. by repeat split.
Qed.

Lemma iterator_visits_range_witness :
  exists h t l, store_run three_puts (∅, NewImmutable) = Ok (h, t) /\
    drain 4 h (iter_Next h) (i_Iterator t (Some [4]) (Some [7]) : iterator) =
      Ok (ranged true (Some [4]) (Some [7]) l).
Proof.
  destruct (iterator_visits_range three_puts (Some [4]) (Some [7]) 4) as (h & t & l & ? & _ & Hn & _);
    [vm_compute; lia|].
  exists h, t, l. split; [done|]. apply Hn. done.
Defined.

(** After a mutable treap has changed, an iterator positioned at a node (which
    may have been deleted) and told so by [ForceReseek] moves with [Next] to the
    first pair of the new content after its old key, and with [Prev] to the last
    one before it; outside the range it becomes invalid. *)
Theorem force_reseek_moves_from_old_key (h : nheap) (m : Mutable) (t : ltree) (iter : iterator)
    (a : loc) (n : treapNode)
    (Hok : mutable_ok h m t) (Ht : iter_t iter = true) (Hnew : iter_isNew iter = false)
    (Hnode : iter_node iter = Some a) (Ha : h !! a = Some n) :
  let found s L := landed (iter_startKey iter) (iter_limitKey iter)
                     (filter (fun x => acc s false (tn_key n) x = true) L) in
  exists iter1 next prev,
    iter_ForceReseek h iter m = Ok iter1 /\
    iter_Next h iter1 = Ok next /\ iter_Key h next.1 = Ok (fst <$> found true (inorder t)) /\
    iter_Value h next.1 = Ok (snd <$> found true (inorder t)) /\
    iter_Prev h iter1 = Ok prev /\ iter_Key h prev.1 = Ok (fst <$> found false (reverse (inorder t))) /\
    iter_Value h prev.1 = Ok (snd <$> found false (reverse (inorder t))).
Proof.
  pose proof Hok as (_ & Hrep & _).
  destruct (reseek_lands true h m t iter a n) as (i1 & r1 & Hf1 & Hn & Hl1); [done..|].
  destruct (reseek_lands false h m t iter a n) as (i2 & r2 & Hf2 & Hp & Hl2); [done..|].
  rewrite Hf1 in Hf2. injection Hf2 as <-.
  apply (lands_reads h) in Hl1 as (_ & ? & ? & _); [|done].
  apply (lands_reads h) in Hl2 as (_ & ? & ? & _); [|done].
  exists i1, r1, r2. split_and!; done.
Qed.

(** The treap {3, 5, 7}, an iterator on 5, and 5 deleted under it. *)
Lemma force_reseek_witness :
  exists h m iter1 next, m_Len m = 2 /\
    iter_ForceReseek h (MkIterator true (m_root m) (Some 1%positive) ps_zero false None None None) m = Ok iter1 /\
    iter_Next h iter1 = Ok next /\ iter_Key h next.1 = Ok (Some [7]).
Proof.
  destruct (store_run (three_puts ++ [OpDelete [5]]) (∅, NewMutable)) as [[h m]| |] eqn:E;
    [|vm_compute in E; discriminate..].
  destruct (store_run_ok (three_puts ++ [OpDelete [5]]) _ _ (empty_mutable_abs ∅)) as ([h' m'] & E' & t & Hok & Hc).
  rewrite E in E'. injection E' as <- <-.
  assert (inorder t = [([3], []); ([7], [70])]) as Hin.
  { apply (sorted_pairs_eq _ _ (contents t)); [split; [apply Hok|done]|].
    split; [repeat constructor|]. rewrite Hc. vm_compute. reflexivity. }
  assert (h !! 1%positive = Some (TreapNode [5] [50] 1 None None)) as Ha.
  { vm_compute in E. injection E as <- <-. reflexivity. }
  destruct (force_reseek_moves_from_old_key h m t
    (MkIterator true (m_root m) (Some 1%positive) ps_zero false None None None) 1%positive _
    Hok eq_refl eq_refl eq_refl Ha) as (i1 & next & prev & ? & ? & Hk & _).
  exists h, m, i1, next. split_and!; [|done..|].
  - vm_compute in E. injection E as <- <-. reflexivity.
  - rewrite Hk, Hin. reflexivity.
Defined.

(** [First] without a start key does not apply the limit of the iterator, nor
    does [Last] without a limit key apply its start: on the treap {5}, [Next] of a
    new iterator limited to the keys below 3 returns 5, and so does [Prev] of one
    that starts at 7. *)
Theorem first_and_last_ignore_the_other_end :
  exists h t, store_run [OpPut [5] (Some [50]) 1] (∅, NewImmutable) = Ok (h, t) /\
    (exists r, iter_Next h (i_Iterator t None (Some [3]) : iterator) = Ok r /\ r.2 = true /\
       iter_Key h r.1 = Ok (Some [5]) /\ in_range None (Some [3]) ([5], [50]) = false) /\
    (exists r, iter_Prev h (i_Iterator t (Some [7]) None : iterator) = Ok r /\ r.2 = true /\
       iter_Key h r.1 = Ok (Some [5]) /\ in_range (Some [7]) None ([5], [50]) = false).
Proof.
  eexists _, _. split; [vm_compute; reflexivity|].
  split; eexists; (split; [vm_compute; reflexivity|]); by vm_compute.
Qed.

(** [Seek] moves an iterator to the first pair whose key is at or after the
    given one, when that pair is in the range; otherwise the iterator is invalid. *)
Theorem seek_finds_first_at_or_after (h : nheap) (m : Mutable) (t : ltree) (iter : iterator) (key : list Z)
    (Hok : mutable_ok h m t) (Hroot : iter_root iter = m_root m) (Hsk : iter_seekKey iter = None) :
  let x := landed (iter_startKey iter) (iter_limitKey iter)
             (filter (fun x => acc true true key x = true) (inorder t)) in
  exists iter', iter_Seek h iter key = Ok (iter', bool_decide (is_Some x)) /\
    iter_Key h iter' = Ok (fst <$> x) /\ iter_Value h iter' = Ok (snd <$> x) /\
    iter_Valid iter' = bool_decide (is_Some x).
Proof.
  intros x. pose proof Hok as (Hr & Hrep & _).
  destruct (Seek_lands h m t iter key Hok) as ([iter' b] & Hse & Hl); [congruence|done|].
  apply (lands_reads h) in Hl as (Hb & ? & ? & Hv); [|done]. simpl in *.
  exists iter'. split_and!; [|done..|]; [rewrite Hse|rewrite Hv]; by rewrite Hb.
Qed.
