(* ===== verification/DbCache.v ===== *)
(** * The database cache and its transactions

    Models [btcd/database/ffldb/dbcache.go] (the cache over leveldb, its
    snapshots, flushes and commits) and the pending keys of a [transaction] of
    [btcd/database/ffldb/db.go].  The treaps are used through their interface:
    [I] is the store of the immutable treap, [M] that of the mutable one, and the
    theorems hold for any implementation of [OrderedStore].  leveldb is not part
    of the repository: [LevelDB] lists the calls the code makes and
    [LevelDBLaws] what its documentation says of them. *)
From stdpp Require Import gmap list.
From Stdlib Require Import ZArith Lia.
From S2P Require Import Prelude TreapNode TreapTree TreapMutable TreapImmutable TreapStore TreapIter.

Open Scope Z_scope.

Abbreviation bmap := (gmap (list Z) (list Z)).

Inductive db_error :=
  | ErrDbNotOpen | ErrSnapshot | ErrSync | ErrOpenTx | ErrPut (key : list Z) | ErrDelete (key : list Z) | ErrCommit.

(** The calls to leveldb; [None] stands for an error. *)
Class LevelDB (DB Snap Tx : Type) := {
  ldb_GetSnapshot : DB -> option Snap;
  snap_Has : Snap -> list Z -> bool;
  snap_Get : Snap -> list Z -> option (list Z);
  ldb_OpenTransaction : DB -> option Tx;
  ldbTx_Put : Tx -> list Z -> list Z -> option Tx;
  ldbTx_Delete : Tx -> list Z -> option Tx;
  ldbTx_Commit : Tx -> option DB;
}.

Class LevelDBLaws (DB Snap Tx : Type) `{LevelDB DB Snap Tx} := {
  ldb_view : DB -> bmap;
  snap_view : Snap -> bmap;
  ldbTx_view : Tx -> bmap;
  ldb_GetSnapshot_view db s : ldb_GetSnapshot db = Some s -> snap_view s = ldb_view db;
  snap_Has_view s k : snap_Has s k = bool_decide (is_Some (snap_view s !! k));
  snap_Get_view s k : snap_Get s k = snap_view s !! k;
  ldb_OpenTransaction_view db tx : ldb_OpenTransaction db = Some tx -> ldbTx_view tx = ldb_view db;
  ldbTx_Put_view tx k v tx' : ldbTx_Put tx k v = Some tx' -> ldbTx_view tx' = <[k := v]> (ldbTx_view tx);
  ldbTx_Delete_view tx k tx' : ldbTx_Delete tx k = Some tx' -> ldbTx_view tx' = delete k (ldbTx_view tx);
  ldbTx_Commit_view tx db : ldbTx_Commit tx = Some db -> ldb_view db = ldbTx_view tx;
}.

(** [float64(x)] of an integer: 53 significant bits, ties to even. *)
Definition round53 (x : Z) : Z :=
  let k := Z.log2 x - 52 in
  if decide (k <= 0) then x
  else
    let q := Z.shiftr x k in
    let r := x - Z.shiftl q k in
    let half := Z.shiftl 1 (k - 1) in
    let up := if decide (r = half) then Z.odd q else bool_decide (half < r) in
    Z.shiftl (if up then q + 1 else q) k.

(** [uint64(float64(totalSize) * 1.5)]; the product is exact but for its own rounding. *)
Definition scale_1_5 (totalSize : Z) : Z := u64 (round53 (3 * round53 totalSize) / 2).

Section DbCache.
Context {I M It DB Snap Tx : Type}.
Context `{OrderedStore I} `{OrderedStore M} `{!StoreIter M It} `{LevelDB DB Snap Tx}.

Record dbCacheSnapshot := MkSnapshot {
  snap_dbSnapshot : Snap; snap_pendingKeys : I; snap_pendingRemove : I }.

Definition snapshot_Has (snap : dbCacheSnapshot) (key : list Z) : outcome bool :=
  removed ← os_has (snap_pendingRemove snap) key;
  if removed : bool then Ok false
  else
    pending ← os_has (snap_pendingKeys snap) key;
    if pending : bool then Ok true else Ok (snap_Has (snap_dbSnapshot snap) key).

(** A treap never holds a nil value, so [value != nil] says that the key is there. *)
Definition snapshot_Get (snap : dbCacheSnapshot) (key : list Z) : outcome (option (list Z)) :=
  removed ← os_has (snap_pendingRemove snap) key;
  if removed : bool then Ok None
  else
    value ← os_get (snap_pendingKeys snap) key;
    match value with
    | Some v => Ok (Some v)
    | None => Ok (snap_Get (snap_dbSnapshot snap) key)
    end.

Record dbCache := MkDbCache {
  c_ldb : DB;
  c_maxSize : Z;
  c_flushInterval : Z;
  c_lastFlush : Z;
  c_cachedKeys : I;
  c_cachedRemove : I;
}.

Definition newDbCache (ldb : DB) (maxSize flushIntervalSecs now : Z) : dbCache :=
  MkDbCache ldb maxSize (i64 (1000000000 * flushIntervalSecs)) now os_new os_new.

Definition cache_Snapshot (c : dbCache) : dbCacheSnapshot + db_error :=
  match ldb_GetSnapshot (c_ldb c) with
  | None => inr ErrSnapshot
  | Some s => inl (MkSnapshot s (c_cachedKeys c) (c_cachedRemove c))
  end.

Definition updateDB (ldb : DB) (fn : Tx -> outcome (Tx + db_error)) : outcome (DB + db_error) :=
  match ldb_OpenTransaction ldb with
  | None => Ok (inr ErrOpenTx)
  | Some ldbTx =>
      r ← fn ldbTx;
      match r with
      | inr err => Ok (inr err)
      | inl ldbTx =>
          match ldbTx_Commit ldbTx with None => Ok (inr ErrCommit) | Some ldb => Ok (inl ldb) end
      end
  end.

(** The callbacks of [commitTreaps]: the state is the transaction, or the error
    that stopped the iteration. *)
Definition put_each (st : Tx + db_error) (k v : list Z) : (Tx + db_error) * bool :=
  match st with
  | inr e => (inr e, false)
  | inl tx => match ldbTx_Put tx k v with None => (inr (ErrPut k), false) | Some tx => (inl tx, true) end
  end.
Definition delete_each (st : Tx + db_error) (k v : list Z) : (Tx + db_error) * bool :=
  match st with
  | inr e => (inr e, false)
  | inl tx => match ldbTx_Delete tx k with None => (inr (ErrDelete k), false) | Some tx => (inl tx, true) end
  end.

Definition commitTreaps {T} `{OrderedStore T} (ldb : DB) (pendingKeys pendingRemove : T)
    : outcome (DB + db_error) :=
  updateDB ldb (fun ldbTx =>
    r ← os_foreach _ pendingKeys put_each (inl ldbTx);
    match r with
    | inr err => Ok (inr err)
    | inl ldbTx => os_foreach _ pendingRemove delete_each (inl ldbTx)
    end).

(** [sync_ok]: whether [c.store.syncBlocks()] succeeds. *)
Definition flush (now : Z) (sync_ok : bool) (c : dbCache) : outcome (dbCache * option db_error) :=
  let c := MkDbCache (c_ldb c) (c_maxSize c) (c_flushInterval c) now (c_cachedKeys c) (c_cachedRemove c) in
  if negb sync_ok then Ok (c, Some ErrSync)
  else if decide (os_len (c_cachedKeys c) = 0 /\ os_len (c_cachedRemove c) = 0) then Ok (c, None)
  else
    r ← commitTreaps (c_ldb c) (c_cachedKeys c) (c_cachedRemove c);
    match r with
    | inr err => Ok (c, Some err)
    | inl ldb => Ok (MkDbCache ldb (c_maxSize c) (c_flushInterval c) (c_lastFlush c) os_new os_new, None)
    end.

(** A transaction; its pending treaps are nil after a commit. *)
Record transaction := MkTx {
  tx_writable : bool;
  tx_snapshot : dbCacheSnapshot;
  tx_pendingKeys : option M;
  tx_pendingRemove : option M;
  tx_activeIters : list It;
}.

(** A method call on a nil treap panics. *)
Definition treap (m : option M) : outcome M := match m with Some m => Ok m | None => Panic end.

Fixpoint notify (m : M) (iters : list It) : outcome (list It) :=
  match iters with
  | [] => Ok []
  | it :: iters => it ← si_reseek m it; iters ← notify m iters; Ok (it :: iters)
  end.

(** [ForceReseek] reads the treap of the iterator: the pending keys. *)
Definition notifyActiveIters (tx : transaction) : outcome transaction :=
  m ← treap (tx_pendingKeys tx);
  iters ← notify m (tx_activeIters tx);
  Ok (MkTx (tx_writable tx) (tx_snapshot tx) (tx_pendingKeys tx) (tx_pendingRemove tx) iters).

Definition tx_hasKey (tx : transaction) (key : list Z) : outcome bool :=
  if tx_writable tx then
    r ← treap (tx_pendingRemove tx);
    removed ← os_has r key;
    if removed : bool then Ok false
    else
      p ← treap (tx_pendingKeys tx);
      pending ← os_has p key;
      if pending : bool then Ok true else snapshot_Has (tx_snapshot tx) key
  else snapshot_Has (tx_snapshot tx) key.

Definition tx_fetchKey (tx : transaction) (key : list Z) : outcome (option (list Z)) :=
  if tx_writable tx then
    r ← treap (tx_pendingRemove tx);
    removed ← os_has r key;
    if removed : bool then Ok None
    else
      p ← treap (tx_pendingKeys tx);
      value ← os_get p key;
      match value with Some v => Ok (Some v) | None => snapshot_Get (tx_snapshot tx) key end
  else snapshot_Get (tx_snapshot tx) key.

Definition tx_putKey (tx : transaction) (key : list Z) (value : option (list Z)) (rnd : Z)
    : outcome transaction :=
  r ← treap (tx_pendingRemove tx);
  r ← os_delete r key;
  p ← treap (tx_pendingKeys tx);
  p ← os_put p key value rnd;
  notifyActiveIters (MkTx (tx_writable tx) (tx_snapshot tx) (Some p) (Some r) (tx_activeIters tx)).

Definition tx_deleteKey (tx : transaction) (key : list Z) (notifyIterators : bool) (rnd : Z)
    : outcome transaction :=
  p ← treap (tx_pendingKeys tx);
  p ← os_delete p key;
  r ← treap (tx_pendingRemove tx);
  r ← os_put r key None rnd;
  let tx := MkTx (tx_writable tx) (tx_snapshot tx) (Some p) (Some r) (tx_activeIters tx) in
  if notifyIterators then notifyActiveIters tx else Ok tx.

Definition needsFlush (now : Z) (c : dbCache) (tx : transaction) : bool :=
  if decide (now - c_lastFlush c > c_flushInterval c) then true
  else
    let snap := tx_snapshot tx in
    let totalSize := u64 (os_size (snap_pendingKeys snap) + os_size (snap_pendingRemove snap)) in
    bool_decide (scale_1_5 totalSize > c_maxSize c).

(** The callbacks of [commitTx]; [draw] gives the priorities of the new nodes. *)
Definition cache_each (draw : nat -> Z) (st : outcome (I * I * nat)) (k v : list Z)
    : outcome (I * I * nat) * bool :=
  (('(keys, remove, n) ← st;
    remove ← os_delete remove k;
    keys ← os_put keys k (Some v) (draw n);
    Ok (keys, remove, S n)), true).
Definition uncache_each (draw : nat -> Z) (st : outcome (I * I * nat)) (k v : list Z)
    : outcome (I * I * nat) * bool :=
  (('(keys, remove, n) ← st;
    keys ← os_delete keys k;
    remove ← os_put remove k None (draw n);
    Ok (keys, remove, S n)), true).

Definition commitTx (now : Z) (sync_ok : bool) (draw : nat -> Z) (c : dbCache) (tx : transaction)
    : outcome (dbCache * transaction * option db_error) :=
  let done := MkTx (tx_writable tx) (tx_snapshot tx) None None (tx_activeIters tx) in
  if needsFlush now c tx then
    '(c, err) ← flush now sync_ok c;
    match err with
    | Some err => Ok (c, tx, Some err)
    | None =>
        pendingKeys ← treap (tx_pendingKeys tx);
        pendingRemove ← treap (tx_pendingRemove tx);
        r ← commitTreaps (c_ldb c) pendingKeys pendingRemove;
        match r with
        | inr err => Ok (c, tx, Some err)
        | inl ldb =>
            Ok (MkDbCache ldb (c_maxSize c) (c_flushInterval c) (c_lastFlush c)
                  (c_cachedKeys c) (c_cachedRemove c), done, None)
        end
    end
  else
    pendingKeys ← treap (tx_pendingKeys tx);
    st ← os_foreach _ pendingKeys (cache_each draw) (Ok (c_cachedKeys c, c_cachedRemove c, O));
    pendingRemove ← treap (tx_pendingRemove tx);
    st ← os_foreach _ pendingRemove (uncache_each draw) st;
    '(keys, remove, _) ← st;
    Ok (MkDbCache (c_ldb c) (c_maxSize c) (c_flushInterval c) (c_lastFlush c) keys remove, done, None).

(** [closed]: whether the database has been closed. *)
Definition begin_tx (closed : bool) (c : dbCache) (writable : bool) : transaction + db_error :=
  if closed then inr ErrDbNotOpen
  else
    match cache_Snapshot c with
    | inr err => inr err
    | inl snap => inl (MkTx writable snap (Some os_new) (Some os_new) [])
    end.
End DbCache.
Arguments dbCacheSnapshot : clear implicits.
Arguments dbCache : clear implicits.
Arguments transaction : clear implicits.

(** ** Maps *)

(** The map of a layer: [keys] over [base], less the [removed] keys. *)
Definition layer (keys removed base : bmap) : bmap := (keys ∪ base) ∖ removed.

Lemma lookup_layer K R D k :
  layer K R D !! k = match R !! k with
                     | Some _ => None
                     | None => match K !! k with Some v => Some v | None => D !! k end
                     end.
Proof.
  unfold layer. rewrite lookup_difference, lookup_union.
  destruct (R !! k), (K !! k), (D !! k); done.
Qed.

Ltac map_solver :=
  apply map_eq; intros ?k;
  repeat first [rewrite lookup_layer | rewrite lookup_fmap | rewrite lookup_union
               | rewrite lookup_difference | rewrite lookup_empty];
  repeat match goal with |- context [?m !! ?i] => destruct (m !! i); simpl end; done.

Lemma layer_empty D : layer ∅ ∅ D = D.
Proof. map_solver. Qed.

(** A layer over a layer is one layer, whichever way its keys are merged. *)
Lemma layer_layer K R K' R' D (f : list Z -> list Z) :
  layer ((K' ∪ K) ∖ R') ((f <$> R') ∪ (R ∖ K')) D = layer K' R' (layer K R D).
Proof. map_solver. Qed.

Lemma layer_put K R D k v : layer (<[k := v]> K) (delete k R) D = <[k := v]> (layer K R D).
Proof.
  apply map_eq; intros i. rewrite lookup_layer. destruct (decide (k = i)) as [->|].
  - by rewrite lookup_delete_eq, !lookup_insert_eq.
  - by rewrite lookup_delete_ne, !lookup_insert_ne, lookup_layer by done.
Qed.

Lemma layer_delete K R D k v : layer (delete k K) (<[k := v]> R) D = delete k (layer K R D).
Proof.
  apply map_eq; intros i. rewrite lookup_layer. destruct (decide (k = i)) as [->|].
  - by rewrite lookup_insert_eq, lookup_delete_eq.
  - by rewrite lookup_insert_ne, !lookup_delete_ne, lookup_layer by done.
Qed.

Lemma disjoint_put (K R : bmap) k v : K ##ₘ R -> <[k := v]> K ##ₘ delete k R.
Proof.
  intros Hd. apply map_disjoint_insert_l_2; [apply lookup_delete_eq|]. by apply map_disjoint_delete_r.
Qed.

Lemma disjoint_layer (K R K' R' : bmap) (f : list Z -> list Z) :
  K ##ₘ R -> K' ##ₘ R' -> (K' ∪ K) ∖ R' ##ₘ (f <$> R') ∪ (R ∖ K').
Proof.
  rewrite !map_disjoint_alt. intros Hd Hd' i. specialize (Hd i). specialize (Hd' i).
  rewrite lookup_difference, !lookup_union, lookup_fmap, lookup_difference.
  destruct (R' !! i), (K' !! i), (K !! i), (R !! i); simpl; tauto.
Qed.

Lemma union_cons (k v : list Z) (l : list kv) (m : bmap) :
  k ∉ l.*1 -> list_to_map l ∪ <[k := v]> m = list_to_map ((k, v) :: l) ∪ m.
Proof.
  intros Hk. simpl. rewrite <- insert_union_l, insert_union_r; [done|].
  by apply not_elem_of_list_to_map_1.
Qed.

Lemma difference_cons (k v : list Z) (l : list kv) (m : bmap) :
  delete k m ∖ list_to_map l = m ∖ (list_to_map ((k, v) :: l) : bmap).
Proof.
  apply map_eq; intros i. simpl. rewrite !lookup_difference.
  destruct (decide (k = i)) as [->|].
  - rewrite lookup_insert_eq, lookup_delete_eq. by destruct (_ !! i).
  - by rewrite lookup_insert_ne, lookup_delete_ne.
Qed.

Section CacheProofs.
Context {I M It DB Snap Tx : Type}.
Context `{OrderedStoreLaws I} `{OrderedStoreLaws M} `{!StoreIter M It} `{!StoreIterLaws M It}.
Context `{LevelDBLaws DB Snap Tx}.

(** ** The leveldb side *)

Lemma fold_put_each (l : list kv) : forall (tx tx' : Tx), NoDup l.*1 ->
  fold_while put_each (inl tx) l = inl tx' -> ldbTx_view tx' = list_to_map l ∪ ldbTx_view tx.
Proof.
  induction l as [|[k v] l IH]; intros tx tx' Hnd; simpl.
  { intros [= ->]. by rewrite (left_id_L ∅ (∪)). }
  apply NoDup_cons in Hnd as [Hk Hnd]. destruct (ldbTx_Put tx k v) as [tx1|] eqn:E; [|done].
  intros Hf. apply IH in Hf; [|done]. rewrite Hf, (ldbTx_Put_view _ _ _ _ E). by apply union_cons.
Qed.

Lemma fold_delete_each (l : list kv) : forall (tx tx' : Tx),
  fold_while delete_each (inl tx) l = inl tx' -> ldbTx_view tx' = ldbTx_view tx ∖ list_to_map l.
Proof.
  induction l as [|[k v] l IH]; intros tx tx'; simpl.
  { intros [= ->]. by rewrite map_difference_empty. }
  destruct (ldbTx_Delete tx k) as [tx1|] eqn:E; [|done].
  intros Hf. apply IH in Hf. rewrite Hf, (ldbTx_Delete_view _ _ _ E). by apply difference_cons.
Qed.

(** [commitTreaps] never panics; without an error it writes the layer. *)
Lemma commitTreaps_ok {T} `{OrderedStoreLaws T} (db : DB) (keys removes : T) K R :
  os_abs keys K -> os_abs removes R ->
  exists r, commitTreaps db keys removes = Ok r /\
    match r with inl db' => ldb_view db' = layer K R (ldb_view db) | inr _ => True end.
Proof.
  intros HK HR. destruct (os_foreach_ok keys K HK) as (lk & [Hsk <-] & _ & Hfk).
  destruct (os_foreach_ok removes R HR) as (lr & [Hsr <-] & _ & Hfr).
  unfold commitTreaps, updateDB. destruct (ldb_OpenTransaction db) as [tx|] eqn:Eo; [|by (eexists; split)].
  rewrite Hfk. simpl. destruct (fold_while put_each (inl tx) lk) as [tx1|e] eqn:E1; [|by (eexists; split)].
  rewrite Hfr. simpl. destruct (fold_while delete_each (inl tx1) lr) as [tx2|e] eqn:E2; [|by (eexists; split)].
  destruct (ldbTx_Commit tx2) as [db'|] eqn:Ec; [|by (eexists; split)]. eexists. split; [done|].
  apply fold_put_each in E1; [|by apply keys_sorted_NoDup]. apply fold_delete_each in E2.
  simpl. rewrite (ldbTx_Commit_view _ _ Ec), E2, E1, (ldb_OpenTransaction_view _ _ Eo). done.
Qed.

(** ** What a cache, a snapshot and a transaction read *)

(** No key is in both treaps of a layer. *)

Definition cache_view (c : dbCache I DB) (m : bmap) : Prop :=
  exists K R, os_abs (c_cachedKeys c) K /\ os_abs (c_cachedRemove c) R /\ K ##ₘ R /\
    m = layer K R (ldb_view (c_ldb c)).

Definition snapshot_view (s : dbCacheSnapshot I Snap) (m : bmap) : Prop :=
  exists K R, os_abs (snap_pendingKeys s) K /\ os_abs (snap_pendingRemove s) R /\ K ##ₘ R /\
    m = layer K R (snap_view (snap_dbSnapshot s)).

(** A writable transaction over a snapshot that reads [base]. *)
Definition tx_view (tx : transaction I M It Snap) (base m : bmap) : Prop :=
  tx_writable tx = true /\ snapshot_view (tx_snapshot tx) base /\
  exists p r P R, tx_pendingKeys tx = Some p /\ tx_pendingRemove tx = Some r /\
    os_abs p P /\ os_abs r R /\ Forall (si_ok p) (tx_activeIters tx) /\ P ##ₘ R /\ m = layer P R base.

Lemma snapshot_Get_ok s m k : snapshot_view s m -> snapshot_Get s k = Ok (m !! k).
Proof.
  intros (K & R & HK & HR & Hd & ->). unfold snapshot_Get. rewrite (os_has_ok _ _ _ HR). simpl.
  rewrite lookup_layer. destruct (R !! k); [done|]. simpl.
  rewrite (os_get_ok _ _ _ HK). simpl. rewrite snap_Get_view. by destruct (K !! k).
Qed.

Lemma snapshot_Has_ok s m k :
  snapshot_view s m -> snapshot_Has s k = Ok (bool_decide (is_Some (m !! k))).
Proof.
  intros (K & R & HK & HR & Hd & ->). unfold snapshot_Has. rewrite (os_has_ok _ _ _ HR). simpl.
  rewrite lookup_layer. destruct (R !! k); [done|]. simpl.
  rewrite (os_has_ok _ _ _ HK). simpl. rewrite snap_Has_view. by destruct (K !! k).
Qed.

Lemma tx_fetchKey_ok tx base m k : tx_view tx base m -> tx_fetchKey tx k = Ok (m !! k).
Proof.
  intros (Hw & Hs & p & r & P & R & Hp & Hr & HP & HR & _ & _ & ->). unfold tx_fetchKey.
  rewrite Hw, Hp, Hr. simpl. rewrite (os_has_ok _ _ _ HR). simpl. rewrite lookup_layer.
  destruct (R !! k); [done|]. simpl. rewrite (os_get_ok _ _ _ HP). simpl.
  destruct (P !! k); [done|]. by apply snapshot_Get_ok.
Qed.

Lemma tx_hasKey_ok tx base m k :
  tx_view tx base m -> tx_hasKey tx k = Ok (bool_decide (is_Some (m !! k))).
Proof.
  intros (Hw & Hs & p & r & P & R & Hp & Hr & HP & HR & _ & _ & ->). unfold tx_hasKey.
  rewrite Hw, Hp, Hr. simpl. rewrite (os_has_ok _ _ _ HR). simpl. rewrite lookup_layer.
  destruct (R !! k); [done|]. simpl. rewrite (os_has_ok _ _ _ HP). simpl.
  destruct (P !! k); [done|]. by apply snapshot_Has_ok.
Qed.

Lemma notify_ok p its : Forall (si_ok p) its ->
  exists its', notify p its = Ok its' /\ Forall (si_ok p) its'.
Proof.
  induction 1 as [|it its Hit _ (its' & IH & Hits)]; simpl; [by eauto|].
  destruct (si_reseek_ok p it Hit) as (it' & -> & ?). simpl. rewrite IH. simpl. eauto.
Qed.

Lemma notifyActiveIters_ok tx base m :
  tx_view tx base m -> exists tx', notifyActiveIters tx = Ok tx' /\ tx_view tx' base m.
Proof.
  intros (Hw & Hs & p & r & P & R & Hp & Hr & HP & HR & Hit & Hd & ->). unfold notifyActiveIters.
  rewrite Hp. simpl. destruct (notify_ok p _ Hit) as (its & -> & ?). simpl.
  eexists. split; [done|]. split_and!; [done|done|]. by exists p, r, P, R.
Qed.

Lemma tx_putKey_ok tx base m k v rnd :
  tx_view tx base m ->
  exists tx', tx_putKey tx k v rnd = Ok tx' /\ tx_view tx' base (<[k := default [] v]> m).
Proof.
  intros (Hw & Hs & p & r & P & R & Hp & Hr & HP & HR & Hit & Hd & ->). unfold tx_putKey.
  rewrite Hp, Hr. simpl. destruct (os_delete_ok r R k HR) as (r' & -> & HR'). simpl.
  destruct (os_put_ok p P k v rnd HP) as (p' & E & HP'). rewrite E. simpl.
  apply notifyActiveIters_ok. split_and!; [done|done|]. exists p', r', (<[k := default [] v]> P), (delete k R). split_and!; try done.
  - eapply Forall_impl; [exact Hit|]. intros it. by eapply si_put.
  - by apply disjoint_put.
  - by rewrite layer_put.
Qed.

Lemma tx_deleteKey_ok tx base m k b rnd :
  tx_view tx base m ->
  exists tx', tx_deleteKey tx k b rnd = Ok tx' /\ tx_view tx' base (delete k m).
Proof.
  intros (Hw & Hs & p & r & P & R & Hp & Hr & HP & HR & Hit & Hd & ->). unfold tx_deleteKey.
  rewrite Hp, Hr. simpl. destruct (os_delete_ok p P k HP) as (p' & E & HP'). rewrite E. simpl.
  destruct (os_put_ok r R k None rnd HR) as (r' & -> & HR'). simpl.
  match goal with |- context [if b then notifyActiveIters ?t else _] => set (tx' := t) end.
  assert (tx_view tx' base (delete k (layer P R base))) as Hv.
  { split_and!; [done|done|]. exists p', r', (delete k P), (<[k := []]> R). split_and!; try done.
    - eapply Forall_impl; [exact Hit|]. intros it. by eapply si_delete.
    - apply symmetry, disjoint_put. by symmetry.
    - by rewrite (layer_delete P R base k []). }
  destruct b; [by apply notifyActiveIters_ok|by eauto].
Qed.

(** ** Flushing and committing *)

Lemma os_len_0 {T} `{OrderedStoreLaws T} (s : T) m :
  os_abs s m -> (Z.of_nat (size m) < 2 ^ 63) -> os_len s = 0 -> m = ∅.
Proof.
  intros Habs Hsz. rewrite (os_len_ok _ _ Habs), swrap_id by (unfold sint_range; lia).
  intros. apply map_size_empty_inv. lia.
Qed.

(** The number of keys that a cache or a treap holds is far below 2^63. *)
Definition small (c : dbCache I DB) : Prop :=
  forall K R, os_abs (c_cachedKeys c) K -> os_abs (c_cachedRemove c) R ->
    Z.of_nat (size K) < 2 ^ 63 /\ Z.of_nat (size R) < 2 ^ 63.

(** A flush, failed or not, does not change what the cache reads. *)
Lemma flush_ok now sync_ok c m :
  cache_view c m -> small c ->
  exists c' err, flush now sync_ok c = Ok (c', err) /\ cache_view c' m /\
    (err = None -> ldb_view (c_ldb c') = m /\ os_abs (c_cachedKeys c') ∅ /\ os_abs (c_cachedRemove c') ∅).
Proof.
  intros (K & R & HK & HR & Hd & ->) Hsm. destruct (Hsm K R HK HR) as [HsK HsR]. unfold flush.
  destruct sync_ok; simpl.
  2:{ eexists _, _. split; [done|]. split; [by exists K, R|done]. }
  case_decide as Hz.
  { destruct Hz as [HzK HzR]. apply (os_len_0 _ K HK HsK) in HzK as ->. apply (os_len_0 _ R HR HsR) in HzR as ->.
    eexists _, _. split; [done|]. split; [by exists ∅, ∅|]. by rewrite layer_empty. }
  destruct (commitTreaps_ok (c_ldb c) _ _ K R HK HR) as ([db'|e] & -> & Hdb); simpl.
  - eexists _, _. split; [done|]. split.
    + exists ∅, ∅. simpl. split_and!; [apply os_new_ok..|apply map_disjoint_empty_l|]. by rewrite layer_empty.
    + intros _. split; [done|]. split; apply os_new_ok.
  - eexists _, _. split; [done|]. split; [by exists K, R|done].
Qed.

Lemma fold_cache_each draw (l : list kv) : forall keys removes n K R, NoDup l.*1 ->
  os_abs keys K -> os_abs removes R ->
  exists keys' removes' n',
    fold_while (cache_each draw) (Ok (keys, removes, n)) l = Ok (keys', removes', n') /\
    os_abs (St := I) keys' (list_to_map l ∪ K) /\ os_abs (St := I) removes' (R ∖ list_to_map l).
Proof.
  induction l as [|[k v] l IH]; intros keys removes n K R Hnd HK HR; simpl.
  { eexists _, _, _. rewrite (left_id_L ∅ (∪)), map_difference_empty. done. }
  apply NoDup_cons in Hnd as [Hk Hnd].
  destruct (os_delete_ok removes R k HR) as (r & -> & HR'). simpl.
  destruct (os_put_ok keys K k (Some v) (draw n) HK) as (p & -> & HK'). simpl in *.
  destruct (IH p r (S n) _ _ Hnd HK' HR') as (keys' & removes' & n' & -> & HK2 & HR2).
  eexists _, _, _. split; [done|].
  rewrite union_cons in HK2 by done. by rewrite (difference_cons k v l) in HR2.
Qed.

Lemma fold_uncache_each draw (l : list kv) : forall keys removes n K R, NoDup l.*1 ->
  os_abs keys K -> os_abs removes R ->
  exists keys' removes' n',
    fold_while (uncache_each draw) (Ok (keys, removes, n)) l = Ok (keys', removes', n') /\
    os_abs (St := I) keys' (K ∖ list_to_map l) /\
    os_abs (St := I) removes' (((fun _ => []) <$> (list_to_map l : bmap)) ∪ R).
Proof.
  induction l as [|[k v] l IH]; intros keys removes n K R Hnd HK HR; simpl.
  { eexists _, _, _. rewrite fmap_empty, (left_id_L ∅ (∪)), map_difference_empty. done. }
  apply NoDup_cons in Hnd as [Hk Hnd].
  destruct (os_delete_ok keys K k HK) as (p & -> & HK'). simpl.
  destruct (os_put_ok removes R k None (draw n) HR) as (r & -> & HR'). simpl in *.
  destruct (IH p r (S n) _ _ Hnd HK' HR') as (keys' & removes' & n' & -> & HK2 & HR2).
  eexists _, _, _. split; [done|]. rewrite (difference_cons k v l) in HK2. split; [done|].
  rewrite fmap_insert, <- insert_union_l, insert_union_r; [done|].
  rewrite lookup_fmap. by rewrite (not_elem_of_list_to_map_1 l k).
Qed.

(** A commit applies the whole transaction, or reports an error and applies none
    of it. *)
Lemma commitTx_ok now sync_ok draw c tx base m :
  cache_view c base -> small c -> tx_view tx base m ->
  exists c' tx' err, commitTx now sync_ok draw c tx = Ok (c', tx', err) /\
    cache_view c' (match err with None => m | Some _ => base end).
Proof.
  intros Hc Hsm (Hw & Hs & p & r & P & R & Hp & Hr & HP & HR & Hit & Hd & ->). unfold commitTx.
  rewrite Hp, Hr. simpl. destruct (needsFlush now c tx).
  - destruct (flush_ok now sync_ok c base Hc Hsm) as (c1 & err & -> & Hc1 & Hdone). simpl.
    destruct err as [e|]; [by eauto|]. destruct (Hdone eq_refl) as (Hdb & Hk & Hrm).
    destruct (commitTreaps_ok (c_ldb c1) p r P R HP HR) as ([db'|e] & -> & Hdb'); simpl; [|by eauto].
    eexists _, _, _. split; [done|]. exists ∅, ∅. split_and!; [done..|].
    simpl. by rewrite Hdb', Hdb, layer_empty.
  - destruct Hc as (K & C & HK & HC & Hdc & ->).
    destruct (os_foreach_ok p P HP) as (lp & [Hsp <-] & _ & Hfp).
    destruct (os_foreach_ok r R HR) as (lr & [Hsr <-] & _ & Hfr). rewrite Hfp. simpl.
    destruct (fold_cache_each draw lp _ _ 0%nat K C (keys_sorted_NoDup _ Hsp) HK HC)
      as (k1 & r1 & n1 & -> & HK1 & HR1). rewrite Hfr. simpl.
    destruct (fold_uncache_each draw lr _ _ n1 _ _ (keys_sorted_NoDup _ Hsr) HK1 HR1)
      as (k2 & r2 & n2 & -> & HK2 & HR2). simpl.
    eexists _, _, _. split; [done|]. eexists _, _. split_and!; [exact HK2|exact HR2| |].
    + by apply disjoint_layer.
    + simpl. by rewrite layer_layer.
Qed.

(** ** Whole transactions *)

Definition tx_step (tx : transaction I M It Snap) (o : store_op) : outcome (transaction I M It Snap) :=
  match o with
  | OpPut k v rnd => tx_putKey tx k v rnd
  | OpDelete k => tx_deleteKey tx k true 0
  end.
Fixpoint tx_run (ops : list store_op) (tx : transaction I M It Snap) : outcome (transaction I M It Snap) :=
  match ops with [] => Ok tx | o :: ops => tx ← tx_step tx o; tx_run ops tx end.

Lemma tx_run_ok ops : forall tx base m, tx_view tx base m ->
  exists tx', tx_run ops tx = Ok tx' /\ tx_view tx' base (map_run ops m).
Proof.
  induction ops as [|o ops IH]; intros tx base m Hv; simpl; [by eauto|].
  assert (exists tx1, tx_step tx o = Ok tx1 /\ tx_view tx1 base (map_step m o)) as (tx1 & -> & Hv1).
  { destruct o; simpl; [by apply tx_putKey_ok|by apply tx_deleteKey_ok]. }
  apply IH, Hv1.
Qed.

Lemma begin_ok c m tx :
  cache_view c m -> begin_tx false c true = inl tx -> tx_view tx m m.
Proof.
  intros (K & R & HK & HR & Hd & ->). unfold begin_tx, cache_Snapshot.
  destruct (ldb_GetSnapshot (c_ldb c)) as [s|] eqn:E; [|done]. intros [= <-].
  apply ldb_GetSnapshot_view in E. split; [done|]. split.
  - exists K, R. simpl. by rewrite E.
  - exists os_new, os_new, ∅, ∅. split_and!; try apply os_new_ok; try done; by rewrite layer_empty.
Qed.
End CacheProofs.

(** ** leveldb in memory: the laws can hold *)

Global Instance mem_db : LevelDB bmap bmap bmap := {
  ldb_GetSnapshot db := Some db;
  snap_Has s k := bool_decide (is_Some (s !! k));
  snap_Get s k := s !! k;
  ldb_OpenTransaction db := Some db;
  ldbTx_Put tx k v := Some (<[k := v]> tx);
  ldbTx_Delete tx k := Some (delete k tx);
  ldbTx_Commit tx := Some tx;
}.
Global Instance mem_db_laws : LevelDBLaws bmap bmap bmap.
Proof. refine {| ldb_view m := m; snap_view m := m; ldbTx_view m := m |}; simpl; congruence. Defined.

(** ** The theorems *)

Abbreviation Imm := (nheap * Immutable)%type.
Abbreviation Mut := (nheap * Mutable)%type.

Section Theorems.
Context {DB Snap Tx : Type} `{LevelDBLaws DB Snap Tx}.

Lemma cache_snapshot_reads (c : dbCache Imm DB) m snap k :
  cache_view c m -> cache_Snapshot c = inl snap -> snapshot_Get snap k = Ok (m !! k).
Proof.
  intros (K & R & HK & HR & Hd & ->) E. apply snapshot_Get_ok. unfold cache_Snapshot in E.
  destruct (ldb_GetSnapshot (c_ldb c)) eqn:Es; [|done]. injection E as <-.
  exists K, R. by rewrite (ldb_GetSnapshot_view _ _ Es).
Qed.

(** A transaction on the cache is atomic.  It reads its own writes over the
    content it started from; its commit never panics, whether the cache is
    flushed on the way or not, and afterwards a new snapshot reads the content
    with all of the transaction's writes and deletions when the commit returned
    no error, and the old content when it returned one. *)
Theorem transaction_is_atomic (c : dbCache Imm DB) (m : bmap) (tx : transaction Imm Mut iterator Snap)
    (ops : list store_op) (now : Z) (sync_ok : bool) (draw : nat -> Z)
    (Hview : cache_view c m) (Hsmall : small c) (Hbegin : begin_tx false c true = inl tx) :
  exists tx1 c' tx2 err,
    tx_run ops tx = Ok tx1 /\
    (forall k, tx_fetchKey tx1 k = Ok (map_run ops m !! k)) /\
    (forall k, tx_hasKey tx1 k = Ok (bool_decide (is_Some (map_run ops m !! k)))) /\
    commitTx now sync_ok draw c tx1 = Ok (c', tx2, err) /\
    (forall snap k, cache_Snapshot c' = inl snap ->
       snapshot_Get snap k = Ok ((match err with None => map_run ops m | Some _ => m end) !! k)).
Proof.
  pose proof (begin_ok c m tx Hview Hbegin) as Hv.
  destruct (tx_run_ok ops tx m m Hv) as (tx1 & Hrun & Hv1).
  destruct (commitTx_ok now sync_ok draw c tx1 m _ Hview Hsmall Hv1) as (c' & tx2 & err & Hcom & Hc').
  exists tx1, c', tx2, err. split_and!; auto.
  - intros k. by eapply tx_fetchKey_ok.
  - intros k. by eapply tx_hasKey_ok.
  - intros snap k. by apply cache_snapshot_reads.
Qed.

(** A flush, whether it succeeds or fails, does not change what the cache
    reads; when it succeeds everything is in leveldb and the cache is empty. *)
Theorem flush_keeps_content (c : dbCache Imm DB) (m : bmap) (now : Z) (sync_ok : bool)
    (Hview : cache_view c m) (Hsmall : small c) :
  exists c' err, flush now sync_ok c = Ok (c', err) /\
    (forall snap k, cache_Snapshot c' = inl snap -> snapshot_Get snap k = Ok (m !! k)) /\
    (err = None -> ldb_view (c_ldb c') = m /\ os_len (c_cachedKeys c') = 0 /\ os_len (c_cachedRemove c') = 0).
Proof.
  destruct (flush_ok now sync_ok c m Hview Hsmall) as (c' & err & Hf & Hc & Hdone).
  exists c', err. split_and!; [done| |].
  - intros snap k. by apply cache_snapshot_reads.
  - intros Herr. destruct (Hdone Herr) as (? & Hk & Hr).
    split_and!; [done|by rewrite (os_len_ok _ _ Hk)|by rewrite (os_len_ok _ _ Hr)].
Qed.
End Theorems.

Lemma new_immutable_abs (K : bmap) : os_abs ((∅, NewImmutable) : Imm) K -> K = ∅.
Proof. intros (t & (Hroot & _) & <-). destruct t; [done|]. by simpl in Hroot. Qed.

Definition mem_cache (db : bmap) : dbCache Imm bmap := newDbCache db 1000 300 0.

Lemma mem_cache_view db : cache_view (mem_cache db) db.
Proof. exists ∅, ∅. split_and!; [apply os_new_ok..|apply map_disjoint_empty_l|]. by rewrite layer_empty. Qed.

Lemma mem_cache_small db : small (mem_cache db).
Proof. intros K R ->%new_immutable_abs ->%new_immutable_abs. by rewrite map_size_empty. Qed.

Lemma transaction_is_atomic_witness :
  exists tx1 c' tx2 err,
    tx_run (three_puts ++ [OpDelete [9]]) (MkTx true (MkSnapshot {[[9] := [1]]} os_new os_new) (Some os_new) (Some os_new) [])
      = Ok tx1 /\
    tx_fetchKey tx1 [5] = Ok (Some [50]) /\ tx_fetchKey tx1 [9] = Ok None /\
    commitTx 7 true (fun _ => 4) (mem_cache {[[9] := [1]]}) (tx1 : transaction Imm Mut iterator bmap) = Ok (c', tx2, err).
Proof.
  destruct (transaction_is_atomic (mem_cache {[[9] := [1]]}) {[[9] := [1]]} _ (three_puts ++ [OpDelete [9]]) 7 true
    (fun _ => 4) (mem_cache_view _) (mem_cache_small _) eq_refl) as (tx1 & c' & tx2 & err & Hr & Hg & _ & Hc & _).
  exists tx1, c', tx2, err. split_and!; [exact Hr| | |exact Hc].
  - rewrite Hg. vm_compute. reflexivity.
  - rewrite Hg. vm_compute. reflexivity.
Defined.

Lemma flush_keeps_content_witness :
  exists c' err, flush 7 true (mem_cache {[[9] := [1]]}) = Ok (c', err) /\
    (err = None -> c_ldb c' = {[[9] := [1]]}).
Proof.
  destruct (flush_keeps_content (mem_cache {[[9] := [1]]}) {[[9] := [1]]} 7 true (mem_cache_view _) (mem_cache_small _))
    as (c' & err & Hf & _ & Hd). exists c', err. split; [exact Hf|]. intros ->. by apply Hd.
Defined.
