(* ===== verification/Vlq.v ===== *)
(** * Variable length quantities and compressed amounts

    Models [btcd/blockchain/bccompress/compress.go] (the code is repeated in
    [btcd/blockchain/compress.go]): the VLQ encoding of a uint64 and the
    domain specific compression of amounts. *)
From stdpp Require Import gmap list.
From Stdlib Require Import ZArith Lia.
From S2P Require Import Prelude.

Open Scope Z_scope.

(** A uint64 takes at most ten bytes. *)
Definition vlq_fuel : nat := 10.

Fixpoint size_vlq_loop (fuel : nat) (n size : Z) : outcome Z :=
  if decide (n > 0x7f) then
    match fuel with
    | O => NoFuel
    | S fuel => size_vlq_loop fuel (u64 (Z.shiftr n 7 - 1)) (size + 1)
    end
  else Ok size.

Definition SerializeSizeVLQ (n : Z) : outcome Z := size_vlq_loop vlq_fuel n 1.

(** The loop that writes the bytes, least significant first. *)
Fixpoint put_vlq_loop (fuel : nat) (target : list Z) (n offset : Z) : outcome (list Z * Z) :=
  match fuel with
  | O => NoFuel
  | S fuel =>
      let highBitMask := if decide (offset = 0) then 0x00 else 0x80 in
      target ← slice_set target offset (Z.lor (u8 (Z.land n 0x7f)) highBitMask);
      if decide (n <= 0x7f) then Ok (target, offset)
      else put_vlq_loop fuel target (u64 (Z.shiftr n 7 - 1)) (offset + 1)
  end.

(** [for i, j := 0, offset; i < j; i, j = i+1, j-1 { swap }] *)
Fixpoint reverse_loop (fuel : nat) (target : list Z) (i j : Z) : outcome (list Z) :=
  if decide (i < j) then
    match fuel with
    | O => NoFuel
    | S fuel =>
        ti ← slice_get target i;
        tj ← slice_get target j;
        target ← slice_set target i tj;
        target ← slice_set target j ti;
        reverse_loop fuel target (i + 1) (j - 1)
    end
  else Ok target.

Definition PutVLQ (target : list Z) (n : Z) : outcome (list Z * Z) :=
  '(target, offset) ← put_vlq_loop (S vlq_fuel) target n 0;
  target ← reverse_loop vlq_fuel target 0 offset;
  Ok (target, offset + 1).

Fixpoint des_vlq_loop (serialized : list Z) (n size : Z) : Z * Z :=
  match serialized with
  | [] => (n, size)
  | val :: serialized =>
      let size := size + 1 in
      let n := Z.lor (u64 (Z.shiftl n 7)) (Z.land val 0x7f) in
      if decide (Z.land val 0x80 <> 0x80) then (n, size)
      else des_vlq_loop serialized (u64 (n + 1)) size
  end.

Definition DeserializeVLQ (serialized : list Z) : Z * Z := des_vlq_loop serialized 0 0.

Fixpoint exponent_loop (fuel : nat) (amount exponent : Z) : outcome (Z * Z) :=
  if decide (amount mod 10 = 0 /\ exponent < 9) then
    match fuel with
    | O => NoFuel
    | S fuel => exponent_loop fuel (amount / 10) (exponent + 1)
    end
  else Ok (amount, exponent).

Definition CompressTxOutAmount (amount : Z) : outcome Z :=
  if decide (amount = 0) then Ok 0
  else
    '(amount, exponent) ← exponent_loop 9 amount 0;
    if decide (exponent < 9) then
      let lastDigit := amount mod 10 in
      let amount := amount / 10 in
      Ok (u64 (u64 (1 + u64 (10 * u64 (u64 (u64 (9 * amount) + lastDigit) - 1))) + exponent))
    else Ok (u64 (10 + u64 (10 * u64 (amount - 1)))).

(** [for ; exponent > 0; exponent-- { n *= 10 }] *)
Fixpoint scale_loop (exponent : nat) (n : Z) : Z :=
  match exponent with O => n | S e => scale_loop e (u64 (n * 10)) end.

Definition DecompressTxOutAmount (amount : Z) : Z :=
  if decide (amount = 0) then 0
  else
    let amount := u64 (amount - 1) in
    let exponent := amount mod 10 in
    let amount := amount / 10 in
    let n :=
      if decide (exponent < 9) then
        let lastDigit := amount mod 9 + 1 in
        u64 (u64 (amount / 9 * 10) + lastDigit)
      else u64 (amount + 1) in
    scale_loop (Z.to_nat exponent) n.

(** ** The groups of seven bits, least significant first *)

Fixpoint groups (fuel : nat) (n : Z) : list Z :=
  match fuel with
  | O => []
  | S fuel => if decide (n <= 127) then [n] else n mod 128 :: groups fuel (n / 128 - 1)
  end.

Fixpoint group_value (gs : list Z) : Z :=
  match gs with [] => -1 | g :: gs => (group_value gs + 1) * 128 + g end.

(** The encoding: the high bit is set in all bytes but the last. *)
Definition encode (gs : list Z) : list Z :=
  match gs with [] => [] | g :: gs => reverse ((fun x => x + 128) <$> gs) ++ [g] end.

Definition vlq (n : Z) : list Z := encode (groups vlq_fuel n).

Lemma groups_value f : forall n, 0 <= n < 2 ^ (7 * Z.of_nat f) -> (0 < f)%nat ->
  group_value (groups f n) = n /\ Forall (fun g => 0 <= g < 128) (groups f n) /\ groups f n <> [].
Proof.
  induction f as [|f IH]; intros n Hn Hf; [lia|]. simpl. case_decide.
  { simpl. split_and!; [lia| |done]. repeat constructor; lia. }
  destruct f as [|f].
  { change (2 ^ (7 * Z.of_nat 1)) with 128 in Hn. lia. }
  destruct (IH (n / 128 - 1)) as (Hv & Hg & Hne); [|lia|].
  { assert (2 ^ (7 * Z.of_nat (S (S f))) = 128 * 2 ^ (7 * Z.of_nat (S f))) as E.
    { change 128 with (2 ^ 7). rewrite <- Z.pow_add_r by lia. f_equal. lia. }
    rewrite E in Hn. pose proof (Z.div_lt_upper_bound n 128 _ ltac:(lia) (proj2 Hn)).
    pose proof (Z.div_le_mono 128 n 128 ltac:(lia) ltac:(lia)). rewrite Z_div_same in * by lia. lia. }
  cbn [group_value]. rewrite Hv. split_and!; [|constructor; [apply Z.mod_pos_bound; lia|done]|done].
  pose proof (Z.div_mod n 128). lia.
Qed.

Lemma step_groups n : n > 127 -> uint_range 64 n -> u64 (Z.shiftr n 7 - 1) = n / 128 - 1.
Proof.
  unfold uint_range. intros. rewrite Z.shiftr_div_pow2 by lia. change (2 ^ 7) with 128.
  apply uwrap_id. unfold uint_range.
  pose proof (Z.div_le_mono 128 n 128 ltac:(lia) ltac:(lia)). rewrite Z_div_same in * by lia.
  pose proof (Z.div_le_upper_bound n 128 n ltac:(lia) ltac:(lia)). lia.
Qed.

Lemma step_range f n : n > 127 -> 0 <= n < 2 ^ (7 * Z.of_nat (S f)) -> 0 <= n / 128 - 1 < 2 ^ (7 * Z.of_nat f).
Proof.
  intros ? Hn. replace (7 * Z.of_nat (S f)) with (7 + 7 * Z.of_nat f) in Hn by lia.
  rewrite Z.pow_add_r in Hn by lia. change (2 ^ 7) with 128 in Hn.
  pose proof (Z.div_lt_upper_bound n 128 _ ltac:(lia) (proj2 Hn)).
  pose proof (Z.div_le_mono 128 n 128 ltac:(lia) ltac:(lia)). rewrite Z_div_same in * by lia. lia.
Qed.

Lemma div_range n : n > 127 -> uint_range 64 n -> uint_range 64 (n / 128 - 1).
Proof. intros. rewrite <- step_groups by done. by apply uwrap_range. Qed.

Lemma size_vlq_loop_ok f : forall n s, uint_range 64 n -> 0 <= n < 2 ^ (7 * Z.of_nat (S f)) ->
  size_vlq_loop f n s = Ok (s + Z.of_nat (length (groups (S f) n)) - 1).
Proof.
  induction f as [|f IH]; intros n s Hr Hn.
  { change (2 ^ (7 * Z.of_nat 1)) with 128 in Hn. simpl. rewrite !decide_False by lia.
    rewrite decide_True by lia. simpl. f_equal. lia. }
  cbn [size_vlq_loop]. case_decide.
  - rewrite step_groups by done. rewrite IH; [|by apply div_range|by apply step_range].
    f_equal. cbn [groups]. rewrite (decide_False (P := n <= 127)) by lia.
    cbn [length]. lia.
  - cbn [groups]. rewrite (decide_True (P := n <= 127)) by lia. f_equal. simpl. lia.
Qed.

Lemma byte_low n : 0 <= n -> u8 (Z.land n 0x7f) = n mod 128.
Proof.
  intros. change 0x7f with (2 ^ 7 - 1). rewrite land_ones_mod by lia. apply uwrap_id.
  unfold uint_range. change (2 ^ 7) with 128. pose proof (Z.mod_pos_bound n 128 ltac:(lia)). lia.
Qed.

Lemma byte_high x : 0 <= x < 128 -> Z.lor x 0x80 = x + 128.
Proof.
  intros. rewrite Z.lor_comm. change (Z.lor 0x80 x) with (Z.lor (Z.shiftl 1 7) x).
  rewrite (lor_shiftl_add 1 x 7) by lia. change (2 ^ 7) with 128. lia.
Qed.

(** The bytes written by the loop, in the order it writes them. *)
Definition raw (first : bool) (gs : list Z) : list Z :=
  match gs with
  | [] => []
  | g :: gs' => (if first then g else g + 128) :: ((fun x => x + 128) <$> gs')
  end.

Lemma put_vlq_loop_ok f : forall pre tail n,
  uint_range 64 n -> 0 <= n < 2 ^ (7 * Z.of_nat f) -> (0 < f)%nat ->
  (length (groups f n) <= length tail)%nat ->
  put_vlq_loop f (pre ++ tail) n (Z.of_nat (length pre)) =
    Ok (pre ++ raw (bool_decide (pre = [])) (groups f n) ++ drop (length (groups f n)) tail,
        Z.of_nat (length pre + length (groups f n)) - 1).
Proof.
  induction f as [|f IH]; intros pre tail n Hr Hn Hf Hlen; [lia|].
  cbn [put_vlq_loop]. destruct tail as [|t tail].
  { exfalso. simpl in Hlen. case_decide; simpl in Hlen; lia. }
  assert (Z.of_nat (length pre) = 0 <-> pre = []) as Hpre by (destruct pre; simpl; split; (done || lia)).
  rewrite slice_set_ok by (rewrite length_app; simpl; lia). rewrite outcome_bind_ok, Nat2Z.id.
  rewrite insert_app_r_alt, Nat.sub_diag by lia. cbn [insert list_insert].
  assert (Z.lor (u8 (Z.land n 127)) (if decide (Z.of_nat (length pre) = 0) then 0 else 128) =
    if bool_decide (pre = []) then n mod 128 else n mod 128 + 128) as ->.
  { rewrite byte_low by lia. destruct (decide (pre = [])) as [E|E].
    - rewrite (bool_decide_eq_true_2 _ E), decide_True by tauto. by rewrite Z.lor_0_r.
    - rewrite (bool_decide_eq_false_2 _ E), decide_False by tauto.
      apply byte_high, Z.mod_pos_bound. lia. }
  cbn [groups] in *. case_decide as Hsmall.
  - rewrite (Z.mod_small n) by lia. simpl. do 2 f_equal. lia.
  - destruct f as [|f]; [change (2 ^ (7 * Z.of_nat 1)) with 128 in Hn; lia|].
    rewrite step_groups by (done || lia). cbn [length] in Hlen.
    set (b := if bool_decide (pre = []) then _ else _).
    replace (pre ++ b :: tail) with ((pre ++ [b]) ++ tail) by by list_norm.
    replace (Z.of_nat (length pre) + 1) with (Z.of_nat (length (pre ++ [b]))) by (rewrite length_app; simpl; lia).
    rewrite IH; [|by apply div_range; (lia || done)|by apply step_range; (lia || done)|lia|lia].
    assert (bool_decide (pre ++ [b] = []) = false) as -> by (apply bool_decide_eq_false_2; by destruct pre).
    destruct (groups_value (S f) (n / 128 - 1)) as (_ & _ & Hne); [by apply step_range; (lia || done)|lia|].
    do 2 f_equal.
    + destruct (groups (S f) (n / 128 - 1)) as [|g gs]; [done|]. simpl. by list_norm.
    + rewrite length_app. cbn [length]. lia.
Qed.

Lemma reverse_loop_ok fuel : forall pre mid post i j,
  i = Z.of_nat (length pre) -> j = Z.of_nat (length pre + length mid) - 1 ->
  (length mid <= 2 * fuel + 1)%nat ->
  reverse_loop fuel (pre ++ mid ++ post) i j = Ok (pre ++ reverse mid ++ post).
Proof.
  induction fuel as [|fuel IH]; intros pre mid post i j -> -> Hlen; cbn [reverse_loop].
  { rewrite decide_False by lia. destruct mid as [|x [|y mid]]; simpl in *; [done..|lia]. }
  case_decide.
  2:{ destruct mid as [|x [|y mid]]; simpl in *; [done..|lia]. }
  destruct mid as [|x mid]; [simpl in *; lia|]. destruct mid as [|y mid _] using rev_ind; [simpl in *; lia|].
  assert (length (x :: mid ++ [y]) = S (S (length mid))) as El by (simpl; rewrite length_app; simpl; lia).
  rewrite El in *.
  rewrite (slice_get_ok _ (Z.of_nat (length pre)) x); [|lia|rewrite Nat2Z.id, lookup_app_r, Nat.sub_diag by lia; done].
  replace (Z.of_nat (length pre + S (S (length mid))) - 1) with (Z.of_nat (length pre + S (length mid))) by lia.
  rewrite (slice_get_ok _ _ y); [|lia|].
  2:{ rewrite Nat2Z.id, lookup_app_r by lia. replace (_ - length pre)%nat with (S (length mid)) by lia.
      simpl. rewrite <- app_assoc, lookup_app_r, Nat.sub_diag by lia. done. }
  rewrite !outcome_bind_ok, slice_set_ok by (rewrite length_app; simpl; rewrite !length_app; simpl; lia).
  rewrite outcome_bind_ok, Nat2Z.id, insert_app_r_alt, Nat.sub_diag by lia. simpl.
  rewrite slice_set_ok by (rewrite length_app; simpl; rewrite !length_app; simpl; lia).
  rewrite outcome_bind_ok, Nat2Z.id, insert_app_r_alt by lia.
  replace (_ - length pre)%nat with (S (length mid)) by lia. simpl.
  rewrite <- app_assoc, insert_app_r_alt, Nat.sub_diag by lia. simpl.
  replace (pre ++ y :: mid ++ x :: post) with ((pre ++ [y]) ++ mid ++ [x] ++ post) by by list_norm.
  rewrite IH; [|rewrite ?length_app; simpl; lia..]. f_equal.
  rewrite reverse_cons, reverse_app. by list_norm.
Qed.

Lemma raw_encode gs : reverse (raw true gs) = encode gs.
Proof. destruct gs; simpl; [done|]. by rewrite reverse_cons. Qed.

Lemma length_raw b gs : length (raw b gs) = length gs.
Proof. destruct gs; simpl; [done|]. by rewrite length_fmap. Qed.

Lemma length_groups f n : (length (groups f n) <= f)%nat.
Proof. revert n; induction f; intros n; simpl; [lia|]. case_decide; simpl; [lia|]. specialize (IHf (n / 128 - 1)). lia. Qed.

Lemma u64_groups n : uint_range 64 n -> 0 <= n < 2 ^ (7 * Z.of_nat vlq_fuel).
Proof. unfold uint_range. intros. change (2 ^ (7 * Z.of_nat vlq_fuel)) with (2 ^ 70). lia. Qed.

(** Only the eleventh iteration of the loops is out of reach. *)
Lemma put_vlq_loop_fuel f : forall target n offset r,
  put_vlq_loop f target n offset = Ok r -> put_vlq_loop (S f) target n offset = Ok r.
Proof.
  induction f as [|f IH]; intros target n offset r; [done|].
  cbn [put_vlq_loop]. destruct (slice_set _ _ _) as [t| |]; [|done..]. rewrite !outcome_bind_ok.
  case_decide; [done|]. apply IH.
Qed.

Lemma size_vlq_loop_fuel f : forall n s r, size_vlq_loop f n s = Ok r -> size_vlq_loop (S f) n s = Ok r.
Proof.
  induction f as [|f IH]; intros n s r; cbn [size_vlq_loop]; case_decide; try done.
  apply IH.
Qed.

Lemma SerializeSizeVLQ_ok n : uint_range 64 n -> SerializeSizeVLQ n = Ok (Z.of_nat (length (vlq n))).
Proof.
  intros Hn. apply size_vlq_loop_fuel. rewrite size_vlq_loop_ok by (done || by apply u64_groups).
  f_equal. unfold vlq, encode. change vlq_fuel with 10%nat.
  destruct (groups_value 10 n (u64_groups n Hn) ltac:(lia)) as (_ & _ & Hne).
  destruct (groups 10 n) as [|g gs]; [done|]. cbn [length].
  rewrite length_app, length_reverse, length_fmap. simpl. lia.
Qed.

Lemma PutVLQ_ok target n : uint_range 64 n -> (length (vlq n) <= length target)%nat ->
  PutVLQ target n = Ok (vlq n ++ drop (length (vlq n)) target, Z.of_nat (length (vlq n))).
Proof.
  intros Hn Hlen. unfold PutVLQ.
  destruct (groups_value vlq_fuel n (u64_groups n Hn) ltac:(unfold vlq_fuel; lia)) as (_ & _ & Hne).
  assert (length (vlq n) = length (groups vlq_fuel n)) as El.
  { unfold vlq, encode. destruct (groups vlq_fuel n); [done|]. rewrite length_app, length_reverse, length_fmap. simpl. lia. }
  rewrite El in *.
  pose proof (put_vlq_loop_ok vlq_fuel [] target n Hn (u64_groups n Hn) ltac:(unfold vlq_fuel; lia) Hlen) as Hp.
  rewrite !app_nil_l in Hp. change (Z.of_nat (length (@nil Z))) with 0 in Hp. cbn [length Nat.add] in Hp.
  rewrite bool_decide_eq_true_2 in Hp by done.
  rewrite (put_vlq_loop_fuel _ _ _ _ _ Hp), outcome_bind_ok.
  rewrite (reverse_loop_ok vlq_fuel [] (raw true (groups vlq_fuel n)) (drop (length (groups vlq_fuel n)) target)).
  - rewrite outcome_bind_ok, raw_encode. rewrite app_nil_l. do 2 f_equal. lia.
  - done.
  - rewrite length_raw. cbn [length Nat.add]. lia.
  - rewrite length_raw. pose proof (length_groups vlq_fuel n). unfold vlq_fuel in *. lia.
Qed.

(** ** Decoding *)

Lemma land_high val : 0 <= val < 256 -> Z.land val 0x80 = if decide (128 <= val) then 0x80 else 0.
Proof.
  intros. change (Z.land val 0x80) with (Z.land val (2 ^ 7)). rewrite Z.land_comm.
  apply Z.bits_inj'. intros i Hi. rewrite Z.land_spec, Z.pow2_bits_eqb by lia.
  destruct (Z.eqb_spec 7 i) as [<-|Hne]; cbn [andb].
  - destruct (Z.testbit val 7) eqn:Ht.
    + apply Z.testbit_true in Ht; [|lia]. change (2 ^ 7) with 128 in Ht.
      rewrite decide_True; [done|]. destruct (decide (128 <= val)); [done|].
      by rewrite Z.div_small in Ht by lia.
    + rewrite decide_False; [done|]. intros ?. apply Z.testbit_false in Ht; [|lia].
      change (2 ^ 7) with 128 in Ht.
      by replace (val / 128) with 1 in Ht by (apply Z.div_unique with (val - 128); lia).
  - case_decide; [|by rewrite Z.bits_0]. change 128 with (2 ^ 7).
    rewrite Z.pow2_bits_eqb by lia. by destruct (Z.eqb_spec 7 i).
Qed.

Lemma land_low val : Z.land val 0x7f = val mod 128.
Proof. change 0x7f with (2 ^ 7 - 1). by rewrite land_ones_mod. Qed.

(** One byte of the decoder, when it does not overflow. *)
Lemma des_step n val : 0 <= n -> n * 128 + val mod 128 < 2 ^ 64 ->
  Z.lor (u64 (Z.shiftl n 7)) (Z.land val 0x7f) = n * 128 + val mod 128.
Proof.
  intros Hn Hb. pose proof (Z.mod_pos_bound val 128 ltac:(lia)).
  rewrite land_low, uwrap_id; [by rewrite (lor_shiftl_add n _ 7)|].
  rewrite Z.shiftl_mul_pow2 by lia. unfold uint_range. change (2 ^ 7) with 128. lia.
Qed.

(** A terminated list of bytes: the high bit is set in all but the last. *)
Definition terminated (bs : list Z) (last : Z) : Prop :=
  Forall (fun b => 128 <= b < 256) bs /\ 0 <= last < 128.

(** The value of the groups, as the decoder accumulates it. *)
Definition dec_value (bs : list Z) (n : Z) : Z := foldl (fun n b => n * 128 + (b - 128) + 1) n bs.

Lemma dec_value_mono bs : forall n, 0 <= n -> Forall (fun b => 128 <= b < 256) bs -> n <= dec_value bs n.
Proof.
  induction bs as [|b bs IH]; intros n Hn Hf; simpl; [lia|]. apply Forall_cons in Hf as [? ?].
  etransitivity; [|apply IH; [lia|done]]. lia.
Qed.

Lemma des_vlq_loop_ok bs last rest : terminated bs last -> forall n size,
  0 <= n -> dec_value bs n * 128 + last < 2 ^ 64 ->
  des_vlq_loop (bs ++ last :: rest) n size =
    (dec_value bs n * 128 + last, size + Z.of_nat (length bs) + 1).
Proof.
  intros [Hbs Hlast]. induction bs as [|b bs IH]; intros n size Hn Hv; simpl.
  - rewrite des_step by (rewrite ?Z.mod_small by lia; simpl in *; lia).
    rewrite (Z.mod_small last) by lia. rewrite land_high by lia.
    rewrite (decide_False (P := 128 <= last)) by lia. rewrite decide_True by lia. f_equal; simpl; lia.
  - apply Forall_cons in Hbs as [Hb Hbs]. specialize (IH Hbs).
    assert (b mod 128 = b - 128) as Eb by (symmetry; apply Z.mod_unique with 1; lia).
    pose proof (dec_value_mono bs (n * 128 + (b - 128) + 1) ltac:(lia) Hbs) as Hm. simpl in Hv.
    rewrite des_step by lia. rewrite land_high, Eb by lia.
    rewrite (decide_True (P := 128 <= b)) by lia. rewrite decide_False by tauto.
    rewrite uwrap_id by (unfold uint_range; lia). rewrite IH by lia. f_equal. lia.
Qed.

Lemma dec_value_snoc bs b n : dec_value (bs ++ [b]) n = dec_value bs n * 128 + (b - 128) + 1.
Proof. unfold dec_value. by rewrite foldl_app. Qed.

(** Decoding the groups gives their value. *)
Lemma dec_value_groups gs : dec_value (reverse ((fun x => x + 128) <$> gs)) 0 = group_value gs + 1.
Proof.
  induction gs as [|g gs IH]; [done|]. cbn [fmap list_fmap group_value].
  rewrite reverse_cons, dec_value_snoc, IH. lia.
Qed.

Lemma vlq_decodes n rest : uint_range 64 n ->
  DeserializeVLQ (vlq n ++ rest) = (n, Z.of_nat (length (vlq n))).
Proof.
  intros Hn. destruct (groups_value vlq_fuel n (u64_groups n Hn) ltac:(unfold vlq_fuel; lia)) as (Hv & Hg & Hne).
  unfold vlq, DeserializeVLQ. destruct (groups vlq_fuel n) as [|g gs]; [done|]. cbn [encode].
  apply Forall_cons in Hg as [Hg Hgs]. cbn [group_value] in Hv.
  rewrite <- app_assoc. cbn [app].
  rewrite des_vlq_loop_ok; [rewrite dec_value_groups|split|lia|rewrite dec_value_groups; unfold uint_range in *; lia].
  - f_equal; [done|]. rewrite length_app, length_reverse, length_fmap. simpl. lia.
  - rewrite Forall_reverse, Forall_fmap. eapply Forall_impl; [exact Hgs|]. simpl. lia.
  - done.
Qed.

Lemma groups_of_value f : forall gs, gs <> [] -> Forall (fun g => 0 <= g < 128) gs -> (length gs <= f)%nat ->
  groups f (group_value gs) = gs /\ 0 <= group_value gs.
Proof.
  induction f as [|f IH]; intros [|g gs] Hne Hgs Hf; try done; [simpl in Hf; lia|].
  apply Forall_cons in Hgs as [Hg Hgs]. cbn [group_value groups].
  destruct gs as [|g' gs].
  - cbn [group_value]. rewrite decide_True by lia. split; [f_equal; lia|lia].
  - destruct (IH (g' :: gs)) as [Hgr Hv]; [done|done|simpl in *; lia|].
    set (v := group_value (g' :: gs)) in *. rewrite decide_False by lia. split; [|lia].
    replace (((v + 1) * 128 + g) mod 128) with g by (apply Z.mod_unique with (v + 1); lia).
    replace (((v + 1) * 128 + g) / 128) with (v + 1) by (apply Z.div_unique with g; lia).
    replace (v + 1 - 1) with v by lia. by rewrite Hgr.
Qed.

Lemma group_value_bound gs : Forall (fun g => 0 <= g < 128) gs ->
  group_value gs + 1 <= 2 * 2 ^ (7 * Z.of_nat (length gs)) - 2.
Proof.
  induction gs as [|g gs IH]; intros Hf; cbn [group_value length]; [lia|].
  apply Forall_cons in Hf as [? ?]. specialize (IH ltac:(done)).
  replace (7 * Z.of_nat (S (length gs))) with (7 + 7 * Z.of_nat (length gs)) by lia.
  rewrite Z.pow_add_r by lia. change (2 ^ 7) with 128. lia.
Qed.

(** The groups of a terminated list of bytes. *)
Definition ungroup (bs : list Z) (last : Z) : list Z := last :: reverse ((fun b => b - 128) <$> bs).

Lemma encode_ungroup bs last : encode (ungroup bs last) = bs ++ [last].
Proof.
  unfold encode, ungroup. rewrite fmap_reverse, reverse_involutive, <- list_fmap_compose.
  f_equal. rewrite <- (list_fmap_id bs) at 2. apply list_fmap_ext. intros ? x _. simpl. lia.
Qed.

Lemma put_vlq_loop_panics f : forall pre tail n,
  uint_range 64 n -> 0 <= n < 2 ^ (7 * Z.of_nat f) -> (0 < f)%nat ->
  (length tail < length (groups f n))%nat ->
  put_vlq_loop f (pre ++ tail) n (Z.of_nat (length pre)) = Panic.
Proof.
  induction f as [|f IH]; intros pre tail n Hr Hn Hf Hlen; [lia|].
  cbn [put_vlq_loop groups] in *. unfold slice_set. destruct tail as [|t tail].
  { rewrite app_nil_r. rewrite (decide_False (P := 0 <= _ < _)) by lia. done. }
  rewrite (decide_True (P := 0 <= _ < _)) by (rewrite length_app; simpl; lia).
  rewrite outcome_bind_ok. case_decide; [simpl in Hlen; lia|].
  destruct f as [|f]; [change (2 ^ (7 * Z.of_nat 1)) with 128 in Hn; lia|].
  rewrite step_groups by (done || lia). rewrite Nat2Z.id, insert_app_r_alt, Nat.sub_diag by lia.
  cbn [insert list_insert]. set (b := Z.lor _ _).
  replace (pre ++ b :: tail) with ((pre ++ [b]) ++ tail) by by list_norm.
  replace (Z.of_nat (length pre) + 1) with (Z.of_nat (length (pre ++ [b]))) by (rewrite length_app; simpl; lia).
  cbn [length] in Hlen.
  apply IH; [by apply div_range; (lia || done)|by apply step_range; (lia || done)|lia|].
  apply Nat.succ_lt_mono. exact Hlen.
Qed.

Lemma put_vlq_loop_fuel_panic f : forall target n offset,
  put_vlq_loop f target n offset = Panic -> put_vlq_loop (S f) target n offset = Panic.
Proof.
  induction f as [|f IH]; intros target n offset; [done|].
  cbn [put_vlq_loop]. destruct (slice_set _ _ _) as [t| |]; [|done..]. rewrite !outcome_bind_ok.
  case_decide; [done|]. apply IH.
Qed.

Lemma length_vlq n : uint_range 64 n -> (1 <= length (vlq n) <= 10)%nat /\ length (vlq n) = length (groups vlq_fuel n).
Proof.
  intros Hn. destruct (groups_value vlq_fuel n (u64_groups n Hn) ltac:(unfold vlq_fuel; lia)) as (_ & _ & Hne).
  pose proof (length_groups vlq_fuel n) as Hl. unfold vlq, encode, vlq_fuel in *.
  destruct (groups 10 n); [done|]. rewrite length_app, length_reverse, length_fmap. cbn [length] in *. lia.
Qed.

(** ** The theorems *)

(** Encoding any uint64 and decoding the bytes gives it back.  [PutVLQ] writes
    exactly [SerializeSizeVLQ] bytes, at most ten, at the start of the target and
    leaves the rest of it alone; on a shorter target it panics. *)
Theorem vlq_roundtrip (target : list Z) (n : Z) (Hn : uint_range 64 n) :
  exists k, SerializeSizeVLQ n = Ok (Z.of_nat k) /\ (1 <= k <= 10)%nat /\
    if decide (k <= length target)%nat then
      exists target', PutVLQ target n = Ok (target', Z.of_nat k) /\
        DeserializeVLQ target' = (n, Z.of_nat k) /\
        length target' = length target /\ drop k target' = drop k target
    else PutVLQ target n = Panic.
Proof.
  exists (length (vlq n)). split; [by apply SerializeSizeVLQ_ok|].
  pose proof (length_vlq n Hn) as [Hb El]. split; [done|]. case_decide as Hlen.
  - rewrite PutVLQ_ok by done. eexists. split; [done|]. split; [by apply vlq_decodes|].
    rewrite length_app, length_drop, drop_app_length. split; [lia|done].
  - unfold PutVLQ. rewrite El in Hlen.
    pose proof (put_vlq_loop_panics vlq_fuel [] target n Hn (u64_groups n Hn) ltac:(unfold vlq_fuel; lia)
      ltac:(lia)) as Hp.
    rewrite app_nil_l in Hp. change (Z.of_nat (length (@nil Z))) with 0 in Hp.
    by rewrite (put_vlq_loop_fuel_panic _ _ _ _ Hp).
Qed.

Lemma vlq_roundtrip_witness :
  uint_range 64 16512 /\
  exists target', PutVLQ [7; 7; 7; 7] 16512 = Ok (target', 3) /\ DeserializeVLQ target' = (16512, 3).
Proof.
  split; [unfold uint_range; lia|].
  destruct (vlq_roundtrip [7; 7; 7; 7] 16512) as (k & Hs & _ & Hk); [unfold uint_range; lia|].
  change (Ok 3 = Ok (Z.of_nat k)) in Hs. injection Hs as Hs. assert (k = 3%nat) as -> by lia.
  rewrite decide_True in Hk by (simpl; lia). destruct Hk as (t & ? & ? & _). by exists t.
Defined.

(** There are no redundant encodings.  Every terminated byte sequence of at
    most nine bytes is the encoding of the number it decodes to. *)
Theorem vlq_unique (bs : list Z) (last : Z) (Hterm : terminated bs last) (Hlen : (length bs <= 8)%nat) :
  exists n, DeserializeVLQ (bs ++ [last]) = (n, Z.of_nat (length bs + 1)) /\ uint_range 64 n /\
    PutVLQ (replicate (length bs + 1) 0) n = Ok (bs ++ [last], Z.of_nat (length bs + 1)).
Proof.
  destruct Hterm as [Hbs Hlast]. set (gs := ungroup bs last).
  assert (length gs = S (length bs)) as Hlg by (unfold gs, ungroup; simpl; by rewrite length_reverse, length_fmap).
  assert (Forall (fun g => 0 <= g < 128) gs) as Hgs.
  { constructor; [done|]. rewrite Forall_reverse, Forall_fmap. eapply Forall_impl; [exact Hbs|]. simpl. lia. }
  destruct (groups_of_value vlq_fuel gs) as [Hg Hv]; [done|done|unfold vlq_fuel; lia|].
  assert (uint_range 64 (group_value gs)) as Hr.
  { split; [done|]. pose proof (group_value_bound gs Hgs) as Hb. rewrite Hlg in Hb.
    assert (2 ^ (7 * Z.of_nat (S (length bs))) <= 2 ^ 63) by (apply Z.pow_le_mono_r; lia). lia. }
  assert (vlq (group_value gs) = bs ++ [last]) as Hvlq.
  { unfold vlq. rewrite Hg. apply encode_ungroup. }
  assert (length (bs ++ [last]) = length bs + 1)%nat as Hl by (rewrite length_app; simpl; lia).
  exists (group_value gs). split; [|split; [done|]].
  - rewrite <- Hl, <- Hvlq. rewrite <- (app_nil_r (vlq _)) at 1. by apply vlq_decodes.
  - rewrite PutVLQ_ok; rewrite ?Hvlq, ?Hl, ?length_replicate; [|done|lia].
    rewrite drop_ge, app_nil_r by (rewrite length_replicate; lia). done.
Qed.

Lemma vlq_unique_witness :
  terminated [0x80; 0xff] 0x7f /\ PutVLQ [0; 0; 0] 32895 = Ok ([0x80; 0xff; 0x7f], 3).
Proof.
  assert (terminated [0x80; 0xff] 0x7f) as Ht by (split; [repeat constructor; lia|lia]).
  split; [done|]. destruct (vlq_unique [0x80; 0xff] 0x7f Ht) as (n & Hd & _ & Hp); [simpl; lia|].
  vm_compute in Hd. injection Hd as <-. exact Hp.
Defined.

(** ** Amounts *)

Lemma exponent_loop_ok f : forall a e, 0 < a -> 0 <= e -> Z.of_nat f = 9 - e ->
  exists a' e', exponent_loop f a e = Ok (a', e') /\ a = a' * 10 ^ (e' - e) /\ 0 < a' /\
    e <= e' <= 9 /\ (e' < 9 -> a' mod 10 <> 0).
Proof.
  induction f as [|f IH]; intros a e Ha He Hf; cbn [exponent_loop].
  { rewrite decide_False by lia. exists a, e. replace (e - e) with 0 by lia. split_and!; (done || lia). }
  case_decide as Hd.
  - destruct Hd as [Hm He9]. assert (a = a / 10 * 10) as Ea by (pose proof (Z.div_mod a 10); lia).
    destruct (IH (a / 10) (e + 1)) as (a' & e' & -> & Ha' & ? & ? & ?); [lia..|].
    exists a', e'. split_and!; try done; try lia. rewrite Ea, Ha'.
    replace (e' - e) with (1 + (e' - (e + 1))) by lia. rewrite Z.pow_add_r by lia. lia.
  - exists a, e. replace (e - e) with 0 by lia. split_and!; try done; lia.
Qed.

Lemma scale_loop_ok e : forall n, 0 <= n -> n * 10 ^ Z.of_nat e < 2 ^ 64 -> scale_loop e n = n * 10 ^ Z.of_nat e.
Proof.
  induction e as [|e IH]; intros n Hn Hb; simpl scale_loop; [change (10 ^ Z.of_nat 0) with 1; lia|].
  replace (Z.of_nat (S e)) with (1 + Z.of_nat e) in * by lia. rewrite Z.pow_add_r in * by lia.
  change (10 ^ 1) with 10 in *. pose proof (Z.pow_pos_nonneg 10 (Z.of_nat e)).
  rewrite uwrap_id by (unfold uint_range; nia). rewrite IH by nia. lia.
Qed.

(** Decompressing a compressed amount gives it back, for every amount whose
    compressed value fits in 64 bits (far above the number of coins in existence);
    the compression itself always terminates. *)
Theorem amount_roundtrip (amount : Z) (Hnn : 0 <= amount) (Hfit : 9 * amount + 10 < 2 ^ 64) :
  exists c, CompressTxOutAmount amount = Ok c /\ uint_range 64 c /\ DecompressTxOutAmount c = amount.
Proof.
  unfold CompressTxOutAmount. case_decide as Hz; [subst; exists 0; by split_and!|].
  destruct (exponent_loop_ok 9 amount 0) as (a & e & Hrun & Ha & Hpos & He & Hd); [lia..|].
  rewrite Hrun, outcome_bind_ok. replace (e - 0) with e in Ha by lia.
  pose proof (Z.pow_pos_nonneg 10 e). assert (a <= amount) by nia.
  assert (forall n, 0 <= n -> n < 2 ^ 64 -> uint_range 64 n) as Hr by done.
  case_decide as He9.
  - set (d := a mod 10) in *. set (q := a / 10).
    assert (0 < d < 10) by (pose proof (Z.mod_pos_bound a 10); lia).
    assert (a = 10 * q + d) as Eq by (apply Z.div_mod; lia).
    assert (0 <= q) by (apply Z.div_pos; lia).
    rewrite (uwrap_id 64 (9 * q)), (uwrap_id 64 (9 * q + d)), (uwrap_id 64 (9 * q + d - 1)),
      (uwrap_id 64 (10 * (9 * q + d - 1))), (uwrap_id 64 (1 + _)), (uwrap_id 64 (1 + _ + e)) by (apply Hr; lia).
    eexists. split; [done|]. split; [apply Hr; lia|].
    unfold DecompressTxOutAmount. rewrite decide_False by lia. rewrite uwrap_id by (apply Hr; lia).
    set (x := 1 + 10 * (9 * q + d - 1) + e - 1).
    assert (x / 10 = 9 * q + d - 1) as -> by (symmetry; apply Z.div_unique with e; lia).
    assert (x mod 10 = e) as -> by (symmetry; apply Z.mod_unique with (9 * q + d - 1); lia).
    rewrite decide_True by done.
    replace ((9 * q + d - 1) / 9) with q by (apply Z.div_unique with (d - 1); lia).
    replace ((9 * q + d - 1) mod 9) with (d - 1) by (apply Z.mod_unique with q; lia).
    rewrite (uwrap_id 64 (q * 10)), uwrap_id by (apply Hr; lia).
    rewrite scale_loop_ok; rewrite ?Z2Nat.id by lia; replace (q * 10 + (d - 1 + 1)) with a by lia; lia.
  - assert (e = 9) as -> by lia.
    rewrite (uwrap_id 64 (a - 1)), (uwrap_id 64 (10 * _)), (uwrap_id 64 (10 + _)) by (apply Hr; lia).
    eexists. split; [done|]. split; [apply Hr; lia|].
    unfold DecompressTxOutAmount. rewrite decide_False by lia. rewrite uwrap_id by (apply Hr; lia).
    set (x := 10 + 10 * (a - 1) - 1).
    assert (x / 10 = a - 1) as -> by (symmetry; apply Z.div_unique with 9; lia).
    assert (x mod 10 = 9) as -> by (symmetry; apply Z.mod_unique with (a - 1); lia).
    rewrite decide_False by lia. rewrite uwrap_id by (apply Hr; lia).
    rewrite scale_loop_ok; rewrite ?Z2Nat.id by lia; replace (a - 1 + 1) with a by lia; lia.
Qed.

Lemma amount_roundtrip_witness :
  CompressTxOutAmount 12345678 = Ok 111111101 /\ DecompressTxOutAmount 111111101 = 12345678.
Proof.
  destruct (amount_roundtrip 12345678) as (c & Hc & _ & Hd); [lia..|].
  vm_compute in Hc. injection Hc as <-. by split.
Defined.
