(* ===== verification/Difficulty.v ===== *)
(** * Compact targets and proof of work

    Models [btcd/blockchain/difficulty.go]; [omega/minerchain/difficulty.go]
    repeats the same four functions.  Big integers are [Z]. *)
From stdpp Require Import gmap list.
From Stdlib Require Import ZArith Lia.
From S2P Require Import Prelude.

Open Scope Z_scope.

Definition oneLsh256 : Z := Z.shiftl 1 256.

(** [new(big.Int).SetBytes(buf)]: the bytes are big-endian. *)
Definition SetBytes (buf : list Z) : Z := foldl (fun n b => n * 256 + b) 0 buf.

(** [for i := 0; i < blen/2; i++ { buf[i], buf[blen-1-i] = buf[blen-1-i], buf[i] }] *)
Fixpoint swap_loop (n : nat) (buf : list Z) (i : Z) : outcome (list Z) :=
  match n with
  | O => Ok buf
  | S n =>
      let blen := Z.of_nat (length buf) in
      x ← slice_get buf (blen - 1 - i);
      y ← slice_get buf i;
      buf ← slice_set buf i x;
      buf ← slice_set buf (blen - 1 - i) y;
      swap_loop n buf (i + 1)
  end.

Definition HashToBig (hash : list Z) : outcome Z :=
  buf ← swap_loop (length hash / 2) hash 0;
  Ok (SetBytes buf).

Definition CompactToBig (compact : Z) : Z :=
  let mantissa := Z.land compact 0x007fffff in
  let isNegative := bool_decide (Z.land compact 0x00800000 <> 0) in
  let exponent := Z.shiftr compact 24 in
  let bn :=
    if decide (exponent <= 3) then Z.shiftr mantissa (8 * (3 - exponent))
    else Z.shiftl mantissa (8 * (exponent - 3)) in
  if isNegative then - bn else bn.

(** [len(n.Bytes())]: the bytes of the absolute value. *)
Definition byte_len (n : Z) : Z := if decide (n = 0) then 0 else Z.log2 (Z.abs n) / 8 + 1.

(** [n.Bits()[0]]: the low word of the absolute value; the slice of zero is empty. *)
Definition low_word (n : Z) : outcome Z := if decide (n = 0) then Panic else Ok (u64 (Z.abs n)).

Definition BigToCompact (n : Z) : outcome Z :=
  if decide (n = 0) then Ok 0
  else
    let exponent := byte_len n in
    mantissa ←
      (if decide (exponent <= 3) then
         w ← low_word n;
         Ok (u32 (Z.shiftl (u32 w) (8 * (3 - exponent))))
       else
         w ← low_word (Z.shiftr n (8 * (exponent - 3)));
         Ok (u32 w));
    let '(mantissa, exponent) :=
      if decide (Z.land mantissa 0x00800000 <> 0)
      then (Z.shiftr mantissa 8, exponent + 1) else (mantissa, exponent) in
    let compact := Z.lor (u32 (Z.shiftl exponent 24)) mantissa in
    Ok (if decide (n < 0) then Z.lor compact 0x00800000 else compact).

Definition CalcWork (bits : Z) : Z :=
  let difficultyNum := CompactToBig bits in
  if decide (difficultyNum <= 0) then 0 else oneLsh256 / (difficultyNum + 1).

(** The last step of a retarget ([calcNextRequiredDifficulty] of
    [omega/minerchain/difficulty.go], from the normalized time span on): the
    time span is clamped and the target scaled, up to the limit of the chain. *)
Definition retarget (minRetargetTimespan maxRetargetTimespan targetTimeSpan powLimit powLimitBits
    lastBits normalizedTimespan : Z) : outcome Z :=
  let adjustedTimespan :=
    if decide (normalizedTimespan < minRetargetTimespan) then minRetargetTimespan
    else if decide (normalizedTimespan > maxRetargetTimespan) then maxRetargetTimespan
    else normalizedTimespan in
  let oldTarget := CompactToBig lastBits in
  let newTarget := oldTarget * adjustedTimespan / targetTimeSpan in
  if decide (newTarget <= powLimit) then BigToCompact newTarget else Ok powLimitBits.

(** ** Hashes *)

Lemma SetBytes_snoc l b : SetBytes (l ++ [b]) = SetBytes l * 256 + b.
Proof. unfold SetBytes. by rewrite foldl_app. Qed.

Lemma SetBytes_reverse l : SetBytes (reverse l) = le_value l.
Proof.
  induction l as [|b l IH]; [done|]. rewrite reverse_cons, SetBytes_snoc, IH. simpl. lia.
Qed.

Lemma swap_loop_ok n : forall pre mid post,
  length pre = length post -> (length mid / 2 = n)%nat ->
  swap_loop n (pre ++ mid ++ post) (Z.of_nat (length pre)) = Ok (pre ++ reverse mid ++ post).
Proof.
  induction n as [|n IH]; intros pre mid post Hpp Hn; cbn [swap_loop].
  { destruct mid as [|x [|y mid]]; [done..|]. cbn [length] in Hn.
    apply Nat.div_small_iff in Hn; simpl in *; lia. }
  destruct mid as [|x mid]; [done|]. destruct mid as [|y mid _] using rev_ind; [done|].
  assert (length (x :: mid ++ [y]) = 2 + length mid)%nat as El by (simpl; rewrite length_app; simpl; lia).
  rewrite El in Hn. replace (2 + length mid)%nat with (length mid + 1 * 2)%nat in Hn by lia.
  rewrite Nat.div_add in Hn by lia.
  assert (Z.of_nat (length (pre ++ (x :: mid ++ [y]) ++ post)) - 1 - Z.of_nat (length pre) =
    Z.of_nat (length pre + S (length mid))) as ->.
  { rewrite !length_app, El. lia. }
  rewrite (slice_get_ok _ (Z.of_nat (length pre + S (length mid))) y); [|lia|].
  2:{ rewrite Nat2Z.id, lookup_app_r by lia. replace (_ - length pre)%nat with (S (length mid)) by lia.
      simpl. rewrite <- app_assoc, lookup_app_r, Nat.sub_diag by lia. done. }
  rewrite (slice_get_ok _ (Z.of_nat (length pre)) x); [|lia|rewrite Nat2Z.id, lookup_app_r, Nat.sub_diag by lia; done].
  rewrite !outcome_bind_ok, slice_set_ok by (rewrite !length_app, El; lia).
  rewrite outcome_bind_ok, Nat2Z.id, insert_app_r_alt, Nat.sub_diag by lia. simpl.
  rewrite slice_set_ok by (rewrite length_app; simpl; rewrite !length_app; simpl; lia).
  rewrite outcome_bind_ok, Nat2Z.id, insert_app_r_alt by lia.
  replace (_ - length pre)%nat with (S (length mid)) by lia. simpl.
  rewrite <- app_assoc, insert_app_r_alt, Nat.sub_diag by lia. simpl.
  replace (pre ++ y :: mid ++ x :: post) with ((pre ++ [y]) ++ mid ++ x :: post) by by list_norm.
  replace (Z.of_nat (length pre) + 1) with (Z.of_nat (length (pre ++ [y]))) by (rewrite length_app; simpl; lia).
  rewrite IH; [|rewrite length_app; simpl; lia|lia].
  f_equal. rewrite reverse_cons, reverse_app. by list_norm.
Qed.

Lemma HashToBig_ok hash : HashToBig hash = Ok (le_value hash).
Proof.
  unfold HashToBig.
  pose proof (swap_loop_ok (length hash / 2) [] hash [] eq_refl eq_refl) as Hs.
  rewrite app_nil_r in Hs. cbn [app length] in Hs. change (Z.of_nat 0) with 0 in Hs. rewrite Hs, app_nil_r. simpl.
  by rewrite SetBytes_reverse.
Qed.

(** ** The fields of a compact number *)

Lemma land_bit23 m : 0 <= m < 2 ^ 24 -> Z.land m 0x00800000 <> 0 <-> 2 ^ 23 <= m.
Proof.
  intros Hm. change 0x00800000 with (2 ^ 23).
  assert (Z.testbit m 23 = true <-> 2 ^ 23 <= m) as Ht.
  { rewrite Z.testbit_true by lia. destruct (decide (2 ^ 23 <= m)).
    - replace (m / 2 ^ 23) with 1 by (apply Z.div_unique with (m - 2 ^ 23); lia). by split.
    - rewrite Z.div_small by lia. split; [done|lia]. }
  rewrite <- Ht. destruct (Z.testbit m 23) eqn:E; split; try done.
  - intros _ Hz. apply (f_equal (fun z => Z.testbit z 23)) in Hz.
    rewrite Z.land_spec, E, Z.pow2_bits_true, Z.bits_0 in Hz by lia. done.
  - intros Hz. exfalso. apply Hz, Z.bits_inj'. intros i Hi. rewrite Z.land_spec, Z.pow2_bits_eqb, Z.bits_0 by lia.
    destruct (Z.eqb_spec 23 i) as [<-|]; [by rewrite E|apply andb_false_r].
Qed.

(** [e * 2^24 + m] with the sign bit of [m] clear. *)
Definition pack (e m : Z) : Z := e * 2 ^ 24 + m.

Lemma land_mod_low x k : 0 <= k -> Z.land x (2 ^ k) = Z.land (x mod 2 ^ (k + 1)) (2 ^ k).
Proof.
  intros. apply Z.bits_inj'. intros i Hi. rewrite !Z.land_spec, Z.pow2_bits_eqb by lia.
  destruct (Z.eqb_spec k i) as [<-|]; [|by rewrite !andb_false_r].
  by rewrite Z.mod_pow2_bits_low by lia.
Qed.

Lemma CompactToBig_pack e m : 0 <= e -> 0 <= m < 2 ^ 23 ->
  CompactToBig (pack e m) =
    if decide (e <= 3) then m / 2 ^ (8 * (3 - e)) else m * 2 ^ (8 * (e - 3)).
Proof.
  intros He Hm. unfold CompactToBig, pack.
  change 0x007fffff with (2 ^ 23 - 1). rewrite land_ones_mod by lia.
  assert ((e * 2 ^ 24 + m) mod 2 ^ 23 = m) as ->.
  { symmetry. apply Z.mod_unique with (2 * e); lia. }
  assert (Z.shiftr (e * 2 ^ 24 + m) 24 = e) as ->.
  { rewrite Z.shiftr_div_pow2 by lia. symmetry. apply Z.div_unique with m; lia. }
  rewrite bool_decide_eq_false_2.
  - case_decide; [apply Z.shiftr_div_pow2|apply Z.shiftl_mul_pow2]; lia.
  - change 0x00800000 with (2 ^ 23). rewrite land_mod_low by lia.
    replace ((e * 2 ^ 24 + m) mod 2 ^ (23 + 1)) with m by (apply Z.mod_unique with e; lia).
    rewrite land_bit23 by lia. lia.
Qed.

Lemma byte_len_ok n : 0 < n -> 1 <= byte_len n /\ 2 ^ (8 * (byte_len n - 1)) <= n < 2 ^ (8 * byte_len n).
Proof.
  intros Hn. unfold byte_len. rewrite decide_False by lia. rewrite Z.abs_eq by lia.
  pose proof (Z.log2_spec n Hn) as [Hl Hu]. pose proof (Z.log2_nonneg n).
  pose proof (Z.div_mod (Z.log2 n) 8 ltac:(lia)). pose proof (Z.mod_pos_bound (Z.log2 n) 8 ltac:(lia)).
  set (q := Z.log2 n / 8) in *. split_and!; [lia| |].
  - etransitivity; [|exact Hl]. apply Z.pow_le_mono_r; lia.
  - eapply Z.lt_le_trans; [exact Hu|]. apply Z.pow_le_mono_r; lia.
Qed.

(** The three leading bytes of a number, before the sign bit is cleared. *)
Definition leading (n : Z) : Z :=
  let e := byte_len n in
  if decide (e <= 3) then n * 2 ^ (8 * (3 - e)) else n / 2 ^ (8 * (e - 3)).

Lemma leading_range n : 0 < n -> 2 ^ 16 <= leading n < 2 ^ 24.
Proof.
  intros Hn. destruct (byte_len_ok n Hn) as (He & Hl & Hu). unfold leading. set (e := byte_len n) in *.
  case_decide.
  - pose proof (Z.pow_pos_nonneg 2 (8 * (3 - e)) ltac:(lia) ltac:(lia)).
    replace (2 ^ 16) with (2 ^ (8 * (e - 1)) * 2 ^ (8 * (3 - e))) by (rewrite <- Z.pow_add_r by lia; f_equal; lia).
    replace (2 ^ 24) with (2 ^ (8 * e) * 2 ^ (8 * (3 - e))) by (rewrite <- Z.pow_add_r by lia; f_equal; lia).
    nia.
  - pose proof (Z.pow_pos_nonneg 2 (8 * (e - 3)) ltac:(lia) ltac:(lia)). split.
    + apply Z.div_le_lower_bound; [done|]. rewrite <- Z.pow_add_r by lia.
      replace (8 * (e - 3) + 16) with (8 * (e - 1)) by lia. done.
    + apply Z.div_lt_upper_bound; [done|]. rewrite <- Z.pow_add_r by lia.
      replace (8 * (e - 3) + 24) with (8 * e) by lia. done.
Qed.

(** The mantissa and the exponent that [BigToCompact] stores. *)
Definition mant (n : Z) : Z := if decide (2 ^ 23 <= leading n) then leading n / 256 else leading n.
Definition expo (n : Z) : Z := if decide (2 ^ 23 <= leading n) then byte_len n + 1 else byte_len n.

Lemma BigToCompact_pack n : 0 < n -> expo n <= 255 -> BigToCompact n = Ok (pack (expo n) (mant n)).
Proof.
  intros Hn He. pose proof (leading_range n Hn) as Hlead. destruct (byte_len_ok n Hn) as (He1 & Hl & Hu).
  unfold BigToCompact. rewrite decide_False by lia.
  set (e := byte_len n) in *.
  assert ((if decide (e <= 3) then w ← low_word n; Ok (u32 (Z.shiftl (u32 w) (8 * (3 - e))))
           else w ← low_word (Z.shiftr n (8 * (e - 3))); Ok (u32 w)) = Ok (leading n)) as ->.
  { unfold leading in *. fold e in Hlead |- *. unfold low_word. case_decide.
    - rewrite decide_False, Z.abs_eq by lia. cbn [mbind outcome_bind].
      assert (n < 2 ^ 24) by (eapply Z.lt_le_trans; [exact Hu|]; apply Z.pow_le_mono_r; lia).
      rewrite (uwrap_id 64), (uwrap_id 32 n) by (unfold uint_range; lia).
      rewrite Z.shiftl_mul_pow2 by lia. rewrite uwrap_id by (unfold uint_range; lia). done.
    - rewrite Z.shiftr_div_pow2 by lia. rewrite decide_False, Z.abs_eq by lia. cbn [mbind outcome_bind].
      rewrite (uwrap_id 64) by (unfold uint_range; lia). by rewrite uwrap_id by (unfold uint_range; lia). }
  rewrite outcome_bind_ok. unfold pack, mant, expo in *. fold e in He |- *.
  pose proof (land_bit23 (leading n) ltac:(lia)) as Hbit.
  assert (forall E M, 0 <= E < 256 -> 0 <= M < 2 ^ 24 -> Z.lor (u32 (Z.shiftl E 24)) M = E * 2 ^ 24 + M) as Hlor.
  { intros E M HE HM. rewrite uwrap_id; [by apply lor_shiftl_add|]. rewrite Z.shiftl_mul_pow2 by lia.
    unfold uint_range. lia. }
  destruct (decide (2 ^ 23 <= leading n)) as [Hbig|Hbig].
  - rewrite (decide_True (P := Z.land _ _ <> 0)) by by apply Hbit. rewrite decide_False by lia.
    rewrite Z.shiftr_div_pow2 by lia. change (2 ^ 8) with 256.
    rewrite Hlor; [done|lia|]. split; [apply Z.div_pos; lia|apply Z.div_lt_upper_bound; lia].
  - rewrite (decide_False (P := Z.land _ _ <> 0)) by (rewrite Hbit; done). rewrite decide_False by lia.
    by rewrite Hlor by lia.
Qed.

Lemma mant_range n : 0 < n -> 2 ^ 15 <= mant n < 2 ^ 23 /\ 1 <= expo n.
Proof.
  intros Hn. pose proof (leading_range n Hn). destruct (byte_len_ok n Hn) as (? & _).
  unfold mant, expo. case_decide; (split; [|lia]); [|lia].
  split; [apply Z.div_le_lower_bound|apply Z.div_lt_upper_bound]; lia.
Qed.

(** Reading the compact form back drops the bytes below the mantissa. *)
Lemma compact_value n : 0 < n ->
  let v := CompactToBig (pack (expo n) (mant n)) in
  if decide (expo n <= 3) then v = n
  else v = n / 2 ^ (8 * (expo n - 3)) * 2 ^ (8 * (expo n - 3)) /\ mant n = n / 2 ^ (8 * (expo n - 3)).
Proof.
  intros Hn. destruct (mant_range n Hn) as [Hm He]. cbn zeta. rewrite CompactToBig_pack by lia.
  destruct (byte_len_ok n Hn) as (Hb & _ & _). pose proof (leading_range n Hn) as Hr.
  unfold expo, mant, leading in *. set (e := byte_len n) in *.
  destruct (decide (e <= 3)) as [He3|He3].
  - assert (e = 1 \/ e = 2 \/ e = 3) as [->|[->| ->]] by lia; simpl Z.sub in *; simpl Z.mul in *; simpl Z.add in *;
      rewrite ?Z.mul_1_r in *; (destruct (decide (2 ^ 23 <= _)); cbn [decide]).
    all: repeat match goal with |- context [decide (?a <= ?b)] =>
           first [rewrite (decide_True (P := a <= b)) by lia | rewrite (decide_False (P := a <= b)) by lia] end.
    all: try (rewrite Z.div_div by lia).
    all: try (symmetry; apply Z.div_unique with 0; lia).
    split; reflexivity.
  - destruct (decide (2 ^ 23 <= _)); [|rewrite !(decide_False (P := e <= 3)) by lia; done].
    rewrite !(decide_False (P := e + 1 <= 3)) by lia.
    replace (n / 2 ^ (8 * (e - 3)) / 256) with (n / 2 ^ (8 * (e + 1 - 3))); [done|].
    rewrite Z.div_div by lia. f_equal. change 256 with (2 ^ 8). rewrite <- Z.pow_add_r by lia. f_equal. lia.
Qed.

Lemma byte_len_unique n L : 1 <= L -> 2 ^ (8 * (L - 1)) <= n < 2 ^ (8 * L) -> byte_len n = L.
Proof.
  intros HL Hn. assert (0 < n) by (pose proof (Z.pow_pos_nonneg 2 (8 * (L - 1))); lia).
  destruct (byte_len_ok n) as (Hb & Hl & Hu); [done|].
  destruct (Z.lt_trichotomy (byte_len n) L) as [Hlt|[?|Hlt]]; [|done|].
  - assert (2 ^ (8 * byte_len n) <= 2 ^ (8 * (L - 1))) by (apply Z.pow_le_mono_r; lia). lia.
  - assert (2 ^ (8 * L) <= 2 ^ (8 * (byte_len n - 1))) by (apply Z.pow_le_mono_r; lia). lia.
Qed.

(** The compact numbers that [BigToCompact] produces for positive targets: no
    sign, no leading zero that could be dropped, no bits below the units. *)
Definition canonical (c : Z) : Prop :=
  let e := c / 2 ^ 24 in
  let m := c mod 2 ^ 24 in
  1 <= e <= 255 /\ 2 ^ 15 <= m < 2 ^ 23 /\ (e < 3 -> m mod 2 ^ (8 * (3 - e)) = 0).

(** Reading back the exponent and the mantissa of a packed target, without and with a shift to the left. *)
Lemma pack_value_low e m : 1 <= e <= 3 -> 2 ^ 15 <= m < 2 ^ 23 -> (e < 3 -> m mod 2 ^ (8 * (3 - e)) = 0) ->
  let n := m / 2 ^ (8 * (3 - e)) in 0 < n /\ expo n = e /\ mant n = m /\ byte_len n <= e.
Proof.
  intros He Hm Hlow. cbn zeta. unfold expo, mant, leading.
  assert (exists k, m = k * 2 ^ (8 * (3 - e))) as [k Hk].
  { destruct (decide (e < 3)) as [Hlt|]; [|exists m; replace (3 - e) with 0 by lia; simpl; lia].
    apply Hlow in Hlt. exists (m / 2 ^ (8 * (3 - e))).
    pose proof (Z.pow_pos_nonneg 2 (8 * (3 - e)) ltac:(lia) ltac:(lia)).
    rewrite (Z.div_mod m (2 ^ (8 * (3 - e)))) at 1 by lia. lia. }
  assert (m / 2 ^ (8 * (3 - e)) = k) as ->.
  { rewrite Hk. apply Z.div_mul. pose proof (Z.pow_pos_nonneg 2 (8 * (3 - e)) ltac:(lia) ltac:(lia)). lia. }
  assert (e = 1 \/ e = 2 \/ e = 3) as [->|[->| ->]] by lia; simpl in Hk; subst m;
    (assert (0 < k) by lia); (split; [done|]).
  + rewrite (byte_len_unique k 1) by (simpl; lia). simpl.
    destruct (decide (2 ^ 23 <= _)); simpl; [lia|]. split_and!; lia.
  + destruct (decide (k < 256)).
    * rewrite (byte_len_unique k 1) by (simpl; lia). simpl. destruct (decide (2 ^ 23 <= _)); [|lia].
      split_and!; try lia. symmetry; apply Z.div_unique with 0; lia.
    * rewrite (byte_len_unique k 2) by (simpl; lia). simpl. destruct (decide (2 ^ 23 <= _)); [lia|]. split_and!; lia.
  + destruct (decide (k < 65536)).
    * rewrite (byte_len_unique k 2) by (simpl; lia). simpl. destruct (decide (2 ^ 23 <= _)); [|lia].
      split_and!; try lia. symmetry; apply Z.div_unique with 0; lia.
    * rewrite (byte_len_unique k 3) by (simpl; lia). simpl. destruct (decide (2 ^ 23 <= _)); [lia|]. split_and!; lia.
Qed.

Lemma pack_value_high e m : 3 < e -> 2 ^ 15 <= m < 2 ^ 23 ->
  let n := m * 2 ^ (8 * (e - 3)) in 0 < n /\ expo n = e /\ mant n = m /\ byte_len n <= e.
Proof.
  intros He Hm. cbn zeta. unfold expo, mant, leading.
  set (P := 2 ^ (8 * (e - 3))). assert (0 < P) by (apply Z.pow_pos_nonneg; lia). split; [nia|].
  destruct (decide (m < 2 ^ 16)) as [Hs|Hs].
  + assert (P = 256 * 2 ^ (8 * (e - 4))) as EP.
    { unfold P. change 256 with (2 ^ 8). rewrite <- Z.pow_add_r by lia. f_equal. lia. }
    assert (byte_len (m * P) = e - 1) as ->.
    { apply byte_len_unique; [lia|]. split.
      - replace (8 * (e - 1 - 1)) with (8 + 8 * (e - 3)) by lia. rewrite Z.pow_add_r by lia. fold P. nia.
      - replace (8 * (e - 1)) with (16 + 8 * (e - 3)) by lia. rewrite Z.pow_add_r by lia. fold P. nia. }
    set (Q := 2 ^ (8 * (e - 4))) in *. assert (0 < Q) by (apply Z.pow_pos_nonneg; lia).
    assert ((if decide (e - 1 <= 3) then m * P * 2 ^ (8 * (3 - (e - 1))) else m * P / 2 ^ (8 * (e - 1 - 3))) = m * 256) as ->.
    { case_decide.
      - assert (e = 4) as -> by lia. unfold P. change (2 ^ (8 * (4 - 3))) with 256.
        change (2 ^ (8 * (3 - (4 - 1)))) with 1. lia.
      - replace (e - 1 - 3) with (e - 4) by lia. fold Q. symmetry. apply Z.div_unique with 0; nia. }
    rewrite !(decide_True (P := 2 ^ 23 <= _)) by lia. split_and!; try lia. by rewrite Z.div_mul.
  + assert (byte_len (m * P) = e) as ->.
    { apply byte_len_unique; [lia|]. split.
      - replace (8 * (e - 1)) with (16 + 8 * (e - 3)) by lia. rewrite Z.pow_add_r by lia. fold P. nia.
      - replace (8 * e) with (24 + 8 * (e - 3)) by lia. rewrite Z.pow_add_r by lia. fold P. nia. }
    rewrite (decide_False (P := e <= 3)) by lia. fold P. rewrite Z.div_mul by lia.
    rewrite !(decide_False (P := 2 ^ 23 <= _)) by lia. split_and!; lia.
Qed.

Lemma pack_value e m : 1 <= e -> 2 ^ 15 <= m < 2 ^ 23 -> (e < 3 -> m mod 2 ^ (8 * (3 - e)) = 0) ->
  let n := CompactToBig (pack e m) in
  0 < n /\ expo n = e /\ mant n = m /\ byte_len n <= e.
Proof.
  intros He Hm Hlow. cbn zeta. rewrite CompactToBig_pack by lia. destruct (decide (e <= 3)).
  - by apply pack_value_low.
  - apply pack_value_high; lia.
Qed.

(** ** The theorems *)

(** Every compact target that [BigToCompact] can produce is read and written
    back unchanged. *)
Theorem compact_roundtrip (c : Z) (Hc : canonical c) : BigToCompact (CompactToBig c) = Ok c.
Proof.
  destruct Hc as (He & Hm & Hlow).
  assert (c = pack (c / 2 ^ 24) (c mod 2 ^ 24)) as Ec by (unfold pack; pose proof (Z.div_mod c (2 ^ 24)); lia).
  rewrite Ec at 1. destruct (pack_value (c / 2 ^ 24) (c mod 2 ^ 24)) as (Hpos & Hex & Hma & Hbl); [lia|done|done|].
  rewrite BigToCompact_pack by lia. by rewrite Hex, Hma, <- Ec.
Qed.

Lemma compact_roundtrip_witness : canonical 0x1d00ffff /\ BigToCompact (CompactToBig 0x1d00ffff) = Ok 0x1d00ffff.
Proof.
  assert (canonical 0x1d00ffff) as Hc by (vm_compute; repeat split; intros; discriminate).
  split; [done|]. by apply compact_roundtrip.
Defined.

Lemma canonical_pack e m : 1 <= e <= 255 -> 2 ^ 15 <= m < 2 ^ 23 -> (e < 3 -> m mod 2 ^ (8 * (3 - e)) = 0) ->
  canonical (pack e m).
Proof.
  intros. unfold canonical, pack.
  replace ((e * 2 ^ 24 + m) / 2 ^ 24) with e by (apply Z.div_unique with m; lia).
  replace ((e * 2 ^ 24 + m) mod 2 ^ 24) with m by (apply Z.mod_unique with e; lia). done.
Qed.

Lemma mant_low n : 0 < n -> expo n < 3 -> mant n mod 2 ^ (8 * (3 - expo n)) = 0.
Proof.
  intros Hn. destruct (byte_len_ok n Hn) as (Hb & _). unfold expo, mant, leading.
  set (e := byte_len n) in *. destruct (decide (2 ^ 23 <= _)) as [Hbig|Hbig]; intros He;
    rewrite (decide_True (P := e <= 3)) by lia.
  - replace (n * 2 ^ (8 * (3 - e)) / 256) with (n * 2 ^ (8 * (3 - (e + 1)))).
    + apply Z.mod_mul. pose proof (Z.pow_pos_nonneg 2 (8 * (3 - (e + 1)))). lia.
    + apply Z.div_unique with 0; [lia|]. change 256 with (2 ^ 8).
      replace (8 * (3 - e)) with (8 + 8 * (3 - (e + 1))) by lia. rewrite (Z.pow_add_r 2 8) by lia. lia.
  - apply Z.mod_mul. pose proof (Z.pow_pos_nonneg 2 (8 * (3 - e))). lia.
Qed.

(** Writing a positive target of up to 254 bytes never panics and loses only
    precision: the number read back is at most the target, and within one part in
    2^15 of it. *)
Theorem compact_precision (n : Z) (Hn : 0 < n) (Hlen : n < 2 ^ 2032) :
  exists c, BigToCompact n = Ok c /\ canonical c /\
    CompactToBig c <= n /\ (n - CompactToBig c) * 2 ^ 15 < CompactToBig c.
Proof.
  assert (byte_len n <= 254) as Hb.
  { destruct (byte_len_ok n Hn) as (? & Hl & _). destruct (decide (byte_len n <= 254)); [done|].
    assert (2 ^ 2032 <= 2 ^ (8 * (byte_len n - 1))) by (apply Z.pow_le_mono_r; lia). lia. }
  assert (expo n <= 255) as Hex by (unfold expo; case_decide; lia).
  destruct (mant_range n Hn) as [Hm He]. pose proof (compact_value n Hn) as Hv. cbn zeta in Hv.
  exists (pack (expo n) (mant n)). split; [by apply BigToCompact_pack|].
  split; [apply canonical_pack; [lia|done|by apply mant_low]|].
  destruct (decide (expo n <= 3)); [rewrite Hv; lia|]. destruct Hv as [Hv Hma].
  set (P := 2 ^ (8 * (expo n - 3))) in *. assert (0 < P) by (apply Z.pow_pos_nonneg; lia).
  rewrite Hv, <- Hma. pose proof (Z.div_mod n P ltac:(lia)). pose proof (Z.mod_pos_bound n P ltac:(lia)).
  rewrite <- Hma in *. split; nia.
Qed.

Lemma compact_precision_witness :
  exists c, BigToCompact 0x123456789abc = Ok c /\ canonical c /\ CompactToBig c <= 0x123456789abc.
Proof.
  destruct (compact_precision 0x123456789abc) as (c & ? & ? & ? & _); [lia| |by eauto].
  apply Z.lt_trans with (2 ^ 48); [lia|]. apply Z.pow_lt_mono_r; lia.
Defined.

(** A hash is read as the little-endian number of its bytes, whatever its
    length. *)
Theorem hash_is_little_endian (hash : list Z) :
  HashToBig hash = Ok (foldr (fun b n => b + 256 * n) 0 hash).
Proof. apply HashToBig_ok. Qed.

(** The work of a target is the largest [w] with [w * (target + 1) <= 2^256],
    0 for targets that are not positive; a smaller target has at least as much
    work. *)
Theorem work_is_inverse_of_target (bits : Z) :
  let t := CompactToBig bits in
  (t <= 0 -> CalcWork bits = 0) /\
  (0 < t -> CalcWork bits * (t + 1) <= 2 ^ 256 < (CalcWork bits + 1) * (t + 1)) /\
  (forall bits', 0 < CompactToBig bits' <= t -> CalcWork bits <= CalcWork bits').
Proof.
  cbn zeta. unfold CalcWork. change oneLsh256 with (2 ^ 256). set (t := CompactToBig bits). split_and!.
  - intros. by rewrite decide_True.
  - intros. rewrite decide_False by lia. pose proof (Z.div_mod (2 ^ 256) (t + 1) ltac:(lia)).
    pose proof (Z.mod_pos_bound (2 ^ 256) (t + 1) ltac:(lia)). lia.
  - intros bits' Hb. rewrite !decide_False by lia. apply Z.div_le_compat_l; lia.
Qed.

Lemma work_witness : CalcWork 0x1d00ffff * (CompactToBig 0x1d00ffff + 1) <= 2 ^ 256.
Proof. apply (work_is_inverse_of_target 0x1d00ffff). vm_compute. reflexivity. Defined.

(** A retarget never makes the work target easier than the limit of the chain
    nor than [maxRetargetTimespan / targetTimeSpan] times the old target, and
    always yields a compact number. *)
Theorem retarget_bounded (minT maxT spanT limit limitBits bits span : Z)
    (Hmin : 0 < minT <= maxT) (Hspan : 0 < spanT) (Hbits : 0 < CompactToBig bits)
    (Hnew : spanT <= CompactToBig bits * minT) (Hlimit : limit < 2 ^ 2032) :
  exists c, retarget minT maxT spanT limit limitBits bits span = Ok c /\
    (c = limitBits \/
     0 < CompactToBig c <= limit /\ CompactToBig c * spanT <= CompactToBig bits * maxT).
Proof.
  unfold retarget. set (adj := if decide (span < minT) then minT else _).
  assert (minT <= adj <= maxT) as Hadj by (unfold adj; repeat case_decide; lia).
  case_decide as Hle; [|by eauto]. set (t := CompactToBig bits) in *.
  assert (0 < t * adj / spanT) by (apply Z.div_str_pos; nia).
  destruct (compact_precision (t * adj / spanT)) as (c & -> & _ & Hc & Hp); [done|lia|].
  exists c. split; [done|]. right. pose proof (Z.mul_div_le (t * adj) spanT ltac:(lia)).
  split; nia.
Qed.

Lemma retarget_witness :
  exists c, retarget 302400 4838400 1209600 (2 ^ 224) 0x1d00ffff 0x1b0404cb 1000000 = Ok c /\
    (c = 0x1d00ffff \/ 0 < CompactToBig c <= 2 ^ 224).
Proof.
  destruct (retarget_bounded 302400 4838400 1209600 (2 ^ 224) 0x1d00ffff 0x1b0404cb 1000000)
    as (c & Hr & Hc); [lia|lia|vm_compute; reflexivity|vm_compute; intros; discriminate| |].
  - apply Z.pow_lt_mono_r; lia.
  - exists c. split; [exact Hr|]. destruct Hc as [Hc|[Hc _]]; [left|right]; exact Hc.
Defined.
