(* ===== verification/Merkle.v ===== *)
(** * Merkle trees

    Models [btcd/blockchain/merkle.go].  A hash is the list of its bytes;
    [DoubleHashH] (chainhash), the hashes of a transaction (wire) and the floating
    point logarithm of [nextPowerOfTwo] are parameters.  The tree is built in one
    array that the loop reads from the front and extends at the back. *)
From stdpp Require Import gmap list.
From Stdlib Require Import ZArith Lia.
From S2P Require Import Prelude.

Open Scope Z_scope.

Abbreviation hash := (list Z).

Inductive merkle_error := ErrNoTransactions | ErrNoTxInputs | ErrWitnessCommitmentMismatch.

Section Merkle.
Context {Tx : Type}.
Context (TxFullHash SignatureHash : Tx -> hash) (TxIn_len : Tx -> Z) (SignatureScripts : Tx -> list hash).
Context (DoubleHashH : hash -> hash).
(** [uint(math.Log2(float64(n)))] *)
Context (float_log2 : Z -> Z).

Definition nextPowerOfTwo (n : Z) : Z :=
  if decide (Z.land n (n - 1) = 0) then n
  else
    let exponent := float_log2 n + 1 in
    Z.shiftl 1 exponent.

Definition HashMerkleBranches (left right : hash) : hash := DoubleHashH (left ++ right).

(** The hash of a transaction as a leaf. *)
Definition leaf_hash (witness : bool) (i : nat) (tx : Tx) : hash :=
  match i with
  | O => TxFullHash tx
  | S _ => if witness then SignatureHash tx else TxFullHash tx
  end.

(** [for i, tx := range transactions { merkles[i] = ... }] *)
Fixpoint fill_leaves (witness : bool) (merkles : list (option hash)) (i : nat) (txs : list Tx)
    : outcome (list (option hash)) :=
  match txs with
  | [] => Ok merkles
  | tx :: txs =>
      merkles ← slice_set merkles (Z.of_nat i) (Some (leaf_hash witness i tx));
      fill_leaves witness merkles (S i) txs
  end.

Fixpoint merkle_loop (fuel : nat) (arraySize : Z) (merkles : list (option hash)) (i offset : Z)
    : outcome (list (option hash)) :=
  if decide (i < arraySize - 1) then
    match fuel with
    | O => NoFuel
    | S fuel =>
        left ← slice_get merkles i;
        parent ←
          match left with
          | None => Ok None
          | Some l =>
              right ← slice_get merkles (i + 1);
              match right with
              | None => Ok (Some (HashMerkleBranches l l))
              | Some r => Ok (Some (HashMerkleBranches l r))
              end
          end;
        merkles ← slice_set merkles offset parent;
        merkle_loop fuel arraySize merkles (i + 2) (offset + 1)
    end
  else Ok merkles.

Definition BuildMerkleTreeStore (transactions : list Tx) (witness : bool) : outcome (list (option hash)) :=
  let nextPoT := nextPowerOfTwo (Z.of_nat (length transactions)) in
  let arraySize := nextPoT * 2 - 1 in
  if decide (arraySize < 0) then Panic
  else
    merkles ← fill_leaves witness (replicate (Z.to_nat arraySize) None) 0 transactions;
    merkle_loop (Z.to_nat arraySize) arraySize merkles 0 nextPoT.

(** [SignatureScripts[0]] of the coinbase, and the root, a nil pointer in no case. *)
Definition ValidateWitnessCommitment (txs : list Tx) : outcome (option merkle_error) :=
  match txs with
  | [] => Ok (Some ErrNoTransactions)
  | coinbaseTx :: _ =>
      if decide (TxIn_len coinbaseTx = 0) then Ok (Some ErrNoTxInputs)
      else
        witnessCommitment ← slice_get (SignatureScripts coinbaseTx) 0;
        witnessMerkleTree ← BuildMerkleTreeStore txs true;
        root ← slice_get witnessMerkleTree (Z.of_nat (length witnessMerkleTree) - 1);
        match root with
        | None => Panic
        | Some root =>
            if decide (root = witnessCommitment) then Ok None
            else Ok (Some ErrWitnessCommitmentMismatch)
        end
  end.

(** ** The reference: hash a level in pairs until one hash is left *)

Fixpoint pair_up (l : list hash) : list hash :=
  match l with
  | a :: b :: l => HashMerkleBranches a b :: pair_up l
  | [a] => [HashMerkleBranches a a]
  | [] => []
  end.

Fixpoint merkle_root (fuel : nat) (l : list hash) : option hash :=
  match l with
  | [] => None
  | [h] => Some h
  | _ => match fuel with O => None | S fuel => merkle_root fuel (pair_up l) end
  end.

(** ** The array as a queue *)

Definition par (a b : option hash) : option hash :=
  match a with
  | None => None
  | Some x => match b with None => Some (HashMerkleBranches x x) | Some y => Some (HashMerkleBranches x y) end
  end.

Fixpoint queue (fuel : nat) (q : list (option hash)) : option (option hash) :=
  match q with
  | [] => None
  | [x] => Some x
  | a :: b :: q => match fuel with O => None | S fuel => queue fuel (q ++ [par a b]) end
  end.

Lemma queue_fuel f : forall g q r, (f <= g)%nat -> queue f q = Some r -> queue g q = Some r.
Proof.
  induction f as [|f IH]; intros g [|a [|b q]] r Hg; simpl; try done; try by destruct g.
  destruct g as [|g]; [lia|]. simpl. apply IH. lia.
Qed.

(** The loop dequeues two nodes and enqueues their parent. *)
Lemma merkle_loop_ok fuel : forall pre q k size,
  length q = S k -> size = Z.of_nat (length pre + length q + k) -> (k <= fuel)%nat ->
  exists merkles x,
    merkle_loop fuel size (pre ++ q ++ replicate k None) (Z.of_nat (length pre))
      (Z.of_nat (length pre + length q)) = Ok (merkles ++ [x]) /\
    queue fuel q = Some x /\ Z.of_nat (length merkles) = size - 1.
Proof.
  induction fuel as [|fuel IH]; intros pre q k size Hq Hsz Hk;
    (destruct q as [|a [|b q]]; [done|..]); cbn [length] in *.
  - destruct k; [|lia]. simpl. rewrite decide_False by lia. exists pre, a. split_and!; [done|done|lia].
  - lia.
  - destruct k; [|lia]. simpl. rewrite decide_False by lia. exists pre, a. split_and!; [done|done|lia].
  - destruct k as [|k]; [lia|]. cbn [merkle_loop]. rewrite decide_True by lia.
    change ((a :: b :: q) ++ replicate (S k) None) with (a :: b :: q ++ None :: replicate k None).
    rewrite (slice_get_app pre _ a (Z.of_nat (length pre))), outcome_bind_ok by done.
    assert (match a with
      | Some l => right ← slice_get (pre ++ a :: b :: q ++ None :: replicate k None) (Z.of_nat (length pre) + 1);
          match right with
          | Some r => Ok (Some (HashMerkleBranches l r))
          | None => Ok (Some (HashMerkleBranches l l)) end
      | None => Ok None end = Ok (par a b)) as ->.
    { destruct a as [l|]; [|done].
      replace (pre ++ Some l :: b :: q ++ None :: replicate k None) with
        ((pre ++ [Some l]) ++ b :: q ++ None :: replicate k None) by by list_norm.
      replace (Z.of_nat (length pre) + 1) with (Z.of_nat (length (pre ++ [Some l])))
        by (rewrite length_app; simpl; lia).
      rewrite slice_get_app, outcome_bind_ok by done. by destruct b. }
    rewrite outcome_bind_ok.
    replace (pre ++ a :: b :: q ++ None :: replicate k None) with
      ((pre ++ a :: b :: q) ++ None :: replicate k None) by by list_norm.
    replace (Z.of_nat (length pre + S (S (length q)))) with (Z.of_nat (length (pre ++ a :: b :: q)))
      by (rewrite length_app; simpl; lia).
    rewrite slice_set_app, outcome_bind_ok by done.
    replace ((pre ++ a :: b :: q) ++ par a b :: replicate k None) with
      ((pre ++ [a; b]) ++ (q ++ [par a b]) ++ replicate k None) by by list_norm.
    replace (Z.of_nat (length pre) + 2) with (Z.of_nat (length (pre ++ [a; b]))) by (rewrite length_app; simpl; lia).
    replace (Z.of_nat (length (pre ++ a :: b :: q)) + 1) with
      (Z.of_nat (length (pre ++ [a; b]) + length (q ++ [par a b]))) by (rewrite !length_app; simpl; lia).
    apply IH; rewrite ?length_app; simpl; lia.
Qed.

(** ** Levels *)

Fixpoint pairs (q : list (option hash)) : list (option hash) :=
  match q with a :: b :: q => par a b :: pairs q | _ => [] end.

Lemma list_ind2 {A} (P : list A -> Prop) :
  P [] -> (forall a, P [a]) -> (forall a b l, P l -> P (a :: b :: l)) -> forall l, P l.
Proof.
  intros H0 H1 H2 l. enough (P l /\ forall a, P (a :: l)) by tauto.
  induction l as [|x l [IH1 IH2]]; auto.
Qed.

(** A whole level is replaced by the level of its parents. *)
Lemma queue_level l : forall k acc fuel, length l = (2 * k)%nat ->
  queue (k + fuel) (l ++ acc) = queue fuel (acc ++ pairs l).
Proof.
  induction l as [|a|a b l IH] using list_ind2; intros k acc fuel Hk.
  - destruct k; [|simpl in Hk; lia]. simpl. by rewrite app_nil_r.
  - simpl in Hk. lia.
  - destruct k as [|k]; [simpl in Hk; lia|]. simpl in Hk.
    cbn [app Nat.add queue]. rewrite <- app_assoc. rewrite (IH k (acc ++ [par a b]) fuel) by lia.
    cbn [pairs]. by list_norm.
Qed.

Lemma pairs_pad l : forall k m, (length l + k = 2 * m)%nat ->
  exists k', pairs ((Some <$> l) ++ replicate k None) = (Some <$> pair_up l) ++ replicate k' None /\
    (length (pair_up l) + k' = m)%nat /\ (length l <= 2 * length (pair_up l))%nat.
Proof.
  assert (forall k m, k = (2 * m)%nat -> pairs (replicate k None) = replicate m None) as Hn.
  { intros k m ->. induction m as [|m IH]; [done|]. replace (2 * S m)%nat with (S (S (2 * m))) by lia.
    cbn [replicate pairs par]. by rewrite IH. }
  induction l as [|a|a b l IH] using list_ind2; intros k m Hk; simpl in Hk.
  - exists m. simpl. split_and!; [by apply Hn|lia..].
  - destruct k as [|k]; [lia|]. exists (m - 1)%nat. simpl. rewrite (Hn k (m - 1)%nat) by lia.
    split_and!; [done|lia..].
  - destruct (IH k (m - 1)%nat) as (k' & Hp & ? & ?); [lia|]. exists k'. rewrite !fmap_cons. cbn [app pairs par pair_up length].
    rewrite Hp. split_and!; [done|lia..].
Qed.

(** Levels of [2^j] nodes of which more than half are there collapse to the
    reference root. *)
Lemma queue_root j : forall l k, (length l + k = 2 ^ j)%nat -> (2 ^ j < 2 * length l)%nat ->
  queue (2 ^ j - 1) ((Some <$> l) ++ replicate k None) = Some (merkle_root j l).
Proof.
  induction j as [|j IH]; intros l k Hlen Hhalf.
  - simpl in *. destruct l as [|x [|y l]]; simpl in *; try lia. destruct k; [done|lia].
  - rewrite Nat.pow_succ_r' in *.
    assert (1 <= 2 ^ j)%nat as Hpos by (pose proof (Nat.pow_nonzero 2 j); lia).
    destruct (pairs_pad l k (2 ^ j)) as (k' & Hp & Hlen' & Hhalf'); [lia|].
    replace (2 * 2 ^ j - 1)%nat with (2 ^ j + (2 ^ j - 1))%nat by lia.
    rewrite <- (app_nil_r (_ ++ replicate k None)). rewrite queue_level.
    + rewrite app_nil_l, Hp, IH by lia. f_equal.
      destruct l as [|x [|y l]]; simpl in Hhalf; [lia|lia|done].
    + rewrite length_app, length_fmap, length_replicate. lia.
Qed.

(** ** The root is never missing *)

Lemma pair_up_length l : (length (pair_up l) <= length l)%nat /\ (2 * length (pair_up l) <= length l + 1)%nat.
Proof. induction l as [|a|a b l IH] using list_ind2; simpl; lia. Qed.

Lemma merkle_root_some j : forall l, l <> [] -> (length l <= 2 ^ j)%nat -> is_Some (merkle_root j l).
Proof.
  induction j as [|j IH]; intros [|x [|y l]] Hne Hlen; simpl in *; try done; try lia; try by eexists.
  apply IH; [done|]. pose proof (pair_up_length l) as [_ ?]. simpl. lia.
Qed.

Lemma merkle_root_fuel j : forall k l r, merkle_root j l = Some r -> (j <= k)%nat -> merkle_root k l = Some r.
Proof.
  induction j as [|j IH]; intros k [|x [|y l]] r Hr Hk; simpl in *; try done.
  - by destruct k.
  - by destruct k.
  - destruct k as [|k]; [lia|]. simpl. apply IH; [done|lia].
Qed.

(** ** The power of two *)

(** What the code relies on: the logarithm is exact enough for lengths of slices
    of transactions. *)
Hypothesis float_log2_ok : forall n, 0 < n < 2 ^ 31 -> float_log2 n = Z.log2 n.

Lemma land_pred_pow2 k : 0 <= k -> Z.land (2 ^ k) (2 ^ k - 1) = 0.
Proof. intros. rewrite land_ones_mod by done. apply Z.mod_same. pose proof (Z.pow_pos_nonneg 2 k). lia. Qed.

Lemma land_pred_zero n : 0 < n -> Z.land n (n - 1) = 0 -> n = 2 ^ Z.log2 n.
Proof.
  intros Hn Hz. pose proof (Z.log2_spec n Hn) as [Hl Hu]. destruct (decide (n = 2 ^ Z.log2 n)); [done|].
  assert (Z.log2 (n - 1) = Z.log2 n) as E by (apply Z.log2_unique; [apply Z.log2_nonneg|lia]).
  apply (f_equal (fun z => Z.testbit z (Z.log2 n))) in Hz.
  rewrite Z.land_spec, Z.bit_log2, <- E, Z.bit_log2, Z.bits_0 in Hz; [done| |lia].
  pose proof (Z.pow_pos_nonneg 2 (Z.log2 n) ltac:(lia) (Z.log2_nonneg n)). lia.
Qed.

Lemma nextPowerOfTwo_ok n : 0 < n < 2 ^ 31 ->
  exists j, (j <= 31)%nat /\ nextPowerOfTwo n = 2 ^ Z.of_nat j /\ n <= 2 ^ Z.of_nat j < 2 * n.
Proof.
  intros Hn. unfold nextPowerOfTwo. pose proof (Z.log2_spec n ltac:(lia)) as [Hl Hu].
  pose proof (Z.log2_nonneg n). assert (Z.log2 n < 31) by (apply Z.log2_lt_pow2; lia).
  case_decide as Hz.
  - apply land_pred_zero in Hz; [|lia]. exists (Z.to_nat (Z.log2 n)). rewrite Z2Nat.id by lia. lia.
  - exists (S (Z.to_nat (Z.log2 n))). rewrite Nat2Z.inj_succ, Z2Nat.id by lia.
    rewrite float_log2_ok, Z.shiftl_1_l by lia. split_and!; [lia|done|lia|].
    rewrite Z.pow_succ_r by lia. destruct (decide (n = 2 ^ Z.log2 n)) as [E|]; [|lia].
    exfalso. apply Hz. rewrite E. by apply land_pred_pow2.
Qed.

Definition leaves (witness : bool) (txs : list Tx) : list hash := imap (leaf_hash witness) txs.

Lemma fill_leaves_ok witness txs : forall i pre k, length pre = i ->
  fill_leaves witness (pre ++ replicate (length txs + k) None) i txs =
    Ok (pre ++ (Some <$> imap (fun j => leaf_hash witness (i + j)) txs) ++ replicate k None).
Proof.
  induction txs as [|tx txs IH]; intros i pre k <-; simpl; [done|].
  rewrite slice_set_app, outcome_bind_ok by done.
  replace (pre ++ Some (leaf_hash witness (length pre) tx) :: replicate (length txs + k) None) with
    ((pre ++ [Some (leaf_hash witness (length pre) tx)]) ++ replicate (length txs + k) None) by by list_norm.
  rewrite IH by (rewrite length_app; simpl; lia). rewrite <- app_assoc. simpl. rewrite Nat.add_0_r.
  do 5 f_equal. apply imap_ext. intros j x _. simpl.
  by replace (length pre + S j)%nat with (S (length pre + j)) by lia.
Qed.

Lemma store_ok (txs : list Tx) (witness : bool) : txs <> [] -> Z.of_nat (length txs) < 2 ^ 31 ->
  exists merkles root, BuildMerkleTreeStore txs witness = Ok (merkles ++ [Some root]) /\
    merkle_root 31 (leaves witness txs) = Some root /\
    Z.of_nat (S (length merkles)) = 2 * nextPowerOfTwo (Z.of_nat (length txs)) - 1.
Proof.
  intros Hne Hlen. assert (0 < length txs)%nat by (destruct txs; simpl; [done|lia]).
  destruct (nextPowerOfTwo_ok (Z.of_nat (length txs))) as (j & Hj & HP & Hge & Hlt); [lia|].
  unfold BuildMerkleTreeStore. rewrite HP in *.
  assert (Z.of_nat (2 ^ j) = 2 ^ Z.of_nat j) as Ej by apply Nat2Z.inj_pow. rewrite <- Ej in *.
  rewrite decide_False by lia. set (k := (2 ^ j - length txs)%nat).
  replace (Z.to_nat (Z.of_nat (2 ^ j) * 2 - 1)) with (length txs + (k + (2 ^ j - 1)))%nat by (unfold k; lia).
  pose proof (fill_leaves_ok witness txs 0 [] (k + (2 ^ j - 1)) eq_refl) as Hf. rewrite !app_nil_l in Hf.
  rewrite Hf, outcome_bind_ok.
  change (imap (fun j => leaf_hash witness (0 + j)) txs) with (leaves witness txs).
  assert (length (leaves witness txs) = length txs) as Hll by apply length_imap.
  rewrite replicate_add.
  pose proof (merkle_loop_ok (length txs + (k + (2 ^ j - 1))) []
    ((Some <$> leaves witness txs) ++ replicate k None) (2 ^ j - 1) (Z.of_nat (2 ^ j) * 2 - 1)) as Hloop.
  rewrite length_app, length_fmap, length_replicate, Hll in Hloop. rewrite <- app_assoc in Hloop.
  destruct Hloop as (merkles & x & Hrun & Hq & Hsz); [unfold k; lia|unfold k; cbn [length]; lia|unfold k; lia|].
  cbn [length Nat.add] in Hrun. rewrite app_nil_l in Hrun.
  replace (length txs + k)%nat with (2 ^ j)%nat in Hrun by (unfold k; lia).
  change (Z.of_nat 0) with 0 in Hrun. rewrite Hrun.
  assert (leaves witness txs <> []) as Hlne by (intros E; rewrite E in Hll; simpl in Hll; lia).
  destruct (merkle_root_some j (leaves witness txs) Hlne) as [root Hroot]; [lia|].
  assert (x = Some root) as ->.
  { pose proof (queue_root j (leaves witness txs) k) as Hqr.
    rewrite Hroot in Hqr. apply (queue_fuel _ (length txs + (k + (2 ^ j - 1)))) in Hqr; [congruence|lia|unfold k; lia..]. }
  exists merkles, root. split; [done|]. split; [by eapply merkle_root_fuel|]. lia.
Qed.
End Merkle.

Section Theorems.
Context {Tx : Type}.
Context (TxFullHash SignatureHash : Tx -> hash) (TxIn_len : Tx -> Z) (SignatureScripts : Tx -> list hash).
Context (DoubleHashH : hash -> hash) (float_log2 : Z -> Z).

(** C33: for every non-empty list of transactions the array that
    [BuildMerkleTreeStore] returns ends with the Merkle root of their hashes: the
    root obtained by hashing each level in pairs, a last odd hash with itself. *)
Theorem merkle_store_root (Hlog : forall n, 0 < n < 2 ^ 31 -> float_log2 n = Z.log2 n)
    (txs : list Tx) (witness : bool) (Hne : txs <> []) (Hlen : Z.of_nat (length txs) < 2 ^ 31) :
  exists merkles root,
    BuildMerkleTreeStore TxFullHash SignatureHash DoubleHashH float_log2 txs witness = Ok (merkles ++ [Some root]) /\
    merkle_root DoubleHashH 31 (imap (leaf_hash TxFullHash SignatureHash witness) txs) = Some root /\
    Z.of_nat (S (length merkles)) = 2 * nextPowerOfTwo float_log2 (Z.of_nat (length txs)) - 1.
Proof. by apply store_ok. Qed.

(** A block with inputs and a commitment in its coinbase passes
    [ValidateWitnessCommitment] exactly when the commitment is the witness Merkle
    root; a mismatch, a block without transactions and a coinbase without inputs
    have each their error. *)
Theorem witness_commitment_checked (Hlog : forall n, 0 < n < 2 ^ 31 -> float_log2 n = Z.log2 n)
    (coinbase : Tx) (txs : list Tx) (commitment : hash) (rest : list hash)
    (Hlen : Z.of_nat (length (coinbase :: txs)) < 2 ^ 31)
    (Hscripts : SignatureScripts coinbase = commitment :: rest) :
  let validate := ValidateWitnessCommitment TxFullHash SignatureHash TxIn_len SignatureScripts DoubleHashH float_log2 in
  validate [] = Ok (Some ErrNoTransactions) /\
  (TxIn_len coinbase = 0 -> validate (coinbase :: txs) = Ok (Some ErrNoTxInputs)) /\
  (TxIn_len coinbase <> 0 ->
   exists root, merkle_root DoubleHashH 31 (imap (leaf_hash TxFullHash SignatureHash true) (coinbase :: txs)) = Some root /\
     validate (coinbase :: txs) =
       Ok (if decide (root = commitment) then None else Some ErrWitnessCommitmentMismatch)).
Proof.
  split_and!; [done|intros Hz; simpl; by rewrite decide_True|]. intros Hin.
  destruct (store_ok TxFullHash SignatureHash DoubleHashH float_log2 Hlog (coinbase :: txs) true)
    as (merkles & root & Hb & Hr & _); [done..|].
  exists root. split; [exact Hr|]. cbn [ValidateWitnessCommitment]. rewrite decide_False by done.
  rewrite Hscripts. change (slice_get (commitment :: rest) 0) with (Ok commitment). rewrite outcome_bind_ok.
  rewrite Hb, outcome_bind_ok, length_app. simpl.
  replace (Z.of_nat (length merkles + 1) - 1) with (Z.of_nat (length merkles)) by lia.
  rewrite slice_get_app by done. simpl. by case_decide.
Qed.
End Theorems.

(** Transactions as their hashes, and a toy hash. *)
Definition toy_hash (l : list Z) : hash := [foldr Z.add 1 l].

Lemma merkle_store_root_witness :
  exists merkles root,
    BuildMerkleTreeStore (fun h : hash => h) (fun h => h) toy_hash Z.log2 [[1]; [2]; [3]] false = Ok (merkles ++ [Some root]) /\
    merkle_root toy_hash 31 [[1]; [2]; [3]] = Some root.
Proof.
  destruct (merkle_store_root (fun h : hash => h) (fun h => h) toy_hash Z.log2 (fun _ _ => eq_refl) [[1]; [2]; [3]] false)
    as (merkles & root & ? & ? & _); [done|simpl; lia|]. by exists merkles, root.
Defined.

Lemma witness_commitment_checked_witness :
  exists root,
    ValidateWitnessCommitment (fun h : hash => h) (fun h => h) (fun _ => 1) (fun _ => [[12]]) toy_hash Z.log2 [[1]; [2]; [3]]
      = Ok (if decide (root = [12]) then None else Some ErrWitnessCommitmentMismatch).
Proof.
  destruct (witness_commitment_checked (fun h : hash => h) (fun h => h) (fun _ => 1) (fun _ => [[12]]) toy_hash Z.log2
    (fun _ _ => eq_refl) [1] [[2]; [3]] [12] []) as (_ & _ & Hv); [simpl; lia|done|].
  destruct Hv as (root & _ & Hv); [done|]. exists root. exact Hv.
Defined.
