(* ===== verification/MedianTime.v ===== *)
(** * The median time source

    Models [btcd/blockchain/chainutil/mediantime.go]: the offset of the local
    clock, the median of the time samples of the peers.  The argument of
    [AddTimeSample] is the offset of the sample in seconds
    ([int64(timeVal.Sub(now).Seconds())]). *)
From stdpp Require Import gmap list sorting strings.
From Stdlib Require Import ZArith Lia.
From S2P Require Import Prelude.

Open Scope Z_scope.

Definition maxAllowedOffsetSecs : Z := 70 * 60.
Definition similarTimeSecs : Z := 5 * 60.
Definition maxMedianTimeEntries : Z := 201.

Record MedianTime := MkMedianTime {
  mt_knownIDs : gset string;
  mt_offsets : list Z;
  mt_offsetSecs : Z;
  mt_invalidTimeChecked : bool;
}.

Definition NewMedianTime : MedianTime := MkMedianTime ∅ [] 0 false.

(** [sort.Sort] on integers: the sorted list is unique. *)
Definition sort_ints (l : list Z) : list Z := merge_sort Z.le l.

(** The new state, and whether the warning about the clock is printed. *)
Definition AddTimeSample (m : MedianTime) (sourceID : string) (offsetSecs : Z)
    : outcome (MedianTime * bool) :=
  if decide (sourceID ∈ mt_knownIDs m) then Ok (m, false)
  else
    let knownIDs := {[sourceID]} ∪ mt_knownIDs m in
    let numOffsets := Z.of_nat (length (mt_offsets m)) in
    offsets ←
      (if decide (numOffsets = maxMedianTimeEntries /\ maxMedianTimeEntries > 0)
       then slice_sub (mt_offsets m) 1 numOffsets else Ok (mt_offsets m));
    let offsets := offsets ++ [offsetSecs] in
    let numOffsets := Z.of_nat (length offsets) in
    let sortedOffsets := sort_ints offsets in
    let m' := MkMedianTime knownIDs offsets (mt_offsetSecs m) (mt_invalidTimeChecked m) in
    if decide (numOffsets < 5 \/ Z.land numOffsets 0x01 <> 1) then Ok (m', false)
    else
      median ← slice_get sortedOffsets (numOffsets / 2);
      if decide (Z.abs median < maxAllowedOffsetSecs)
      then Ok (MkMedianTime knownIDs offsets median (mt_invalidTimeChecked m), false)
      else if mt_invalidTimeChecked m then Ok (MkMedianTime knownIDs offsets 0 true, false)
      else
        let remoteHasCloseTime := existsb (fun o => bool_decide (Z.abs o < similarTimeSecs)) sortedOffsets in
        Ok (MkMedianTime knownIDs offsets 0 true, negb remoteHasCloseTime).

Definition Offset (m : MedianTime) : Z := i64 (mt_offsetSecs m * 1000000000).
Definition AdjustedTime (now : Z) (m : MedianTime) : Z := now + mt_offsetSecs m.

(** ** The invariant *)

Definition median_ok (m : MedianTime) : Prop :=
  Z.of_nat (length (mt_offsets m)) <= maxMedianTimeEntries /\
  Z.abs (mt_offsetSecs m) < maxAllowedOffsetSecs /\
  (length (mt_offsets m) <= size (mt_knownIDs m))%nat.

Lemma sort_ints_perm l : sort_ints l ≡ₚ l.
Proof. apply merge_sort_Permutation. Qed.

Lemma sort_ints_length l : length (sort_ints l) = length l.
Proof. by rewrite sort_ints_perm. Qed.

Lemma sort_ints_sorted l : StronglySorted Z.le (sort_ints l).
Proof. apply StronglySorted_merge_sort; apply _. Qed.

(** [x] is a median of [l]: at most half of the list is below it, at most half above. *)
Definition is_median (x : Z) (l : list Z) : Prop :=
  x ∈ l /\ (2 * length (filter (fun y => (y < x)%Z) l) <= length l)%nat /\
  (2 * length (filter (fun y => (x < y)%Z) l) <= length l)%nat.

Global Instance is_median_perm x : Proper ((≡ₚ) ==> iff) (is_median x).
Proof. intros l l' Hp. unfold is_median. by rewrite Hp. Qed.

Lemma sorted_split l i x : StronglySorted Z.le l -> l !! i = Some x ->
  Forall (fun y => y <= x) (take i l) /\ Forall (fun y => x <= y) (drop (S i) l).
Proof.
  intros Hs. revert i. induction Hs as [|y l Hs IH Hf]; intros [|i] Hx; simpl in *; try done.
  - injection Hx as ->. by split; [constructor|].
  - destruct (IH i Hx) as [? ?]. split; [|done]. constructor; [|done].
    eapply Forall_lookup_1 in Hf; [exact Hf|exact Hx].
Qed.

Lemma filter_app_none {A} (P : A -> Prop) `{!forall x, Decision (P x)} l1 x l2 :
  Forall (fun y => ~ P y) l2 -> ~ P x -> (length (filter P (l1 ++ x :: l2)) <= length l1)%nat.
Proof.
  intros Hf Hx. rewrite filter_app, filter_cons_False by done.
  assert (filter P l2 = []) as ->.
  { clear Hx. induction Hf; [done|]. by rewrite filter_cons_False. }
  rewrite app_nil_r. apply length_filter.
Qed.

(** The middle element of the sorted list, the upper one of two, is a median of it. *)
Lemma middle_is_median l k x :
  (2 * k <= length l <= 2 * k + 1)%nat -> sort_ints l !! k = Some x -> is_median x l.
Proof.
  intros Hlen Hx. rewrite <- (sort_ints_perm l).
  pose proof (sorted_split _ _ _ (sort_ints_sorted l) Hx) as [Hlo Hhi].
  pose proof (sort_ints_length l) as Hl. set (s := sort_ints l) in *.
  pose proof (take_drop_middle s k x Hx) as Es. split; [by eapply list_elem_of_lookup_2|].
  assert (length (take k s) <= k)%nat as Hk by (rewrite length_take; lia).
  assert (2 * length (drop (S k) s) <= length s)%nat as Hk' by (rewrite length_drop; lia).
  rewrite <- Es at 1 3. split.
  - assert (length (filter (fun y => (y < x)%Z) (take k s ++ x :: drop (S k) s)) <= length (take k s))%nat
      by (apply filter_app_none; [eapply Forall_impl; [exact Hhi|]; simpl; lia|lia]). lia.
  - rewrite filter_app.
    assert (filter (fun y => x < y) (take k s) = []) as ->.
    { clear -Hlo. induction Hlo; [done|]. rewrite filter_cons_False by lia. done. }
    rewrite app_nil_l, filter_cons_False by lia.
    pose proof (length_filter (fun y => x < y) (drop (S k) s)). lia.
Qed.

(** ** Adding a sample *)

(** The offsets after a sample: the oldest one is dropped when the list is full. *)
Definition push_offset (offsets : list Z) (o : Z) : list Z :=
  (if decide (Z.of_nat (length offsets) = maxMedianTimeEntries) then tail offsets else offsets) ++ [o].

Lemma land_odd n : Z.land (Z.of_nat n) 1 = 1 <-> Nat.odd n.
Proof.
  change 1 with (2 ^ 1 - 1) at 1. rewrite land_ones_mod by lia. change (2 ^ 1) with 2.
  rewrite Is_true_true, Nat.odd_spec, Zmod_odd. destruct (Z.odd (Z.of_nat n)) eqn:E.
  - apply Z.odd_spec in E as [k Ek]. split; [|done]. intros _. exists (Z.to_nat k). lia.
  - split; [done|]. intros [k ->]. exfalso.
    replace (Z.of_nat (2 * k + 1)) with (1 + 2 * Z.of_nat k) in E by lia.
    by rewrite Z.odd_add_mul_2 in E.
Qed.

(** What [AddTimeSample] does, on every branch. *)
Lemma AddTimeSample_ok m id o :
  median_ok m ->
  exists m' warn, AddTimeSample m id o = Ok (m', warn) /\ median_ok m' /\
    if decide (id ∈ mt_knownIDs m) then m' = m
    else
      mt_knownIDs m' = {[id]} ∪ mt_knownIDs m /\
      mt_offsets m' = push_offset (mt_offsets m) o /\
      if decide (5 <= length (mt_offsets m') /\ Nat.odd (length (mt_offsets m')))%nat
      then exists median, is_median median (mt_offsets m') /\
             mt_offsetSecs m' = if decide (Z.abs median < maxAllowedOffsetSecs) then median else 0
      else mt_offsetSecs m' = mt_offsetSecs m.
Proof.
  intros Hok. pose proof Hok as (Hlen & Habs & Hsz). unfold AddTimeSample.
  destruct (decide (id ∈ mt_knownIDs m)) as [Hin|Hnin]; [by eauto|].
  set (offs := if decide (Z.of_nat (length (mt_offsets m)) = maxMedianTimeEntries)
               then tail (mt_offsets m) else mt_offsets m).
  assert ((if decide (Z.of_nat (length (mt_offsets m)) = maxMedianTimeEntries /\ maxMedianTimeEntries > 0)
    then slice_sub (mt_offsets m) 1 (Z.of_nat (length (mt_offsets m))) else Ok (mt_offsets m)) = Ok offs) as ->.
  { unfold offs. unfold maxMedianTimeEntries in *. repeat case_decide; try lia; [|done].
    rewrite slice_sub_ok by lia. destruct (mt_offsets m) as [|x l]; [done|]. simpl.
    rewrite drop_0, take_ge by lia. done. }
  rewrite outcome_bind_ok. change (offs ++ [o]) with (push_offset (mt_offsets m) o).
  set (offsets := push_offset (mt_offsets m) o).
  assert (Z.of_nat (length offsets) <= maxMedianTimeEntries /\
    (length offsets <= S (length (mt_offsets m)))%nat) as [Hlen' Hgrow].
  { unfold offsets, push_offset. rewrite length_app. simpl. unfold maxMedianTimeEntries in *.
    case_decide; [|lia]. destruct (mt_offsets m); simpl in *; lia. }
  assert (size (mt_knownIDs m) < size ({[id]} ∪ mt_knownIDs m))%nat as Hgrow'.
  { rewrite size_union, size_singleton by set_solver. lia. }
  assert (forall sec inv, Z.abs sec < maxAllowedOffsetSecs ->
    median_ok (MkMedianTime ({[id]} ∪ mt_knownIDs m) offsets sec inv)) as Hmk.
  { intros sec inv Hsec. split_and!; simpl; [done|done|lia]. }
  assert (0 < maxAllowedOffsetSecs) by done.
  pose proof (land_odd (length offsets)) as Hodd.
  case_decide as Hfew.
  { eexists _, _. split; [done|]. split; [by apply Hmk|]. simpl. split_and!; [done..|].
    rewrite decide_False; [done|]. intros [? ?%Hodd]. lia. }
  assert (Z.land (Z.of_nat (length offsets)) 1 = 1) as Hodd1 by lia.
  apply Hodd in Hodd1 as Hodd2. pose proof Hodd2 as Hk. apply Is_true_true, Nat.odd_spec in Hk as [k Hk].
  replace (Z.of_nat (length offsets) / 2) with (Z.of_nat k) by (apply Z.div_unique with 1; lia).
  destruct (lookup_lt_is_Some_2 (sort_ints offsets) k) as [med Hmed]; [rewrite sort_ints_length; lia|].
  rewrite (slice_get_ok _ _ med), outcome_bind_ok by (rewrite ?Nat2Z.id; done || lia).
  apply (middle_is_median offsets) in Hmed; [|lia].
  destruct (decide (Z.abs med < maxAllowedOffsetSecs)) as [Hin|Hout].
  - eexists _, _. split; [done|]. split; [by apply Hmk|]. simpl. split_and!; [done..|].
    rewrite decide_True by (split; [lia|done]). exists med. by rewrite decide_True.
  - destruct (mt_invalidTimeChecked m); (eexists _, _; split; [done|]; split; [by apply Hmk|]; simpl;
      split_and!; [done..|]; rewrite decide_True by (split; [lia|done]); exists med; by rewrite decide_False).
Qed.

Fixpoint add_samples (m : MedianTime) (samples : list (string * Z)) : outcome MedianTime :=
  match samples with
  | [] => Ok m
  | (id, o) :: samples => '(m, _) ← AddTimeSample m id o; add_samples m samples
  end.

Lemma add_samples_ok samples : forall m, median_ok m ->
  exists m', add_samples m samples = Ok m' /\ median_ok m'.
Proof.
  induction samples as [|[id o] samples IH]; intros m Hok; simpl; [by eauto|].
  destruct (AddTimeSample_ok m id o Hok) as (m' & w & -> & Hok' & _). simpl. auto.
Qed.

Lemma NewMedianTime_ok : median_ok NewMedianTime.
Proof. split_and!; done. Qed.

(** ** The theorems *)

(** Whatever samples the peers send, adding them never panics, the list of
    offsets stays within its bound, and the local clock is never adjusted by 70
    minutes or more. *)
Theorem clock_skew_bounded (samples : list (string * Z)) (now : Z) :
  exists m, add_samples NewMedianTime samples = Ok m /\
    Z.abs (AdjustedTime now m - now) < 70 * 60 /\ Z.of_nat (length (mt_offsets m)) <= 201.
Proof.
  destruct (add_samples_ok samples _ NewMedianTime_ok) as (m & Hr & Hlen & Habs & _).
  exists m. split; [done|]. unfold AdjustedTime, maxAllowedOffsetSecs, maxMedianTimeEntries in *. lia.
Qed.

(** In every reachable state a sample of a known source changes nothing; a
    sample of a new one makes the offset a true median of the samples kept
    whenever their number is odd and at least five (zero when the median is 70
    minutes or more away) and leaves the offset alone otherwise.  The list holds
    an odd number of samples once it is full, so the offset is then updated by
    every new sample. *)
Theorem offset_is_median (samples : list (string * Z)) (id : string) (o : Z) :
  exists m m' warn, add_samples NewMedianTime samples = Ok m /\ AddTimeSample m id o = Ok (m', warn) /\
    if decide (id ∈ mt_knownIDs m) then m' = m
    else
      mt_offsets m' = push_offset (mt_offsets m) o /\
      if decide (5 <= length (mt_offsets m') /\ Nat.odd (length (mt_offsets m')))%nat
      then exists median, is_median median (mt_offsets m') /\
             mt_offsetSecs m' = if decide (Z.abs median < maxAllowedOffsetSecs) then median else 0
      else mt_offsetSecs m' = mt_offsetSecs m.
Proof.
  destruct (add_samples_ok samples _ NewMedianTime_ok) as (m & Hr & Hok).
  destruct (AddTimeSample_ok m id o Hok) as (m' & warn & Ha & _ & Hm'). exists m, m', warn.
  split_and!; [done..|]. case_decide; naive_solver.
Qed.
