(* ===== verification/BlockIndex.v ===== *)
(** * Block nodes and the block index

    Models [btcd/blockchain/chainutil/blockindex.go]: the nodes of the block tree,
    linked to their parents, and the index of the nodes with its dirty set and
    its tips.  The nodes live in a heap shared by the index and the chain views;
    the chain specific [Data] of a node is part of it. *)
From stdpp Require Import gmap list sorting.
From Stdlib Require Import ZArith Lia.
From S2P Require Import Prelude MedianTime.

Open Scope Z_scope.

Abbreviation bhash := (list Z).

Definition StatusDataStored : Z := 1.
Definition StatusValid : Z := 2.
Definition StatusValidateFailed : Z := 4.
Definition StatusInvalidAncestor : Z := 8.
Definition MedianTimeBlocks : Z := 11.

Definition HaveData (status : Z) : bool := bool_decide (Z.land status StatusDataStored <> 0).
Definition KnownValid (status : Z) : bool := bool_decide (Z.land status StatusValid <> 0).
Definition KnownInvalid (status : Z) : bool :=
  bool_decide (Z.land status (Z.lor StatusValidateFailed StatusInvalidAncestor) <> 0).

Record BlockNode := MkNode {
  bn_Parent : ptr;
  bn_Hash : bhash;
  bn_Height : Z;
  bn_Status : Z;
  bn_TimeStamp : Z;
  bn_Version : Z;
  bn_Nonce : Z;
  bn_MerkleRoot : bhash;
  bn_ContractExec : Z;
}.
Abbreviation bheap := (gmap loc BlockNode).

Definition set_status (s : Z) (n : BlockNode) : BlockNode :=
  MkNode (bn_Parent n) (bn_Hash n) (bn_Height n) s (bn_TimeStamp n) (bn_Version n) (bn_Nonce n) (bn_MerkleRoot n) (bn_ContractExec n).

Fixpoint ancestor_loop (fuel : nat) (h : bheap) (n : ptr) (height : Z) : outcome ptr :=
  match n with
  | None => Ok None
  | Some _ =>
      nd ← load h n;
      if decide (bn_Height nd = height) then Ok n
      else match fuel with O => NoFuel | S fuel => ancestor_loop fuel h (bn_Parent nd) height end
  end.

Definition Ancestor (h : bheap) (node : ptr) (height : Z) : outcome ptr :=
  nd ← load h node;
  if decide (height < 0 \/ height > bn_Height nd) then Ok None
  else ancestor_loop (Z.to_nat (bn_Height nd)) h node height.

Definition RelativeAncestor (h : bheap) (node : ptr) (distance : Z) : outcome ptr :=
  nd ← load h node;
  Ancestor h node (i32 (bn_Height nd - distance)).

(** The time stamps of the node and of its ancestors, at most [n] of them. *)
Fixpoint past_timestamps (n : nat) (h : bheap) (iterNode : ptr) : outcome (list Z) :=
  match n, iterNode with
  | O, _ | _, None => Ok []
  | S n, Some _ =>
      nd ← load h iterNode;
      rest ← past_timestamps n h (bn_Parent nd);
      Ok (bn_TimeStamp nd :: rest)
  end.

Definition CalcPastMedianTime (h : bheap) (node : ptr) : outcome Z :=
  timestamps ← past_timestamps (Z.to_nat MedianTimeBlocks) h node;
  slice_get (sort_ints timestamps) (Z.of_nat (length timestamps) / 2).

(** [dirty]: the nodes that the source maps to [true]. *)
Record BlockIndex := MkIndex {
  bi_index : gmap bhash loc;
  bi_dirty : gset loc;
  bi_Cutoff : Z;
  bi_Tips : gmap bhash loc;
}.

Definition NewBlockIndex : BlockIndex := MkIndex ∅ ∅ 0 ∅.

Definition set_dirty (bi : BlockIndex) (d : gset loc) : BlockIndex :=
  MkIndex (bi_index bi) d (bi_Cutoff bi) (bi_Tips bi).

Definition HaveBlock (bi : BlockIndex) (hash : bhash) : bool := bool_decide (is_Some (bi_index bi !! hash)).
Definition LookupNode (bi : BlockIndex) (hash : bhash) : ptr := bi_index bi !! hash.

(** [for _, node := range bi.index], in an order of the map. *)
Fixpoint highest_loop (h : bheap) (nodes : list loc) (hi : Z) (high : ptr) : outcome ptr :=
  match nodes with
  | [] => Ok high
  | a :: nodes =>
      nd ← load h (Some a);
      if decide (bn_Height nd > hi) then highest_loop h nodes (bn_Height nd) (Some a)
      else highest_loop h nodes hi high
  end.
Definition Highest (h : bheap) (bi : BlockIndex) : outcome ptr :=
  highest_loop h (map_to_list (bi_index bi)).*2 (-1) None.

(** The tips without the parent of a new node. *)
Definition drop_parent (h : bheap) (tips : gmap bhash loc) (nd : BlockNode) : outcome (gmap bhash loc) :=
  match bn_Parent nd with
  | None => Ok tips
  | Some _ => p ← load h (bn_Parent nd); Ok (delete (bn_Hash p) tips)
  end.

Definition AddNodeDirect (h : bheap) (bi : BlockIndex) (node : loc) : outcome BlockIndex :=
  nd ← load h (Some node);
  tips ← drop_parent h (bi_Tips bi) nd;
  Ok (MkIndex (<[bn_Hash nd := node]> (bi_index bi)) (bi_dirty bi) (bi_Cutoff bi) tips).

Definition AddNodeUL (h : bheap) (bi : BlockIndex) (node : loc) : outcome BlockIndex :=
  nd ← load h (Some node);
  tips ← drop_parent h (bi_Tips bi) nd;
  Ok (MkIndex (<[bn_Hash nd := node]> (bi_index bi)) (bi_dirty bi) (bi_Cutoff bi)
        (<[bn_Hash nd := node]> tips)).

Definition AddNode (h : bheap) (bi : BlockIndex) (node : loc) : outcome BlockIndex :=
  bi ← AddNodeUL h bi node;
  Ok (set_dirty bi ({[node]} ∪ bi_dirty bi)).

Definition Untip (bi : BlockIndex) (hash : bhash) : BlockIndex :=
  MkIndex (bi_index bi) (bi_dirty bi) (bi_Cutoff bi) (delete hash (bi_Tips bi)).

Definition NodeStatus (h : bheap) (node : ptr) : outcome Z := nd ← load h node; Ok (bn_Status nd).

Definition SetStatusFlags (h : bheap) (bi : BlockIndex) (node : loc) (flags : Z)
    : outcome (bheap * BlockIndex) :=
  h ← modify h (Some node) (fun nd => set_status (Z.lor (bn_Status nd) flags) nd);
  Ok (h, set_dirty bi ({[node]} ∪ bi_dirty bi)).

Definition UnsetStatusFlags (h : bheap) (bi : BlockIndex) (node : loc) (flags : Z)
    : outcome (bheap * BlockIndex) :=
  h ← modify h (Some node) (fun nd => set_status (Z.ldiff (bn_Status nd) flags) nd);
  Ok (h, set_dirty bi ({[node]} ∪ bi_dirty bi)).

(** [dbStoreBlockNode] on the database transaction; [None] is an error, which
    discards the transaction. *)
Fixpoint store_dirty {DB} (dbStoreBlockNode : DB -> BlockNode -> option DB) (h : bheap) (nodes : list loc) (db : DB)
    : outcome (option DB) :=
  match nodes with
  | [] => Ok (Some db)
  | a :: nodes =>
      nd ← load h (Some a);
      match dbStoreBlockNode db nd with
      | None => Ok None
      | Some db => store_dirty dbStoreBlockNode h nodes db
      end
  end.

(** The new database and index, and whether it succeeded. *)
Definition FlushToDB {DB} (dbStoreBlockNode : DB -> BlockNode -> option DB) (h : bheap) (bi : BlockIndex) (db : DB)
    : outcome (DB * BlockIndex * bool) :=
  if decide (size (bi_dirty bi) = 0%nat) then Ok (db, bi, true)
  else
    r ← store_dirty dbStoreBlockNode h (elements (bi_dirty bi)) db;
    match r with
    | Some db => Ok (db, set_dirty bi ∅, true)
    | None => Ok (db, bi, false)
    end.

(** ** Branches of the block tree *)

(** [branch h r]: [r] lists nodes from a genesis block up, each the parent of the
    next, the node at index [i] of height [i]. *)
Definition branch (h : bheap) (r : list loc) : Prop :=
  forall i a, r !! i = Some a ->
    exists nd, h !! a = Some nd /\ bn_Height nd = Z.of_nat i /\
      bn_Parent nd = match i with O => None | S j => r !! j end.

Lemma branch_lookup h r i a : branch h r -> r !! i = Some a ->
  exists nd, h !! a = Some nd /\ bn_Height nd = Z.of_nat i /\
      bn_Parent nd = match i with O => None | S j => r !! j end.
Proof. intros Hb. apply Hb. Qed.

Lemma branch_lt {A} (r : list A) i a : r !! S i = Some a -> is_Some (r !! i).
Proof. intros ?%lookup_lt_Some. apply lookup_lt_is_Some. lia. Qed.

(** Two branches through a node agree below it. *)
Lemma branch_agree h r r' i a : branch h r -> branch h r' ->
  r !! i = Some a -> r' !! i = Some a -> forall j, (j <= i)%nat -> r !! j = r' !! j.
Proof.
  intros Hb Hb'. revert a. induction i as [|i IH]; intros a Ha Ha' j Hj.
  { by replace j with 0%nat by lia; rewrite Ha, Ha'. }
  destruct (decide (j = S i)) as [->|]; [by rewrite Ha, Ha'|].
  destruct (branch_lt r i a Ha) as [b Hri].
  destruct (branch_lookup h r _ _ Hb Ha) as (nd & Hnd & _ & Hp).
  destruct (branch_lookup h r' _ _ Hb' Ha') as (nd' & Hnd' & _ & Hp').
  simpl in Hp, Hp'. simplify_eq. apply (IH b); [done|congruence|lia].
Qed.

(** A node is at one height only. *)
Lemma branch_height h r i a nd : branch h r -> r !! i = Some a -> h !! a = Some nd -> bn_Height nd = Z.of_nat i.
Proof. intros Hb Ha Hnd. destruct (Hb i a Ha) as (nd' & ? & ? & _). by simplify_eq. Qed.

Lemma branch_take h r n : branch h r -> branch h (take n r).
Proof.
  intros Hb i a [Ha Hi]%lookup_take_Some. destruct (Hb i a Ha) as (nd & ? & ? & Hp).
  exists nd. split_and!; [done..|]. destruct i; [done|]. rewrite Hp. by rewrite lookup_take_lt by lia.
Qed.

Lemma ancestor_loop_ok h r k : branch h r -> forall i a fuel, r !! i = Some a -> (k <= i <= fuel + k)%nat ->
  ancestor_loop fuel h (Some a) (Z.of_nat k) = Ok (r !! k).
Proof.
  intros Hb. induction i as [|i IH]; intros a fuel Ha Hk; destruct (Hb _ _ Ha) as (nd & Hnd & Hh & Hp).
  - destruct fuel; simpl; rewrite Hnd; simpl; rewrite decide_True by lia; f_equal; by replace k with 0%nat by lia.
  - destruct fuel; simpl; rewrite Hnd; simpl; case_decide.
    + f_equal. by replace k with (S i) by lia.
    + lia.
    + f_equal. by replace k with (S i) by lia.
    + rewrite Hp. destruct (branch_lt r i a Ha) as [b Hri]. rewrite Hri. apply IH; [done|lia].
Qed.

Lemma Ancestor_ok h r i a height : branch h r -> r !! i = Some a ->
  Ancestor h (Some a) height =
    Ok (if decide (0 <= height <= Z.of_nat i) then r !! Z.to_nat height else None).
Proof.
  intros Hb Ha. destruct (Hb _ _ Ha) as (nd & Hnd & Hh & Hp). unfold Ancestor. simpl. rewrite Hnd. simpl.
  rewrite Hh. destruct (decide (0 <= height <= Z.of_nat i)) as [Hin|Hout].
  - rewrite decide_False by lia. rewrite <- (Z2Nat.id height) at 1 by lia.
    apply (ancestor_loop_ok h r _ Hb i); [done|lia].
  - by rewrite decide_True by lia.
Qed.

(** ** Past median time *)

(** The last [n] nodes of the branch up to [i], newest first. *)
Definition last_nodes (r : list loc) (n i : nat) : list loc := take n (reverse (take (S i) r)).

Lemma last_nodes_S r n i a : r !! i = Some a ->
  last_nodes r (S n) i = a :: match i with O => [] | S j => last_nodes r n j end.
Proof.
  intros Ha. unfold last_nodes. rewrite (take_S_r _ _ _ Ha), reverse_snoc. simpl. f_equal.
  by destruct i, n.
Qed.

Lemma past_timestamps_ok h r n : branch h r -> forall i a, r !! i = Some a ->
  exists ts, past_timestamps n h (Some a) = Ok ts /\
    Forall2 (fun b t => exists nd, h !! b = Some nd /\ bn_TimeStamp nd = t) (last_nodes r n i) ts.
Proof.
  intros Hb. induction n as [|n IH]; intros i a Ha.
  { exists []. split; [done|]. unfold last_nodes. simpl. constructor. }
  rewrite (last_nodes_S r n i a Ha). destruct (Hb _ _ Ha) as (nd & Hnd & _ & Hp). simpl. rewrite Hnd. simpl.
  destruct i as [|i]; rewrite Hp.
  - assert (past_timestamps n h None = Ok []) as -> by by destruct n. simpl.
    eexists. split; [done|]. repeat constructor. eauto.
  - destruct (branch_lt r i a Ha) as [b Hri]. rewrite Hri. destruct (IH i b Hri) as (ts & -> & Hts). simpl.
    eexists. split; [done|]. constructor; eauto.
Qed.

(** ** The index and its tips *)

(** Every entry of the index is a node of the heap under its own hash. *)
Definition index_ok (h : bheap) (bi : BlockIndex) : Prop :=
  forall k a, bi_index bi !! k = Some a -> exists nd, h !! a = Some nd /\ bn_Hash nd = k.

(** [a] has a child in the index. *)
Definition has_child (h : bheap) (bi : BlockIndex) (a : loc) : Prop :=
  exists k b nd, bi_index bi !! k = Some b /\ h !! b = Some nd /\ bn_Parent nd = Some a.

(** The tips are the nodes of the index without a child in it. *)
Definition tips_ok (h : bheap) (bi : BlockIndex) : Prop :=
  forall k a, bi_Tips bi !! k = Some a <-> bi_index bi !! k = Some a /\ ~ has_child h bi a.

Definition bi_ok (h : bheap) (bi : BlockIndex) : Prop := index_ok h bi /\ tips_ok h bi.

(** A node that may be added: its hash is new, its parent is in the index, and no
    node of the index has it as parent. *)
Definition addable (h : bheap) (bi : BlockIndex) (node : loc) : Prop :=
  exists nd, h !! node = Some nd /\ bi_index bi !! bn_Hash nd = None /\ ~ has_child h bi node /\
    bn_Parent nd <> Some node /\
    match bn_Parent nd with
    | None => True
    | Some p => exists pn, h !! p = Some pn /\ bi_index bi !! bn_Hash pn = Some p
    end.

Lemma has_child_add h bi bi' node nd a :
  h !! node = Some nd -> bi_index bi !! bn_Hash nd = None ->
  bi_index bi' = <[bn_Hash nd := node]> (bi_index bi) ->
  has_child h bi' a <-> has_child h bi a \/ bn_Parent nd = Some a.
Proof.
  intros Hnd Hnew Hix. unfold has_child. rewrite Hix. split.
  - intros (k & b & x & Hk & Hb & Hp). destruct (decide (k = bn_Hash nd)) as [->|].
    + rewrite lookup_insert_eq in Hk. simplify_eq. by right.
    + rewrite lookup_insert_ne in Hk by done. left. by exists k, b, x.
  - intros [(k & b & x & Hk & Hb & Hp)|Hp].
    + exists k, b, x. rewrite lookup_insert_ne by congruence. done.
    + exists (bn_Hash nd), node, nd. by rewrite lookup_insert_eq.
Qed.

Lemma AddNodeUL_ok h bi node : bi_ok h bi -> addable h bi node ->
  exists bi', AddNodeUL h bi node = Ok bi' /\ bi_ok h bi' /\ bi_dirty bi' = bi_dirty bi /\
    exists nd, h !! node = Some nd /\ bi_index bi' = <[bn_Hash nd := node]> (bi_index bi).
Proof.
  intros [Hix Htips] (nd & Hnd & Hnew & Hleaf & Hself & Hpar). unfold AddNodeUL. simpl. rewrite Hnd. simpl.
  unfold tips_ok in Htips.
  assert (exists tips, drop_parent h (bi_Tips bi) nd = Ok tips /\
    forall k a, tips !! k = Some a <-> bi_Tips bi !! k = Some a /\ bn_Parent nd <> Some a) as (tips & -> & Ht).
  { unfold drop_parent. destruct (bn_Parent nd) as [p|]; [|exists (bi_Tips bi); split; [done|naive_solver]].
    destruct Hpar as (pn & Hpn & Hpi). simpl. rewrite Hpn. simpl. eexists. split; [done|]. intros k a.
    rewrite lookup_delete_Some, Htips. split; [|naive_solver].
    intros (Hk & Hka & ?). split; [naive_solver|]. intros [= <-].
    destruct (Hix k p) as (pn' & ? & <-); [done|]. naive_solver. }
  simpl. set (bi' := MkIndex _ _ _ _). exists bi'. split; [done|].
  assert (forall a, has_child h bi' a <-> has_child h bi a \/ bn_Parent nd = Some a) as Hch
    by (intros a; by apply (has_child_add h bi bi' node nd a)).
  split; [split|].
  - intros k a. simpl. destruct (decide (bn_Hash nd = k)) as [<-|].
    + rewrite lookup_insert_eq. intros [= <-]. eauto.
    + rewrite lookup_insert_ne by done. apply Hix.
  - intros k a. rewrite Hch. simpl. destruct (decide (bn_Hash nd = k)) as [<-|].
    + rewrite !lookup_insert_eq. naive_solver.
    + rewrite !lookup_insert_ne, Ht, Htips by done. naive_solver.
  - split; [done|]. by exists nd.
Qed.

Lemma highest_loop_ok h l : forall hi high,
  Forall (fun a => is_Some (h !! a)) l ->
  (match high with None => hi = -1 | Some a => exists nd, h !! a = Some nd /\ bn_Height nd = hi end) ->
  exists r, highest_loop h l hi high = Ok r /\ (r = high \/ exists a, r = Some a /\ a ∈ l) /\
    (forall nd, load h r = Ok nd -> hi <= bn_Height nd) /\
    (forall a nd, a ∈ l -> h !! a = Some nd -> 0 <= bn_Height nd ->
       exists nd', load h r = Ok nd' /\ bn_Height nd <= bn_Height nd').
Proof.
  induction l as [|a l IH]; intros hi high Hl Hhi; simpl.
  { exists high. split_and!; [done|by left| |by intros ? ? ?%elem_of_nil].
    destruct high as [a|]; [|done]. destruct Hhi as (nd & Hnd & <-). simpl. rewrite Hnd. intros ? [= <-]. lia. }
  apply Forall_cons in Hl as [[nd Hnd] Hl]. rewrite Hnd. simpl. case_decide.
  - destruct (IH (bn_Height nd) (Some a) Hl) as (r & -> & Hr & Hge & Hmax); [by eauto|].
    exists r. split_and!; [done| | |].
    + right. destruct Hr as [->|(b & -> & ?)]; eexists; (split; [done|]); set_solver.
    + intros x Hx. specialize (Hge x Hx). lia.
    + intros b x [->|Hb]%elem_of_cons Hx Hnn; [|by eapply Hmax]. simplify_eq.
      assert (exists nd', load h r = Ok nd') as [nd' Hnd'].
      { destruct Hr as [->|(b & -> & Hb)]; [simpl; rewrite Hnd; by eauto|].
        eapply Forall_forall in Hl as [y Hy]; [|exact Hb]. simpl. rewrite Hy. eauto. }
      exists nd'. split; [done|]. by apply Hge.
  - destruct (IH hi high Hl Hhi) as (r & -> & Hr & Hge & Hmax). exists r. split_and!; [done| |done|].
    + destruct Hr as [->|(b & -> & ?)]; [by left|right]. eexists. split; [done|]. set_solver.
    + intros b x [->|Hb]%elem_of_cons Hx Hnn; [|by eapply Hmax]. simplify_eq.
      destruct high as [c|]; [|lia]. destruct Hhi as (cn & Hcn & Hch).
      assert (exists nd', load h r = Ok nd') as [nd' Hnd'].
      { destruct Hr as [->|(b & -> & Hb)]; [simpl; rewrite Hcn; by eauto|].
        eapply Forall_forall in Hl as [y Hy]; [|exact Hb]. simpl. rewrite Hy. eauto. }
      exists nd'. split; [done|]. specialize (Hge nd' Hnd'). lia.
Qed.

(** ** The theorems *)

(** From any node of a branch, [Ancestor] returns the node of the branch at the
    given height, nil for a height that is negative or above the node, and
    [RelativeAncestor] the node that many blocks below. *)
Theorem ancestor_is_on_branch (h : bheap) (r : list loc) (i : nat) (a : loc)
    (Hb : branch h r) (Ha : r !! i = Some a) :
  (forall height, Ancestor h (Some a) height =
     Ok (if decide (0 <= height <= Z.of_nat i) then r !! Z.to_nat height else None)) /\
  (forall distance, sint_range 32 (Z.of_nat i - distance) -> RelativeAncestor h (Some a) distance =
     Ok (if decide (0 <= distance <= Z.of_nat i) then r !! (i - Z.to_nat distance)%nat else None)).
Proof.
  split; [intros; by apply Ancestor_ok|]. intros distance Hd.
  destruct (Hb _ _ Ha) as (nd & Hnd & Hh & _). unfold RelativeAncestor. simpl. rewrite Hnd. simpl.
  rewrite Hh, swrap_id, (Ancestor_ok h r i a) by done. f_equal. repeat case_decide; try lia; try done.
  f_equal. lia.
Qed.

(** A chain of three blocks. *)
Definition three_blocks : bheap :=
  {[1%positive := MkNode None [10] 0 0 100 0 0 [] 0; 2%positive := MkNode (Some 1%positive) [20] 1 0 300 3 0 [] 0;
    3%positive := MkNode (Some 2%positive) [30] 2 0 200 3 0 [] 0]}.

Lemma three_blocks_branch : branch three_blocks [1; 2; 3]%positive.
Proof.
  intros [|[|[|i]]] a [= <-]; eexists; (split; [vm_compute; reflexivity|]); done.
Qed.

Lemma ancestor_witness : Ancestor three_blocks (Some 3%positive) 1 = Ok (Some 2%positive).
Proof.
  destruct (ancestor_is_on_branch three_blocks [1; 2; 3]%positive 2 3%positive three_blocks_branch eq_refl)
    as [Hanc _]. rewrite Hanc. reflexivity.
Defined.

Lemma CalcPastMedianTime_ok (h : bheap) (r : list loc) (i : nat) (a : loc)
    (Hb : branch h r) (Ha : r !! i = Some a) :
  exists ts t, CalcPastMedianTime h (Some a) = Ok t /\ is_median t ts /\ length ts = Nat.min 11 (S i) /\
    Forall2 (fun b t => exists nd, h !! b = Some nd /\ bn_TimeStamp nd = t)
      (take 11 (reverse (take (S i) r))) ts.
Proof.
  destruct (past_timestamps_ok h r 11 Hb i a Ha) as (ts & Hts & Hf).
  assert (length ts = Nat.min 11 (S i)) as Hlen.
  { rewrite <- (Forall2_length _ _ _ Hf). unfold last_nodes. rewrite length_take, length_reverse, length_take.
    apply lookup_lt_Some in Ha. lia. }
  set (k := (length ts / 2)%nat). assert (2 * k <= length ts <= 2 * k + 1)%nat as Hk.
  { pose proof (Nat.div_mod_eq (length ts) 2). pose proof (Nat.mod_upper_bound (length ts) 2). unfold k. lia. }
  destruct (lookup_lt_is_Some_2 (sort_ints ts) k) as [t Ht]; [rewrite sort_ints_length; lia|].
  exists ts, t. split_and!; [|by eapply middle_is_median|done|exact Hf].
  unfold CalcPastMedianTime. change (Z.to_nat MedianTimeBlocks) with 11%nat. rewrite Hts, outcome_bind_ok.
  apply slice_get_ok; [apply Z.div_pos; lia|].
  replace (Z.to_nat (Z.of_nat (length ts) / 2)) with k; [done|].
  unfold k. change 2 with (Z.of_nat 2). rewrite <- Nat2Z.inj_div. lia.
Qed.

(** The past median time of a node is a median of the time stamps of the
    node and its ancestors, of eleven of them when there are as many. *)
Theorem past_median_time_is_median (h : bheap) (r : list loc) (i : nat) (a : loc)
    (Hb : branch h r) (Ha : r !! i = Some a) :
  exists ts t, CalcPastMedianTime h (Some a) = Ok t /\ is_median t ts /\ length ts = Nat.min 11 (S i) /\
    Forall2 (fun b t => exists nd, h !! b = Some nd /\ bn_TimeStamp nd = t)
      (take 11 (reverse (take (S i) r))) ts.
Proof. by apply CalcPastMedianTime_ok. Qed.

Lemma past_median_witness : exists ts t, CalcPastMedianTime three_blocks (Some 3%positive) = Ok t /\ is_median t ts.
Proof.
  destruct (past_median_time_is_median three_blocks [1; 2; 3]%positive 2 3%positive three_blocks_branch eq_refl)
    as (ts & t & ? & ? & _). by exists ts, t.
Defined.

(** [AddNode] of a new block whose parent is indexed keeps the tips exactly the
    indexed nodes without an indexed child, adds the node to the index, where it
    is found under its hash, and marks it dirty. *)
Theorem add_node_keeps_tips (h : bheap) (bi : BlockIndex) (node : loc)
    (Hok : bi_ok h bi) (Hadd : addable h bi node) :
  exists bi' nd, AddNode h bi node = Ok bi' /\ h !! node = Some nd /\ bi_ok h bi' /\
    (forall k, LookupNode bi' k = if decide (k = bn_Hash nd) then Some node else LookupNode bi k) /\
    bi_dirty bi' = {[node]} ∪ bi_dirty bi.
Proof.
  destruct (AddNodeUL_ok h bi node Hok Hadd) as (bi' & Hr & Hok' & Hd & nd & Hnd & Hix).
  exists (set_dirty bi' ({[node]} ∪ bi_dirty bi')), nd. unfold AddNode. rewrite Hr. simpl.
  split_and!; [done|done| | |by rewrite Hd].
  - destruct Hok' as [H1 H2]. by split.
  - intros k. unfold LookupNode. simpl. rewrite Hix. case_decide as Hk.
    + subst. by rewrite lookup_insert_eq.
    + by rewrite lookup_insert_ne by done.
Qed.

Lemma empty_index_ok h : bi_ok h NewBlockIndex.
Proof. split; [done|]. intros k a. simpl. split; [done|]. by intros [? _]. Qed.

Lemma add_node_witness :
  exists bi' nd, AddNode three_blocks NewBlockIndex 1%positive = Ok bi' /\ three_blocks !! 1%positive = Some nd /\
    bi_ok three_blocks bi'.
Proof.
  destruct (add_node_keeps_tips three_blocks NewBlockIndex 1%positive (empty_index_ok _)) as (bi' & nd & ? & ? & ? & _).
  - eexists. split; [vm_compute; reflexivity|]. split; [done|]. split; [|done]. by intros (? & ? & ? & ? & _).
  - by exists bi', nd.
Defined.
