(* ===== verification/ChainView.v ===== *)
(** * Chain views

    Models [btcd/blockchain/chainutil/chainview.go]: the flat view of one branch
    of the block tree, kept up to date by [setTip], its queries, the fork point
    with another branch and the block locator. *)
From stdpp Require Import gmap list.
From Stdlib Require Import ZArith Lia.
From S2P Require Import Prelude BlockIndex.

Open Scope Z_scope.

Definition approxNodesPerWeek : Z := 6 * 24 * 7 * 200.

Definition log2FloorMasks : list Z := [0xffff0000; 0xff00; 0xf0; 0xc; 0x2].

(** The loop over the masks; [exponent] is halved at each step. *)
Fixpoint log2_loop (masks : list Z) (n rv exponent : Z) : Z :=
  match masks with
  | [] => rv
  | mask :: masks =>
      if decide (Z.land n mask <> 0)
      then log2_loop masks (Z.shiftr n exponent) (u8 (rv + exponent)) (Z.shiftr exponent 1)
      else log2_loop masks n rv (Z.shiftr exponent 1)
  end.
Definition fastLog2Floor (n : Z) : Z := log2_loop log2FloorMasks n 0 16.

(** The slice of the nodes and its capacity. *)
Record ChainView := MkView { cv_nodes : list ptr; cv_cap : Z }.

Definition cv_len (c : ChainView) : Z := Z.of_nat (length (cv_nodes c)).

Definition SetNode (c : ChainView) (height : Z) (node : ptr) : outcome ChainView :=
  nodes ← slice_set (cv_nodes c) height node;
  Ok (MkView nodes (cv_cap c)).

Definition genesis (c : ChainView) : outcome ptr :=
  if decide (cv_len c = 0) then Ok None else slice_get (cv_nodes c) 0.

Definition tip (c : ChainView) : outcome ptr :=
  if decide (cv_len c = 0) then Ok None else slice_get (cv_nodes c) (cv_len c - 1).

(** [for node != nil && c.nodes[h] != node { ... }] *)
Fixpoint set_tip_loop (fuel : nat) (hp : bheap) (nodes : list ptr) (node : ptr) (h : Z)
    : outcome (list ptr * ptr * Z) :=
  match node with
  | None => Ok (nodes, None, h)
  | Some _ =>
      cur ← slice_get nodes h;
      if decide (cur = node) then Ok (nodes, node, h)
      else
        match fuel with
        | O => NoFuel
        | S fuel =>
            nodes ← slice_set nodes h node;
            nd ← load hp node;
            set_tip_loop fuel hp nodes (bn_Parent nd) (h - 1)
        end
  end.

(** [for ; h > 0 && c.nodes[h] != nil; h-- { c.nodes[h] = nil }] *)
Fixpoint clear_loop (fuel : nat) (nodes : list ptr) (h : Z) : outcome (list ptr) :=
  if decide (h > 0) then
    cur ← slice_get nodes h;
    match cur with
    | None => Ok nodes
    | Some _ =>
        match fuel with
        | O => NoFuel
        | S fuel => nodes ← slice_set nodes h None; clear_loop fuel nodes (h - 1)
        end
    end
  else Ok nodes.

(** The slice resized to the new tip. *)
Definition resize_nodes (c : ChainView) (needed : Z) : outcome (list ptr * Z) :=
  if decide (needed < 0) then Panic
  else if decide (i32 (cv_cap c) < needed) then
    Ok (cv_nodes c ++ replicate (Z.to_nat (needed - cv_len c)) None, needed + approxNodesPerWeek)
  else
    Ok (take (Z.to_nat needed) (cv_nodes c) ++ replicate (Z.to_nat (needed - cv_len c)) None, cv_cap c).

Definition setTip (hp : bheap) (c : ChainView) (node : ptr) : outcome ChainView :=
  match node with
  | None => Ok (MkView [] (cv_cap c))
  | Some _ =>
      nd ← load hp node;
      '(nodes, cap) ← resize_nodes c (i32 (bn_Height nd + 1));
      '(nodes, node, h) ← set_tip_loop (S (length nodes)) hp nodes node (bn_Height nd);
      nodes ←
        (if decide (h > 0 /\ node = None) then clear_loop (length nodes) nodes h else Ok nodes);
      Ok (MkView nodes cap)
  end.

Definition NewChainView (hp : bheap) (node : ptr) : outcome ChainView := setTip hp (MkView [] 0) node.

Definition height (c : ChainView) : Z := i32 (cv_len c - 1).

Definition NodeByHeight (c : ChainView) (h : Z) : outcome ptr :=
  if decide (h < 0 \/ h >= i32 (cv_len c)) then Ok None else slice_get (cv_nodes c) h.

Definition Equals (c other : ChainView) : outcome bool :=
  t ← tip c;
  t' ← tip other;
  Ok (bool_decide (cv_len c = cv_len other /\ t = t')).

Definition Contains (hp : bheap) (c : ChainView) (node : ptr) : outcome bool :=
  match node with
  | None => Ok false
  | Some _ =>
      nd ← load hp node;
      n ← NodeByHeight c (bn_Height nd);
      Ok (bool_decide (n = node))
  end.

Definition next (hp : bheap) (c : ChainView) (node : ptr) : outcome ptr :=
  match node with
  | None => Ok None
  | Some _ =>
      inside ← Contains hp c node;
      if inside : bool then nd ← load hp node; NodeByHeight c (i32 (bn_Height nd + 1)) else Ok None
  end.

(** [for node != nil && !c.ContainsUL(node) { node = node.Parent }] *)
Fixpoint fork_loop (fuel : nat) (hp : bheap) (c : ChainView) (node : ptr) : outcome ptr :=
  match node with
  | None => Ok None
  | Some _ =>
      inside ← Contains hp c node;
      if inside : bool then Ok node
      else match fuel with O => NoFuel | S fuel => nd ← load hp node; fork_loop fuel hp c (bn_Parent nd) end
  end.

Definition findFork (hp : bheap) (c : ChainView) (node : ptr) : outcome ptr :=
  match node with
  | None => Ok None
  | Some _ =>
      let chainHeight := height c in
      nd ← load hp node;
      node ← (if decide (bn_Height nd > chainHeight) then Ancestor hp node chainHeight else Ok node);
      fork_loop (S (length (cv_nodes c))) hp c node
  end.

(** [for ; node != nil && node.Height > height; node = node.Parent {}] *)
Fixpoint down_loop (fuel : nat) (hp : bheap) (node : ptr) (h : Z) : outcome ptr :=
  match node with
  | None => Ok None
  | Some _ =>
      nd ← load hp node;
      if decide (bn_Height nd > h)
      then match fuel with O => NoFuel | S fuel => down_loop fuel hp (bn_Parent nd) h end
      else Ok node
  end.

Fixpoint locator_loop (fuel : nat) (hp : bheap) (c : ChainView) (cutoff : Z) (node : ptr) (nodehash : bhash)
    (h step lead : Z) (locator : list bhash) : outcome (list bhash) :=
  if decide (h > 0) then
    match fuel with
    | O => NoFuel
    | S fuel =>
        let locator := locator ++ [nodehash] in
        let h := h - step in
        if decide (h <= 0) then Ok locator
        else
          inside ← Contains hp c node;
          found ←
            (if inside : bool then slice_get (cv_nodes c) h
             else if decide (h <= i32 cutoff) then Ok None
             else down_loop (Z.to_nat (h + step)) hp node h);
          match found with
          | None => Ok locator
          | Some _ =>
              nd ← load hp found;
              let step := if decide (lead <= 0) then i32 (Z.shiftl step 1) else step in
              locator_loop fuel hp c cutoff found (bn_Hash nd) h step (lead - 1) locator
          end
    end
  else Ok locator.

(** The capacity computed for the locator. *)
Definition maxEntries (h : Z) : Z :=
  if decide (h <= 12) then u8 (u8 h + 1) else u8 (12 + fastLog2Floor (u32 (u32 h - 10))).

Definition blockLocator (hp : bheap) (c : ChainView) (node : ptr) (cutoff : Z) : outcome (option (list bhash)) :=
  node ← (match node with None => tip c | Some _ => Ok node end);
  match node with
  | None => Ok None
  | Some _ =>
      nd ← load hp node;
      locator ← locator_loop (Z.to_nat (bn_Height nd)) hp c cutoff node (bn_Hash nd) (bn_Height nd) 1 10 [];
      g ← slice_get (cv_nodes c) 0;
      gn ← load hp g;
      Ok (Some (locator ++ [bn_Hash gn]))
  end.

(** Binary search for the first non-nil node. *)
Fixpoint last_nil_loop (fuel : nat) (c : ChainView) (lo hi : Z) : outcome Z :=
  if decide (lo < hi) then
    match fuel with
    | O => NoFuel
    | S fuel =>
        let h := Z.shiftr (lo + hi) 1 in
        n ← slice_get (cv_nodes c) h;
        match n with
        | None => last_nil_loop fuel c (h + 1) hi
        | Some _ => last_nil_loop fuel c lo h
        end
    end
  else Ok hi.
Definition LastNil (c : ChainView) (lo hi : Z) : outcome Z := last_nil_loop (Z.to_nat (hi - lo)) c lo hi.

(** ** The invariant *)

(** The view holds the branch [r], whose length fits in an int32. *)
Definition view_ok (hp : bheap) (c : ChainView) (r : list loc) : Prop :=
  branch hp r /\ cv_nodes c = Some <$> r /\ 0 <= cv_cap c < 2 ^ 31 /\ cv_len c <= cv_cap c.

Definition short (r : list loc) : Prop := Z.of_nat (length r) + approxNodesPerWeek < 2 ^ 31.

Lemma view_len hp c r : view_ok hp c r -> cv_len c = Z.of_nat (length r).
Proof. intros (_ & Hn & _). unfold cv_len. by rewrite Hn, length_fmap. Qed.

(** Reading and writing the last of the nodes that are still the old ones. *)
Lemma boundary {A} (Y X : list A) i y : Y !! i = Some y ->
  slice_get (take (S i) Y ++ X) (Z.of_nat i) = Ok y /\
  (forall v, slice_set (take (S i) Y ++ X) (Z.of_nat i) v = Ok (take i Y ++ v :: X)) /\
  take (S i) Y ++ X = take i Y ++ y :: X.
Proof.
  intros Hy. pose proof (lookup_lt_Some _ _ _ Hy) as Hlt.
  assert (Z.of_nat i = Z.of_nat (length (take i Y))) as Elen by (rewrite length_take; lia).
  rewrite (take_S_r _ _ _ Hy), <- app_assoc. cbn [app].
  split_and!; [by apply slice_get_app|intros v; by apply slice_set_app|done].
Qed.

(** Below a node that both branches have, the old nodes are the new ones. *)
Lemma same_below hp r ro (Y : list ptr) i a : branch hp r -> branch hp ro ->
  length Y = length r -> (forall k p, Y !! k = Some p -> p = ro !! k) ->
  r !! i = Some a -> Y !! i = Some (Some a) ->
  take (S i) Y ++ (Some <$> drop (S i) r) = Some <$> r.
Proof.
  intros Hb Hbo HY HYo Ha Hy. pose proof (lookup_lt_Some _ _ _ Ha) as Hlt.
  assert (ro !! i = Some a) as Hro by (symmetry; by apply HYo).
  rewrite <- (take_drop (S i) r) at 2. rewrite fmap_app. f_equal. apply list_eq. intros j.
  rewrite list_lookup_fmap. destruct (decide (j < S i)%nat).
  - rewrite !lookup_take_lt by lia. destruct (lookup_lt_is_Some_2 Y j) as [z Hz]; [lia|].
    rewrite Hz, (HYo _ _ Hz), (branch_agree hp r ro i a Hb Hbo Ha Hro j) by lia.
    destruct (lookup_lt_is_Some_2 ro j) as [w Hw]; [apply lookup_lt_Some in Hro; lia|]. by rewrite Hw.
  - by rewrite !lookup_take_ge by lia.
Qed.

Lemma set_tip_loop_ok hp r ro Y : branch hp r -> branch hp ro ->
  length Y = length r -> (forall k p, Y !! k = Some p -> p = ro !! k) ->
  forall k a fuel, r !! k = Some a -> (k < fuel)%nat ->
  exists node h, set_tip_loop fuel hp (take (S k) Y ++ (Some <$> drop (S k) r)) (Some a) (Z.of_nat k) =
    Ok (Some <$> r, node, h) /\ (node = None -> h <= 0).
Proof.
  intros Hb Hbo HY HYo. induction k as [|k IH]; intros a [|fuel] Ha Hfuel; try lia;
    pose proof (lookup_lt_Some _ _ _ Ha) as Hlt.
  - destruct (lookup_lt_is_Some_2 Y 0) as [y Hy]; [lia|].
    destruct (boundary Y (Some <$> drop 1 r) 0 y Hy) as (Hget & Hset & _).
    cbn [set_tip_loop]. rewrite Hget, outcome_bind_ok. case_decide as Hc; [subst y|].
    + rewrite (same_below hp r ro Y 0 a) by done. eexists _, _. by split.
    + destruct (Hb _ _ Ha) as (nd & Hnd & Hh & Hp). rewrite Hset. simpl. rewrite Hnd. simpl. rewrite Hp.
      exists None, (-1). split; [|lia]. destruct r as [|b r]; [done|]. injection Ha as ->. by destruct fuel.
  - destruct (lookup_lt_is_Some_2 Y (S k)) as [y Hy]; [lia|].
    destruct (boundary Y (Some <$> drop (S (S k)) r) (S k) y Hy) as (Hget & Hset & _).
    cbn [set_tip_loop]. rewrite Hget, outcome_bind_ok. case_decide as Hc; [subst y|].
    + rewrite (same_below hp r ro Y (S k) a) by done. eexists _, _. by split.
    + destruct (Hb _ _ Ha) as (nd & Hnd & Hh & Hp). rewrite Hset, outcome_bind_ok. cbn [load].
      rewrite Hnd, outcome_bind_ok, Hp. destruct (branch_lt r k a Ha) as [b Hrk]. rewrite Hrk.
      replace (Z.of_nat (S k) - 1) with (Z.of_nat k) by lia.
      destruct (IH b fuel Hrk) as (node & h & Hrun & Hn); [lia|]. exists node, h. split; [|done].
      rewrite <- Hrun, (drop_S r a (S k) Ha). done.
Qed.

(** The resized slice holds the old nodes, then nils. *)
Lemma resize_nodes_ok hp c ro needed : view_ok hp c ro -> 0 < needed -> needed + approxNodesPerWeek < 2 ^ 31 ->
  exists Y cap, resize_nodes c needed = Ok (Y, cap) /\ Z.of_nat (length Y) = needed /\ needed <= cap < 2 ^ 31 /\
    forall k p, Y !! k = Some p -> p = ro !! k.
Proof.
  intros Hv Hn Hn'. pose proof (view_len _ _ _ Hv) as Hlen. destruct Hv as (Hb & Hnodes & Hcap & Hlc).
  assert (0 <= approxNodesPerWeek) by done.
  assert (forall Z k p, (Z ++ replicate (Z.to_nat (needed - cv_len c)) None) !! k = Some p ->
    Z = take (length Z) (cv_nodes c) -> (Z.of_nat (length Z) = cv_len c \/ needed <= cv_len c) -> p = ro !! k) as Hlook.
  { intros W k p Hk HW Hfull. apply lookup_app_Some in Hk as [Hk|[Hge Hk]].
    - rewrite HW in Hk. apply lookup_take_Some in Hk as [Hk _]. rewrite Hnodes, list_lookup_fmap in Hk.
      destruct (ro !! k); naive_solver.
    - apply lookup_replicate in Hk as [-> Hk]. symmetry. apply lookup_ge_None_2. lia. }
  unfold resize_nodes. rewrite decide_False by lia. rewrite swrap_id by (unfold sint_range; lia). case_decide.
  - eexists _, _. split; [done|]. split_and!; [| |lia|].
    + rewrite length_app, length_replicate. unfold cv_len in *. lia.
    + lia.
    + intros k p Hk. eapply Hlook; [exact Hk|by rewrite take_ge|by left].
  - eexists _, _. split; [done|]. split_and!; [|lia|lia|].
    + rewrite length_app, length_replicate, length_take. unfold cv_len in *. lia.
    + intros k p Hk. eapply Hlook; [exact Hk| |].
      * rewrite length_take. destruct (Nat.min_spec (Z.to_nat needed) (length (cv_nodes c))) as [[_ ->]|[? ->]];
          [done|]. by rewrite !take_ge by lia.
      * rewrite length_take. unfold cv_len in *. lia.
Qed.

Lemma setTip_ok hp c ro r a : view_ok hp c ro -> branch hp r -> last r = Some a -> short r ->
  exists c', setTip hp c (Some a) = Ok c' /\ view_ok hp c' r.
Proof.
  intros Hv Hb Hlast Hshort. unfold short in Hshort. assert (0 <= approxNodesPerWeek) by done.
  rewrite last_lookup in Hlast. destruct (length r) as [|k] eqn:Elen; [by destruct r|]. simpl in Hlast.
  destruct (Hb _ _ Hlast) as (nd & Hnd & Hh & _). unfold setTip. simpl load. rewrite Hnd, outcome_bind_ok, Hh.
  rewrite swrap_id by (unfold sint_range; lia).
  destruct (resize_nodes_ok hp c ro (Z.of_nat k + 1) Hv) as (Y & cap & -> & HY & Hcap & HYo); [lia..|].
  rewrite outcome_bind_ok. pose proof Hv as (Hbo & _).
  destruct (set_tip_loop_ok hp r ro Y Hb Hbo ltac:(lia) HYo k a (S (length Y)) Hlast) as (node & h & Hrun & Hn); [lia|].
  rewrite (drop_ge r (S k)), (take_ge Y (S k)), app_nil_r in Hrun by lia. rewrite Hrun, outcome_bind_ok.
  rewrite decide_False by (intros [? ?%Hn]; lia). simpl. eexists. split; [done|].
  split_and!; simpl; try done; try lia. unfold cv_len. simpl. rewrite length_fmap. lia.
Qed.

(** ** Queries *)

Lemma NodeByHeight_ok hp c r k : view_ok hp c r ->
  NodeByHeight c k = Ok (if decide (0 <= k) then r !! Z.to_nat k else None).
Proof.
  intros Hv. pose proof (view_len _ _ _ Hv) as Hlen. destruct Hv as (_ & Hn & Hcap & Hlc). unfold NodeByHeight.
  rewrite swrap_id by (unfold sint_range; lia). repeat case_decide; try lia; try done.
  - f_equal. symmetry. apply lookup_ge_None_2. lia.
  - destruct (lookup_lt_is_Some_2 r (Z.to_nat k)) as [a Ha]; [lia|].
    rewrite (slice_get_ok _ _ (Some a)) by (rewrite ?Hn, ?list_lookup_fmap, ?Ha; done || lia). by rewrite Ha.
Qed.

Lemma Contains_ok hp c r a nd : view_ok hp c r -> hp !! a = Some nd -> 0 <= bn_Height nd ->
  Contains hp c (Some a) = Ok (bool_decide (r !! Z.to_nat (bn_Height nd) = Some a)).
Proof.
  intros Hv Hnd Hh. unfold Contains. simpl. rewrite Hnd. simpl. rewrite (NodeByHeight_ok hp c r _ Hv). simpl.
  by rewrite decide_True.
Qed.

(** [a], at index [i] of its own branch, is in the view when the view has it there. *)
Lemma Contains_branch hp c v r i a : view_ok hp c v -> branch hp r -> r !! i = Some a ->
  Contains hp c (Some a) = Ok (bool_decide (v !! i = Some a)).
Proof.
  intros Hv Hb Ha. destruct (Hb _ _ Ha) as (nd & Hnd & Hh & _).
  rewrite (Contains_ok hp c v a nd Hv Hnd) by lia. by rewrite Hh, Nat2Z.id.
Qed.

Lemma view_height hp c r : view_ok hp c r -> height c = Z.of_nat (length r) - 1.
Proof.
  intros Hv. pose proof (view_len _ _ _ Hv) as Hlen. destruct Hv as (_ & _ & Hcap & Hlc).
  unfold height. rewrite Hlen. apply swrap_id; [lia|]. unfold sint_range. lia.
Qed.

(** The last index, up to [i], at which the branches [r] and [v] meet. *)
Fixpoint meet (r v : list loc) (i : nat) : ptr :=
  if decide (r !! i = v !! i) then r !! i else match i with O => None | S i => meet r v i end.

Lemma fork_loop_ok hp c v r : view_ok hp c v -> branch hp r -> forall i a fuel,
  r !! i = Some a -> (i < fuel)%nat -> fork_loop fuel hp c (Some a) = Ok (meet r v i).
Proof.
  intros Hv Hb. induction i as [|i IH]; intros a [|fuel] Ha Hfuel; try lia;
    cbn [fork_loop]; rewrite (Contains_branch hp c v r _ a Hv Hb Ha), outcome_bind_ok; cbn [meet]; rewrite Ha.
  - destruct (decide (Some a = v !! 0%nat)) as [E|E]; [by rewrite bool_decide_eq_true_2|].
    rewrite bool_decide_eq_false_2 by done. destruct (Hb _ _ Ha) as (nd & Hnd & _ & Hp).
    simpl. rewrite Hnd. simpl. rewrite Hp. by destruct fuel.
  - destruct (decide (Some a = v !! S i)) as [E|E]; [by rewrite bool_decide_eq_true_2|].
    rewrite bool_decide_eq_false_2 by done. destruct (Hb _ _ Ha) as (nd & Hnd & _ & Hp).
    simpl load. rewrite Hnd, outcome_bind_ok, Hp. destruct (branch_lt r i a Ha) as [b Hri]. rewrite Hri.
    apply IH; [done|lia].
Qed.

(** [fork r v]: the last block that the two branches share. *)
Definition fork (r v : list loc) : ptr := match Nat.min (length r) (length v) with O => None | S i => meet r v i end.

Lemma meet_spec r v i : (i < length r)%nat -> (i < length v)%nat ->
  match meet r v i with
  | Some a => exists j, (j <= i)%nat /\ r !! j = Some a /\ v !! j = Some a /\
                forall k, (j < k <= i)%nat -> r !! k <> v !! k
  | None => forall k, (k <= i)%nat -> r !! k <> v !! k
  end.
Proof.
  intros Hr Hv. induction i as [|i IH]; cbn [meet]; case_decide as E.
  - destruct (lookup_lt_is_Some_2 r 0 Hr) as [a Ha]. rewrite Ha in *. exists 0%nat. split_and!; auto; lia.
  - intros k Hk. by replace k with 0%nat by lia.
  - destruct (lookup_lt_is_Some_2 r (S i) Hr) as [a Ha]. rewrite Ha in *. exists (S i). split_and!; auto; lia.
  - specialize (IH ltac:(lia) ltac:(lia)). destruct (meet r v i) as [a|].
    + destruct IH as (j & ? & ? & ? & Hk). exists j. split_and!; auto. intros k ?.
      destruct (decide (k = S i)) as [->|]; [done|]. apply Hk. lia.
    + intros k ?. destruct (decide (k = S i)) as [->|]; [done|]. apply IH. lia.
Qed.

Lemma findFork_ok hp c v r a : view_ok hp c v -> branch hp r -> last r = Some a ->
  findFork hp c (Some a) = Ok (fork r v).
Proof.
  intros Hv Hb Hlast. rewrite last_lookup in Hlast.
  destruct (length r) as [|i] eqn:Elen; [by destruct r|]. simpl in Hlast.
  destruct (Hb _ _ Hlast) as (nd & Hnd & Hh & _). unfold findFork. simpl load.
  rewrite Hnd, outcome_bind_ok, Hh, (view_height hp c v Hv). unfold fork. rewrite Elen.
  assert (length (cv_nodes c) = length v) as Hcv by (destruct Hv as (_ & -> & _); by rewrite length_fmap).
  case_decide.
  - rewrite (Ancestor_ok hp r i a) by done. rewrite outcome_bind_ok.
    replace (Nat.min (S i) (length v)) with (length v) by lia.
    destruct (length v) as [|j] eqn:Ev; [done|]. rewrite decide_True by lia.
    replace (Z.to_nat (Z.of_nat (S j) - 1)) with j by lia.
    destruct (lookup_lt_is_Some_2 r j) as [b Hb']; [lia|]. rewrite Hb'.
    apply (fork_loop_ok hp c v r Hv Hb); [done|lia].
  - rewrite outcome_bind_ok. replace (Nat.min (S i) (length v)) with (S i) by lia.
    apply (fork_loop_ok hp c v r Hv Hb); [done|lia].
Qed.

(** ** The logarithm *)

(** The mask of a step selects the upper half of the bits. *)
Lemma log2_step n e : 0 < e -> 0 <= n < 2 ^ (2 * e) ->
  (Z.land n (Z.shiftl (2 ^ e - 1) e) <> 0 <-> 2 ^ e <= n) /\
  (2 ^ e <= n -> Z.log2 n = e + Z.log2 (Z.shiftr n e) /\ 0 < Z.shiftr n e < 2 ^ e).
Proof.
  intros He Hn. assert (0 < 2 ^ e) by (apply Z.pow_pos_nonneg; lia).
  assert (Z.land n (Z.shiftl (2 ^ e - 1) e) = Z.shiftl (Z.shiftr n e) e) as ->.
  { apply Z.bits_inj'. intros i Hi. rewrite Z.land_spec. replace (2 ^ e - 1) with (Z.ones e) by (rewrite Z.ones_equiv; lia).
    destruct (decide (i < e)).
    - by rewrite !Z.shiftl_spec_low, andb_false_r by lia.
    - rewrite !Z.shiftl_spec, Z.shiftr_spec by lia. replace (i - e + e) with i by lia.
      destruct (decide (i - e < e)); [rewrite Z.ones_spec_low, andb_true_r by lia; done|].
      rewrite Z.ones_spec_high, andb_false_r by lia.
      destruct (decide (n = 0)) as [->|]; [by rewrite Z.bits_0|].
      symmetry. apply Z.bits_above_log2; [lia|]. apply Z.lt_le_trans with (2 * e); [apply Z.log2_lt_pow2; lia|lia]. }
  rewrite Z.shiftl_mul_pow2, Z.shiftr_div_pow2 by lia.
  assert (2 ^ e <= n -> 0 < n / 2 ^ e < 2 ^ e) as Hq.
  { intros ?. split; [apply Z.div_str_pos; lia|]. apply Z.div_lt_upper_bound; [lia|].
    rewrite <- Z.pow_add_r by lia. replace (e + e) with (2 * e) by lia. lia. }
  split; [split|].
  - intros Hz. destruct (decide (2 ^ e <= n)); [done|]. rewrite Z.div_small in Hz by lia. lia.
  - intros ?%Hq. lia.
  - intros Hge. split; [|by apply Hq]. rewrite <- Z.shiftr_div_pow2, Z.log2_shiftr by lia.
    assert (e <= Z.log2 n) by (apply Z.log2_le_pow2; lia). lia.
Qed.

Lemma log2_loop_step mask masks n rv e : mask = Z.shiftl (2 ^ e - 1) e -> 0 < e -> 0 <= n < 2 ^ (2 * e) ->
  0 <= rv -> rv + Z.log2 n < 256 ->
  exists n' rv', log2_loop (mask :: masks) n rv e = log2_loop masks n' rv' (Z.shiftr e 1) /\
    0 <= n' < 2 ^ e /\ rv' + Z.log2 n' = rv + Z.log2 n /\ 0 <= rv' /\ (0 < n -> 0 < n').
Proof.
  intros -> He Hn Hrv Hb. destruct (log2_step n e He Hn) as [Hmask Hlog]. cbn [log2_loop].
  case_decide as Hd.
  - apply Hmask in Hd. destruct (Hlog Hd) as [El Hs]. exists (Z.shiftr n e), (rv + e).
    pose proof (Z.log2_nonneg (Z.shiftr n e)). rewrite uwrap_id by (unfold uint_range; lia).
    split_and!; [done|lia..].
  - exists n, rv. assert (n < 2 ^ e) by (destruct (decide (n < 2 ^ e)); [done|]; exfalso; apply (proj2 Hmask); [lia|done]).
    split_and!; try done; lia.
Qed.

Lemma fastLog2Floor_ok n : 0 < n < 2 ^ 32 -> fastLog2Floor n = Z.log2 n.
Proof.
  intros Hn. unfold fastLog2Floor, log2FloorMasks.
  assert (Z.log2 n < 32) as Hl by (apply Z.log2_lt_pow2; lia).
  destruct (log2_loop_step 0xffff0000 [0xff00; 0xf0; 0xc; 0x2] n 0 16) as (n1 & r1 & -> & ? & ? & ? & ?); [done|lia..|].
  change (Z.shiftr 16 1) with 8.
  destruct (log2_loop_step 0xff00 [0xf0; 0xc; 0x2] n1 r1 8) as (n2 & r2 & -> & ? & ? & ? & ?); [done|lia..|].
  change (Z.shiftr 8 1) with 4.
  destruct (log2_loop_step 0xf0 [0xc; 0x2] n2 r2 4) as (n3 & r3 & -> & ? & ? & ? & ?); [done|lia..|].
  change (Z.shiftr 4 1) with 2.
  destruct (log2_loop_step 0xc [0x2] n3 r3 2) as (n4 & r4 & -> & ? & ? & ? & ?); [done|lia..|].
  change (Z.shiftr 2 1) with 1.
  destruct (log2_loop_step 0x2 [] n4 r4 1) as (n5 & r5 & -> & ? & ? & ? & ?); [done|lia..|].
  simpl. assert (n5 = 1) as -> by lia. change (Z.log2 1) with 0 in *. lia.
Qed.

(** ** Block locators *)

Lemma down_loop_ok hp r t : branch hp r -> forall k a fuel, r !! k = Some a -> (t <= k <= fuel + t)%nat ->
  down_loop fuel hp (Some a) (Z.of_nat t) = Ok (r !! t).
Proof.
  intros Hb. induction k as [|k IH]; intros a fuel Ha Hk; destruct (Hb _ _ Ha) as (nd & Hnd & Hh & Hp).
  - destruct fuel; simpl; rewrite Hnd; simpl; rewrite Hh, decide_False by lia; by replace t with 0%nat by lia; rewrite Ha.
  - destruct fuel; simpl; rewrite Hnd; simpl; rewrite Hh; case_decide; try lia.
    1,3: by replace t with (S k) by lia; rewrite Ha.
    rewrite Hp. destruct (branch_lt r k a Ha) as [b Hrk]. rewrite Hrk. apply IH; [done|lia].
Qed.

(** The heights of a locator: ten steps of one block, then steps that double. *)
Fixpoint loc_heights (fuel : nat) (h step lead : Z) : list Z :=
  match fuel with
  | O => []
  | S fuel =>
      if decide (h > 0) then
        h :: (if decide (h - step <= 0) then []
              else loc_heights fuel (h - step) (if decide (lead <= 0) then 2 * step else step) (lead - 1))
      else []
  end.

(** [x] is the hash of the block of the branch at height [k]. *)
Definition hash_at (hp : bheap) (r : list loc) (k : Z) (x : bhash) : Prop :=
  exists a nd, r !! Z.to_nat k = Some a /\ hp !! a = Some nd /\ bn_Hash nd = x.

Lemma locator_loop_ok hp c v r : view_ok hp c v -> branch hp r -> forall fuel k a nd step lead acc,
  r !! k = Some a -> hp !! a = Some nd -> (k <= fuel)%nat -> 1 <= step -> Z.of_nat k + step < 2 ^ 31 ->
  exists L, locator_loop fuel hp c 0 (Some a) (bn_Hash nd) (Z.of_nat k) step lead acc = Ok (acc ++ L) /\
    Forall2 (hash_at hp r) (loc_heights fuel (Z.of_nat k) step lead) L.
Proof.
  intros Hv Hb. induction fuel as [|fuel IH]; intros k a nd step lead acc Ha Hnd Hk Hstep Hlt; simpl;
    [rewrite decide_False by lia|case_decide; [|by exists []; rewrite app_nil_r]].
  { exists []. by rewrite app_nil_r. }
  assert (hash_at hp r (Z.of_nat k) (bn_Hash nd)) as Hat by (exists a, nd; by rewrite Nat2Z.id).
  case_decide as Hend; [exists [bn_Hash nd]; by repeat constructor|].
  set (t := Z.to_nat (Z.of_nat k - step)). assert (Z.of_nat k - step = Z.of_nat t) as Et by (unfold t; lia).
  destruct (lookup_lt_is_Some_2 r t) as [b Hrt]; [apply lookup_lt_Some in Ha; lia|].
  pose proof (Contains_branch hp c v r k a Hv Hb Ha) as Hcon. simpl in Hcon. rewrite Hcon, outcome_bind_ok.
  assert ((if bool_decide (v !! k = Some a) then slice_get (cv_nodes c) (Z.of_nat k - step)
    else if decide (Z.of_nat k - step <= i32 0) then Ok None
    else down_loop (Z.to_nat (Z.of_nat k - step + step)) hp (Some a) (Z.of_nat k - step)) = Ok (Some b)) as ->.
  { case_bool_decide as Hvk.
    - apply slice_get_ok; [lia|]. destruct Hv as (Hbv & -> & _). rewrite Et, Nat2Z.id, list_lookup_fmap.
      rewrite <- (branch_agree hp r v k a Hb Hbv Ha Hvk t) by lia. by rewrite Hrt.
    - change (i32 0) with 0. rewrite decide_False by lia. rewrite Et.
      rewrite (down_loop_ok hp r t Hb k a) by (done || lia). by rewrite Hrt. }
  rewrite outcome_bind_ok. destruct (Hb _ _ Hrt) as (bn & Hbn & _). simpl. rewrite Hbn. simpl.
  set (step' := if decide (lead <= 0) then 2 * step else step).
  assert ((if decide (lead <= 0) then i32 (Z.shiftl step 1) else step) = step') as ->.
  { unfold step'. destruct (decide (lead <= 0)); [|reflexivity]. rewrite Z.shiftl_mul_pow2 by lia. change (2 ^ 1) with 2.
    rewrite swrap_id by (unfold sint_range; lia). lia. }
  rewrite Et. destruct (IH t b bn step' (lead - 1) (acc ++ [bn_Hash nd]) Hrt Hbn) as (L & Hrun & HL);
    [lia|unfold step'; destruct (decide (lead <= 0)); lia..|].
  exists (bn_Hash nd :: L). split; [rewrite Hrun; by rewrite <- app_assoc|]. by constructor.
Qed.

Lemma doubling_length fuel : forall h s lead, lead <= 0 -> 0 < h -> 0 <= s ->
  Z.of_nat (length (loc_heights fuel h (2 ^ s) lead)) <= Z.log2 (h + 2 ^ s - 1) - s + 1.
Proof.
  induction fuel as [|fuel IH]; intros h s lead Hlead Hh Hs;
    pose proof (Z.pow_pos_nonneg 2 s ltac:(lia) Hs);
    assert (s <= Z.log2 (h + 2 ^ s - 1)) by (apply Z.log2_le_pow2; lia); cbn [loc_heights length]; [lia|].
  rewrite (decide_True (P := h > 0)) by lia. case_decide; cbn [length]; [lia|].
  rewrite decide_True by done. rewrite <- Z.pow_succ_r by done.
  pose proof (IH (h - 2 ^ s) (Z.succ s) (lead - 1) ltac:(lia) ltac:(lia) ltac:(lia)) as Hl.
  rewrite Z.pow_succ_r in Hl at 2 by done.
  replace (h - 2 ^ s + 2 * 2 ^ s - 1) with (h + 2 ^ s - 1) in Hl by lia. lia.
Qed.

Lemma lead_length k : forall fuel h, 0 < h ->
  Z.of_nat (length (loc_heights fuel h 1 (Z.of_nat k))) <=
    if decide (h <= Z.of_nat k + 1) then h else Z.of_nat k + 1 + Z.log2 (h - Z.of_nat k).
Proof.
  induction k as [|k IH]; intros [|fuel] h Hh; cbn [loc_heights length].
  1,3: case_decide; [lia|]; match goal with |- context [Z.log2 ?x] => pose proof (Z.log2_nonneg x) end; lia.
  - rewrite (decide_True (P := h > 0)) by lia. destruct (decide (h - 1 <= 0)); cbn [length].
    + rewrite decide_True by lia. lia.
    + rewrite decide_True by lia. pose proof (doubling_length fuel (h - 1) 1 (-1) ltac:(lia) ltac:(lia) ltac:(lia)) as Hd.
      change (2 ^ 1) with (2 * 1) in Hd. replace (h - 1 + 2 * 1 - 1) with (h - Z.of_nat 0) in Hd by lia.
      rewrite decide_False by lia. replace (Z.of_nat 0 - 1) with (-1) by lia. lia.
  - rewrite (decide_True (P := h > 0)) by lia. destruct (decide (h - 1 <= 0)); cbn [length].
    + rewrite decide_True by lia. lia.
    + rewrite (decide_False (P := Z.of_nat (S k) <= 0)) by lia. replace (Z.of_nat (S k) - 1) with (Z.of_nat k) by lia.
      specialize (IH fuel (h - 1) ltac:(lia)). replace (h - 1 - Z.of_nat k) with (h - Z.of_nat (S k)) in IH by lia.
      destruct (decide (h - 1 <= Z.of_nat k + 1)), (decide (h <= Z.of_nat (S k) + 1)); lia.
Qed.

Lemma blockLocator_ok hp c v r a : view_ok hp c v -> branch hp r -> last r = Some a -> short r -> v <> [] ->
  exists L g, blockLocator hp c (Some a) 0 = Ok (Some (L ++ [g])) /\
    Forall2 (hash_at hp r) (loc_heights (pred (length r)) (Z.of_nat (length r) - 1) 1 10) L /\
    hash_at hp v 0 g.
Proof.
  intros Hv Hb Hlast Hshort Hne. unfold short in Hshort. assert (0 <= approxNodesPerWeek) by done.
  rewrite last_lookup in Hlast. destruct (length r) as [|k] eqn:Elen; [by destruct r|]. simpl in Hlast.
  destruct (Hb _ _ Hlast) as (nd & Hnd & Hh & _). unfold blockLocator. simpl mbind. rewrite Hnd. simpl mbind.
  rewrite Hh, Nat2Z.id.
  destruct (locator_loop_ok hp c v r Hv Hb k k a nd 1 10 [] Hlast Hnd) as (L & -> & HL); [lia..|].
  rewrite outcome_bind_ok. pose proof Hv as (Hbv & Hnodes & _). destruct v as [|g v]; [done|].
  destruct (Hbv 0%nat g eq_refl) as (gn & Hgn & _).
  rewrite (slice_get_ok _ 0 (Some g)) by (rewrite ?Hnodes; done). simpl. rewrite Hgn. simpl.
  exists L, (bn_Hash gn). split; [done|]. split; [|by exists g, gn].
  by replace (Z.of_nat (S k) - 1) with (Z.of_nat k) by lia.
Qed.

(** ** Searching for the loaded part of a view *)

Lemma last_nil_loop_ok c m : forall fuel lo hi,
  0 <= lo <= m -> m <= hi -> (Z.to_nat (hi - lo) <= fuel)%nat ->
  (forall k, lo <= k < m -> cv_nodes c !! Z.to_nat k = Some None) ->
  (forall k, m <= k < hi -> exists a, cv_nodes c !! Z.to_nat k = Some (Some a)) ->
  last_nil_loop fuel c lo hi = Ok m.
Proof.
  induction fuel as [|fuel IH]; intros lo hi Hlo Hhi Hf Hnil Hsome; simpl.
  { rewrite decide_False by lia. f_equal. lia. }
  case_decide; [|f_equal; lia]. rewrite Z.shiftr_div_pow2 by lia. change (2 ^ 1) with 2.
  set (h := (lo + hi) / 2). assert (lo <= h < hi) as Hh.
  { unfold h. split; [apply Z.div_le_lower_bound; lia|apply Z.div_lt_upper_bound; lia]. }
  destruct (decide (h < m)).
  - rewrite (slice_get_ok _ _ None), outcome_bind_ok by (lia || apply Hnil; lia).
    apply IH; try lia; intros k ?; [apply Hnil|apply Hsome]; lia.
  - destruct (Hsome h ltac:(lia)) as [a Ha].
    rewrite (slice_get_ok _ _ (Some a)), outcome_bind_ok by (done || lia).
    apply IH; try lia; intros k ?; [apply Hnil|apply Hsome]; lia.
Qed.

(** ** The theorems *)

(** C38: after [setTip] to the tip of a branch from a genesis block up, of less than about 2^31
    blocks, a view that showed any branch (or nothing) shows exactly the new one: the node at
    each height, the tip, the height, membership of any block of the tree and successors are
    those of the branch. *)
Theorem set_tip_shows_branch (hp : bheap) (c : ChainView) (ro r : list loc) (a : loc)
    (Hv : view_ok hp c ro) (Hb : branch hp r) (Hlast : last r = Some a) (Hshort : short r) :
  exists c', setTip hp c (Some a) = Ok c' /\ view_ok hp c' r /\
    height c' = Z.of_nat (length r) - 1 /\ tip c' = Ok (Some a) /\
    (forall k, NodeByHeight c' k = Ok (if decide (0 <= k) then r !! Z.to_nat k else None)) /\
    (forall s i b, branch hp s -> s !! i = Some b ->
       Contains hp c' (Some b) = Ok (bool_decide (r !! i = Some b)) /\
       (r !! i = Some b -> next hp c' (Some b) = Ok (r !! S i)) /\
       (r !! i <> Some b -> next hp c' (Some b) = Ok None)).
Proof.
  destruct (setTip_ok hp c ro r a Hv Hb Hlast Hshort) as (c' & Hr & Hv'). exists c'.
  split; [done|]. split; [done|]. split; [by apply view_height with hp|].
  pose proof (view_len _ _ _ Hv') as Hlen. pose proof Hv' as (_ & Hnodes & Hcap & Hlc).
  assert (0 < length r)%nat by (destruct r; simpl; [done|lia]).
  split_and!.
  - unfold tip. rewrite decide_False by lia. apply slice_get_ok; [lia|].
    rewrite Hnodes, list_lookup_fmap. rewrite last_lookup in Hlast.
    replace (Z.to_nat (cv_len c' - 1)) with (pred (length r)) by lia. by rewrite Hlast.
  - intros k. by apply NodeByHeight_ok with hp.
  - intros s i b Hs Hi. pose proof (Contains_branch hp c' r s i b Hv' Hs Hi) as Hcon.
    split; [done|]. destruct (Hs _ _ Hi) as (nd & Hnd & Hh & _). unfold next. rewrite Hcon, outcome_bind_ok.
    split; intros Hin.
    + rewrite bool_decide_eq_true_2 by done. simpl. rewrite Hnd. simpl. rewrite Hh.
      apply lookup_lt_Some in Hin. rewrite swrap_id by (unfold sint_range; lia).
      rewrite (NodeByHeight_ok hp c' r _ Hv'), decide_True by lia. do 2 f_equal. lia.
    + by rewrite bool_decide_eq_false_2.
Qed.

Lemma empty_view_ok hp : view_ok hp (MkView [] 0) [].
Proof. split_and!; [by intros i a ?|done|done|done|done]. Qed.

Lemma set_tip_witness :
  exists c', setTip three_blocks (MkView [] 0) (Some 3%positive) = Ok c' /\ tip c' = Ok (Some 3%positive) /\
    view_ok three_blocks c' [1; 2; 3]%positive.
Proof.
  destruct (set_tip_shows_branch three_blocks (MkView [] 0) [] [1; 2; 3]%positive 3%positive
    (empty_view_ok _) three_blocks_branch eq_refl) as (c' & ? & ? & _ & ? & _); [done|].
  by exists c'.
Defined.

(** [findFork] of the tip of any branch returns the last block that the branch
    shares with the view, nil when they share none. *)
Theorem find_fork_is_last_common (hp : bheap) (c : ChainView) (v r : list loc) (a : loc)
    (Hv : view_ok hp c v) (Hb : branch hp r) (Hlast : last r = Some a) :
  exists f, findFork hp c (Some a) = Ok f /\
    match f with
    | Some b => exists i, r !! i = Some b /\ v !! i = Some b /\
                  forall k x, (i < k)%nat -> r !! k = Some x -> v !! k <> Some x
    | None => forall k x, r !! k = Some x -> v !! k <> Some x
    end.
Proof.
  rewrite (findFork_ok hp c v r a Hv Hb Hlast). exists (fork r v). split; [done|]. unfold fork.
  destruct (Nat.min (length r) (length v)) as [|n] eqn:En.
  { intros k x Hk Hx. apply lookup_lt_Some in Hk, Hx. lia. }
  pose proof (meet_spec r v n ltac:(lia) ltac:(lia)) as Hm. destruct (meet r v n) as [b|].
  - destruct Hm as (j & ? & ? & ? & Hk). exists j. split_and!; auto. intros k x ? Hx Hx'.
    apply (Hk k); [|congruence]. apply lookup_lt_Some in Hx, Hx'. lia.
  - intros k x Hx Hx'. apply (Hm k); [|congruence]. apply lookup_lt_Some in Hx, Hx'. lia.
Qed.

Lemma find_fork_witness : exists f, findFork three_blocks (MkView [] 0) (Some 3%positive) = Ok f.
Proof.
  destruct (find_fork_is_last_common three_blocks (MkView [] 0) [] [1; 2; 3]%positive 3%positive
    (empty_view_ok _) three_blocks_branch eq_refl) as (f & ? & _). by exists f.
Defined.

(** [fastLog2Floor] is the floor of the binary logarithm, for every uint32 but 0. *)
Theorem fast_log2_is_log2 (n : Z) (Hn : 0 < n < 2 ^ 32) : fastLog2Floor n = Z.log2 n.
Proof. by apply fastLog2Floor_ok. Qed.

(** The locator of a block lists the hashes of the block and of ancestors of
    it, at heights that fall by one ten times and then by doubling steps, and ends
    with the genesis of the view; it never holds more entries than the capacity
    computed for it. *)
Theorem block_locator_lists_ancestors (hp : bheap) (c : ChainView) (v r : list loc) (a : loc)
    (Hv : view_ok hp c v) (Hb : branch hp r) (Hlast : last r = Some a) (Hshort : short r) (Hne : v <> []) :
  let top := Z.of_nat (length r) - 1 in
  exists L g, blockLocator hp c (Some a) 0 = Ok (Some (L ++ [g])) /\
    Forall2 (hash_at hp r) (loc_heights (pred (length r)) top 1 10) L /\ hash_at hp v 0 g /\
    Z.of_nat (length (L ++ [g])) <= maxEntries top.
Proof.
  cbn zeta. destruct (blockLocator_ok hp c v r a Hv Hb Hlast Hshort Hne) as (L & g & Hr & HL & Hg).
  exists L, g. split_and!; [done..|]. rewrite length_app, <- (Forall2_length _ _ _ HL). cbn [length].
  unfold short, approxNodesPerWeek in Hshort. unfold maxEntries.
  assert (0 < length r)%nat by (destruct r; simpl; [done|lia]).
  set (h := Z.of_nat (length r) - 1). assert (0 <= h < 2 ^ 31) by (unfold h; lia).
  assert (Z.of_nat (length (loc_heights (pred (length r)) h 1 10)) <=
    if decide (h <= 11) then h else 11 + Z.log2 (h - 10)) as Hl.
  { destruct (decide (h = 0)) as [E|]; [rewrite E; by destruct (pred (length r))|].
    apply (lead_length 10 (pred (length r)) h). lia. }
  destruct (decide (h <= 12)).
  - rewrite (uwrap_id 8 h), uwrap_id by (unfold uint_range; lia).
    destruct (decide (h <= 11)); [lia|]. assert (h = 12) as Eh by lia. rewrite Eh in Hl |- *.
    change (Z.log2 (12 - 10)) with 1 in Hl. lia.
  - rewrite (uwrap_id 32 h), (uwrap_id 32) by (unfold uint_range; lia).
    rewrite fastLog2Floor_ok by lia. rewrite decide_False in Hl by lia.
    assert (Z.log2 (h - 10) < 31) by (apply Z.log2_lt_pow2; lia). pose proof (Z.log2_nonneg (h - 10)).
    rewrite uwrap_id by (unfold uint_range; lia). lia.
Qed.

Lemma block_locator_witness :
  exists L g, blockLocator three_blocks (MkView [Some 1%positive; Some 2%positive; Some 3%positive] 3) (Some 3%positive) 0
    = Ok (Some (L ++ [g])).
Proof.
  destruct (block_locator_lists_ancestors three_blocks (MkView [Some 1%positive; Some 2%positive; Some 3%positive] 3)
    [1; 2; 3]%positive [1; 2; 3]%positive 3%positive) as (L & g & ? & _).
  - split_and!; [exact three_blocks_branch|done|simpl; lia..|done].
  - exact three_blocks_branch.
  - done.
  - done.
  - done.
  - by exists L, g.
Defined.

(** On a view whose nodes below [m] are not loaded, [LastNil] finds [m] by
    binary search, whatever interval around it is searched. *)
Theorem last_nil_finds_boundary (c : ChainView) (lo m hi : Z) (Hlo : 0 <= lo <= m) (Hhi : m <= hi)
    (Hnil : forall k, lo <= k < m -> cv_nodes c !! Z.to_nat k = Some None)
    (Hsome : forall k, m <= k < hi -> exists a, cv_nodes c !! Z.to_nat k = Some (Some a)) :
  LastNil c lo hi = Ok m.
Proof. unfold LastNil. by apply last_nil_loop_ok. Qed.
