(* ===== verification/Threshold.v ===== *)
(** * Voting on rule changes

    Models [omega/minerchain/thresholdstate.go] and the parts of
    [omega/minerchain/versionbits.go] that decide block versions: the state of a
    deployment moves once per confirmation window, and the states of windows are
    cached under the hash of their last block. *)
From stdpp Require Import gmap list.
From Stdlib Require Import ZArith Lia.
From S2P Require Import Prelude MedianTime BlockIndex.

Open Scope Z_scope.

Inductive ThresholdState :=
  | ThresholdDefined | ThresholdStarted | ThresholdLockedIn | ThresholdActive | ThresholdFailed.

Global Instance ThresholdState_dec : EqDecision ThresholdState.
Proof. solve_decision. Defined.

Inductive threshold_err := AssertError | DeploymentError (id : Z).

(** The interface [thresholdConditionChecker]. *)
Record thresholdConditionChecker := MkChecker {
  BeginTime : Z;
  EndTime : Z;
  RuleChangeActivationThreshold : Z;
  MinerConfirmationWindow : Z;
  Condition : BlockNode -> bool;
}.

Definition ThresholdStateCache : Type := gmap bhash ThresholdState.
Definition cache_Lookup (c : ThresholdStateCache) (hash : bhash) : option ThresholdState := c !! hash.
Definition cache_Update (c : ThresholdStateCache) (hash : bhash) (state : ThresholdState) : ThresholdStateCache :=
  <[hash := state]> c.
Definition NewThresholdCaches (numCaches : Z) : list ThresholdStateCache := replicate (Z.to_nat numCaches) ∅.

(** The walk back over the windows, to one whose state is known; the nodes whose state is needed. *)
Fixpoint walk_back (fuel : nat) (h : bheap) (ck : thresholdConditionChecker) (window : Z) (prevNode : ptr)
    (needed : list ptr) (cache : ThresholdStateCache) : outcome (ptr * list ptr * ThresholdStateCache) :=
  match prevNode with
  | None => Ok (None, needed, cache)
  | Some _ =>
      nd ← load h prevNode;
      match cache_Lookup cache (bn_Hash nd) with
      | Some _ => Ok (prevNode, needed, cache)
      | None =>
          medianTime ← CalcPastMedianTime h prevNode;
          if decide (u64 medianTime < BeginTime ck)
          then Ok (prevNode, needed, cache_Update cache (bn_Hash nd) ThresholdDefined)
          else
            prev ← RelativeAncestor h prevNode window;
            match fuel with
            | O => NoFuel
            | S fuel => walk_back fuel h ck window prev (needed ++ [prevNode]) cache
            end
      end
  end.

(** [for i := int32(0); i < confirmationWindow; i++] over the blocks of a window. *)
Fixpoint count_votes (n : nat) (h : bheap) (ck : thresholdConditionChecker) (countNode : ptr) (count : Z) : outcome Z :=
  match n with
  | O => Ok count
  | S n =>
      nd ← load h countNode;
      count_votes n h ck (bn_Parent nd) (if Condition ck nd then u32 (count + 1) else count)
  end.

(** The body of the switch: the state after the window that ends with [prevNode]. *)
Definition window_state (h : bheap) (ck : thresholdConditionChecker) (window : Z) (prevNode : ptr)
    (state : ThresholdState) : outcome ThresholdState :=
  match state with
  | ThresholdDefined =>
      medianTime ← CalcPastMedianTime h prevNode;
      if decide (u64 medianTime >= EndTime ck) then Ok ThresholdFailed
      else if decide (u64 medianTime >= BeginTime ck) then Ok ThresholdStarted else Ok state
  | ThresholdStarted =>
      medianTime ← CalcPastMedianTime h prevNode;
      if decide (u64 medianTime >= EndTime ck) then Ok ThresholdFailed
      else
        count ← count_votes (Z.to_nat window) h ck prevNode 0;
        if decide (count >= RuleChangeActivationThreshold ck) then Ok ThresholdLockedIn else Ok state
  | ThresholdLockedIn => Ok ThresholdActive
  | ThresholdActive | ThresholdFailed => Ok state
  end.

(** The needed states, from the oldest window on. *)
Fixpoint fill_states (h : bheap) (ck : thresholdConditionChecker) (window : Z) (needed : list ptr)
    (state : ThresholdState) (cache : ThresholdStateCache) : outcome (ThresholdState * ThresholdStateCache) :=
  match needed with
  | [] => Ok (state, cache)
  | prevNode :: needed =>
      state ← window_state h ck window prevNode state;
      nd ← load h prevNode;
      fill_states h ck window needed state (cache_Update cache (bn_Hash nd) state)
  end.

(** [x % y] on int32; a division by zero panics. *)
Definition int32_rem (x y : Z) : outcome Z := if decide (y = 0) then Panic else Ok (Z.rem x y).

Definition thresholdState (h : bheap) (prevNode : ptr) (ck : thresholdConditionChecker) (cache : ThresholdStateCache)
    : outcome ((ThresholdState + threshold_err) * ThresholdStateCache) :=
  let window := i32 (MinerConfirmationWindow ck) in
  match prevNode with
  | None => Ok (inl ThresholdDefined, cache)
  | Some _ =>
      nd ← load h prevNode;
      if decide (i32 (bn_Height nd + 1) < window) then Ok (inl ThresholdDefined, cache)
      else
        m ← int32_rem (i32 (bn_Height nd + 1)) window;
        prevNode ← Ancestor h prevNode (i32 (bn_Height nd - m));
        '(prevNode, needed, cache) ← walk_back (Z.to_nat (bn_Height nd + 1)) h ck window prevNode [] cache;
        state ←
          (match prevNode with
           | None => Ok (Some ThresholdDefined)
           | Some _ => nd ← load h prevNode; Ok (cache_Lookup cache (bn_Hash nd))
           end);
        match state with
        | None => Ok (inr AssertError, cache)
        | Some state =>
            '(state, cache) ← fill_states h ck window (reverse needed) state cache;
            Ok (inl state, cache)
        end
  end.

(** ** Deployments (versionbits.go) *)

Record ConsensusDeployment := MkDeployment { PrevVersion : Z; FeatureMask : Z; StartTime : Z; ExpireTime : Z }.

(** The parameters of the chain that are used here. *)
Record params := MkParams { p_Deployments : list ConsensusDeployment; p_Threshold : Z; p_Window : Z }.

Definition deploymentChecker (p : params) (d : ConsensusDeployment) : thresholdConditionChecker :=
  MkChecker (StartTime d) (ExpireTime d) (p_Threshold p) (p_Window p)
    (fun nd => bool_decide (Z.land (bn_Version nd) (FeatureMask d) = FeatureMask d)).

Abbreviation caches := (list ThresholdStateCache).

(** [deploymentID > len] is what the code tests. *)
Definition deploymentState (h : bheap) (p : params) (prevNode : ptr) (deploymentID : Z) (cs : caches)
    : outcome ((ThresholdState + threshold_err) * caches) :=
  if decide (deploymentID > u32 (Z.of_nat (length (p_Deployments p)))) then Ok (inr (DeploymentError deploymentID), cs)
  else
    d ← slice_get (p_Deployments p) deploymentID;
    cache ← slice_get cs deploymentID;
    '(r, cache) ← thresholdState h prevNode (deploymentChecker p d) cache;
    cs ← slice_set cs deploymentID cache;
    Ok (r, cs).

Definition IsDeploymentActive (h : bheap) (p : params) (tip : ptr) (deploymentID : Z) (cs : caches)
    : outcome ((bool + threshold_err) * caches) :=
  '(r, cs) ← deploymentState h p tip deploymentID cs;
  Ok (match r with inl state => inl (bool_decide (state = ThresholdActive)) | inr e => inr e end, cs).

Definition vbNumBits : Z := 16.

(** The loop over the deployments from [id] on. *)
Fixpoint version_loop (h : bheap) (p : params) (prevNode : ptr) (ds : list ConsensusDeployment) (id : Z)
    (expectedVersion : Z) (cs : caches) : outcome ((Z + threshold_err) * caches) :=
  match ds with
  | [] => Ok (inl expectedVersion, cs)
  | d :: ds =>
      if decide (expectedVersion > PrevVersion d) then version_loop h p prevNode ds (id + 1) expectedVersion cs
      else
        cache ← slice_get cs id;
        '(r, cache) ← thresholdState h prevNode (deploymentChecker p d) cache;
        cs ← slice_set cs id cache;
        match r with
        | inr e => Ok (inr e, cs)
        | inl state =>
            let v := match state with
                     | ThresholdStarted | ThresholdLockedIn => Z.lor (PrevVersion d) (FeatureMask d)
                     | ThresholdActive =>
                         Z.ldiff (u32 (PrevVersion d + Z.shiftl 1 vbNumBits)) (Z.shiftl 1 vbNumBits - 1)
                     | _ => PrevVersion d
                     end in
            version_loop h p prevNode ds (id + 1) v cs
        end
  end.

(** [codeVersion] is [wire.CodeVersion]. *)
Definition calcNextBlockVersion (h : bheap) (p : params) (codeVersion : Z) (prevNode : ptr) (newBlk : bool) (cs : caches)
    : outcome ((Z + threshold_err) * caches) :=
  version_loop h p prevNode (p_Deployments p) 0 (if newBlk then codeVersion else 0) cs.

(** ** The state of a window, from its blocks alone *)

Section Reference.
Context (h : bheap) (ck : thresholdConditionChecker) (w : nat).

(** The past median time of a node, as the code compares it. *)
Definition mtime (a : loc) : Z := match CalcPastMedianTime h (Some a) with Ok t => u64 t | _ => 0 end.

Definition votes_for (a : loc) : bool := match h !! a with Some nd => Condition ck nd | None => false end.
(** The votes in the [n] blocks that end at height [i]. *)
Definition votes (r : list loc) (n i : nat) : Z := Z.of_nat (length (filter (fun a => votes_for a) (last_nodes r n i))).

Definition next_state (time count : Z) (state : ThresholdState) : ThresholdState :=
  match state with
  | ThresholdDefined =>
      if decide (EndTime ck <= time) then ThresholdFailed
      else if decide (BeginTime ck <= time) then ThresholdStarted else ThresholdDefined
  | ThresholdStarted =>
      if decide (EndTime ck <= time) then ThresholdFailed
      else if decide (RuleChangeActivationThreshold ck <= count) then ThresholdLockedIn else ThresholdStarted
  | ThresholdLockedIn => ThresholdActive
  | ThresholdActive => ThresholdActive
  | ThresholdFailed => ThresholdFailed
  end.

(** The last node of the [k]-th window. *)
Definition window_end (r : list loc) (k : nat) : ptr := match k with O => None | S _ => r !! (k * w - 1)%nat end.

(** The state after [k] windows of the branch [r]: it is defined before the start
    time, and moves at the end of each window after it. *)
Fixpoint state_after (r : list loc) (k : nat) : ThresholdState :=
  match k with
  | O => ThresholdDefined
  | S j =>
      match window_end r k with
      | None => ThresholdDefined
      | Some a =>
          if decide (mtime a < BeginTime ck) then ThresholdDefined
          else next_state (mtime a) (votes r w (k * w - 1)) (state_after r j)
      end
  end.

(** The cached states are those of the windows, on every branch of the tree. *)
Definition cache_ok (cache : ThresholdStateCache) : Prop :=
  forall r k a nd state, branch h r -> window_end r k = Some a -> h !! a = Some nd ->
    cache !! bn_Hash nd = Some state -> state = state_after r k.

(** A hash names one node. *)
Definition hashes_ok : Prop := forall a b na nb,
  h !! a = Some na -> h !! b = Some nb -> bn_Hash na = bn_Hash nb -> a = b.

Context (Hw : (0 < w)%nat) (Hsmall : Z.of_nat w < 2 ^ 31) (Hhash : hashes_ok).

Lemma mtime_ok r i a : branch h r -> r !! i = Some a -> exists t, CalcPastMedianTime h (Some a) = Ok t /\ mtime a = u64 t.
Proof.
  intros Hb Ha. destruct (CalcPastMedianTime_ok h r i a Hb Ha) as (ts & t & Ht & _).
  exists t. split; [done|]. unfold mtime. by rewrite Ht.
Qed.

Lemma window_end_lookup r k a : window_end r k = Some a -> exists j, k = S j /\ r !! (k * w - 1)%nat = Some a.
Proof. destruct k as [|j]; [done|]. intros H. by exists j. Qed.

Lemma window_end_agree r r' i k : branch h r -> branch h r' -> (k * w <= S i)%nat ->
  (forall j, (j <= i)%nat -> r !! j = r' !! j) -> window_end r k = window_end r' k.
Proof. intros Hb Hb' Hk Hag. destruct k as [|k]; [done|]. apply Hag. lia. Qed.

Lemma state_after_agree r r' i k : branch h r -> branch h r' -> (k * w <= S i)%nat ->
  (forall j, (j <= i)%nat -> r !! j = r' !! j) -> state_after r k = state_after r' k.
Proof.
  intros Hb Hb' Hk Hag. induction k as [|k IH]; [done|]. cbn [state_after].
  rewrite (window_end_agree r r' i (S k)) by done. rewrite IH by lia.
  assert (votes r w (S k * w - 1) = votes r' w (S k * w - 1)) as ->; [|done].
  unfold votes, last_nodes. do 5 f_equal. apply list_eq. intros j.
  destruct (decide (j < S (S k * w - 1))%nat).
  - rewrite !lookup_take_lt by lia. apply Hag. lia.
  - rewrite !lookup_take_ge by lia. done.
Qed.

Lemma cache_ok_update cache r k a nd : branch h r -> window_end r k = Some a -> h !! a = Some nd ->
  cache_ok cache -> cache_ok (cache_Update cache (bn_Hash nd) (state_after r k)).
Proof.
  intros Hb He Hnd Hc r' k' a' nd' state Hb' He' Hnd' Hs. unfold cache_Update in Hs.
  apply lookup_insert_Some in Hs as [[Eh <-]|[_ Hs]]; [|by eapply Hc].
  assert (a = a') as <- by (by eapply Hhash). clear nd' Hnd' Eh.
  apply window_end_lookup in He as (j & -> & He). apply window_end_lookup in He' as (j' & -> & He').
  assert (S j * w - 1 = S j' * w - 1)%nat as E.
  { pose proof (branch_height h r _ a nd Hb He Hnd). pose proof (branch_height h r' _ a nd Hb' He' Hnd). lia. }
  assert (S j = S j') as Ej by nia. rewrite <- Ej in He' |- *.
  apply (state_after_agree r r' (S j * w - 1)); [done|done|lia|].
  by apply (branch_agree h r r' _ a).
Qed.

Lemma count_votes_ok n r : forall i a c, branch h r -> r !! i = Some a -> (n <= S i)%nat -> 0 <= c ->
  c + Z.of_nat n < 2 ^ 32 -> count_votes n h ck (Some a) c = Ok (c + votes r n i).
Proof.
  induction n as [|n IH]; intros i a c Hb Ha Hn Hc Hlt.
  { cbn. f_equal. unfold votes, last_nodes. simpl. lia. }
  destruct (branch_lookup h r i a Hb Ha) as (nd & Hnd & _ & Hp). cbn [count_votes]. rewrite (load_ok h a nd Hnd).
  cbn [mbind outcome_bind]. unfold votes. rewrite (last_nodes_S r n i a Ha).
  assert (forall c', 0 <= c' -> c' + Z.of_nat n < 2 ^ 32 -> count_votes n h ck (bn_Parent nd) c' =
    Ok (c' + Z.of_nat (length (filter (fun a => votes_for a) match i with O => [] | S j => last_nodes r n j end)))) as Hrest.
  { intros c' H0 H1. destruct i as [|i].
    - assert (n = 0%nat) as -> by lia. cbn. f_equal. lia.
    - rewrite Hp. destruct (branch_lt r i a Ha) as [b Hri]. rewrite Hri. by apply IH; [|done|lia| |]. }
  rewrite filter_cons. destruct (Condition ck nd) eqn:Hcond.
  - rewrite decide_True by (unfold votes_for; by rewrite Hnd, Hcond).
    rewrite uwrap_id by (unfold uint_range; lia). rewrite Hrest by lia. cbn [length]. f_equal. lia.
  - rewrite decide_False by (unfold votes_for; rewrite Hnd, Hcond; by intros []). by apply Hrest; lia.
Qed.

Lemma window_state_ok r k a state : branch h r -> window_end r k = Some a ->
  window_state h ck (Z.of_nat w) (Some a) state = Ok (next_state (mtime a) (votes r w (k * w - 1)) state).
Proof.
  intros Hb He. apply window_end_lookup in He as (j & -> & Ha).
  destruct (mtime_ok r _ a Hb Ha) as (t & Ht & Em). destruct state; cbn [window_state next_state]; [| |done..].
  - rewrite Ht, Em. cbn [mbind outcome_bind]. repeat case_decide; (done || lia).
  - rewrite Ht, Em. cbn [mbind outcome_bind].
    rewrite Nat2Z.id, (count_votes_ok w r (S j * w - 1) a 0) by (done || lia). cbn [mbind outcome_bind].
    rewrite Z.add_0_l. repeat case_decide; (done || lia).
Qed.

(** The ends of windows [j+1] to [j+n], oldest first. *)
Fixpoint ends (r : list loc) (j n : nat) : list ptr :=
  match n with O => [] | S n => window_end r (S j) :: ends r (S j) n end.

Lemma ends_snoc r j n : ends r j (S n) = ends r j n ++ [window_end r (S (j + n))].
Proof.
  revert j. induction n as [|n IH]; intros j; [by rewrite Nat.add_0_r|].
  change (ends r j (S (S n))) with (window_end r (S j) :: ends r (S j) (S n)). rewrite IH. cbn [ends app].
  by rewrite Nat.add_succ_r.
Qed.

Lemma RelativeAncestor_window r k a : branch h r -> window_end r (S k) = Some a -> Z.of_nat (length r) < 2 ^ 31 ->
  RelativeAncestor h (Some a) (Z.of_nat w) = Ok (window_end r k).
Proof.
  intros Hb He Hlen. apply window_end_lookup in He as (j & [= <-] & Ha).
  destruct (branch_lookup h r _ a Hb Ha) as (nd & Hnd & Hh & _). pose proof (lookup_lt_Some _ _ _ Ha).
  unfold RelativeAncestor. rewrite (load_ok h a nd Hnd). cbn [mbind outcome_bind].
  rewrite Hh, swrap_id by (unfold sint_range; lia).
  rewrite (Ancestor_ok h r _ a) by done. f_equal. destruct k as [|k]; cbn [window_end].
  - rewrite decide_False by lia. done.
  - rewrite decide_True by nia. f_equal. nia.
Qed.

Lemma walk_back_ok r : branch h r -> Z.of_nat (length r) < 2 ^ 31 -> forall k fuel needed cache,
  (k * w <= length r)%nat -> (k <= fuel)%nat -> cache_ok cache ->
  exists j n cache', walk_back fuel h ck (Z.of_nat w) (window_end r k) needed cache =
      Ok (window_end r j, needed ++ reverse (ends r j n), cache') /\ (j + n)%nat = k /\ cache_ok cache' /\
    (forall a nd, window_end r j = Some a -> h !! a = Some nd -> cache' !! bn_Hash nd = Some (state_after r j)) /\
    (forall m a, (j < m <= k)%nat -> window_end r m = Some a -> BeginTime ck <= mtime a).
Proof.
  intros Hb Hlen. induction k as [|k IH]; intros fuel needed cache Hk Hf Hc.
  { exists 0%nat, 0%nat, cache. destruct fuel; cbn; rewrite app_nil_r; split_and!; (done || lia). }
  destruct (lookup_lt_is_Some_2 r (S k * w - 1) ltac:(nia)) as [a Ha].
  assert (window_end r (S k) = Some a) as He by done.
  destruct (branch_lookup h r _ a Hb Ha) as (nd & Hnd & _). destruct (mtime_ok r _ a Hb Ha) as (t & Ht & Em).
  destruct fuel as [|fuel]; [lia|]. rewrite He. cbn [walk_back]. rewrite (load_ok h a nd Hnd). cbn [mbind outcome_bind].
  destruct (cache_Lookup cache (bn_Hash nd)) as [st|] eqn:Hst.
  { exists (S k), 0%nat, cache. rewrite He. cbn [ends]. rewrite app_nil_r. split_and!; [done|lia|done| |intros; lia].
    intros a' nd' [= <-] Hnd'. assert (nd' = nd) as -> by congruence.
    rewrite <- (Hc r (S k) a nd st Hb He Hnd Hst). done. }
  rewrite Ht. cbn [mbind outcome_bind]. rewrite <- Em. case_decide as Hbt.
  - assert (state_after r (S k) = ThresholdDefined) as Es.
    { cbn [state_after]. by rewrite He, decide_True. }
    exists (S k), 0%nat, (cache_Update cache (bn_Hash nd) ThresholdDefined). rewrite He. cbn [ends]. rewrite app_nil_r.
    split_and!; [done|lia| | |intros; lia].
    + rewrite <- Es. by apply (cache_ok_update cache r (S k) a nd).
    + intros a' nd' [= <-] Hnd'. assert (nd' = nd) as -> by congruence. rewrite Es. apply lookup_insert_eq.
  - rewrite (RelativeAncestor_window r k a) by done. cbn [mbind outcome_bind].
    destruct (IH fuel (needed ++ [Some a]) cache ltac:(lia) ltac:(lia) Hc) as (j & n & cache' & Hr & Hjn & Hc' & Hl & Hm).
    exists j, (S n), cache'. rewrite Hr, ends_snoc, reverse_snoc, Hjn, He, <- app_assoc.
    split_and!; [done|lia|done|done|]. intros m b Hmk Hmb. destruct (decide (m = S k)) as [->|].
    + assert (b = a) as -> by congruence. lia.
    + apply (Hm m b); [lia|done].
Qed.

Lemma fill_states_ok r n : branch h r -> forall j cache, ((j + n) * w <= length r)%nat -> cache_ok cache ->
  (forall m a, (j < m <= j + n)%nat -> window_end r m = Some a -> BeginTime ck <= mtime a) ->
  exists cache', fill_states h ck (Z.of_nat w) (ends r j n) (state_after r j) cache = Ok (state_after r (j + n), cache') /\
    cache_ok cache'.
Proof.
  intros Hb. induction n as [|n IH]; intros j cache Hl Hc Hm.
  { exists cache. by rewrite Nat.add_0_r. }
  destruct (lookup_lt_is_Some_2 r (S j * w - 1) ltac:(nia)) as [a Ha].
  assert (window_end r (S j) = Some a) as He by done. destruct (branch_lookup h r _ a Hb Ha) as (nd & Hnd & _).
  cbn [ends fill_states]. rewrite He, (window_state_ok r (S j) a) by done. cbn [mbind outcome_bind].
  rewrite (load_ok h a nd Hnd). cbn [mbind outcome_bind].
  assert (next_state (mtime a) (votes r w (S j * w - 1)) (state_after r j) = state_after r (S j)) as ->.
  { cbn [state_after]. rewrite He, decide_False; [done|]. pose proof (Hm (S j) a ltac:(lia) He). lia. }
  destruct (IH (S j) (cache_Update cache (bn_Hash nd) (state_after r (S j)))) as (cache' & Hr & Hc').
  - lia.
  - by apply (cache_ok_update cache r (S j) a nd).
  - intros m b Hmj. apply Hm. lia.
  - exists cache'. by rewrite Hr, Nat.add_succ_r.
Qed.

Lemma thresholdState_ok r i a cache : i32 (MinerConfirmationWindow ck) = Z.of_nat w -> branch h r ->
  r !! i = Some a -> Z.of_nat (length r) < 2 ^ 31 -> cache_ok cache ->
  exists cache', thresholdState h (Some a) ck cache = Ok (inl (state_after r (S i / w)), cache') /\ cache_ok cache'.
Proof.
  intros Hwin Hb Ha Hlen Hc. pose proof (lookup_lt_Some _ _ _ Ha).
  destruct (branch_lookup h r i a Hb Ha) as (nd & Hnd & Hh & _). unfold thresholdState.
  rewrite Hwin, (load_ok h a nd Hnd). cbn [mbind outcome_bind].
  rewrite Hh, (swrap_id 32 (Z.of_nat i + 1)) by (unfold sint_range; lia).
  pose proof (Nat.div_mod_eq (S i) w) as Hdm. pose proof (Nat.mod_upper_bound (S i) w ltac:(lia)) as Hmod.
  case_decide.
  { exists cache. rewrite Nat.div_small by lia. done. }
  unfold int32_rem. rewrite decide_False by lia. cbn [mbind outcome_bind].
  rewrite Z.rem_mod_nonneg by lia. replace (Z.of_nat i + 1) with (Z.of_nat (S i)) by lia.
  rewrite <- Nat2Z.inj_mod. rewrite swrap_id by (unfold sint_range; lia).
  rewrite (Ancestor_ok h r i a), decide_True by (done || lia). cbn [mbind outcome_bind].
  set (k := (S i / w)%nat) in *. assert (0 < k)%nat by (unfold k; apply Nat.div_str_pos; lia).
  assert (r !! Z.to_nat (Z.of_nat i - Z.of_nat (S i mod w)) = window_end r k) as ->.
  { unfold window_end. destruct k as [|k]; [lia|]. f_equal. nia. }
  destruct (walk_back_ok r Hb Hlen k (Z.to_nat (Z.of_nat (S i))) [] cache) as (j & n & cache' & Hr & Hjn & Hc' & Hl & Hm);
    [nia|nia|done|]. rewrite Hr. cbn [mbind outcome_bind app]. rewrite reverse_involutive.
  destruct (fill_states_ok r n Hb j cache') as (cache'' & Hfill & Hc''); [nia|done|by rewrite Hjn|]. rewrite Hjn in Hfill.
  exists cache''. split; [|done]. destruct (window_end r j) as [b|] eqn:He.
  - destruct (window_end_lookup r j b He) as (j' & -> & Hbl). destruct (branch_lookup h r _ b Hb Hbl) as (ndb & Hndb & _).
    rewrite (load_ok h b ndb Hndb). cbn [mbind outcome_bind]. unfold cache_Lookup. rewrite (Hl b ndb eq_refl Hndb).
    cbn [mbind outcome_bind]. by rewrite Hfill.
  - destruct j as [|j].
    { cbn [mbind outcome_bind]. change (state_after r 0) with ThresholdDefined in Hfill. by rewrite Hfill. }
    exfalso. cbn [window_end] in He. apply lookup_ge_None in He. nia.
Qed.

(** ** How the states follow each other *)

(** The edges of the state machine. *)
Inductive moves : ThresholdState -> ThresholdState -> Prop :=
  | move_stay s : moves s s
  | move_start : moves ThresholdDefined ThresholdStarted
  | move_expire : moves ThresholdDefined ThresholdFailed
  | move_lock : moves ThresholdStarted ThresholdLockedIn
  | move_fail : moves ThresholdStarted ThresholdFailed
  | move_activate : moves ThresholdLockedIn ThresholdActive.

Lemma next_state_moves time count s : moves s (next_state time count s).
Proof. destruct s; cbn [next_state]; repeat case_decide; constructor. Qed.

(** The past median times of the ends of windows do not decrease. *)
Definition times_grow (r : list loc) : Prop := forall j k a b, (j <= k)%nat ->
  window_end r j = Some a -> window_end r k = Some b -> mtime a <= mtime b.

Lemma early_windows r k a : times_grow r -> window_end r k = Some a -> mtime a < BeginTime ck ->
  forall j, (j <= k)%nat -> state_after r j = ThresholdDefined.
Proof.
  intros Hg He Ht [|j] Hj; [done|]. cbn [state_after]. destruct (window_end r (S j)) as [b|] eqn:Heb; [|done].
  pose proof (Hg (S j) k b a Hj Heb He). by rewrite decide_True by lia.
Qed.

Lemma state_after_moves r k : times_grow r -> (S k * w <= length r)%nat ->
  moves (state_after r k) (state_after r (S k)).
Proof.
  intros Hg Hk. destruct (lookup_lt_is_Some_2 r (S k * w - 1) ltac:(nia)) as [a Ha].
  assert (window_end r (S k) = Some a) as He by done.
  destruct (decide (mtime a < BeginTime ck)) as [Ht|Ht].
  - rewrite (early_windows r (S k) a Hg He Ht k), (early_windows r (S k) a Hg He Ht (S k)) by lia. constructor.
  - cbn [state_after]. rewrite He, decide_False by done. apply next_state_moves.
Qed.

Lemma state_after_path r j n : times_grow r -> ((j + n) * w <= length r)%nat ->
  rtc moves (state_after r j) (state_after r (j + n)).
Proof.
  intros Hg. induction n as [|n IH]; intros Hk; [rewrite Nat.add_0_r; apply rtc_refl|].
  rewrite Nat.add_succ_r in *. eapply rtc_r; [apply IH; lia|]. apply state_after_moves; [done|nia].
Qed.
End Reference.

Lemma moves_final s s' : rtc moves s s' -> s = ThresholdActive \/ s = ThresholdFailed -> s' = s.
Proof.
  induction 1 as [s|s1 s2 s3 Hm _ IH]; [done|]. intros Hs.
  assert (s2 = s1) as E by (by destruct Hs; subst; inversion Hm). rewrite E in IH. by apply IH.
Qed.

(** ** Theorems *)

(** C31: the cache does not change the answer: with any cache whose entries are
    right, [thresholdState] returns the state that follows from the blocks of the
    branch alone, and leaves a cache whose entries are right; it never fails. *)
Theorem threshold_state_exact (h : bheap) (ck : thresholdConditionChecker) (r : list loc) (i : nat) (a : loc)
    (cache : ThresholdStateCache) (Hb : branch h r) (Ha : r !! i = Some a) (Hlen : Z.of_nat (length r) < 2 ^ 31)
    (Hw : 0 < MinerConfirmationWindow ck < 2 ^ 31) (Hh : hashes_ok h)
    (Hc : cache_ok h ck (Z.to_nat (MinerConfirmationWindow ck)) cache) :
  let w := Z.to_nat (MinerConfirmationWindow ck) in
  exists cache', thresholdState h (Some a) ck cache = Ok (inl (state_after h ck w r (S i / w)), cache') /\
    cache_ok h ck w cache'.
Proof.
  cbn zeta. apply (thresholdState_ok h ck); [lia|lia|done| |done..].
  rewrite Z2Nat.id by lia. apply swrap_id; [lia|]. unfold sint_range. lia.
Qed.

(** A deployment that starts at once, in windows of two blocks with one vote. *)
Definition test_checker : thresholdConditionChecker :=
  MkChecker 50 1000 1 2 (fun nd => bool_decide (Z.land (bn_Version nd) 2 = 2)).

Lemma three_blocks_hashes : hashes_ok three_blocks.
Proof.
  intros a b na nb Ha Hb E. unfold three_blocks in Ha, Hb.
  repeat match goal with
  | H : <[_ := _]> _ !! _ = Some _ |- _ => apply lookup_insert_Some in H as [[<- <-]|[_ H]]
  | H : {[_ := _]} !! _ = Some _ |- _ => apply lookup_singleton_Some in H as [<- <-]
  end; (done || discriminate E).
Qed.

Lemma empty_cache_ok h ck w : cache_ok h ck w ∅.
Proof. intros r k a nd state _ _ _ H. exfalso. unfold ThresholdStateCache in H. by apply (lookup_empty_Some (M := gmap bhash) (bn_Hash nd) state) in H. Qed.

Lemma threshold_state_witness : exists cache,
  thresholdState three_blocks (Some 3%positive) test_checker ∅ = Ok (inl ThresholdStarted, cache).
Proof.
  destruct (threshold_state_exact three_blocks test_checker [1; 2; 3]%positive 2 3%positive ∅
    three_blocks_branch eq_refl ltac:(reflexivity) ltac:(split; reflexivity) three_blocks_hashes
    (empty_cache_ok _ _ _)) as (c & E & _).
  exists c. rewrite E. reflexivity.
Defined.

(** Along a branch whose past median times do not decrease, the states of a
    deployment follow the edges of the state machine, and an active or failed one
    stays as it is for every later block. *)
Theorem deployment_states_progress (h : bheap) (ck : thresholdConditionChecker) (r : list loc) (i j : nat) (a b : loc)
    (Hb : branch h r) (Ha : r !! i = Some a) (Hb' : r !! j = Some b) (Hij : (i <= j)%nat)
    (Hlen : Z.of_nat (length r) < 2 ^ 31) (Hw : 0 < MinerConfirmationWindow ck < 2 ^ 31) (Hh : hashes_ok h)
    (Hg : times_grow h (Z.to_nat (MinerConfirmationWindow ck)) r) :
  exists s s' c c', thresholdState h (Some a) ck ∅ = Ok (inl s, c) /\ thresholdState h (Some b) ck ∅ = Ok (inl s', c') /\
    rtc moves s s' /\ (s = ThresholdActive \/ s = ThresholdFailed -> s' = s).
Proof.
  set (w := Z.to_nat (MinerConfirmationWindow ck)) in *.
  assert (i32 (MinerConfirmationWindow ck) = Z.of_nat w) as Hwin.
  { unfold w. rewrite Z2Nat.id by lia. apply swrap_id; [lia|]. unfold sint_range. lia. }
  destruct (thresholdState_ok h ck w ltac:(lia) ltac:(lia) Hh r i a ∅ Hwin Hb Ha Hlen (empty_cache_ok _ _ _)) as (c & E & _).
  destruct (thresholdState_ok h ck w ltac:(lia) ltac:(lia) Hh r j b ∅ Hwin Hb Hb' Hlen (empty_cache_ok _ _ _)) as (c' & E' & _).
  exists (state_after h ck w r (S i / w)), (state_after h ck w r (S j / w)), c, c'.
  assert (rtc moves (state_after h ck w r (S i / w)) (state_after h ck w r (S j / w))) as Hp.
  { pose proof (Nat.Div0.div_le_mono (S i) (S j) w ltac:(lia)) as Hle.
    replace (S j / w)%nat with (S i / w + (S j / w - S i / w))%nat by lia.
    apply state_after_path; [lia|done|]. apply lookup_lt_Some in Hb'.
    pose proof (Nat.Div0.mul_div_le (S j) w). nia. }
  split_and!; [done|done|done|]. by apply moves_final.
Qed.

Lemma deployment_states_witness : exists s s' c c',
  thresholdState three_blocks (Some 1%positive) test_checker ∅ = Ok (inl s, c) /\
  thresholdState three_blocks (Some 3%positive) test_checker ∅ = Ok (inl s', c') /\ rtc moves s s'.
Proof.
  destruct (deployment_states_progress three_blocks test_checker [1; 2; 3]%positive 0 2 1%positive 3%positive
    three_blocks_branch eq_refl eq_refl ltac:(lia) ltac:(reflexivity) ltac:(split; reflexivity) three_blocks_hashes)
    as (s & s' & c & c' & E & E' & Hp & _).
  - intros [|[|j]] [|[|k]] a b Hjk Ha Hb'; try done;
      try (apply lookup_lt_Some in Hb'; change (Z.to_nat _) with 2%nat in Hb'; simpl in Hb'; lia);
      try (apply lookup_lt_Some in Ha; change (Z.to_nat _) with 2%nat in Ha; simpl in Ha; lia).
    vm_compute in Ha, Hb'. simplify_eq. reflexivity.
  - by exists s, s', c, c'.
Defined.

(** A deployment number equal to the number of deployments is not reported as an
    error: the look up of the deployment panics. *)
Theorem unknown_deployment_panics (h : bheap) (p : params) (tip : ptr) (cs : caches)
    (Hlen : Z.of_nat (length (p_Deployments p)) < 2 ^ 32) :
  deploymentState h p tip (Z.of_nat (length (p_Deployments p))) cs = Panic.
Proof.
  unfold deploymentState. rewrite uwrap_id by (unfold uint_range; lia). rewrite decide_False by lia.
  assert (slice_get (p_Deployments p) (Z.of_nat (length (p_Deployments p))) = Panic) as ->; [|done].
  unfold slice_get. rewrite decide_True by lia. rewrite Nat2Z.id.
  by rewrite (lookup_ge_None_2 (p_Deployments p)).
Qed.

Lemma unknown_deployment_witness : deploymentState ∅ (MkParams [] 75 100) None 0 [] = Panic.
Proof. exact (unknown_deployment_panics ∅ (MkParams [] 75 100) None [] ltac:(reflexivity)). Defined.
