(* ===== verification/OvmCode.v ===== *)
(** * Contract code

    Models the code of a contract, [omega/ovm/contract.go]: the instructions, the
    access to them, and [ByteCodeParser], which reads them from the text of a
    contract.  [print_code] writes a program the way the parser expects it. *)
From stdpp Require Import gmap list.
From Stdlib Require Import ZArith Lia.
From S2P Require Import Prelude.

Open Scope Z_scope.

Record inst := MkInst { i_op : Z; i_param : list Z }.

(** The fields of [Contract] that the instructions modelled here use. *)
Record lib := MkLib { l_address : Z; l_end : Z; l_base : Z; l_pure : Z }.
Record Contract := MkContract { ct_libs : gmap (list Z) lib; ct_Code : list inst; ct_self : list Z; ct_pure : Z }.

(** A contract that has only code. *)
Definition code_only (libs : gmap (list Z) lib) (code : list inst) : Contract := MkContract libs code (replicate 20 0) 0.

Definition GetInst (c : Contract) (n : Z) : outcome inst :=
  if decide (n < Z.of_nat (length (ct_Code c))) then slice_get (ct_Code c) n else Ok (MkInst 0 []).

Definition GetOp (c : Contract) (n : Z) : outcome Z := i ← GetInst c n; Ok (i_op i).

Definition GetBytes (c : Contract) (n : Z) : outcome (list Z) :=
  if decide (n < Z.of_nat (length (ct_Code c))) then i ← slice_get (ct_Code c) n; Ok (i_param i) else Ok [].

Definition is_blank (c : Z) : bool := bool_decide (c = 0x20 \/ c = 0x09 \/ c = 0x0d).
Definition is_end (c : Z) : bool := bool_decide (c = 0x3b \/ c = 0x0a).

(** [skip] is true inside the inner loop, which runs up to the end of the line. *)
Fixpoint parse_loop (code : list Z) (skip : bool) (tmp : inst) (empty : bool) (acc : list inst) : list inst :=
  match code with
  | [] => if skip || empty then acc else acc ++ [tmp]
  | c :: code =>
      if skip then parse_loop code (bool_decide (c <> 0x0a)) tmp true acc
      else if is_blank c then parse_loop code false tmp empty acc
      else if negb (is_end c) then
        if empty then parse_loop code false (MkInst c []) false acc
        else parse_loop code false (MkInst (i_op tmp) (i_param tmp ++ [c])) false acc
      else parse_loop code (bool_decide (c <> 0x0a)) tmp true (acc ++ [tmp])
  end.

Definition ByteCodeParser (code : list Z) : list inst := parse_loop code false (MkInst 0 []) true [].

(** The text of an instruction of the code. *)
Definition param_at (c : Contract) (pc : Z) (param : list Z) : Prop :=
  exists op, ct_Code c !! Z.to_nat pc = Some (MkInst op param) /\ 0 <= pc.

Lemma GetBytes_ok c pc param : param_at c pc param -> GetBytes c pc = Ok param.
Proof.
  intros (op & Hi & Hp). unfold GetBytes. pose proof (lookup_lt_Some _ _ _ Hi). rewrite decide_True by lia.
  by rewrite (slice_get_ok _ _ _ Hp Hi).
Qed.

(** ** Programs and their text *)

(** A character an instruction can hold. *)
Definition plain (c : Z) : Prop := is_blank c = false /\ is_end c = false.
Definition inst_ok (i : inst) : Prop := plain (i_op i) /\ Forall plain (i_param i).

(** An instruction of a text: its characters with blanks after each of them, and a
    comment after it. *)
Record line := MkLine { ln_inst : inst; ln_blanks : nat; ln_comment : option (list Z) }.

Definition blanks (n : nat) : list Z := replicate n 0x20.
Definition print_line (l : line) : list Z :=
  blanks (ln_blanks l) ++ i_op (ln_inst l) :: concat (map (fun c => blanks (ln_blanks l) ++ [c]) (i_param (ln_inst l))) ++
  match ln_comment l with None => [0x0a] | Some t => 0x3b :: t ++ [0x0a] end.
Definition print_code (p : list line) : list Z := concat (map print_line p).

Definition line_ok (l : line) : Prop :=
  inst_ok (ln_inst l) /\ (forall t, ln_comment l = Some t -> Forall (fun c => c <> 0x0a) t).

Lemma parse_blanks n : forall rest tmp empty acc,
  parse_loop (blanks n ++ rest) false tmp empty acc = parse_loop rest false tmp empty acc.
Proof. induction n; intros; [done|]. apply IHn. Qed.

Lemma parse_params k ps : Forall plain ps -> forall rest op pre acc,
  parse_loop (concat (map (fun c => blanks k ++ [c]) ps) ++ rest) false (MkInst op pre) false acc =
  parse_loop rest false (MkInst op (pre ++ ps)) false acc.
Proof.
  induction 1 as [|c ps [Hb He] _ IH]; intros rest op pre acc; [by rewrite app_nil_r|].
  cbn [map concat]. rewrite <- !app_assoc, parse_blanks. cbn [app parse_loop]. rewrite Hb, He. cbn [negb i_op i_param].
  rewrite IH. by rewrite <- app_assoc.
Qed.

Lemma parse_comment t : Forall (fun c => c <> 0x0a) t -> forall rest tmp acc,
  parse_loop (t ++ 0x0a :: rest) true tmp true acc = parse_loop rest false tmp true acc.
Proof.
  induction 1 as [|c t Hc _ IH]; intros rest tmp acc; [done|]. cbn [app parse_loop].
  rewrite bool_decide_true by done. apply IH.
Qed.

Lemma parse_line l rest tmp acc : line_ok l ->
  parse_loop (print_line l ++ rest) false tmp true acc = parse_loop rest false (ln_inst l) true (acc ++ [ln_inst l]).
Proof.
  intros [[[Hb He] Hps] Hc]. unfold print_line. rewrite <- app_assoc, parse_blanks. cbn [app parse_loop].
  rewrite Hb, He. cbn [negb]. rewrite <- app_assoc, parse_params by done. cbn [app].
  destruct (ln_inst l) as [op ps]. cbn [i_op i_param].
  destruct (ln_comment l) as [t|]; cbn [app parse_loop].
  - change (is_blank 0x3b) with false. change (is_end 0x3b) with true. cbn [negb].
    change (bool_decide (0x3b <> 0x0a)) with true. rewrite <- app_assoc. cbn [app].
    by rewrite parse_comment by (by apply Hc).
  - done.
Qed.

(** ** Theorems *)

(** The parser reads back any program from its text, one instruction to a line,
    with blanks between the characters and a comment after a semicolon. *)
Theorem parser_roundtrip (p : list line) (Hp : Forall line_ok p) :
  ByteCodeParser (print_code p) = map ln_inst p.
Proof.
  unfold ByteCodeParser, print_code.
  assert (forall tmp acc, parse_loop (concat (map print_line p)) false tmp true acc = acc ++ map ln_inst p) as H;
    [|apply H].
  induction Hp as [|l p Hl _ IH]; intros tmp acc; [by rewrite app_nil_r|].
  cbn [map concat]. by rewrite parse_line, IH, <- app_assoc.
Qed.

Lemma parser_roundtrip_witness :
  ByteCodeParser (print_code [MkLine (MkInst 0x41 [0x31; 0x2c]) 1 None; MkLine (MkInst 0x7a []) 0 (Some [0x41; 0x20])])
    = [MkInst 0x41 [0x31; 0x2c]; MkInst 0x7a []].
Proof.
  rewrite parser_roundtrip; [reflexivity|].
  repeat constructor; intros t [= <-]; by repeat constructor.
Defined.

(** An empty line is not skipped: it repeats the instruction before it, so the
    text of two instructions with an empty line between them is read as three. *)
Theorem empty_line_repeats_instruction (a b : line) (Ha : line_ok a) (Hb : line_ok b) :
  ByteCodeParser (print_line a ++ 0x0a :: print_line b) = [ln_inst a; ln_inst a; ln_inst b].
Proof.
  unfold ByteCodeParser. rewrite parse_line by done. cbn [parse_loop].
  change (is_blank 0x0a) with false. change (is_end 0x0a) with true. cbn [negb].
  change (bool_decide (0x0a <> 0x0a)) with false.
  rewrite <- (app_nil_r (print_line b)), parse_line by done. done.
Qed.

Lemma empty_line_witness :
  ByteCodeParser (print_line (MkLine (MkInst 0x41 [0x31]) 0 None) ++ 0x0a :: print_line (MkLine (MkInst 0x7a []) 0 None))
    = [MkInst 0x41 [0x31]; MkInst 0x41 [0x31]; MkInst 0x7a []].
Proof. rewrite empty_line_repeats_instruction; [reflexivity|split; [by repeat constructor|done]..]. Defined.
