(* ===== verification/OvmStack.v ===== *)
(** * The memory of the contract virtual machine

    Models [omega/ovm/stack.go]: the frames of the running contract, each with a
    byte space, addressed by 64-bit pointers (the frame in the high half, the
    offset in the low half).  A frame is reached through one key of [data] only,
    so [data] maps keys to frames by value. *)
From stdpp Require Import gmap list.
From Stdlib Require Import ZArith Lia.
From S2P Require Import Prelude Difficulty.

Open Scope Z_scope.

(** ** Script errors: a value or an error, in code that may also panic *)

Inductive script_err :=
  | outofmemory | outofstack
  | MalformedOperand | MemoryAddressFault
  | StackUnderflow | MalformedExpression | DividedBy0
  | OutOfRangeJump | MalformedParameters | MemoryLimit
  | LibNotLoaded | OutOfRangeCall | CallDepth | MalformedCall
  | NumericOverflow | LibMissing | LibLimit | ImproperInheritance
  | StepLimitExceeded | InvalidOpcode | WriteProtection | StateModification
  | ExecutionReverted | InstructionOutOfRange | StoreForbidden.

Global Instance script_err_dec : EqDecision script_err.
Proof. solve_decision. Defined.

Abbreviation res A := (outcome (A + script_err)).

Definition res_bind {A B} (m : res A) (k : A -> res B) : res B :=
  r ← m; match r with inl a => k a | inr e => Ok (inr e) end.

Declare Scope ovm_scope.
Open Scope ovm_scope.
Notation "x ⇐ m ; k" := (res_bind m (fun x => k))
  (at level 20, m at level 100, k at level 200, right associativity) : ovm_scope.
Notation "' p ⇐ m ; k" := (res_bind m (fun x => let 'p := x in k))
  (at level 20, p pattern, m at level 100, k at level 200, right associativity) : ovm_scope.

(** ** Frames and pointers *)

Record frame := MkFrame {
  f_space : list Z;
  f_inlib : list Z;
  f_gbase : Z;
  f_pc : Z;
  f_pure : Z;
}.

Definition set_space (sp : list Z) (f : frame) : frame :=
  MkFrame sp (f_inlib f) (f_gbase f) (f_pc f) (f_pure f).

Definition newFrame : frame := MkFrame [] (replicate 20 0) 0 0 0.

Record Stack := MkStack {
  s_callTop : Z;
  s_libTop : Z;
  s_data : gmap Z frame;
}.

Definition set_data (s : Stack) (d : gmap Z frame) : Stack := MkStack (s_callTop s) (s_libTop s) d.

Definition Newstack : Stack := MkStack 0 0 {[ 0 := set_space (replicate 4 0) newFrame ]}.

(** [s.data[k]] where the code uses a field of it: a missing frame is a nil pointer. *)
Definition frame_at (s : Stack) (k : Z) : outcome frame :=
  match s_data s !! k with Some f => Ok f | None => Panic end.

Definition ptr_offset (p : Z) : Z := Z.land p 0xFFFFFFFF.
Definition ptr_area (p : Z) : Z := i32 (Z.shiftr p 32).

(** [make([]byte, m)] for an [int]; how much memory the host has is not modelled. *)
Definition make_bytes (m : Z) : outcome (list Z) :=
  if decide (0 <= m) then Ok (replicate (Z.to_nat m) 0) else Panic.

(** The common part of [malloc] and [alloc]: grow the space of frame [t]. *)
Definition grow (s : Stack) (t n : Z) : outcome (Stack * Z * Z) :=
  f ← frame_at s t;
  let p := Z.lor (u64 (Z.shiftl (u64 t) 32)) (Z.of_nat (length (f_space f))) in
  if decide (n = 0) then Ok (s, p, 0)
  else
    let m := Z.ldiff (i64 (n + 63)) 63 in
    extra ← make_bytes m;
    Ok (set_data s (<[t := set_space (f_space f ++ extra) f]> (s_data s)), p, m).

Definition malloc (s : Stack) (n : Z) : outcome (Stack * Z * Z) :=
  l ← frame_at s (s_libTop s); grow s (f_gbase l) n.

Definition stack_alloc (s : Stack) (n : Z) : outcome (Stack * Z * Z) := grow s (s_callTop s) n.

Definition shrink (s : Stack) (n : Z) : outcome Stack :=
  if decide (n = 0) then Ok s
  else
    f ← frame_at s 0;
    sp ← slice_sub (f_space f) 0 (Z.of_nat (length (f_space f)) - n);
    Ok (set_data s (<[0 := set_space sp f]> (s_data s))).

(** The first lines of every accessor: the offset, and the frame of the area. *)
Definition with_area {A} (s : Stack) (p : Z) (k : Z -> Z -> frame -> res A) : res A :=
  match s_data s !! ptr_area p with
  | None => Ok (inr outofstack)
  | Some f => k (ptr_offset p) (ptr_area p) f
  end.

(** [for ; i >= 0 && h[i] == 0; i-- {}] followed by [n = i + 1], on the first [i + 1] bytes. *)
Fixpoint top_loop (n : nat) (h : list Z) : nat :=
  match n with
  | O => O
  | S m => if decide (h !! m = Some 0) then top_loop m h else S m
  end.

Definition toBig (s : Stack) (p : Z) : res Z :=
  with_area s p (fun offset area f =>
    if decide (offset < 0 \/ offset + 32 > len (f_space f)) then Ok (inr outofstack)
    else
      h ← slice_sub (f_space f) offset (offset + 32);
      let n := top_loop 32 h in
      buf ← swap_loop (n / 2) (take n h) 0;
      Ok (inl (SetBytes buf))).

Definition toByte (s : Stack) (p : Z) : res Z :=
  with_area s p (fun offset area f =>
    if decide (offset < len (f_space f)) then b ← slice_get (f_space f) offset; Ok (inl b)
    else Ok (inr outofmemory)).

Definition toBytesLen (s : Stack) (p n : Z) : res (list Z) :=
  with_area s p (fun offset area f =>
    if decide (i64 (offset + n) < len (f_space f))
    then b ← slice_sub (f_space f) offset (i64 (offset + n)); Ok (inl b)
    else Ok (inr outofmemory)).

Definition toBytes (s : Stack) (p : Z) : res (list Z) :=
  with_area s p (fun offset area f =>
    if decide (offset < len (f_space f))
    then b ← slice_sub (f_space f) offset (len (f_space f)); Ok (inl b)
    else Ok (inr outofmemory)).

Definition toInt16 (s : Stack) (p : Z) : res Z :=
  with_area s p (fun offset area f =>
    if decide (offset + 1 < len (f_space f)) then
      b0 ← slice_get (f_space f) offset;
      b1 ← slice_get (f_space f) (offset + 1);
      Ok (inl (Z.lor b0 (i16 (Z.shiftl b1 8))))
    else Ok (inr outofmemory)).

Definition toInt32 (s : Stack) (p : Z) : res Z :=
  with_area s p (fun offset area f =>
    if decide (offset + 3 < len (f_space f)) then
      b0 ← slice_get (f_space f) offset;
      b1 ← slice_get (f_space f) (offset + 1);
      b2 ← slice_get (f_space f) (offset + 2);
      b3 ← slice_get (f_space f) (offset + 3);
      Ok (inl (Z.lor (Z.lor (Z.lor b0 (i32 (Z.shiftl b1 8))) (i32 (Z.shiftl b2 16))) (i32 (Z.shiftl b3 24))))
    else Ok (inr outofmemory)).

Definition toInt64 (s : Stack) (p : Z) : res Z :=
  with_area s p (fun offset area f =>
    if decide (offset + 7 < len (f_space f)) then
      b0 ← slice_get (f_space f) offset;
      b1 ← slice_get (f_space f) (offset + 1);
      b2 ← slice_get (f_space f) (offset + 2);
      b3 ← slice_get (f_space f) (offset + 3);
      b4 ← slice_get (f_space f) (offset + 4);
      b5 ← slice_get (f_space f) (offset + 5);
      b6 ← slice_get (f_space f) (offset + 6);
      b7 ← slice_get (f_space f) (offset + 7);
      Ok (inl
        (Z.lor (Z.lor (Z.lor (Z.lor (Z.lor (Z.lor (Z.lor b0
          (i64 (Z.shiftl b1 8))) (i64 (Z.shiftl b2 16))) (i64 (Z.shiftl b3 24))) (i64 (Z.shiftl b4 32)))
          (i64 (Z.shiftl b5 40))) (i64 (Z.shiftl b6 48))) (i64 (Z.shiftl b7 56))))
    else Ok (inr outofmemory)).

(** [pointer(d)] is the conversion to uint64. *)
Definition toPointer (s : Stack) (p : Z) : res Z := d ⇐ toInt64 s p; Ok (inl (u64 d)).

Definition toHash (s : Stack) (p : Z) : res (list Z) :=
  with_area s p (fun offset area f =>
    if decide (offset + 31 < len (f_space f))
    then h ← slice_sub (f_space f) offset (offset + 32); Ok (inl h)
    else Ok (inr outofmemory)).

(** The new space put back in the frame of the area. *)
Definition put_space (s : Stack) (area : Z) (f : frame) (sp : list Z) : Stack :=
  set_data s (<[area := set_space sp f]> (s_data s)).

Definition saveByte (s : Stack) (p b : Z) : res Stack :=
  with_area s p (fun offset area f =>
    if decide (offset < len (f_space f)) then
      sp ← slice_set (f_space f) offset b;
      Ok (inl (put_space s area f sp))
    else Ok (inr outofmemory)).

(** [copy(dst[offset:], src)]: as much as fits. *)
Definition copy_at (dst : list Z) (offset : Z) (src : list Z) : list Z :=
  let n := Z.to_nat offset in
  let k := Nat.min (length src) (length dst - n) in
  take n dst ++ take k src ++ drop (n + k) dst.

Definition saveBytes (s : Stack) (p : Z) (b : list Z) : res Stack :=
  with_area s p (fun offset area f =>
    if decide (offset < len (f_space f))
    then Ok (inl (put_space s area f (copy_at (f_space f) offset b)))
    else Ok (inr outofmemory)).

Definition saveInt16 (s : Stack) (p b : Z) : res Stack :=
  with_area s p (fun offset area f =>
    if decide (offset + 1 < len (f_space f)) then
      sp ← slice_set (f_space f) offset (u8 b);
      sp ← slice_set sp (offset + 1) (u8 (Z.shiftr b 8));
      Ok (inl (put_space s area f sp))
    else Ok (inr outofmemory)).

(** [for i := 0; i < n; i++ { space[offset+i] = byte(b >> (8 * i)) }] *)
Fixpoint save_loop (n : nat) (sp : list Z) (offset b i : Z) : outcome (list Z) :=
  match n with
  | O => Ok sp
  | S n => sp ← slice_set sp (offset + i) (u8 (Z.shiftr b (8 * i))); save_loop n sp offset b (i + 1)
  end.

Definition saveInt32 (s : Stack) (p b : Z) : res Stack :=
  with_area s p (fun offset area f =>
    if decide (offset + 3 < len (f_space f)) then
      sp ← save_loop 4 (f_space f) offset b 0;
      Ok (inl (put_space s area f sp))
    else Ok (inr outofmemory)).

Definition saveInt64 (s : Stack) (p b : Z) : res Stack :=
  with_area s p (fun offset area f =>
    if decide (offset + 7 < len (f_space f)) then
      sp ← save_loop 8 (f_space f) offset b 0;
      Ok (inl (put_space s area f sp))
    else Ok (inr outofmemory)).

(** [int64(d)] of a pointer. *)
Definition savePointer (s : Stack) (p d : Z) : res Stack := saveInt64 s p (i64 d).

Definition saveHash (s : Stack) (p : Z) (h : list Z) : res Stack :=
  with_area s p (fun offset area f =>
    if decide (offset + 31 < len (f_space f))
    then Ok (inl (put_space s area f (copy_at (f_space f) offset h)))
    else Ok (inr outofmemory)).

(** ** The bytes of the memory *)

Definition memory_ok (s : Stack) : Prop :=
  forall k f, s_data s !! k = Some f -> bytes (f_space f).

(** The [n] bytes at [offset]. *)
Definition bytes_at (sp : list Z) (offset : Z) (n : nat) : list Z := take n (drop (Z.to_nat offset) sp).
(** The space with [bs] written at [offset]. *)
Definition write_at (sp : list Z) (offset : Z) (bs : list Z) : list Z :=
  take (Z.to_nat offset) sp ++ bs ++ drop (Z.to_nat offset + length bs) sp.

(** ** Loads *)

Lemma bytes_at_length sp offset n : 0 <= offset -> offset + Z.of_nat n <= len sp -> length (bytes_at sp offset n) = n.
Proof. intros. unfold bytes_at. rewrite length_take, length_drop. lia. Qed.

Lemma bytes_at_bytes sp offset n : bytes sp -> bytes (bytes_at sp offset n).
Proof. intros. by apply Forall_take, Forall_drop. Qed.

Lemma slice_get_bytes_at sp offset n i b : 0 <= offset -> 0 <= i ->
  bytes_at sp offset n !! Z.to_nat i = Some b -> slice_get sp (offset + i) = Ok b.
Proof.
  unfold bytes_at. intros Ho Hi Hb. apply lookup_take_Some in Hb as [Hb _].
  rewrite lookup_drop in Hb. apply slice_get_ok; [lia|]. by rewrite Z2Nat.inj_add by lia.
Qed.

Lemma slice_sub_bytes_at sp offset n : 0 <= offset -> offset + Z.of_nat n <= len sp ->
  slice_sub sp offset (offset + Z.of_nat n) = Ok (bytes_at sp offset n).
Proof.
  intros. rewrite slice_sub_ok by lia. unfold bytes_at.
  by replace (Z.to_nat (offset + Z.of_nat n - offset)) with n by lia.
Qed.

Lemma swrap_shiftl w b k : 0 <= k < w -> swrap w (Z.shiftl b k) = Z.shiftl (swrap (w - k) b) k.
Proof.
  intros. unfold swrap. rewrite !Z.shiftl_mul_pow2 by lia.
  replace (2 ^ (w - 1)) with (2 ^ (w - k - 1) * 2 ^ k) by (rewrite <- Z.pow_add_r by lia; f_equal; lia).
  replace (2 ^ w) with (2 ^ (w - k) * 2 ^ k) by (rewrite <- Z.pow_add_r by lia; f_equal; lia).
  rewrite <- Z.mul_add_distr_r, Z.mul_mod_distr_r by lia. lia.
Qed.

(** One step of a little-endian load: [x | intN(b) << k]. *)
Lemma lor_byte w k x b : 0 <= k < w -> 0 <= x < 2 ^ k -> Z.lor x (swrap w (Z.shiftl b k)) = swrap w (x + b * 2 ^ k).
Proof.
  intros Hk Hx. rewrite swrap_shiftl, Z.lor_comm, lor_shiftl_add by lia.
  pose proof (swrap_range (w - k) b ltac:(lia)) as Hr. unfold sint_range in Hr.
  assert (2 ^ (w - 1) = 2 ^ (w - k - 1) * 2 ^ k) as E by (rewrite <- Z.pow_add_r by lia; f_equal; lia).
  rewrite <- (swrap_id w (swrap (w - k) b * 2 ^ k + x)) at 1; [|lia|unfold sint_range; rewrite E; nia].
  apply swrap_cong; [lia|]. unfold uwrap.
  assert (uwrap (w - k) (swrap (w - k) b) = uwrap (w - k) b) as Eb by (apply swrap_mod; lia). unfold uwrap in Eb.
  replace (2 ^ w) with (2 ^ (w - k) * 2 ^ k) by (rewrite <- Z.pow_add_r by lia; f_equal; lia).
  rewrite (Z.add_comm x), <- Z.add_mod_idemp_l, Z.mul_mod_distr_r, Eb, <- Z.mul_mod_distr_r, Z.add_mod_idemp_l by lia.
  done.
Qed.

Lemma lor_byte_low w k x b : 0 <= k -> k + 8 < w -> 0 <= x < 2 ^ k -> uint_range 8 b ->
  Z.lor x (swrap w (Z.shiftl b k)) = x + b * 2 ^ k /\ 0 <= x + b * 2 ^ k < 2 ^ (k + 8).
Proof.
  unfold uint_range. intros Hk Hw Hx Hb. rewrite lor_byte by lia.
  assert (2 ^ (k + 8) = 256 * 2 ^ k) as E by (rewrite Z.pow_add_r by lia; lia).
  assert (0 <= x + b * 2 ^ k < 2 ^ (k + 8)) as Hr by nia. split; [|done].
  apply swrap_id; [lia|]. unfold sint_range.
  assert (2 ^ (k + 8) <= 2 ^ (w - 1)) by (apply Z.pow_le_mono_r; lia). lia.
Qed.

Lemma offset_nonneg p : 0 <= ptr_offset p.
Proof. unfold ptr_offset. apply Z.land_nonneg. lia. Qed.

(** Runs the [slice_get]s of a load whose bytes are listed by [E]. *)
Ltac run_gets n E :=
  repeat (erewrite (slice_get_bytes_at _ _ n) by (try lia; rewrite E; reflexivity)); cbn [mbind outcome_bind].

(** Folds the [lor]s of a load into a sum, the low bytes first. *)
Ltac fold_lors :=
  repeat match goal with
  | |- context [Z.lor ?x (swrap ?w (Z.shiftl ?b ?k))] =>
      lazymatch x with context [Z.lor] => fail | _ => idtac end;
      first
        [ let E := fresh in let R := fresh in
          destruct (lor_byte_low w k x b) as [E R]; [lia|lia|lia|done|]; rewrite E; clear E; simpl (k + 8) in R
        | rewrite (lor_byte w k x b) by lia ]
  end.

Lemma toInt16_ok s p f : memory_ok s -> s_data s !! ptr_area p = Some f ->
  toInt16 s p = Ok (if decide (ptr_offset p + 2 <= len (f_space f))
                    then inl (i16 (le_value (bytes_at (f_space f) (ptr_offset p) 2))) else inr outofmemory).
Proof.
  intros Hm Hf. unfold toInt16, with_area. rewrite Hf. pose proof (offset_nonneg p).
  case_decide; case_decide; try lia; [|done].
  pose proof (bytes_at_length (f_space f) (ptr_offset p) 2 ltac:(lia) ltac:(lia)) as Hl.
  pose proof (bytes_at_bytes (f_space f) (ptr_offset p) 2 (Hm _ _ Hf)) as Hb.
  destruct (bytes_at (f_space f) (ptr_offset p) 2) as [|b0 [|b1 [|]]] eqn:E; try done.
  rewrite <- (Z.add_0_r (ptr_offset p)) at 1. run_gets 2%nat E.
  unfold bytes in Hb. rewrite !Forall_cons in Hb. destruct_and! Hb. unfold uint_range in *.
  fold_lors. do 3 f_equal. unfold le_value. cbn [foldr]. lia.
Qed.

Lemma toInt32_ok s p f : memory_ok s -> s_data s !! ptr_area p = Some f ->
  toInt32 s p = Ok (if decide (ptr_offset p + 4 <= len (f_space f))
                    then inl (i32 (le_value (bytes_at (f_space f) (ptr_offset p) 4))) else inr outofmemory).
Proof.
  intros Hm Hf. unfold toInt32, with_area. rewrite Hf. pose proof (offset_nonneg p).
  case_decide; case_decide; try lia; [|done].
  pose proof (bytes_at_length (f_space f) (ptr_offset p) 4 ltac:(lia) ltac:(lia)) as Hl.
  pose proof (bytes_at_bytes (f_space f) (ptr_offset p) 4 (Hm _ _ Hf)) as Hb.
  destruct (bytes_at (f_space f) (ptr_offset p) 4) as [|b0 [|b1 [|b2 [|b3 [|]]]]] eqn:E; try done.
  rewrite <- (Z.add_0_r (ptr_offset p)) at 1. run_gets 4%nat E.
  unfold bytes in Hb. rewrite !Forall_cons in Hb. destruct_and! Hb. unfold uint_range in *.
  fold_lors. do 3 f_equal. unfold le_value. cbn [foldr]. lia.
Qed.

Lemma toInt64_ok s p f : memory_ok s -> s_data s !! ptr_area p = Some f ->
  toInt64 s p = Ok (if decide (ptr_offset p + 8 <= len (f_space f))
                    then inl (i64 (le_value (bytes_at (f_space f) (ptr_offset p) 8))) else inr outofmemory).
Proof.
  intros Hm Hf. unfold toInt64, with_area. rewrite Hf. pose proof (offset_nonneg p).
  case_decide; case_decide; try lia; [|done].
  pose proof (bytes_at_length (f_space f) (ptr_offset p) 8 ltac:(lia) ltac:(lia)) as Hl.
  pose proof (bytes_at_bytes (f_space f) (ptr_offset p) 8 (Hm _ _ Hf)) as Hb.
  destruct (bytes_at (f_space f) (ptr_offset p) 8) as [|b0 [|b1 [|b2 [|b3 [|b4 [|b5 [|b6 [|b7 [|]]]]]]]]] eqn:E; try done.
  rewrite <- (Z.add_0_r (ptr_offset p)) at 1. run_gets 8%nat E.
  unfold bytes in Hb. rewrite !Forall_cons in Hb. destruct_and! Hb. unfold uint_range in *.
  fold_lors. do 3 f_equal. unfold le_value. cbn [foldr]. lia.
Qed.

(** ** Stores *)

Lemma save_loop_ok n : forall i pre mid post offset b, 0 <= i -> len pre = offset + i -> length mid = n ->
  save_loop n (pre ++ mid ++ post) offset b i = Ok (pre ++ le_bytes n (b / 256 ^ i) ++ post).
Proof.
  induction n as [|n IH]; intros i pre mid post offset b Hi Hp Hm; cbn [save_loop le_bytes].
  { by destruct mid. }
  destruct mid as [|m mid]; [done|]. cbn [app].
  rewrite slice_set_app by lia. cbn [mbind outcome_bind].
  assert (u8 (Z.shiftr b (8 * i)) = b / 256 ^ i mod 256) as E.
  { unfold uwrap. rewrite Z.shiftr_div_pow2 by lia. by rewrite Z.pow_mul_r by lia. }
  rewrite E.
  pose proof (IH (i + 1) (pre ++ [b / 256 ^ i mod 256]) mid post offset b ltac:(lia)) as IH'.
  rewrite <- !app_assoc in IH'. cbn [app] in IH'.
  rewrite IH'; [|rewrite length_app; simpl; lia|simpl in Hm; lia].
  rewrite Z.div_div by lia. by rewrite Z.pow_add_r by lia.
Qed.

Lemma save_loop_write n sp offset b : 0 <= offset -> offset + Z.of_nat n <= len sp ->
  save_loop n sp offset b 0 = Ok (write_at sp offset (le_bytes n b)).
Proof.
  intros. unfold write_at. rewrite le_bytes_length.
  rewrite <- (take_drop (Z.to_nat offset) sp) at 1.
  rewrite <- (take_drop n (drop (Z.to_nat offset) sp)) at 1. rewrite drop_drop.
  rewrite save_loop_ok; [by rewrite Z.pow_0_r, Z.div_1_r|lia| |].
  - rewrite length_take. lia.
  - rewrite length_take, length_drop. lia.
Qed.

Lemma write_at_length sp offset bs : 0 <= offset -> offset + len bs <= len sp ->
  length (write_at sp offset bs) = length sp.
Proof. intros. unfold write_at. rewrite !length_app, length_take, length_drop. lia. Qed.

Lemma write_at_bytes sp offset bs : bytes sp -> bytes bs -> bytes (write_at sp offset bs).
Proof. intros. unfold write_at. repeat apply Forall_app_2; [by apply Forall_take|done|by apply Forall_drop]. Qed.

Lemma bytes_at_write_at sp offset bs : 0 <= offset -> offset + len bs <= len sp ->
  bytes_at (write_at sp offset bs) offset (length bs) = bs.
Proof.
  intros. unfold bytes_at, write_at.
  rewrite drop_app_length' by (rewrite length_take; lia). by rewrite take_app_length.
Qed.

Lemma write_at_other sp offset bs i : 0 <= offset -> offset + len bs <= len sp ->
  Z.of_nat i < offset \/ offset + len bs <= Z.of_nat i -> write_at sp offset bs !! i = sp !! i.
Proof.
  intros Ho Hl [Hi|Hi]; unfold write_at.
  - rewrite lookup_app_l by (rewrite length_take; lia). apply lookup_take_lt. lia.
  - rewrite lookup_app_r, length_take by (rewrite length_take; lia).
    rewrite lookup_app_r by lia. rewrite lookup_drop. f_equal. lia.
Qed.

(** The four widths of a word. *)
Inductive width := W8 | W16 | W32 | W64.

Definition width_bytes (w : width) : nat := match w with W8 => 1 | W16 => 2 | W32 => 4 | W64 => 8 end.

Definition save_word (w : width) : Stack -> Z -> Z -> res Stack :=
  match w with W8 => saveByte | W16 => saveInt16 | W32 => saveInt32 | W64 => saveInt64 end.
Definition load_word (w : width) : Stack -> Z -> res Z :=
  match w with W8 => toByte | W16 => toInt16 | W32 => toInt32 | W64 => toInt64 end.
Definition word_range (w : width) : Z -> Prop :=
  match w with W8 => uint_range 8 | W16 => sint_range 16 | W32 => sint_range 32 | W64 => sint_range 64 end.
(** A word from its bytes: unsigned for a byte, two's complement for the others. *)
Definition word_of (w : width) (bs : list Z) : Z :=
  match w with W8 => le_value bs | W16 => i16 (le_value bs) | W32 => i32 (le_value bs) | W64 => i64 (le_value bs) end.

Lemma word_of_le_bytes w b : word_range w b -> word_of w (le_bytes (width_bytes w) b) = b.
Proof.
  intros H. unfold word_of. destruct w; cbn [width_bytes]; rewrite le_value_le_bytes; simpl in H.
  - by apply Z.mod_small.
  - change (i16 (u16 b) = b). rewrite <- (swrap_id 16 b) at 2 by (done || lia).
    apply swrap_cong; [lia|]. by rewrite uwrap_uwrap.
  - change (i32 (u32 b) = b). rewrite <- (swrap_id 32 b) at 2 by (done || lia).
    apply swrap_cong; [lia|]. by rewrite uwrap_uwrap.
  - change (i64 (u64 b) = b). rewrite <- (swrap_id 64 b) at 2 by (done || lia).
    apply swrap_cong; [lia|]. by rewrite uwrap_uwrap.
Qed.

Lemma load_word_ok w s p : memory_ok s ->
  load_word w s p = Ok (match s_data s !! ptr_area p with
    | None => inr outofstack
    | Some f => if decide (ptr_offset p + Z.of_nat (width_bytes w) <= len (f_space f))
                then inl (word_of w (bytes_at (f_space f) (ptr_offset p) (width_bytes w))) else inr outofmemory
    end).
Proof.
  intros Hm. destruct (s_data s !! ptr_area p) as [f|] eqn:Hf.
  2: { destruct w; cbn [load_word]; unfold toByte, toInt16, toInt32, toInt64, with_area; by rewrite Hf. }
  destruct w; cbn [load_word width_bytes word_of];
    [|by apply toInt16_ok|by apply toInt32_ok|by apply toInt64_ok].
  unfold toByte, with_area. rewrite Hf. pose proof (offset_nonneg p).
  case_decide; case_decide; try lia; [|done].
  pose proof (bytes_at_length (f_space f) (ptr_offset p) 1 ltac:(lia) ltac:(lia)) as Hl.
  destruct (bytes_at (f_space f) (ptr_offset p) 1) as [|b0 [|]] eqn:E; try done.
  rewrite <- (Z.add_0_r (ptr_offset p)) at 1. run_gets 1%nat E.
  do 2 f_equal. unfold le_value. cbn [foldr]. lia.
Qed.

Lemma save_word_ok w s p b : word_range w b ->
  save_word w s p b = Ok (match s_data s !! ptr_area p with
    | None => inr outofstack
    | Some f => if decide (ptr_offset p + Z.of_nat (width_bytes w) <= len (f_space f))
                then inl (put_space s (ptr_area p) f
                       (write_at (f_space f) (ptr_offset p) (le_bytes (width_bytes w) b))) else inr outofmemory
    end).
Proof.
  intros Hb. destruct (s_data s !! ptr_area p) as [f|] eqn:Hf.
  2: { destruct w; cbn [save_word]; unfold saveByte, saveInt16, saveInt32, saveInt64, with_area; by rewrite Hf. }
  pose proof (offset_nonneg p).
  destruct w; cbn [save_word width_bytes]; unfold saveByte, saveInt16, saveInt32, saveInt64, with_area; rewrite Hf;
    case_decide; case_decide; try lia; try done.
  - pose proof (save_loop_write 1 (f_space f) (ptr_offset p) b ltac:(lia) ltac:(lia)) as E.
    cbn [save_loop] in E. rewrite Z.mul_0_r, Z.shiftr_0_r, Z.add_0_r in E.
    rewrite uwrap_id in E by done. destruct (slice_set _ _ _); cbn [mbind outcome_bind] in E |- *; [by injection E as ->|done..].
  - pose proof (save_loop_write 2 (f_space f) (ptr_offset p) b ltac:(lia) ltac:(lia)) as E.
    cbn [save_loop] in E. rewrite Z.mul_0_r, Z.shiftr_0_r, Z.add_0_r in E.
    change (8 * (0 + 1)) with 8 in E. change (0 + 1) with 1 in E.
    destruct (slice_set _ _ _); cbn [mbind outcome_bind] in E |- *; [|done..].
    destruct (slice_set _ _ _); cbn [mbind outcome_bind] in E |- *; [by injection E as ->|done..].
  - by rewrite save_loop_write by lia.
  - by rewrite save_loop_write by lia.
Qed.

Lemma put_space_memory_ok s area f sp : memory_ok s -> bytes sp -> memory_ok (put_space s area f sp).
Proof.
  intros Hm Hs k g. unfold put_space, set_data. cbn [s_data]. rewrite lookup_insert_Some.
  intros [[_ <-]|[_ Hg]]; [done|by apply (Hm k)].
Qed.

Lemma toByte_lookup s p : toByte s p = Ok (match s_data s !! ptr_area p with
    | None => inr outofstack
    | Some f => match f_space f !! Z.to_nat (ptr_offset p) with Some b => inl b | None => inr outofmemory end
    end).
Proof.
  unfold toByte, with_area. destruct (s_data s !! ptr_area p) as [f|]; [|done].
  pose proof (offset_nonneg p). case_decide.
  - destruct (lookup_lt_is_Some_2 (f_space f) (Z.to_nat (ptr_offset p)) ltac:(lia)) as [b Hb].
    by rewrite (slice_get_ok _ _ b), Hb by (done || lia).
  - by rewrite lookup_ge_None_2 by lia.
Qed.

(** ** Big integers and the end of a space *)

(** Dropping the zero bytes at the top does not change the number. *)
Lemma top_loop_value n : forall h, (n <= length h)%nat ->
  (top_loop n h <= n)%nat /\ le_value (take (top_loop n h) h) = le_value (take n h).
Proof.
  induction n as [|n IH]; intros h Hn; cbn [top_loop]; [done|].
  case_decide as E; [|done]. destruct (IH h ltac:(lia)) as [Hl Hv]. split; [lia|].
  rewrite Hv, (take_S_r h n 0 E), le_value_app. simpl (le_value [0]). lia.
Qed.

Lemma toBig_ok s p f : s_data s !! ptr_area p = Some f -> ptr_offset p + 32 <= len (f_space f) ->
  toBig s p = Ok (inl (le_value (bytes_at (f_space f) (ptr_offset p) 32))).
Proof.
  intros Hf Hl. unfold toBig, with_area. rewrite Hf. pose proof (offset_nonneg p).
  rewrite decide_False by lia.
  change (ptr_offset p + 32) with (ptr_offset p + Z.of_nat 32) in *. rewrite slice_sub_bytes_at by lia.
  cbn [mbind outcome_bind]. pose proof (bytes_at_length (f_space f) (ptr_offset p) 32 ltac:(lia) Hl) as H32.
  set (h := bytes_at _ _ _) in *. destruct (top_loop_value 32 h ltac:(lia)) as [Hn Hv].
  pose proof (swap_loop_ok (top_loop 32 h / 2) [] (take (top_loop 32 h) h) [] eq_refl) as Hs.
  cbn [app] in Hs. rewrite !app_nil_r in Hs. change (Z.of_nat (length [])) with 0 in Hs.
  rewrite Hs by (rewrite length_take; f_equal; lia). cbn [mbind outcome_bind].
  by rewrite SetBytes_reverse, Hv, take_ge by lia.
Qed.

(** ** Theorems *)

(** The memory of the virtual machine is a store of words: every save either
    succeeds, or reports a missing frame or an address past the end, and never
    panics; after a save the word of that width at the pointer is the saved one,
    in two's complement, and every byte outside of it is unchanged. *)
Theorem memory_store_load (w : width) (s : Stack) (p b : Z) (Hm : memory_ok s) (Hb : word_range w b) :
  match save_word w s p b with
  | Ok (inl s') => memory_ok s' /\ load_word w s' p = Ok (inl b) /\
      forall q, ptr_area q <> ptr_area p \/ ptr_offset q < ptr_offset p \/
                ptr_offset p + Z.of_nat (width_bytes w) <= ptr_offset q -> toByte s' q = toByte s q
  | Ok (inr e) => (e = outofstack /\ s_data s !! ptr_area p = None) \/
      (e = outofmemory /\ exists f, s_data s !! ptr_area p = Some f /\
         len (f_space f) < ptr_offset p + Z.of_nat (width_bytes w))
  | Panic | NoFuel => False
  end.
Proof.
  rewrite save_word_ok by done. destruct (s_data s !! ptr_area p) as [f|] eqn:Hf; [|by left].
  case_decide as Hl; [|right; split; [done|]; exists f; split; [done|lia]].
  pose proof (offset_nonneg p) as Hp. set (bs := le_bytes _ _).
  assert (length bs = width_bytes w) as Hbs by apply le_bytes_length. rewrite <- Hbs in Hl.
  assert (memory_ok (put_space s (ptr_area p) f (write_at (f_space f) (ptr_offset p) bs))) as Hm'.
  { apply put_space_memory_ok; [done|]. apply write_at_bytes; [by apply (Hm (ptr_area p))|apply le_bytes_bytes]. }
  split_and!; [done| |].
  - rewrite load_word_ok by done. unfold put_space, set_data. cbn [s_data]. rewrite lookup_insert_eq.
    cbn [f_space set_space]. rewrite decide_True by (rewrite write_at_length; lia).
    rewrite <- Hbs, bytes_at_write_at by lia. unfold bs. by rewrite word_of_le_bytes.
  - intros q Hq. rewrite !toByte_lookup. unfold put_space, set_data. cbn [s_data].
    destruct (decide (ptr_area q = ptr_area p)) as [E|E]; [|by rewrite lookup_insert_ne by done].
    rewrite E, lookup_insert_eq, Hf. cbn [f_space set_space]. pose proof (offset_nonneg q).
    rewrite write_at_other; [done|lia|lia|]. rewrite Hbs, Z2Nat.id by lia. lia.
Qed.

Lemma memory_store_load_witness :
  exists s', save_word W32 Newstack 0 (-5) = Ok (inl s') /\ load_word W32 s' 0 = Ok (inl (-5)).
Proof.
  pose proof (memory_store_load W32 Newstack 0 (-5)) as T.
  assert (memory_ok Newstack) as Hm.
  { intros k f. cbn [s_data Newstack]. rewrite lookup_singleton_Some. intros [_ <-]. by repeat constructor. }
  specialize (T Hm ltac:(split; vm_compute; congruence)).
  destruct (save_word W32 Newstack 0 (-5)) as [[s'|e]| |] eqn:E; [|exfalso|done..].
  - exists s'. by destruct T as (_ & ? & _).
  - vm_compute in E. discriminate.
Defined.

(** Allocating [n] bytes, [n > 0], in a frame returns a pointer to its old end
    and a size of at least [n] that is a multiple of 64; the new bytes are zero, the
    old ones and the other frames are unchanged. *)
Theorem alloc_extends_frame (s : Stack) (t n : Z) (f : frame)
    (Hf : s_data s !! t = Some f) (Ht : 0 <= t < 2 ^ 31) (Hn : 0 < n < 2 ^ 62) (Hlen : len (f_space f) < 2 ^ 32) :
  exists p m, grow s t n = Ok (put_space s t f (f_space f ++ replicate (Z.to_nat m) 0), p, m) /\
    n <= m < n + 64 /\ m mod 64 = 0 /\ ptr_area p = t /\ ptr_offset p = len (f_space f).
Proof.
  unfold grow, frame_at. rewrite Hf. cbn [mbind outcome_bind]. rewrite decide_False by lia.
  rewrite (swrap_id 64) by (unfold sint_range; lia).
  set (m := Z.ldiff (n + 63) 63).
  assert (m = (n + 63) / 64 * 64) as Hm.
  { unfold m. change 63 with (Z.ones 6) at 2. rewrite Z.ldiff_ones_r by lia.
    rewrite Z.shiftl_mul_pow2, Z.shiftr_div_pow2 by lia. done. }
  pose proof (Z.div_mod (n + 63) 64 ltac:(lia)). pose proof (Z.mod_pos_bound (n + 63) 64 ltac:(lia)).
  unfold make_bytes. rewrite decide_True by lia. cbn [mbind outcome_bind].
  rewrite (uwrap_id 64 t), (uwrap_id 64) by (unfold uint_range; rewrite ?Z.shiftl_mul_pow2; lia).
  rewrite lor_shiftl_add by lia.
  eexists _, m. split_and!; [done|lia|lia|by rewrite Hm, Z.mod_mul| |].
  - unfold ptr_area. rewrite Z.shiftr_div_pow2, Z.div_add_l, (Z.div_small (len _)), Z.add_0_r by lia.
    apply swrap_id; [lia|]. unfold sint_range. lia.
  - unfold ptr_offset. change 0xFFFFFFFF with (2 ^ 32 - 1). rewrite land_ones_mod by lia.
    rewrite Z.add_comm, Z.mod_add, Z.mod_small by lia. done.
Qed.

(** [toBytesLen] reads [n] bytes only when a byte of the space follows them: a
    read up to the very end of the space is refused, and a negative length panics. *)
Theorem to_bytes_len_behaviour (s : Stack) (p n : Z) (f : frame)
    (Hf : s_data s !! ptr_area p = Some f) (Hlen : len (f_space f) < 2 ^ 62) (Hn : sint_range 33 n) :
  let offset := ptr_offset p in
  toBytesLen s p n =
    if decide (len (f_space f) <= offset + n) then Ok (inr outofmemory)
    else if decide (n < 0) then Panic else Ok (inl (bytes_at (f_space f) offset (Z.to_nat n))).
Proof.
  cbn zeta. unfold toBytesLen, with_area. rewrite Hf. pose proof (offset_nonneg p).
  assert (ptr_offset p < 2 ^ 32).
  { unfold ptr_offset. change 0xFFFFFFFF with (2 ^ 32 - 1). rewrite land_ones_mod by lia.
    apply Z.mod_pos_bound. lia. }
  unfold sint_range in Hn. rewrite (swrap_id 64) by (unfold sint_range; lia).
  destruct (decide (len (f_space f) <= ptr_offset p + n)); [by rewrite decide_False by lia|].
  rewrite decide_True by lia. destruct (decide (n < 0)).
  - unfold slice_sub. by rewrite decide_False by lia.
  - rewrite <- (Z2Nat.id n) at 1 by lia. by rewrite slice_sub_bytes_at by lia.
Qed.

Lemma to_bytes_len_witness : toBytesLen Newstack 0 4 = Ok (inr outofmemory) /\ toBytesLen Newstack 0 (-1) = Panic.
Proof.
  split.
  - rewrite (to_bytes_len_behaviour Newstack 0 4 (set_space (replicate 4 0) newFrame));
      [reflexivity..|split; vm_compute; congruence].
  - rewrite (to_bytes_len_behaviour Newstack 0 (-1) (set_space (replicate 4 0) newFrame));
      [reflexivity..|split; vm_compute; congruence].
Defined.
