(* ===== verification/OvmNum.v ===== *)
(** * Operands of the virtual machine's instructions

    Models [addressing] and [getNum] of [omega/ovm/instructions.go]: an operand is
    a text such as [gi16'8,] that names a number or, through up to six levels of
    indirection, a place of the memory.  [print_operand] and [operand_value] are the
    grammar of operands and its meaning; [getNum] is proved to parse the one as the
    other. *)
From stdpp Require Import gmap list.
From Stdlib Require Import ZArith Lia Ascii.
From S2P Require Import Prelude Difficulty OvmStack.

Open Scope Z_scope.

(** ** Characters *)

Definition ch (a : ascii) : Z := Z.of_N (N_of_ascii a).
(** The double quote. *)
Definition ch_tail : Z := 0x22.
Definition ch_head : Z := 0x27.
Definition ch_comma : Z := 0x2c.

(** [case '0', ..., '9'] and [case 'a', ..., 'f'] *)
Definition is_digit (c : Z) : bool := bool_decide (0x30 <= c <= 0x39).
Definition is_hexdigit (c : Z) : bool := bool_decide (0x61 <= c <= 0x66).

(** The data type that asks for an address. *)
Definition type_addr : Z := 0xFF.

(** ** Addressing *)

(** [(p &^ 0xFFFFFFFF) | ((p + pointer(d)) & 0xFFFFFFFF)] *)
Definition move_offset (p d : Z) : Z :=
  Z.lor (Z.ldiff p 0xFFFFFFFF) (Z.land (u64 (p + u64 d)) 0xFFFFFFFF).

(** [for ; indirect > 1; indirect--]; the head offset counts for the first turn only. *)
Fixpoint indirect_loop (s : Stack) (n : nat) (p head : Z) : res Z :=
  match n with
  | O => Ok (inl p)
  | S n => p ⇐ toPointer s p; indirect_loop s n (move_offset p head) 0
  end.

(** [t], the base area: the current frame or the global area of its library. *)
Definition base_area (s : Stack) (global : bool) : outcome Z :=
  if global then f ← frame_at s (s_callTop s); Ok (f_gbase f) else Ok (s_callTop s).

Definition addressing (s : Stack) (indirect : Z) (global : bool) (hasoffset : Z) (offsets : list Z)
    (notaddr : bool) : res Z :=
  if decide (indirect <= 0) then Ok (inl 0)
  else
    t ← base_area s global;
    o0 ← slice_get offsets 0;
    o1 ← slice_get offsets 1;
    p ⇐ indirect_loop s (Z.to_nat (indirect - 1)) (u64 (Z.lor (i64 (Z.shiftl t 32)) o0)) o1;
    p ← (if decide (Z.land hasoffset 2 <> 0) then o2 ← slice_get offsets 2; Ok (move_offset p o2) else Ok p);
    match s_data s !! ptr_area p with
    | None => Ok (inr MemoryAddressFault)
    | Some f =>
        if notaddr && bool_decide (ptr_offset p >= len (f_space f)) then Ok (inr MemoryAddressFault)
        else Ok (inl p)
    end.

(** ** getNum *)

Record num_state := MkNum {
  n_hex : bool;
  n_nums : list Z;
  n_tmp : Z;
  n_global : bool;
  n_sign : Z;
  n_offset : Z;
  n_hasoffset : Z;
  n_indirect : Z;
}.

Definition num_init : num_state := MkNum false [0; 0; 0] 0 false 1 0 0 0.

(** [tmp = tmp*base + d; nums[offset] = tmp] *)
Definition push_digit (st : num_state) (hex : bool) (base d : Z) : outcome num_state :=
  let tmp := i64 (i64 (n_tmp st * base) + d) in
  nums ← slice_set (n_nums st) (n_offset st) tmp;
  Ok (MkNum hex nums tmp (n_global st) (n_sign st) (n_offset st) (n_hasoffset st) (n_indirect st)).

(** The value at [p] of the wanted type, times the sign. *)
Definition load_num (s : Stack) (dataType p sign : Z) : res Z :=
  if decide (dataType = ch "B") then b ⇐ toByte s p; Ok (inl (b * sign))
  else if decide (dataType = ch "W") then b ⇐ toInt16 s p; Ok (inl (b * sign))
  else if decide (dataType = ch "D") then b ⇐ toInt32 s p; Ok (inl (b * sign))
  else if decide (dataType = ch "Q") then b ⇐ toInt64 s p; Ok (inl (i64 (b * sign)))
  else if decide (dataType = type_addr) then Ok (inl (i64 p))
  else Ok (inl 0).

(** The comma: the operand is complete. *)
Definition finish_num (s : Stack) (dataType : Z) (st : num_state) : res Z :=
  _ ← base_area s (n_global st);
  if decide (n_indirect st > 0) then
    p ⇐ addressing s (n_indirect st) (n_global st) (n_hasoffset st) (n_nums st)
          (bool_decide (dataType <> type_addr));
    load_num s dataType p (n_sign st)
  else n0 ← slice_get (n_nums st) 0; Ok (inl (i64 (n0 * n_sign st))).

Definition set_mark (st : num_state) (bit offset : Z) : num_state :=
  MkNum (n_hex st) (n_nums st) 0 (n_global st) (n_sign st) offset (Z.lor (n_hasoffset st) bit) (n_indirect st).

Fixpoint getNum_loop (s : Stack) (dataType : Z) (param : list Z) (j : Z) (st : num_state) : res (Z * Z) :=
  match param with
  | [] => Ok (inr MalformedOperand)
  | c :: param =>
      if is_digit c then
        st ← push_digit st (n_hex st) (if n_hex st then 16 else 10) (c - 0x30);
        getNum_loop s dataType param (j + 1) st
      else if is_hexdigit c then
        st ← push_digit st true 16 (c - 0x61 + 10);
        getNum_loop s dataType param (j + 1) st
      else if decide (c = ch "x") then
        getNum_loop s dataType param (j + 1)
          (MkNum true (n_nums st) (n_tmp st) (n_global st) (n_sign st) (n_offset st) (n_hasoffset st) (n_indirect st))
      else if decide (c = ch "n") then
        getNum_loop s dataType param (j + 1)
          (MkNum (n_hex st) (n_nums st) (n_tmp st) (n_global st) (-1) (n_offset st) (n_hasoffset st) (n_indirect st))
      else if decide (c = ch "i") then
        if decide (n_indirect st + 1 > 6) then Ok (inr MalformedOperand)
        else getNum_loop s dataType param (j + 1)
          (MkNum (n_hex st) (n_nums st) (n_tmp st) (n_global st) (n_sign st) (n_offset st) (n_hasoffset st) (n_indirect st + 1))
      else if decide (c = ch "g") then
        getNum_loop s dataType param (j + 1)
          (MkNum (n_hex st) (n_nums st) (n_tmp st) true (n_sign st) (n_offset st) (n_hasoffset st) (n_indirect st))
      else if decide (c = ch_head) then getNum_loop s dataType param (j + 1) (set_mark st 1 1)
      else if decide (c = ch_tail) then getNum_loop s dataType param (j + 1) (set_mark st 2 2)
      else if decide (c = ch_comma) then num ⇐ finish_num s dataType st; Ok (inl (num, j))
      else Ok (inr MalformedOperand)
  end.

Definition getNum (s : Stack) (param : list Z) (dataType : Z) : res (Z * Z) :=
  getNum_loop s dataType param 0 num_init.

(** [case '0', ..., 'f', 'x', 'n', 'i', 'g']: the characters an operand starts with. *)
Definition starts_num (c : Z) : bool :=
  is_digit c || is_hexdigit c || bool_decide (c = ch "x") || bool_decide (c = ch "n") ||
  bool_decide (c = ch "i") || bool_decide (c = ch "g").

(** ** The grammar of operands *)

Record operand := MkOperand {
  op_neg : bool;
  op_global : bool;
  op_ind : nat;
  op_hex : bool;
  op_digits : list Z;
  op_head : option (list Z);
  op_tail : option (list Z);
}.

Definition radix (hex : bool) : Z := if hex then 16 else 10.
Definition digit_char (d : Z) : Z := if decide (d < 10) then 0x30 + d else 0x61 + (d - 10).
Definition digits_ok (hex : bool) (ds : list Z) : Prop := ds <> [] /\ Forall (fun d => 0 <= d < radix hex) ds.
Definition digits_value (hex : bool) (ds : list Z) : Z := foldl (fun n d => n * radix hex + d) 0 ds.

Definition operand_ok (o : operand) : Prop :=
  (op_ind o <= 6)%nat /\ digits_ok (op_hex o) (op_digits o) /\
  (forall ds, op_head o = Some ds -> digits_ok (op_hex o) ds) /\
  (forall ds, op_tail o = Some ds -> digits_ok (op_hex o) ds).

Definition print_mark (mark : Z) (ds : option (list Z)) : list Z :=
  match ds with None => [] | Some ds => mark :: map digit_char ds end.

Definition print_operand (o : operand) : list Z :=
  (if op_neg o then [ch "n"] else []) ++ (if op_global o then [ch "g"] else []) ++
  replicate (op_ind o) (ch "i") ++ (if op_hex o then [ch "x"] else []) ++
  map digit_char (op_digits o) ++ print_mark ch_head (op_head o) ++ print_mark ch_tail (op_tail o) ++ [ch_comma].

Definition sign_of (neg : bool) : Z := if neg then -1 else 1.
Definition mark_value (hex : bool) (ds : option (list Z)) : Z :=
  match ds with None => 0 | Some ds => i64 (digits_value hex ds) end.
Definition mark_bit {A} (bit : Z) (ds : option A) : Z := match ds with None => 0 | Some _ => bit end.

(** What an operand denotes: a signed number, or the contents of the place that its
    indirections and offsets lead to. *)
Definition operand_value (s : Stack) (dataType : Z) (o : operand) : res Z :=
  finish_num s dataType
    (MkNum (op_hex o)
       [i64 (digits_value (op_hex o) (op_digits o)); mark_value (op_hex o) (op_head o); mark_value (op_hex o) (op_tail o)]
       0 (op_global o) (sign_of (op_neg o)) 0
       (Z.lor (mark_bit 1 (op_head o)) (mark_bit 2 (op_tail o))) (Z.of_nat (op_ind o))).

Lemma i64_push a base d : i64 (i64 (i64 a * base) + d) = i64 (a * base + d).
Proof.
  rewrite swrap_add_l by lia. apply swrap_cong; [lia|]. unfold uwrap, swrap.
  rewrite <- (Zplus_mod_idemp_l (_ * base)), <- Zmult_mod_idemp_l, Zminus_mod_idemp_l.
  rewrite <- (Zplus_mod_idemp_l (a * base)), <- (Zmult_mod_idemp_l a). do 5 f_equal. lia.
Qed.

Lemma digit_char_digit d : 0 <= d < 10 -> is_digit (digit_char d) = true /\ digit_char d - 0x30 = d.
Proof. intros. unfold digit_char, is_digit. rewrite decide_True by lia. rewrite bool_decide_true by lia. split; [done|lia]. Qed.

Lemma digit_char_hex d : 10 <= d < 16 ->
  is_digit (digit_char d) = false /\ is_hexdigit (digit_char d) = true /\ digit_char d - 0x61 + 10 = d.
Proof.
  intros. unfold digit_char, is_digit, is_hexdigit. rewrite decide_False by lia.
  rewrite bool_decide_false, bool_decide_true by lia. split_and!; [done|done|lia].
Qed.

(** The number under construction after some more digits. *)
Definition with_number (st : num_state) (tmp : Z) : num_state :=
  MkNum (n_hex st) (<[Z.to_nat (n_offset st) := tmp]> (n_nums st)) tmp (n_global st) (n_sign st)
    (n_offset st) (n_hasoffset st) (n_indirect st).

Definition num_ok (st : num_state) : Prop := length (n_nums st) = 3%nat /\ 0 <= n_offset st < 3.

Lemma push_digit_ok st hex base d : num_ok st ->
  push_digit st hex base d = Ok (MkNum hex (<[Z.to_nat (n_offset st) := i64 (i64 (n_tmp st * base) + d)]> (n_nums st))
    (i64 (i64 (n_tmp st * base) + d)) (n_global st) (n_sign st) (n_offset st) (n_hasoffset st) (n_indirect st)).
Proof. intros [? ?]. unfold push_digit. by rewrite slice_set_ok by lia. Qed.

Lemma getNum_digits s ty ds : forall acc rest j st, num_ok st -> n_tmp st = i64 acc ->
  Forall (fun d => 0 <= d < radix (n_hex st)) ds -> ds <> [] ->
  getNum_loop s ty (map digit_char ds ++ rest) j st =
  getNum_loop s ty rest (j + len ds)
    (with_number st (i64 (foldl (fun n d => n * radix (n_hex st) + d) acc ds))).
Proof.
  induction ds as [|d ds IH]; intros acc rest j st Hst Ht Hds Hne; [done|].
  apply Forall_cons in Hds as [Hd Hds]. cbn [map app getNum_loop].
  assert (getNum_loop s ty (digit_char d :: map digit_char ds ++ rest) j st =
    getNum_loop s ty (map digit_char ds ++ rest) (j + 1) (with_number st (i64 (acc * radix (n_hex st) + d)))) as E.
  { cbn [getNum_loop]. destruct (decide (d < 10)).
    - destruct (digit_char_digit d ltac:(lia)) as [-> ->]. rewrite push_digit_ok by done.
      cbn [mbind outcome_bind]. rewrite Ht. change (if n_hex st then 16 else 10) with (radix (n_hex st)).
      by rewrite i64_push.
    - unfold radix in *. destruct (n_hex st) eqn:Hx; [|lia].
      destruct (digit_char_hex d ltac:(lia)) as (-> & -> & ->). rewrite push_digit_ok by done.
      cbn [mbind outcome_bind]. rewrite Ht, i64_push. unfold with_number. by rewrite Hx. }
  cbn [getNum_loop] in E. rewrite E. destruct ds as [|d' ds].
  - reflexivity.
  - rewrite (IH (acc * radix (n_hex st) + d)); [|by destruct Hst; split; [cbn; rewrite length_insert|]|done|done|done].
    f_equal; [cbn [length]; lia|]. unfold with_number. cbn. by rewrite list_insert_insert_eq.
Qed.

Lemma getNum_ind s ty k : forall rest j hex nums tmp glob sign offset ho ind,
  0 <= ind -> ind + Z.of_nat k <= 6 ->
  getNum_loop s ty (replicate k (ch "i") ++ rest) j (MkNum hex nums tmp glob sign offset ho ind) =
  getNum_loop s ty rest (j + Z.of_nat k) (MkNum hex nums tmp glob sign offset ho (ind + Z.of_nat k)).
Proof.
  induction k as [|k IH]; intros; [cbn [replicate app]; by rewrite !Z.add_0_r|].
  cbn [replicate app getNum_loop]. change (is_digit (ch "i")) with false. change (is_hexdigit (ch "i")) with false.
  cbn iota. rewrite !(decide_False (P := ch "i" = _)) by done. rewrite (decide_True (P := ch "i" = ch "i")) by done.
  cbn [n_indirect n_hex n_nums n_tmp n_global n_sign n_offset n_hasoffset].
  rewrite decide_False by lia. rewrite IH by lia. f_equal; [lia|]. f_equal. lia.
Qed.

(** A mark (head or tail offset) with its digits. *)
Lemma getNum_mark s ty mark bit off ds rest j st :
  (mark = ch_head /\ bit = 1 /\ off = 1) \/ (mark = ch_tail /\ bit = 2 /\ off = 2) ->
  num_ok st -> (forall l, ds = Some l -> digits_ok (n_hex st) l) ->
  getNum_loop s ty (print_mark mark ds ++ rest) j st =
  getNum_loop s ty rest (j + len (print_mark mark ds))
    (match ds with None => st | Some l => with_number (set_mark st bit off) (i64 (digits_value (n_hex st) l)) end).
Proof.
  intros Hm Hst Hds. destruct ds as [l|]; [|cbn; by rewrite Z.add_0_r].
  destruct (Hds l eq_refl) as [Hne Hl]. cbn [print_mark app getNum_loop].
  assert (getNum_loop s ty (mark :: map digit_char l ++ rest) j st =
    getNum_loop s ty (map digit_char l ++ rest) (j + 1) (set_mark st bit off)) as E.
  { by destruct Hm as [(-> & -> & ->)|(-> & -> & ->)]. }
  cbn [getNum_loop] in E. rewrite E, (getNum_digits s ty l 0); [|..].
  - f_equal. cbn [length]. rewrite length_map. lia.
  - destruct Hst. split; [done|]. cbn. destruct_or! Hm; lia.
  - done.
  - done.
  - done.
Qed.

(** One prefix character, present or not. *)
Lemma getNum_neg s ty (b : bool) rest j : forall hex nums tmp glob offset ho ind,
  getNum_loop s ty ((if b then [ch "n"] else []) ++ rest) j (MkNum hex nums tmp glob 1 offset ho ind) =
  getNum_loop s ty rest (j + len (if b then [ch "n"] else [])) (MkNum hex nums tmp glob (sign_of b) offset ho ind).
Proof. intros. destruct b; [done|]. cbn. by rewrite Z.add_0_r. Qed.

Lemma getNum_glob s ty (b : bool) rest j : forall hex nums tmp sign offset ho ind,
  getNum_loop s ty ((if b then [ch "g"] else []) ++ rest) j (MkNum hex nums tmp false sign offset ho ind) =
  getNum_loop s ty rest (j + len (if b then [ch "g"] else [])) (MkNum hex nums tmp b sign offset ho ind).
Proof. intros. destruct b; [done|]. cbn. by rewrite Z.add_0_r. Qed.

Lemma getNum_hex s ty (b : bool) rest j : forall nums tmp glob sign offset ho ind,
  getNum_loop s ty ((if b then [ch "x"] else []) ++ rest) j (MkNum false nums tmp glob sign offset ho ind) =
  getNum_loop s ty rest (j + len (if b then [ch "x"] else [])) (MkNum b nums tmp glob sign offset ho ind).
Proof. intros. destruct b; [done|]. cbn. by rewrite Z.add_0_r. Qed.

Lemma getNum_print s ty o rest : operand_ok o ->
  getNum s (print_operand o ++ rest) ty =
  (v ⇐ operand_value s ty o; Ok (inl (v, len (print_operand o) - 1))).
Proof.
  destruct o as [neg glob ind hex ds hd tl]. intros (Hi & [Hne Hds] & Hh & Ht). cbn in Hi, Hne, Hds, Hh, Ht.
  unfold getNum, print_operand, num_init. cbn [op_neg op_global op_ind op_hex op_digits op_head op_tail].
  rewrite <- !app_assoc, getNum_neg, getNum_glob, getNum_ind, getNum_hex by lia.
  rewrite (getNum_digits s ty ds 0) by done.
  rewrite (getNum_mark s ty ch_head 1 1) by (try done; naive_solver).
  rewrite (getNum_mark s ty ch_tail 2 2); [|naive_solver|by destruct hd|by destruct hd].
  cbn [app getNum_loop]. change (is_digit ch_comma) with false. change (is_hexdigit ch_comma) with false. cbn iota.
  rewrite !(decide_False (P := ch_comma = _)) by done. rewrite (decide_True (P := ch_comma = ch_comma)) by done.
  unfold operand_value. cbn [op_neg op_global op_ind op_hex op_digits op_head op_tail].
  match goal with |- res_bind (finish_num _ _ ?st) ?k = res_bind (finish_num _ _ ?st') ?k' =>
    assert (finish_num s ty st = finish_num s ty st') as ->; [by destruct hd, tl|];
    assert (forall v, k v = k' v) as Hk end.
  { intros v. do 3 f_equal. rewrite !length_app, length_replicate, length_map. cbn [length]. lia. }
  destruct (finish_num _ _ _) as [[v|e]| |]; [apply Hk|done..].
Qed.

(** ** Safety *)

(** The current frame exists. *)
Definition current_ok (s : Stack) : Prop := is_Some (s_data s !! s_callTop s).

Definition settles {A} (m : res A) (P : A -> Prop) : Prop :=
  match m with Ok (inl a) => P a | Ok (inr _) => True | Panic | NoFuel => False end.

Lemma settles_bind {A B} (m : res A) (k : A -> res B) (P : A -> Prop) (Q : B -> Prop) :
  settles m P -> (forall a, P a -> settles (k a) Q) -> settles (res_bind m k) Q.
Proof. destruct m as [[a|e]| |]; simpl; auto. Qed.

Lemma settles_mono {A} (m : res A) (P Q : A -> Prop) : (forall a, P a -> Q a) -> settles m P -> settles m Q.
Proof. destruct m as [[a|e]| |]; simpl; auto. Qed.

Lemma load_word_range w s p : memory_ok s -> settles (load_word w s p) (word_range w).
Proof.
  intros Hm. rewrite load_word_ok by done. destruct (s_data s !! ptr_area p) as [f|] eqn:Hf; [|done].
  case_decide as Hl; [|done]. pose proof (offset_nonneg p) as Hp.
  pose proof (bytes_at_bytes (f_space f) (ptr_offset p) (width_bytes w) (Hm _ _ Hf)) as Hb.
  pose proof (bytes_at_length (f_space f) (ptr_offset p) (width_bytes w) Hp Hl) as Hlen.
  destruct w; cbn [settles word_of word_range]; try (apply swrap_range; lia).
  apply le_value_bound in Hb. by rewrite Hlen in Hb.
Qed.

Lemma toPointer_settles s p : memory_ok s -> settles (toPointer s p) (uint_range 64).
Proof.
  intros Hm. eapply settles_bind; [apply (load_word_range W64 s p Hm)|]. intros d _. apply uwrap_range. lia.
Qed.

Lemma move_offset_range p d : uint_range 64 p -> uint_range 64 (move_offset p d).
Proof.
  unfold uint_range, move_offset. intros Hp. change 0xFFFFFFFF with (Z.ones 32).
  rewrite Z.ldiff_ones_r, Z.land_ones by lia.
  assert (0 <= Z.shiftr p 32 < 2 ^ 32) by (rewrite Z.shiftr_div_pow2 by lia; split; [apply Z.div_pos|apply Z.div_lt_upper_bound]; lia).
  pose proof (Z.mod_pos_bound (u64 (p + u64 d)) (2 ^ 32) ltac:(lia)).
  rewrite lor_shiftl_add by lia. nia.
Qed.

Lemma indirect_loop_settles s n : forall p head, memory_ok s -> uint_range 64 p ->
  settles (indirect_loop s n p head) (uint_range 64).
Proof.
  induction n as [|n IH]; intros p head Hm Hp; [done|]. cbn [indirect_loop].
  eapply settles_bind; [by apply toPointer_settles|]. intros q Hq. apply IH; [done|]. by apply move_offset_range.
Qed.

(** A pointer that leads to a frame, inside of it when a value is read there. *)
Definition points_into (s : Stack) (notaddr : bool) (p : Z) : Prop :=
  uint_range 64 p /\ exists f, s_data s !! ptr_area p = Some f /\
    (notaddr = true -> ptr_offset p < len (f_space f)).

Lemma addressing_settles s ind glob ho offsets notaddr : memory_ok s -> current_ok s -> 0 < ind ->
  length offsets = 3%nat -> settles (addressing s ind glob ho offsets notaddr) (points_into s notaddr).
Proof.
  intros Hm [f Hc] Hind Hl. unfold addressing. rewrite decide_False by lia.
  assert (exists t, base_area s glob = Ok t) as [t ->].
  { unfold base_area, frame_at. rewrite Hc. destruct glob; eexists; reflexivity. }
  destruct offsets as [|o0 [|o1 [|o2 [|]]]]; try done. cbn [mbind outcome_bind].
  change (slice_get [o0; o1; o2] 0) with (Ok o0). change (slice_get [o0; o1; o2] 1) with (Ok o1).
  change (slice_get [o0; o1; o2] 2) with (Ok o2). cbn [mbind outcome_bind].
  eapply settles_bind; [apply indirect_loop_settles; [done|apply uwrap_range; lia]|]. intros p Hp.
  set (q := if decide (Z.land ho 2 <> 0) then move_offset p o2 else p).
  assert (uint_range 64 q) by (unfold q; case_decide; [by apply move_offset_range|done]).
  replace (if decide (Z.land ho 2 <> 0) then Ok (move_offset p o2) else Ok p) with (Ok q)
    by (unfold q; by case_decide).
  cbn [mbind outcome_bind]. destruct (s_data s !! ptr_area q) as [g|] eqn:Hg; [|done].
  destruct notaddr; simpl; [case_bool_decide; [done|]|]; (split; [done|]); exists g; (split; [done|]); intros; [lia|done].
Qed.

Lemma mul_sign_range b sg : sint_range 63 b -> sg = 1 \/ sg = -1 -> sint_range 64 (b * sg).
Proof. unfold sint_range. intros ? [-> | ->]; lia. Qed.

Lemma load_num_settles s ty p sg : memory_ok s -> sg = 1 \/ sg = -1 ->
  settles (load_num s ty p sg) (sint_range 64).
Proof.
  intros Hm Hs. unfold load_num. repeat case_decide.
  - eapply settles_bind; [apply (load_word_range W8 s p Hm)|]. intros b Hb. apply mul_sign_range; [|done].
    unfold word_range, uint_range, sint_range in *. lia.
  - eapply settles_bind; [apply (load_word_range W16 s p Hm)|]. intros b Hb. apply mul_sign_range; [|done].
    unfold word_range, sint_range in *. lia.
  - eapply settles_bind; [apply (load_word_range W32 s p Hm)|]. intros b Hb. apply mul_sign_range; [|done].
    unfold word_range, sint_range in *. lia.
  - eapply settles_bind; [apply (load_word_range W64 s p Hm)|]. intros b _. apply swrap_range. lia.
  - apply swrap_range. lia.
  - done.
Qed.

Definition num_inv (st : num_state) : Prop :=
  num_ok st /\ (n_sign st = 1 \/ n_sign st = -1) /\ 0 <= n_indirect st.

Lemma finish_num_settles s ty st : memory_ok s -> current_ok s -> num_inv st ->
  settles (finish_num s ty st) (sint_range 64).
Proof.
  intros Hm Hc ([Hl Ho] & Hs & Hi). unfold finish_num.
  assert (exists t, base_area s (n_global st) = Ok t) as [t ->].
  { destruct Hc as [f Hc]. unfold base_area, frame_at. rewrite Hc. destruct (n_global st); eexists; reflexivity. }
  cbn [mbind outcome_bind]. case_decide.
  - eapply settles_bind; [apply addressing_settles; [done|done|lia|done]|].
    intros p _. by apply load_num_settles.
  - destruct (n_nums st) as [|n0 l]; [done|]. cbn. apply swrap_range. lia.
Qed.

(** The number parsed and the position of the comma that ends it. *)
Definition parsed (param : list Z) (j : Z) (r : Z * Z) : Prop :=
  sint_range 64 (r.1) /\ j <= r.2 /\ param !! Z.to_nat (r.2 - j) = Some ch_comma.

Lemma parsed_cons c param j r : parsed param (j + 1) r -> parsed (c :: param) j r.
Proof.
  intros (? & ? & H). split_and!; [done|lia|].
  replace (Z.to_nat (r.2 - j)) with (S (Z.to_nat (r.2 - (j + 1)))) by lia. done.
Qed.

Lemma push_digit_inv st hex base d : num_inv st -> exists st', push_digit st hex base d = Ok st' /\ num_inv st'.
Proof.
  intros (Hok & ? & ?). rewrite push_digit_ok by done. eexists; split; [done|].
  destruct Hok. split_and!; [split; cbn; [by rewrite length_insert|done]|done|done].
Qed.

Lemma getNum_loop_settles s ty param : forall j st, memory_ok s -> current_ok s -> num_inv st ->
  settles (getNum_loop s ty param j st) (parsed param j).
Proof.
  induction param as [|c param IH]; intros j st Hm Hc Hst; [done|]. cbn [getNum_loop].
  assert (forall st', num_inv st' -> settles (getNum_loop s ty param (j + 1) st') (parsed (c :: param) j)) as Hgo.
  { intros st' H. eapply settles_mono; [apply parsed_cons|by apply IH]. }
  destruct (is_digit c).
  { destruct (push_digit_inv st (n_hex st) (if n_hex st then 16 else 10) (c - 0x30) Hst) as (st' & -> & H). by apply Hgo. }
  destruct (is_hexdigit c).
  { destruct (push_digit_inv st true 16 (c - 0x61 + 10) Hst) as (st' & -> & H). by apply Hgo. }
  destruct Hst as ([Hl Ho] & Hs & Hi).
  repeat case_decide; subst; try done; try (apply Hgo; unfold num_inv, num_ok, set_mark; cbn; split_and!; (done || lia || by right)).
  eapply settles_bind; [apply finish_num_settles; [done|done|by split_and!]|].
  intros v Hv. split_and!; [done|cbn; lia|]. cbn [snd]. by rewrite Z.sub_diag.
Qed.

(** ** Theorems *)

(** [getNum] parses every operand of the grammar, whatever follows it, as the
    number or memory contents it denotes, and returns the position of its comma. *)
Theorem get_num_parses_operands (s : Stack) (ty : Z) (o : operand) (rest : list Z) (Ho : operand_ok o) :
  getNum s (print_operand o ++ rest) ty = (v ⇐ operand_value s ty o; Ok (inl (v, len (print_operand o) - 1))).
Proof. by apply getNum_print. Qed.

Lemma get_num_parses_witness :
  getNum Newstack (print_operand (MkOperand true false 0 false [4; 2] None None) ++ [ch "+"]) (ch "D") = Ok (inl (-42, 3)).
Proof.
  rewrite get_num_parses_operands; [reflexivity|].
  split_and!; [simpl; lia|split; [done|by repeat constructor]|done|done].
Defined.

(** On any bytes at all [getNum] ends without a panic: it reports an error, or
    it returns an int64 and the position of a comma of the text. *)
Theorem get_num_is_safe (s : Stack) (ty : Z) (param : list Z) (Hm : memory_ok s) (Hc : current_ok s) :
  settles (getNum s param ty) (parsed param 0).
Proof. apply getNum_loop_settles; [done|done|]. split_and!; [done|by left|done]. Qed.

Lemma get_num_safe_witness : settles (getNum Newstack [ch "g"; ch "i"; ch "i"; 0x39; ch_comma] (ch "Q"))
  (parsed [ch "g"; ch "i"; ch "i"; 0x39; ch_comma] 0).
Proof.
  apply get_num_is_safe; [|by eexists].
  intros k f. cbn [s_data Newstack]. rewrite lookup_singleton_Some. intros [_ <-]. by repeat constructor.
Defined.
