(* ===== verification/OvmBytes.v ===== *)
(** * Operands that are big integers, hashes and byte strings

    Models [getBig], [getHash], [getBytesLen] and [getBytes] of
    [omega/ovm/instructions.go].  They scan the same texts as [getNum], each with
    variables of its own. *)
From stdpp Require Import gmap list.
From Stdlib Require Import ZArith Lia Ascii.
From S2P Require Import Prelude Difficulty OvmStack OvmNum.

Open Scope Z_scope.

(** [s[lo:hi]] on a slice whose backing array has [spare] after its elements: the
    bound of a slice expression is the capacity, not the length. *)
Definition slice_cap {A} (s spare : list A) (lo hi : Z) : outcome (list A) := slice_sub (s ++ spare) lo hi.

(** [sizeOfType]; a missing key reads as zero. *)
Definition sizeOfType (ty : Z) : Z :=
  if decide (ty = ch "R") then 21 else if decide (ty = ch "r") then 20
  else if decide (ty = ch "B") then 1 else if decide (ty = ch "W") then 2
  else if decide (ty = ch "D") then 4 else if decide (ty = ch "Q") then 8
  else if decide (ty = ch "H" \/ ty = ch "h") then 32
  else if decide (ty = ch "k") then 33 else if decide (ty = ch "K") then 65 else 0.

(** ** getBytesLen *)

Record bytes_state := MkBytes {
  b_tmp : list Z;
  b_t : Z;
  b_even : bool;
  b_hex : bool;
  b_indirect : Z;
  b_global : bool;
  b_offset : Z;
  b_hasoffset : Z;
  b_tnum : Z;
  b_nums : list Z;
}.

Definition bytes_init : bytes_state := MkBytes [] 0 false false 0 false 0 0 0 [0; 0; 0].

(** A digit of value [d]: [hexit] tells the hexadecimal form. *)
Definition bytes_digit (st : bytes_state) (hexit : bool) (d : Z) : outcome bytes_state :=
  let t := if hexit then u8 (u8 (Z.shiftl (b_t st) 4) + d) else b_t st in
  let tnum := i64 (i64 (b_tnum st * (if hexit then 16 else 10)) + d) in
  nums ← slice_set (b_nums st) (b_offset st) tnum;
  let full := hexit && b_even st && bool_decide (b_offset st = 0) in
  Ok (MkBytes (if full then b_tmp st ++ [t] else b_tmp st) (if full then 0 else t) (negb (b_even st))
        (b_hex st) (b_indirect st) (b_global st) (b_offset st) (b_hasoffset st) tnum nums).

Definition bytes_set_hex (st : bytes_state) : bytes_state :=
  MkBytes (b_tmp st) (b_t st) (b_even st) true (b_indirect st) (b_global st) (b_offset st) (b_hasoffset st)
    (b_tnum st) (b_nums st).

Definition bytes_mark (st : bytes_state) (bit offset : Z) : bytes_state :=
  MkBytes (b_tmp st) (b_t st) (b_even st) false (b_indirect st) (b_global st) offset
    (Z.lor (b_hasoffset st) bit) 0 (b_nums st).

Section Bytes.
(** The bytes between the length and the capacity of the space of a frame: what
    [append] leaves there is up to the language's run time. *)
Context (spare : Stack -> Z -> list Z).

(** The bytes, the position and the error, as the code returns them: some callers
    use the position of a failed operand. *)
Fixpoint getBytesLen_loop (s : Stack) (ln dlen : Z) (param : list Z) (j : Z) (st : bytes_state)
    : outcome (list Z * Z * option script_err) :=
  match param with
  | [] => Ok ([], ln, Some MalformedOperand)
  | c :: param =>
      if is_digit c then
        st ← bytes_digit st (b_hex st) (c - 0x30);
        getBytesLen_loop s ln dlen param (j + 1) st
      else if is_hexdigit c then
        st ← bytes_digit (bytes_set_hex st) true (c - 0x61 + 10);
        getBytesLen_loop s ln dlen param (j + 1) st
      else if decide (c = ch "x") then getBytesLen_loop s ln dlen param (j + 1) (bytes_set_hex st)
      else if decide (c = ch "i") then
        if decide (b_indirect st + 1 > 6) then Ok ([], ln, Some MalformedOperand)
        else getBytesLen_loop s ln dlen param (j + 1)
          (MkBytes (b_tmp st) (b_t st) (b_even st) (b_hex st) (b_indirect st + 1) (b_global st) (b_offset st)
             (b_hasoffset st) (b_tnum st) (b_nums st))
      else if decide (c = ch "g") then
        getBytesLen_loop s ln dlen param (j + 1)
          (MkBytes (b_tmp st) (b_t st) (b_even st) (b_hex st) (b_indirect st) true (b_offset st)
             (b_hasoffset st) (b_tnum st) (b_nums st))
      else if decide (c = ch_head) then getBytesLen_loop s ln dlen param (j + 1) (bytes_mark st 1 1)
      else if decide (c = ch_tail) then getBytesLen_loop s ln dlen param (j + 1) (bytes_mark st 2 2)
      else if decide (c = ch_comma) then
        if decide (b_indirect st > 0) then
          p ← addressing s (b_indirect st) (b_global st) (b_hasoffset st) (b_nums st) true;
          match p with
          | inr e => Ok ([], 0, Some e)
          | inl p =>
              let o := ptr_offset p in
              match s_data s !! ptr_area p with
              | None => Ok ([], j - 1, Some MemoryAddressFault)
              | Some f =>
                  tmp ← slice_cap (f_space f) (spare s (ptr_area p)) o (u32 (o + dlen));
                  Ok (tmp, j, None)
              end
          end
        else Ok (b_tmp st, j, None)
      else Ok ([], j - 1, Some MalformedOperand)
  end.

Definition getBytesLen (s : Stack) (param : list Z) (dlen : Z) : outcome (list Z * Z * option script_err) :=
  getBytesLen_loop s (len param) dlen param 0 bytes_init.

Definition getBytes (s : Stack) (param : list Z) (dataType dln : Z) : outcome (list Z * Z * option script_err) :=
  getBytesLen s param (u32 (sizeOfType dataType + dln)).

(** A call whose error is checked. *)
Definition getBytes_checked (s : Stack) (param : list Z) (dataType dln : Z) : res (list Z * Z) :=
  '(b, tl, err) ← getBytes s param dataType dln;
  match err with Some e => Ok (inr e) | None => Ok (inl (b, tl)) end.
End Bytes.

(** ** getHash *)

Record hash_state := MkHash {
  h_hex : bool;
  h_num : list Z;
  h_d : Z;
  h_nums : list Z;
  h_tmp : Z;
  h_global : bool;
  h_offset : Z;
  h_hasoffset : Z;
  h_indirect : Z;
}.

Definition hash_init : hash_state := MkHash false (replicate 64 0) 0 [0; 0; 0] 0 false 0 0 0.

(** A digit of value [d] in base [base]; with [keep] it is also stored in [num]. *)
Definition hash_digit (st : hash_state) (hex : bool) (base d : Z) (keep : bool) : outcome hash_state :=
  let tmp := i64 (i64 (h_tmp st * base) + d) in
  nums ← slice_set (h_nums st) (h_offset st) tmp;
  num ← (if keep then slice_set (h_num st) (h_d st) d else Ok (h_num st));
  Ok (MkHash hex num (if keep then h_d st + 1 else h_d st) nums tmp (h_global st) (h_offset st) (h_hasoffset st) (h_indirect st)).

Definition hash_mark (st : hash_state) (bit offset : Z) : hash_state :=
  MkHash false (h_num st) (h_d st) (h_nums st) 0 (h_global st) offset (Z.lor (h_hasoffset st) bit) (h_indirect st).

(** [for i := 0; i < 32; i++], left when [i >= d]: the digits from the last one up. *)
Fixpoint hash_fill (n : nat) (num : list Z) (d i : Z) (h : list Z) : outcome (list Z) :=
  match n with
  | O => Ok h
  | S n =>
      if decide (i >= d) then Ok h
      else
        x ← slice_get num (d - i - 1);
        h ← (if decide (Z.land i 1 = 0) then slice_set h (i / 2) x
             else y ← slice_get h (i / 2); slice_set h (i / 2) (Z.lor y (u8 (Z.shiftl x 4))));
        hash_fill n num d (i + 1) h
  end.

Fixpoint getHash_loop (s : Stack) (param : list Z) (j : Z) (st : hash_state) : res (list Z * Z) :=
  match param with
  | [] => Ok (inr MalformedOperand)
  | c :: param =>
      if is_digit c then
        st ← hash_digit st (h_hex st) (if h_hex st then 16 else 10) (c - 0x30) (bool_decide (h_offset st = 0) && h_hex st);
        getHash_loop s param (j + 1) st
      else if is_hexdigit c then
        st ← hash_digit st true 16 (c - 0x61 + 10) (bool_decide (h_offset st = 0));
        getHash_loop s param (j + 1) st
      else if decide (c = ch "x") then
        getHash_loop s param (j + 1)
          (MkHash true (h_num st) (h_d st) (h_nums st) (h_tmp st) (h_global st) (h_offset st) (h_hasoffset st) (h_indirect st))
      else if decide (c = ch "i") then
        if decide (h_indirect st + 1 > 6) then Ok (inr MalformedOperand)
        else getHash_loop s param (j + 1)
          (MkHash (h_hex st) (h_num st) (h_d st) (h_nums st) (h_tmp st) (h_global st) (h_offset st) (h_hasoffset st) (h_indirect st + 1))
      else if decide (c = ch "g") then
        getHash_loop s param (j + 1)
          (MkHash (h_hex st) (h_num st) (h_d st) (h_nums st) (h_tmp st) true (h_offset st) (h_hasoffset st) (h_indirect st))
      else if decide (c = ch_head) then getHash_loop s param (j + 1) (hash_mark st 1 1)
      else if decide (c = ch_tail) then getHash_loop s param (j + 1) (hash_mark st 2 2)
      else if decide (c = ch_comma) then
        if decide (h_indirect st > 0) then
          p ⇐ addressing s (h_indirect st) (h_global st) (h_hasoffset st) (h_nums st) true;
          h ⇐ toHash s p;
          Ok (inl (h, j))
        else
          h ← hash_fill 32 (h_num st) (h_d st) 0 (replicate 32 0);
          Ok (inl (h, j))
      else Ok (inr MalformedOperand)
  end.

Definition getHash (s : Stack) (param : list Z) : res (list Z * Z) := getHash_loop s param 0 hash_init.

(** ** getBig *)

Record big_state := MkBig {
  g_hex : bool;
  g_num : Z;
  g_nums : list Z;
  g_tmp : Z;
  g_global : bool;
  g_sign : Z;
  g_offset : Z;
  g_hasoffset : Z;
  g_indirect : Z;
}.

Definition big_init : big_state := MkBig false 0 [0; 0; 0] 0 false 1 0 0 0.

(** [num = num*base + dnum] when [keep]; [tmp = tmp*base + d]. *)
Definition big_digit (st : big_state) (hex keep : bool) (base d dnum : Z) : outcome big_state :=
  let tmp := i64 (i64 (g_tmp st * base) + d) in
  nums ← slice_set (g_nums st) (g_offset st) tmp;
  Ok (MkBig hex (if keep then g_num st * base + dnum else g_num st) nums tmp
        (g_global st) (g_sign st) (g_offset st) (g_hasoffset st) (g_indirect st)).

Definition big_mark (st : big_state) (bit offset : Z) : big_state :=
  MkBig false (g_num st) (g_nums st) 0 (g_global st) (g_sign st) offset (Z.lor (g_hasoffset st) bit) (g_indirect st).

Fixpoint getBig_loop (s : Stack) (param : list Z) (j : Z) (st : big_state) : res (Z * Z) :=
  match param with
  | [] => Ok (inr MalformedOperand)
  | c :: param =>
      if is_digit c then
        st ← big_digit st (g_hex st) (bool_decide (g_offset st = 0)) (if g_hex st then 16 else 10) (c - 0x30) (c - 0x30);
        getBig_loop s param (j + 1) st
      else if is_hexdigit c then
        st ← big_digit st true true 16 (c - 0x61 + 10) (c - 0x30);
        getBig_loop s param (j + 1) st
      else if decide (c = ch "x") then
        getBig_loop s param (j + 1)
          (MkBig true (g_num st) (g_nums st) (g_tmp st) (g_global st) (g_sign st) (g_offset st) (g_hasoffset st) (g_indirect st))
      else if decide (c = ch "n") then
        getBig_loop s param (j + 1)
          (MkBig (g_hex st) (g_num st) (g_nums st) (g_tmp st) (g_global st) (-1) (g_offset st) (g_hasoffset st) (g_indirect st))
      else if decide (c = ch "i") then
        if decide (g_indirect st + 1 > 6) then Ok (inr MalformedOperand)
        else getBig_loop s param (j + 1)
          (MkBig (g_hex st) (g_num st) (g_nums st) (g_tmp st) (g_global st) (g_sign st) (g_offset st) (g_hasoffset st) (g_indirect st + 1))
      else if decide (c = ch "g") then
        getBig_loop s param (j + 1)
          (MkBig (g_hex st) (g_num st) (g_nums st) (g_tmp st) true (g_sign st) (g_offset st) (g_hasoffset st) (g_indirect st))
      else if decide (c = ch_head) then getBig_loop s param (j + 1) (big_mark st 1 1)
      else if decide (c = ch_tail) then getBig_loop s param (j + 1) (big_mark st 2 2)
      else if decide (c = ch_comma) then
        if decide (g_indirect st > 0) then
          p ⇐ addressing s (g_indirect st) (g_global st) (g_hasoffset st) (g_nums st) true;
          h ⇐ toHash s p;
          h ← swap_loop 16 h 0;
          Ok (inl (SetBytes h * g_sign st, j))
        else Ok (inl (g_num st * g_sign st, j))
      else Ok (inr MalformedOperand)
  end.

Definition getBig (s : Stack) (param : list Z) : res (Z * Z) := getBig_loop s param 0 big_init.

(** ** Hexadecimal texts *)

(** The value of digits whose first one is the lowest. *)
Definition low_first (ds : list Z) : Z := foldr (fun d n => d + 16 * n) 0 ds.

Lemma low_first_app l1 l2 : low_first (l1 ++ l2) = low_first l1 + 16 ^ len l1 * low_first l2.
Proof.
  induction l1 as [|d l1 IH]; [simpl; lia|]. change (low_first ((d :: l1) ++ l2)) with (d + 16 * low_first (l1 ++ l2)).
  change (low_first (d :: l1)) with (d + 16 * low_first l1). rewrite IH. cbn [length].
  rewrite Nat2Z.inj_succ, Z.pow_succ_r by lia. lia.
Qed.

Lemma digits_value_reverse ds : digits_value true ds = low_first (reverse ds).
Proof.
  unfold digits_value, radix. induction ds as [|d ds IH] using rev_ind; [done|].
  rewrite foldl_app, reverse_app. simpl. rewrite IH. lia.
Qed.

Definition nibbles (ds : list Z) : Prop := Forall (fun d => 0 <= d < 16) ds.

(** A hexadecimal digit is read as such by each of the scanners in its hexadecimal mode. *)
Lemma nibble_char d : 0 <= d < 16 ->
  (is_digit (digit_char d) = true /\ digit_char d - 0x30 = d) \/
  (is_digit (digit_char d) = false /\ is_hexdigit (digit_char d) = true /\ digit_char d - 0x61 + 10 = d).
Proof. intros. destruct (decide (d < 10)); [left; apply digit_char_digit; lia|right; apply digit_char_hex; lia]. Qed.

Lemma slice_set_same_length {A} (l l' : list A) i x : slice_set l i x = Ok l' -> length l' = length l.
Proof. unfold slice_set. case_decide; [|done]. intros [= <-]. apply length_insert. Qed.

(** *** Byte strings *)

Definition hex_text (bs : list Z) : list Z := concat (map (fun b => [digit_char (b / 16); digit_char (b mod 16)]) bs).

(** One digit of the first part of a text in hexadecimal mode. *)
Lemma bytes_step spare s ln dlen d rest j tmp t even ind glob ho tnum nums : 0 <= d < 16 -> length nums = 3%nat ->
  exists tnum' nums', length nums' = 3%nat /\
  getBytesLen_loop spare s ln dlen (digit_char d :: rest) j (MkBytes tmp t even true ind glob 0 ho tnum nums) =
  getBytesLen_loop spare s ln dlen rest (j + 1)
    (MkBytes (if even then tmp ++ [u8 (u8 (Z.shiftl t 4) + d)] else tmp) (if even then 0 else u8 (u8 (Z.shiftl t 4) + d))
       (negb even) true ind glob 0 ho tnum' nums').
Proof.
  intros Hd Hn. cbn [getBytesLen_loop].
  set (tn := i64 (i64 (tnum * 16) + d)). exists tn, (<[0%nat := tn]> nums). split; [by rewrite length_insert|].
  assert (slice_set nums 0 tn = Ok (<[0%nat := tn]> nums)) as Hset by (apply slice_set_ok; lia).
  destruct (nibble_char d Hd) as [[-> ->]|(-> & -> & ->)]; unfold bytes_digit, bytes_set_hex; cbn;
    unfold tn in *; rewrite Hset; cbn; by rewrite andb_true_r.
Qed.

Lemma bytes_hex_text spare s ln dlen bs : bytes bs -> forall rest j tmp ind glob ho tnum nums, length nums = 3%nat ->
  exists tnum' nums', length nums' = 3%nat /\
  getBytesLen_loop spare s ln dlen (hex_text bs ++ rest) j (MkBytes tmp 0 false true ind glob 0 ho tnum nums) =
  getBytesLen_loop spare s ln dlen rest (j + 2 * len bs) (MkBytes (tmp ++ bs) 0 false true ind glob 0 ho tnum' nums').
Proof.
  induction 1 as [|b bs Hb _ IH]; intros rest j tmp ind glob ho tnum nums Hn.
  { exists tnum, nums. split; [done|]. by rewrite Z.add_0_r, app_nil_r. }
  unfold uint_range in Hb. cbn [hex_text map concat]. rewrite <- app_assoc. cbn [app].
  assert (0 <= b / 16 < 16) by (split; [apply Z.div_pos|apply Z.div_lt_upper_bound]; lia).
  pose proof (Z.mod_pos_bound b 16 ltac:(lia)).
  destruct (bytes_step spare s ln dlen (b / 16) (digit_char (b mod 16) :: hex_text bs ++ rest) j tmp 0 false ind glob ho
    tnum nums) as (tn1 & nm1 & Hn1 & E1); [done|done|]. unfold hex_text in E1. rewrite E1. cbn [negb].
  destruct (bytes_step spare s ln dlen (b mod 16) (hex_text bs ++ rest) (j + 1) tmp (u8 (u8 (Z.shiftl 0 4) + b / 16)) true
    ind glob ho tn1 nm1) as (tn2 & nm2 & Hn2 & E2); [done|done|]. unfold hex_text in E2. rewrite E2. cbn [negb].
  assert (u8 (u8 (Z.shiftl (u8 (u8 (Z.shiftl 0 4) + b / 16)) 4) + b mod 16) = b) as ->.
  { rewrite Z.shiftl_0_l. rewrite (uwrap_id 8 0) by done. rewrite Z.add_0_l, (uwrap_id 8 (b / 16)) by (unfold uint_range; lia).
    rewrite Z.shiftl_mul_pow2 by lia. rewrite (uwrap_id 8 (b / 16 * _)) by (unfold uint_range; lia).
    pose proof (Z.div_mod b 16 ltac:(lia)). rewrite uwrap_id; unfold uint_range; lia. }
  destruct (IH rest (j + 1 + 1) (tmp ++ [b]) ind glob ho tn2 nm2 Hn2) as (tn3 & nm3 & Hn3 & E3).
  exists tn3, nm3. split; [done|]. unfold hex_text in E3. rewrite E3, <- app_assoc. f_equal. cbn [length]. lia.
Qed.

(** *** Hashes *)

Lemma hash_step s d rest j num dn nums tmp glob ho ind : 0 <= d < 16 -> length nums = 3%nat -> 0 <= dn < len num ->
  exists tmp' nums', length nums' = 3%nat /\
  getHash_loop s (digit_char d :: rest) j (MkHash true num dn nums tmp glob 0 ho ind) =
  getHash_loop s rest (j + 1) (MkHash true (<[Z.to_nat dn := d]> num) (dn + 1) nums' tmp' glob 0 ho ind).
Proof.
  intros Hd Hn Hdn. cbn [getHash_loop].
  set (tn := i64 (i64 (tmp * 16) + d)). exists tn, (<[0%nat := tn]> nums). split; [by rewrite length_insert|].
  assert (slice_set nums 0 tn = Ok (<[0%nat := tn]> nums)) as Hset by (apply slice_set_ok; lia).
  destruct (nibble_char d Hd) as [[-> ->]|(-> & -> & ->)]; unfold hash_digit; cbn;
    unfold tn in *; rewrite Hset; cbn; by rewrite slice_set_ok by lia.
Qed.

(** Digits are stored from [num[0]] up. *)
Lemma hash_digits s ds : nibbles ds -> forall pre rest j nums tmp glob ho ind, length nums = 3%nat ->
  (length pre + length ds <= 64)%nat ->
  exists tmp' nums', length nums' = 3%nat /\
  getHash_loop s (map digit_char ds ++ rest) j
    (MkHash true (pre ++ replicate (64 - length pre) 0) (len pre) nums tmp glob 0 ho ind) =
  getHash_loop s rest (j + len ds)
    (MkHash true ((pre ++ ds) ++ replicate (64 - length (pre ++ ds)) 0) (len (pre ++ ds)) nums' tmp' glob 0 ho ind).
Proof.
  induction 1 as [|d ds Hd _ IH]; intros pre rest j nums tmp glob ho ind Hn Hl.
  { exists tmp, nums. split; [done|]. by rewrite app_nil_r, Z.add_0_r. }
  cbn [length] in Hl. cbn [map app].
  destruct (hash_step s d (map digit_char ds ++ rest) j (pre ++ replicate (64 - length pre) 0) (len pre) nums tmp glob ho ind)
    as (tmp1 & nums1 & Hn1 & ->); [done|done|rewrite length_app, length_replicate; lia|].
  assert (<[Z.to_nat (len pre) := d]> (pre ++ replicate (64 - length pre) 0) =
    (pre ++ [d]) ++ replicate (64 - length (pre ++ [d])) 0) as ->.
  { rewrite Nat2Z.id, insert_app_r_alt, Nat.sub_diag, length_app by lia. cbn [length].
    replace (64 - length pre)%nat with (S (64 - (length pre + 1))) by lia. by rewrite <- app_assoc. }
  replace (len pre + 1) with (len (pre ++ [d])) by (rewrite length_app; simpl; lia).
  destruct (IH (pre ++ [d]) rest (j + 1) nums1 tmp1 glob ho ind Hn1) as (tmp2 & nums2 & Hn2 & E);
    [rewrite length_app; simpl; lia|].
  exists tmp2, nums2. split; [done|]. rewrite E, <- (app_assoc pre). f_equal. cbn [length]. lia.
Qed.

Lemma slice_get_from_end (ds pad : list Z) i x : reverse ds !! i = Some x ->
  slice_get (ds ++ pad) (len ds - Z.of_nat i - 1) = Ok x.
Proof.
  intros Hx. pose proof (lookup_lt_Some _ _ _ Hx) as Hi. rewrite length_reverse in Hi.
  rewrite reverse_lookup in Hx by done. apply slice_get_ok; [lia|].
  rewrite lookup_app_l by lia. rewrite <- Hx. f_equal. lia.
Qed.

Lemma lor_nibbles x y : 0 <= x < 16 -> 0 <= y < 16 -> Z.lor x (u8 (Z.shiftl y 4)) = x + 16 * y.
Proof.
  intros. rewrite uwrap_id by (unfold uint_range; rewrite Z.shiftl_mul_pow2; lia).
  rewrite Z.lor_comm, lor_shiftl_add by lia. lia.
Qed.

Lemma hash_fill_end n num d i h : d <= i -> hash_fill n num d i h = Ok h.
Proof. intros. destruct n; [done|]. cbn [hash_fill]. by rewrite decide_True by lia. Qed.

(** The low half of byte [m], and its high half. *)
Lemma hash_fill_low n (ds : list Z) pad pre post x m : length pre = m -> reverse ds !! (2 * m)%nat = Some x ->
  hash_fill (S n) (ds ++ pad) (len ds) (2 * Z.of_nat m) (pre ++ 0 :: post) =
  hash_fill n (ds ++ pad) (len ds) (2 * Z.of_nat m + 1) (pre ++ x :: post).
Proof.
  intros Hm Hx. pose proof (lookup_lt_Some (reverse ds) _ _ Hx) as Hl. rewrite length_reverse in Hl. cbn [hash_fill].
  rewrite decide_False by lia. replace (len ds - 2 * Z.of_nat m - 1) with (len ds - Z.of_nat (2 * m) - 1) by lia.
  rewrite (slice_get_from_end _ _ _ _ Hx). cbn [mbind outcome_bind].
  assert (Z.land (2 * Z.of_nat m) 1 = 0) as ->.
  { change 1 with (2 ^ 1 - 1). rewrite land_ones_mod by lia. rewrite Z.mul_comm. by rewrite Z.mod_mul. }
  rewrite decide_True by done. replace (2 * Z.of_nat m / 2) with (Z.of_nat m) by (rewrite Z.mul_comm, Z.div_mul; lia).
  by rewrite slice_set_app by lia.
Qed.

Lemma hash_fill_high n (ds : list Z) pad pre post x y m : length pre = m -> reverse ds !! (2 * m + 1)%nat = Some y ->
  0 <= x < 16 -> 0 <= y < 16 ->
  hash_fill (S n) (ds ++ pad) (len ds) (2 * Z.of_nat m + 1) (pre ++ x :: post) =
  hash_fill n (ds ++ pad) (len ds) (2 * Z.of_nat (S m)) (pre ++ x + 16 * y :: post).
Proof.
  intros Hm Hy Hxr Hyr. pose proof (lookup_lt_Some (reverse ds) _ _ Hy) as Hl. rewrite length_reverse in Hl. cbn [hash_fill].
  rewrite decide_False by lia. replace (len ds - (2 * Z.of_nat m + 1) - 1) with (len ds - Z.of_nat (2 * m + 1) - 1) by lia.
  rewrite (slice_get_from_end _ _ _ _ Hy). cbn [mbind outcome_bind].
  assert (Z.land (2 * Z.of_nat m + 1) 1 = 1) as ->.
  { change 1 with (2 ^ 1 - 1) at 2. rewrite land_ones_mod by lia. rewrite Z.add_comm, Z.mul_comm. by rewrite Z.mod_add. }
  rewrite decide_False by done.
  replace ((2 * Z.of_nat m + 1) / 2) with (Z.of_nat m) by (Z.to_euclidean_division_equations; lia).
  rewrite slice_get_app by lia. cbn [mbind outcome_bind]. rewrite slice_set_app by lia. cbn [mbind outcome_bind].
  rewrite lor_nibbles by done. f_equal. lia.
Qed.

Lemma le_bytes_zero k n : replicate (k + n) 0 = le_bytes k 0 ++ replicate n 0.
Proof. induction k as [|k IH]; [done|]. cbn [Nat.add replicate]. by rewrite IH. Qed.

(** [2 * k] turns of the loop write the next [k] bytes. *)
Lemma hash_fill_ok ds pad k : nibbles ds -> forall m pre n, length pre = m ->
  hash_fill (2 * k) (ds ++ pad) (len ds) (2 * Z.of_nat m) (pre ++ replicate (k + n) 0) =
  Ok (pre ++ le_bytes k (low_first (drop (2 * m) (reverse ds))) ++ replicate n 0).
Proof.
  intros Hds. apply Forall_reverse in Hds as Hr. rewrite Forall_lookup in Hr.
  induction k as [|k IH]; intros m pre n Hpre; [done|].
  destruct (drop (2 * m) (reverse ds)) as [|x rem] eqn:Ex.
  { rewrite hash_fill_end; [by rewrite le_bytes_zero|].
    apply (f_equal length) in Ex. rewrite length_drop, length_reverse in Ex. simpl in Ex. lia. }
  assert (reverse ds !! (2 * m)%nat = Some x) as Hx by (by rewrite <- (Nat.add_0_r (2 * m)), <- lookup_drop, Ex).
  replace (2 * S k)%nat with (S (S (2 * k))) by lia. cbn [Nat.add replicate]. rewrite (hash_fill_low _ _ _ _ _ x) by done.
  pose proof (Hr _ _ Hx) as Hxr. simpl in Hxr. destruct rem as [|y rem].
  { rewrite hash_fill_end.
    2: { apply (f_equal length) in Ex. rewrite length_drop, length_reverse in Ex. simpl in Ex. lia. }
    change (low_first [x]) with (x + 16 * 0). rewrite Z.mul_0_r, Z.add_0_r. cbn [le_bytes app].
    by rewrite Z.mod_small, Z.div_small, le_bytes_zero by lia. }
  assert (reverse ds !! (2 * m + 1)%nat = Some y) as Hy by (by rewrite <- lookup_drop, Ex).
  pose proof (Hr _ _ Hy) as Hyr. simpl in Hyr. rewrite (hash_fill_high _ _ _ _ _ x y) by done.
  change (pre ++ x + 16 * y :: replicate (k + n) 0) with (pre ++ [x + 16 * y] ++ replicate (k + n) 0).
  rewrite app_assoc, IH by (rewrite length_app; simpl; lia). rewrite <- app_assoc. do 2 f_equal. cbn [app le_bytes].
  assert (low_first (x :: y :: rem) = x + 16 * y + low_first rem * 256) as E by (simpl; lia).
  rewrite E, Z.mod_add, Z.div_add, (Z.mod_small (x + _)), (Z.div_small (x + _)) by lia.
  do 4 f_equal. replace (2 * S m)%nat with (2 * m + 2)%nat by lia. by rewrite <- drop_drop, Ex.
Qed.

(** *** Big integers *)

Lemma big_step s hex d rest j num nums tmp glob sign ho ind : 0 <= d < radix hex -> d < 10 -> length nums = 3%nat ->
  exists tmp' nums', length nums' = 3%nat /\
  getBig_loop s (digit_char d :: rest) j (MkBig hex num nums tmp glob sign 0 ho ind) =
  getBig_loop s rest (j + 1) (MkBig hex (num * radix hex + d) nums' tmp' glob sign 0 ho ind).
Proof.
  intros Hd Hd10 Hn. cbn [getBig_loop]. destruct (digit_char_digit d ltac:(lia)) as [-> ->].
  eexists _, (<[0%nat := _]> nums). split; [by rewrite length_insert|].
  unfold big_digit. cbn [g_tmp g_nums g_offset g_num g_hex]. by rewrite slice_set_ok by lia.
Qed.

Lemma big_digits s hex ds : Forall (fun d => 0 <= d < 10) ds -> forall rest j num nums tmp glob sign ho ind, length nums = 3%nat ->
  exists tmp' nums', length nums' = 3%nat /\
  getBig_loop s (map digit_char ds ++ rest) j (MkBig hex num nums tmp glob sign 0 ho ind) =
  getBig_loop s rest (j + len ds)
    (MkBig hex (foldl (fun n d => n * radix hex + d) num ds) nums' tmp' glob sign 0 ho ind).
Proof.
  induction 1 as [|d ds Hd _ IH]; intros rest j num nums tmp glob sign ho ind Hn.
  { exists tmp, nums. split; [done|]. by rewrite Z.add_0_r. }
  cbn [map app]. destruct (big_step s hex d (map digit_char ds ++ rest) j num nums tmp glob sign ho ind) as (t1 & n1 & Hn1 & ->);
    [destruct hex; simpl; lia|lia|done|].
  destruct (IH rest (j + 1) (num * radix hex + d) n1 t1 glob sign ho ind Hn1) as (t2 & n2 & Hn2 & ->).
  exists t2, n2. split; [done|]. cbn [foldl length]. f_equal. lia.
Qed.

(** ** Theorems *)

(** An immediate byte string, written as pairs of hexadecimal digits, is read as
    its bytes whatever follows it, and the position of its comma is returned. *)
Theorem bytes_text_roundtrip (spare : Stack -> Z -> list Z) (s : Stack) (bs rest : list Z) (ty dln : Z) (Hb : bytes bs) :
  getBytes spare s (ch "x" :: hex_text bs ++ ch_comma :: rest) ty dln = Ok (bs, 1 + 2 * len bs, None).
Proof.
  unfold getBytes, getBytesLen. cbn [getBytesLen_loop].
  change (is_digit (ch "x")) with false. change (is_hexdigit (ch "x")) with false. cbn iota.
  rewrite decide_True by done. unfold bytes_set_hex, bytes_init. cbn [b_tmp b_t b_even b_indirect b_global b_offset b_hasoffset b_tnum b_nums].
  match goal with |- getBytesLen_loop _ _ ?ln ?dl _ _ _ = _ =>
    destruct (bytes_hex_text spare s ln dl bs Hb (ch_comma :: rest) (0 + 1) [] 0 false 0 0 [0; 0; 0] eq_refl)
      as (tn & nm & _ & ->) end.
  done.
Qed.

Lemma bytes_text_witness : getBytes (fun _ _ => []) Newstack (ch "x" :: hex_text [0xab; 0x0c] ++ [ch_comma]) (ch "r") 0
  = Ok ([0xab; 0x0c], 5, None).
Proof. rewrite bytes_text_roundtrip; [reflexivity|by repeat constructor]. Defined.

(** An immediate hash of up to 64 hexadecimal digits keeps its last 32 digits
    only: the loop that fills it stops at 16 of the 32 bytes, and the upper half is
    zero. *)
Theorem hash_text_keeps_half (s : Stack) (ds rest : list Z) (Hd : nibbles ds) (Hl : (length ds <= 64)%nat) :
  getHash s (ch "x" :: map digit_char ds ++ ch_comma :: rest) =
  Ok (inl (le_bytes 16 (digits_value true ds) ++ replicate 16 0, 1 + len ds)).
Proof.
  unfold getHash. cbn [getHash_loop].
  change (is_digit (ch "x")) with false. change (is_hexdigit (ch "x")) with false. cbn iota.
  rewrite decide_True by done. unfold hash_init. cbn [h_num h_d h_nums h_tmp h_global h_offset h_hasoffset h_indirect].
  destruct (hash_digits s ds Hd [] (ch_comma :: rest) (0 + 1) [0; 0; 0] 0 false 0 0 eq_refl Hl) as (tn & nm & _ & E).
  change ([] ++ replicate (64 - length []) 0) with (replicate 64 0) in E. change (len []) with 0 in E. rewrite E.
  cbn [app getHash_loop]. change (is_digit ch_comma) with false. change (is_hexdigit ch_comma) with false. cbn iota.
  rewrite !(decide_False (P := ch_comma = _)) by done. rewrite (decide_True (P := ch_comma = ch_comma)) by done.
  cbn [h_indirect h_num h_d]. rewrite (decide_False (P := 0 > 0)) by lia.
  pose proof (hash_fill_ok ds (replicate (64 - length ds) 0) 16 Hd 0 [] 16 eq_refl) as Hf.
  change (2 * 16)%nat with 32%nat in Hf. change (2 * Z.of_nat 0) with 0 in Hf. cbn [app Nat.add] in Hf. rewrite Hf.
  cbn [mbind outcome_bind Nat.mul drop]. by rewrite digits_value_reverse.
Qed.

Lemma hash_text_witness : getHash Newstack (ch "x" :: map digit_char (replicate 33 1) ++ [ch_comma])
  = Ok (inl (replicate 16 0x11 ++ replicate 16 0, 34)).
Proof. rewrite hash_text_keeps_half; [reflexivity|by repeat constructor|simpl; lia]. Defined.

(** A big operand in decimal digits, or in hexadecimal ones below 10, is read as
    its signed value; but a hexadecimal letter counts 39 too much, so that the text
    of ten, [xa], is read as 49. *)
Theorem big_text_value (s : Stack) (hex neg : bool) (ds rest : list Z) (Hd : Forall (fun d => 0 <= d < 10) ds) :
  let text := (if neg then [ch "n"] else []) ++ (if hex then [ch "x"] else []) ++ map digit_char ds in
  getBig s (text ++ ch_comma :: rest) = Ok (inl (digits_value hex ds * sign_of neg, len text)) /\
  (hex = true -> forall d, 10 <= d < 16 ->
     getBig s (text ++ digit_char d :: ch_comma :: rest) =
     Ok (inl ((digits_value hex ds * 16 + d + 39) * sign_of neg, len text + 1))).
Proof.
  cbn zeta.
  assert (forall rest', exists tmp nums, length nums = 3%nat /\
    getBig s (((if neg then [ch "n"] else []) ++ (if hex then [ch "x"] else []) ++ map digit_char ds) ++ rest') =
    getBig_loop s rest' (len ((if neg then [ch "n"] else []) ++ (if hex then [ch "x"] else []) ++ map digit_char ds))
      (MkBig hex (digits_value hex ds) nums tmp false (sign_of neg) 0 0 0)) as H.
  { intros rest'. rewrite <- !app_assoc. unfold getBig.
    destruct (big_digits s hex ds Hd rest' (0 + len (if neg then [ch "n"] else []) + len (if hex then [ch "x"] else [])) 0 [0; 0; 0] 0
      false (sign_of neg) 0 0 eq_refl) as (t & n & Hn & E).
    exists t, n. split; [done|]. rewrite !length_app, length_map.
    assert (getBig_loop s ((if neg then [ch "n"] else []) ++ (if hex then [ch "x"] else []) ++ map digit_char ds ++ rest') 0 big_init =
      getBig_loop s (map digit_char ds ++ rest') (0 + len (if neg then [ch "n"] else []) + len (if hex then [ch "x"] else []))
        (MkBig hex 0 [0; 0; 0] 0 false (sign_of neg) 0 0 0)) as ->; [by destruct neg, hex|].
    rewrite E. f_equal. lia. }
  split.
  - destruct (H (ch_comma :: rest)) as (t & n & _ & ->). done.
  - intros -> d Hr. destruct (H (digit_char d :: ch_comma :: rest)) as (t & n & Hn & ->). cbn [getBig_loop].
    destruct (digit_char_hex d Hr) as (-> & -> & E). unfold big_digit. cbn [g_tmp g_nums g_offset g_num g_hex g_global g_sign g_hasoffset g_indirect].
    rewrite slice_set_ok by lia. cbn [mbind outcome_bind].
    change (is_digit ch_comma) with false. change (is_hexdigit ch_comma) with false. cbn iota.
    rewrite !(decide_False (P := ch_comma = _)) by done. rewrite (decide_True (P := ch_comma = ch_comma)) by done.
    cbn [g_indirect g_num g_sign]. rewrite (decide_False (P := 0 > 0)) by lia. do 4 f_equal. lia.
Qed.

Lemma big_text_witness : getBig Newstack ([ch "x"] ++ digit_char 10 :: [ch_comma]) = Ok (inl (49, 2)).
Proof.
  destruct (big_text_value Newstack true false [] [] (Forall_nil_2 _)) as [_ H].
  exact (H eq_refl 10 ltac:(lia)).
Defined.
