(* ===== verification/OvmEval.v ===== *)
(** * Evaluation instructions of the virtual machine

    Models [opEval8], [opEval16], [opEval32] and [opEval64] of
    [omega/ovm/instructions.go]: postfix expressions over machine integers of 8 to
    64 bits.  The four functions repeat one loop with a few differences, which
    [eval_kind] lists.  A compiler from expression trees to postfix text states what
    the instructions compute.  [pow] stands for [intN(math.Pow(x, y))], whose result
    the Go specification leaves open when it does not fit. *)
From stdpp Require Import gmap list.
From Stdlib Require Import ZArith Lia Ascii.
From S2P Require Import Prelude Difficulty OvmCode OvmStack OvmNum.

Open Scope Z_scope.

Definition checkTop (c : Z) : option Z :=
  if decide (c ∈ [ch "+"; ch "-"; ch "*"; ch "/"; ch "%"; ch "#"; ch "&"; ch "["; ch "]"; ch "|"; ch "^";
                  ch ">"; ch "<"; ch "="; ch ")"; ch "("; ch "!"]) then Some 1
  else if decide (c = ch "?") then Some 2 else None.

(** What differs between the four functions: the width, the default data type, the
    type letters that are kept as they are, whether a character with no meaning is an
    error, and whether this is [opEval64], which keeps the address on the stack. *)
Record eval_kind := MkKind {
  k_width : Z; k_type : Z; k_keep : list Z; k_strict : bool; k_64 : bool }.

Definition kind8 : eval_kind := MkKind 8 (ch "B") [] false false.
Definition kind16 : eval_kind := MkKind 16 (ch "W") [ch "B"] true false.
Definition kind32 : eval_kind := MkKind 32 (ch "D") [ch "B"; ch "W"] true false.
Definition kind64 : eval_kind := MkKind 64 (ch "Q") [ch "B"; ch "W"; ch "D"] true true.

Record eval_state := MkEval {
  e_scratch : list Z; e_top : Z; e_dataType : Z; e_unsigned : bool; e_store : Z }.

Definition set_unsigned (st : eval_state) (u : bool) : eval_state :=
  MkEval (e_scratch st) (e_top st) (e_dataType st) u (e_store st).
Definition set_type (st : eval_state) (ty : Z) : eval_state :=
  MkEval (e_scratch st) (e_top st) ty (e_unsigned st) (e_store st).
Definition set_scratch (st : eval_state) (sc : list Z) : eval_state :=
  MkEval sc (e_top st) (e_dataType st) (e_unsigned st) (e_store st).

Definition bool_num (b : bool) : Z := if b then 1 else 0.

(** [intN(uintN(x) op uintN(y))] or [x op y]. *)
Definition arith (w : Z) (unsigned : bool) (uop op : Z -> Z -> Z) (x y : Z) : Z :=
  if unsigned then swrap w (uwrap w (uop (uwrap w x) (uwrap w y))) else swrap w (op x y).
Definition compare (w : Z) (unsigned : bool) (rel : Z -> Z -> bool) (x y : Z) : Z :=
  bool_num (if unsigned then rel (uwrap w x) (uwrap w y) else rel x y).

Section Eval.
Context (pow : Z -> Z -> Z -> Z).

(** A binary operator applied to [scratch[top-1]] and [scratch[top]]; [None] when the
    character is not one.  A shift by a negative count panics. *)
Definition eval_binop (w : Z) (unsigned : bool) (c x y : Z) : option (res Z) :=
  let val v := Some (Ok (inl v)) in
  if decide (c = ch "+") then val (arith w unsigned Z.add Z.add x y)
  else if decide (c = ch "-") then val (arith w unsigned Z.sub Z.sub x y)
  else if decide (c = ch "*") then val (arith w unsigned Z.mul Z.mul x y)
  else if decide (c = ch "/") then
    if decide (y = 0) then Some (Ok (inr DividedBy0)) else val (arith w unsigned Z.div Z.quot x y)
  else if decide (c = ch "%") then
    if decide (y = 0) then Some (Ok (inr DividedBy0)) else val (arith w unsigned Z.modulo Z.rem x y)
  else if decide (c = ch "#") then
    val (swrap w (if unsigned then pow w (uwrap w x) (uwrap w y) else pow w x y))
  else if decide (c = ch "[") then
    if decide (y < 0) then Some Panic else val (if decide (y >= w) then 0 else swrap w (Z.shiftl x y))
  else if decide (c = ch "]") then
    if decide (y < 0) then Some Panic else val (Z.shiftr x (Z.min y w))
  else if decide (c = ch "|") then val (Z.lor x y)
  else if decide (c = ch "&") then val (Z.land x y)
  else if decide (c = ch "^") then val (Z.lxor x y)
  else if decide (c = ch ">") then val (compare w unsigned Z.gtb x y)
  else if decide (c = ch "<") then val (compare w unsigned Z.ltb x y)
  else if decide (c = ch "=") then val (compare w unsigned Z.eqb x y)
  else if decide (c = ch ")") then val (compare w unsigned Z.geb x y)
  else if decide (c = ch "(") then val (compare w unsigned Z.leb x y)
  else if decide (c = ch "!") then val (bool_num (negb (x =? y)))
  else None.

(** [if d, ok := checkTop[param[j]]; ok { if top <= d { return err }; top -= d }] *)
Definition check_top (c : Z) (st : eval_state) : res eval_state :=
  match checkTop c with
  | None => Ok (inl st)
  | Some d =>
      if decide (e_top st <= d) then Ok (inr StackUnderflow)
      else Ok (inl (MkEval (e_scratch st) (e_top st - d) (e_dataType st) (e_unsigned st) (e_store st)))
  end.

(** A number: the first one of [opEval8], [opEval16] and [opEval32] is the address of
    the result, the others are pushed; the slice grows when it is full. *)
Definition take_num (k : eval_kind) (st : eval_state) (num : Z) : outcome eval_state :=
  if negb (k_64 k) && bool_decide (e_dataType st = type_addr) then
    Ok (MkEval (e_scratch st) (e_top st) (k_type k) (e_unsigned st) (u64 num))
  else
    sc ← slice_set (e_scratch st) (e_top st) (swrap (k_width k) num);
    let top := e_top st + 1 in
    Ok (MkEval (if decide (top = len sc) then sc ++ [0] else sc) top (k_type k) (e_unsigned st) (e_store st)).

Definition is_type (c : Z) : bool := bool_decide (c ∈ [ch "B"; ch "W"; ch "D"; ch "Q"; ch "H"]).

(** The cases of the switch other than numbers; [top] is already lowered. *)
Definition eval_char (k : eval_kind) (s : Stack) (c : Z) (st : eval_state) : res eval_state :=
  let sc := e_scratch st in
  let top := e_top st in
  if decide (c = ch "u") then Ok (inl (set_unsigned st true))
  else if decide (c = ch "@") then
    if k_64 k then Ok (inl (set_type st type_addr))
    else if decide (top <> 0) then Ok (inr MalformedExpression) else Ok (inl st)
  else if is_type c then
    Ok (inl (set_type st (if decide (c ∈ k_keep k) then c else k_type k)))
  else if k_64 k && bool_decide (c = ch "P") then
    x ← slice_get sc (top - 1);
    v ⇐ toInt64 s (u64 x);
    sc ← slice_set sc (top - 1) v;
    Ok (inl (set_scratch st sc))
  else if decide (c = ch "~") then
    x ← slice_get sc (top - 1);
    sc ← slice_set sc (top - 1) (Z.lnot x);
    Ok (inl (set_scratch st sc))
  else if decide (c = ch "?") then
    z ← slice_get sc (top + 1);
    if decide (z = 0) then
      y ← slice_get sc top;
      sc ← slice_set sc (top - 1) y;
      Ok (inl (set_scratch st sc))
    else Ok (inl st)
  else
    match checkTop c with
    | None => if k_strict k then Ok (inr MalformedExpression) else Ok (inl st)
    | Some _ =>
        x ← slice_get sc (top - 1);
        y ← slice_get sc top;
        match eval_binop (k_width k) (e_unsigned st) c x y with
        | None => Ok (inl st)
        | Some r => v ⇐ r; sc ← slice_set sc (top - 1) v; Ok (inl (set_scratch st sc))
        end
    end.

(** The loop over the characters; [skip] of them belong to the last operand. *)
Fixpoint eval_loop (k : eval_kind) (s : Stack) (param : list Z) (skip : nat) (st : eval_state) : res eval_state :=
  match param with
  | [] => Ok (inl st)
  | c :: rest =>
      match skip with
      | S skip => eval_loop k s rest skip st
      | O =>
          st ⇐ check_top c st;
          if starts_num c then
            '(num, tl) ⇐ getNum s (c :: rest) (e_dataType st);
            st ← take_num k st num;
            eval_loop k s rest (Z.to_nat tl) (set_unsigned st false)
          else
            st ⇐ eval_char k s c st;
            eval_loop k s rest 0 (if decide (c = ch "u") then st else set_unsigned st false)
      end
  end.

Definition eval_init (param : list Z) : eval_state :=
  MkEval (replicate ((length param + 7) / 4) 0) 0 type_addr false 0.

Definition opEval8 (c : Contract) (pc : Z) (s : Stack) : res Stack :=
  param ← GetBytes c pc;
  st ⇐ eval_loop kind8 s param 0 (eval_init param);
  v ← slice_get (e_scratch st) 0;
  saveByte s (e_store st) (u8 v).

Definition opEval16 (c : Contract) (pc : Z) (s : Stack) : res Stack :=
  param ← GetBytes c pc;
  st ⇐ eval_loop kind16 s param 0 (eval_init param);
  v ← slice_get (e_scratch st) 0;
  saveInt16 s (e_store st) v.

Definition opEval32 (c : Contract) (pc : Z) (s : Stack) : res Stack :=
  param ← GetBytes c pc;
  st ⇐ eval_loop kind32 s param 0 (eval_init param);
  v ← slice_get (e_scratch st) 0;
  saveInt32 s (e_store st) v.

Definition opEval64 (c : Contract) (pc : Z) (s : Stack) : res Stack :=
  param ← GetBytes c pc;
  st ⇐ eval_loop kind64 s param 0 (eval_init param);
  store ← slice_get (e_scratch st) 0;
  v ← slice_get (e_scratch st) 1;
  saveInt64 s (u64 store) v.

(** ** Expressions and what they mean *)

Inductive binop := Add | Sub | Mul | Div | Mod | Pow | Shl | Shr | Or | And | Xor | Gt | Lt | Equal | Ge | Le | Ne.

Inductive expr :=
  | Num (ty : option Z) (o : operand)
  | Bin (unsigned : bool) (op : binop) (e1 e2 : expr)
  | Not (e : expr)
  | Select (e1 e2 c : expr).

Definition binop_char (op : binop) : Z :=
  match op with
  | Add => ch "+" | Sub => ch "-" | Mul => ch "*" | Div => ch "/" | Mod => ch "%" | Pow => ch "#"
  | Shl => ch "[" | Shr => ch "]" | Or => ch "|" | And => ch "&" | Xor => ch "^"
  | Gt => ch ">" | Lt => ch "<" | Equal => ch "=" | Ge => ch ")" | Le => ch "(" | Ne => ch "!"
  end.

(** Postfix text. *)
Fixpoint compile (e : expr) : list Z :=
  match e with
  | Num ty o => match ty with None => [] | Some c => [c] end ++ print_operand o
  | Bin u op e1 e2 => compile e1 ++ compile e2 ++ (if u then [ch "u"] else []) ++ [binop_char op]
  | Not e => compile e ++ [ch "~"]
  | Select e1 e2 c => compile e1 ++ compile e2 ++ compile c ++ [ch "?"]
  end.

Fixpoint expr_ok (e : expr) : Prop :=
  match e with
  | Num ty o => (forall c, ty = Some c -> is_type c = true) /\ operand_ok o
  | Bin _ _ e1 e2 => expr_ok e1 /\ expr_ok e2
  | Not e => expr_ok e
  | Select e1 e2 c => expr_ok e1 /\ expr_ok e2 /\ expr_ok c
  end.

(** The operators on [w]-bit integers: sums, differences and products do not depend
    on the sign, divisions and comparisons do. *)
Definition binop_value (w : Z) (u : bool) (op : binop) (x y : Z) : res Z :=
  let n z := if u then uwrap w z else z in
  let val v := Ok (inl v) in
  match op with
  | Add => val (swrap w (x + y))
  | Sub => val (swrap w (x - y))
  | Mul => val (swrap w (x * y))
  | Div => if decide (y = 0) then Ok (inr DividedBy0) else val (swrap w (Z.quot (n x) (n y)))
  | Mod => if decide (y = 0) then Ok (inr DividedBy0) else val (swrap w (Z.rem (n x) (n y)))
  | Pow => val (swrap w (pow w (n x) (n y)))
  | Shl => if decide (y < 0) then Panic else val (swrap w (x * 2 ^ y))
  | Shr => if decide (y < 0) then Panic else val (x / 2 ^ y)
  | Or => val (Z.lor x y)
  | And => val (Z.land x y)
  | Xor => val (Z.lxor x y)
  | Gt => val (bool_num (bool_decide (n x > n y)))
  | Lt => val (bool_num (bool_decide (n x < n y)))
  | Equal => val (bool_num (bool_decide (x = y)))
  | Ge => val (bool_num (bool_decide (n x >= n y)))
  | Le => val (bool_num (bool_decide (n x <= n y)))
  | Ne => val (bool_num (bool_decide (x <> y)))
  end.

Definition type_of (k : eval_kind) (ty : option Z) : Z :=
  match ty with None => k_type k | Some c => if decide (c ∈ k_keep k) then c else k_type k end.

Fixpoint expr_value (k : eval_kind) (s : Stack) (e : expr) : res Z :=
  match e with
  | Num ty o => v ⇐ operand_value s (type_of k ty) o; Ok (inl (swrap (k_width k) v))
  | Bin u op e1 e2 => x ⇐ expr_value k s e1; y ⇐ expr_value k s e2; binop_value (k_width k) u op x y
  | Not e => x ⇐ expr_value k s e; Ok (inl (-1 - x))
  | Select e1 e2 c =>
      x ⇐ expr_value k s e1; y ⇐ expr_value k s e2; z ⇐ expr_value k s c;
      Ok (inl (if decide (z = 0) then y else x))
  end.

(** ** The operators *)

(** A signed number fits when the bits from its sign on are all equal. *)
Lemma sint_shiftr w x : 0 < w -> sint_range w x <-> Z.shiftr x (w - 1) = 0 \/ Z.shiftr x (w - 1) = -1.
Proof.
  unfold sint_range. intros Hw. rewrite Z.shiftr_div_pow2 by lia. set (d := 2 ^ (w - 1)).
  assert (0 < d) by (unfold d; lia). pose proof (Z.div_mod x d ltac:(lia)). pose proof (Z.mod_pos_bound x d ltac:(lia)).
  split; [|intros [E|E]; rewrite E in *; lia].
  intros Hx. destruct (decide (0 <= x)); [left; apply Z.div_small; lia|right; nia].
Qed.

Lemma bitop_range w (f : Z -> Z -> Z) x y : 0 < w ->
  (forall a b n, Z.shiftr (f a b) n = f (Z.shiftr a n) (Z.shiftr b n)) ->
  (forall a b, a = 0 \/ a = -1 -> b = 0 \/ b = -1 -> f a b = 0 \/ f a b = -1) ->
  sint_range w x -> sint_range w y -> sint_range w (f x y).
Proof. intros Hw Hs Hf. rewrite !sint_shiftr, Hs by done. auto. Qed.

Lemma swrap_uwrap w a : 0 < w -> swrap w (uwrap w a) = swrap w a.
Proof. intros. apply swrap_cong; [done|]. apply uwrap_uwrap. lia. Qed.

Lemma uwrap_inj w x y : 0 < w -> sint_range w x -> sint_range w y -> uwrap w x = uwrap w y -> x = y.
Proof. intros Hw Hx Hy E. rewrite <- (swrap_id w x), <- (swrap_id w y) by done. by apply swrap_cong. Qed.

Lemma arith_same w u (op : Z -> Z -> Z) x y : 0 < w ->
  uwrap w (op (uwrap w x) (uwrap w y)) = uwrap w (op x y) -> arith w u op op x y = swrap w (op x y).
Proof. intros Hw E. unfold arith. destruct u; [|done]. by rewrite E, swrap_uwrap. Qed.

Lemma arith_div w (u : bool) uop op x y : 0 < w ->
  (forall a b, 0 <= a -> 0 <= b -> uop a b = op a b) ->
  let n (z : Z) := if u then uwrap w z else z in arith w u uop op x y = swrap w (op (n x) (n y)).
Proof.
  intros Hw E n. unfold arith, n. destruct u; [|done].
  rewrite swrap_uwrap, E by (done || apply uwrap_range; lia). done.
Qed.

Lemma shift_left_value w x y : 0 < w -> 0 <= y ->
  (if decide (y >= w) then 0 else swrap w (Z.shiftl x y)) = swrap w (x * 2 ^ y).
Proof.
  intros. case_decide; [|by rewrite Z.shiftl_mul_pow2].
  rewrite <- (swrap_id w 0) by (unfold sint_range; lia). apply swrap_cong; [done|].
  unfold uwrap. replace (2 ^ y) with (2 ^ (y - w) * 2 ^ w) by (rewrite <- Z.pow_add_r by lia; f_equal; lia).
  by rewrite Z.mul_assoc, Z.mod_mul, Z.mod_0_l by lia.
Qed.

Lemma div_pow2_deep w x y : 0 <= w <= y -> - 2 ^ w <= x < 2 ^ w -> x / 2 ^ y = x / 2 ^ w.
Proof.
  intros Hw Hx. assert (2 ^ w <= 2 ^ y) by (apply Z.pow_le_mono_r; lia).
  destruct (decide (0 <= x)); [by rewrite !Z.div_small by lia|].
  rewrite <- (Z.div_unique x (2 ^ y) (-1) (x + 2 ^ y)), <- (Z.div_unique x (2 ^ w) (-1) (x + 2 ^ w)); lia.
Qed.

Lemma shift_right_value w x y : 0 < w -> 0 <= y -> sint_range w x -> Z.shiftr x (Z.min y w) = x / 2 ^ y.
Proof.
  unfold sint_range. intros. rewrite Z.shiftr_div_pow2 by lia. destruct (decide (y <= w)).
  - by rewrite Z.min_l by lia.
  - rewrite Z.min_r by lia. symmetry. apply div_pow2_deep; [lia|].
    assert (2 ^ (w - 1) <= 2 ^ w) by (apply Z.pow_le_mono_r; lia). lia.
Qed.

Lemma compare_value w (u : bool) rel (R : Z -> Z -> Prop) `{!forall x y, Decision (R x y)} x y :
  (forall a b, rel a b = bool_decide (R a b)) ->
  let n (z : Z) := if u then uwrap w z else z in compare w u rel x y = bool_num (bool_decide (R (n x) (n y))).
Proof. intros E n. unfold compare, n. destruct u; by rewrite E. Qed.

Lemma quot_div_total a b : 0 <= a -> 0 <= b -> a / b = Z.quot a b.
Proof. intros. destruct (decide (b = 0)) as [->|]; [by destruct a|]. by rewrite Z.quot_div_nonneg by lia. Qed.

Lemma rem_mod_total a b : 0 <= a -> 0 <= b -> a mod b = Z.rem a b.
Proof. intros. destruct (decide (b = 0)) as [->|]; [by destruct a|]. by rewrite Z.rem_mod_nonneg by lia. Qed.

Lemma eqb_decide x y : (x =? y) = bool_decide (x = y).
Proof. case_bool_decide; [by apply Z.eqb_eq|by apply Z.eqb_neq]. Qed.

Lemma eval_binop_value w u op x y : 0 < w -> sint_range w x -> sint_range w y ->
  eval_binop w u (binop_char op) x y = Some (binop_value w u op x y).
Proof.
  intros Hw Hx Hy. destruct op; unfold eval_binop, binop_value; cbn [binop_char];
    repeat (rewrite (decide_False (P := ch _ = ch _)) by done); rewrite (decide_True (P := ch _ = ch _)) by done.
  - rewrite arith_same; [done|done|]. by rewrite uwrap_add_l, uwrap_add_r by lia.
  - rewrite arith_same; [done|done|]. by rewrite uwrap_sub_l, uwrap_sub_r by lia.
  - rewrite arith_same; [done|done|]. unfold uwrap. by rewrite <- Z.mul_mod by lia.
  - case_decide; [done|]. by rewrite (arith_div w u) by (done || apply quot_div_total).
  - case_decide; [done|]. by rewrite (arith_div w u) by (done || apply rem_mod_total).
  - by destruct u.
  - case_decide; [done|]. by rewrite shift_left_value by lia.
  - case_decide; [done|]. by rewrite shift_right_value by (done || lia).
  - done.
  - done.
  - done.
  - erewrite (compare_value w u); [done|]. intros a b. case_bool_decide; rewrite Z.gtb_ltb; [apply Z.ltb_lt|apply Z.ltb_ge]; lia.
  - erewrite (compare_value w u); [done|]. intros a b. case_bool_decide; [by apply Z.ltb_lt|apply Z.ltb_ge; lia].
  - unfold compare. destruct u; rewrite eqb_decide; [|done]. do 4 f_equal. apply bool_decide_ext.
    split; [by apply uwrap_inj|by intros ->].
  - erewrite (compare_value w u); [done|]. intros a b. case_bool_decide; rewrite Z.geb_leb; [apply Z.leb_le|apply Z.leb_gt]; lia.
  - erewrite (compare_value w u); [done|]. intros a b. case_bool_decide; [by apply Z.leb_le|apply Z.leb_gt; lia].
  - rewrite eqb_decide, <- bool_decide_not. done.
Qed.

Lemma bool_num_range w b : 1 < w -> sint_range w (bool_num b).
Proof.
  intros. unfold sint_range. assert (2 ^ 1 <= 2 ^ (w - 1)) by (apply Z.pow_le_mono_r; lia).
  destruct b; simpl; lia.
Qed.

Lemma binop_value_range w u op x y : 1 < w -> sint_range w x -> sint_range w y ->
  match binop_value w u op x y with Ok (inl v) => sint_range w v | _ => True end.
Proof.
  intros Hw Hx Hy. destruct op; unfold binop_value; try case_decide; try done;
    try (apply swrap_range; lia); try (by apply bool_num_range).
  - destruct Hx. unfold sint_range. assert (0 < 2 ^ y) by lia. pose proof (Z.pow_pos_nonneg 2 (w - 1) ltac:(lia) ltac:(lia)).
    split; [apply Z.div_le_lower_bound; [lia|nia]|apply Z.div_lt_upper_bound; [lia|nia]].
  - apply bitop_range; [lia|intros; apply Z.shiftr_lor|naive_solver|done|done].
  - apply bitop_range; [lia|intros; apply Z.shiftr_land|naive_solver|done|done].
  - apply bitop_range; [lia|intros; apply Z.shiftr_lxor|naive_solver|done|done].
Qed.

Lemma expr_value_range k s e : 1 < k_width k ->
  match expr_value k s e with Ok (inl v) => sint_range (k_width k) v | _ => True end.
Proof.
  intros Hw. induction e as [ty o|u op e1 IH1 e2 IH2|e IH|e1 IH1 e2 IH2 c IHc]; cbn [expr_value].
  - destruct (operand_value _ _ _) as [[v|]| |]; try done. apply swrap_range. lia.
  - destruct (expr_value k s e1) as [[x|]| |]; try done.
    destruct (expr_value k s e2) as [[y|]| |]; try done. by apply binop_value_range.
  - destruct (expr_value k s e) as [[x|]| |]; try done. cbn. unfold sint_range in *. lia.
  - destruct (expr_value k s e1) as [[x|]| |]; try done.
    destruct (expr_value k s e2) as [[y|]| |]; try done.
    destruct (expr_value k s c) as [[z|]| |]; try done. cbn. by case_decide.
Qed.

(** ** Running compiled expressions *)

Definition kind_ok (k : eval_kind) : Prop := k = kind8 \/ k = kind16 \/ k = kind32 \/ k = kind64.

Lemma kind_width k : kind_ok k -> 1 < k_width k.
Proof. by intros [->|[->|[->| ->]]]. Qed.

Lemma type_of_value k ty : kind_ok k -> (forall c, ty = Some c -> is_type c = true) -> type_of k ty <> type_addr.
Proof.
  intros Hk Ht. destruct ty as [c|]; cbn [type_of]; [|by destruct Hk as [->|[->|[->| ->]]]].
  specialize (Ht c eq_refl). unfold is_type in Ht. apply bool_decide_eq_true in Ht. case_decide.
  - intros ->. rewrite !elem_of_cons, elem_of_nil in Ht. naive_solver.
  - by destruct Hk as [->|[->|[->| ->]]].
Qed.

Lemma checkTop_starts c : starts_num c = true -> checkTop c = None.
Proof.
  intros H. unfold checkTop. rewrite decide_False, decide_False; [done|..].
  - intros ->. done.
  - intros Hin. rewrite !elem_of_cons, elem_of_nil in Hin. naive_solver.
Qed.

Lemma digit_char_starts d : 0 <= d < 16 -> starts_num (digit_char d) = true.
Proof.
  intros. unfold starts_num. destruct (decide (d < 10)).
  - by destruct (digit_char_digit d ltac:(lia)) as [-> _].
  - destruct (digit_char_hex d ltac:(lia)) as (-> & -> & _). done.
Qed.

Lemma print_operand_starts o : operand_ok o -> exists c l, print_operand o = c :: l /\ starts_num c = true.
Proof.
  intros (_ & [Hne Hds] & _). unfold print_operand.
  destruct (op_neg o); [eexists _, _; split; [reflexivity|done]|].
  destruct (op_global o); [eexists _, _; split; [reflexivity|done]|].
  destruct (op_ind o); [|eexists _, _; split; [reflexivity|done]].
  destruct (op_hex o) eqn:Hx; [eexists _, _; split; [reflexivity|done]|].
  destruct (op_digits o) as [|d ds]; [done|]. apply Forall_cons in Hds as [Hd _].
  eexists _, _; split; [reflexivity|]. apply digit_char_starts. unfold radix in Hd. lia.
Qed.

Lemma eval_loop_skip k s l : forall rest st, eval_loop k s (l ++ rest) (length l) st = eval_loop k s rest 0 st.
Proof. induction l; intros; [done|]. apply IHl. Qed.

(** An operand: it is parsed, and taken as the address or as a number. *)
Lemma eval_loop_operand k s o rest st : operand_ok o ->
  eval_loop k s (print_operand o ++ rest) 0 st =
  (v ⇐ operand_value s (e_dataType st) o; st ← take_num k st v; eval_loop k s rest 0 (set_unsigned st false)).
Proof.
  intros Ho. destruct (print_operand_starts o Ho) as (c & l & Ep & Hc).
  pose proof (getNum_print s (e_dataType st) o rest Ho) as Hg. rewrite Ep in *. cbn [app eval_loop] in *.
  unfold check_top. rewrite (checkTop_starts c Hc), Hc. cbn [res_bind mbind outcome_bind]. rewrite Hg.
  destruct (operand_value _ _ _) as [[v|]| |]; [|done..]. cbn [res_bind mbind outcome_bind].
  replace (Z.to_nat (len (c :: l) - 1)) with (length l) by (cbn [length]; lia).
  destruct (take_num _ _ _); [|done..]. cbn [mbind outcome_bind]. by rewrite eval_loop_skip.
Qed.

(** [m] goes on as the loop does once the value [r] is on the stack above [top]
    entries, or ends as [r] does. *)
Definition yields (k : eval_kind) (s : Stack) (rest : list Z) (sc : list Z) (top : nat) (store : Z)
    (r : res Z) (m : res eval_state) : Prop :=
  match r with
  | Ok (inl v) => exists sc', m = eval_loop k s rest 0 (MkEval sc' (Z.of_nat (S top)) (k_type k) false store) /\
      take top sc' = take top sc /\ sc' !! top = Some v /\ (S top < length sc')%nat
  | Ok (inr e) => m = Ok (inr e)
  | Panic => m = Panic
  | NoFuel => m = NoFuel
  end.

Lemma eval_loop_num k s ty o rest sc top store : kind_ok k ->
  (forall c, ty = Some c -> is_type c = true) -> operand_ok o -> (top < length sc)%nat ->
  yields k s rest sc top store (expr_value k s (Num ty o))
    (eval_loop k s (compile (Num ty o) ++ rest) 0 (MkEval sc (Z.of_nat top) (k_type k) false store)).
Proof.
  intros Hk Ht Ho Hl. pose proof (type_of_value k ty Hk Ht) as Hne.
  assert (eval_loop k s (compile (Num ty o) ++ rest) 0 (MkEval sc (Z.of_nat top) (k_type k) false store) =
    eval_loop k s (print_operand o ++ rest) 0 (MkEval sc (Z.of_nat top) (type_of k ty) false store)) as ->.
  { destruct ty as [c|]; [|done]. specialize (Ht c eq_refl). cbn [compile app eval_loop type_of].
    unfold is_type in Ht. apply bool_decide_eq_true in Ht. rewrite !elem_of_cons, elem_of_nil in Ht.
    destruct Ht as [->|[->|[->|[->|[->|[]]]]]]; by destruct Hk as [->|[->|[->| ->]]]. }
  rewrite eval_loop_operand by done. cbn [e_dataType expr_value].
  destruct (operand_value _ _ _) as [[v|]| |]; [|done..]. cbn [res_bind mbind outcome_bind yields].
  unfold take_num. cbn [e_dataType e_scratch e_top e_unsigned e_store].
  rewrite (bool_decide_false _ Hne), andb_false_r, slice_set_ok, Nat2Z.id by lia. cbn [mbind outcome_bind].
  set (sc1 := <[top := swrap (k_width k) v]> sc).
  assert (length sc1 = length sc) as Hl1 by apply length_insert.
  assert (sc1 !! top = Some (swrap (k_width k) v)) as Hv by (by apply list_lookup_insert_eq).
  assert (take top sc1 = take top sc) as Htk by (by apply take_insert_ge).
  eexists. split; [|split_and!].
  - unfold set_unsigned. cbn [e_scratch e_top e_dataType e_store]. by rewrite Nat2Z.inj_succ, <- Z.add_1_r.
  - case_decide; [|done]. rewrite take_app_le by lia. done.
  - case_decide; [|done]. by apply lookup_app_l_Some.
  - rewrite Hl1. case_decide; [rewrite length_app; simpl; lia|lia].
Qed.

Lemma binop_char_facts op : let c := binop_char op in
  checkTop c = Some 1 /\ starts_num c = false /\ is_type c = false /\
  c <> ch "u" /\ c <> ch "@" /\ c <> ch "P" /\ c <> ch "~" /\ c <> ch "?".
Proof. by destruct op. Qed.

Lemma eval_char_binop k s op st x y : 1 < k_width k -> sint_range (k_width k) x -> sint_range (k_width k) y ->
  1 <= e_top st -> slice_get (e_scratch st) (e_top st - 1) = Ok x -> slice_get (e_scratch st) (e_top st) = Ok y ->
  eval_char k s (binop_char op) st =
  (v ⇐ binop_value (k_width k) (e_unsigned st) op x y;
   sc ← slice_set (e_scratch st) (e_top st - 1) v; Ok (inl (set_scratch st sc))).
Proof.
  intros Hw Hx Hy Ht Ex Ey. destruct (binop_char_facts op) as (Hc & _ & Hty & Hu & Ha & HP & Hn & Hq).
  unfold eval_char. rewrite !(decide_False (P := binop_char op = _)), Hty by done.
  rewrite (bool_decide_false (binop_char op = ch "P")), andb_false_r, Hc, Ex, Ey by done.
  cbn [mbind outcome_bind]. by rewrite eval_binop_value by (done || lia).
Qed.

Lemma eval_loop_binop k s (u : bool) op rest sc t ty store x y : 1 < k_width k ->
  sint_range (k_width k) x -> sint_range (k_width k) y -> sc !! t = Some x -> sc !! S t = Some y ->
  eval_loop k s ((if u then [ch "u"] else []) ++ binop_char op :: rest) 0 (MkEval sc (Z.of_nat (S (S t))) ty false store) =
  (v ⇐ binop_value (k_width k) u op x y; eval_loop k s rest 0 (MkEval (<[t := v]> sc) (Z.of_nat (S t)) ty false store)).
Proof.
  intros Hw Hx Hy Ex Ey.
  assert (eval_loop k s ((if u then [ch "u"] else []) ++ binop_char op :: rest) 0 (MkEval sc (Z.of_nat (S (S t))) ty false store) =
    eval_loop k s (binop_char op :: rest) 0 (MkEval sc (Z.of_nat (S (S t))) ty u store)) as -> by (by destruct u).
  destruct (binop_char_facts op) as (Hc & Hs & _ & Hu & _). cbn [eval_loop]. unfold check_top. rewrite Hc, Hs.
  cbn [e_top e_scratch e_dataType e_unsigned e_store]. rewrite decide_False by lia. cbn [res_bind mbind outcome_bind].
  pose proof (lookup_lt_Some _ _ _ Ex).
  rewrite (eval_char_binop k s op _ x y); cbn [e_top e_scratch e_unsigned]; [|done|done|done|lia|apply slice_get_ok; [lia|]..].
  - destruct (binop_value _ _ _ _ _) as [[v|]| |]; [|done..]. cbn [res_bind mbind outcome_bind].
    rewrite slice_set_ok by lia. cbn [mbind outcome_bind res_bind]. rewrite decide_False by done.
    unfold set_unsigned, set_scratch. cbn [e_top e_scratch e_dataType e_store].
    replace (Z.to_nat (Z.of_nat (S (S t)) - 1 - 1)) with t by lia.
    by replace (Z.of_nat (S (S t)) - 1) with (Z.of_nat (S t)) by lia.
  - by replace (Z.to_nat (Z.of_nat (S (S t)) - 1 - 1)) with t by lia.
  - by replace (Z.to_nat (Z.of_nat (S (S t)) - 1)) with (S t) by lia.
Qed.

Lemma eval_loop_not k s rest sc t ty store x : sc !! t = Some x ->
  eval_loop k s (ch "~" :: rest) 0 (MkEval sc (Z.of_nat (S t)) ty false store) =
  eval_loop k s rest 0 (MkEval (<[t := Z.lnot x]> sc) (Z.of_nat (S t)) ty false store).
Proof.
  intros Ex. pose proof (lookup_lt_Some _ _ _ Ex). cbn [eval_loop].
  change (check_top (ch "~") ?st) with (Ok (A := eval_state + script_err) (inl st)). cbn [res_bind mbind outcome_bind].
  change (starts_num (ch "~")) with false. unfold eval_char.
  rewrite !(decide_False (P := ch "~" = ch "u")), !(decide_False (P := ch "~" = ch "@")) by done.
  change (is_type (ch "~")) with false. change (bool_decide (ch "~" = ch "P")) with false.
  rewrite andb_false_r, (decide_True (P := ch "~" = ch "~")) by done. cbn [e_scratch e_top].
  replace (Z.of_nat (S t) - 1) with (Z.of_nat t) by lia.
  rewrite (slice_get_ok _ _ x) by (rewrite ?Nat2Z.id; done || lia). cbn [mbind outcome_bind].
  rewrite slice_set_ok by lia. cbn [mbind outcome_bind res_bind].
  by rewrite Nat2Z.id.
Qed.

Lemma eval_loop_select k s rest sc t ty store x y z :
  sc !! t = Some x -> sc !! S t = Some y -> sc !! S (S t) = Some z ->
  exists sc', eval_loop k s (ch "?" :: rest) 0 (MkEval sc (Z.of_nat (S (S (S t)))) ty false store) =
    eval_loop k s rest 0 (MkEval sc' (Z.of_nat (S t)) ty false store) /\
    length sc' = length sc /\ take t sc' = take t sc /\ sc' !! t = Some (if decide (z = 0) then y else x).
Proof.
  intros Ex Ey Ez. pose proof (lookup_lt_Some _ _ _ Ez). cbn [eval_loop]. unfold check_top.
  change (checkTop (ch "?")) with (Some 2). cbn [e_top e_scratch e_dataType e_unsigned e_store].
  rewrite decide_False by lia. cbn [res_bind mbind outcome_bind]. change (starts_num (ch "?")) with false.
  unfold eval_char. rewrite !(decide_False (P := ch "?" = ch "u")), !(decide_False (P := ch "?" = ch "@")),
    !(decide_False (P := ch "?" = ch "~")) by done.
  change (is_type (ch "?")) with false. change (bool_decide (ch "?" = ch "P")) with false.
  rewrite andb_false_r, (decide_True (P := ch "?" = ch "?")) by done. cbn [e_scratch e_top].
  replace (Z.of_nat (S (S (S t))) - 2) with (Z.of_nat (S t)) by lia.
  rewrite (slice_get_ok _ (Z.of_nat (S t) + 1) z); [|lia|by replace (Z.to_nat (Z.of_nat (S t) + 1)) with (S (S t)) by lia].
  cbn [mbind outcome_bind]. case_decide.
  - rewrite (slice_get_ok _ (Z.of_nat (S t)) y) by (rewrite ?Nat2Z.id; done || lia).
    cbn [mbind outcome_bind]. rewrite slice_set_ok by lia.
    cbn [mbind outcome_bind]. replace (Z.to_nat (Z.of_nat (S t) - 1)) with t by lia.
    eexists. split; [reflexivity|]. split_and!; [apply length_insert|by apply take_insert_ge|].
    apply list_lookup_insert_eq. lia.
  - exists sc. done.
Qed.

Lemma lookup_below {A} (sc sc' : list A) t i : take t sc' = take t sc -> (i < t)%nat -> sc' !! i = sc !! i.
Proof. intros E Hi. rewrite <- (lookup_take_lt sc' t), E, lookup_take_lt by done. done. Qed.

Lemma take_below {A} (sc sc' : list A) t i : take t sc' = take t sc -> (i <= t)%nat -> take i sc' = take i sc.
Proof. intros E Hi. replace i with (i `min` t)%nat by lia. by rewrite <- !take_take, E. Qed.

Lemma eval_loop_compile k s e : kind_ok k -> expr_ok e -> forall rest sc top store, (top < length sc)%nat ->
  yields k s rest sc top store (expr_value k s e)
    (eval_loop k s (compile e ++ rest) 0 (MkEval sc (Z.of_nat top) (k_type k) false store)).
Proof.
  intros Hk. pose proof (kind_width k Hk) as Hw.
  induction e as [ty o|u op e1 IH1 e2 IH2|e IH|e1 IH1 e2 IH2 c IHc]; intros He rest sc top store Hl.
  - destruct He. by apply eval_loop_num.
  - destruct He as [He1 He2]. cbn [compile expr_value]. rewrite <- !app_assoc.
    pose proof (expr_value_range k s e1 Hw) as Hx. pose proof (expr_value_range k s e2 Hw) as Hy.
    pose proof (IH1 He1 (compile e2 ++ (if u then [ch "u"] else []) ++ [binop_char op] ++ rest) sc top store Hl) as H1.
    destruct (expr_value k s e1) as [[x|]| |]; try exact H1. destruct H1 as (sc1 & -> & Ht1 & Ex & Hl1).
    pose proof (IH2 He2 ((if u then [ch "u"] else []) ++ [binop_char op] ++ rest) sc1 (S top) store Hl1) as H2.
    cbn [res_bind mbind outcome_bind].
    destruct (expr_value k s e2) as [[y|]| |]; try exact H2. destruct H2 as (sc2 & -> & Ht2 & Ey & Hl2).
    rewrite <- (lookup_below sc1 sc2 (S top)) in Ex by (done || lia). cbn [res_bind mbind outcome_bind app].
    rewrite (eval_loop_binop k s u op rest sc2 top _ _ x y) by done.
    destruct (binop_value _ _ _ _ _) as [[v|]| |]; [|done..]. cbn [res_bind mbind outcome_bind yields].
    eexists. split; [done|]. rewrite take_insert_ge, length_insert by lia. split_and!; [|by apply list_lookup_insert_eq; lia|lia].
    by rewrite (take_below sc1 sc2 (S top)) by (done || lia).
  - cbn [compile expr_value]. rewrite <- app_assoc.
    pose proof (IH He ([ch "~"] ++ rest) sc top store Hl) as H1.
    destruct (expr_value k s e) as [[x|]| |]; try exact H1. destruct H1 as (sc1 & -> & Ht1 & Ex & Hl1).
    cbn [res_bind mbind outcome_bind yields app]. rewrite (eval_loop_not k s rest sc1 top _ _ x) by done.
    eexists. split; [done|]. rewrite take_insert_ge, length_insert by lia. split_and!; [done| |lia].
    rewrite list_lookup_insert_eq by lia. f_equal. unfold Z.lnot. lia.
  - destruct He as (He1 & He2 & Hec). cbn [compile expr_value]. rewrite <- !app_assoc.
    pose proof (IH1 He1 (compile e2 ++ compile c ++ [ch "?"] ++ rest) sc top store Hl) as H1.
    destruct (expr_value k s e1) as [[x|]| |]; try exact H1. destruct H1 as (sc1 & -> & Ht1 & Ex & Hl1).
    pose proof (IH2 He2 (compile c ++ [ch "?"] ++ rest) sc1 (S top) store Hl1) as H2. cbn [res_bind mbind outcome_bind].
    destruct (expr_value k s e2) as [[y|]| |]; try exact H2. destruct H2 as (sc2 & -> & Ht2 & Ey & Hl2).
    pose proof (IHc Hec ([ch "?"] ++ rest) sc2 (S (S top)) store Hl2) as H3. cbn [res_bind mbind outcome_bind].
    destruct (expr_value k s c) as [[z|]| |]; try exact H3. destruct H3 as (sc3 & -> & Ht3 & Ez & Hl3).
    rewrite <- (lookup_below sc1 sc2 (S top)) in Ex by (done || lia).
    rewrite <- (lookup_below sc2 sc3 (S (S top))) in Ex, Ey by (done || lia).
    destruct (eval_loop_select k s rest sc3 top (k_type k) store x y z Ex Ey Ez) as (sc4 & E4 & Hl4 & Ht4 & Ev).
    cbn [res_bind mbind outcome_bind yields app]. exists sc4. split; [done|]. split_and!; [|done|lia].
    rewrite Ht4, (take_below sc2 sc3 (S (S top))), (take_below sc1 sc2 (S top)) by (done || lia). done.
Qed.

(** [dest] followed by an expression: the address of the result, then its value. *)
Definition assignment (dest : operand) (e : expr) : list Z := print_operand dest ++ compile e.

Lemma scratch_room (param : list Z) : (8 <= length param + 7)%nat -> (1 < length (replicate ((length param + 7) / 4) 0%Z))%nat.
Proof.
  intros H. rewrite length_replicate.
  pose proof (Nat.Div0.div_le_mono 8 (length param + 7) 4 H). simpl in *. lia.
Qed.

Lemma assignment_nonempty dest e : operand_ok dest -> (8 <= length (assignment dest e) + 7)%nat.
Proof.
  intros H. destruct (print_operand_starts dest H) as (c & l & E & _). unfold assignment. rewrite E. simpl. lia.
Qed.

(** The loop on an assignment, when the address is kept apart. *)
Lemma eval_assignment k s dest e : kind_ok k -> k_64 k = false -> operand_ok dest -> expr_ok e ->
  forall (save : Z -> Z -> res Stack),
  (st ⇐ eval_loop k s (assignment dest e) 0 (eval_init (assignment dest e));
   v ← slice_get (e_scratch st) 0; save (e_store st) v) =
  (p ⇐ operand_value s type_addr dest; v ⇐ expr_value k s e; save (u64 p) v).
Proof.
  intros Hk H64 Hd He save. pose proof (scratch_room _ (assignment_nonempty dest e Hd)) as Hr.
  unfold eval_init. set (sc := replicate _ _) in *. unfold assignment. rewrite eval_loop_operand by done.
  cbn [e_dataType]. destruct (operand_value s type_addr dest) as [[p|]| |]; [|done..].
  cbn [res_bind mbind outcome_bind]. unfold take_num. rewrite H64. cbn [e_dataType].
  rewrite bool_decide_true by done. cbn [negb andb mbind outcome_bind]. unfold set_unsigned.
  cbn [e_scratch e_top e_dataType e_store].
  pose proof (eval_loop_compile k s e Hk He [] sc 0 (u64 p) ltac:(lia)) as H. rewrite app_nil_r in H.
  change (Z.of_nat 0) with 0 in H. destruct (expr_value k s e) as [[v|]| |]; cbn [yields] in H; [|by rewrite H..].
  destruct H as (sc' & -> & _ & Ev & _). cbn [eval_loop res_bind mbind outcome_bind e_scratch e_store].
  by rewrite (slice_get_ok _ 0 v) by done.
Qed.

(** The loop of [opEval64], which leaves the address below the value. *)
Lemma eval_assignment64 s dest e : operand_ok dest -> expr_ok e ->
  forall (save : Z -> Z -> res Stack),
  (st ⇐ eval_loop kind64 s (assignment dest e) 0 (eval_init (assignment dest e));
   store ← slice_get (e_scratch st) 0; v ← slice_get (e_scratch st) 1; save (u64 store) v) =
  (p ⇐ operand_value s type_addr dest; v ⇐ expr_value kind64 s e; save (u64 p) v).
Proof.
  intros Hd He save. pose proof (scratch_room _ (assignment_nonempty dest e Hd)) as Hr.
  assert (kind_ok kind64) as Hk by (unfold kind_ok; tauto).
  unfold eval_init. set (sc := replicate _ _) in *. unfold assignment. rewrite eval_loop_operand by done.
  cbn [e_dataType]. destruct (operand_value s type_addr dest) as [[p|]| |]; [|done..].
  cbn [res_bind mbind outcome_bind]. unfold take_num. cbn [k_64 kind64 negb andb e_scratch e_top k_width k_type].
  rewrite slice_set_ok by lia. cbn [mbind outcome_bind]. rewrite decide_False by (rewrite length_insert; lia).
  unfold set_unsigned. cbn [e_scratch e_top e_dataType e_store e_unsigned]. change (Z.to_nat 0) with 0%nat.
  set (sc1 := <[_ := _]> sc).
  assert (1 < length sc1)%nat as Hl1 by (unfold sc1; by rewrite length_insert).
  pose proof (eval_loop_compile kind64 s e Hk He [] sc1 1 0 Hl1) as H. rewrite app_nil_r in H.
  change (Z.of_nat 1) with 1 in H. change (0 + 1) with 1. change (k_type kind64) with (ch "Q") in H.
  destruct (expr_value kind64 s e) as [[v|]| |]; cbn [yields] in H; [|by rewrite H..].
  destruct H as (sc' & -> & Ht & Ev & _). cbn [eval_loop res_bind mbind outcome_bind e_scratch e_store].
  rewrite (slice_get_ok sc' 0 (i64 p)); [|done|].
  - cbn [mbind outcome_bind]. rewrite (slice_get_ok sc' 1 v) by done. cbn [mbind outcome_bind].
    by rewrite swrap_mod by lia.
  - rewrite (lookup_below sc1 sc' 1) by (done || lia). unfold sc1. apply list_lookup_insert_eq. lia.
Qed.

(** The four instructions, and what they save at an address. *)
Definition op_eval (w : width) : Contract -> Z -> Stack -> res Stack :=
  match w with W8 => opEval8 | W16 => opEval16 | W32 => opEval32 | W64 => opEval64 end.
Definition kind_of (w : width) : eval_kind :=
  match w with W8 => kind8 | W16 => kind16 | W32 => kind32 | W64 => kind64 end.
Definition stored (w : width) (v : Z) : Z := match w with W8 => u8 v | _ => v end.

Lemma op_eval_assignment (w : width) (c : Contract) (pc : Z) (s : Stack) (dest : operand) (e : expr)
    (Hd : operand_ok dest) (He : expr_ok e) (Hp : param_at c pc (assignment dest e)) :
  op_eval w c pc s =
  (p ⇐ operand_value s type_addr dest; v ⇐ expr_value (kind_of w) s e; save_word w s (u64 p) (stored w v)).
Proof.
  destruct w; cbn [op_eval kind_of save_word stored]; unfold opEval8, opEval16, opEval32, opEval64;
    rewrite (GetBytes_ok c pc _ Hp); cbn [mbind outcome_bind].
  - apply (eval_assignment kind8 s dest e) with (save := fun p v => saveByte s p (u8 v)); (done || unfold kind_ok; tauto).
  - apply (eval_assignment kind16 s dest e) with (save := saveInt16 s); (done || unfold kind_ok; tauto).
  - apply (eval_assignment kind32 s dest e) with (save := saveInt32 s); (done || unfold kind_ok; tauto).
  - by apply (eval_assignment64 s dest e) with (save := saveInt64 s).
Qed.

(** Decimal literals. *)
Definition lit (neg : bool) (d : Z) : operand := MkOperand neg false 0 false [d] None None.

Lemma lit_ok neg d : 0 <= d < 10 -> operand_ok (lit neg d).
Proof. intros. split_and!; [simpl; lia|split; [done|by apply Forall_singleton]|done|done]. Qed.

(** ** Theorems *)

(** C16: an evaluation instruction computes its expression: for every expression tree
    and every destination, the instruction of each width on the postfix text stores
    the value of the tree, in that width's arithmetic, at the address the destination
    denotes, and ends with the error or the panic of the tree when that has one. *)
Theorem eval_computes_expression (w : width) (c : Contract) (pc : Z) (s : Stack) (dest : operand) (e : expr)
    (Hd : operand_ok dest) (He : expr_ok e) (Hp : param_at c pc (assignment dest e)) :
  op_eval w c pc s =
  (p ⇐ operand_value s type_addr dest; v ⇐ expr_value (kind_of w) s e; save_word w s (u64 p) (stored w v)).
Proof. by apply op_eval_assignment. Qed.

(** An expression that shifts 1 by -1 makes every evaluation instruction panic,
    whatever the memory is, instead of ending with a script error. *)
Theorem negative_shift_panics (w : width) (c : Contract) (pc : Z) (s : Stack)
    (Hp : param_at c pc (assignment (lit false 0) (Bin false Shl (Num None (lit false 1)) (Num None (lit true 1))))) :
  op_eval w c pc s = Panic.
Proof.
  rewrite (op_eval_assignment w c pc s (lit false 0) _) with (3 := Hp); [by destruct w|by apply lit_ok|].
  split; (split; [done|by apply lit_ok]).
Qed.
End Eval.

Definition one_inst (param : list Z) : Contract := code_only ∅ [MkInst 0x42 param].

Lemma eval_computes_witness :
  let e := Bin true Add (Num None (lit false 7)) (Num None (lit true 9)) in
  exists s', op_eval (fun _ x y => x ^ y) W32 (one_inst (assignment (lit false 0) e)) 0 Newstack = Ok (inl s') /\
    toInt32 s' 0 = Ok (inl (-2)).
Proof.
  cbn zeta. rewrite (eval_computes_expression (fun _ x y => x ^ y) W32 _ 0 Newstack (lit false 0)
    (Bin true Add (Num None (lit false 7)) (Num None (lit true 9)))).
  - eexists. split; reflexivity.
  - by apply lit_ok.
  - split; (split; [done|by apply lit_ok]).
  - by eexists.
Defined.

Lemma negative_shift_witness : op_eval (fun _ x y => x ^ y) W8 (one_inst (assignment (lit false 0)
    (Bin false Shl (Num None (lit false 1)) (Num None (lit true 1))))) 0 Newstack = Panic.
Proof. apply negative_shift_panics. by eexists. Defined.
