(* ===== verification/OvmControl.v ===== *)
(** * Jumps, returns and memory instructions of the virtual machine

    Models [opIf], [opReturn], [opMAalloc] (with [opMalloc] and [opAlloc]) and [opCopy]
    of [omega/ovm/instructions.go].  The debugger's part of [opReturn] is left out. *)
From stdpp Require Import gmap list.
From Stdlib Require Import ZArith Lia Ascii.
From S2P Require Import Prelude Difficulty OvmCode OvmStack OvmNum.

Open Scope Z_scope.

(** [case '0', ..., 'f', 'x', 'i', 'g']: here a leading [n] is not part of the operand. *)
Definition starts_operand (c : Z) : bool :=
  is_digit c || is_hexdigit c || bool_decide (c = ch "x") || bool_decide (c = ch "i") || bool_decide (c = ch "g").

(** ** opIf *)

(** The loop over the parameters: [scratch] and [dataType] have two entries, a third
    operand is out of range. *)
Fixpoint if_loop (s : Stack) (param : list Z) (skip : nat) (scratch : list Z) (top sign : Z) : res (list Z) :=
  match param with
  | [] => Ok (inl scratch)
  | c :: rest =>
      match skip with
      | S skip => if_loop s rest skip scratch top sign
      | O =>
          if starts_operand c then
            ty ← slice_get [ch "B"; ch "D"] top;
            '(num, tl) ⇐ getNum s (c :: rest) ty;
            scratch ← slice_set scratch top (i32 (i64 (num * sign)));
            if_loop s rest (Z.to_nat tl) scratch (top + 1) 1
          else if decide (c = ch "n") then if_loop s rest 0 scratch top (-1)
          else if_loop s rest 0 scratch top sign
      end
  end.

(** A missing library reads as the zero [lib]. *)
Definition lib_at (c : Contract) (inlib : list Z) : lib := default (MkLib 0 0 0 0) (ct_libs c !! inlib).

(** The new program counter. *)
Definition opIf (c : Contract) (pc : Z) (s : Stack) : res Z :=
  param ← GetBytes c pc;
  scratch ⇐ if_loop s param 0 [0; 0] 0 1;
  x ← slice_get scratch 0;
  y ← slice_get scratch 1;
  let target := if decide (x = 0) then i64 (pc + 1) else i64 (pc + y) in
  f ← frame_at s (s_callTop s);
  let l := lib_at c (f_inlib f) in
  if decide (target < l_address l \/ target >= l_end l) then Ok (inr OutOfRangeJump) else Ok (inl target).

(** ** opReturn *)

Definition opReturn (pc : Z) (s : Stack) : outcome (Z * Stack) :=
  if decide (s_callTop s <= 0) then Ok (pc, s)
  else
    f ← frame_at s (s_callTop s);
    Ok (f_pc f, MkStack (i32 (s_callTop s - 1)) (s_libTop s) (delete (s_callTop s) (s_data s))).

(** ** opMAalloc *)

(** [uint64(num)] plus the sizes of all spaces. *)
Definition total_memory (s : Stack) (num : Z) : Z :=
  map_fold (fun _ f total => u64 (total + len (f_space f))) (u64 num) (s_data s).

Fixpoint alloc_loop (glob : bool) (s : Stack) (param : list Z) (skip : nat) (top retspace ty1 : Z) : res Stack :=
  match param with
  | [] => Ok (inr MalformedParameters)
  | c :: rest =>
      match skip with
      | S skip => alloc_loop glob s rest skip top retspace ty1
      | O =>
          if decide (c ∈ [ch "B"; ch "W"; ch "D"; ch "Q"]) then
            alloc_loop glob s rest 0 top retspace (if decide (top = 1) then c else ty1)
          else if decide (c = ch "H") then
            alloc_loop glob s rest 0 top retspace (if decide (top = 1) then ch "Q" else ty1)
          else if starts_operand c then
            ty ← slice_get [type_addr; ty1] top;
            '(num, tl) ⇐ getNum s (c :: rest) ty;
            if decide (top = 0) then alloc_loop glob s rest (Z.to_nat tl) (top + 1) (u64 num) ty1
            else
              if decide (total_memory s num >= 0x40000000) then Ok (inr MemoryLimit)
              else
                '(s, p, _) ← (if glob then malloc s num else stack_alloc s num);
                if decide (retspace <> 0) then saveInt64 s retspace (i64 p) else Ok (inl s)
          else alloc_loop glob s rest 0 top retspace ty1
      end
  end.

Definition opMAalloc (glob : bool) (c : Contract) (pc : Z) (s : Stack) : res Stack :=
  param ← GetBytes c pc;
  alloc_loop glob s param 0 0 0 (ch "D").

Definition opMalloc := opMAalloc true.
Definition opAlloc := opMAalloc false.

(** ** opCopy *)

Fixpoint copy_loop (s : Stack) (param : list Z) (skip : nat) (top dest src ty2 : Z) : res Stack :=
  match param with
  | [] => Ok (inr MalformedParameters)
  | c :: rest =>
      match skip with
      | S skip => copy_loop s rest skip top dest src ty2
      | O =>
          if decide (c ∈ [ch "B"; ch "W"; ch "D"; ch "Q"]) then
            copy_loop s rest 0 top dest src (if decide (top = 2) then c else ty2)
          else if decide (c = ch "H") then
            copy_loop s rest 0 top dest src (if decide (top = 2) then ch "Q" else ty2)
          else if starts_operand c then
            ty ← slice_get [type_addr; type_addr; ty2] top;
            '(num, tl) ⇐ getNum s (c :: rest) ty;
            if decide (top = 0) then copy_loop s rest (Z.to_nat tl) (top + 1) (u64 num) src ty2
            else if decide (top = 1) then copy_loop s rest (Z.to_nat tl) (top + 1) dest (u64 num) ty2
            else sb ⇐ toBytesLen s src num; saveBytes s dest sb
          else copy_loop s rest 0 top dest src ty2
      end
  end.

Definition opCopy (c : Contract) (pc : Z) (s : Stack) : res Stack :=
  param ← GetBytes c pc;
  copy_loop s param 0 0 0 0 (ch "D").

(** ** Operands in parameter lists *)

Lemma print_operand_starts_plain o : operand_ok o -> op_neg o = false ->
  exists c l, print_operand o = c :: l /\ starts_operand c = true.
Proof.
  intros (_ & [Hne Hds] & _) Hn. unfold print_operand. rewrite Hn. cbn [app].
  destruct (op_global o); [eexists _, _; split; [reflexivity|done]|].
  destruct (op_ind o); [|eexists _, _; split; [reflexivity|done]].
  destruct (op_hex o) eqn:Hx; [eexists _, _; split; [reflexivity|done]|].
  destruct (op_digits o) as [|d ds]; [done|]. apply Forall_cons in Hds as [Hd _].
  eexists _, _; split; [reflexivity|]. unfold starts_operand, radix in *.
  by destruct (digit_char_digit d ltac:(lia)) as [-> _].
Qed.

Lemma if_loop_skip s l : forall rest scratch top sign,
  if_loop s (l ++ rest) (length l) scratch top sign = if_loop s rest 0 scratch top sign.
Proof. induction l; intros; [done|]. apply IHl. Qed.

Lemma if_loop_operand s o ty rest scratch top sign : operand_ok o -> op_neg o = false ->
  slice_get [ch "B"; ch "D"] top = Ok ty ->
  if_loop s (print_operand o ++ rest) 0 scratch top sign =
  (v ⇐ operand_value s ty o; scratch ← slice_set scratch top (i32 (i64 (v * sign))); if_loop s rest 0 scratch (top + 1) 1).
Proof.
  intros Ho Hn Hty. destruct (print_operand_starts_plain o Ho Hn) as (c & l & Ep & Hc).
  pose proof (getNum_print s ty o rest Ho) as Hg. rewrite Ep in *. cbn [app if_loop] in *.
  rewrite Hc, Hty. cbn [mbind outcome_bind]. rewrite Hg.
  destruct (operand_value _ _ _) as [[v|]| |]; [|done..]. cbn [res_bind mbind outcome_bind].
  replace (Z.to_nat (len (c :: l) - 1)) with (length l) by (cbn [length]; lia).
  destruct (slice_set _ _ _); [|done..]. cbn [mbind outcome_bind]. apply if_loop_skip.
Qed.

Lemma alloc_loop_skip glob s l : forall rest top retspace ty1,
  alloc_loop glob s (l ++ rest) (length l) top retspace ty1 = alloc_loop glob s rest 0 top retspace ty1.
Proof. induction l; intros; [done|]. apply IHl. Qed.

Lemma starts_operand_plain c : starts_operand c = true -> c ∉ [ch "B"; ch "W"; ch "D"; ch "Q"] /\ c <> ch "H".
Proof.
  intros H. split; [|by intros ->]. intros Hin. rewrite !elem_of_cons, elem_of_nil in Hin. naive_solver.
Qed.

(** The two operands of an allocation. *)
Lemma alloc_loop_text glob s dest size : operand_ok dest -> op_neg dest = false -> operand_ok size -> op_neg size = false ->
  alloc_loop glob s (print_operand dest ++ print_operand size) 0 0 0 (ch "D") =
  (p ⇐ operand_value s type_addr dest; num ⇐ operand_value s (ch "D") size;
   if decide (total_memory s num >= 0x40000000) then Ok (inr MemoryLimit)
   else '(s, q, _) ← (if glob then malloc s num else stack_alloc s num);
        if decide (u64 p <> 0) then saveInt64 s (u64 p) (i64 q) else Ok (inl s)).
Proof.
  intros Hd Hdn Hs Hsn. destruct (print_operand_starts_plain dest Hd Hdn) as (c & l & Ep & Hc).
  destruct (print_operand_starts_plain size Hs Hsn) as (c' & l' & Ep' & Hc').
  pose proof (getNum_print s type_addr dest (print_operand size) Hd) as Hg.
  pose proof (getNum_print s (ch "D") size [] Hs) as Hg'. rewrite app_nil_r in Hg'.
  rewrite Ep in *. cbn [app alloc_loop] in *.
  destruct (starts_operand_plain c Hc) as [Hb Hh]. rewrite !decide_False, Hc by done.
  change (slice_get [type_addr; ch "D"] 0) with (Ok type_addr). cbn [mbind outcome_bind]. rewrite Hg.
  destruct (operand_value s type_addr dest) as [[p|]| |]; [|done..]. cbn [res_bind mbind outcome_bind].
  rewrite (decide_True (P := 0 = 0)) by done.
  replace (Z.to_nat (len (c :: l) - 1)) with (length l) by (cbn [length]; lia). rewrite alloc_loop_skip.
  rewrite Ep' in *. cbn [alloc_loop]. destruct (starts_operand_plain c' Hc') as [Hb' Hh'].
  rewrite !(decide_False (P := c' ∈ _)), !(decide_False (P := c' = _)), Hc' by done.
  change (slice_get [type_addr; ch "D"] (0 + 1)) with (Ok (ch "D")). cbn [mbind outcome_bind]. rewrite Hg'.
  destruct (operand_value s (ch "D") size) as [[num|]| |]; [|done..]. cbn [res_bind mbind outcome_bind].
  by rewrite (decide_False (P := 0 + 1 = 0)) by lia.
Qed.

(** ** The size of the memory *)

Definition mem_size (s : Stack) : nat := sum_list_with (fun kf => length (f_space kf.2)) (map_to_list (s_data s)).

Lemma total_memory_ok s num : total_memory s num = u64 (num + Z.of_nat (mem_size s)).
Proof.
  unfold total_memory, mem_size. rewrite map_fold_foldr.
  induction (map_to_list (s_data s)) as [|[k f] l IH]; cbn [foldr sum_list_with uncurry snd].
  - by rewrite Z.add_0_r.
  - rewrite IH, uwrap_add_l by lia. f_equal. lia.
Qed.

Lemma mem_size_insert s t f sp : s_data s !! t = Some f ->
  (mem_size (put_space s t f sp) + length (f_space f) = mem_size s + length sp)%nat.
Proof.
  intros Hf. unfold mem_size, put_space, set_data. cbn [s_data].
  assert (forall g, sum_list_with (fun kf => length (f_space kf.2)) (map_to_list (<[t := g]> (s_data s))) =
    length (f_space g) + sum_list_with (fun kf => length (f_space kf.2)) (map_to_list (delete t (s_data s))))%nat as E.
  { intros g. rewrite <- insert_delete_eq, (map_to_list_insert (delete t (s_data s)) t g) by apply lookup_delete_eq. done. }
  pose proof (E f) as Ef. rewrite insert_id in Ef by done. rewrite E, Ef. cbn [set_space f_space]. lia.
Qed.

Definition memory_limit : Z := 2 ^ 30 + 64.

Definition within_limit (s : Stack) : Prop := memory_ok s /\ Z.of_nat (mem_size s) < memory_limit.

Lemma grow_within s t num : within_limit s -> total_memory s num < 0x40000000 -> sint_range 64 num ->
  match grow s t num with Ok (s', p, m) => within_limit s' | _ => True end.
Proof.
  intros [Hm Hl] Ht Hn. rewrite total_memory_ok in Ht. unfold memory_limit, sint_range in *.
  assert (num + Z.of_nat (mem_size s) < 2 ^ 30) as Hsum.
  { destruct (decide (0 <= num + Z.of_nat (mem_size s))); [|lia].
    rewrite uwrap_id in Ht by (unfold uint_range; lia). lia. }
  unfold grow, frame_at. destruct (s_data s !! t) as [f|] eqn:Hf; [|done]. cbn [mbind outcome_bind].
  case_decide; [by split|]. rewrite swrap_id by (unfold sint_range; lia).
  unfold make_bytes. case_decide as Hpos; [|done]. cbn [mbind outcome_bind]. split.
  - apply put_space_memory_ok; [done|]. apply Forall_app_2; [by apply (Hm t)|].
    apply Forall_replicate. unfold uint_range. lia.
  - pose proof (mem_size_insert s t f (f_space f ++ replicate (Z.to_nat (Z.ldiff (num + 63) 63)) 0) Hf) as E.
    fold (put_space s t f (f_space f ++ replicate (Z.to_nat (Z.ldiff (num + 63) 63)) 0)).
    rewrite length_app, length_replicate in E.
    assert (Z.ldiff (num + 63) 63 <= num + 63) as Hle.
    { change 63 with (Z.ones 6) at 2. rewrite Z.ldiff_ones_r, Z.shiftl_mul_pow2, Z.shiftr_div_pow2 by lia.
      pose proof (Z.mul_div_le (num + 63) (2 ^ 6) ltac:(lia)). lia. }
    unfold memory_limit. lia.
Qed.

Lemma saveInt64_within s p v : within_limit s -> sint_range 64 v ->
  match saveInt64 s p v with Ok (inl s') => within_limit s' | _ => True end.
Proof.
  intros [Hm Hl] Hv. change saveInt64 with (save_word W64). rewrite save_word_ok by done.
  destruct (s_data s !! ptr_area p) as [f|] eqn:Hf; [|done]. case_decide as Hlen; [|done].
  pose proof (offset_nonneg p). split.
  - apply put_space_memory_ok; [done|]. apply write_at_bytes; [by eapply Hm|apply le_bytes_bytes].
  - pose proof (mem_size_insert s (ptr_area p) f (write_at (f_space f) (ptr_offset p) (le_bytes (width_bytes W64) v)) Hf) as E.
    rewrite write_at_length in E by (rewrite ?le_bytes_length; done). lia.
Qed.

Lemma alloc_loop_within glob s param : within_limit s -> current_ok s -> forall skip top retspace ty1,
  match alloc_loop glob s param skip top retspace ty1 with Ok (inl s') => within_limit s' | _ => True end.
Proof.
  intros Hs Hc. induction param as [|c rest IH]; intros skip top retspace ty1; [done|].
  cbn [alloc_loop]. destruct skip as [|skip]; [|apply IH]. do 2 (case_decide; [apply IH|]).
  destruct (starts_operand c); [|apply IH].
  destruct (slice_get [type_addr; ty1] top) as [ty| |]; [|done..]. cbn [mbind outcome_bind].
  pose proof (getNum_loop_settles s ty (c :: rest) 0 num_init (proj1 Hs) Hc) as Hg. fold (getNum s (c :: rest) ty) in Hg.
  destruct (getNum s (c :: rest) ty) as [[[num tl]|]| |]; [|done..]. cbn [res_bind mbind outcome_bind].
  assert (sint_range 64 num) as Hn.
  { destruct Hg as (Hr & _); [|done]. split_and!; [done|by left|done]. }
  case_decide; [apply IH|]. case_decide; [done|].
  assert (match (if glob then malloc s num else stack_alloc s num) with Ok (s', p, m) => within_limit s' | _ => True end) as Hgr.
  { destruct glob; [|apply grow_within; [done|lia|done]]. unfold malloc.
    destruct (frame_at s (s_libTop s)) as [l| |]; [|done..]. cbn [mbind outcome_bind].
    apply grow_within; [done|lia|done]. }
  destruct (if glob then malloc s num else stack_alloc s num) as [[[s' p] m]| |]; [|done..].
  cbn [mbind outcome_bind]. case_decide; [|done]. apply saveInt64_within; [done|]. apply swrap_range. lia.
Qed.

(** ** Theorems *)

(** [opIf] on a condition and a signed offset goes to the next instruction when
    the condition is zero and by the offset otherwise, and refuses a target outside
    of the code of the current library. *)
Theorem if_branches (c : Contract) (pc : Z) (s : Stack) (cond off : operand) (neg : bool) (f : frame)
    (Hc : operand_ok cond) (Hcn : op_neg cond = false) (Ho : operand_ok off) (Hon : op_neg off = false)
    (Hp : param_at c pc (print_operand cond ++ (if neg then [ch "n"] else []) ++ print_operand off))
    (Hf : s_data s !! s_callTop s = Some f) :
  opIf c pc s =
  (x ⇐ operand_value s (ch "B") cond; y ⇐ operand_value s (ch "D") off;
   let target := if decide (i32 (i64 x) = 0) then i64 (pc + 1) else i64 (pc + i32 (i64 (y * sign_of neg))) in
   let l := lib_at c (f_inlib f) in
   if decide (l_address l <= target < l_end l) then Ok (inl target) else Ok (inr OutOfRangeJump)).
Proof.
  unfold opIf. rewrite (GetBytes_ok c pc _ Hp). cbn [mbind outcome_bind].
  rewrite (if_loop_operand s cond (ch "B")) by done.
  destruct (operand_value s (ch "B") cond) as [[x|]| |]; [|done..]. cbn [res_bind mbind outcome_bind].
  change (slice_set [0; 0] 0 (i32 (i64 (x * 1)))) with (Ok [i32 (i64 (x * 1)); 0]). cbn [mbind outcome_bind].
  rewrite Z.mul_1_r.
  assert (forall sc, if_loop s ((if neg then [ch "n"] else []) ++ print_operand off) 0 sc (0 + 1) 1 =
    if_loop s (print_operand off ++ []) 0 sc (0 + 1) (sign_of neg)) as E.
  { intros sc. rewrite app_nil_r. by destruct neg. }
  rewrite E, (if_loop_operand s off (ch "D")) by done.
  destruct (operand_value s (ch "D") off) as [[y|]| |]; [|done..]. cbn [res_bind mbind outcome_bind].
  change (slice_set [i32 (i64 x); 0] (0 + 1) (i32 (i64 (y * sign_of neg)))) with (Ok [i32 (i64 x); i32 (i64 (y * sign_of neg))]).
  cbn [mbind outcome_bind if_loop res_bind].
  change (slice_get [i32 (i64 x); i32 (i64 (y * sign_of neg))] 0) with (Ok (i32 (i64 x))).
  change (slice_get [i32 (i64 x); i32 (i64 (y * sign_of neg))] 1) with (Ok (i32 (i64 (y * sign_of neg)))).
  cbn [mbind outcome_bind]. unfold frame_at. rewrite Hf. cbn [mbind outcome_bind].
  destruct (decide (i32 (i64 x) = 0)); repeat case_decide; (done || lia).
Qed.

Lemma if_branches_witness : opIf (code_only {[replicate 20 0 := MkLib 0 3 0 0]}
    [MkInst 0x49 []; MkInst 0x49 (print_operand (MkOperand false false 0 false [1] None None) ++ [ch "n"] ++
                                  print_operand (MkOperand false false 0 false [1] None None))]) 1 Newstack = Ok (inl 0).
Proof.
  rewrite (if_branches _ 1 Newstack (MkOperand false false 0 false [1] None None) (MkOperand false false 0 false [1] None None)
    true (set_space (replicate 4 0) newFrame)); [reflexivity| |reflexivity| |reflexivity| |reflexivity].
  - split_and!; [simpl; lia|split; [done|by apply Forall_singleton]|done|done].
  - split_and!; [simpl; lia|split; [done|by apply Forall_singleton]|done|done].
  - by eexists.
Defined.

(** On any parameters at all, an allocation leaves the memory of the virtual
    machine, over all frames, below the limit of 1 GiB rounded up to a block. *)
Theorem memory_stays_within_limit (glob : bool) (c : Contract) (pc : Z) (s : Stack)
    (Hs : within_limit s) (Hc : current_ok s) :
  match opMAalloc glob c pc s with Ok (inl s') => within_limit s' | _ => True end.
Proof.
  unfold opMAalloc. destruct (GetBytes c pc) as [param| |]; [|done..]. cbn [mbind outcome_bind].
  by apply alloc_loop_within.
Qed.

Lemma memory_limit_witness : exists s', opMAalloc true (code_only ∅ [MkInst 0x4d
    (print_operand (MkOperand false false 0 false [0] None None) ++ print_operand (MkOperand false false 0 false [9] None None))])
    0 Newstack = Ok (inl s') /\ within_limit s'.
Proof.
  pose proof (memory_stays_within_limit true (code_only ∅ [MkInst 0x4d
    (print_operand (MkOperand false false 0 false [0] None None) ++ print_operand (MkOperand false false 0 false [9] None None))])
    0 Newstack) as T.
  destruct (opMAalloc true _ 0 Newstack) as [[s'|]| |] eqn:E; [|vm_compute in E; discriminate..].
  exists s'. split; [done|]. apply T; [|by eexists]. split; [|vm_compute; reflexivity].
  intros k f. cbn [s_data Newstack]. rewrite lookup_singleton_Some. intros [_ <-]. by repeat constructor.
Defined.

(** A negative size is not refused: when it is -64 or less, and the memory in use
    makes up for it in the unsigned sum, the allocation panics. *)
Theorem negative_alloc_panics (c : Contract) (pc : Z) (s : Stack) (dest size : operand) (p num : Z) (f : frame)
    (Hd : operand_ok dest) (Hdn : op_neg dest = false) (Hsz : operand_ok size) (Hsn : op_neg size = false)
    (Hp : param_at c pc (print_operand dest ++ print_operand size)) (Hf : s_data s !! s_callTop s = Some f)
    (Hdv : operand_value s type_addr dest = Ok (inl p)) (Hsv : operand_value s (ch "D") size = Ok (inl num))
    (Hnum : sint_range 32 num /\ num <= -64) (Huse : 0 <= num + Z.of_nat (mem_size s) < 2 ^ 30) :
  opAlloc c pc s = Panic.
Proof.
  unfold opAlloc, opMAalloc. rewrite (GetBytes_ok c pc _ Hp). cbn [mbind outcome_bind].
  rewrite alloc_loop_text, Hdv, Hsv by done. cbn [res_bind mbind outcome_bind].
  rewrite total_memory_ok, uwrap_id by (unfold uint_range; lia). rewrite decide_False by lia.
  unfold stack_alloc, grow, frame_at. rewrite Hf. cbn [mbind outcome_bind]. destruct Hnum as [Hr Hn]. unfold sint_range in Hr.
  rewrite decide_False by lia. rewrite swrap_id by (unfold sint_range; lia). unfold make_bytes.
  rewrite decide_False; [done|]. apply Z.lt_nge.
  change 63 with (Z.ones 6) at 2. rewrite Z.ldiff_ones_r, Z.shiftl_mul_pow2, Z.shiftr_div_pow2 by lia.
  pose proof (Z.div_lt_upper_bound (num + 63) (2 ^ 6) 0 ltac:(lia) ltac:(lia)). lia.
Qed.

Lemma negative_alloc_witness : opAlloc (code_only ∅ [MkInst 0x4c
    (print_operand (MkOperand false false 0 false [0] None None) ++ print_operand (MkOperand false false 1 false [0] None None))])
    0 (MkStack 0 0 {[0 := set_space ([0xC0; 0xFF; 0xFF; 0xFF] ++ replicate 64 0) newFrame]}) = Panic.
Proof.
  apply (negative_alloc_panics _ 0 _ (MkOperand false false 0 false [0] None None) (MkOperand false false 1 false [0] None None)
    0 (-64) (set_space ([0xC0; 0xFF; 0xFF; 0xFF] ++ replicate 64 0) newFrame)); try reflexivity.
  - split_and!; [simpl; lia|split; [done|by apply Forall_singleton]|done|done].
  - split_and!; [simpl; lia|split; [done|by apply Forall_singleton]|done|done].
  - by eexists.
  - split; [split; vm_compute; congruence|lia].
  - split; vm_compute; congruence.
Defined.
