(* ===== verification/OvmCall.v ===== *)
(** * Function calls of the virtual machine

    Models [opCall] of [omega/ovm/instructions.go]: a call names a library (or the
    code it is in), an entry and parameters, which become the first bytes of the
    space of the new frame. *)
From stdpp Require Import gmap list.
From Stdlib Require Import ZArith Lia Ascii.
From S2P Require Import Prelude Difficulty OvmCode OvmStack OvmNum OvmBytes OvmControl.

Open Scope Z_scope.

Definition allZero (b : list Z) : bool := forallb (fun x => bool_decide (x = 0)) b.

(** [copy(a[:], b)] on a fresh [20]byte. *)
Definition to_address (b : list Z) : list Z := copy_at (replicate 20 0) 0 b.

(** [binary.LittleEndian.PutUint32(space[i:], v)] *)
Definition put_uint32 (sp : list Z) (i v : Z) : outcome (list Z) := save_loop 4 sp i (u32 v) 0.

Record call_state := MkCall {
  c_top : Z;
  c_libAddr : list Z;
  c_offset : Z;
  c_space : list Z;
  c_inlen : Z;
  (** [paramTypes[2]], the only entry that changes. *)
  c_type : Z;
  c_isself : bool;
  c_sign : Z;
}.

Section Call.
Context (spare : Stack -> Z -> list Z).

(** One operand: its kind is [paramTypes[top]].  The error of a library address is
    dropped: it reads as no bytes. *)
Definition call_operand (c : Contract) (s : Stack) (param : list Z) (st : call_state) : res (call_state * Z) :=
  ty ← slice_get [ch "L"; ch "D"; c_type st; ch "Q"] (c_top st);
  '(bnum, num, tl) ⇐
    (if decide (ty = ch "L") then '(b, tl, _) ← getBytes spare s param (ch "r") 0; Ok (inl (b, 0, tl))
     else '(num, tl) ⇐ getNum s param ty; Ok (inl ([], num, tl)));
  if decide (c_top st = 0) then
    let libAddr := to_address bnum in
    match ct_libs c !! libAddr with
    | None => Ok (inr LibNotLoaded)
    | Some _ =>
        f ← frame_at s (s_callTop s);
        let isself := allZero libAddr || bool_decide (bytes_compare libAddr (f_inlib f) = Eq) in
        Ok (inl (MkCall 1 libAddr (c_offset st) (c_space st) (c_inlen st) (ch "Q") isself (c_sign st), tl))
    end
  else if decide (c_top st = 1) then
    let offset := i64 (num * c_sign st) in
    let sp := if c_isself st then c_space st else c_space st ++ le_bytes 4 (u32 offset) in
    let inlen := if c_isself st then c_inlen st else c_inlen st + 4 in
    Ok (inl (MkCall 2 (c_libAddr st) offset sp inlen (ch "Q") (c_isself st) 1, tl))
  else
    Ok (inl (MkCall (c_top st) (c_libAddr st) (c_offset st) (c_space st ++ le_bytes 8 (u64 num)) (c_inlen st + 8)
               (ch "Q") (c_isself st) (c_sign st), tl)).

Definition set_type (st : call_state) (ty : Z) : call_state :=
  if decide (c_top st = 2) then
    MkCall (c_top st) (c_libAddr st) (c_offset st) (c_space st) (c_inlen st) ty (c_isself st) (c_sign st)
  else st.

Fixpoint call_loop (c : Contract) (s : Stack) (param : list Z) (skip : nat) (st : call_state) : res call_state :=
  match param with
  | [] => Ok (inl st)
  | x :: rest =>
      match skip with
      | S skip => call_loop c s rest skip st
      | O =>
          if decide (x = ch "n") then
            call_loop c s rest 0
              (MkCall (c_top st) (c_libAddr st) (c_offset st) (c_space st) (c_inlen st) (c_type st) (c_isself st) (-1))
          else if decide (x = ch "@") then call_loop c s rest 0 (set_type st type_addr)
          else if decide (x ∈ [ch "B"; ch "W"; ch "D"; ch "Q"]) then call_loop c s rest 0 (set_type st x)
          else if decide (x = ch "H") then call_loop c s rest 0 (set_type st (ch "Q"))
          else if starts_operand x then
            '(st, tl) ⇐ call_operand c s (x :: rest) st;
            call_loop c s rest (Z.to_nat tl) st
          else call_loop c s rest 0 st
      end
  end.

(** The new program counter and stack. *)
Definition opCall (c : Contract) (pc : Z) (s : Stack) : res (Z * Stack) :=
  param ← GetBytes c pc;
  sp0 ← put_uint32 (replicate 8 0) 4 (i32 (s_callTop s + 1));
  st ⇐ call_loop c s param 0 (MkCall 0 (replicate 20 0) 0 sp0 8 (ch "Q") true 1);
  sp ← put_uint32 (c_space st) 0 (c_inlen st);
  if decide (c_top st >= 2) then
    top ← frame_at s (s_callTop s);
    let pure := Z.lor (f_pure top) (l_pure (lib_at c (c_libAddr st))) in
    let libAddr := if c_isself st then f_inlib top else c_libAddr st in
    sp ← (if c_isself st then Ok sp else put_uint32 sp 4 (l_base (lib_at c libAddr)));
    let l := lib_at c libAddr in
    let f := MkFrame sp libAddr (l_base l) pc pure in
    let target := if c_isself st then i32 (i64 (pc + c_offset st)) else l_address l in
    if decide (c_isself st = true /\ (target < l_address l \/ target >= l_end l)) then Ok (inr OutOfRangeCall)
    else
      let callTop := i32 (s_callTop s + 1) in
      if decide (callTop > 1024) then Ok (inr CallDepth)
      else Ok (inl (target, MkStack callTop (s_libTop s) (<[callTop := f]> (s_data s))))
  else Ok (inr MalformedCall).
End Call.

(** ** Calls of a function of the same code *)

Lemma call_loop_skip spare c s l : forall rest st,
  call_loop spare c s (l ++ rest) (length l) st = call_loop spare c s rest 0 st.
Proof. induction l; intros; [done|]. apply IHl. Qed.

Lemma starts_operand_call x : starts_operand x = true ->
  x <> ch "n" /\ x <> ch "@" /\ x ∉ [ch "B"; ch "W"; ch "D"; ch "Q"] /\ x <> ch "H".
Proof.
  intros H. destruct (starts_operand_plain x H) as [? ?]. split_and!; [by intros ->|by intros ->|done|done].
Qed.

(** A number operand: the entry, or a parameter. *)
Lemma call_loop_operand spare c s o rest st ty : operand_ok o -> op_neg o = false ->
  slice_get [ch "L"; ch "D"; c_type st; ch "Q"] (c_top st) = Ok ty -> ty <> ch "L" -> c_top st <> 0 ->
  call_loop spare c s (print_operand o ++ rest) 0 st =
  (v ⇐ operand_value s ty o;
   call_loop spare c s rest 0
     (if decide (c_top st = 1) then
        MkCall 2 (c_libAddr st) (i64 (v * c_sign st))
          (if c_isself st then c_space st else c_space st ++ le_bytes 4 (u32 (i64 (v * c_sign st))))
          (if c_isself st then c_inlen st else c_inlen st + 4) (ch "Q") (c_isself st) 1
      else MkCall (c_top st) (c_libAddr st) (c_offset st) (c_space st ++ le_bytes 8 (u64 v)) (c_inlen st + 8)
             (ch "Q") (c_isself st) (c_sign st))).
Proof.
  intros Ho Hn Hty Hl Ht. destruct (print_operand_starts_plain o Ho Hn) as (x & l & Ep & Hx).
  pose proof (getNum_print s ty o rest Ho) as Hg. rewrite Ep in *. cbn [app call_loop] in *.
  destruct (starts_operand_call x Hx) as (H1 & H2 & H3 & H4).
  rewrite !(decide_False (P := x = _)), (decide_False (P := x ∈ _)), Hx by done.
  unfold call_operand. rewrite Hty. cbn [mbind outcome_bind]. rewrite (decide_False (P := ty = ch "L")), Hg by done.
  destruct (operand_value s ty o) as [[v|]| |]; [|done..]. cbn [res_bind mbind outcome_bind].
  rewrite (decide_False (P := c_top st = 0)) by done.
  replace (Z.to_nat (len (x :: l) - 1)) with (length l) by (cbn [length]; lia).
  destruct (decide (c_top st = 1)); cbn [res_bind mbind outcome_bind];
    replace (Z.to_nat (len (x :: l) - 1)) with (length l) by (cbn [length]; lia); apply call_loop_skip.
Qed.

(** The values of parameters, in order. *)
Fixpoint param_values (s : Stack) (ps : list operand) : res (list Z) :=
  match ps with
  | [] => Ok (inl [])
  | o :: ps => v ⇐ operand_value s (ch "Q") o; vs ⇐ param_values s ps; Ok (inl (v :: vs))
  end.

Definition params_bytes (vs : list Z) : list Z := concat (map (fun v => le_bytes 8 (u64 v)) vs).

Lemma call_loop_params spare c s ps : Forall (fun o => operand_ok o /\ op_neg o = false) ps ->
  forall la off sp inlen self sg,
  call_loop spare c s (concat (map print_operand ps)) 0 (MkCall 2 la off sp inlen (ch "Q") self sg) =
  (vs ⇐ param_values s ps;
   Ok (inl (MkCall 2 la off (sp ++ params_bytes vs) (inlen + 8 * len vs) (ch "Q") self sg))).
Proof.
  induction 1 as [|o ps [Ho Hn] _ IH]; intros la off sp inlen self sg.
  { cbn. rewrite app_nil_r. do 3 f_equal. lia. }
  cbn [map concat param_values]. rewrite (call_loop_operand spare c s o _ _ (ch "Q")) by done.
  destruct (operand_value s (ch "Q") o) as [[v|]| |]; [|done..]. cbn [res_bind mbind outcome_bind].
  rewrite (decide_False (P := c_top _ = 1)) by done.
  cbn [c_top c_libAddr c_offset c_space c_inlen c_isself c_sign]. rewrite IH.
  destruct (param_values s ps) as [[vs|]| |]; [|done..]. cbn [res_bind mbind outcome_bind].
  unfold params_bytes. cbn [map concat length]. rewrite <- app_assoc. do 3 f_equal. lia.
Qed.

(** The address [0] of the running code itself. *)
Lemma call_loop_self spare c s f rest sp : ct_libs c !! replicate 20 0 <> None -> s_data s !! s_callTop s = Some f ->
  call_loop spare c s ([ch "0"; ch_comma] ++ rest) 0 (MkCall 0 (replicate 20 0) 0 sp 8 (ch "Q") true 1) =
  call_loop spare c s rest 0 (MkCall 1 (replicate 20 0) 0 sp 8 (ch "Q") true 1).
Proof.
  intros Hl Hf. cbn [app call_loop]. change (starts_operand (ch "0")) with true.
  destruct (starts_operand_call (ch "0") eq_refl) as (H1 & H2 & H3 & H4).
  rewrite !(decide_False (P := ch "0" = _)), (decide_False (P := ch "0" ∈ _)) by done.
  unfold call_operand. cbn [c_type c_top]. change (slice_get [ch "L"; ch "D"; ch "Q"; ch "Q"] 0) with (Ok (ch "L")).
  cbn [mbind outcome_bind]. rewrite (decide_True (P := ch "L" = ch "L")) by done.
  change (getBytes spare s (ch "0" :: ch_comma :: rest) (ch "r") 0) with (Ok (@nil Z, 1, @None script_err)).
  cbn [mbind outcome_bind res_bind]. rewrite (decide_True (P := 0 = 0)) by done.
  change (to_address []) with (replicate 20 0). destruct (ct_libs c !! replicate 20 0); [|done].
  unfold frame_at. rewrite Hf. cbn [mbind outcome_bind res_bind]. done.
Qed.

(** ** Theorems *)

(** The first eight bytes of a frame: the length of the input and the frame's own number. *)
Definition call_header (inlen top : Z) : list Z := le_bytes 4 (u32 inlen) ++ le_bytes 4 (u32 top).

Lemma header_written top rest inlen :
  (sp0 ← put_uint32 (replicate 8 0) 4 top; put_uint32 (sp0 ++ rest) 0 inlen) = Ok (call_header inlen top ++ rest).
Proof.
  unfold put_uint32. rewrite save_loop_write by (rewrite ?length_replicate; lia).
  cbn [mbind outcome_bind]. change (write_at (replicate 8 0) 4 (le_bytes 4 (u32 top))) with (replicate 4 0 ++ le_bytes 4 (u32 top)).
  rewrite save_loop_write by (rewrite ?length_app, ?length_replicate; lia). unfold write_at.
  rewrite le_bytes_length. change (take (Z.to_nat 0) _) with (@nil Z).
  change (Z.to_nat 0 + 4)%nat with 4%nat. rewrite <- app_assoc.
  change (replicate 4 0 ++ le_bytes 4 (u32 top) ++ rest) with ([0; 0; 0; 0] ++ (le_bytes 4 (u32 top) ++ rest)).
  unfold call_header. by rewrite <- !app_assoc.
Qed.

(** A call of a function of the same code evaluates its parameters in order and
    goes by the signed offset to a frame of its own, whose space holds the length of
    the input, the number of the frame and the parameters; the new frame remembers
    the caller's position, stays in its library and keeps its restrictions.  A target
    outside of the library and a depth over 1024 are refused. *)
Theorem call_passes_parameters (spare : Stack -> Z -> list Z) (c : Contract) (pc : Z) (s : Stack) (f : frame)
    (off : operand) (neg : bool) (ps : list operand)
    (Ho : operand_ok off) (Hon : op_neg off = false) (Hps : Forall (fun o => operand_ok o /\ op_neg o = false) ps)
    (Hp : param_at c pc ([ch "0"; ch_comma] ++ (if neg then [ch "n"] else []) ++ print_operand off ++ concat (map print_operand ps)))
    (Hf : s_data s !! s_callTop s = Some f) (Hl : ct_libs c !! replicate 20 0 <> None) :
  opCall spare c pc s =
  (y ⇐ operand_value s (ch "D") off; vs ⇐ param_values s ps;
   let l := lib_at c (f_inlib f) in
   let target := i32 (i64 (pc + i64 (y * sign_of neg))) in
   let top := i32 (s_callTop s + 1) in
   let g := MkFrame (call_header (8 + 8 * len vs) top ++ params_bytes vs) (f_inlib f) (l_base l) pc
              (Z.lor (f_pure f) (l_pure (lib_at c (replicate 20 0)))) in
   if decide (target < l_address l \/ target >= l_end l) then Ok (inr OutOfRangeCall)
   else if decide (top > 1024) then Ok (inr CallDepth)
   else Ok (inl (target, MkStack top (s_libTop s) (<[top := g]> (s_data s))))).
Proof.
  unfold opCall. rewrite (GetBytes_ok c pc _ Hp). cbn [mbind outcome_bind].
  set (top := i32 (s_callTop s + 1)).
  destruct (put_uint32 (replicate 8 0) 4 top) as [sp0| |] eqn:E0; cbn [mbind outcome_bind].
  2,3: pose proof (header_written top [] 0) as H; rewrite E0 in H; done.
  rewrite (call_loop_self spare c s f) by done.
  assert (forall sp, call_loop spare c s ((if neg then [ch "n"] else []) ++ print_operand off ++ concat (map print_operand ps)) 0
      (MkCall 1 (replicate 20 0) 0 sp 8 (ch "Q") true 1) =
    call_loop spare c s (print_operand off ++ concat (map print_operand ps)) 0
      (MkCall 1 (replicate 20 0) 0 sp 8 (ch "Q") true (sign_of neg))) as ->; [by destruct neg|].
  rewrite (call_loop_operand spare c s off _ _ (ch "D")) by done.
  destruct (operand_value s (ch "D") off) as [[y|]| |]; [|done..]. cbn [res_bind mbind outcome_bind].
  rewrite (decide_True (P := c_top _ = 1)) by done. cbn [c_top c_libAddr c_offset c_space c_inlen c_isself c_sign].
  rewrite call_loop_params by done. destruct (param_values s ps) as [[vs|]| |]; [|done..].
  cbn [res_bind mbind outcome_bind c_top c_libAddr c_offset c_space c_inlen c_isself c_sign].
  pose proof (header_written top (params_bytes vs) (8 + 8 * len vs)) as H. rewrite E0 in H. cbn [mbind outcome_bind] in H.
  rewrite H. cbn [mbind outcome_bind]. rewrite decide_True by lia. unfold frame_at. rewrite Hf.
  cbn [mbind outcome_bind]. cbn zeta.
  destruct (decide (_ < _ \/ _ >= _)) as [Hr|Hr]; [rewrite decide_True by (split; [done|exact Hr]); done|].
  rewrite decide_False by (intros [_ ?]; by apply Hr). done.
Qed.

Lemma call_passes_witness : exists g,
  opCall (fun _ _ => []) (code_only {[replicate 20 0 := MkLib 0 3 0 0]}
    [MkInst 0x4c ([ch "0"; ch_comma] ++ [] ++ print_operand (MkOperand false false 0 false [2] None None) ++
       concat (map print_operand [MkOperand false false 0 false [7] None None]))]) 0 Newstack =
  Ok (inl (2, MkStack 1 0 (<[1 := g]> (s_data Newstack)))) /\ f_space g = [16;0;0;0; 1;0;0;0; 7;0;0;0;0;0;0;0].
Proof.
  assert (operand_ok (MkOperand false false 0 false [2] None None)) as H2
    by (split_and!; [simpl; lia|split; [done|by apply Forall_singleton]|done|done]).
  assert (operand_ok (MkOperand false false 0 false [7] None None)) as H7
    by (split_and!; [simpl; lia|split; [done|by apply Forall_singleton]|done|done]).
  eexists. rewrite (call_passes_parameters _ _ 0 Newstack (set_space (replicate 4 0) newFrame)
    (MkOperand false false 0 false [2] None None) false [MkOperand false false 0 false [7] None None]);
    [split; [vm_compute; reflexivity|reflexivity]|done|done|by constructor|by eexists|done|].
  vm_compute. discriminate.
Defined.

(** A step into a successful [res_bind]. *)
Lemma res_bind_inv {A B} (m : res A) (k : A -> res B) b :
  res_bind m k = Ok (inl b) -> exists a, m = Ok (inl a) /\ k a = Ok (inl b).
Proof. unfold res_bind. destruct m as [[a|e]| |]; simpl; naive_solver. Qed.

Lemma land_lor_self a b : Z.land a (Z.lor a b) = a.
Proof. apply Z.bits_inj'. intros i _. rewrite Z.land_spec, Z.lor_spec. by destruct (Z.testbit a i), (Z.testbit b i). Qed.

(** What every successful call does, whatever its operands. *)
Lemma opCall_shape spare c pc s t s' : opCall spare c pc s = Ok (inl (t, s')) ->
  exists f g, s_data s !! s_callTop s = Some f /\
    s' = MkStack (i32 (s_callTop s + 1)) (s_libTop s) (<[i32 (s_callTop s + 1) := g]> (s_data s)) /\
    f_pc g = pc /\ Z.land (f_pure f) (f_pure g) = f_pure f /\ i32 (s_callTop s + 1) <= 1024.
Proof.
  unfold opCall. intros H. apply bind_ok_inv in H as (param & _ & H). apply bind_ok_inv in H as (sp0 & _ & H).
  apply res_bind_inv in H as (st & _ & H). apply bind_ok_inv in H as (sp & _ & H).
  case_decide; [|done]. apply bind_ok_inv in H as (f & Hf & H). apply bind_ok_inv in H as (sp' & _ & H).
  cbn zeta in H. case_decide; [done|]. case_decide; [done|]. injection H as <- <-.
  unfold frame_at in Hf. destruct (s_data s !! s_callTop s) as [f'|]; [|done]. injection Hf as ->.
  eexists f, _. split_and!; [done|reflexivity|done| |lia]. apply land_lor_self.
Qed.

(** A call followed by a return is as if nothing had happened: the whole memory
    and the depth are those before the call, and the program counter is again that of
    the call, which the interpreter then steps over. *)
Theorem call_then_return (spare : Stack -> Z -> list Z) (c : Contract) (pc target : Z) (s s' : Stack)
    (Hc : opCall spare c pc s = Ok (inl (target, s'))) (Htop : 0 <= s_callTop s < 2 ^ 31 - 1)
    (Hfree : s_data s !! (s_callTop s + 1) = None) :
  opReturn target s' = Ok (pc, s).
Proof.
  apply opCall_shape in Hc as (f & g & Hf & -> & Hpc & _ & _).
  rewrite (swrap_id 32 (s_callTop s + 1)) by (unfold sint_range; lia).
  unfold opReturn, frame_at. cbn [s_callTop s_libTop s_data]. rewrite decide_False by lia.
  rewrite lookup_insert_eq. cbn [mbind outcome_bind]. rewrite Hpc, swrap_id by (unfold sint_range; lia).
  rewrite delete_insert_id by done. rewrite Z.add_simpl_r. by destruct s.
Qed.

Lemma call_then_return_witness : exists t s',
  opCall (fun _ _ => []) (code_only {[replicate 20 0 := MkLib 0 3 0 0]} [MkInst 0x4c [ch "0"; ch_comma; ch "1"; ch_comma]]) 0 Newstack
    = Ok (inl (t, s')) /\ opReturn t s' = Ok (0, Newstack).
Proof.
  destruct (opCall (fun _ _ => []) (code_only {[replicate 20 0 := MkLib 0 3 0 0]} [MkInst 0x4c [ch "0"; ch_comma; ch "1"; ch_comma]])
    0 Newstack) as [[[t s']|]| |] eqn:E; [|vm_compute in E; discriminate..].
  exists t, s'. split; [done|]. apply (call_then_return _ _ _ _ _ _ E); [simpl; lia|reflexivity].
Defined.
