(* ===== verification/OvmState.v ===== *)
(** * The state of contracts

    Models the caches of [omega/ovm/statedb.go]: each contract has storage and meta
    entries over its two buckets of the database, with counters of the space it uses.

    A byte slice that may be nil is an [option], and a value: that a caller could write
    into the cached buffer that [GetState] returns is not modelled, and no modelled caller
    does (LOAD copies it byte by byte).  The database is always there ([v.DB] is not nil).
    The buckets are finite maps.  The
    records for undoing a block are kept in the database as such, not as JSON text.
    The spendable outputs of a contract are left out. *)
From Stdlib Require Import ZArith Lia Ascii String.
From stdpp Require Import gmap list.
From S2P Require Import Prelude Difficulty OvmStack.

Open Scope Z_scope.


Definition key_usage : list Z := Eval vm_compute in str "usage".
Definition key_quota : list Z := Eval vm_compute in str "quota".
Definition key_suicided : list Z := Eval vm_compute in str "suicided".
Definition key_code : list Z := Eval vm_compute in str "code".
Definition key_creator : list Z := Eval vm_compute in str "creator".
Definition key_mint : list Z := Eval vm_compute in str "mint".

Abbreviation slice := (option (list Z)).
Abbreviation bucket := (gmap (list Z) (list Z)).

(** [len] of a slice that may be nil, and [bytes.Compare] to zero. *)
Definition slen (d : slice) : Z := Z.of_nat (length (default [] d)).
Definition same_bytes (a b : slice) : bool := bool_decide (bytes_compare (default [] a) (default [] b) = Eq).

Record entry := MkEntry { e_olddata : slice; e_data : slice }.

Record stateDB := MkStateDB {
  d_contract : list Z;
  d_data : gmap (list Z) entry;
  d_meta : gmap (list Z) entry;
  d_suicided : bool;
  d_fresh : bool;
  d_transferrable : bool;
}.

Definition NewStateDB (addr : list Z) : stateDB := MkStateDB addr ∅ ∅ false false false.
Definition Suicide (d : stateDB) : stateDB := MkStateDB (d_contract d) ∅ ∅ true (d_fresh d) (d_transferrable d).

Definition set_data_entry (d : stateDB) (k : list Z) (e : entry) : stateDB :=
  MkStateDB (d_contract d) (<[k := e]> (d_data d)) (d_meta d) (d_suicided d) (d_fresh d) (d_transferrable d).
Definition set_meta_entry (d : stateDB) (k : list Z) (e : entry) : stateDB :=
  MkStateDB (d_contract d) (d_data d) (<[k := e]> (d_meta d)) (d_suicided d) (d_fresh d) (d_transferrable d).

(** ** Records for undoing a block, and the database *)

Record Rollback := MkRollback { rb_Key : list Z; rb_Value : slice }.

(** [Data[0]] is for the storage, [Data[1]] for the meta entries. *)
Record PrevInfo := MkPrevInfo { pi_NewContract : bool; pi_Addr : list Z; pi_Data0 : list Rollback; pi_Data1 : list Rollback }.
Record RBTokenTypes := MkRBTokenTypes { rt_ID : Z; rt_Addr : slice }.
Record BlockRollBack := MkBlockRollBack { br_PrevBlock : Z; br_RollBacks : list PrevInfo; br_Tokentypes : list RBTokenTypes }.

(** The buckets ["contract" + addr] and ["storage" + addr] by address, the bucket of
    issued token types, [lastCommitBlock] and the records for undoing blocks. *)
Record database := MkDb {
  db_contract : gmap (list Z) bucket;
  db_storage : gmap (list Z) bucket;
  db_types : gmap Z (list Z);
  db_last : Z;
  db_rollback : gmap Z BlockRollBack;
}.

Definition set_contract (db : database) (m : gmap (list Z) bucket) : database :=
  MkDb m (db_storage db) (db_types db) (db_last db) (db_rollback db).
Definition set_storage (db : database) (m : gmap (list Z) bucket) : database :=
  MkDb (db_contract db) m (db_types db) (db_last db) (db_rollback db).

(** [bucket.Put]: a key may not be empty. *)
Definition bucket_put (b : bucket) (k v : list Z) : option bucket := if decide (k = []) then None else Some (<[k := v]> b).

(** ** Reading and writing a contract's state *)

(** [stateDB.GetMeta] *)
Definition GetMeta (db : database) (d : stateDB) (key : list Z) : slice :=
  if d_suicided d || d_fresh d then None
  else b ← db_contract db !! d_contract d; b !! key.

(** The assignment in place of [SetState] and [setMeta]: [copy], then [append] or a cut. *)
Definition overwrite (old : slice) (v : list Z) : list Z :=
  let buf := copy_at (default (replicate (length v) 0) old) 0 v in
  if decide (length buf < length v)%nat then buf ++ drop (length buf) v
  else if decide (length v < length buf)%nat then take (length v) buf else buf.

Definition setMeta (db : database) (d : stateDB) (key code : list Z) : stateDB :=
  if d_suicided d then d
  else match d_meta d !! key with
       | None => set_meta_entry d key (MkEntry (GetMeta db d key) (Some code))
       | Some e => set_meta_entry d key (MkEntry (e_olddata e) (Some (overwrite (e_data e) code)))
       end.

(** [binary.LittleEndian.Uint32(m)]; panics on less than four bytes. *)
Definition get_uint32 (m : list Z) : outcome Z := h ← slice_sub m 0 4; Ok (le_value h).

Definition setQuota (db : database) (d : stateDB) (q : Z) : stateDB :=
  if d_suicided d then d
  else match d_meta d !! key_quota with
       | None => set_meta_entry d key_quota (MkEntry (GetMeta db d key_quota) (Some (le_bytes 4 q)))
       | Some e => set_meta_entry d key_quota (MkEntry (e_olddata e) (Some (le_bytes 4 q)))
       end.

Definition getQuota (db : database) (d : stateDB) : outcome Z :=
  match GetMeta db d key_quota with None => Ok 0 | Some c => get_uint32 c end.

Definition setUsage (db : database) (d : stateDB) (q : Z) : stateDB :=
  if d_suicided d then d
  else match d_meta d !! key_usage with
       | None => set_meta_entry d key_usage (MkEntry (GetMeta db d key_usage) (Some (le_bytes 4 q)))
       | Some e => set_meta_entry d key_usage (MkEntry (e_olddata e) (Some (le_bytes 4 q)))
       end.

Definition getUsage (db : database) (d : stateDB) : outcome (Z * stateDB) :=
  match d_meta d !! key_usage with
  | None =>
      match GetMeta db d key_usage with
      | None => Ok (0, d)
      | Some m => q ← get_uint32 m; Ok (q, set_meta_entry d key_usage (MkEntry (Some m) (Some m)))
      end
  | Some e => q ← get_uint32 (default [] (e_data e)); Ok (q, d)
  end.

Definition GetState (db : database) (d : stateDB) (loc : list Z) : slice * stateDB :=
  if d_suicided d then (None, d)
  else match d_data d !! loc with
       | Some t => (e_data t, d)
       | None =>
           if d_fresh d then (None, d)
           else match (b ← db_storage db !! d_contract d; b !! loc) with
                | None => (None, d)
                | Some e => (Some e, set_data_entry d loc (MkEntry (Some e) (Some e)))
                end
       end.

Definition SetState (db : database) (d : stateDB) (key val : list Z) : outcome stateDB :=
  if d_suicided d then Ok d
  else
    '(q, d) ← getUsage db d;
    let '(q, d) :=
      match d_data d !! key with
      | None =>
          let '(m, d) := GetState db d key in
          (u32 (q + Z.of_nat (length val)), set_data_entry d key (MkEntry m (Some val)))
      | Some e =>
          (u32 (q + Z.of_nat (length val) - slen (e_data e)),
           set_data_entry d key (MkEntry (e_olddata e) (Some (overwrite (e_data e) val))))
      end in
    quota ← getQuota db d;
    let d := if decide (q > quota) then setQuota db d q else d in
    Ok (setUsage db d q).

(** The part of [DeleteState] that its two branches share: the entry of [key] is cached. *)
Definition drop_entry (db : database) (d : stateDB) (key : list Z) (e : entry) : outcome stateDB :=
  '(q, d) ← getUsage db d;
  u ← getQuota db d;
  let q := u32 (q - slen (e_data e)) in
  let d := setUsage db d q in
  let d := if decide (q < u) then setQuota db d q else d in
  Ok (set_data_entry d key (MkEntry (e_olddata e) None)).

Definition DeleteState (db : database) (d : stateDB) (key : list Z) : outcome stateDB :=
  if d_suicided d then Ok d
  else match d_data d !! key with
       | Some e => drop_entry db d key e
       | None =>
           let '(v, d) := GetState db d key in
           match v, d_data d !! key with
           | Some _, Some e => drop_entry db d key e
           | Some _, None => Panic
           | None, _ => Ok d
           end
       end.

(** [dup] of an entry is the entry itself: the bytes are values here. *)
Definition Copy (d : stateDB) : stateDB :=
  if d_suicided d then MkStateDB (replicate 20 0) ∅ ∅ true false false
  else MkStateDB (d_contract d) (d_data d) (d_meta d) false false false.

Definition Exists (db : database) (d : stateDB) (really : bool) : bool :=
  match db_contract db !! d_contract d with
  | None => false
  | Some b => negb (really && bool_decide (is_Some (b !! key_suicided)))
  end.

(** ** The contents of a contract's storage *)

(** What the contract sees at [k], and what the database holds there. *)
Definition stored (db : database) (d : stateDB) (k : list Z) : slice :=
  if d_fresh d then None else b ← db_storage db !! d_contract d; b !! k.
Definition view (db : database) (d : stateDB) (k : list Z) : slice :=
  if d_suicided d then None else match d_data d !! k with Some e => e_data e | None => stored db d k end.

(** The old value of every cached entry is that of the database. *)
Definition coherent (db : database) (d : stateDB) : Prop :=
  (forall k e, d_data d !! k = Some e -> e_olddata e = stored db d k) /\
  (forall k e, d_meta d !! k = Some e -> e_olddata e = GetMeta db d k).

(** The counters have their four bytes. *)
Definition counters_ok (db : database) (d : stateDB) : Prop :=
  (forall e, d_meta d !! key_usage = Some e -> 4 <= slen (e_data e)) /\
  (forall m, GetMeta db d key_usage = Some m -> (4 <= length m)%nat) /\
  (forall m, GetMeta db d key_quota = Some m -> (4 <= length m)%nat).

Lemma overwrite_eq old v : overwrite old v = v.
Proof.
  unfold overwrite, copy_at. set (o := default _ old). change (Z.to_nat 0) with 0%nat.
  rewrite take_0, Nat.sub_0_r. cbn [app Nat.add]. destruct (decide (length o < length v)%nat) as [Hl|Hl].
  - rewrite Nat.min_r by lia. rewrite drop_all, app_nil_r.
    assert (length (take (length o) v) = length o) as E by (rewrite length_take; lia). rewrite E.
    rewrite decide_True by done. apply take_drop.
  - rewrite Nat.min_l, (take_ge v) by lia.
    assert (length (v ++ drop (length v) o) = length o) as E by (rewrite length_app, length_drop; lia). rewrite E.
    rewrite decide_False by lia. case_decide; [by rewrite take_app_length|]. by rewrite drop_ge, app_nil_r by lia.
Qed.

Lemma get_uint32_ok m : (4 <= length m)%nat -> exists q, get_uint32 m = Ok q.
Proof. intros. unfold get_uint32. rewrite slice_sub_ok by lia. by eexists. Qed.

(** Only the meta entries and the cached storage change; the rest of [d] is kept. *)
Definition same_frame (d d' : stateDB) : Prop :=
  d_contract d' = d_contract d /\ d_suicided d' = d_suicided d /\ d_fresh d' = d_fresh d.

Global Instance same_frame_trans : Transitive same_frame.
Proof. intros d1 d2 d3 (? & ? & ?) (? & ? & ?). split_and!; congruence. Qed.

Lemma same_frame_meta db d d' : same_frame d d' -> forall k, GetMeta db d' k = GetMeta db d k.
Proof. intros (E1 & E2 & E3) k. unfold GetMeta. by rewrite E1, E2, E3. Qed.

Lemma same_frame_stored db d d' : same_frame d d' -> forall k, stored db d' k = stored db d k.
Proof. intros (E1 & E2 & E3) k. unfold stored. by rewrite E1, E3. Qed.

(** A step that touches the meta entries [ks] only, with the old values of the database. *)
Definition meta_step (db : database) (d d' : stateDB) : Prop :=
  same_frame d d' /\ d_data d' = d_data d /\
  (forall k e, d_meta d' !! k = Some e -> (exists e0, d_meta d !! k = Some e0 /\ e_olddata e0 = e_olddata e) \/
     e_olddata e = GetMeta db d k) /\
  (forall e, d_meta d' !! key_usage = Some e -> d_meta d !! key_usage = Some e \/ 4 <= slen (e_data e)).

Lemma meta_step_refl db d : meta_step db d d.
Proof. split_and!; [done|done| |by left]. intros k e He. left. by exists e. Qed.

Lemma meta_step_trans db d1 d2 d3 : meta_step db d1 d2 -> meta_step db d2 d3 -> meta_step db d1 d3.
Proof.
  intros (F1 & D1 & M1 & U1) (F2 & D2 & M2 & U2).
  assert (same_frame d1 d3) as F by (by etrans).
  split_and!; [done|congruence| |].
  - intros k e He. destruct (M2 k e He) as [(e0 & H0 & E0)|E0].
    + destruct (M1 k e0 H0) as [(e1 & H1 & E1)|E1]; [left; exists e1; split; [done|congruence]|right; congruence].
    + right. by rewrite <- (same_frame_meta db d1 d2).
  - intros e He. destruct (U2 e He) as [H|]; [|by right]. apply U1, H.
Qed.

Lemma meta_step_coherent db d d' : meta_step db d d' -> coherent db d -> counters_ok db d ->
  coherent db d' /\ counters_ok db d'.
Proof.
  intros (F & D & M & U) [Hd Hm] (C1 & C2 & C3). pose proof (same_frame_meta db d d' F) as EM.
  split; [split|split_and!].
  - intros k e. rewrite D, (same_frame_stored db d d' F). apply Hd.
  - intros k e He. rewrite EM. destruct (M k e He) as [(e0 & H0 & <-)|E]; [by apply Hm|done].
  - intros e He. destruct (U e He) as [H|]; [by apply C1|done].
  - rewrite EM. apply C2.
  - rewrite EM. apply C3.
Qed.

Lemma set_meta_entry_step db d k e : (forall e0, d_meta d !! k = Some e0 -> e_olddata e0 = e_olddata e) ->
  (d_meta d !! k = None -> e_olddata e = GetMeta db d k) -> (k = key_usage -> 4 <= slen (e_data e)) ->
  meta_step db d (set_meta_entry d k e).
Proof.
  intros H1 H2 H3. split_and!; [done|done| |].
  - intros j e'. cbn [set_meta_entry d_meta]. rewrite lookup_insert_Some. intros [[<- <-]|[_ H]]; [|left; by exists e'].
    destruct (d_meta d !! k) as [e0|] eqn:E0; [left; exists e0; split; [done|by apply H1]|right; by apply H2].
  - intros e'. cbn [set_meta_entry d_meta]. rewrite lookup_insert_Some. intros [[E <-]|[_ H]]; [right; by apply H3|by left].
Qed.

Lemma slen_le_bytes n q : slen (Some (le_bytes n q)) = Z.of_nat n.
Proof. unfold slen. simpl. by rewrite le_bytes_length. Qed.

Lemma setUsage_step db d q : meta_step db d (setUsage db d q).
Proof.
  unfold setUsage. destruct (d_suicided d); [apply meta_step_refl|].
  destruct (d_meta d !! key_usage) as [e|] eqn:E; apply set_meta_entry_step; rewrite ?E;
    [by intros ? [= <-]|done|intros _|done|done|intros _]; cbn [e_data]; rewrite slen_le_bytes; lia.
Qed.

Lemma setQuota_step db d q : meta_step db d (setQuota db d q).
Proof.
  unfold setQuota. destruct (d_suicided d); [apply meta_step_refl|].
  destruct (d_meta d !! key_quota) as [e|] eqn:E; apply set_meta_entry_step; rewrite ?E; try done. by intros ? [= <-].
Qed.

Lemma getUsage_ok db d : counters_ok db d -> exists q d', getUsage db d = Ok (q, d') /\ meta_step db d d'.
Proof.
  intros (C1 & C2 & C3). unfold getUsage. destruct (d_meta d !! key_usage) as [e|] eqn:E.
  - destruct (get_uint32_ok (default [] (e_data e))) as [q ->]; [pose proof (C1 e eq_refl) as H; unfold slen in H; lia|].
    eexists _, d. split; [done|apply meta_step_refl].
  - destruct (GetMeta db d key_usage) as [m|] eqn:Em; [|eexists _, d; split; [done|apply meta_step_refl]].
    pose proof (C2 m eq_refl). destruct (get_uint32_ok m) as [q ->]; [done|]. eexists _, _. split; [done|].
    apply set_meta_entry_step; [by rewrite E|done|]. intros _. unfold slen. simpl. lia.
Qed.

Lemma getQuota_ok db d : counters_ok db d -> exists q, getQuota db d = Ok q.
Proof.
  intros (_ & _ & C3). unfold getQuota. destruct (GetMeta db d key_quota) as [m|] eqn:E; [|by eexists].
  by apply get_uint32_ok, C3.
Qed.

Definition state_ok (db : database) (d : stateDB) : Prop := coherent db d /\ counters_ok db d.

Lemma meta_step_ok db d d' : meta_step db d d' -> state_ok db d -> state_ok db d'.
Proof. intros H [? ?]. by apply (meta_step_coherent db d). Qed.

Lemma meta_step_view db d d' : meta_step db d d' -> forall k, view db d' k = view db d k.
Proof.
  intros (F & D & _) k. unfold view. rewrite D, (same_frame_stored db d d' F). by destruct F as (_ & -> & _).
Qed.

(** An entry put in the cache of the storage, with the old value of the database. *)
Lemma data_entry_ok db d k e : state_ok db d -> e_olddata e = stored db d k -> state_ok db (set_data_entry d k e).
Proof.
  intros [[Hd Hm] Hc] He. split; [split|done]; [|done].
  intros j e'. cbn [set_data_entry d_data]. rewrite lookup_insert_Some. intros [[<- <-]|[_ H]]; [done|]. by apply Hd.
Qed.

Lemma data_entry_view db d k e j : d_suicided d = false ->
  view db (set_data_entry d k e) j = if decide (j = k) then e_data e else view db d j.
Proof.
  intros Hs. unfold view. cbn [set_data_entry d_suicided d_data]. rewrite Hs. case_decide; subst.
  - by rewrite lookup_insert_eq.
  - by rewrite lookup_insert_ne by done.
Qed.

Lemma GetState_ok db d k : state_ok db d ->
  (GetState db d k).1 = view db d k /\ state_ok db (GetState db d k).2 /\ same_frame d (GetState db d k).2 /\
  d_meta (GetState db d k).2 = d_meta d /\ (forall j, view db (GetState db d k).2 j = view db d j).
Proof.
  intros Hok. unfold GetState, view at 1. destruct (d_suicided d) eqn:Hs; [done|].
  destruct (d_data d !! k) as [e|] eqn:He; [done|]. unfold stored. destruct (d_fresh d) eqn:Hf; [done|].
  destruct (_ ≫= _) as [v|] eqn:Hv; [|done]. cbn [fst snd].
  assert (stored db d k = Some v) as Hst by (unfold stored; by rewrite Hf).
  split_and!; [done| |done|done|].
  - by apply data_entry_ok.
  - intros j. rewrite data_entry_view by done. case_decide; [subst|done]. unfold view. by rewrite Hs, He, Hst.
Qed.

Lemma same_frame_suicided d d' : same_frame d d' -> d_suicided d' = d_suicided d.
Proof. by intros (_ & ? & _). Qed.

(** The writes: the counters are updated, then or before the entry is replaced. *)
Lemma SetState_ok db d key val : state_ok db d -> d_suicided d = false ->
  exists d', SetState db d key val = Ok d' /\ state_ok db d' /\ same_frame d d' /\
    forall j, view db d' j = if decide (j = key) then Some val else view db d j.
Proof.
  intros Hok Hs. unfold SetState. rewrite Hs.
  destruct (getUsage_ok db d (proj2 Hok)) as (q & d1 & -> & M1). cbn [mbind outcome_bind].
  pose proof (meta_step_ok _ _ _ M1 Hok) as Hok1. pose proof (proj1 M1) as F1.
  pose proof (same_frame_suicided _ _ F1) as Hs1. rewrite Hs in Hs1.
  set (r := match d_data d1 !! key with None => _ | Some e => _ end).
  assert (state_ok db r.2 /\ same_frame d r.2 /\
    forall j, view db r.2 j = if decide (j = key) then Some val else view db d j) as (Hok2 & F2 & V2).
  { unfold r. destruct (d_data d1 !! key) as [e|] eqn:He; cbn [snd].
    - rewrite overwrite_eq. split_and!; [apply data_entry_ok; [done|]; cbn [e_olddata]; by apply (proj1 (proj1 Hok1))|done|].
      intros j. rewrite data_entry_view by done. case_decide; [done|]. by apply meta_step_view.
    - destruct (GetState_ok db d1 key Hok1) as (E & Hok' & F' & _ & V').
      destruct (GetState db d1 key) as [m d2]. cbn [fst snd] in *. split_and!.
      + apply data_entry_ok; [done|]. rewrite (same_frame_stored _ _ _ F'). subst m. unfold view. by rewrite Hs1, He.
      + etrans; [exact F1|]. by etrans; [exact F'|].
      + intros j. rewrite data_entry_view by (rewrite (same_frame_suicided _ _ F'); done).
        case_decide; [done|]. rewrite V'. by apply meta_step_view. }
  destruct r as [q' d2]. cbn [snd] in *. destruct (getQuota_ok db d2 (proj2 Hok2)) as [u ->]. cbn [mbind outcome_bind].
  set (d3 := if decide (q' > u) then _ else d2).
  assert (meta_step db d2 (setUsage db d3 q')) as M3.
  { eapply meta_step_trans; [|apply setUsage_step]. unfold d3. case_decide; [apply setQuota_step|apply meta_step_refl]. }
  eexists. split_and!; [done|by apply (meta_step_ok _ _ _ M3)| |].
  - etrans; [exact F2|exact (proj1 M3)].
  - intros j. rewrite (meta_step_view _ _ _ M3). apply V2.
Qed.

Lemma drop_entry_ok db d key e : state_ok db d -> d_suicided d = false -> d_data d !! key = Some e ->
  exists d', drop_entry db d key e = Ok d' /\ state_ok db d' /\ same_frame d d' /\
    forall j, view db d' j = if decide (j = key) then None else view db d j.
Proof.
  intros Hok Hs He. unfold drop_entry. destruct (getUsage_ok db d (proj2 Hok)) as (q & d1 & -> & M1).
  cbn [mbind outcome_bind]. pose proof (meta_step_ok _ _ _ M1 Hok) as Hok1.
  destruct (getQuota_ok db d1 (proj2 Hok1)) as [u ->]. cbn [mbind outcome_bind].
  set (q' := u32 (q - slen (e_data e))). set (d3 := if decide (q' < u) then _ else _).
  assert (meta_step db d d3) as M3.
  { eapply meta_step_trans; [exact M1|]. eapply meta_step_trans; [apply (setUsage_step db d1 q')|].
    unfold d3. case_decide; [apply setQuota_step|apply meta_step_refl]. }
  pose proof (proj1 M3) as F3. eexists. split_and!; [done| |done|].
  - apply data_entry_ok; [by apply (meta_step_ok _ _ _ M3)|]. cbn [e_olddata].
    rewrite (same_frame_stored _ _ _ F3). by apply (proj1 (proj1 Hok)).
  - intros j. rewrite data_entry_view by (by rewrite (same_frame_suicided _ _ F3)).
    case_decide; [done|]. by apply meta_step_view.
Qed.

Lemma DeleteState_ok db d key : state_ok db d -> d_suicided d = false ->
  exists d', DeleteState db d key = Ok d' /\ state_ok db d' /\ same_frame d d' /\
    forall j, view db d' j = if decide (j = key) then None else view db d j.
Proof.
  intros Hok Hs. unfold DeleteState. rewrite Hs. destruct (d_data d !! key) as [e|] eqn:He; [by apply drop_entry_ok|].
  destruct (GetState_ok db d key Hok) as (E & Hok' & F' & _ & V').
  destruct (GetState db d key) as [m d'] eqn:EG. cbn [fst snd] in *. destruct m as [v|].
  - assert (d_data d' !! key = Some (MkEntry (Some v) (Some v))) as He'.
    { unfold GetState in EG. rewrite Hs, He in EG. destruct (d_fresh d); [done|].
      destruct (_ ≫= _); [|done]. injection EG as <- <-. cbn. apply lookup_insert_eq. }
    rewrite He'. destruct (drop_entry_ok db d' key _ Hok' ltac:(by rewrite (same_frame_suicided _ _ F')) He')
      as (d2 & -> & Hok2 & F2 & V2).
    eexists. split_and!; [done|done| |].
    + etrans; [exact F'|exact F2].
    + intros j. rewrite V2. case_decide; [done|]. apply V'.
  - eexists. split_and!; [done|done|done|]. intros j. rewrite V'. case_decide; [subst; by rewrite <- E|done].
Qed.

(** ** Sequences of operations *)

Inductive state_op := OpGet (k : list Z) | OpSet (k v : list Z) | OpDelete (k : list Z).

Definition run_op (db : database) (d : stateDB) (o : state_op) : outcome (slice * stateDB) :=
  match o with
  | OpGet k => let '(v, d) := GetState db d k in Ok (v, d)
  | OpSet k v => d ← SetState db d k v; Ok (None, d)
  | OpDelete k => d ← DeleteState db d k; Ok (None, d)
  end.

Fixpoint run_ops (db : database) (d : stateDB) (os : list state_op) : outcome (list slice * stateDB) :=
  match os with
  | [] => Ok ([], d)
  | o :: os => '(v, d) ← run_op db d o; '(vs, d) ← run_ops db d os; Ok (v :: vs, d)
  end.

(** The same on a function from keys to values. *)
Definition upd (f : list Z -> slice) (k : list Z) (v : slice) : list Z -> slice := fun j => if decide (j = k) then v else f j.
Definition spec_step (f : list Z -> slice) (o : state_op) : list Z -> slice :=
  match o with OpGet _ => f | OpSet k v => upd f k (Some v) | OpDelete k => upd f k None end.
Definition spec_result (f : list Z -> slice) (o : state_op) : slice := match o with OpGet k => f k | _ => None end.
Fixpoint spec_ops (f : list Z -> slice) (os : list state_op) : list slice * (list Z -> slice) :=
  match os with
  | [] => ([], f)
  | o :: os => let '(vs, g) := spec_ops (spec_step f o) os in (spec_result f o :: vs, g)
  end.

Lemma spec_ops_ext os : forall f g, (forall j, f j = g j) ->
  (spec_ops f os).1 = (spec_ops g os).1 /\ forall j, (spec_ops f os).2 j = (spec_ops g os).2 j.
Proof.
  induction os as [|o os IH]; intros f g H; [done|]. cbn [spec_ops].
  destruct (IH (spec_step f o) (spec_step g o)) as [E1 E2].
  { intros j. destruct o; unfold spec_step, upd; by rewrite ?H. }
  destruct (spec_ops (spec_step f o) os), (spec_ops (spec_step g o) os). cbn in *. split; [|done].
  rewrite E1. f_equal. by destruct o; cbn.
Qed.

Lemma run_op_ok db d o : state_ok db d -> d_suicided d = false ->
  exists d', run_op db d o = Ok (spec_result (view db d) o, d') /\ state_ok db d' /\ d_suicided d' = false /\
    forall j, view db d' j = spec_step (view db d) o j.
Proof.
  intros Hok Hs. destruct o as [k|k x|k]; cbn [run_op].
  - destruct (GetState_ok db d k Hok) as (E & Hok' & F' & _ & V'). destruct (GetState db d k) as [v d1].
    cbn [fst snd] in *. subst v. eexists. split_and!; [done|done|by rewrite (same_frame_suicided _ _ F')|done].
  - destruct (SetState_ok db d k x Hok Hs) as (d1 & -> & Hok1 & F1 & V1).
    eexists. split_and!; [done|done|by rewrite (same_frame_suicided _ _ F1)|done].
  - destruct (DeleteState_ok db d k Hok Hs) as (d1 & -> & Hok1 & F1 & V1).
    eexists. split_and!; [done|done|by rewrite (same_frame_suicided _ _ F1)|done].
Qed.

Lemma run_ops_ok db os : forall d, state_ok db d -> d_suicided d = false ->
  exists d', run_ops db d os = Ok ((spec_ops (view db d) os).1, d') /\ state_ok db d' /\
    (forall j, view db d' j = (spec_ops (view db d) os).2 j).
Proof.
  induction os as [|o os IH]; intros d Hok Hs; [by exists d|]. cbn [run_ops spec_ops].
  destruct (run_op_ok db d o Hok Hs) as (d1 & -> & Hok1 & Hs1 & V1). cbn [mbind outcome_bind].
  destruct (IH d1 Hok1 Hs1) as (d2 & -> & Hok2 & V2). cbn [mbind outcome_bind].
  destruct (spec_ops_ext os _ _ V1) as [E1 E2]. destruct (spec_ops (spec_step _ o) os) as [vs g]. cbn [fst snd] in *.
  exists d2. split_and!; [by rewrite E1|done|]. intros j. by rewrite V2, E2.
Qed.

(** ** Theorems *)

(** C11: to a live contract its state is a map from keys to values: any sequence of
    reads, writes and deletions returns what it returns on the map the contract saw at
    first, never panics, and leaves the cache consistent with the database under it. *)
Theorem contract_state_refines_map (db : database) (d : stateDB) (os : list state_op)
    (Hok : state_ok db d) (Hs : d_suicided d = false) :
  exists d', run_ops db d os = Ok ((spec_ops (view db d) os).1, d') /\ state_ok db d' /\
    (forall j, view db d' j = (spec_ops (view db d) os).2 j).
Proof. by apply run_ops_ok. Qed.

Lemma contract_state_witness : exists d',
  run_ops (MkDb ∅ {[[7] := {[[1] := [5; 5]]}]} ∅ 0 ∅) (NewStateDB [7])
    [OpGet [1]; OpSet [1] [9]; OpGet [1]; OpDelete [1]; OpGet [1]] = Ok ([Some [5; 5]; None; Some [9]; None; None], d').
Proof.
  destruct (contract_state_refines_map (MkDb ∅ {[[7] := {[[1] := [5; 5]]}]} ∅ 0 ∅) (NewStateDB [7])
    [OpGet [1]; OpSet [1] [9]; OpGet [1]; OpDelete [1]; OpGet [1]]) as (d' & E & _).
  - split; [by split|]. by split_and!.
  - done.
  - exists d'. exact E.
Defined.

(** The usage counter is wrong when a key is written for the first time in a block:
    the length of the value it replaces is not taken off, so that writing the same
    value again makes the counter grow. *)
Theorem overwrite_counts_twice (db : database) (d : stateDB) (key val old : list Z) (q : Z)
    (Hs : d_suicided d = false) (Hf : d_fresh d = false) (Hu : d_meta d !! key_usage = Some (MkEntry None (Some (le_bytes 4 q))))
    (Hq : uint_range 32 q) (Hc : counters_ok db d) (Hk : d_data d !! key = None) (Hold : stored db d key = Some old)
    (Hlen : uint_range 32 (q + Z.of_nat (length val))) :
  exists d', SetState db d key val = Ok d' /\
    e_data <$> d_meta d' !! key_usage = Some (Some (le_bytes 4 (q + Z.of_nat (length val)))).
Proof.
  unfold SetState. rewrite Hs. unfold getUsage. rewrite Hu. cbn [e_data].
  change (default [] (Some (le_bytes 4 q))) with (le_bytes 4 q).
  assert (get_uint32 (le_bytes 4 q) = Ok q) as ->.
  { unfold get_uint32. rewrite slice_sub_ok by (rewrite ?le_bytes_length; lia). cbn [mbind outcome_bind].
    change (Z.to_nat 0) with 0%nat. rewrite drop_0. change (Z.to_nat (4 - 0)) with 4%nat.
    rewrite take_ge, le_value_le_bytes by (by rewrite le_bytes_length). by rewrite Z.mod_small. }
  cbn [mbind outcome_bind]. rewrite Hk. unfold GetState. rewrite Hs, Hk, Hf. unfold stored in Hold. rewrite Hf in Hold.
  rewrite Hold. rewrite uwrap_id by done.
  match goal with |- context [getQuota db ?d1] => destruct (getQuota_ok db d1) as [u ->]; [done|] end.
  cbn [mbind outcome_bind]. eexists. split; [done|]. set (n := q + Z.of_nat (length val)).
  assert (forall d1, d_suicided d1 = false -> is_Some (d_meta d1 !! key_usage) ->
    e_data <$> d_meta (setUsage db d1 n) !! key_usage = Some (Some (le_bytes 4 n))) as H.
  { intros d1 Hs1 [e He]. unfold setUsage. rewrite Hs1, He. cbn. by rewrite lookup_insert_eq. }
  apply H; case_decide; try done; unfold setQuota; cbn [set_data_entry d_suicided d_meta]; rewrite Hs;
    destruct (d_meta d !! key_quota); cbn [set_meta_entry d_suicided d_meta set_data_entry]; try done;
    rewrite lookup_insert_ne by done; by eexists.
Qed.

Lemma overwrite_counts_witness : exists d',
  SetState (MkDb ∅ {[[7] := {[[1] := [5; 5]]}]} ∅ 0 ∅)
    (MkStateDB [7] ∅ {[key_usage := MkEntry None (Some (le_bytes 4 2))]} false false false) [1] [5; 5] = Ok d' /\
  e_data <$> d_meta d' !! key_usage = Some (Some (le_bytes 4 4)).
Proof.
  apply (overwrite_counts_twice (MkDb ∅ {[[7] := {[[1] := [5; 5]]}]} ∅ 0 ∅) _ [1] [5; 5] [5; 5] 2); try done.
  split_and!; [|done|done]. intros e H. vm_compute in H. injection H as <-. vm_compute. discriminate.
Defined.
