(* ===== verification/OvmCommit.v ===== *)
(** * Writing contract state back, and undoing a block

    Models [commit] of [omega/ovm/statedb.go] and [Commit] and [Rollback] of
    [omega/ovm/ovm.go]: at the end of a block the caches of all contracts are written
    to the database, and a record is left from which the block can be undone.

    A database transaction is a function whose result is dropped on error.  The order
    of a range over a map is that of [map_to_list]. *)
From Stdlib Require Import ZArith Lia.
From stdpp Require Import gmap list.
From S2P Require Import Prelude Difficulty OvmStack OvmState.

Open Scope Z_scope.

(** ** Writing back *)

(** [if t.olddata == nil { t.olddata = []byte{} }] *)
Definition mark_old (e : entry) : entry := MkEntry (Some (default [] (e_olddata e))) (e_data e).
Definition changed (e : entry) : bool := negb (same_bytes (e_data e) (e_olddata e)).

(** The first loop: unchanged entries leave the cache. *)
Definition clean_data (data : gmap (list Z) entry) : gmap (list Z) entry :=
  mark_old <$> filter (fun ke => changed ke.2 = true) data.

(** The second loop, over the meta entries: for an unchanged one it deletes the entry
    of that key from [d.data], not from [d.meta]. *)
Definition clean_meta (data meta : gmap (list Z) entry) : gmap (list Z) entry * gmap (list Z) entry :=
  (filter (fun ke => match meta !! ke.1 with Some e => changed e | None => true end = true) data,
   (fun e => if changed e then mark_old e else e) <$> meta).

(** One of the two write loops of the last transaction: the records, and the bucket,
    or [None] when a [Put] fails. *)
Fixpoint write_loop (es : list (list Z * entry)) (b : bucket) (acc : list Rollback) : list Rollback * option bucket :=
  match es with
  | [] => (acc, Some b)
  | (k, t) :: es =>
      let acc := acc ++ [MkRollback k (e_olddata t)] in
      if decide (slen (e_data t) = 0) then write_loop es (delete k b) acc
      else if same_bytes (e_olddata t) (e_data t) then write_loop es b acc
      else match bucket_put b k (default [] (e_data t)) with
           | None => (acc, None)
           | Some b => write_loop es b acc
           end
  end.

(** A write loop on a bucket that may be missing: its use then is a nil pointer. *)
Definition write_bucket (es : list (list Z * entry)) (b : option bucket) : outcome (list Rollback * option (option bucket)) :=
  match b with
  | Some b => let '(acc, r) := write_loop es b [] in Ok (acc, Some <$> r)
  | None => if decide (es = []) then Ok ([], Some None) else Panic
  end.

(** The first transaction makes the two buckets of a new contract. *)
Definition make_buckets (db : database) (a : list Z) : option database :=
  match db_contract db !! a with
  | Some _ => Some db
  | None =>
      match db_storage db !! a with
      | Some _ => None
      | None => Some (set_storage (set_contract db (<[a := ∅]> (db_contract db))) (<[a := ∅]> (db_storage db)))
      end
  end.

Definition put_bucket (m : gmap (list Z) bucket) (a : list Z) (b : option bucket) : gmap (list Z) bucket :=
  match b with Some b => <[a := b]> m | None => m end.

(** The last transaction; a failed [Put] leaves the database as it was, but not the records. *)
Definition write_back (db : database) (d : stateDB) (data meta : gmap (list Z) entry) : outcome (list Rollback * list Rollback * database) :=
  let a := d_contract d in
  '(r0, b0) ← write_bucket (map_to_list data) (db_storage db !! a);
  match b0 with
  | None => Ok (r0, [], db)
  | Some b0 =>
      '(r1, b1) ← write_bucket (map_to_list meta) (db_contract db !! a);
      match b1 with
      | None => Ok (r0, r1, db)
      | Some b1 => Ok (r0, r1, set_contract (set_storage db (put_bucket (db_storage db) a b0)) (put_bucket (db_contract db) a b1))
      end
  end.

Definition commit (db : database) (d : stateDB) : outcome (PrevInfo * database) :=
  let a := d_contract d in
  if d_suicided d then
    match db_contract db !! a with
    | None => Ok (MkPrevInfo (d_fresh d) [] [] [], db)
    | Some b =>
        let r := if decide (b !! key_suicided = None) then [MkRollback key_suicided (Some [])] else [] in
        Ok (MkPrevInfo (d_fresh d) [] [] r, set_contract db (<[a := <[key_suicided := [1]]> b]> (db_contract db)))
    end
  else
    let '(data, meta) := clean_meta (clean_data (d_data d)) (d_meta d) in
    match make_buckets db a with
    | None => Ok (MkPrevInfo (d_fresh d) [] [] [], db)
    | Some db => '(r0, r1, db) ← write_back db d data meta; Ok (MkPrevInfo (d_fresh d) [] r0 r1, db)
    end.

(** ** The virtual machine's own [Commit] and [Rollback] *)

Record OVM := MkOVM {
  v_DB : database;
  v_StateDB : gmap (list Z) stateDB;
  v_TokenTypes : gmap Z (list Z);
  v_ExistingTokenTypes : gmap Z (list Z);
  v_lastBlock : Z;
}.

Definition token_record (existing : gmap Z (list Z)) (ta : Z * list Z) : option RBTokenTypes :=
  match existing !! ta.1 with
  | Some a => if decide (a = ta.2) then None else Some (MkRBTokenTypes ta.1 (Some a))
  | None => Some (MkRBTokenTypes ta.1 None)
  end.
Definition token_records (types existing : gmap Z (list Z)) : list RBTokenTypes :=
  omap (token_record existing) (map_to_list types).

Fixpoint commit_loop (ds : list (list Z * stateDB)) (db : database) (acc : list PrevInfo) : outcome (list PrevInfo * database) :=
  match ds with
  | [] => Ok (acc, db)
  | (k, d) :: ds =>
      '(t, db) ← commit db d;
      let t := MkPrevInfo (pi_NewContract t) k (pi_Data0 t) (pi_Data1 t) in
      commit_loop ds db (if decide (pi_Data0 t = [] /\ pi_Data1 t = []) then acc else acc ++ [t])
  end.

Definition Commit (v : OVM) (blockNumber : Z) : outcome OVM :=
  if decide (v_StateDB v = ∅) then Ok v
  else
    let lastBlock := db_last (v_DB v) in
    if decide (blockNumber <= lastBlock) then Ok v
    else
      let types := token_records (v_TokenTypes v) (v_ExistingTokenTypes v) in
      '(infos, db) ← commit_loop (map_to_list (v_StateDB v)) (v_DB v) [];
      let rb := MkBlockRollBack lastBlock infos types in
      Ok (MkOVM (MkDb (db_contract db) (db_storage db) (v_TokenTypes v ∪ db_types db) blockNumber
                   (<[blockNumber := rb]> (db_rollback db))) ∅ ∅ ∅ blockNumber).

(** [bucket.Delete] or [bucket.Put], as the value says. *)
Fixpoint undo_loop (rs : list Rollback) (b : bucket) : option bucket :=
  match rs with
  | [] => Some b
  | r :: rs =>
      if decide (slen (rb_Value r) = 0) then undo_loop rs (delete (rb_Key r) b)
      else match bucket_put b (rb_Key r) (default [] (rb_Value r)) with None => None | Some b => undo_loop rs b end
  end.

Definition undo_bucket (rs : list Rollback) (b : option bucket) : outcome (option (option bucket)) :=
  match b with
  | Some b => Ok (Some <$> undo_loop rs b)
  | None => if decide (rs = []) then Ok (Some None) else Panic
  end.

Definition undo_contract (db : database) (p : PrevInfo) : outcome (option database) :=
  let a := pi_Addr p in
  if pi_NewContract p then Ok (Some (set_storage (set_contract db (delete a (db_contract db))) (delete a (db_storage db))))
  else
    b1 ← undo_bucket (pi_Data1 p) (db_contract db !! a);
    match b1 with
    | None => Ok None
    | Some b1 =>
        b0 ← undo_bucket (pi_Data0 p) (db_storage db !! a);
        match b0 with
        | None => Ok None
        | Some b0 => Ok (Some (set_storage (set_contract db (put_bucket (db_contract db) a b1)) (put_bucket (db_storage db) a b0)))
        end
    end.

Fixpoint undo_contracts (ps : list PrevInfo) (db : database) : outcome (option database) :=
  match ps with
  | [] => Ok (Some db)
  | p :: ps => r ← undo_contract db p; match r with None => Ok None | Some db => undo_contracts ps db end
  end.

Definition undo_type (m : gmap Z (list Z)) (r : RBTokenTypes) : gmap Z (list Z) :=
  if decide (slen (rt_Addr r) = 0) then delete (rt_ID r) m else <[rt_ID r := default [] (rt_Addr r)]> m.
Definition undo_types (rs : list RBTokenTypes) (types : gmap Z (list Z)) : gmap Z (list Z) := foldl undo_type types rs.

(** [Rollback] of the last block: the new state, and whether the transaction succeeded. *)
Definition RollbackBlock (v : OVM) (blockNumber : Z) : outcome (OVM * bool) :=
  if decide (blockNumber <> v_lastBlock v) then Ok (v, true)
  else match db_rollback (v_DB v) !! v_lastBlock v with
       | None => Ok (v, false)
       | Some rb =>
           let db := v_DB v in
           let last := br_PrevBlock rb in
           let db1 := MkDb (db_contract db) (db_storage db) (undo_types (br_Tokentypes rb) (db_types db)) last
                        (delete (v_lastBlock v) (db_rollback db)) in
           r ← undo_contracts (br_RollBacks rb) db1;
           Ok (MkOVM (default db r) (v_StateDB v) (v_TokenTypes v) (v_ExistingTokenTypes v) last, bool_decide (is_Some r))
       end.

(** ** The write and undo loops *)

(** A value as a bucket keeps it: the empty one is no value. *)
Definition nz (v : slice) : slice := if decide (slen v = 0) then None else v.

Definition bucket_ok (b : bucket) : Prop := forall k v, b !! k = Some v -> v <> [].

Lemma nz_nonempty v : v <> [] -> nz (Some v) = Some v.
Proof. intros. unfold nz, slen. case_decide as E; [|done]. by destruct v. Qed.

Lemma nz_lookup b k : bucket_ok b -> nz (b !! k) = b !! k.
Proof. intros H. destruct (b !! k) as [v|] eqn:E; [|done]. apply nz_nonempty. by eapply H. Qed.

Lemma nz_default v : nz (Some (default [] v)) = nz v.
Proof. by destruct v. Qed.

Lemma same_bytes_nz a b : same_bytes a b = true -> nz a = nz b.
Proof.
  unfold same_bytes. rewrite bool_decide_eq_true, bytes_compare_eq. intros E.
  rewrite <- (nz_default a), <- (nz_default b). by rewrite E.
Qed.

(** An entry whose old value is that of the bucket. *)
Definition fits (b : bucket) (k : list Z) (t : entry) : Prop := nz (e_olddata t) = b !! k.

Definition record_of (ke : list Z * entry) : Rollback := MkRollback ke.1 (e_olddata ke.2).

Lemma write_loop_ok es : forall b acc, NoDup es.*1 -> [] ∉ es.*1 -> Forall (fun ke => fits b ke.1 ke.2) es ->
  exists b', write_loop es b acc = (acc ++ map record_of es, Some b') /\
    forall k, b' !! k = match (list_to_map es : gmap (list Z) entry) !! k with Some t => nz (e_data t) | None => b !! k end.
Proof.
  induction es as [|[k t] es IH]; intros b acc Hnd Hne Hfit.
  { exists b. by rewrite app_nil_r. }
  cbn [fmap list_fmap fst] in Hnd, Hne. apply NoDup_cons in Hnd as [Hk Hnd]. apply not_elem_of_cons in Hne as [Hk0 Hne].
  apply Forall_cons in Hfit as [Hf Hfit]. cbn [fst snd] in Hf.
  assert (forall b1, (forall j, j <> k -> b1 !! j = b !! j) -> b1 !! k = nz (e_data t) ->
    exists b', write_loop es b1 (acc ++ [MkRollback k (e_olddata t)]) = (acc ++ map record_of ((k, t) :: es), Some b') /\
      forall j, b' !! j = match (list_to_map ((k, t) :: es) : gmap (list Z) entry) !! j with Some t => nz (e_data t) | None => b !! j end) as Hgo.
  { intros b1 Hoth Hat. destruct (IH b1 (acc ++ [MkRollback k (e_olddata t)]) Hnd Hne) as (b' & E & Hb').
    { apply Forall_forall. intros [j u] Hin. rewrite Forall_forall in Hfit. pose proof (Hfit _ Hin) as H. unfold fits in *. cbn in *.
      rewrite Hoth; [done|]. intros ->. apply Hk. apply (list_elem_of_fmap_2 fst) in Hin. done. }
    exists b'. split; [rewrite E, <- app_assoc; done|]. intros j. rewrite Hb'. cbn [list_to_map foldr].
    destruct (decide (j = k)) as [->|Hne'].
    - rewrite lookup_insert_eq, (proj1 (not_elem_of_list_to_map es k)) by done. done.
    - rewrite lookup_insert_ne by done. destruct (list_to_map es !! j); [done|]. by apply Hoth. }
  cbn [write_loop]. case_decide as Hz.
  - apply Hgo; [intros; by rewrite lookup_delete_ne by done|]. rewrite lookup_delete_eq. unfold nz. by rewrite decide_True.
  - destruct (same_bytes (e_olddata t) (e_data t)) eqn:Hs.
    + apply Hgo; [done|]. rewrite <- Hf. by apply same_bytes_nz.
    + unfold bucket_put. rewrite decide_False by done. apply Hgo; [intros; by rewrite lookup_insert_ne by done|].
      rewrite lookup_insert_eq. rewrite <- nz_default. symmetry. apply nz_nonempty. intros E. apply Hz. unfold slen. by rewrite E.
Qed.

Lemma undo_loop_ok rs : forall b, NoDup (map rb_Key rs) -> [] ∉ map rb_Key rs ->
  exists b', undo_loop rs b = Some b' /\
    forall k, b' !! k = match (list_to_map (map (fun r => (rb_Key r, rb_Value r)) rs) : gmap (list Z) slice) !! k with
                        | Some v => nz v | None => b !! k end.
Proof.
  induction rs as [|r rs IH]; intros b Hnd Hne; [by exists b|].
  cbn [map] in *. apply NoDup_cons in Hnd as [Hk Hnd]. apply not_elem_of_cons in Hne as [Hk0 Hne].
  assert (forall b1, (forall j, j <> rb_Key r -> b1 !! j = b !! j) -> b1 !! rb_Key r = nz (rb_Value r) ->
    exists b', undo_loop rs b1 = Some b' /\
    forall k, b' !! k = match (list_to_map ((rb_Key r, rb_Value r) :: map (fun r => (rb_Key r, rb_Value r)) rs) : gmap (list Z) slice) !! k with
                        | Some v => nz v | None => b !! k end) as Hgo.
  { intros b1 Hoth Hat. destruct (IH b1 Hnd Hne) as (b' & E & Hb'). exists b'. split; [done|]. intros j. rewrite Hb'.
    cbn [list_to_map foldr]. destruct (decide (j = rb_Key r)) as [->|Hne'].
    - rewrite lookup_insert_eq. rewrite (proj1 (not_elem_of_list_to_map _ (rb_Key r))); [done|].
      rewrite <- list_fmap_compose. done.
    - rewrite lookup_insert_ne by done. destruct (list_to_map _ !! j); [done|]. by apply Hoth. }
  cbn [undo_loop]. case_decide as Hz.
  - apply Hgo; [intros; by rewrite lookup_delete_ne by done|]. rewrite lookup_delete_eq. unfold nz. by rewrite decide_True.
  - unfold bucket_put. rewrite decide_False by done. apply Hgo; [intros; by rewrite lookup_insert_ne by done|].
    rewrite lookup_insert_eq. rewrite <- nz_default. symmetry. apply nz_nonempty. intros E. apply Hz. unfold slen. by rewrite E.
Qed.

(** Undoing the records of a write restores the bucket. *)
Lemma undo_write m b : m !! [] = None -> map_Forall (fun k t => fits b k t) m ->
  exists b', write_loop (map_to_list m) b [] = (map record_of (map_to_list m), Some b') /\
    (forall k, b' !! k = match m !! k with Some t => nz (e_data t) | None => b !! k end) /\
    undo_loop (map record_of (map_to_list m)) b' = Some b.
Proof.
  intros Hne Hfit. assert (NoDup (map_to_list m).*1) as Hnd by apply NoDup_fst_map_to_list.
  assert ([] ∉ (map_to_list m).*1) as Hk.
  { intros H. apply list_elem_of_fmap in H as ([k t] & E & H). cbn in E. subst k. apply elem_of_map_to_list in H. congruence. }
  destruct (write_loop_ok (map_to_list m) b [] Hnd Hk) as (b' & E & Hb').
  { apply Forall_forall. intros [k t] Hin. apply elem_of_map_to_list in Hin. by apply Hfit. }
  assert (map rb_Key (map record_of (map_to_list m)) = (map_to_list m).*1) as Ekeys by (rewrite map_map; done).
  exists b'. rewrite list_to_map_to_list in Hb'. split_and!; [done|done|].
  destruct (undo_loop_ok (map record_of (map_to_list m)) b') as (b2 & -> & Hb2); [by rewrite Ekeys..|].
  f_equal. apply map_eq. intros k. rewrite Hb2, map_map. cbn [record_of rb_Key rb_Value].
  change (map (fun x => (x.1, e_olddata x.2)) (map_to_list m)) with (prod_map id e_olddata <$> map_to_list m).
  rewrite list_to_map_fmap, list_to_map_to_list, lookup_fmap. rewrite Hb'.
  destruct (m !! k) as [t|] eqn:Ht; [|done]. cbn. by apply Hfit.
Qed.

(** ** One contract *)

Definition buckets_at (db : database) (a : list Z) : option bucket * option bucket := (db_contract db !! a, db_storage db !! a).

Definition same_except (a : list Z) (db db' : database) : Prop :=
  (forall a', a' <> a -> buckets_at db' a' = buckets_at db a') /\
  db_types db' = db_types db /\ db_last db' = db_last db /\ db_rollback db' = db_rollback db.

(** A contract whose changes can be undone: an old one has its two buckets, a new one
    has none of them yet, but meta entries. *)
Definition undoable (db : database) (d : stateDB) : Prop :=
  coherent db d /\ d_data d !! [] = None /\ d_meta d !! [] = None /\
  if d_fresh d then buckets_at db (d_contract d) = (None, None) /\ (d_suicided d = false -> d_meta d <> ∅)
  else exists bc bs, buckets_at db (d_contract d) = (Some bc, Some bs) /\ bucket_ok bc /\ bucket_ok bs /\
         (forall v, bc !! key_suicided = Some v -> v = [1]).

Definition clean (d : stateDB) : gmap (list Z) entry * gmap (list Z) entry := clean_meta (clean_data (d_data d)) (d_meta d).

Lemma clean_data_Some d k t : (clean d).1 !! k = Some t ->
  exists e, d_data d !! k = Some e /\ t = mark_old e /\ changed e = true.
Proof.
  unfold clean, clean_meta, clean_data. cbn [fst]. rewrite map_lookup_filter_Some, lookup_fmap_Some.
  intros [(e & <- & He) _]. apply map_lookup_filter_Some in He as [He Hc]. by exists e.
Qed.

Lemma clean_meta_Some d k t : (clean d).2 !! k = Some t ->
  exists e, d_meta d !! k = Some e /\ e_data t = e_data e /\ nz (e_olddata t) = nz (e_olddata e).
Proof.
  unfold clean, clean_meta. cbn [snd]. rewrite lookup_fmap_Some. intros (e & <- & He). exists e.
  destruct (changed e); split_and!; try done. apply nz_default.
Qed.

Lemma clean_keys d : d_data d !! [] = None -> d_meta d !! [] = None -> (clean d).1 !! [] = None /\ (clean d).2 !! [] = None.
Proof.
  intros Hd Hm. split.
  - destruct ((clean d).1 !! []) as [t|] eqn:E; [|done]. apply clean_data_Some in E as (e & He & _). congruence.
  - unfold clean, clean_meta. cbn [snd]. by rewrite lookup_fmap, Hm.
Qed.

(** The two write loops of a contract whose buckets are there. *)
Lemma write_back_ok db d bc bs : buckets_at db (d_contract d) = (Some bc, Some bs) ->
  d_data d !! [] = None -> d_meta d !! [] = None ->
  map_Forall (fits bs) (clean d).1 -> map_Forall (fits bc) (clean d).2 ->
  exists bc' bs', write_back db d (clean d).1 (clean d).2 =
      Ok (map record_of (map_to_list (clean d).1), map record_of (map_to_list (clean d).2),
          set_contract (set_storage db (<[d_contract d := bs']> (db_storage db))) (<[d_contract d := bc']> (db_contract db))) /\
    (forall k, bs' !! k = match (clean d).1 !! k with Some t => nz (e_data t) | None => bs !! k end) /\
    (forall k, bc' !! k = match (clean d).2 !! k with Some t => nz (e_data t) | None => bc !! k end) /\
    undo_loop (map record_of (map_to_list (clean d).1)) bs' = Some bs /\
    undo_loop (map record_of (map_to_list (clean d).2)) bc' = Some bc.
Proof.
  intros [= Hc Hs] Hd Hm Fs Fc. destruct (clean_keys d Hd Hm) as [Kd Km].
  destruct (undo_write _ bs Kd Fs) as (bs' & Es & Vs & Us). destruct (undo_write _ bc Km Fc) as (bc' & Ec & Vc & Uc).
  exists bc', bs'. split_and!; [|done..]. unfold write_back, write_bucket. rewrite Hs, Es, Hc, Ec. done.
Qed.

Lemma same_except_sets a db mc ms : (forall a', a' <> a -> mc !! a' = db_contract db !! a') ->
  (forall a', a' <> a -> ms !! a' = db_storage db !! a') ->
  same_except a db (MkDb mc ms (db_types db) (db_last db) (db_rollback db)).
Proof. intros Hc Hs. split_and!; [|done..]. intros a' Ha. unfold buckets_at. cbn. by rewrite Hc, Hs. Qed.

(** What a commit of one contract gives: its records undo it, at any later time. *)
Definition commits_undoably (db : database) (d : stateDB) (p : PrevInfo) (db' : database) : Prop :=
  let a := d_contract d in
  same_except a db db' /\
  (pi_Data0 p = [] /\ pi_Data1 p = [] -> buckets_at db' a = buckets_at db a) /\
  forall db2, buckets_at db2 a = buckets_at db' a -> ~ (pi_Data0 p = [] /\ pi_Data1 p = []) ->
    exists db3, undo_contract db2 (MkPrevInfo (pi_NewContract p) a (pi_Data0 p) (pi_Data1 p)) = Ok (Some db3) /\
      same_except a db2 db3 /\ buckets_at db3 a = buckets_at db a.

Lemma commit_suicided db d : undoable db d -> d_suicided d = true ->
  exists p db', commit db d = Ok (p, db') /\ commits_undoably db d p db'.
Proof.
  intros (_ & _ & _ & Hb) Hs. unfold commit. rewrite Hs. destruct (d_fresh d) eqn:Hf.
  - destruct Hb as [[= Hc Hst] _]. rewrite Hc. eexists _, _. split; [done|]. split_and!; [done|done|].
    intros db2 _ H. exfalso. by apply H.
  - destruct Hb as (bc & bs & [= Hc Hst] & Hokc & Hoks & Hv). rewrite Hc.
    eexists _, _. split; [done|]. split_and!.
    + apply same_except_sets; [intros; by rewrite lookup_insert_ne by done|done].
    + cbn [pi_Data0 pi_Data1]. case_decide as Hn; [by intros [_ ?]|]. intros _. unfold buckets_at. cbn.
      rewrite lookup_insert_eq, Hc. do 2 f_equal. apply insert_id.
      destruct (bc !! key_suicided) as [v|] eqn:E; [|done]. by rewrite (Hv v).
    + intros db2 [= Hc2 Hs2]. cbn [pi_Data0 pi_Data1 pi_NewContract]. case_decide as Hn; [|intros H; exfalso; by apply H].
      intros _. unfold undo_contract. cbn [pi_NewContract pi_Addr pi_Data0 pi_Data1]. cbn in Hc2, Hs2.
      rewrite lookup_insert_eq in Hc2. rewrite Hst in Hs2. rewrite Hc2, Hs2.
      cbn. eexists. split; [done|]. split.
      * apply (same_except_sets _ db2); intros; cbn; by rewrite lookup_insert_ne by done.
      * unfold buckets_at. cbn. rewrite !lookup_insert_eq, Hc, Hst. do 2 f_equal. by rewrite delete_insert_id.
Qed.

Lemma fits_coherent (b : bucket) k o t : bucket_ok b -> nz (e_olddata t) = nz o -> o = b !! k -> fits b k t.
Proof. intros Hb E ->. unfold fits. by rewrite E, nz_lookup. Qed.

Lemma commit_old db d : undoable db d -> d_suicided d = false -> d_fresh d = false ->
  exists p db', commit db d = Ok (p, db') /\ commits_undoably db d p db'.
Proof.
  intros ([Cd Cm] & Hd & Hm & Hb) Hs Hf. rewrite Hf in Hb. destruct Hb as (bc & bs & Hb & Hokc & Hoks & _).
  pose proof Hb as [= Hc Hst].
  assert (map_Forall (fits bs) (clean d).1) as Fs.
  { intros k t Ht. apply clean_data_Some in Ht as (e & He & -> & _). eapply fits_coherent; [done|apply nz_default|].
    rewrite (Cd k e He). unfold stored. by rewrite Hf, Hst. }
  assert (map_Forall (fits bc) (clean d).2) as Fc.
  { intros k t Ht. apply clean_meta_Some in Ht as (e & He & _ & E). eapply fits_coherent; [done|exact E|].
    rewrite (Cm k e He). unfold GetMeta. by rewrite Hs, Hf, Hc. }
  destruct (write_back_ok db d bc bs Hb Hd Hm Fs Fc) as (bc' & bs' & E & Vs & Vc & Us & Uc).
  unfold commit. rewrite Hs. fold (clean d). destruct (clean d) as [data meta]. cbn [fst snd] in *.
  unfold make_buckets. rewrite Hc, E. cbn [mbind outcome_bind]. eexists _, _. split; [done|]. split_and!.
  - apply (same_except_sets _ db); intros; cbn; by rewrite lookup_insert_ne by done.
  - cbn [pi_Data0 pi_Data1]. intros [E0 E1]. rewrite E0 in Us. rewrite E1 in Uc. injection Us as ->. injection Uc as ->.
    unfold buckets_at. cbn. by rewrite !lookup_insert_eq, Hc, Hst.
  - intros db2 [= Hc2 Hs2] _. cbn in Hc2, Hs2. rewrite lookup_insert_eq in Hc2, Hs2.
    unfold undo_contract. cbn [pi_NewContract pi_Addr pi_Data0 pi_Data1]. rewrite Hf, Hc2, Hs2. cbn [undo_bucket]. rewrite Uc, Us.
    cbn. eexists. split; [done|]. split.
    + apply (same_except_sets _ db2); intros; cbn; by rewrite lookup_insert_ne by done.
    + unfold buckets_at. cbn. by rewrite !lookup_insert_eq, Hc, Hst.
Qed.

Lemma commit_new db d : undoable db d -> d_suicided d = false -> d_fresh d = true ->
  exists p db', commit db d = Ok (p, db') /\ commits_undoably db d p db'.
Proof.
  intros ([Cd Cm] & Hd & Hm & Hb) Hs Hf. rewrite Hf in Hb. destruct Hb as [Hb Hne]. pose proof Hb as [= Hc Hst].
  set (db1 := set_storage (set_contract db (<[d_contract d := ∅]> (db_contract db))) (<[d_contract d := ∅]> (db_storage db))).
  assert (map_Forall (fits ∅) (clean d).1) as Fs.
  { intros k t Ht. apply clean_data_Some in Ht as (e & He & -> & _). unfold fits. rewrite lookup_empty.
    unfold mark_old. cbn [e_olddata]. rewrite nz_default, (Cd k e He). unfold stored. by rewrite Hf. }
  assert (map_Forall (fits ∅) (clean d).2) as Fc.
  { intros k t Ht. apply clean_meta_Some in Ht as (e & He & _ & E). unfold fits. rewrite lookup_empty, E.
    rewrite (Cm k e He). unfold GetMeta. by rewrite Hs, Hf. }
  destruct (write_back_ok db1 d ∅ ∅) as (bc' & bs' & E & _); [unfold buckets_at, db1; cbn; by rewrite !lookup_insert_eq|done..|].
  assert ((clean d).2 <> ∅) as Hne2.
  { unfold clean, clean_meta. cbn [snd]. rewrite fmap_empty_iff. by apply Hne. }
  unfold commit. rewrite Hs. fold (clean d). destruct (clean d) as [data meta]. cbn [fst snd] in *.
  unfold make_buckets. rewrite Hc, Hst. fold db1. rewrite E. cbn [mbind outcome_bind]. eexists _, _. split; [done|]. split_and!.
  - apply (same_except_sets (d_contract d) db); intros; cbn; rewrite !lookup_insert_ne by done; done.
  - cbn [pi_Data0 pi_Data1]. intros [_ E1]. exfalso. apply Hne2. apply map_eq_nil in E1. by apply map_to_list_empty_iff.
  - intros db2 _ _. unfold undo_contract. cbn [pi_NewContract pi_Addr]. rewrite Hf. eexists. split; [done|]. split.
    + apply (same_except_sets _ db2); intros; cbn; by rewrite lookup_delete_ne by done.
    + unfold buckets_at. cbn. by rewrite !lookup_delete_eq, Hc, Hst.
Qed.

Lemma commit_ok db d : undoable db d -> exists p db', commit db d = Ok (p, db') /\ commits_undoably db d p db'.
Proof.
  intros H. destruct (d_suicided d) eqn:Hs; [by apply commit_suicided|].
  destruct (d_fresh d) eqn:Hf; [by apply commit_new|by apply commit_old].
Qed.

(** ** All contracts of a block *)

Lemma undoable_except a db db' d : same_except a db db' -> d_contract d <> a -> undoable db d -> undoable db' d.
Proof.
  intros (Hs & _) Hne ([Cd Cm] & Hd & Hm & Hb). pose proof (Hs _ Hne) as E. pose proof E as [= Ec Es].
  split_and!; [split|done|done|].
  - intros k e He. rewrite (Cd k e He). unfold stored. by rewrite Es.
  - intros k e He. rewrite (Cm k e He). unfold GetMeta. by rewrite Ec.
  - by rewrite E.
Qed.

Lemma commit_loop_ok ds : forall db acc, NoDup ds.*1 -> Forall (fun kd => d_contract kd.2 = kd.1 /\ undoable db kd.2) ds ->
  exists ps db', commit_loop ds db acc = Ok (acc ++ ps, db') /\
    (forall a, a ∉ ds.*1 -> buckets_at db' a = buckets_at db a) /\
    db_types db' = db_types db /\ db_last db' = db_last db /\ db_rollback db' = db_rollback db /\
    forall db2, (forall a, a ∈ ds.*1 -> buckets_at db2 a = buckets_at db' a) ->
      exists db3, undo_contracts ps db2 = Ok (Some db3) /\
        (forall a, buckets_at db3 a = if decide (a ∈ ds.*1) then buckets_at db a else buckets_at db2 a) /\
        db_types db3 = db_types db2 /\ db_last db3 = db_last db2 /\ db_rollback db3 = db_rollback db2.
Proof.
  induction ds as [|[k d] ds IH]; intros db acc Hnd Hds.
  { exists [], db. rewrite app_nil_r. split_and!; try done. intros db2 _. by exists db2. }
  cbn [fmap list_fmap fst] in *. apply NoDup_cons in Hnd as [Hk Hnd]. apply Forall_cons in Hds as [[Ek Hu] Hds].
  cbn [fst snd] in Ek, Hu. destruct (commit_ok db d Hu) as (p & db1 & E1 & Hse & Hempty & Hundo). rewrite Ek in *.
  cbn [commit_loop]. rewrite E1. cbn [mbind outcome_bind pi_Data0 pi_Data1].
  set (acc' := if decide (pi_Data0 p = [] /\ pi_Data1 p = []) then _ else _).
  destruct (IH db1 acc' Hnd) as (ps & dbN & EN & Hother & Ht & Hl & Hr & Hback).
  { apply Forall_forall. intros [k' d'] Hin. rewrite Forall_forall in Hds. destruct (Hds _ Hin) as [Ek' Hu'].
    cbn [fst snd] in *. split; [done|]. apply (undoable_except k db); [done| |done]. rewrite Ek'.
    intros ->. apply Hk. apply (list_elem_of_fmap_2 fst) in Hin. done. }
  destruct Hse as (Hse & St & Sl & Sr).
  assert (buckets_at dbN k = buckets_at db1 k) as EkN by (by apply Hother).
  exists ((if decide (pi_Data0 p = [] /\ pi_Data1 p = []) then [] else [MkPrevInfo (pi_NewContract p) k (pi_Data0 p) (pi_Data1 p)]) ++ ps), dbN.
  split_and!; [|intros a Ha; apply not_elem_of_cons in Ha as [? ?]; rewrite Hother by done; by apply Hse|congruence..|].
  { rewrite EN. unfold acc'. case_decide; [done|]. by rewrite <- app_assoc. }
  intros db2 Hdb2.
  assert (exists db2', undo_contracts (if decide (pi_Data0 p = [] /\ pi_Data1 p = []) then []
      else [MkPrevInfo (pi_NewContract p) k (pi_Data0 p) (pi_Data1 p)]) db2 = Ok (Some db2') /\
      same_except k db2 db2' /\ buckets_at db2' k = buckets_at db k) as (db2' & Eu & (Ho & Ut & Ul & Ur) & Hbk).
  { case_decide as He; [exists db2; split_and!; [done|done|]; rewrite Hdb2, EkN by (by left); by apply Hempty|].
    destruct (Hundo db2) as (db3 & E3 & Hs3 & Hb3); [by rewrite Hdb2, EkN by (by left)|done|].
    exists db3. cbn [undo_contracts]. by rewrite E3. }
  destruct (Hback db2') as (db3 & E3 & Hb3 & Ft & Fl & Fr).
  { intros a Ha. rewrite Ho; [apply Hdb2; by right|]. by intros ->. }
  assert (forall qs rs x y, undo_contracts qs x = Ok (Some y) -> undo_contracts (qs ++ rs) x = undo_contracts rs y) as Happ.
  { clear. induction qs as [|q qs IHq]; intros rs x y E; [by injection E as ->|]. cbn [app undo_contracts] in *.
    destruct (undo_contract x q) as [[z|]| |]; cbn [mbind outcome_bind] in *; [by apply IHq|done..]. }
  exists db3. rewrite (Happ _ _ _ _ Eu). split_and!; [done| |congruence..].
  intros a. rewrite Hb3. destruct (decide (a = k)) as [->|Hne].
  - rewrite decide_False, decide_True by (done || by left). done.
  - destruct (decide (a ∈ ds.*1)) as [Hin|Hin].
    + rewrite decide_True by (by right). by apply Hse.
    + rewrite decide_False by (intros [?|?]%elem_of_cons; done). by apply Ho.
Qed.

(** The records of token types bring the old table back. *)
Lemma undo_types_loop (types existing table : gmap Z (list Z)) :
  (forall t a, types !! t = Some a -> table !! t = existing !! t) -> (forall t a, existing !! t = Some a -> a <> []) ->
  forall l m, (forall t, m !! t = table !! t \/ exists a, (t, a) ∈ l /\ m !! t = Some a) ->
    (forall t a, (t, a) ∈ l -> types !! t = Some a) -> foldl undo_type m (omap (token_record existing) l) = table.
Proof.
  intros Hex Hne. induction l as [|[t a] l IH]; intros m Hm Hl.
  { apply map_eq. intros t. destruct (Hm t) as [E|(a & H & _)]; [done|]. by apply elem_of_nil in H. }
  assert (forall t' a', (t', a') ∈ l -> types !! t' = Some a') as Hl' by (intros; apply Hl; by right).
  pose proof (Hl t a ltac:(by left)) as Hta. pose proof (Hex t a Hta) as Et.
  assert (forall m' : gmap Z (list Z), m' !! t = table !! t -> (forall j, j <> t -> m' !! j = m !! j) ->
    forall j, m' !! j = table !! j \/ exists b, (j, b) ∈ l /\ m' !! j = Some b) as Hstep.
  { intros m' Hat Hoth j. destruct (decide (j = t)) as [->|Hj]; [by left|]. rewrite Hoth by done.
    destruct (Hm j) as [|(b & Hin & Hb)]; [by left|]. right. exists b. split; [|done].
    apply elem_of_cons in Hin as [[= -> _]|]; done. }
  cbn [omap list_omap]. unfold token_record at 1. cbn [fst snd]. destruct (existing !! t) as [b|] eqn:Eb.
  - case_decide as Hab; [subst b|cbn [foldl]; unfold undo_type at 2; cbn [rt_Addr rt_ID]].
    + apply IH; [|done]. apply (Hstep m); [|done]. destruct (Hm t) as [|(c & Hin & Hc)]; [done|].
      rewrite Hc, Et. f_equal. apply elem_of_cons in Hin as [[= ->]|Hin]; [done|]. apply Hl' in Hin. congruence.
    + rewrite decide_False by (unfold slen; simpl; pose proof (Hne t b Eb); destruct b; [done|simpl; lia]).
      apply IH; [|done]. apply Hstep; [rewrite lookup_insert_eq, Et; done|intros; by rewrite lookup_insert_ne].
  - cbn [foldl]. unfold undo_type at 2. cbn [rt_Addr rt_ID]. rewrite decide_True by done. apply IH; [|done].
    apply Hstep; [by rewrite lookup_delete_eq, Et|intros; by rewrite lookup_delete_ne].
Qed.

Lemma undo_types_ok (types existing table : gmap Z (list Z)) :
  (forall t a, types !! t = Some a -> table !! t = existing !! t) -> (forall t a, existing !! t = Some a -> a <> []) ->
  undo_types (token_records types existing) (types ∪ table) = table.
Proof.
  intros Hex Hne. apply (undo_types_loop types); [done|done| |].
  - intros t. destruct (types !! t) as [a|] eqn:E; [|left; by rewrite lookup_union_r].
    right. exists a. split; [by apply elem_of_map_to_list|]. by apply lookup_union_Some_l.
  - intros t a Hin. by apply elem_of_map_to_list.
Qed.

(** ** Theorems *)

(** The state before a commit: every contract can be undone, and the token types that
    were read from the database are those of its table. *)
Definition block_ok (v : OVM) : Prop :=
  map_Forall (fun k d => d_contract d = k /\ undoable (v_DB v) d) (v_StateDB v) /\
  (forall t a, v_TokenTypes v !! t = Some a -> db_types (v_DB v) !! t = v_ExistingTokenTypes v !! t) /\
  (forall t a, v_ExistingTokenTypes v !! t = Some a -> a <> []).

Lemma database_eq db db' : (forall a, buckets_at db a = buckets_at db' a) -> db_types db = db_types db' ->
  db_last db = db_last db' -> db_rollback db = db_rollback db' -> db = db'.
Proof.
  destruct db, db'. unfold buckets_at. cbn. intros Hb -> -> ->. f_equal; apply map_eq; intros a; by injection (Hb a).
Qed.

(** C6: undoing a block brings the database back to what it was before the block was
    committed, when the state to commit is in order: the old value of every cached entry is
    that of the database, no key is empty, a contract that is not new has both of its buckets
    there, without empty values, a new one has none of them yet but has meta entries, the previous owners of the
    token types of the block were recorded, and the block is above the last one committed and
    has no record yet.  Reads, writes and deletions keep a contract in order (see
    [operations_keep_undoable]); a call that failed does not, since the copy that is put back
    has lost the mark of new contracts (see [copy_not_undone]).  Then the storage and meta
    entries of all contracts that ran in the block, old, new or destroyed, the owners of token
    types and the last committed block are what they were, and no record is left behind. *)
Theorem rollback_undoes_commit (v : OVM) (n : Z) (Hok : block_ok v) (Hne : v_StateDB v <> ∅)
    (Hn : db_last (v_DB v) < n) (Hfree : db_rollback (v_DB v) !! n = None) :
  exists v' v'', Commit v n = Ok v' /\ v_StateDB v' = ∅ /\ db_last (v_DB v') = n /\
    RollbackBlock v' n = Ok (v'', true) /\ v_DB v'' = v_DB v /\ v_lastBlock v'' = db_last (v_DB v).
Proof.
  destruct Hok as (Hds & Hty & Hty0). unfold Commit. rewrite decide_False by done. rewrite decide_False by lia.
  destruct (commit_loop_ok (map_to_list (v_StateDB v)) (v_DB v) []) as (ps & db' & -> & Hoth & Ht & Hl & Hr & Hback).
  - apply NoDup_fst_map_to_list.
  - apply Forall_forall. intros [k d] Hin. apply elem_of_map_to_list in Hin. by apply Hds.
  - cbn [mbind outcome_bind app].
    match goal with |- exists v' v'', Ok ?x = _ /\ _ => set (v1 := x) end.
    assert (exists v2, RollbackBlock v1 n = Ok (v2, true) /\ v_DB v2 = v_DB v /\ v_lastBlock v2 = db_last (v_DB v)) as (v2 & ? & ? & ?).
    2: { exists v1, v2. by split_and!. }
    unfold RollbackBlock, v1. cbn [v_lastBlock v_DB db_rollback]. rewrite decide_False by (intros H; by apply H).
    rewrite lookup_insert_eq. cbn [br_PrevBlock br_Tokentypes br_RollBacks db_contract db_storage db_types].
    match goal with |- context [undo_contracts ps ?x] => set (db2 := x); destruct (Hback db2) as (db3 & -> & Hb3 & Ft & Fl & Fr) end.
    { intros a _. done. }
    cbn [mbind outcome_bind]. eexists. split_and!; [done| |done]. cbn [v_DB]. change (default _ (Some db3)) with db3.
    apply database_eq.
    + intros a. rewrite Hb3. case_decide as Ha; [done|]. by rewrite <- Hoth.
    + rewrite Ft. unfold db2. cbn [db_types]. rewrite Ht. by apply undo_types_ok.
    + by rewrite Fl.
    + rewrite Fr. unfold db2. cbn [db_rollback]. rewrite Hr. by apply delete_insert_id.
Qed.

(** A contract with one changed entry, over a database where it has an old value. *)
Definition sample_ovm : OVM :=
  MkOVM (MkDb {[[7] := {[key_code := [1]]}]} {[[7] := {[[1] := [5; 5]]}]} ∅ 3 ∅)
    {[[7] := MkStateDB [7] {[[1] := MkEntry (Some [5; 5]) (Some [9]); [2] := MkEntry None (Some [4])]} ∅ false false false]} ∅ ∅ 3.

Lemma sample_undoable : undoable (v_DB sample_ovm)
  (MkStateDB [7] {[[1] := MkEntry (Some [5; 5]) (Some [9]); [2] := MkEntry None (Some [4])]} ∅ false false false).
Proof.
  split_and!; [split|reflexivity|reflexivity|].
  - intros k e. cbn [d_data]. rewrite lookup_insert_Some, lookup_singleton_Some. by intros [[<- <-]|[_ [<- <-]]].
  - done.
  - exists {[key_code := [1]]}, {[[1] := [5; 5]]}. split_and!; [reflexivity| | |].
    + intros k v. rewrite lookup_singleton_Some. by intros [_ <-].
    + intros k v. rewrite lookup_singleton_Some. by intros [_ <-].
    + intros v. by vm_compute.
Defined.

Lemma rollback_undoes_witness : exists v' v'', Commit sample_ovm 4 = Ok v' /\
  buckets_at (v_DB v') [7] = (Some {[key_code := [1]]}, Some {[[1] := [9]; [2] := [4]]}) /\
  RollbackBlock v' 4 = Ok (v'', true) /\ v_DB v'' = v_DB sample_ovm.
Proof.
  destruct (rollback_undoes_commit sample_ovm 4) as (v' & v'' & E & _ & _ & E2 & E3 & _).
  - split_and!; [|done|done]. intros k d. cbn [v_StateDB sample_ovm]. rewrite lookup_singleton_Some. intros [<- <-].
    split; [done|exact sample_undoable].
  - by intros H%(f_equal (lookup [7])).
  - reflexivity.
  - reflexivity.
  - exists v', v''. split_and!; [done| |done|done].
    assert (Ok v' = Commit sample_ovm 4) as E' by done. vm_compute in E'. injection E' as ->. vm_compute. reflexivity.
Defined.

(** ** States in order *)

(** No empty key comes in, and no meta entry goes. *)
Definition named (d d' : stateDB) : Prop :=
  (d_data d !! [] = None -> d_data d' !! [] = None) /\ (d_meta d !! [] = None -> d_meta d' !! [] = None) /\ (d_meta d <> ∅ -> d_meta d' <> ∅).

Global Instance named_preorder : PreOrder named.
Proof. split; [by intros d|]. intros d1 d2 d3 (A1 & A2 & A3) (B1 & B2 & B3). split_and!; auto. Qed.

Lemma set_data_named d k e : k <> [] -> named d (set_data_entry d k e).
Proof. intros Hk. split_and!; try done. cbn [set_data_entry d_data]. by rewrite lookup_insert_ne. Qed.
Lemma set_meta_named d k e : k <> [] -> named d (set_meta_entry d k e).
Proof. intros Hk. split_and!; [done|cbn [set_meta_entry d_meta]; by rewrite lookup_insert_ne|]. intros _. apply insert_non_empty. Qed.

Lemma setQuota_named db d q : named d (setQuota db d q).
Proof. unfold setQuota. repeat case_match; [reflexivity|by apply set_meta_named..]. Qed.
Lemma setUsage_named db d q : named d (setUsage db d q).
Proof. unfold setUsage. repeat case_match; [reflexivity|by apply set_meta_named..]. Qed.
Lemma getUsage_named db d q d' : getUsage db d = Ok (q, d') -> named d d'.
Proof.
  unfold getUsage. destruct (d_meta d !! key_usage); [intros H; apply bind_ok_inv in H as (? & _ & H); by injection H as _ <-|].
  destruct (GetMeta db d key_usage); [|by intros [= _ <-]]. intros H. apply bind_ok_inv in H as (? & _ & H). injection H as _ <-. by apply set_meta_named.
Qed.
Lemma GetState_named db d k : k <> [] -> named d (GetState db d k).2.
Proof. intros Hk. unfold GetState. repeat case_match; try reflexivity. by apply set_data_named. Qed.

Lemma SetState_named db d k v d' : k <> [] -> SetState db d k v = Ok d' -> named d d'.
Proof.
  intros Hk. unfold SetState. destruct (d_suicided d); [by intros [= <-]|]. intros H. apply bind_ok_inv in H as ([q d1] & Hu & H). apply getUsage_named in Hu.
  set (r := match d_data d1 !! k with None => _ | Some e => _ end) in H. assert (named d r.2) as Hr.
  { unfold r. destruct (d_data d1 !! k); [etrans; [exact Hu|by apply set_data_named]|]. pose proof (GetState_named db d1 k Hk) as Hg. destruct (GetState db d1 k) as [m d2].
    etrans; [exact Hu|]. etrans; [exact Hg|by apply set_data_named]. }
  destruct r as [q2 d2]. apply bind_ok_inv in H as (quota & _ & H). injection H as <-. etrans; [exact Hr|].
  case_decide; [etrans; [apply setQuota_named|apply setUsage_named]|apply setUsage_named].
Qed.

Lemma drop_entry_named db d k e d' : k <> [] -> drop_entry db d k e = Ok d' -> named d d'.
Proof.
  intros Hk. unfold drop_entry. intros H. apply bind_ok_inv in H as ([q d1] & Hu & H). apply getUsage_named in Hu. apply bind_ok_inv in H as (u & _ & H). injection H as <-.
  etrans; [exact Hu|]. etrans; [apply setUsage_named|]. case_decide; [etrans; [apply setQuota_named|]|]; by apply set_data_named.
Qed.

Definition op_key (o : state_op) : list Z := match o with OpGet k | OpSet k _ | OpDelete k => k end.

Lemma run_op_named db d o r d' : op_key o <> [] -> run_op db d o = Ok (r, d') -> named d d'.
Proof.
  intros Hk. destruct o as [k|k v|k]; cbn [run_op op_key] in *.
  - pose proof (GetState_named db d k Hk) as Hg. destruct (GetState db d k) as [x d1]. by intros [= _ <-].
  - intros H. apply bind_ok_inv in H as (d1 & Hs & H). injection H as _ <-. by eapply SetState_named.
  - intros H. apply bind_ok_inv in H as (d1 & Hs & H). injection H as _ <-. unfold DeleteState in Hs. destruct (d_suicided d); [by injection Hs as <-|].
    destruct (d_data d !! k); [by eapply drop_entry_named|]. pose proof (GetState_named db d k Hk) as Hg. destruct (GetState db d k) as [x d2]. cbn [snd] in Hg.
    destruct x; [|by injection Hs as <-]. destruct (d_data d2 !! k); [|done]. etrans; [exact Hg|by eapply drop_entry_named].
Qed.

Lemma run_op_frame db d o : state_ok db d -> d_suicided d = false -> exists r d', run_op db d o = Ok (r, d') /\ state_ok db d' /\ same_frame d d'.
Proof.
  intros Hok Hs. destruct o as [k|k v|k]; cbn [run_op].
  - destruct (GetState_ok db d k Hok) as (_ & Hok' & F & _). destruct (GetState db d k) as [x d1]. eauto.
  - destruct (SetState_ok db d k v Hok Hs) as (d1 & -> & Hok' & F & _). cbn [mbind outcome_bind]. eauto.
  - destruct (DeleteState_ok db d k Hok Hs) as (d1 & -> & Hok' & F & _). cbn [mbind outcome_bind]. eauto.
Qed.

(** Reads, writes and deletions at keys that are not empty keep a live contract in order. *)
Theorem operations_keep_undoable (db : database) (os : list state_op) : forall (d : stateDB) (Hu : undoable db d) (Hc : counters_ok db d) (Hs : d_suicided d = false)
    (Hk : Forall (fun o => op_key o <> []) os), exists vs d', run_ops db d os = Ok (vs, d') /\ undoable db d' /\ counters_ok db d'.
Proof.
  induction os as [|o os IH]; intros d Hu Hc Hs Hk; [by exists [], d|]. inversion Hk as [|? ? Hko Hkos]; subst. cbn [run_ops]. pose proof Hu as (Hcoh & D & M & B).
  destruct (run_op_frame db d o (conj Hcoh Hc) Hs) as (r & d1 & E & [Hcoh1 Hc1] & F1 & F2 & F3). destruct (run_op_named db d o r d1 Hko E) as (N1 & N2 & N3).
  rewrite E. cbn [mbind outcome_bind]. destruct (IH d1) as (vs & d2 & -> & Hu2 & Hc2); [|done|congruence|done|eexists _, _; by split_and!].
  split_and!; [done|by apply N1|by apply N2|]. rewrite F1, F2, F3. destruct (d_fresh d); [destruct B as [B1 B2]; split; [done|]; intros H; by apply N3, B2|done].
Qed.

(** A contract that was created in the block, and its copy, which [Call] puts back when a later call fails. *)
Definition created : stateDB := MkStateDB [7] ∅ {[key_code := MkEntry None (Some [1])]} false true false.
Definition after_failed_call : OVM := MkOVM (MkDb ∅ ∅ ∅ 3 ∅) {[[7] := Copy created]} ∅ ∅ 3.

(** The copy is committed as an old contract, so that undoing the block leaves the buckets of a contract that does not exist. *)
Theorem copy_not_undone : exists v' v'', Commit after_failed_call 4 = Ok v' /\ RollbackBlock v' 4 = Ok (v'', true) /\
  buckets_at (v_DB after_failed_call) [7] = (None, None) /\ buckets_at (v_DB v'') [7] = (Some ∅, Some ∅).
Proof. eexists _, _. split_and!; vm_compute; reflexivity. Qed.

(** The storage bucket after a commit, entry by entry. *)
Lemma commit_storage db d : undoable db d -> d_suicided d = false -> d_fresh d = false ->
  exists p db' bs, commit db d = Ok (p, db') /\ db_storage db' !! d_contract d = Some bs /\
    forall k, bs !! k = match (clean d).1 !! k with Some t => nz (e_data t) | None => stored db d k end.
Proof.
  intros ([Cd Cm] & Hd & Hm & Hb) Hs Hf. rewrite Hf in Hb. destruct Hb as (bc & bs & Hb & Hokc & Hoks & _).
  pose proof Hb as [= Hc Hst].
  destruct (write_back_ok db d bc bs Hb Hd Hm) as (bc' & bs' & E & Vs & _).
  - intros k t Ht. apply clean_data_Some in Ht as (e & He & -> & _). eapply fits_coherent; [done|apply nz_default|].
    rewrite (Cd k e He). unfold stored. by rewrite Hf, Hst.
  - intros k t Ht. apply clean_meta_Some in Ht as (e & He & _ & E). eapply fits_coherent; [done|exact E|].
    rewrite (Cm k e He). unfold GetMeta. by rewrite Hs, Hf, Hc.
  - unfold commit. rewrite Hs. fold (clean d). destruct (clean d) as [data meta]. cbn [fst snd] in *.
    unfold make_buckets. rewrite Hc, E. cbn [mbind outcome_bind]. eexists _, _, bs'. split_and!; [done|cbn; apply lookup_insert_eq|].
    intros k. rewrite Vs. unfold stored. by rewrite Hf, Hst.
Qed.

(** After a commit the storage of a contract is what the contract saw, with empty
    values as missing ones, at every key that is not the name of an unchanged meta entry. *)
Theorem commit_writes_view (db : database) (d : stateDB) (Hu : undoable db d) (Hs : d_suicided d = false) (Hf : d_fresh d = false) :
  exists p db' bs, commit db d = Ok (p, db') /\ db_storage db' !! d_contract d = Some bs /\
    forall k, (forall e, d_meta d !! k = Some e -> changed e = true) -> bs !! k = nz (view db d k).
Proof.
  destruct (commit_storage db d Hu Hs Hf) as (p & db' & bs & E & Hb & V). exists p, db', bs. split_and!; [done|done|].
  intros k Hk. rewrite V. unfold view. rewrite Hs. destruct Hu as ([Cd _] & _ & _ & Hbk). rewrite Hf in Hbk.
  destruct Hbk as (bc & bs0 & [= Hc Hst] & _ & Hoks & _).
  assert (nz (stored db d k) = stored db d k) as Hnz by (unfold stored; rewrite Hf, Hst; by apply nz_lookup).
  unfold clean, clean_meta, clean_data. cbn [fst]. rewrite map_lookup_filter, lookup_fmap, map_lookup_filter.
  destruct (d_data d !! k) as [e|] eqn:He; [|done]. cbn. destruct (changed e) eqn:Hc'; cbn.
  - destruct (d_meta d !! k) as [e'|] eqn:He'; [rewrite (Hk e' eq_refl)|]; done.
  - rewrite <- Hnz, <- (Cd k e He). unfold changed in Hc'. apply negb_false_iff, same_bytes_nz in Hc'. done.
Qed.

Lemma commit_writes_witness : exists p db' bs,
  commit (v_DB sample_ovm) (MkStateDB [7] {[[1] := MkEntry (Some [5; 5]) (Some [9]); [2] := MkEntry None (Some [4])]} ∅ false false false)
    = Ok (p, db') /\ db_storage db' !! [7] = Some bs /\ bs !! [1] = Some [9].
Proof.
  destruct (commit_writes_view _ _ sample_undoable eq_refl eq_refl) as (p & db' & bs & E & Hb & V).
  exists p, db', bs. split_and!; [exact E|exact Hb|]. rewrite V; [reflexivity|]. intros e H. vm_compute in H. discriminate.
Defined.

(** A pending write to a key that is also the name of an unchanged meta entry is
    lost at the commit: the loop that drops unchanged meta entries deletes from the
    wrong map.  The meta entry [code] is cached, unchanged, in every contract that has
    been called, so that the four bytes of [code] are a key no contract can store at. *)
Theorem commit_loses_write (db : database) (d : stateDB) (k : list Z) (e : entry)
    (Hu : undoable db d) (Hs : d_suicided d = false) (Hf : d_fresh d = false)
    (He : d_meta d !! k = Some e) (Hc : changed e = false) :
  exists p db' bs, commit db d = Ok (p, db') /\ db_storage db' !! d_contract d = Some bs /\ bs !! k = stored db d k.
Proof.
  destruct (commit_storage db d Hu Hs Hf) as (p & db' & bs & E & Hb & V). exists p, db', bs. split_and!; [done|done|].
  rewrite V. unfold clean, clean_meta. cbn [fst]. rewrite map_lookup_filter. destruct (clean_data (d_data d) !! k); [|done].
  cbn. by rewrite He, Hc.
Qed.

Lemma commit_loses_witness : exists p db' bs,
  commit (v_DB sample_ovm) (MkStateDB [7] {[key_code := MkEntry None (Some [9])]} {[key_code := MkEntry (Some [1]) (Some [1])]} false false false)
    = Ok (p, db') /\ db_storage db' !! [7] = Some bs /\ bs !! key_code = None.
Proof.
  apply (commit_loses_write (v_DB sample_ovm)
    (MkStateDB [7] {[key_code := MkEntry None (Some [9])]} {[key_code := MkEntry (Some [1]) (Some [1])]} false false false)
    key_code (MkEntry (Some [1]) (Some [1]))); try reflexivity.
  split_and!; [split|reflexivity|reflexivity|].
  - intros k e. cbn [d_data]. rewrite lookup_singleton_Some. by intros [<- <-].
  - intros k e. cbn [d_meta]. rewrite lookup_singleton_Some. by intros [<- <-].
  - exists {[key_code := [1]]}, {[[1] := [5; 5]]}. split_and!; [reflexivity| | |].
    + intros k v. rewrite lookup_singleton_Some. by intros [_ <-].
    + intros k v. rewrite lookup_singleton_Some. by intros [_ <-].
    + intros v. by vm_compute.
Defined.

(** A snapshot forgets whose state it is once the contract is destroyed: committing
    the copy of a destroyed contract changes nothing, while committing the contract
    itself marks it in the database. *)
Theorem snapshot_forgets_destruction (db : database) (d : stateDB) (bc : bucket)
    (Hs : d_suicided d = true) (Hb : db_contract db !! d_contract d = Some bc) (Hz : db_contract db !! replicate 20 0 = None) :
  (exists p, commit db (Copy d) = Ok (p, db)) /\
  (exists p db' b, commit db d = Ok (p, db') /\ db_contract db' !! d_contract d = Some b /\ b !! key_suicided = Some [1]).
Proof.
  unfold commit, Copy. rewrite Hs. cbn [d_suicided d_contract d_fresh]. rewrite Hz, Hb. split; [by eexists|].
  eexists _, _, _. split_and!; [done|cbn; apply lookup_insert_eq|apply lookup_insert_eq].
Qed.

Lemma snapshot_forgets_witness : exists p, commit (v_DB sample_ovm) (Copy (Suicide (NewStateDB [7]))) = Ok (p, v_DB sample_ovm).
Proof. by apply (snapshot_forgets_destruction (v_DB sample_ovm) (Suicide (NewStateDB [7])) {[key_code := [1]]}). Defined.
