(* ===== verification/OvmInstr.v ===== *)
(** * More instructions of the virtual machine

    Models, of [omega/ovm/instructions.go], the instructions that move data
    ([opCopyImm], [opConv]), hash memory ([opHash], [opHash160]), use the contract's
    state ([opLoad], [opStore], [opDel], [opMeta]), ask about the block and the
    transaction ([opTime], [opHeight], [opVersion], [opReceived], [opTokenContract]),
    and load a library ([opLibLoad]).  The hash functions, the code of a contract in the
    blocks and the memory behind a slice are parameters. *)
From Stdlib Require Import ZArith Lia Ascii.
From stdpp Require Import gmap list.
From S2P Require Import Prelude Difficulty OvmCode OvmStack OvmNum OvmBytes OvmControl OvmCall OvmState OvmCommit.

Open Scope Z_scope.

(** What the instructions see of the node. *)
Record env := MkEnv {
  en_ovm : OVM;
  en_BlockTime : Z;
  en_BlockNumber : Z;
  (** The version of the transaction, if there is one. *)
  en_version : option Z;
  (** The bytes of [GetCurrentOutput()]. *)
  en_output : list Z;
}.

Definition set_ovm (e : env) (v : OVM) : env :=
  MkEnv v (en_BlockTime e) (en_BlockNumber e) (en_version e) (en_output e).

(** [evm.StateDB[a]], a nil pointer when it is missing. *)
Definition state_at (v : OVM) (a : list Z) : outcome stateDB :=
  match v_StateDB v !! a with Some d => Ok d | None => Panic end.
Definition put_state (v : OVM) (a : list Z) (d : stateDB) : OVM :=
  MkOVM (v_DB v) (<[a := d]> (v_StateDB v)) (v_TokenTypes v) (v_ExistingTokenTypes v) (v_lastBlock v).

(** ** Scanning number operands *)

(** The common loop: every operand is a number, of the type that [ty] gives for its
    position; other characters are passed over. *)
Fixpoint scan_nums (ty : Z -> outcome Z) (s : Stack) (param : list Z) (skip : nat) (top : Z) (acc : list Z) : res (list Z) :=
  match param with
  | [] => Ok (inl acc)
  | c :: rest =>
      match skip with
      | S skip => scan_nums ty s rest skip top acc
      | O =>
          if starts_operand c then
            t ← ty top;
            '(num, tl) ⇐ getNum s (c :: rest) t;
            scan_nums ty s rest (Z.to_nat tl) (top + 1) (acc ++ [num])
          else scan_nums ty s rest 0 top acc
      end
  end.

Definition nth_num (nums : list Z) (i : nat) : Z := default 0 (nums !! i).
(** [var dest pointer], set by every operand in turn. *)
Definition last_pointer (nums : list Z) : Z := u64 (default 0 (last nums)).
Definition addresses (_ : Z) : outcome Z := Ok type_addr.

(** ** Block and transaction *)

Definition opTime (e : env) (c : Contract) (pc : Z) (s : Stack) : res Stack :=
  param ← GetBytes c pc;
  nums ⇐ scan_nums addresses s param 0 0 [];
  saveInt32 s (last_pointer nums) (i32 (en_BlockTime e)).

Definition opHeight (e : env) (c : Contract) (pc : Z) (s : Stack) : res Stack :=
  param ← GetBytes c pc;
  nums ⇐ scan_nums addresses s param 0 0 [];
  saveInt32 s (last_pointer nums) (i32 (en_BlockNumber e)).

Definition opVersion (e : env) (c : Contract) (pc : Z) (s : Stack) : res Stack :=
  param ← GetBytes c pc;
  nums ⇐ scan_nums addresses s param 0 0 [];
  saveInt32 s (last_pointer nums) (default 1 (en_version e)).

(** The first operand ends the loop. *)
Fixpoint received_loop (e : env) (s : Stack) (param : list Z) : res Stack :=
  match param with
  | [] => Ok (inl s)
  | c :: rest =>
      if starts_operand c then '(num, _) ⇐ getNum s (c :: rest) type_addr; saveBytes s (u64 num) (en_output e)
      else received_loop e s rest
  end.

Definition opReceived (e : env) (c : Contract) (pc : Z) (s : Stack) : res Stack :=
  param ← GetBytes c pc; received_loop e s param.

Definition opTokenContract (e : env) (c : Contract) (pc : Z) (s : Stack) : res Stack :=
  param ← GetBytes c pc;
  nums ⇐ scan_nums (slice_get [type_addr; ch "Q"]) s param 0 0 [];
  let addr := db_types (v_DB (en_ovm e)) !! u64 (default 0 (last nums)) in
  saveBytes s (u64 (nth_num nums 0)) (default (replicate 20 0) addr).

(** ** Hashes *)

Section Hashes.
Context (HashB Hash160 Ripemd160 : list Z -> list Z) (spare : Stack -> Z -> list Z).

Definition opHash (c : Contract) (pc : Z) (s : Stack) : res Stack :=
  param ← GetBytes c pc;
  nums ⇐ scan_nums (slice_get [type_addr; type_addr; ch "D"]) s param 0 0 [];
  let t := u64 (nth_num nums 1) in
  let a := ptr_offset t in
  let b := a + ptr_offset (u64 (nth_num nums 2)) in
  match s_data s !! ptr_area t with
  | None => Ok (inr MemoryAddressFault)
  | Some f =>
      text ← slice_cap (f_space f) (spare s (ptr_area t)) a b;
      saveBytes s (u64 (nth_num nums 0)) (HashB text)
  end.

(** [dataType] has three entries although four operands are meant. *)
Definition opHash160 (c : Contract) (pc : Z) (s : Stack) : res Stack :=
  param ← GetBytes c pc;
  nums ⇐ scan_nums (slice_get [type_addr; type_addr; ch "D"]) s param 0 0 [];
  let t := u64 (nth_num nums 1) in
  let a := ptr_offset t in
  let b := a + ptr_offset (u64 (nth_num nums 2)) in
  match s_data s !! ptr_area t with
  | None => Ok (inr MemoryAddressFault)
  | Some f =>
      if decide (len (f_space f) < b) then Ok (inr MemoryAddressFault)
      else
        text ← slice_sub (f_space f) a b;
        let hash := if decide ((length nums < 4)%nat \/ nth_num nums 3 = 0) then Hash160 text else Ripemd160 text in
        saveBytes s (u64 (nth_num nums 0)) hash
  end.
End Hashes.

(** ** Conversions *)

(** [scratch], the operands with their types, as many as were read. *)
Fixpoint conv_loop (s : Stack) (param : list Z) (skip : nat) (ops : list (Z * Z)) (dtype : Z) (unsigned : bool) : res (list (Z * Z) * bool) :=
  match param with
  | [] => Ok (inl (ops, unsigned))
  | c :: rest =>
      match skip with
      | S skip => conv_loop s rest skip ops dtype unsigned
      | O =>
          if starts_operand c then
            '(num, tl) ⇐ getNum s (c :: rest) type_addr;
            if decide (length ops < 2)%nat then conv_loop s rest (Z.to_nat tl) (ops ++ [(dtype, u64 num)]) 0 unsigned
            else Panic
          else if decide (c ∈ [ch "B"; ch "W"; ch "D"; ch "Q"; ch "H"]) then conv_loop s rest 0 ops c unsigned
          else if decide (c = ch "u") then conv_loop s rest 0 ops dtype true
          else conv_loop s rest 0 ops dtype unsigned
      end
  end.

(** [copy(space[o:], b)] panics when [o] is past the end. *)
Definition copy_to (s : Stack) (area o : Z) (b : list Z) : outcome Stack :=
  f ← frame_at s area;
  if decide (0 <= o <= len (f_space f)) then Ok (put_space s area f (copy_at (f_space f) o b)) else Panic.

Definition space_get (s : Stack) (area i : Z) : outcome Z := f ← frame_at s area; slice_get (f_space f) i.

(** [for ; n < m; n++ { space[o+n] = 0xFF }] on [k] bytes. *)
Fixpoint fill_loop (k : nat) (s : Stack) (area o n : Z) : outcome Stack :=
  match k with
  | O => Ok s
  | S k =>
      f ← frame_at s area;
      sp ← slice_set (f_space f) (u32 (o + n)) 0xFF;
      fill_loop k (put_space s area f sp) area o (n + 1)
  end.

(** [for i := m; i < n; i++ { if space[o+i] != v { overflow } }] on [k] bytes. *)
Fixpoint check_loop (k : nat) (s : Stack) (area o i v : Z) : res unit :=
  match k with
  | O => Ok (inl ())
  | S k => b ← space_get s area (u32 (o + i)); if decide (b <> v) then Ok (inr NumericOverflow) else check_loop k s area o (i + 1) v
  end.

Section Conv.
Context (spare : Stack -> Z -> list Z).

Definition opConv (c : Contract) (pc : Z) (s : Stack) : res Stack :=
  param ← GetBytes c pc;
  '(ops, unsigned) ⇐ conv_loop s param 0 [] 0 false;
  let '(srcType, p) := default (0, 0) (ops !! 0%nat) in
  let '(destType, q) := default (0, 0) (ops !! 1%nat) in
  let n := sizeOfType srcType in
  let m := sizeOfType destType in
  let srcType := if decide (srcType = ch "B" /\ destType = ch "H") then ch "H" else srcType in
  let destType := if decide (srcType = ch "H" /\ destType = ch "B") then ch "H" else destType in
  let a0 := ptr_area p in
  let a1 := ptr_area q in
  let o0 := u32 p in
  let o1 := u32 q in
  match s_data s !! a0, s_data s !! a1 with
  | Some f0, Some _ =>
      if decide (srcType = destType) then
        b ← slice_cap (f_space f0) (spare s a0) o0 (u32 (o0 + sizeOfType destType));
        s ← copy_to s a1 o1 b;
        Ok (inl s)
      else if decide (m > n) then
        b ← slice_cap (f_space f0) (spare s a0) o0 (u32 (o0 + n));
        s ← copy_to s a1 o1 b;
        top ← (if unsigned then Ok 0 else space_get s a0 (u32 (u32 (o0 + n) - 1)));
        if decide (Z.land top 0x80 = 0) then
          s ← copy_to s a1 (u32 (o1 + n)) (replicate (Z.to_nat (m - n)) 0);
          Ok (inl s)
        else s ← fill_loop (Z.to_nat (m - n)) s a1 o1 n; Ok (inl s)
      else
        top ← (if unsigned then Ok 0 else space_get s a0 (u32 (u32 (o0 + m) - 1)));
        _ ⇐ check_loop (Z.to_nat (n - m)) s a0 o0 m (if decide (Z.land top 0x80 = 0) then 0 else 0xFF);
        b ← slice_cap (f_space f0) (spare s a0) o0 (u32 (o0 + m));
        s ← copy_to s a1 o1 b;
        Ok (inl s)
  | _, _ => Ok (inr MemoryAddressFault)
  end.
End Conv.

(** ** Copying immediate data *)

Record imm_state := MkImm { im_stack : Stack; im_dest : Z; im_type : Z; im_dlen : Z }.

(** The types of operands that are numbers, and those that are byte strings. *)
Definition is_num_type (ty : Z) : bool := bool_decide (ty ∈ [type_addr; ch "B"; ch "D"; ch "W"; ch "Q"]).
Definition is_key_type (ty : Z) : bool := bool_decide (ty ∈ [ch "k"; ch "K"; ch "r"; ch "R"]).
Definition is_hash_type (ty : Z) : bool := bool_decide (ty ∈ [ch "h"; ch "H"]).

Section Imm.
(** [slack b] is what follows the byte string [b] in its backing array. *)
Context (spare : Stack -> Z -> list Z) (slack : list Z -> list Z).

(** An operand of the current type is read, then stored at [dest], which moves on. *)
Definition imm_operand (param : list Z) (st : imm_state) : res (imm_state * Z) :=
  let s := im_stack st in
  let ty := im_type st in
  let dest := im_dest st in
  if is_num_type ty then
    '(num, tl) ⇐ getNum s param ty;
    if decide (ty = type_addr) then Ok (inl (MkImm s (u64 num) ty (im_dlen st), tl))
    else if decide (ty = ch "B") then s ⇐ saveByte s dest (u8 num); Ok (inl (MkImm s (u64 (dest + 1)) ty (im_dlen st), tl))
    else if decide (ty = ch "D") then s ⇐ saveInt32 s dest (i32 num); Ok (inl (MkImm s (u64 (dest + 4)) ty (im_dlen st), tl))
    else if decide (ty = ch "Q") then s ⇐ saveInt64 s dest num; Ok (inl (MkImm s (u64 (dest + 8)) ty (im_dlen st), tl))
    else s ⇐ saveInt16 s dest (i16 num); Ok (inl (MkImm s (u64 (dest + 2)) ty (im_dlen st), tl))
  else if is_key_type ty then
    '(h, tl) ⇐ getBytes_checked spare s param ty 0;
    s ⇐ saveBytes s dest h; Ok (inl (MkImm s (u64 (dest + 32)) ty (im_dlen st), tl))
  else if is_hash_type ty then
    '(h, tl) ⇐ getHash s param;
    s ⇐ saveHash s dest h; Ok (inl (MkImm s (u64 (dest + 32)) ty (im_dlen st), tl))
  else
    '(h, tl) ⇐ getBytes_checked spare s param ty (u32 (im_dlen st));
    h ← slice_cap h (slack h) 0 (im_dlen st);
    s ⇐ saveBytes s dest h; Ok (inl (MkImm s (u64 (dest + u64 (im_dlen st))) ty (im_dlen st), tl)).

Fixpoint imm_loop (param : list Z) (skip : nat) (st : imm_state) : res Stack :=
  match param with
  | [] => Ok (inl (im_stack st))
  | c :: rest =>
      match skip with
      | S skip => imm_loop rest skip st
      | O =>
          if decide (c ∈ [ch "R"; ch "r"; ch "B"; ch "W"; ch "D"; ch "Q"; ch "H"; ch "h"; ch "k"; ch "K"]) then
            imm_loop rest 0 (MkImm (im_stack st) (im_dest st) c (im_dlen st))
          else if decide (c = ch "L") then
            '(dlen, tl) ⇐ getNum (im_stack st) rest (ch "L");
            imm_loop rest (Z.to_nat (tl + 1)) (MkImm (im_stack st) (im_dest st) (ch "L") dlen)
          else if starts_operand c then
            '(st, tl) ⇐ imm_operand (c :: rest) st;
            imm_loop rest (Z.to_nat tl) st
          else imm_loop rest 0 st
      end
  end.

Definition opCopyImm (c : Contract) (pc : Z) (s : Stack) : res Stack :=
  param ← GetBytes c pc;
  imm_loop param 0 (MkImm s 0 type_addr 0).
End Imm.

(** ** The contract's state *)

(** A number as a storage key: four bytes when it fits in them. *)
Definition index_key (num : Z) : list Z :=
  if decide (0 <= num < 2 ^ 32) then le_bytes 4 num else le_bytes 8 (u64 num).

(** The key and the place for the value. *)
Fixpoint load_loop (s : Stack) (param : list Z) (skip : nat) (top : Z) (h : list Z) (store : Z) : res (list Z * Z) :=
  match param with
  | [] => Ok (inl (h, store))
  | c :: rest =>
      match skip with
      | S skip => load_loop s rest skip top h store
      | O =>
          if starts_operand c then
            ty ← slice_get [type_addr; ch "Q"; ch "Z"] top;
            if decide (ty = ch "Z") then
              '(hash, tl) ⇐ getHash s (c :: rest);
              load_loop s rest (Z.to_nat tl) (top + 1) hash store
            else
              '(num, tl) ⇐ getNum s (c :: rest) ty;
              if decide (ty = ch "Q") then load_loop s rest (Z.to_nat tl) (top + 1) (index_key num) store
              else load_loop s rest (Z.to_nat tl) (top + 1) h (u64 num)
          else if decide (c = ch "Z" \/ c = ch "z") then load_loop s rest 0 (top + 1) h store
          else load_loop s rest 0 top h store
      end
  end.

(** [for i := 0; i < n; i++ { saveByte(&p, d[i]); p++ }] *)
Fixpoint store_bytes (s : Stack) (p : Z) (d : list Z) : res Stack :=
  match d with [] => Ok (inl s) | b :: d => s ⇐ saveByte s p b; store_bytes s (u64 (p + 1)) d end.

(** The error of [saveInt32] is dropped. *)
Definition opLoad (e : env) (c : Contract) (pc : Z) (s : Stack) : res (env * Stack) :=
  param ← GetBytes c pc;
  '(h, store) ⇐ load_loop s param 0 0 [] 0;
  d0 ← state_at (en_ovm e) (ct_self c);
  let '(d, d1) := GetState (v_DB (en_ovm e)) d0 h in
  let d := default [] d in
  r ← saveInt32 s store (i32 (len d));
  let s := match r with inl s => s | inr _ => s end in
  s ⇐ store_bytes s (u64 (store + 4)) d;
  Ok (inl (set_ovm e (put_state (en_ovm e) (ct_self c) d1), s)).

Record store_state := MkStore {
  st_top : Z; st_idx : Z; st_dt : Z; st_dlen : Z; st_fdlen : Z;
  (** [scratch]; an entry not yet set is nil. *)
  st_scratch : list (list Z);
}.

Section Store.
Context (spare : Stack -> Z -> list Z) (slack : list Z -> list Z).

(** After an operand: [fdlen = dlen; top++; dt = dataType[top]; dlen = sizeOfType[dt]; idx++]. *)
Definition store_next (st : store_state) (v : list Z) : outcome store_state :=
  scratch ← slice_set (st_scratch st) (st_idx st) v;
  dt ← slice_get [ch "Q"; ch "L"; ch "B"; ch "B"] (st_top st + 1);
  Ok (MkStore (st_top st + 1) (st_idx st + 1) dt (sizeOfType dt) (st_dlen st) scratch).

Definition store_operand (s : Stack) (param : list Z) (st : store_state) : res (store_state * Z) :=
  let dt := st_dt st in
  if is_key_type dt then '(b, tl) ⇐ getBytes_checked spare s param dt 0; st ← store_next st b; Ok (inl (st, tl))
  else if is_hash_type dt then '(b, tl) ⇐ getHash s param; st ← store_next st b; Ok (inl (st, tl))
  else if decide (dt = ch "L") then
    '(b, tl, err) ← getBytesLen spare s param (st_dlen st);
    match err with Some e => Ok (inr e) | None => st ← store_next st b; Ok (inl (st, tl)) end
  else
    '(num, tl) ⇐ getNum s param dt;
    let d := le_bytes 8 (u64 num) in
    if decide (st_top st = 0 /\ 0 <= num < 2 ^ 32) then st ← store_next st (take 4 d); Ok (inl (st, tl))
    else if decide (st_top st = 1) then
      Ok (inl (MkStore (st_top st + 1) (st_idx st) (ch "L") (u32 num) (st_fdlen st) (st_scratch st), tl))
    else st ← store_next st (take (Z.to_nat (sizeOfType dt)) d); Ok (inl (st, tl)).

Definition set_dt (st : store_state) (dt : Z) : store_state :=
  MkStore (st_top st) (st_idx st) dt (st_dlen st) (st_fdlen st) (st_scratch st).

Fixpoint store_loop (s : Stack) (param : list Z) (skip : nat) (st : store_state) : res store_state :=
  match param with
  | [] => Ok (inl st)
  | c :: rest =>
      match skip with
      | S skip => store_loop s rest skip st
      | O =>
          if decide (c ∈ [ch "i"; ch "g"; ch "z"; ch "Z"]) then
            dt ← (if decide (c = ch "g" \/ c = ch "i") then slice_get [ch "Q"; ch "D"; ch "L"] (st_top st) else Ok (ch "h"));
            '(st, tl) ⇐ store_operand s (c :: rest) (set_dt st dt);
            store_loop s rest (Z.to_nat tl) st
          else if is_digit c || is_hexdigit c || bool_decide (c = ch "x") then
            '(st, tl) ⇐ store_operand s (c :: rest) st;
            store_loop s rest (Z.to_nat tl) st
          else if decide (c ∈ [ch "R"; ch "r"; ch "B"; ch "W"; ch "D"; ch "Q"; ch "H"; ch "h"; ch "k"; ch "K"]) then
            store_loop s rest 0 (MkStore (st_top st + 1) (st_idx st) c (sizeOfType c) (st_fdlen st) (st_scratch st))
          else if decide (c = ch "L") then
            '(num, tl) ⇐ getNum s rest (ch "D");
            store_loop s rest (Z.to_nat (tl + 1)) (MkStore (st_top st) (st_idx st) (ch "L") (u32 num) (st_fdlen st) (st_scratch st))
          else store_loop s rest 0 st
      end
  end.

Definition opStore (e : env) (c : Contract) (pc : Z) (s : Stack) : res env :=
  f ← frame_at s (s_callTop s);
  if decide (Z.land (f_pure f) 1 <> 0) then Ok (inr StoreForbidden)
  else
    param ← GetBytes c pc;
    st ⇐ store_loop s param 0 (MkStore 0 0 (ch "Q") 8 8 [[]; []; []]);
    key ← slice_get (st_scratch st) 0;
    v ← slice_get (st_scratch st) 1;
    val ← slice_cap v (slack v) 0 (st_fdlen st);
    d ← state_at (en_ovm e) (ct_self c);
    d ← SetState (v_DB (en_ovm e)) d key val;
    Ok (inl (set_ovm e (put_state (en_ovm e) (ct_self c) d))).
End Store.

Fixpoint del_loop (s : Stack) (param : list Z) (skip : nat) (dt : Z) (k : list Z) : res (list Z) :=
  match param with
  | [] => Ok (inl k)
  | c :: rest =>
      match skip with
      | S skip => del_loop s rest skip dt k
      | O =>
          if decide (c = ch "D" \/ c = ch "Q") then del_loop s rest 0 c k
          else if starts_operand c then
            '(num, tl) ⇐ getNum s (c :: rest) dt;
            del_loop s rest (Z.to_nat tl) dt (index_key num)
          else del_loop s rest 0 dt k
      end
  end.

Definition opDel (e : env) (c : Contract) (pc : Z) (s : Stack) : res env :=
  param ← GetBytes c pc;
  k ⇐ del_loop s param 0 (ch "D") [];
  d ← state_at (en_ovm e) (ct_self c);
  d ← DeleteState (v_DB (en_ovm e)) d k;
  Ok (inl (set_ovm e (put_state (en_ovm e) (ct_self c) d))).

(** ** Meta data and code of contracts *)

Section Code.
(** [creator_of]: the creator found in the blocks from the first 32 bytes of the code
    entry.  [fetch_code]: the code in the blocks that a code entry refers to. *)
Context (creator_of fetch_code : list Z -> list Z) (spare : Stack -> Z -> list Z) (slack : list Z -> list Z).

(** [OVM.GetMeta]: the value is cached. *)
Definition get_meta_cached (db : database) (d : stateDB) (key : list Z) (m : slice) : slice * stateDB :=
  match m with
  | None => (None, d)
  | Some m => (Some m, set_meta_entry d key (MkEntry (Some m) (Some m)))
  end.

Definition ovm_meta (db : database) (d : stateDB) (key : list Z) : slice * stateDB :=
  if d_suicided d then (None, d)
  else match d_meta d !! key with
       | Some t => (e_data t, d)
       | None => get_meta_cached db d key (GetMeta db d key)
       end.

Definition ovm_GetMeta (db : database) (d : stateDB) (key : list Z) : outcome (slice * stateDB) :=
  if decide (d_suicided d = false /\ d_meta d !! key = None /\ GetMeta db d key = None /\ key = key_creator) then
    let '(code, d) := ovm_meta db d key_code in
    h ← slice_sub (default [] code) 0 32;
    Ok (get_meta_cached db d key (Some (creator_of h)))
  else Ok (ovm_meta db d key).

Definition ovm_GetCode (db : database) (d : stateDB) : list Z * stateDB :=
  let '(r, d) := ovm_meta db d key_code in (fetch_code (default [] r), d).

Fixpoint meta_loop (s : Stack) (param : list Z) (skip : nat) (top dest slen : Z) (key : list Z) : res (Z * list Z) :=
  match param with
  | [] => Ok (inl (dest, key))
  | c :: rest =>
      match skip with
      | S skip => meta_loop s rest skip top dest slen key
      | O =>
          if starts_operand c then
            ty ← slice_get [type_addr; ch "B"; ch "h"] top;
            if decide (ty = ch "h") then
              '(r, tl) ⇐ getBytes_checked spare s (c :: rest) (ch "h") 0;
              key ← slice_cap r (slack r) 0 slen;
              meta_loop s rest (Z.to_nat tl) (top + 1) dest slen key
            else
              '(num, tl) ⇐ getNum s (c :: rest) ty;
              if decide (top = 0) then meta_loop s rest (Z.to_nat tl) (top + 1) (u64 num) slen key
              else meta_loop s rest (Z.to_nat tl) (top + 1) dest num key
          else meta_loop s rest 0 top dest slen key
      end
  end.

Definition opMeta (e : env) (c : Contract) (pc : Z) (s : Stack) : res (env * Stack) :=
  param ← GetBytes c pc;
  '(dest, key) ⇐ meta_loop s param 0 0 0 0 [];
  d ← state_at (en_ovm e) (ct_self c);
  '(m, d) ← ovm_GetMeta (v_DB (en_ovm e)) d key;
  let m := default [] m in
  s ⇐ saveInt32 s dest (i32 (len m));
  s ⇐ saveBytes s (u64 (dest + 4)) m;
  Ok (inl (set_ovm e (put_state (en_ovm e) (ct_self c) d), s)).

(** *** Loading a library *)

Definition OP_INIT : Z := 1.
Definition INHERIT : Z := 0x20.

Record lib_state := MkLibState {
  ls_env : env; ls_contract : Contract; ls_stack : Stack; ls_pc : Z;
  ls_top : Z; ls_pure : Z; ls_type : Z;
  (** [f], the frame of the call of the library's initialisation: its space, and
      whether it is on the stack. *)
  ls_space : list Z; ls_called : bool;
}.

(** The new code and library table; [base] is the global area of the library. *)
Definition add_lib (c : Contract) (d : list Z) (ccode : list inst) (base pure : Z) : Contract :=
  let entry := i32 (len (ct_Code c)) in
  MkContract (<[d := MkLib entry (i32 (entry + i32 (len ccode))) base pure]> (ct_libs c)) (ct_Code c ++ ccode) (ct_self c) (ct_pure c).

(** A library of its own: a global frame, and a call of its initialisation. *)
Definition load_lib (st : lib_state) (d : list Z) (ccode : list inst) : res lib_state :=
  let s := ls_stack st in
  let libTop := i32 (s_libTop s - 1) in
  if decide (libTop < -1024) then Ok (inr LibLimit)
  else
    let entry := i32 (len (ct_Code (ls_contract st))) in
    let g := MkFrame ([4; 0; 0; 0] ++ le_bytes 4 (u32 libTop) ++ [OP_INIT; 0; 0; 0]) d libTop 0 (ls_pure st) in
    let data := <[libTop := g]> (s_data s) in
    let callTop := i32 (s_callTop s + 1) in
    let sp := [4; 0; 0; 0] ++ le_bytes 4 (u32 callTop) ++ le_bytes 4 OP_INIT ++ [0; 0; 0; 0] in
    match data !! s_callTop s with
    | None => Panic
    | Some top =>
        let f := MkFrame sp d libTop (ls_pc st) (Z.lor (ls_pure st) (f_pure top)) in
        Ok (inl (MkLibState (ls_env st) (add_lib (ls_contract st) d ccode libTop (ls_pure st))
                   (MkStack callTop libTop (<[callTop := f]> data)) entry 2 (ls_pure st) (ls_type st) sp true))
    end.

(** An inherited one: its code extends the contract's own. *)
Definition inherit_lib (st : lib_state) (d : list Z) (ccode : list inst) : res lib_state :=
  let s := ls_stack st in
  if decide (s_callTop s <> 0 \/ s_libTop s <> 0) then Ok (inr ImproperInheritance)
  else
    let entry := i32 (len (ct_Code (ls_contract st))) in
    let c := add_lib (ls_contract st) d ccode 0 (ls_pure st) in
    f ← frame_at s 0;
    let f := MkFrame (f_space f) (f_inlib f) (f_gbase f) (f_pc f) (Z.lor (f_pure f) (ls_pure st)) in
    let lb := lib_at c (f_inlib f) in
    let lb := MkLib (l_address lb) (i32 (len (ct_Code c))) (l_base lb) (l_pure lb) in
    let c := MkContract (<[f_inlib f := lb]> (ct_libs c)) (ct_Code c) (ct_self c) (ct_pure c) in
    Ok (inl (MkLibState (ls_env st) c (set_data s (<[0 := f]> (s_data s))) entry 2 (ls_pure st) (ls_type st) (ls_space st) false)).

(** The library's address: loaded already, or else found and loaded.  [None] ends the
    instruction at once, at the next one. *)
Definition lib_address (st : lib_state) (bnum : list Z) : res (option lib_state) :=
  d ← slice_cap bnum (slack bnum) 0 20;
  if decide (is_Some (ct_libs (ls_contract st) !! d)) then Ok (inl None)
  else
    let v := en_ovm (ls_env st) in
    let sd := NewStateDB d in
    if negb (Exists (v_DB v) sd true) then Ok (inr LibMissing)
    else
      let '(code, sd) := ovm_GetCode (v_DB v) sd in
      let ccode := ByteCodeParser code in
      let st := MkLibState (set_ovm (ls_env st) (put_state v d sd)) (ls_contract st) (ls_stack st) (ls_pc st)
                  (ls_top st) (ls_pure st) (ls_type st) (ls_space st) (ls_called st) in
      st ⇐ (if decide (Z.land (ls_pure st) INHERIT = 0) then load_lib st d ccode else inherit_lib st d ccode);
      Ok (inl (Some st)).

(** A parameter of the initialisation.  The space of a frame that is still empty has
    zeros behind it. *)
Definition lib_param (st : lib_state) (num : Z) : outcome lib_state :=
  h ← slice_cap (ls_space st) (replicate 4 0) 0 4;
  let ln := u32 (le_value h + 8) in
  let sp := copy_at (ls_space st) 0 (le_bytes 4 ln) in
  rest ← slice_sub sp ln (len sp);
  let sp := rest ++ le_bytes 8 (u64 num) in
  s ← (if ls_called st then f ← frame_at (ls_stack st) (s_callTop (ls_stack st));
                            Ok (put_space (ls_stack st) (s_callTop (ls_stack st)) f sp)
       else Ok (ls_stack st));
  Ok (MkLibState (ls_env st) (ls_contract st) s (ls_pc st) (ls_top st) (ls_pure st) (ls_type st) sp (ls_called st)).

Definition set_lib_type (st : lib_state) (ty : Z) : lib_state :=
  if decide (ls_top st = 2) then
    MkLibState (ls_env st) (ls_contract st) (ls_stack st) (ls_pc st) (ls_top st) (ls_pure st) ty (ls_space st) (ls_called st)
  else st.

(** [inl None]: the library was loaded before. *)
Fixpoint lib_loop (param : list Z) (skip : nat) (st : lib_state) : res (option lib_state) :=
  match param with
  | [] => Ok (inl (Some st))
  | x :: rest =>
      match skip with
      | S skip => lib_loop rest skip st
      | O =>
          if decide (x = ch "@") then lib_loop rest 0 (set_lib_type st type_addr)
          else if decide (x ∈ [ch "B"; ch "W"; ch "D"; ch "Q"]) then lib_loop rest 0 (set_lib_type st x)
          else if decide (x = ch "H") then lib_loop rest 0 (set_lib_type st (ch "Q"))
          else if starts_operand x then
            if decide (ls_top st = 1) then
              '(bnum, tl) ⇐ getBytes_checked spare (ls_stack st) (x :: rest) (ch "r") 0;
              r ⇐ lib_address st bnum;
              match r with None => Ok (inl None) | Some st => lib_loop rest (Z.to_nat tl) st end
            else
              '(num, tl) ⇐ getNum (ls_stack st) (x :: rest) (if decide (ls_top st = 0) then ch "B" else ls_type st);
              if decide (ls_top st = 0) then
                lib_loop rest (Z.to_nat tl)
                  (MkLibState (ls_env st) (ls_contract st) (ls_stack st) (ls_pc st) 1 (u8 num) (ls_type st) (ls_space st) (ls_called st))
              else st ← lib_param st num; lib_loop rest (Z.to_nat tl) st
          else lib_loop rest 0 st
      end
  end.

Definition opLibLoad (e : env) (c : Contract) (pc : Z) (s : Stack) : res (Z * env * Contract * Stack) :=
  param ← GetBytes c pc;
  r ⇐ lib_loop param 0 (MkLibState e c s pc 0 0 (ch "Q") [] false);
  match r with
  | None => Ok (inl (i64 (pc + 1), e, c, s))
  | Some st =>
      if decide (ls_top st = 2) then Ok (inl (ls_pc st, ls_env st, ls_contract st, ls_stack st))
      else Ok (inr MalformedParameters)
  end.
End Code.
