(* ===== verification/OvmRun.v ===== *)
(** * The interpreter

    Models [omega/ovm/interpreter.go] ([enforceRestrictions] and [Run]) and the
    instruction table of [omega/ovm/jump_table.go].  The debugger and the printing of
    instructions are left out.  Instructions that are not modelled are the parameter
    [other], of which nothing is assumed. *)
From Stdlib Require Import ZArith Lia Ascii.
From stdpp Require Import gmap list.
From S2P Require Import Prelude Difficulty OvmCode OvmStack OvmNum OvmBytes OvmEval OvmControl OvmCall OvmState OvmCommit OvmInstr.

Open Scope Z_scope.

(** ** The jump table *)

(** An instruction: the new program counter, environment, contract and stack.  When it
    fails the interpreter reads no more of the stack than the length of its first
    space, which no instruction shortens, and the caller puts the state of contracts
    back, so that nothing is kept of its effects. *)
Definition executionFunc : Type := Z -> env -> Contract -> Stack -> res (Z * env * Contract * Stack).

Record operation := MkOperation {
  op_execute : executionFunc;
  op_halts : bool; op_jumps : bool; op_writes : bool; op_valid : bool; op_reverts : bool; op_returns : bool;
}.

Definition no_operation : operation := MkOperation (fun _ _ _ _ => Panic) false false false false false false.
(** An entry with [execute] and [valid] only, one that also jumps, one that also writes. *)
Definition plain_op (f : executionFunc) : operation := MkOperation f false false false true false false.
Definition jump_op (f : executionFunc) : operation := MkOperation f false true false true false false.
Definition write_op (f : executionFunc) : operation := MkOperation f false false true true false false.

(** The shapes of the instructions: on the stack, on the stack with a look at the
    environment, on the environment, on both. *)
Definition with_env (f : env -> Contract -> Z -> Stack -> res Stack) : executionFunc :=
  fun pc e c s => s ⇐ f e c pc s; Ok (inl (pc, e, c, s)).
Definition on_stack (f : Contract -> Z -> Stack -> res Stack) : executionFunc :=
  fun pc e c s => s ⇐ f c pc s; Ok (inl (pc, e, c, s)).
Definition on_env (f : env -> Contract -> Z -> Stack -> res env) : executionFunc :=
  fun pc e c s => e ⇐ f e c pc s; Ok (inl (pc, e, c, s)).
Definition on_both (f : env -> Contract -> Z -> Stack -> res (env * Stack)) : executionFunc :=
  fun pc e c s => '(e, s) ⇐ f e c pc s; Ok (inl (pc, e, c, s)).

(** [opNul], [opRevert] and [opStop]. *)
Definition opNone : executionFunc := fun pc e c s => Ok (inl (pc, e, c, s)).

Section Table.
Context (pow : Z -> Z -> Z -> Z) (HashB Hash160 Ripemd160 creator_of fetch_code : list Z -> list Z).
Context (spare : Stack -> Z -> list Z) (slack : list Z -> list Z) (other : Z -> executionFunc).

Definition opReturn' : executionFunc := fun pc e c s => '(pc, s) ← opReturn pc s; Ok (inl (pc, e, c, s)).
Definition opIf' : executionFunc := fun pc e c s => pc ⇐ opIf c pc s; Ok (inl (pc, e, c, s)).
Definition opCall' : executionFunc := fun pc e c s => '(pc, s) ⇐ opCall spare c pc s; Ok (inl (pc, e, c, s)).
Definition opLibLoad' : executionFunc := fun pc e c s => opLibLoad fetch_code spare slack e c pc s.

Definition omegaInstructionSet (op : Z) : operation :=
  match op with
  | 0x41 => plain_op (on_stack (opEval8 pow))
  | 0x42 => plain_op (on_stack (opEval16 pow))
  | 0x43 => plain_op (on_stack (opEval32 pow))
  | 0x44 => plain_op (on_stack (opEval64 pow))
  | 0x45 => plain_op (other 0x45)
  | 0x46 => plain_op (on_stack (opConv spare))
  | 0x47 => plain_op (on_stack (opHash HashB spare))
  | 0x48 => plain_op (on_stack (opHash160 Hash160 Ripemd160))
  | 0x49 => plain_op (other 0x49)
  | 0x4b => jump_op opIf'
  | 0x4c => jump_op opCall'
  | 0x4d => plain_op (other 0x4d)
  | 0x4e => plain_op (on_both opLoad)
  | 0x4f => write_op (on_env (opStore spare slack))
  | 0x50 => write_op (on_env opDel)
  | 0x51 => jump_op opLibLoad'
  | 0x52 => plain_op (on_stack opMalloc)
  | 0x53 => plain_op (on_stack opAlloc)
  | 0x54 => plain_op (on_stack opCopy)
  | 0x55 => plain_op (on_stack (opCopyImm spare slack))
  | 0x57 => MkOperation (other 0x57) true false true true false false
  | 0x58 => MkOperation opNone true false false true true true
  | 0x59 => plain_op opReturn'
  | 0x61 => plain_op (with_env opReceived)
  | 0x62 => plain_op (other 0x62)
  | 0x63 => plain_op (other 0x63)
  | 0x64 => plain_op opNone
  | 0x65 => write_op (other 0x65)
  | 0x66 => plain_op (other 0x66)
  | 0x67 => plain_op (other 0x67)
  | 0x68 => plain_op (other 0x68)
  | 0x69 => plain_op (other 0x69)
  | 0x6a => plain_op (other 0x6a)
  | 0x6b => plain_op (on_both (opMeta creator_of spare slack))
  | 0x6c => plain_op (with_env opTime)
  | 0x6d => plain_op (with_env opHeight)
  | 0x6e => plain_op (other 0x6e)
  | 0x6f => plain_op (with_env opVersion)
  | 0x70 => plain_op (with_env opTokenContract)
  | 0x71 => plain_op (other 0x71)
  | 0x72 => plain_op (other 0x72)
  | 0x7a => MkOperation opNone true false false true false true
  | _ => no_operation
  end.
End Table.

(** ** The main loop *)

Record interp := MkInterp {
  in_StepLimit : Z;
  in_depth : Z;
  in_Net : Z;
  in_env : env;
  in_returnData : list Z;
}.

Definition MainNet : Z := 0x4e585553.
Definition NOWRITE : Z := 1.

(** [pure &^ INHERIT] *)
Definition enforceRestrictions (o : operation) (s : Stack) : res unit :=
  f ← frame_at s (s_callTop s);
  if decide (Z.ldiff (f_pure f) INHERIT <> 0 /\ op_writes o = true) then Ok (inr WriteProtection) else Ok (inl ()).

(** The return data: the length in the first four bytes of frame 0, cut to its space. *)
Definition return_bound (s : Stack) : outcome Z :=
  f ← frame_at s 0;
  ln ← get_uint32 (f_space f);
  Ok (if decide (len (f_space f) < u32 (ln + 4)) then u32 (len (f_space f)) else u32 (ln + 4)).
Definition return_data (s : Stack) (mln : Z) : outcome (list Z) := f ← frame_at s 0; slice_sub (f_space f) 4 mln.

Section Run.
(** [abort n] is whether the run is cancelled when the loop tests for it the [n]-th time. *)
Context (JumpTable : Z -> operation) (abort : nat -> bool).

Inductive turn_result :=
  | Continue (it : interp) (c : Contract) (s : Stack) (pc : Z)
  | Return (ret : list Z) (err : option script_err) (it : interp).

(** One turn of the loop. *)
Definition turn (it : interp) (c : Contract) (s : Stack) (pc : Z) : outcome turn_result :=
  let lim := u32 (in_StepLimit it - 1) in
  let it := MkInterp lim (in_depth it) (in_Net it) (in_env it) (in_returnData it) in
  if decide (lim < 0 /\ in_Net it = MainNet) then Ok (Return [] (Some StepLimitExceeded) it)
  else
    op ← GetOp c pc;
    let o := JumpTable op in
    if negb (op_valid o) then Ok (Return [] (Some InvalidOpcode) it)
    else
      r ← enforceRestrictions o s;
      match r with
      | inr e => Ok (Return [] (Some e) it)
      | inl _ =>
          if decide (Z.land (ct_pure c) NOWRITE <> 0 /\ op_writes o = true) then Ok (Return [] (Some StateModification) it)
          else
            r ← op_execute o pc (in_env it) c s;
            match r with
            | inr e => Ok (Return [] (Some e) it)
            | inl (pc, env, c, s) =>
                mln ← return_bound s;
                rd ← (if op_returns o then return_data s mln else Ok (in_returnData it));
                let it := MkInterp (in_StepLimit it) (in_depth it) (in_Net it) env rd in
                if op_reverts o then ret ← return_data s mln; Ok (Return ret (Some ExecutionReverted) it)
                else if op_halts o then ret ← return_data s mln; Ok (Return ret None it)
                else if negb (op_jumps o) then
                  f ← frame_at s (s_callTop s);
                  if decide (i64 (pc + 1) < l_end (lib_at c (f_inlib f))) then Ok (Continue it c s (i64 (pc + 1)))
                  else Ok (Return [] (Some InstructionOutOfRange) it)
                else Ok (Continue it c s pc)
            end
      end.

Fixpoint run_loop (fuel n : nat) (it : interp) (c : Contract) (s : Stack) (pc : Z) : outcome (list Z * option script_err * interp) :=
  match fuel with
  | O => NoFuel
  | S fuel =>
      if abort n then Ok ([], None, it)
      else
        r ← turn it c s pc;
        match r with
        | Continue it c s pc => run_loop fuel (S n) it c s pc
        | Return ret err it => Ok (ret, err, it)
        end
  end.

(** The first frame holds the length of the input and the input. *)
Definition initial_stack (pure : Z) (input : list Z) : outcome Stack :=
  let s := set_data Newstack (<[0 := MkFrame (replicate 4 0) (replicate 20 0) 0 0 pure]> (s_data Newstack)) in
  if decide (input = []) then Ok s
  else
    '(s, _, _) ← malloc s (8 + len input);
    f ← frame_at s 0;
    sp ← put_uint32 (f_space f) 0 (len input);
    if decide (8 <= len sp) then Ok (put_space s 0 f (copy_at sp 8 input)) else Panic.

Definition enter (it : interp) : interp := MkInterp (in_StepLimit it) (in_depth it + 1) (in_Net it) (in_env it) [].
Definition leave (it : interp) : interp := MkInterp (in_StepLimit it) (in_depth it - 1) (in_Net it) (in_env it) (in_returnData it).

Definition Run (fuel : nat) (it : interp) (c : Contract) (input : list Z) : outcome (list Z * option script_err * interp) :=
  let it := enter it in
  if decide (ct_Code c = []) then Ok ([], None, leave it)
  else
    let l := MkLib 0 (i32 (len (ct_Code c))) 0 (ct_pure c) in
    let c := MkContract (<[replicate 20 0 := l]> (ct_libs c)) (ct_Code c) (ct_self c) (ct_pure c) in
    s ← initial_stack (ct_pure c) input;
    '(ret, err, it) ← run_loop fuel 0 it c s 0;
    Ok (ret, err, leave it).
End Run.

(** ** Loops *)

(** A state the interpreter can go on from: the current frame is there, and frame 0
    has room for the length of the return data. *)
Definition runnable (s : Stack) : Prop :=
  current_ok s /\ exists f, s_data s !! 0 = Some f /\ 4 <= len (f_space f).

Lemma return_bound_ok s : runnable s -> exists mln, return_bound s = Ok mln.
Proof.
  intros (_ & f & Hf & Hl). unfold return_bound, frame_at. rewrite Hf. cbn [mbind outcome_bind].
  destruct (get_uint32_ok (f_space f)) as [q ->]; [lia|]. by eexists.
Qed.

Section Loop.
Context (pow : Z -> Z -> Z -> Z) (HashB Hash160 Ripemd160 creator_of fetch_code : list Z -> list Z).
Context (spare : Stack -> Z -> list Z) (slack : list Z -> list Z) (other : Z -> executionFunc).
Let table := omegaInstructionSet pow HashB Hash160 Ripemd160 creator_of fetch_code spare slack other.

(** A jump to itself is taken for ever: the limit of steps is never reached. *)
Lemma self_jump_loops c s pc : runnable s -> GetOp c pc = Ok 0x4b -> opIf c pc s = Ok (inl pc) ->
  forall fuel n it, run_loop table (fun _ => false) fuel n it c s pc = NoFuel.
Proof.
  intros Hs Hop Hif. induction fuel as [|fuel IH]; intros n it; [done|]. cbn [run_loop]. unfold turn.
  cbn [in_StepLimit in_Net]. pose proof (uwrap_range 32 (in_StepLimit it - 1) ltac:(lia)) as Hr. unfold uint_range in Hr.
  rewrite decide_False by lia. rewrite Hop. cbn [mbind outcome_bind].
  change (table 0x4b) with (jump_op opIf'). cbn [jump_op op_valid op_writes op_execute op_returns op_reverts op_halts op_jumps negb].
  pose proof Hs as ([f Hf] & _). unfold enforceRestrictions, frame_at. rewrite Hf. cbn [mbind outcome_bind op_writes jump_op].
  rewrite decide_False by (intros [_ ?]; done). rewrite decide_False by (intros [_ ?]; done).
  unfold opIf'. rewrite Hif. cbn [res_bind mbind outcome_bind].
  destruct (return_bound_ok s Hs) as [mln ->]. cbn [mbind outcome_bind]. apply IH.
Qed.

(** C40: the limit of steps never stops a contract.  The counter is unsigned and is
    compared with zero, so the test is never true: on the main net, with any limit,
    the one instruction that jumps to itself runs for ever. *)
Theorem step_limit_never_stops (fuel : nat) (it : interp) :
  Run table (fun _ => false) fuel it (code_only ∅ [MkInst 0x4b [ch "1"; ch_comma; ch "0"; ch_comma]]) [] = NoFuel.
Proof.
  unfold Run. cbn [code_only ct_Code ct_libs ct_self ct_pure]. rewrite decide_False by done.
  unfold initial_stack. rewrite decide_True by done. cbn [mbind outcome_bind].
  rewrite self_jump_loops; [done| |reflexivity|vm_compute; reflexivity].
  split; [by eexists|]. eexists. by split.
Qed.
End Loop.

(** ** Return data *)

Lemma get_uint32_le (sp : list Z) : (4 <= length sp)%nat -> get_uint32 sp = Ok (le_value (take 4 sp)).
Proof. intros. unfold get_uint32. rewrite slice_sub_ok by lia. done. Qed.

(** The bound of the return data, from the first four bytes of frame 0. *)
Lemma return_bound_eq s f : s_data s !! 0 = Some f -> bytes (f_space f) -> 4 <= len (f_space f) < 2 ^ 32 ->
  let ln := le_value (take 4 (f_space f)) in
  return_bound s = Ok (if decide (2 ^ 32 - 4 <= ln) then ln + 4 - 2 ^ 32 else Z.min (ln + 4) (len (f_space f))).
Proof.
  intros Hf Hb Hl ln. unfold return_bound, frame_at. rewrite Hf. cbn [mbind outcome_bind].
  rewrite get_uint32_le by lia. cbn [mbind outcome_bind]. fold ln.
  assert (0 <= ln < 2 ^ 32) as Hln.
  { unfold ln. pose proof (le_value_bound (take 4 (f_space f)) (Forall_take _ 4 _ Hb)) as H. rewrite length_take in H.
    replace (8 * Z.of_nat (Nat.min 4 (length (f_space f)))) with 32 in H by lia. done. }
  assert (u32 (len (f_space f)) = len (f_space f)) as Eu by (apply uwrap_id; unfold uint_range; lia).
  destruct (decide (2 ^ 32 - 4 <= ln)).
  - assert (u32 (ln + 4) = ln + 4 - 2 ^ 32) as -> by (unfold uwrap; symmetry; apply (Z.mod_unique _ _ 1); lia).
    by rewrite decide_False by lia.
  - rewrite (uwrap_id 32 (ln + 4)) by (unfold uint_range; lia). case_decide; f_equal; lia.
Qed.

Section Stop.
Context (pow : Z -> Z -> Z -> Z) (HashB Hash160 Ripemd160 creator_of fetch_code : list Z -> list Z).
Context (spare : Stack -> Z -> list Z) (slack : list Z -> list Z) (other : Z -> executionFunc).
Let table := omegaInstructionSet pow HashB Hash160 Ripemd160 creator_of fetch_code spare slack other.

(** STOP ends the run with the bytes of frame 0 that its length field announces,
    no more than there are; but a length of 2^32 - 4 or more wraps around to an upper
    bound below the lower one, and the node panics. *)
Theorem stop_returns_data (fuel n : nat) (it : interp) (c : Contract) (s : Stack) (pc : Z) (f : frame)
    (Hop : GetOp c pc = Ok 0x7a) (Hc : current_ok s) (Hf : s_data s !! 0 = Some f) (Hb : bytes (f_space f))
    (Hl : 4 <= len (f_space f) < 2 ^ 32) :
  let ln := le_value (take 4 (f_space f)) in
  match run_loop table (fun _ => false) (S fuel) n it c s pc with
  | Ok (ret, err, _) => ln < 2 ^ 32 - 4 /\ err = None /\ ret = take (Z.to_nat ln) (drop 4 (f_space f))
  | Panic => 2 ^ 32 - 4 <= ln
  | NoFuel => False
  end.
Proof.
  cbn zeta. cbn [run_loop]. unfold turn. cbn [in_StepLimit in_Net].
  pose proof (uwrap_range 32 (in_StepLimit it - 1) ltac:(lia)) as Hr. unfold uint_range in Hr.
  rewrite decide_False by lia. rewrite Hop. cbn [mbind outcome_bind].
  change (table 0x7a) with (MkOperation opNone true false false true false true).
  cbn [op_valid op_writes op_execute op_returns op_reverts op_halts op_jumps negb].
  destruct Hc as [g Hg]. unfold enforceRestrictions, frame_at at 1. rewrite Hg. cbn [mbind outcome_bind op_writes].
  rewrite decide_False by (intros [_ ?]; done). rewrite decide_False by (intros [_ ?]; done).
  unfold opNone. cbn [mbind outcome_bind]. rewrite (return_bound_eq s f) by done. cbn [mbind outcome_bind].
  unfold return_data, frame_at. rewrite Hf. cbn [mbind outcome_bind].
  set (ln := le_value (take 4 (f_space f))).
  assert (0 <= ln < 2 ^ 32) as Hln.
  { unfold ln. pose proof (le_value_bound (take 4 (f_space f)) (Forall_take _ 4 _ Hb)) as H. rewrite length_take in H.
    replace (8 * Z.of_nat (Nat.min 4 (length (f_space f)))) with 32 in H by lia. done. }
  destruct (decide (2 ^ 32 - 4 <= ln)).
  - unfold slice_sub. rewrite decide_False by lia. done.
  - rewrite slice_sub_ok by lia. cbn [mbind outcome_bind]. split_and!; [lia|done|].
    change (Z.to_nat 4) with 4%nat. destruct (decide (ln + 4 <= len (f_space f))).
    + f_equal. lia.
    + rewrite Z.min_r by lia. rewrite !take_ge; [done|rewrite length_drop; lia..].
Qed.
End Stop.

(** The program that stores the length 2^32 - 1 and stops. *)
Definition huge_length : list inst :=
  [MkInst 0x55 ([ch "0"; ch_comma; ch "D"; ch "x"] ++ replicate 8 (ch "f") ++ [ch_comma]); MkInst 0x7a []].

Definition sample_env : env := MkEnv (MkOVM (MkDb ∅ ∅ ∅ 0 ∅) ∅ ∅ ∅ 0) 0 0 None [].
Definition sample_interp (limit : Z) : interp := MkInterp limit 0 MainNet sample_env [].

Lemma stop_returns_witness :
  run_loop (omegaInstructionSet (fun _ _ _ => 0) id id id id id (fun _ _ => []) (fun _ => []) (fun _ => opNone)) (fun _ => false) 1 0
    (sample_interp 5) (code_only ∅ [MkInst 0x7a []])
    (set_data Newstack {[0 := set_space [255; 255; 255; 255] newFrame]}) 0 = Panic /\
  Run (omegaInstructionSet (fun _ _ _ => 0) id id id id id (fun _ _ => []) (fun _ => []) (fun _ => opNone)) (fun _ => false) 9
    (sample_interp 5) (code_only ∅ huge_length) [] = Panic.
Proof.
  split; [|vm_compute; reflexivity].
  pose proof (stop_returns_data (fun _ _ _ => 0) id id id id id (fun _ _ => []) (fun _ => []) (fun _ => opNone) 0 0
    (sample_interp 5) (code_only ∅ [MkInst 0x7a []]) (set_data Newstack {[0 := set_space [255; 255; 255; 255] newFrame]}) 0
    (set_space [255; 255; 255; 255] newFrame)) as T.
  destruct (run_loop _ _ _ _ _ _ _ _) as [[[ret err] it]| |] eqn:E; [|done|].
  - exfalso. destruct T as (H & _); [reflexivity|by eexists|reflexivity|by repeat constructor|simpl; lia|]. vm_compute in H. discriminate.
  - exfalso. apply T; [reflexivity|by eexists|reflexivity|by repeat constructor|simpl; lia].
Defined.

(** The turn that goes on executed an instruction. *)
Lemma turn_continues t it c s pc it' c' s' pc' : turn t it c s pc = Ok (Continue it' c' s' pc') ->
  exists op pc1, GetOp c pc = Ok op /\ op_valid (t op) = true /\ op_execute (t op) pc (in_env it) c s = Ok (inl (pc1, in_env it', c', s')) /\
    in_StepLimit it' = u32 (in_StepLimit it - 1) /\
    (if op_jumps (t op) then pc' = pc1
     else pc' = i64 (pc1 + 1) /\ exists f, s_data s' !! s_callTop s' = Some f /\ pc' < l_end (lib_at c' (f_inlib f))).
Proof.
  unfold turn. case_decide; [done|]. intros Et. apply bind_ok_inv in Et as (op & Hop & Et). destruct (op_valid (t op)) eqn:Hv; [|done].
  cbn [negb] in Et. apply bind_ok_inv in Et as ([[]|e] & _ & Et); [|done].
  case_decide; [done|]. apply bind_ok_inv in Et as ([[[[pc3 e3] c3] s3]|e] & Hx & Et); [|done]. cbn [in_env in_StepLimit] in *.
  apply bind_ok_inv in Et as (mln & _ & Et). apply bind_ok_inv in Et as (rd & _ & Et). exists op, pc3.
  destruct (op_reverts _); [by apply bind_ok_inv in Et as (? & _ & ?)|]. destruct (op_halts _); [by apply bind_ok_inv in Et as (? & _ & ?)|].
  destruct (op_jumps (t op)); cbn [negb] in Et.
  - injection Et as <- <- <- <-. done.
  - apply bind_ok_inv in Et as (f & Hf & Et). case_decide; [|done]. injection Et as <- <- <- <-. split_and!; try done.
    exists f. split; [|done]. unfold frame_at in Hf. by destruct (s_data s3 !! s_callTop s3); [injection Hf as ->|].
Qed.
