(* ===== verification/OvmInv.v ===== *)
(** * What instructions leave alone

    Every modelled instruction that is not a jump changes the spaces of frames only,
    and shortens none: the control data of the frames (library, global area, return
    address, restrictions) stay as they are.  The calls, returns and library loads
    keep the frames numbered without gaps and the depth bounded.  From this the
    interpreter is proved to keep its control state in order. *)
From Stdlib Require Import ZArith Lia Ascii.
From stdpp Require Import gmap list.
From S2P Require Import Prelude Difficulty OvmCode OvmStack OvmNum OvmBytes OvmEval OvmControl OvmCall OvmState OvmCommit OvmInstr OvmRun.

Open Scope Z_scope.

(** ** Results that satisfy a property, panics aside *)

Definition oky {A} (m : outcome A) (P : A -> Prop) : Prop := match m with Ok a => P a | Panic => True | NoFuel => False end.
Definition yields {A} (m : res A) (P : A -> Prop) : Prop := oky m (fun r => match r with inl a => P a | inr _ => True end).

Lemma oky_bind {A B} (m : outcome A) (k : A -> outcome B) (P : A -> Prop) (Q : B -> Prop) :
  oky m P -> (forall a, P a -> oky (k a) Q) -> oky (m ≫= k) Q.
Proof. destruct m; simpl; auto. Qed.

Lemma yields_obind {A B} (m : outcome A) (k : A -> res B) (P : A -> Prop) (Q : B -> Prop) :
  oky m P -> (forall a, P a -> yields (k a) Q) -> yields (m ≫= k) Q.
Proof. apply oky_bind. Qed.

Lemma yields_bind {A B} (m : res A) (k : A -> res B) (P : A -> Prop) (Q : B -> Prop) :
  yields m P -> (forall a, P a -> yields (k a) Q) -> yields (res_bind m k) Q.
Proof. destruct m as [[a|e]| |]; simpl; auto. Qed.

Lemma yields_mono {A} (m : res A) (P Q : A -> Prop) : (forall a, P a -> Q a) -> yields m P -> yields m Q.
Proof. destruct m as [[a|e]| |]; simpl; auto. Qed.

Lemma oky_mono {A} (m : outcome A) (P Q : A -> Prop) : (forall a, P a -> Q a) -> oky m P -> oky m Q.
Proof. destruct m; simpl; auto. Qed.

Abbreviation any := (fun _ => True).

Lemma slice_get_oky {A} (l : list A) i : oky (slice_get l i) any.
Proof. unfold slice_get. case_decide; [|done]. by destruct (l !! Z.to_nat i). Qed.
Lemma slice_set_oky {A} (l : list A) i x : oky (slice_set l i x) (fun l' => length l' = length l).
Proof. unfold slice_set. case_decide; [|done]. apply length_insert. Qed.
Lemma slice_sub_oky {A} (l : list A) lo hi : oky (slice_sub l lo hi) any.
Proof. unfold slice_sub. by case_decide. Qed.
Lemma slice_cap_oky {A} (l sp : list A) lo hi : oky (slice_cap l sp lo hi) any.
Proof. apply slice_sub_oky. Qed.
Lemma frame_at_oky s k : oky (frame_at s k) (fun f => s_data s !! k = Some f).
Proof. unfold frame_at. by destruct (s_data s !! k). Qed.
Lemma GetBytes_oky c pc : oky (GetBytes c pc) any.
Proof. unfold GetBytes. case_decide; [|done]. eapply oky_bind; [apply slice_get_oky|done]. Qed.

(** Walks through a computation: binds of known pieces, tests and matches. *)
Create HintDb yields.
#[export] Hint Resolve slice_get_oky slice_set_oky slice_sub_oky slice_cap_oky frame_at_oky GetBytes_oky : yields.
Ltac yield_step :=
  lazymatch goal with
  | |- oky (Ok _) _ => cbn [oky]
  | |- oky Panic _ => exact I
  | |- yields (Ok _) _ => cbn [yields oky]
  | |- yields Panic _ => exact I
  | |- yields (res_bind _ _) _ => eapply yields_bind; [solve [eauto with yields nocore]|intros ? ?]
  | |- yields (mbind _ _) _ => eapply yields_obind; [solve [eauto with yields nocore]|intros ? ?]
  | |- oky (mbind _ _) _ => eapply oky_bind; [solve [eauto with yields nocore]|intros ? ?]
  | |- yields (match decide ?P with _ => _ end) _ => destruct (decide P)
  | |- oky (match decide ?P with _ => _ end) _ => destruct (decide P)
  | |- yields (match ?x with _ => _ end) _ => destruct x eqn:?
  | |- oky (match ?x with _ => _ end) _ => destruct x eqn:?
  | |- yields _ _ => solve [eauto with yields nocore]
  | |- oky _ _ => solve [eauto with yields nocore]
  end; try done.
Ltac yield_steps := repeat (cbn beta iota zeta; yield_step).

Lemma swap_loop_oky n : forall l i, oky (swap_loop n l i) any.
Proof. induction n as [|n IH]; intros l i; [done|]. cbn [swap_loop]. yield_steps. Qed.
#[export] Hint Resolve swap_loop_oky : yields.

Lemma load_word_yields w s p : yields (load_word w s p) any.
Proof.
  destruct w; cbn [load_word]; unfold toByte, toInt16, toInt32, toInt64, with_area;
    destruct (s_data s !! ptr_area p); try done; case_decide; try done; yield_steps.
Qed.
Lemma toByte_yields s p : yields (toByte s p) any. Proof. apply (load_word_yields W8). Qed.
Lemma toInt16_yields s p : yields (toInt16 s p) any. Proof. apply (load_word_yields W16). Qed.
Lemma toInt32_yields s p : yields (toInt32 s p) any. Proof. apply (load_word_yields W32). Qed.
Lemma toInt64_yields s p : yields (toInt64 s p) any. Proof. apply (load_word_yields W64). Qed.
Lemma toPointer_yields s p : yields (toPointer s p) any.
Proof. unfold toPointer. eapply yields_bind; [apply toInt64_yields|done]. Qed.
Lemma toHash_yields s p : yields (toHash s p) any.
Proof. unfold toHash, with_area. yield_steps. Qed.
Lemma toBytesLen_yields s p n : yields (toBytesLen s p n) any.
Proof. unfold toBytesLen, with_area. yield_steps. Qed.
#[export] Hint Resolve toByte_yields toInt16_yields toInt32_yields toInt64_yields toPointer_yields toHash_yields toBytesLen_yields : yields.

(** ** Operands *)

Lemma indirect_loop_yields s n : forall p h, yields (indirect_loop s n p h) any.
Proof. induction n as [|n IH]; intros p h; [done|]. cbn [indirect_loop]. yield_steps. Qed.
#[export] Hint Resolve indirect_loop_yields : yields.

Lemma base_area_oky s g : oky (base_area s g) any.
Proof. unfold base_area. destruct g; yield_steps. Qed.
#[export] Hint Resolve base_area_oky : yields.

Lemma addressing_yields s i g h o n : yields (addressing s i g h o n) any.
Proof.
  unfold addressing. case_decide; [done|]. do 4 yield_step.
  eapply yields_obind with (P := any); [case_decide; yield_steps|]. intros q _. yield_steps.
Qed.
#[export] Hint Resolve addressing_yields : yields.

Lemma load_num_yields s ty p g : yields (load_num s ty p g) any.
Proof. unfold load_num. yield_steps. Qed.
#[export] Hint Resolve load_num_yields : yields.

Lemma push_digit_oky st h b d : oky (push_digit st h b d) any.
Proof. unfold push_digit. yield_steps. Qed.
Lemma finish_num_yields s ty st : yields (finish_num s ty st) any.
Proof. unfold finish_num. yield_steps. Qed.
#[export] Hint Resolve push_digit_oky finish_num_yields : yields.

Lemma getNum_yields s param ty : yields (getNum s param ty) any.
Proof.
  unfold getNum. generalize num_init, 0. induction param as [|c param IH]; intros st j; [done|]. cbn [getNum_loop].
  yield_steps.
Qed.
#[export] Hint Resolve getNum_yields : yields.

Lemma bytes_digit_oky st h d : oky (bytes_digit st h d) any.
Proof. unfold bytes_digit. yield_steps. Qed.
#[export] Hint Resolve bytes_digit_oky : yields.

Lemma getBytesLen_oky spare s param d : oky (getBytesLen spare s param d) any.
Proof.
  unfold getBytesLen. generalize bytes_init, 0, (len param). induction param as [|c param IH]; intros st j ln; [done|].
  cbn [getBytesLen_loop]. yield_steps.
  eapply oky_bind; [apply addressing_yields|]. intros [p|er] _; [|done]. yield_steps.
Qed.
#[export] Hint Resolve getBytesLen_oky : yields.

Lemma getBytes_checked_yields spare s param ty d : yields (getBytes_checked spare s param ty d) any.
Proof. unfold getBytes_checked, getBytes. yield_steps. Qed.
#[export] Hint Resolve getBytes_checked_yields : yields.

Lemma hash_fill_oky n num d : forall i h, oky (hash_fill n num d i h) any.
Proof.
  induction n as [|n IH]; intros i h; [done|]. cbn [hash_fill]. yield_steps.
  eapply oky_bind with (P := any); [|intros; apply IH]. case_decide; yield_steps.
  eapply oky_mono; [|apply slice_set_oky]; done. eapply oky_mono; [|apply slice_set_oky]; done.
Qed.
#[export] Hint Resolve hash_fill_oky : yields.

Lemma hash_digit_oky st h b d k : oky (hash_digit st h b d k) any.
Proof.
  unfold hash_digit. yield_step. eapply oky_bind with (P := any); [destruct k; [|done]|done].
  eapply oky_mono; [|apply slice_set_oky]. done.
Qed.
#[export] Hint Resolve hash_digit_oky : yields.

Lemma getHash_yields s param : yields (getHash s param) any.
Proof.
  unfold getHash. generalize hash_init, 0. induction param as [|c param IH]; intros st j; [done|]. cbn [getHash_loop].
  yield_steps.
Qed.
#[export] Hint Resolve getHash_yields : yields.

(** ** Changes to the spaces of frames only *)

Definition ctl (f : frame) : list Z * Z * Z * Z := (f_inlib f, f_gbase f, f_pc f, f_pure f).

Definition frame_grows (f f' : option frame) : Prop :=
  match f, f' with
  | Some f, Some f' => ctl f' = ctl f /\ (length (f_space f) <= length (f_space f'))%nat
  | None, None => True
  | _, _ => False
  end.

Definition touches (s s' : Stack) : Prop :=
  s_callTop s' = s_callTop s /\ s_libTop s' = s_libTop s /\ forall k, frame_grows (s_data s !! k) (s_data s' !! k).

Global Instance touches_preorder : PreOrder touches.
Proof.
  split.
  - intros s. split_and!; [done|done|]. intros k. by destruct (s_data s !! k).
  - intros s1 s2 s3 (E1 & E2 & H1) (E3 & E4 & H2). split_and!; [congruence|congruence|].
    intros k. specialize (H1 k). specialize (H2 k). unfold frame_grows in *.
    destruct (s_data s1 !! k), (s_data s2 !! k), (s_data s3 !! k); try done. destruct H1, H2. split; [congruence|lia].
Qed.

Lemma put_space_touches s a f sp : s_data s !! a = Some f -> (length (f_space f) <= length sp)%nat -> touches s (put_space s a f sp).
Proof.
  intros Hf Hl. split_and!; [done|done|]. intros k. unfold put_space, set_data. cbn [s_data].
  destruct (decide (k = a)) as [->|Hne].
  - by rewrite lookup_insert_eq, Hf.
  - rewrite lookup_insert_ne by done. by destruct (s_data s !! k).
Qed.

Lemma copy_at_length dst o src : (Z.to_nat o <= length dst)%nat -> length (copy_at dst o src) = length dst.
Proof. intros. unfold copy_at. rewrite !length_app, !length_take, length_drop. lia. Qed.

Lemma save_loop_oky n : forall sp o b i, oky (save_loop n sp o b i) (fun sp' => length sp' = length sp).
Proof.
  induction n as [|n IH]; intros sp o b i; [done|]. cbn [save_loop]. eapply oky_bind; [apply slice_set_oky|].
  cbn beta. intros sp1 H1. eapply oky_mono; [|apply IH]. cbn beta. intros. congruence.
Qed.

Lemma put_space_yields s a f (m : outcome (list Z)) : s_data s !! a = Some f -> oky m (fun sp => length sp = length (f_space f)) ->
  yields (sp ← m; Ok (inl (put_space s a f sp))) (touches s).
Proof. intros Hf Hm. eapply yields_obind; [exact Hm|]. cbn beta. intros sp E. apply put_space_touches; [done|lia]. Qed.

Lemma saveByte_touches s p b : yields (saveByte s p b) (touches s).
Proof.
  unfold saveByte, with_area. destruct (s_data s !! ptr_area p) as [f|] eqn:Hf; [|done]. case_decide; [|done].
  apply put_space_yields; [done|apply slice_set_oky].
Qed.
Lemma saveInt16_touches s p b : yields (saveInt16 s p b) (touches s).
Proof.
  unfold saveInt16, with_area. destruct (s_data s !! ptr_area p) as [f|] eqn:Hf; [|done]. case_decide; [|done].
  eapply yields_obind; [apply slice_set_oky|]. cbn beta. intros sp E. apply put_space_yields; [done|]. rewrite <- E. apply slice_set_oky.
Qed.
Lemma saveInt32_touches s p b : yields (saveInt32 s p b) (touches s).
Proof.
  unfold saveInt32, with_area. destruct (s_data s !! ptr_area p) as [f|] eqn:Hf; [|done]. case_decide; [|done].
  apply put_space_yields; [done|apply save_loop_oky].
Qed.
Lemma saveInt64_touches s p b : yields (saveInt64 s p b) (touches s).
Proof.
  unfold saveInt64, with_area. destruct (s_data s !! ptr_area p) as [f|] eqn:Hf; [|done]. case_decide; [|done].
  apply put_space_yields; [done|apply save_loop_oky].
Qed.
Lemma saveBytes_touches s p b : yields (saveBytes s p b) (touches s).
Proof.
  unfold saveBytes, with_area. destruct (s_data s !! ptr_area p) as [f|] eqn:Hf; [|done]. case_decide; [|done].
  apply put_space_touches; [done|]. rewrite copy_at_length; lia.
Qed.
Lemma saveHash_touches s p b : yields (saveHash s p b) (touches s).
Proof.
  unfold saveHash, with_area. destruct (s_data s !! ptr_area p) as [f|] eqn:Hf; [|done]. case_decide; [|done].
  apply put_space_touches; [done|]. rewrite copy_at_length; lia.
Qed.
#[export] Hint Resolve saveByte_touches saveInt16_touches saveInt32_touches saveInt64_touches saveBytes_touches saveHash_touches : yields.

Lemma grow_touches s t n : oky (grow s t n) (fun r => touches s r.1.1).
Proof.
  unfold grow, make_bytes. eapply oky_bind; [apply frame_at_oky|]. intros f Hf. case_decide; [cbn; reflexivity|].
  case_decide; [|done]. cbn. apply put_space_touches; [done|]. rewrite length_app. lia.
Qed.
Lemma malloc_touches s n : oky (malloc s n) (fun r => touches s r.1.1).
Proof. unfold malloc. eapply oky_bind; [apply frame_at_oky|]. intros f _. apply grow_touches. Qed.
#[export] Hint Resolve grow_touches malloc_touches : yields.

(** ** The instructions *)

Lemma eval_binop_yields pow w u c x y r : eval_binop pow w u c x y = Some r -> yields r any.
Proof. unfold eval_binop. intros H. repeat case_decide; simplify_eq; done. Qed.
#[export] Hint Resolve eval_binop_yields : yields.

Lemma eval_loop_yields pow k s param : forall skip st, yields (eval_loop pow k s param skip st) any.
Proof.
  induction param as [|c param IH]; intros skip st; [done|]. cbn [eval_loop]. destruct skip as [|skip]; [|apply IH].
  eapply yields_bind with (P := any); [unfold check_top; yield_steps|]. intros st' _. destruct (starts_num c).
  - yield_step. destruct a as [num tl]. eapply yields_obind with (P := any); [unfold take_num; yield_steps|]. intros ? _. apply IH.
  - eapply yields_bind with (P := any); [|intros ? _; apply IH]. unfold eval_char. yield_steps.
Qed.
#[export] Hint Resolve eval_loop_yields : yields.

(** Loops over the parameters: the operands in front of the last step change nothing. *)
Lemma scan_nums_yields ty s param : (forall top, oky (ty top) any) -> forall skip top acc, yields (scan_nums ty s param skip top acc) any.
Proof.
  intros Ht. induction param as [|c param IH]; intros skip top acc; [done|]. cbn [scan_nums]. destruct skip; [|apply IH].
  destruct (starts_operand c); [|apply IH]. eapply yields_obind; [apply Ht|]. intros t _. yield_steps.
Qed.
Lemma scan_addresses_yields s param : yields (scan_nums addresses s param 0 0 []) any.
Proof. by apply scan_nums_yields. Qed.
Lemma scan_types_yields ts s param : yields (scan_nums (slice_get ts) s param 0 0 []) any.
Proof. apply scan_nums_yields. intros. apply slice_get_oky. Qed.
#[export] Hint Resolve scan_addresses_yields scan_types_yields : yields.

Lemma alloc_loop_touches glob s param : forall skip top r ty, yields (alloc_loop glob s param skip top r ty) (touches s).
Proof.
  induction param as [|c param IH]; intros skip top r ty; [done|]. cbn [alloc_loop]. destruct skip; [|apply IH].
  yield_steps. eapply yields_obind with (P := fun x => touches s x.1.1).
  - destruct glob; [apply malloc_touches|apply grow_touches].
  - intros [[s1 p1] m1] Hs1. cbn in Hs1. case_decide; [|exact Hs1]. eapply yields_mono; [|apply saveInt64_touches]. intros s2 H2. by etrans.
Qed.

Lemma copy_loop_touches s param : forall skip top d sr ty, yields (copy_loop s param skip top d sr ty) (touches s).
Proof.
  induction param as [|c param IH]; intros skip top d sr ty; [done|]. cbn [copy_loop]. destruct skip; [|apply IH]. yield_steps.
Qed.

Lemma received_loop_touches e s param : yields (received_loop e s param) (touches s).
Proof.
  induction param as [|c param IH]; [cbn; reflexivity|]. cbn [received_loop]. destruct (starts_operand c); [|apply IH]. yield_steps.
Qed.

Lemma conv_loop_yields s param : forall skip ops ty u, yields (conv_loop s param skip ops ty u) any.
Proof. induction param as [|c param IH]; intros skip ops ty u; [done|]. cbn [conv_loop]. destruct skip; [|apply IH]. yield_steps. Qed.
#[export] Hint Resolve conv_loop_yields : yields.

Lemma copy_to_touches s a o b : oky (copy_to s a o b) (touches s).
Proof.
  unfold copy_to. eapply oky_bind; [apply frame_at_oky|]. intros f Hf. case_decide; [|done]. cbn.
  apply put_space_touches; [done|]. rewrite copy_at_length; lia.
Qed.
Lemma space_get_oky s a i : oky (space_get s a i) any.
Proof. unfold space_get. yield_steps. Qed.
Lemma fill_loop_touches k : forall s a o n, oky (fill_loop k s a o n) (touches s).
Proof.
  induction k as [|k IH]; intros s a o n; [cbn; reflexivity|]. cbn [fill_loop]. eapply oky_bind; [apply frame_at_oky|].
  intros f Hf. eapply oky_bind; [apply slice_set_oky|]. cbn beta. intros sp Hl. eapply oky_mono; [|apply IH]. intros s2 H2.
  etrans; [apply (put_space_touches s a f sp Hf); lia|done].
Qed.
Lemma check_loop_yields k s a o : forall i v, yields (check_loop k s a o i v) any.
Proof. induction k as [|k IH]; intros i v; [done|]. cbn [check_loop]. eapply yields_obind; [apply space_get_oky|]. intros b _. yield_steps. Qed.
#[export] Hint Resolve copy_to_touches space_get_oky fill_loop_touches check_loop_yields : yields.

(** A last step on a changed memory. *)
Lemma touch_more s s1 (m : outcome Stack) : touches s s1 -> oky m (touches s1) -> yields (s' ← m; Ok (inl s')) (touches s).
Proof. intros H Hm. eapply yields_obind; [exact Hm|]. intros s2 H2. cbn. by etrans. Qed.

Lemma opConv_touches spare c pc s : yields (opConv spare c pc s) (touches s).
Proof.
  unfold opConv. yield_step. yield_step. destruct a0 as [ops u]. destruct (default _ (ops !! 0%nat)) as [ty0 p].
  destruct (default _ (ops !! 1%nat)) as [ty1 q]. cbn zeta. do 2 yield_step. yield_step; [|yield_step].
  - yield_step. apply (touch_more s s); [reflexivity|apply copy_to_touches].
  - yield_step. eapply yields_obind; [apply copy_to_touches|]. intros s1 Hs1.
    eapply yields_obind with (P := any); [destruct u; yield_steps|]. intros t _.
    yield_step; (apply (touch_more s s1); [done|]); [apply copy_to_touches|apply fill_loop_touches].
  - eapply yields_obind with (P := any); [destruct u; yield_steps|]. intros t _. yield_step. yield_step.
    apply (touch_more s s); [reflexivity|apply copy_to_touches].
Qed.

Lemma imm_loop_touches spare slack param : forall skip st, yields (imm_loop spare slack param skip st) (touches (im_stack st)).
Proof.
  assert (forall p st, yields (imm_operand spare slack p st) (fun r => touches (im_stack st) (im_stack r.1))) as Hop.
  { intros p st. unfold imm_operand. yield_steps; cbn; first [assumption|reflexivity]. }
  induction param as [|c param IH]; intros skip st; [cbn; reflexivity|]. cbn [imm_loop]. destruct skip as [|skip]; [|apply IH].
  yield_step; [exact (IH _ (MkImm (im_stack st) _ _ _))|]. yield_step.
  { eapply yields_bind; [apply getNum_yields|]. intros [dlen tl] _. exact (IH _ (MkImm (im_stack st) _ _ _)). }
  destruct (starts_operand c); [|apply IH].
  eapply yields_bind; [apply Hop|]. intros [st1 tl] H1. eapply yields_mono; [|apply IH]. intros s2 H2. by etrans.
Qed.

Lemma store_bytes_touches d : forall s p, yields (store_bytes s p d) (touches s).
Proof.
  induction d as [|b d IH]; intros s p; [cbn; reflexivity|]. cbn [store_bytes]. eapply yields_bind; [apply saveByte_touches|].
  intros s1 H1. eapply yields_mono; [|apply IH]. intros s2 H2. by etrans.
Qed.

Lemma load_loop_yields s param : forall skip top h st, yields (load_loop s param skip top h st) any.
Proof. induction param as [|c param IH]; intros skip top h st; [done|]. cbn [load_loop]. destruct skip; [|apply IH]. yield_steps. Qed.

Lemma store_next_oky st v : oky (store_next st v) any.
Proof. unfold store_next. yield_steps. Qed.
#[export] Hint Resolve load_loop_yields store_next_oky : yields.

Lemma store_operand_yields spare s param st : yields (store_operand spare s param st) any.
Proof. unfold store_operand. yield_steps. Qed.
#[export] Hint Resolve store_operand_yields : yields.

Lemma store_loop_yields spare s param : forall skip st, yields (store_loop spare s param skip st) any.
Proof.
  induction param as [|c param IH]; intros skip st; [done|]. cbn [store_loop]. destruct skip; [|apply IH]. yield_steps.
  eapply yields_obind with (P := any); [case_decide; yield_steps|]. intros dt _. yield_steps.
Qed.
Lemma del_loop_yields s param : forall skip dt k, yields (del_loop s param skip dt k) any.
Proof. induction param as [|c param IH]; intros skip dt k; [done|]. cbn [del_loop]. destruct skip; [|apply IH]. yield_steps. Qed.
Lemma meta_loop_yields spare slack s param : forall skip top d n k, yields (meta_loop spare slack s param skip top d n k) any.
Proof. induction param as [|c param IH]; intros skip top d n k; [done|]. cbn [meta_loop]. destruct skip; [|apply IH]. yield_steps. Qed.
#[export] Hint Resolve store_loop_yields del_loop_yields meta_loop_yields : yields.

Lemma state_at_oky v a : oky (state_at v a) any.
Proof. unfold state_at. by destruct (v_StateDB v !! a). Qed.
Lemma get_uint32_oky m : oky (get_uint32 m) any.
Proof. unfold get_uint32. yield_steps. Qed.
#[export] Hint Resolve state_at_oky get_uint32_oky : yields.
Lemma getUsage_oky db d : oky (getUsage db d) any.
Proof. unfold getUsage. yield_steps. Qed.
Lemma getQuota_oky db d : oky (getQuota db d) any.
Proof. unfold getQuota. yield_steps. Qed.
#[export] Hint Resolve getUsage_oky getQuota_oky : yields.
Lemma SetState_oky db d k v : oky (SetState db d k v) any.
Proof. unfold SetState. yield_steps. Qed.
Lemma drop_entry_oky db d k e : oky (drop_entry db d k e) any.
Proof. unfold drop_entry. yield_steps. Qed.
#[export] Hint Resolve SetState_oky drop_entry_oky : yields.
Lemma DeleteState_oky db d k : oky (DeleteState db d k) any.
Proof. unfold DeleteState. yield_steps. Qed.
Lemma ovm_GetMeta_oky cr db d k : oky (ovm_GetMeta cr db d k) any.
Proof. unfold ovm_GetMeta. yield_steps. Qed.
#[export] Hint Resolve DeleteState_oky ovm_GetMeta_oky : yields.

Lemma opLoad_touches e c pc s : yields (opLoad e c pc s) (fun r => touches s r.2).
Proof.
  unfold opLoad. yield_step. yield_step. destruct a0 as [h store]. yield_step. destruct (GetState _ _ _) as [d d1].
  pose proof (saveInt32_touches s store (i32 (len (default [] d)))) as H3.
  destruct (saveInt32 s store _) as [[s1|er]| |]; cbn [mbind outcome_bind]; try done.
  - eapply yields_bind; [apply store_bytes_touches|]. intros s2 H2. cbn. by etrans.
  - eapply yields_bind; [apply store_bytes_touches|]. intros s2 H2. done.
Qed.

Lemma opMeta_touches cr spare slack e c pc s : yields (opMeta cr spare slack e c pc s) (fun r => touches s r.2).
Proof.
  unfold opMeta. yield_step. yield_step. destruct a0 as [dest key]. do 2 yield_step. destruct a1 as [m d].
  eapply yields_bind; [apply saveInt32_touches|]. intros s1 Hs1. eapply yields_bind; [apply saveBytes_touches|].
  intros s2 Hs2. cbn. by etrans.
Qed.

(** ** The table *)

(** What the instructions that are not jumps may do: the environment and the spaces of
    frames change, nothing else. *)
Definition stays (pc : Z) (c : Contract) (s : Stack) (r : Z * env * Contract * Stack) : Prop :=
  let '(pc', _, c', s') := r in pc' = pc /\ c' = c /\ touches s s'.

Lemma on_stack_stays f pc e c s : yields (f c pc s) (touches s) -> yields (on_stack f pc e c s) (stays pc c s).
Proof. intros H. unfold on_stack. eapply yields_bind; [exact H|]. by intros s' Hs. Qed.
Lemma with_env_stays f pc e c s : yields (f e c pc s) (touches s) -> yields (with_env f pc e c s) (stays pc c s).
Proof. intros H. unfold with_env. eapply yields_bind; [exact H|]. by intros s' Hs. Qed.
Lemma on_both_stays f pc e c s : yields (f e c pc s) (fun r => touches s r.2) -> yields (on_both f pc e c s) (stays pc c s).
Proof. intros H. unfold on_both. eapply yields_bind; [exact H|]. by intros [e' s'] Hs. Qed.
Lemma on_env_stays f pc e c s : yields (f e c pc s) any -> yields (on_env f pc e c s) (stays pc c s).
Proof. intros H. unfold on_env. eapply yields_bind; [exact H|]. intros e' _. cbn. split_and!; [done|done|reflexivity]. Qed.
Lemma opNone_stays pc e c s : yields (opNone pc e c s) (stays pc c s).
Proof. cbn. split_and!; [done|done|reflexivity]. Qed.

(** EVAL256, SIGCHECK, EXEC, SELFDESTRUCT, TXFEE, GETTXIN, GETTXOUT, SPEND, ADDDEF, ADDTXOUT and the others that are not modelled.
    Nothing is assumed of them: the theorems below are on runs that have not executed one of them. *)
Definition unmodelled : list Z := [0x45; 0x49; 0x4d; 0x57; 0x62; 0x63; 0x65; 0x66; 0x67; 0x68; 0x69; 0x6a; 0x6e; 0x71; 0x72].
Definition modelled (op : Z) : bool := bool_decide (op ∉ unmodelled).

(** The entry of a modelled instruction does not depend on the others. *)
Lemma modelled_independent pow HashB Hash160 Ripemd160 creator_of fetch_code spare slack other other' op : modelled op = true ->
  omegaInstructionSet pow HashB Hash160 Ripemd160 creator_of fetch_code spare slack other op =
  omegaInstructionSet pow HashB Hash160 Ripemd160 creator_of fetch_code spare slack other' op.
Proof. intros H. unfold omegaInstructionSet. repeat case_match; try done; subst; vm_compute in H; discriminate. Qed.

Section Inv.
Context (pow : Z -> Z -> Z -> Z) (HashB Hash160 Ripemd160 creator_of fetch_code : list Z -> list Z).
Context (spare : Stack -> Z -> list Z) (slack : list Z -> list Z) (other : Z -> executionFunc).
Let table := omegaInstructionSet pow HashB Hash160 Ripemd160 creator_of fetch_code spare slack other.

Lemma eval_stays f pc e c s : f ∈ [opEval8 pow; opEval16 pow; opEval32 pow; opEval64 pow] -> yields (on_stack f pc e c s) (stays pc c s).
Proof.
  intros Hin. apply on_stack_stays. rewrite !elem_of_cons, elem_of_nil in Hin.
  destruct Hin as [->|[->|[->|[->|[]]]]]; unfold opEval8, opEval16, opEval32, opEval64; yield_steps.
Qed.

Lemma table_stays op pc e c s : modelled op = true -> op_jumps (table op) = false -> op <> 0x59 -> op_valid (table op) = true ->
  yields (op_execute (table op) pc e c s) (stays pc c s).
Proof.
  unfold table, omegaInstructionSet. intros Hm Hj Hr Hv.
  repeat case_match; try done; subst; try (vm_compute in Hm; discriminate); cbn [op_execute plain_op write_op jump_op]; try apply opNone_stays;
    try (apply eval_stays; rewrite !elem_of_cons; tauto);
    try (apply on_stack_stays); try (apply with_env_stays); try (apply on_both_stays); try (apply on_env_stays);
    try (apply opConv_touches); try (apply opLoad_touches); try (apply opMeta_touches).
  all: unfold opHash, opHash160, opStore, opDel, opMalloc, opAlloc, opMAalloc, opCopy, opCopyImm, opReceived, opTime, opHeight,
    opVersion, opTokenContract.
  all: yield_steps; try apply alloc_loop_touches; try apply copy_loop_touches; try apply received_loop_touches.
  all: try exact (imm_loop_touches _ _ _ _ (MkImm s _ _ _)).
Qed.

(** ** The control state *)

(** Frames are numbered from 0 to [callTop] without gaps and there are none above; the
    depth is bounded with the number of libraries; every address the program can
    return or jump to is not negative; frame 0 has the length of the return data. *)
Definition control_ok (c : Contract) (s : Stack) (pc : Z) : Prop :=
  0 <= pc /\ 0 <= s_callTop s /\ -1024 <= s_libTop s <= 0 /\ s_callTop s + s_libTop s <= 1024 /\
  (forall k, 0 <= k <= s_callTop s -> is_Some (s_data s !! k)) /\ (forall k, s_callTop s < k -> s_data s !! k = None) /\
  (forall k f, s_data s !! k = Some f -> 0 <= f_pc f < 2 ^ 31) /\ (forall a l, ct_libs c !! a = Some l -> 0 <= l_address l) /\
  (exists f, s_data s !! 0 = Some f /\ 4 <= len (f_space f)).

Lemma control_runnable c s pc : control_ok c s pc -> runnable s.
Proof. intros (_ & H1 & _ & _ & H2 & _ & _ & _ & H3). split; [apply H2; lia|done]. Qed.

Lemma touches_some s s' k f' : touches s s' -> s_data s' !! k = Some f' ->
  exists f, s_data s !! k = Some f /\ ctl f' = ctl f /\ (length (f_space f) <= length (f_space f'))%nat.
Proof.
  intros (_ & _ & H) Hf. specialize (H k). rewrite Hf in H. destruct (s_data s !! k) as [f|]; [|done]. by exists f.
Qed.

Lemma control_touches c s s' pc pc' : touches s s' -> control_ok c s pc -> 0 <= pc' -> control_ok c s' pc'.
Proof.
  intros Ht (P1 & P2 & P3 & P4 & P5 & P6 & P7 & P8 & f0 & Hf0 & Hl0) Hpc. pose proof Ht as (E1 & E2 & H).
  unfold control_ok. rewrite E1, E2. split_and!; try lia; try done.
  - intros k Hk. destruct (P5 k Hk) as [f Hf]. specialize (H k). rewrite Hf in H. destruct (s_data s' !! k); [by eexists|done].
  - intros k Hk. specialize (H k). rewrite (P6 k Hk) in H. by destruct (s_data s' !! k).
  - intros k f' Hf'. destruct (touches_some s s' k f' Ht Hf') as (f & Hf & Ec & _). injection Ec as _ _ -> _. by eapply P7.
  - specialize (H 0). rewrite Hf0 in H. destruct (s_data s' !! 0) as [f'|]; [|done]. exists f'. split; [done|]. destruct H. lia.
Qed.

Lemma lib_at_nonneg c a : (forall a l, ct_libs c !! a = Some l -> 0 <= l_address l) -> 0 <= l_address (lib_at c a).
Proof. intros H. unfold lib_at. destruct (ct_libs c !! a) as [l|] eqn:E; [by eapply H|done]. Qed.

(** A jump inside of the current library. *)
Lemma if_loop_yields s param : forall skip sc top sg, yields (if_loop s param skip sc top sg) any.
Proof.
  induction param as [|x param IH]; intros skip sc top sg; [done|]. cbn [if_loop]. destruct skip; [|apply IH]. yield_steps.
Qed.

Lemma opIf_control c s pc : control_ok c s pc -> yields (opIf c pc s) (fun pc' => control_ok c s pc').
Proof.
  intros Hc. unfold opIf. yield_step. eapply yields_bind; [apply if_loop_yields|]. intros sc _. do 3 yield_step.
  cbn zeta. set (target := if decide (a0 = 0) then _ else _). yield_step. cbn.
  destruct Hc as (P1 & P2 & P3 & P4 & P5 & P6 & P7 & P8 & P9). pose proof (lib_at_nonneg c (f_inlib a2) P8).
  unfold control_ok. split_and!; try lia; done.
Qed.

Lemma opReturn_control c s pc : control_ok c s pc -> oky (opReturn pc s) (fun r => control_ok c r.2 r.1).
Proof.
  intros Hc. unfold opReturn. case_decide; [done|].
  eapply oky_bind; [apply frame_at_oky|]. cbn beta. intros f Hf. cbn [oky fst snd].
  destruct Hc as (P1 & P2 & P3 & P4 & P5 & P6 & P7 & P8 & f0 & Hf0 & Hl0). unfold control_ok. cbn [s_callTop s_libTop s_data].
  rewrite swrap_id by (unfold sint_range; lia). split_and!; try lia; try done.
  - by eapply P7.
  - intros k Hk. rewrite lookup_delete_ne by lia. apply P5. lia.
  - intros k Hk. destruct (decide (k = s_callTop s)) as [->|]; [apply lookup_delete_eq|].
    rewrite lookup_delete_ne by done. apply P6. lia.
  - intros k g Hg. apply lookup_delete_Some in Hg as [_ Hg]. by eapply P7.
  - exists f0. by rewrite lookup_delete_ne by lia.
Qed.

(** A new frame on top: calls, and the initialisation of a library. *)
Lemma push_frame_control c c' s pc pc' libTop g (data : gmap Z frame) : control_ok c s pc -> 0 <= pc' -> 0 <= f_pc g < 2 ^ 31 ->
  -1024 <= libTop <= 0 -> s_callTop s + 1 + libTop <= 1024 -> (forall a l, ct_libs c' !! a = Some l -> 0 <= l_address l) ->
  (forall k, 0 <= k -> data !! k = s_data s !! k) -> (forall k f, k < 0 -> data !! k = Some f -> 0 <= f_pc f < 2 ^ 31) ->
  control_ok c' (MkStack (s_callTop s + 1) libTop (<[s_callTop s + 1 := g]> data)) pc'.
Proof.
  intros (P1 & P2 & P3 & P4 & P5 & P6 & P7 & P8 & f0 & Hf0 & Hl0) Hpc Hg Hlt Hs Hl Hd Hneg. unfold control_ok. cbn [s_callTop s_libTop s_data].
  split_and!; try lia; try done.
  - intros k Hk. destruct (decide (k = s_callTop s + 1)) as [->|]; [rewrite lookup_insert_eq; by eexists|].
    rewrite lookup_insert_ne, Hd by lia. apply P5. lia.
  - intros k Hk. rewrite lookup_insert_ne, Hd by lia. apply P6. lia.
  - intros k f Hf. apply lookup_insert_Some in Hf as [[_ <-]|[_ Hf]]; [done|].
    destruct (decide (k < 0)); [by eapply Hneg|]. rewrite Hd in Hf by lia. by eapply P7.
  - exists f0. by rewrite lookup_insert_ne, Hd by lia.
Qed.

Lemma call_loop_yields c s param : forall skip st, yields (call_loop spare c s param skip st) any.
Proof.
  assert (forall p st, yields (call_operand spare c s p st) any) as Hop.
  { intros p st. unfold call_operand. yield_step. eapply yields_bind with (P := any).
    - unfold getBytes. yield_steps.
    - intros [[bnum num] tl] _. yield_steps. }
  induction param as [|x param IH]; intros skip st; [done|]. cbn [call_loop]. destruct skip as [|skip]; [|apply IH]. yield_steps.
Qed.

Lemma opCall_control c s pc : control_ok c s pc -> pc < 2 ^ 31 -> yields (opCall spare c pc s) (fun r => control_ok c r.2 r.1).
Proof.
  intros Hc Hpc. pose proof Hc as (P1 & P2 & P3 & P4 & P5 & P6 & P7 & P8 & P9). unfold opCall, put_uint32. yield_step.
  eapply yields_obind; [apply save_loop_oky|]. intros sp0 _. eapply yields_bind; [apply call_loop_yields|]. intros st _.
  eapply yields_obind; [apply save_loop_oky|]. intros sp _. yield_step. yield_step.
  eapply yields_obind with (P := any); [destruct (c_isself st); [done|eapply oky_mono; [|apply save_loop_oky]; done]|]. intros sp1 _.
  cbn zeta. set (la := if c_isself st then f_inlib a0 else c_libAddr st). rewrite (swrap_id 32 (s_callTop s + 1)) by (unfold sint_range; lia).
  pose proof (lib_at_nonneg c la P8). destruct (decide _) as [|Hr]; [done|]. yield_step. cbn [yields oky fst snd].
  apply (push_frame_control c c s pc); try done; try lia; try (cbn; lia).
  - destruct (c_isself st); [|done]. destruct (decide (i32 (i64 (pc + c_offset st)) < l_address (lib_at c la))); [|lia].
    exfalso. apply Hr. split; [done|by left].
  - intros k f Hk Hf. by eapply P7.
Qed.

(** A frame replaced by another one. *)
Lemma put_frame_control c s pc k g : control_ok c s pc -> is_Some (s_data s !! k) -> 0 <= f_pc g < 2 ^ 31 -> (k = 0 -> 4 <= len (f_space g)) ->
  control_ok c (set_data s (<[k := g]> (s_data s))) pc.
Proof.
  intros (P1 & P2 & P3 & P4 & P5 & P6 & P7 & P8 & f0 & Hf0 & Hl0) [f Hf] Hg Hl. unfold control_ok. cbn [set_data s_callTop s_libTop s_data].
  split_and!; try lia; try done.
  - intros j Hj. destruct (decide (j = k)) as [->|]; [rewrite lookup_insert_eq; by eexists|]. rewrite lookup_insert_ne by done. by apply P5.
  - intros j Hj. destruct (decide (j = k)) as [->|]; [rewrite P6 in Hf by done; done|]. rewrite lookup_insert_ne by done. by apply P6.
  - intros j f'. rewrite lookup_insert_Some. intros [[_ <-]|[_ H]]; [done|by eapply P7].
  - destruct (decide (k = 0)) as [->|]; [exists g; rewrite lookup_insert_eq; by split; [|apply Hl]|].
    exists f0. by rewrite lookup_insert_ne by done.
Qed.

(** The return addresses of the frames of [s0] other than frame 0. *)
Definition returns_kept (s0 s : Stack) : Prop := forall k, 1 <= k <= s_callTop s0 -> f_pc <$> s_data s !! k = f_pc <$> s_data s0 !! k.

(** The state while a library is loaded; [c0] and [s0] are the contract and the stack before. *)
Definition loading (c0 : Contract) (s0 : Stack) (st : lib_state) : Prop :=
  control_ok (ls_contract st) (ls_stack st) (ls_pc st) /\ (ls_called st = true -> s_callTop (ls_stack st) = s_callTop s0 + 1) /\
  (ls_top st < 2 -> ls_contract st = c0 /\ ls_stack st = s0 /\ ls_pc st < 2 ^ 31) /\ returns_kept s0 (ls_stack st).

Lemma add_lib_address c d code b p : Z.of_nat (length (ct_Code c)) < 2 ^ 31 -> (forall a l, ct_libs c !! a = Some l -> 0 <= l_address l) ->
  forall a l, ct_libs (add_lib c d code b p) !! a = Some l -> 0 <= l_address l.
Proof.
  intros Hc Hl a l. unfold add_lib. cbn [ct_libs]. rewrite lookup_insert_Some. intros [[_ <-]|[_ H]]; [|by eapply Hl].
  cbn [l_address]. rewrite swrap_id by (unfold sint_range; lia). lia.
Qed.

Lemma load_lib_loading c0 s0 st d code : Z.of_nat (length (ct_Code c0)) < 2 ^ 31 -> loading c0 s0 st -> ls_top st < 2 ->
  yields (load_lib st d code) (loading c0 s0).
Proof.
  intros Hlen (Hc & _ & Hst & _) Htop. destruct (Hst Htop) as (E & Es & Hpc).
  unfold load_lib. pose proof Hc as (P1 & P2 & P3 & P4 & P5 & P6 & P7 & P8 & P9). rewrite E, Es in *.
  rewrite (swrap_id 32 (s_libTop s0 - 1)), (swrap_id 32 (s_callTop s0 + 1)) by (unfold sint_range; lia).
  case_decide; [done|]. cbn zeta. destruct (<[_ := _]> _ !! s_callTop s0) as [top|]; [|done]. cbn [yields oky].
  split_and!; cbn [ls_contract ls_stack ls_pc ls_called ls_top s_callTop]; [|done|lia|].
  - rewrite (swrap_id 32 (len (ct_Code c0))) by (unfold sint_range; lia).
    apply (push_frame_control c0 _ s0 (ls_pc st)); try done; try lia.
    + apply add_lib_address; [lia|done].
    + intros k Hk. by rewrite lookup_insert_ne by lia.
    + intros k f Hk. rewrite lookup_insert_Some. intros [[_ <-]|[_ H1]]; [done|by eapply P7].
  - intros k Hk. cbn [s_data]. by rewrite !lookup_insert_ne by lia.
Qed.

Lemma inherit_lib_loading c0 s0 st d code : Z.of_nat (length (ct_Code c0)) < 2 ^ 31 -> loading c0 s0 st -> ls_top st < 2 ->
  yields (inherit_lib st d code) (loading c0 s0).
Proof.
  intros Hlen (Hc & _ & Hst & _) Htop. destruct (Hst Htop) as (E & Es & Hpc).
  unfold inherit_lib. pose proof Hc as (P1 & P2 & P3 & P4 & P5 & P6 & P7 & P8 & f0 & Hf0 & Hl0). rewrite E, Es in *.
  case_decide; [done|]. cbn zeta. unfold frame_at. rewrite Hf0. cbn [mbind outcome_bind yields oky].
  split_and!; cbn [ls_contract ls_stack ls_pc ls_called ls_top]; [|done|lia|].
  - rewrite (swrap_id 32 (len (ct_Code c0))) by (unfold sint_range; lia).
    apply (put_frame_control _ s0); [|by eexists|exact (P7 0 f0 Hf0)|done].
    unfold control_ok. split_and!; try lia; try done.
    + intros a l. cbn [ct_libs]. rewrite lookup_insert_Some. intros [[_ <-]|[_ H1]].
      * apply (lib_at_nonneg (add_lib c0 d code 0 (ls_pure st))). apply add_lib_address; [lia|done].
      * revert H1. apply add_lib_address; [lia|done].
    + by exists f0.
  - intros k Hk. cbn [set_data s_data]. by rewrite lookup_insert_ne by lia.
Qed.

(** A parameter changes the space of the new frame. *)
Lemma lib_param_loading c0 s0 st num : 0 <= s_callTop s0 -> loading c0 s0 st -> oky (lib_param st num) (loading c0 s0).
Proof.
  intros H0 (L1 & L2 & L3 & L4). unfold lib_param. pose proof L1 as (P1 & P2 & P3 & P4 & P5 & P6 & P7 & P8 & P9).
  eapply oky_bind; [apply slice_cap_oky|]. intros h _. eapply oky_bind; [apply slice_sub_oky|]. intros rest _. cbn zeta.
  destruct (ls_called st) eqn:Hcall; [|cbn; by split_and!]. specialize (L2 eq_refl).
  destruct (decide (ls_top st < 2)) as [Htop|Htop]; [destruct (L3 Htop) as (_ & Es & _); rewrite Es in L2; lia|].
  unfold frame_at. destruct (P5 (s_callTop (ls_stack st)) ltac:(lia)) as [f Hf]. rewrite Hf. cbn [mbind outcome_bind oky].
  split_and!; cbn [ls_contract ls_stack ls_pc ls_called ls_top]; [|done|lia|].
  - apply put_frame_control; [done|by eexists|exact (P7 _ f Hf)|lia].
  - intros k Hk. cbn [put_space set_data s_data]. rewrite lookup_insert_ne by lia. by apply L4.
Qed.

Lemma lib_loop_loading c0 s0 param : Z.of_nat (length (ct_Code c0)) < 2 ^ 31 -> 0 <= s_callTop s0 -> forall skip st, loading c0 s0 st ->
  yields (lib_loop fetch_code spare slack param skip st) (fun r => match r with Some st => loading c0 s0 st | None => True end).
Proof.
  intros Hlen H0. induction param as [|x param IH]; intros skip st Hst; [done|]. cbn [lib_loop]. destruct skip as [|skip]; [|by apply IH].
  assert (forall ty, loading c0 s0 (set_lib_type st ty)) as Hty by (intros ty; unfold set_lib_type; by case_decide).
  do 3 (case_decide; [by apply IH|]). destruct (starts_operand x); [|by apply IH]. destruct (decide (ls_top st = 1)) as [Htop|Htop].
  - eapply yields_bind; [apply getBytes_checked_yields|]. intros [bnum tl] _.
    eapply yields_bind with (P := fun r => match r with Some st => loading c0 s0 st | None => True end).
    2: { intros [st'|] Hst'; [by apply IH|done]. }
    unfold lib_address. eapply yields_obind; [apply slice_cap_oky|]. intros d _. case_decide; [done|]. destruct (negb _); [done|].
    destruct (ovm_GetCode _ _ _) as [code sd]. set (st1 := MkLibState _ _ _ _ _ _ _ _ _). assert (loading c0 s0 st1) as Hst1 by exact Hst.
    eapply yields_bind with (P := loading c0 s0); [|by intros st2 Hst2]. assert (ls_top st1 < 2) by (cbn; lia).
    case_decide; [by apply load_lib_loading|by apply inherit_lib_loading].
  - eapply yields_bind; [apply getNum_yields|]. intros [num tl] _. case_decide as Ht0.
    + apply IH. destruct Hst as (L1 & L2 & L3 & L4). split_and!; try done. intros _. apply L3. lia.
    + eapply yields_obind with (P := loading c0 s0); [by apply lib_param_loading|]. intros st1 Hst1. by apply IH.
Qed.

Lemma opLibLoad_control e c s pc : control_ok c s pc -> Z.of_nat (length (ct_Code c)) < 2 ^ 31 -> pc < 2 ^ 31 ->
  yields (opLibLoad fetch_code spare slack e c pc s) (fun r => let '(pc', _, c', s') := r in control_ok c' s' pc' /\ returns_kept s s').
Proof.
  intros Hc Hlen Hpc. pose proof Hc as (P1 & P2 & _). unfold opLibLoad. yield_step.
  eapply yields_bind; [apply (lib_loop_loading c s); [done|done|]; by split_and!|]. intros [st|] Hst.
  - yield_step. by destruct Hst as (L1 & _ & _ & L4).
  - cbn [yields oky]. rewrite swrap_id by (unfold sint_range; lia). split; [|done].
    apply (control_touches c s s pc); [reflexivity|done|lia].
Qed.

(** ** Runs *)

Record config := MkConfig { cf_interp : interp; cf_contract : Contract; cf_stack : Stack; cf_pc : Z }.

(** The next instruction is modelled. *)
Definition next_modelled (x : config) : Prop := forall op, GetOp (cf_contract x) (cf_pc x) = Ok op -> modelled op = true.

(** One turn that executes a modelled instruction, with code that still has int32 addresses. *)
Definition step (x y : config) : Prop :=
  next_modelled x /\
  turn table (cf_interp x) (cf_contract x) (cf_stack x) (cf_pc x) =
    Ok (Continue (cf_interp y) (cf_contract y) (cf_stack y) (cf_pc y)) /\
  Z.of_nat (length (ct_Code (cf_contract y))) < 2 ^ 31.

Definition config_ok (x : config) : Prop :=
  control_ok (cf_contract x) (cf_stack x) (cf_pc x) /\ Z.of_nat (length (ct_Code (cf_contract x))) < 2 ^ 31.

Lemma GetOp_valid c pc op : 0 <= pc -> GetOp c pc = Ok op -> op_valid (table op) = true -> pc < len (ct_Code c).
Proof.
  intros Hpc. unfold GetOp, GetInst. case_decide; [done|]. by intros [= <-].
Qed.

Lemma touches_returns s s' : touches s s' -> returns_kept s s'.
Proof.
  intros (_ & _ & H) k _. specialize (H k). destruct (s_data s !! k) as [f|], (s_data s' !! k) as [f'|]; try done.
  destruct H as [E _]. injection E as _ _ E _. cbn. by rewrite E.
Qed.

(** Every instruction keeps the control state in order, and the return addresses of
    the frames that are still there. *)
Lemma execute_control op pc e c s : modelled op = true -> control_ok c s pc -> Z.of_nat (length (ct_Code c)) < 2 ^ 31 -> pc < 2 ^ 31 -> op_valid (table op) = true ->
  yields (op_execute (table op) pc e c s) (fun r => let '(pc', _, c', s') := r in
    control_ok c' s' pc' /\ (op_jumps (table op) = false -> pc' < 2 ^ 31) /\
    (forall k, 1 <= k <= s_callTop s -> k <= s_callTop s' -> f_pc <$> s_data s' !! k = f_pc <$> s_data s !! k)).
Proof.
  intros Hm Hc Hlen Hpc Hv. pose proof Hc as (P1 & P2 & P3 & P4 & P5 & P6 & P7 & P8 & P9). destruct (decide (op = 0x59)) as [->|Hret].
  { cbn [table omegaInstructionSet plain_op op_execute op_jumps]. unfold opReturn'. pose proof (opReturn_control c s pc Hc) as H.
    unfold opReturn in *. case_decide; [cbn; by split_and!|]. unfold frame_at in *.
    destruct (s_data s !! s_callTop s) as [f|] eqn:Hf; [|done]. cbn in *. split_and!; [done|intros _; by eapply P7|].
    rewrite swrap_id by (unfold sint_range; lia). intros k Hk1 Hk2. by rewrite lookup_delete_ne by lia. }
  destruct (op_jumps (table op)) eqn:Hj.
  - assert (op = 0x4b \/ op = 0x4c \/ op = 0x51) as [->|[->| ->]].
    { revert Hj. unfold table, omegaInstructionSet. repeat case_match; try done; intros _; subst; tauto. }
    + cbn [table omegaInstructionSet jump_op op_execute]. unfold opIf'. eapply yields_bind; [by apply opIf_control|]. cbn beta.
      intros pc' H. cbn. by split_and!.
    + cbn [table omegaInstructionSet jump_op op_execute]. unfold opCall'. pose proof (opCall_control c s pc Hc Hpc) as H.
      destruct (opCall spare c pc s) as [[[pc' s']|]| |] eqn:E; try done. cbn in *. split_and!; [done|done|].
      apply opCall_shape in E as (f & g & Hf & -> & _). cbn [s_callTop s_data]. rewrite swrap_id by (unfold sint_range; lia).
      intros k Hk _. by rewrite lookup_insert_ne by lia.
    + cbn [table omegaInstructionSet jump_op op_execute]. unfold opLibLoad'. eapply yields_mono; [|by apply opLibLoad_control].
      intros [[[pc' e'] c'] s'] [H1 H2]. split_and!; [done|done|]. intros k Hk _. by apply H2.
  - eapply yields_mono; [|by apply table_stays]. intros [[[pc' e'] c'] s'] (-> & -> & Ht). split_and!; [|done|].
    + by apply (control_touches c s s' pc).
    + intros k Hk _. by apply (touches_returns s s' Ht).
Qed.

Lemma step_ok x y : step x y -> config_ok x -> config_ok y /\
  (forall k, 1 <= k <= s_callTop (cf_stack x) -> k <= s_callTop (cf_stack y) ->
     f_pc <$> s_data (cf_stack y) !! k = f_pc <$> s_data (cf_stack x) !! k).
Proof.
  intros (Hm & Ht & Hlen') [Hc Hlen]. apply turn_continues in Ht as (op & pc1 & Hop & Hv & Hx & _ & Hpc).
  pose proof Hc as (P1 & _). pose proof (GetOp_valid _ _ _ P1 Hop Hv) as Hlt.
  pose proof (execute_control op (cf_pc x) (in_env (cf_interp x)) _ _ (Hm _ Hop) Hc Hlen ltac:(lia) Hv) as H. rewrite Hx in H.
  destruct H as (Hc' & Hb & Hk). split; [|done]. split; [|done]. destruct (op_jumps (table op)); [by subst|].
  destruct Hpc as [-> _]. pose proof Hc' as (Q1 & _). specialize (Hb eq_refl). rewrite swrap_id by (unfold sint_range; lia).
  apply (control_touches _ (cf_stack y) (cf_stack y) pc1); [reflexivity|done|lia].
Qed.

Lemma steps_ok x y : rtc step x y -> config_ok x -> config_ok y.
Proof. induction 1 as [|x y z H1 _ IH]; [done|]. intros Hx. apply IH. by apply (step_ok x y). Qed.

(** The state [Run] starts from. *)
Definition started (it : interp) (c : Contract) (s : Stack) : config :=
  MkConfig (enter it) (MkContract (<[replicate 20 0 := MkLib 0 (i32 (len (ct_Code c))) 0 (ct_pure c)]> (ct_libs c)) (ct_Code c) (ct_self c) (ct_pure c)) s 0.

Lemma initial_stack_grows pure input : oky (initial_stack pure input)
  (touches (set_data Newstack (<[0 := MkFrame (replicate 4 0) (replicate 20 0) 0 0 pure]> (s_data Newstack)))).
Proof.
  unfold initial_stack. case_decide; [cbn; reflexivity|]. eapply oky_bind; [apply malloc_touches|]. intros [[s1 p] n] H1. cbn [fst] in H1.
  eapply oky_bind; [apply frame_at_oky|]. intros f Hf. eapply oky_bind; [apply save_loop_oky|]. cbn beta. intros sp Hsp.
  case_decide; [|done]. cbn [oky]. etrans; [exact H1|]. apply put_space_touches; [done|]. rewrite copy_at_length; lia.
Qed.

Lemma started_ok it c s input : Z.of_nat (length (ct_Code c)) < 2 ^ 31 -> (forall a l, ct_libs c !! a = Some l -> 0 <= l_address l) ->
  initial_stack (ct_pure c) input = Ok s -> config_ok (started it c s).
Proof.
  intros Hlen Hl E. pose proof (initial_stack_grows (ct_pure c) input) as H. rewrite E in H. split; [|done].
  refine (control_touches _ _ s 0 0 H _ (Z.le_refl 0)). unfold control_ok. cbn. split_and!; try lia.
  - intros k Hk. replace k with 0 by lia. by eexists.
  - intros k Hk. rewrite lookup_insert_ne, lookup_singleton_ne by lia. done.
  - intros k f. rewrite lookup_insert_Some, lookup_singleton_Some. intros [[_ <-]|[H0 [H1 _]]]; [cbn; lia|lia].
  - intros a l. rewrite lookup_insert_Some. intros [[_ <-]|[_ H1]]; [done|by eapply Hl].
  - eexists. split; [reflexivity|]. cbn. lia.
Qed.

Lemma enforce_ok o s f : s_data s !! s_callTop s = Some f -> exists r, enforceRestrictions o s = Ok r.
Proof. intros Hf. unfold enforceRestrictions, frame_at. rewrite Hf. cbn [mbind outcome_bind]. case_decide; by eexists. Qed.
Lemma return_data_oky s mln : oky (return_data s mln) any.
Proof. unfold return_data. yield_steps. Qed.
Lemma oky_or {A} (m : outcome A) (Q : Prop) : oky m any -> Q -> match m with Ok _ => True | Panic => Q | NoFuel => False end.
Proof. by destruct m. Qed.
Lemma halts_first op : op_halts (table op) = false -> op_returns (table op) = false /\ op_reverts (table op) = false.
Proof. unfold table, omegaInstructionSet. by repeat case_match. Qed.

(** From a state in order, a turn comes to an end, and it panics only when the
    instruction does or when the run ends with it. *)
Lemma turn_ends x : config_ok x -> next_modelled x ->
  match turn table (cf_interp x) (cf_contract x) (cf_stack x) (cf_pc x) with
  | Ok _ => True
  | Panic => exists op, GetOp (cf_contract x) (cf_pc x) = Ok op /\
      (op_execute (table op) (cf_pc x) (in_env (cf_interp x)) (cf_contract x) (cf_stack x) = Panic \/ op_halts (table op) = true)
  | NoFuel => False
  end.
Proof.
  intros [Hc Hlen] Hm. pose proof Hc as (P1 & P2 & P3 & P4 & P5 & _). unfold turn. case_decide; [done|]. cbn [in_Net in_env].
  assert (exists op, GetOp (cf_contract x) (cf_pc x) = Ok op) as [op Hop].
  { unfold GetOp, GetInst. case_decide; [|by eexists]. unfold slice_get. rewrite decide_True by lia.
    destruct (lookup_lt_is_Some_2 (ct_Code (cf_contract x)) (Z.to_nat (cf_pc x)) ltac:(lia)) as [i ->]. by eexists. }
  rewrite Hop. cbn [mbind outcome_bind]. destruct (op_valid (table op)) eqn:Hv; [|done]. cbn [negb].
  destruct (P5 (s_callTop (cf_stack x)) ltac:(lia)) as [f Hf]. destruct (enforce_ok (table op) _ f Hf) as [[[]|er] ->]; cbn [mbind outcome_bind]; [|done].
  case_decide; [done|].
  pose proof (GetOp_valid _ _ _ P1 Hop Hv) as Hlt.
  pose proof (execute_control op (cf_pc x) (in_env (cf_interp x)) _ _ (Hm _ Hop) Hc Hlen ltac:(lia) Hv) as Hx.
  destruct (op_execute (table op) _ _ _ _) as [[[[[pc e] c] s]|er]| |] eqn:Ex; cbn [mbind outcome_bind]; [|done|by eauto|done].
  destruct Hx as (Hc' & _). destruct (control_runnable _ _ _ Hc') as ([g Hg] & _).
  destruct (return_bound_ok s (control_runnable _ _ _ Hc')) as [mln ->]. cbn [mbind outcome_bind].
  destruct (op_halts (table op)) eqn:Hh.
  - apply oky_or; [|exists op; auto]. pose proof (return_data_oky s mln) as Hd.
    destruct (op_returns _), (op_reverts _); cbn [mbind outcome_bind]; yield_steps.
  - destruct (halts_first op Hh) as [-> ->]. cbn [mbind outcome_bind]. destruct (op_jumps _); cbn [negb]; [done|]. unfold frame_at. rewrite Hg. cbn [mbind outcome_bind]. by case_decide.
Qed.

(** C22: the control state of the interpreter stays in order, as long as it executes modelled
    instructions (all but EVAL256, SIGCHECK, EXEC, SELFDESTRUCT, MINT, SPEND, LOG, LEDGER and
    those that read or extend the transaction) and the code has less than 2^31 instructions.
    In every state that a run reaches by such turns, library loads, calls and jumps included,
    the program counter and every return address are not negative, the frames are numbered
    from 0 to the depth, which is at most 2048; and if the next instruction is one of them
    too, its turn comes to an end: with a result, or with a panic of the instruction or of
    the end of the run.  Nothing is assumed of the other instructions. *)
Theorem control_state_in_order (it : interp) (c : Contract) (input : list Z) (s : Stack) (x : config)
    (Hlen : Z.of_nat (length (ct_Code c)) < 2 ^ 31) (Hlibs : forall a l, ct_libs c !! a = Some l -> 0 <= l_address l)
    (Hs : initial_stack (ct_pure c) input = Ok s) (Hx : rtc step (started it c s) x) :
  control_ok (cf_contract x) (cf_stack x) (cf_pc x) /\ s_callTop (cf_stack x) <= 2048 /\
  (next_modelled x -> match turn table (cf_interp x) (cf_contract x) (cf_stack x) (cf_pc x) with
  | Ok _ => True
  | Panic => exists op, GetOp (cf_contract x) (cf_pc x) = Ok op /\
      (op_execute (table op) (cf_pc x) (in_env (cf_interp x)) (cf_contract x) (cf_stack x) = Panic \/ op_halts (table op) = true)
  | NoFuel => False
  end).
Proof.
  pose proof (steps_ok _ _ Hx (started_ok it c s input Hlen Hlibs Hs)) as H. pose proof H as [Hc _].
  split_and!; [done| |intros Hm; by apply turn_ends]. destruct Hc as (_ & _ & H1 & H2 & _). lia.
Qed.

(** ** Calls and returns *)

(** Steps that stay at depth [k] or deeper. *)
Definition step_above (k : Z) (x y : config) : Prop := step x y /\ k <= s_callTop (cf_stack y).

Lemma steps_above_keep k x y : rtc (step_above k) x y -> config_ok x -> 1 <= k <= s_callTop (cf_stack x) ->
  config_ok y /\ k <= s_callTop (cf_stack y) /\ f_pc <$> s_data (cf_stack y) !! k = f_pc <$> s_data (cf_stack x) !! k.
Proof.
  induction 1 as [x|x y z [H1 H2] _ IH]; intros Hx Hk; [split; [done|split; [lia|done]]|]. destruct (step_ok x y H1 Hx) as [Hy He].
  destruct (IH Hy ltac:(lia)) as (Hz & Hd & E). split; [done|split; [done|]]. rewrite E. apply He; lia.
Qed.

Lemma call_step x y : step x y -> config_ok x -> GetOp (cf_contract x) (cf_pc x) = Ok 0x4c ->
  s_callTop (cf_stack y) = s_callTop (cf_stack x) + 1 /\ f_pc <$> s_data (cf_stack y) !! (s_callTop (cf_stack x) + 1) = Some (cf_pc x).
Proof.
  intros (_ & Ht & _) [Hc _] Hop. apply turn_continues in Ht as (op & pc1 & Hop' & _ & Hx & _). rewrite Hop in Hop'. injection Hop' as <-.
  cbn [table omegaInstructionSet jump_op op_execute] in Hx. unfold opCall' in Hx.
  apply res_bind_inv in Hx as ([pc2 s2] & E & Hx). injection Hx as _ _ _ <-. apply opCall_shape in E as (f & g & _ & -> & Hg & _).
  destruct Hc as (_ & P2 & P3 & P4 & _). cbn [s_callTop s_data]. rewrite swrap_id by (unfold sint_range; lia).
  split; [done|]. rewrite lookup_insert_eq. cbn. by rewrite Hg.
Qed.

Lemma return_step x y : step x y -> config_ok x -> 1 <= s_callTop (cf_stack x) -> GetOp (cf_contract x) (cf_pc x) = Ok 0x59 ->
  s_callTop (cf_stack y) = s_callTop (cf_stack x) - 1 /\
  exists r, f_pc <$> s_data (cf_stack x) !! s_callTop (cf_stack x) = Some r /\ cf_pc y = r + 1.
Proof.
  intros (_ & Ht & _) [Hc _] Hk Hop. apply turn_continues in Ht as (op & pc1 & Hop' & _ & Hx & _ & Hpc). rewrite Hop in Hop'. injection Hop' as <-.
  cbn [table omegaInstructionSet plain_op op_execute op_jumps] in Hx, Hpc. unfold opReturn', opReturn, frame_at in Hx.
  rewrite decide_False in Hx by lia. destruct Hc as (_ & P2 & P3 & P4 & P5 & _ & P7 & _).
  destruct (P5 (s_callTop (cf_stack x)) ltac:(lia)) as [f Hf]. rewrite Hf in Hx. cbn [mbind outcome_bind] in Hx. injection Hx as <- _ _ <-.
  destruct Hpc as [-> _]. pose proof (P7 _ _ Hf). cbn [s_callTop]. rewrite !swrap_id by (unfold sint_range; lia).
  split; [done|]. exists (f_pc f). by rewrite Hf.
Qed.

(** A call comes back behind itself.  When the instruction CALL is executed at [pc],
    whatever the callee does at its depth or deeper, calls of other functions and of
    libraries included, the RETURN at its depth gives control to [pc + 1] at the depth
    of the caller. *)
Theorem return_goes_behind_call (x y z w : config) (Hx : config_ok x)
    (Hcall : GetOp (cf_contract x) (cf_pc x) = Ok 0x4c) (Hxy : step x y)
    (Hyz : rtc (step_above (s_callTop (cf_stack y))) y z) (Hd : s_callTop (cf_stack z) = s_callTop (cf_stack y))
    (Hret : GetOp (cf_contract z) (cf_pc z) = Ok 0x59) (Hzw : step z w) :
  cf_pc w = cf_pc x + 1 /\ s_callTop (cf_stack w) = s_callTop (cf_stack x).
Proof.
  destruct (call_step x y Hxy Hx Hcall) as [Ey Ef]. destruct (step_ok x y Hxy Hx) as [Hy _].
  pose proof Hx as [(_ & P2 & _) _]. destruct (steps_above_keep _ y z Hyz Hy ltac:(lia)) as (Hz & _ & Ez).
  destruct (return_step z w Hzw Hz ltac:(lia) Hret) as [Ew (r & Er & Epc)].
  rewrite Hd, Ez, Ey, Ef in Er. injection Er as <-. split; [done|lia].
Qed.

(** ** Straight-line code *)

(** A modelled instruction that goes on to the next one. *)
Definition straight (i : inst) : Prop := modelled (i_op i) = true /\ op_jumps (table (i_op i)) = false /\ i_op i <> 0x59.

Lemma straight_op c pc op : 0 <= pc -> Forall straight (ct_Code c) -> GetOp c pc = Ok op -> pc < len (ct_Code c) ->
  modelled op = true /\ op_jumps (table op) = false /\ op <> 0x59.
Proof.
  intros Hpc Hst Hop Hlt. unfold GetOp, GetInst in Hop. rewrite decide_True in Hop by done. unfold slice_get in Hop. rewrite decide_True in Hop by lia.
  destruct (ct_Code c !! Z.to_nat pc) as [i|] eqn:Hi; [|done]. injection Hop as <-. by apply (proj1 (Forall_lookup _ _) Hst _ _ Hi).
Qed.

(** Behind the end of the code GetOp gives 0, which is no instruction. *)
Lemma straight_next x : 0 <= cf_pc x -> Forall straight (ct_Code (cf_contract x)) -> next_modelled x.
Proof.
  intros Hpc Hst op Hop. destruct (decide (cf_pc x < len (ct_Code (cf_contract x)))) as [Hlt|Hge]; [by eapply straight_op|].
  unfold GetOp, GetInst in Hop. rewrite decide_False in Hop by done. by injection Hop as <-.
Qed.

Lemma straight_step it c s pc it' c' s' pc' : control_ok c s pc -> Z.of_nat (length (ct_Code c)) < 2 ^ 31 -> Forall straight (ct_Code c) ->
  turn table it c s pc = Ok (Continue it' c' s' pc') -> c' = c /\ pc' = pc + 1 /\ pc < len (ct_Code c) /\ control_ok c s' pc'.
Proof.
  intros Hc Hlen Hst Ht. apply turn_continues in Ht as (op & pc1 & Hop & Hv & Hx & _ & Hpc). pose proof Hc as (P1 & _).
  pose proof (GetOp_valid _ _ _ P1 Hop Hv) as Hlt. destruct (straight_op c pc op P1 Hst Hop Hlt) as (Hm & Hj & Hne).
  pose proof (table_stays op pc (in_env it) c s Hm Hj Hne Hv) as H. rewrite Hx in H. destruct H as (-> & -> & Ht).
  rewrite Hj in Hpc. destruct Hpc as [-> _]. rewrite swrap_id by (unfold sint_range; lia).
  split_and!; try done. apply (control_touches c s s' pc); [done|done|lia].
Qed.

Lemma straight_ends abort c : Z.of_nat (length (ct_Code c)) < 2 ^ 31 -> Forall straight (ct_Code c) ->
  forall fuel n it s pc, control_ok c s pc -> pc <= len (ct_Code c) < pc + Z.of_nat fuel -> run_loop table abort fuel n it c s pc <> NoFuel.
Proof.
  intros Hlen Hst. induction fuel as [|fuel IH]; intros n it s pc Hc Hf; cbn [run_loop]; [lia|]. destruct (abort n); [done|].
  pose proof (turn_ends (MkConfig it c s pc) (conj Hc Hlen) (straight_next (MkConfig it c s pc) (proj1 Hc) Hst)) as H. cbn [cf_interp cf_contract cf_stack cf_pc] in H.
  destruct (turn table it c s pc) as [[it' c' s' pc'|]| |] eqn:Ht; cbn [mbind outcome_bind]; try done.
  destruct (straight_step _ _ _ _ _ _ _ _ Hc Hlen Hst Ht) as (-> & -> & Hlt & Hc'). apply IH; [done|lia].
Qed.

(** C30: a contract whose code has modelled instructions only (so no EXEC, SELFDESTRUCT, MINT,
    SPEND and the like) and no jumps, calls, library loads and returns comes to an end.
    Whatever its input and its state, after at most as many turns as it has instructions,
    and one more, the run gives its result: the loop is left, or the node panics. *)
Theorem straight_line_terminates (abort : nat -> bool) (it : interp) (c : Contract) (input : list Z)
    (Hlen : Z.of_nat (length (ct_Code c)) < 2 ^ 31) (Hlibs : forall a l, ct_libs c !! a = Some l -> 0 <= l_address l)
    (Hst : Forall straight (ct_Code c)) :
  Run table abort (S (length (ct_Code c))) it c input <> NoFuel.
Proof.
  unfold Run. case_decide; [done|]. pose proof (initial_stack_grows (ct_pure c) input) as Hg. cbn [ct_pure ct_Code ct_self ct_libs].
  destruct (initial_stack (ct_pure c) input) as [s| |] eqn:Hs; [|done|done]. cbn [mbind outcome_bind].
  destruct (started_ok it c s input Hlen Hlibs Hs) as [Hc _]. cbn [started cf_contract cf_stack cf_pc] in Hc. cbn [mbind outcome_bind].
  pose proof (straight_ends abort (cf_contract (started it c s)) Hlen Hst (S (length (ct_Code c))) 0 (enter it) s 0 Hc) as Hend.
  cbn [started cf_contract ct_Code] in Hend.
  destruct (run_loop _ _ _ _ _ _ _ _) as [[[ret err] it']| |]; [done|done|]. exfalso. apply Hend; [lia|done].
Qed.

(** The next state, computed. *)
Definition next (x : config) : config :=
  match turn table (cf_interp x) (cf_contract x) (cf_stack x) (cf_pc x) with Ok (Continue it c s pc) => MkConfig it c s pc | _ => x end.

Definition next_modelledb (x : config) : bool := match GetOp (cf_contract x) (cf_pc x) with Ok op => modelled op | _ => true end.
Lemma next_modelled_spec x : next_modelledb x = true -> next_modelled x.
Proof. unfold next_modelledb. intros H op E. by rewrite E in H. Qed.

Lemma next_step x : next_modelledb x = true -> match turn table (cf_interp x) (cf_contract x) (cf_stack x) (cf_pc x) with Ok (Continue _ _ _ _) => True | _ => False end ->
  len (ct_Code (cf_contract (next x))) < 2 ^ 31 -> step x (next x).
Proof. intros Hm%next_modelled_spec. unfold step, next. by destruct (turn _ _ _ _ _) as [[it c s pc|]| |]. Qed.
End Inv.

(** ** A sample program: a call, a stop, and the function that returns. *)
Definition plain_table : Z -> operation :=
  omegaInstructionSet (fun _ _ _ => 0) id id id id id (fun _ _ => []) (fun _ => []) (fun _ => opNone).
Definition call_program : list inst := [MkInst 0x4c [ch "0"; ch_comma; ch "2"; ch_comma]; MkInst 0x7a []; MkInst 0x59 []].
Definition call_start : config := started (sample_interp 9) (code_only ∅ call_program) (set_data Newstack {[0 := set_space (replicate 4 0) newFrame]}).
Abbreviation next' := (next (fun _ _ _ => 0) id id id id id (fun _ _ => []) (fun _ => []) (fun _ => opNone)).
Abbreviation step' := (step (fun _ _ _ => 0) id id id id id (fun _ _ => []) (fun _ => []) (fun _ => opNone)).

Lemma call_start_libs : forall a l, ct_libs (code_only ∅ call_program) !! a = Some l -> 0 <= l_address l.
Proof. done. Qed.
Lemma call_start_ok : config_ok call_start.
Proof. apply (started_ok _ _ _ []); [simpl; lia|exact call_start_libs|reflexivity]. Qed.

Lemma control_state_witness : rtc step' call_start (next' (next' call_start)) /\
  s_callTop (cf_stack (next' (next' call_start))) <= 2048 /\ cf_pc (next' (next' call_start)) = 1.
Proof.
  assert (rtc step' call_start (next' (next' call_start))) as Hr.
  { eapply rtc_l; [apply next_step; [vm_compute; reflexivity|vm_compute; exact I|vm_compute; reflexivity]|].
    eapply rtc_l; [apply next_step; [vm_compute; reflexivity|vm_compute; exact I|vm_compute; reflexivity]|]. apply rtc_refl. }
  split; [exact Hr|]. split; [|vm_compute; reflexivity].
  refine (proj1 (proj2 (control_state_in_order (fun _ _ _ => 0) id id id id id (fun _ _ => []) (fun _ => []) (fun _ => opNone)
    (sample_interp 9) (code_only ∅ call_program) [] _ (next' (next' call_start)) _ call_start_libs _ Hr)));
    [simpl; lia|reflexivity].
Defined.

Lemma return_behind_witness : cf_pc call_start = 0 /\ cf_pc (next' call_start) = 2 /\ cf_pc (next' (next' call_start)) = 1.
Proof.
  split; [reflexivity|]. split; [vm_compute; reflexivity|].
  refine (proj1 (return_goes_behind_call (fun _ _ _ => 0) id id id id id (fun _ _ => []) (fun _ => []) (fun _ => opNone)
    call_start (next' call_start) (next' call_start) (next' (next' call_start)) call_start_ok _ _ (rtc_refl _ _) eq_refl _ _));
    [reflexivity|apply next_step; [vm_compute; reflexivity|vm_compute; exact I|vm_compute; reflexivity]|vm_compute; reflexivity
    |apply next_step; [vm_compute; reflexivity|vm_compute; exact I|vm_compute; reflexivity]].
Defined.

Definition line_program : list inst := [MkInst 0x55 [ch "0"; ch_comma; ch "D"; ch "7"; ch_comma]; MkInst 0x64 []; MkInst 0x7a []].

Lemma straight_line_witness : Run plain_table (fun _ => false) 4 (sample_interp 9) (code_only ∅ line_program) [5] <> NoFuel.
Proof.
  refine (straight_line_terminates (fun _ _ _ => 0) id id id id id (fun _ _ => []) (fun _ => []) (fun _ => opNone)
    (fun _ => false) (sample_interp 9) (code_only ∅ line_program) [5] _ _ _); [simpl; lia|done|].
  by repeat constructor.
Defined.
