(* ===== verification/OvmPure.v ===== *)
(** * Contracts that may not write

    A contract that is called with the restriction [NOWRITE] ([omega/ovm/interpreter.go])
    changes no stored value: the interpreter refuses STORE and DEL by the flag that the
    instruction table has for them, and no other modelled instruction writes, although
    LOAD, META and LIBLOAD change the caches of [omega/ovm/statedb.go]. *)
From Stdlib Require Import ZArith Lia Ascii.
From stdpp Require Import gmap list.
From S2P Require Import Prelude Difficulty OvmCode OvmStack OvmNum OvmBytes OvmEval OvmControl OvmCall OvmState OvmCommit OvmInstr OvmRun OvmInv.

Open Scope Z_scope.

(** ** What a contract sees *)

(** The value of the contract [a] at [k] in the database, and what a run sees there: the
    value of the cache when the contract has one. *)
Definition committed (db : database) (a k : list Z) : slice := b ← db_storage db !! a; b !! k.
Definition seen (v : OVM) (a k : list Z) : slice :=
  match v_StateDB v !! a with Some d => view (v_DB v) d k | None => committed (v_DB v) a k end.

(** From [e] and [c] to [e'] and [c'] no value of the storage of any contract is changed,
    but that the contract whose code is loaded as a library goes back to what the database has. *)
Record keeps_values (e : env) (c : Contract) (e' : env) (c' : Contract) : Prop := MkKeepsValues {
  kv_db : v_DB (en_ovm e') = v_DB (en_ovm e);
  kv_types : v_TokenTypes (en_ovm e') = v_TokenTypes (en_ovm e);
  kv_pure : ct_pure c' = ct_pure c;
  kv_libs : forall a, is_Some (ct_libs c !! a) -> is_Some (ct_libs c' !! a);
  kv_seen : forall a, (forall k, seen (en_ovm e') a k = seen (en_ovm e) a k) \/
    (is_Some (ct_libs c' !! a) /\ forall k, seen (en_ovm e') a k = committed (v_DB (en_ovm e)) a k);
}.

Lemma keeps_values_refl e c : keeps_values e c e c.
Proof. split; try done. intros a. by left. Qed.

Lemma keeps_values_trans e1 c1 e2 c2 e3 c3 : keeps_values e1 c1 e2 c2 -> keeps_values e2 c2 e3 c3 -> keeps_values e1 c1 e3 c3.
Proof.
  intros [D1 T1 P1 L1 S1] [D2 T2 P2 L2 S2]. split; try congruence; [by auto|]. intros a. destruct (S2 a) as [E2|[I2 E2]].
  - destruct (S1 a) as [E1|[I1 E1]]; [left; intros k; by rewrite E2|right; split; [by auto|intros k; by rewrite E2]].
  - right. split; [done|]. intros k. by rewrite E2, D1.
Qed.

(** A cache that shows the same values may replace the one there is. *)
Lemma put_state_keeps e c a d d' : v_StateDB (en_ovm e) !! a = Some d -> (forall k, view (v_DB (en_ovm e)) d' k = view (v_DB (en_ovm e)) d k) ->
  keeps_values e c (set_ovm e (put_state (en_ovm e) a d')) c.
Proof.
  intros Ha Hv. split; try done. intros b. left. intros k. unfold seen. cbn [set_ovm en_ovm put_state v_StateDB v_DB].
  destruct (decide (b = a)) as [->|Hne]; [by rewrite lookup_insert_eq, Ha, Hv|by rewrite lookup_insert_ne].
Qed.

(** ** The caches *)

Lemma GetState_view db d k j : view db (GetState db d k).2 j = view db d j.
Proof.
  unfold GetState. destruct (d_suicided d) eqn:Hs; [done|]. destruct (d_data d !! k) eqn:Hd; [done|]. destruct (d_fresh d) eqn:Hf; [done|].
  destruct (_ ≫= _) as [x|] eqn:Hb; [|done]. cbn [snd]. rewrite data_entry_view by done. case_decide as E; [|done]. subst j.
  unfold view, stored. by rewrite Hs, Hd, Hf, Hb.
Qed.

Lemma ovm_meta_view db d k j : view db (ovm_meta db d k).2 j = view db d j.
Proof.
  unfold ovm_meta, get_meta_cached. destruct (d_suicided d) eqn:Hs; [done|]. destruct (d_meta d !! k); [done|]. destruct (GetMeta db d k); [|done].
  unfold view. cbn [snd set_meta_entry d_suicided d_data]. done.
Qed.

Lemma ovm_GetMeta_view cr db d k m d' j : ovm_GetMeta cr db d k = Ok (m, d') -> view db d' j = view db d j.
Proof.
  unfold ovm_GetMeta. case_decide as Hc.
  - pose proof (ovm_meta_view db d key_code j) as Hv. destruct (ovm_meta db d key_code) as [code d1]. intros H. apply bind_ok_inv in H as (h & _ & H).
    injection H as _ <-. exact Hv.
  - pose proof (ovm_meta_view db d k j) as Hv. destruct (ovm_meta db d k) as [m1 d1]. by intros [= <- <-].
Qed.

Lemma state_at_inv v a d : state_at v a = Ok d -> v_StateDB v !! a = Some d.
Proof. unfold state_at. by destruct (v_StateDB v !! a) as [x|]; [intros [= ->]|]. Qed.

Lemma opLoad_keeps e c pc s e' s' : opLoad e c pc s = Ok (inl (e', s')) -> keeps_values e c e' c.
Proof.
  unfold opLoad. intros H. apply bind_ok_inv in H as (param & _ & H). apply res_bind_inv in H as ([h st] & _ & H).
  apply bind_ok_inv in H as (d0 & Hd & H). apply state_at_inv in Hd. pose proof (fun j => GetState_view (v_DB (en_ovm e)) d0 h j) as Hv.
  destruct (GetState (v_DB (en_ovm e)) d0 h) as [d d1]. apply bind_ok_inv in H as (r & _ & H). apply res_bind_inv in H as (s2 & _ & H).
  injection H as <- _. by apply (put_state_keeps _ _ _ d0).
Qed.

Lemma opMeta_keeps cr spare slack e c pc s e' s' : opMeta cr spare slack e c pc s = Ok (inl (e', s')) -> keeps_values e c e' c.
Proof.
  unfold opMeta. intros H. apply bind_ok_inv in H as (param & _ & H). apply res_bind_inv in H as ([dest key] & _ & H).
  apply bind_ok_inv in H as (d & Hd & H). apply state_at_inv in Hd. apply bind_ok_inv in H as ([m d1] & Hm & H).
  apply res_bind_inv in H as (s1 & _ & H). apply res_bind_inv in H as (s2 & _ & H). injection H as <- _.
  apply (put_state_keeps _ _ _ d); [done|]. intros k. by apply (ovm_GetMeta_view _ _ _ _ _ _ _ Hm).
Qed.

(** ** Loading a library *)

Section Load.
Context (fetch_code : list Z -> list Z) (spare : Stack -> Z -> list Z) (slack : list Z -> list Z).

(** The contract of the library goes back to the database, and is a library from then on. *)
Lemma lib_reset_keeps e c d sd c' : ct_pure c' = ct_pure c -> (forall a, is_Some (ct_libs c !! a) -> is_Some (ct_libs c' !! a)) -> is_Some (ct_libs c' !! d) ->
  (forall k, view (v_DB (en_ovm e)) sd k = committed (v_DB (en_ovm e)) d k) -> keeps_values e c (set_ovm e (put_state (en_ovm e) d sd)) c'.
Proof.
  intros Hp Hl Hd Hv. split; try done. intros b. unfold seen. cbn [set_ovm en_ovm put_state v_StateDB v_DB].
  destruct (decide (b = d)) as [->|Hne]; [right; split; [done|]; intros k; by rewrite lookup_insert_eq|left; intros k; by rewrite lookup_insert_ne].
Qed.

(** What a way of loading leaves: the environment, the restrictions, and one library more. *)
Definition adds_lib (st st' : lib_state) (d : list Z) : Prop :=
  ls_env st' = ls_env st /\ ct_pure (ls_contract st') = ct_pure (ls_contract st) /\
  (forall a, is_Some (ct_libs (ls_contract st) !! a) \/ a = d -> is_Some (ct_libs (ls_contract st') !! a)).

Lemma insert_some {A} (m : gmap (list Z) A) d x a : is_Some (m !! a) \/ a = d -> is_Some (<[d := x]> m !! a).
Proof. rewrite lookup_insert_is_Some'. intuition. Qed.

Lemma load_lib_adds st d code st' : load_lib st d code = Ok (inl st') -> adds_lib st st' d.
Proof.
  unfold load_lib. case_decide; [done|]. cbn zeta. destruct (<[_ := _]> _ !! _); [|done]. intros [= <-]. split_and!; [done|done|].
  intros a. apply insert_some.
Qed.

Lemma inherit_lib_adds st d code st' : inherit_lib st d code = Ok (inl st') -> adds_lib st st' d.
Proof.
  unfold inherit_lib. case_decide as Hc; [done|]. cbn zeta. intros H. apply bind_ok_inv in H as (f & _ & H). injection H as <-. split_and!; [done|done|].
  intros a Ha. cbn [ls_contract ct_libs]. apply insert_some. left. by apply insert_some.
Qed.

Lemma lib_address_keeps st bnum st' : lib_address fetch_code slack st bnum = Ok (inl (Some st')) ->
  keeps_values (ls_env st) (ls_contract st) (ls_env st') (ls_contract st').
Proof.
  unfold lib_address. intros H. apply bind_ok_inv in H as (d & _ & H). case_decide; [done|]. destruct (negb _); [done|].
  pose proof (fun j => ovm_meta_view (v_DB (en_ovm (ls_env st))) (NewStateDB d) key_code j) as Hv. unfold ovm_GetCode in H.
  destruct (ovm_meta _ _ _) as [code sd]. cbn [snd] in Hv.
  set (st1 := MkLibState _ _ _ _ _ _ _ _ _) in H. apply res_bind_inv in H as (st2 & H & H2). injection H2 as <-.
  assert (adds_lib st1 st2 d) as (E1 & E2 & E3) by (case_decide; [by eapply load_lib_adds|by eapply inherit_lib_adds]).
  rewrite E1. apply lib_reset_keeps; [done|intros a Ha; apply E3; by left|apply E3; by right|].
  intros k. rewrite Hv. reflexivity.
Qed.

Lemma lib_loop_keeps param : forall skip st st', lib_loop fetch_code spare slack param skip st = Ok (inl (Some st')) ->
  keeps_values (ls_env st) (ls_contract st) (ls_env st') (ls_contract st').
Proof.
  induction param as [|x param IH]; intros skip st st'; cbn [lib_loop]; [intros [= <-]; apply keeps_values_refl|]. destruct skip as [|skip]; [|apply IH].
  assert (forall ty skip, lib_loop fetch_code spare slack param skip (set_lib_type st ty) = Ok (inl (Some st')) ->
    keeps_values (ls_env st) (ls_contract st) (ls_env st') (ls_contract st')) as Hty.
  { intros ty n H. apply IH in H. unfold set_lib_type in H. by case_decide. }
  do 3 (case_decide; [by apply Hty|]). destruct (starts_operand x); [|apply IH]. case_decide as Htop; clear - IH.
  - intros H. apply res_bind_inv in H as ([bnum tl] & _ & H). apply res_bind_inv in H as ([st1|] & Ha & H); [|done].
    eapply keeps_values_trans; [by eapply lib_address_keeps|by eapply IH].
  - intros H. apply res_bind_inv in H as ([num tl] & _ & H). case_decide; [exact (IH _ _ _ H)|].
    apply bind_ok_inv in H as (st1 & Hp & H). apply IH in H. unfold lib_param in Hp. apply bind_ok_inv in Hp as (h & _ & Hp). apply bind_ok_inv in Hp as (r & _ & Hp).
    apply bind_ok_inv in Hp as (s & _ & Hp). by injection Hp as <-.
Qed.

Lemma opLibLoad_keeps e c pc s pc' e' c' s' : opLibLoad fetch_code spare slack e c pc s = Ok (inl (pc', e', c', s')) -> keeps_values e c e' c'.
Proof.
  unfold opLibLoad. intros H. apply bind_ok_inv in H as (param & _ & H). apply res_bind_inv in H as ([st|] & Hl & H).
  - case_decide; [|done]. injection H as _ <- <- _. by apply lib_loop_keeps in Hl.
  - injection H as _ <- <- _. apply keeps_values_refl.
Qed.
End Load.

(** ** Runs *)

Section Pure.
Context (pow : Z -> Z -> Z -> Z) (HashB Hash160 Ripemd160 creator_of fetch_code : list Z -> list Z).
Context (spare : Stack -> Z -> list Z) (slack : list Z -> list Z) (other : Z -> executionFunc).
Let table := omegaInstructionSet pow HashB Hash160 Ripemd160 creator_of fetch_code spare slack other.
Let step := step pow HashB Hash160 Ripemd160 creator_of fetch_code spare slack other.

Lemma on_stack_keeps f pc e c s r : on_stack f pc e c s = Ok (inl r) -> r.1.1.2 = e /\ r.1.2 = c.
Proof. unfold on_stack. intros H. apply res_bind_inv in H as (s' & _ & H). by injection H as <-. Qed.
Lemma with_env_keeps f pc e c s r : with_env f pc e c s = Ok (inl r) -> r.1.1.2 = e /\ r.1.2 = c.
Proof. unfold with_env. intros H. apply res_bind_inv in H as (s' & _ & H). by injection H as <-. Qed.
Lemma on_both_keeps f pc e c s r : (forall e' s', f e c pc s = Ok (inl (e', s')) -> keeps_values e c e' c) -> on_both f pc e c s = Ok (inl r) ->
  keeps_values e c r.1.1.2 c /\ r.1.2 = c.
Proof. intros Hf. unfold on_both. intros H. apply res_bind_inv in H as ([e' s'] & E & H). injection H as <-. split; [by eapply Hf|done]. Qed.

(** A modelled instruction without the flag for writing keeps the values; one that does not jump keeps the contract. *)
Lemma reader_keeps op pc e c s pc' e' c' s' : modelled op = true -> op_writes (table op) = false -> op_valid (table op) = true ->
  op_execute (table op) pc e c s = Ok (inl (pc', e', c', s')) -> keeps_values e c e' c' /\ (op_jumps (table op) = false -> c' = c).
Proof.
  intros Hm Hw Hv Hx.
  assert (e' = e /\ c' = c -> keeps_values e c e' c' /\ (op_jumps (table op) = false -> c' = c)) as Hsame by (intros [-> ->]; by split; [apply keeps_values_refl|]).
  revert Hsame. revert Hw Hv Hx. unfold table, omegaInstructionSet. repeat case_match; subst; try (vm_compute in Hm; discriminate); intros Hw Hv Hx Hsame; try done;
    cbn [op_execute op_jumps plain_op write_op jump_op] in *.
  all: try (apply on_stack_keeps in Hx; exact (Hsame Hx)).
  all: try (apply with_env_keeps in Hx; exact (Hsame Hx)).
  all: try (unfold opNone in Hx; injection Hx as <- <- <- <-; by apply Hsame).
  all: try (apply on_both_keeps in Hx as [H1 H2]; [cbn [fst snd] in H1, H2; subst; by split|intros ? ?; by (apply opLoad_keeps || apply opMeta_keeps)]).
  all: first
    [ split; [by eapply opLibLoad_keeps|done]
    | unfold opReturn' in Hx; apply bind_ok_inv in Hx as ([? ?] & _ & Hx); injection Hx as <- <- <- <-; by apply Hsame
    | unfold opCall' in Hx; apply res_bind_inv in Hx as ([? ?] & _ & Hx); injection Hx as <- <- <- <-; by apply Hsame
    | unfold opIf' in Hx; apply res_bind_inv in Hx as (? & _ & Hx); injection Hx as <- <- <- <-; by apply Hsame ].
Qed.

(** The turn of a contract that may not write executes no instruction that is marked as writing. *)
Lemma pure_turn it c s pc r op : Z.land (ct_pure c) NOWRITE <> 0 -> GetOp c pc = Ok op -> turn table it c s pc = Ok r ->
  match r with
  | Continue it' c' s' pc' => op_writes (table op) = false /\ op_valid (table op) = true /\ exists pc1, op_execute (table op) pc (in_env it) c s = Ok (inl (pc1, in_env it', c', s'))
  | Return _ _ it' => in_env it' = in_env it \/
      op_writes (table op) = false /\ op_valid (table op) = true /\ (op_jumps (table op) = true -> op_halts (table op) = true \/ op_reverts (table op) = true) /\
      exists pc1 c' s', op_execute (table op) pc (in_env it) c s = Ok (inl (pc1, in_env it', c', s'))
  end.
Proof.
  intros Hp Hop. unfold turn. case_decide; [by intros [= <-]; left|]. rewrite Hop. cbn [mbind outcome_bind].
  destruct (op_valid (table op)) eqn:Hv; cbn [negb]; [|by intros [= <-]; left]. intros Et. apply bind_ok_inv in Et as ([[]|er] & _ & Et); [|injection Et as <-; by left].
  case_decide as Hw; [injection Et as <-; by left|]. assert (op_writes (table op) = false) as Hnw by (destruct (op_writes (table op)); [exfalso; by apply Hw|done]).
  apply bind_ok_inv in Et as ([[[[pc3 e3] c3] s3]|er] & Hx & Et); [|injection Et as <-; by left]. cbn [in_env] in *.
  apply bind_ok_inv in Et as (mln & _ & Et). apply bind_ok_inv in Et as (rd & _ & Et).
  destruct (op_reverts (table op)) eqn:Hr; [apply bind_ok_inv in Et as (ret & _ & Et); injection Et as <-; right; eauto 9|].
  destruct (op_halts (table op)) eqn:Hh; [apply bind_ok_inv in Et as (ret & _ & Et); injection Et as <-; right; eauto 9|].
  destruct (op_jumps (table op)) eqn:Hj; cbn [negb] in Et; [injection Et as <-; eauto|].
  apply bind_ok_inv in Et as (f & _ & Et). case_decide; injection Et as <-; [eauto|right; split_and!; [done..|eauto]].
Qed.

Lemma jumps_go_on op : op_jumps (table op) = true -> op_halts (table op) = false /\ op_reverts (table op) = false.
Proof. unfold table, omegaInstructionSet. by repeat case_match. Qed.

(** Over a run that started with [it0] and [c0]. *)
Lemma pure_steps x y : rtc step x y -> Z.land (ct_pure (cf_contract x)) NOWRITE <> 0 ->
  keeps_values (in_env (cf_interp x)) (cf_contract x) (in_env (cf_interp y)) (cf_contract y).
Proof.
  induction 1 as [x|x y z [Hm [Ht _]] _ IH]; intros Hp; [apply keeps_values_refl|].
  pose proof Ht as (op & pc1 & Hop & _)%turn_continues. destruct (pure_turn _ _ _ _ _ op Hp Hop Ht) as (Hw & Hv & pc2 & Hx).
  destruct (reader_keeps _ _ _ _ _ _ _ _ _ (Hm _ Hop) Hw Hv Hx) as [Hk _]. eapply keeps_values_trans; [exact Hk|]. apply IH. by rewrite (kv_pure _ _ _ _ Hk).
Qed.

(** The interpreters that a run shows at [x]: the one of the state, and the one that the next turn leaves when it ends the run. *)
Definition shown (x : config) (it : interp) : Prop :=
  it = cf_interp x \/ next_modelled x /\ exists ret err, turn table (cf_interp x) (cf_contract x) (cf_stack x) (cf_pc x) = Ok (Return ret err it).

Lemma shown_keeps x it : Z.land (ct_pure (cf_contract x)) NOWRITE <> 0 -> shown x it ->
  keeps_values (in_env (cf_interp x)) (cf_contract x) (in_env it) (cf_contract x).
Proof.
  intros Hp [->|(Hm & ret & err & Ht)]; [apply keeps_values_refl|]. destruct (GetOp (cf_contract x) (cf_pc x)) as [op| |] eqn:Hop.
  - destruct (pure_turn _ _ _ _ _ op Hp Hop Ht) as [->|(Hw & Hv & Hj & pc1 & c' & s' & Hx)]; [apply keeps_values_refl|].
    destruct (reader_keeps _ _ _ _ _ _ _ _ _ (Hm _ Hop) Hw Hv Hx) as [Hk Hc]. destruct (op_jumps (table op)) eqn:Ej; [|by rewrite Hc in Hk].
    destruct (jumps_go_on op Ej) as [E1 E2]. destruct (Hj eq_refl); congruence.
  - unfold turn in Ht. rewrite Hop in Ht. case_decide; [|done]. injection Ht as _ _ <-. apply keeps_values_refl.
  - unfold turn in Ht. rewrite Hop in Ht. case_decide; [|done]. injection Ht as _ _ <-. apply keeps_values_refl.
Qed.

(** C35: a contract that is called with NOWRITE writes no storage.  As long as it executes modelled instructions (STORE, DEL, LOAD, META, calls, jumps and library loads among
    them, but not EXEC, MINT, SELFDESTRUCT and the others that are not modelled), in every state of the run and when it ends, the database is as before, and every contract has at
    every key the value that it had, cached or not; only the contract whose code was loaded as a library shows the values of the database, since the load drops what was cached. *)
Theorem pure_contract_keeps_state (it it' : interp) (c : Contract) (s : Stack) (x : config)
    (Hp : Z.land (ct_pure c) NOWRITE <> 0) (Hx : rtc step (started it c s) x) (Hit : shown x it') :
  let v := en_ovm (in_env it) in let v' := en_ovm (in_env it') in
  v_DB v' = v_DB v /\ v_TokenTypes v' = v_TokenTypes v /\
  forall a, (forall k, seen v' a k = seen v a k) \/ (is_Some (ct_libs (cf_contract x) !! a) /\ forall k, seen v' a k = committed (v_DB v) a k).
Proof.
  pose proof (pure_steps _ _ Hx Hp) as H1. assert (Z.land (ct_pure (cf_contract x)) NOWRITE <> 0) as Hp' by (by rewrite (kv_pure _ _ _ _ H1)).
  destruct (keeps_values_trans _ _ _ _ _ _ H1 (shown_keeps x it' Hp' Hit)) as [E1 E2 _ _ E3]. done.
Qed.
End Pure.

(** ** Examples *)

Definition home : list Z := replicate 20 7.
(** The contract [home] has [5; 5] at the key 0 in the database. *)
Definition home_db : database := MkDb {[home := {[key_code := replicate 36 0]}]} {[home := {[index_key 0 := [5; 5]]}]} ∅ 0 ∅.
Definition home_interp (d : stateDB) : interp := MkInterp 9 0 MainNet (MkEnv (MkOVM home_db {[home := d]} ∅ ∅ 0) 0 0 None []) [].
(** LOAD of the value, then DEL. *)
Definition load_and_delete : list inst := [MkInst 0x4e [ch "0"; ch_comma; ch "0"; ch_comma]; MkInst 0x50 [ch "0"; ch_comma]; MkInst 0x7a []].
Definition pure_contract : Contract := MkContract ∅ load_and_delete home NOWRITE.
Definition no_other : Z -> executionFunc := fun _ _ _ _ _ => Panic.
Abbreviation table0 := (omegaInstructionSet (fun _ _ _ => 0) id id id id id (fun _ _ => []) (fun _ => []) no_other).
Abbreviation next0 := (next (fun _ _ _ => 0) id id id id id (fun _ _ => []) (fun _ => []) no_other).
Definition pure_stack : Stack := match initial_stack NOWRITE (replicate 8 0) with Ok s => s | _ => Newstack end.
Definition pure_start : config := started (home_interp (NewStateDB home)) pure_contract pure_stack.

(** LOAD puts the value into the cache; DEL ends the run with an error, and the value is still there. *)
Lemma pure_contract_keeps_state_witness : exists it', turn table0 (cf_interp (next0 pure_start)) (cf_contract (next0 pure_start)) (cf_stack (next0 pure_start)) 1 = Ok (Return [] (Some WriteProtection) it') /\
  seen (en_ovm (in_env it')) home (index_key 0) = Some [5; 5].
Proof.
  assert (exists it', turn table0 (cf_interp (next0 pure_start)) (cf_contract (next0 pure_start)) (cf_stack (next0 pure_start)) 1 = Ok (Return [] (Some WriteProtection) it')) as [it' Ht]
    by (eexists; vm_compute; reflexivity).
  exists it'. split; [exact Ht|].
  destruct (pure_contract_keeps_state (fun _ _ _ => 0) id id id id id (fun _ _ => []) (fun _ => []) no_other (home_interp (NewStateDB home)) it' pure_contract pure_stack
    (next0 pure_start)) as (_ & _ & Hs).
  - vm_compute. discriminate.
  - eapply rtc_l; [apply next_step; [vm_compute; reflexivity|vm_compute; exact I|vm_compute; reflexivity]|]. apply rtc_refl.
  - right. split; [apply next_modelled_spec; vm_compute; reflexivity|]. exists [], (Some WriteProtection). exact Ht.
  - destruct (Hs home) as [E|[_ E]]; rewrite E; vm_compute; reflexivity.
Defined.

(** LIBLOAD of the contract [home], which the block has written. *)
Definition load_home : list inst := [MkInst 0x51 ([ch "0"; ch_comma; ch "x"] ++ concat (replicate 20 [ch "0"; ch "7"]) ++ [ch_comma])].
Definition written_home : stateDB := MkStateDB home {[index_key 0 := MkEntry (Some [5; 5]) (Some [9])]} ∅ false false false.

(** A value that a contract wrote in the block is lost when another contract of the block loads its code as a library. *)
Theorem library_load_drops_writes : exists pc e c s,
  opLibLoad id (fun _ _ => []) (fun _ => []) (in_env (home_interp written_home)) (code_only ∅ load_home) 0 Newstack = Ok (inl (pc, e, c, s)) /\
  seen (en_ovm (in_env (home_interp written_home))) home (index_key 0) = Some [9] /\ seen (en_ovm e) home (index_key 0) = Some [5; 5].
Proof. do 4 eexists. split_and!; vm_compute; reflexivity. Qed.
