(* ===== verification/Wire.v ===== *)
(** * Readers, writers and variable-length integers

    Models btcd/wire/common/common.go: the binary serializer, ReadElement and
    WriteElement, variable-length integers, strings and byte strings.  A reader takes the
    bytes that are left and gives a value or an error with the bytes behind it; a writer
    gives the bytes it writes (buffers never refuse a write).  The free lists of buffers
    only save allocations and are not modelled. *)
From Stdlib Require Import ZArith Lia.
From stdpp Require Import gmap list.
From S2P Require Import Prelude.

Open Scope Z_scope.

(** ** Readers *)

Inductive wire_err :=
  | EOF
  | UnexpectedEOF
  | NonCanonicalVarInt
  | TooLong
  | TooMany
  | UnknownDefinition
  | BadFormat
  | InvalidType
  | WrongNet
  | UnknownCommand
  | BadChecksum
  | BadVersion.

Definition reader (A : Type) : Type := list Z -> outcome ((A * list Z) + (wire_err * list Z)).

Global Instance reader_ret : MRet reader := fun A a r => Ok (inl (a, r)).
Global Instance reader_bind : MBind reader := fun A B k m r =>
  match m r with Ok (inl (a, r)) => k a r | Ok (inr e) => Ok (inr e) | Panic => Panic | NoFuel => NoFuel end.
Definition rfail {A} (e : wire_err) : reader A := fun r => Ok (inr (e, r)).
Definition rpanic {A} : reader A := fun _ => Panic.
Definition rlift {A} (o : outcome A) : reader A := fun r => match o with Ok a => Ok (inl (a, r)) | Panic => Panic | NoFuel => NoFuel end.

(** The caller of [m] returns [b] without an error when [m] fails, from where it stopped. *)
Definition rcatch {A B} (m : reader A) (k : A -> reader B) (b : B) : reader B := fun r =>
  match m r with Ok (inl (a, r)) => k a r | Ok (inr (_, r)) => Ok (inl (b, r)) | Panic => Panic | NoFuel => NoFuel end.

(** [io.ReadFull] into a buffer of [n] bytes. *)
Definition ReadFull (n : nat) : reader (list Z) := fun r =>
  if decide (n <= length r)%nat then Ok (inl (take n r, drop n r))
  else Ok (inr (if decide (r = []) then EOF else UnexpectedEOF, [])).

(** [io.ReadFull] into [buf] whose error is not looked at. *)
Definition ReadOver (buf : list Z) : reader (list Z) := fun r =>
  Ok (inl (take (length buf) r ++ drop (length r) buf, drop (length buf) r)).

(** [Read] of a [bytes.Buffer] into [buf]. *)
Definition Read (buf : list Z) : reader (list Z) := fun r =>
  if decide (r = []) then if decide (buf = []) then Ok (inl ([], [])) else Ok (inr (EOF, []))
  else Ok (inl (take (length buf) r ++ drop (length r) buf, drop (length buf) r)).

(** [make] of [n] elements of [size] bytes: more than the address space of 48 bits, or a
    length that is no [int], panics. *)
Definition make_ok (size n : Z) : Prop := 0 <= n /\ n * size <= 2 ^ 48.
Global Instance make_ok_dec size n : Decision (make_ok size n).
Proof. unfold make_ok. apply _. Defined.
Definition make (size n : Z) : outcome unit := if decide (make_ok size n) then Ok () else Panic.

(** ** The binary serializer, little-endian *)

Definition Uint8 : reader Z := b ← ReadFull 1; mret (le_value b).
Definition Uint16 : reader Z := b ← ReadFull 2; mret (le_value b).
Definition Uint32 : reader Z := b ← ReadFull 4; mret (le_value b).
Definition Uint64 : reader Z := b ← ReadFull 8; mret (le_value b).

Definition PutUint8 (v : Z) : list Z := le_bytes 1 v.
Definition PutUint16 (v : Z) : list Z := le_bytes 2 v.
Definition PutUint32 (v : Z) : list Z := le_bytes 4 v.
Definition PutUint64 (v : Z) : list Z := le_bytes 8 v.

Global Arguments PutUint8 : simpl never.
Global Arguments PutUint16 : simpl never.
Global Arguments PutUint32 : simpl never.
Global Arguments PutUint64 : simpl never.
Global Arguments uwrap : simpl never.
Global Arguments swrap : simpl never.
Global Arguments uint_range : simpl never.
Global Arguments sint_range : simpl never.

(** ** Elements *)

Inductive elt :=
  | EInt32 | EUint32 | EUint8 | EInt64 | EUint64 | EBool | EUint32Time | EInt64Time
  | EChecksum | ECommand | EIP | EHash | EServiceFlag | EInvType | EOmegaNet | EBloomUpdateType | ERejectCode.

Definition elt_type (t : elt) : Type :=
  match t with
  | EBool => bool
  | EChecksum | ECommand | EIP | EHash => list Z
  | _ => Z
  end.

(** A time is given by its seconds. *)
Definition ReadElement (t : elt) : reader (elt_type t) :=
  match t with
  | EInt32 => rv ← Uint32; mret (i32 rv)
  | EUint32 => Uint32
  | EUint8 => Uint8
  | EInt64 => rv ← Uint64; mret (i64 rv)
  | EUint64 => Uint64
  | EBool => rv ← Uint8; mret (negb (bool_decide (rv = 0)))
  | EUint32Time => Uint32
  | EInt64Time => rv ← Uint64; mret (i64 rv)
  | EChecksum => ReadFull 4
  | ECommand => ReadFull 12
  | EIP => ReadFull 16
  | EHash => ReadFull 32
  | EServiceFlag => Uint64
  | EInvType => Uint32
  | EOmegaNet => Uint32
  | EBloomUpdateType => Uint8
  | ERejectCode => Uint8
  end.

(** A [uint8] is written by [binary.Write]; a time cannot be written. *)
Definition WriteElement (t : elt) : elt_type t -> list Z + wire_err :=
  match t with
  | EInt32 => fun e => inl (PutUint32 (u32 e))
  | EUint32 => fun e => inl (PutUint32 e)
  | EUint8 => fun e => inl (PutUint8 e)
  | EInt64 => fun e => inl (PutUint64 (u64 e))
  | EUint64 => fun e => inl (PutUint64 e)
  | EBool => fun e => inl (PutUint8 (if e : bool then 1 else 0))
  | EUint32Time => fun _ => inr InvalidType
  | EInt64Time => fun _ => inr InvalidType
  | EChecksum => fun e => inl e
  | ECommand => fun e => inl e
  | EIP => fun e => inl e
  | EHash => fun e => inl e
  | EServiceFlag => fun e => inl (PutUint64 e)
  | EInvType => fun e => inl (PutUint32 e)
  | EOmegaNet => fun e => inl (PutUint32 e)
  | EBloomUpdateType => fun e => inl (PutUint8 e)
  | ERejectCode => fun e => inl (PutUint8 e)
  end.

(** ** Variable-length integers, strings and byte strings *)

Definition ReadVarInt : reader Z :=
  discriminant ← Uint8;
  if decide (discriminant = 0xff) then rv ← Uint64; if decide (rv < 0x100000000) then rfail NonCanonicalVarInt else mret rv
  else if decide (discriminant = 0xfe) then rv ← Uint32; if decide (rv < 0x10000) then rfail NonCanonicalVarInt else mret rv
  else if decide (discriminant = 0xfd) then rv ← Uint16; if decide (rv < 0xfd) then rfail NonCanonicalVarInt else mret rv
  else mret discriminant.

Definition WriteVarInt (val : Z) : list Z :=
  if decide (val < 0xfd) then PutUint8 val
  else if decide (val <= 0xffff) then PutUint8 0xfd ++ PutUint16 val
  else if decide (val <= 0xffffffff) then PutUint8 0xfe ++ PutUint32 val
  else PutUint8 0xff ++ PutUint64 val.

Definition VarIntSerializeSize (val : Z) : Z :=
  if decide (val < 0xfd) then 1 else if decide (val <= 0xffff) then 3 else if decide (val <= 0xffffffff) then 5 else 9.

(** The limit of strings. *)
Definition MaxStringPayload : Z := 1024 * 1024 * 32.

Definition ReadVarBytes (maxAllowed : Z) : reader (list Z) :=
  count ← ReadVarInt; if decide (maxAllowed < count) then rfail TooLong else ReadFull (Z.to_nat count).
Definition WriteVarBytes (b : list Z) : list Z := WriteVarInt (len b) ++ b.

Definition ReadVarString : reader (list Z) := ReadVarBytes MaxStringPayload.
Definition WriteVarString (s : list Z) : list Z := WriteVarInt (len s) ++ s.

(** [n] items. *)
Fixpoint read_n {A} (n : nat) (m : reader A) : reader (list A) :=
  match n with O => mret [] | S n => a ← m; l ← read_n n m; mret (a :: l) end.

(** ** What readers accept

    [reads m b a]: behind the bytes [b], whatever follows, [m] gives [a].
    [parsed m P]: when [m] succeeds, the value [a] and the bytes [b] it has consumed
    satisfy [P a b]. *)
Definition reads {A} (m : reader A) (b : list Z) (a : A) : Prop := forall r, m (b ++ r) = Ok (inl (a, r)).
Definition parsed {A} (m : reader A) (P : A -> list Z -> Prop) : Prop :=
  forall r a r', bytes r -> m r = Ok (inl (a, r')) -> exists b, r = b ++ r' /\ P a b.

Create HintDb reads.

Section Theory.
Context {A B : Type}.
Implicit Types (m : reader A) (k : A -> reader B).

Lemma reads_ret (a : A) : reads (mret a) [] a.
Proof. by intros r. Qed.

Lemma reads_bind m k b1 b2 a c : reads m b1 a -> reads (k a) b2 c -> reads (m ≫= k) (b1 ++ b2) c.
Proof. intros H1 H2 r. unfold mbind, reader_bind. by rewrite <- app_assoc, H1. Qed.

(** The last reader of a sequence. *)
Lemma reads_bind_ret m k b a c : reads m b a -> reads (k a) [] c -> reads (m ≫= k) b c.
Proof. intros H1 H2. rewrite <- (app_nil_r b). by eapply reads_bind. Qed.

Lemma parsed_bind m k P (Q : B -> list Z -> Prop) :
  parsed m P -> (forall a b, P a b -> parsed (k a) (fun c b' => Q c (b ++ b'))) -> parsed (m ≫= k) Q.
Proof.
  intros Hm Hk r c r' Hr. unfold mbind, reader_bind. destruct (m r) as [[[a r1]|]| |] eqn:E; try done. intros H.
  destruct (Hm _ _ _ Hr E) as (b & -> & HP). apply Forall_app in Hr as [_ Hr1].
  destruct (Hk a b HP _ _ _ Hr1 H) as (b' & -> & HQ). exists (b ++ b'). by rewrite app_assoc.
Qed.

Lemma parsed_mono m (P Q : A -> list Z -> Prop) : parsed m P -> (forall a b, P a b -> Q a b) -> parsed m Q.
Proof. intros H HPQ r a r' Hr E. destruct (H _ _ _ Hr E) as (b & -> & Hb). eauto. Qed.

Lemma parsed_ret (a : A) (P : A -> list Z -> Prop) : P a [] -> parsed (mret a) P.
Proof. intros H r a' r' _ [= <- <-]. by exists []. Qed.

Lemma parsed_fail e (P : A -> list Z -> Prop) : parsed (rfail e) P.
Proof. done. Qed.
End Theory.

(** Decoding succeeds on at most one reading of the bytes. *)
Lemma reads_det {A} (m : reader A) b a b' a' r r' : reads m b a -> reads m b' a' -> b ++ r = b' ++ r' -> a = a' /\ r = r'.
Proof. intros H1 H2 E. specialize (H1 r). rewrite E, H2 in H1. by injection H1 as <- <-. Qed.

(** ** The serializer *)

Lemma reads_full n b : length b = n -> reads (ReadFull n) b b.
Proof. intros <- r. unfold ReadFull. rewrite decide_True by (rewrite length_app; lia). by rewrite take_app_length, drop_app_length. Qed.

Lemma parsed_full n : parsed (ReadFull n) (fun a b => a = b /\ length b = n /\ bytes b).
Proof.
  intros r a r' Hr. unfold ReadFull. case_decide; [|done]. intros [= <- <-]. exists (take n r).
  rewrite take_drop. split_and!; [done|done|rewrite length_take; lia|by apply Forall_take].
Qed.

Lemma reads_number n v : uint_range (8 * Z.of_nat n) v -> reads (b ← ReadFull n; mret (le_value b)) (le_bytes n v) v.
Proof.
  intros Hv. eapply reads_bind_ret; [apply reads_full, le_bytes_length|]. rewrite le_value_le_bytes, Z.mod_small by done. apply reads_ret.
Qed.

Lemma parsed_number n : parsed (b ← ReadFull n; mret (le_value b)) (fun v b => b = le_bytes n v /\ uint_range (8 * Z.of_nat n) v).
Proof.
  eapply parsed_bind; [apply parsed_full|]. intros a b (-> & <- & Hb). apply parsed_ret. rewrite app_nil_r.
  split; [by rewrite le_bytes_le_value|]. by apply le_value_bound.
Qed.

Lemma reads_Uint8 v : uint_range 8 v -> reads Uint8 (PutUint8 v) v.
Proof. apply (reads_number 1). Qed.
Lemma reads_Uint16 v : uint_range 16 v -> reads Uint16 (PutUint16 v) v.
Proof. apply (reads_number 2). Qed.
Lemma reads_Uint32 v : uint_range 32 v -> reads Uint32 (PutUint32 v) v.
Proof. apply (reads_number 4). Qed.
Lemma reads_Uint64 v : uint_range 64 v -> reads Uint64 (PutUint64 v) v.
Proof. apply (reads_number 8). Qed.
Lemma parsed_Uint8 : parsed Uint8 (fun v b => b = PutUint8 v /\ uint_range 8 v).
Proof. apply (parsed_number 1). Qed.
Lemma parsed_Uint16 : parsed Uint16 (fun v b => b = PutUint16 v /\ uint_range 16 v).
Proof. apply (parsed_number 2). Qed.
Lemma parsed_Uint32 : parsed Uint32 (fun v b => b = PutUint32 v /\ uint_range 32 v).
Proof. apply (parsed_number 4). Qed.
Lemma parsed_Uint64 : parsed Uint64 (fun v b => b = PutUint64 v /\ uint_range 64 v).
Proof. apply (parsed_number 8). Qed.

Lemma PutUint32_length v : length (PutUint32 v) = 4%nat.
Proof. reflexivity. Qed.

(** ** Variable-length integers *)

Lemma reads_VarInt v : uint_range 64 v -> reads ReadVarInt (WriteVarInt v) v.
Proof.
  intros Hv. unfold uint_range in Hv. unfold WriteVarInt, ReadVarInt. repeat case_decide.
  - eapply reads_bind_ret; [apply reads_Uint8; unfold uint_range; lia|]. do 3 (rewrite decide_False by lia). apply reads_ret.
  - eapply reads_bind; [by apply reads_Uint8|]. do 2 (rewrite decide_False by done). rewrite decide_True by done.
    eapply reads_bind_ret; [apply reads_Uint16; unfold uint_range; lia|]. rewrite decide_False by lia. apply reads_ret.
  - eapply reads_bind; [by apply reads_Uint8|]. rewrite decide_False by done. rewrite decide_True by done.
    eapply reads_bind_ret; [apply reads_Uint32; unfold uint_range; lia|]. rewrite decide_False by lia. apply reads_ret.
  - eapply reads_bind; [by apply reads_Uint8|]. rewrite decide_True by done.
    eapply reads_bind_ret; [apply reads_Uint64; unfold uint_range; lia|]. rewrite decide_False by lia. apply reads_ret.
Qed.

Lemma parsed_VarInt : parsed ReadVarInt (fun v b => b = WriteVarInt v /\ uint_range 64 v).
Proof.
  assert (forall (n : nat) (d lo : Z) pre, (n = 2 \/ n = 4 \/ n = 8)%nat ->
    (forall v, lo <= v < 2 ^ (8 * Z.of_nat n) -> WriteVarInt v = pre ++ le_bytes n v) ->
    parsed (rv ← (b ← ReadFull n; mret (le_value b)); if decide (rv < lo) then rfail NonCanonicalVarInt else mret rv)
      (fun v b => pre ++ b = WriteVarInt v /\ uint_range 64 v)) as Hlong.
  { intros n d lo pre Hn Hw. eapply parsed_bind; [apply parsed_number|]. intros v b [-> Hv]. case_decide; [apply parsed_fail|].
    unfold uint_range in *. apply parsed_ret. rewrite app_nil_r. split; [symmetry; apply Hw; lia|].
    destruct Hn as [->|[->| ->]]; lia. }
  unfold ReadVarInt. eapply parsed_bind; [apply parsed_Uint8|]. intros d b [-> Hd].
  case_decide; [subst|case_decide; [subst|case_decide; [subst|]]].
  - apply (Hlong 8%nat 0 0x100000000 (PutUint8 0xff)); [tauto|]. intros v Hv. unfold WriteVarInt. do 3 (rewrite decide_False by lia). done.
  - apply (Hlong 4%nat 0 0x10000 (PutUint8 0xfe)); [tauto|]. intros v Hv. unfold WriteVarInt. do 2 (rewrite decide_False by lia).
    by rewrite decide_True by lia.
  - apply (Hlong 2%nat 0 0xfd (PutUint8 0xfd)); [tauto|]. intros v Hv. unfold WriteVarInt. rewrite decide_False by lia.
    by rewrite decide_True by lia.
  - apply parsed_ret. rewrite app_nil_r. unfold WriteVarInt, uint_range in *. rewrite decide_True by lia. split; [done|lia].
Qed.

Lemma WriteVarInt_length v : len (WriteVarInt v) = VarIntSerializeSize v.
Proof. unfold WriteVarInt, VarIntSerializeSize. repeat case_decide; done. Qed.

Lemma reads_VarBytes max b : len b <= max -> len b < 2 ^ 64 -> reads (ReadVarBytes max) (WriteVarBytes b) b.
Proof.
  intros Hm H64. unfold ReadVarBytes, WriteVarBytes. eapply reads_bind; [apply reads_VarInt; unfold uint_range; lia|].
  rewrite decide_False by lia. apply reads_full. lia.
Qed.

Lemma parsed_VarBytes max : parsed (ReadVarBytes max) (fun a b => b = WriteVarBytes a /\ len a <= max /\ bytes a).
Proof.
  unfold ReadVarBytes. eapply parsed_bind; [apply parsed_VarInt|]. intros n b [-> Hn]. case_decide; [apply parsed_fail|].
  eapply parsed_mono; [apply parsed_full|]. intros a b (-> & Hl & Hb). unfold uint_range in Hn. unfold WriteVarBytes. rewrite Hl, Z2Nat.id by lia.
  split_and!; [done|lia|done].
Qed.

(** ** Lists *)

Lemma reads_n {A} (m : reader A) (enc : A -> list Z) l : Forall (fun a => reads m (enc a) a) l -> reads (read_n (length l) m) (l ≫= enc) l.
Proof.
  induction 1 as [|a l Ha _ IH]; cbn [read_n length]; [apply reads_ret|]. eapply reads_bind; [exact Ha|].
  eapply reads_bind_ret; [exact IH|]. apply reads_ret.
Qed.

Lemma parsed_n {A} (m : reader A) (enc : A -> list Z) (valid : A -> Prop) n : parsed m (fun a b => b = enc a /\ valid a) ->
  parsed (read_n n m) (fun l b => b = (l ≫= enc) /\ length l = n /\ Forall valid l).
Proof.
  intros Hm. induction n as [|n IH]; cbn [read_n]; [by apply parsed_ret|]. eapply parsed_bind; [exact Hm|]. intros a b [-> Ha].
  eapply parsed_bind; [exact IH|]. intros l b (-> & <- & Hl). apply parsed_ret. rewrite app_nil_r. split_and!; [done|done|by constructor].
Qed.

#[export] Hint Resolve reads_ret reads_full reads_Uint8 reads_Uint16 reads_Uint32 reads_Uint64 reads_VarInt reads_VarBytes : reads.
#[export] Hint Resolve parsed_Uint8 parsed_Uint16 parsed_Uint32 parsed_Uint64 parsed_VarInt parsed_VarBytes parsed_full : reads.

(** Reads a sequence of fields, each by a hint. *)
Ltac reads_seq :=
  repeat first
    [ apply reads_ret
    | eapply reads_bind; [solve [eauto with reads]|]
    | eapply reads_bind_ret; [solve [eauto with reads]|apply reads_ret] ].
