(* ===== verification/Token.v ===== *)
(** * Definitions and tokens

    Models omega/token/token.go: the definitions a transaction carries (vertices, borders,
    polygons, rights, right sets, the separator) with their hashes, sizes and encodings,
    the tokens of outputs, and the replacement of references to definitions.  The hash
    function of the chain library is the parameter [HashH]. *)
From Stdlib Require Import ZArith Lia.
From stdpp Require Import gmap list sorting.
From S2P Require Import Prelude Wire.

Open Scope Z_scope.

Definition HashSize : nat := 32.
Definition zero_hash : list Z := replicate HashSize 0.
Definition is_hash (h : list Z) : Prop := length h = HashSize /\ bytes h.
Definition IsEqual (a b : list Z) : bool := bool_decide (a = b).

(** ** Vertices *)

Record VertexDef := MkVertex { lat : Z; lng : Z; alt : Z }.

Definition vertex_Serialize (s : VertexDef) : list Z := PutUint32 (u32 (lat s)) ++ PutUint32 (u32 (lng s)) ++ PutUint32 (u32 (alt s)).

(** [Uint32] of the first four bytes of a slice. *)
Definition le32 (b : list Z) : outcome Z := h ← slice_sub b 0 4; Ok (le_value h).

Definition vertex_Deserialize (r : list Z) : outcome VertexDef :=
  x ← le32 r;
  r4 ← slice_sub r 4 (len r); y ← le32 r4;
  r8 ← slice_sub r 8 (len r); z ← le32 r8;
  Ok (MkVertex (i32 x) (i32 y) (i32 z)).

Definition vertex_IsEqual (s t : VertexDef) : bool := bool_decide (lng s = lng t) && bool_decide (lat s = lat t).

(** ** Definitions *)

(** The first field of borders, polygons, rights and right sets is the cached hash. *)
Inductive definition :=
  | DVertex (v : VertexDef)
  | DBorder (hash : option (list Z)) (Father : list Z) (Begin End : VertexDef)
  | DPolygon (hash : option (list Z)) (Loops : list (list (list Z)))
  | DRight (hash : option (list Z)) (Father Desc : list Z) (Attrib : Z)
  | DRightSet (hash : option (list Z)) (Rights : list (list Z)) (sorted : Z)
  | DSeparator.

Definition DefType (d : definition) : Z :=
  match d with DVertex _ => 0 | DBorder _ _ _ _ => 1 | DPolygon _ _ => 2 | DRight _ _ _ _ => 4 | DRightSet _ _ _ => 5 | DSeparator => 0xfc end.
Definition DefTypeSeparator : Z := 0xfc.

Definition def_IsSeparator (d : definition) : bool := match d with DSeparator => true | _ => false end.

Definition NewBorderDef (b e : VertexDef) (father : list Z) : option definition :=
  if vertex_IsEqual b e then None else Some (DBorder None father b e).
Definition NewPolygonDef (loops : list (list (list Z))) : definition := DPolygon None loops.
Definition NewRightDef (father desc : list Z) (attrib : Z) : definition := DRight None father desc (Z.lor attrib 0x80).
Definition NewRightSetDef (rights : list (list Z)) : definition := DRightSet None rights 0.

(** The order of [less] on hashes; hashes that are equal stay in their order. *)
Definition hash_le (a b : list Z) : Prop := bytes_compare a b <> Gt.
Global Instance hash_le_dec a b : Decision (hash_le a b).
Proof. unfold hash_le. apply _. Defined.

Definition right_sort (rights : list (list Z)) (sorted : Z) : list (list Z) :=
  if decide (sorted = len rights) then rights else merge_sort hash_le rights.

(** [Match]; a loop of [t] that is too short makes it panic. *)
Fixpoint match_loop (a b : list (list Z)) : outcome bool :=
  match a, b with
  | [], _ => Ok true
  | _ :: _, [] => Panic
  | x :: a, y :: b => if IsEqual x y then match_loop a b else Ok false
  end.
Fixpoint match_loops (a b : list (list (list Z))) : outcome bool :=
  match a, b with
  | x :: a, y :: b => ok ← match_loop x y; if ok : bool then match_loops a b else Ok false
  | _, _ => Ok true
  end.

Definition Match (s p : definition) : outcome bool :=
  match s, p with
  | DVertex s, DVertex t => Ok (bool_decide (lng s = lng t) && bool_decide (alt s = alt t) && bool_decide (lat s = lat t))
  | DBorder _ f1 b1 e1, DBorder _ f2 b2 e2 => Ok (IsEqual f1 f2 && vertex_IsEqual b1 b2 && vertex_IsEqual e1 e2)
  | DPolygon _ l1, DPolygon _ l2 => if decide (length l1 <> length l2) then Ok false else match_loops l1 l2
  | DRight _ f1 d1 a1, DRight _ f2 d2 a2 =>
      if decide (a1 <> a2 \/ IsEqual f1 f2 = false) then Ok false else Ok (bool_decide (bytes_compare d1 d2 = Eq))
  | DRightSet _ r1 _, DRightSet _ r2 _ => if decide (length r1 <> length r2) then Ok false else match_loop r1 r2
  | DSeparator, DSeparator => Ok true
  | _, _ => Ok false
  end.

Definition def_SerializeSize (d : definition) : Z :=
  match d with
  | DVertex _ => 12
  | DBorder _ _ _ _ => 32 + 24
  | DPolygon _ loops =>
      1 + VarIntSerializeSize (len loops) + foldr (fun loop n => VarIntSerializeSize (len loop) + len loop * 32 + n) 0 loops
  | DRight _ _ desc _ => 1 + 32 + 1 + VarIntSerializeSize (len desc) + len desc
  | DRightSet _ rights _ => VarIntSerializeSize (len rights) + 32 * len rights
  | DSeparator => 1
  end.

Definition def_Size (d : definition) : Z :=
  match d with
  | DVertex _ => 12
  | DBorder _ _ _ _ => 32 + 24
  | DPolygon _ loops => 1 + 4 + foldr (fun loop n => 4 + len loop * 32 + n) 0 loops
  | DRight _ _ desc _ => 1 + 32 + 1 + 4 + len desc
  | DRightSet _ rights _ => 4 + 32 * len rights
  | DSeparator => 1
  end.

Definition Dup (d : definition) : definition :=
  match d with
  | DVertex v => DVertex v
  | DBorder _ f b e => DBorder None f b e
  | DPolygon _ loops => DPolygon None loops
  | DRight _ f desc a => DRight None f desc a
  | DRightSet _ rights _ => DRightSet None rights 0
  | DSeparator => DSeparator
  end.
Definition CopyDefinitions (defs : list definition) : list definition := Dup <$> defs.

Section Hash.
Context (HashH : list Z -> list Z).

(** [hash[0] &= 0xFE] *)
Definition clear_low (h : list Z) : outcome (list Z) := b ← slice_get h 0; slice_set h 0 (Z.land b 0xfe).

(** The hash, and the definition with its caches. *)
Definition Hash (d : definition) : outcome (list Z * definition) :=
  match d with
  | DVertex v => b ← slice_sub (vertex_Serialize v) 0 8; Ok (b ++ replicate 24 0, d)
  | DBorder (Some h) _ _ _ | DPolygon (Some h) _ | DRight (Some h) _ _ _ => Ok (h, d)
  | DBorder None f b e => h ← clear_low (HashH (f ++ vertex_Serialize b ++ vertex_Serialize e)); Ok (h, DBorder (Some h) f b e)
  | DPolygon None loops => let h := HashH (concat (concat loops)) in Ok (h, DPolygon (Some h) loops)
  | DRight None f desc a => let h := HashH (f ++ desc ++ [a]) in Ok (h, DRight (Some h) f desc a)
  | DRightSet hash rights sorted =>
      let hash := if decide (sorted = len rights) then hash else None in
      let rights := right_sort rights sorted in
      match hash with
      | Some h => Ok (h, DRightSet hash rights sorted)
      | None => let h := HashH (concat rights) in Ok (h, DRightSet (Some h) rights sorted)
      end
  | DSeparator => Ok (zero_hash, d)
  end.

Definition def_hash (d : definition) : outcome (list Z) := '(h, _) ← Hash d; Ok h.
End Hash.

(** ** The encodings *)

Definition read_vertex (buf : list Z) : reader (VertexDef * list Z) := b ← ReadOver buf; v ← rlift (vertex_Deserialize b); mret (v, b).

(** [n] hashes; a short read leaves zeros. *)
Definition read_hashes (n : Z) : reader (list (list Z)) := read_n (Z.to_nat n) (ReadOver zero_hash).

(** [Uint8] whose error is not looked at. *)
Definition Uint8_or_zero : reader Z := rcatch Uint8 mret 0.

(** The two ways to read and write the lengths: wire and memory. *)
Section Coding.
Context (ReadLen : reader Z) (WriteLen : Z -> list Z).

Definition read_Polygon : reader definition :=
  nloops ← ReadLen;
  _ ← rlift (make 24 nloops);
  loops ← read_n (Z.to_nat nloops) (borders ← ReadLen; _ ← rlift (make 32 borders); read_hashes borders);
  mret (DPolygon None loops).

Definition read_Right : reader definition :=
  f ← ReadOver zero_hash;
  n ← ReadLen;
  _ ← rlift (make 1 n);
  desc ← ReadOver (replicate (Z.to_nat n) 0);
  a ← Uint8_or_zero;
  mret (DRight None f desc a).

Definition read_RightSet : reader definition :=
  n ← ReadLen;
  _ ← rlift (make 32 n);
  rights ← read_hashes n;
  mret (DRightSet None rights 0).

Definition read_body (t : Z) : reader definition :=
  if decide (t = 0) then b ← Read (replicate 12 0); v ← rlift (vertex_Deserialize b); mret (DVertex v)
  else if decide (t = 1) then
    f ← ReadOver zero_hash;
    '(b, buf) ← read_vertex (replicate 12 0);
    '(e, _) ← read_vertex buf;
    mret (DBorder None f b e)
  else if decide (t = 2) then read_Polygon
  else if decide (t = 4) then read_Right
  else if decide (t = 5) then read_RightSet
  else if decide (t = DefTypeSeparator) then mret DSeparator
  else rfail UnknownDefinition.

Definition write_body (d : definition) : list Z :=
  match d with
  | DVertex v => vertex_Serialize v
  | DBorder _ f b e => f ++ vertex_Serialize b ++ vertex_Serialize e
  | DPolygon _ loops => WriteLen (len loops) ++ (loops ≫= fun loop => WriteLen (len loop) ++ concat loop)
  | DRight _ f desc a => f ++ WriteLen (len desc) ++ desc ++ PutUint8 a
  | DRightSet _ rights sorted => WriteLen (len rights) ++ concat (right_sort rights sorted)
  | DSeparator => []
  end.
End Coding.

Definition def_Read : Z -> reader definition := read_body ReadVarInt.
Definition def_Write : definition -> list Z := write_body WriteVarInt.
Definition def_MemRead : Z -> reader definition := read_body Uint32.
Definition def_MemWrite : definition -> list Z := write_body (fun n => PutUint32 (u32 n)).

Definition ReadDefinition : reader definition := t ← Uint8; def_Read t.
Definition WriteDefinition (d : definition) : list Z := PutUint8 (DefType d) ++ def_Write d.

(** ** Tokens *)

Inductive TokenValue := NumToken (Val : Z) | HashToken (Hash : list Z).

Record Token := MkToken { TokenType : Z; Value : option TokenValue; Rights : option (list Z) }.

Definition IsNumeric (t : Token) : bool := bool_decide (Z.land (TokenType t) 1 = 0).
Definition HasRight (t : Token) : bool := bool_decide (Z.land (TokenType t) 2 <> 0).

Definition Diff (t s : Token) : outcome bool :=
  if decide (TokenType t <> TokenType s) then Ok true
  else
    differ ← match IsNumeric t, Value t, Value s with
             | false, Some (HashToken a), Some (HashToken b) => Ok (negb (IsEqual a b))
             | true, Some (NumToken a), Some (NumToken b) => Ok (negb (bool_decide (a = b)))
             | _, _, _ => Panic
             end;
    if differ : bool then Ok true
    else if HasRight t then
      match Rights t, Rights s with
      | Some a, Some b => Ok (negb (IsEqual a b))
      | None, None => Ok false
      | _, _ => Ok true
      end
    else Ok false.

Definition token_SerializeSize (t : Token) : Z :=
  VarIntSerializeSize (TokenType t) + (if IsNumeric t then 8 else 32) + (if HasRight t then 32 else 0).
Definition token_Size (t : Token) : Z := 8 + (if IsNumeric t then 8 else 32) + (if HasRight t then 32 else 0).

(** What [ReadTxOut] and [Read] have in common behind the type. *)
Definition read_token (t : Z) : reader Token :=
  if decide (t = DefTypeSeparator) then mret (MkToken t None None)
  else
    v ← (if decide (Z.land t 1 = 1) then h ← ReadElement EHash; mret (HashToken h) else n ← ReadElement EInt64; mret (NumToken n));
    if decide (Z.land t 2 <> 0) then h ← ReadElement EHash; mret (MkToken t (Some v) (Some h)) else mret (MkToken t (Some v) None).

Definition token_ReadTxOut : reader Token := t ← ReadVarInt; read_token t.
Definition token_Read : reader Token := t ← Uint64; read_token t.

(** The value is a nil pointer when it is missing; missing rights are written as zeros by
    [WriteTxOut] and are a nil pointer for [Write]. *)
Definition write_value (v : TokenValue) : list Z := match v with NumToken n => PutUint64 (u64 n) | HashToken h => h end.
Definition write_token (nil_rights : outcome (list Z)) (t : Token) : outcome (list Z) :=
  if decide (TokenType t = DefTypeSeparator) then Ok []
  else
    match Value t with
    | None => Panic
    | Some v =>
        if HasRight t then r ← match Rights t with Some h => Ok h | None => nil_rights end; Ok (write_value v ++ r) else Ok (write_value v)
    end.
Definition token_WriteTxOut (t : Token) : outcome (list Z) := b ← write_token (Ok zero_hash) t; Ok (WriteVarInt (TokenType t) ++ b).
Definition token_Write (t : Token) : outcome (list Z) := b ← write_token Panic t; Ok (PutUint64 (TokenType t) ++ b).

(** [to.Copy(s)] *)
Definition token_Copy (to s : Token) : Token :=
  if decide (TokenType to = DefTypeSeparator) then MkToken (TokenType to) (Value s) (Rights s)
  else MkToken (TokenType to) (match Value to with Some v => Some v | None => Value s end)
         (match Rights to with Some h => Some h | None => Rights s end).

(** ** Round trips of definitions *)

Definition vertex_ok (v : VertexDef) : Prop := sint_range 32 (lat v) /\ sint_range 32 (lng v) /\ sint_range 32 (alt v).

(** What is read back: the caches are empty and right sets are sorted. *)
Definition canonical (d : definition) : definition :=
  match d with DRightSet _ rights sorted => DRightSet None (right_sort rights sorted) 0 | _ => Dup d end.

Lemma read_over_full buf b : length b = length buf -> reads (ReadOver buf) b b.
Proof.
  intros H r. unfold ReadOver. rewrite <- H, take_app_length, drop_app_length.
  rewrite (drop_ge buf) by (rewrite length_app; lia). by rewrite app_nil_r.
Qed.

Lemma reads_lift {A} (o : outcome A) a : o = Ok a -> reads (rlift o) [] a.
Proof. by intros -> r. Qed.

Lemma make_reads size n : make_ok size n -> reads (rlift (make size n)) [] ().
Proof. intros H. apply reads_lift. unfold make. by rewrite decide_True. Qed.

Lemma vertex_Serialize_length v : length (vertex_Serialize v) = 12%nat.
Proof. reflexivity. Qed.

Lemma i32_le_value_bytes v : sint_range 32 v -> i32 (le_value (PutUint32 (u32 v))) = v.
Proof.
  intros Hv. unfold PutUint32. rewrite le_value_le_bytes. change (8 * Z.of_nat 4) with 32. fold (uwrap 32 (u32 v)). rewrite uwrap_uwrap by lia.
  rewrite (swrap_cong 32 (u32 v) v) by (rewrite ?uwrap_uwrap; lia). by apply swrap_id.
Qed.

Lemma vertex_roundtrip v : vertex_ok v -> vertex_Deserialize (vertex_Serialize v) = Ok v.
Proof.
  intros (H1 & H2 & H3). unfold vertex_Deserialize, vertex_Serialize, le32.
  set (a := PutUint32 _). set (b := PutUint32 _). set (c := PutUint32 _).
  assert (length a = 4 /\ length b = 4 /\ length c = 4)%nat as (La & Lb & Lc) by done.
  rewrite slice_sub_head by (rewrite La; done). cbn [mbind outcome_bind].
  rewrite (slice_sub_tail a (b ++ c) 4) by (rewrite ?La; done). cbn [mbind outcome_bind].
  rewrite (slice_sub_head b c 4) by (rewrite Lb; done). cbn [mbind outcome_bind].
  rewrite (app_assoc a b c), (slice_sub_tail (a ++ b) c 8) by (rewrite ?length_app, ?La, ?Lb; done). cbn [mbind outcome_bind].
  rewrite <- (app_nil_r c), (slice_sub_head c [] 4) by (rewrite Lc; done). cbn [mbind outcome_bind].
  unfold a, b, c. rewrite !i32_le_value_bytes by done. by destruct v.
Qed.

Lemma reads_vertex buf v : length buf = 12%nat -> vertex_ok v -> reads (read_vertex buf) (vertex_Serialize v) (v, vertex_Serialize v).
Proof.
  intros Hb Hv. unfold read_vertex. eapply reads_bind_ret; [apply read_over_full; rewrite vertex_Serialize_length; lia|].
  eapply reads_bind_ret; [apply reads_lift; by apply vertex_roundtrip|]. apply reads_ret.
Qed.

Lemma reads_hashes l : Forall (fun h => length h = HashSize) l -> reads (read_hashes (len l)) (concat l) l.
Proof.
  intros H. unfold read_hashes. rewrite Nat2Z.id. replace (concat l) with (l ≫= id).
  - apply reads_n. eapply Forall_impl; [exact H|]. intros h Hh. by apply read_over_full.
  - clear. induction l; cbn; by rewrite ?IHl.
Qed.

Lemma right_sort_length l n : length (right_sort l n) = length l.
Proof. unfold right_sort. case_decide; [done|]. apply Permutation_length, merge_sort_Permutation. Qed.

Lemma right_sort_Forall (P : list Z -> Prop) l n : Forall P l -> Forall P (right_sort l n).
Proof. intros H. unfold right_sort. case_decide; [done|]. by rewrite merge_sort_Permutation. Qed.

Section Roundtrip.
Context (ReadLen : reader Z) (WriteLen : Z -> list Z) (len_ok : Z -> Prop).
Hypothesis reads_len : forall n, len_ok n -> reads ReadLen (WriteLen n) n.

Definition def_valid (d : definition) : Prop :=
  match d with
  | DVertex v => vertex_ok v
  | DBorder _ f b e => length f = HashSize /\ vertex_ok b /\ vertex_ok e
  | DPolygon _ loops => len_ok (len loops) /\ make_ok 24 (len loops) /\
      Forall (fun loop => len_ok (len loop) /\ make_ok 32 (len loop) /\ Forall (fun h => length h = HashSize) loop) loops
  | DRight _ f desc a => length f = HashSize /\ len_ok (len desc) /\ make_ok 1 (len desc) /\ uint_range 8 a
  | DRightSet _ rights sorted => len_ok (len rights) /\ make_ok 32 (len rights) /\ Forall (fun h => length h = HashSize) rights /\ sorted = 0
  | DSeparator => True
  end.

Lemma reads_body d : def_valid d -> reads (read_body ReadLen (DefType d)) (write_body WriteLen d) (canonical d).
Proof.
  destruct d as [v|h f b e|h loops|h f desc a|h rights n|]; intros Hv;
    cbn [DefType read_body write_body canonical Dup def_valid] in *; unfold read_body; repeat first [rewrite decide_True by done | rewrite decide_False by done].
  - intros r. unfold mbind, reader_bind, Read. pose proof (vertex_Serialize_length v) as Hl. rewrite decide_False.
    2: { intros E. apply (f_equal length) in E. rewrite length_app, Hl in E. done. }
    rewrite length_replicate, <- Hl, take_app_length, drop_app_length.
    rewrite (drop_ge (replicate _ 0)) by (rewrite length_app, length_replicate; lia). rewrite app_nil_r. unfold rlift. by rewrite vertex_roundtrip.
  - destruct Hv as (Hf & Hb & He). eapply reads_bind; [by apply read_over_full|]. eapply reads_bind; [by apply reads_vertex|]. cbn beta iota.
    eapply reads_bind_ret; [apply reads_vertex; [apply vertex_Serialize_length|done]|]. apply reads_ret.
  - destruct Hv as (H1 & H2 & H3). unfold read_Polygon. eapply reads_bind; [by apply reads_len|].
    apply (reads_bind _ _ [] _ ()); [by apply make_reads|]. rewrite Nat2Z.id. eapply reads_bind_ret; [|apply reads_ret].
    apply reads_n. eapply Forall_impl; [exact H3|]. intros loop (L1 & L2 & L3). eapply reads_bind; [by apply reads_len|].
    apply (reads_bind _ _ [] _ ()); [by apply make_reads|]. by apply reads_hashes.
  - destruct Hv as (H1 & H2 & H3 & H4). unfold read_Right. eapply reads_bind; [by apply read_over_full|].
    eapply reads_bind; [by apply reads_len|]. apply (reads_bind _ _ [] _ ()); [by apply make_reads|].
    eapply reads_bind; [apply read_over_full; rewrite length_replicate; lia|]. eapply reads_bind_ret; [|apply reads_ret].
    intros r. unfold Uint8_or_zero, rcatch. by rewrite reads_Uint8.
  - destruct Hv as (H1 & H2 & H3 & _). unfold read_RightSet. eapply reads_bind; [by apply reads_len|].
    apply (reads_bind _ _ [] _ ()); [by apply make_reads|]. eapply reads_bind_ret; [|apply reads_ret].
    rewrite <- (right_sort_length rights n). by apply reads_hashes, right_sort_Forall.
  - apply reads_ret.
Qed.
End Roundtrip.

Definition wire_valid : definition -> Prop := def_valid (uint_range 64).
Definition mem_valid : definition -> Prop := def_valid (uint_range 32).

Lemma reads_Definition d : wire_valid d -> reads ReadDefinition (WriteDefinition d) (canonical d).
Proof.
  intros Hd. unfold ReadDefinition, WriteDefinition. eapply reads_bind; [apply reads_Uint8; by destruct d|].
  apply (reads_body _ _ (uint_range 64)); [apply reads_VarInt|done].
Qed.
#[export] Hint Resolve reads_Definition : reads.

(** ** Sorted rights *)

Global Instance hash_le_total : Total hash_le.
Proof. intros a b. unfold hash_le. rewrite (bytes_compare_antisym a b). destruct (bytes_compare a b); simpl; auto. Qed.

Global Instance hash_le_trans : Transitive hash_le.
Proof.
  assert (forall x y, hash_le x y -> x = y \/ bytes_lt x y) as H.
  { intros x y. unfold hash_le, bytes_lt. destruct (bytes_compare x y) eqn:E; [|auto|done]. left. by apply bytes_compare_eq. }
  intros a b c Hab Hbc. destruct (H a b Hab) as [->|H1]; [done|]. destruct (H b c Hbc) as [->|H2]; [done|].
  unfold hash_le. by rewrite (transitivity H1 H2 : bytes_compare a c = Lt).
Qed.

Global Instance hash_le_antisymm : AntiSymm (=) hash_le.
Proof.
  intros a b. unfold hash_le. rewrite (bytes_compare_antisym a b). destruct (bytes_compare a b) eqn:E; try done. intros. by apply bytes_compare_eq.
Qed.

Lemma right_sort_idem l : right_sort (right_sort l 0) 0 = right_sort l 0.
Proof.
  unfold right_sort. destruct (decide (0 = len l)) as [E|E]; [by rewrite decide_True by done|].
  rewrite decide_False by (rewrite merge_sort_Permutation; done).
  apply (StronglySorted_unique hash_le); [apply StronglySorted_merge_sort; apply _..|]. by rewrite !merge_sort_Permutation.
Qed.

Lemma canonical_hash HashH d : (if d is DRightSet _ _ n then n = 0 else True) -> def_hash HashH (canonical d) = def_hash HashH (Dup d).
Proof.
  destruct d as [| | | |h rights n|]; try done. intros ->. unfold def_hash. cbn [canonical Dup Hash]. rewrite right_sort_length, right_sort_idem. by case_decide.
Qed.

(** A definition is read back from its encoding on the wire, whatever follows: with empty
    caches, and the rights of a set in order.  What is read back has the same hash and
    is encoded to the same bytes. *)
Theorem definition_roundtrip (HashH : list Z -> list Z) (d : definition) (r : list Z) (Hd : wire_valid d) :
  ReadDefinition (WriteDefinition d ++ r) = Ok (inl (canonical d, r)) /\ WriteDefinition (canonical d) = WriteDefinition d /\
  def_hash HashH (canonical d) = def_hash HashH (Dup d).
Proof.
  split; [by apply reads_Definition|]. split.
  - unfold WriteDefinition, def_Write. destruct d as [| | | |h rights n|]; try done. destruct Hd as (_ & _ & _ & ->).
    cbn [canonical DefType write_body]. by rewrite right_sort_idem, right_sort_length.
  - apply canonical_hash. destruct d; try done. by destruct Hd as (_ & _ & _ & ->).
Qed.

Lemma def_size_extra d : wire_valid d ->
  len (WriteDefinition d) = def_SerializeSize d + match d with DVertex _ | DBorder _ _ _ _ | DRightSet _ _ _ => 1 | _ => 0 end.
Proof.
  intros Hd.
  assert (forall l, Forall (fun h : list Z => length h = HashSize) l -> len (concat l) = 32 * len l) as Hconcat.
  { induction 1 as [|h l Hh _ IH]; [done|]. cbn [concat]. rewrite length_app, Nat2Z.inj_add, IH, Hh. cbn [length]. unfold HashSize. lia. }
  unfold WriteDefinition, def_Write. rewrite length_app. change (length (PutUint8 (DefType d))) with 1%nat.
  destruct d as [v|h f b e|h loops|h f desc a|h rights n|]; cbn [write_body def_SerializeSize] in *.
  - rewrite vertex_Serialize_length. lia.
  - destruct Hd as (Hf & _). rewrite !length_app, !vertex_Serialize_length, Hf. unfold HashSize. lia.
  - destruct Hd as (_ & _ & Hl). rewrite length_app, !Nat2Z.inj_add, WriteVarInt_length.
    enough (len (loops ≫= fun loop => WriteVarInt (len loop) ++ concat loop) =
      foldr (fun loop n => VarIntSerializeSize (len loop) + len loop * 32 + n) 0 loops) as -> by lia.
    induction Hl as [|loop loops (_ & _ & Hloop) _ IH]; [done|]. rewrite bind_cons, !length_app, !Nat2Z.inj_add, IH, WriteVarInt_length, Hconcat by done.
    cbn [foldr]. lia.
  - destruct Hd as (Hf & _). rewrite !length_app, !Nat2Z.inj_add, WriteVarInt_length, Hf. change (length (PutUint8 a)) with 1%nat. unfold HashSize. lia.
  - destruct Hd as (_ & _ & Hr & _). rewrite length_app, !Nat2Z.inj_add, WriteVarInt_length, Hconcat by (by apply right_sort_Forall).
    rewrite right_sort_length. lia.
  - done.
Qed.

(** A count in a definition is used before it is checked: a message with a polygon of more
    loops, or a right with a longer description, than the address space holds makes the
    node panic. *)
Theorem definition_count_panics (n : Z) (f r : list Z) (Hn : 2 ^ 48 < n < 2 ^ 64) (Hf : length f = HashSize) :
  ReadDefinition (PutUint8 2 ++ WriteVarInt n ++ r) = Panic /\ ReadDefinition (PutUint8 4 ++ f ++ WriteVarInt n ++ r) = Panic.
Proof.
  assert (forall size, 1 <= size -> rlift (make size n) r = Panic) as Hmake.
  { intros size Hs. unfold rlift, make. rewrite decide_False; [done|]. unfold make_ok. nia. }
  unfold ReadDefinition, mbind, reader_bind. split; rewrite reads_Uint8 by done.
  - unfold def_Read, read_body. do 2 (rewrite decide_False by done). rewrite decide_True by done. unfold read_Polygon, mbind, reader_bind.
    rewrite reads_VarInt by (unfold uint_range; lia). by rewrite Hmake by lia.
  - unfold def_Read, read_body. do 3 (rewrite decide_False by done). rewrite decide_True by done. unfold read_Right, mbind, reader_bind.
    rewrite read_over_full by done. rewrite reads_VarInt by (unfold uint_range; lia). by rewrite Hmake by lia.
Qed.

(** ** Tokens *)

Definition value_ok (t : Z) (v : TokenValue) : Prop :=
  match v with NumToken n => Z.land t 1 = 0 /\ sint_range 64 n | HashToken h => Z.land t 1 = 1 /\ is_hash h end.
Definition token_ok (t : Token) : Prop :=
  uint_range 64 (TokenType t) /\
  if decide (TokenType t = DefTypeSeparator) then Value t = None /\ Rights t = None
  else (exists v, Value t = Some v /\ value_ok (TokenType t) v) /\
    if decide (Z.land (TokenType t) 2 <> 0) then exists h, Rights t = Some h /\ is_hash h else Rights t = None.

Lemma reads_Int64 n : sint_range 64 n -> reads (ReadElement EInt64) (PutUint64 (u64 n)) n.
Proof.
  intros Hn. cbn [ReadElement]. eapply reads_bind_ret; [apply reads_Uint64; by apply uwrap_range|].
  rewrite (swrap_cong 64 (u64 n) n) by (rewrite ?uwrap_uwrap; lia). rewrite swrap_id by done. apply reads_ret.
Qed.

Lemma parsed_Int64 : parsed (ReadElement EInt64) (fun n b => b = PutUint64 (u64 n) /\ sint_range 64 n).
Proof.
  cbn [ReadElement]. eapply parsed_bind; [apply parsed_Uint64|]. intros v b [-> Hv]. apply parsed_ret. rewrite app_nil_r.
  rewrite swrap_mod by lia. rewrite uwrap_id by done. split; [done|by apply swrap_range].
Qed.

Lemma reads_token t rights : token_ok t -> exists b, write_token rights t = Ok b /\ reads (read_token (TokenType t)) b t.
Proof.
  intros [_ Ht]. unfold write_token, read_token. destruct t as [ty v r]. cbn [TokenType Value Rights] in *. case_decide.
  { destruct Ht as [-> ->]. eexists. split; [done|]. apply reads_ret. }
  destruct Ht as [(w & -> & Hw) Hr]. unfold HasRight. cbn [TokenType].
  assert (reads (if decide (Z.land ty 1 = 1) then h ← ReadElement EHash; mret (HashToken h) else n ← ReadElement EInt64; mret (NumToken n))
    (write_value w) w) as Hval.
  { destruct w as [n|h]; destruct Hw as [E Hw]; cbn [write_value]; rewrite E.
    - rewrite decide_False by done. eapply reads_bind_ret; [by apply reads_Int64|apply reads_ret].
    - rewrite decide_True by done. eapply reads_bind_ret; [apply reads_full; by destruct Hw|apply reads_ret]. }
  destruct (decide (Z.land ty 2 <> 0)) as [H2|H2].
  - destruct Hr as (h & -> & Hh). rewrite bool_decide_true by done. eexists. split; [done|]. eapply reads_bind; [exact Hval|].
    eapply reads_bind_ret; [apply reads_full; by destruct Hh|apply reads_ret].
  - rewrite Hr. rewrite bool_decide_false by done. eexists. split; [done|]. eapply reads_bind_ret; [exact Hval|apply reads_ret].
Qed.

Lemma parsed_token t rights : uint_range 64 t -> parsed (read_token t) (fun tok b => write_token rights tok = Ok b /\ TokenType tok = t /\ token_ok tok).
Proof.
  intros Ht. unfold read_token, write_token, token_ok, HasRight. case_decide as Hsep.
  { apply parsed_ret. cbn [TokenType Value Rights]. by rewrite !decide_True by done. }
  eapply parsed_bind with (P := fun v b => b = write_value v /\ value_ok t v).
  { case_decide as H1.
    - eapply parsed_bind; [apply parsed_full|]. intros h b (-> & Hl & Hb). apply parsed_ret. by rewrite app_nil_r.
    - eapply parsed_bind; [apply parsed_Int64|]. intros n b [-> Hn]. apply parsed_ret. rewrite app_nil_r. split; [done|]. split; [|done].
      pose proof (Z.land_ones t 1 ltac:(lia)) as E. change (Z.ones 1) with 1 in E. rewrite E in *. pose proof (Z.mod_pos_bound t (2 ^ 1) ltac:(lia)). lia. }
  intros v b [-> Hv]. destruct (decide (Z.land t 2 <> 0)) as [H2|H2].
  - eapply parsed_bind; [apply parsed_full|]. intros h b (-> & Hl & Hb). apply parsed_ret. cbn [TokenType Value Rights]. rewrite app_nil_r.
    rewrite !(decide_False (P := t = DefTypeSeparator)) by done. rewrite bool_decide_true by done.
    split_and!; [done|done|done|by exists v|]. rewrite decide_True by done. eexists. split; [done|by split].
  - apply parsed_ret. cbn [TokenType Value Rights]. rewrite app_nil_r.
    rewrite !(decide_False (P := t = DefTypeSeparator)) by done. rewrite bool_decide_false by done.
    split_and!; [done|done|done|by exists v|]. by rewrite decide_False by done.
Qed.

(** ** Samples *)

Lemma definition_roundtrip_witness :
  ReadDefinition (WriteDefinition (DRightSet None [replicate 32 9; replicate 32 3] 0) ++ [7]) =
    Ok (inl (DRightSet None [replicate 32 3; replicate 32 9] 0, [7])).
Proof.
  rewrite (proj1 (definition_roundtrip id (DRightSet None [replicate 32 9; replicate 32 3] 0) [7] ltac:(by repeat constructor))).
  vm_compute. reflexivity.
Defined.

Lemma definition_count_witness : ReadDefinition (PutUint8 2 ++ WriteVarInt (2 ^ 60) ++ []) = Panic.
Proof. exact (proj1 (definition_count_panics (2 ^ 60) zero_hash [] ltac:(lia) eq_refl)). Defined.
