(* ===== verification/MsgTx.v ===== *)
(** * Transactions

    Models btcd/wire/msgtx.go: outpoints, inputs, outputs and transactions, their
    encodings with and without signatures and without what contracts have added behind a
    separator, the hashes that identify them, their sizes and copies. *)
From Stdlib Require Import ZArith Lia.
From stdpp Require Import gmap list.
From S2P Require Import Prelude Wire Token.

Open Scope Z_scope.

Definition TxTypeMask : Z := 0xf.
Definition ForfeitTxVersion : Z := 2.
Definition TxNoLock : Z := 0x10.
Definition TxNoDefine : Z := 0x20.
Definition CrossChainFalg : Z := 0x800000.
Definition BTCCHAINID : Z := 0x400003.
Definition MaxTxInSequenceNum : Z := 0xffffffff.
Definition MaxMessagePayload : Z := 1024 * 1024 * 64.
Definition MaxDefinitionPerMessage : Z := 1024 * 1024 * 400 / 68 + 1.
Definition MaxTxInPerMessage : Z := MaxMessagePayload / (9 + 32) + 1.
Definition MaxTxOutPerMessage : Z := MaxMessagePayload / 9 + 1.
Definition CommitteeSize : Z := 3.

Definition BaseEncoding : Z := 1.
Definition SignatureEncoding : Z := 2.
Definition FullEncoding : Z := 4.

(** ** Outpoints and inputs *)

Record OutPoint := MkOutPoint { op_Hash : list Z; op_Index : Z }.
Global Instance OutPoint_eq_dec : EqDecision OutPoint.
Proof. solve_decision. Defined.

Definition op_Equal (o s : OutPoint) : bool := IsEqual (op_Hash o) (op_Hash s) && bool_decide (op_Index o = op_Index s).
Definition op_ToBytes (o : OutPoint) : list Z := op_Hash o ++ PutUint32 (op_Index o).

Record TxIn := MkTxIn { PreviousOutPoint : OutPoint; Sequence : Z; SignatureIndex : Z }.

Definition in_Match (s t : TxIn) : bool :=
  if decide (op_Index (PreviousOutPoint s) <> op_Index (PreviousOutPoint t) \/ Sequence s <> Sequence t \/ SignatureIndex s <> SignatureIndex t)
  then false else IsEqual (op_Hash (PreviousOutPoint s)) (op_Hash (PreviousOutPoint t)).

Definition in_SerializeSize (t : TxIn) : Z := 44.

Definition in_IsSepadding (t : TxIn) : bool := IsEqual (op_Hash (PreviousOutPoint t)) zero_hash && bool_decide (op_Index (PreviousOutPoint t) = 0).
Definition in_IsSeparator (t : TxIn) : bool := in_IsSepadding t && bool_decide (SignatureIndex t = 0) && bool_decide (Sequence t = 0).
Definition in_IsPadding (t : TxIn) : bool := in_IsSepadding t && bool_decide (SignatureIndex t = 0xffffffff) && bool_decide (Sequence t = 0).

Definition NewTxIn (prevOut : OutPoint) (signatureIndex : Z) : TxIn := MkTxIn prevOut MaxTxInSequenceNum signatureIndex.

Definition readOutPoint : reader OutPoint := h ← ReadFull HashSize; i ← Uint32; mret (MkOutPoint h i).
Definition writeOutPoint (o : OutPoint) : list Z := op_Hash o ++ PutUint32 (op_Index o).

Definition readTxIn : reader TxIn := o ← readOutPoint; sig ← ReadElement EUint32; sq ← ReadElement EUint32; mret (MkTxIn o sq sig).
Definition writeTxIn (t : TxIn) : list Z := writeOutPoint (PreviousOutPoint t) ++ PutUint32 (SignatureIndex t) ++ PutUint32 (Sequence t).

(** ** Outputs *)

Record TxOut := MkTxOut { to_Token : Token; PkScript : list Z }.

Definition out_IsSeparator (t : TxOut) : bool := bool_decide (TokenType (to_Token t) = DefTypeSeparator).
Definition out_SerializeSize (t : TxOut) : Z := token_SerializeSize (to_Token t) + (len (PkScript t) + VarIntSerializeSize (len (PkScript t))).

(** The type assertions on values panic. *)
Definition num_value (v : option TokenValue) : outcome Z := match v with Some (NumToken n) => Ok n | _ => Panic end.
Definition hash_value (v : option TokenValue) : outcome (list Z) := match v with Some (HashToken h) => Ok h | _ => Panic end.

Definition out_Match (s t : TxOut) : outcome bool :=
  let a := to_Token s in let b := to_Token t in
  if decide (TokenType a <> TokenType b) then Ok false
  else if decide (PkScript s <> PkScript t) then Ok false
  else if decide (Rights a <> Rights b) then Ok false
  else if decide (Z.land (TokenType a) 1 = 0) then x ← num_value (Value a); y ← num_value (Value b); Ok (bool_decide (x = y))
  else x ← hash_value (Value a); y ← hash_value (Value b); Ok (IsEqual x y).

Definition out_Diff (t s : TxOut) : outcome bool := d ← Diff (to_Token t) (to_Token s); Ok (d || negb (bool_decide (PkScript t = PkScript s))).

Definition OP_PAYMINER : Z := 0x44.
Definition OP_PAY2NONE : Z := 0x45.
Definition OP_PAYCROSSCHAIN : Z := 0x66.

Definition out_IsContractCall (t : TxOut) : outcome bool := b ← slice_get (PkScript t) 0; Ok (bool_decide (b = 0x88)).
Definition out_IsCrossChain (t : TxOut) : outcome bool :=
  b ← slice_get (PkScript t) 0;
  if decide (b = 0x88) then Ok false else x ← slice_get (PkScript t) 21; Ok (bool_decide (x = OP_PAYCROSSCHAIN)).
Definition out_Crossing (t : TxOut) : outcome bool :=
  b ← slice_get (PkScript t) 0;
  if decide (b = 0x88) then Ok false else x ← slice_get (PkScript t) 21; Ok (bool_decide (x = OP_PAYCROSSCHAIN \/ x = OP_PAYMINER)).
Definition out_DestChain (t : TxOut) : outcome Z :=
  b ← slice_get (PkScript t) 0;
  if decide (b = 0x88) then Ok 0
  else
    x ← slice_get (PkScript t) 21;
    if decide (x <> OP_PAYCROSSCHAIN /\ x <> OP_PAYMINER) then Ok 0
    else rest ← slice_sub (PkScript t) 21 (len (PkScript t)); v ← le32 rest; Ok (Z.shiftr v 8).

(** The opcode [op] at 21, alone or with three zero bytes behind it. *)
Definition plain_op_at (s : list Z) (op : Z) : outcome bool :=
  x ← slice_get s 21;
  if decide (x <> op) then Ok false
  else if decide (len s = 22) then Ok true
  else rest ← slice_sub s 22 25; Ok (bool_decide (rest = [0; 0; 0])).

Definition out_IsNopaying (t : TxOut) : outcome bool :=
  zero ← (if decide (Z.land (TokenType (to_Token t)) 1 = 0) then v ← num_value (Value (to_Token t)); Ok (bool_decide (v = 0)) else Ok false);
  if zero : bool then Ok true
  else
    b ← slice_get (PkScript t) 0;
    if decide (b = 0x88) then Ok false
    else if decide (b = OP_PAYCROSSCHAIN) then Ok true
    else if decide (len (PkScript t) < 22) then Ok true
    else none ← plain_op_at (PkScript t) OP_PAY2NONE; if none : bool then Ok true else plain_op_at (PkScript t) OP_PAYMINER.

Definition readScript (maxAllowed : Z) : reader (list Z) :=
  count ← ReadVarInt; if decide (maxAllowed < count) then rfail TooLong else ReadFull (Z.to_nat count).

Definition out_ReadTxOut : reader TxOut := t ← token_ReadTxOut; s ← readScript MaxMessagePayload; mret (MkTxOut t s).
Definition out_WriteTxOut (t : TxOut) : outcome (list Z) := b ← token_WriteTxOut (to_Token t); Ok (b ++ WriteVarBytes (PkScript t)).

(** The encoding in the memory of contracts. *)
Definition out_Write (t : TxOut) : outcome (list Z) := b ← token_Write (to_Token t); Ok (b ++ PutUint32 (u32 (len (PkScript t))) ++ PkScript t).

(** ** Transactions *)

Record MsgTx := MkMsgTx {
  Version : Z;
  TxDef : list definition;
  TxIns : list TxIn;
  TxOuts : list TxOut;
  LockTime : Z;
  SignatureScripts : list (list Z);
}.

Definition IsForfeit (s : MsgTx) : bool := bool_decide (Z.land (Version s) TxTypeMask = ForfeitTxVersion).
Definition tx_IsCrossChain (s : MsgTx) : bool :=
  match TxIns s with
  | [i] => negb (IsEqual (op_Hash (PreviousOutPoint i)) zero_hash) && bool_decide (Z.land (op_Index (PreviousOutPoint i)) CrossChainFalg <> 0)
  | _ => false
  end.
Definition IsBtcL2 (s : MsgTx) : bool :=
  match TxIns s with
  | [i] => negb (IsEqual (op_Hash (PreviousOutPoint i)) zero_hash) && bool_decide (op_Index (PreviousOutPoint i) = Z.lor BTCCHAINID CrossChainFalg)
  | _ => false
  end.

(** [AddTxIn], [AddTxOut] and [AddSignature] give the index of what they add. *)
Definition AddTxIn (msg : MsgTx) (ti : TxIn) : MsgTx * Z :=
  (MkMsgTx (Version msg) (TxDef msg) (TxIns msg ++ [ti]) (TxOuts msg) (LockTime msg) (SignatureScripts msg), len (TxIns msg)).
Definition AddTxOut (msg : MsgTx) (to : TxOut) : MsgTx * Z :=
  (MkMsgTx (Version msg) (TxDef msg) (TxIns msg) (TxOuts msg ++ [to]) (LockTime msg) (SignatureScripts msg), len (TxOuts msg)).
Definition AddSignature (msg : MsgTx) (sig : list Z) : MsgTx * Z :=
  (MkMsgTx (Version msg) (TxDef msg) (TxIns msg) (TxOuts msg) (LockTime msg) (SignatureScripts msg ++ [sig]), len (SignatureScripts msg)).

(** A coin base has one input, of the zero hash; its outputs up to a separator neither call
    contracts nor cross chains. *)
Fixpoint coinbase_outs (outs : list TxOut) : outcome bool :=
  match outs with
  | [] => Ok true
  | to :: outs =>
      if out_IsSeparator to then Ok true
      else
        call ← out_IsContractCall to;
        if call : bool then Ok false else crossing ← out_Crossing to; if crossing : bool then Ok false else coinbase_outs outs
  end.
Definition IsCoinBase (msg : MsgTx) : outcome bool :=
  match TxIns msg with
  | [i] => if IsEqual (op_Hash (PreviousOutPoint i)) zero_hash then coinbase_outs (TxOuts msg) else Ok false
  | _ => Ok false
  end.

(** ** Comparison *)

Fixpoint match_defs (a b : list definition) : outcome bool :=
  match a, b with
  | x :: a, y :: b =>
      if decide (DefType x <> DefType y) then Ok false
      else if def_IsSeparator x then match_defs a b
      else ok ← Match x y; if ok : bool then match_defs a b else Ok false
  | _, _ => Ok true
  end.
Fixpoint match_ins (a b : list TxIn) : bool :=
  match a, b with
  | x :: a, y :: b =>
      if decide (in_IsSeparator x <> in_IsSeparator y) then false
      else if in_IsSeparator x then match_ins a b else if in_Match x y then match_ins a b else false
  | _, _ => true
  end.
Fixpoint match_outs (a b : list TxOut) : outcome bool :=
  match a, b with
  | x :: a, y :: b =>
      if decide (out_IsSeparator x <> out_IsSeparator y) then Ok false
      else if out_IsSeparator x then match_outs a b
      else ok ← out_Match x y; if ok : bool then match_outs a b else Ok false
  | _, _ => Ok true
  end.
Definition tx_Match (s t : MsgTx) : outcome bool :=
  if decide (length (TxIns s) <> length (TxIns t) \/ length (TxDef s) <> length (TxDef t) \/ length (TxOuts s) <> length (TxOuts t)) then Ok false
  else
    defs ← match_defs (TxDef s) (TxDef t);
    if negb defs then Ok false else if match_ins (TxIns s) (TxIns t) then match_outs (TxOuts s) (TxOuts t) else Ok false.

(** ** Encoding *)

Definition WriteSignature (tx : MsgTx) : list Z := WriteVarInt (len (SignatureScripts tx)) ++ (SignatureScripts tx ≫= WriteVarBytes).

(** What comes before the first separator. *)
Fixpoint before {A} (sep : A -> bool) (l : list A) : list A :=
  match l with [] => [] | x :: l => if sep x then [] else x :: before sep l end.
Definition chosen {A} (full : bool) (sep : A -> bool) (l : list A) : list A := if full then l else before sep l.

Fixpoint write_outs (outs : list TxOut) : outcome (list Z) :=
  match outs with [] => Ok [] | to :: outs => b ← out_WriteTxOut to; bs ← write_outs outs; Ok (b ++ bs) end.

Definition tx_OmcEncode (msg : MsgTx) (enc : Z) : outcome (list Z + wire_err) :=
  let full := bool_decide (Z.land enc FullEncoding <> 0) in
  let enc := Z.ldiff enc FullEncoding in
  if decide (Z.land (Version msg) TxNoDefine <> 0 /\ TxDef msg <> []) then Ok (inr BadFormat)
  else
    let defs := chosen full def_IsSeparator (TxDef msg) in
    let ins := chosen full in_IsSeparator (TxIns msg) in
    let outs := chosen full out_IsSeparator (TxOuts msg) in
    bs ← write_outs outs;
    Ok (inl (PutUint32 (u32 (Version msg)) ++
      (if decide (Z.land (Version msg) TxNoDefine = 0) then WriteVarInt (len defs) ++ (defs ≫= WriteDefinition) else []) ++
      WriteVarInt (len ins) ++ (ins ≫= writeTxIn) ++
      WriteVarInt (len outs) ++ bs ++
      (if decide (Z.land (Version msg) TxNoLock = 0) then PutUint32 (LockTime msg) else []) ++
      (if decide (enc = SignatureEncoding) then WriteSignature msg else WriteVarInt 0))).

Definition tx_Serialize (msg : MsgTx) := tx_OmcEncode msg (Z.lor SignatureEncoding FullEncoding).
Definition SerializeNoSignature (msg : MsgTx) := tx_OmcEncode msg BaseEncoding.
Definition SerializeFull (msg : MsgTx) := tx_OmcEncode msg (Z.lor BaseEncoding FullEncoding).

(** The hashes ignore the error of the encoder: it has written nothing but the version. *)
Section TxHash.
Context (DoubleHashH : list Z -> list Z).
Definition hash_encoding (msg : MsgTx) (o : outcome (list Z + wire_err)) : outcome (list Z) :=
  r ← o; Ok (DoubleHashH (match r with inl b => b | inr _ => PutUint32 (u32 (Version msg)) end)).
Definition TxHash (msg : MsgTx) : outcome (list Z) := hash_encoding msg (SerializeNoSignature msg).
Definition TxFullHash (msg : MsgTx) : outcome (list Z) := hash_encoding msg (SerializeFull msg).
Definition SignatureHash (msg : MsgTx) : outcome (list Z) := hash_encoding msg (tx_OmcEncode msg SignatureEncoding).
End TxHash.

(** ** Decoding *)

(** [int(count)] of a 64-bit count. *)
Definition ReadSignature (tx : MsgTx) : reader (list (list Z)) :=
  count ← ReadVarInt;
  coinbase ← rlift (IsCoinBase tx);
  if decide ((if coinbase : bool then CommitteeSize + 1 else len (TxIns tx)) < i64 count) then rfail TooMany
  else read_n (Z.to_nat (i64 count)) (readScript MaxMessagePayload).

(** A count with its limit. *)
Definition read_counted {A} (max : Z) (m : reader A) : reader (list A) :=
  count ← ReadVarInt; if decide (max < count) then rfail TooMany else read_n (Z.to_nat count) m.

Definition tx_OmcDecode : reader MsgTx :=
  version ← Uint32;
  defs ← (if decide (Z.land version TxNoDefine = 0) then read_counted MaxDefinitionPerMessage ReadDefinition else mret []);
  ins ← read_counted MaxTxInPerMessage readTxIn;
  outs ← read_counted MaxTxOutPerMessage out_ReadTxOut;
  lock ← (if decide (Z.land (i32 version) TxNoLock = 0) then Uint32 else mret 0);
  sigs ← ReadSignature (MkMsgTx (i32 version) defs ins outs lock []);
  mret (MkMsgTx (i32 version) defs ins outs lock sigs).

(** ** Sizes *)

Definition sum_sizes {A} (size : A -> Z) (l : list A) : Z := foldr (fun x n => size x + n) 0 l.
Definition baseSize (msg : MsgTx) (full : bool) : Z :=
  let defs := chosen full def_IsSeparator (TxDef msg) in
  let ins := chosen full in_IsSeparator (TxIns msg) in
  let outs := chosen full out_IsSeparator (TxOuts msg) in
  8 + (sum_sizes def_SerializeSize defs + VarIntSerializeSize (len defs)) + (sum_sizes in_SerializeSize ins + VarIntSerializeSize (len ins)) +
    (sum_sizes out_SerializeSize outs + VarIntSerializeSize (len outs)).
Definition tx_SerializeSize (msg : MsgTx) : Z :=
  baseSize msg true + VarIntSerializeSize (len (SignatureScripts msg)) + sum_sizes (fun s => VarIntSerializeSize (len s) + len s) (SignatureScripts msg).

(** ** Copies *)

(** The value is asked of every output; a nil value panics. *)
Definition copy_out (to : TxOut) : outcome TxOut :=
  match Value (to_Token to) with
  | None => Panic
  | Some v => Ok (MkTxOut (MkToken (TokenType (to_Token to)) (Some v) (Rights (to_Token to))) (PkScript to))
  end.
Fixpoint copy_outs (outs : list TxOut) : outcome (list TxOut) :=
  match outs with
  | [] => Ok []
  | to :: outs => t ← (if out_IsSeparator to then Ok to else copy_out to); ts ← copy_outs outs; Ok (t :: ts)
  end.
Definition tx_Copy (msg : MsgTx) : outcome MsgTx :=
  outs ← copy_outs (TxOuts msg);
  Ok (MkMsgTx (Version msg) (Dup <$> TxDef msg) (TxIns msg) outs (LockTime msg) (SignatureScripts msg)).

Definition Strip (msg : MsgTx) : MsgTx :=
  MkMsgTx (Version msg) (before def_IsSeparator (TxDef msg)) (before in_IsSeparator (TxIns msg)) (before out_IsSeparator (TxOuts msg))
    (LockTime msg) (SignatureScripts msg).
Definition Stripped (msg : MsgTx) : outcome MsgTx :=
  outs ← copy_outs (before out_IsSeparator (TxOuts msg));
  Ok (MkMsgTx (Version msg) (Dup <$> before def_IsSeparator (TxDef msg)) (before in_IsSeparator (TxIns msg)) outs (LockTime msg) (SignatureScripts msg)).

(** ** Round trips *)

Definition in_ok (t : TxIn) : Prop :=
  is_hash (op_Hash (PreviousOutPoint t)) /\ uint_range 32 (op_Index (PreviousOutPoint t)) /\ uint_range 32 (SignatureIndex t) /\ uint_range 32 (Sequence t).
Definition script_ok (s : list Z) : Prop := len s <= MaxMessagePayload /\ bytes s.
Definition out_ok (t : TxOut) : Prop := token_ok (to_Token t) /\ script_ok (PkScript t).

Lemma reads_TxIn t : in_ok t -> reads readTxIn (writeTxIn t) t.
Proof.
  intros ((Hl & _) & Hi & Hs & Hq). destruct t as [[h i] q s]. unfold readTxIn, writeTxIn, readOutPoint, writeOutPoint.
  cbn [PreviousOutPoint op_Hash op_Index Sequence SignatureIndex] in *. eapply reads_bind; [|eapply reads_bind; [by apply reads_Uint32|]].
  - eapply reads_bind; [by apply reads_full|]. eapply reads_bind_ret; [by apply reads_Uint32|apply reads_ret].
  - eapply reads_bind_ret; [by apply reads_Uint32|apply reads_ret].
Qed.

Lemma parsed_TxIn : parsed readTxIn (fun t b => b = writeTxIn t /\ in_ok t).
Proof.
  unfold readTxIn. eapply parsed_bind with (P := fun o b => b = writeOutPoint o /\ is_hash (op_Hash o) /\ uint_range 32 (op_Index o)).
  - unfold readOutPoint. eapply parsed_bind; [apply parsed_full|]. intros h b (-> & Hl & Hb). eapply parsed_bind; [apply parsed_Uint32|].
    intros i b' [-> Hi]. apply parsed_ret. by rewrite app_nil_r.
  - intros o b (-> & Hh & Hi). eapply parsed_bind; [apply parsed_Uint32|]. intros s b [-> Hs]. eapply parsed_bind; [apply parsed_Uint32|].
    intros q b [-> Hq]. apply parsed_ret. by rewrite app_nil_r.
Qed.

Lemma reads_script s : script_ok s -> reads (readScript MaxMessagePayload) (WriteVarBytes s) s.
Proof. intros [Hs _]. apply reads_VarBytes; [done|]. unfold MaxMessagePayload in Hs. lia. Qed.

Lemma reads_TxOut t : out_ok t -> exists b, out_WriteTxOut t = Ok b /\ reads out_ReadTxOut b t.
Proof.
  intros [Ht Hs]. unfold out_WriteTxOut, token_WriteTxOut. destruct (reads_token _ (Ok zero_hash) Ht) as (b & -> & Hb). cbn [mbind outcome_bind].
  eexists. split; [done|]. destruct t as [t s]. cbn [to_Token PkScript] in *. destruct Ht as [Hu _]. rewrite <- app_assoc.
  unfold out_ReadTxOut, token_ReadTxOut. rewrite app_assoc. eapply reads_bind; [eapply reads_bind; [by apply reads_VarInt|exact Hb]|].
  eapply reads_bind_ret; [by apply reads_script|apply reads_ret].
Qed.

Lemma parsed_TxOut : parsed out_ReadTxOut (fun t b => out_WriteTxOut t = Ok b /\ out_ok t).
Proof.
  unfold out_ReadTxOut, token_ReadTxOut. eapply parsed_bind with (P := fun t b => token_WriteTxOut t = Ok b /\ token_ok t).
  - eapply parsed_bind; [apply parsed_VarInt|]. intros ty b [-> Hty]. eapply parsed_mono; [by apply (parsed_token ty (Ok zero_hash))|].
    intros t b (E & Et & Ht). unfold token_WriteTxOut. rewrite E, Et. done.
  - intros t b [E Ht]. eapply parsed_bind; [apply parsed_VarBytes|]. intros s b' (-> & Hl & Hb). apply parsed_ret.
    unfold out_WriteTxOut. cbn [to_Token PkScript]. rewrite E. cbn [mbind outcome_bind]. rewrite app_nil_r. by split_and!.
Qed.

Lemma reads_outs l : Forall out_ok l -> exists b, write_outs l = Ok b /\ reads (read_n (length l) out_ReadTxOut) b l.
Proof.
  induction 1 as [|t l Ht _ (bs & E & IH)]; cbn [write_outs read_n length]; [eexists; split; [done|apply reads_ret]|].
  destruct (reads_TxOut t Ht) as (b & -> & Hb). rewrite E. cbn [mbind outcome_bind]. eexists. split; [done|].
  eapply reads_bind; [exact Hb|]. eapply reads_bind_ret; [exact IH|apply reads_ret].
Qed.

Lemma parsed_outs n : parsed (read_n n out_ReadTxOut) (fun l b => write_outs l = Ok b /\ length l = n /\ Forall out_ok l).
Proof.
  induction n as [|n IH]; cbn [read_n]; [by apply parsed_ret|]. eapply parsed_bind; [apply parsed_TxOut|]. intros t b [E Ht].
  eapply parsed_bind; [exact IH|]. intros l b' (E' & <- & Hl). apply parsed_ret. cbn [write_outs]. rewrite E, E'. cbn [mbind outcome_bind].
  rewrite app_nil_r. split_and!; [done|done|by constructor].
Qed.

Lemma reads_counted {A} max (m : reader A) l b : len l <= max -> uint_range 64 (len l) -> reads (read_n (length l) m) b l ->
  reads (read_counted max m) (WriteVarInt (len l) ++ b) l.
Proof.
  intros Hm Hr Hl. unfold read_counted. eapply reads_bind; [by apply reads_VarInt|]. rewrite decide_False by lia. by rewrite Nat2Z.id.
Qed.

Lemma parsed_counted {A} max (m : reader A) (P : list A -> list Z -> Prop) : (forall n, parsed (read_n n m) (fun l b => P l b /\ length l = n)) ->
  parsed (read_counted max m) (fun l b => exists b', b = WriteVarInt (len l) ++ b' /\ P l b' /\ len l <= max).
Proof.
  intros Hm. unfold read_counted. eapply parsed_bind; [apply parsed_VarInt|]. intros n b [-> Hn]. case_decide; [apply parsed_fail|].
  unfold uint_range in Hn. eapply parsed_mono; [apply Hm|]. intros l b [HP Hl]. exists b. rewrite Hl, Z2Nat.id by lia. split_and!; [done|done|lia].
Qed.

(** ** Well-formed transactions *)

Record tx_ok (tx : MsgTx) : Prop := MkTxOk {
  ok_version : sint_range 32 (Version tx);
  ok_defs : Forall wire_valid (TxDef tx) /\ len (TxDef tx) <= MaxDefinitionPerMessage;
  ok_nodef : Z.land (Version tx) TxNoDefine <> 0 -> TxDef tx = [];
  ok_ins : Forall in_ok (TxIns tx) /\ len (TxIns tx) <= MaxTxInPerMessage;
  ok_outs : Forall out_ok (TxOuts tx) /\ len (TxOuts tx) <= MaxTxOutPerMessage;
  ok_lock : if decide (Z.land (Version tx) TxNoLock = 0) then uint_range 32 (LockTime tx) else LockTime tx = 0;
  ok_sigs : Forall script_ok (SignatureScripts tx);
  ok_count : exists coinbase : bool, IsCoinBase tx = Ok coinbase /\
    len (SignatureScripts tx) <= if coinbase then CommitteeSize + 1 else len (TxIns tx);
}.

(** A transaction as it is read back. *)
Definition tx_canonical (tx : MsgTx) : MsgTx :=
  MkMsgTx (Version tx) (canonical <$> TxDef tx) (TxIns tx) (TxOuts tx) (LockTime tx) (SignatureScripts tx).

Lemma land_u32 v m : sint_range 32 v -> 0 <= m < 2 ^ 32 -> Z.land (u32 v) m = Z.land v m.
Proof.
  intros Hv Hm. unfold uwrap. rewrite <- Z.land_ones by lia. rewrite <- Z.land_assoc. f_equal. rewrite Z.land_comm, Z.land_ones by lia.
  by apply Z.mod_small.
Qed.

Lemma i32_u32 v : sint_range 32 v -> i32 (u32 v) = v.
Proof. intros Hv. rewrite (swrap_cong 32 (u32 v) v) by (rewrite ?uwrap_uwrap; lia). by apply swrap_id. Qed.

Lemma IsCoinBase_defs v d d' i o l s l' s' : IsCoinBase (MkMsgTx v d i o l s) = IsCoinBase (MkMsgTx v d' i o l' s').
Proof. done. Qed.

Lemma reads_defs l : Forall wire_valid l -> reads (read_n (length l) ReadDefinition) (l ≫= WriteDefinition) (canonical <$> l).
Proof.
  induction 1 as [|d l Hd _ IH]; cbn [read_n length fmap list_fmap]; [apply reads_ret|]. eapply reads_bind; [by apply reads_Definition|].
  eapply reads_bind_ret; [exact IH|apply reads_ret].
Qed.

Lemma reads_scripts l : Forall script_ok l -> reads (read_n (length l) (readScript MaxMessagePayload)) (l ≫= WriteVarBytes) l.
Proof.
  intros H. apply reads_n. eapply Forall_impl; [exact H|]. intros s. apply reads_script.
Qed.

(** The limits as numbers. *)
Lemma limit_values : MaxDefinitionPerMessage = 6168095 /\ MaxTxInPerMessage = 1636802 /\ MaxTxOutPerMessage = 7456541 /\ MaxMessagePayload = 67108864 /\ CommitteeSize = 3.
Proof. by split_and!. Qed.
Ltac limits := pose proof limit_values; unfold uint_range, sint_range in *; lia.

Lemma reads_tx tx : tx_ok tx -> exists b, tx_Serialize tx = Ok (inl b) /\ reads tx_OmcDecode b (tx_canonical tx).
Proof.
  intros Htx. destruct Htx as [Hv [Hd Hdn] Hnd [Hi Hin] [Ho Hon] Hl Hs (cb & Hcb & Hc)]. destruct (reads_outs _ Ho) as (bo & Eo & Hbo).
  unfold tx_Serialize, tx_OmcEncode. rewrite decide_False by (intros [H1 H2]; by apply H2, Hnd). cbn [chosen bool_decide].
  change (bool_decide (Z.land (Z.lor SignatureEncoding FullEncoding) FullEncoding <> 0)) with true. cbn [chosen]. rewrite Eo. cbn [mbind outcome_bind].
  eexists. split; [reflexivity|]. change (Z.ldiff (Z.lor SignatureEncoding FullEncoding) FullEncoding) with SignatureEncoding.
  rewrite (decide_True _ _ (eq_refl SignatureEncoding)).
  unfold tx_OmcDecode. eapply reads_bind; [apply reads_Uint32, uwrap_range; lia|]. rewrite land_u32, i32_u32 by done.
  eapply (reads_bind _ _ _ _ (canonical <$> TxDef tx)).
  { destruct (decide (Z.land (Version tx) TxNoDefine = 0)) as [E0|E0]; [|rewrite Hnd by done; apply reads_ret]. unfold read_counted.
    eapply reads_bind; [apply reads_VarInt; limits|]. rewrite decide_False by lia. rewrite Nat2Z.id. by apply reads_defs. }
  rewrite (app_assoc (WriteVarInt (len (TxIns tx)))). eapply reads_bind.
  { apply reads_counted; [done|limits|]. apply reads_n. eapply Forall_impl; [exact Hi|apply reads_TxIn]. }
  rewrite (app_assoc (WriteVarInt (len (TxOuts tx)))). eapply reads_bind.
  { apply reads_counted; [done|limits|exact Hbo]. }
  eapply (reads_bind _ _ _ _ (LockTime tx)).
  { destruct (decide (Z.land (Version tx) TxNoLock = 0)); [by apply reads_Uint32|rewrite Hl; apply reads_ret]. }
  eapply reads_bind_ret; [|apply reads_ret]. unfold ReadSignature, WriteSignature.
  assert (len (SignatureScripts tx) < 2 ^ 63) as H63 by (destruct cb; limits).
  eapply reads_bind; [apply reads_VarInt; unfold uint_range; lia|]. rewrite swrap_id by (unfold sint_range; lia).
  eapply (reads_bind _ _ [] _ cb); [by apply reads_lift|]. cbn [TxIns]. rewrite decide_False by lia. rewrite Nat2Z.id. by apply reads_scripts.
Qed.

(** C7: a transaction is read back from its full encoding, whatever follows: definitions with
    empty caches and sorted right sets, everything else as it was. *)
Theorem tx_roundtrip (tx : MsgTx) (r : list Z) (Htx : tx_ok tx) :
  exists b, tx_Serialize tx = Ok (inl b) /\ tx_OmcDecode (b ++ r) = Ok (inl (tx_canonical tx, r)).
Proof.
  destruct (reads_tx tx Htx) as (b & E & Hb). by exists b.
Qed.

(** ** The bytes of a decoded transaction *)

Abbreviation consumes m := (parsed m (fun _ _ => True)).

Lemma consumes_bind {A B} (m : reader A) (k : A -> reader B) : consumes m -> (forall a, consumes (k a)) -> consumes (m ≫= k).
Proof. intros Hm Hk. eapply parsed_bind; [exact Hm|]. intros a b _. apply Hk. Qed.
Lemma consumes_mono {A} (m : reader A) P : parsed m P -> consumes m.
Proof. intros H. by eapply parsed_mono. Qed.
Lemma consumes_lift {A} (o : outcome A) : consumes (rlift o).
Proof. intros r a r' _. unfold rlift. destruct o; try done. intros [= <- <-]. by exists []. Qed.
Lemma consumes_over buf : consumes (ReadOver buf).
Proof. intros r a r' _ [= _ <-]. exists (take (length buf) r). by rewrite take_drop. Qed.
Lemma consumes_read buf : consumes (Read buf).
Proof.
  intros r a r' Hr. unfold Read. case_decide; [case_decide; [|done]; intros [= _ <-]; exists []; by subst|].
  intros [= _ <-]. exists (take (length buf) r). by rewrite take_drop.
Qed.
Lemma consumes_n {A} (m : reader A) n : consumes m -> consumes (read_n n m).
Proof.
  intros Hm. induction n as [|n IH]; cbn [read_n]; [by apply parsed_ret|]. apply consumes_bind; [done|]. intros a.
  apply consumes_bind; [done|]. intros l. by apply parsed_ret.
Qed.
Lemma consumes_u8 : consumes Uint8_or_zero.
Proof.
  intros r a r' Hr. unfold Uint8_or_zero, rcatch. destruct (Uint8 r) as [[[v r1]|[e r1]]| |] eqn:E; try done.
  - intros [= <- <-]. destruct (parsed_Uint8 _ _ _ Hr E) as (b & -> & _). by exists b.
  - intros [= _ <-]. unfold Uint8, mbind, reader_bind, ReadFull in E. case_decide; [done|]. injection E as _ <-. exists r. by rewrite app_nil_r.
Qed.

Lemma consumes_definition : consumes ReadDefinition.
Proof.
  assert (consumes ReadVarInt) as HV by (eapply consumes_mono, parsed_VarInt).
  assert (forall n, consumes (read_hashes n)) as HH by (intros n; apply consumes_n, consumes_over).
  unfold ReadDefinition, def_Read, read_body, read_Polygon, read_Right, read_RightSet, read_vertex.
  apply consumes_bind; [eapply consumes_mono, parsed_Uint8|]. intros t. repeat case_decide;
    repeat first [apply parsed_fail | by apply parsed_ret | apply consumes_lift | apply consumes_over | apply consumes_read | apply consumes_u8
                 | apply HV | apply HH | apply consumes_n | apply consumes_bind; [|intros ?] | case_match].
Qed.

Lemma consumes_definition_n n : parsed (read_n n ReadDefinition) (fun l _ => length l = n).
Proof.
  induction n as [|n IH]; cbn [read_n]; [by apply parsed_ret|]. eapply parsed_bind; [apply consumes_definition|]. intros d b _.
  eapply parsed_bind; [exact IH|]. intros l b' <-. by apply parsed_ret.
Qed.

Lemma parsed_signatures tx : parsed (ReadSignature tx) (fun sigs s =>
  s = WriteVarInt (len sigs) ++ (sigs ≫= WriteVarBytes) \/ exists n, 2 ^ 63 <= n < 2 ^ 64 /\ s = WriteVarInt n /\ sigs = []).
Proof.
  unfold ReadSignature. eapply parsed_bind; [apply parsed_VarInt|]. intros n b [-> Hn].
  eapply parsed_bind with (P := fun _ b => b = []).
  { intros r a r' _. unfold rlift. destruct (IsCoinBase tx); try done. intros [= <- <-]. by exists []. }
  intros cb b ->. case_decide; [apply parsed_fail|]. eapply parsed_mono; [apply (parsed_n _ WriteVarBytes (fun _ => True)); eapply parsed_mono; [apply parsed_VarBytes|]; by intros a b (-> & _)|].
  cbn beta. intros sigs b (-> & Hl & _). unfold uint_range in Hn. destruct (decide (n < 2 ^ 63)).
  - left. rewrite swrap_id in Hl by (unfold sint_range; lia). rewrite app_nil_l, Hl, Z2Nat.id by lia. done.
  - right. exists n. assert (i64 n < 0) as Hneg.
    { assert (i64 n = n - 2 ^ 64) as ->; [|lia]. unfold swrap. rewrite <- (Z_mod_plus_full _ (-1)), Z.mod_small by lia. lia. }
    replace (Z.to_nat (i64 n)) with 0%nat in Hl by lia. destruct sigs; [|done]. rewrite app_nil_l. split_and!; [lia|lia|by rewrite app_nil_r|done].
Qed.

(** The bytes of a transaction without definitions are determined by what they decode to:
    up to the signatures they are its full encoding.  The bytes of the signatures are
    determined as well, unless their count is 2^63 or more: it is turned into a negative
    [int], passes the limit, and the transaction is read with no signatures. *)
Theorem tx_bytes_determined (r r' : list Z) (tx : MsgTx) (Hr : bytes r) (Hd : tx_OmcDecode r = Ok (inl (tx, r'))) (Hdef : TxDef tx = []) :
  exists b s, r = b ++ s ++ r' /\ SerializeFull tx = Ok (inl (b ++ [0])) /\
    (s = WriteSignature tx \/ exists n, 2 ^ 63 <= n < 2 ^ 64 /\ s = WriteVarInt n /\ SignatureScripts tx = []).
Proof.
  assert (parsed tx_OmcDecode (fun tx b0 => TxDef tx = [] -> exists b s, b0 = b ++ s /\ SerializeFull tx = Ok (inl (b ++ [0])) /\
    (s = WriteSignature tx \/ exists n, 2 ^ 63 <= n < 2 ^ 64 /\ s = WriteVarInt n /\ SignatureScripts tx = []))) as H.
  2: { destruct (H _ _ _ Hr Hd) as (b0 & -> & Hb). destruct (Hb Hdef) as (b & s & -> & E & Hs). exists b, s. by rewrite <- app_assoc. }
  clear. unfold tx_OmcDecode. eapply parsed_bind; [apply parsed_Uint32|]. intros v bv [-> Hv].
  eapply parsed_bind with (P := fun defs b => defs = [] -> b = if decide (Z.land v TxNoDefine = 0) then WriteVarInt 0 else []).
  { destruct (decide (Z.land v TxNoDefine = 0)); [|by apply parsed_ret]. eapply parsed_mono; [apply (parsed_counted _ _ (fun l b => l = [] -> b = []))|].
    - intros [|n]; [by apply parsed_ret|]. cbn [read_n]. eapply parsed_bind; [apply consumes_definition|]. intros d b _.
      eapply parsed_bind; [apply consumes_definition_n|]. intros l b' Hl. apply parsed_ret. split; [done|]. cbn. by rewrite Hl.
    - cbn beta. intros l b (b' & -> & H1 & _) ->. by rewrite H1, app_nil_r. }
  intros defs bd Hbd. eapply parsed_bind.
  { apply (parsed_counted _ _ (fun l b => b = (l ≫= writeTxIn))). intros n. eapply parsed_mono; [apply (parsed_n _ writeTxIn in_ok), parsed_TxIn|].
    cbn beta. by intros l b (-> & -> & _). }
  intros ins bi (bi' & -> & -> & _). eapply parsed_bind.
  { apply (parsed_counted _ _ (fun l b => write_outs l = Ok b)). intros n. eapply parsed_mono; [apply parsed_outs|]. cbn beta. by intros l b (-> & -> & _). }
  intros outs bo (bo' & -> & Eo & _).
  eapply parsed_bind with (P := fun lock b => b = if decide (Z.land (i32 v) TxNoLock = 0) then PutUint32 lock else []).
  { destruct (decide (Z.land (i32 v) TxNoLock = 0)); [|by apply parsed_ret]. eapply parsed_mono; [apply parsed_Uint32|]. by intros a b [-> _]. }
  intros lock bl ->. eapply parsed_bind; [apply parsed_signatures|]. intros sigs s Hs. apply parsed_ret. cbn [TxDef]. intros ->.
  rewrite Hbd by done. eexists _, s. rewrite app_nil_r, !app_assoc. split; [reflexivity|]. split; [|by unfold WriteSignature].
  unfold SerializeFull, tx_OmcEncode. cbn [TxDef TxIns TxOuts Version LockTime]. rewrite decide_False by (intros [_ ?]; done).
  change (bool_decide (Z.land (Z.lor BaseEncoding FullEncoding) FullEncoding <> 0)) with true. cbn [chosen]. rewrite Eo. cbn [mbind outcome_bind].
  rewrite (decide_False (P := Z.ldiff _ _ = _)) by done. unfold uint_range in Hv. rewrite swrap_mod by lia. rewrite uwrap_id by done.
  assert (Z.land (i32 v) TxNoDefine = Z.land v TxNoDefine) as ->.
  { rewrite <- (land_u32 (i32 v)) by first [by apply swrap_range|by unfold TxNoDefine]. rewrite swrap_mod by lia. by rewrite uwrap_id by done. }
  do 2 f_equal. cbn [list_bind length]. rewrite <- !app_assoc. do 2 f_equal.
Qed.

(** ** Panics of the decoder *)

Lemma reads_step {A B} (m : reader A) (k : A -> reader B) b a r : reads m b a -> (m ≫= k) (b ++ r) = k a r.
Proof. intros H. unfold mbind, reader_bind. by rewrite H. Qed.

(** A transaction whose input is of the zero hash is taken for a coin base, and its
    output scripts are looked at before anything has checked their length: when the first
    has less than 22 bytes and is no contract call, the decoder panics. *)
Theorem short_script_panics (v lock sigs : Z) (i : TxIn) (o : TxOut) (r b : list Z)
    (Hv : sint_range 32 v) (Hnd : Z.land v TxNoDefine <> 0) (Hi : in_ok i) (Hz : op_Hash (PreviousOutPoint i) = zero_hash)
    (Ho : out_ok o) (Hsep : out_IsSeparator o = false) (Hshort : (length (PkScript o) < 22)%nat) (Hcall : PkScript o !! 0%nat <> Some 0x88)
    (Hl : uint_range 32 lock) (Hs : uint_range 64 sigs) (Hb : SerializeFull (MkMsgTx v [] [i] [o] lock []) = Ok (inl (b ++ [0]))) :
  tx_OmcDecode (b ++ WriteVarInt sigs ++ r) = Panic.
Proof.
  destruct (reads_TxOut o Ho) as (bo & Eo & Hbo). unfold SerializeFull, tx_OmcEncode in Hb. cbn [TxDef TxIns TxOuts Version LockTime] in Hb.
  rewrite decide_False in Hb by (by intros [_ ?]). change (bool_decide (Z.land (Z.lor BaseEncoding FullEncoding) FullEncoding <> 0)) with true in Hb.
  cbn [chosen write_outs] in Hb. rewrite Eo in Hb. cbn [mbind outcome_bind] in Hb. rewrite (decide_False (P := Z.ldiff _ _ = _)) in Hb by done.
  rewrite (decide_False (P := Z.land v TxNoDefine = 0)) in Hb by done. apply (f_equal (fun o => match o with Ok (inl x) => x | _ => [] end)) in Hb. change (WriteVarInt 0) with [0] in Hb.
  rewrite !app_assoc in Hb. apply app_inj_tail in Hb as [<- _]. rewrite <- !app_assoc, !app_nil_l.
  unfold tx_OmcDecode. rewrite (reads_step _ _ _ (u32 v)) by (apply reads_Uint32, uwrap_range; lia). rewrite land_u32, i32_u32 by done.
  rewrite (decide_False (P := Z.land v TxNoDefine = 0)) by done. rewrite <- (app_nil_l (WriteVarInt (len [i]) ++ _)), (reads_step _ _ [] []) by apply reads_ret.
  rewrite (app_assoc (WriteVarInt (len [i]))), (reads_step _ _ _ [i]).
  2: { apply reads_counted; [done|done|]. apply (reads_n _ writeTxIn [i]). constructor; [by apply reads_TxIn|done]. }
  rewrite (app_assoc (WriteVarInt (len [o]))), (reads_step _ _ _ [o]).
  2: { apply reads_counted; [done|done|]. cbn [length read_n]. rewrite <- (app_nil_r bo). eapply reads_bind; [exact Hbo|apply reads_ret]. }
  rewrite (reads_step _ _ _ (if decide (Z.land v TxNoLock = 0) then lock else 0)).
  2: { destruct (decide (Z.land v TxNoLock = 0)); [by apply reads_Uint32|apply reads_ret]. }
  unfold mbind at 1, reader_bind. unfold ReadSignature. rewrite (reads_step _ _ _ sigs) by (by apply reads_VarInt). unfold mbind, reader_bind, rlift.
  enough (IsCoinBase (MkMsgTx v [] [i] [o] (if decide (Z.land v TxNoLock = 0) then lock else 0) []) = Panic) as -> by done.
  unfold IsCoinBase. cbn [TxIns TxOuts]. rewrite Hz. unfold IsEqual. rewrite bool_decide_true by done. cbn [coinbase_outs]. rewrite Hsep.
  unfold out_IsContractCall, out_Crossing, slice_get. rewrite !decide_True by lia. change (Z.to_nat 0) with 0%nat. change (Z.to_nat 21) with 21%nat.
  destruct (PkScript o !! 0%nat) as [x|]; [|done]. cbn [mbind outcome_bind]. rewrite bool_decide_false, decide_False by congruence. cbn [mbind outcome_bind].
  by rewrite lookup_ge_None_2 by lia.
Qed.

(** ** Identity of transactions *)

Definition separator_in : TxIn := MkTxIn (MkOutPoint zero_hash 0) 0 0.
Definition separator_out : TxOut := MkTxOut (MkToken DefTypeSeparator None None) [].

(** [btcutil.Tx]: a transaction to which the execution of contracts adds, with the marks of what has been added.
    The cached hashes, the position in the block and the mark of executed transactions are left out. *)
Record util_Tx := MkUtilTx { ut_msgTx : MsgTx; ut_HasOuts : bool; ut_HasIns : bool; ut_HasDefs : bool }.

(** The hash of the definition, which [AddDef] returns, is left out. *)
Definition msg_AddDef (msg : MsgTx) (to : definition) : MsgTx :=
  MkMsgTx (Version msg) (TxDef msg ++ [to]) (TxIns msg) (TxOuts msg) (LockTime msg) (SignatureScripts msg).
Definition with_sigs (msg : MsgTx) (l : list (list Z)) : MsgTx := MkMsgTx (Version msg) (TxDef msg) (TxIns msg) (TxOuts msg) (LockTime msg) l.

Definition util_AddTxOut (s : util_Tx) (t : TxOut) : util_Tx * Z :=
  let msg := if ut_HasOuts s then ut_msgTx s else (AddTxOut (ut_msgTx s) separator_out).1 in
  let '(msg, i) := AddTxOut msg t in
  (MkUtilTx msg true (ut_HasIns s) (ut_HasDefs s), i).
Definition util_AddTxIn (s : util_Tx) (t : OutPoint) (sig : list Z) : util_Tx :=
  let msg := if ut_HasIns s then ut_msgTx s else (AddTxIn (ut_msgTx s) separator_in).1 in
  let msg :=
    if decide (sig = []) then
      if decide (op_Index t = 0 /\ op_Hash t = zero_hash) then (AddTxIn msg (MkTxIn t 0 0xFFFFFFFF)).1
      else (AddTxIn msg (MkTxIn t 0xFFFFFFFF 0xFFFFFFFF)).1
    else let msg := (AddTxIn msg (MkTxIn t 0xFFFFFFFF (u32 (len (SignatureScripts msg))))).1 in with_sigs msg (SignatureScripts msg ++ [sig]) in
  MkUtilTx msg (ut_HasOuts s) true (ut_HasDefs s).
Definition util_AddDef (s : util_Tx) (t : definition) : util_Tx :=
  let msg := if ut_HasDefs s then ut_msgTx s else msg_AddDef (ut_msgTx s) DSeparator in
  MkUtilTx (msg_AddDef msg t) (ut_HasOuts s) (ut_HasIns s) true.

(** What contracts add, in any order. *)
Inductive addition := AddOut (t : TxOut) | AddIn (t : OutPoint) (sig : list Z) | AddDefinition (t : definition).
Definition add_one (s : util_Tx) (a : addition) : util_Tx :=
  match a with AddOut t => (util_AddTxOut s t).1 | AddIn t sig => util_AddTxIn s t sig | AddDefinition t => util_AddDef s t end.
Definition executed (tx : MsgTx) (adds : list addition) : util_Tx := foldl add_one (MkUtilTx tx false false false) adds.
Definition is_definition (a : addition) : bool := match a with AddDefinition _ => true | _ => false end.

(** A list with a separator and what is behind it, once something is added. *)
Definition behind {A} (sep : A) (has : bool) (l l' : list A) : Prop := if has then exists m, l' = l ++ sep :: m else l' = l.

Lemma behind_add {A} (sep x : A) has l l' : behind sep has l l' -> behind sep true l ((if has then l' else l' ++ [sep]) ++ [x]).
Proof. destruct has; simpl; [intros [m ->]; exists (m ++ [x]); by rewrite <- app_assoc|intros ->; exists [x]; by rewrite <- app_assoc]. Qed.

Definition extends (tx : MsgTx) (s : util_Tx) : Prop :=
  Version (ut_msgTx s) = Version tx /\ LockTime (ut_msgTx s) = LockTime tx /\ behind DSeparator (ut_HasDefs s) (TxDef tx) (TxDef (ut_msgTx s)) /\
  behind separator_in (ut_HasIns s) (TxIns tx) (TxIns (ut_msgTx s)) /\ behind separator_out (ut_HasOuts s) (TxOuts tx) (TxOuts (ut_msgTx s)).

Lemma add_one_extends tx s a : extends tx s -> extends tx (add_one s a).
Proof.
  intros (Hv & Hl & Hd & Hi & Ho). destruct a as [t|t sig|t]; cbn [add_one].
  - pose proof (behind_add _ t _ _ _ Ho) as H. unfold util_AddTxOut. destruct (ut_HasOuts s); by split_and!.
  - assert (forall x, behind separator_in true (TxIns tx) ((if ut_HasIns s then TxIns (ut_msgTx s) else TxIns (ut_msgTx s) ++ [separator_in]) ++ [x])) as H by (intros x; by apply behind_add).
    unfold util_AddTxIn. destruct (ut_HasIns s); repeat case_decide; split_and!; (done || apply H).
  - pose proof (behind_add _ t _ _ _ Hd) as H. unfold util_AddDef. destruct (ut_HasDefs s); by split_and!.
Qed.

Lemma executed_extends tx adds : extends tx (executed tx adds) /\ ut_HasDefs (executed tx adds) = existsb is_definition adds.
Proof.
  unfold executed. assert (forall s, extends tx s -> extends tx (foldl add_one s adds) /\ ut_HasDefs (foldl add_one s adds) = ut_HasDefs s || existsb is_definition adds) as H.
  { induction adds as [|a adds IH]; intros s Hs; cbn [foldl existsb]; [by rewrite orb_false_r|]. destruct (IH _ (add_one_extends tx s a Hs)) as [H1 H2].
    split; [done|]. rewrite H2. destruct a; cbn; rewrite ?orb_true_r; done. }
  apply H. by split_and!.
Qed.

Lemma before_app {A} (sep : A -> bool) l x l' : sep x = true -> before sep (l ++ x :: l') = before sep l.
Proof. intros Hx. induction l as [|y l IH]; cbn; [by rewrite Hx|]. by rewrite IH. Qed.

Lemma before_idem {A} (sep : A -> bool) l : before sep (before sep l) = before sep l.
Proof. induction l as [|y l IH]; [done|]. cbn. destruct (sep y) eqn:E; [done|]. cbn. by rewrite E, IH. Qed.

Lemma before_Dup l : before def_IsSeparator (Dup <$> l) = Dup <$> before def_IsSeparator l.
Proof. induction l as [|d l IH]; [done|]. cbn. rewrite IH. by destruct d. Qed.

Lemma WriteDefinition_Dup d : wire_valid d -> WriteDefinition (Dup d) = WriteDefinition d.
Proof. destruct d as [| | | |h rights n|]; try done. by intros (_ & _ & _ & ->). Qed.

Lemma copy_outs_same outs : forall outs', copy_outs outs = Ok outs' -> outs' = outs.
Proof.
  induction outs as [|[[ty v r] s] outs IH]; intros outs'; cbn [copy_outs]; [by intros [= <-]|]. intros H.
  apply bind_ok_inv in H as (t & Et & H). apply bind_ok_inv in H as (ts & Ets & H). injection H as <-. rewrite (IH _ Ets). f_equal.
  destruct (out_IsSeparator _); [by injection Et as <-|]. unfold copy_out in Et. cbn in Et. destruct v; [by injection Et as <-|done].
Qed.

Lemma before_Forall {A} (P : A -> Prop) sep l : Forall P l -> Forall P (before sep l).
Proof. induction 1 as [|x l Hx _ IH]; [constructor|]. cbn. destruct (sep x); by constructor. Qed.

Lemma before_behind {A} (sep : A -> bool) x has l l' : sep x = true -> behind x has l l' -> before sep l' = before sep l.
Proof. intros Hx. destruct has; simpl; [intros [m ->]; by apply before_app|by intros ->]. Qed.

(** The identity of transactions that can be encoded depends on what is before the separators. *)
Lemma same_identity H (a b : MsgTx) : Version a = Version b -> LockTime a = LockTime b -> (Z.land (Version a) TxNoDefine <> 0 -> TxDef a = [] /\ TxDef b = []) ->
  (before def_IsSeparator (TxDef a) ≫= WriteDefinition) = (before def_IsSeparator (TxDef b) ≫= WriteDefinition) ->
  length (before def_IsSeparator (TxDef a)) = length (before def_IsSeparator (TxDef b)) ->
  before in_IsSeparator (TxIns a) = before in_IsSeparator (TxIns b) -> before out_IsSeparator (TxOuts a) = before out_IsSeparator (TxOuts b) -> TxHash H a = TxHash H b.
Proof.
  intros Ev El En Ed Edl Ei Eo. unfold TxHash, SerializeNoSignature, tx_OmcEncode.
  change (bool_decide (Z.land BaseEncoding FullEncoding <> 0)) with false. cbn [chosen]. rewrite <- Ev, <- El, Ed, Edl, Ei, Eo.
  rewrite !(decide_False (P := _ /\ _)) by (intros [Hn Hd]; by destruct (En Hn)). unfold hash_encoding. by rewrite Ev.
Qed.

Lemma write_Dup l : Forall wire_valid l -> ((Dup <$> before def_IsSeparator l) ≫= WriteDefinition) = (before def_IsSeparator l ≫= WriteDefinition).
Proof.
  intros Hd. apply (before_Forall _ def_IsSeparator) in Hd. induction Hd as [|d l' Hv _ IH]; [done|]. by rewrite fmap_cons, !bind_cons, IH, WriteDefinition_Dup by done.
Qed.

(** C28: the identity of a transaction that can be encoded (a version without definitions has none, and the definitions are of valid kinds) does not depend on its signatures, nor on
    what the execution of its contracts adds behind the separators: any sequence of outputs, inputs and definitions added leaves it, and a copy stripped of the additions has it.  The
    exception is a definition that is added to a transaction whose version has no definitions: the encoder fails, and the identity becomes the hash of the version alone. *)
Theorem tx_identity_stable (H : list Z -> list Z) (tx : MsgTx) (adds : list addition) (Hdef : Z.land (Version tx) TxNoDefine <> 0 -> TxDef tx = []) (Hd : Forall wire_valid (TxDef tx)) :
  TxHash H (ut_msgTx (executed tx adds)) =
    (if decide (Z.land (Version tx) TxNoDefine <> 0 /\ existsb is_definition adds = true) then Ok (H (PutUint32 (u32 (Version tx)))) else TxHash H tx) /\
  (forall tx', Stripped (ut_msgTx (executed tx adds)) = Ok tx' -> TxHash H tx' = TxHash H tx) /\
  (forall sigs, TxHash H (with_sigs tx sigs) = TxHash H tx).
Proof.
  destruct (executed_extends tx adds) as [(Ev & El & Bd & Bi & Bo) Eh]. rewrite Eh in Bd. set (tx1 := ut_msgTx (executed tx adds)) in *.
  pose proof (before_behind def_IsSeparator DSeparator _ _ _ eq_refl Bd) as Ed. pose proof (before_behind in_IsSeparator separator_in _ _ _ eq_refl Bi) as Ei. pose proof (before_behind out_IsSeparator separator_out _ _ _ eq_refl Bo) as Eo. split_and!.
  - case_decide as Hn.
    + destruct Hn as [Hn Ha]. rewrite Ha in Bd. destruct Bd as [m Em]. unfold TxHash, SerializeNoSignature, tx_OmcEncode. rewrite decide_True; [unfold hash_encoding; cbn; by rewrite Ev|].
      split; [by rewrite Ev|]. rewrite Em. by destruct (TxDef tx).
    + apply same_identity; try done; [|by rewrite Ed|by rewrite Ed]. rewrite Ev. intros Hz. split; [|by apply Hdef].
      destruct (existsb is_definition adds); [by destruct Hn|]. simpl in Bd. rewrite Bd. by apply Hdef.
  - intros tx' E. unfold Stripped in E. apply bind_ok_inv in E as (outs' & E1 & E). injection E as <-. apply copy_outs_same in E1 as ->.
    apply same_identity; cbn [Version LockTime TxDef TxIns TxOuts]; try done; rewrite ?before_Dup, ?before_idem, ?length_fmap, ?Ed, ?Ei, ?Eo, ?before_idem; try done; [|by apply write_Dup].
    rewrite Ev. intros Hz. by rewrite Hdef.
  - intros sigs. apply same_identity; try done. intros Hz. split; by apply Hdef.
Qed.

(** ** Sizes *)

(** The type byte that [SerializeSize] leaves out, and the value it counts for a separator. *)
Definition def_extra (d : definition) : Z := match d with DVertex _ | DBorder _ _ _ _ | DRightSet _ _ _ => 1 | _ => 0 end.
Definition out_extra (t : TxOut) : Z := if out_IsSeparator t then -8 else 0.

Lemma token_size t b : token_ok t -> token_WriteTxOut t = Ok b ->
  len b = token_SerializeSize t + if decide (TokenType t = DefTypeSeparator) then -8 else 0.
Proof.
  intros [_ Ht] E. unfold token_WriteTxOut, write_token in E. unfold token_SerializeSize. case_decide as Hs.
  { cbn in E. injection E as <-. rewrite app_nil_r, WriteVarInt_length. unfold IsNumeric, HasRight. by rewrite Hs. }
  destruct Ht as [(v & Ev & Hv) Hr]. rewrite Ev in E. unfold HasRight in *.
  assert (len (write_value v) = if IsNumeric t then 8 else 32) as Hlv.
  { unfold IsNumeric. destruct v as [n|h]; destruct Hv as [E1 Hv]; rewrite E1; [done|]. destruct Hv as [Hl _]. cbn. rewrite Hl. done. }
  destruct (decide (Z.land (TokenType t) 2 <> 0)) as [H2|H2].
  - destruct Hr as (h & Eh & Hh & _). rewrite bool_decide_true in * by done. rewrite Eh in E. cbn [mbind outcome_bind] in E. injection E as <-.
    rewrite !length_app, !Nat2Z.inj_add, WriteVarInt_length, Hlv, Hh. unfold HashSize. lia.
  - rewrite bool_decide_false in * by done. cbn [mbind outcome_bind] in E. injection E as <-.
    rewrite !length_app, !Nat2Z.inj_add, WriteVarInt_length, Hlv. lia.
Qed.

Lemma outs_size l : Forall out_ok l -> forall b, write_outs l = Ok b -> len b = sum_sizes out_SerializeSize l + sum_sizes out_extra l.
Proof.
  induction 1 as [|t l [Ht _] _ IH]; intros b; cbn [write_outs sum_sizes foldr]; [by intros [= <-]|]. intros E.
  apply bind_ok_inv in E as (bt & Et & E). apply bind_ok_inv in E as (bl & El & E). injection E as <-.
  apply bind_ok_inv in Et as (bk & Ek & Et). injection Et as <-. rewrite !length_app, !Nat2Z.inj_add, (token_size _ _ Ht Ek), (IH _ El).
  unfold WriteVarBytes. rewrite length_app, Nat2Z.inj_add, WriteVarInt_length. unfold out_SerializeSize, out_extra, out_IsSeparator. fold (sum_sizes out_SerializeSize l) (sum_sizes out_extra l).
  case_decide as Hs; [rewrite bool_decide_true by done|rewrite bool_decide_false by done]; unfold sum_sizes; lia.
Qed.

Lemma defs_size l : Forall wire_valid l -> len (l ≫= WriteDefinition) = sum_sizes def_SerializeSize l + sum_sizes def_extra l.
Proof.
  induction 1 as [|d l Hd _ IH]; [done|]. rewrite bind_cons, length_app, Nat2Z.inj_add, IH. cbn [sum_sizes foldr].
  enough (len (WriteDefinition d) = def_SerializeSize d + def_extra d) by (unfold sum_sizes; lia). by apply def_size_extra.
Qed.

Lemma ins_size l : Forall in_ok l -> len (l ≫= writeTxIn) = sum_sizes in_SerializeSize l.
Proof.
  induction 1 as [|t l ((Hl & _) & _) _ IH]; [done|]. rewrite bind_cons, length_app, Nat2Z.inj_add, IH. cbn [sum_sizes foldr].
  unfold writeTxIn, writeOutPoint. rewrite !length_app, Hl, !PutUint32_length. unfold sum_sizes, in_SerializeSize, HashSize. lia.
Qed.

(** The size of the full encoding is not what [SerializeSizeFull] says: every vertex, border
    and right set takes a byte more, every separator among the outputs eight bytes less,
    an absent lock time four and absent definitions one less, and the empty list of
    signatures one more. *)
Theorem tx_size_differs (tx : MsgTx) (Htx : tx_ok tx) :
  exists b, SerializeFull tx = Ok (inl b) /\ len b = baseSize tx true + sum_sizes def_extra (TxDef tx) + sum_sizes out_extra (TxOuts tx) + 1 -
    (if decide (Z.land (Version tx) TxNoLock = 0) then 0 else 4) - (if decide (Z.land (Version tx) TxNoDefine = 0) then 0 else 1).
Proof.
  destruct Htx as [Hv [Hd Hdn] Hnd [Hi Hin] [Ho Hon] Hl Hs _]. destruct (reads_outs _ Ho) as (bo & Eo & _).
  unfold SerializeFull, tx_OmcEncode. rewrite decide_False by (intros [H1 H2]; by apply H2, Hnd).
  change (bool_decide (Z.land (Z.lor BaseEncoding FullEncoding) FullEncoding <> 0)) with true. cbn [chosen]. rewrite Eo. cbn [mbind outcome_bind].
  eexists. split; [reflexivity|]. rewrite (decide_False (P := Z.ldiff _ _ = _)) by done. unfold baseSize. cbn [chosen].
  rewrite !length_app, !Nat2Z.inj_add, !WriteVarInt_length, (ins_size _ Hi), (outs_size _ Ho _ Eo). change (len (PutUint32 (u32 (Version tx)))) with 4.
  change (VarIntSerializeSize 0) with 1.
  destruct (decide (Z.land (Version tx) TxNoDefine = 0)) as [E|E].
  - rewrite length_app, Nat2Z.inj_add, WriteVarInt_length, (defs_size _ Hd).
    destruct (decide (Z.land (Version tx) TxNoLock = 0)); [change (len (PutUint32 (LockTime tx))) with 4|change (len []) with 0]; lia.
  - rewrite (Hnd E). change (len []) with 0. change (VarIntSerializeSize 0) with 1. cbn [sum_sizes foldr].
    destruct (decide (Z.land (Version tx) TxNoLock = 0)); [change (len (PutUint32 (LockTime tx))) with 4; lia|]. cbn [length]. lia.
Qed.

(** ** Samples *)

Definition pay_script : list Z := 0 :: replicate 20 7 ++ [0x41; 0; 0; 0].
Definition sample_in : TxIn := MkTxIn (MkOutPoint (replicate 32 5) 1) MaxTxInSequenceNum 0.
Definition sample_border : definition := DBorder None zero_hash (MkVertex 1 2 0) (MkVertex (-3) 4 0).
Definition sample_rights : definition := DRightSet None [replicate 32 9; replicate 32 3] 0.
Definition sample_tx : MsgTx :=
  MkMsgTx 1 [sample_border; sample_rights] [sample_in]
    [MkTxOut (MkToken 0 (Some (NumToken 500)) None) pay_script; separator_out;
     MkTxOut (MkToken 3 (Some (HashToken (replicate 32 1))) (Some (replicate 32 2))) pay_script] 0 [[1; 2; 3]].

Lemma bytes_dec l : forallb (fun x => bool_decide (0 <= x < 256)) l = true -> bytes l.
Proof. intros H. apply Forall_forall. intros x Hx. apply list_elem_of_In in Hx. eapply forallb_forall in H; [|exact Hx]. by apply bool_decide_eq_true in H. Qed.

Lemma sample_tx_ok : tx_ok sample_tx.
Proof.
  assert (bytes pay_script) by (by apply bytes_dec). assert (forall n, 0 <= n < 256 -> is_hash (replicate 32 n)) as Hh.
  { intros n Hn. split; [by rewrite length_replicate|]. by apply Forall_replicate. }
  split; cbn [sample_tx Version TxDef TxIns TxOuts LockTime SignatureScripts].
  - done.
  - split; [|done]. repeat constructor; try done.
  - done.
  - split; [|done]. repeat constructor; try done; by apply (Hh 5).
  - split; [|done]. repeat (constructor; [split; [|split; [done|by apply bytes_dec]]|]); [..|constructor].
    + split; [done|]. rewrite decide_False by done. split; [eexists; by split|]. by rewrite decide_False by (intros E; by apply E).
    + split; [done|]. by rewrite decide_True.
    + split; [done|]. rewrite decide_False by done. split.
      * eexists. split; [reflexivity|]. split; [done|]. by apply Hh.
      * rewrite decide_True by done. eexists. split; [reflexivity|]. by apply Hh.
  - done.
  - constructor; [|done]. split; [done|]. by apply bytes_dec.
  - exists false. split; [reflexivity|]. done.
Qed.

Lemma tx_roundtrip_witness : exists b, tx_Serialize sample_tx = Ok (inl b) /\ tx_OmcDecode (b ++ [9]) = Ok (inl (tx_canonical sample_tx, [9])) /\
  TxDef (tx_canonical sample_tx) = [sample_border; DRightSet None [replicate 32 3; replicate 32 9] 0].
Proof.
  destruct (tx_roundtrip sample_tx [9] sample_tx_ok) as (b & E & D). exists b. split; [exact E|]. split; [exact D|]. vm_compute. reflexivity.
Defined.

Lemma tx_size_witness : exists b, SerializeFull sample_tx = Ok (inl b) /\ len b = baseSize sample_tx true + 2 - 8 + 1.
Proof. destruct (tx_size_differs sample_tx sample_tx_ok) as (b & E & L). exists b. split; [exact E|]. rewrite L. vm_compute. reflexivity. Defined.

Lemma tx_identity_witness : let adds := [AddDefinition sample_border; AddIn (PreviousOutPoint sample_in) [4]; AddOut separator_out] in
  TxHash id (ut_msgTx (executed sample_tx adds)) = TxHash id sample_tx /\ length (TxDef (ut_msgTx (executed sample_tx adds))) = (length (TxDef sample_tx) + 2)%nat.
Proof.
  split; [|reflexivity]. refine (proj1 (tx_identity_stable id sample_tx [AddDefinition sample_border; AddIn (PreviousOutPoint sample_in) [4]; AddOut separator_out] _ _)); [done|].
  exact (proj1 (ok_defs _ sample_tx_ok)).
Defined.

(** The bytes of a transaction without definitions, with a count of signatures of 2^63. *)
Definition wrapped_bytes : list Z :=
  PutUint32 0x20 ++ WriteVarInt 1 ++ writeTxIn sample_in ++ WriteVarInt 0 ++ PutUint32 0 ++ WriteVarInt (2 ^ 63).

Lemma tx_bytes_witness : exists tx b s, tx_OmcDecode wrapped_bytes = Ok (inl (tx, [])) /\ wrapped_bytes = b ++ s ++ [] /\
  SerializeFull tx = Ok (inl (b ++ [0])) /\ SignatureScripts tx = [].
Proof.
  pose (tx := MkMsgTx 0x20 [] [sample_in] [] 0 []). assert (tx_OmcDecode wrapped_bytes = Ok (inl (tx, []))) as E by (vm_compute; reflexivity).
  destruct (tx_bytes_determined wrapped_bytes [] tx ltac:(by apply bytes_dec) E eq_refl) as (b & s & Er & Es & _).
  exists tx, b, s. split; [exact E|]. split; [exact Er|]. split; [exact Es|reflexivity].
Defined.

Definition short_out : TxOut := MkTxOut (MkToken 0 (Some (NumToken 1)) None) [1; 2].
Definition coin_in : TxIn := MkTxIn (MkOutPoint zero_hash 0) 1 0.

Lemma short_script_witness : exists b, tx_OmcDecode (b ++ WriteVarInt 0 ++ []) = Panic /\ len b = 66.
Proof.
  destruct (SerializeFull (MkMsgTx 0x20 [] [coin_in] [short_out] 0 [])) as [[bs|]| |] eqn:E; [|vm_compute in E; discriminate..].
  exists (take 66 bs). assert (bs = take 66 bs ++ [0]) as Eb by (vm_compute in E; injection E as <-; reflexivity).
  split; [|vm_compute in E; injection E as <-; reflexivity].
  apply (short_script_panics 0x20 0 0 coin_in short_out [] (take 66 bs)); try done.
  - split; [split; [done|by apply bytes_dec]|done].
  - split; [|split; [done|by apply bytes_dec]]. split; [done|]. rewrite decide_False by done. split; [eexists; by split|]. by rewrite decide_False by (intros N; by apply N).
  - simpl. lia.
  - by rewrite <- Eb.
Defined.
