(* ===== verification/MsgBlock.v ===== *)
(** * Blocks and miner blocks

    Models btcd/wire/msgblock.go and btcd/wire/blockheader.go: headers, blocks with the
    locations of their transactions, violation reports, instructions and the blocks of the
    miner chain. *)
From Stdlib Require Import ZArith Lia.
From stdpp Require Import gmap list.
From S2P Require Import Prelude Wire Token MsgTx.

Open Scope Z_scope.

(** ** Elements as readers *)

Definition ReadUint32 : reader Z := ReadElement EUint32.
Definition ReadInt32 : reader Z := ReadElement EInt32.
Definition ReadHash : reader (list Z) := ReadElement EHash.
Definition PutInt32 (v : Z) : list Z := PutUint32 (u32 v).

(** ** Headers *)

Record BlockHeader := MkHeader {
  h_Version : Z;
  h_PrevBlock : list Z;
  h_MerkleRoot : list Z;
  h_Timestamp : Z;
  h_ContractExec : Z;
  h_Nonce : Z;
}.

Definition readBlockHeader : reader BlockHeader :=
  v ← ReadUint32; p ← ReadHash; m ← ReadHash; t ← ReadElement EUint32Time; c ← ReadUint32; n ← ReadInt32;
  mret (MkHeader v p m t c n).
Definition writeBlockHeader (bh : BlockHeader) : list Z :=
  PutUint32 (h_Version bh) ++ h_PrevBlock bh ++ h_MerkleRoot bh ++ PutUint32 (u32 (h_Timestamp bh)) ++ PutUint32 (h_ContractExec bh) ++
  PutInt32 (h_Nonce bh).

(** ** Blocks *)

Definition MaxBlockPayload : Z := 50000000.
Definition MaxTxPerBlock : Z := MaxBlockPayload / 10 + 1.
Definition blockHeaderLen : Z := 84.

Record MsgBlock := MkBlock { Header : BlockHeader; Transactions : list MsgTx }.

Definition block_OmcDecode : reader MsgBlock :=
  h ← readBlockHeader; txs ← read_counted MaxTxPerBlock tx_OmcDecode; mret (MkBlock h txs).

Fixpoint encode_txs (txs : list MsgTx) (enc : Z) : outcome (list Z + wire_err) :=
  match txs with
  | [] => Ok (inl [])
  | tx :: txs =>
      r ← tx_OmcEncode tx enc;
      match r with
      | inr e => Ok (inr e)
      | inl b => rs ← encode_txs txs enc; Ok (match rs with inl bs => inl (b ++ bs) | inr e => inr e end)
      end
  end.
Definition block_OmcEncode (msg : MsgBlock) (enc : Z) : outcome (list Z + wire_err) :=
  rs ← encode_txs (Transactions msg) enc;
  Ok (match rs with inl bs => inl (writeBlockHeader (Header msg) ++ WriteVarInt (len (Transactions msg)) ++ bs) | inr e => inr e end).
Definition block_Serialize (msg : MsgBlock) := block_OmcEncode msg (Z.lor SignatureEncoding FullEncoding).

Definition block_SerializeSize (msg : MsgBlock) : Z :=
  blockHeaderLen + VarIntSerializeSize (len (Transactions msg)) + sum_sizes tx_SerializeSize (Transactions msg).

(** [r.Len()] *)
Definition Len : reader Z := fun r => Ok (inl (len r, r)).

(** [full] is the length of the whole buffer. *)
Fixpoint read_located (full : Z) (n : nat) : reader (list (MsgTx * (Z * Z))) :=
  match n with
  | O => mret []
  | S n =>
      before ← Len;
      let start := full - before in
      tx ← tx_OmcDecode;
      after ← Len;
      l ← read_located full n;
      mret ((tx, (start, full - after - start)) :: l)
  end.
Definition DeserializeTxLoc : reader (MsgBlock * list (Z * Z)) :=
  full ← Len;
  h ← readBlockHeader;
  count ← ReadVarInt;
  if decide (MaxTxPerBlock < count) then rfail TooMany
  else l ← read_located full (Z.to_nat count); mret (MkBlock h l.*1, l.*2).

(** ** Miner blocks *)

Record Violations := MkViolations { v_Height : Z; v_MRBlock : list Z; v_Blocks : list (list Z) }.

(** A missing height is no error; a report at height 0 has nothing more. *)
Definition violations_Read : reader Violations :=
  rcatch ReadInt32 (fun h =>
    if decide (h = 0) then mret (MkViolations h zero_hash [])
    else
      mr ← ReadHash;
      t ← ReadVarInt;
      _ ← rlift (make 32 (i32 t));
      bs ← read_n (Z.to_nat (i32 t)) ReadHash;
      mret (MkViolations h mr bs)) (MkViolations 0 zero_hash []).
Definition violations_Write (b : Violations) : list Z :=
  if decide (v_Height b = 0) then []
  else PutInt32 (v_Height b) ++ v_MRBlock b ++ WriteVarInt (u64 (i32 (len (v_Blocks b)))) ++ concat (v_Blocks b).

Record Instruction := MkInstruction { InstCode : Z; InstData : list Z }.
Definition instruction_serializer (t : Instruction) : list Z := PutUint8 (InstCode t) ++ WriteVarBytes (InstData t).
Definition instruction_deserializer : reader Instruction := c ← Uint8; d ← ReadVarBytes 40960; mret (MkInstruction c d).

Record MingingRightBlock := MkMinerBlock {
  mb_Version : Z;
  mb_PrevBlock : list Z;
  mb_BestBlock : list Z;
  mb_Timestamp : Z;
  mb_Bits : Z;
  mb_Nonce : Z;
  mb_Miner : list Z;
  mb_Connection : list Z;
  mb_Collateral : Z;
  mb_MeanTPH : Z;
  mb_Utxos : option OutPoint;
  mb_ViolationReport : list Violations;
  mb_TphReports : list Z;
  mb_ContractLimit : Z;
  mb_Instructions : list Instruction;
}.

(** Behind the connection a missing field ends the block without an error: the collateral
    and the reports that have not been read are empty. *)
Definition readMinerBlock : reader MingingRightBlock :=
  v ← ReadUint32; p ← ReadHash; b ← ReadHash; t ← ReadElement EUint32Time; bits ← ReadUint32; n ← ReadInt32;
  miner ← ReadVarBytes 20;
  let miner := miner ++ replicate (20 - length miner) 0 in
  conn ← ReadVarBytes 80;
  let block c m u vs ts l insts := MkMinerBlock v p b t bits n miner conn c m u vs ts l insts in
  rcatch ReadVarInt (fun d =>
    u ← (if decide (d = 0) then mret None else o ← readOutPoint; mret (Some o));
    rcatch ReadVarInt (fun d =>
      _ ← rlift (make 8 d);
      vs ← read_n (Z.to_nat (i64 d)) violations_Read;
      c ← ReadVarInt;
      m ← ReadVarInt;
      d ← ReadVarInt;
      _ ← rlift (make 4 d);
      ts ← read_n (Z.to_nat (i64 d)) (t ← ReadVarInt; mret (u32 t));
      rcatch ReadUint32 (fun l =>
        rcatch ReadVarInt (fun d =>
          insts ← read_n (Z.to_nat d) instruction_deserializer;
          mret (block (u32 c) (u32 m) u vs ts l insts))
          (block (u32 c) (u32 m) u vs ts l []))
        (block (u32 c) (u32 m) u vs ts 0 []))
      (block 0 0 u [] [] 0 []))
    (block 0 0 None [] [] 0 []).

Definition writeMinerBlock (bh : MingingRightBlock) : list Z :=
  PutUint32 (mb_Version bh) ++ mb_PrevBlock bh ++ mb_BestBlock bh ++ PutUint32 (u32 (mb_Timestamp bh)) ++ PutUint32 (mb_Bits bh) ++
  PutInt32 (mb_Nonce bh) ++
  WriteVarBytes (mb_Miner bh) ++ WriteVarBytes (mb_Connection bh) ++
  match mb_Utxos bh with None => WriteVarInt 0 | Some o => WriteVarInt 1 ++ writeOutPoint o end ++
  WriteVarInt (len (mb_ViolationReport bh)) ++ (mb_ViolationReport bh ≫= violations_Write) ++
  WriteVarInt (mb_Collateral bh) ++ WriteVarInt (mb_MeanTPH bh) ++
  WriteVarInt (len (mb_TphReports bh)) ++ (mb_TphReports bh ≫= WriteVarInt) ++
  PutUint32 (mb_ContractLimit bh) ++
  WriteVarInt (len (mb_Instructions bh)) ++ (mb_Instructions bh ≫= instruction_serializer).

Section BlockHash.
Context (DoubleHashH : list Z -> list Z).
Definition BlockHash (h : BlockHeader) : list Z := DoubleHashH (writeBlockHeader h).
Definition MinerBlockHash (h : MingingRightBlock) : list Z := DoubleHashH (writeMinerBlock h).
End BlockHash.

(** ** Round trips *)

Definition header_ok (h : BlockHeader) : Prop :=
  uint_range 32 (h_Version h) /\ is_hash (h_PrevBlock h) /\ is_hash (h_MerkleRoot h) /\ uint_range 32 (h_Timestamp h) /\
  uint_range 32 (h_ContractExec h) /\ sint_range 32 (h_Nonce h).

Lemma reads_ReadUint32 v : uint_range 32 v -> reads ReadUint32 (PutUint32 v) v.
Proof. apply reads_Uint32. Qed.
Lemma reads_Time v : uint_range 32 v -> reads (ReadElement EUint32Time) (PutUint32 (u32 v)) v.
Proof. intros H. rewrite uwrap_id by done. by apply reads_Uint32. Qed.
Lemma reads_ReadInt32 v : sint_range 32 v -> reads ReadInt32 (PutInt32 v) v.
Proof.
  intros Hv. unfold ReadInt32, PutInt32. cbn [ReadElement]. eapply reads_bind_ret; [apply reads_Uint32, uwrap_range; lia|].
  rewrite i32_u32 by done. apply reads_ret.
Qed.
Lemma reads_ReadHash h : is_hash h -> reads ReadHash h h.
Proof. intros [Hl _]. by apply reads_full. Qed.
#[export] Hint Resolve reads_ReadUint32 reads_Time reads_ReadInt32 reads_ReadHash reads_Int64 : reads.

Lemma reads_header h : header_ok h -> reads readBlockHeader (writeBlockHeader h) h.
Proof. intros (H1 & H2 & H3 & H4 & H5 & H6). unfold readBlockHeader, writeBlockHeader. destruct h; cbn in *. reads_seq. Qed.
#[export] Hint Resolve reads_header : reads.

Lemma parsed_ReadInt32 : parsed ReadInt32 (fun v b => b = PutInt32 v /\ sint_range 32 v).
Proof.
  unfold ReadInt32, PutInt32. cbn [ReadElement]. eapply parsed_bind; [apply parsed_Uint32|]. intros v b [-> Hv]. apply parsed_ret.
  rewrite app_nil_r, swrap_mod by lia. rewrite uwrap_id by done. split; [done|by apply swrap_range].
Qed.

Lemma parsed_header : parsed readBlockHeader (fun h b => b = writeBlockHeader h /\ header_ok h).
Proof.
  unfold readBlockHeader. eapply parsed_bind; [apply parsed_Uint32|]. intros v ? [-> ?]. eapply parsed_bind; [apply parsed_full|]. intros p ? (-> & ? & ?).
  eapply parsed_bind; [apply parsed_full|]. intros m ? (-> & ? & ?). eapply parsed_bind; [apply parsed_Uint32|]. intros t ? [-> ?].
  eapply parsed_bind; [apply parsed_Uint32|]. intros c ? [-> ?]. eapply parsed_bind; [apply parsed_ReadInt32|]. intros n ? [-> ?]. apply parsed_ret.
  unfold writeBlockHeader. cbn. rewrite app_nil_r, uwrap_id by done. split; [done|]. unfold header_ok, is_hash. cbn. naive_solver.
Qed.

Definition block_ok (b : MsgBlock) : Prop :=
  header_ok (Header b) /\ Forall tx_ok (Transactions b) /\ len (Transactions b) <= MaxTxPerBlock.
Definition block_canonical (b : MsgBlock) : MsgBlock := MkBlock (Header b) (tx_canonical <$> Transactions b).

(** The encodings of the transactions, one by one. *)
Lemma encode_txs_parts txs : Forall tx_ok txs -> exists bs, Forall2 (fun tx b => tx_Serialize tx = Ok (inl b) /\ reads tx_OmcDecode b (tx_canonical tx)) txs bs /\
  encode_txs txs (Z.lor SignatureEncoding FullEncoding) = Ok (inl (concat bs)).
Proof.
  induction 1 as [|tx txs Htx _ (bs & H2 & E)]; [by exists []|]. destruct (reads_tx tx Htx) as (b & Eb & Hb). exists (b :: bs). split; [by constructor|].
  cbn [encode_txs concat]. change (tx_OmcEncode tx (Z.lor SignatureEncoding FullEncoding)) with (tx_Serialize tx). rewrite Eb. cbn [mbind outcome_bind]. by rewrite E.
Qed.

Lemma reads_parts txs bs : Forall2 (fun tx b => tx_Serialize tx = Ok (inl b) /\ reads tx_OmcDecode b (tx_canonical tx)) txs bs ->
  reads (read_n (length txs) tx_OmcDecode) (concat bs) (tx_canonical <$> txs).
Proof.
  induction 1 as [|tx b txs bs [_ Hb] _ IH]; cbn [read_n length concat fmap list_fmap]; [apply reads_ret|].
  eapply reads_bind; [exact Hb|]. eapply reads_bind_ret; [exact IH|apply reads_ret].
Qed.

Lemma MaxTxPerBlock_value : MaxTxPerBlock = 5000001.
Proof. reflexivity. Qed.

Lemma reads_block b : block_ok b -> exists bs, block_Serialize b = Ok (inl bs) /\ reads block_OmcDecode bs (block_canonical b).
Proof.
  intros (Hh & Ht & Hn). destruct (encode_txs_parts _ Ht) as (bs & H2 & E). unfold block_Serialize, block_OmcEncode. rewrite E. cbn [mbind outcome_bind].
  eexists. split; [reflexivity|]. unfold block_OmcDecode. eapply reads_bind; [by apply reads_header|]. eapply reads_bind_ret; [|apply reads_ret].
  unfold read_counted. pose proof MaxTxPerBlock_value. eapply reads_bind; [apply reads_VarInt; unfold uint_range; lia|]. rewrite decide_False by lia. rewrite Nat2Z.id.
  by apply reads_parts.
Qed.

(** ** Locations of transactions *)

Lemma read_located_parts full txs bs : Forall2 (fun tx b => tx_Serialize tx = Ok (inl b) /\ reads tx_OmcDecode b (tx_canonical tx)) txs bs ->
  forall r, exists l, read_located full (length txs) (concat bs ++ r) = Ok (inl (l, r)) /\ l.*1 = tx_canonical <$> txs /\
    forall i b, bs !! i = Some b -> l.*2 !! i = Some (full - len (concat bs ++ r) + len (concat (take i bs)), len b).
Proof.
  induction 1 as [|tx b txs bs [_ Hb] H2 IH]; intros r; [by exists []|]. destruct (IH r) as (l & E & E1 & E2).
  cbn [read_located length concat]. unfold mbind at 1, reader_bind, Len at 1. unfold mbind at 1, reader_bind. rewrite <- app_assoc, Hb.
  unfold mbind at 1, reader_bind, Len at 1. unfold mbind, reader_bind. rewrite E. eexists. split; [reflexivity|].
  split; [cbn; by rewrite E1|]. intros [|i] b' Hi.
  - injection Hi as <-. cbn. f_equal. f_equal; rewrite ?length_app; lia.
  - cbn in Hi. rewrite fmap_cons, lookup_cons_ne_0 by done. cbn [pred]. rewrite (E2 i b' Hi). f_equal. f_equal. cbn [take concat]. rewrite !length_app. lia.
Qed.

(** The locations of the transactions of a block are right: the bytes of the block at the
    location of a transaction are its encoding, for every transaction. *)
Theorem tx_locations_right (b : MsgBlock) (Hb : block_ok b) :
  exists bs locs, block_Serialize b = Ok (inl bs) /\ DeserializeTxLoc bs = Ok (inl ((block_canonical b, locs), [])) /\
    length locs = length (Transactions b) /\
    forall i tx, Transactions b !! i = Some tx -> exists start n, locs !! i = Some (start, n) /\
      0 <= start /\ tx_Serialize tx = Ok (inl (take (Z.to_nat n) (drop (Z.to_nat start) bs))).
Proof.
  destruct Hb as (Hh & Ht & Hn). destruct (encode_txs_parts _ Ht) as (bs & H2 & E). unfold block_Serialize, block_OmcEncode. rewrite E. cbn [mbind outcome_bind].
  set (pre := writeBlockHeader (Header b) ++ WriteVarInt (len (Transactions b))).
  destruct (read_located_parts (len (pre ++ concat bs)) _ _ H2 []) as (l & El & E1 & E2). exists (pre ++ concat bs), l.*2.
  split; [unfold pre; by rewrite <- app_assoc|]. rewrite app_nil_r in El, E2. split.
  { unfold DeserializeTxLoc. unfold mbind at 1, reader_bind, Len at 1. unfold pre at 2. rewrite <- app_assoc, (reads_step _ _ _ (Header b)) by (by apply reads_header).
    pose proof MaxTxPerBlock_value. rewrite (reads_step _ _ _ (len (Transactions b))) by (apply reads_VarInt; unfold uint_range; lia).
    rewrite decide_False by lia. rewrite Nat2Z.id. unfold mbind, reader_bind. rewrite El, E1. done. }
  split; [by rewrite length_fmap, <- (length_fmap fst), E1, length_fmap|]. intros i tx Hi.
  destruct (Forall2_lookup_l _ _ _ _ _ H2 Hi) as (bt & Hbt & Etx & _). eexists _, _. split; [by apply E2|].
  replace (len (pre ++ concat bs) - len (concat bs) + len (concat (take i bs))) with (len (pre ++ concat (take i bs))) by (rewrite !length_app; lia).
  split; [lia|]. rewrite Etx. do 2 f_equal. rewrite !Nat2Z.id. rewrite <- (take_drop_middle _ _ _ Hbt) at 2. rewrite concat_app. cbn [concat].
  rewrite (app_assoc pre), drop_app_length. by rewrite take_app_length.
Qed.

(** ** Miner blocks *)

Lemma reads_catch {A B} (m : reader A) (k : A -> reader B) d b1 b2 a c : reads m b1 a -> reads (k a) b2 c -> reads (rcatch m k d) (b1 ++ b2) c.
Proof. intros H1 H2 r. unfold rcatch. by rewrite <- app_assoc, H1. Qed.

Definition violations_ok (v : Violations) : Prop :=
  v_Height v <> 0 /\ sint_range 32 (v_Height v) /\ is_hash (v_MRBlock v) /\ Forall is_hash (v_Blocks v) /\ len (v_Blocks v) < 2 ^ 31.
Definition instruction_ok (t : Instruction) : Prop := uint_range 8 (InstCode t) /\ len (InstData t) <= 40960.
Definition outpoint_ok (o : OutPoint) : Prop := is_hash (op_Hash o) /\ uint_range 32 (op_Index o).

Record miner_ok (b : MingingRightBlock) : Prop := MkMinerOk {
  mo_version : uint_range 32 (mb_Version b);
  mo_hashes : is_hash (mb_PrevBlock b) /\ is_hash (mb_BestBlock b);
  mo_time : uint_range 32 (mb_Timestamp b) /\ uint_range 32 (mb_Bits b) /\ sint_range 32 (mb_Nonce b);
  mo_miner : length (mb_Miner b) = 20%nat /\ len (mb_Connection b) <= 80;
  mo_collateral : uint_range 32 (mb_Collateral b) /\ uint_range 32 (mb_MeanTPH b);
  mo_utxos : match mb_Utxos b with Some o => outpoint_ok o | None => True end;
  mo_reports : Forall violations_ok (mb_ViolationReport b) /\ len (mb_ViolationReport b) * 8 <= 2 ^ 48;
  mo_tph : Forall (uint_range 32) (mb_TphReports b) /\ len (mb_TphReports b) * 4 <= 2 ^ 48;
  mo_limit : uint_range 32 (mb_ContractLimit b);
  mo_insts : Forall instruction_ok (mb_Instructions b) /\ len (mb_Instructions b) < 2 ^ 64;
}.

Lemma reads_hash_list l : Forall is_hash l -> reads (read_n (length l) ReadHash) (concat l) l.
Proof.
  intros H. replace (concat l) with (l ≫= id) by (clear; induction l; cbn; by rewrite ?IHl). apply reads_n.
  eapply Forall_impl; [exact H|]. intros h. apply reads_ReadHash.
Qed.

Lemma reads_violations v : violations_ok v -> reads violations_Read (violations_Write v) v.
Proof.
  intros (H0 & Hh & Hm & Hb & Hl). unfold violations_Read, violations_Write. rewrite decide_False by done.
  eapply reads_catch; [by apply reads_ReadInt32|]. rewrite decide_False by done. eapply reads_bind; [by apply reads_ReadHash|].
  rewrite (swrap_id 32 (len (v_Blocks v))) by (unfold sint_range; lia). rewrite uwrap_id by (unfold uint_range; lia).
  eapply reads_bind; [apply reads_VarInt; unfold uint_range; lia|]. rewrite swrap_id by (unfold sint_range; lia).
  apply (reads_bind _ _ [] _ ()); [apply make_reads; unfold make_ok; lia|]. rewrite Nat2Z.id. eapply reads_bind_ret; [by apply reads_hash_list|].
  destruct v. apply reads_ret.
Qed.

Lemma reads_instruction t : instruction_ok t -> reads instruction_deserializer (instruction_serializer t) t.
Proof.
  intros [Hc Hd]. unfold instruction_deserializer, instruction_serializer. eapply reads_bind; [by apply reads_Uint8|].
  eapply reads_bind_ret; [apply reads_VarBytes; lia|]. destruct t. apply reads_ret.
Qed.

Lemma reads_outpoint o : outpoint_ok o -> reads readOutPoint (writeOutPoint o) o.
Proof.
  intros [[Hl _] Hi]. unfold readOutPoint, writeOutPoint. eapply reads_bind; [by apply reads_full|]. eapply reads_bind_ret; [by apply reads_Uint32|].
  destruct o. apply reads_ret.
Qed.
#[export] Hint Resolve reads_outpoint : reads.

Lemma reads_u32_list l : Forall (uint_range 32) l -> reads (read_n (length l) (t ← ReadVarInt; mret (u32 t))) (l ≫= WriteVarInt) l.
Proof.
  intros H. apply reads_n. eapply Forall_impl; [exact H|]. intros t Ht. unfold uint_range in Ht. cbn beta.
  eapply reads_bind_ret; [apply reads_VarInt; unfold uint_range; lia|]. rewrite uwrap_id by done. apply reads_ret.
Qed.

(** A block of the miner chain is read back from its encoding, when its violation reports
    are at a height other than 0. *)
Lemma reads_miner_block b : miner_ok b -> reads readMinerBlock (writeMinerBlock b) b.
Proof.
  intros Hb. destruct Hb as [H1 [H2 H3] (H4 & H5 & H6) [H7 H8] [H9 H10] H11 [H12 H13] [H14 H15] H16 [H17 H18]].
  unfold readMinerBlock, writeMinerBlock. destruct b as [v p bb t bits n mi co cl mt u vs ts l insts]. cbn [mb_Version mb_PrevBlock mb_BestBlock mb_Timestamp mb_Bits
    mb_Nonce mb_Miner mb_Connection mb_Collateral mb_MeanTPH mb_Utxos mb_ViolationReport mb_TphReports mb_ContractLimit mb_Instructions] in *.
  do 6 (eapply reads_bind; [solve [eauto with reads]|]). eapply reads_bind; [apply reads_VarBytes; lia|].
  replace (mi ++ replicate (20 - length mi) 0) with mi by (rewrite H7; cbn; by rewrite app_nil_r). cbn zeta.
  eapply reads_bind; [apply reads_VarBytes; lia|].
  assert (forall (k : Z -> reader MingingRightBlock) k' d b2 x, (forall z, k z = (u ← (if decide (z = 0) then mret None else o ← readOutPoint; mret (Some o)); k' u)) ->
    reads (k' u) b2 x -> reads (rcatch ReadVarInt k d) (match u with None => WriteVarInt 0 | Some o => WriteVarInt 1 ++ writeOutPoint o end ++ b2) x) as Hu.
  { intros k k' d b2 x Hk Hr. destruct u as [o|].
    - rewrite <- app_assoc. eapply reads_catch; [by apply reads_VarInt|]. rewrite Hk, decide_False by done. eapply reads_bind; [|exact Hr].
      eapply reads_bind_ret; [by apply reads_outpoint|apply reads_ret].
    - eapply reads_catch; [by apply reads_VarInt|]. rewrite Hk, decide_True by done. rewrite <- (app_nil_l b2). eapply reads_bind; [apply reads_ret|exact Hr]. }
  eapply Hu; [intros z; reflexivity|]. unfold uint_range in *.
  eapply reads_catch; [apply reads_VarInt; unfold uint_range; lia|]. apply (reads_bind _ _ [] _ ()); [apply make_reads; unfold make_ok; lia|].
  rewrite swrap_id by (unfold sint_range; lia). rewrite Nat2Z.id.
  eapply reads_bind; [apply reads_n; eapply Forall_impl; [exact H12|]; intros w; apply reads_violations|].
  eapply reads_bind; [apply reads_VarInt; unfold uint_range; lia|]. eapply reads_bind; [apply reads_VarInt; unfold uint_range; lia|].
  eapply reads_bind; [apply reads_VarInt; unfold uint_range; lia|]. apply (reads_bind _ _ [] _ ()); [apply make_reads; unfold make_ok; lia|].
  rewrite swrap_id by (unfold sint_range; lia). rewrite Nat2Z.id. eapply reads_bind; [by apply reads_u32_list|].
  eapply reads_catch; [by apply reads_ReadUint32|]. eapply reads_catch; [apply reads_VarInt; unfold uint_range; lia|]. rewrite Nat2Z.id.
  rewrite !uwrap_id by done. eapply reads_bind_ret; [|apply reads_ret]. apply reads_n. eapply Forall_impl; [exact H17|]. intros i. apply reads_instruction.
Qed.

(** ** Witnesses *)

Definition sample_header : BlockHeader := MkHeader 1 (replicate 32 1) (replicate 32 2) 1600000000 0 7.
Lemma tx_locations_witness : exists bs locs, block_Serialize (MkBlock sample_header [sample_tx; sample_tx]) = Ok (inl bs) /\
  DeserializeTxLoc bs = Ok (inl ((block_canonical (MkBlock sample_header [sample_tx; sample_tx]), locs), [])) /\ length locs = 2%nat.
Proof.
  destruct (tx_locations_right (MkBlock sample_header [sample_tx; sample_tx])) as (bs & locs & H1 & H2 & H3 & _).
  - split_and!; [split_and!; (done || (split; [done|by apply bytes_dec]))|by repeat (apply Forall_cons; split; [apply sample_tx_ok|])|done].
  - exists bs, locs. split_and!; [exact H1|exact H2|exact H3].
Defined.
