(* ===== verification/WireMsgs.v ===== *)
(** * The messages between peers

    Models the remaining messages of btcd/wire: addresses, inventories, locators, headers,
    versions, filters, alerts and the messages of the consensus protocol.  Every message
    has its record, the reader of its [OmcDecode] and the writer of its [OmcEncode]; [pver]
    is the protocol version and [enc] the encoding.  Seconds stand for times. *)
From Stdlib Require Import ZArith Lia.
From stdpp Require Import gmap list.
From S2P Require Import Prelude Wire Token MsgTx MsgBlock.

Open Scope Z_scope.

Definition MultipleAddressVersion : Z := 209.
Definition NetAddressTimeVersion : Z := 31402.
Definition BIP0031Version : Z := 60000.
Definition BIP0035Version : Z := 60002.
Definition BIP0037Version : Z := 70001.
Definition RejectVersion : Z := 70002.
Definition SendHeadersVersion : Z := 70012.
Definition FeeFilterVersion : Z := 70013.

(** The Unix seconds of the zero [time.Time]. *)
Definition zero_time : Z := -62135596800.

(** ** Inventories *)

Record InvVect := MkInvVect { inv_Type : Z; inv_Hash : list Z }.
Definition readInvVect : reader InvVect := t ← ReadElement EInvType; h ← ReadHash; mret (MkInvVect t h).
Definition writeInvVect (iv : InvVect) : list Z := PutUint32 (inv_Type iv) ++ inv_Hash iv.

Definition MaxInvPerMsg : Z := 50000.

(** [MsgInv], [MsgGetData] and [MsgNotFound] have the same encoding. *)
Definition inv_OmcDecode : reader (list InvVect) := read_counted MaxInvPerMsg readInvVect.
Definition inv_OmcEncode (l : list InvVect) : list Z + wire_err :=
  if decide (MaxInvPerMsg < len l) then inr TooMany else inl (WriteVarInt (len l) ++ (l ≫= writeInvVect)).

(** ** Addresses *)

Record NetAddress := MkNetAddress { na_Timestamp : Z; na_Services : Z; na_IP : list Z; na_Port : Z }.

(** [To16]: the address of version 4 is mapped; other lengths give nothing. *)
Definition To16 (ip : list Z) : list Z :=
  if decide (length ip = 4)%nat then replicate 10 0 ++ [0xff; 0xff] ++ ip else if decide (length ip = 16)%nat then ip else [].

Definition readNetAddress (pver : Z) (ts : bool) : reader NetAddress :=
  t ← (if decide (ts = true /\ NetAddressTimeVersion <= pver) then ReadElement EUint32Time else mret zero_time);
  s ← ReadElement EServiceFlag;
  ip ← ReadElement EIP;
  b ← ReadFull 2;
  mret (MkNetAddress t s ip (le_value (rev b))).
Definition writeNetAddress (pver : Z) (ts : bool) (na : NetAddress) : list Z :=
  (if decide (ts = true /\ NetAddressTimeVersion <= pver) then PutUint32 (u32 (na_Timestamp na)) else []) ++
  PutUint64 (na_Services na) ++ (let ip := To16 (na_IP na) in ip ++ replicate (16 - length ip) 0) ++ rev (PutUint16 (na_Port na)).

Definition MaxAddrPerMsg : Z := 1000.
Definition addr_OmcDecode (pver : Z) : reader (list NetAddress) := read_counted MaxAddrPerMsg (readNetAddress pver true).
Definition addr_OmcEncode (pver : Z) (l : list NetAddress) : list Z + wire_err :=
  if decide (pver < MultipleAddressVersion /\ 1 < len l) then inr TooMany
  else if decide (MaxAddrPerMsg < len l) then inr TooMany
  else inl (WriteVarInt (len l) ++ (l ≫= writeNetAddress pver true)).

(** ** Locators and headers *)

Definition MaxBlockLocatorsPerMsg : Z := 500.

(** [MsgGetHeaders] and [MsgGetMinerBlocks] *)
Record MsgGetHeaders := MkGetHeaders { gh_ProtocolVersion : Z; gh_BlockLocatorHashes : list (list Z); gh_HashStop : list Z }.
Definition getheaders_OmcDecode : reader MsgGetHeaders :=
  v ← ReadUint32; l ← read_counted MaxBlockLocatorsPerMsg ReadHash; s ← ReadHash; mret (MkGetHeaders v l s).
Definition getheaders_OmcEncode (msg : MsgGetHeaders) : list Z + wire_err :=
  if decide (MaxBlockLocatorsPerMsg < len (gh_BlockLocatorHashes msg)) then inr TooMany
  else inl (PutUint32 (gh_ProtocolVersion msg) ++ WriteVarInt (len (gh_BlockLocatorHashes msg)) ++ concat (gh_BlockLocatorHashes msg) ++
            gh_HashStop msg).

Record MsgGetBlocks := MkGetBlocks {
  gb_ProtocolVersion : Z;
  gb_TxBlockLocatorHashes : list (list Z);
  gb_TxHashStop : list Z;
  gb_MinerBlockLocatorHashes : list (list Z);
  gb_MinerHashStop : list Z;
}.

(** [count+2] and [count+count2+2] are sums of 64-bit numbers. *)
Definition getblocks_OmcDecode : reader MsgGetBlocks :=
  v ← ReadUint32;
  count ← ReadVarInt;
  if decide (MaxBlockLocatorsPerMsg < u64 (count + 2)) then rfail TooMany
  else
    _ ← rlift (make 32 count);
    l ← read_n (Z.to_nat count) ReadHash;
    s ← ReadHash;
    count2 ← ReadVarInt;
    if decide (MaxBlockLocatorsPerMsg < u64 (count + count2 + 2)) then rfail TooMany
    else
      _ ← rlift (make 32 count2);
      l2 ← read_n (Z.to_nat count2) ReadHash;
      s2 ← ReadHash;
      mret (MkGetBlocks v l s l2 s2).
Definition getblocks_OmcEncode (msg : MsgGetBlocks) : list Z + wire_err :=
  let count := len (gb_TxBlockLocatorHashes msg) in
  let count2 := len (gb_MinerBlockLocatorHashes msg) in
  if decide (MaxBlockLocatorsPerMsg < count + 2) then inr TooMany
  else if decide (MaxBlockLocatorsPerMsg < count + count2 + 2) then inr TooMany
  else inl (PutUint32 (gb_ProtocolVersion msg) ++ WriteVarInt count ++ concat (gb_TxBlockLocatorHashes msg) ++ gb_TxHashStop msg ++
            WriteVarInt count2 ++ concat (gb_MinerBlockLocatorHashes msg) ++ gb_MinerHashStop msg).

Definition MaxBlockHeadersPerMsg : Z := 2000.
Definition headers_OmcDecode : reader (list BlockHeader) :=
  read_counted MaxBlockHeadersPerMsg (bh ← readBlockHeader; n ← ReadVarInt; if decide (0 < n) then rfail TooMany else mret bh).
Definition headers_OmcEncode (l : list BlockHeader) : list Z + wire_err :=
  if decide (MaxBlockHeadersPerMsg < len l) then inr TooMany
  else inl (WriteVarInt (len l) ++ (l ≫= fun bh => writeBlockHeader bh ++ WriteVarInt 0)).

Record MsgMerkleBlock := MkMerkleBlock { mk_Header : BlockHeader; mk_Transactions : Z; mk_Hashes : list (list Z); mk_Flags : list Z }.
Definition maxFlagsPerMerkleBlock : Z := MaxTxPerBlock / 8.
Definition merkleblock_OmcDecode (pver : Z) : reader MsgMerkleBlock :=
  if decide (pver < BIP0037Version) then rfail BadVersion
  else
    h ← readBlockHeader; t ← ReadUint32; l ← read_counted MaxTxPerBlock ReadHash; f ← ReadVarBytes maxFlagsPerMerkleBlock;
    mret (MkMerkleBlock h t l f).
Definition merkleblock_OmcEncode (pver : Z) (msg : MsgMerkleBlock) : list Z + wire_err :=
  if decide (pver < BIP0037Version) then inr BadVersion
  else if decide (MaxTxPerBlock < len (mk_Hashes msg)) then inr TooMany
  else if decide (maxFlagsPerMerkleBlock < len (mk_Flags msg)) then inr TooLong
  else inl (writeBlockHeader (mk_Header msg) ++ PutUint32 (mk_Transactions msg) ++ WriteVarInt (len (mk_Hashes msg)) ++ concat (mk_Hashes msg) ++
            WriteVarBytes (mk_Flags msg)).

(** ** Version *)

Definition MaxUserAgentLen : Z := 256.
Record MsgVersion := MkVersion {
  ver_ProtocolVersion : Z;
  ver_Services : Z;
  ver_Timestamp : Z;
  ver_AddrYou : NetAddress;
  ver_AddrMe : NetAddress;
  ver_Nonce : Z;
  ver_UserAgent : list Z;
  ver_LastBlock : Z;
  ver_LastMinerBlock : Z;
  ver_DisableRelayTx : bool;
  ver_RpcPort : list Z;
}.
Definition no_address : NetAddress := MkNetAddress zero_time 0 [] 0.
Definition default_port : list Z := [0x38; 0x37; 0x38; 0x39].

(** A field that is read only while bytes are left. *)
Definition if_more {A} (m : reader A) (a : A) : reader A := n ← Len; if decide (0 < n) then m else mret a.

Definition version_OmcDecode (pver : Z) : reader MsgVersion :=
  v ← ReadInt32;
  s ← ReadElement EServiceFlag;
  t ← ReadElement EInt64Time;
  you ← readNetAddress pver false;
  me ← if_more (readNetAddress pver false) no_address;
  nonce ← if_more Uint64 0;
  agent ← if_more (a ← ReadVarString; if decide (MaxUserAgentLen < len a) then rfail TooLong else mret a) [];
  last ← if_more (a ← ReadInt32; b ← ReadInt32; mret (a, b)) (0, 0);
  disable ← if_more (rcatch Uint8 (fun b => mret (bool_decide (b = 0))) true) false;
  rcatch ReadVarString (fun port => mret (MkVersion v s t you me nonce agent last.1 last.2 disable port))
    (MkVersion v s t you me nonce agent last.1 last.2 disable default_port).
Definition version_OmcEncode (pver : Z) (msg : MsgVersion) : list Z + wire_err :=
  if decide (MaxUserAgentLen < len (ver_UserAgent msg)) then inr TooLong
  else inl (PutInt32 (ver_ProtocolVersion msg) ++ PutUint64 (ver_Services msg) ++ PutUint64 (u64 (ver_Timestamp msg)) ++
            writeNetAddress pver false (ver_AddrYou msg) ++ writeNetAddress pver false (ver_AddrMe msg) ++ PutUint64 (ver_Nonce msg) ++
            WriteVarString (ver_UserAgent msg) ++ PutInt32 (ver_LastBlock msg) ++ PutInt32 (ver_LastMinerBlock msg) ++
            PutUint8 (if ver_DisableRelayTx msg then 0 else 1) ++ WriteVarBytes (ver_RpcPort msg)).

(** ** Short messages *)

Record MsgPing := MkPing { ping_Nonce : Z; ping_Height : Z }.
Definition ping_OmcDecode : reader MsgPing := n ← Uint64; h ← ReadInt32; mret (MkPing n h).
Definition ping_OmcEncode (msg : MsgPing) : list Z := PutUint64 (ping_Nonce msg) ++ PutInt32 (ping_Height msg).

Definition pong_OmcDecode (pver : Z) : reader Z := if decide (pver <= BIP0031Version) then rfail BadVersion else Uint64.
Definition pong_OmcEncode (pver nonce : Z) : list Z + wire_err := if decide (pver <= BIP0031Version) then inr BadVersion else inl (PutUint64 nonce).

(** Messages without a body, from the version [min] on. *)
Definition empty_OmcDecode (min pver : Z) : reader unit := if decide (pver < min) then rfail BadVersion else mret ().
Definition empty_OmcEncode (min pver : Z) : list Z + wire_err := if decide (pver < min) then inr BadVersion else inl [].

Definition feefilter_OmcDecode (pver : Z) : reader Z := if decide (pver < FeeFilterVersion) then rfail BadVersion else ReadElement EInt64.
Definition feefilter_OmcEncode (pver fee : Z) : list Z + wire_err := if decide (pver < FeeFilterVersion) then inr BadVersion else inl (PutUint64 (u64 fee)).

Definition cmd_block : list Z := [0x62; 0x6c; 0x6f; 0x63; 0x6b].
Definition cmd_tx : list Z := [0x74; 0x78].
Record MsgReject := MkReject { rej_Cmd : list Z; rej_Code : Z; rej_Reason : list Z; rej_Hash : list Z }.
Definition reject_OmcDecode (pver : Z) : reader MsgReject :=
  if decide (pver < RejectVersion) then rfail BadVersion
  else
    c ← ReadVarString; code ← Uint8; reason ← ReadVarString;
    h ← (if decide (c = cmd_block \/ c = cmd_tx) then ReadHash else mret zero_hash);
    mret (MkReject c code reason h).
Definition reject_OmcEncode (pver : Z) (msg : MsgReject) : list Z + wire_err :=
  if decide (pver < RejectVersion) then inr BadVersion
  else inl (WriteVarString (rej_Cmd msg) ++ PutUint8 (rej_Code msg) ++ WriteVarString (rej_Reason msg) ++
            (if decide (rej_Cmd msg = cmd_block \/ rej_Cmd msg = cmd_tx) then rej_Hash msg else [])).

(** ** Bloom filters and committed filters *)

Definition MaxFilterAddDataSize : Z := 520.
Definition filteradd_OmcDecode (pver : Z) : reader (list Z) :=
  if decide (pver < BIP0037Version) then rfail BadVersion else ReadVarBytes MaxFilterAddDataSize.
Definition filteradd_OmcEncode (pver : Z) (data : list Z) : list Z + wire_err :=
  if decide (pver < BIP0037Version) then inr BadVersion
  else if decide (MaxFilterAddDataSize < len data) then inr TooLong else inl (WriteVarBytes data).

Definition MaxFilterLoadHashFuncs : Z := 50.
Definition MaxFilterLoadFilterSize : Z := 36000.
Record MsgFilterLoad := MkFilterLoad { fl_Filter : list Z; fl_HashFuncs : Z; fl_Tweak : Z; fl_Flags : Z }.
Definition filterload_OmcDecode (pver : Z) : reader MsgFilterLoad :=
  if decide (pver < BIP0037Version) then rfail BadVersion
  else
    f ← ReadVarBytes MaxFilterLoadFilterSize; n ← ReadUint32; t ← ReadUint32; g ← Uint8;
    if decide (MaxFilterLoadHashFuncs < n) then rfail TooMany else mret (MkFilterLoad f n t g).
Definition filterload_OmcEncode (pver : Z) (msg : MsgFilterLoad) : list Z + wire_err :=
  if decide (pver < BIP0037Version) then inr BadVersion
  else if decide (MaxFilterLoadFilterSize < len (fl_Filter msg)) then inr TooLong
  else if decide (MaxFilterLoadHashFuncs < fl_HashFuncs msg) then inr TooMany
  else inl (WriteVarBytes (fl_Filter msg) ++ PutUint32 (fl_HashFuncs msg) ++ PutUint32 (fl_Tweak msg) ++ PutUint8 (fl_Flags msg)).

(** [MsgGetCFilters] and [MsgGetCFHeaders] *)
Record MsgGetCFilters := MkGetCFilters { gcf_FilterType : Z; gcf_StartHeight : Z; gcf_StopHash : list Z }.
Definition getcfilters_OmcDecode : reader MsgGetCFilters := t ← Uint8; s ← ReadUint32; h ← ReadHash; mret (MkGetCFilters t s h).
Definition getcfilters_OmcEncode (msg : MsgGetCFilters) : list Z :=
  PutUint8 (gcf_FilterType msg) ++ PutUint32 (gcf_StartHeight msg) ++ gcf_StopHash msg.

Record MsgGetCFCheckpt := MkGetCFCheckpt { gcc_FilterType : Z; gcc_StopHash : list Z }.
Definition getcfcheckpt_OmcDecode : reader MsgGetCFCheckpt := t ← Uint8; h ← ReadHash; mret (MkGetCFCheckpt t h).
Definition getcfcheckpt_OmcEncode (msg : MsgGetCFCheckpt) : list Z := PutUint8 (gcc_FilterType msg) ++ gcc_StopHash msg.

Definition MaxCFilterDataSize : Z := 256 * 1024.
Record MsgCFilter := MkCFilter { cf_FilterType : Z; cf_BlockHash : list Z; cf_Data : list Z }.
Definition cfilter_OmcDecode : reader MsgCFilter := t ← Uint8; h ← ReadHash; d ← ReadVarBytes MaxCFilterDataSize; mret (MkCFilter t h d).
Definition cfilter_OmcEncode (msg : MsgCFilter) : list Z + wire_err :=
  if decide (MaxCFilterDataSize < len (cf_Data msg)) then inr TooLong
  else inl (PutUint8 (cf_FilterType msg) ++ cf_BlockHash msg ++ WriteVarBytes (cf_Data msg)).

Definition MaxCFHeadersPerMsg : Z := 2000.
Record MsgCFHeaders := MkCFHeaders { cfh_FilterType : Z; cfh_StopHash : list Z; cfh_PrevFilterHeader : list Z; cfh_FilterHashes : list (list Z) }.
Definition cfheaders_OmcDecode : reader MsgCFHeaders :=
  t ← Uint8; h ← ReadHash; p ← ReadHash; l ← read_counted MaxCFHeadersPerMsg ReadHash; mret (MkCFHeaders t h p l).
Definition cfheaders_OmcEncode (msg : MsgCFHeaders) : list Z + wire_err :=
  if decide (MaxCFHeadersPerMsg < len (cfh_FilterHashes msg)) then inr TooMany
  else inl (PutUint8 (cfh_FilterType msg) ++ cfh_StopHash msg ++ cfh_PrevFilterHeader msg ++ WriteVarInt (len (cfh_FilterHashes msg)) ++
            concat (cfh_FilterHashes msg)).

Definition maxCFHeadersLen : Z := 100000.
Record MsgCFCheckpt := MkCFCheckpt { cfc_FilterType : Z; cfc_StopHash : list Z; cfc_FilterHeaders : list (list Z) }.
Definition cfcheckpt_OmcDecode : reader MsgCFCheckpt :=
  t ← Uint8; h ← ReadHash; l ← read_counted maxCFHeadersLen ReadHash; mret (MkCFCheckpt t h l).
Definition cfcheckpt_OmcEncode (msg : MsgCFCheckpt) : list Z :=
  PutUint8 (cfc_FilterType msg) ++ cfc_StopHash msg ++ WriteVarInt (len (cfc_FilterHeaders msg)) ++ concat (cfc_FilterHeaders msg).

(** ** Round trips *)

(** Counts and lengths below the limits of messages are 64-bit numbers. *)
Ltac in_range := unfold MaxInvPerMsg, MaxAddrPerMsg, MaxBlockLocatorsPerMsg, MaxBlockHeadersPerMsg, MaxUserAgentLen, MaxFilterAddDataSize,
  MaxFilterLoadHashFuncs, MaxFilterLoadFilterSize, MaxCFilterDataSize, MaxCFHeadersPerMsg, maxCFHeadersLen, maxFlagsPerMerkleBlock, MaxStringPayload in *;
  pose proof MaxTxPerBlock_value; unfold uint_range, sint_range in *; lia.

Lemma reads_hashes_counted max l : len l <= max -> len l < 2 ^ 64 -> Forall is_hash l -> reads (read_counted max ReadHash) (WriteVarInt (len l) ++ concat l) l.
Proof. intros Hm H64 Hl. apply reads_counted; [done|unfold uint_range; lia|by apply reads_hash_list]. Qed.

Lemma reads_VarString s : len s <= MaxStringPayload -> reads ReadVarString (WriteVarString s) s.
Proof. intros H. apply reads_VarBytes; [done|in_range]. Qed.
#[export] Hint Resolve reads_VarString : reads.

Definition inv_ok (l : list InvVect) : Prop := len l <= MaxInvPerMsg /\ Forall (fun iv => uint_range 32 (inv_Type iv) /\ is_hash (inv_Hash iv)) l.
Lemma reads_inv l : inv_ok l -> exists b, inv_OmcEncode l = inl b /\ reads inv_OmcDecode b l.
Proof.
  intros [Hn Hl]. unfold inv_OmcEncode. rewrite decide_False by lia. eexists; split; [done|]. apply reads_counted; [done|in_range|].
  apply reads_n. eapply Forall_impl; [exact Hl|]. intros [t h] [Ht Hh]. unfold readInvVect, writeInvVect. cbn in *.
  eapply reads_bind; [by apply reads_Uint32|]. reads_seq.
Qed.

(** An address of version 4 is read back as the mapped address; without a time stamp the
    zero time is read. *)
Definition address_ok (pver : Z) (ts : bool) (na : NetAddress) : Prop :=
  uint_range 64 (na_Services na) /\ uint_range 16 (na_Port na) /\ length (na_IP na) = 16%nat /\
  (if decide (ts = true /\ NetAddressTimeVersion <= pver) then uint_range 32 (na_Timestamp na) else na_Timestamp na = zero_time).
Lemma reads_address pver ts na : address_ok pver ts na -> reads (readNetAddress pver ts) (writeNetAddress pver ts na) na.
Proof.
  intros (Hs & Hp & Hi & Ht). unfold readNetAddress, writeNetAddress. destruct na as [t s ip p]. cbn [na_Timestamp na_Services na_IP na_Port] in *.
  apply reads_bind with t.
  { case_decide; [by apply reads_Time|]. subst. apply reads_ret. }
  eapply reads_bind; [by apply reads_Uint64|].
  assert (let ip' := To16 ip in ip' ++ replicate (16 - length ip') 0 = ip) as ->.
  { unfold To16. rewrite decide_False by lia. rewrite decide_True by done. cbn zeta. rewrite Hi. cbn. apply app_nil_r. }
  eapply reads_bind; [by apply reads_full|]. eapply reads_bind_ret; [apply reads_full; done|]. rewrite rev_involutive.
  replace (le_value (PutUint16 p)) with p; [apply reads_ret|]. unfold PutUint16. rewrite le_value_le_bytes, Z.mod_small; [done|exact Hp].
Qed.
#[export] Hint Resolve reads_address : reads.

Definition addr_ok (pver : Z) (l : list NetAddress) : Prop :=
  len l <= (if decide (pver < MultipleAddressVersion) then 1 else MaxAddrPerMsg) /\ Forall (address_ok pver true) l.
Lemma reads_addr pver l : addr_ok pver l -> exists b, addr_OmcEncode pver l = inl b /\ reads (addr_OmcDecode pver) b l.
Proof.
  intros [Hn Hl]. unfold addr_OmcEncode. assert (len l <= MaxAddrPerMsg) by (case_decide; in_range).
  rewrite decide_False by (case_decide; lia). rewrite decide_False by lia. eexists; split; [done|]. apply reads_counted; [done|in_range|].
  apply reads_n. eapply Forall_impl; [exact Hl|]. intros na. apply reads_address.
Qed.

Definition getheaders_ok (msg : MsgGetHeaders) : Prop :=
  uint_range 32 (gh_ProtocolVersion msg) /\ Forall is_hash (gh_BlockLocatorHashes msg) /\ is_hash (gh_HashStop msg) /\
  len (gh_BlockLocatorHashes msg) <= MaxBlockLocatorsPerMsg.
Lemma reads_getheaders msg : getheaders_ok msg -> exists b, getheaders_OmcEncode msg = inl b /\ reads getheaders_OmcDecode b msg.
Proof.
  intros (Hv & Hl & Hs & Hn). unfold getheaders_OmcEncode. rewrite decide_False by lia. eexists; split; [done|]. unfold getheaders_OmcDecode.
  destruct msg; cbn in *. eapply reads_bind; [by apply reads_ReadUint32|]. rewrite app_assoc. eapply reads_bind; [apply reads_hashes_counted; [done|in_range|done]|].
  reads_seq.
Qed.

Definition getblocks_ok (msg : MsgGetBlocks) : Prop :=
  uint_range 32 (gb_ProtocolVersion msg) /\ Forall is_hash (gb_TxBlockLocatorHashes msg) /\ is_hash (gb_TxHashStop msg) /\
  Forall is_hash (gb_MinerBlockLocatorHashes msg) /\ is_hash (gb_MinerHashStop msg) /\
  len (gb_TxBlockLocatorHashes msg) + len (gb_MinerBlockLocatorHashes msg) + 2 <= MaxBlockLocatorsPerMsg.
Lemma reads_getblocks msg : getblocks_ok msg -> exists b, getblocks_OmcEncode msg = inl b /\ reads getblocks_OmcDecode b msg.
Proof.
  intros (Hv & Hl & Hs & Hl2 & Hs2 & Hn). unfold getblocks_OmcEncode. cbn zeta. rewrite !decide_False by lia. eexists; split; [done|].
  unfold getblocks_OmcDecode. destruct msg as [v l s l2 s2]; cbn in *. unfold MaxBlockLocatorsPerMsg in *. eapply reads_bind; [by apply reads_ReadUint32|].
  eapply reads_bind; [apply reads_VarInt; in_range|]. rewrite decide_False by (rewrite uwrap_id by in_range; lia).
  rewrite <- (app_nil_l (concat l ++ _)). apply (reads_bind _ _ [] _ ()); [apply make_reads; unfold make_ok; lia|]. rewrite Nat2Z.id.
  eapply reads_bind; [by apply reads_hash_list|]. eapply reads_bind; [by apply reads_ReadHash|].
  eapply reads_bind; [apply reads_VarInt; in_range|]. rewrite decide_False by (rewrite uwrap_id by in_range; lia).
  rewrite <- (app_nil_l (concat l2 ++ _)). apply (reads_bind _ _ [] _ ()); [apply make_reads; unfold make_ok; lia|]. rewrite Nat2Z.id.
  eapply reads_bind; [by apply reads_hash_list|]. reads_seq.
Qed.

Definition headers_ok (l : list BlockHeader) : Prop := len l <= MaxBlockHeadersPerMsg /\ Forall header_ok l.
Lemma reads_headers l : headers_ok l -> exists b, headers_OmcEncode l = inl b /\ reads headers_OmcDecode b l.
Proof.
  intros [Hn Hl]. unfold headers_OmcEncode. rewrite decide_False by lia. eexists; split; [done|]. apply reads_counted; [done|in_range|].
  apply reads_n. eapply Forall_impl; [exact Hl|]. intros h Hh. cbn beta. eapply reads_bind; [by apply reads_header|].
  eapply reads_bind_ret; [by apply reads_VarInt|]. rewrite decide_False by lia. apply reads_ret.
Qed.

Definition merkleblock_ok (msg : MsgMerkleBlock) : Prop :=
  header_ok (mk_Header msg) /\ uint_range 32 (mk_Transactions msg) /\ Forall is_hash (mk_Hashes msg) /\ len (mk_Hashes msg) <= MaxTxPerBlock /\
  len (mk_Flags msg) <= maxFlagsPerMerkleBlock.
Lemma reads_merkleblock pver msg : BIP0037Version <= pver -> merkleblock_ok msg ->
  exists b, merkleblock_OmcEncode pver msg = inl b /\ reads (merkleblock_OmcDecode pver) b msg.
Proof.
  intros Hv (Hh & Ht & Hl & Hn & Hf). unfold merkleblock_OmcEncode, merkleblock_OmcDecode. rewrite !decide_False by lia. eexists; split; [done|].
  destruct msg; cbn in *. assert (maxFlagsPerMerkleBlock = 625000) as Ef by reflexivity. eapply reads_bind; [by apply reads_header|]. eapply reads_bind; [by apply reads_ReadUint32|].
  rewrite app_assoc. eapply reads_bind; [apply reads_hashes_counted; [done|in_range|done]|].
  eapply reads_bind_ret; [apply reads_VarBytes; lia|apply reads_ret].
Qed.

(** A field that is there is read. *)
Lemma reads_more {A} (m : reader A) d b a : b <> [] -> reads m b a -> reads (if_more m d) b a.
Proof.
  intros Hb Hm r. unfold if_more. unfold mbind at 1, reader_bind, Len at 1. rewrite decide_True; [apply Hm|].
  rewrite length_app. destruct b; [done|cbn; lia].
Qed.

Lemma reads_Int64Time v : sint_range 64 v -> reads (ReadElement EInt64Time) (PutUint64 (u64 v)) v.
Proof. apply reads_Int64. Qed.
#[export] Hint Resolve reads_Int64Time : reads.

Record version_ok (pver : Z) (msg : MsgVersion) : Prop := MkVersionOk {
  vo_numbers : sint_range 32 (ver_ProtocolVersion msg) /\ uint_range 64 (ver_Services msg) /\ sint_range 64 (ver_Timestamp msg);
  vo_you : address_ok pver false (ver_AddrYou msg);
  vo_me : address_ok pver false (ver_AddrMe msg);
  vo_nonce : uint_range 64 (ver_Nonce msg);
  vo_agent : len (ver_UserAgent msg) <= MaxUserAgentLen;
  vo_last : sint_range 32 (ver_LastBlock msg) /\ sint_range 32 (ver_LastMinerBlock msg);
  vo_port : len (ver_RpcPort msg) <= MaxStringPayload;
}.

Lemma PutUint_app_nonempty n v b : le_bytes (S n) v ++ b <> [].
Proof. done. Qed.

Lemma reads_version pver msg : version_ok pver msg -> exists b, version_OmcEncode pver msg = inl b /\ reads (version_OmcDecode pver) b msg.
Proof.
  intros [(H1 & H2 & H3) H4 H5 H6 H7 [H8 H9] H10]. unfold version_OmcEncode. rewrite decide_False by lia. eexists; split; [done|].
  unfold version_OmcDecode. destruct msg as [v s t you me nonce agent last lastm dis port]; cbn [ver_ProtocolVersion ver_Services ver_Timestamp ver_AddrYou
    ver_AddrMe ver_Nonce ver_UserAgent ver_LastBlock ver_LastMinerBlock ver_DisableRelayTx ver_RpcPort] in *.
  eapply reads_bind; [by apply reads_ReadInt32|]. eapply reads_bind; [by apply reads_Uint64|]. eapply reads_bind; [by apply reads_Int64Time|].
  eapply reads_bind; [by apply reads_address|]. eapply reads_bind; [apply reads_more; [|by apply reads_address]|].
  { unfold writeNetAddress. rewrite decide_False by naive_solver. done. }
  eapply reads_bind; [apply reads_more; [done|by apply reads_Uint64]|].
  eapply reads_bind.
  { apply reads_more; [unfold WriteVarString, WriteVarInt; repeat case_decide; done|].
    eapply reads_bind_ret; [apply reads_VarString; in_range|]. rewrite decide_False by lia. apply reads_ret. }
  rewrite app_assoc. eapply reads_bind; [apply reads_more; [done|reads_seq]|].
  eapply reads_bind; [apply reads_more; [done|]|].
  { rewrite <- (app_nil_r (PutUint8 _)). eapply reads_catch; [apply reads_Uint8; destruct dis; done|].
    replace (bool_decide ((if dis then 0 else 1) = 0)) with dis by (by destruct dis). apply reads_ret. }
  cbn [fst snd]. rewrite <- (app_nil_r (WriteVarBytes _)). eapply reads_catch; [by apply reads_VarString|]. apply reads_ret.
Qed.

Definition ping_ok (msg : MsgPing) : Prop := uint_range 64 (ping_Nonce msg) /\ sint_range 32 (ping_Height msg).
Lemma reads_ping msg : ping_ok msg -> reads ping_OmcDecode (ping_OmcEncode msg) msg.
Proof. intros [H1 H2]. unfold ping_OmcDecode, ping_OmcEncode. destruct msg; cbn in *. reads_seq. Qed.

Lemma reads_pong pver n : BIP0031Version < pver -> uint_range 64 n -> exists b, pong_OmcEncode pver n = inl b /\ reads (pong_OmcDecode pver) b n.
Proof. intros Hv Hn. unfold pong_OmcEncode, pong_OmcDecode. rewrite !decide_False by lia. eexists; split; [done|by apply reads_Uint64]. Qed.

Lemma reads_empty min pver : min <= pver -> exists b, empty_OmcEncode min pver = inl b /\ reads (empty_OmcDecode min pver) b ().
Proof. intros Hv. unfold empty_OmcEncode, empty_OmcDecode. rewrite !decide_False by lia. eexists; split; [done|apply reads_ret]. Qed.

Lemma reads_feefilter pver n : FeeFilterVersion <= pver -> sint_range 64 n -> exists b, feefilter_OmcEncode pver n = inl b /\ reads (feefilter_OmcDecode pver) b n.
Proof. intros Hv Hn. unfold feefilter_OmcEncode, feefilter_OmcDecode. rewrite !decide_False by lia. eexists; split; [done|by apply reads_Int64]. Qed.

Definition reject_ok (msg : MsgReject) : Prop :=
  len (rej_Cmd msg) <= MaxStringPayload /\ uint_range 8 (rej_Code msg) /\ len (rej_Reason msg) <= MaxStringPayload /\
  (if decide (rej_Cmd msg = cmd_block \/ rej_Cmd msg = cmd_tx) then is_hash (rej_Hash msg) else rej_Hash msg = zero_hash).
Lemma reads_reject pver msg : RejectVersion <= pver -> reject_ok msg -> exists b, reject_OmcEncode pver msg = inl b /\ reads (reject_OmcDecode pver) b msg.
Proof.
  intros Hv (H1 & H2 & H3 & H4). unfold reject_OmcEncode, reject_OmcDecode. rewrite !(decide_False (P := pver < _)) by lia. eexists; split; [done|].
  destruct msg as [c code reason h]; cbn [rej_Cmd rej_Code rej_Reason rej_Hash] in *. do 3 (eapply reads_bind; [solve [eauto with reads]|]).
  case_decide; eapply reads_bind_ret; try apply reads_ret; [by apply reads_ReadHash|]. subst. apply reads_ret.
Qed.

Lemma reads_filteradd pver d : BIP0037Version <= pver -> len d <= MaxFilterAddDataSize ->
  exists b, filteradd_OmcEncode pver d = inl b /\ reads (filteradd_OmcDecode pver) b d.
Proof. intros Hv Hn. unfold filteradd_OmcEncode, filteradd_OmcDecode. rewrite !decide_False by lia. eexists; split; [done|]. apply reads_VarBytes; in_range. Qed.

Definition filterload_ok (msg : MsgFilterLoad) : Prop :=
  len (fl_Filter msg) <= MaxFilterLoadFilterSize /\ 0 <= fl_HashFuncs msg <= MaxFilterLoadHashFuncs /\ uint_range 32 (fl_Tweak msg) /\ uint_range 8 (fl_Flags msg).
Lemma reads_filterload pver msg : BIP0037Version <= pver -> filterload_ok msg ->
  exists b, filterload_OmcEncode pver msg = inl b /\ reads (filterload_OmcDecode pver) b msg.
Proof.
  intros Hv (H1 & H2 & H3 & H4). unfold filterload_OmcEncode, filterload_OmcDecode. rewrite !(decide_False (P := pver < _)) by lia.
  rewrite !decide_False by lia. eexists; split; [done|]. destruct msg; cbn in *. eapply reads_bind; [apply reads_VarBytes; in_range|].
  eapply reads_bind; [apply reads_ReadUint32; in_range|]. eapply reads_bind; [by apply reads_ReadUint32|].
  eapply reads_bind_ret; [by apply reads_Uint8|]. rewrite decide_False by lia. apply reads_ret.
Qed.

Definition getcfilters_ok (msg : MsgGetCFilters) : Prop := uint_range 8 (gcf_FilterType msg) /\ uint_range 32 (gcf_StartHeight msg) /\ is_hash (gcf_StopHash msg).
Lemma reads_getcfilters msg : getcfilters_ok msg -> reads getcfilters_OmcDecode (getcfilters_OmcEncode msg) msg.
Proof. intros (H1 & H2 & H3). unfold getcfilters_OmcDecode, getcfilters_OmcEncode. destruct msg; cbn in *. reads_seq. Qed.

Definition getcfcheckpt_ok (msg : MsgGetCFCheckpt) : Prop := uint_range 8 (gcc_FilterType msg) /\ is_hash (gcc_StopHash msg).
Lemma reads_getcfcheckpt msg : getcfcheckpt_ok msg -> reads getcfcheckpt_OmcDecode (getcfcheckpt_OmcEncode msg) msg.
Proof. intros (H1 & H2). unfold getcfcheckpt_OmcDecode, getcfcheckpt_OmcEncode. destruct msg; cbn in *. reads_seq. Qed.

Definition cfilter_ok (msg : MsgCFilter) : Prop := uint_range 8 (cf_FilterType msg) /\ is_hash (cf_BlockHash msg) /\ len (cf_Data msg) <= MaxCFilterDataSize.
Lemma reads_cfilter msg : cfilter_ok msg -> exists b, cfilter_OmcEncode msg = inl b /\ reads cfilter_OmcDecode b msg.
Proof.
  intros (H1 & H2 & H3). unfold cfilter_OmcEncode, cfilter_OmcDecode. rewrite decide_False by lia. eexists; split; [done|]. destruct msg; cbn in *.
  do 2 (eapply reads_bind; [solve [eauto with reads]|]). eapply reads_bind_ret; [apply reads_VarBytes; in_range|apply reads_ret].
Qed.

Definition cfheaders_ok (msg : MsgCFHeaders) : Prop :=
  uint_range 8 (cfh_FilterType msg) /\ is_hash (cfh_StopHash msg) /\ is_hash (cfh_PrevFilterHeader msg) /\ Forall is_hash (cfh_FilterHashes msg) /\
  len (cfh_FilterHashes msg) <= MaxCFHeadersPerMsg.
Lemma reads_cfheaders msg : cfheaders_ok msg -> exists b, cfheaders_OmcEncode msg = inl b /\ reads cfheaders_OmcDecode b msg.
Proof.
  intros (H1 & H2 & H3 & H4 & H5). unfold cfheaders_OmcEncode, cfheaders_OmcDecode. rewrite decide_False by lia. eexists; split; [done|]. destruct msg; cbn in *.
  do 3 (eapply reads_bind; [solve [eauto with reads]|]). eapply reads_bind_ret; [apply reads_hashes_counted; [done|in_range|done]|apply reads_ret].
Qed.

Definition cfcheckpt_ok (msg : MsgCFCheckpt) : Prop :=
  uint_range 8 (cfc_FilterType msg) /\ is_hash (cfc_StopHash msg) /\ Forall is_hash (cfc_FilterHeaders msg) /\ len (cfc_FilterHeaders msg) <= maxCFHeadersLen.
Lemma reads_cfcheckpt msg : cfcheckpt_ok msg -> reads cfcheckpt_OmcDecode (cfcheckpt_OmcEncode msg) msg.
Proof.
  intros (H1 & H2 & H3 & H4). unfold cfcheckpt_OmcEncode, cfcheckpt_OmcDecode. destruct msg; cbn in *.
  do 2 (eapply reads_bind; [solve [eauto with reads]|]). eapply reads_bind_ret; [apply reads_hashes_counted; [done|in_range|done]|apply reads_ret].
Qed.
