(* ===== verification/WireConsensus.v ===== *)
(** * Alerts and the messages of the consensus protocol

    Models btcd/wire/msgalert.go, msginvitation.go, msgfinalized.go and the messages that the
    members of a committee exchange: msgknowledge.go, msgcandidate.go, msgconsensus.go,
    msgrelease.go, msgsignatures.go and msgpull.go. *)
From Stdlib Require Import ZArith Znumtheory Lia.
From stdpp Require Import gmap list.
From S2P Require Import Prelude Wire Token MsgTx MsgBlock WireMsgs.

Open Scope Z_scope.

(** ** Alerts *)

Definition maxAlertSize : Z := MaxMessagePayload - 72 - 9 - 1.
Definition maxCountSetCancel : Z := (maxAlertSize - 45 - 9 + 1) / 4.
Definition maxCountSetSubVer : Z := (maxAlertSize - 45 - 9 + 1) / 256.

Record Alert := MkAlert {
  al_Version : Z;
  al_RelayUntil : Z;
  al_Expiration : Z;
  al_ID : Z;
  al_Cancel : Z;
  al_SetCancel : list Z;
  al_MinVer : Z;
  al_MaxVer : Z;
  al_SetSubVer : list (list Z);
  al_Priority : Z;
  al_Comment : list Z;
  al_StatusBar : list Z;
  al_Reserved : list Z;
}.

Definition alert_Serialize (a : Alert) : list Z + wire_err :=
  if decide (maxCountSetCancel < len (al_SetCancel a)) then inr TooMany
  else if decide (maxCountSetSubVer < len (al_SetSubVer a)) then inr TooMany
  else inl (PutInt32 (al_Version a) ++ PutUint64 (u64 (al_RelayUntil a)) ++ PutUint64 (u64 (al_Expiration a)) ++ PutInt32 (al_ID a) ++
            PutInt32 (al_Cancel a) ++ WriteVarInt (len (al_SetCancel a)) ++ (al_SetCancel a ≫= PutInt32) ++ PutInt32 (al_MinVer a) ++
            PutInt32 (al_MaxVer a) ++ WriteVarInt (len (al_SetSubVer a)) ++ (al_SetSubVer a ≫= WriteVarString) ++ PutInt32 (al_Priority a) ++
            WriteVarString (al_Comment a) ++ WriteVarString (al_StatusBar a) ++ WriteVarString (al_Reserved a)).

Definition alert_Deserialize : reader Alert :=
  v ← ReadInt32; ru ← ReadElement EInt64; ex ← ReadElement EInt64; id ← ReadInt32; cancel ← ReadInt32;
  sc ← read_counted maxCountSetCancel ReadInt32;
  minv ← ReadInt32; maxv ← ReadInt32;
  sv ← read_counted maxCountSetSubVer ReadVarString;
  p ← ReadInt32; c ← ReadVarString; b ← ReadVarString; x ← ReadVarString;
  mret (MkAlert v ru ex id cancel sc minv maxv sv p c b x).

Record MsgAlert := MkMsgAlert { ma_SerializedPayload : list Z; ma_Signature : list Z; ma_Payload : option Alert }.

(** A payload that cannot be read is left out. *)
Definition NewAlertFromPayload (b : list Z) : outcome (option Alert) :=
  r ← alert_Deserialize b; Ok (match r with inl (a, _) => Some a | inr _ => None end).
Definition alert_OmcDecode : reader MsgAlert :=
  b ← ReadVarBytes MaxMessagePayload; p ← rlift (NewAlertFromPayload b); s ← ReadVarBytes MaxMessagePayload; mret (MkMsgAlert b s p).

Definition alert_payload (msg : MsgAlert) : list Z :=
  match ma_Payload msg with
  | None => ma_SerializedPayload msg
  | Some a => match alert_Serialize a with inl b => b | inr _ => ma_SerializedPayload msg end
  end.
Definition alert_OmcEncode (msg : MsgAlert) : list Z + wire_err :=
  let b := alert_payload msg in
  if decide (b = []) then inr BadFormat else inl (WriteVarBytes b ++ WriteVarBytes (ma_Signature msg)).

(** ** Finality and invitations *)

Record MsgFinalized := MkFinalized { fin_ChainId : Z; fin_Block : list Z }.
Definition finalized_OmcDecode : reader MsgFinalized := c ← ReadUint32; b ← ReadHash; mret (MkFinalized c b).
Definition finalized_OmcEncode (msg : MsgFinalized) : list Z := PutUint32 (fin_ChainId msg) ++ fin_Block msg.

Record MsgReFinal := MkReFinal { rf_ChainId : Z; rf_Block : list Z; rf_ETA : Z }.
Definition refinal_OmcDecode : reader MsgReFinal := c ← ReadUint32; b ← ReadHash; e ← ReadInt32; mret (MkReFinal c b e).
Definition refinal_OmcEncode (msg : MsgReFinal) : list Z := PutUint32 (rf_ChainId msg) ++ rf_Block msg ++ PutInt32 (rf_ETA msg).

Record Invitation := MkInvitation { iv_Height : Z; iv_Pubkey : list Z; iv_IP : list Z }.
Definition invitation_Serialize (m : Invitation) : list Z := WriteVarInt (u64 (iv_Height m)) ++ iv_Pubkey m ++ WriteVarBytes (iv_IP m).

(** The caller does not look at the error: what has been read stays. *)
Definition invitation_Deserialize : reader Invitation :=
  rcatch ReadVarInt (fun h =>
    rcatch (ReadFull 33) (fun pk => rcatch (ReadVarBytes 1024) (fun ip => mret (MkInvitation (i32 h) pk ip)) (MkInvitation (i32 h) pk []))
      (MkInvitation (i32 h) (replicate 33 0) []))
    (MkInvitation 0 (replicate 33 0) []).

Record MsgInvitation := MkMsgInvitation { mi_Expire : Z; mi_To : list Z; mi_Encrypt : bool; mi_Sig : list Z; mi_Msg : list Z }.

(** The address is passed by value to the reader, which refuses it. *)
Definition msginvitation_OmcDecode : reader MsgInvitation := _ ← ReadVarInt; rfail InvalidType.
Definition msginvitation_OmcEncode (msg : MsgInvitation) : list Z :=
  WriteVarInt (mi_Expire msg) ++ mi_To msg ++ PutUint8 (if mi_Encrypt msg then 1 else 0) ++ WriteVarBytes (mi_Sig msg) ++ WriteVarBytes (mi_Msg msg).

Record MsgAckInvitation := MkAckInvitation { ack_Invitation : Invitation; ack_Sig : list Z }.
Definition ack_OmcDecode : reader MsgAckInvitation := i ← invitation_Deserialize; s ← ReadVarBytes 1024; mret (MkAckInvitation i s).
Definition ack_OmcEncode (msg : MsgAckInvitation) : list Z := invitation_Serialize (ack_Invitation msg) ++ WriteVarBytes (ack_Sig msg).

(** ** The signature at the end of a message *)

Definition ReadAddress : reader (list Z) := ReadFull 20.

(** A sequence number whose error is not looked at. *)
Definition read_seq : reader Z := rcatch ReadInt32 mret 0.

(** Without a signature the sequence number is not read. *)
Definition read_signature : reader (list Z * Z) :=
  rcatch ReadUint32 (fun ln => if decide (ln = 0) then mret ([], 0) else s ← ReadFull (Z.to_nat ln); q ← read_seq; mret (s, q)) ([], 0).

Definition signed (enc : Z) : Prop := enc = SignatureEncoding \/ enc = FullEncoding.
Global Instance signed_dec enc : Decision (signed enc).
Proof. unfold signed. apply _. Defined.
Definition write_signature (enc : Z) (s : list Z) (q : Z) : list Z := if decide (signed enc) then PutUint32 (u32 (len s)) ++ s ++ PutInt32 q else [].

(** ** The messages *)

Record MsgCandidate := MkCandidate { cd_Height : Z; cd_F : list Z; cd_M : list Z; cd_Signature : list Z; cd_Seq : Z }.
Definition candidate_OmcDecode : reader MsgCandidate :=
  h ← ReadInt32; f ← ReadAddress; m ← ReadHash; ln ← ReadUint32;
  if decide (ln = 0) then q ← read_seq; mret (MkCandidate h f m [] q)
  else s ← ReadFull (Z.to_nat ln); q ← read_seq; mret (MkCandidate h f m s q).
Definition candidate_OmcEncode (enc : Z) (msg : MsgCandidate) : list Z :=
  PutInt32 (cd_Height msg) ++ cd_F msg ++ cd_M msg ++ write_signature enc (cd_Signature msg) (cd_Seq msg).

Record MsgCandidateResp := MkCandidateResp {
  cr_Height : Z; cr_Reply : list Z; cr_K : list Z; cr_Better : Z; cr_From : list Z; cr_M : list Z; cr_Signature : list Z; cr_Seq : Z }.
Definition candidateresp_OmcDecode : reader MsgCandidateResp :=
  h ← ReadInt32; rp ← ReadElement EChecksum; f ← ReadAddress; m ← ReadHash; b ← ReadInt32;
  l ← ReadVarInt;
  _ ← rlift (make 8 l);
  k ← read_n (Z.to_nat (i64 l)) (n ← ReadVarInt; mret (i64 n));
  '(s, q) ← read_signature;
  mret (MkCandidateResp h rp k b f m s q).
Definition candidateresp_OmcEncode (enc : Z) (msg : MsgCandidateResp) : list Z :=
  PutInt32 (cr_Height msg) ++ (take 4 (cr_Reply msg) ++ replicate (4 - length (cr_Reply msg)) 0) ++ cr_From msg ++ cr_M msg ++ PutInt32 (cr_Better msg) ++
  WriteVarInt (len (cr_K msg)) ++ (cr_K msg ≫= fun k => WriteVarInt (u64 k)) ++ write_signature enc (cr_Signature msg) (cr_Seq msg).

Record MsgConsensus := MkConsensus { cs_Height : Z; cs_From : list Z; cs_M : list Z; cs_Signature : list Z; cs_Seq : Z }.
Definition consensus_OmcDecode : reader MsgConsensus :=
  h ← ReadInt32; f ← ReadAddress; m ← ReadHash; '(s, q) ← read_signature; mret (MkConsensus h f m s q).
Definition consensus_OmcEncode (enc : Z) (msg : MsgConsensus) : list Z :=
  PutInt32 (cs_Height msg) ++ cs_From msg ++ cs_M msg ++ write_signature enc (cs_Signature msg) (cs_Seq msg).

Record MsgSignature := MkSignature { sg_Consensus : MsgConsensus; sg_For : list Z }.
Definition signature_OmcDecode : reader MsgSignature :=
  h ← ReadInt32; f ← ReadAddress; m ← ReadHash; t ← ReadAddress; '(s, q) ← read_signature; mret (MkSignature (MkConsensus h f m s q) t).
Definition signature_OmcEncode (enc : Z) (msg : MsgSignature) : list Z :=
  let c := sg_Consensus msg in
  PutInt32 (cs_Height c) ++ cs_From c ++ cs_M c ++ sg_For msg ++ write_signature enc (cs_Signature c) (cs_Seq c).

Record MsgRelease := MkRelease { rl_Height : Z; rl_From : list Z; rl_Better : Z; rl_M : list Z; rl_Signature : list Z; rl_Seq : Z }.
Definition release_OmcDecode : reader MsgRelease :=
  h ← ReadInt32; f ← ReadAddress; b ← ReadInt32; m ← ReadHash; '(s, q) ← read_signature; mret (MkRelease h f b m s q).
Definition release_OmcEncode (enc : Z) (msg : MsgRelease) : list Z :=
  PutInt32 (rl_Height msg) ++ rl_From msg ++ PutInt32 (rl_Better msg) ++ rl_M msg ++ write_signature enc (rl_Signature msg) (rl_Seq msg).

Record MsgPull := MkPull { pl_Height : Z; pl_M : list Z; pl_Seq : Z }.
Definition pull_OmcDecode : reader MsgPull := h ← ReadInt32; m ← ReadHash; q ← read_seq; mret (MkPull h m q).
Definition pull_OmcEncode (enc : Z) (msg : MsgPull) : list Z :=
  PutInt32 (pl_Height msg) ++ pl_M msg ++ (if decide (signed enc) then PutInt32 (pl_Seq msg) else []).

(** A list of byte strings with 32-bit lengths; a negative length makes [make] panic. *)
Definition read_strings : reader (list (list Z)) :=
  ns ← ReadInt32;
  _ ← rlift (make 24 ns);
  read_n (Z.to_nat ns) (sn ← ReadInt32; _ ← rlift (make 1 sn); ReadFull (Z.to_nat sn)).
Definition write_strings (l : list (list Z)) : list Z := PutInt32 (i32 (len l)) ++ (l ≫= fun s => PutInt32 (i32 (len s)) ++ s).

Record MsgKnowledge := MkKnowledge {
  kn_Height : Z; kn_K : list Z; kn_M : list Z; kn_Finder : list Z; kn_From : list Z; kn_Signatures : list (list Z); kn_Seq : Z }.
Definition knowledge_OmcDecode : reader MsgKnowledge :=
  h ← ReadInt32;
  k ← ReadVarInt;
  _ ← rlift (make 4 k);
  ks ← read_n (Z.to_nat (i64 k)) (p ← ReadVarInt; mret (i32 p));
  m ← ReadHash; fi ← ReadAddress; fr ← ReadAddress; sigs ← read_strings; q ← read_seq;
  mret (MkKnowledge h ks m fi fr sigs q).
Definition knowledge_OmcEncode (enc : Z) (msg : MsgKnowledge) : list Z :=
  PutInt32 (kn_Height msg) ++ WriteVarInt (len (kn_K msg)) ++ (kn_K msg ≫= fun p => WriteVarInt (u64 p)) ++ kn_M msg ++ kn_Finder msg ++ kn_From msg ++
  write_strings (kn_Signatures msg) ++ (if decide (signed enc) then PutInt32 (kn_Seq msg) else []).

(** The signature of the last member; a message without members panics. *)
Definition knowledge_GetSignature (msg : MsgKnowledge) : outcome (list Z) := slice_get (kn_Signatures msg) (len (kn_K msg) - 1).

Record MsgSignatures := MkSignatures { ss_Hash : list Z; ss_Signatures : list (list Z) }.
Definition signatures_OmcDecode : reader MsgSignatures := h ← ReadHash; l ← read_strings; mret (MkSignatures h l).
Definition signatures_OmcEncode (msg : MsgSignatures) : list Z := ss_Hash msg ++ write_strings (ss_Signatures msg).

(** ** Round trips *)

Definition is_address (a : list Z) : Prop := length a = 20%nat.
Lemma reads_ReadAddress a : is_address a -> reads ReadAddress a a.
Proof. apply reads_full. Qed.

Lemma reads_seq_field q : sint_range 32 q -> reads read_seq (PutInt32 q) q.
Proof. intros H. rewrite <- (app_nil_r (PutInt32 q)). eapply reads_catch; [by apply reads_ReadInt32|apply reads_ret]. Qed.

(** Without a signature a message has no sequence number. *)
Definition sig_ok (s : list Z) (q : Z) : Prop := 0 < len s < 2 ^ 32 /\ sint_range 32 q.
Lemma reads_signature enc s q : signed enc -> sig_ok s q -> reads read_signature (write_signature enc s q) (s, q).
Proof.
  intros He [Hs Hq]. unfold read_signature, write_signature. rewrite decide_True by done. rewrite uwrap_id by (unfold uint_range; lia).
  eapply reads_catch; [apply reads_ReadUint32; unfold uint_range; lia|]. rewrite decide_False by lia. rewrite Nat2Z.id.
  eapply reads_bind; [by apply reads_full|]. eapply reads_bind_ret; [by apply reads_seq_field|apply reads_ret].
Qed.
#[export] Hint Resolve reads_ReadAddress reads_seq_field reads_signature : reads.

Definition candidate_ok (msg : MsgCandidate) : Prop :=
  sint_range 32 (cd_Height msg) /\ is_address (cd_F msg) /\ is_hash (cd_M msg) /\ len (cd_Signature msg) < 2 ^ 32 /\ sint_range 32 (cd_Seq msg).
Lemma reads_candidate enc msg : signed enc -> candidate_ok msg -> reads candidate_OmcDecode (candidate_OmcEncode enc msg) msg.
Proof.
  intros He (H1 & H2 & H3 & H4 & H5). unfold candidate_OmcDecode, candidate_OmcEncode, write_signature. rewrite decide_True by done.
  destruct msg as [h f m s q]; cbn in *. do 3 (eapply reads_bind; [solve [eauto with reads]|]). rewrite uwrap_id by (unfold uint_range; lia).
  eapply reads_bind; [apply reads_ReadUint32; unfold uint_range; lia|]. case_decide as E.
  - destruct s; [|cbn in E; lia]. eapply reads_bind_ret; [by apply reads_seq_field|apply reads_ret].
  - rewrite Nat2Z.id. eapply reads_bind; [by apply reads_full|]. eapply reads_bind_ret; [by apply reads_seq_field|apply reads_ret].
Qed.

(** A signed number passes through a 64-bit one. *)
Lemma swrap_u64 w v : 0 < w <= 64 -> sint_range w v -> swrap w (u64 v) = v.
Proof.
  intros Hw Hv. rewrite (swrap_cong w (u64 v) v); [apply swrap_id; [lia|done]|lia|]. unfold uwrap. symmetry.
  apply Znumtheory.Zmod_div_mod; [lia|lia|]. exists (2 ^ (64 - w)). rewrite <- Z.pow_add_r by lia. f_equal; lia.
Qed.

Definition candidateresp_ok (msg : MsgCandidateResp) : Prop :=
  sint_range 32 (cr_Height msg) /\ length (cr_Reply msg) = 4%nat /\ is_address (cr_From msg) /\ is_hash (cr_M msg) /\ sint_range 32 (cr_Better msg) /\
  len (cr_K msg) * 8 <= 2 ^ 48 /\ Forall (sint_range 64) (cr_K msg) /\ sig_ok (cr_Signature msg) (cr_Seq msg).
Lemma reads_candidateresp enc msg : signed enc -> candidateresp_ok msg -> reads candidateresp_OmcDecode (candidateresp_OmcEncode enc msg) msg.
Proof.
  intros He (H1 & H2 & H3 & H4 & H5 & H6 & H7 & H8). unfold candidateresp_OmcDecode, candidateresp_OmcEncode. destruct msg as [h rp k b f m s q].
  cbn [cr_Height cr_Reply cr_K cr_Better cr_From cr_M cr_Signature cr_Seq] in *. eapply reads_bind; [by apply reads_ReadInt32|].
  eapply reads_bind; [apply reads_full; rewrite length_app, length_take, length_replicate; lia|].
  replace (take 4 rp ++ replicate (4 - length rp) 0) with rp by (rewrite H2, take_ge by lia; by rewrite app_nil_r).
  do 3 (eapply reads_bind; [solve [eauto with reads]|]). eapply reads_bind; [apply reads_VarInt; unfold uint_range; lia|].
  apply (reads_bind _ _ [] _ ()); [apply make_reads; unfold make_ok; lia|]. rewrite swrap_id by (unfold sint_range; lia). rewrite Nat2Z.id.
  eapply reads_bind; [|eapply reads_bind_ret; [by apply reads_signature|apply reads_ret]].
  apply reads_n. eapply Forall_impl; [exact H7|]. intros x Hx. cbn beta. eapply reads_bind_ret; [apply reads_VarInt, uwrap_range; lia|].
  rewrite swrap_u64 by done. apply reads_ret.
Qed.

Definition consensus_ok (msg : MsgConsensus) : Prop :=
  sint_range 32 (cs_Height msg) /\ is_address (cs_From msg) /\ is_hash (cs_M msg) /\ sig_ok (cs_Signature msg) (cs_Seq msg).
Lemma reads_consensus enc msg : signed enc -> consensus_ok msg -> reads consensus_OmcDecode (consensus_OmcEncode enc msg) msg.
Proof.
  intros He (H1 & H2 & H3 & H4). unfold consensus_OmcDecode, consensus_OmcEncode. destruct msg; cbn in *.
  do 3 (eapply reads_bind; [solve [eauto with reads]|]). eapply reads_bind_ret; [by apply reads_signature|apply reads_ret].
Qed.

Lemma reads_signature_message enc msg : signed enc -> consensus_ok (sg_Consensus msg) -> is_address (sg_For msg) ->
  reads signature_OmcDecode (signature_OmcEncode enc msg) msg.
Proof.
  intros He (H1 & H2 & H3 & H4) H5. unfold signature_OmcDecode, signature_OmcEncode. destruct msg as [[h f m s q] t]; cbn in *.
  do 4 (eapply reads_bind; [solve [eauto with reads]|]). eapply reads_bind_ret; [by apply reads_signature|apply reads_ret].
Qed.

Definition release_ok (msg : MsgRelease) : Prop :=
  sint_range 32 (rl_Height msg) /\ is_address (rl_From msg) /\ sint_range 32 (rl_Better msg) /\ is_hash (rl_M msg) /\ sig_ok (rl_Signature msg) (rl_Seq msg).
Lemma reads_release enc msg : signed enc -> release_ok msg -> reads release_OmcDecode (release_OmcEncode enc msg) msg.
Proof.
  intros He (H1 & H2 & H3 & H4 & H5). unfold release_OmcDecode, release_OmcEncode. destruct msg; cbn in *.
  do 4 (eapply reads_bind; [solve [eauto with reads]|]). eapply reads_bind_ret; [by apply reads_signature|apply reads_ret].
Qed.

Definition pull_ok (msg : MsgPull) : Prop := sint_range 32 (pl_Height msg) /\ is_hash (pl_M msg) /\ sint_range 32 (pl_Seq msg).
Lemma reads_pull enc msg : signed enc -> pull_ok msg -> reads pull_OmcDecode (pull_OmcEncode enc msg) msg.
Proof.
  intros He (H1 & H2 & H3). unfold pull_OmcDecode, pull_OmcEncode. rewrite decide_True by done. destruct msg; cbn in *.
  do 2 (eapply reads_bind; [solve [eauto with reads]|]). eapply reads_bind_ret; [by apply reads_seq_field|apply reads_ret].
Qed.

Definition strings_ok (l : list (list Z)) : Prop := len l < 2 ^ 31 /\ Forall (fun s => len s < 2 ^ 31) l.
Lemma reads_strings l : strings_ok l -> reads read_strings (write_strings l) l.
Proof.
  intros [Hn Hl]. unfold read_strings, write_strings. rewrite (swrap_id 32 (len l)) by (unfold sint_range; lia).
  eapply reads_bind; [apply reads_ReadInt32; unfold sint_range; lia|].
  apply (reads_bind _ _ [] _ ()); [apply make_reads; unfold make_ok; lia|]. rewrite Nat2Z.id. apply reads_n. eapply Forall_impl; [exact Hl|].
  intros s Hs. cbn beta in *. rewrite swrap_id by (unfold sint_range; lia). eapply reads_bind; [apply reads_ReadInt32; unfold sint_range; lia|].
  apply (reads_bind _ _ [] _ ()); [apply make_reads; unfold make_ok; lia|]. rewrite Nat2Z.id. by apply reads_full.
Qed.

Definition knowledge_ok (msg : MsgKnowledge) : Prop :=
  sint_range 32 (kn_Height msg) /\ len (kn_K msg) * 4 <= 2 ^ 48 /\ Forall (sint_range 32) (kn_K msg) /\ is_hash (kn_M msg) /\ is_address (kn_Finder msg) /\
  is_address (kn_From msg) /\ strings_ok (kn_Signatures msg) /\ sint_range 32 (kn_Seq msg).
Lemma reads_knowledge enc msg : signed enc -> knowledge_ok msg -> reads knowledge_OmcDecode (knowledge_OmcEncode enc msg) msg.
Proof.
  intros He (H1 & H2 & H3 & H4 & H5 & H6 & H7 & H8). unfold knowledge_OmcDecode, knowledge_OmcEncode. rewrite decide_True by done.
  destruct msg; cbn [kn_Height kn_K kn_M kn_Finder kn_From kn_Signatures kn_Seq] in *. eapply reads_bind; [by apply reads_ReadInt32|].
  eapply reads_bind; [apply reads_VarInt; unfold uint_range; lia|]. apply (reads_bind _ _ [] _ ()); [apply make_reads; unfold make_ok; lia|].
  rewrite swrap_id by (unfold sint_range; lia). rewrite Nat2Z.id. eapply reads_bind.
  { apply reads_n. eapply Forall_impl; [exact H3|]. intros x Hx. cbn beta. eapply reads_bind_ret; [apply reads_VarInt, uwrap_range; lia|].
    rewrite swrap_u64 by done. apply reads_ret. }
  do 3 (eapply reads_bind; [solve [eauto with reads]|]). eapply reads_bind; [by apply reads_strings|].
  eapply reads_bind_ret; [by apply reads_seq_field|apply reads_ret].
Qed.

Lemma reads_signatures msg : is_hash (ss_Hash msg) -> strings_ok (ss_Signatures msg) -> reads signatures_OmcDecode (signatures_OmcEncode msg) msg.
Proof.
  intros H1 H2. unfold signatures_OmcDecode, signatures_OmcEncode. destruct msg; cbn in *. eapply reads_bind; [by apply reads_ReadHash|].
  eapply reads_bind_ret; [by apply reads_strings|apply reads_ret].
Qed.

Definition finalized_ok (msg : MsgFinalized) : Prop := uint_range 32 (fin_ChainId msg) /\ is_hash (fin_Block msg).
Lemma reads_finalized msg : finalized_ok msg -> reads finalized_OmcDecode (finalized_OmcEncode msg) msg.
Proof. intros (H1 & H2). unfold finalized_OmcDecode, finalized_OmcEncode. destruct msg; cbn in *. reads_seq. Qed.

Definition refinal_ok (msg : MsgReFinal) : Prop := uint_range 32 (rf_ChainId msg) /\ is_hash (rf_Block msg) /\ sint_range 32 (rf_ETA msg).
Lemma reads_refinal msg : refinal_ok msg -> reads refinal_OmcDecode (refinal_OmcEncode msg) msg.
Proof. intros (H1 & H2 & H3). unfold refinal_OmcDecode, refinal_OmcEncode. destruct msg; cbn in *. reads_seq. Qed.

Definition ack_ok (msg : MsgAckInvitation) : Prop :=
  let i := ack_Invitation msg in
  sint_range 32 (iv_Height i) /\ length (iv_Pubkey i) = 33%nat /\ len (iv_IP i) <= 1024 /\ len (ack_Sig msg) <= 1024.
Lemma reads_ack msg : ack_ok msg -> reads ack_OmcDecode (ack_OmcEncode msg) msg.
Proof.
  intros (H1 & H2 & H3 & H4). unfold ack_OmcDecode, ack_OmcEncode. destruct msg as [[h pk ip] s]; cbn in *.
  eapply reads_bind; [|eapply reads_bind_ret; [apply reads_VarBytes; lia|apply reads_ret]].
  unfold invitation_Deserialize, invitation_Serialize. cbn. eapply reads_catch; [apply reads_VarInt, uwrap_range; lia|]. rewrite swrap_u64 by (lia || done).
  eapply reads_catch; [by apply reads_full|]. rewrite <- (app_nil_r (WriteVarBytes ip)). eapply reads_catch; [apply reads_VarBytes; lia|apply reads_ret].
Qed.

Record alert_ok (a : Alert) : Prop := MkAlertOk {
  ao_numbers : sint_range 32 (al_Version a) /\ sint_range 64 (al_RelayUntil a) /\ sint_range 64 (al_Expiration a) /\ sint_range 32 (al_ID a) /\
    sint_range 32 (al_Cancel a) /\ sint_range 32 (al_MinVer a) /\ sint_range 32 (al_MaxVer a) /\ sint_range 32 (al_Priority a);
  ao_cancel : len (al_SetCancel a) <= maxCountSetCancel /\ Forall (sint_range 32) (al_SetCancel a);
  ao_subver : len (al_SetSubVer a) <= maxCountSetSubVer /\ Forall (fun s => len s <= MaxStringPayload) (al_SetSubVer a);
  ao_strings : len (al_Comment a) <= MaxStringPayload /\ len (al_StatusBar a) <= MaxStringPayload /\ len (al_Reserved a) <= MaxStringPayload;
}.

Lemma alert_limits : maxCountSetCancel = 16777182 /\ maxCountSetSubVer = 262143.
Proof. split; reflexivity. Qed.

Lemma reads_alert a : alert_ok a -> exists b, alert_Serialize a = inl b /\ b <> [] /\ reads alert_Deserialize b a.
Proof.
  intros [(H1 & H2 & H3 & H4 & H5 & H6 & H7 & H8) [H9 H10] [H11 H12] (H13 & H14 & H15)]. pose proof alert_limits as [L1 L2].
  unfold alert_Serialize. rewrite !decide_False by lia. eexists; split; [done|]. split; [done|]. unfold alert_Deserialize.
  destruct a; cbn [al_Version al_RelayUntil al_Expiration al_ID al_Cancel al_SetCancel al_MinVer al_MaxVer al_SetSubVer al_Priority al_Comment al_StatusBar
    al_Reserved] in *.
  do 5 (eapply reads_bind; [solve [eauto with reads]|]). rewrite (app_assoc (WriteVarInt _)).
  eapply reads_bind; [apply reads_counted; [done|unfold uint_range; lia|apply reads_n; eapply Forall_impl; [exact H10|]; intros x; apply reads_ReadInt32]|].
  do 2 (eapply reads_bind; [solve [eauto with reads]|]). rewrite (app_assoc (WriteVarInt _)).
  eapply reads_bind; [apply reads_counted; [done|unfold uint_range; lia|apply reads_n; eapply Forall_impl; [exact H12|]; intros x; apply reads_VarString]|].
  do 3 (eapply reads_bind; [solve [eauto with reads]|]). eapply reads_bind_ret; [by apply reads_VarString|apply reads_ret].
Qed.

(** An alert whose payload is its serialized form. *)
Definition msgalert_ok (msg : MsgAlert) : Prop :=
  exists a, ma_Payload msg = Some a /\ alert_ok a /\ alert_Serialize a = inl (ma_SerializedPayload msg) /\
    len (ma_SerializedPayload msg) <= MaxMessagePayload /\ len (ma_Signature msg) <= MaxMessagePayload.
Lemma reads_msgalert msg : msgalert_ok msg -> exists b, alert_OmcEncode msg = inl b /\ reads alert_OmcDecode b msg.
Proof.
  intros (a & E & Ha & Es & H1 & H2). destruct (reads_alert a Ha) as (b & Eb & Hb & Hr). rewrite Es in Eb. injection Eb as <-. pose proof limit_values as (_ & _ & _ & Lm & _).
  unfold alert_OmcEncode, alert_payload. rewrite E, Es. cbn zeta. rewrite decide_False by done. eexists; split; [done|]. unfold alert_OmcDecode.
  eapply reads_bind; [apply reads_VarBytes; lia|]. rewrite <- (app_nil_l (WriteVarBytes _)).
  apply (reads_bind _ _ [] _ (Some a)).
  { apply reads_lift. unfold NewAlertFromPayload. specialize (Hr []). rewrite app_nil_r in Hr. by rewrite Hr. }
  eapply reads_bind_ret; [apply reads_VarBytes; lia|]. destruct msg; cbn in *. subst. apply reads_ret.
Qed.

(** ** What the members of a committee sign

    The digest of a message is the hash of its base encoding: it does not depend on the
    signature or the sequence number, and it fixes the other fields. *)
Section Digest.
Context (DoubleHashB : list Z -> list Z).
Definition candidate_DoubleHashB (msg : MsgCandidate) : list Z := DoubleHashB (candidate_OmcEncode BaseEncoding msg).
Definition candidateresp_DoubleHashB (msg : MsgCandidateResp) : list Z := DoubleHashB (candidateresp_OmcEncode BaseEncoding msg).
Definition consensus_DoubleHashB (msg : MsgConsensus) : list Z := DoubleHashB (consensus_OmcEncode BaseEncoding msg).
Definition signature_DoubleHashB (msg : MsgSignature) : list Z := DoubleHashB (signature_OmcEncode BaseEncoding msg).
Definition release_DoubleHashB (msg : MsgRelease) : list Z := DoubleHashB (release_OmcEncode BaseEncoding msg).
Definition knowledge_DoubleHashB (msg : MsgKnowledge) : list Z := DoubleHashB (knowledge_OmcEncode BaseEncoding msg).
End Digest.
