(* ===== verification/WireMessage.v ===== *)
(** * Messages on the wire

    Models btcd/wire/message.go: the commands and the messages they name, the header with
    magic, command, length and checksum, and the functions that write and read a message.
    The double hash is a parameter; a writer never refuses. *)
From Stdlib Require Import ZArith Lia Ascii String.
From stdpp Require Import gmap list.
From S2P Require Import Prelude Wire Token MsgTx MsgBlock WireMsgs WireConsensus.

Open Scope Z_scope.

(** ** Messages *)

Inductive message :=
  | MVersion (m : MsgVersion)
  | MVerAck
  | MGetAddr
  | MAddr (l : list NetAddress)
  | MInvitation (m : MsgInvitation)
  | MAckInvitation (m : MsgAckInvitation)
  | MGetBlocks (m : MsgGetBlocks)
  | MGetMinerBlocks (m : MsgGetHeaders)
  | MBlock (m : MsgBlock)
  | MMinerBlock (m : MingingRightBlock)
  | MInv (l : list InvVect)
  | MGetData (l : list InvVect)
  | MNotFound (l : list InvVect)
  | MTx (m : MsgTx)
  | MPing (m : MsgPing)
  | MPong (nonce : Z)
  | MGetHeaders (m : MsgGetHeaders)
  | MHeaders (l : list BlockHeader)
  | MAlert (m : MsgAlert)
  | MFinalized (m : MsgFinalized)
  | MFinal (m : MsgReFinal)
  | MMemPool
  | MFilterAdd (data : list Z)
  | MFilterClear
  | MFilterLoad (m : MsgFilterLoad)
  | MReject (m : MsgReject)
  | MSendHeaders
  | MFeeFilter (fee : Z)
  | MGetCFilters (m : MsgGetCFilters)
  | MGetCFHeaders (m : MsgGetCFilters)
  | MGetCFCheckpt (m : MsgGetCFCheckpt)
  | MCFilter (m : MsgCFilter)
  | MCFHeaders (m : MsgCFHeaders)
  | MCFCheckpt (m : MsgCFCheckpt)
  | MMerkleBlock (m : MsgMerkleBlock)
  | MKnowledge (m : MsgKnowledge)
  | MCandidate (m : MsgCandidate)
  | MRelease (m : MsgRelease)
  | MConsensus (m : MsgConsensus)
  | MCandidateReply (m : MsgCandidateResp)
  | MSignatures (m : MsgSignatures)
  | MSignature (m : MsgSignature)
  | MPull (m : MsgPull).

Definition Command (m : message) : list Z :=
  str match m with
  | MVersion _ => "version" | MVerAck => "verack" | MGetAddr => "getaddr" | MAddr _ => "addr" | MInvitation _ => "invitation"
  | MAckInvitation _ => "avkinvite" | MGetBlocks _ => "getblocks" | MGetMinerBlocks _ => "getminerblks" | MBlock _ => "block"
  | MMinerBlock _ => "minerblock" | MInv _ => "inv" | MGetData _ => "getdata" | MNotFound _ => "notfound" | MTx _ => "tx"
  | MPing _ => "ping" | MPong _ => "pong" | MGetHeaders _ => "getheaders" | MHeaders _ => "headers" | MAlert _ => "alert"
  | MFinalized _ => "finalized" | MFinal _ => "final" | MMemPool => "mempool" | MFilterAdd _ => "filteradd" | MFilterClear => "filterclear"
  | MFilterLoad _ => "filterload" | MReject _ => "reject" | MSendHeaders => "sendheaders" | MFeeFilter _ => "feefilter"
  | MGetCFilters _ => "getcfilters" | MGetCFHeaders _ => "getcfheaders" | MGetCFCheckpt _ => "getcfcheckpt" | MCFilter _ => "cfilter"
  | MCFHeaders _ => "cfheaders" | MCFCheckpt _ => "cfcheckpt" | MMerkleBlock _ => "merkleblock" | MKnowledge _ => "knowledge"
  | MCandidate _ => "candidate" | MRelease _ => "release" | MConsensus _ => "consensus" | MCandidateReply _ => "candidReply"
  | MSignatures _ => "signatures" | MSignature _ => "signature" | MPull _ => "pull"
  end%string.

(** ** Sizes *)

Definition MaxVarIntPayload : Z := 9.
Definition maxInvVectPayload : Z := 36.
Definition MaxBlockHeaderPayload : Z := 24 + 32 * 2.
Definition MaxMinerBlockHeaderPayload : Z := 5000.
Definition maxNetAddressPayload (pver : Z) : Z := if decide (NetAddressTimeVersion <= pver) then 26 + 4 else 26.

(** The limit depends on the command only. *)
Definition MaxPayloadLength (pver : Z) (m : message) : Z :=
  match m with
  | MVersion _ => 46 + maxNetAddressPayload pver * 2 + MaxVarIntPayload + MaxUserAgentLen
  | MVerAck | MGetAddr | MMemPool | MFilterClear | MSendHeaders => 0
  | MAddr _ => if decide (pver < MultipleAddressVersion) then MaxVarIntPayload + maxNetAddressPayload pver
               else MaxVarIntPayload + MaxAddrPerMsg * maxNetAddressPayload pver
  | MInvitation _ | MAckInvitation _ => 2048
  | MGetBlocks _ => 4 + 2 * MaxVarIntPayload + MaxBlockLocatorsPerMsg * 32 + 2 * 32
  | MGetMinerBlocks _ | MGetHeaders _ => 4 + MaxVarIntPayload + MaxBlockLocatorsPerMsg * 32 + 32
  | MBlock _ | MTx _ | MMerkleBlock _ => MaxBlockPayload
  | MMinerBlock _ => MaxMinerBlockHeaderPayload
  | MInv _ | MGetData _ | MNotFound _ => MaxVarIntPayload + MaxInvPerMsg * maxInvVectPayload
  | MPing _ => 12
  | MPong _ => if decide (BIP0031Version < pver) then 8 else 0
  | MHeaders _ => MaxVarIntPayload + (MaxBlockHeaderPayload + 1) * MaxBlockHeadersPerMsg
  | MFilterAdd _ => VarIntSerializeSize MaxFilterAddDataSize + MaxFilterAddDataSize
  | MFilterLoad _ => VarIntSerializeSize MaxFilterLoadFilterSize + MaxFilterLoadFilterSize + 9
  | MReject _ => if decide (RejectVersion <= pver) then MaxMessagePayload else 0
  | MFeeFilter _ => 8
  | MGetCFilters _ | MGetCFHeaders _ => 1 + 4 + 32
  | MGetCFCheckpt _ => 1 + 32
  | MCFilter _ => VarIntSerializeSize MaxCFilterDataSize + MaxCFilterDataSize + 32 + 1
  | MCFHeaders _ => 1 + 32 + 32 + MaxVarIntPayload + 32 * MaxCFHeadersPerMsg
  | MAlert _ | MFinalized _ | MFinal _ | MCFCheckpt _ | MKnowledge _ | MCandidate _ | MRelease _ | MConsensus _ | MCandidateReply _ | MSignatures _
  | MSignature _ | MPull _ => MaxMessagePayload
  end.

(** ** Encoding *)

Definition OmcEncode (pver enc : Z) (m : message) : outcome (list Z + wire_err) :=
  match m with
  | MVersion m => Ok (version_OmcEncode pver m)
  | MVerAck | MGetAddr => Ok (inl [])
  | MAddr l => Ok (addr_OmcEncode pver l)
  | MInvitation m => Ok (inl (msginvitation_OmcEncode m))
  | MAckInvitation m => Ok (inl (ack_OmcEncode m))
  | MGetBlocks m => Ok (getblocks_OmcEncode m)
  | MGetMinerBlocks m | MGetHeaders m => Ok (getheaders_OmcEncode m)
  | MBlock m => block_OmcEncode m enc
  | MMinerBlock m => Ok (inl (writeMinerBlock m))
  | MInv l | MGetData l | MNotFound l => Ok (inv_OmcEncode l)
  | MTx m => tx_OmcEncode m enc
  | MPing m => Ok (inl (ping_OmcEncode m))
  | MPong n => Ok (pong_OmcEncode pver n)
  | MHeaders l => Ok (headers_OmcEncode l)
  | MAlert m => Ok (alert_OmcEncode m)
  | MFinalized m => Ok (inl (finalized_OmcEncode m))
  | MFinal m => Ok (inl (refinal_OmcEncode m))
  | MMemPool => Ok (empty_OmcEncode BIP0035Version pver)
  | MFilterAdd d => Ok (filteradd_OmcEncode pver d)
  | MFilterClear => Ok (empty_OmcEncode BIP0037Version pver)
  | MFilterLoad m => Ok (filterload_OmcEncode pver m)
  | MReject m => Ok (reject_OmcEncode pver m)
  | MSendHeaders => Ok (empty_OmcEncode SendHeadersVersion pver)
  | MFeeFilter n => Ok (feefilter_OmcEncode pver n)
  | MGetCFilters m | MGetCFHeaders m => Ok (inl (getcfilters_OmcEncode m))
  | MGetCFCheckpt m => Ok (inl (getcfcheckpt_OmcEncode m))
  | MCFilter m => Ok (cfilter_OmcEncode m)
  | MCFHeaders m => Ok (cfheaders_OmcEncode m)
  | MCFCheckpt m => Ok (inl (cfcheckpt_OmcEncode m))
  | MMerkleBlock m => Ok (merkleblock_OmcEncode pver m)
  | MKnowledge m => Ok (inl (knowledge_OmcEncode enc m))
  | MCandidate m => Ok (inl (candidate_OmcEncode enc m))
  | MRelease m => Ok (inl (release_OmcEncode enc m))
  | MConsensus m => Ok (inl (consensus_OmcEncode enc m))
  | MCandidateReply m => Ok (inl (candidateresp_OmcEncode enc m))
  | MSignatures m => Ok (inl (signatures_OmcEncode m))
  | MSignature m => Ok (inl (signature_OmcEncode enc m))
  | MPull m => Ok (inl (pull_OmcEncode enc m))
  end.

(** ** Decoding *)

Definition rmap {A B} (f : A -> B) (m : reader A) : reader B := a ← m; mret (f a).

(** [makeEmptyMessage] and [OmcDecode] of the message it makes; the empty messages give the
    limits of the payload. *)
Definition decoders (pver : Z) : list (message * reader message) :=
  let gh0 := MkGetHeaders 0 [] [] in
  let na0 := no_address in
  let hdr0 := MkHeader 0 [] [] 0 0 0 in
  let cs0 := MkConsensus 0 [] [] [] 0 in
  let cf0 := MkGetCFilters 0 0 [] in
  [ (MVersion (MkVersion 0 0 0 na0 na0 0 [] 0 0 false []), rmap MVersion (version_OmcDecode pver));
    (MVerAck, mret MVerAck);
    (MGetAddr, mret MGetAddr);
    (MAddr [], rmap MAddr (addr_OmcDecode pver));
    (MInvitation (MkMsgInvitation 0 [] false [] []), rmap MInvitation msginvitation_OmcDecode);
    (MAckInvitation (MkAckInvitation (MkInvitation 0 [] []) []), rmap MAckInvitation ack_OmcDecode);
    (MGetBlocks (MkGetBlocks 0 [] [] [] []), rmap MGetBlocks getblocks_OmcDecode);
    (MGetMinerBlocks gh0, rmap MGetMinerBlocks getheaders_OmcDecode);
    (MBlock (MkBlock hdr0 []), rmap MBlock block_OmcDecode);
    (MMinerBlock (MkMinerBlock 0 [] [] 0 0 0 [] [] 0 0 None [] [] 0 []), rmap MMinerBlock readMinerBlock);
    (MInv [], rmap MInv inv_OmcDecode);
    (MGetData [], rmap MGetData inv_OmcDecode);
    (MNotFound [], rmap MNotFound inv_OmcDecode);
    (MTx (MkMsgTx 0 [] [] [] 0 []), rmap MTx tx_OmcDecode);
    (MPing (MkPing 0 0), rmap MPing ping_OmcDecode);
    (MPong 0, rmap MPong (pong_OmcDecode pver));
    (MGetHeaders gh0, rmap MGetHeaders getheaders_OmcDecode);
    (MHeaders [], rmap MHeaders headers_OmcDecode);
    (MAlert (MkMsgAlert [] [] None), rmap MAlert alert_OmcDecode);
    (MFinalized (MkFinalized 0 []), rmap MFinalized finalized_OmcDecode);
    (MFinal (MkReFinal 0 [] 0), rmap MFinal refinal_OmcDecode);
    (MMemPool, rmap (fun _ => MMemPool) (empty_OmcDecode BIP0035Version pver));
    (MFilterAdd [], rmap MFilterAdd (filteradd_OmcDecode pver));
    (MFilterClear, rmap (fun _ => MFilterClear) (empty_OmcDecode BIP0037Version pver));
    (MFilterLoad (MkFilterLoad [] 0 0 0), rmap MFilterLoad (filterload_OmcDecode pver));
    (MReject (MkReject [] 0 [] []), rmap MReject (reject_OmcDecode pver));
    (MSendHeaders, rmap (fun _ => MSendHeaders) (empty_OmcDecode SendHeadersVersion pver));
    (MFeeFilter 0, rmap MFeeFilter (feefilter_OmcDecode pver));
    (MGetCFilters cf0, rmap MGetCFilters getcfilters_OmcDecode);
    (MGetCFHeaders cf0, rmap MGetCFHeaders getcfilters_OmcDecode);
    (MGetCFCheckpt (MkGetCFCheckpt 0 []), rmap MGetCFCheckpt getcfcheckpt_OmcDecode);
    (MCFilter (MkCFilter 0 [] []), rmap MCFilter cfilter_OmcDecode);
    (MCFHeaders (MkCFHeaders 0 [] [] []), rmap MCFHeaders cfheaders_OmcDecode);
    (MCFCheckpt (MkCFCheckpt 0 [] []), rmap MCFCheckpt cfcheckpt_OmcDecode);
    (MMerkleBlock (MkMerkleBlock hdr0 0 [] []), rmap MMerkleBlock (merkleblock_OmcDecode pver));
    (MKnowledge (MkKnowledge 0 [] [] [] [] [] 0), rmap MKnowledge knowledge_OmcDecode);
    (MCandidate (MkCandidate 0 [] [] [] 0), rmap MCandidate candidate_OmcDecode);
    (MRelease (MkRelease 0 [] 0 [] [] 0), rmap MRelease release_OmcDecode);
    (MConsensus cs0, rmap MConsensus consensus_OmcDecode);
    (MCandidateReply (MkCandidateResp 0 [] [] 0 [] [] [] 0), rmap MCandidateReply candidateresp_OmcDecode);
    (MSignatures (MkSignatures [] []), rmap MSignatures signatures_OmcDecode);
    (MSignature (MkSignature cs0 []), rmap MSignature signature_OmcDecode);
    (MPull (MkPull 0 [] 0), rmap MPull pull_OmcDecode) ].

Definition makeEmptyMessage (pver : Z) (command : list Z) : option (message * reader message) :=
  snd <$> list_find (fun d => Command d.1 = command) (decoders pver).

(** ** The header *)

Definition CommandSize : nat := 12.
Definition MessageHeaderSize : nat := 24.

Record messageHeader := MkMsgHeader { mh_magic : Z; mh_command : list Z; mh_length : Z; mh_checksum : list Z }.

(** [bytes.TrimRight] of zeros. *)
Fixpoint trim_zeros (l : list Z) : list Z :=
  match l with [] => [] | x :: l => match trim_zeros l with [] => if decide (x = 0) then [] else [x] | l => x :: l end end.

Definition readMessageHeader : reader messageHeader := fun r =>
  match ReadFull MessageHeaderSize r with
  | Ok (inl (h, r)) =>
      match (m ← ReadUint32; c ← ReadElement ECommand; l ← ReadUint32; s ← ReadElement EChecksum; mret (MkMsgHeader m (trim_zeros c) l s) : reader _) h with
      | Ok (inl (hdr, _)) => Ok (inl (hdr, r))
      | Ok (inr (e, _)) => Ok (inr (e, r))
      | Panic => Panic
      | NoFuel => NoFuel
      end
  | Ok (inr e) => Ok (inr e)
  | Panic => Panic
  | NoFuel => NoFuel
  end.

(** Reads of a buffer of [size] bytes that look at no error, [n] times. *)
Fixpoint discard_loop (n : nat) (size : Z) : reader unit :=
  match n with O => mret () | S n => _ ← ReadOver (replicate (Z.to_nat size) 0); discard_loop n size end.
Definition discardInput (n : Z) : reader unit :=
  let maxSize := 10 * 1024 in
  let numReads := n / maxSize in
  let bytesRemaining := n mod maxSize in
  _ ← (if decide (0 < n) then discard_loop (Z.to_nat numReads) maxSize else mret ());
  if decide (0 < bytesRemaining) then discard_loop 1 bytesRemaining else mret ().

(** [utf8.ValidString] *)
Definition cont (b : Z) : bool := bool_decide (0x80 <= b <= 0xbf).
Fixpoint ValidString (s : list Z) : bool :=
  match s with
  | [] => true
  | b :: s1 =>
      if decide (b < 0x80) then ValidString s1
      else match s1 with
      | [] => false
      | b1 :: s2 =>
          if decide (0xc2 <= b <= 0xdf) then cont b1 && ValidString s2
          else match s2 with
          | [] => false
          | b2 :: s3 =>
              if decide (0xe0 <= b <= 0xef) then
                bool_decide ((if decide (b = 0xe0) then 0xa0 else 0x80) <= b1 <= (if decide (b = 0xed) then 0x9f else 0xbf)) && cont b2 && ValidString s3
              else match s3 with
              | [] => false
              | b3 :: s4 =>
                  bool_decide (0xf0 <= b <= 0xf4) &&
                  bool_decide ((if decide (b = 0xf0) then 0x90 else 0x80) <= b1 <= (if decide (b = 0xf4) then 0x8f else 0xbf)) &&
                  cont b2 && cont b3 && ValidString s4
              end
          end
      end
  end.

(** ** Writing and reading messages *)

Section Message.
Context (DoubleHashB : list Z -> list Z).

Definition checksum (payload : list Z) : outcome (list Z) := slice_sub (DoubleHashB payload) 0 4.

Definition WriteMessageWithEncodingN (msg : message) (pver btcnet enc : Z) : outcome (list Z + wire_err) :=
  let cmd := Command msg in
  if decide (CommandSize < length cmd)%nat then Ok (inr TooLong)
  else
    let command := cmd ++ replicate (CommandSize - length cmd) 0 in
    r ← OmcEncode pver enc msg;
    match r with
    | inr e => Ok (inr e)
    | inl payload =>
        let lenp := len payload in
        if decide (MaxMessagePayload < lenp) then Ok (inr TooLong)
        else if decide (MaxPayloadLength pver msg < u32 lenp) then Ok (inr TooLong)
        else c ← checksum payload; Ok (inl (PutUint32 btcnet ++ command ++ PutUint32 (u32 lenp) ++ c ++ payload))
    end.

Definition ReadMessageWithEncodingN (pver btcnet : Z) : reader (message * list Z) :=
  hdr ← readMessageHeader;
  if decide (MaxMessagePayload < mh_length hdr) then rfail TooLong
  else if decide (mh_magic hdr <> btcnet) then _ ← discardInput (mh_length hdr); rfail WrongNet
  else if negb (ValidString (mh_command hdr)) then _ ← discardInput (mh_length hdr); rfail BadFormat
  else match makeEmptyMessage pver (mh_command hdr) with
  | None => _ ← discardInput (mh_length hdr); rfail UnknownCommand
  | Some (msg, decode) =>
      if decide (MaxPayloadLength pver msg < mh_length hdr) then _ ← discardInput (mh_length hdr); rfail TooLong
      else
        payload ← ReadFull (Z.to_nat (mh_length hdr));
        c ← rlift (checksum payload);
        if decide (c <> mh_checksum hdr) then rfail BadChecksum
        else fun r =>
          match decode payload with
          | Ok (inl (msg, _)) => Ok (inl ((msg, payload), r))
          | Ok (inr (e, _)) => Ok (inr (e, r))
          | Panic => Panic
          | NoFuel => NoFuel
          end
  end.
End Message.

(** ** Round trip *)

(** The value is what the reader makes of the message: a transaction comes back with its
    definitions in canonical form. *)
Definition message_canonical (m : message) : message :=
  match m with MTx tx => MTx (tx_canonical tx) | MBlock b => MBlock (block_canonical b) | _ => m end.

(** Messages that their encoding keeps.  Transactions and blocks are sent with all their
    parts, the messages of the committee with their signature. *)
Definition message_ok (pver enc : Z) (m : message) : Prop :=
  match m with
  | MVersion m => version_ok pver m
  | MVerAck | MGetAddr => True
  | MAddr l => addr_ok pver l
  | MInvitation m => uint_range 32 (mi_Expire m)
  | MAckInvitation m => ack_ok m
  | MGetBlocks m => getblocks_ok m
  | MGetMinerBlocks m | MGetHeaders m => getheaders_ok m
  | MBlock m => enc = Z.lor SignatureEncoding FullEncoding /\ block_ok m
  | MMinerBlock m => miner_ok m
  | MInv l | MGetData l | MNotFound l => inv_ok l
  | MTx m => enc = Z.lor SignatureEncoding FullEncoding /\ tx_ok m
  | MPing m => ping_ok m
  | MPong n => BIP0031Version < pver /\ uint_range 64 n
  | MHeaders l => headers_ok l
  | MAlert m => msgalert_ok m
  | MFinalized m => finalized_ok m
  | MFinal m => refinal_ok m
  | MMemPool => BIP0035Version <= pver
  | MFilterAdd d => BIP0037Version <= pver /\ len d <= MaxFilterAddDataSize
  | MFilterClear => BIP0037Version <= pver
  | MFilterLoad m => BIP0037Version <= pver /\ filterload_ok m
  | MReject m => RejectVersion <= pver /\ reject_ok m
  | MSendHeaders => SendHeadersVersion <= pver
  | MFeeFilter n => FeeFilterVersion <= pver /\ sint_range 64 n
  | MGetCFilters m | MGetCFHeaders m => getcfilters_ok m
  | MGetCFCheckpt m => getcfcheckpt_ok m
  | MCFilter m => cfilter_ok m
  | MCFHeaders m => cfheaders_ok m
  | MCFCheckpt m => cfcheckpt_ok m
  | MMerkleBlock m => BIP0037Version <= pver /\ merkleblock_ok m
  | MKnowledge m => signed enc /\ knowledge_ok m
  | MCandidate m => signed enc /\ candidate_ok m
  | MRelease m => signed enc /\ release_ok m
  | MConsensus m => signed enc /\ consensus_ok m
  | MCandidateReply m => signed enc /\ candidateresp_ok m
  | MSignatures m => is_hash (ss_Hash m) /\ strings_ok (ss_Signatures m)
  | MSignature m => signed enc /\ consensus_ok (sg_Consensus m) /\ is_address (sg_For m)
  | MPull m => signed enc /\ pull_ok m
  end.

Lemma reads_map {A B} (f : A -> B) (m : reader A) b a : reads m b a -> reads (rmap f m) b (f a).
Proof. intros H. eapply reads_bind_ret; [exact H|apply reads_ret]. Qed.

Lemma commands_distinct pver : NoDup ((fun d => Command d.1) <$> decoders pver).
Proof. apply (bool_decide_unpack _). vm_compute. reflexivity. Qed.

(** The decoder at position [i] is the one that its command names. *)
Lemma decoder_found pver i d c : decoders pver !! i = Some d -> Command d.1 = c -> makeEmptyMessage pver c = Some d.
Proof.
  intros Hi <-. unfold makeEmptyMessage. destruct (list_find _ (decoders pver)) as [[j e]|] eqn:E.
  - apply list_find_Some in E as (Hj & Hc & _). cbn. f_equal. pose proof (commands_distinct pver) as Hd. rewrite NoDup_alt in Hd.
    assert (i = j) as -> by (apply (Hd i j (Command d.1)); rewrite list_lookup_fmap; [by rewrite Hi|by rewrite Hj; cbn; f_equal]). congruence.
  - apply list_find_None in E. rewrite Forall_lookup in E. by destruct (E i d Hi).
Qed.

(** The reader of an invitation refuses the address in it, whatever it is. *)
Definition unreadable (m : message) : bool := match m with MInvitation _ => true | _ => false end.

(** The decoder of the command reads what the message has written, or refuses an invitation. *)
Definition decoded (pver enc : Z) (m : message) : Prop :=
  exists b d, OmcEncode pver enc m = Ok (inl b) /\ makeEmptyMessage pver (Command m) = Some d /\ MaxPayloadLength pver d.1 = MaxPayloadLength pver m /\
    if unreadable m then exists r, d.2 b = Ok (inr (InvalidType, r)) else reads d.2 b (message_canonical m).

Lemma decoded_at pver enc m i d b : decoders pver !! i = Some d -> Command d.1 = Command m -> MaxPayloadLength pver d.1 = MaxPayloadLength pver m ->
  OmcEncode pver enc m = Ok (inl b) -> unreadable m = false -> reads d.2 b (message_canonical m) -> decoded pver enc m.
Proof. intros H1 H2 H3 H4 H5 H6. exists b, d. rewrite H5. split_and!; [done|by eapply decoder_found|done|done]. Qed.

Lemma decoded_invitation pver enc m : uint_range 32 (mi_Expire m) -> decoded pver enc (MInvitation m).
Proof.
  intros Hm. eexists _, (MInvitation (MkMsgInvitation 0 [] false [] []), rmap MInvitation msginvitation_OmcDecode). split_and!; [reflexivity|by apply (decoder_found _ 4)|reflexivity|].
  cbn [unreadable snd]. unfold rmap, msginvitation_OmcDecode, msginvitation_OmcEncode, mbind, reader_bind.
  rewrite (reads_VarInt (mi_Expire m)) by (unfold uint_range in *; lia). by eexists.
Qed.

Ltac decode_at i := eapply (decoded_at _ _ _ i); [reflexivity|reflexivity|reflexivity| |reflexivity|].
Ltac decode_with i l := let b := fresh in let E := fresh in let R := fresh in
  destruct l as (b & E & R); [..|decode_at i; [cbn [OmcEncode]; first [by rewrite E | exact E]|exact (reads_map _ _ _ _ R)]]; try done; try tauto.
Ltac decode_by i l := decode_at i; [reflexivity|cbn [snd message_canonical]; apply reads_map, l; tauto].

Lemma decoder_reads pver enc m : message_ok pver enc m -> decoded pver enc m.
Proof.
  intros Hm. destruct m; cbn [message_ok] in *.
  - decode_with 0%nat (reads_version pver m).
  - decode_at 1%nat; [reflexivity|apply reads_ret].
  - decode_at 2%nat; [reflexivity|apply reads_ret].
  - decode_with 3%nat (reads_addr pver l).
  - by apply decoded_invitation.
  - decode_by 5%nat reads_ack.
  - decode_with 6%nat (reads_getblocks m).
  - decode_with 7%nat (reads_getheaders m).
  - destruct Hm as [-> Hm]. decode_with 8%nat (reads_block m).
  - decode_by 9%nat reads_miner_block.
  - decode_with 10%nat (reads_inv l).
  - decode_with 11%nat (reads_inv l).
  - decode_with 12%nat (reads_inv l).
  - destruct Hm as [-> Hm]. decode_with 13%nat (reads_tx m).
  - decode_by 14%nat reads_ping.
  - decode_with 15%nat (reads_pong pver nonce).
  - decode_with 16%nat (reads_getheaders m).
  - decode_with 17%nat (reads_headers l).
  - decode_with 18%nat (reads_msgalert m).
  - decode_by 19%nat reads_finalized.
  - decode_by 20%nat reads_refinal.
  - decode_with 21%nat (reads_empty BIP0035Version pver).
  - decode_with 22%nat (reads_filteradd pver data).
  - decode_with 23%nat (reads_empty BIP0037Version pver).
  - decode_with 24%nat (reads_filterload pver m).
  - decode_with 25%nat (reads_reject pver m).
  - decode_with 26%nat (reads_empty SendHeadersVersion pver).
  - decode_with 27%nat (reads_feefilter pver fee).
  - decode_by 28%nat reads_getcfilters.
  - decode_by 29%nat reads_getcfilters.
  - decode_by 30%nat reads_getcfcheckpt.
  - decode_with 31%nat (reads_cfilter m).
  - decode_with 32%nat (reads_cfheaders m).
  - decode_by 33%nat reads_cfcheckpt.
  - decode_with 34%nat (reads_merkleblock pver m).
  - decode_by 35%nat reads_knowledge.
  - decode_by 36%nat reads_candidate.
  - decode_by 37%nat reads_release.
  - decode_by 38%nat reads_consensus.
  - decode_by 39%nat reads_candidateresp.
  - decode_by 40%nat reads_signatures.
  - decode_by 41%nat reads_signature_message.
  - decode_by 42%nat reads_pull.
Qed.

(** The bytes of a header. *)
Definition frame (magic : Z) (cmd : list Z) (n : Z) (c : list Z) : list Z := PutUint32 magic ++ cmd ++ PutUint32 n ++ c.
Definition frame_ok (magic : Z) (cmd : list Z) (n : Z) (c : list Z) : Prop :=
  uint_range 32 magic /\ length cmd = CommandSize /\ uint_range 32 n /\ length c = 4%nat.

Lemma reads_frame magic cmd n c : frame_ok magic cmd n c -> reads readMessageHeader (frame magic cmd n c) (MkMsgHeader magic (trim_zeros cmd) n c).
Proof.
  intros (Hm & Hc & Hn & Hs) r. unfold readMessageHeader. rewrite (reads_full MessageHeaderSize (frame magic cmd n c)).
  2: { unfold frame. rewrite !length_app, !PutUint32_length, Hc, Hs. done. }
  set (m := (_ ← ReadUint32; _)). assert (reads m (frame magic cmd n c) (MkMsgHeader magic (trim_zeros cmd) n c)) as Hr.
  { unfold m, frame. eapply reads_bind; [by apply reads_ReadUint32|]. eapply reads_bind; [by apply reads_full|]. eapply reads_bind; [by apply reads_ReadUint32|].
    eapply reads_bind_ret; [by apply reads_full|apply reads_ret]. }
  specialize (Hr []). rewrite app_nil_r in Hr. by rewrite Hr.
Qed.

Lemma Command_trim m : (length (Command m) <= CommandSize)%nat /\ trim_zeros (Command m ++ replicate (CommandSize - length (Command m)) 0) = Command m /\
  ValidString (Command m) = true.
Proof. destruct m; vm_compute; (split; [by repeat constructor|done]). Qed.

Lemma MaxPayload_bound pver m : 0 <= MaxPayloadLength pver m <= MaxMessagePayload.
Proof.
  pose proof limit_values as (_ & _ & _ & -> & _). destruct m; cbn [MaxPayloadLength]; unfold maxNetAddressPayload; repeat case_decide; vm_compute; split; done.
Qed.

Section Framing.
Context (DoubleHashB : list Z -> list Z).

Lemma checksum_ok (Hhash : forall b, length (DoubleHashB b) = 32%nat) p : checksum DoubleHashB p = Ok (take 4 (DoubleHashB p)).
Proof. unfold checksum. rewrite slice_sub_ok by (rewrite ?Hhash; lia). by rewrite drop_0. Qed.

(** A frame with the right checksum is decoded by the decoder of its command. *)
Lemma read_framed pver btcnet cmd cmd' payload d r : (forall b, length (DoubleHashB b) = 32%nat) -> uint_range 32 btcnet ->
  length cmd' = CommandSize -> trim_zeros cmd' = cmd -> ValidString cmd = true -> makeEmptyMessage pver cmd = Some d -> len payload <= MaxPayloadLength pver d.1 ->
  ReadMessageWithEncodingN DoubleHashB pver btcnet (frame btcnet cmd' (len payload) (take 4 (DoubleHashB payload)) ++ payload ++ r) =
    match d.2 payload with Ok (inl (msg, _)) => Ok (inl ((msg, payload), r)) | Ok (inr (e, _)) => Ok (inr (e, r)) | Panic => Panic | NoFuel => NoFuel end.
Proof.
  intros Hhash Hnet Hc <- Hv Ed Hl. pose proof (MaxPayload_bound pver d.1) as Hb. pose proof limit_values as (_ & _ & _ & Lm & _).
  unfold ReadMessageWithEncodingN. rewrite (reads_step _ _ _ (MkMsgHeader btcnet (trim_zeros cmd') (len payload) (take 4 (DoubleHashB payload)))).
  2: { apply reads_frame. split_and!; [done|done|unfold uint_range; lia|rewrite length_take, Hhash; done]. }
  cbn [mh_length mh_magic mh_command mh_checksum]. rewrite decide_False by lia. rewrite decide_False by (by intros []). rewrite Hv. cbn [negb]. rewrite Ed.
  destruct d as [e dec]. cbn [fst snd] in *. rewrite decide_False by lia. rewrite Nat2Z.id, (reads_step _ _ _ payload) by (by apply reads_full).
  rewrite checksum_ok by done. unfold mbind, reader_bind, rlift. by rewrite decide_False by (by intros []).
Qed.

(** C12: every kind of message is read back from the stream, except invitations, which every
    reader refuses.  The frame that is written for a message whose fields fit the encoding
    (transactions and blocks with the full encoding and signatures, messages of the committee
    with the encoding for signed ones, and a version of the protocol that has the command)
    and whose payload is within the limit of its command is read, with whatever follows it,
    as the message, its payload and the rest of the stream; the definitions of a transaction
    come back in canonical form.  An invitation is written too, but reading it is always an
    error, with the stream behind it. *)
Theorem message_roundtrip (pver btcnet enc : Z) (m : message) (Hhash : forall b, length (DoubleHashB b) = 32%nat) (Hnet : uint_range 32 btcnet)
    (Hm : message_ok pver enc m) :
  exists payload, OmcEncode pver enc m = Ok (inl payload) /\
    (len payload <= MaxPayloadLength pver m -> exists b, WriteMessageWithEncodingN DoubleHashB m pver btcnet enc = Ok (inl b) /\
      len b = len payload + 24 /\ forall r, ReadMessageWithEncodingN DoubleHashB pver btcnet (b ++ r) =
        if unreadable m then Ok (inr (InvalidType, r)) else Ok (inl ((message_canonical m, payload), r))).
Proof.
  destruct (decoder_reads _ _ _ Hm) as (p & d & Ee & Ed & El & Hr). exists p. split; [done|]. intros Hl.
  destruct (Command_trim m) as (Hc & Ht & Hv). pose proof (MaxPayload_bound pver m) as Hb. pose proof limit_values as (_ & _ & _ & Lm & _).
  pose proof (checksum_ok Hhash p) as Es.
  unfold WriteMessageWithEncodingN. cbn zeta. rewrite decide_False by lia. rewrite Ee. cbn [mbind outcome_bind]. rewrite uwrap_id by (unfold uint_range; lia).
  rewrite !decide_False by lia. rewrite Es. cbn [mbind outcome_bind]. eexists. split; [reflexivity|].
  set (cmd := Command m ++ replicate (CommandSize - length (Command m)) 0). assert (length cmd = CommandSize) as Hcmd by (unfold cmd; rewrite length_app, length_replicate; lia).
  assert (length (take 4 (DoubleHashB p)) = 4%nat) as Hck by (rewrite length_take, Hhash; done).
  split; [rewrite !length_app, !PutUint32_length, Hcmd, Hck; unfold CommandSize; lia|]. intros r.
  replace (_ ++ r) with (frame btcnet cmd (len p) (take 4 (DoubleHashB p)) ++ p ++ r) by (unfold frame; by rewrite <- !app_assoc).
  rewrite (read_framed _ _ (Command m) _ _ d) by (done || lia).
  destruct (unreadable m); [by destruct Hr as [r' ->]|]. specialize (Hr []). rewrite app_nil_r in Hr. by rewrite Hr.
Qed.

Lemma discard_chunk n size r : discard_loop n size r = Ok (inl ((), drop (n * Z.to_nat size) r)).
Proof.
  revert r. induction n as [|n IH]; intros r; cbn [discard_loop]; [by rewrite drop_0|].
  unfold mbind, reader_bind, ReadOver. rewrite IH, length_replicate, drop_drop. by replace (S n * Z.to_nat size)%nat with (Z.to_nat size + n * Z.to_nat size)%nat by lia.
Qed.

Lemma discard_drops n r : 0 <= n -> discardInput n r = Ok (inl ((), drop (Z.to_nat n) r)).
Proof.
  intros Hn. unfold discardInput. cbn zeta. pose proof (Z.div_mod n 10240 ltac:(lia)) as E. pose proof (Z.mod_pos_bound n 10240 ltac:(lia)).
  change (10 * 1024) with 10240. set (q := n / 10240) in *. set (m := n mod 10240) in *. assert (0 <= q) by (apply Z.div_pos; lia).
  unfold mbind, reader_bind. case_decide.
  - rewrite discard_chunk. case_decide; [rewrite discard_chunk, drop_drop|unfold mret, reader_ret].
    + by replace (Z.to_nat q * Z.to_nat 10240 + 1 * Z.to_nat m)%nat with (Z.to_nat n) by lia.
    + by replace (Z.to_nat q * Z.to_nat 10240)%nat with (Z.to_nat n) by lia.
  - rewrite decide_False by lia. by replace (Z.to_nat n) with 0%nat by lia.
Qed.

(** Reading keeps the framing of the stream: whatever the header says, when its length
    is within the limit and the payload is there, the next read starts behind the payload,
    also when the message is refused. *)
Theorem refused_message_is_skipped (pver btcnet magic n : Z) (cmd c payload r : list Z) (Hhash : forall b, length (DoubleHashB b) = 32%nat)
    (Hf : frame_ok magic cmd n c) (Hn : n <= MaxMessagePayload) (Hp : len payload = n) :
  match ReadMessageWithEncodingN DoubleHashB pver btcnet (frame magic cmd n c ++ payload ++ r) with
  | Ok (inl (_, r')) | Ok (inr (_, r')) => r' = r
  | Panic | NoFuel => True
  end.
Proof.
  unfold ReadMessageWithEncodingN. rewrite (reads_step _ _ _ (MkMsgHeader magic (trim_zeros cmd) n c)) by (by apply reads_frame).
  cbn [mh_length mh_magic mh_command mh_checksum]. rewrite decide_False by lia.
  assert (Hskip : forall e : wire_err, (_ ← discardInput n; rfail e : reader (message * list Z)) (payload ++ r) = Ok (inr (e, r))).
  { intros e. unfold mbind, reader_bind. rewrite discard_drops by lia. unfold rfail. by rewrite <- Hp, Nat2Z.id, drop_app_length. }
  case_decide; [by rewrite Hskip|]. destruct (ValidString _); cbn [negb]; [|by rewrite Hskip].
  destruct (makeEmptyMessage _ _) as [[e d]|]; [|by rewrite Hskip]. case_decide; [by rewrite Hskip|].
  rewrite (reads_step _ _ _ payload) by (apply reads_full; lia). rewrite checksum_ok by done. unfold mbind, reader_bind, rlift. case_decide; [done|].
  by destruct (d payload) as [[[]|[]]| |].
Qed.
End Framing.

(** ** Counts that are not checked *)

(** Payloads with a command and a count that the decoder gives to [make]. *)
Definition hostile : list (list Z * list Z) :=
  let hash := replicate 32 0 in
  let addr := replicate 20 0 in
  [ (str "getblocks"%string, PutUint32 0 ++ WriteVarInt (2 ^ 64 - 1));
    (str "signatures"%string, hash ++ PutInt32 (-1));
    (str "knowledge"%string, PutInt32 0 ++ WriteVarInt (2 ^ 62));
    (str "knowledge"%string, PutInt32 0 ++ WriteVarInt 0 ++ hash ++ addr ++ addr ++ PutInt32 1 ++ PutInt32 (-1));
    (str "candidReply"%string, PutInt32 0 ++ replicate 4 0 ++ addr ++ hash ++ PutInt32 0 ++ WriteVarInt (2 ^ 62));
    (str "minerblock"%string, PutUint32 0 ++ hash ++ hash ++ PutUint32 0 ++ PutUint32 0 ++ PutInt32 0 ++ WriteVarInt 0 ++ WriteVarInt 0 ++ WriteVarInt 0 ++ WriteVarInt (2 ^ 62));
    (str "tx"%string, PutUint32 0 ++ WriteVarInt 1 ++ PutUint8 2 ++ WriteVarInt (2 ^ 60)) ].

(** C39: well-framed messages of a few bytes make the reader panic: the count of locators
    wraps around in its check, and the counts of signatures, members, reports and points are
    not checked before memory is allocated for them. *)
Theorem hostile_messages_panic (DoubleHashB : list Z -> list Z) (pver btcnet : Z) (cmd payload r : list Z)
    (Hhash : forall b, length (DoubleHashB b) = 32%nat) (Hnet : uint_range 32 btcnet) (Hc : (cmd, payload) ∈ hostile) :
  len payload < 170 /\
  ReadMessageWithEncodingN DoubleHashB pver btcnet
    (frame btcnet (cmd ++ replicate (CommandSize - length cmd) 0) (len payload) (take 4 (DoubleHashB payload)) ++ payload ++ r) = Panic.
Proof.
  assert ((length cmd <= CommandSize)%nat /\ len payload < 170 /\ trim_zeros (cmd ++ replicate (CommandSize - length cmd) 0) = cmd /\ ValidString cmd = true /\
    exists d, makeEmptyMessage pver cmd = Some d /\ 170 <= MaxPayloadLength pver d.1 /\ d.2 payload = Panic) as (Hl & Hs & Ht & Hv & d & Ed & El & Hp).
  { assert (forall i d, decoders pver !! i = Some d -> Command d.1 = cmd -> 170 <= MaxPayloadLength pver d.1 -> d.2 payload = Panic ->
      exists d, makeEmptyMessage pver cmd = Some d /\ 170 <= MaxPayloadLength pver d.1 /\ d.2 payload = Panic) as Hd.
    { intros i d Hi Hcm. exists d. split_and!; [by eapply decoder_found|done|done]. }
    unfold hostile in Hc. repeat (apply elem_of_cons in Hc as [[= -> ->]|Hc]); [..|by apply not_elem_of_nil in Hc].
    all: split; [vm_compute; lia|]; split; [done|]; split; [done|]; split; [done|].
    - apply (Hd 6%nat _ eq_refl); done.
    - apply (Hd 40%nat _ eq_refl); done.
    - apply (Hd 35%nat _ eq_refl); done.
    - apply (Hd 35%nat _ eq_refl); done.
    - apply (Hd 39%nat _ eq_refl); done.
    - apply (Hd 9%nat _ eq_refl); done.
    - apply (Hd 13%nat _ eq_refl); done. }
  split; [done|]. rewrite (read_framed _ _ _ cmd _ _ d); [by rewrite Hp|done|done| |done|done|done|lia].
  rewrite length_app, length_replicate. lia.
Qed.

(** ** Witnesses *)

Definition sum_hash (b : list Z) : list Z := le_bytes 32 (foldr Z.add 0 b).

Lemma message_roundtrip_witness : exists b, WriteMessageWithEncodingN sum_hash (MPing (MkPing 7 (-2))) 70013 5 SignatureEncoding = Ok (inl b) /\
  ReadMessageWithEncodingN sum_hash 70013 5 (b ++ [1]) = Ok (inl ((MPing (MkPing 7 (-2)), PutUint64 7 ++ PutInt32 (-2)), [1])).
Proof.
  destruct (message_roundtrip sum_hash 70013 5 SignatureEncoding (MPing (MkPing 7 (-2))) (fun _ => le_bytes_length _ _) ltac:(done) ltac:(done)) as (p & E & H).
  vm_compute in E. injection E as <-. destruct H as (b & Eb & _ & R); [vm_compute; discriminate|]. exists b. split; [exact Eb|]. rewrite R. reflexivity.
Defined.

Lemma refused_message_witness :
  ReadMessageWithEncodingN sum_hash 70013 5 (frame 5 (replicate 12 0x61) 3 [0; 0; 0; 0] ++ [1; 2; 3] ++ [9]) = Ok (inr (UnknownCommand, [9])) /\
  match ReadMessageWithEncodingN sum_hash 70013 5 (frame 5 (replicate 12 0x61) 3 [0; 0; 0; 0] ++ [1; 2; 3] ++ [9]) with
  | Ok (inl (_, r')) | Ok (inr (_, r')) => r' = [9]
  | Panic | NoFuel => True
  end.
Proof.
  split; [vm_compute; reflexivity|].
  exact (refused_message_is_skipped sum_hash 70013 5 5 3 (replicate 12 0x61) [0; 0; 0; 0] [1; 2; 3] [9] (fun _ => le_bytes_length _ _) ltac:(done) ltac:(done) eq_refl).
Defined.

Lemma hostile_messages_witness : exists b, length b = 60%nat /\ ReadMessageWithEncodingN sum_hash 70013 5 b = Panic.
Proof.
  eexists. split; [|refine (proj2 (hostile_messages_panic sum_hash 70013 5 (str "signatures"%string) (replicate 32 0 ++ PutInt32 (-1)) [] (fun _ => le_bytes_length _ _) ltac:(done) _))].
  - reflexivity.
  - unfold hostile. right. left.
Defined.
