(* ===== verification/Knowledge.v ===== *)
(** * What the members of a committee know of each other

    Models omega/consensus/knowledge.go: the matrix of a knowledge base, whose entry
    [Knowledge[t][i]] is the set, as bits, of the members that are known to know that [i]
    knows of the block of [t]; the members that have rejected the own candidacy; and what a
    chain of viewers adds. *)
From Stdlib Require Import ZArith Lia.
From stdpp Require Import gmap list.
From S2P Require Import Prelude Wire Token MsgTx.

Open Scope Z_scope.

Definition CommitteeSigs : Z := 2.

(** [1 << uint(v)] in 64 bits. *)
Definition bit64 (v : Z) : Z := if decide (0 <= v < 64) then i64 (2 ^ v) else 0.

Record Knowledgebase := MkKnowledgebase { Knowledge : list (list Z); rejections : Z }.

Definition no_row : list Z := replicate (Z.to_nat CommitteeSize) 0.
Definition CreateKnowledge : Knowledgebase := MkKnowledgebase (replicate (Z.to_nat CommitteeSize) no_row) 0.

Definition set_Knowledge (k : Knowledgebase) (m : list (list Z)) : Knowledgebase := MkKnowledgebase m (rejections k).

Definition kb_Malice (k : Knowledgebase) (c : Z) : outcome Knowledgebase := m ← slice_set (Knowledge k) c no_row; Ok (set_Knowledge k m).

(** A member that has rejected the candidacy; a negative number forgets them all. *)
Definition Rejected (k : Knowledgebase) (who : Z) : Knowledgebase :=
  MkKnowledgebase (Knowledge k) (if decide (who < 0) then 0 else Z.lor (rejections k) (bit64 who)).

(** Not enough members are left to sign. *)
Fixpoint insufficient_loop (fuel : nat) (t m : Z) : outcome bool :=
  match fuel with
  | O => NoFuel
  | S fuel =>
      if decide (t = 0) then Ok false
      else if decide (Z.land t 1 <> 0) then
        let m := m - 1 in if decide (m < CommitteeSigs) then Ok true else insufficient_loop fuel (Z.shiftr t 1) m
      else insufficient_loop fuel (Z.shiftr t 1) m
  end.
Definition Insufficient (k : Knowledgebase) : outcome bool := insufficient_loop 67 (rejections k) CommitteeSize.

Definition Mapping16 : list Z := [0; 1; 1; 2; 1; 2; 2; 3; 1; 2; 2; 3; 2; 3; 3; 4].

(** The bits of a number, four at a time. *)
Definition nibbles : list Z := [0; 4; 8; 12; 16; 20; 24; 28; 32; 36; 40; 44; 48; 52; 56; 60].
Definition count_bits (x : Z) : Z := foldl (fun s k => s + nth (Z.to_nat (Z.land (Z.shiftr x k) 0xf)) Mapping16 0) 0 nibbles.

Definition entry_at (m : list (list Z)) (i j : Z) : outcome Z := r ← slice_get m i; slice_get r j.
Definition set_entry (m : list (list Z)) (i j : Z) (x : Z) : outcome (list (list Z)) := r ← slice_get m i; r ← slice_set r j x; slice_set m i r.

Fixpoint qualified_loop (n : nat) (i : Z) (m : list (list Z)) (j rej q : Z) : outcome Z :=
  match n with
  | O => Ok q
  | S n =>
      x ← entry_at m j i;
      qualified_loop n (i + 1) m j rej (if decide (CommitteeSigs <= count_bits (Z.land x rej)) then q + 1 else q)
  end.
Definition Qualified (k : Knowledgebase) (myself who : Z) : outcome bool :=
  let rej := if decide (who <> myself) then -1 else Z.lnot (rejections k) in
  q ← qualified_loop (Z.to_nat CommitteeSize) 0 (Knowledge k) who rej 0;
  Ok (bool_decide (CommitteeSigs <= q)).

(** Whether a message to [to] tells one of the viewers something. *)
Fixpoint improve_loop (k : list Z) (c : Z) (nk : list Z) : outcome (Z * list Z) :=
  match k with
  | [] => Ok (c, nk)
  | viewer :: k => let c := Z.lor c (bit64 viewer) in nk ← slice_set nk viewer c; improve_loop k c nk
  end.
Definition improve (k : list Z) (to : Z) : outcome bool :=
  '(c, nk) ← improve_loop k 0 no_row;
  let c := Z.lor c (bit64 to) in
  Ok (existsb (fun x => bool_decide (Z.land x c <> 0 /\ x <> c)) nk).

(** The chain of viewers [k] is entered in the row [mp]. *)
Fixpoint gain_loop (k : list Z) (mp c ng : Z) (m : list (list Z)) : outcome (Z * Z * list (list Z)) :=
  match k with
  | [] => Ok (c, ng, m)
  | viewer :: k =>
      let c := Z.lor c (bit64 viewer) in
      x ← entry_at m mp viewer;
      if decide (Z.land x c <> c) then m ← set_entry m mp viewer (Z.lor x c); gain_loop k mp c (Z.lor ng (bit64 viewer)) m
      else gain_loop k mp c ng m
  end.
Fixpoint lacking_loop (k : list Z) (mp c ng : Z) (m : list (list Z)) : outcome Z :=
  match k with
  | [] => Ok ng
  | viewer :: k =>
      x ← entry_at m mp viewer;
      lacking_loop k mp c (if decide (Z.land x c <> c) then Z.lor ng (bit64 viewer) else ng) m
  end.
Definition gain (kb : Knowledgebase) (mp : Z) (k : list Z) : outcome (Z * Z * Knowledgebase) :=
  '(c, ng, m) ← gain_loop k mp 0 0 (Knowledge kb);
  ng ← lacking_loop k mp c ng m;
  Ok (ng, c, set_Knowledge kb m).

(** What is known of the member [w], and what [w] knows, is forgotten: in [Release], and when
    a member announces another block. *)
Fixpoint mask_row (n : nat) (j : Z) (m : list (list Z)) (i mask : Z) : outcome (list (list Z)) :=
  match n with
  | O => Ok m
  | S n => x ← entry_at m i j; m ← set_entry m i j (Z.land x mask); mask_row n (j + 1) m i mask
  end.
Fixpoint forget_loop (n : nat) (i : Z) (m : list (list Z)) (w : Z) : outcome (list (list Z)) :=
  match n with
  | O => Ok m
  | S n =>
      m ← set_entry m i w 0;
      m ← set_entry m w i 0;
      m ← mask_row (Z.to_nat CommitteeSize) 0 m i (Z.lnot (bit64 w));
      forget_loop n (i + 1) m w
  end.
Definition forget (kb : Knowledgebase) (w : Z) : outcome Knowledgebase :=
  m ← forget_loop (Z.to_nat CommitteeSize) 0 (Knowledge kb) w; Ok (set_Knowledge kb m).

(** ** Counting *)

(** The number of the 64 bits that are set. *)
Definition popcount (x : Z) : Z := foldr (fun k s => Z.b2z (Z.testbit x k) + s) 0 (seqZ 0 64).

Lemma mapping_counts n : 0 <= n < 16 ->
  nth (Z.to_nat n) Mapping16 0 = Z.b2z (Z.testbit n 0) + Z.b2z (Z.testbit n 1) + Z.b2z (Z.testbit n 2) + Z.b2z (Z.testbit n 3).
Proof.
  intros H. assert (Forall (fun n => nth (Z.to_nat n) Mapping16 0 = Z.b2z (Z.testbit n 0) + Z.b2z (Z.testbit n 1) + Z.b2z (Z.testbit n 2) + Z.b2z (Z.testbit n 3)) (seqZ 0 16)) as F.
  { apply (bool_decide_unpack _). vm_compute. reflexivity. }
  rewrite Forall_forall in F. apply F, elem_of_seqZ. lia.
Qed.

Lemma nibble_bits x k : 0 <= k -> nth (Z.to_nat (Z.land (Z.shiftr x k) 0xf)) Mapping16 0 =
  Z.b2z (Z.testbit x k) + Z.b2z (Z.testbit x (k + 1)) + Z.b2z (Z.testbit x (k + 2)) + Z.b2z (Z.testbit x (k + 3)).
Proof.
  intros Hk. change 0xf with (Z.ones 4). rewrite mapping_counts by (rewrite Z.land_ones by lia; apply Z.mod_pos_bound; lia).
  assert (forall j, 0 <= j < 4 -> Z.testbit (Z.land (Z.shiftr x k) (Z.ones 4)) j = Z.testbit x (k + j)) as Hb.
  { intros j Hj. rewrite Z.land_spec, Z.shiftr_spec, Z.ones_spec_low by lia. by rewrite andb_true_r, Z.add_comm. }
  rewrite !Hb by lia. by rewrite Z.add_0_r.
Qed.

Lemma count_bits_popcount x : count_bits x = popcount x.
Proof.
  unfold count_bits, nibbles. cbn [foldl]. rewrite !nibble_bits by lia. unfold popcount.
  let l := eval vm_compute in (seqZ 0 64) in change (seqZ 0 64) with l. cbn [foldr].
  repeat match goal with |- context [Z.testbit x (?a + ?b)] => let c := eval vm_compute in (a + b) in change (a + b) with c end. ring.
Qed.

Definition is_matrix (m : list (list Z)) : Prop := length m = Z.to_nat CommitteeSize /\ Forall (fun r => length r = Z.to_nat CommitteeSize) m.
Definition is_member (i : Z) : Prop := 0 <= i < CommitteeSize.
Global Instance is_member_dec i : Decision (is_member i).
Proof. unfold is_member. apply _. Defined.

Lemma entry_ok m i j : is_matrix m -> is_member i -> is_member j ->
  exists row x, m !! Z.to_nat i = Some row /\ row !! Z.to_nat j = Some x /\ entry_at m i j = Ok x.
Proof.
  intros [Hl Hr] Hi Hj. unfold is_member in *. destruct (lookup_lt_is_Some_2 m (Z.to_nat i)) as [row Er]; [lia|].
  rewrite Forall_forall in Hr. specialize (Hr row (list_elem_of_lookup_2 _ _ _ Er)). destruct (lookup_lt_is_Some_2 row (Z.to_nat j)) as [x Ex]; [lia|].
  exists row, x. split_and!; [done|done|]. unfold entry_at. rewrite (slice_get_ok m i row) by (done || lia). cbn. by rewrite (slice_get_ok row j x) by (done || lia).
Qed.

Lemma set_entry_ok m i j x : is_matrix m -> is_member i -> is_member j ->
  exists row, m !! Z.to_nat i = Some row /\ set_entry m i j x = Ok (<[Z.to_nat i := <[Z.to_nat j := x]> row]> m) /\
    is_matrix (<[Z.to_nat i := <[Z.to_nat j := x]> row]> m).
Proof.
  intros Hm Hi Hj. destruct (entry_ok m i j Hm Hi Hj) as (row & y & Er & Ey & _). exists row. destruct Hm as [Hl Hr]. unfold is_member in *.
  pose proof (lookup_lt_Some _ _ _ Ey). unfold set_entry. rewrite (slice_get_ok m i row) by (done || lia). cbn [mbind outcome_bind].
  rewrite slice_set_ok by lia. cbn [mbind outcome_bind]. rewrite slice_set_ok by lia. split_and!; [done|done|]. split; [by rewrite length_insert|].
  apply Forall_insert; [done|]. rewrite length_insert. by apply (Forall_lookup_1 _ _ _ _ Hr Er).
Qed.

Lemma entry_panics m i j : is_matrix m -> ~ (is_member i /\ is_member j) -> entry_at m i j = Panic.
Proof.
  intros [Hl Hr] Hn. unfold is_member, entry_at, slice_get in *. destruct (decide (0 <= i)); [|done]. destruct (m !! Z.to_nat i) as [row|] eqn:E; [|done]. cbn.
  pose proof (lookup_lt_Some _ _ _ E). pose proof (Forall_lookup_1 _ _ _ _ Hr E) as Hrow. cbn in Hrow. case_decide; [|done].
  rewrite lookup_ge_None_2; [done|]. lia.
Qed.

(** A member is qualified as a candidate exactly when at least [CommitteeSigs] members
    are known to know of its block, each by at least [CommitteeSigs] members; those that have
    rejected the own candidacy do not count for it.  The table of nibbles counts the bits of
    the 64-bit entries. *)
Theorem qualified_counts (k : Knowledgebase) (myself who : Z) (Hm : is_matrix (Knowledge k)) (Hw : is_member who) :
  exists row, Knowledge k !! Z.to_nat who = Some row /\
    Qualified k myself who = Ok (bool_decide (CommitteeSigs <=
      len (filter (fun x => CommitteeSigs <= popcount (Z.land x (if decide (who = myself) then Z.lnot (rejections k) else -1))) row))).
Proof.
  destruct (entry_ok _ who who Hm Hw Hw) as (row & _ & Er & _ & _). exists row. split; [done|]. pose proof Hm as [_ Hr].
  pose proof (Forall_lookup_1 _ _ _ _ Hr Er) as Hl. cbn in Hl. unfold Qualified.
  replace (if decide (who <> myself) then -1 else Z.lnot (rejections k)) with (if decide (who = myself) then Z.lnot (rejections k) else -1)
    by (repeat case_decide; congruence). set (rej := if decide (who = myself) then _ else _).
  assert (forall n i q, (i + n)%nat = length row -> qualified_loop n (Z.of_nat i) (Knowledge k) who rej q =
    Ok (q + len (filter (fun x => CommitteeSigs <= popcount (Z.land x rej)) (drop i row)))) as H.
  { induction n as [|n IH]; intros i q Hi; cbn [qualified_loop].
    - rewrite drop_ge by lia. f_equal. cbn. lia.
    - destruct (lookup_lt_is_Some_2 row i) as [x Ex]; [lia|]. rewrite (drop_S _ x) by done.
      unfold entry_at. rewrite (slice_get_ok _ who row) by (done || unfold is_member in Hw; lia). cbn [mbind outcome_bind].
      rewrite (slice_get_ok row (Z.of_nat i) x) by (lia || by rewrite Nat2Z.id). cbn [mbind outcome_bind]. rewrite count_bits_popcount.
      replace (Z.of_nat i + 1) with (Z.of_nat (S i)) by lia. rewrite IH by lia. rewrite filter_cons. repeat case_decide; try lia; cbn [length]; f_equal; lia. }
  change 0 with (Z.of_nat 0) at 1. rewrite H by lia. cbn [mbind outcome_bind]. by rewrite drop_0.
Qed.

Fixpoint bit_sum (n : nat) (t : Z) : Z := match n with O => 0 | S n => Z.b2z (Z.odd t) + bit_sum n (Z.div2 t) end.

Lemma bit_sum_testbits n t : bit_sum n t = foldr (fun k s => Z.b2z (Z.testbit t k) + s) 0 (seqZ 0 (Z.of_nat n)).
Proof.
  revert t. induction n as [|n IH]; intros t; [done|]. cbn [bit_sum]. rewrite IH. rewrite (seqZ_cons 0 (Z.of_nat (S n))) by lia. cbn [foldr]. rewrite Z.bit0_odd. f_equal.
  replace (Z.pred (Z.of_nat (S n))) with (Z.of_nat n) by lia. change (Z.succ 0) with (1 + 0). rewrite <- (fmap_add_seqZ 1 0 (Z.of_nat n)).
  assert (Forall (fun x => 0 <= x) (seqZ 0 (Z.of_nat n))) as Hp by (apply Forall_forall; intros x Hx; apply elem_of_seqZ in Hx; lia).
  clear IH. induction Hp as [|x l Hx _ IHl]; [done|]. cbn [foldr fmap list_fmap]. rewrite IHl. f_equal. f_equal. rewrite Z.div2_spec, Z.shiftr_spec by done. f_equal. lia.
Qed.

Lemma insufficient_loop_counts n : forall fuel t m, 0 <= t < 2 ^ Z.of_nat n -> (n < fuel)%nat -> CommitteeSigs <= m ->
  insufficient_loop fuel t m = Ok (bool_decide (m - bit_sum n t < CommitteeSigs)).
Proof.
  induction n as [|n IH]; intros fuel t m Ht Hf Hm; (destruct fuel as [|fuel]; [lia|]); cbn [insufficient_loop bit_sum].
  - rewrite decide_True by lia. f_equal. symmetry. apply bool_decide_false. lia.
  - assert (0 <= Z.div2 t < 2 ^ Z.of_nat n) as Hd.
    { rewrite Z.div2_div. rewrite Nat2Z.inj_succ, Z.pow_succ_r in Ht by lia. split; [apply Z.div_pos; lia|apply Z.div_lt_upper_bound; lia]. }
    assert (0 <= bit_sum n (Z.div2 t)) as Hs.
    { clear. generalize (Z.div2 t). induction n; intros x; cbn [bit_sum]; [lia|]. pose proof (IHn (Z.div2 x)). destruct (Z.odd x); cbn; lia. }
    change (Z.land t 1) with (Z.land t (Z.ones 1)). rewrite Z.land_ones by lia. change (2 ^ 1) with 2. rewrite Zmod_odd. rewrite <- Z.div2_spec.
    case_decide as E0; [subst; cbn [Z.odd Z.b2z]|destruct (Z.odd t) eqn:Eo; cbn [Z.b2z]].
    + f_equal. symmetry. apply bool_decide_false. enough (bit_sum n (Z.div2 0) = 0) by lia. clear. change (Z.div2 0) with 0. induction n; [done|exact IHn].
    + rewrite decide_True by done. cbn zeta. case_decide.
      * f_equal. symmetry. apply bool_decide_true. lia.
      * rewrite IH by lia. f_equal. apply bool_decide_ext. lia.
    + rewrite decide_False by lia. rewrite IH by lia. f_equal.
Qed.

(** The candidacy is given up exactly when fewer than [CommitteeSigs] members have not
    rejected it; the loop over the bits ends. *)
Theorem insufficient_counts (k : Knowledgebase) (Hr : 0 <= rejections k < 2 ^ 63) :
  Insufficient k = Ok (bool_decide (CommitteeSize - popcount (rejections k) < CommitteeSigs)).
Proof.
  unfold Insufficient. rewrite (insufficient_loop_counts 64) by (change CommitteeSigs with 2; change CommitteeSize with 3; lia).
  by rewrite bit_sum_testbits.
Qed.

(** ** Gaining knowledge *)

(** The bits of [a] are among those of [b]. *)
Definition within (a b : Z) : Prop := Z.land b a = a.
Definition chain_bits (c : Z) (k : list Z) : Z := foldl (fun c v => Z.lor c (bit64 v)) c k.

Lemma within_spec a b : within a b <-> forall n, 0 <= n -> Z.testbit a n = true -> Z.testbit b n = true.
Proof.
  unfold within. split.
  - intros <- n Hn. rewrite Z.land_spec. by intros [? _]%andb_true_iff.
  - intros H. apply Z.bits_inj'. intros n Hn. rewrite Z.land_spec. destruct (Z.testbit a n) eqn:E; [|apply andb_false_r]. by rewrite H.
Qed.
Global Instance within_refl : Reflexive within.
Proof. intros a. apply Z.land_diag. Qed.
Global Instance within_trans : Transitive within.
Proof. intros a b c. rewrite !within_spec. naive_solver. Qed.
Lemma within_lor_l a b : within a (Z.lor a b).
Proof. apply within_spec. intros n Hn H. by rewrite Z.lor_spec, H. Qed.
Lemma within_lor_r a b : within b (Z.lor a b).
Proof. rewrite Z.lor_comm. apply within_lor_l. Qed.
Lemma within_lor a b c : within a c -> within b c -> within (Z.lor a b) c.
Proof. rewrite !within_spec. intros Ha Hb n Hn. rewrite Z.lor_spec. intros [?|?]%orb_true_iff; auto. Qed.
Global Instance within_dec a b : Decision (within a b).
Proof. unfold within. apply _. Defined.

Lemma chain_bits_grows k : forall c, within c (chain_bits c k).
Proof. induction k as [|v k IH]; intros c; [done|]. etrans; [apply (within_lor_l c (bit64 v))|apply IH]. Qed.

(** What entering a chain does to the entries of the row. *)
Definition recorded (m m' : list (list Z)) (mp c : Z) (k : list Z) : Prop :=
  is_matrix m' /\ (forall i, i <> Z.to_nat mp -> m' !! i = m !! i) /\
  (forall j x, entry_at m mp j = Ok x -> exists x', entry_at m' mp j = Ok x' /\ within x x' /\ within x' (Z.lor x (chain_bits c k))) /\
  (forall k1 v k2, k = k1 ++ v :: k2 -> exists x', entry_at m' mp v = Ok x' /\ within (chain_bits c (k1 ++ [v])) x').

Lemma entry_insert m mp v y j : is_matrix m -> is_member mp -> is_member v -> forall row, m !! Z.to_nat mp = Some row ->
  entry_at (<[Z.to_nat mp := <[Z.to_nat v := y]> row]> m) mp j = if decide (j = v) then Ok y else entry_at m mp j.
Proof.
  intros Hm Hp Hv row Er. destruct (entry_ok m mp v Hm Hp Hv) as (row' & x & Er' & Ex & _). assert (row' = row) as -> by congruence. unfold is_member in *.
  pose proof (lookup_lt_Some _ _ _ Er). pose proof (lookup_lt_Some _ _ _ Ex). unfold entry_at.
  rewrite (slice_get_ok _ mp (<[Z.to_nat v := y]> row)) by (lia || by rewrite list_lookup_insert_eq). rewrite (slice_get_ok m mp row) by (done || lia).
  cbn [mbind outcome_bind]. unfold slice_get. destruct (decide (j = v)); subst.
  - rewrite decide_True by lia. by rewrite list_lookup_insert_eq by lia.
  - case_decide; [|done]. by rewrite list_lookup_insert_ne by lia.
Qed.

Lemma gain_loop_records mp k : is_member mp -> Forall is_member k -> forall c ng m, is_matrix m ->
  exists ng' m', gain_loop k mp c ng m = Ok (chain_bits c k, ng', m') /\ recorded m m' mp c k.
Proof.
  intros Hp. induction 1 as [|v k Hv Hk IH]; intros c ng m Hm; cbn [gain_loop].
  { eexists _, _. split; [done|]. split_and!; [done..| |by intros []]. intros j x E. exists x. split_and!; [done|done|apply within_lor_l]. }
  set (c1 := Z.lor c (bit64 v)). destruct (entry_ok m mp v Hm Hp Hv) as (row & x & Er & Ex & Ee). rewrite Ee. cbn [mbind outcome_bind].
  assert (forall m1, is_matrix m1 -> (forall i, i <> Z.to_nat mp -> m1 !! i = m !! i) ->
    (forall j y, entry_at m mp j = Ok y -> exists y', entry_at m1 mp j = Ok y' /\ within y y' /\ within y' (Z.lor y c1)) ->
    (exists y, entry_at m1 mp v = Ok y /\ within c1 y) -> forall m', recorded m1 m' mp c1 k -> recorded m m' mp c (v :: k)) as Hstep.
  { intros m1 H1 H2 H3 (y & Ey & Hy) m' (G1 & G2 & G3 & G4). split_and!; [done| | |].
    - intros i Hi. by rewrite G2, H2.
    - intros j z Ez. destruct (H3 j z Ez) as (z1 & E1 & W1 & W1'). destruct (G3 j z1 E1) as (z2 & E2 & W2 & W2'). exists z2. split; [done|].
      split; [by etrans|]. etrans; [exact W2'|]. apply within_lor; [etrans; [exact W1'|]|apply within_lor_r].
      apply within_lor; [apply within_lor_l|]. etrans; [apply chain_bits_grows|]. apply within_lor_r.
    - intros [|w k1] u k2 [= -> Ek].
      + destruct (G3 _ _ Ey) as (z & Ez & Wz & _). exists z. split; [done|]. cbn. by etrans.
      + apply (G4 k1 u k2 Ek). }
  case_decide as Hx.
  - destruct (set_entry_ok m mp v (Z.lor x c1) Hm Hp Hv) as (row' & Er' & Es & Hm1). assert (row' = row) as -> by congruence. rewrite Es. cbn [mbind outcome_bind].
    destruct (IH c1 (Z.lor ng (bit64 v)) _ Hm1) as (ng' & m' & E & R). exists ng', m'. split; [exact E|]. refine (Hstep _ Hm1 _ _ _ _ R).
    + intros i Hi. by rewrite list_lookup_insert_ne.
    + intros j y Ey. rewrite entry_insert by done. case_decide; [|by exists y; split_and!; [|done|apply within_lor_l]]. subst j. assert (y = x) as -> by congruence.
      eexists. split; [done|]. split; [apply within_lor_l|done].
    + exists (Z.lor x c1). rewrite entry_insert by done. rewrite decide_True by done. split; [done|apply within_lor_r].
  - destruct (IH c1 ng m Hm) as (ng' & m' & E & R). exists ng', m'. split; [exact E|]. refine (Hstep _ Hm _ _ _ _ R); [done| |].
    + intros j y Ey. exists y. split_and!; [done|done|apply within_lor_l].
    + exists x. split; [done|]. unfold within. exact Hx.
Qed.

Lemma lacking_loop_ok mp k : is_member mp -> Forall is_member k -> forall c ng m, is_matrix m -> exists ng', lacking_loop k mp c ng m = Ok ng'.
Proof.
  intros Hp. induction 1 as [|v k Hv Hk IH]; intros c ng m Hm; cbn [lacking_loop]; [by eexists|].
  destruct (entry_ok m mp v Hm Hp Hv) as (_ & x & _ & _ & ->). apply (IH _ _ _ Hm).
Qed.

(** Entering a chain of viewers in the row of a member records exactly the chain: every
    viewer is then known to know of all viewers up to itself, nothing is forgotten, no bit is
    set that is not one of the chain, and the rows of the other members stay. *)
Theorem gain_records_chain (kb : Knowledgebase) (mp : Z) (k : list Z) (Hm : is_matrix (Knowledge kb)) (Hp : is_member mp) (Hk : Forall is_member k) :
  exists ng kb', gain kb mp k = Ok (ng, chain_bits 0 k, kb') /\ rejections kb' = rejections kb /\ recorded (Knowledge kb) (Knowledge kb') mp 0 k.
Proof.
  destruct (gain_loop_records mp k Hp Hk 0 0 _ Hm) as (ng & m' & E & R). unfold gain. rewrite E. cbn [mbind outcome_bind].
  destruct (lacking_loop_ok mp k Hp Hk (chain_bits 0 k) ng m' (proj1 R)) as (ng' & ->). eexists _, _. split; [done|]. split; [done|exact R].
Qed.

(** A chain with a viewer that is no member makes the node panic; the numbers in a
    knowledge message are not checked. *)
Theorem unknown_viewer_panics (kb : Knowledgebase) (mp v : Z) (k1 k2 : list Z) (Hm : is_matrix (Knowledge kb)) (Hp : is_member mp)
    (Hk : Forall is_member k1) (Hv : ~ is_member v) :
  gain kb mp (k1 ++ v :: k2) = Panic.
Proof.
  enough (forall c ng m, is_matrix m -> gain_loop (k1 ++ v :: k2) mp c ng m = Panic) as H by (unfold gain; by rewrite H).
  induction Hk as [|u k1 Hu _ IH]; intros c ng m Hmm; cbn [gain_loop app].
  - by rewrite entry_panics by naive_solver.
  - destruct (entry_ok m mp u Hmm Hp Hu) as (_ & x & _ & _ & ->). cbn [mbind outcome_bind]. case_decide; [|by apply IH].
    destruct (set_entry_ok m mp u (Z.lor x (Z.lor c (bit64 u))) Hmm Hp Hu) as (row & _ & -> & Hm'). by apply IH.
Qed.

(** ** Witnesses *)

Lemma start_matrix : is_matrix (Knowledge CreateKnowledge).
Proof. split; [done|by repeat constructor]. Qed.

Definition known_two : Knowledgebase := MkKnowledgebase [[3; 3; 0]; [0; 0; 0]; [0; 0; 0]] 2.

Lemma qualified_witness : Qualified known_two 1 0 = Ok true /\ Qualified known_two 0 0 = Ok false.
Proof.
  destruct (qualified_counts known_two 1 0 ltac:(split; [done|by repeat constructor]) ltac:(done)) as (r1 & E1 & ->).
  destruct (qualified_counts known_two 0 0 ltac:(split; [done|by repeat constructor]) ltac:(done)) as (r2 & E2 & ->).
  injection E1 as <-. injection E2 as <-. split; vm_compute; reflexivity.
Defined.

Lemma insufficient_witness : Insufficient known_two = Ok false.
Proof. rewrite (insufficient_counts known_two ltac:(cbn; lia)). vm_compute. reflexivity. Defined.

Lemma gain_witness : exists ng kb', gain CreateKnowledge 0 [0; 2] = Ok (ng, 5, kb') /\ (exists x, entry_at (Knowledge kb') 0 2 = Ok x /\ within 5 x) /\
  Knowledge kb' = [[1; 0; 5]; [0; 0; 0]; [0; 0; 0]].
Proof.
  destruct (gain_records_chain CreateKnowledge 0 [0; 2] start_matrix ltac:(done) ltac:(by repeat constructor)) as (ng & kb' & E & _ & R).
  exists ng, kb'. split; [exact E|]. split; [exact (proj2 (proj2 (proj2 R)) [0] 2 [] eq_refl)|]. vm_compute in E. injection E as <- <-. reflexivity.
Defined.

Lemma unknown_viewer_witness : gain CreateKnowledge 1 ([1] ++ 100 :: []) = Panic.
Proof. apply (unknown_viewer_panics CreateKnowledge 1 100 [1] []); [exact start_matrix|done|by repeat constructor|by intros []]. Defined.
