(* ===== verification/Syncer.v ===== *)
(** * The consensus protocol of a committee

    Models omega/consensus/syncer.go, and from omega/consensus/miner.go the state that the
    syncers share and the check of signatures.  A syncer runs the protocol for one height:
    it takes the blocks of the members and their messages from a queue, one at a time, and a
    ticker calls the repeater.  Keys, signatures, hashes and connections are parameters; a
    block is a pointer to its coinbase signatures; sequence numbers of broadcasts, counters
    for debugging and log messages are left out. *)
From Stdlib Require Import ZArith Lia Ascii String.
From stdpp Require Import gmap list.
From S2P Require Import Prelude Wire Token MsgTx MsgBlock WireMsgs WireConsensus WireMessage Knowledge.

Open Scope Z_scope.

(** ** State *)

Record tree := MkTree { t_creator : list Z; t_fees : Z; t_hash : list Z; t_block : ptr; t_know : option MsgKnowledge }.

Inductive command := CDebug | CTree (t : tree) | CMsg (m : message).

(** What leaves the node: a message to a member, a broadcast, a message to a peer, a block
    with enough signatures. *)
Inductive event :=
  | Send (to : list Z) (m : message)
  | Cast (m : message)
  | Queue (peer : Z) (m : message)
  | Publish (block : ptr).

Record Syncer := MkSyncer {
  Runnable : bool;
  Done : bool;
  Base : Z;
  Members : gmap (list Z) Z;
  Names : gmap Z (list Z);
  Me : list Z;
  Myself : Z;
  Malice : gset (list Z);
  asked : list (option MsgCandidate);
  agrees : gset Z;
  blocks : gmap (list Z) ptr;
  agreed : Z;
  sigGiven : Z;
  forest : gmap (list Z) tree;
  signers : gset (list Z);
  knowledges : Knowledgebase;
  commands : list command;
  Height : Z;
  pulling : gmap Z Z;
  pulltime : gmap Z Z;
}.

Definition set_Runnable (v : bool) (s : Syncer) : Syncer :=
  MkSyncer v (Done s) (Base s) (Members s) (Names s) (Me s) (Myself s) (Malice s) (asked s) (agrees s) (blocks s) (agreed s) (sigGiven s) (forest s) (signers s) (knowledges s) (commands s) (Height s) (pulling s) (pulltime s).
Definition set_Done (v : bool) (s : Syncer) : Syncer :=
  MkSyncer (Runnable s) v (Base s) (Members s) (Names s) (Me s) (Myself s) (Malice s) (asked s) (agrees s) (blocks s) (agreed s) (sigGiven s) (forest s) (signers s) (knowledges s) (commands s) (Height s) (pulling s) (pulltime s).
Definition set_Base (v : Z) (s : Syncer) : Syncer :=
  MkSyncer (Runnable s) (Done s) v (Members s) (Names s) (Me s) (Myself s) (Malice s) (asked s) (agrees s) (blocks s) (agreed s) (sigGiven s) (forest s) (signers s) (knowledges s) (commands s) (Height s) (pulling s) (pulltime s).
Definition set_Members (v : gmap (list Z) Z) (s : Syncer) : Syncer :=
  MkSyncer (Runnable s) (Done s) (Base s) v (Names s) (Me s) (Myself s) (Malice s) (asked s) (agrees s) (blocks s) (agreed s) (sigGiven s) (forest s) (signers s) (knowledges s) (commands s) (Height s) (pulling s) (pulltime s).
Definition set_Names (v : gmap Z (list Z)) (s : Syncer) : Syncer :=
  MkSyncer (Runnable s) (Done s) (Base s) (Members s) v (Me s) (Myself s) (Malice s) (asked s) (agrees s) (blocks s) (agreed s) (sigGiven s) (forest s) (signers s) (knowledges s) (commands s) (Height s) (pulling s) (pulltime s).
Definition set_Me (v : list Z) (s : Syncer) : Syncer :=
  MkSyncer (Runnable s) (Done s) (Base s) (Members s) (Names s) v (Myself s) (Malice s) (asked s) (agrees s) (blocks s) (agreed s) (sigGiven s) (forest s) (signers s) (knowledges s) (commands s) (Height s) (pulling s) (pulltime s).
Definition set_Myself (v : Z) (s : Syncer) : Syncer :=
  MkSyncer (Runnable s) (Done s) (Base s) (Members s) (Names s) (Me s) v (Malice s) (asked s) (agrees s) (blocks s) (agreed s) (sigGiven s) (forest s) (signers s) (knowledges s) (commands s) (Height s) (pulling s) (pulltime s).
Definition set_Malice (v : gset (list Z)) (s : Syncer) : Syncer :=
  MkSyncer (Runnable s) (Done s) (Base s) (Members s) (Names s) (Me s) (Myself s) v (asked s) (agrees s) (blocks s) (agreed s) (sigGiven s) (forest s) (signers s) (knowledges s) (commands s) (Height s) (pulling s) (pulltime s).
Definition set_asked (v : list (option MsgCandidate)) (s : Syncer) : Syncer :=
  MkSyncer (Runnable s) (Done s) (Base s) (Members s) (Names s) (Me s) (Myself s) (Malice s) v (agrees s) (blocks s) (agreed s) (sigGiven s) (forest s) (signers s) (knowledges s) (commands s) (Height s) (pulling s) (pulltime s).
Definition set_agrees (v : gset Z) (s : Syncer) : Syncer :=
  MkSyncer (Runnable s) (Done s) (Base s) (Members s) (Names s) (Me s) (Myself s) (Malice s) (asked s) v (blocks s) (agreed s) (sigGiven s) (forest s) (signers s) (knowledges s) (commands s) (Height s) (pulling s) (pulltime s).
Definition set_blocks (v : gmap (list Z) ptr) (s : Syncer) : Syncer :=
  MkSyncer (Runnable s) (Done s) (Base s) (Members s) (Names s) (Me s) (Myself s) (Malice s) (asked s) (agrees s) v (agreed s) (sigGiven s) (forest s) (signers s) (knowledges s) (commands s) (Height s) (pulling s) (pulltime s).
Definition set_agreed (v : Z) (s : Syncer) : Syncer :=
  MkSyncer (Runnable s) (Done s) (Base s) (Members s) (Names s) (Me s) (Myself s) (Malice s) (asked s) (agrees s) (blocks s) v (sigGiven s) (forest s) (signers s) (knowledges s) (commands s) (Height s) (pulling s) (pulltime s).
Definition set_sigGiven (v : Z) (s : Syncer) : Syncer :=
  MkSyncer (Runnable s) (Done s) (Base s) (Members s) (Names s) (Me s) (Myself s) (Malice s) (asked s) (agrees s) (blocks s) (agreed s) v (forest s) (signers s) (knowledges s) (commands s) (Height s) (pulling s) (pulltime s).
Definition set_forest (v : gmap (list Z) tree) (s : Syncer) : Syncer :=
  MkSyncer (Runnable s) (Done s) (Base s) (Members s) (Names s) (Me s) (Myself s) (Malice s) (asked s) (agrees s) (blocks s) (agreed s) (sigGiven s) v (signers s) (knowledges s) (commands s) (Height s) (pulling s) (pulltime s).
Definition set_signers (v : gset (list Z)) (s : Syncer) : Syncer :=
  MkSyncer (Runnable s) (Done s) (Base s) (Members s) (Names s) (Me s) (Myself s) (Malice s) (asked s) (agrees s) (blocks s) (agreed s) (sigGiven s) (forest s) v (knowledges s) (commands s) (Height s) (pulling s) (pulltime s).
Definition set_knowledges (v : Knowledgebase) (s : Syncer) : Syncer :=
  MkSyncer (Runnable s) (Done s) (Base s) (Members s) (Names s) (Me s) (Myself s) (Malice s) (asked s) (agrees s) (blocks s) (agreed s) (sigGiven s) (forest s) (signers s) v (commands s) (Height s) (pulling s) (pulltime s).
Definition set_commands (v : list command) (s : Syncer) : Syncer :=
  MkSyncer (Runnable s) (Done s) (Base s) (Members s) (Names s) (Me s) (Myself s) (Malice s) (asked s) (agrees s) (blocks s) (agreed s) (sigGiven s) (forest s) (signers s) (knowledges s) v (Height s) (pulling s) (pulltime s).
Definition set_pulling (v : gmap Z Z) (s : Syncer) : Syncer :=
  MkSyncer (Runnable s) (Done s) (Base s) (Members s) (Names s) (Me s) (Myself s) (Malice s) (asked s) (agrees s) (blocks s) (agreed s) (sigGiven s) (forest s) (signers s) (knowledges s) (commands s) (Height s) v (pulltime s).
Definition set_pulltime (v : gmap Z Z) (s : Syncer) : Syncer :=
  MkSyncer (Runnable s) (Done s) (Base s) (Members s) (Names s) (Me s) (Myself s) (Malice s) (asked s) (agrees s) (blocks s) (agreed s) (sigGiven s) (forest s) (signers s) (knowledges s) (commands s) (Height s) (pulling s) v.

(** The node: the syncer, the coinbase signatures of the blocks it holds, and what the
    syncers share. *)
Record node := MkNode {
  sy : Syncer;
  heap : gmap loc (list (list Z));
  lastSignedBlock : Z;
  allblks : gmap (list Z) ptr;
  knownsrc : gmap (list Z) Z;
  pulls : gmap (list Z) Z;
  clock : Z;
  out : list event;
}.

Definition set_sy (v : Syncer) (n : node) : node := MkNode v (heap n) (lastSignedBlock n) (allblks n) (knownsrc n) (pulls n) (clock n) (out n).
Definition set_heap (v : gmap loc (list (list Z))) (n : node) : node := MkNode (sy n) v (lastSignedBlock n) (allblks n) (knownsrc n) (pulls n) (clock n) (out n).
Definition set_lastSignedBlock (v : Z) (n : node) : node := MkNode (sy n) (heap n) v (allblks n) (knownsrc n) (pulls n) (clock n) (out n).
Definition set_allblks (v : gmap (list Z) ptr) (n : node) : node := MkNode (sy n) (heap n) (lastSignedBlock n) v (knownsrc n) (pulls n) (clock n) (out n).
Definition set_pulls (v : gmap (list Z) Z) (n : node) : node := MkNode (sy n) (heap n) (lastSignedBlock n) (allblks n) (knownsrc n) v (clock n) (out n).
Definition set_out (v : list event) (n : node) : node := MkNode (sy n) (heap n) (lastSignedBlock n) (allblks n) (knownsrc n) (pulls n) (clock n) v.

(** ** Actions: a state that a Go panic or a wait without end leaves *)

Definition act (A : Type) : Type := node -> outcome (A * node).
Global Instance act_ret : MRet act := fun A a n => Ok (a, n).
Global Instance act_bind : MBind act := fun A B k m n => match m n with Ok (a, n) => k a n | Panic => Panic | NoFuel => NoFuel end.
Definition gets {A} (f : Syncer -> A) : act A := fun n => Ok (f (sy n), n).
Definition upd (f : Syncer -> Syncer) : act unit := fun n => Ok ((), set_sy (f (sy n)) n).
Definition lift {A} (o : outcome A) : act A := fun n => match o with Ok a => Ok (a, n) | Panic => Panic | NoFuel => NoFuel end.
Definition apanic {A} : act A := fun _ => Panic.
Definition emit (e : event) : act unit := fun n => Ok ((), set_out (out n ++ [e]) n).
Definition when (b : bool) (m : act unit) : act unit := if b then m else mret ().
Fixpoint each {A} (l : list A) (f : A -> act unit) : act unit := match l with [] => mret () | x :: l => _ ← f x; each l f end.

(** A map gives the zero value for a key it does not have. *)
Definition zero_addr : list Z := replicate 20 0.
Definition member (p : list Z) (s : Syncer) : Z := default 0 (Members s !! p).
Definition name (i : Z) (s : Syncer) : list Z := default zero_addr (Names s !! i).

(** A field of a missing tree is read through a nil pointer. *)
Definition tree_of (p : list Z) : act tree := f ← gets forest; match f !! p with Some t => mret t | None => apanic end.
Definition has_tree (p : list Z) : act (option tree) := f ← gets forest; mret (f !! p).

Definition is_nil (p : ptr) : bool := match p with None => true | Some _ => false end.

(** The queue holds 100 commands; a send to a full queue waits for ever. *)
Definition enqueue (c : command) : act unit :=
  q ← gets commands; if decide (len q < 100) then upd (set_commands (q ++ [c])) else fun _ => NoFuel.

(** The coinbase signatures of the block of [p] become [f] of them. *)
Definition store_sigs (b : ptr) (f : list (list Z) -> outcome (list (list Z))) (n : node) : outcome (unit * node) :=
  s ← load (heap n) b; s ← f s; h ← modify (heap n) b (fun _ => s); Ok ((), set_heap h n).
Definition block_sigs (b : ptr) : act (list (list Z)) := fun n => match load (heap n) b with Ok s => Ok (s, n) | Panic => Panic | NoFuel => NoFuel end.
Definition change_sigs (p : list Z) (f : list (list Z) -> outcome (list (list Z))) : act unit := t ← tree_of p; store_sigs (t_block t) f.
Definition first_sig (s : list (list Z)) : outcome (list (list Z)) := slice_sub s 0 1.
Definition add_sig (x : list Z) (s : list (list Z)) : outcome (list (list Z)) := Ok (s ++ [x]).

(** [UpdateLastWritten] of miner.go *)
Definition UpdateLastWritten (last : Z) : act bool := fun n =>
  if decide (lastSignedBlock n < last) then Ok (true, set_lastSignedBlock last n) else Ok (false, n).

Definition PubKeyBytesLenCompressed : Z := 33.
Definition InvTypeWitnessBlock : Z := Z.lor 2 (2 ^ 30).
Definition cnst : list Z := str "cnst"%string.
Definition rjct : list Z := str "rjct"%string.

Section Protocol.
(** The double hash; the signature of the own key with the public key before it; the
    signer of a signature script; keys and signatures of the curve; whether a member is
    reached directly, and is connected. *)
Context (DoubleHashB : list Z -> list Z).
Context (PrivKey : option (list Z -> list Z)).
Context (VerifySigScript : list Z -> list Z -> option (list Z)).
Context {PublicKey Signature' : Type} (ParsePubKey : list Z -> option PublicKey) (ParseDERSignature : list Z -> option Signature')
  (Verify : Signature' -> list Z -> PublicKey -> bool).
Context (reaches : list Z -> Z -> bool) (Connected : list Z -> bool).

(** ** Signatures *)

Definition MakeMinerSigHash (height : Z) (hash : list Z) : list Z :=
  DoubleHashB (str "Omega chain Miner block "%string ++ hash ++ PutUint32 (u32 height) ++ replicate 11 0).

Definition sign_candidate (k : list Z -> list Z) (m : MsgCandidate) : MsgCandidate :=
  MkCandidate (cd_Height m) (cd_F m) (cd_M m) (k (candidate_DoubleHashB DoubleHashB m)) (cd_Seq m).
Definition sign_resp (k : list Z -> list Z) (m : MsgCandidateResp) : MsgCandidateResp :=
  MkCandidateResp (cr_Height m) (cr_Reply m) (cr_K m) (cr_Better m) (cr_From m) (cr_M m) (k (candidateresp_DoubleHashB DoubleHashB m)) (cr_Seq m).
Definition sign_release (k : list Z -> list Z) (m : MsgRelease) : MsgRelease :=
  MkRelease (rl_Height m) (rl_From m) (rl_Better m) (rl_M m) (k (release_DoubleHashB DoubleHashB m)) (rl_Seq m).

(** [AddK] of msgknowledge.go: the signature is over the chain with the new viewer. *)
Definition AddK (m : MsgKnowledge) (v : Z) (key : option (list Z -> list Z)) : MsgKnowledge :=
  match key with
  | None => m
  | Some k =>
      let m := MkKnowledge (kn_Height m) (kn_K m ++ [v]) (kn_M m) (kn_Finder m) (kn_From m) (kn_Signatures m) (kn_Seq m) in
      MkKnowledge (kn_Height m) (kn_K m) (kn_M m) (kn_Finder m) (kn_From m) (kn_Signatures m ++ [k (knowledge_DoubleHashB DoubleHashB m)]) (kn_Seq m)
  end.
Definition set_From (m : MsgKnowledge) (f : list Z) : MsgKnowledge :=
  MkKnowledge (kn_Height m) (kn_K m) (kn_M m) (kn_Finder m) f (kn_Signatures m) (kn_Seq m).

(** The signature of a block: a public key and a signature of the curve. *)
Definition block_signature_ok (sig hash : list Z) : outcome bool :=
  pk ← slice_sub sig 0 PubKeyBytesLenCompressed;
  match ParsePubKey pk with
  | None => Ok false
  | Some k =>
      rest ← slice_sub sig PubKeyBytesLenCompressed (len sig);
      match ParseDERSignature rest with None => Ok false | Some s => Ok (Verify s hash k) end
  end.

(** The chain of signatures of a knowledge message: each viewer signs the message up to
    itself, from the signer before it.  It gives the last signer. *)
Fixpoint check_chain (K : list Z) (j : Z) (sigs : list (list Z)) (tmsg : MsgKnowledge) : outcome (option (list Z)) :=
  match K with
  | [] => Ok (Some (kn_From tmsg))
  | i :: K =>
      sig ← slice_get sigs j;
      let t := MkKnowledge (kn_Height tmsg) (kn_K tmsg ++ [i]) (kn_M tmsg) (kn_Finder tmsg) (kn_From tmsg) (kn_Signatures tmsg) (kn_Seq tmsg) in
      match VerifySigScript sig (knowledge_DoubleHashB DoubleHashB t) with
      | None => Ok None
      | Some signer =>
          check_chain K (j + 1) sigs (MkKnowledge (kn_Height t) (kn_K t) (kn_M t) (kn_Finder t) signer (kn_Signatures t ++ [sig]) (kn_Seq t))
      end
  end.
Definition chain_signer (m : MsgKnowledge) : outcome (option (list Z)) :=
  check_chain (kn_K m) 0 (kn_Signatures m) (MkKnowledge (kn_Height m) [] (kn_M m) (kn_Finder m) (kn_Finder m) [] (kn_Seq m)).

(** [VerifySig] of miner.go, on a node that takes part: a signature that is too short, or
    that is no signature of the curve, is not refused. *)
Definition VerifySig (m : message) : outcome bool :=
  let block_sig height hash sig :=
    pk ← slice_sub sig 0 PubKeyBytesLenCompressed;
    match ParsePubKey pk with
    | None => Ok false
    | Some k =>
        rest ← slice_sub sig PubKeyBytesLenCompressed (len sig);
        match ParseDERSignature rest with None => Panic | Some s => Ok (Verify s (MakeMinerSigHash height hash) k) end
    end in
  let script sig hash := Ok (match VerifySigScript sig hash with Some _ => true | None => false end) in
  match m with
  | MPull _ => Ok true
  | MKnowledge m => s ← chain_signer m; Ok (match s with Some _ => true | None => false end)
  | MConsensus m => block_sig (cs_Height m) (cs_M m) (cs_Signature m)
  | MSignature m => block_sig (cs_Height (sg_Consensus m)) (cs_M (sg_Consensus m)) (cs_Signature (sg_Consensus m))
  | MCandidate m => script (cd_Signature m) (candidate_DoubleHashB DoubleHashB m)
  | MCandidateReply m => script (cr_Signature m) (candidateresp_DoubleHashB DoubleHashB m)
  | MRelease m => script (rl_Signature m) (release_DoubleHashB DoubleHashB m)
  | _ => Ok false
  end.

(** ** Sending *)

Definition CommitteeMsgMG (p : list Z) (m : message) : act unit :=
  mem ← gets Members;
  base ← gets Base;
  match mem !! p with
  | Some h => if reaches p (h + base) then emit (Send p m) else emit (Cast m)
  | None => emit (Cast m)
  end.

Definition CommitteeCastMG (m : message) : act unit :=
  l ← gets (fun s => map_to_list (Names s));
  me ← gets Myself;
  each l (fun '(i, p) => if decide (i = me) then mret () else CommitteeMsgMG p m).

(** [pull] of the syncer: a block is asked for, and again after five more requests. *)
Definition note_pull (from : Z) (n : node) : outcome (unit * node) :=
  Ok ((), set_sy (set_pulltime (<[from := clock n]> (pulltime (sy n))) (set_pulling (<[from := 5]> (pulling (sy n))) (sy n))) n).
Definition pull (hash : list Z) (from : Z) : act unit :=
  p ← gets pulling;
  let k := default 0 (p !! from) in
  if decide (k = 0) then to ← gets (name from); _ ← CommitteeMsgMG to (MGetData [MkInvVect InvTypeWitnessBlock hash]); note_pull from
  else upd (set_pulling (<[from := k - 1]> p)).

(** [pull] of miner.go, from the peer that is known to have the block. *)
Definition ask_known (peer : Z) (hash : list Z) (h : Z) (n : node) : outcome (unit * node) :=
  Ok ((), set_pulls (<[hash := clock n]> (pulls n)) (set_out (out n ++ [Queue peer (MPull (MkPull h hash 0))]) n)).
Definition pull_known (hash : list Z) (h : Z) : act unit := fun n =>
  match knownsrc n !! hash with
  | None => Ok ((), n)
  | Some p =>
      match pulls n !! hash with
      | Some t => if decide (t + 5 < clock n) then ask_known p hash h n else Ok ((), n)
      | None => ask_known p hash h n
      end
  end.

(** ** Candidates *)

(** The better tree has higher fees, or the same fees and a lower number. *)
Definition better (left right : Z) (s : Syncer) : bool :=
  match forest s !! name left s with
  | None => false
  | Some l =>
      match forest s !! name right s with
      | None => true
      | Some r => bool_decide (t_fees r < t_fees l \/ (t_fees l = t_fees r /\ left < right))
      end
  end.

(** [best] over the trees in the order [l] of the map. *)
Fixpoint best_loop (s : Syncer) (l : list (list Z * tree)) (seld : option (list Z)) : outcome (option (list Z)) :=
  match l with
  | [] => Ok seld
  | (who, t) :: l =>
      match seld with
      | None => best_loop s l (if is_nil (t_block t) then None else Some who)
      | Some p =>
          if is_nil (t_block t) then best_loop s l seld
          else match forest s !! p with
          | None => Panic
          | Some b =>
              best_loop s l (if decide (t_fees b < t_fees t \/ (t_fees t = t_fees b /\ member who s < member p s)) then Some who else seld)
          end
      end
  end.
Definition best_of (s : Syncer) (l : list (list Z * tree)) : outcome Z :=
  seld ← best_loop s l None; Ok (match seld with None => -1 | Some p => member p s end).
Definition best (s : Syncer) : outcome Z := best_of s (map_to_list (forest s)).
Definition choose_best : act Z := b ← gets best; lift b.

Definition qualified (who : Z) : act bool := k ← gets knowledges; me ← gets Myself; lift (Qualified k me who).
Definition asked_at (i : Z) : act (option MsgCandidate) := a ← gets asked; lift (slice_get a i).
Definition set_asked_at (i : Z) (m : option MsgCandidate) : act unit := a ← gets asked; a ← lift (slice_set a i m); upd (set_asked a).

Definition NewMsgCandidate (h : Z) (f m : list Z) : MsgCandidate := MkCandidate h f m [] 0.

Definition makeRelease (btr : Z) : act MsgRelease :=
  h ← (if decide (btr <> -1) then p ← gets (name btr); t ← tree_of p; mret (t_hash t) else mret zero_hash);
  height ← gets Height;
  me ← gets Me;
  let d := MkRelease height me btr h [] 0 in
  mret (match PrivKey with Some k => sign_release k d | None => d end).

(** A reply is sent when there is a key. *)
Definition send_resp (to : list Z) (d : MsgCandidateResp) : act unit :=
  match PrivKey with Some k => CommitteeMsgMG to (MCandidateReply (sign_resp k d)) | None => mret () end.

Definition yield (btr : Z) : act bool :=
  a ← gets agreed;
  b ← gets (better btr a);
  if decide (btr <> a /\ b = true) then
    rls ← makeRelease btr;
    l ← gets (fun s => elements (agrees s));
    me ← gets Myself;
    _ ← each l (fun r => if decide (r <> me) then p ← gets (name r); CommitteeMsgMG p (MRelease rls) else mret ());
    _ ← upd (fun s => set_knowledges (Rejected (knowledges s) (-1)) (set_agreed (-1) (set_agrees ∅ s)));
    ask ← asked_at btr;
    _ ← (match ask with
         | Some _ =>
             if decide (btr <> me) then
               p ← gets (name btr);
               t ← tree_of p;
               height ← gets Height;
               self ← gets Me;
               _ ← send_resp p (MkCandidateResp height cnst [] btr self (t_hash t) [] 0);
               _ ← upd (set_agreed btr);
               set_asked_at btr None
             else mret ()
         | None => mret ()
         end);
    mret true
  else mret false.

(** The last member, from [i] on, that has asked and is better and qualified. *)
Fixpoint better_loop (n : nat) (i btr : Z) : act Z :=
  match n with
  | O => mret btr
  | S n =>
      a ← asked_at i;
      b ← gets (better i btr);
      match a with
      | Some _ => if decide (i <> btr /\ b = true) then q ← qualified i; better_loop n (i + 1) (if q : bool then i else btr) else better_loop n (i + 1) btr
      | None => better_loop n (i + 1) btr
      end
  end.

Definition candidacy : act bool :=
  a ← gets agreed;
  me ← gets Myself;
  if decide (a <> me /\ a <> -1) then mret false
  else
    q ← qualified me;
    if negb q then mret false
    else
      btr ← better_loop (Z.to_nat CommitteeSize) 0 me;
      if decide (btr <> me) then mret false
      else
        _ ← upd (fun s => set_knowledges (Rejected (knowledges s) (-1)) (set_agrees ({[me]} ∪ agrees s) (set_agreed me s)));
        height ← gets Height;
        self ← gets Me;
        t ← tree_of self;
        _ ← (match PrivKey with
             | Some k => CommitteeCastMG (MCandidate (sign_candidate k (NewMsgCandidate height self (t_hash t))))
             | None => mret ()
             end);
        mret true.

(** ** Signing *)

Definition consensus_msg (k : list Z -> list Z) (height : Z) (from m hash : list Z) : MsgConsensus := MkConsensus height from m (k (MakeMinerSigHash height hash)) 0.

Definition ckconsensus (bc : bool) : act bool :=
  a ← gets agreed;
  me ← gets Myself;
  ags ← gets agrees;
  if decide (a <> me \/ Z.of_nat (size ags) < CommitteeSigs) then mret false
  else
    self ← gets Me;
    t ← has_tree self;
    match t with
    | None => mret false
    | Some t =>
        if is_nil (t_block t) then mret false
        else
          height ← gets Height;
          g ← gets sigGiven;
          match PrivKey with
          | Some k =>
              if decide (g = -1) then
                u ← UpdateLastWritten height;
                if decide (u = false /\ g <> me) then mret false
                else
                  _ ← upd (set_sigGiven me);
                  let msg := consensus_msg k height self (t_hash t) (t_hash t) in
                  _ ← change_sigs self first_sig;
                  _ ← change_sigs self (add_sig (cs_Signature msg));
                  _ ← upd (fun s => set_signers ({[self]} ∪ signers s) s);
                  _ ← (if bc then emit (Cast (MConsensus msg)) else CommitteeCastMG (MConsensus msg));
                  mret true
              else mret false
          | None => mret false
          end
    end.

(** A signature that has been received. *)
Definition Signature (msg : MsgSignature) : act bool :=
  let c := sg_Consensus msg in
  a ← gets agreed;
  if decide (a = -1) then mret false
  else
    p ← gets (name a);
    f ← has_tree p;
    match f with
    | None => mret false
    | Some f =>
        if decide (cs_M c <> t_hash f) then mret false
        else
          sg ← gets signers;
          if decide (cs_From c ∈ sg) then mret (bool_decide (CommitteeSigs <= Z.of_nat (size sg)))
          else
            g ← has_tree (sg_For msg);
            mem ← gets (member (sg_For msg));
            let tr := match g with Some g => if decide (cs_M c = t_hash g /\ is_nil (t_block g) = false) then mem else -1 | None => -1 end in
            if decide (tr < 0 \/ tr <> a) then mret false
            else
              owner ← gets (name tr);
              height ← gets Height;
              ok ← lift (block_signature_ok (cs_Signature c) (MakeMinerSigHash height (cs_M c)));
              if negb ok then mret false
              else
                g ← gets sigGiven;
                _ ← (if decide (g = -1) then change_sigs owner first_sig else mret ());
                u ← UpdateLastWritten height;
                if decide (u = false /\ g <> tr) then mret false
                else
                  _ ← upd (set_sigGiven tr);
                  _ ← change_sigs owner (add_sig (cs_Signature c));
                  _ ← upd (fun s => set_signers ({[cs_From c]} ∪ signers s) s);
                  sg ← gets signers;
                  mret (bool_decide (CommitteeSigs <= Z.of_nat (size sg)))
    end.

(** A member has reached consensus: the own signature is sent to all, and both signatures
    enter the block. *)
Definition Consensus (msg : MsgConsensus) : act bool :=
  a ← gets agreed;
  mem ← gets (member (cs_From msg));
  if decide (a <> mem) then mret false
  else
    height ← gets Height;
    t ← tree_of (cs_From msg);
    let hash := MakeMinerSigHash height (t_hash t) in
    ok ← lift (block_signature_ok (cs_Signature msg) hash);
    if negb ok then mret false
    else match PrivKey with
    | None => mret false
    | Some k =>
        self ← gets Me;
        let sigmsg := MkSignature (consensus_msg k height self (cs_M msg) (t_hash t)) (cs_From msg) in
        _ ← CommitteeCastMG (MSignature sigmsg);
        g ← gets sigGiven;
        go ← (if decide (g = -1) then
                u ← UpdateLastWritten height;
                if decide (u = false /\ g <> a) then mret false
                else
                  _ ← upd (set_sigGiven a);
                  _ ← (if is_nil (t_block t) then mret ()
                       else
                         _ ← change_sigs (cs_From msg) first_sig;
                         _ ← change_sigs (cs_From msg) (add_sig (cs_Signature (sg_Consensus sigmsg)));
                         upd (fun s => set_signers ({[self]} ∪ signers s) s));
                  mret true
              else mret true);
        if negb go then mret false
        else
          sg ← gets signers;
          if decide (cs_From msg ∉ sg /\ is_nil (t_block t) = false) then
            _ ← upd (fun s => set_signers ({[cs_From msg]} ∪ signers s) s);
            _ ← change_sigs (cs_From msg) (add_sig (cs_Signature msg));
            sigs ← block_sigs (t_block t);
            mret (bool_decide (CommitteeSigs < len sigs))
          else mret false
    end.

(** ** Releases and replies *)

Definition forget_member (w : Z) : act unit := k ← gets knowledges; k ← lift (forget k w); upd (set_knowledges k).

Definition Release (msg : MsgRelease) : act unit :=
  sg ← gets signers;
  if decide (rl_From msg ∈ sg) then mret ()
  else
    w ← gets (member (rl_From msg));
    _ ← set_asked_at w None;
    _ ← upd (fun s => set_agrees (agrees s ∖ {[w]}) s);
    t ← has_tree (rl_From msg);
    _ ← (match t with
         | Some t => upd (fun s => set_forest (delete (rl_From msg) (forest s)) (set_blocks (delete (t_hash t) (blocks s)) s))
         | None => mret ()
         end);
    _ ← forget_member w;
    a ← gets agreed;
    if decide (a = w) then _ ← upd (set_agreed (-1)); _ ← candidacy; mret () else mret ().

(** The candidacy is given up when not enough members are left. *)
Definition renounce (from : list Z) : act unit :=
  k ← gets knowledges;
  ins ← lift (Insufficient k);
  when ins (
    a ← gets agreed;
    rls ← makeRelease a;
    _ ← CommitteeMsgMG from (MRelease rls);
    upd (fun s => set_knowledges (Rejected (knowledges s) (-1)) (set_agrees ∅ (set_agreed (-1) s)))).

(** A candidacy that is reaffirmed is sent to its own sender. *)
Definition candidateResp (msg : MsgCandidateResp) : act unit :=
  a ← gets agreed;
  me ← gets Myself;
  from ← gets (member (cr_From msg));
  if decide (cr_Reply msg = cnst /\ a = me) then
    _ ← upd (fun s => set_agrees ({[from]} ∪ agrees s) s);
    _ ← ckconsensus false;
    mret ()
  else if decide (cr_Reply msg = cnst) then rls ← makeRelease a; CommitteeMsgMG (cr_From msg) (MRelease rls)
  else if decide (cr_Reply msg = rjct /\ a = me) then
    _ ← upd (fun s => set_knowledges (Rejected (knowledges s) from) s);
    if decide (cr_Better msg = -1) then renounce (cr_From msg)
    else
      p ← gets (name (cr_Better msg));
      t ← has_tree p;
      match t with
      | None => mret ()
      | Some t =>
          if is_nil (t_block t) then mret ()
          else
            y ← yield (cr_Better msg);
            if negb y then
              self ← gets Me;
              height ← gets Height;
              t ← tree_of self;
              match PrivKey with
              | Some k => CommitteeMsgMG self (MCandidate (sign_candidate k (NewMsgCandidate height self (t_hash t))))
              | None => mret ()
              end
            else renounce (cr_From msg)
      end
  else mret ().

(** A candidate asks for consent. *)
Definition Candidate (msg : MsgCandidate) : act unit :=
  self ← gets Me;
  run ← gets Runnable;
  mem ← gets Members;
  match mem !! cd_F msg with
  | None => mret ()
  | Some fmp =>
      if negb run then mret ()
      else
        _ ← set_asked_at fmp (Some msg);
        g ← gets sigGiven;
        to ← gets (name fmp);
        if decide (g <> -1 /\ g <> fmp) then
          match PrivKey with
          | Some k =>
              _ ← CommitteeMsgMG to (MCandidateReply (sign_resp k (MkCandidateResp (cd_Height msg) rjct [] (-1) self (cd_M msg) [] 0)));
              set_asked_at fmp None
          | None => mret ()
          end
        else if decide (g <> -1) then set_asked_at fmp None
        else
          t ← has_tree (cd_F msg);
          match t with
          | None => mret ()
          | Some t =>
              if is_nil (t_block t) then mret ()
              else
                q ← qualified fmp;
                if negb q then mret ()
                else
                  a ← gets agreed;
                  me ← gets Myself;
                  y ← (if decide (a = me) then yield fmp else mret false);
                  if y : bool then mret ()
                  else
                    _ ← set_asked_at fmp None;
                    a ← gets agreed;
                    if decide (a = -1 \/ a = fmp) then
                      _ ← upd (set_agreed fmp);
                      send_resp to (MkCandidateResp (cd_Height msg) cnst [] fmp self (cd_M msg) [] 0)
                    else
                      p ← gets (name a);
                      t ← tree_of p;
                      send_resp to (MkCandidateResp (cd_Height msg) rjct [] a self (t_hash t) [] 0)
          end
  end.

(** ** Knowledge *)

Definition NewKnowledgeMsg : act MsgKnowledge :=
  me ← gets Myself;
  p ← gets (name me);
  t ← tree_of p;
  height ← gets Height;
  mret (AddK (MkKnowledge height [] (t_hash t) p p [] 0) me PrivKey).

(** The own number and signature are added to the chain, the chain is entered, and the
    message goes to the members it tells something. *)
Definition ProcKnowledge (msg : MsgKnowledge) : act bool :=
  mem ← gets Members;
  match mem !! kn_Finder msg, mem !! kn_From msg with
  | Some mp, Some _ =>
      me ← gets Myself;
      self ← gets Me;
      let again := bool_decide (len (kn_K msg) < 2 \/ last (kn_K msg) <> Some me) in
      let tosend := again && match PrivKey with Some _ => true | None => false end in
      let lmg := if tosend then set_From (AddK msg me PrivKey) self else msg in
      kb ← gets knowledges;
      '(ng, res, kb) ← lift (gain kb mp (kn_K lmg));
      _ ← upd (set_knowledges kb);
      row ← lift (slice_get (Knowledge kb) mp);
      _ ← each (imap (fun i q => (Z.of_nat i, q)) row) (fun '(i, q) =>
             if decide (i = me) then mret ()
             else
               imp ← lift (improve (kn_K msg) i);
               when (tosend && bool_decide (len (kn_K lmg) < 3 * CommitteeSize) && (bool_decide (Z.land ng (bit64 i) <> 0) || imp || bool_decide (q = 0)))
                 (p ← gets (name i); CommitteeMsgMG p (MKnowledge lmg)));
      p ← gets (name me);
      mine ← has_tree p;
      kb ← gets knowledges;
      _ ← (match mine with
           | Some _ =>
               if decide (mp <> me) then
                 x ← lift (entry_at (Knowledge kb) me mp);
                 when (bool_decide (Z.land x (bit64 me) = 0)) (l ← NewKnowledgeMsg; q ← gets (name mp); CommitteeMsgMG q (MKnowledge l))
               else mret ()
           | None => mret ()
           end);
      mret (bool_decide (res <> 0))
  | _, _ => mret false
  end.

(** ** Messages *)

(** A message of [finder]: it is a member, it is not known as malicious, the signature is
    its own, and the block is the one it has announced. *)
Definition message_signer (msg : message) : outcome bool :=
  let own sig hash sender := Ok (match VerifySigScript sig hash with Some p => bool_decide (sender = p) | None => false end) in
  match msg with
  | MKnowledge m => s ← chain_signer m; Ok (match s with Some _ => true | None => false end)
  | MCandidate m => own (cd_Signature m) (candidate_DoubleHashB DoubleHashB m) (cd_F m)
  | MCandidateReply m => own (cr_Signature m) (candidateresp_DoubleHashB DoubleHashB m) (cr_From m)
  | MRelease m => own (rl_Signature m) (release_DoubleHashB DoubleHashB m) (rl_From m)
  | _ => Ok true
  end.
Definition validateMsg (finder : list Z) (m : option (list Z)) (msg : option message) : act bool :=
  run ← gets Runnable;
  done ← gets Done;
  mal ← gets Malice;
  mem ← gets Members;
  if negb run || done then mret false
  else if decide (finder ∈ mal) then mret false
  else match mem !! finder, msg with
  | None, _ => mret false
  | Some _, None => mret true
  | Some w, Some msg =>
      ok ← lift (message_signer msg);
      if negb ok then mret false
      else
        t ← has_tree finder;
        match m, t with
        | Some h, None => _ ← upd (fun s => set_forest (<[finder := MkTree finder 0 h None None]> (forest s)) s); _ ← pull h w; mret true
        | Some h, Some t => mret (bool_decide (t_hash t = h))
        | None, _ => mret true
        end
  end.

(** The tree [f] of the creator of [t], with its block. *)
Definition enter_tree (t f : tree) : act unit := fun n =>
  Ok ((), set_allblks (<[t_hash t := t_block t]> (allblks n))
           (set_sy (set_blocks (<[t_hash t := t_block t]> (blocks (sy n))) (set_forest (<[t_creator t := f]> (forest (sy n))) (sy n))) n)).

(** A block of a member. *)
Definition new_tree (t : tree) : act bool :=
  g ← gets sigGiven;
  if decide (0 <= g) then mret false
  else
    ok ← validateMsg (t_creator t) None None;
    if negb ok then mret false
    else
      c ← gets (member (t_creator t));
      self ← gets Me;
      f ← has_tree (t_creator t);
      go ← (match f with
            | None => _ ← enter_tree t t; mret true
            | Some f =>
                if is_nil (t_block f) then
                  _ ← enter_tree t (MkTree (t_creator f) (t_fees t) (t_hash f) (t_block t) (t_know f)); mret true
                else if decide (t_hash f <> zero_hash /\ t_hash t <> t_hash f) then
                  if decide (self = t_creator t) then mret false
                  else
                    _ ← upd (fun s => set_Malice ({[t_creator t]} ∪ Malice s) (set_forest (delete (t_creator t) (forest s)) s));
                    k ← gets knowledges;
                    k ← lift (kb_Malice k c);
                    _ ← upd (set_knowledges k);
                    mret true
                else mret true
            end);
      if negb go then mret false
      else
        _ ← when (negb (is_nil (t_block t))) (upd (fun s => set_pulling (if pulltime s !! c is Some _ then delete c (pulling s) else pulling s) (set_pulltime (delete c (pulltime s)) s)));
        _ ← (if decide (t_creator t = self) then k ← NewKnowledgeMsg; enqueue (CMsg (MKnowledge k)) else mret ());
        mret false.

Definition set_know (p : list Z) (k : MsgKnowledge) : act unit :=
  t ← tree_of p; upd (fun s => set_forest (<[p := MkTree (t_creator t) (t_fees t) (t_hash t) (t_block t) (Some k)]> (forest s)) s).

Definition on_knowledge (k : MsgKnowledge) : act bool :=
  g ← gets sigGiven;
  if decide (0 <= g) then mret false
  else
    ok ← validateMsg (kn_Finder k) (Some (kn_M k)) (Some (MKnowledge k));
    if negb ok then mret false
    else
      t ← tree_of (kn_Finder k);
      _ ← (if decide (t_hash t <> kn_M k) then
             w ← gets (member (kn_Finder k));
             _ ← upd (fun s => set_forest (<[kn_Finder k := MkTree (kn_Finder k) 0 (kn_M k) None None]> (forest s)) s);
             _ ← forget_member w;
             a ← gets agreed;
             _ ← (if decide (a = w) then upd (fun s => set_signers ∅ (set_agrees ∅ (set_sigGiven (-1) (set_agreed (-1) s)))) else mret ());
             height ← gets Height;
             pull_known (kn_M k) height
           else mret ());
      t ← tree_of (kn_Finder k);
      _ ← (if match t_know t with None => true | Some o => bool_decide (len (kn_K o) < len (kn_K k)) end then set_know (kn_Finder k) k else mret ());
      _ ← ProcKnowledge k;
      c ← candidacy;
      _ ← when c (
        a ← gets asked;
        me ← gets Myself;
        each (imap (fun i v => (Z.of_nat i, v)) a) (fun '(i, v) =>
          match v with Some v => if decide (i <> me) then enqueue (CMsg (MCandidate v)) else mret () | None => mret () end));
      mret false.

Definition on_candidate (k : MsgCandidate) : act bool :=
  g ← gets sigGiven;
  p ← gets (name g);
  if decide (0 <= g /\ p <> cd_F k) then mret false
  else
    ok ← validateMsg (cd_F k) (Some (cd_M k)) (Some (MCandidate k));
    if negb ok then mret false
    else
      frm ← gets (member (cd_F k));
      t ← has_tree (cd_F k);
      match t with
      | Some t =>
          if is_nil (t_block t) then _ ← set_asked_at frm (Some k); _ ← pull (t_hash t) frm; mret false
          else _ ← Candidate k; mret false
      | None => _ ← set_asked_at frm (Some k); mret false
      end.

(** One command; [true] ends the loop. *)
Definition process (cmd : command) : act bool :=
  run ← gets Runnable;
  done ← gets Done;
  g ← gets sigGiven;
  if negb run || done then mret true
  else match cmd with
  | CDebug => mret false
  | CTree t => new_tree t
  | CMsg (MKnowledge k) => on_knowledge k
  | CMsg (MCandidate k) => on_candidate k
  | CMsg (MCandidateReply k) =>
      if decide (0 <= g) then mret false
      else ok ← validateMsg (cr_From k) None (Some (MCandidateReply k)); if negb ok then mret false else _ ← candidateResp k; mret false
  | CMsg (MRelease k) =>
      if decide (0 <= g) then mret false
      else ok ← validateMsg (rl_From k) None (Some (MRelease k)); if negb ok then mret false else _ ← Release k; mret false
  | CMsg (MConsensus k) =>
      if decide (0 <= g) then mret false
      else ok ← validateMsg (cs_From k) None (Some (MConsensus k)); if negb ok then mret false else Consensus k
  | CMsg (MSignature k) => Signature k
  | CMsg _ => mret false
  end.

(** ** The repeater *)

(** A tree without its block takes the block of another tree with the same hash. *)
Definition fill_tree (f : gmap (list Z) tree) (t : tree) : tree :=
  match t_block t with
  | Some _ => t
  | None =>
      match list_find (fun p => t_hash p.2 = t_hash t /\ is_nil (t_block p.2) = false) (map_to_list f) with
      | Some (_, (_, s)) => MkTree (t_creator t) (t_fees s) (t_hash t) (t_block s) (t_know t)
      | None => t
      end
  end.

(** The own signature again, the consensus, the candidacy or a better candidate, the
    consent, or a new consent; [false] when the repeater stops here. *)
Fixpoint best_asked (l : list (Z * option MsgCandidate)) (s : Syncer) (bst : Z) : Z :=
  match l with
  | [] => bst
  | (i, b) :: l =>
      match b with
      | Some _ => if decide (i <> Myself s /\ better i (Myself s) s = true /\ better i bst s = true) then best_asked l s i else best_asked l s bst
      | None => best_asked l s bst
      end
  end.
Definition repeat_role : act bool :=
  g ← gets sigGiven;
  a ← gets agreed;
  me ← gets Myself;
  self ← gets Me;
  height ← gets Height;
  if decide (g <> -1) then
    match PrivKey with
    | None => mret false
    | Some k =>
        from ← gets (name a);
        t ← tree_of from;
        _ ← emit (Cast (MSignature (MkSignature (consensus_msg k height self (t_hash t) (t_hash t)) from)));
        mret true
    end
  else
    c ← ckconsensus true;
    if c : bool then mret false
    else if decide (a = me) then
      bst ← gets (fun s => best_asked (imap (fun i b => (Z.of_nat i, b)) (asked s)) s me);
      if decide (bst <> me) then
        r ← makeRelease a;
        _ ← emit (Cast (MRelease r));
        _ ← upd (fun s => set_agreed (-1) (set_agrees ∅ s));
        b ← asked_at bst;
        _ ← (match b with Some b => enqueue (CMsg (MCandidate b)) | None => mret () end);
        _ ← set_asked_at bst None;
        mret true
      else
        t ← tree_of self;
        match PrivKey with
        | None => mret false
        | Some k => _ ← emit (Cast (MCandidate (sign_candidate k (NewMsgCandidate height self (t_hash t))))); mret true
        end
    else if decide (a <> -1) then
      from ← gets (name a);
      t ← tree_of from;
      match PrivKey with
      | None => mret false
      | Some k => _ ← emit (Cast (MCandidateReply (sign_resp k (MkCandidateResp height cnst [] a self (t_hash t) [] 0)))); mret true
      end
    else
      bst ← choose_best;
      _ ← (if decide (0 <= bst /\ bst <> me) then
             b ← asked_at bst;
             match b with
             | None => mret ()
             | Some b =>
                 q ← qualified bst;
                 p ← gets (name bst);
                 when (q && Connected p) (_ ← upd (set_agreed bst); _ ← enqueue (CMsg (MCandidate b)); set_asked_at bst None)
             end
           else mret ());
      mret true.

(** What is known of the members goes to those that do not know it. *)
Fixpoint repeat_knowledge (l : list (Z * list Z)) : act unit :=
  match l with
  | [] => mret ()
  | (m, kp) :: l =>
      p ← gets (name m);
      t ← has_tree p;
      me ← gets Myself;
      self ← gets Me;
      match t with
      | Some t =>
          match t_know t with
          | Some lmg =>
              let all := foldr Z.lor 0 kp in
              let send lmg :=
                _ ← each (imap (fun i q => (Z.of_nat i, q)) kp) (fun '(i, mp) =>
                      if decide (mp = all \/ i = me) then mret () else to ← gets (name i); CommitteeMsgMG to (MKnowledge lmg));
                repeat_knowledge l in
              if decide (len (kn_K lmg) < 2 \/ last (kn_K lmg) <> Some me) then
                match PrivKey with
                | None => mret ()
                | Some k => let lmg := set_From (AddK lmg me PrivKey) self in _ ← set_know p lmg; send lmg
                end
              else send lmg
          | None => repeat_knowledge l
          end
      | None => repeat_knowledge l
      end
  end.

Definition repeater : act unit :=
  run ← gets Runnable;
  done ← gets Done;
  if negb run || done then mret ()
  else
    a ← gets agreed;
    sg ← gets signers;
    if decide (a <> -1 /\ CommitteeSigs <= Z.of_nat (size sg)) then upd (set_Done true)
    else
      _ ← upd (fun s => set_forest (fill_tree (forest s) <$> forest s) s);
      go ← repeat_role;
      if negb go then mret ()
      else
        self ← gets Me;
        height ← gets Height;
        t ← has_tree self;
        q ← gets commands;
        _ ← (match t with
             | Some _ =>
                 if decide (len q < (CommitteeSize - 1) * 10) then
                   k ← NewKnowledgeMsg; _ ← enqueue (CMsg (MKnowledge k)); emit (Cast (MKnowledge k))
                 else mret ()
             | None => mret ()
             end);
        l ← gets (fun s => map_to_list (forest s));
        mem ← gets Members;
        _ ← each l (fun '(_, t) =>
              if is_nil (t_block t) then match mem !! t_creator t with Some _ => pull_known (t_hash t) height | None => mret () end else mret ());
        rows ← gets (fun s => imap (fun i r => (Z.of_nat i, r)) (Knowledge (knowledges s)));
        repeat_knowledge rows.

(** ** The end of a run: pending signatures are taken, a block with enough of them is
    published. *)
Fixpoint drain (l : list command) : act unit :=
  match l with
  | [] => mret ()
  | CMsg (MSignature m) :: l => _ ← Signature m; drain l
  | _ :: l => drain l
  end.
Definition finish : act unit :=
  q ← gets commands;
  _ ← drain q;
  _ ← upd (set_commands []);
  g ← gets sigGiven;
  run ← gets Runnable;
  _ ← (if decide (g <> -1) then
         owner ← gets (name g);
         t ← has_tree owner;
         match t with
         | Some t =>
             if is_nil (t_block t) || negb run then mret ()
             else sigs ← block_sigs (t_block t); when (bool_decide (CommitteeSigs < len sigs)) (emit (Publish (t_block t)))
         | None => mret ()
         end
       else mret ());
  upd (fun s => set_Runnable false (set_Done true s)).
End Protocol.

(** ** Creation, the committee and new blocks *)

Definition CreateSyncer (h : Z) : Syncer :=
  MkSyncer false false 0 ∅ ∅ zero_addr 0 ∅ (replicate (Z.to_nat CommitteeSize) None) ∅ ∅ (-1) (-1) ∅ ∅ CreateKnowledge [] h ∅ ∅.

(** What the chain says when the committee is set: the best height, the last rotation, and
    the miner and the connection of the miner block at a height. *)
Record chain_view := MkChainView { cv_Height : Z; cv_LastRotation : Z; cv_Miner : Z -> option (list Z * list Z) }.

(** One seat of the committee: [names] are the own addresses, [ips] the own connections. *)
Definition take_seat (cv : chain_view) (names ips : list (list Z)) (who : Z) (st : Syncer * bool) : Syncer * bool :=
  let '(s, inc) := st in
  let c := cv_LastRotation cv in
  match cv_Miner cv (c - CommitteeSize + 1 + who) with
  | None => (s, inc)
  | Some (m, conn) =>
      let here := bool_decide (ips = [] \/ conn = [] \/ conn ∈ ips) in
      let '(s, inc) := foldl (fun '(s, inc) n => if decide (n = m /\ here = true) then (set_Myself who (set_Me n s), true) else (s, inc)) (s, inc) names in
      (set_Names (<[who := m]> (Names s)) (set_Members (<[m := who]> (Members s)) s), inc)
  end.
Definition setCommittee (cv : chain_view) (names ips : list (list Z)) (s : Syncer) : Syncer :=
  if Runnable s || Done s then s
  else if decide (Height s <> cv_Height cv + 1) then s
  else
    let s := set_Base (cv_LastRotation cv - CommitteeSize + 1) (set_Runnable true s) in
    let '(s, inc) := foldl (fun st who => take_seat cv names ips who st) (s, false) (seqZ 0 CommitteeSize) in
    let s := set_knowledges CreateKnowledge s in
    if inc then s else set_Runnable false s.

(** The fees of a block: the outputs of its coinbase before the separator, all of one value. *)
Definition FeeCoinTyp : Z := 0.
Fixpoint fees_loop (outs : list TxOut) (fees eq : Z) : outcome (option Z) :=
  match outs with
  | [] => Ok (Some fees)
  | o :: outs =>
      if out_IsSeparator o then Ok (Some fees)
      else if decide (TokenType (to_Token o) = FeeCoinTyp) then
        v ← num_value (Value (to_Token o));
        if decide (eq < 0) then fees_loop outs (i64 (fees + v)) v
        else if decide (eq <> v) then Ok None
        else fees_loop outs (i64 (fees + eq)) eq
      else Ok (Some fees)
  end.

(** A new block, with its hash and the outputs of its coinbase, is queued for its miner. *)
Definition BlockInit (cv : chain_view) (names ips : list (list Z)) (b : loc) (hash : list Z) (outs : list TxOut) (n : node) : outcome node :=
  sigs ← load (heap n) (Some b);
  if Done (sy n) then Ok n
  else if decide (len sigs < 2) then Ok n
  else if decide (CommitteeSigs < len sigs) then Ok n
  else
    s1 ← slice_get sigs 1;
    let adr := take 20 s1 ++ replicate (20 - length s1) 0 in
    fees ← fees_loop outs 0 (-1);
    match fees with
    | None => Ok n
    | Some fees =>
        if decide (len outs < CommitteeSigs) then Ok n
        else
          let s := setCommittee cv names ips (sy n) in
          match forest s !! adr with
          | Some (MkTree _ _ _ (Some _) _) => Ok (set_sy s n)
          | _ =>
              let q := if decide ((CommitteeSize - 1) * 10 < len (commands s)) then drop 1 (commands s) else commands s in
              Ok (set_sy (set_commands (q ++ [CTree (MkTree adr (u64 fees) hash (Some b) None)]) s) n)
          end
    end.

Definition UpdateChainHeight (h : Z) (s : Syncer) : Syncer := if decide (Height s < h) then set_Done true s else s.

(** [HandleMessage] of miner.go: a message for the syncer of its height is queued; when the
    queue is long the two oldest commands are dropped. *)
Definition receive (m : message) (s : Syncer) : Syncer :=
  let limit := (CommitteeSize - 1) * 10 in
  let q := commands s in
  let q := if decide (limit < len q) then let q := drop 2 q in if negb (Done s) && bool_decide (len q < limit) then q ++ [CDebug] else q else q in
  set_commands (q ++ [CMsg m]) s.
