(* ===== verification/SyncerSafe.v ===== *)
(** * Safety of the consensus protocol

    Proves of the model in Syncer: a member gives its signature once, the signature goes to
    the block of the candidate it has agreed to, and no two blocks of a height get it, as
    long as the height has not been signed before; and where the checks of the code are not
    enough.  The proofs go by the steps of a run: commands, ticks of the repeater, messages
    and blocks that arrive. *)
From Stdlib Require Import ZArith Lia.
From stdpp Require Import gmap list.
From S2P Require Import Prelude Wire Token MsgTx MsgBlock WireMsgs WireConsensus WireMessage Knowledge Syncer.

Open Scope Z_scope.

(** ** What signing depends on *)

(** The block signatures in a message of the node. *)
Definition message_sigs (m : message) : list (list Z) :=
  match m with MSignature s => [cs_Signature (sg_Consensus s)] | MConsensus c => [cs_Signature c] | _ => [] end.
Definition event_sigs (e : event) : list (list Z) := match e with Send _ m | Cast m => message_sigs m | _ => [] end.

Record view := MkView {
  v_Members : gmap (list Z) Z; v_Names : gmap Z (list Z); v_Me : list Z; v_Myself : Z; v_Height : Z;
  v_sigGiven : Z; v_agreed : Z; v_hashes : gmap (list Z) (list Z); v_last : Z; v_sigs : list (list Z);
}.
Definition view_of (n : node) : view :=
  let s := sy n in
  MkView (Members s) (Names s) (Me s) (Myself s) (Height s) (sigGiven s) (agreed s) (t_hash <$> forest s) (lastSignedBlock n) (out n ≫= event_sigs).

Definition silent {A} (m : act A) : Prop := forall n a n', m n = Ok (a, n') -> view_of n' = view_of n.
Definition keeps (P Q : view -> Prop) {A} (m : act A) : Prop := forall n a n', P (view_of n) -> m n = Ok (a, n') -> Q (view_of n').

Create HintDb quiet.

Lemma act_bind_inv {A B} (m : act A) (k : A -> act B) n b n2 : (m ≫= k) n = Ok (b, n2) -> exists a n1, m n = Ok (a, n1) /\ k a n1 = Ok (b, n2).
Proof. unfold mbind, act_bind. destruct (m n) as [[a n1]| |]; naive_solver. Qed.

Section Rules.
Context {A B : Type}.
Implicit Types (m : act A) (k : A -> act B) (P Q R : view -> Prop).

Lemma silent_bind m k : silent m -> (forall a, silent (k a)) -> silent (m ≫= k).
Proof. intros Hm Hk n b n2 (a & n1 & E1 & E2)%act_bind_inv. by rewrite (Hk _ _ _ _ E2), (Hm _ _ _ E1). Qed.
Lemma silent_ret (a : A) : silent (mret a).
Proof. by intros n b n' [= <- <-]. Qed.
Lemma silent_gets (f : Syncer -> A) : silent (gets f).
Proof. by intros n b n' [= <- <-]. Qed.
Lemma silent_lift (o : outcome A) : silent (lift o).
Proof. intros n b n'. unfold lift. destruct o; [|done..]. by intros [= <- <-]. Qed.
Lemma silent_panic : silent (@apanic A).
Proof. done. Qed.
Lemma silent_when b (m : act unit) : silent m -> silent (when b m).
Proof. destruct b; [done|]. intros _ n x n' [= <- <-]. done. Qed.
Lemma silent_each (l : list A) (f : A -> act unit) : (forall x, silent (f x)) -> silent (each l f).
Proof.
  intros Hf. induction l as [|x l IH]; cbn [each]; [by intros n a n' [= <- <-]|].
  intros n b n2 (a & n1 & E1 & E2)%act_bind_inv. by rewrite (IH _ _ _ E2), (Hf _ _ _ _ E1).
Qed.

Lemma keeps_silent P m : silent m -> keeps P P m.
Proof. intros Hm n a n' HP E. by rewrite (Hm _ _ _ E). Qed.
Lemma keeps_bind P Q R m k : keeps P Q m -> (forall a, keeps Q R (k a)) -> keeps P R (m ≫= k).
Proof. intros Hm Hk n b n2 HP (a & n1 & E1 & E2)%act_bind_inv. eapply Hk; [|exact E2]. by eapply Hm. Qed.
Lemma keeps_ret P (a : A) : keeps P P (mret a).
Proof. by intros n b n' H [= <- <-]. Qed.
Lemma keeps_weaken P Q Q' m : keeps P Q m -> (forall v, Q v -> Q' v) -> keeps P Q' m.
Proof. intros H HQ n a n' HP E. eauto. Qed.

(** A value that is read satisfies what the view says of it. *)
Lemma keeps_gets P R (f : Syncer -> A) k : (forall n, P (view_of n) -> keeps P R (k (f (sy n)))) -> keeps P R (gets f ≫= k).
Proof. intros H n b n2 HP (a & n1 & E1 & E2)%act_bind_inv. injection E1 as <- <-. by eapply H. Qed.

(** Reading changes nothing. *)
Lemma keeps_read P R m k : silent m -> (forall a, keeps P R (k a)) -> keeps P R (m ≫= k).
Proof. intros Hm Hk. eapply keeps_bind; [by apply keeps_silent|exact Hk]. Qed.
End Rules.

#[export] Hint Resolve silent_ret silent_gets silent_lift silent_panic silent_when silent_each : quiet.

(** Goes through an action that changes nothing that matters. *)
Ltac quiet_step :=
  match goal with
  | |- silent (mret _) => apply silent_ret
  | |- silent (gets _) => apply silent_gets
  | |- silent (lift _) => apply silent_lift
  | |- silent apanic => apply silent_panic
  | |- silent (fun _ => NoFuel) => done
  | |- silent (mbind _ _) => apply silent_bind; [|intros ?]
  | |- silent (when _ _) => apply silent_when
  | |- silent (each _ _) => apply silent_each; intros ?
  | |- silent (match ?c with _ => _ end) => destruct c
  | |- silent (let _ := _ in _) => cbn zeta
  | |- silent _ => solve [eauto 2 with quiet]
  end.
Ltac quiet := repeat quiet_step.

Lemma silent_upd f : (forall n, view_of (set_sy (f (sy n)) n) = view_of n) -> silent (upd f).
Proof. intros H n a n' [= <- <-]. apply H. Qed.
Lemma silent_emit e : event_sigs e = [] -> silent (emit e).
Proof. intros H n a n' [= <- <-]. unfold view_of. cbn. by rewrite bind_app, bind_cons, H, app_nil_r. Qed.
Lemma silent_tree_of p : silent (tree_of p).
Proof. unfold tree_of. quiet. Qed.
Lemma silent_has_tree p : silent (has_tree p).
Proof. unfold has_tree. quiet. Qed.
Lemma silent_enqueue c : silent (enqueue c).
Proof. unfold enqueue. quiet. by apply silent_upd. Qed.
Lemma silent_block_sigs b : silent (block_sigs b).
Proof. intros n a n'. unfold block_sigs. destruct (load _ _); [|done..]. by intros [= <- <-]. Qed.
Lemma silent_change_sigs p f : silent (change_sigs p f).
Proof.
  unfold change_sigs. apply silent_bind; [apply silent_tree_of|]. intros t n a n'. unfold store_sigs. intros H.
  apply bind_ok_inv in H as (s & _ & H). apply bind_ok_inv in H as (s' & _ & H). apply bind_ok_inv in H as (h & _ & H). by injection H as <- <-.
Qed.

(** ** More rules *)

Section MoreRules.
Context {A B : Type}.
Implicit Types (P Q R : view -> Prop).

Lemma keeps_pre P P' Q (m : act A) : (forall v, P v -> P' v) -> keeps P' Q m -> keeps P Q m.
Proof. intros H Hm n a n' HP E. eauto. Qed.
Lemma keeps_upd P Q f : (forall n, P (view_of n) -> Q (view_of (set_sy (f (sy n)) n))) -> keeps P Q (upd f).
Proof. intros H n a n' HP [= <- <-]. by apply H. Qed.
Lemma keeps_each P (l : list A) f : (forall x, keeps P P (f x)) -> keeps P P (each l f).
Proof. intros Hf. induction l as [|x l IH]; cbn [each]; [apply keeps_ret|]. by eapply keeps_bind. Qed.
Lemma keeps_when P Q b (m : act unit) : (forall v, P v -> Q v) -> keeps P Q m -> keeps P Q (when b m).
Proof. intros H Hm. destruct b; [done|]. intros n a n' HP [= <- <-]. by apply H. Qed.
Lemma keeps_fail P Q (m : act A) : (forall n, m n = Panic) -> keeps P Q m.
Proof. intros H n a n' _ E. by rewrite H in E. Qed.

(** A tree that is there has its hash in the view. *)
Lemma keeps_tree_of P R p (k : tree -> act B) : (forall t, keeps (fun v => P v /\ v_hashes v !! p = Some (t_hash t)) R (k t)) -> keeps P R (tree_of p ≫= k).
Proof.
  intros Hk n b n2 HP (t & n1 & E1 & E2)%act_bind_inv. unfold tree_of in E1. apply act_bind_inv in E1 as (f & n3 & E3 & E4). injection E3 as <- <-.
  destruct (forest (sy n) !! p) as [t'|] eqn:Ep; [|done]. injection E4 as <- <-. eapply Hk; [|exact E2]. split; [done|]. cbn. by rewrite lookup_fmap, Ep.
Qed.
Lemma keeps_has_tree P R p (k : option tree -> act B) : (forall t, keeps (fun v => P v /\ v_hashes v !! p = t_hash <$> t) R (k t)) -> keeps P R (has_tree p ≫= k).
Proof.
  intros Hk n b n2 HP (t & n1 & E1 & E2)%act_bind_inv. unfold has_tree in E1. apply act_bind_inv in E1 as (f & n3 & E3 & E4). injection E3 as <- <-.
  injection E4 as <- <-. eapply Hk; [|exact E2]. split; [done|]. cbn. by rewrite lookup_fmap.
Qed.
Lemma keeps_see P R (f : Syncer -> A) (g : view -> A) (k : A -> act B) : (forall n, f (sy n) = g (view_of n)) ->
  (forall x, keeps (fun v => P v /\ g v = x) R (k x)) -> keeps P R (gets f ≫= k).
Proof. intros Hf Hk n b n2 HP (a & n1 & E1 & E2)%act_bind_inv. injection E1 as <- <-. eapply Hk; [|exact E2]. by rewrite Hf. Qed.
Lemma keeps_asked_at P R i (k : option MsgCandidate -> act B) : (forall a, 0 <= i -> keeps P R (k a)) -> keeps P R (asked_at i ≫= k).
Proof.
  intros Hk n b n2 HP (a & n1 & E1 & E2)%act_bind_inv. unfold asked_at in E1. apply act_bind_inv in E1 as (l & n3 & E3 & E4). injection E3 as <- <-.
  unfold lift, slice_get in E4. case_decide; [|done]. destruct (_ !! _); [|done]. injection E4 as <- <-. eapply Hk; [done|exact HP|exact E2].
Qed.
End MoreRules.

Lemma silent_choose_best : silent choose_best.
Proof. unfold choose_best. quiet. Qed.
#[export] Hint Resolve silent_choose_best silent_tree_of silent_has_tree silent_enqueue silent_block_sigs silent_change_sigs : quiet.

Section Safety.
Context (DoubleHashB : list Z -> list Z) (PrivKey : option (list Z -> list Z)) (VerifySigScript : list Z -> list Z -> option (list Z)).
Context {PublicKey Signature' : Type} (ParsePubKey : list Z -> option PublicKey) (ParseDERSignature : list Z -> option Signature')
  (Verify : Signature' -> list Z -> PublicKey -> bool).
Context (reaches : list Z -> Z -> bool) (Connected : list Z -> bool).

Local Notation CommitteeMsgMG := (CommitteeMsgMG reaches).
Local Notation CommitteeCastMG := (CommitteeCastMG reaches).
Local Notation pull := (pull reaches).
Local Notation makeRelease := (makeRelease DoubleHashB PrivKey).
Local Notation send_resp := (send_resp DoubleHashB PrivKey reaches).
Local Notation yield := (yield DoubleHashB PrivKey reaches).
Local Notation candidacy := (candidacy DoubleHashB PrivKey reaches).
Local Notation ckconsensus := (ckconsensus DoubleHashB PrivKey reaches).
Local Notation Signature := (Signature DoubleHashB ParsePubKey ParseDERSignature Verify).
Local Notation Consensus := (Consensus DoubleHashB PrivKey ParsePubKey ParseDERSignature Verify reaches).
Local Notation Release := (Release DoubleHashB PrivKey reaches).
Local Notation candidateResp := (candidateResp DoubleHashB PrivKey reaches).
Local Notation Candidate := (Candidate DoubleHashB PrivKey reaches).
Local Notation NewKnowledgeMsg := (NewKnowledgeMsg DoubleHashB PrivKey).
Local Notation ProcKnowledge := (ProcKnowledge DoubleHashB PrivKey reaches).
Local Notation validateMsg := (validateMsg DoubleHashB VerifySigScript reaches).
Local Notation new_tree := (new_tree DoubleHashB PrivKey VerifySigScript reaches).
Local Notation on_knowledge := (on_knowledge DoubleHashB PrivKey VerifySigScript reaches).
Local Notation on_candidate := (on_candidate DoubleHashB PrivKey VerifySigScript reaches).
Local Notation process := (process DoubleHashB PrivKey VerifySigScript ParsePubKey ParseDERSignature Verify reaches).
Local Notation repeat_role := (repeat_role DoubleHashB PrivKey reaches Connected).
Local Notation repeater := (repeater DoubleHashB PrivKey reaches Connected).

(** ** Actions that sign nothing and agree to nothing *)

Lemma silent_msg p m : message_sigs m = [] -> silent (CommitteeMsgMG p m).
Proof. intros H. unfold Syncer.CommitteeMsgMG. quiet; by apply silent_emit. Qed.
Lemma silent_cast m : message_sigs m = [] -> silent (CommitteeCastMG m).
Proof. intros H. unfold Syncer.CommitteeCastMG. quiet. by apply silent_msg. Qed.
Hint Resolve silent_msg silent_cast silent_emit : quiet.

Lemma silent_pull h w : silent (pull h w).
Proof. unfold Syncer.pull. quiet; [by intros ? ? ? [= <- <-]|by apply silent_upd]. Qed.
Lemma silent_pull_known h w : silent (pull_known h w).
Proof.
  intros n a n'. unfold pull_known, ask_known. assert (forall m, view_of (set_pulls m n) = view_of n) by done.
  repeat case_match; intros [= <- <-]; try done; unfold view_of; cbn; by rewrite bind_app, app_nil_r.
Qed.
Lemma silent_qualified w : silent (qualified w).
Proof. unfold qualified. quiet. Qed.
Lemma silent_asked_at i : silent (asked_at i).
Proof. unfold asked_at. quiet. Qed.
Lemma silent_set_asked_at i m : silent (set_asked_at i m).
Proof. unfold set_asked_at. quiet. by apply silent_upd. Qed.
Hint Resolve silent_pull silent_pull_known silent_qualified silent_asked_at silent_set_asked_at : quiet.

Lemma silent_makeRelease b : silent (makeRelease b).
Proof. unfold Syncer.makeRelease. quiet. Qed.
Lemma silent_send_resp p d : silent (send_resp p d).
Proof. unfold Syncer.send_resp. quiet. Qed.
Lemma silent_better_loop n : forall i b, silent (better_loop n i b).
Proof. induction n as [|n IH]; intros i b; cbn [better_loop]; quiet. Qed.
Lemma silent_forget w : silent (forget_member w).
Proof. unfold forget_member. quiet. by apply silent_upd. Qed.
Lemma silent_NewKnowledge : silent NewKnowledgeMsg.
Proof. unfold Syncer.NewKnowledgeMsg. quiet. Qed.
Hint Resolve silent_makeRelease silent_send_resp silent_better_loop silent_forget silent_NewKnowledge : quiet.

Lemma silent_ProcKnowledge k : silent (ProcKnowledge k).
Proof. unfold Syncer.ProcKnowledge. quiet. all: by apply silent_upd. Qed.

Lemma silent_set_know p k : silent (set_know p k).
Proof.
  unfold set_know, tree_of. intros n a n2 (t & n1 & E1 & E2)%act_bind_inv. apply act_bind_inv in E1 as (f & n3 & E3 & E4). injection E3 as <- <-.
  destruct (forest (sy n) !! p) as [t'|] eqn:Ep; [|done]. injection E4 as <- <-. injection E2 as <- <-. unfold view_of. cbn. f_equal.
  rewrite fmap_insert. cbn. apply insert_id. by rewrite lookup_fmap, Ep.
Qed.
Hint Resolve silent_ProcKnowledge silent_set_know : quiet.

Lemma silent_repeat_knowledge l : silent (repeat_knowledge DoubleHashB PrivKey reaches l).
Proof. induction l as [|[m kp] l IH]; cbn [repeat_knowledge]; quiet. Qed.
Lemma fill_tree_hash f t : t_hash (fill_tree f t) = t_hash t.
Proof. unfold fill_tree. by repeat case_match. Qed.
Lemma silent_fill : silent (upd (fun s => set_forest (fill_tree (forest s) <$> forest s) s)).
Proof.
  apply silent_upd. intros n. unfold view_of. cbn. f_equal. rewrite <- map_fmap_compose. apply map_fmap_ext. intros i x _. apply fill_tree_hash.
Qed.
Hint Resolve silent_repeat_knowledge silent_fill : quiet.

(** ** The invariant *)

(** A committee: a member has the name of its number, and the node is one of them. *)
Context (Ms : gmap (list Z) Z) (Ns : gmap Z (list Z)) (self : list Z) (me height : Z).
Definition committee_ok : Prop := (forall p w, Ms !! p = Some w -> 0 <= w /\ Ns !! w = Some p) /\ Ns !! me = Some self /\ 0 <= me.
Hypothesis Hc : committee_ok.

Definition seated (v : view) : Prop :=
  v_Members v = Ms /\ v_Names v = Ns /\ v_Me v = self /\ v_Myself v = me /\ v_Height v = height /\
  forall p h, v_hashes v !! p = Some h -> is_Some (Ms !! p).
Definition fresh (v : view) : Prop := seated v /\ -1 <= v_agreed v /\ v_sigGiven v = -1 /\ v_sigs v = [] /\ v_last v < height.

(** The node has agreed to the candidate [g], whose block has the hash [h], and its
    signatures are of this block. *)
Definition own_sig (h s : list Z) : Prop := exists k, PrivKey = Some k /\ s = k (MakeMinerSigHash DoubleHashB height h).
Definition signing (g : Z) (h : list Z) (v : view) : Prop :=
  seated v /\ 0 <= g /\ v_agreed v = g /\ (exists p, Ns !! g = Some p /\ v_hashes v !! p = Some h) /\ Forall (own_sig h) (v_sigs v).
Definition given (g : Z) (h : list Z) (v : view) : Prop := signing g h v /\ v_sigGiven v = g.
Definition safe (v : view) : Prop := fresh v \/ exists g h, given g h v.

Lemma fresh_safe v : fresh v -> safe v.
Proof. by left. Qed.

(** Runs through an action that keeps the node fresh. *)
Ltac keep_step :=
  match goal with
  | |- keeps ?P ?P (mret _) => apply keeps_ret
  | |- keeps _ _ (mbind _ (gets _)) => apply keeps_gets; intros ?n ?Hn
  | |- keeps _ _ (mbind _ (asked_at _)) => apply keeps_asked_at; intros ?a ?Ha
  | |- keeps _ _ (mbind _ _) => apply keeps_read; [by quiet|intros ?]
  | |- keeps ?P ?P (each _ _) => apply keeps_each; intros ?
  | |- keeps ?P ?P (when _ _) => apply keeps_when; [done|]
  | |- keeps _ _ (match ?c with _ => _ end) => destruct c eqn:?
  | |- keeps _ _ (let _ := _ in _) => cbn zeta
  | |- keeps ?P ?P _ => apply keeps_silent; by quiet
  end.
Ltac keep := repeat keep_step.

Lemma fresh_agreed f : (forall n, fresh (view_of n) -> let v := view_of (set_sy (f (sy n)) n) in let w := view_of n in
    -1 <= v_agreed v /\ v = MkView (v_Members w) (v_Names w) (v_Me w) (v_Myself w) (v_Height w) (v_sigGiven w) (v_agreed v) (v_hashes w) (v_last w) (v_sigs w)) ->
  keeps fresh fresh (upd f).
Proof. intros H. apply keeps_upd. intros n Hn. destruct (H n Hn) as [Ha E]. cbn zeta in E. rewrite E. destruct Hn as (H1 & H2 & H3 & H4 & H5). split; [exact H1|]. split_and!; done. Qed.

Lemma fresh_yield b : keeps fresh fresh (yield b).
Proof.
  unfold Syncer.yield. keep. eapply keeps_bind; [apply fresh_agreed; intros n' _; split; [done|reflexivity]|intros ?].
  keep. eapply keeps_bind; [|intros ?; apply keeps_ret]. keep. eapply keeps_bind; [apply fresh_agreed; intros n' _; split; [cbn; lia|reflexivity]|intros ?].
  keep.
Qed.

Lemma fresh_candidacy : keeps fresh fresh candidacy.
Proof.
  unfold Syncer.candidacy. keep. eapply keeps_bind; [apply fresh_agreed; intros n' _; split; [cbn|reflexivity]|intros ?].
  - match goal with H : fresh (view_of ?n) |- context [Myself (sy ?n)] => destruct H as [(_ & _ & _ & E & _) _] end.
    cbn in E. rewrite E. destruct Hc as (_ & _ & ?). lia.
  - keep.
Qed.
Hint Resolve fresh_yield fresh_candidacy : quiet.

Lemma fresh_renounce p : keeps fresh fresh (renounce DoubleHashB PrivKey reaches p).
Proof. unfold renounce. keep. apply fresh_agreed. intros n' _. split; [done|reflexivity]. Qed.

(** Trees of members may come and go. *)
Lemma fresh_forest f : (forall n, fresh (view_of n) -> let v := view_of (set_sy (f (sy n)) n) in let w := view_of n in
    (forall p h, v_hashes v !! p = Some h -> is_Some (v_hashes w !! p) \/ is_Some (Ms !! p)) /\
    v = MkView (v_Members w) (v_Names w) (v_Me w) (v_Myself w) (v_Height w) (v_sigGiven w) (v_agreed w) (v_hashes v) (v_last w) (v_sigs w)) ->
  keeps fresh fresh (upd f).
Proof.
  intros H. apply keeps_upd. intros n Hn. destruct (H n Hn) as [Ha E]. cbn zeta in *. rewrite E.
  destruct Hn as ((S1 & S2 & S3 & S4 & S5 & S6) & H2 & H3 & H4 & H5). split; [|by split_and!]. split_and!; try done.
  intros p h Hp. cbn in Hp. destruct (Ha p h Hp) as [[h' ?]|]; [|done]. by eapply S6.
Qed.

Lemma fresh_Release m : keeps fresh fresh (Release m).
Proof.
  unfold Syncer.Release. keep. eapply keeps_bind; [by apply keeps_silent, silent_upd|intros ?]. apply keeps_read; [by quiet|intros t].
  eapply keeps_bind with (Q := fresh).
  { destruct t; [|apply keeps_ret]. apply fresh_forest. intros n' _. cbn zeta. split; [|reflexivity]. intros p h. cbn. rewrite lookup_fmap.
    destruct (decide (p = rl_From m)) as [->|]; [by rewrite lookup_delete_eq|]. rewrite lookup_delete_ne by done. left. by rewrite lookup_fmap. }
  intros ?. keep. eapply keeps_bind; [apply fresh_agreed; intros n' _; split; [done|reflexivity]|intros ?].
  eapply keeps_bind; [apply fresh_candidacy|intros ?; apply keeps_ret].
Qed.

(** The members that a message names are the committee's. *)
Lemma seated_members n : seated (view_of n) -> Members (sy n) = Ms.
Proof. by intros (? & _). Qed.

Lemma fresh_Candidate m : keeps fresh fresh (Candidate m).
Proof.
  unfold Syncer.Candidate. do 3 keep_step. destruct (Members (sy n1) !! cd_F m) as [fmp|] eqn:E; [|apply keeps_ret].
  assert (0 <= fmp) as Hf. { rewrite (seated_members n1 (proj1 Hn1)) in E. by apply (proj1 Hc) in E as [? _]. }
  keep. eapply keeps_bind with (Q := fresh); [keep_step; [apply fresh_yield|apply keeps_ret]|intros ?].
  keep. eapply keeps_bind; [apply fresh_agreed; intros ? _; split; [cbn; lia|reflexivity]|intros ?]. keep.
Qed.

Lemma fresh_validate p m o : keeps fresh fresh (validateMsg p m o).
Proof.
  unfold Syncer.validateMsg. do 4 keep_step. destruct (negb _ || _); [apply keeps_ret|]. case_decide; [apply keeps_ret|].
  destruct (Members (sy n2) !! p) as [w|] eqn:E; [|apply keeps_ret]. rewrite (seated_members n2 (proj1 Hn2)) in E.
  destruct o; [|apply keeps_ret]. keep. eapply keeps_bind with (Q := fresh); [|intros ?; keep].
  apply fresh_forest. intros n' _. cbn zeta. split; [|reflexivity]. intros q h. cbn. rewrite lookup_fmap.
  destruct (decide (q = p)) as [->|]; [by right|]. rewrite lookup_insert_ne by done. left. by rewrite lookup_fmap.
Qed.

(** A message that is valid is of a member. *)
Lemma fresh_validate_bind {A} p m o (k : bool -> act A) R :
  (is_Some (Ms !! p) -> keeps fresh R (k true)) -> keeps fresh R (k false) -> keeps fresh R (validateMsg p m o ≫= k).
Proof.
  intros Ht Hf n b n2 Hn (ok & n1 & E1 & E2)%act_bind_inv. pose proof (fresh_validate p m o n ok n1 Hn E1) as Hn1.
  destruct ok; [|by eapply Hf]. refine (Ht _ _ _ _ Hn1 E2). unfold Syncer.validateMsg in E1. unfold mbind, act_bind, gets in E1.
  rewrite (seated_members n (proj1 Hn)) in E1. destruct (negb _ || _); [done|]. destruct (decide (p ∈ Malice (sy n))); [done|].
  by destruct (Ms !! p).
Qed.

Lemma fresh_insert t f : is_Some (Ms !! t_creator t) -> keeps fresh fresh (enter_tree t f).
Proof.
  intros Hm n a n' ((S1 & S2 & S3 & S4 & S5 & S6) & H2 & H3 & H4 & H5) [= <- <-]. split; [|by split_and!]. split_and!; try done.
  intros p h. cbn. rewrite lookup_fmap. destruct (decide (p = t_creator t)) as [->|]; [done|]. rewrite lookup_insert_ne by done. intros H. apply (S6 p h).
  cbn. by rewrite lookup_fmap.
Qed.

Lemma fresh_remove p f : (forall n, view_of (set_sy (f (sy n)) n) = view_of (set_sy (set_forest (delete p (forest (sy n))) (sy n)) n)) -> keeps fresh fresh (upd f).
Proof.
  intros Hf. apply fresh_forest. intros n _. cbn zeta. rewrite Hf. split; [|reflexivity]. intros q h. cbn. rewrite !lookup_fmap.
  destruct (decide (q = p)) as [->|]; [by rewrite lookup_delete_eq|]. rewrite lookup_delete_ne by done. by left.
Qed.

Lemma fresh_new_tree t : keeps fresh fresh (new_tree t).
Proof.
  unfold Syncer.new_tree. keep. apply fresh_validate_bind; [|apply keeps_ret]. intros Hm. cbn [negb]. keep_step. keep_step. apply keeps_read; [by quiet|intros f].
  eapply keeps_bind with (Q := fresh).
  - keep; try (eapply keeps_bind; [by apply fresh_insert|intros ?; keep]).
    eapply keeps_bind; [by apply (fresh_remove (t_creator t))|intros ?]. keep. eapply keeps_bind; [by apply keeps_silent, silent_upd|intros ?; keep].
  - intros go. keep. eapply keeps_bind with (Q := fresh); [apply keeps_when; [done|]; by apply keeps_silent, silent_upd|intros ?]. keep.
Qed.

(** ** Signing *)

(** The signature has not been given yet, and the height has not been signed. *)
Definition pending (g : Z) (h : list Z) (v : view) : Prop := signing g h v /\ v_sigGiven v = -1 /\ v_last v < height.

Definition with_sigs (v : view) (l : list (list Z)) : view :=
  MkView (v_Members v) (v_Names v) (v_Me v) (v_Myself v) (v_Height v) (v_sigGiven v) (v_agreed v) (v_hashes v) (v_last v) (v_sigs v ++ l).
Definition takes (h : list Z) (P : view -> Prop) : Prop := forall v l, P v -> Forall (own_sig h) l -> P (with_sigs v l).

Lemma signing_takes g h : takes h (signing g h).
Proof. intros v l (H1 & H2 & H3 & H4 & H5) Hl. split_and!; try done. apply Forall_app. done. Qed.
Lemma given_takes g h : takes h (given g h).
Proof. intros v l [H1 H2] Hl. split; [by apply signing_takes|done]. Qed.
Lemma pending_takes g h : takes h (pending g h).
Proof. intros v l (H1 & H2 & H3) Hl. split_and!; [by apply signing_takes|done|done]. Qed.

Lemma takes_emit h P e : takes h P -> Forall (own_sig h) (event_sigs e) -> keeps P P (emit e).
Proof.
  intros HP He n a n' Hn [= <- <-]. assert (view_of (set_out (out n ++ [e]) n) = with_sigs (view_of n) (event_sigs e)) as ->; [|by apply HP].
  unfold view_of, with_sigs. cbn. by rewrite bind_app, bind_singleton.
Qed.
Lemma takes_cast h P m : takes h P -> Forall (own_sig h) (message_sigs m) -> keeps P P (CommitteeCastMG m).
Proof.
  intros HP Hm. unfold Syncer.CommitteeCastMG. keep. unfold Syncer.CommitteeMsgMG. keep; by eapply takes_emit.
Qed.

(** The last height is raised, and the signature is given. *)
Lemma pending_update {A} g h (k : bool -> act A) R : keeps (fun v => signing g h v /\ v_sigGiven v = -1) R (k true) ->
  keeps (pending g h) R (UpdateLastWritten height ≫= k).
Proof.
  intros Hk n b n2 (H1 & H2 & H3) (u & n1 & E1 & E2)%act_bind_inv. unfold UpdateLastWritten in E1. cbn in H3. rewrite decide_True in E1 by done.
  injection E1 as <- <-. eapply Hk; [|exact E2]. by split.
Qed.
Lemma signing_give g h (P : view -> Prop) : (forall v, P v -> signing g h v) -> keeps P (given g h) (upd (set_sigGiven g)).
Proof. intros HP. apply keeps_upd. intros n Hn. split; [|done]. apply HP in Hn as (H1 & H2 & H3 & H4 & H5). by split_and!. Qed.

Lemma fresh_pending v g h p : fresh v -> v_agreed v = g -> 0 <= g -> Ns !! g = Some p -> v_hashes v !! p = Some h -> pending g h v.
Proof. intros (H1 & H2 & H3 & H4 & H5) Hg Hg0 Hp Hh. split_and!; [|done|done]. split_and!; [done|done|done|by exists p|by rewrite H4]. Qed.

Lemma given_safe g h v : given g h v -> safe v.
Proof. right. by exists g, h. Qed.

Lemma own_sig_message k h : PrivKey = Some k -> own_sig h (k (MakeMinerSigHash DoubleHashB height h)).
Proof. intros H. by exists k. Qed.

(** Nothing happens to a fresh node. *)
Lemma fresh_ret {A} (P : view -> Prop) (a : A) : (forall v, P v -> fresh v) -> keeps P safe (mret a).
Proof. intros HP n b n' Hn [= <- <-]. left. by apply HP. Qed.

Ltac stays := apply fresh_ret; tauto.

Lemma signing_ckconsensus bc : keeps fresh safe (ckconsensus bc).
Proof.
  unfold Syncer.ckconsensus. apply (keeps_see _ _ _ v_agreed); [done|intros a]. apply (keeps_see _ _ _ v_Myself); [done|intros m]. apply keeps_read; [by quiet|intros ags].
  case_decide as Hd; [stays|]. assert (a = m) as -> by (destruct (decide (a = m)); naive_solver).
  apply (keeps_see _ _ _ v_Me); [done|intros p]. apply keeps_has_tree. intros [t|]; [|stays]. cbn [fmap option_fmap option_map].
  destruct (is_nil (t_block t)); [stays|]. apply (keeps_see _ _ _ v_Height); [done|intros ht]. apply (keeps_see _ _ _ v_sigGiven); [done|intros g].
  destruct PrivKey as [k|] eqn:Ek; [|stays]. case_decide as Hg; [|stays]. subst g.
  apply keeps_pre with (P' := fun v => pending m (t_hash t) v /\ m = me /\ p = self /\ ht = height).
  { intros v ((((((Hf & Ha) & Hm) & Hp) & Hh) & Hht) & Hg). pose proof Hf as ((S1 & S2 & S3 & S4 & S5 & S6) & _). destruct Hc as (C1 & C2 & C3).
    split; [|split_and!; congruence]. assert (m = me) as -> by congruence. assert (p = self) as -> by congruence. by eapply fresh_pending. }
  intros n b n' (Hn & -> & -> & ->). revert n b n' Hn. apply pending_update. rewrite decide_False by naive_solver.
  eapply keeps_bind; [apply (signing_give me (t_hash t)); by intros v []|intros ?]. apply keeps_weaken with (Q := given me (t_hash t)); [|apply given_safe].
  apply keeps_read; [by quiet|intros ?]. apply keeps_read; [by quiet|intros ?]. eapply keeps_bind; [by apply keeps_silent, silent_upd|intros ?].
  assert (Forall (own_sig (t_hash t)) (message_sigs (MConsensus (consensus_msg DoubleHashB k height self (t_hash t) (t_hash t))))) as Hs.
  { constructor; [|constructor]. by exists k. }
  eapply keeps_bind with (Q := given me (t_hash t)); [|intros ?; apply keeps_ret].
  destruct bc; [by eapply (takes_emit _ _ _ (given_takes _ _))|by eapply (takes_cast _ _ _ (given_takes _ _))].
Qed.

(** A signature for the candidate that the node has agreed to. *)
Lemma signing_Signature m : keeps fresh safe (Signature m).
Proof.
  unfold Syncer.Signature. cbn zeta. set (c := sg_Consensus m). apply (keeps_see _ _ _ v_agreed); [done|intros a]. case_decide; [stays|].
  apply keeps_gets. intros n0 _. apply keeps_has_tree. intros [f|]; [|stays]. case_decide; [stays|].
  apply keeps_read; [by quiet|intros sg]. case_decide; [stays|]. apply keeps_has_tree. intros t.
  apply (keeps_see _ _ _ (fun v => default 0 (v_Members v !! sg_For m))); [done|intros mem]. case_decide as Htr; [stays|].
  destruct t as [t|]; [|lia]. destruct (decide (cs_M c = t_hash t /\ is_nil (t_block t) = false)) as [[Hh Hb]|]; [|lia].
  assert (mem = a /\ 0 <= a) as [-> Ha] by lia. clear Htr. cbn [fmap option_fmap option_map].
  apply keeps_pre with (P' := fun v => fresh v /\ pending a (t_hash t) v).
  { intros v ((((Hf & Hag) & _) & Ht) & Hmem). split; [done|]. pose proof Hf as ((S1 & S2 & S3 & S4 & S5 & S6) & _). destruct Hc as (C1 & _ & _).
    destruct (S6 _ _ Ht) as [w Hw]. rewrite S1, Hw in Hmem. cbn in Hmem. subst w. destruct (C1 _ _ Hw) as [_ Hn]. by eapply fresh_pending. }
  apply keeps_read; [by quiet|intros owner]. apply (keeps_see _ _ _ v_Height); [done|intros ht]. apply keeps_read; [by quiet|intros ok].
  destruct ok; cbn [negb]; [|stays]. apply (keeps_see _ _ _ v_sigGiven); [done|intros g]. apply keeps_read; [by quiet|intros ?].
  intros n b n' [[[Hf Hp] Hht] Hg]. assert (ht = height /\ g = -1) as [-> ->].
  { destruct Hf as ((_ & _ & _ & _ & S5 & _) & _ & F3 & _). split; congruence. }
  clear Hf Hht Hg. revert n b n' Hp. apply pending_update. rewrite decide_False by (intros []; done).
  eapply keeps_bind; [apply (signing_give a (t_hash t)); by intros v []|intros ?]. apply keeps_weaken with (Q := given a (t_hash t)); [|apply given_safe].
  apply keeps_read; [by quiet|intros ?]. eapply keeps_bind; [by apply keeps_silent, silent_upd|intros ?]. keep.
Qed.

(** The own signature is sent for the candidate that the node has agreed to. *)
Lemma signing_Consensus m : keeps fresh safe (Consensus m).
Proof.
  unfold Syncer.Consensus. apply (keeps_see _ _ _ v_agreed); [done|intros a]. apply (keeps_see _ _ _ (fun v => default 0 (v_Members v !! cs_From m))); [done|intros mem].
  destruct (decide (a <> mem)) as [|Ha]; [stays|]. assert (mem = a) as -> by lia. clear Ha. apply (keeps_see _ _ _ v_Height); [done|intros ht]. apply keeps_tree_of. intros t. cbn zeta.
  apply keeps_read; [by quiet|intros ok]. destruct ok; cbn [negb]; [|stays]. destruct PrivKey as [k|] eqn:Ek; [|stays].
  apply (keeps_see _ _ _ v_Me); [done|intros p].
  apply keeps_pre with (P' := fun v => pending a (t_hash t) v /\ p = self /\ ht = height).
  { intros v (((((Hf & Hag) & Hmem) & Hht) & Ht) & Hp). pose proof Hf as ((S1 & S2 & S3 & S4 & S5 & S6) & _). destruct Hc as (C1 & _ & _).
    split; [|split; congruence]. destruct (S6 _ _ Ht) as [w Hw]. rewrite S1, Hw in Hmem. cbn in Hmem. subst w. destruct (C1 _ _ Hw) as [? Hn]. by eapply fresh_pending. }
  intros n b n' (Hn & -> & ->). revert n b n' Hn.
  eapply keeps_bind with (Q := pending a (t_hash t)).
  { apply (takes_cast (t_hash t)); [apply pending_takes|]. constructor; [|constructor]. by exists k. }
  intros ?. apply (keeps_see _ _ _ v_sigGiven); [done|intros g]. apply keeps_weaken with (Q := given a (t_hash t)); [|apply given_safe].
  intros n b n' [Hn Hg]. assert (g = -1) as -> by (destruct Hn as (_ & <- & _); done). clear Hg. revert n b n' Hn. rewrite decide_True by done.
  eapply keeps_bind with (Q := given a (t_hash t)).
  - apply pending_update. rewrite decide_False by (intros []; done). eapply keeps_bind; [apply (signing_give a (t_hash t)); by intros v []|intros ?].
    eapply keeps_bind with (Q := given a (t_hash t)); [|intros ?; apply keeps_ret]. keep. by apply keeps_silent, silent_upd.
  - intros go. keep. eapply keeps_bind; [by apply keeps_silent, silent_upd|intros ?]. keep.
Qed.

Lemma fresh_keeps_safe {A} (m : act A) : keeps fresh fresh m -> keeps fresh safe m.
Proof. intros H. eapply keeps_weaken; [exact H|apply fresh_safe]. Qed.

Lemma signing_candidateResp m : keeps fresh safe (candidateResp m).
Proof.
  unfold Syncer.candidateResp. do 3 keep_step. destruct (decide (cr_Reply m = cnst /\ _)).
  - eapply keeps_bind with (Q := fresh); [by apply keeps_silent, silent_upd|intros ?]. eapply keeps_bind; [apply signing_ckconsensus|intros ?; apply keeps_ret].
  - apply fresh_keeps_safe. keep. eapply keeps_bind with (Q := fresh); [by apply keeps_silent, silent_upd|intros ?]. keep; try apply fresh_renounce.
    eapply keeps_bind with (Q := fresh); [apply fresh_yield|intros ?]. keep. apply fresh_renounce.
Qed.

Lemma fresh_put p t : is_Some (Ms !! p) -> keeps fresh fresh (upd (fun s => set_forest (<[p := t]> (forest s)) s)).
Proof.
  intros Hp. apply fresh_forest. intros n _. cbn zeta. split; [|reflexivity]. intros q h. cbn. rewrite !lookup_fmap.
  destruct (decide (q = p)) as [->|]; [by right|]. rewrite lookup_insert_ne by done. by left.
Qed.

Lemma fresh_on_knowledge k : keeps fresh fresh (on_knowledge k).
Proof.
  unfold Syncer.on_knowledge. keep. apply fresh_validate_bind; [|apply keeps_ret]. intros Hm. cbn [negb]. apply keeps_read; [by quiet|intros t].
  eapply keeps_bind with (Q := fresh).
  - keep. eapply keeps_bind with (Q := fresh); [by apply fresh_put|intros ?]. keep. eapply keeps_bind with (Q := fresh); [|intros ?; keep].
    keep. apply keeps_upd. intros n' ((S1 & S2 & S3 & S4 & S5 & S6) & H2 & H3 & H4 & H5). split; [by split_and!|]. by split_and!.
  - intros ?. keep. eapply keeps_bind with (Q := fresh); [apply fresh_candidacy|intros c]. keep.
Qed.

Lemma fresh_on_candidate k : keeps fresh fresh (on_candidate k).
Proof.
  unfold Syncer.on_candidate. do 2 keep_step. destruct (decide _); [apply keeps_ret|]. apply fresh_validate_bind; [|apply keeps_ret]. intros Hm. cbn [negb]. keep.
  eapply keeps_bind; [apply fresh_Candidate|intros ?; apply keeps_ret].
Qed.

Lemma safe_process_fresh c : keeps fresh safe (process c).
Proof.
  unfold Syncer.process. do 3 keep_step. destruct (negb _ || _); [stays|].
  destruct c as [|t|m]; [stays|apply fresh_keeps_safe, fresh_new_tree|]. destruct m; try stays.
  - apply fresh_keeps_safe, fresh_on_knowledge.
  - apply fresh_keeps_safe, fresh_on_candidate.
  - case_decide; [stays|]. apply fresh_validate_bind; [intros _; cbn [negb]|stays]. eapply keeps_bind; [apply fresh_Release|intros ?; stays].
  - case_decide; [stays|]. apply fresh_validate_bind; [intros _; cbn [negb]; apply signing_Consensus|stays].
  - case_decide; [stays|]. apply fresh_validate_bind; [intros _; cbn [negb]|stays]. eapply keeps_bind; [apply signing_candidateResp|intros ?; apply keeps_ret].
  - apply signing_Signature.
Qed.

(** Without a consensus nothing has changed. *)
Lemma ckconsensus_false bc n n' : fresh (view_of n) -> ckconsensus bc n = Ok (false, n') -> view_of n' = view_of n.
Proof.
  intros Hf E. unfold Syncer.ckconsensus, has_tree in E.
  repeat (apply act_bind_inv in E as (? & ? & E1 & E); injection E1 as <- <-). case_decide; [by injection E as <-|].
  apply act_bind_inv in E as (? & ? & E1 & E). injection E1 as <- <-. apply act_bind_inv in E as (? & ? & E1 & E). injection E1 as <- <-.
  destruct (forest (sy n) !! Me (sy n)) as [t|]; [|by injection E as <-]. destruct (is_nil _); [by injection E as <-|].
  repeat (apply act_bind_inv in E as (? & ? & E1 & E); injection E1 as <- <-). destruct PrivKey; [|by injection E as <-].
  case_decide; [|by injection E as <-]. apply act_bind_inv in E as (u & n1 & E1 & E). destruct Hf as ((_ & _ & _ & _ & S5 & _) & _ & _ & _ & H5). cbn in S5, H5.
  unfold UpdateLastWritten in E1. rewrite decide_True in E1 by lia. injection E1 as <- <-. rewrite decide_False in E by (intros []; done).
  do 5 (apply act_bind_inv in E as (? & ? & _ & E)). done.
Qed.

Lemma ckconsensus_bind {A} bc (k : bool -> act A) : (keeps safe safe (k true)) -> (keeps fresh safe (k false)) -> keeps fresh safe (ckconsensus bc ≫= k).
Proof.
  intros Ht Hk n b n2 Hn (c & n1 & E1 & E2)%act_bind_inv. destruct c.
  - eapply Ht; [|exact E2]. by eapply signing_ckconsensus.
  - eapply Hk; [|exact E2]. by rewrite (ckconsensus_false _ _ _ Hn E1).
Qed.

Lemma safe_role_fresh : keeps fresh safe repeat_role.
Proof.
  unfold Syncer.repeat_role. apply (keeps_see _ _ _ v_sigGiven); [done|intros g]. do 4 (apply keeps_read; [by quiet|intros ?]). destruct (decide (g <> -1)) as [Hg|Hg].
  { intros n b n' [Hn Eg]. exfalso. apply Hg. destruct Hn as (_ & _ & <- & _). done. }
  eapply keeps_pre with (P' := fresh); [by intros v []|]. apply ckconsensus_bind; [apply keeps_ret|]. apply fresh_keeps_safe. keep.
  - eapply keeps_bind with (Q := fresh); [apply fresh_agreed; intros n' _; split; [done|reflexivity]|intros ?]. keep.
  - eapply keeps_bind with (Q := fresh); [|intros ?; keep]. keep.
    eapply keeps_bind with (Q := fresh); [apply fresh_agreed; intros n' _; split; [cbn; lia|reflexivity]|intros ?]. keep.
Qed.

Lemma safe_repeater_fresh : keeps fresh safe repeater.
Proof.
  unfold Syncer.repeater. do 2 keep_step. destruct (negb _ || _); [stays|]. do 2 keep_step. case_decide.
  - apply fresh_keeps_safe. by apply keeps_silent, silent_upd.
  - apply keeps_read; [by quiet|intros ?]. eapply keeps_bind; [apply safe_role_fresh|intros go]. apply keeps_silent. quiet.
Qed.

(** ** After the signature has been given *)

Lemma given_see {A B} g h (f : Syncer -> A) (x : A) (k : A -> act B) R : (forall n, given g h (view_of n) -> f (sy n) = x) ->
  keeps (given g h) R (k x) -> keeps (given g h) R (gets f ≫= k).
Proof. intros Hf Hk. apply keeps_gets. intros n Hn. by rewrite (Hf n Hn). Qed.

Lemma given_Candidate g h c : 0 <= g -> keeps (given g h) (given g h) (Candidate c).
Proof.
  intros Hg. unfold Syncer.Candidate. do 3 keep_step. destruct (Members _ !! _); [|apply keeps_ret]. destruct (negb _); [apply keeps_ret|]. keep_step.
  apply (given_see g h _ g); [by intros n2 []|]. keep_step. destruct (decide _); [keep|]. rewrite decide_True by lia. keep.
Qed.

Lemma given_on_candidate g h c : keeps (given g h) (given g h) (on_candidate c).
Proof.
  unfold Syncer.on_candidate. apply (given_see g h _ g); [by intros n []|]. keep_step. destruct (decide _) as [|Hd]; [apply keeps_ret|].
  assert (name g (sy n) = cd_F c) as Hp. { destruct Hn as [(_ & ? & _) _]. destruct (decide (name g (sy n) = cd_F c)); [done|]. exfalso. apply Hd. by split. }
  clear Hd. eapply keeps_bind with (Q := given g h).
  - unfold Syncer.validateMsg. do 4 keep_step. destruct (negb _ || _); [apply keeps_ret|]. case_decide; [apply keeps_ret|].
    destruct (Members _ !! _); [|apply keeps_ret]. keep_step. destruct (negb _); [apply keeps_ret|]. apply keeps_has_tree. intros t.
    destruct t; [keep; by intros ? ? ? [? _] [= <- <-]|]. intros m b m' [Hm Et]. exfalso. destruct Hm as [(S & _ & _ & (p & Ep & Eh) & _) _].
    destruct Hn as [((_ & S2 & _) & _) _]. unfold name in Hp. cbn in S2. rewrite S2, Ep in Hp. cbn in Hp. subst p. by rewrite Eh in Et.
  - intros ok. destruct ok; cbn [negb]; [|apply keeps_ret]. keep. eapply keeps_bind with (Q := given g h); [|intros ?; apply keeps_ret].
    apply given_Candidate. by destruct Hn as [(_ & ? & _) _].
Qed.

Lemma given_Signature g h m : keeps (given g h) (given g h) (Signature m).
Proof.
  unfold Syncer.Signature. cbn zeta. apply (given_see g h _ g); [by intros n [(_ & _ & ? & _) _]|]. keep. eapply keeps_bind with (Q := given g h).
  { intros x b y Hx E. unfold UpdateLastWritten in E. by case_decide; injection E as <- <-. }
  intros u. destruct (decide (u = false /\ _)); [apply keeps_ret|]. eapply keeps_bind with (Q := given g h).
  - apply keeps_upd. intros x [Hs Hg]. match goal with H : ~ (_ \/ ?tr <> g) |- _ => assert (tr = g) as -> by lia end. done.
  - intros ?. keep. eapply keeps_bind with (Q := given g h); [by apply keeps_silent, silent_upd|intros ?]. keep.
Qed.

Lemma given_process g h c : keeps (given g h) (given g h) (process c).
Proof.
  unfold Syncer.process. do 2 keep_step. intros n1 b n2 Hn1. assert (0 <= g) as Hg by (by destruct Hn1 as [(_ & ? & _) _]). revert n1 b n2 Hn1.
  apply (given_see g h _ g); [by intros n1 []|]. destruct (negb _ || _); [apply keeps_ret|].
  destruct c as [|t|m]; [apply keeps_ret| |destruct m; try (rewrite decide_True by done); try apply keeps_ret].
  - unfold Syncer.new_tree. apply (given_see g h _ g); [by intros n1 []|]. rewrite decide_True by done. apply keeps_ret.
  - unfold Syncer.on_knowledge. apply (given_see g h _ g); [by intros n1 []|]. rewrite decide_True by done. apply keeps_ret.
  - apply given_on_candidate.
  - apply given_Signature.
Qed.

Lemma given_repeater g h : keeps (given g h) (given g h) repeater.
Proof.
  unfold Syncer.repeater. do 2 keep_step. destruct (negb _ || _); [apply keeps_ret|]. do 2 keep_step. destruct (decide _); [by apply keeps_silent, silent_upd|].
  apply keeps_read; [by quiet|intros ?]. eapply keeps_bind with (Q := given g h); [|intros go; apply keeps_silent; quiet].
  unfold Syncer.repeat_role. apply (given_see g h _ g); [by intros ? []|]. apply (given_see g h _ g); [by intros ? [(_ & _ & ? & _) _]|]. keep_step.
  apply (given_see g h _ self); [by intros ? [((_ & _ & ? & _) & _) _]|]. apply (given_see g h _ height); [by intros ? [((_ & _ & _ & _ & ? & _) & _) _]|].
  intros m b m' Hm. assert (0 <= g) as Hg by (by destruct Hm as [(_ & ? & _) _]). revert m b m' Hm. rewrite decide_True by lia.
  destruct PrivKey as [k|] eqn:Ek; [|apply keeps_ret].
  apply keeps_gets. intros x Hx. apply keeps_tree_of. intros t m b m' [Hm Et]. assert (t_hash t = h) as Eh.
  { destruct Hm as [(_ & _ & _ & (p & Ep & Eh) & _) _]. destruct Hx as [((_ & S2 & _) & _) _].
    cbn in S2. unfold name in Et. rewrite S2, Ep in Et. change (default zero_addr (Some p)) with p in Et. congruence. }
  revert m b m' Hm Et. rewrite Eh. intros m b m' Hm _. revert m b m' Hm. eapply keeps_bind with (Q := given g h); [|intros ?; apply keeps_ret].
  apply (takes_emit h); [apply given_takes|]. constructor; [|constructor]. by exists k.
Qed.

Lemma given_finish g h : keeps (given g h) (given g h) (finish DoubleHashB ParsePubKey ParseDERSignature Verify).
Proof.
  unfold finish. keep_step. eapply keeps_bind with (Q := given g h).
  { generalize (commands (sy n)). intros l. induction l as [|c l IH]; cbn [drain]; [apply keeps_ret|]. destruct c as [| |m]; [done..|]. destruct m; try done.
    eapply keeps_bind; [apply given_Signature|intros ?; exact IH]. }
  intros ?. apply keeps_silent. quiet; by apply silent_upd.
Qed.

Lemma safe_finish : keeps safe safe (finish DoubleHashB ParsePubKey ParseDERSignature Verify).
Proof.
  unfold finish. keep_step. eapply keeps_bind with (Q := safe).
  { generalize (commands (sy n)). intros l. induction l as [|c l IH]; cbn [drain]; [apply keeps_ret|]. destruct c as [| |m]; [done..|]. destruct m; try done.
    eapply keeps_bind; [|intros ?; exact IH]. intros x b y [Hx|(g & h & Hx)] E; [by eapply signing_Signature|]. right. exists g, h. by eapply given_Signature. }
  intros ?. apply keeps_silent. quiet; by apply silent_upd.
Qed.
End Safety.

(** ** Runs *)

Section Runs.
Context (DoubleHashB : list Z -> list Z) (PrivKey : option (list Z -> list Z)) (VerifySigScript : list Z -> list Z -> option (list Z)).
Context {PublicKey Signature' : Type} (ParsePubKey : list Z -> option PublicKey) (ParseDERSignature : list Z -> option Signature')
  (Verify : Signature' -> list Z -> PublicKey -> bool).
Context (reaches : list Z -> Z -> bool) (Connected : list Z -> bool).

(** A step of a syncer: a command, a tick, a message or a block that arrives, the end of
    the run, or time that passes and other blocks that come. *)
Inductive sstep : node -> node -> Prop :=
  | step_command n c q b n' : commands (sy n) = c :: q ->
      process DoubleHashB PrivKey VerifySigScript ParsePubKey ParseDERSignature Verify reaches c (set_sy (set_commands q (sy n)) n) = Ok (b, n') -> sstep n n'
  | step_tick n n' : repeater DoubleHashB PrivKey reaches Connected n = Ok ((), n') -> sstep n n'
  | step_receive n m : sstep n (set_sy (receive m (sy n)) n)
  | step_block n n' cv names ips b hash outs : Runnable (sy n) = true -> BlockInit cv names ips b hash outs n = Ok n' -> sstep n n'
  | step_finish n n' : finish DoubleHashB ParsePubKey ParseDERSignature Verify n = Ok ((), n') -> sstep n n'
  | step_done n h : sstep n (set_sy (UpdateChainHeight h (sy n)) n)
  | step_time n h src t : sstep n (MkNode (sy n) h (lastSignedBlock n) (allblks n) src (pulls n) t (out n)).

Lemma BlockInit_view cv names ips b hash outs n n' : Runnable (sy n) = true -> BlockInit cv names ips b hash outs n = Ok n' -> view_of n' = view_of n.
Proof.
  intros Hr. unfold BlockInit. intros E. apply bind_ok_inv in E as (sigs & _ & E). destruct (Done (sy n)); [by injection E as <-|].
  case_decide; [by injection E as <-|]. case_decide; [by injection E as <-|]. apply bind_ok_inv in E as (s1 & _ & E). apply bind_ok_inv in E as (fees & _ & E).
  destruct fees; [|by injection E as <-]. case_decide; [by injection E as <-|]. assert (setCommittee cv names ips (sy n) = sy n) as Es by (unfold setCommittee; by rewrite Hr).
  rewrite Es in E. destruct (forest (sy n) !! _) as [[? ? ? [?|] ?]|]; by injection E as <-.
Qed.

(** Every step keeps what has been given, and keeps a node safe. *)
Lemma step_safe Ms Ns self me height n n' : committee_ok Ms Ns self me -> sstep n n' ->
  safe DoubleHashB PrivKey Ms Ns self me height (view_of n) -> safe DoubleHashB PrivKey Ms Ns self me height (view_of n').
Proof.
  intros Hc [m c q b m' Eq E|m m' E|m x|m m' cv names ips b hash outs Hr E|m m' E|m x|m x src t] Hs.
  - destruct Hs as [Hf|(g & h & Hg)]; [|right; exists g, h]; [eapply safe_process_fresh; [..|exact E]; first [exact Hc|exact Hf|assumption]|eapply given_process; [..|exact E]; first [exact Hg|assumption]].
  - destruct Hs as [Hf|(g & h & Hg)]; [|right; exists g, h]; [exact (safe_repeater_fresh _ _ VerifySigScript ParsePubKey ParseDERSignature _ _ _ _ _ _ _ Hc _ _ _ Hf E)|by eapply given_repeater].
  - unfold receive. done.
  - by rewrite (BlockInit_view _ _ _ _ _ _ _ _ Hr E).
  - eapply safe_finish; [..|exact E]; first [exact Hc|exact Hs|assumption].
  - unfold UpdateChainHeight. by case_decide.
  - done.
Qed.

Lemma step_given Ms Ns self me height g h n n' : sstep n n' ->
  given DoubleHashB PrivKey Ms Ns self me height g h (view_of n) -> given DoubleHashB PrivKey Ms Ns self me height g h (view_of n').
Proof.
  intros [m c q b m' Eq E|m m' E|m x|m m' cv names ips b hash outs Hr E|m m' E|m x|m x src t] Hs.
  - eapply given_process; [..|exact E]; first [exact Hs|assumption].
  - eapply given_repeater; [..|exact E]; first [exact Hs|assumption].
  - done.
  - by rewrite (BlockInit_view _ _ _ _ _ _ _ _ Hr E).
  - eapply given_finish; [..|exact E]; first [exact Hs|assumption].
  - unfold UpdateChainHeight. by case_decide.
  - done.
Qed.

(** ** The start of a run *)

(** Seats are taken in order: the members so far have lower numbers. *)
Definition seats_ok (h who : Z) (st : Syncer * bool) : Prop :=
  let '(s, inc) := st in
  (forall p w, Members s !! p = Some w -> 0 <= w < who /\ Names s !! w = Some p) /\
  (inc = true -> Names s !! Myself s = Some (Me s) /\ 0 <= Myself s < who) /\
  forest s = ∅ /\ agreed s = -1 /\ sigGiven s = -1 /\ Height s = h.

Lemma take_seat_ok cv names ips h who st : 0 <= who -> seats_ok h who st -> seats_ok h (who + 1) (take_seat cv names ips who st).
Proof.
  destruct st as [s inc]. intros Hw (H1 & H2 & H3 & H4 & H5 & H6). unfold take_seat. destruct (cv_Miner _ _) as [[m conn]|].
  2: { split_and!; try done; [intros p w Hp; destruct (H1 p w Hp); split; [lia|done]|intros Hi; destruct (H2 Hi); split; [done|lia]]. }
  set (here := bool_decide _). clearbody here.
  assert (forall ns s inc, (inc = true -> (Names s !! Myself s = Some (Me s) /\ 0 <= Myself s < who) \/ (Me s = m /\ Myself s = who)) ->
    let '(s', inc') := foldl (fun '(s, inc) n => if decide (n = m /\ here = true) then (set_Myself who (set_Me n s), true) else (s, inc)) (s, inc) ns in
    Members s' = Members s /\ Names s' = Names s /\ forest s' = forest s /\ agreed s' = agreed s /\ sigGiven s' = sigGiven s /\ Height s' = Height s /\
    (inc' = true -> (Names s' !! Myself s' = Some (Me s') /\ 0 <= Myself s' < who) \/ (Me s' = m /\ Myself s' = who))) as Hfold.
  { induction ns as [|n ns IH]; intros s0 inc0 Hi; cbn [foldl]; [by split_and!|]. destruct (decide (n = m /\ here = true)) as [E|E]; [|by apply (IH s0 inc0)].
    specialize (IH (set_Myself who (set_Me n s0)) true). destruct (foldl _ _ ns) as [s' inc']. apply IH. intros _. right. by destruct E as [-> _]. }
  specialize (Hfold names s inc). destruct (foldl _ _ names) as [s' inc']. destruct Hfold as (E1 & E2 & E3 & E4 & E5 & E6 & E7); [intros Hi; left; by apply H2|].
  unfold seats_ok. cbn. rewrite E1, E2, E3, E4, E5, E6. split_and!; try done.
  - intros p w. destruct (decide (p = m)) as [->|Hne].
    + rewrite lookup_insert_eq. intros [= <-]. split; [lia|by rewrite lookup_insert_eq].
    + rewrite lookup_insert_ne by done. intros Hp. destruct (H1 p w Hp) as [Hb Hn]. split; [lia|]. by rewrite lookup_insert_ne by lia.
  - intros Hi. destruct (E7 Hi) as [[Hn Hb]|[-> ->]]; [|split; [by rewrite lookup_insert_eq|lia]]. split; [|lia]. rewrite lookup_insert_ne by lia. by rewrite <- E2.
Qed.

(** A node whose syncer has been created for a height and is in the committee. *)
Definition start (cv : chain_view) (names ips : list (list Z)) (h : Z) (hp : gmap loc (list (list Z))) (last : Z) : node :=
  MkNode (setCommittee cv names ips (CreateSyncer h)) hp last ∅ ∅ ∅ 0 [].

Lemma start_fresh cv names ips h hp last : Runnable (sy (start cv names ips h hp last)) = true -> last < h ->
  exists Ms Ns self me, committee_ok Ms Ns self me /\ fresh Ms Ns self me h (view_of (start cv names ips h hp last)).
Proof.
  intros Hr Hl. unfold start in *. cbn [sy] in Hr. unfold setCommittee in *. cbn [Runnable Done CreateSyncer orb Height] in *. case_decide as Hh; [done|].
  set (s0 := set_Base _ _) in *. assert (seats_ok h 3 (foldl (fun st who => take_seat cv names ips who st) (s0, false) (seqZ 0 CommitteeSize))) as Hs.
  { change (seqZ 0 CommitteeSize) with [0; 1; 2]. cbn [foldl]. apply (take_seat_ok cv names ips h 2); [lia|]. apply (take_seat_ok cv names ips h 1); [lia|].
    apply (take_seat_ok cv names ips h 0); [lia|]. split_and!; try done. }
  destruct (foldl _ _ (seqZ 0 CommitteeSize)) as [s inc]. destruct inc; [|done]. destruct Hs as (H1 & H2 & H3 & H4 & H5 & H6). destruct (H2 eq_refl) as [Hm Hb].
  exists (Members s), (Names s), (Me s), (Myself s). split.
  - split_and!; [|done|lia]. intros p w Hp. destruct (H1 p w Hp). split; [lia|done].
  - unfold view_of. cbn. split; [|cbn; split_and!; try done; lia]. split_and!; try done. cbn. rewrite H3. intros p x. by rewrite fmap_empty, lookup_empty.
Qed.

(** Along a run a node stays safe, and keeps what it has given. *)
Lemma run_safe Ms Ns self me height n n' : committee_ok Ms Ns self me -> rtc sstep n n' ->
  safe DoubleHashB PrivKey Ms Ns self me height (view_of n) -> safe DoubleHashB PrivKey Ms Ns self me height (view_of n').
Proof. intros Hc. induction 1 as [|x y z Hxy _ IH]; [done|]. intros Hx. apply IH. by eapply step_safe. Qed.
Lemma run_given Ms Ns self me height g h n n' : rtc sstep n n' ->
  given DoubleHashB PrivKey Ms Ns self me height g h (view_of n) -> given DoubleHashB PrivKey Ms Ns self me height g h (view_of n').
Proof. induction 1 as [|x y z Hxy _ IH]; [done|]. intros Hx. apply IH. by eapply step_given. Qed.

(** C1: a member never signs two blocks of a height: along every run of a syncer, from its
    creation in a committee, all block signatures that the node sends out are of one block,
    when the height is above the last height that has been signed. *)
Theorem no_double_signature (cv : chain_view) (names ips : list (list Z)) (h last : Z) (hp : gmap loc (list (list Z))) (n : node)
    (Hr : Runnable (sy (start cv names ips h hp last)) = true) (Hl : last < h) (Hn : rtc sstep (start cv names ips h hp last) n) :
  exists hash, Forall (own_sig DoubleHashB PrivKey h hash) (out n ≫= event_sigs).
Proof.
  destruct (start_fresh _ _ _ _ _ _ Hr Hl) as (Ms & Ns & self & me & Hc & Hf).
  assert (safe DoubleHashB PrivKey Ms Ns self me h (view_of n)) as Hs by (eapply run_safe; [exact Hc|exact Hn|by left]).
  destruct Hs as [(_ & _ & _ & E & _)|(g & hash & (_ & _ & _ & _ & Hg) & _)]; [|by exists hash]. exists []. cbn in E. by rewrite E.
Qed.

(** C17: a signature that has been given is never taken back: in every later state of the
    run the node has agreed to the same candidate with the same block. *)
Theorem signature_given_once (cv : chain_view) (names ips : list (list Z)) (h last : Z) (hp : gmap loc (list (list Z))) (n n' : node)
    (Hr : Runnable (sy (start cv names ips h hp last)) = true) (Hl : last < h) (Hn : rtc sstep (start cv names ips h hp last) n)
    (Hg : sigGiven (sy n) <> -1) (Hn' : rtc sstep n n') :
  sigGiven (sy n') = sigGiven (sy n) /\ agreed (sy n') = sigGiven (sy n) /\
  exists p t t', Names (sy n') !! sigGiven (sy n) = Some p /\ forest (sy n) !! p = Some t /\ forest (sy n') !! p = Some t' /\ t_hash t' = t_hash t.
Proof.
  destruct (start_fresh _ _ _ _ _ _ Hr Hl) as (Ms & Ns & self & me & Hc & Hf).
  assert (safe DoubleHashB PrivKey Ms Ns self me h (view_of n)) as Hs by (eapply run_safe; [exact Hc|exact Hn|by left]).
  destruct Hs as [(_ & _ & E & _)|(g & hash & Hx)]; [done|].
  assert (given DoubleHashB PrivKey Ms Ns self me h g hash (view_of n')) as Hy by (by eapply run_given).
  destruct Hx as [(_ & _ & _ & (p & Ep & Eh) & _) Egx]. destruct Hy as [((_ & En & _) & _ & Ea & (p' & Ep' & Eh') & _) Egy]. cbn in Egx, Egy, Ea, En, Eh, Eh'.
  assert (p' = p) as -> by congruence. rewrite lookup_fmap in Eh, Eh'. apply fmap_Some in Eh as (t & Et & ->). apply fmap_Some in Eh' as (t' & Et' & Eh').
  rewrite Egx, Egy, Ea. split_and!; [done|done|]. exists p, t, t'. split_and!; [by rewrite En|done|done|done].
Qed.
End Runs.

(** ** Runs that can be computed *)

Inductive input := Command | Tick | Receive (m : message) | Block (b : loc) (hash : list Z) (outs : list TxOut) | Finish.

Section Drive.
Context (DoubleHashB : list Z -> list Z) (PrivKey : option (list Z -> list Z)) (VerifySigScript : list Z -> list Z -> option (list Z)).
Context {PublicKey Signature' : Type} (ParsePubKey : list Z -> option PublicKey) (ParseDERSignature : list Z -> option Signature')
  (Verify : Signature' -> list Z -> PublicKey -> bool).
Context (reaches : list Z -> Z -> bool) (Connected : list Z -> bool).
Context (cv : chain_view) (names ips : list (list Z)).

Definition drive_one (i : input) (n : node) : outcome node :=
  match i with
  | Command =>
      match commands (sy n) with
      | [] => Ok n
      | c :: q => '(_, n) ← process DoubleHashB PrivKey VerifySigScript ParsePubKey ParseDERSignature Verify reaches c (set_sy (set_commands q (sy n)) n); Ok n
      end
  | Tick => '(_, n) ← repeater DoubleHashB PrivKey reaches Connected n; Ok n
  | Receive m => Ok (set_sy (receive m (sy n)) n)
  | Block b hash outs => if Runnable (sy n) then BlockInit cv names ips b hash outs n else Ok n
  | Finish => '(_, n) ← finish DoubleHashB ParsePubKey ParseDERSignature Verify n; Ok n
  end.
Fixpoint drive (l : list input) (n : node) : outcome node := match l with [] => Ok n | i :: l => n ← drive_one i n; drive l n end.

Lemma drive_runs l n n' : drive l n = Ok n' ->
  rtc (sstep DoubleHashB PrivKey VerifySigScript ParsePubKey ParseDERSignature Verify reaches Connected) n n'.
Proof.
  revert n. induction l as [|i l IH]; intros n; cbn [drive]; [by intros [= ->]|]. intros (m & E & El)%bind_ok_inv. etrans; [|by apply IH].
  destruct i as [| |x|b hash outs|]; cbn [drive_one] in E.
  - destruct (commands (sy n)) as [|c q] eqn:Eq; [by injection E as ->|]. apply bind_ok_inv in E as ([b m'] & E & E'). injection E' as <-. apply rtc_once. by eapply step_command.
  - apply bind_ok_inv in E as ([[] m'] & E & [= <-]). apply rtc_once. by apply step_tick.
  - injection E as <-. apply rtc_once. apply step_receive.
  - destruct (Runnable (sy n)) eqn:Er; [|by injection E as ->]. apply rtc_once. by eapply step_block.
  - apply bind_ok_inv in E as ([[] m'] & E & [= <-]). apply rtc_once. by apply step_finish.
Qed.
End Drive.

(** ** A run in which a member signs

    The second of three members gets the block of the first, hears of it from the others,
    consents and signs.  A signature of a member begins with its number. *)
Definition sample_member (i : Z) : list Z := replicate 20 i.
Definition sample_chain : chain_view := MkChainView 4 2 (fun i => if decide (0 <= i <= 2) then Some (sample_member (i + 1), []) else None).
Definition sample_hash (l : list Z) : list Z := take 32 (l ++ replicate 32 0).
Definition sample_key (i : Z) (h : list Z) : list Z := replicate 33 i ++ h.
Definition sample_signer (sig _ : list Z) : option (list Z) := match sig with i :: _ => Some (sample_member i) | [] => None end.
Definition sample_verify (s h : list Z) (_ : list Z) : bool := bool_decide (s = h).
Definition sample_outs : list TxOut := replicate 2 (MkTxOut (MkToken 0 (Some (NumToken 5)) None) []).
Definition sample_block : list Z := replicate 32 9.
Definition sample_consensus : MsgConsensus :=
  MkConsensus 5 (sample_member 1) sample_block (sample_key 1 (MakeMinerSigHash sample_hash 5 sample_block)) 0.
Definition sample_inputs : list input :=
  [Block 1%positive sample_block sample_outs; Command;
   Receive (MKnowledge (MkKnowledge 5 [0; 2; 0] sample_block (sample_member 1) (sample_member 1) [[1]; [3]; [1]] 0)); Command;
   Receive (MCandidate (MkCandidate 5 (sample_member 1) sample_block [1] 0)); Command].
Definition sample_start : node := start sample_chain [sample_member 2] [] 5 {[1%positive := [[0]; sample_member 1]]} 4.
Definition sample_drive : list input -> node -> outcome node :=
  drive sample_hash (Some (sample_key 2)) sample_signer Some Some sample_verify (fun _ _ => false) (fun _ => true) sample_chain [sample_member 2] [].
Definition sample_signed : node := match sample_drive (sample_inputs ++ [Receive (MConsensus sample_consensus); Command]) sample_start with Ok n => n | _ => sample_start end.
Definition sample_later : node := match sample_drive [Tick; Receive (MConsensus sample_consensus); Command; Finish] sample_signed with Ok n => n | _ => sample_signed end.

Lemma sample_signed_runs : rtc (sstep sample_hash (Some (sample_key 2)) sample_signer Some Some sample_verify (fun _ _ => false) (fun _ => true)) sample_start sample_signed.
Proof. apply (drive_runs _ _ _ _ _ _ _ _ sample_chain [sample_member 2] [] (sample_inputs ++ [Receive (MConsensus sample_consensus); Command])). vm_compute. reflexivity. Qed.
Lemma sample_later_runs : rtc (sstep sample_hash (Some (sample_key 2)) sample_signer Some Some sample_verify (fun _ _ => false) (fun _ => true)) sample_signed sample_later.
Proof. apply (drive_runs _ _ _ _ _ _ _ _ sample_chain [sample_member 2] [] [Tick; Receive (MConsensus sample_consensus); Command; Finish]). vm_compute. reflexivity. Qed.

Lemma no_double_signature_witness :
  length (out sample_later ≫= event_sigs) = 2%nat /\
  exists hash, Forall (own_sig sample_hash (Some (sample_key 2)) 5 hash) (out sample_later ≫= event_sigs).
Proof.
  split; [vm_compute; reflexivity|].
  apply (no_double_signature sample_hash (Some (sample_key 2)) sample_signer Some Some sample_verify (fun _ _ => false) (fun _ => true)
    sample_chain [sample_member 2] [] 5 4 {[1%positive := [[0]; sample_member 1]]} sample_later).
  - vm_compute. reflexivity.
  - lia.
  - etrans; [exact sample_signed_runs|exact sample_later_runs].
Defined.

Lemma signature_given_witness : sigGiven (sy sample_signed) = 0 /\ sigGiven (sy sample_later) = sigGiven (sy sample_signed).
Proof.
  split; [vm_compute; reflexivity|].
  refine (proj1 (signature_given_once sample_hash (Some (sample_key 2)) sample_signer Some Some sample_verify (fun _ _ => false) (fun _ => true)
    sample_chain [sample_member 2] [] 5 4 {[1%positive := [[0]; sample_member 1]]} sample_signed sample_later _ _ sample_signed_runs _ sample_later_runs)).
  - vm_compute. reflexivity.
  - lia.
  - vm_compute. discriminate.
Defined.

(** ** Where the checks are not enough *)

Section Gaps.
Context (DoubleHashB : list Z -> list Z).
Context {PublicKey Signature' : Type} (ParsePubKey : list Z -> option PublicKey) (ParseDERSignature : list Z -> option Signature')
  (Verify : Signature' -> list Z -> PublicKey -> bool).

(** A node that has signed the block [b] of the member [p]. *)
Definition has_signed (n : node) (p : list Z) (t : tree) (b : loc) (sigs : list (list Z)) : Prop :=
  sigGiven (sy n) = agreed (sy n) /\ 0 <= agreed (sy n) /\ Names (sy n) !! agreed (sy n) = Some p /\ Members (sy n) !! p = Some (agreed (sy n)) /\
  forest (sy n) !! p = Some t /\ t_block t = Some b /\ heap n !! b = Some sigs.

Lemma tree_of_at n p t : forest (sy n) !! p = Some t -> tree_of p n = Ok (t, n).
Proof. intros E. unfold tree_of, gets, mbind, act_bind. by rewrite E. Qed.
Lemma add_sig_at n p t b sigs x : forest (sy n) !! p = Some t -> t_block t = Some b -> heap n !! b = Some sigs ->
  change_sigs p (add_sig x) n = Ok ((), set_heap (<[b := sigs ++ [x]]> (heap n)) n).
Proof. intros Et Eb Es. unfold change_sigs, mbind, act_bind. rewrite (tree_of_at _ _ _ Et). unfold store_sigs. rewrite Eb. cbn. by rewrite Es. Qed.

(** A signature under a name that has not signed yet is added, whoever made it. *)
Lemma Signature_counts n p t b sigs from hgt seq sig : has_signed n p t b sigs -> from ∉ signers (sy n) ->
  block_signature_ok ParsePubKey ParseDERSignature Verify sig (MakeMinerSigHash DoubleHashB (Height (sy n)) (t_hash t)) = Ok true ->
  exists n', Signature DoubleHashB ParsePubKey ParseDERSignature Verify (MkSignature (MkConsensus hgt from (t_hash t) sig seq) p) n =
      Ok (bool_decide (CommitteeSigs <= Z.of_nat (size ({[from]} ∪ signers (sy n)))), n') /\
    has_signed n' p t b (sigs ++ [sig]) /\ signers (sy n') = {[from]} ∪ signers (sy n) /\ Height (sy n') = Height (sy n).
Proof.
  intros (E1 & E2 & E3 & E4 & E5 & E6 & E7) Hf Hok. unfold Signature, has_tree, gets, upd, lift, mbind, act_bind, mret, act_ret, name, member.
  cbn. rewrite decide_False by lia. rewrite E3. cbn. rewrite E5. cbn. rewrite decide_False by (by intros []). rewrite decide_False by done. rewrite E4. cbn.
  rewrite E5. rewrite E6. cbn [is_nil]. rewrite !(decide_True (P := _ /\ _)) by done. rewrite decide_False by lia. cbn. rewrite Hok. cbn. rewrite E1, decide_False by lia.
  unfold UpdateLastWritten. cbn. rewrite E3. cbn.
  case_decide; cbn; rewrite decide_False by naive_solver; cbn; rewrite (add_sig_at _ p t b sigs) by done; cbn; eexists;
    (split; [done|]); unfold has_signed; split_and!; try done; cbn; by rewrite lookup_insert_eq.
Qed.

(** C36: one signature is enough for a quorum: a signature counts for the name that its
    message carries, which is not compared with the key, so the same signature under two
    names enters the block twice and completes it. *)
Theorem one_signature_makes_quorum (n : node) (p : list Z) (t : tree) (b : loc) (sigs : list (list Z)) (sig from1 from2 : list Z) (hgt seq : Z)
    (Hn : has_signed n p t b sigs) (H1 : from1 ∉ signers (sy n)) (H2 : from2 ∉ signers (sy n)) (Hne : from1 <> from2)
    (Hok : block_signature_ok ParsePubKey ParseDERSignature Verify sig (MakeMinerSigHash DoubleHashB (Height (sy n)) (t_hash t)) = Ok true) :
  exists c n1 n2,
    Signature DoubleHashB ParsePubKey ParseDERSignature Verify (MkSignature (MkConsensus hgt from1 (t_hash t) sig seq) p) n = Ok (c, n1) /\
    Signature DoubleHashB ParsePubKey ParseDERSignature Verify (MkSignature (MkConsensus hgt from2 (t_hash t) sig seq) p) n1 = Ok (true, n2) /\
    heap n2 !! b = Some (sigs ++ [sig; sig]).
Proof.
  destruct (Signature_counts n p t b sigs from1 hgt seq sig Hn H1 Hok) as (n1 & E1 & Hn1 & S1 & Hh1).
  destruct (Signature_counts n1 p t b (sigs ++ [sig]) from2 hgt seq sig Hn1) as (n2 & E2 & Hn2 & S2 & _); [set_solver|by rewrite Hh1|].
  eexists _, n1, n2. split; [exact E1|]. rewrite E2, S1. split.
  - assert (size ({[from2]} ∪ {[from1]} : gset (list Z)) <= size ({[from2]} ∪ ({[from1]} ∪ signers (sy n)) : gset (list Z)))%nat as Hs by (apply subseteq_size; set_solver).
    rewrite size_union, !size_singleton in Hs by set_solver. rewrite bool_decide_true; [done|]. unfold CommitteeSigs. lia.
  - destruct Hn2 as (_ & _ & _ & _ & _ & _ & E). by rewrite E, <- app_assoc.
Qed.

Context (reaches : list Z -> Z -> bool).

Lemma CommitteeMsgMG_emits p m n : exists e, CommitteeMsgMG reaches p m n = Ok ((), set_out (out n ++ [e]) n) /\ event_sigs e = message_sigs m.
Proof.
  unfold CommitteeMsgMG, gets, mbind, act_bind. destruct (Members (sy n) !! p) as [h|]; [destruct (reaches p (h + Base (sy n)))|]; unfold emit; eexists; split; done.
Qed.
Lemma cast_emits (l : list (Z * list Z)) (me : Z) m n : exists es, each l (fun '(i, p) => if decide (i = me) then mret () else CommitteeMsgMG reaches p m) n = Ok ((), set_out (out n ++ es) n) /\
  ((exists i p, (i, p) ∈ l /\ i <> me) -> message_sigs m ⊆ es ≫= event_sigs).
Proof.
  revert n. induction l as [|[i p] l IH]; intros n; cbn [each].
  - exists []. rewrite app_nil_r. split; [by destruct n|]. intros (i & p & H & _). by apply elem_of_nil in H.
  - unfold mbind, act_bind. destruct (decide (i = me)) as [->|Hi].
    + destruct (IH n) as (es & E & H). exists es. split; [exact E|]. intros (i & q & [[= -> ->]|Hq]%elem_of_cons & Hne); [done|]. apply H. eauto.
    + destruct (CommitteeMsgMG_emits p m n) as (e & -> & He). destruct (IH (set_out (out n ++ [e]) n)) as (es & -> & _). exists (e :: es). split; [cbn; by rewrite <- app_assoc|].
      intros _. rewrite bind_cons, He. intros x Hx. apply elem_of_app. by left.
Qed.

(** The guard against signing a height again comes too late in one place: a member that
    has already signed at this height, or above, still sends its signature of the agreed
    block to the others when that member announces consensus; only its own copy of the
    block is left without it. *)
Theorem late_signature_still_sent (k : list Z -> list Z) (n : node) (msg : MsgConsensus) (t : tree) (i : Z) (p : list Z)
    (Ha : agreed (sy n) = member (cs_From msg) (sy n)) (Hg : sigGiven (sy n) = -1) (Hm : 0 <= agreed (sy n))
    (Ht : forest (sy n) !! cs_From msg = Some t) (Hl : Height (sy n) <= lastSignedBlock n) (Hi : Names (sy n) !! i = Some p) (Hne : i <> Myself (sy n))
    (Hok : block_signature_ok ParsePubKey ParseDERSignature Verify (cs_Signature msg) (MakeMinerSigHash DoubleHashB (Height (sy n)) (t_hash t)) = Ok true) :
  exists n', Consensus DoubleHashB (Some k) ParsePubKey ParseDERSignature Verify reaches msg n = Ok (false, n') /\ sigGiven (sy n') = -1 /\
    k (MakeMinerSigHash DoubleHashB (Height (sy n)) (t_hash t)) ∈ out n' ≫= event_sigs.
Proof.
  unfold Consensus, gets, lift, mbind, act_bind, mret, act_ret. rewrite decide_False by (rewrite Ha; lia). rewrite (tree_of_at _ _ _ Ht). cbn. rewrite Hok. cbn.
  unfold CommitteeCastMG, gets, mbind, act_bind. set (m := MSignature _).
  destruct (cast_emits (map_to_list (Names (sy n))) (Myself (sy n)) m n) as (es & E & He). rewrite E. cbn. rewrite decide_True by done.
  unfold UpdateLastWritten. cbn. rewrite decide_False by lia. cbn. rewrite decide_True by (split; [done|lia]). cbn. eexists. split_and!; [done|done|]. cbn.
  rewrite bind_app. apply elem_of_app. right. apply He; [|by left]. exists i, p. split; [by apply elem_of_map_to_list|done].
Qed.
End Gaps.

Lemma one_signature_witness : exists n p t b sigs sig,
  has_signed n p t b sigs /\ signers (sy n) = {[sample_member 2; sample_member 1]} /\
  exists c n1 n2,
    Signature sample_hash Some Some sample_verify (MkSignature (MkConsensus 5 [3] (t_hash t) sig 0) p) n = Ok (c, n1) /\
    Signature sample_hash Some Some sample_verify (MkSignature (MkConsensus 5 [4] (t_hash t) sig 0) p) n1 = Ok (true, n2) /\
    heap n2 !! b = Some (sigs ++ [sig; sig]).
Proof.
  exists sample_signed, (sample_member 1), (MkTree (sample_member 1) 10 sample_block (Some 1%positive) (default None (t_know <$> forest (sy sample_signed) !! sample_member 1))), 1%positive,
    (default [] (heap sample_signed !! 1%positive)), (cs_Signature sample_consensus).
  assert (has_signed sample_signed (sample_member 1) (MkTree (sample_member 1) 10 sample_block (Some 1%positive) (default None (t_know <$> forest (sy sample_signed) !! sample_member 1)))
    1%positive (default [] (heap sample_signed !! 1%positive))) as Hs by (unfold has_signed; split_and!; vm_compute; (reflexivity || discriminate)).
  split; [exact Hs|]. split; [vm_compute; reflexivity|].
  apply (one_signature_makes_quorum sample_hash Some Some sample_verify _ _ _ _ _ _ [3] [4] 5 0 Hs).
  - apply (bool_decide_unpack _). vm_compute. reflexivity.
  - apply (bool_decide_unpack _). vm_compute. reflexivity.
  - discriminate.
  - vm_compute. reflexivity.
Defined.


(** A member that has agreed to the block of the first after it has signed at that height. *)
Definition sample_late : node := set_lastSignedBlock 5 (match sample_drive sample_inputs sample_start with Ok n => n | _ => sample_start end).
Lemma late_signature_witness : lastSignedBlock sample_late = 5 /\ (out sample_late ≫= event_sigs) = [] /\
  exists n', Consensus sample_hash (Some (sample_key 2)) Some Some sample_verify (fun _ _ => false) sample_consensus sample_late = Ok (false, n') /\ sigGiven (sy n') = -1 /\
    sample_key 2 (MakeMinerSigHash sample_hash 5 sample_block) ∈ out n' ≫= event_sigs.
Proof.
  split; [reflexivity|]. split; [vm_compute; reflexivity|].
  refine (late_signature_still_sent sample_hash Some Some sample_verify (fun _ _ => false) (sample_key 2) sample_late sample_consensus
    (MkTree (sample_member 1) 10 sample_block (Some 1%positive) (default None (t_know <$> forest (sy sample_late) !! sample_member 1))) 0 (sample_member 1) _ _ _ _ _ _ _ _);
    vm_compute; (reflexivity || discriminate).
Defined.

(** A peer can stop a node with one message: the check of the signature of a consensus or
    signature message takes the first 33 bytes as the key without looking at the length, and
    uses the rest as a signature even when it is none; both panic. *)
Theorem bad_block_signature_panics (DoubleHashB : list Z -> list Z) (VerifySigScript : list Z -> list Z -> option (list Z)) {PublicKey Signature' : Type}
    (ParsePubKey : list Z -> option PublicKey) (ParseDERSignature : list Z -> option Signature') (Verify : Signature' -> list Z -> PublicKey -> bool) (msg : MsgConsensus) (to : list Z)
    (Hs : len (cs_Signature msg) < 33 \/ (is_Some (ParsePubKey (take 33 (cs_Signature msg))) /\ ParseDERSignature (drop 33 (cs_Signature msg)) = None)) :
  VerifySig DoubleHashB VerifySigScript ParsePubKey ParseDERSignature Verify (MConsensus msg) = Panic /\
  VerifySig DoubleHashB VerifySigScript ParsePubKey ParseDERSignature Verify (MSignature (MkSignature msg to)) = Panic.
Proof.
  unfold VerifySig, PubKeyBytesLenCompressed. cbn. set (s := cs_Signature msg) in *. destruct (decide (len s < 33)) as [Hl|Hl].
  { unfold slice_sub. rewrite !decide_False by (fold (len s); lia). done. }
  destruct Hs as [Hs|[[k Ek] Es]]; [done|]. unfold slice_sub. fold (len s). rewrite !decide_True by lia. cbn [mbind outcome_bind]. change (Z.to_nat (33 - 0)) with 33%nat. change (Z.to_nat 33) with 33%nat.
  change (Z.to_nat 0) with 0%nat. rewrite drop_0, Ek. rewrite !take_ge by (rewrite length_drop; lia). by rewrite Es.
Qed.
Lemma bad_block_signature_witness : cs_Signature (MkConsensus 5 (sample_member 1) sample_block [2; 3] 0) = [2; 3] /\
  VerifySig sample_hash sample_signer Some Some sample_verify (MConsensus (MkConsensus 5 (sample_member 1) sample_block [2; 3] 0)) = Panic.
Proof.
  split; [reflexivity|].
  exact (proj1 (bad_block_signature_panics sample_hash sample_signer Some Some sample_verify (MkConsensus 5 (sample_member 1) sample_block [2; 3] 0) (sample_member 1) (or_introl eq_refl))).
Defined.
