(* ===== verification/SyncerLive.v ===== *)
(** * Progress of the consensus protocol

    Proves of the model in Syncer: once a member has given its signature, no tick of the
    repeater fails, and every tick either ends the run of the syncer or sends the signature
    out again, so that a signature that was lost on the way is replaced. *)
From Stdlib Require Import ZArith Lia.
From stdpp Require Import gmap list.
From S2P Require Import Prelude Wire Token MsgTx MsgBlock WireMsgs WireConsensus WireMessage Knowledge Syncer SyncerSafe.

Open Scope Z_scope.

(** ** Actions that do not fail, only add to what is sent, and do not end the run *)

Definition runs_at {A} (m : act A) (n : node) : Prop := exists a n', m n = Ok (a, n') /\ out n `prefix_of` out n' /\ Done (sy n') = Done (sy n).
Definition runs {A} (m : act A) : Prop := forall n, runs_at m n.

Lemma runs_bind_at {A B} (m : act A) (k : A -> act B) n : runs_at m n -> (forall a n', m n = Ok (a, n') -> runs_at (k a) n') -> runs_at (m ≫= k) n.
Proof.
  intros (a & n1 & E1 & P1 & D1) Hk. destruct (Hk _ _ E1) as (b & n2 & E2 & P2 & D2). exists b, n2. unfold mbind, act_bind. rewrite E1. split_and!; [done|by etrans|congruence].
Qed.
Lemma runs_bind {A B} (m : act A) (k : A -> act B) : runs m -> (forall a, runs (k a)) -> runs (m ≫= k).
Proof. intros Hm Hk n. apply runs_bind_at; [apply Hm|intros a n' _; apply Hk]. Qed.
Lemma runs_ret {A} (a : A) : runs (mret a).
Proof. intros n. by exists a, n. Qed.
Lemma runs_gets {A} (f : Syncer -> A) : runs (gets f).
Proof. intros n. by exists (f (sy n)), n. Qed.
Lemma runs_upd f : (forall s, Done (f s) = Done s) -> runs (upd f).
Proof. intros Hf n. eexists _, _. split; [done|]. split; [done|]. apply Hf. Qed.
Lemma runs_emit e : runs (emit e).
Proof. intros n. eexists _, _. split; [done|]. split; [by exists [e]|done]. Qed.
Lemma runs_each {A} (l : list A) f : (forall x, runs (f x)) -> runs (each l f).
Proof. intros Hf. induction l as [|x l IH]; cbn [each]; [apply runs_ret|]. by apply runs_bind. Qed.

Lemma runs_has_tree p : runs (has_tree p).
Proof. apply runs_bind; [apply runs_gets|intros f; apply runs_ret]. Qed.
Lemma has_tree_inv p n a n' : has_tree p n = Ok (a, n') -> n' = n /\ a = forest (sy n) !! p.
Proof. by intros [= <- <-]. Qed.
Lemma gets_inv {A} (f : Syncer -> A) n a n' : gets f n = Ok (a, n') -> n' = n /\ a = f (sy n).
Proof. by intros [= <- <-]. Qed.

Lemma gets_then {A B} (f : Syncer -> A) (k : A -> act B) n : (gets f ≫= k) n = k (f (sy n)) n.
Proof. done. Qed.
Lemma upd_then {B} f (k : () -> act B) n : (upd f ≫= k) n = k () (set_sy (f (sy n)) n).
Proof. done. Qed.

Lemma runs_pull_known hash h : runs (pull_known hash h).
Proof.
  intros n. unfold runs_at, pull_known, ask_known. destruct (knownsrc n !! hash); [|by exists (), n].
  destruct (pulls n !! hash); [case_decide|]; (eexists _, _; split; [reflexivity|]; cbn; split; first [reflexivity|by eexists]).
Qed.

Section Live.
Context (DoubleHashB : list Z -> list Z) (VerifySigScript : list Z -> list Z -> option (list Z)).
Context {PublicKey Signature' : Type} (ParsePubKey : list Z -> option PublicKey) (ParseDERSignature : list Z -> option Signature')
  (Verify : Signature' -> list Z -> PublicKey -> bool).
Context (reaches : list Z -> Z -> bool) (Connected : list Z -> bool) (k : list Z -> list Z).

Lemma runs_CommitteeMsgMG p m : runs (CommitteeMsgMG reaches p m).
Proof.
  unfold CommitteeMsgMG. apply runs_bind; [apply runs_gets|intros mem]. apply runs_bind; [apply runs_gets|intros base].
  destruct (mem !! p) as [h|]; [destruct (reaches p (h + base))|]; apply runs_emit.
Qed.

Lemma runs_set_know p m n : is_Some (forest (sy n) !! p) -> runs_at (set_know p m) n.
Proof.
  intros [t Et]. unfold set_know. apply runs_bind_at; [exists t, n; by rewrite (tree_of_at _ _ _ Et)|]. intros a n' _. by apply runs_upd.
Qed.

(** The last loop of the repeater. *)
Lemma runs_repeat_knowledge l : runs (repeat_knowledge DoubleHashB (Some k) reaches l).
Proof.
  induction l as [|[m kp] l IH]; cbn [repeat_knowledge]; [apply runs_ret|]. intros n.
  apply runs_bind_at; [apply runs_gets|]. intros p n1 (-> & ->)%gets_inv. apply runs_bind_at; [apply runs_has_tree|]. intros t n2 (-> & ->)%has_tree_inv.
  apply runs_bind_at; [apply runs_gets|]. intros me n3 (-> & ->)%gets_inv. apply runs_bind_at; [apply runs_gets|]. intros self n4 (-> & ->)%gets_inv.
  destruct (forest (sy n) !! _) as [t|] eqn:Et; [|apply IH]. destruct (t_know t) as [lmg|]; [|apply IH].
  assert (forall x, runs (_ ← each (imap (fun i q => (Z.of_nat i, q)) kp) (fun '(i, mp) =>
      if decide (mp = foldr Z.lor 0 kp \/ i = Myself (sy n)) then mret () else to ← gets (name i); CommitteeMsgMG reaches to (MKnowledge x));
      repeat_knowledge DoubleHashB (Some k) reaches l)) as Hsend.
  { intros x. apply runs_bind; [|intros ?; exact IH]. apply runs_each. intros [i mp]. case_decide; [apply runs_ret|].
    apply runs_bind; [apply runs_gets|intros to]. apply runs_CommitteeMsgMG. }
  case_decide; [|apply Hsend]. apply runs_bind_at; [by apply runs_set_know|]. intros ? n' _. apply Hsend.
Qed.

(** What follows the role of the node in a tick. *)
Lemma runs_rest n : name (Myself (sy n)) (sy n) = Me (sy n) -> runs_at (
  self ← gets Me; height ← gets Height; t ← has_tree self; q ← gets commands;
  _ ← (match t with
       | Some _ => if decide (len q < (CommitteeSize - 1) * 10) then m ← NewKnowledgeMsg DoubleHashB (Some k); _ ← enqueue (CMsg (MKnowledge m)); emit (Cast (MKnowledge m)) else mret ()
       | None => mret ()
       end);
  l ← gets (fun s => map_to_list (forest s));
  mem ← gets Members;
  _ ← each l (fun '(_, t) => if is_nil (t_block t) then match mem !! t_creator t with Some _ => pull_known (t_hash t) height | None => mret () end else mret ());
  rows ← gets (fun s => imap (fun i r => (Z.of_nat i, r)) (Knowledge (knowledges s)));
  repeat_knowledge DoubleHashB (Some k) reaches rows) n.
Proof.
  intros Hn. apply runs_bind_at; [apply runs_gets|]. intros self n1 (-> & ->)%gets_inv. apply runs_bind_at; [apply runs_gets|]. intros height n1 (-> & ->)%gets_inv.
  apply runs_bind_at; [apply runs_has_tree|]. intros t n1 (-> & ->)%has_tree_inv. apply runs_bind_at; [apply runs_gets|]. intros q n1 (-> & ->)%gets_inv. apply runs_bind_at.
  { destruct (forest (sy n) !! Me (sy n)) as [t|] eqn:Et; [|apply runs_ret]. case_decide as Hq; [|apply runs_ret].
    unfold NewKnowledgeMsg, enqueue, gets, upd, emit, runs_at, mbind, act_bind, mret, act_ret. cbn. rewrite Hn, (tree_of_at _ _ _ Et). cbn.
    rewrite decide_True by (unfold CommitteeSize in Hq; lia). eexists _, _. split; [done|]. cbn. split; [by eexists|done]. }
  intros ? n1 _. revert n1. apply runs_bind; [apply runs_gets|intros l]. apply runs_bind; [apply runs_gets|intros mem]. apply runs_bind.
  { apply runs_each. intros [p t]. destruct (is_nil _); [|apply runs_ret]. destruct (mem !! _); [apply runs_pull_known|apply runs_ret]. }
  intros ?. apply runs_bind; [apply runs_gets|intros rows]. apply runs_repeat_knowledge.
Qed.

(** The message that repeats the signature. *)
Definition own_signature (n : node) (p hash : list Z) : message := MSignature (MkSignature (consensus_msg DoubleHashB k (Height (sy n)) (Me (sy n)) hash hash) p).

Lemma repeat_role_signed n p t : sigGiven (sy n) <> -1 -> name (agreed (sy n)) (sy n) = p -> forest (sy n) !! p = Some t ->
  repeat_role DoubleHashB (Some k) reaches Connected n = Ok (true, set_out (out n ++ [Cast (own_signature n p (t_hash t))]) n).
Proof.
  intros Hg Hp Et. unfold repeat_role, gets, emit, mbind, act_bind, mret, act_ret. cbn. rewrite decide_True by done. rewrite Hp, (tree_of_at _ _ _ Et). done.
Qed.

(** The state after a tick that has enough signatures. *)
Definition concluded (n : node) : node := set_sy (set_Done true (sy n)) n.

Lemma tick_signed n p t : Runnable (sy n) = true -> Done (sy n) = false -> sigGiven (sy n) <> -1 -> agreed (sy n) <> -1 -> name (agreed (sy n)) (sy n) = p -> forest (sy n) !! p = Some t ->
  name (Myself (sy n)) (sy n) = Me (sy n) ->
  exists n', repeater DoubleHashB (Some k) reaches Connected n = Ok ((), n') /\
    if decide (CommitteeSigs <= Z.of_nat (size (signers (sy n)))) then n' = concluded n
    else Done (sy n') = false /\ exists es, out n' = out n ++ Cast (own_signature n p (t_hash t)) :: es.
Proof.
  intros Hr Hd Hg Ha Hp Et Hm. unfold repeater. rewrite !gets_then, Hr, Hd. cbn [negb orb]. rewrite !gets_then. destruct (decide (CommitteeSigs <= _)) as [Hs|Hs].
  { rewrite decide_True by done. eexists. by split. }
  rewrite decide_False by (by intros [_ ?]).
  rewrite upd_then. set (n1 := set_sy _ n). assert (forest (sy n1) !! p = Some (fill_tree (forest (sy n)) t)) as Et1 by (cbn; by rewrite lookup_fmap, Et).
  unfold mbind at 1, act_bind at 1. rewrite (repeat_role_signed n1 p _ Hg Hp Et1). cbn [negb]. set (n2 := set_out _ n1).
  destruct (runs_rest n2 Hm) as ([] & n' & E & [es Eo] & Ed). exists n'. split; [exact E|]. split; [by rewrite Ed|]. exists es. rewrite Eo. cbn [out n2 set_out].
  assert (t_hash (fill_tree (forest (sy n)) t) = t_hash t) as Eh.
  { unfold fill_tree. destruct (t_block t); [done|]. by destruct (list_find _ _) as [[? [? ?]]|]. }
  rewrite Eh, <- app_assoc. done.
Qed.

(** C29: a signature is sent again until the run ends: once a member has given its signature, as
    long as the syncer is running and has not concluded, no tick fails.  A tick concludes the run
    exactly when there are as many signers as the committee needs, and then does nothing else;
    every other tick leaves it open, and the first message that it sends, behind all that was
    sent before, is the signature of the agreed block again. *)
Theorem signature_is_repeated (cv : chain_view) (names ips : list (list Z)) (h last : Z) (hp : gmap loc (list (list Z))) (n : node)
    (Hr : Runnable (sy (start cv names ips h hp last)) = true) (Hl : last < h)
    (Hn : rtc (sstep DoubleHashB (Some k) VerifySigScript ParsePubKey ParseDERSignature Verify reaches Connected) (start cv names ips h hp last) n)
    (Hrun : Runnable (sy n) = true) (Hdone : Done (sy n) = false) (Hg : sigGiven (sy n) <> -1) :
  exists p t n', Names (sy n) !! sigGiven (sy n) = Some p /\ forest (sy n) !! p = Some t /\
    repeater DoubleHashB (Some k) reaches Connected n = Ok ((), n') /\
    if decide (CommitteeSigs <= Z.of_nat (size (signers (sy n)))) then n' = concluded n
    else Done (sy n') = false /\ exists es, out n' = out n ++ Cast (own_signature n p (t_hash t)) :: es.
Proof.
  destruct (start_fresh _ _ _ _ _ _ Hr Hl) as (Ms & Ns & self & me & Hc & Hf).
  assert (safe DoubleHashB (Some k) Ms Ns self me h (view_of n)) as Hs by (eapply run_safe; [exact Hc|exact Hn|by left]).
  destruct Hs as [(_ & _ & E & _)|(g & hash & ((_ & En & Es & Em & _) & _ & Ea & (p & Ep & Eh) & _) & Eg)]; [done|]. cbn in En, Es, Em, Ea, Eh, Eg.
  rewrite lookup_fmap in Eh. apply fmap_Some in Eh as (t & Et & ->). destruct Hc as (_ & Hme & _).
  destruct (tick_signed n p t Hrun Hdone Hg) as (n' & E & H); [congruence|unfold name; by rewrite Ea, En, Ep|done|unfold name; by rewrite Em, En, Es, Hme|].
  exists p, t, n'. by rewrite Eg, En.
Qed.
End Live.

(** The second member after the signature of the third for the block of the first. *)
Definition sample_third : message :=
  MSignature (MkSignature (MkConsensus 5 (sample_member 3) sample_block (sample_key 3 (MakeMinerSigHash sample_hash 5 sample_block)) 0) (sample_member 1)).
Definition sample_waiting : node := match sample_drive (sample_inputs ++ [Receive sample_third; Command]) sample_start with Ok n => n | _ => sample_start end.

Lemma signature_is_repeated_witness : Z.of_nat (size (signers (sy sample_waiting))) = 1 /\
  exists p t n' es, Names (sy sample_waiting) !! sigGiven (sy sample_waiting) = Some p /\ forest (sy sample_waiting) !! p = Some t /\
    repeater sample_hash (Some (sample_key 2)) (fun _ _ => false) (fun _ => true) sample_waiting = Ok ((), n') /\
    Done (sy n') = false /\ out n' = out sample_waiting ++ Cast (own_signature sample_hash (sample_key 2) sample_waiting p (t_hash t)) :: es.
Proof.
  split; [vm_compute; reflexivity|].
  destruct (signature_is_repeated sample_hash sample_signer Some Some sample_verify (fun _ _ => false) (fun _ => true) (sample_key 2)
    sample_chain [sample_member 2] [] 5 4 {[1%positive := [[0]; sample_member 1]]} sample_waiting) as (p & t & n' & H1 & H2 & H3 & H4).
  - vm_compute. reflexivity.
  - lia.
  - apply (drive_runs _ _ _ _ _ _ _ _ sample_chain [sample_member 2] [] (sample_inputs ++ [Receive sample_third; Command])). vm_compute. reflexivity.
  - vm_compute. reflexivity.
  - vm_compute. reflexivity.
  - vm_compute. discriminate.
  - rewrite decide_False in H4 by (vm_compute; intros H; by apply H). destruct H4 as [H4 [es H5]]. exists p, t, n', es. exact (conj H1 (conj H2 (conj H3 (conj H4 H5)))).
Defined.
