(* ===== verification/ViewDb.v ===== *)
(** * Buckets, buffers and flags of the views

    What the views of omega/viewpoint share: the flags of their entries, the buckets of
    the database they are loaded from and stored to (database/ffldb/db.go, reduced to
    what a bucket of an open transaction holds), and the filling of buffers with [copy]
    and [PutVLQ] at an offset. *)
From Stdlib Require Import ZArith Lia.
From stdpp Require Import gmap list.
From S2P Require Import Prelude Vlq Token.

Open Scope Z_scope.

(** ** Flags *)

Definition TfCoinBase : Z := 1.
Definition TfSpent : Z := 2.
Definition TfModified : Z := 4.
Definition TfMonitoring : Z := 8.

Definition flag_on (flags f : Z) : bool := bool_decide (Z.land flags f = f).

(** [RollBack] and [Spend]: nothing when the flag of spending is already on. *)
Definition spend_flags (flags : Z) : Z := if flag_on flags TfSpent then flags else Z.lor flags (Z.lor TfSpent TfModified).

Definition flags_ok (f : Z) : Prop := uint_range 8 f.

Lemma flag_on_testbit f n : 0 <= n -> flag_on f (2 ^ n) = Z.testbit f n.
Proof.
  intros Hn. unfold flag_on. destruct (Z.testbit f n) eqn:E; [apply bool_decide_eq_true_2|apply bool_decide_eq_false_2].
  - apply Z.bits_inj'. intros m Hm. rewrite Z.land_spec, Z.pow2_bits_eqb by done.
    destruct (Z.eqb_spec n m) as [<-|]; [by rewrite E|by rewrite andb_false_r].
  - intros H. apply (f_equal (fun z => Z.testbit z n)) in H. rewrite Z.land_spec, E, Z.pow2_bits_true in H by done. done.
Qed.

Lemma on_coinbase f : flag_on f TfCoinBase = Z.testbit f 0.
Proof. by apply (flag_on_testbit f 0). Qed.
Lemma on_spent f : flag_on f TfSpent = Z.testbit f 1.
Proof. by apply (flag_on_testbit f 1). Qed.
Lemma on_modified f : flag_on f TfModified = Z.testbit f 2.
Proof. by apply (flag_on_testbit f 2). Qed.

#[export] Hint Rewrite on_coinbase on_spent on_modified Z.lor_spec Z.ldiff_spec Z.land_spec : flags.

(** Computes the flags of a combination of flags. *)
Ltac flags := autorewrite with flags; try reflexivity.

Lemma spend_flags_spent f : flag_on (spend_flags f) TfSpent = true.
Proof. unfold spend_flags. destruct (flag_on f TfSpent) eqn:E; [done|]. flags. apply orb_true_r. Qed.

Lemma spend_flags_coinbase f : flag_on (spend_flags f) TfCoinBase = flag_on f TfCoinBase.
Proof. unfold spend_flags. destruct (flag_on f TfSpent); [done|]. flags. apply orb_false_r. Qed.

Lemma spend_flags_modified f : (flag_on f TfSpent = true -> flag_on f TfModified = true) -> flag_on (spend_flags f) TfModified = true.
Proof. unfold spend_flags. destruct (flag_on f TfSpent) eqn:E; [auto|]. intros _. flags. apply orb_true_r. Qed.

(** ** Errors *)

Inductive view_err :=
  | AssertError
  | ErrDeserialize
  | ErrCorruption
  | ErrNotInMainChain
  | ErrKeyRequired
  | IllegalBorder
  | IllegalRights
  | IllegalPolygon
  | MissingPolygon.

(** ** Buckets *)

Abbreviation bucket := (gmap (list Z) (list Z)).

Global Instance bytes_lt_dec a b : Decision (bytes_lt a b).
Proof. unfold bytes_lt. apply _. Defined.

Definition b_Get (b : bucket) (key : list Z) : option (list Z) := if decide (key = []) then None else b !! key.
Definition b_Put (b : bucket) (key value : list Z) : option view_err * bucket :=
  if decide (key = []) then (Some ErrKeyRequired, b) else (None, <[key := value]> b).
Definition b_Delete (b : bucket) (key : list Z) : bucket := if decide (key = []) then b else delete key b.

(** [Seek] of a cursor: the first pair whose key is not below [key]. *)
Definition b_Seek (b : bucket) (key : list Z) : option (list Z * list Z) :=
  map_fold (fun k v best =>
    if decide (bytes_lt k key) then best
    else match best with Some (k', _) => if decide (bytes_lt k k') then Some (k, v) else best | None => Some (k, v) end) None b.

Lemma b_Get_ne b key : key <> [] -> b_Get b key = b !! key.
Proof. intros. unfold b_Get. by rewrite decide_False. Qed.
Lemma b_Put_ne b key v : key <> [] -> b_Put b key v = (None, <[key := v]> b).
Proof. intros. unfold b_Put. by rewrite decide_False. Qed.
Lemma b_Delete_ne b key : key <> [] -> b_Delete b key = delete key b.
Proof. intros. unfold b_Delete. by rewrite decide_False. Qed.

(** ** Buffers *)

(** [s[offset:]] *)
Definition slice_from (s : list Z) (offset : Z) : outcome (list Z) := slice_sub s offset (len s).

(** [copy(dst, src)] *)
Definition go_copy (dst src : list Z) : list Z := take (length dst) src ++ drop (length src) dst.

(** [copy(s[offset:], src)] *)
Definition copy_at (s : list Z) (offset : Z) (src : list Z) : outcome (list Z) :=
  t ← slice_from s offset; Ok (take (Z.to_nat offset) s ++ go_copy t src).

(** [PutVLQ(s[offset:], n)] *)
Definition vlq_at (s : list Z) (offset n : Z) : outcome (list Z * Z) :=
  t ← slice_from s offset; '(t, w) ← PutVLQ t n; Ok (take (Z.to_nat offset) s ++ t, w).

(** [PutUint32(s[offset:], v)] and [Uint32(s[offset:])] in little-endian order. *)
Definition put32_at (s : list Z) (offset v : Z) : outcome (list Z) :=
  t ← slice_from s offset; if decide (len t < 4) then Panic else copy_at s offset (le_bytes 4 v).
Definition le32_at (s : list Z) (offset : Z) : outcome Z := t ← slice_from s offset; le32 t.

(** [copy(h[:], s)] into a hash that is zero. *)
Definition hash_from (s : list Z) : list Z := go_copy zero_hash s.

Lemma slice_from_app pre l : slice_from (pre ++ l) (len pre) = Ok l.
Proof. by apply slice_sub_tail. Qed.

Lemma slice_from_0 l : slice_from l 0 = Ok l.
Proof. apply (slice_from_app []). Qed.

Lemma go_copy_full dst src : length src = length dst -> go_copy dst src = src.
Proof. intros H. unfold go_copy. by rewrite <- H, firstn_all, H, drop_all, app_nil_r. Qed.

Lemma go_copy_shorter dst src : (length src <= length dst)%nat -> go_copy dst src = src ++ drop (length src) dst.
Proof. intros H. unfold go_copy. by rewrite take_ge. Qed.

Lemma hash_from_app h l : length h = HashSize -> hash_from (h ++ l) = h.
Proof.
  intros H. unfold hash_from, go_copy, zero_hash. rewrite length_replicate, <- H, take_app_length.
  rewrite drop_ge, app_nil_r; [done|]. rewrite length_replicate, length_app. lia.
Qed.

Lemma length_go_copy dst src : length (go_copy dst src) = length dst.
Proof. unfold go_copy. rewrite length_app, length_take, length_drop. lia. Qed.

Lemma copy_at_fill pre k src : (length src <= k)%nat ->
  copy_at (pre ++ replicate k 0) (len pre) src = Ok ((pre ++ src) ++ replicate (k - length src) 0).
Proof.
  intros H. unfold copy_at. rewrite slice_from_app. rewrite outcome_bind_ok, Nat2Z.id, take_app_length.
  rewrite go_copy_shorter by (by rewrite length_replicate). by rewrite drop_replicate, app_assoc.
Qed.

Lemma put32_at_fill pre k v : (4 <= k)%nat ->
  put32_at (pre ++ replicate k 0) (len pre) v = Ok ((pre ++ le_bytes 4 v) ++ replicate (k - 4) 0).
Proof.
  intros H. unfold put32_at. rewrite slice_from_app, outcome_bind_ok. rewrite decide_False by (rewrite length_replicate; lia).
  rewrite copy_at_fill; by rewrite le_bytes_length.
Qed.

Lemma slice_from_at pre l n : n = len pre -> slice_from (pre ++ l) n = Ok l.
Proof. intros ->. apply slice_from_app. Qed.

Lemma le32_at_app pre v l n : uint_range 32 v -> n = len pre -> le32_at (pre ++ le_bytes 4 v ++ l) n = Ok v.
Proof.
  intros Hv Hn. unfold le32_at. rewrite slice_from_at by done. rewrite outcome_bind_ok. unfold le32.
  rewrite slice_sub_head by (by rewrite le_bytes_length). rewrite outcome_bind_ok, le_value_le_bytes. f_equal. by apply Z.mod_small.
Qed.

Lemma vlq_at_fill pre k n : uint_range 64 n -> (length (vlq n) <= k)%nat ->
  vlq_at (pre ++ replicate k 0) (len pre) n = Ok ((pre ++ vlq n) ++ replicate (k - length (vlq n)) 0, len (vlq n)).
Proof.
  intros Hn H. unfold vlq_at. rewrite slice_from_app. rewrite outcome_bind_ok.
  rewrite PutVLQ_ok by (rewrite ?length_replicate; done). rewrite outcome_bind_ok, Nat2Z.id, take_app_length. by rewrite drop_replicate, app_assoc.
Qed.

Lemma vlq_nonempty n : uint_range 64 n -> vlq n <> [].
Proof. intros H E. destruct (length_vlq n H) as [? _]. rewrite E in *. simpl in *. lia. Qed.

Lemma vlq_inj n m : uint_range 64 n -> uint_range 64 m -> vlq n = vlq m -> n = m.
Proof. intros Hn Hm E. pose proof (vlq_decodes n [] Hn) as A. pose proof (vlq_decodes m [] Hm) as B. rewrite E in A. congruence. Qed.

Lemma length_groups_bound f : forall n k, 0 <= n < 2 ^ (7 * Z.of_nat k) -> (0 < k)%nat -> (length (groups f n) <= k)%nat.
Proof.
  induction f as [|f IH]; intros n k Hn Hk; [simpl; lia|]. cbn [groups]. case_decide; [simpl; lia|]. cbn [length].
  destruct k as [|[|k]]; [lia|simpl in Hn; lia|]. apply le_n_S, IH; [|lia]. apply step_range; [lia|done].
Qed.

Lemma length_vlq_u32 n : uint_range 32 n -> (length (vlq n) <= 5)%nat.
Proof.
  intros Hn. assert (uint_range 64 n) as Hn' by (unfold uint_range in *; lia). destruct (length_vlq n Hn') as [_ ->].
  apply length_groups_bound; [|lia]. unfold uint_range in Hn. simpl. lia.
Qed.
