(* ===== verification/UtxoEntry.v ===== *)
(** * Unspent outputs: entries, keys and their encodings

    Models the entries of omega/viewpoint/utxo.go: the unspent outputs of a view, their
    flags, the keys and the values under which the database keeps them. *)
From Stdlib Require Import ZArith Lia.
From stdpp Require Import gmap list.
From S2P Require Import Prelude Vlq Token MsgTx ViewDb.

Open Scope Z_scope.

Global Instance OutPoint_countable : Countable OutPoint.
Proof. refine (inj_countable' (fun o => (op_Hash o, op_Index o)) (fun p => MkOutPoint p.1 p.2) _). by intros []. Defined.
Global Instance TokenValue_eq_dec : EqDecision TokenValue.
Proof. solve_decision. Defined.

(** ** Entries *)

Record UtxoEntry := MkUtxo {
  ue_TokenType : Z;
  ue_Amount : option TokenValue;
  ue_Rights : option (list Z);
  ue_pkScript : list Z;
  ue_blockHeight : Z;
  ue_packedFlags : Z;
  ue_monitor : list Z;
}.

Global Instance UtxoEntry_eq_dec : EqDecision UtxoEntry.
Proof. solve_decision. Defined.

Definition new_utxo : UtxoEntry := MkUtxo 0 None None [] 0 0 [].

Definition ue_set_flags (e : UtxoEntry) (f : Z) : UtxoEntry :=
  MkUtxo (ue_TokenType e) (ue_Amount e) (ue_Rights e) (ue_pkScript e) (ue_blockHeight e) f (ue_monitor e).
Definition ue_set_monitor (e : UtxoEntry) (m : list Z) : UtxoEntry :=
  MkUtxo (ue_TokenType e) (ue_Amount e) (ue_Rights e) (ue_pkScript e) (ue_blockHeight e) (ue_packedFlags e) m.

Definition ue_isModified (e : UtxoEntry) : bool := flag_on (ue_packedFlags e) TfModified.
Definition ue_IsCoinBase (e : UtxoEntry) : bool := flag_on (ue_packedFlags e) TfCoinBase.
Definition ue_IsSpent (e : UtxoEntry) : bool := flag_on (ue_packedFlags e) TfSpent.
Definition ue_Spend (e : UtxoEntry) : UtxoEntry := ue_set_flags e (spend_flags (ue_packedFlags e)).

Definition ue_NumAmount (e : UtxoEntry) : outcome Z :=
  if decide (Z.land (ue_TokenType e) 1 <> 0) then Ok 0 else num_value (ue_Amount e).

(** The monitor is not copied. *)
Definition ue_Clone (e : option UtxoEntry) : option UtxoEntry :=
  match e with
  | None => None
  | Some e => Some (MkUtxo (ue_TokenType e) (ue_Amount e) (ue_Rights e) (ue_pkScript e) (ue_blockHeight e) (ue_packedFlags e) [])
  end.

Definition ToTxOut (e : UtxoEntry) : TxOut := MkTxOut (MkToken (ue_TokenType e) (ue_Amount e) (ue_Rights e)) (ue_pkScript e).

Record SpentTxOut := MkSpent {
  st_TokenType : Z;
  st_Amount : option TokenValue;
  st_Rights : option (list Z);
  st_PkScript : list Z;
  st_Height : Z;
  st_IsCoinBase : bool;
}.

(** ** Keys *)

Definition maxUint32VLQSerializeSize : nat := 5.

(** The key is written over a buffer of the free list. *)
Definition OutpointKey_in (buffer : list Z) (o : OutPoint) : outcome (list Z) :=
  let idx := op_Index o in
  size ← SerializeSizeVLQ idx;
  key ← slice_sub buffer 0 (32 + size);
  key ← copy_at key 0 (op_Hash o);
  '(key, _) ← vlq_at key 32 idx;
  Ok key.
Definition OutpointKey (o : OutPoint) : outcome (list Z) := OutpointKey_in (replicate (HashSize + maxUint32VLQSerializeSize) 0) o.

Definition Key2Outpoint (key : list Z) : outcome OutPoint :=
  h ← slice_sub key 0 32;
  rest ← slice_from key 32;
  let '(x, _) := DeserializeVLQ rest in
  Ok (MkOutPoint (hash_from h) (u32 x)).

Definition point_ok (o : OutPoint) : Prop := length (op_Hash o) = HashSize /\ uint_range 32 (op_Index o).
Definition outpoint_key (o : OutPoint) : list Z := op_Hash o ++ vlq (op_Index o).

Lemma u32_u64 n : uint_range 32 n -> uint_range 64 n.
Proof. unfold uint_range. lia. Qed.

Lemma OutpointKey_in_ok buffer o : length buffer = 37%nat -> point_ok o -> OutpointKey_in buffer o = Ok (outpoint_key o).
Proof.
  intros Hb [Hh Hi]. unfold OutpointKey_in. pose proof (length_vlq_u32 _ Hi) as H5. rewrite SerializeSizeVLQ_ok by (by apply u32_u64).
  rewrite outcome_bind_ok. set (v := vlq (op_Index o)) in *.
  assert (exists a b c, buffer = (a ++ b) ++ c /\ length a = 32%nat /\ length b = length v) as (a & b & c & -> & Ha & Hlb).
  { exists (take 32 buffer), (take (length v) (drop 32 buffer)), (drop (length v) (drop 32 buffer)).
    split; [by rewrite <- app_assoc, !take_drop|]. rewrite !length_take, length_drop. lia. }
  rewrite slice_sub_head by (rewrite length_app; lia). rewrite outcome_bind_ok. unfold copy_at.
  rewrite slice_from_0, outcome_bind_ok. change (Z.to_nat 0) with 0%nat. rewrite take_0, app_nil_l.
  rewrite go_copy_shorter by (rewrite Hh, length_app, Ha; unfold HashSize; lia). rewrite Hh. change HashSize with 32%nat.
  rewrite <- Ha, drop_app_length, outcome_bind_ok. unfold vlq_at.
  replace 32 with (len (op_Hash o)) by (by rewrite Hh). rewrite slice_from_app, outcome_bind_ok, PutVLQ_ok by (try apply u32_u64; unfold v in *; lia || done).
  rewrite !outcome_bind_ok, Nat2Z.id, take_app_length, drop_ge, app_nil_r by (unfold v in *; lia). done.
Qed.

Lemma OutpointKey_ok o : point_ok o -> OutpointKey o = Ok (outpoint_key o).
Proof. apply OutpointKey_in_ok. reflexivity. Qed.

Lemma outpoint_key_ne o : point_ok o -> outpoint_key o <> [].
Proof. intros [H _] E. apply (f_equal length) in E. unfold outpoint_key in E. rewrite length_app, H in E. simpl in E. lia. Qed.

Lemma outpoint_key_inj o o' : point_ok o -> point_ok o' -> outpoint_key o = outpoint_key o' -> o = o'.
Proof.
  intros [H1 H2] [H3 H4] E. unfold outpoint_key in E. apply app_inj_1 in E as [E1 E2]; [|congruence].
  apply vlq_inj in E2; [|by apply u32_u64..]. destruct o, o'. simpl in *. congruence.
Qed.

Lemma Key2Outpoint_key o : point_ok o -> Key2Outpoint (outpoint_key o) = Ok o.
Proof.
  intros [H1 H2]. unfold Key2Outpoint, outpoint_key. rewrite slice_sub_head by (rewrite H1; done). rewrite outcome_bind_ok.
  assert (slice_from (op_Hash o ++ vlq (op_Index o)) 32 = Ok (vlq (op_Index o))) as -> by (rewrite <- (slice_from_app (op_Hash o)), H1; done).
  rewrite outcome_bind_ok, <- (app_nil_r (vlq _)), vlq_decodes by (by apply u32_u64). cbv iota beta. rewrite uwrap_id by assumption.
  rewrite <- (app_nil_r (op_Hash o)), hash_from_app by done. by destruct o.
Qed.

(** ** Values *)

Definition utxoEntryHeaderCode (e : UtxoEntry) : Z + view_err :=
  if ue_IsSpent e then inr AssertError
  else
    let headerCode := u64 (Z.shiftl (u64 (ue_blockHeight e)) 1) in
    inl (if ue_IsCoinBase e then Z.lor headerCode 1 else headerCode).

(** No bytes for a spent entry. *)
Definition SerializeUtxoEntry (e : UtxoEntry) : outcome (list Z + view_err) :=
  if ue_IsSpent e then Ok (inl [])
  else
    match utxoEntryHeaderCode e with
    | inr err => Ok (inr err)
    | inl headerCode =>
        s1 ← SerializeSizeVLQ headerCode;
        s2 ← SerializeSizeVLQ (ue_TokenType e);
        s3 ← (if decide (Z.land (ue_TokenType e) 1 = 0) then
                v ← num_value (ue_Amount e); c ← CompressTxOutAmount (u64 v); SerializeSizeVLQ c
              else Ok 32);
        let s4 := if decide (Z.land (ue_TokenType e) 2 = 2) then 32 else 0 in
        let serialized := replicate (Z.to_nat (s1 + s2 + s3 + s4 + len (ue_pkScript e))) 0 in
        '(serialized, offset) ← vlq_at serialized 0 headerCode;
        '(serialized, w) ← vlq_at serialized offset (ue_TokenType e);
        let offset := offset + w in
        '(serialized, offset) ←
          (if decide (Z.land (ue_TokenType e) 1 = 0) then
             v ← num_value (ue_Amount e); c ← CompressTxOutAmount (u64 v);
             '(serialized, w) ← vlq_at serialized offset c; Ok (serialized, offset + w)
           else h ← hash_value (ue_Amount e); serialized ← copy_at serialized offset h; Ok (serialized, offset + 32));
        '(serialized, offset) ←
          (if decide (Z.land (ue_TokenType e) 2 = 2) then
             match ue_Rights e with
             | Some r => serialized ← copy_at serialized offset r; Ok (serialized, offset + 32)
             | None => Panic
             end
           else Ok (serialized, offset));
        serialized ← copy_at serialized offset (ue_pkScript e);
        Ok (inl serialized)
    end.

Definition DeserializeUtxoEntry (serialized : list Z) : outcome (UtxoEntry + view_err) :=
  if decide (serialized = []) then Ok (inr ErrDeserialize)
  else
    let '(code, offset) := DeserializeVLQ serialized in
    if decide (len serialized <= offset) then Ok (inr ErrDeserialize)
    else
      let flags := if decide (Z.land code 1 <> 0) then TfCoinBase else 0 in
      let blockHeight := i32 (Z.shiftr code 1) in
      rest ← slice_from serialized offset;
      let '(tokenType, bytesRead) := DeserializeVLQ rest in
      let offset := offset + bytesRead in
      rest ← slice_from serialized offset;
      let '(amount, offset) :=
        if decide (Z.land tokenType 1 = 0) then
          let '(compressedAmount, bytesRead) := DeserializeVLQ rest in
          (NumToken (i64 (DecompressTxOutAmount compressedAmount)), offset + bytesRead)
        else (HashToken (hash_from rest), offset + 32) in
      '(rights, offset) ←
        (if decide (Z.land tokenType 2 = 2) then rest ← slice_from serialized offset; Ok (Some (hash_from rest), offset + 32)
         else Ok (None, offset));
      script ← slice_from serialized offset;
      Ok (inl (MkUtxo tokenType (Some amount) rights script blockHeight flags [])).

(** ** The round trip *)

Definition amount_ok (t : Z) (a : option TokenValue) : Prop :=
  match a with
  | Some (NumToken n) => Z.land t 1 = 0 /\ 0 <= n < 2 ^ 63 /\ 9 * n + 10 < 2 ^ 64
  | Some (HashToken h) => Z.land t 1 <> 0 /\ length h = HashSize
  | None => False
  end.
Definition rights_ok (t : Z) (r : option (list Z)) : Prop :=
  match r with Some h => Z.land t 2 = 2 /\ length h = HashSize | None => Z.land t 2 <> 2 end.

Record utxo_ok (e : UtxoEntry) : Prop := MkUtxoOk {
  uo_type : uint_range 64 (ue_TokenType e);
  uo_amount : amount_ok (ue_TokenType e) (ue_Amount e);
  uo_rights : rights_ok (ue_TokenType e) (ue_Rights e);
  uo_height : sint_range 32 (ue_blockHeight e);
}.

Global Instance amount_ok_dec t a : Decision (amount_ok t a).
Proof. unfold amount_ok. destruct a as [[]|]; apply _. Defined.
Global Instance rights_ok_dec t r : Decision (rights_ok t r).
Proof. unfold rights_ok. destruct r; apply _. Defined.

(** What the database gives back for an unspent entry. *)
Definition stored (e : UtxoEntry) : UtxoEntry :=
  MkUtxo (ue_TokenType e) (ue_Amount e) (ue_Rights e) (ue_pkScript e) (ue_blockHeight e) (if ue_IsCoinBase e then TfCoinBase else 0) [].

Definition amount_bytes (a : option TokenValue) (c : Z) : list Z :=
  match a with Some (HashToken h) => h | _ => vlq c end.
Definition rights_bytes (r : option (list Z)) : list Z := match r with Some h => h | None => [] end.
Definition header_code (e : UtxoEntry) : Z :=
  let headerCode := u64 (Z.shiftl (u64 (ue_blockHeight e)) 1) in if ue_IsCoinBase e then Z.lor headerCode 1 else headerCode.
Definition utxo_bytes (e : UtxoEntry) (c : Z) : list Z :=
  (((vlq (header_code e) ++ vlq (ue_TokenType e)) ++ amount_bytes (ue_Amount e) c) ++ rights_bytes (ue_Rights e)) ++ ue_pkScript e.

Lemma header_code_value e : header_code e = 2 * (ue_blockHeight e mod 2 ^ 63) + Z.b2z (ue_IsCoinBase e).
Proof.
  unfold header_code. assert (u64 (Z.shiftl (u64 (ue_blockHeight e)) 1) = Z.shiftl (ue_blockHeight e mod 2 ^ 63) 1) as ->.
  { rewrite !Z.shiftl_mul_pow2 by lia. unfold uwrap. change (2 ^ 1) with 2. change (2 ^ 64) with (2 ^ 63 * 2) at 2.
    rewrite Z.mul_mod_distr_r by lia. f_equal. symmetry. apply Znumtheory.Zmod_div_mod; [lia..|by exists 2]. }
  destruct (ue_IsCoinBase e).
  - rewrite lor_shiftl_add by (simpl; lia). simpl Z.b2z. lia.
  - rewrite Z.shiftl_mul_pow2 by lia. simpl Z.b2z. lia.
Qed.

Lemma header_code_parts e : sint_range 32 (ue_blockHeight e) ->
  uint_range 64 (header_code e) /\ i32 (Z.shiftr (header_code e) 1) = ue_blockHeight e /\ (if decide (Z.land (header_code e) 1 <> 0) then TfCoinBase else 0) = (if ue_IsCoinBase e then TfCoinBase else 0).
Proof.
  intros Hh. rewrite header_code_value. set (h := ue_blockHeight e) in *. pose proof (Z.mod_pos_bound h (2 ^ 63)). split_and!.
  - unfold uint_range. destruct (ue_IsCoinBase e); simpl Z.b2z; lia.
  - rewrite Z.shiftr_div_pow2 by lia. change (2 ^ 1) with 2.
    replace ((2 * (h mod 2 ^ 63) + Z.b2z (ue_IsCoinBase e)) / 2) with (h mod 2 ^ 63)
      by (apply (Z.div_unique _ _ _ (Z.b2z (ue_IsCoinBase e))); destruct (ue_IsCoinBase e); simpl Z.b2z; lia).
    rewrite (swrap_cong 32 (h mod 2 ^ 63) h); [by apply swrap_id|lia|]. unfold uwrap.
    symmetry. apply Znumtheory.Zmod_div_mod; [lia..|by exists (2 ^ 31)].
  - pose proof (land_ones_mod (2 * (h mod 2 ^ 63) + Z.b2z (ue_IsCoinBase e)) 1 ltac:(lia)) as L. change (2 ^ 1 - 1) with 1 in L. rewrite L. rewrite Z.add_comm, Z.mul_comm, Z.mod_add by lia.
    by destruct (ue_IsCoinBase e).
Qed.

(** A value is written as [amount_bytes] says, and read back. *)
Lemma amount_coding t a : uint_range 64 t -> amount_ok t a -> exists c,
  (Z.land t 1 = 0 -> exists v, num_value a = Ok v /\ CompressTxOutAmount (u64 v) = Ok c /\ uint_range 64 c /\ amount_bytes a c = vlq c /\ NumToken (i64 (DecompressTxOutAmount c)) = NumToken v /\ a = Some (NumToken v)) /\ (Z.land t 1 <> 0 -> exists h, hash_value a = Ok h /\ length h = HashSize /\ amount_bytes a c = h /\ a = Some (HashToken h)).
Proof.
  intros Ht. destruct a as [[n|h]|]; simpl; [|intros [Hl H32]|done].
  - intros (Hl & Hn & Hf).
    destruct (amount_roundtrip n) as (c & Hc & Hr & Hd); [lia..|]. exists c. split; [|done]. intros _. exists n. rewrite (uwrap_id 64 n) by (unfold uint_range; lia).
    split_and!; try done. rewrite Hd, swrap_id; [done|lia|unfold sint_range; simpl; lia].
  - exists 0. split; [done|]. intros _. by exists h.
Qed.

Definition utxo_size (e : UtxoEntry) (c : Z) : nat :=
  length (vlq (header_code e)) + length (vlq (ue_TokenType e)) + length (amount_bytes (ue_Amount e) c) + length (rights_bytes (ue_Rights e)) + length (ue_pkScript e).

Lemma SerializeUtxoEntry_ok e : utxo_ok e -> ue_IsSpent e = false -> exists c, SerializeUtxoEntry e = Ok (inl (utxo_bytes e c)) /\
  (Z.land (ue_TokenType e) 1 = 0 -> uint_range 64 c /\ amount_bytes (ue_Amount e) c = vlq c /\ ue_Amount e = Some (NumToken (i64 (DecompressTxOutAmount c)))) /\
  (Z.land (ue_TokenType e) 1 <> 0 -> exists h, length h = HashSize /\ amount_bytes (ue_Amount e) c = h /\ ue_Amount e = Some (HashToken h)).
Proof.
  intros [Ht Ha Hr Hh] Hs. destruct (amount_coding _ _ Ht Ha) as (c & Hnum & Hhash). exists c.
  destruct (header_code_parts e Hh) as (Hc & _ & _).
  split; [|split].
  2: { intros H. destruct (Hnum H) as (v & ? & ? & ? & ? & E & ?). split_and!; try done. by rewrite E. }
  2: { intros H. destruct (Hhash H) as (h & ? & ? & ? & ?). by exists h. }
  unfold SerializeUtxoEntry, utxoEntryHeaderCode. rewrite Hs. fold (header_code e).
  rewrite !SerializeSizeVLQ_ok, !outcome_bind_ok by done.
  pose proof (length_vlq (header_code e) Hc). pose proof (length_vlq (ue_TokenType e) Ht).
  set (s3 := (if decide (Z.land (ue_TokenType e) 1 = 0) then _ else Ok 32)).
  assert (s3 = Ok (len (amount_bytes (ue_Amount e) c))) as ->.
  { unfold s3. case_decide as Hd.
    - destruct (Hnum Hd) as (v & -> & Hcv & Hcr & -> & _). by rewrite outcome_bind_ok, Hcv, outcome_bind_ok, SerializeSizeVLQ_ok.
    - destruct (Hhash Hd) as (h & _ & Hl & -> & _). by rewrite Hl. }
  rewrite outcome_bind_ok.
  assert ((if decide (Z.land (ue_TokenType e) 2 = 2) then 32 else 0) = len (rights_bytes (ue_Rights e))) as ->.
  { unfold rights_ok in Hr. destruct (ue_Rights e) as [r|]; simpl; [destruct Hr as [Hr ->]; by rewrite decide_True|by rewrite decide_False]. }
  match goal with |- context [replicate (Z.to_nat ?n) 0] => replace (Z.to_nat n) with (utxo_size e c) by (unfold utxo_size; lia) end.
  change (replicate (utxo_size e c) 0) with ([] ++ replicate (utxo_size e c) 0). change 0 with (len (@nil Z)) at 2.
  rewrite vlq_at_fill by (done || unfold utxo_size; lia). rewrite outcome_bind_ok, app_nil_l.
  rewrite vlq_at_fill by (done || unfold utxo_size; lia). rewrite outcome_bind_ok.
  set (p2 := vlq (header_code e) ++ vlq (ue_TokenType e)).
  replace (len (vlq (header_code e)) + len (vlq (ue_TokenType e))) with (len p2) by (unfold p2; rewrite length_app; lia).
  set (k2 := (utxo_size e c - _ - _)%nat).
  assert (k2 = length (amount_bytes (ue_Amount e) c) + length (rights_bytes (ue_Rights e)) + length (ue_pkScript e))%nat as -> by (unfold k2, utxo_size; lia).
  match goal with |- (?m ≫= _) = _ => assert (m = Ok ((p2 ++ amount_bytes (ue_Amount e) c) ++
    replicate (length (rights_bytes (ue_Rights e)) + length (ue_pkScript e)) 0, len (p2 ++ amount_bytes (ue_Amount e) c))) as -> end.
  { case_decide as Hd.
    - destruct (Hnum Hd) as (v & -> & Hcv & Hcr & -> & _). rewrite outcome_bind_ok, Hcv, outcome_bind_ok.
      rewrite vlq_at_fill by (done || lia). rewrite outcome_bind_ok. rewrite length_app. do 2 f_equal; [|lia]. f_equal. f_equal. lia.
    - destruct (Hhash Hd) as (h & -> & Hl & -> & _). rewrite outcome_bind_ok, copy_at_fill by lia. rewrite outcome_bind_ok.
      rewrite length_app, Hl. do 2 f_equal; [|unfold HashSize; lia]. f_equal. f_equal. lia. }
  rewrite outcome_bind_ok. set (p3 := p2 ++ _).
  match goal with |- (?m ≫= _) = _ => assert (m = Ok ((p3 ++ rights_bytes (ue_Rights e)) ++
    replicate (length (ue_pkScript e)) 0, len (p3 ++ rights_bytes (ue_Rights e)))) as -> end.
  { unfold rights_ok in Hr. destruct (ue_Rights e) as [r|]; simpl rights_bytes.
    - destruct Hr as [Hr Hl]. rewrite decide_True by done. rewrite copy_at_fill by lia. rewrite outcome_bind_ok, length_app, Hl.
      do 2 f_equal; [|unfold HashSize; lia]. f_equal. f_equal. lia.
    - rewrite decide_False by done. by rewrite app_nil_r. }
  rewrite outcome_bind_ok, copy_at_fill by lia. rewrite outcome_bind_ok, Nat.sub_diag. unfold utxo_bytes. by rewrite app_nil_r.
Qed.

Lemma stored_entry e : utxo_ok e -> ue_IsSpent e = false ->
  exists b, SerializeUtxoEntry e = Ok (inl b) /\ b <> [] /\ DeserializeUtxoEntry b = Ok (inl (stored e)).
Proof.
  intros He Hs. destruct (SerializeUtxoEntry_ok e He Hs) as (c & Hser & Hnum & Hhash). destruct He as [Ht Ha Hr Hh].
  destruct (header_code_parts e Hh) as (Hc & Hi & Hf). eexists. split; [exact Hser|]. clear Hser.
  unfold utxo_bytes. rewrite <- !app_assoc. pose proof (length_vlq (ue_TokenType e) Ht) as [[Hl1 _] _].
  split; [intros E; apply app_eq_nil in E as [E _]; by apply vlq_nonempty in E|]. unfold DeserializeUtxoEntry.
  rewrite decide_False by (intros E; apply app_eq_nil in E as [E _]; by apply vlq_nonempty in E).
  rewrite vlq_decodes by done. rewrite decide_False by (rewrite !length_app; lia). rewrite Hi, Hf. clear Hi Hf.
  rewrite slice_from_app, outcome_bind_ok, vlq_decodes by done.
  rewrite app_assoc, slice_from_at by (rewrite length_app; lia). rewrite outcome_bind_ok.
  set (p2 := vlq (header_code e) ++ vlq (ue_TokenType e)).
  match goal with |- (let '(_, _) := ?d in _) = _ => assert (d = (from_option id (NumToken 0) (ue_Amount e), len (p2 ++ amount_bytes (ue_Amount e) c))) as -> end.
  { unfold p2. rewrite !length_app. case_decide as Hd.
    - destruct (Hnum Hd) as (Hcr & -> & ->). rewrite vlq_decodes by done. cbn [from_option id]. f_equal. lia.
    - destruct (Hhash Hd) as (h & Hl & -> & ->). rewrite hash_from_app by done. rewrite Hl. cbn [from_option id]. f_equal. unfold HashSize. lia. }
  assert (Some (from_option id (NumToken 0) (ue_Amount e)) = ue_Amount e) as Hsome by (unfold amount_ok in Ha; by destruct (ue_Amount e)).
  rewrite (app_assoc p2). set (p3 := p2 ++ amount_bytes _ _).
  match goal with |- (?m ≫= _) = _ => assert (m = Ok (ue_Rights e, len (p3 ++ rights_bytes (ue_Rights e)))) as -> end.
  { unfold rights_ok in Hr. rewrite length_app. destruct (ue_Rights e) as [r|]; cbn [rights_bytes].
    - destruct Hr as [Hr Hl]. rewrite decide_True by done. rewrite slice_from_app, outcome_bind_ok, hash_from_app by done. rewrite Hl.
      do 2 f_equal. unfold HashSize. lia.
    - rewrite decide_False by done. do 2 f_equal. simpl. lia. }
  rewrite outcome_bind_ok, app_assoc, slice_from_app, outcome_bind_ok, Hsome. reflexivity.
Qed.

(** ** Theorems *)

(** An unspent entry of a view that is written to the database is read back as it was:
    the same token, rights, script, height and coin base flag, with the marks of the view
    and its monitor gone; and the key of an output gives the output back, is the same for
    every buffer it is written over, and differs for different outputs. *)
Theorem utxo_entry_roundtrip (e : UtxoEntry) (o o' : OutPoint) (buffer : list Z)
  (He : utxo_ok e) (Hs : ue_IsSpent e = false) (Ho : point_ok o) (Ho' : point_ok o') (Hb : length buffer = 37%nat) :
  (exists b, SerializeUtxoEntry e = Ok (inl b) /\ b <> [] /\ DeserializeUtxoEntry b = Ok (inl (stored e))) /\
  (exists key, OutpointKey_in buffer o = Ok key /\ OutpointKey o = Ok key /\ Key2Outpoint key = Ok o /\
     (OutpointKey o' = Ok key -> o' = o)).
Proof.
  split; [by apply stored_entry|]. exists (outpoint_key o). split_and!.
  - by apply OutpointKey_in_ok.
  - by apply OutpointKey_ok.
  - by apply Key2Outpoint_key.
  - rewrite OutpointKey_ok by done. intros E. injection E as E. by apply outpoint_key_inj in E.
Qed.

Definition sample_utxo : UtxoEntry :=
  MkUtxo 3 (Some (HashToken (replicate 32 7))) (Some (replicate 32 9)) pay_script 113931 (Z.lor TfModified TfCoinBase) [].
Definition sample_point : OutPoint := MkOutPoint (replicate 32 1) 300.

Lemma sample_utxo_ok : utxo_ok sample_utxo.
Proof. by constructor. Qed.
Lemma sample_point_ok : point_ok sample_point.
Proof. by split. Qed.

Lemma utxo_entry_roundtrip_witness :
  exists b, SerializeUtxoEntry sample_utxo = Ok (inl b) /\ len b = 93 /\ DeserializeUtxoEntry b = Ok (inl (stored sample_utxo)) /\
    OutpointKey sample_point = Ok (replicate 32 1 ++ [129; 44]).
Proof.
  destruct (utxo_entry_roundtrip sample_utxo sample_point sample_point (replicate 37 255) sample_utxo_ok eq_refl sample_point_ok sample_point_ok eq_refl)
    as ((b & Hb & _ & Hd) & (key & _ & Hk & _)).
  exists b. split; [exact Hb|]. split; [vm_compute in Hb; injection Hb as <-; reflexivity|]. split; [exact Hd|reflexivity].
Defined.

(** The keys of the outputs of one transaction are not in the order of their indexes, which
    the comments on keys say they are: the first index of three bytes comes before the last
    index of two bytes. *)
Theorem keys_out_of_order (h : list Z) :
  bytes_lt (h ++ vlq 16512) (h ++ vlq 16511) /\ 16511 < 16512.
Proof. split; [|lia]. unfold bytes_lt. induction h as [|b h IH]; [reflexivity|]. simpl. by rewrite Z.compare_refl. Qed.
