(* ===== verification/BorderEntry.v ===== *)
(** * Borders: bounding boxes, entries, edges and their encoding

    Models the first part of omega/viewpoint/border.go: bounding boxes, the entries of a
    view of borders with the geometry of one edge, and the bytes under which the database
    keeps them.  Coordinates are 32-bit and their differences wrap, as in the source. *)
From Stdlib Require Import ZArith Lia.
From stdpp Require Import gmap list.
From S2P Require Import Prelude Wire Token ViewDb.

Open Scope Z_scope.

(** ** Bounding boxes *)

Record BoundingBox := MkBox { east : Z; west : Z; south : Z; north : Z }.
Global Instance BoundingBox_eq_dec : EqDecision BoundingBox.
Proof. solve_decision. Defined.
Global Instance VertexDef_eq_dec : EqDecision VertexDef.
Proof. solve_decision. Defined.

Definition Expand (b : BoundingBox) (lat lng : Z) : BoundingBox :=
  MkBox (if decide (east b < lng) then lng else east b) (if decide (lng < west b) then lng else west b)
        (if decide (lat < south b) then lat else south b) (if decide (north b < lat) then lat else north b).

Definition box_serialize (b : BoundingBox) : list Z :=
  le_bytes 4 (u32 (east b)) ++ le_bytes 4 (u32 (west b)) ++ le_bytes 4 (u32 (south b)) ++ le_bytes 4 (u32 (north b)).
Definition box_Reset : BoundingBox := MkBox (-2147483648) 0x7FFFFFFF 0x7FFFFFFF (-2147483648).
Definition box_unserialize (s : list Z) : outcome BoundingBox :=
  e ← le32 s; w ← le32_at s 4; so ← le32_at s 8; n ← le32_at s 12; Ok (MkBox (i32 e) (i32 w) (i32 so) (i32 n)).

Definition Contain (b c : BoundingBox) : bool :=
  bool_decide (west b <= west c) && bool_decide (east c <= east b) && bool_decide (south b <= south c) && bool_decide (north c <= north b).
Definition box_Intersects (b c : BoundingBox) (touch : bool) : bool :=
  if touch then negb (bool_decide (east c < west b) || bool_decide (east b < west c) || bool_decide (north c < south b) || bool_decide (north b < south c))
  else negb (bool_decide (east c <= west b) || bool_decide (east b <= west c) || bool_decide (north c <= south b) || bool_decide (north b <= south c)).
Definition DSize (b : BoundingBox) : Z := i32 (i32 (i32 (north b - south b) + east b) - west b).

Definition NewBound (x1 x2 y1 y2 : Z) : BoundingBox :=
  MkBox (if decide (x1 < x2) then x2 else x1) (if decide (x1 < x2) then x1 else x2)
        (if decide (y1 < y2) then y1 else y2) (if decide (y1 < y2) then y2 else y1).

(** The box that is merged into, and whether it has changed. *)
Definition box_Merge (box b : BoundingBox) : BoundingBox * bool :=
  let '(e, c) := if decide (east box < east b) then (east b, true) else (east box, false) in
  let '(w, c) := if decide (west b < west box) then (west b, true) else (west box, c) in
  let '(n, c) := if decide (north box < north b) then (north b, true) else (north box, c) in
  let '(s, c) := if decide (south b < south box) then (south b, true) else (south box, c) in
  (MkBox e w s n, c).

(** ** Entries *)

Record BorderEntry := MkBorder {
  be_Father : list Z;
  be_Begin : VertexDef;
  be_End : VertexDef;
  be_Children : list (list Z);
  be_Bound : option BoundingBox;
  be_newchildren : bool;
  be_RefCnt : Z;
  be_refChg : Z;
  be_PackedFlags : Z;
}.
Global Instance BorderEntry_eq_dec : EqDecision BorderEntry.
Proof. solve_decision. Defined.

Definition be_set_flags (b : BorderEntry) (f : Z) : BorderEntry :=
  MkBorder (be_Father b) (be_Begin b) (be_End b) (be_Children b) (be_Bound b) (be_newchildren b) (be_RefCnt b) (be_refChg b) f.
Definition be_set_counts (b : BorderEntry) (cnt chg : Z) : BorderEntry :=
  MkBorder (be_Father b) (be_Begin b) (be_End b) (be_Children b) (be_Bound b) (be_newchildren b) cnt chg (be_PackedFlags b).
Definition be_set_bound (b : BorderEntry) (box : option BoundingBox) : BorderEntry :=
  MkBorder (be_Father b) (be_Begin b) (be_End b) (be_Children b) box (be_newchildren b) (be_RefCnt b) (be_refChg b) (be_PackedFlags b).
Definition be_set_children (b : BorderEntry) (children : list (list Z)) (new : bool) : BorderEntry :=
  MkBorder (be_Father b) (be_Begin b) (be_End b) children (be_Bound b) new (be_RefCnt b) (be_refChg b) (be_PackedFlags b).

Definition be_East (b : BorderEntry) : Z :=
  match be_Bound b with Some box => east box | None => if decide (lng (be_End b) < lng (be_Begin b)) then lng (be_Begin b) else lng (be_End b) end.
Definition be_West (b : BorderEntry) : Z :=
  match be_Bound b with Some box => west box | None => if decide (lng (be_Begin b) < lng (be_End b)) then lng (be_Begin b) else lng (be_End b) end.
Definition be_South (b : BorderEntry) : Z :=
  match be_Bound b with Some box => south box | None => if decide (lat (be_Begin b) < lat (be_End b)) then lat (be_Begin b) else lat (be_End b) end.
Definition be_North (b : BorderEntry) : Z :=
  match be_Bound b with Some box => north box | None => if decide (lat (be_End b) < lat (be_Begin b)) then lat (be_Begin b) else lat (be_End b) end.

Definition GetBound (b : BorderEntry) : BoundingBox :=
  match be_Bound b with Some box => box | None => MkBox (be_East b) (be_West b) (be_South b) (be_North b) end.

Definition Enclose (b d : BorderEntry) : bool :=
  let bb := GetBound b in let db := GetBound d in
  bool_decide (west bb <= west db) && bool_decide (south bb <= south db) && bool_decide (east db <= east bb) && bool_decide (north db <= north bb).
Definition Joint (b d : BorderEntry) : bool :=
  let bb := GetBound b in let db := GetBound d in
  negb (bool_decide (east db <= west bb) || bool_decide (north db <= south bb) || bool_decide (east bb <= west db) || bool_decide (north bb <= south db)).

Definition SameEdge (b c : BorderEntry) : bool :=
  if vertex_IsEqual (be_Begin b) (be_Begin c) && vertex_IsEqual (be_End b) (be_End c) then true
  else vertex_IsEqual (be_Begin b) (be_End c) && vertex_IsEqual (be_End b) (be_Begin c).

(** [int64(a)*int64(b) - int64(c)*int64(d)] of 32-bit differences. *)
Definition cross (a b c d : Z) : Z := i64 (i64 (i32 a * i32 b) - i64 (i32 c * i32 d)).
Definition sign64 (d : Z) : Z := if decide (d < 0) then -1 else if decide (0 < d) then 1 else d.

Definition be_Intersects (b c : BorderEntry) : bool :=
  let b0 := be_Begin b in let b1 := be_End b in let c0 := be_Begin c in let c1 := be_End c in
  let d1 := cross (lat c1 - lat b0) (lng b1 - lng b0) (lng c1 - lng b0) (lat b1 - lat b0) in
  let d2 := cross (lat c0 - lat b0) (lng b1 - lng b0) (lng c0 - lng b0) (lat b1 - lat b0) in
  let d3 := cross (lat b1 - lat c0) (lng c1 - lng c0) (lng b1 - lng c0) (lat c1 - lat c0) in
  let d4 := cross (lat b0 - lat c0) (lng c1 - lng c0) (lng b0 - lng c0) (lat c1 - lat c0) in
  bool_decide (sign64 d1 * sign64 d2 < 0) && bool_decide (sign64 d3 * sign64 d4 < 0).

Definition be_Lat (b : BorderEntry) (rev : bool) : Z := lat (if rev then be_End b else be_Begin b).
Definition be_Lng (b : BorderEntry) (rev : bool) : Z := lng (if rev then be_End b else be_Begin b).

Definition be_isModified (b : BorderEntry) : bool := flag_on (be_PackedFlags b) TfModified || negb (bool_decide (be_refChg b = 0)).
Definition be_toDelete (b : BorderEntry) : bool := flag_on (be_PackedFlags b) TfSpent.

(** Neither reference count is copied. *)
Definition be_Clone (e : option BorderEntry) : option BorderEntry :=
  match e with
  | None => None
  | Some b => Some (MkBorder (be_Father b) (be_Begin b) (be_End b) (be_Children b) (be_Bound b) (be_newchildren b) 0 0 (be_PackedFlags b))
  end.

Definition be_deReference (b : BorderEntry) : BorderEntry := be_set_counts b (be_RefCnt b) (i32 (be_refChg b - 1)).
Definition be_reference (b : BorderEntry) : BorderEntry := be_set_counts b (be_RefCnt b) (i32 (be_refChg b + 1)).
Definition be_RollBack (b : BorderEntry) : BorderEntry := be_set_flags b (spend_flags (be_PackedFlags b)).

Definition be_ToToken (b : BorderEntry) : option definition := NewBorderDef (be_Begin b) (be_End b) (be_Father b).

Definition mergeBound (fe : BorderEntry) (b : BoundingBox) : BorderEntry * BoundingBox * bool :=
  let box := match be_Bound fe with None => MkBox (be_East fe) (be_West fe) (be_South fe) (be_North fe) | Some box => box end in
  let '(box, c) := box_Merge box b in
  (if c : bool then be_set_bound (be_set_flags fe (Z.lor (be_PackedFlags fe) TfModified)) (Some box) else fe, box, c).

Definition HasChild (fe : BorderEntry) (h : list Z) : bool := existsb (fun hs => IsEqual hs h) (be_Children fe).

(** The last two tests on the range compare a longitude with latitudes. *)
Definition OnEdge (fe : BorderEntry) (p : VertexDef) : bool :=
  let b := be_Begin fe in let e := be_End fe in
  if decide (lng p < lng b /\ lng p < lng e) then false
  else if decide (lng b < lng p /\ lng e < lng p) then false
  else if decide (lng p < lat b /\ lng p < lat e) then false
  else if decide (lat b < lng p /\ lat e < lng p) then false
  else bool_decide (i64 (i32 (lat e - lat b) * i32 (lng p - lng b)) = i64 (i32 (lng e - lng b) * i32 (lat p - lat b))).

(** The smallest box of the quad tree that holds the border. *)
Fixpoint lbh_loop (fuel : nat) (w lbh : Z) : outcome Z :=
  if decide (w = 0) then Ok lbh
  else match fuel with O => NoFuel | S fuel => lbh_loop fuel (Z.ldiff w (u32 lbh)) (u64 (Z.shiftl lbh 1)) end.
Definition Boxindex (b : BorderEntry) : outcome Z :=
  let xb := u32 (u32 (lng (be_Begin b)) + 0x80000000) in
  let xe := u32 (u32 (lng (be_End b)) + 0x80000000) in
  let yb := u32 (u32 (lat (be_Begin b)) + 0x80000000) in
  let ye := u32 (u32 (lat (be_End b)) + 0x80000000) in
  let x := Z.lxor xb xe in
  let y := Z.lxor yb ye in
  let w := if decide (x < y) then y else x in
  lbh ← lbh_loop 33 w 1;
  let lbh := Z.shiftr lbh 1 in
  let m := u64 (lbh - 1) in
  let x := Z.ldiff xb (u32 m) in
  let xe := Z.ldiff xe (u32 m) in
  let x := Z.lor (if decide (x < xe) then xe else x) (u32 lbh) in
  let y := Z.ldiff yb (u32 m) in
  let ye := Z.ldiff ye (u32 m) in
  let y := Z.lor (if decide (y < ye) then ye else y) (u32 lbh) in
  Ok (Z.lor x (u64 (Z.shiftl y 32))).

(** ** The encoding *)

Fixpoint put_hashes (s : list Z) (pos : Z) (hs : list (list Z)) : outcome (list Z * Z) :=
  match hs with
  | [] => Ok (s, pos)
  | h :: hs => s ← copy_at s pos h; put_hashes s (pos + 32) hs
  end.

(** The change of the reference count is settled; the entry that has been settled, and its
    bytes: none when it is to be deleted. *)
Definition serializeBorderEntry (b : BorderEntry) : outcome (BorderEntry * list Z) :=
  if be_toDelete b then Ok (b, [])
  else
    let b := if decide (be_refChg b <> 0) then be_set_counts b (i32 (be_RefCnt b + be_refChg b)) 0 else b in
    let s := 4 + 32 * (1 + len (be_Children b)) + 24 + (match be_Bound b with Some _ => 16 | None => 0 end) in
    let serialized := replicate (Z.to_nat s) 0 in
    serialized ← copy_at serialized 0 (be_Father b);
    serialized ← copy_at serialized 32 (vertex_Serialize (be_Begin b));
    serialized ← copy_at serialized 44 (vertex_Serialize (be_End b));
    '(serialized, pos) ← put_hashes serialized 56 (be_Children b);
    serialized ← put32_at serialized pos (u32 (be_RefCnt b));
    serialized ← match be_Bound b with
                 | None => Ok serialized
                 | Some box =>
                     serialized ← put32_at serialized (pos + 4) (u32 (west box));
                     serialized ← put32_at serialized (pos + 8) (u32 (east box));
                     serialized ← put32_at serialized (pos + 12) (u32 (south box));
                     put32_at serialized (pos + 16) (u32 (north box))
                 end;
    Ok (b, serialized).

Fixpoint get_hashes (n : nat) (s : list Z) (pos : Z) : outcome (list (list Z)) :=
  match n with
  | O => Ok []
  | S n => t ← slice_from s pos; hs ← get_hashes n s (pos + 32); Ok (hash_from t :: hs)
  end.

Definition decodeBorder (serialized : list Z) : outcome BorderEntry :=
  f ← slice_sub serialized 0 32;
  s1 ← slice_from serialized 32; b ← vertex_Deserialize s1;
  s2 ← slice_from serialized 44; e ← vertex_Deserialize s2;
  let n := (len serialized - 24 - 32) / 32 in
  children ← get_hashes (Z.to_nat n) serialized 56;
  let p := 32 * (n + 1) + 24 in
  cnt ← le32_at serialized p;
  let p := p + 4 in
  if decide (len serialized = p) then Ok (MkBorder (hash_from f) b e children None false (i32 cnt) 0 0)
  else
    w ← le32_at serialized p; ea ← le32_at serialized (p + 4); so ← le32_at serialized (p + 8); no ← le32_at serialized (p + 12);
    Ok (MkBorder (hash_from f) b e children (Some (MkBox (i32 ea) (i32 w) (i32 so) (i32 no))) false (i32 cnt) 0 0).

Definition DbFetchBorderEntry (b : bucket) (hash : list Z) : outcome (BorderEntry + view_err) :=
  match b_Get b hash with
  | None => Ok (inr ErrNotInMainChain)
  | Some serialized => e ← decodeBorder serialized; Ok (inl e)
  end.
Definition dbRemoveBorder (b : bucket) (hash : list Z) : bucket := b_Delete b hash.

(** ** Boxes *)

Definition box_le (b c : BoundingBox) : Prop := west c <= west b /\ east b <= east c /\ south c <= south b /\ north b <= north c.

Lemma Contain_le b c : Contain b c = true <-> box_le c b.
Proof. unfold Contain, box_le. rewrite !andb_true_iff, !bool_decide_eq_true. lia. Qed.

Global Instance box_le_preorder : PreOrder box_le.
Proof. split; [intros b; unfold box_le; lia|intros a b c; unfold box_le; lia]. Qed.

Lemma box_Merge_value box b : box_Merge box b =
  (MkBox (Z.max (east box) (east b)) (Z.min (west box) (west b)) (Z.min (south box) (south b)) (Z.max (north box) (north b)), negb (Contain box b)).
Proof.
  destruct box as [e w s n], b as [e' w' s' n']. unfold box_Merge, Contain. cbn [east west south north].
  repeat case_decide; cbv iota beta; apply pair_equal_spec; (split; [f_equal; lia|]); repeat case_bool_decide; solve [reflexivity|lia].
Qed.

Lemma box_Merge_lub box b : box_le box (box_Merge box b).1 /\ box_le b (box_Merge box b).1 /\
  (forall c, box_le box c -> box_le b c -> box_le (box_Merge box b).1 c).
Proof. rewrite box_Merge_value. unfold box_le. simpl. split_and!; intros; lia. Qed.

Lemma box_Merge_changed box b : (box_Merge box b).2 = false <-> (box_Merge box b).1 = box.
Proof.
  rewrite box_Merge_value. simpl. rewrite negb_false_iff, Contain_le. destruct box, b. unfold box_le. simpl. split.
  - intros. f_equal; lia.
  - intros E. injection E as E1 E2 E3 E4. lia.
Qed.

(** ** The round trip *)

Definition box_ok (b : BoundingBox) : Prop := sint_range 32 (east b) /\ sint_range 32 (west b) /\ sint_range 32 (south b) /\ sint_range 32 (north b).

Record border_ok (b : BorderEntry) : Prop := MkBorderOk {
  bo_father : length (be_Father b) = HashSize;
  bo_begin : vertex_ok (be_Begin b);
  bo_end : vertex_ok (be_End b);
  bo_children : Forall (fun h : list Z => length h = HashSize) (be_Children b);
  bo_bound : forall box, be_Bound b = Some box -> box_ok box;
}.

Definition settled (b : BorderEntry) : BorderEntry :=
  if decide (be_refChg b <> 0) then be_set_counts b (i32 (be_RefCnt b + be_refChg b)) 0 else b.
Definition stored_border (b : BorderEntry) : BorderEntry :=
  MkBorder (be_Father b) (be_Begin b) (be_End b) (be_Children b) (be_Bound b) false (i32 (be_RefCnt (settled b))) 0 0.

Definition bound_bytes (o : option BoundingBox) : list Z :=
  match o with
  | None => []
  | Some box => le_bytes 4 (u32 (west box)) ++ le_bytes 4 (u32 (east box)) ++ le_bytes 4 (u32 (south box)) ++ le_bytes 4 (u32 (north box))
  end.
Definition border_bytes (b : BorderEntry) : list Z :=
  be_Father b ++ vertex_Serialize (be_Begin b) ++ vertex_Serialize (be_End b) ++ concat (be_Children b) ++
    le_bytes 4 (u32 (be_RefCnt b)) ++ bound_bytes (be_Bound b).

Lemma length_concat_hashes l : Forall (fun h : list Z => length h = HashSize) l -> length (concat l) = (32 * length l)%nat.
Proof. induction 1 as [|h l Hh _ IH]; [done|]. cbn [concat length]. rewrite length_app, IH, Hh. unfold HashSize. lia. Qed.

Lemma put_hashes_fill hs : forall pre k, Forall (fun h : list Z => length h = HashSize) hs -> (32 * length hs <= k)%nat ->
  put_hashes (pre ++ replicate k 0) (len pre) hs = Ok ((pre ++ concat hs) ++ replicate (k - 32 * length hs) 0, len (pre ++ concat hs)).
Proof.
  induction hs as [|h hs IH]; intros pre k H Hk.
  - cbn [put_hashes concat length]. rewrite app_nil_r, Nat.mul_0_r, Nat.sub_0_r. done.
  - apply Forall_cons in H as [Hh Hs]. cbn [put_hashes concat length] in *. rewrite copy_at_fill by (rewrite Hh; unfold HashSize; lia).
    rewrite outcome_bind_ok. replace (len pre + 32) with (len (pre ++ h)) by (rewrite length_app, Hh; unfold HashSize; lia).
    rewrite IH by (done || rewrite Hh; unfold HashSize; lia).
    replace (k - length h - 32 * length hs)%nat with (k - 32 * S (length hs))%nat by (rewrite Hh; unfold HashSize; lia). by rewrite <- (app_assoc pre h).
Qed.

Lemma get_hashes_app hs : forall pre post n, Forall (fun h : list Z => length h = HashSize) hs -> n = len pre ->
  get_hashes (length hs) (pre ++ concat hs ++ post) n = Ok hs.
Proof.
  induction hs as [|h hs IH]; intros pre post n H ->; [done|]. apply Forall_cons in H as [Hh Hs].
  cbn [get_hashes length concat]. rewrite slice_from_app, outcome_bind_ok. rewrite <- (app_assoc h), (app_assoc pre), IH.
  - rewrite outcome_bind_ok, hash_from_app by done. done.
  - done.
  - rewrite length_app, Hh. unfold HashSize. lia.
Qed.

Lemma replicate_split n m : replicate (n + m) 0 = replicate n 0 ++ replicate m 0.
Proof. apply replicate_add. Qed.

(** One step of filling a buffer from the left: the value that is written and the space left. *)
Lemma fill_copy pre k off src : off = len pre -> (length src <= k)%nat ->
  copy_at (pre ++ replicate k 0) off src = Ok ((pre ++ src) ++ replicate (k - length src) 0).
Proof. intros ->. apply copy_at_fill. Qed.
Lemma fill_32 pre k off v : off = len pre -> (4 <= k)%nat -> put32_at (pre ++ replicate k 0) off v = Ok ((pre ++ le_bytes 4 v) ++ replicate (k - 4) 0).
Proof. intros ->. apply put32_at_fill. Qed.

Lemma serializeBorderEntry_ok b : border_ok b -> be_toDelete b = false ->
  serializeBorderEntry b = Ok (settled b, border_bytes (settled b)).
Proof.
  intros Hb Hd. unfold serializeBorderEntry. rewrite Hd. fold (settled b).
  assert (border_ok (settled b)) as [Hf _ _ Hc _] by (unfold settled; case_decide; [by destruct Hb; constructor|done]).
  clear Hd Hb. set (c := settled b) in *. clearbody c. clear b.
  set (n := (32 + 12 + 12 + 32 * length (be_Children c) + 4 + length (bound_bytes (be_Bound c)))%nat).
  match goal with |- context [Z.to_nat ?s] => replace (Z.to_nat s) with n by (unfold n; destruct (be_Bound c); simpl length; lia) end.
  change (replicate n 0) with ([] ++ replicate n 0).
  rewrite fill_copy by (done || (rewrite Hf; unfold n, HashSize; lia)). rewrite outcome_bind_ok, app_nil_l, Hf. change HashSize with 32%nat.
  rewrite fill_copy by (rewrite ?Hf, ?vertex_Serialize_length; unfold n; done || lia). rewrite outcome_bind_ok, vertex_Serialize_length.
  rewrite fill_copy by (rewrite ?length_app, ?Hf, ?vertex_Serialize_length; unfold n, HashSize; done || lia). rewrite outcome_bind_ok, vertex_Serialize_length.
  set (p := (be_Father c ++ _) ++ _). replace 56 with (len p) by (unfold p; rewrite !length_app, Hf, !vertex_Serialize_length; reflexivity).
  rewrite put_hashes_fill by (done || unfold n; lia). rewrite outcome_bind_ok. set (q := p ++ concat (be_Children c)).
  rewrite fill_32 by (done || unfold n; lia). rewrite outcome_bind_ok.
  set (k := (n - 32 - 12 - 12 - 32 * length (be_Children c) - 4)%nat).
  assert (k = length (bound_bytes (be_Bound c))) as -> by (unfold k, n; lia).
  unfold border_bytes. rewrite !app_assoc. fold p. fold q. destruct (be_Bound c) as [box|]; [|simpl; by rewrite !app_nil_r].
  cbn [bound_bytes]. rewrite !length_app, !le_bytes_length. set (r := q ++ _).
  assert (len r = len q + 4) as Hr by (unfold r; rewrite length_app, le_bytes_length; lia).
  rewrite fill_32 by lia. rewrite outcome_bind_ok. rewrite fill_32 by (rewrite ?length_app, ?le_bytes_length; lia). rewrite outcome_bind_ok.
  rewrite fill_32 by (rewrite ?length_app, ?le_bytes_length; lia). rewrite outcome_bind_ok.
  rewrite fill_32 by (rewrite ?length_app, ?le_bytes_length; lia). cbn [Nat.add Nat.sub]. rewrite outcome_bind_ok. by rewrite app_nil_r, !app_assoc.
Qed.

Lemma le32_app v l : uint_range 32 v -> le32 (le_bytes 4 v ++ l) = Ok v.
Proof. intros Hv. pose proof (le32_at_app [] v l 0 Hv eq_refl) as H. unfold le32_at in H. by rewrite slice_from_0, outcome_bind_ok in H. Qed.

Lemma i32_u32_id v : sint_range 32 v -> i32 (u32 v) = v.
Proof. intros Hv. rewrite (swrap_cong 32 (u32 v) v) by (rewrite ?uwrap_uwrap; lia). by apply swrap_id. Qed.

Lemma vertex_Deserialize_app v l : vertex_ok v -> vertex_Deserialize (vertex_Serialize v ++ l) = Ok v.
Proof.
  intros (H1 & H2 & H3). assert (forall z, uint_range 32 (u32 z)) as Hu by (intros; by apply uwrap_range).
  unfold vertex_Deserialize, vertex_Serialize, PutUint32. rewrite <- !app_assoc.
  rewrite le32_app by done. rewrite outcome_bind_ok.
  change (slice_sub ?r 4 (len ?r)) with (slice_from r 4). rewrite slice_from_at by (by rewrite le_bytes_length). rewrite outcome_bind_ok, le32_app by done.
  rewrite outcome_bind_ok. change (slice_sub ?r 8 (len ?r)) with (slice_from r 8).
  rewrite (app_assoc (le_bytes 4 (u32 (lat v)))), slice_from_at by (by rewrite length_app, !le_bytes_length). rewrite outcome_bind_ok, le32_app by done.
  rewrite outcome_bind_ok, !i32_u32_id by done. by destruct v.
Qed.

Lemma decodeBorder_bytes b : border_ok b -> decodeBorder (border_bytes b) =
  Ok (MkBorder (be_Father b) (be_Begin b) (be_End b) (be_Children b) (be_Bound b) false (i32 (be_RefCnt b)) 0 0).
Proof.
  intros [Hf Hb He Hc Hbd]. assert (forall z, uint_range 32 (u32 z)) as Hu by (intros; by apply uwrap_range).
  assert (len (border_bytes b) = 56 + 32 * len (be_Children b) + 4 + len (bound_bytes (be_Bound b))) as Hl.
  { unfold border_bytes. rewrite !length_app, Hf, !vertex_Serialize_length, le_bytes_length, length_concat_hashes by done. unfold HashSize. lia. }
  assert (len (bound_bytes (be_Bound b)) = match be_Bound b with Some _ => 16 | None => 0 end) as Hlb by (by destruct (be_Bound b)).
  unfold decodeBorder. assert ((len (border_bytes b) - 24 - 32) / 32 = len (be_Children b)) as ->.
  { rewrite Hl, Hlb. symmetry. apply (Z.div_unique _ _ _ (4 + match be_Bound b with Some _ => 16 | None => 0 end)); destruct (be_Bound b); lia. }
  rewrite Nat2Z.id.
  assert (slice_sub (border_bytes b) 0 32 = Ok (be_Father b)) as -> by (unfold border_bytes; rewrite slice_sub_head; by rewrite ?Hf).
  rewrite outcome_bind_ok. assert (slice_from (border_bytes b) 32 = Ok (drop 32 (border_bytes b))) as ->.
  { rewrite <- (slice_from_at (take 32 (border_bytes b)) (drop 32 (border_bytes b)) 32), take_drop; [done|]. rewrite length_take. lia. }
  rewrite outcome_bind_ok. assert (slice_from (border_bytes b) 44 = Ok (drop 44 (border_bytes b))) as ->.
  { rewrite <- (slice_from_at (take 44 (border_bytes b)) (drop 44 (border_bytes b)) 44), take_drop; [done|]. rewrite length_take. lia. }
  assert (vertex_Deserialize (drop 32 (border_bytes b)) = Ok (be_Begin b)) as ->.
  { unfold border_bytes. change 32%nat with HashSize. rewrite <- Hf, drop_app_length. by apply vertex_Deserialize_app. }
  rewrite !outcome_bind_ok. assert (vertex_Deserialize (drop 44 (border_bytes b)) = Ok (be_End b)) as ->.
  { unfold border_bytes. rewrite app_assoc, drop_app_length' by (by rewrite length_app, Hf). by apply vertex_Deserialize_app. }
  rewrite !outcome_bind_ok.
  set (p := (be_Father b ++ vertex_Serialize (be_Begin b)) ++ vertex_Serialize (be_End b)).
  assert (len p = 56) as Hp by (unfold p; by rewrite !length_app, Hf).
  assert (border_bytes b = p ++ concat (be_Children b) ++ le_bytes 4 (u32 (be_RefCnt b)) ++ bound_bytes (be_Bound b)) as Eb
    by (unfold border_bytes, p; by rewrite !app_assoc).
  rewrite Eb. rewrite get_hashes_app by done. rewrite outcome_bind_ok. set (q := p ++ concat (be_Children b)).
  assert (len q = 32 * (len (be_Children b) + 1) + 24) as Hq by (unfold q; rewrite length_app, length_concat_hashes by done; lia).
  rewrite !(app_assoc p). fold q. rewrite (le32_at_app q _ _ _ (Hu _) (eq_sym Hq)). rewrite outcome_bind_ok.
  replace (hash_from (be_Father b)) with (be_Father b) by (rewrite <- (app_nil_r (be_Father b)) at 2; by rewrite hash_from_app).
  rewrite (swrap_cong 32 (u32 (be_RefCnt b)) (be_RefCnt b)) by (rewrite ?uwrap_uwrap; lia).
  rewrite Eb, (app_assoc p) in Hl. fold q in Hl. rewrite Hl, Hlb. destruct (be_Bound b) as [box|] eqn:Ebd.
  - rewrite decide_False by lia. destruct (Hbd box eq_refl) as (B1 & B2 & B3 & B4).
    cbn [bound_bytes]. set (r := q ++ le_bytes 4 (u32 (be_RefCnt b))).
    assert (len r = len q + 4) as Hr by (unfold r; rewrite length_app, le_bytes_length; lia).
    rewrite !(app_assoc q). fold r. set (off := 32 * (len (be_Children b) + 1) + 24) in *.
    rewrite (le32_at_app r _ _ (off + 4)) by (done || lia). rewrite outcome_bind_ok.
    rewrite !(app_assoc r), (le32_at_app _ _ _ (off + 4 + 4)) by (done || rewrite ?length_app, ?le_bytes_length; lia). rewrite outcome_bind_ok.
    rewrite !(app_assoc (r ++ _)), (le32_at_app _ _ _ (off + 4 + 8)) by (done || rewrite ?length_app, ?le_bytes_length; lia). rewrite outcome_bind_ok.
    rewrite !(app_assoc ((r ++ _) ++ _)), <- (app_nil_r (le_bytes 4 (u32 (north box)))), (le32_at_app _ _ _ (off + 4 + 12))
      by (done || rewrite ?length_app, ?le_bytes_length; lia).
    rewrite outcome_bind_ok, !i32_u32_id by done. by destruct box.
  - rewrite decide_True by lia. reflexivity.
Qed.

Lemma stored_border_bytes b : border_ok b -> be_toDelete b = false ->
  exists s, serializeBorderEntry b = Ok (settled b, s) /\ s <> [] /\ decodeBorder s = Ok (stored_border b).
Proof.
  intros Hb Hd. exists (border_bytes (settled b)). split_and!.
  - by apply serializeBorderEntry_ok.
  - destruct Hb as [Hf _ _ _ _]. intros E. apply (f_equal length) in E. unfold border_bytes in E. rewrite length_app in E.
    assert (be_Father (settled b) = be_Father b) as E' by (unfold settled; by case_decide). rewrite E', Hf in E. simpl in E. unfold HashSize in E. lia.
  - assert (border_ok (settled b)) as Hs by (unfold settled; case_decide; [by destruct Hb; constructor|done]).
    rewrite decodeBorder_bytes by done. unfold stored_border, settled. by case_decide.
Qed.

(** ** Edges *)

(** Coordinates whose differences do not wrap. *)
Definition near (v : VertexDef) : Prop := - 2 ^ 30 <= lat v < 2 ^ 30 /\ - 2 ^ 30 <= lng v < 2 ^ 30.

Lemma cross_value a b c d : - 2 ^ 31 < a < 2 ^ 31 -> - 2 ^ 31 < b < 2 ^ 31 -> - 2 ^ 31 < c < 2 ^ 31 -> - 2 ^ 31 < d < 2 ^ 31 ->
  cross a b c d = a * b - c * d.
Proof.
  intros Ha Hb Hc Hd. unfold cross. rewrite !(swrap_id 32) by (unfold sint_range; simpl; lia).
  assert (forall x y, - 2 ^ 31 < x < 2 ^ 31 -> - 2 ^ 31 < y < 2 ^ 31 -> - 2 ^ 62 < x * y < 2 ^ 62) as Hp
    by (intros x y Hx Hy; apply Z.abs_lt; rewrite Z.abs_mul; change (2 ^ 62) with (2 ^ 31 * 2 ^ 31); apply Z.mul_lt_mono_nonneg; lia).
  pose proof (Hp a b Ha Hb). pose proof (Hp c d Hc Hd).
  assert (forall z, - 2 ^ 63 < z < 2 ^ 63 -> i64 z = z) as Hw by (intros z Hz; apply swrap_id; [lia|unfold sint_range; change (64 - 1) with 63; lia]).
  rewrite (Hw (a * b)), (Hw (c * d)) by lia. apply Hw. lia.
Qed.

Lemma sign64_neg a b : sign64 a * sign64 b < 0 <-> a * b < 0.
Proof. unfold sign64. repeat case_decide; nia. Qed.

(** A point that lies strictly inside both edges, as [D] times its coordinates. *)
Definition cross_at (b c : BorderEntry) (s t D : Z) : Prop :=
  0 < s < D /\ 0 < t < D /\
  D * lng (be_Begin b) + s * (lng (be_End b) - lng (be_Begin b)) = D * lng (be_Begin c) + t * (lng (be_End c) - lng (be_Begin c)) /\
  D * lat (be_Begin b) + s * (lat (be_End b) - lat (be_Begin b)) = D * lat (be_Begin c) + t * (lat (be_End c) - lat (be_Begin c)).
Definition parallel (b c : BorderEntry) : Prop :=
  (lng (be_End b) - lng (be_Begin b)) * (lat (be_End c) - lat (be_Begin c)) = (lat (be_End b) - lat (be_Begin b)) * (lng (be_End c) - lng (be_Begin c)).

(** The algebra of two edges: [(ex, ey)] and [(fx, fy)] with the vector [(gx, gy)] between
    their beginnings. *)
Lemma crossing_algebra ex ey fx fy gx gy :
  let X := ex * fy - ey * fx in
  let d2 := gy * ex - gx * ey in let d1 := d2 + X in
  let d4 := gx * fy - gy * fx in let d3 := d4 - X in
  (d1 * d2 < 0 /\ d3 * d4 < 0) <-> X <> 0 /\ exists s t D, 0 < s < D /\ 0 < t < D /\ s * ex = D * gx + t * fx /\ s * ey = D * gy + t * fy.
Proof.
  cbv zeta. split.
  - intros [H1 H2]. set (X := ex * fy - ey * fx) in *. set (d2 := gy * ex - gx * ey) in *. set (d4 := gx * fy - gy * fx) in *.
    assert (X <> 0) as HX by (intros E; rewrite E in *; nia). split; [done|].
    assert (d4 * ex = X * gx + (- d2) * fx) as E1 by (unfold X, d2, d4; ring).
    assert (d4 * ey = X * gy + (- d2) * fy) as E2 by (unfold X, d2, d4; ring).
    destruct (Z.lt_ge_cases 0 X); [exists d4, (- d2), X|exists (- d4), d2, (- X)]; split_and!; nia.
  - intros (HX & s & t & D & Hs & Ht & Ex & Ey).
    set (X := ex * fy - ey * fx) in *.
    assert (D * (gy * ex - gx * ey) = - t * X) as A by (unfold X; replace (D * (gy * ex - gx * ey)) with (D * gy * ex - D * gx * ey) by ring;
      replace (D * gy) with (s * ey - t * fy) by lia; replace (D * gx) with (s * ex - t * fx) by lia; ring).
    assert (D * (gx * fy - gy * fx) = s * X) as B by (unfold X; replace (D * (gx * fy - gy * fx)) with (D * gx * fy - D * gy * fx) by ring;
      replace (D * gy) with (s * ey - t * fy) by lia; replace (D * gx) with (s * ex - t * fx) by lia; ring).
    set (d2 := gy * ex - gx * ey) in *. set (d4 := gx * fy - gy * fx) in *.
    assert (0 < X * X) by nia.
    split.
    + assert (D * D * ((d2 + X) * d2) = - (t * (D - t)) * (X * X)) as E by (replace (D * D * ((d2 + X) * d2)) with ((D * d2 + D * X) * (D * d2)) by ring; rewrite A; ring).
      assert (0 < t * (D - t)) by nia. assert (D * D * ((d2 + X) * d2) < 0) by (rewrite E; nia). nia.
    + assert (D * D * ((d4 - X) * d4) = - (s * (D - s)) * (X * X)) as E by (replace (D * D * ((d4 - X) * d4)) with ((D * d4 - D * X) * (D * d4)) by ring; rewrite B; ring).
      assert (0 < s * (D - s)) by nia. assert (D * D * ((d4 - X) * d4) < 0) by (rewrite E; nia). nia.
Qed.

(** For coordinates whose differences fit, two edges intersect exactly when they are not
    parallel and some point lies strictly inside both of them. *)
Theorem edges_cross_exact (b c : BorderEntry)
  (Hb0 : near (be_Begin b)) (Hb1 : near (be_End b)) (Hc0 : near (be_Begin c)) (Hc1 : near (be_End c)) :
  be_Intersects b c = true <-> ~ parallel b c /\ exists s t D, cross_at b c s t D.
Proof.
  unfold be_Intersects. destruct Hb0, Hb1, Hc0, Hc1. rewrite andb_true_iff, !bool_decide_eq_true, !sign64_neg, !cross_value by lia.
  pose proof (crossing_algebra (lng (be_End b) - lng (be_Begin b)) (lat (be_End b) - lat (be_Begin b)) (lng (be_End c) - lng (be_Begin c))
    (lat (be_End c) - lat (be_Begin c)) (lng (be_Begin c) - lng (be_Begin b)) (lat (be_Begin c) - lat (be_Begin b))) as A. cbv zeta in A.
  unfold parallel, cross_at.
  transitivity (((lng (be_End b) - lng (be_Begin b)) * (lat (be_End c) - lat (be_Begin c)) - (lat (be_End b) - lat (be_Begin b)) * (lng (be_End c) - lng (be_Begin c)) <> 0) /\
    exists s t D, 0 < s < D /\ 0 < t < D /\
      s * (lng (be_End b) - lng (be_Begin b)) = D * (lng (be_Begin c) - lng (be_Begin b)) + t * (lng (be_End c) - lng (be_Begin c)) /\
      s * (lat (be_End b) - lat (be_Begin b)) = D * (lat (be_Begin c) - lat (be_Begin b)) + t * (lat (be_End c) - lat (be_Begin c))).
  - rewrite <- A. match goal with |- ?x1 < 0 /\ ?x2 < 0 <-> ?y1 < 0 /\ ?y2 < 0 => replace x1 with y1 by ring; replace x2 with y2 by ring; reflexivity end.
  - split; intros [Hx (s & t & D & ? & ? & ? & ?)]; (split; [lia|]); exists s, t, D; split_and!; lia.
Qed.

Definition edge (la ln la' ln' : Z) : BorderEntry := MkBorder zero_hash (MkVertex la ln 0) (MkVertex la' ln' 0) [] None false 0 0 0.

Lemma edges_cross_witness : cross_at (edge 0 0 10 10) (edge 0 10 10 0) 100 100 200 /\ be_Intersects (edge 0 0 10 10) (edge 0 10 10 0) = true.
Proof.
  assert (cross_at (edge 0 0 10 10) (edge 0 10 10 0) 100 100 200) as H by (unfold cross_at; simpl; lia). split; [exact H|].
  apply (edges_cross_exact (edge 0 0 10 10) (edge 0 10 10 0)); try (unfold near; simpl; lia).
  split; [unfold parallel; simpl; lia|]. exists 100, 100, 200. exact H.
Defined.

(** [OnEdge] compares the longitude of the point with the latitudes of the edge, so it
    misses points that are on the edge: the middle of an edge along the parallel 100. *)
Theorem on_edge_misses : OnEdge (edge 100 0 100 10) (MkVertex 100 5 0) = false /\ OnEdge (edge 5 0 5 10) (MkVertex 5 5 0) = true.
Proof. by split. Qed.
