(* ===== verification/DefEntry.v ===== *)
(** * Rights and polygons: entries and their encodings

    Models the entries of omega/viewpoint/right.go and omega/viewpoint/polygon.go and the
    bytes under which the database keeps them. *)
From Stdlib Require Import ZArith Lia.
From stdpp Require Import gmap list.
From S2P Require Import Prelude Vlq Wire Token ViewDb BorderEntry.

Open Scope Z_scope.

(** ** Rights *)

Definition NegativeRight : Z := 1.
Definition Unsplittable : Z := 2.
Definition Monitored : Z := 4.
Definition Monitor : Z := 8.
Definition IsMonitorCall : Z := 16.

Record RightEntry := MkRight {
  re_Father : list Z;
  re_Root : list Z;
  re_Depth : Z;
  re_Desc : list Z;
  re_Attrib : Z;
  re_PackedFlags : Z;
}.
Record RightSetEntry := MkRightSet { rs_Rights : list (list Z); rs_PackedFlags : Z }.

(** What the view of rights holds: rights and sets of rights. *)
Inductive right_item := RRight (r : RightEntry) | RSet (s : RightSetEntry).

Global Instance RightEntry_eq_dec : EqDecision RightEntry.
Proof. solve_decision. Defined.
Global Instance RightSetEntry_eq_dec : EqDecision RightSetEntry.
Proof. solve_decision. Defined.
Global Instance right_item_eq_dec : EqDecision right_item.
Proof. solve_decision. Defined.

Definition ri_flags (r : right_item) : Z := match r with RRight r => re_PackedFlags r | RSet s => rs_PackedFlags s end.
Definition ri_set_flags (r : right_item) (f : Z) : right_item :=
  match r with
  | RRight r => RRight (MkRight (re_Father r) (re_Root r) (re_Depth r) (re_Desc r) (re_Attrib r) f)
  | RSet s => RSet (MkRightSet (rs_Rights s) f)
  end.

Definition ri_isModified (r : right_item) : bool := flag_on (ri_flags r) TfModified.
Definition ri_toDelete (r : right_item) : bool := flag_on (ri_flags r) TfSpent.
Definition ri_RollBack (r : right_item) : right_item := ri_set_flags r (spend_flags (ri_flags r)).

Definition re_ToToken (e : RightEntry) : definition := DRight None (re_Father e) (re_Desc e) (re_Attrib e).
Definition rs_ToToken (e : RightSetEntry) : definition := DRightSet None (rs_Rights e) 0.

(** The attributes of the other side of a right. *)
Definition sibling_attrib (a : Z) : Z :=
  if decide (Z.land a (Z.lor Monitor Monitored) = 0) then Z.ldiff a NegativeRight
  else if decide (Z.land a IsMonitorCall <> 0) then
    if decide (Z.land a Monitor <> 0) then Z.lor (Z.ldiff a Monitor) (Z.lor Monitored NegativeRight)
    else Z.lor (Z.ldiff a (Z.lor Monitored NegativeRight)) Monitor
  else Z.ldiff a NegativeRight.

Section Hash.
Context (HashH : list Z -> list Z).
Definition Sibling (e : RightEntry) : outcome (list Z) := def_hash HashH (DRight None (re_Father e) (re_Desc e) (sibling_attrib (re_Attrib e))).
Definition Monitoring (e : RightEntry) : outcome (list Z) :=
  if decide (Z.land (re_Attrib e) Monitored = 0 \/ Z.land (re_Attrib e) IsMonitorCall = 0) then Ok zero_hash
  else def_hash HashH (DRight None (re_Father e) (re_Desc e) (Z.ldiff (Z.lor (re_Attrib e) Monitor) (Z.lor NegativeRight Monitored))).
End Hash.

(** No bytes for what is to be deleted. *)
Definition serializeRightEntry (r : right_item) : outcome (list Z) :=
  if ri_toDelete r then Ok []
  else
    match r with
    | RRight e =>
        let s := replicate (Z.to_nat (64 + len (re_Desc e) + 6)) 0 in
        s ← slice_set s 0 0;
        s ← copy_at s 1 (re_Father e);
        s ← slice_set s 33 (re_Attrib e);
        s ← copy_at s 34 (re_Root e);
        s ← put32_at s 66 (u32 (re_Depth e));
        copy_at s 70 (re_Desc e)
    | RSet e =>
        let s := replicate (Z.to_nat (32 * len (rs_Rights e) + 1)) 0 in
        s ← slice_set s 0 1;
        '(s, _) ← put_hashes s 1 (rs_Rights e);
        Ok s
    end.

(** The loop over the hashes of a set: it panics when it finds more than there is place for. *)
Fixpoint read_rights (fuel : nat) (s : list Z) (n p : Z) : outcome (list (list Z)) :=
  if decide (p < len s) then
    match fuel with
    | O => NoFuel
    | S fuel => if decide (n <= 0) then Panic else t ← slice_from s p; hs ← read_rights fuel s (n - 1) (p + 32); Ok (hash_from t :: hs)
    end
  else Ok (replicate (Z.to_nat n) zero_hash).

(** A first byte that is neither 0 nor 1 gives nothing. *)
Definition decodeRight (s : list Z) : outcome (option right_item) :=
  tag ← slice_get s 0;
  if decide (tag = 0) then
    f ← slice_from s 1;
    attrib ← slice_get s 33;
    r ← slice_from s 34;
    depth ← le32_at s 66;
    desc ← slice_from s 70;
    Ok (Some (RRight (MkRight (hash_from f) (hash_from r) (i32 depth) desc attrib 0)))
  else if decide (tag = 1) then hs ← read_rights (length s) s ((len s - 1) / 32) 1; Ok (Some (RSet (MkRightSet hs 0)))
  else Ok None.

Definition DbFetchRight (b : bucket) (hash : list Z) : outcome (option right_item * option view_err) :=
  match b_Get b hash with
  | None => Ok (None, Some ErrNotInMainChain)
  | Some s => r ← decodeRight s; Ok (r, None)
  end.
Definition dbPutRight (HashH : list Z -> list Z) (b : bucket) (r : right_item) : outcome (option view_err * bucket) :=
  s ← serializeRightEntry r;
  h ← def_hash HashH (match r with RRight e => re_ToToken e | RSet e => rs_ToToken e end);
  Ok (b_Put b h s).
Definition dbRemoveRight (b : bucket) (hash : list Z) : bucket := b_Delete b hash.

(** ** Polygons *)

Record PolygonEntry := MkPolygon {
  pe_Loops : list (list (list Z));
  pe_Bound : BoundingBox;
  pe_FirstCW : bool;
  pe_Depth : Z;
  pe_PackedFlags : Z;
}.
Global Instance PolygonEntry_eq_dec : EqDecision PolygonEntry.
Proof. solve_decision. Defined.

Definition pe_set_flags (e : PolygonEntry) (f : Z) : PolygonEntry := MkPolygon (pe_Loops e) (pe_Bound e) (pe_FirstCW e) (pe_Depth e) f.
Definition pe_isModified (e : PolygonEntry) : bool := flag_on (pe_PackedFlags e) TfModified.
Definition pe_toDelete (e : PolygonEntry) : bool := flag_on (pe_PackedFlags e) TfSpent.
Definition pe_RollBack (e : PolygonEntry) : PolygonEntry := pe_set_flags e (spend_flags (pe_PackedFlags e)).
Definition pe_ToToken (e : PolygonEntry) : definition := DPolygon None (pe_Loops e).

Fixpoint loops_size (loops : list (list (list Z))) (size : Z) : outcome Z :=
  match loops with
  | [] => Ok size
  | l :: loops => n ← SerializeSizeVLQ (len l); loops_size loops (size + n + len l * 32)
  end.
Fixpoint put_loops (s : list Z) (p : Z) (loops : list (list (list Z))) : outcome (list Z * Z) :=
  match loops with
  | [] => Ok (s, p)
  | l :: loops =>
      '(s, _) ← vlq_at s p (len l);
      n ← SerializeSizeVLQ (len l);
      '(s, p) ← put_hashes s (p + n) l;
      put_loops s p loops
  end.

Definition serializePolygonEntry (e : PolygonEntry) : outcome (list Z) :=
  if pe_toDelete e then Ok []
  else
    n ← SerializeSizeVLQ (len (pe_Loops e));
    size ← loops_size (pe_Loops e) (n + 16 + 1 + 1);
    let s := replicate (Z.to_nat size) 0 in
    '(s, _) ← vlq_at s 0 (len (pe_Loops e));
    '(s, p) ← put_loops s n (pe_Loops e);
    s ← copy_at s p (box_serialize (pe_Bound e));
    s ← slice_set s (p + 16) (pe_Depth e);
    if pe_FirstCW e then slice_set s (p + 17) 1 else Ok s.

(** [n] hashes from [pos]. *)
Fixpoint take_hashes (n : nat) (s : list Z) (pos : Z) : outcome (list (list Z) * Z) :=
  match n with
  | O => Ok ([], pos)
  | S n => t ← slice_sub s pos (pos + 32); '(hs, pos) ← take_hashes n s (pos + 32); Ok (hash_from t :: hs, pos)
  end.
Fixpoint take_loops (n : nat) (s : list Z) (pos : Z) : outcome (list (list (list Z)) * Z) :=
  match n with
  | O => Ok ([], pos)
  | S n =>
      t ← slice_from s pos;
      let '(bds, offset) := DeserializeVLQ t in
      _ ← make 32 bds;
      '(loop, pos) ← take_hashes (Z.to_nat bds) s (pos + offset);
      '(loops, pos) ← take_loops n s pos;
      Ok (loop :: loops, pos)
  end.

Definition decodePolygon (s : list Z) : outcome PolygonEntry :=
  let '(loops, pos) := DeserializeVLQ s in
  _ ← make 24 loops;
  '(ls, pos) ← take_loops (Z.to_nat loops) s pos;
  t ← slice_from s pos;
  box ← box_unserialize t;
  depth ← slice_get s (pos + 16);
  cw ← (if decide (pos + 17 < len s) then b ← slice_get s (pos + 17); Ok (negb (bool_decide (b = 0))) else Ok false);
  Ok (MkPolygon ls box cw depth 0).

Definition DbFetchPolygon (b : bucket) (hash : list Z) : outcome (PolygonEntry + view_err) :=
  match b_Get b hash with
  | None => Ok (inr ErrNotInMainChain)
  | Some s => e ← decodePolygon s; Ok (inl e)
  end.
Definition dbRemovePolygon (b : bucket) (hash : list Z) : bucket := b_Delete b hash.

(** ** The round trip of rights *)

Lemma fill_byte pre k off v : off = len pre -> (1 <= k)%nat -> slice_set (pre ++ replicate k 0) off v = Ok ((pre ++ [v]) ++ replicate (k - 1) 0).
Proof.
  intros -> Hk. destruct k as [|k]; [lia|]. cbn [replicate]. rewrite slice_set_app by done.
  rewrite <- app_assoc. cbn [app Nat.sub]. by rewrite Nat.sub_0_r.
Qed.

Definition right_ok (r : right_item) : Prop :=
  match r with
  | RRight e => length (re_Father e) = HashSize /\ length (re_Root e) = HashSize /\ sint_range 32 (re_Depth e)
  | RSet s => Forall (fun h : list Z => length h = HashSize) (rs_Rights s)
  end.
Definition right_bytes (r : right_item) : list Z :=
  match r with
  | RRight e => ((((([0] ++ re_Father e) ++ [re_Attrib e]) ++ re_Root e) ++ le_bytes 4 (u32 (re_Depth e))) ++ re_Desc e)
  | RSet s => [1] ++ concat (rs_Rights s)
  end.

(** The length of a concatenation of pieces of known length. *)
Ltac piece_len := rewrite ?length_app, ?le_bytes_length; simpl length; unfold HashSize in *; lia.

Lemma serializeRightEntry_ok r : right_ok r -> ri_toDelete r = false -> serializeRightEntry r = Ok (right_bytes r).
Proof.
  intros Hr Hd. unfold serializeRightEntry. rewrite Hd. clear Hd. destruct r as [e|s].
  - destruct Hr as (Hf & Hroot & _). set (n := (1 + 32 + 1 + 32 + 4 + length (re_Desc e))%nat).
    replace (Z.to_nat (64 + len (re_Desc e) + 6)) with n by lia. change (replicate n 0) with ([] ++ replicate n 0).
    rewrite fill_byte by (done || unfold n; lia). rewrite outcome_bind_ok, app_nil_l.
    rewrite fill_copy by (done || (rewrite Hf; unfold n, HashSize; lia)). rewrite outcome_bind_ok, Hf.
    rewrite fill_byte by (unfold n; piece_len). rewrite outcome_bind_ok.
    rewrite fill_copy by (unfold n; piece_len). rewrite outcome_bind_ok, Hroot.
    rewrite fill_32 by (unfold n; piece_len). rewrite outcome_bind_ok.
    rewrite fill_copy by (unfold n; piece_len). unfold n, HashSize. cbn [right_bytes].
    replace (_ - _)%nat with 0%nat by lia. by rewrite app_nil_r.
  - cbn in Hr. set (n := (1 + 32 * length (rs_Rights s))%nat). replace (Z.to_nat (32 * len (rs_Rights s) + 1)) with n by lia.
    change (replicate n 0) with ([] ++ replicate n 0). rewrite fill_byte by (done || unfold n; lia). rewrite outcome_bind_ok, app_nil_l.
    pose proof (put_hashes_fill (rs_Rights s) [1] (n - 1) Hr ltac:(unfold n; lia)) as Hp. change (len [1]) with 1 in Hp. rewrite Hp. rewrite outcome_bind_ok. cbn [right_bytes]. unfold n.
    replace (_ - _)%nat with 0%nat by lia. by rewrite app_nil_r.
Qed.

Lemma read_rights_app hs : forall pre fuel n p, Forall (fun h : list Z => length h = HashSize) hs -> n = len hs -> p = len pre -> (length hs <= fuel)%nat ->
  read_rights fuel (pre ++ concat hs) n p = Ok hs.
Proof.
  induction hs as [|h hs IH]; intros pre fuel n p H -> -> Hf.
  - cbn [concat]. rewrite app_nil_r. destruct fuel; cbn [read_rights]; by rewrite decide_False by lia.
  - apply Forall_cons in H as [Hh Hs]. cbn [length] in *. destruct fuel as [|fuel]; [lia|]. cbn [read_rights concat].
    rewrite decide_True by (rewrite !length_app, Hh; unfold HashSize; lia). rewrite decide_False by lia.
    rewrite slice_from_app, outcome_bind_ok, hash_from_app, (app_assoc pre), IH by (done || lia || (rewrite length_app, Hh; unfold HashSize; lia)). done.
Qed.

Lemma decodeRight_bytes r : right_ok r -> decodeRight (right_bytes r) = Ok (Some (ri_set_flags r 0)).
Proof.
  intros Hr. unfold decodeRight. destruct r as [e|s].
  - destruct Hr as (Hf & Hroot & Hd). assert (uint_range 32 (u32 (re_Depth e))) as Hu by (by apply uwrap_range).
    assert (forall pre l n, right_bytes (RRight e) = pre ++ l -> n = len pre -> slice_from (right_bytes (RRight e)) n = Ok l) as Hat
      by (intros pre l n -> ->; apply slice_from_app).
    assert (slice_get (right_bytes (RRight e)) 0 = Ok 0) as -> by (cbn [right_bytes]; rewrite <- !app_assoc; by apply (slice_get_app [])).
    rewrite outcome_bind_ok, decide_True by done.
    rewrite (Hat [0] (re_Father e ++ [re_Attrib e] ++ re_Root e ++ le_bytes 4 (u32 (re_Depth e)) ++ re_Desc e) 1) by first [done | cbn [right_bytes]; by rewrite <- !app_assoc].
    rewrite outcome_bind_ok, hash_from_app by done.
    assert (slice_get (right_bytes (RRight e)) 33 = Ok (re_Attrib e)) as ->
      by (cbn [right_bytes]; rewrite <- !app_assoc; rewrite (app_assoc [0]); apply slice_get_app; rewrite length_app, Hf; done).
    rewrite outcome_bind_ok, (Hat (([0] ++ re_Father e) ++ [re_Attrib e]) (re_Root e ++ le_bytes 4 (u32 (re_Depth e)) ++ re_Desc e) 34)
      by first [cbn [right_bytes]; by rewrite <- !app_assoc | piece_len].
    rewrite outcome_bind_ok, hash_from_app by done.
    assert (le32_at (right_bytes (RRight e)) 66 = Ok (u32 (re_Depth e))) as ->
      by (cbn [right_bytes]; rewrite <- (app_assoc (_ ++ re_Root e)); apply le32_at_app; [done|piece_len]).
    rewrite outcome_bind_ok, (Hat ((((([0] ++ re_Father e) ++ [re_Attrib e]) ++ re_Root e) ++ le_bytes 4 (u32 (re_Depth e)))) (re_Desc e) 70) by (done || piece_len).
    rewrite outcome_bind_ok, i32_u32_id by done. done.
  - cbn in Hr. cbn [right_bytes].
    assert (slice_get ([1] ++ concat (rs_Rights s)) 0 = Ok 1) as -> by (by apply (slice_get_app [])). rewrite outcome_bind_ok, decide_False, decide_True by done.
    assert ((len ([1] ++ concat (rs_Rights s)) - 1) / 32 = len (rs_Rights s)) as ->.
    { rewrite length_app, length_concat_hashes by done. simpl length. symmetry. apply (Z.div_unique _ _ _ 0); lia. }
    rewrite read_rights_app; try done. rewrite length_app, length_concat_hashes by done. lia.
Qed.

(** ** The round trip of polygons *)

Definition loops_ok (loops : list (list (list Z))) : Prop :=
  make_ok 24 (len loops) /\ Forall (fun l => make_ok 32 (len l) /\ Forall (fun h : list Z => length h = HashSize) l) loops.
Definition polygon_ok (e : PolygonEntry) : Prop := loops_ok (pe_Loops e) /\ box_ok (pe_Bound e).

Definition loop_bytes (l : list (list Z)) : list Z := vlq (len l) ++ concat l.
Definition loops_bytes (loops : list (list (list Z))) : list Z := loops ≫= loop_bytes.
Definition polygon_bytes (e : PolygonEntry) : list Z :=
  (((vlq (len (pe_Loops e)) ++ loops_bytes (pe_Loops e)) ++ box_serialize (pe_Bound e)) ++ [pe_Depth e]) ++ [if pe_FirstCW e then 1 else 0].

Lemma make_ok_u64 size n : 0 < size -> make_ok size n -> uint_range 64 n.
Proof. intros Hs [H1 H2]. unfold uint_range. nia. Qed.

Lemma loop_bytes_length l : Forall (fun h : list Z => length h = HashSize) l -> length (loop_bytes l) = (length (vlq (len l)) + 32 * length l)%nat.
Proof. intros. unfold loop_bytes. by rewrite length_app, length_concat_hashes. Qed.

Lemma loops_size_ok loops : forall size, Forall (fun l => make_ok 32 (len l) /\ Forall (fun h : list Z => length h = HashSize) l) loops ->
  loops_size loops size = Ok (size + len (loops_bytes loops)).
Proof.
  induction loops as [|l loops IH]; intros size H; [cbn; f_equal; lia|]. apply Forall_cons in H as [[Hm Hl] Hs]. cbn [loops_size].
  rewrite SerializeSizeVLQ_ok by (by apply (make_ok_u64 32)). rewrite outcome_bind_ok, IH by done.
  f_equal. unfold loops_bytes. cbn [mbind list_bind]. rewrite length_app, loop_bytes_length by done. lia.
Qed.

Lemma put_loops_fill loops : forall pre k off, Forall (fun l => make_ok 32 (len l) /\ Forall (fun h : list Z => length h = HashSize) l) loops ->
  off = len pre -> (length (loops_bytes loops) <= k)%nat ->
  put_loops (pre ++ replicate k 0) off loops =
  Ok ((pre ++ loops_bytes loops) ++ replicate (k - length (loops_bytes loops)) 0, len (pre ++ loops_bytes loops)).
Proof.
  induction loops as [|l loops IH]; intros pre k off H -> Hk.
  - cbn [put_loops loops_bytes mbind list_bind length]. by rewrite app_nil_r, Nat.sub_0_r.
  - apply Forall_cons in H as [[Hm Hl] Hs]. unfold loops_bytes in *. cbn [put_loops mbind list_bind] in *. rewrite length_app, loop_bytes_length in Hk by done.
    assert (uint_range 64 (len l)) as Hu by (by apply (make_ok_u64 32)).
    rewrite vlq_at_fill by (done || lia). rewrite outcome_bind_ok, SerializeSizeVLQ_ok, outcome_bind_ok by done.
    replace (len pre + len (vlq (len l))) with (len (pre ++ vlq (len l))) by (rewrite length_app; lia).
    rewrite put_hashes_fill by (done || lia). rewrite outcome_bind_ok, IH by (done || lia).
    rewrite (length_app (loop_bytes l)), loop_bytes_length by done. unfold loop_bytes. rewrite <- !(app_assoc pre), <- !(app_assoc (vlq _)).
    replace (k - length (vlq (len l)) - 32 * length l - length (loops ≫= loop_bytes))%nat
      with (k - (length (vlq (len l)) + 32 * length l + length (loops ≫= loop_bytes)))%nat by lia. done.
Qed.

Lemma serializePolygonEntry_ok e : polygon_ok e -> pe_toDelete e = false -> serializePolygonEntry e = Ok (polygon_bytes e).
Proof.
  intros [[Hm Hl] Hb] Hd. unfold serializePolygonEntry. rewrite Hd. assert (uint_range 64 (len (pe_Loops e))) as Hu by (by apply (make_ok_u64 24)).
  rewrite SerializeSizeVLQ_ok, outcome_bind_ok, loops_size_ok, outcome_bind_ok by done.
  set (n := (length (vlq (len (pe_Loops e))) + length (loops_bytes (pe_Loops e)) + 16 + 1 + 1)%nat).
  match goal with |- context [Z.to_nat ?s] => replace (Z.to_nat s) with n by (unfold n; lia) end.
  pose proof (vlq_at_fill [] n (len (pe_Loops e)) Hu ltac:(unfold n; lia)) as Hv. cbn [app length] in Hv. change (Z.of_nat 0) with 0 in Hv. rewrite Hv.
  rewrite outcome_bind_ok, put_loops_fill by (done || unfold n; lia). rewrite outcome_bind_ok.
  set (p := vlq _ ++ loops_bytes _).
  assert (length (box_serialize (pe_Bound e)) = 16)%nat as H16 by reflexivity.
  rewrite fill_copy by (done || unfold n; lia). rewrite outcome_bind_ok, H16.
  rewrite fill_byte by (rewrite ?length_app, ?H16; unfold n; lia). rewrite outcome_bind_ok. unfold polygon_bytes. fold p.
  replace (n - _ - _ - 16 - 1)%nat with 1%nat by (unfold n; lia). destruct (pe_FirstCW e).
  - rewrite fill_byte by (rewrite ?length_app, ?H16; simpl length; lia). cbn [Nat.sub replicate]. by rewrite app_nil_r.
  - done.
Qed.

Lemma take_hashes_app hs : forall pre post p, Forall (fun h : list Z => length h = HashSize) hs -> p = len pre ->
  take_hashes (length hs) (pre ++ concat hs ++ post) p = Ok (hs, len (pre ++ concat hs)).
Proof.
  induction hs as [|h hs IH]; intros pre post p H ->; [by rewrite app_nil_r|]. apply Forall_cons in H as [Hh Hs]. cbn [take_hashes length concat].
  rewrite <- (app_assoc h). assert (slice_sub (pre ++ h ++ concat hs ++ post) (len pre) (len pre + 32) = Ok h) as ->.
  { rewrite slice_sub_ok by (rewrite ?length_app, ?Hh; unfold HashSize; lia). f_equal. rewrite Nat2Z.id, drop_app_length.
    replace (Z.to_nat _) with (length h) by (rewrite Hh; unfold HashSize; lia). apply take_app_length. }
  rewrite outcome_bind_ok, (app_assoc pre), IH by (done || (rewrite length_app, Hh; unfold HashSize; lia)). rewrite outcome_bind_ok.
  rewrite <- (app_nil_r h) at 1. rewrite hash_from_app by done. by rewrite <- app_assoc.
Qed.

Lemma take_loops_app loops : forall pre post p, Forall (fun l => make_ok 32 (len l) /\ Forall (fun h : list Z => length h = HashSize) l) loops -> p = len pre ->
  take_loops (length loops) (pre ++ loops_bytes loops ++ post) p = Ok (loops, len (pre ++ loops_bytes loops)).
Proof.
  induction loops as [|l loops IH]; intros pre post p H ->; [by cbn; rewrite app_nil_r|]. apply Forall_cons in H as [[Hm Hl] Hs].
  unfold loops_bytes in *. cbn [take_loops length mbind list_bind]. change (loop_bytes l) with (vlq (len l) ++ concat l).
  rewrite slice_from_app, outcome_bind_ok. rewrite <- !app_assoc. rewrite vlq_decodes by (by apply (make_ok_u64 32)).
  unfold make. rewrite decide_True by done. rewrite outcome_bind_ok, Nat2Z.id, (app_assoc pre), take_hashes_app by (done || (rewrite length_app; lia)).
  rewrite outcome_bind_ok, (app_assoc (pre ++ _)), IH by done. rewrite outcome_bind_ok. by rewrite <- !app_assoc.
Qed.

Lemma box_unserialize_app b l : box_ok b -> box_unserialize (box_serialize b ++ l) = Ok b.
Proof.
  intros (H1 & H2 & H3 & H4). assert (forall z, uint_range 32 (u32 z)) as Hu by (intros; by apply uwrap_range).
  unfold box_unserialize, box_serialize. rewrite <- !app_assoc, le32_app, outcome_bind_ok by done.
  rewrite (le32_at_app _ _ _ 4) by (done || by rewrite le_bytes_length). rewrite outcome_bind_ok.
  rewrite (app_assoc (le_bytes 4 (u32 (east b)))), (le32_at_app _ _ _ 8) by (done || by rewrite length_app, !le_bytes_length). rewrite outcome_bind_ok.
  rewrite (app_assoc (le_bytes 4 (u32 (east b)) ++ _)), (le32_at_app _ _ _ 12) by (done || by rewrite !length_app, !le_bytes_length).
  rewrite outcome_bind_ok, !i32_u32_id by done. by destruct b.
Qed.

Lemma decodePolygon_bytes e : polygon_ok e -> decodePolygon (polygon_bytes e) = Ok (pe_set_flags e 0).
Proof.
  intros [[Hm Hl] Hb]. assert (uint_range 64 (len (pe_Loops e))) as Hu by (by apply (make_ok_u64 24)). unfold decodePolygon, polygon_bytes.
  set (rest := box_serialize (pe_Bound e) ++ [pe_Depth e] ++ [if pe_FirstCW e then 1 else 0]). rewrite <- !app_assoc. fold rest.
  rewrite vlq_decodes by done. unfold make. rewrite decide_True by done. rewrite outcome_bind_ok, Nat2Z.id, take_loops_app by done. rewrite outcome_bind_ok.
  rewrite app_assoc. set (p := vlq _ ++ loops_bytes _). rewrite slice_from_app, outcome_bind_ok. assert (box_unserialize rest = Ok (pe_Bound e)) as -> by (by apply box_unserialize_app).
  rewrite outcome_bind_ok. assert (len rest = 18) as Hr by done.
  assert (slice_get (p ++ rest) (len p + 16) = Ok (pe_Depth e)) as ->.
  { unfold rest. rewrite (app_assoc p). apply slice_get_app. rewrite length_app. change (length (box_serialize _)) with 16%nat. lia. }
  rewrite outcome_bind_ok, decide_True by (rewrite length_app; lia).
  assert (slice_get (p ++ rest) (len p + 17) = Ok (if pe_FirstCW e then 1 else 0)) as ->.
  { unfold rest. rewrite !(app_assoc p). rewrite app_assoc. apply slice_get_app. rewrite !length_app. change (length (box_serialize _)) with 16%nat. simpl length. lia. }
  rewrite !outcome_bind_ok. unfold pe_set_flags. by destruct (pe_FirstCW e).
Qed.

Lemma stored_right_bytes r : right_ok r -> ri_toDelete r = false ->
  exists s, serializeRightEntry r = Ok s /\ s <> [] /\ decodeRight s = Ok (Some (ri_set_flags r 0)).
Proof.
  intros Hr Hd. exists (right_bytes r). split_and!; [by apply serializeRightEntry_ok|by destruct r|by apply decodeRight_bytes].
Qed.

Lemma stored_polygon_bytes e : polygon_ok e -> pe_toDelete e = false ->
  exists s, serializePolygonEntry e = Ok s /\ s <> [] /\ decodePolygon s = Ok (pe_set_flags e 0).
Proof.
  intros Hp Hd. exists (polygon_bytes e). split_and!; [by apply serializePolygonEntry_ok| |by apply decodePolygon_bytes].
  unfold polygon_bytes. intros E. by apply app_eq_nil in E as [_ E].
Qed.

(** Borders, rights, sets of rights and polygons that are written to the database are
    read back as they were, without the marks of the view; the reference count of a border
    has been settled. *)
Theorem definition_entries_roundtrip (b : BorderEntry) (r : right_item) (p : PolygonEntry)
  (Hb : border_ok b) (Hbd : be_toDelete b = false) (Hr : right_ok r) (Hrd : ri_toDelete r = false) (Hp : polygon_ok p) (Hpd : pe_toDelete p = false) :
  (exists s, serializeBorderEntry b = Ok (settled b, s) /\ decodeBorder s = Ok (stored_border b)) /\
  (exists s, serializeRightEntry r = Ok s /\ decodeRight s = Ok (Some (ri_set_flags r 0))) /\
  (exists s, serializePolygonEntry p = Ok s /\ decodePolygon s = Ok (pe_set_flags p 0)).
Proof.
  split_and!.
  - destruct (stored_border_bytes b Hb Hbd) as (s & H & _ & H'). by exists s.
  - destruct (stored_right_bytes r Hr Hrd) as (s & H & _ & H'). by exists s.
  - destruct (stored_polygon_bytes p Hp Hpd) as (s & H & _ & H'). by exists s.
Qed.

Definition sample_border_entry : BorderEntry :=
  MkBorder (replicate 32 1) (MkVertex 1 (-2) 3) (MkVertex 4 5 (-6)) [replicate 32 2; replicate 32 3] (Some (MkBox 5 (-2) 1 4)) true 7 (-2) TfModified.
Definition sample_right_entry : right_item := RRight (MkRight (replicate 32 1) (replicate 32 2) 3 [4; 5; 6] 0x82 TfModified).
Definition sample_polygon_entry : PolygonEntry := MkPolygon [[replicate 32 1; replicate 32 2; replicate 32 3]; [replicate 32 4]] (MkBox 5 (-2) 1 4) true 2 TfModified.

Lemma definition_entries_witness :
  (exists s, serializeBorderEntry sample_border_entry = Ok (settled sample_border_entry, s) /\ len s = 140 /\ be_RefCnt (stored_border sample_border_entry) = 5) /\
  (exists s, serializePolygonEntry sample_polygon_entry = Ok s /\ decodePolygon s = Ok (pe_set_flags sample_polygon_entry 0)).
Proof.
  destruct (definition_entries_roundtrip sample_border_entry sample_right_entry sample_polygon_entry) as ((s & Hs & _) & _ & Hp).
  - constructor; try done. + repeat constructor. + intros box E. injection E as <-. done.
  - done.
  - done.
  - done.
  - split; [split; [done|repeat constructor; done]|done].
  - done.
  - split; [|exact Hp]. exists s. split; [exact Hs|]. vm_compute in Hs. injection Hs as <-. done.
Defined.
