(* ===== verification/ViewSet.v ===== *)
(** * The set of views: loading and adding definitions

    Models the set of views of omega/viewpoint (viewpoint.go) with the operations on
    borders (border.go), rights (right.go) and polygons (polygon.go) that load entries
    from the database and add or roll back the definitions of transactions.

    A view maps keys to pointers of entries, and no entry is under two keys, so changing an
    entry is replacing the value under its key.  [HashH] is the hash of definitions.  The
    buckets that are read through a view are those of [v_Db]; that a contract exists is
    that there is a bucket for its storage. *)
From Stdlib Require Import ZArith Lia.
From stdpp Require Import gmap list.
From S2P Require Import Prelude Vlq Wire Token MsgTx ViewDb UtxoEntry BorderEntry DefEntry.

Open Scope Z_scope.

Record Db := MkDb {
  utxosetv2 : bucket;
  borders : bucket;
  polygons : bucket;
  rights : bucket;
  contracts : gset (list Z);
}.

Record ViewPointSet := MkViews {
  v_Db : Db;
  v_Utxo : gmap OutPoint (option UtxoEntry);
  v_Border : gmap (list Z) BorderEntry;
  v_Polygon : gmap (list Z) PolygonEntry;
  v_Rights : gmap (list Z) right_item;
  v_utxoBest : list Z;
  v_borderBest : list Z;
  v_polygonBest : list Z;
  v_rightsBest : list Z;
}.

Definition NewViewPointSet (db : Db) : ViewPointSet := MkViews db ∅ ∅ ∅ ∅ zero_hash zero_hash zero_hash zero_hash.

Definition set_utxo (v : ViewPointSet) (m : gmap OutPoint (option UtxoEntry)) : ViewPointSet :=
  MkViews (v_Db v) m (v_Border v) (v_Polygon v) (v_Rights v) (v_utxoBest v) (v_borderBest v) (v_polygonBest v) (v_rightsBest v).
Definition set_border (v : ViewPointSet) (m : gmap (list Z) BorderEntry) : ViewPointSet :=
  MkViews (v_Db v) (v_Utxo v) m (v_Polygon v) (v_Rights v) (v_utxoBest v) (v_borderBest v) (v_polygonBest v) (v_rightsBest v).
Definition set_polygon (v : ViewPointSet) (m : gmap (list Z) PolygonEntry) : ViewPointSet :=
  MkViews (v_Db v) (v_Utxo v) (v_Border v) m (v_Rights v) (v_utxoBest v) (v_borderBest v) (v_polygonBest v) (v_rightsBest v).
Definition set_rights (v : ViewPointSet) (m : gmap (list Z) right_item) : ViewPointSet :=
  MkViews (v_Db v) (v_Utxo v) (v_Border v) (v_Polygon v) m (v_utxoBest v) (v_borderBest v) (v_polygonBest v) (v_rightsBest v).
Definition SetBestHash (v : ViewPointSet) (h : list Z) : ViewPointSet :=
  MkViews (v_Db v) (v_Utxo v) (v_Border v) (v_Polygon v) (v_Rights v) h h h h.
Definition set_borderBest (v : ViewPointSet) (h : list Z) : ViewPointSet :=
  MkViews (v_Db v) (v_Utxo v) (v_Border v) (v_Polygon v) (v_Rights v) (v_utxoBest v) h (v_polygonBest v) (v_rightsBest v).
Definition set_polygonBest (v : ViewPointSet) (h : list Z) : ViewPointSet :=
  MkViews (v_Db v) (v_Utxo v) (v_Border v) (v_Polygon v) (v_Rights v) (v_utxoBest v) (v_borderBest v) h (v_rightsBest v).
Definition set_rightsBest (v : ViewPointSet) (h : list Z) : ViewPointSet :=
  MkViews (v_Db v) (v_Utxo v) (v_Border v) (v_Polygon v) (v_Rights v) (v_utxoBest v) (v_borderBest v) (v_polygonBest v) h.

(** ** Computations on a set of views *)

Definition vm (A : Type) : Type := ViewPointSet -> outcome (A * ViewPointSet).

Global Instance vm_ret : MRet vm := fun A a v => Ok (a, v).
Global Instance vm_bind : MBind vm := fun A B k m v => '(a, v) ← m v; k a v.
Definition vpanic {A} : vm A := fun _ => Panic.
Definition vnofuel {A} : vm A := fun _ => NoFuel.
Definition vlift {A} (o : outcome A) : vm A := fun v => a ← o; Ok (a, v).
Definition vget : vm ViewPointSet := fun v => Ok (v, v).
Definition vmodify (f : ViewPointSet -> ViewPointSet) : vm unit := fun v => Ok ((), f v).

(** A pointer that is nil panics when it is used. *)
Definition vnonnil {A} (o : option A) : vm A := match o with Some a => mret a | None => vpanic end.

(** [for _, x := range l] whose body returns early with [Some]. *)
Fixpoint vfor {A B} (l : list A) (body : A -> vm (option B)) : vm (option B) :=
  match l with
  | [] => mret None
  | x :: l => r ← body x; match r with Some b => mret (Some b) | None => vfor l body end
  end.

Lemma vbind_ok {A B} (m : vm A) (k : A -> vm B) v a v' : m v = Ok (a, v') -> (m ≫= k) v = k a v'.
Proof. intros H. unfold mbind at 1, vm_bind. by rewrite H. Qed.

Lemma vbind_inv {A B} (m : vm A) (k : A -> vm B) v b v' : (m ≫= k) v = Ok (b, v') -> exists a v1, m v = Ok (a, v1) /\ k a v1 = Ok (b, v').
Proof. unfold mbind at 1, vm_bind. intros H. apply bind_ok_inv in H as ([a v1] & H1 & H2). by exists a, v1. Qed.

(** ** Borders *)

(** [h[0] &= 0xFE] on a hash *)
Definition unsigned (h : list Z) : list Z := match h with b :: r => Z.land b 0xFE :: r | [] => [] end.
(** [h[0]&1 == 1] *)
Definition reversed (h : list Z) : bool := match h with b :: _ => bool_decide (Z.land b 1 = 1) | [] => false end.

Definition b_LookupEntry (v : ViewPointSet) (p : list Z) : option BorderEntry := v_Border v !! unsigned p.
Definition put_border (h : list Z) (e : BorderEntry) : vm unit := vmodify (fun v => set_border v (<[h := e]> (v_Border v))).

(** The view is asked for the unsigned hash, the database for the hash as it is. *)
Definition FetchBorderEntry (hash : list Z) : vm (option BorderEntry) := fun v =>
  let h := unsigned hash in
  match b_LookupEntry v h with
  | Some e => Ok (Some e, v)
  | None =>
      r ← DbFetchBorderEntry (borders (v_Db v)) hash;
      match r with inl e => Ok (Some e, set_border v (<[h := e]> (v_Border v))) | inr _ => Ok (None, v) end
  end.

Section Definitions.
Context (HashH : list Z -> list Z).

(** The loop of [addBorder] over the ancestors of the new border [h]; it stops at the first
    whose bounds do not grow. *)
Fixpoint add_to_ancestors (fuel : nat) (h f : list Z) (box : BoundingBox) : vm bool :=
  if IsEqual f zero_hash then mret true
  else
    match fuel with
    | O => vnofuel
    | S fuel =>
        fe ← FetchBorderEntry f;
        match fe with
        | None => _ ← vmodify (fun v => set_border v (delete h (v_Border v))); mret false
        | Some fe =>
            let '(fe, box, c) := mergeBound fe box in
            if bool_decide (be_Children fe = []) || be_newchildren fe then
              let fe := be_set_flags (be_set_children fe (be_Children fe ++ [h]) true) TfModified in
              _ ← put_border (unsigned f) fe;
              if negb c then mret true else add_to_ancestors fuel h (be_Father fe) box
            else
              _ ← put_border (unsigned f) fe;
              _ ← vmodify (fun v => set_border v (delete h (v_Border v)));
              mret false
        end
    end.

Definition addBorder (fuel : nat) (d : definition) : vm bool :=
  match d with
  | DBorder _ f b e =>
      h ← vlift (def_hash HashH d);
      v ← vget;
      match b_LookupEntry v h with
      | Some _ => mret false
      | None =>
          _ ← put_border h (MkBorder f b e [] None false 0 0 TfModified);
          add_to_ancestors fuel h f (NewBound (lng b) (lng e) (lat b) (lat e))
      end
  | _ => mret true
  end.

(** The definitions of a transaction that are not separators, one after the other, until one
    is refused. *)
Fixpoint add_defs (add : definition -> vm bool) (defs : list definition) : vm bool :=
  match defs with
  | [] => mret true
  | d :: defs => if def_IsSeparator d then add_defs add defs else ok ← add d; if ok : bool then add_defs add defs else mret false
  end.

Definition AddBorder (fuel : nat) (tx : MsgTx) : vm bool := add_defs (addBorder fuel) (TxDef tx).

(** [Anciesters]: the hashes of the fathers; a father that is missing panics. *)
Fixpoint Anciesters (fuel : nat) (e : BorderEntry) : vm (list (list Z)) :=
  if IsEqual (be_Father e) zero_hash then mret []
  else
    match fuel with
    | O => vnofuel
    | S fuel => p ← FetchBorderEntry (be_Father e); p ← vnonnil p; l ← Anciesters fuel p; mret (be_Father e :: l)
    end.

(** ** Rights *)

Definition LookupRightEntry (v : ViewPointSet) (p : list Z) : option RightEntry :=
  match v_Rights v !! p with Some (RRight e) => Some e | _ => None end.
Definition LookupRightSetEntry (v : ViewPointSet) (p : list Z) : option RightSetEntry :=
  match v_Rights v !! p with Some (RSet e) => Some e | _ => None end.
Definition put_right (h : list Z) (e : right_item) : vm unit := vmodify (fun v => set_rights v (<[h := e]> (v_Rights v))).

Definition FetchRightEntry (hash : list Z) : vm (option right_item) := fun v =>
  match v_Rights v !! hash with
  | Some e => Ok (Some e, v)
  | None =>
      '(e, _) ← DbFetchRight (rights (v_Db v)) hash;
      match e with Some e => Ok (Some e, set_rights v (<[hash := e]> (v_Rights v))) | None => Ok (None, v) end
  end.

(** The type assertion on a right panics on a set. *)
Definition the_right (r : right_item) : vm RightEntry := match r with RRight e => mret e | RSet _ => vpanic end.

Fixpoint rights_of (hs : list (list Z)) : vm (list RightEntry) :=
  match hs with
  | [] => mret []
  | h :: hs => p ← FetchRightEntry h; match p with Some p => e ← the_right p; es ← rights_of hs; mret (e :: es) | None => rights_of hs end
  end.
Definition SetOfRights (r : option right_item) : vm (list RightEntry) :=
  match r with None => mret [] | Some (RRight e) => mret [e] | Some (RSet s) => rights_of (rs_Rights s) end.

Definition InSet (r : list Z) (s : option (list Z)) : vm bool :=
  match s with
  | None => mret false
  | Some s =>
      p ← FetchRightEntry s;
      match p with
      | None => mret false
      | Some (RRight e) => h ← vlift (def_hash HashH (re_ToToken e)); mret (IsEqual h r)
      | Some (RSet e) => mret (existsb (fun t => IsEqual t r) (rs_Rights e))
      end
  end.

Definition isContract (netid : Z) : bool := bool_decide (Z.land netid 64 = 64).
Definition contractExists (contract : list Z) (v : ViewPointSet) : bool := bool_decide (contract ∈ contracts (v_Db v)).

Definition AddRight (d : definition) : vm bool :=
  match d with
  | DRight _ father desc attrib =>
      h ← vlift (def_hash HashH d);
      v ← vget;
      match LookupRightEntry v h with
      | Some _ => mret true
      | None =>
          if decide (Z.land attrib (Z.lor Monitored Monitor) = Z.lor Monitored Monitor) then mret false
          else if decide (Z.land attrib (Z.lor (Z.lor Monitored Monitor) IsMonitorCall) = IsMonitorCall) then mret false
          else if decide (Z.land attrib (Z.lor Monitor Unsplittable) = Monitor) then mret false
          else if bool_decide (Z.land attrib IsMonitorCall <> 0) &&
                  (bool_decide (len desc < 25) || negb (isContract (default 0 (head desc))) || negb (contractExists (take 20 (drop 1 desc)) v))
          then mret false
          else if IsEqual father zero_hash then
            _ ← put_right h (RRight (MkRight father h 0 desc attrib TfModified)); mret true
          else
            f ← FetchRightEntry father;
            match f with
            | None => mret false
            | Some f =>
                f ← the_right f;
                if decide (Z.land (re_Attrib f) Unsplittable <> 0) then mret false
                else if decide (Z.land (re_Attrib f) Monitor <> 0 /\ Z.land attrib Monitor = 0) then mret false
                else _ ← put_right h (RRight (MkRight father (re_Root f) (i32 (re_Depth f + 1)) desc attrib TfModified)); mret true
            end
      end
  | _ => mret true
  end.

(** The rights of a set are sorted by hashing it. *)
Definition AddRightSet (d : definition) : vm bool :=
  '(h, d) ← vlift (Hash HashH d);
  match d with
  | DRightSet _ rs _ =>
      v ← vget;
      match LookupRightSetEntry v h with
      | Some _ => mret true
      | None => _ ← put_right h (RSet (MkRightSet rs TfModified)); mret true
      end
  | _ => mret true
  end.

Definition add_right_def (d : definition) : vm bool :=
  match d with DRight _ _ _ _ => AddRight d | DRightSet _ _ _ => AddRightSet d | _ => mret true end.
Definition AddRights (tx : MsgTx) : vm bool := add_defs add_right_def (TxDef tx).

Fixpoint hash_rights (es : list RightEntry) : vm (list (list Z)) :=
  match es with [] => mret [] | e :: es => h ← vlift (def_hash HashH (re_ToToken e)); hs ← hash_rights es; mret (h :: hs) end.

(** The list of hashes is collected in a variable that shadows the result. *)
Definition TokenRights (x : UtxoEntry) : vm (list (list Z)) :=
  match ue_Rights x with
  | None => mret []
  | Some rs =>
      if IsEqual rs zero_hash then mret []
      else if decide (Z.land (ue_TokenType x) 2 = 0) then mret []
      else
        t ← FetchRightEntry rs;
        yy ← SetOfRights t;
        _ ← hash_rights yy;
        mret []
  end.

(** The type assertion of the kind of definition panics on the other kind. *)
Definition same_kind (d : definition) (r : right_item) : bool :=
  match d, r with DRight _ _ _ _, RRight _ | DRightSet _ _ _, RSet _ => true | _, _ => false end.
Definition roll_back_right (d : definition) : vm bool :=
  match d with
  | DRight _ _ _ _ | DRightSet _ _ _ =>
      h ← vlift (def_hash HashH d);
      p ← FetchRightEntry h;
      match p with
      | Some p => if same_kind d p then _ ← put_right h (ri_RollBack p); mret true else vpanic
      | None => mret true
      end
  | _ => mret true
  end.

(** ** Polygons *)

Definition FetchPolygonEntry (hash : list Z) : vm (option PolygonEntry) := fun v =>
  match v_Polygon v !! hash with
  | Some e => Ok (Some e, v)
  | None =>
      r ← DbFetchPolygon (polygons (v_Db v)) hash;
      match r with inl e => Ok (Some e, set_polygon v (<[hash := e]> (v_Polygon v))) | inr _ => Ok (None, v) end
  end.

(** [Flattern]: a loop of one hash stands for the loops of that polygon; the result starts
    with an empty loop at every level, and is empty when a polygon is missing. *)
Fixpoint Flattern (fuel : nat) (p : list (list (list Z))) : vm (list (list (list Z))) :=
  match fuel with
  | O => vnofuel
  | S fuel =>
      (fix go (p : list (list (list Z))) (loops : list (list (list Z))) : vm (list (list (list Z))) :=
         match p with
         | [] => mret loops
         | [q] :: p => plg ← FetchPolygonEntry q; match plg with None => mret [] | Some plg => l ← Flattern fuel (pe_Loops plg); go p (loops ++ l) end
         | q :: p => go p (loops ++ [q])
         end) p [[]]
  end.

(** The reference counts of the borders of a list of loops; a border that is missing panics. *)
Fixpoint count_borders (f : BorderEntry -> BorderEntry) (bs : list (list Z)) : vm unit :=
  match bs with
  | [] => mret ()
  | b :: bs => fb ← FetchBorderEntry (unsigned b); fb ← vnonnil fb; _ ← put_border (unsigned b) (f fb); count_borders f bs
  end.
Definition pe_deReference (fuel : nat) (e : PolygonEntry) : vm unit := loops ← Flattern fuel (pe_Loops e); count_borders be_deReference (concat loops).
Definition pe_reference (fuel : nat) (e : PolygonEntry) : vm unit := loops ← Flattern fuel (pe_Loops e); count_borders be_reference (concat loops).

Definition roll_back_border (d : definition) : vm bool :=
  match d with
  | DBorder _ _ _ _ =>
      h ← vlift (def_hash HashH d);
      p ← FetchBorderEntry h;
      match p with Some p => _ ← put_border (unsigned h) (be_RollBack p); mret true | None => mret true end
  | _ => mret true
  end.
Definition roll_back_polygon (d : definition) : vm bool :=
  match d with
  | DPolygon _ _ =>
      h ← vlift (def_hash HashH d);
      p ← FetchPolygonEntry h;
      match p with Some p => _ ← vmodify (fun v => set_polygon v (<[h := pe_RollBack p]> (v_Polygon v))); mret true | None => mret true end
  | _ => mret true
  end.

(** The definitions of all the transactions of a block. *)
Fixpoint each_def (f : definition -> vm bool) (txs : list MsgTx) : vm unit :=
  match txs with [] => mret () | tx :: txs => _ ← add_defs f (TxDef tx); each_def f txs end.
Definition disconnectRightTransactions (txs : list MsgTx) (prevBlock : list Z) : vm unit :=
  _ ← each_def roll_back_right txs; vmodify (fun v => set_rightsBest v prevBlock).
Definition disconnectBorderTransactions (txs : list MsgTx) (prevBlock : list Z) : vm unit :=
  _ ← each_def roll_back_border txs; vmodify (fun v => set_borderBest v prevBlock).
Definition disconnectPolygonTransactions (txs : list MsgTx) (prevBlock : list Z) : vm unit :=
  _ ← each_def roll_back_polygon txs; vmodify (fun v => set_polygonBest v prevBlock).
End Definitions.

(** ** After the database has been written *)

Definition border_commit (e : BorderEntry) : option BorderEntry :=
  if flag_on (be_PackedFlags e) TfSpent then None else Some (be_set_flags e (Z.ldiff (be_PackedFlags e) TfModified)).
Definition polygon_commit (e : PolygonEntry) : option PolygonEntry :=
  if flag_on (pe_PackedFlags e) TfSpent then None else Some (pe_set_flags e (Z.ldiff (pe_PackedFlags e) TfModified)).
Definition right_commit (e : right_item) : option right_item :=
  if flag_on (ri_flags e) TfSpent then None else Some (ri_set_flags e (Z.ldiff (ri_flags e) TfModified)).
Definition utxo_commit (e : option UtxoEntry) : option (option UtxoEntry) :=
  match e with
  | None => None
  | Some e => if ue_isModified e && ue_IsSpent e then None else Some (Some (ue_set_flags e (Z.ldiff (ue_packedFlags e) TfModified)))
  end.

Definition Commit (v : ViewPointSet) : ViewPointSet :=
  MkViews (v_Db v) (omap utxo_commit (v_Utxo v)) (omap border_commit (v_Border v)) (omap polygon_commit (v_Polygon v)) (omap right_commit (v_Rights v))
    (v_utxoBest v) (v_borderBest v) (v_polygonBest v) (v_rightsBest v).
