(* ===== verification/ViewFrame.v ===== *)
(** * What loading entries leaves unchanged

    A view is a cache over the database: which definition a hash stands for does not change
    when entries are loaded.  [polygon_at], [right_at] and [border_at] are the definitions a
    set of views stands for; [cached] relates two sets of views that stand for the same
    definitions and have the same outputs, [moved] also lets the counts of references of
    borders change by given amounts. *)
From Stdlib Require Import ZArith Lia.
From stdpp Require Import gmap list.
From S2P Require Import Prelude Wire Token MsgTx ViewDb UtxoEntry BorderEntry DefEntry ViewSet.

Open Scope Z_scope.

Definition polygon_at (v : ViewPointSet) (h : list Z) : outcome (option PolygonEntry) :=
  match v_Polygon v !! h with
  | Some e => Ok (Some e)
  | None => r ← DbFetchPolygon (polygons (v_Db v)) h; Ok (match r with inl e => Some e | inr _ => None end)
  end.
Definition right_at (v : ViewPointSet) (h : list Z) : outcome (option right_item) :=
  match v_Rights v !! h with Some e => Ok (Some e) | None => '(e, _) ← DbFetchRight (rights (v_Db v)) h; Ok e end.

(** Borders are known by their unsigned hashes. *)
Definition border_at (v : ViewPointSet) (h : list Z) : outcome (option BorderEntry) :=
  match v_Border v !! h with
  | Some e => Ok (Some e)
  | None => r ← DbFetchBorderEntry (borders (v_Db v)) h; Ok (match r with inl e => Some e | inr _ => None end)
  end.

Lemma land_fe_idem b : Z.land (Z.land b 0xFE) 0xFE = Z.land b 0xFE.
Proof. by rewrite <- Z.land_assoc. Qed.

Lemma unsigned_idem h : unsigned (unsigned h) = unsigned h.
Proof. destruct h as [|b h]; [done|]. cbn [unsigned]. by rewrite land_fe_idem. Qed.

(** ** The relation of loading *)

Record cached (v v' : ViewPointSet) : Prop := MkCached {
  ca_db : v_Db v' = v_Db v;
  ca_utxo : v_Utxo v' = v_Utxo v;
  ca_polygon : forall h, polygon_at v' h = polygon_at v h;
  ca_right : forall h, right_at v' h = right_at v h;
  ca_border : forall h, unsigned h = h -> border_at v' h = border_at v h;
  ca_loaded : v_Polygon v ⊆ v_Polygon v';
}.

Global Instance cached_preorder : PreOrder cached.
Proof.
  split; [intros v; by constructor|]. intros v1 v2 v3 [A1 A2 A3 A4 A5 A6] [B1 B2 B3 B4 B5 B6].
  constructor; intros; rewrite ?B1, ?B2, ?B3, ?B4, ?B5 by done; auto. by transitivity (v_Polygon v2).
Qed.

Lemma fetch_polygon v h o : polygon_at v h = Ok o -> exists v', FetchPolygonEntry h v = Ok (o, v') /\ cached v v'.
Proof.
  unfold polygon_at, FetchPolygonEntry. destruct (v_Polygon v !! h) as [e|] eqn:E.
  - intros H. injection H as <-. exists v. by split.
  - intros H. apply bind_ok_inv in H as ([e|err] & Hr & Ho); injection Ho as <-; rewrite Hr, outcome_bind_ok; eexists; (split; [reflexivity|]); [|done].
    constructor; try done; [|cbn; by apply insert_subseteq]. intros h'. unfold polygon_at. cbn [v_Polygon v_Db set_polygon].
    destruct (decide (h' = h)) as [->|Hn]; [by rewrite lookup_insert_eq, E, Hr|by rewrite lookup_insert_ne].
Qed.

Lemma fetch_right v h o : right_at v h = Ok o -> exists v', FetchRightEntry h v = Ok (o, v') /\ cached v v'.
Proof.
  unfold right_at, FetchRightEntry. destruct (v_Rights v !! h) as [e|] eqn:E.
  - intros H. injection H as <-. exists v. by split.
  - intros H. apply bind_ok_inv in H as ([e err] & Hr & Ho). injection Ho as <-. rewrite Hr, outcome_bind_ok. destruct e as [e|]; eexists; (split; [reflexivity|]); [|done].
    constructor; try done. intros h'. unfold right_at. cbn [v_Rights v_Db set_rights].
    destruct (decide (h' = h)) as [->|Hn]; [by rewrite lookup_insert_eq, E, Hr|by rewrite lookup_insert_ne].
Qed.

Lemma fetch_border v h o : unsigned h = h -> border_at v h = Ok o -> exists v', FetchBorderEntry h v = Ok (o, v') /\ cached v v'.
Proof.
  intros Hu. unfold border_at, FetchBorderEntry, b_LookupEntry. rewrite !Hu. destruct (v_Border v !! h) as [e|] eqn:E.
  - intros H. injection H as <-. exists v. by split.
  - intros H. apply bind_ok_inv in H as ([e|err] & Hr & Ho); injection Ho as <-; rewrite Hr, outcome_bind_ok; eexists; (split; [reflexivity|]); [|done].
    constructor; try done. intros h' Hu'. unfold border_at. cbn [v_Border v_Db set_border].
    destruct (decide (h' = h)) as [->|Hn]; [by rewrite lookup_insert_eq, E, Hr|by rewrite lookup_insert_ne].
Qed.

(** A signed hash of a border that is not in the view is not found, even when the database
    has the border under its unsigned hash. *)
Lemma signed_border_missed v h : v_Border v !! unsigned h = None -> b_Get (borders (v_Db v)) h = None -> FetchBorderEntry h v = Ok (None, v).
Proof. intros H1 H2. unfold FetchBorderEntry, b_LookupEntry, DbFetchBorderEntry. by rewrite unsigned_idem, H1, H2. Qed.

(** What a fetch gives is what the hash stands for. *)
Lemma fetch_polygon_inv v h o v' : FetchPolygonEntry h v = Ok (o, v') -> polygon_at v h = Ok o /\ cached v v'.
Proof.
  intros H. destruct (polygon_at v h) as [o'| |] eqn:E.
  - destruct (fetch_polygon v h o' E) as (v1 & H1 & Hc). rewrite H1 in H. by injection H as <- <-.
  - unfold polygon_at, FetchPolygonEntry in *. destruct (v_Polygon v !! h); [done|]. by destruct (DbFetchPolygon _ _) as [[]| |].
  - unfold polygon_at, FetchPolygonEntry in *. destruct (v_Polygon v !! h); [done|]. by destruct (DbFetchPolygon _ _) as [[]| |].
Qed.

Lemma fetch_right_inv v h o v' : FetchRightEntry h v = Ok (o, v') -> right_at v h = Ok o /\ cached v v'.
Proof.
  intros H. destruct (right_at v h) as [o'| |] eqn:E.
  - destruct (fetch_right v h o' E) as (v1 & H1 & Hc). rewrite H1 in H. by injection H as <- <-.
  - unfold right_at, FetchRightEntry in *. destruct (v_Rights v !! h); [done|]. by destruct (DbFetchRight _ _) as [[[] ?]| |].
  - unfold right_at, FetchRightEntry in *. destruct (v_Rights v !! h); [done|]. by destruct (DbFetchRight _ _) as [[[] ?]| |].
Qed.

(** ** Counting references *)

(** The same border, with [n] more references pending. *)
Definition shifted (n : Z) (e e' : BorderEntry) : Prop :=
  e' = be_set_counts e (be_RefCnt e) (be_refChg e') /\ i32 (be_refChg e') = i32 (be_refChg e + n).

Lemma shifted_refl e : shifted 0 e e.
Proof. split; [by destruct e|by rewrite Z.add_0_r]. Qed.

Lemma shifted_trans n m e1 e2 e3 : shifted n e1 e2 -> shifted m e2 e3 -> shifted (n + m) e1 e3.
Proof.
  intros [E1 H1] [E2 H2]. split; [destruct e1, e2, e3; unfold be_set_counts in *; simpl in *; congruence|].
  rewrite H2, <- swrap_add_l, H1, swrap_add_l by lia. f_equal. lia.
Qed.

Lemma shifted_same e e' : shifted 0 e e' -> sint_range 32 (be_refChg e) -> sint_range 32 (be_refChg e') -> e' = e.
Proof. intros [E H] R R'. rewrite Z.add_0_r, !swrap_id in H by (done || lia). rewrite E, H. by destruct e. Qed.

Definition oshifted (n : Z) (o o' : outcome (option BorderEntry)) : Prop :=
  match o, o' with Ok (Some e), Ok (Some e') => shifted n e e' | Ok (Some _), _ | _, Ok (Some _) => False | _, _ => o' = o end.

Lemma oshifted_refl o : oshifted 0 o o.
Proof. destruct o as [[e|]| |]; try done. apply shifted_refl. Qed.
Lemma oshifted_trans n m o1 o2 o3 : oshifted n o1 o2 -> oshifted m o2 o3 -> oshifted (n + m) o1 o3.
Proof.
  destruct o1 as [[e1|]| |], o2 as [[e2|]| |], o3 as [[e3|]| |]; simpl; try done; try congruence. apply shifted_trans.
Qed.

(** The pending references of borders change by [d]; the definitions are as they were.  The
    outputs may change. *)
Record moved (d : list Z -> Z) (v v' : ViewPointSet) : Prop := MkMoved {
  mv_db : v_Db v' = v_Db v;
  mv_polygon : forall h, polygon_at v' h = polygon_at v h;
  mv_right : forall h, right_at v' h = right_at v h;
  mv_border : forall h, unsigned h = h -> oshifted (d h) (border_at v h) (border_at v' h);
  mv_loaded : v_Polygon v ⊆ v_Polygon v';
}.

Lemma moved_trans d1 d2 v1 v2 v3 : moved d1 v1 v2 -> moved d2 v2 v3 -> moved (fun h => d1 h + d2 h) v1 v3.
Proof.
  intros [A1 A2 A3 A4 A5] [B1 B2 B3 B4 B5]. constructor; intros; rewrite ?B1, ?B2, ?B3; auto.
  - eapply oshifted_trans; eauto.
  - by transitivity (v_Polygon v2).
Qed.

Lemma cached_moved v v' : cached v v' -> moved (fun _ => 0) v v'.
Proof. intros [A1 _ A3 A4 A5 A6]. constructor; auto. intros h Hu. rewrite A5 by done. apply oshifted_refl. Qed.

Lemma moved_ext d d' v v' : (forall h, d h = d' h) -> moved d v v' -> moved d' v v'.
Proof. intros E [A1 A2 A3 A4 A5]. constructor; auto. intros h Hu. rewrite <- E. auto. Qed.

Lemma set_utxo_moved v m : moved (fun _ => 0) v (set_utxo v m).
Proof. constructor; try done. intros h _. apply oshifted_refl. Qed.

(** How often a border occurs. *)
Definition occurs (bs : list (list Z)) (h : list Z) : Z := len (filter (fun b => unsigned b = h) bs).

Lemma put_border_moved v h e e' n : unsigned h = h -> border_at v h = Ok (Some e) -> shifted n e e' ->
  exists v', put_border h e' v = Ok ((), v') /\ v_Utxo v' = v_Utxo v /\ moved (fun h' => if decide (h' = h) then n else 0) v v'.
Proof.
  intros Hu He Hs. eexists. split; [reflexivity|]. split; [done|]. constructor; try done. intros h' Hu'.
  unfold border_at at 2. cbn [v_Border v_Db set_border]. case_decide as Hd.
  - subst h'. by rewrite lookup_insert_eq, He.
  - rewrite lookup_insert_ne by done. apply oshifted_refl.
Qed.

(** The borders of a list are all known. *)
Definition known_borders (v : ViewPointSet) (bs : list (list Z)) : Prop :=
  Forall (fun b => exists e, border_at v (unsigned b) = Ok (Some e)) bs.

Lemma moved_known d v v' bs : moved d v v' -> known_borders v bs -> known_borders v' bs.
Proof.
  intros Hm Hk. eapply Forall_impl; [exact Hk|]. intros b (e & He). pose proof (mv_border _ _ _ Hm (unsigned b) (unsigned_idem b)) as H. rewrite He in H.
  simpl in H. destruct (border_at v' (unsigned b)) as [[e'|]| |]; try done. by exists e'.
Qed.

Lemma count_borders_moved f s bs : (forall e, shifted s e (f e)) -> forall v, known_borders v bs ->
  exists v', count_borders f bs v = Ok ((), v') /\ v_Utxo v' = v_Utxo v /\ moved (fun h => s * occurs bs h) v v'.
Proof.
  intros Hf. induction bs as [|b bs IH]; intros v Hk.
  - exists v. split; [done|]. split; [done|]. apply (moved_ext (fun _ => 0)); [intros; unfold occurs; simpl; lia|]. by apply cached_moved.
  - apply Forall_cons in Hk as [(e & He) Hk]. cbn [count_borders].
    destruct (fetch_border v (unsigned b) (Some e) (unsigned_idem b) He) as (v1 & F1 & C1). rewrite (vbind_ok _ _ _ _ _ F1).
    cbn [vnonnil]. rewrite (vbind_ok _ _ _ e v1 eq_refl).
    destruct (put_border_moved v1 (unsigned b) e (f e) s (unsigned_idem b)) as (v2 & F2 & U2 & M2).
    { by rewrite (ca_border _ _ C1) by apply unsigned_idem. } { apply Hf. }
    rewrite (vbind_ok _ _ _ _ _ F2).
    destruct (IH v2) as (v3 & F3 & U3 & M3).
    { eapply moved_known; [exact M2|]. eapply moved_known; [by apply cached_moved|done]. }
    exists v3. split; [done|]. split; [rewrite U3, U2; apply (ca_utxo _ _ C1)|].
    eapply moved_ext; [|eapply moved_trans; [by apply cached_moved|eapply moved_trans; [exact M2|exact M3]]].
    intros h. cbv beta. unfold occurs. rewrite filter_cons. case_decide as H1; case_decide as H2; simpl length; try congruence; lia.
Qed.

Lemma deReference_shifted e : shifted (-1) e (be_deReference e).
Proof. split; [by destruct e|]. unfold be_deReference. simpl. by rewrite (swrap_id 32 (i32 _)) by (lia || by apply swrap_range). Qed.
Lemma reference_shifted e : shifted 1 e (be_reference e).
Proof. split; [by destruct e|]. unfold be_reference. simpl. by rewrite (swrap_id 32 (i32 _)) by (lia || by apply swrap_range). Qed.

(** ** Flattening *)

(** The flat loops of a polygon, as a function of the polygons that hashes stand for. *)
Fixpoint flat (fuel : nat) (at_ : list Z -> outcome (option PolygonEntry)) (p : list (list (list Z))) : outcome (list (list (list Z))) :=
  match fuel with
  | O => NoFuel
  | S fuel =>
      (fix go (p : list (list (list Z))) (loops : list (list (list Z))) : outcome (list (list (list Z))) :=
         match p with
         | [] => Ok loops
         | [q] :: p => plg ← at_ q; match plg with None => Ok [] | Some plg => l ← flat fuel at_ (pe_Loops plg); go p (loops ++ l) end
         | q :: p => go p (loops ++ [q])
         end) p [[]]
  end.

Lemma flat_ext fuel : forall at1 at2 p, (forall h, at1 h = at2 h) -> flat fuel at1 p = flat fuel at2 p.
Proof.
  induction fuel as [|fuel IH]; intros at1 at2 p E; [done|]. cbn [flat]. generalize ([[]] : list (list (list Z))) as loops.
  induction p as [|q p IHp]; intros loops; [done|]. destruct q as [|q [|q' qs]]; [apply IHp| |apply IHp].
  rewrite E. destruct (at2 q) as [[plg|]| |]; try done. rewrite !outcome_bind_ok. rewrite (IH at1 at2) by done.
  destruct (flat fuel at2 (pe_Loops plg)) as [l| |]; try done. rewrite !outcome_bind_ok. apply IHp.
Qed.

Lemma Flattern_flat fuel : forall p v,
  match flat fuel (polygon_at v) p with
  | Ok l => exists v', Flattern fuel p v = Ok (l, v') /\ cached v v'
  | Panic => Flattern fuel p v = Panic
  | NoFuel => Flattern fuel p v = NoFuel
  end.
Proof.
  induction fuel as [|fuel IH]; intros p v; [done|]. cbn [flat Flattern]. generalize ([[]] : list (list (list Z))) as loops. revert v.
  induction p as [|q p IHp]; intros v loops; [by exists v|]. destruct q as [|q [|q' qs]]; [apply IHp| |apply IHp].
  destruct (polygon_at v q) as [o| |] eqn:E.
  - destruct (fetch_polygon v q o E) as (v1 & F1 & C1). rewrite outcome_bind_ok, (vbind_ok _ _ _ _ _ F1).
    destruct o as [plg|]; [|by exists v1].
    specialize (IH (pe_Loops plg) v1). rewrite (flat_ext _ _ (polygon_at v)) in IH by apply (ca_polygon _ _ C1).
    destruct (flat fuel (polygon_at v) (pe_Loops plg)) as [l| |].
    + destruct IH as (v2 & F2 & C2). rewrite outcome_bind_ok, (vbind_ok _ _ _ _ _ F2). specialize (IHp v2 (loops ++ l)).
      match type of IHp with match ?x with _ => _ end => match goal with |- match ?y with _ => _ end => assert (x = y) as Ex end end.
      { clear -C1 C2. assert (forall h, polygon_at v2 h = polygon_at v h) as E by (intros h; rewrite (ca_polygon _ _ C2); apply (ca_polygon _ _ C1)).
        generalize (loops ++ l) as ls. induction p as [|q p IHp]; intros ls; [done|]. destruct q as [|q [|q' qs]]; [apply IHp| |apply IHp].
        rewrite E. destruct (polygon_at v q) as [[plg|]| |]; try done. rewrite !outcome_bind_ok, (flat_ext fuel _ (polygon_at v)) by done.
        destruct (flat fuel (polygon_at v) (pe_Loops plg)) as [l'| |]; try done. rewrite !outcome_bind_ok. apply IHp. }
      rewrite <- Ex. match type of IHp with match ?x with _ => _ end => destruct x end; try done.
      destruct IHp as (v3 & F3 & C3). exists v3. split; [done|]. by do 2 (etransitivity; [eassumption|]).
    + unfold mbind, outcome_bind, vm_bind. by rewrite IH.
    + unfold mbind, outcome_bind, vm_bind. by rewrite IH.
  - unfold mbind, outcome_bind, vm_bind. unfold polygon_at, FetchPolygonEntry in *. destruct (v_Polygon v !! q); [done|]. by destruct (DbFetchPolygon _ _) as [[]| |].
  - unfold mbind, outcome_bind, vm_bind. unfold polygon_at, FetchPolygonEntry in *. destruct (v_Polygon v !! q); [done|]. by destruct (DbFetchPolygon _ _) as [[]| |].
Qed.
