(* ===== verification/PolygonGeom.v ===== *)
(** * Polygons: loops, orientation and intersection

    Models the geometry of omega/viewpoint/polygon.go: the loops of borders a polygon is
    made of, their expansion to edges without children, orientation, bounds, the tests for
    intersection and inclusion that validation uses, and the adding of polygons to a view.

    A pointer to a border entry is kept as the key of the entry in the view, so that what
    is read through it is its current value.  The recursion follows the children of
    borders and the polygons that loops stand for; [fuel] bounds its depth. *)
From Stdlib Require Import ZArith Lia.
From stdpp Require Import gmap list.
From S2P Require Import Prelude Wire Token MsgTx ViewDb UtxoEntry BorderEntry DefEntry ViewSet ViewFrame.

Open Scope Z_scope.

Abbreviation loop := (list (list Z)).
Definition PolyGonType : Z := 3.

Global Instance VertexDef_countable : Countable VertexDef.
Proof. refine (inj_countable' (fun v => (lat v, lng v, alt v)) (fun p => MkVertex p.1.1 p.1.2 p.2) _). by intros []. Defined.

(** The entry behind a hash; nil panics when it is used. *)
Definition border_of (h : list Z) : vm BorderEntry := e ← FetchBorderEntry h; vnonnil e.
Definition polygon_of (h : list Z) : vm PolygonEntry := e ← FetchPolygonEntry h; vnonnil e.

(** ** Loops *)

(** Begin and end in the direction of the hash. *)
Definition directed (h : list Z) (d : BorderEntry) : VertexDef * VertexDef :=
  if reversed h then (be_End d, be_Begin d) else (be_Begin d, be_End d).

Fixpoint chain_closes (lp : loop) (seen : gset VertexDef) (be0 be : option VertexDef) : vm bool :=
  match lp with
  | [] => match be0, be with Some b0, Some b => mret (vertex_IsEqual b0 b) | _, _ => vpanic end
  | b :: lp =>
      d ← FetchBorderEntry b;
      match d with
      | None => mret false
      | Some d =>
          let '(pb, pe) := directed b d in
          if match be with Some be => negb (vertex_IsEqual be pb) | None => false end then mret false
          else if decide (pb ∈ seen) then mret false
          else chain_closes lp ({[pb]} ∪ seen) (Some (default pb be0)) (Some pe)
      end
  end.
Definition IsLoop (lp : loop) : vm bool := if decide (length lp = 1%nat) then mret false else chain_closes lp ∅ None None.

Record DirectedBorder := MkDirected { db_border : BorderEntry; db_rev : Z }.

(** The edges of a loop without children and their bounds; nothing when a border is missing.
    The children of a reversed border come in the reverse order, with the direction they
    have in their father. *)
Fixpoint ExpandLoop (fuel : nat) (cl : loop) : vm (option (list DirectedBorder) * BoundingBox) :=
  match fuel with
  | O => vnofuel
  | S fuel =>
      (fix go (cl : loop) (bs : list DirectedBorder) (box : BoundingBox) : vm (option (list DirectedBorder) * BoundingBox) :=
         match cl with
         | [] => mret (Some bs, box)
         | l :: cl =>
             b0 ← FetchBorderEntry l;
             match b0 with
             | None => mret (None, box)
             | Some b0 =>
                 if decide (be_Children b0 = []) then
                   go cl (bs ++ [MkDirected b0 (if reversed l then 1 else 0)]) (box_Merge box (GetBound b0)).1
                 else
                   '(t, bx) ← ExpandLoop fuel (be_Children b0);
                   match t with
                   | None => mret (None, box)
                   | Some t => go cl (bs ++ if reversed l then reverse t else t) (box_Merge box bx).1
                   end
             end
         end) cl [] box_Reset
  end.

Definition edge_vector (f : DirectedBorder) : Z * Z :=
  let x := i32 (lng (be_End (db_border f)) - lng (be_Begin (db_border f))) in
  let y := i32 (lat (be_End (db_border f)) - lat (be_Begin (db_border f))) in
  if decide (db_rev f <> 0) then (- x, - y) else (x, y).
Fixpoint turn_sum (bs : list DirectedBorder) (e : Z * Z) (sum : Z) : Z :=
  match bs with
  | [] => sum
  | f :: bs => let v := edge_vector f in turn_sum bs v (sum + i64 (i64 (e.1 * v.2) - i64 (e.2 * v.1)))
  end.
Definition LoopCCW (fuel : nat) (cl : loop) : vm (bool * BoundingBox) :=
  '(bs, box) ← ExpandLoop fuel cl;
  match bs ≫= last with
  | None => vpanic
  | Some l => mret (bool_decide (0 < turn_sum (default [] bs) (edge_vector l) 0), box)
  end.

Fixpoint loop_bound (c : loop) (bx : BoundingBox) : vm BoundingBox :=
  match c with [] => mret bx | p :: c => fe ← border_of p; loop_bound c (box_Merge bx (GetBound fe)).1 end.
Definition LoopBound (c : loop) : vm BoundingBox :=
  match c with [h] => p ← polygon_of h; mret (pe_Bound p) | _ => loop_bound c box_Reset end.

Definition ReorderChildren (c : loop) (rev : bool) : loop :=
  if rev then (fun h => match h with b :: r => Z.lor b 1 :: r | [] => [] end) <$> reverse c else c.

(** ** Adding polygons *)

Section Adding.
Context (HashH : list Z -> list Z) (fuel : nat).

Fixpoint max_depth (loops : list loop) (mx : Z) : vm Z :=
  match loops with
  | [] => mret mx
  | [h] :: loops => r ← polygon_of h; max_depth loops (if decide (mx < pe_Depth r) then pe_Depth r else mx)
  | _ :: loops => max_depth loops mx
  end.

Definition addPolygon (d : definition) (ccw : bool) (bx : BoundingBox) : vm bool :=
  match d with
  | DPolygon _ loops =>
      h ← vlift (def_hash HashH d);
      v ← vget;
      match v_Polygon v !! h with
      | Some _ => mret false
      | None =>
          mx ← max_depth loops 0;
          if decide (100 <= mx) then mret false
          else _ ← vmodify (fun v => set_polygon v (<[h := MkPolygon loops bx (negb ccw) (u8 (mx + 1)) TfModified]> (v_Polygon v))); mret true
      end
  | _ => mret true
  end.

(** The bounds of a loop of borders, added to what there is. *)
Fixpoint info_bound (l : loop) (bx : option BoundingBox) : vm (option BoundingBox) :=
  match l with
  | [] => mret bx
  | b :: l =>
      d ← border_of b;
      info_bound l (Some match bx with
        | None => GetBound d
        | Some bx => match be_Bound d with
            | Some bd => (box_Merge bx bd).1
            | None => (box_Merge bx (NewBound (lng (be_Begin d)) (lng (be_End d)) (lat (be_Begin d)) (lat (be_End d)))).1
            end
        end)
  end.
(** [first] is the orientation of the first loop, once it is known. *)
Fixpoint polygon_info (loops : list loop) (bx : option BoundingBox) (first : option bool) : vm (bool * BoundingBox) :=
  match loops with
  | [] => bx ← vnonnil bx; mret (default true first, bx)
  | [h] :: loops =>
      d ← polygon_of h;
      polygon_info loops (Some match bx with None => pe_Bound d | Some bx => (box_Merge bx (pe_Bound d)).1 end) (Some (default (negb (pe_FirstCW d)) first))
  | l :: loops =>
      bx ← info_bound l bx;
      first ← match first with Some f => mret f | None => '(f, _) ← LoopCCW fuel l; mret f end;
      polygon_info loops bx (Some first)
  end.
Definition PolygonInfo (loops : list loop) : vm (bool * BoundingBox) := polygon_info loops None None.

(** Whether an output of the transaction is the polygon [th]. *)
Fixpoint paid_out (th : list Z) (outs : list TxOut) : outcome bool :=
  match outs with
  | [] => Ok false
  | out :: outs =>
      if out_IsSeparator out then paid_out th outs
      else if decide (TokenType (to_Token out) = PolyGonType) then
        h ← hash_value (Value (to_Token out)); if IsEqual h th then Ok true else paid_out th outs
      else paid_out th outs
  end.
Definition add_polygon_def (tx : MsgTx) (d : definition) : vm bool :=
  match d with
  | DPolygon _ loops =>
      th ← vlift (def_hash HashH d);
      ccw ← vlift (paid_out th (TxOuts tx));
      '(rcw, bx) ← PolygonInfo loops;
      if bool_decide (rcw = ccw) then addPolygon d ccw bx else mret false
  | _ => mret true
  end.
Definition AddPolygon (tx : MsgTx) : vm bool := add_defs (add_polygon_def tx) (TxDef tx).
End Adding.

(** ** Intersection *)

(** [Between]: whether [p] is in the angle that the border [e1] and then [e2] make; [e1] is
    the key of its entry, or nothing when it is still to be fetched by [pb]. *)
Fixpoint first_child (fuel : nat) (rev : bool) (e1 : BorderEntry) : vm BorderEntry :=
  match (if rev then last (be_Children e1) else head (be_Children e1)) with
  | None => mret e1
  | Some lq => match fuel with O => vnofuel | S fuel => e ← border_of lq; first_child fuel rev e end
  end.
Definition Between (fuel : nat) (pb : list Z) (e1 : option (list Z)) (e2 : BorderEntry) (p : VertexDef) (rev1 cw : bool) : vm bool :=
  e1 ← border_of (default pb e1);
  e1 ← first_child fuel rev1 e1;
  let '(a, b) := if rev1 then (be_End e1, be_Begin e1) else (be_Begin e1, be_End e1) in
  let c := if vertex_IsEqual (be_End e2) b then be_Begin e2 else be_End e2 in
  let '(a, c) := if cw then (c, a) else (a, c) in
  let d1 := cross (lat b - lat a) (lng c - lng b) (lng b - lng a) (lat c - lat b) in
  let d2 := cross (lat b - lat a) (lng p - lng b) (lng b - lng a) (lat p - lat b) in
  let d3 := cross (lat b - lat p) (lng c - lng b) (lng b - lng p) (lat c - lat b) in
  mret (if decide (d2 = 0 \/ d3 = 0) then false
        else if decide (0 <= d1) then bool_decide (0 < d2) && bool_decide (0 < d3)
        else negb (bool_decide (d2 < 0) && bool_decide (d3 < 0))).

Section Crossing.
Context (HashH : list Z -> list Z).

(** The test of two borders without children: whether they intersect, whether the point
    where they touch splits the second, or neither. *)
Inductive touch := Apart | Crossed | Split (ep : VertexDef).

Definition leaf_test (fuel : nat) (same : bool) (pb : list Z) (pfe : option (list Z)) (fe1 fe2 : BorderEntry) (rev1 cw1 : bool) : vm touch :=
  let sh00 := vertex_IsEqual (be_Begin fe1) (be_Begin fe2) in
  let sh01 := vertex_IsEqual (be_Begin fe1) (be_End fe2) in
  let sh10 := vertex_IsEqual (be_End fe1) (be_Begin fe2) in
  let sh11 := vertex_IsEqual (be_End fe1) (be_End fe2) in
  if (sh00 || sh01) && (sh10 || sh11) then mret Apart
  else
    let check := sh00 || sh01 || sh10 || sh11 in
    if decide (i64 (i32 (lat (be_End fe1) - lat (be_Begin fe1)) * i32 (lng (be_End fe2) - lng (be_Begin fe2))) =
               i64 (i32 (lng (be_End fe1) - lng (be_Begin fe1)) * i32 (lat (be_End fe2) - lat (be_Begin fe2)))) then mret Apart
    else if negb same && check then
      if (sh00 && negb rev1) || (sh10 && rev1) then r ← Between fuel pb pfe fe1 (be_End fe2) rev1 cw1; mret (if r : bool then Crossed else Apart)
      else if (sh01 && negb rev1) || (sh11 && rev1) then r ← Between fuel pb pfe fe1 (be_Begin fe2) rev1 cw1; mret (if r : bool then Crossed else Apart)
      else mret Apart
    else if negb check then
      let ep := if rev1 then be_End fe1 else be_Begin fe1 in
      if OnEdge fe2 ep then mret (Split ep) else mret (if be_Intersects fe1 fe2 then Crossed else Apart)
    else mret Apart.

(** The two borders without children that replace a border split at [ep], for the time of
    a test. *)
Definition split_border (fuel : nat) (lp : list Z) (ep : VertexDef) : vm (list Z * list Z) :=
  fe2 ← border_of lp;
  let ne1 := DBorder None lp (be_Begin fe2) ep in
  let ne2 := DBorder None lp ep (be_End fe2) in
  _ ← addBorder HashH fuel ne1;
  _ ← addBorder HashH fuel ne2;
  h1 ← vlift (def_hash HashH ne1);
  h2 ← vlift (def_hash HashH ne2);
  mret (h1, h2).
Definition unsplit_border (lp h1 h2 : list Z) : vm unit :=
  fe2 ← border_of lp;
  _ ← put_border (unsigned lp) (be_set_children fe2 [] (be_newchildren fe2));
  vmodify (fun v => set_border v (delete h2 (delete h1 (v_Border v)))).

(** Whether an edge of [c1] intersects one of [c2]; [same] says that they are one loop.  The
    loop over [c2] is [outer], the one over the first borders of [c1] is [inner], which gives
    the result when it is known.  The entry that [BorderIntersects] gives back is always nil:
    what the loops assign shadows it. *)
Fixpoint BorderIntersects (fuel : nat) (same : bool) (c1 c2 : loop) (pb1 : BoundingBox) (pb0 : option (list Z)) (pfe0 : option (list Z)) (cw1 : bool) {struct fuel} : vm bool :=
  match fuel with
  | O => vnofuel
  | S fuel =>
      let inner := (fix inner (c : loop) (lp : list Z) (box1 : BoundingBox) (pb0 pb : list Z) (pfe : option (list Z)) {struct c} : vm (option bool) :=
        match c with
        | [] => mret None
        | lq :: c =>
            fe1 ← border_of lq;
            fe2 ← border_of lp;
            let box2 := GetBound fe1 in
            let rev1 := reversed lq in
            let rev2 := reversed lp in
            if negb (box_Intersects box1 box2 true) then inner c lp box1 pb0 lq (Some (unsigned lq))
            else if decide (be_Children fe1 <> [] \/ be_Children fe2 <> []) then
              let d1 := if decide (be_Children fe1 = []) then [lq] else ReorderChildren (be_Children fe1) rev1 in
              let d2 := if decide (be_Children fe2 = []) then [lp] else ReorderChildren (be_Children fe2) rev2 in
              tb ← BorderIntersects fuel false d1 d2 box1 (Some pb) pfe cw1;
              if tb : bool then mret (Some true) else inner c lp box1 pb0 lq None
            else
              t ← leaf_test fuel same pb pfe fe1 fe2 rev1 cw1;
              match t with
              | Crossed => mret (Some true)
              | Apart => inner c lp box1 pb0 lq (Some (unsigned lq))
              | Split ep =>
                  '(h1, h2) ← split_border fuel lp ep;
                  r ← BorderIntersects fuel same c1 c2 pb1 (Some pb0) pfe0 cw1;
                  _ ← unsplit_border lp h1 h2;
                  mret (Some r)
              end
        end) in
      (fix outer (i : nat) (c : loop) (pb0 : option (list Z)) {struct c} : vm bool :=
        match c with
        | [] => mret false
        | lp :: c =>
            fe2 ← border_of lp;
            let box1 := GetBound fe2 in
            if negb (box_Intersects box1 pb1 true) then outer (S i) c pb0
            else
              pb0 ← match pb0 with Some h => mret h | None => vnonnil (last c1) end;
              r ← inner (if same then take i c1 else c1) lp box1 pb0 pb0 pfe0;
              match r with Some r => mret r | None => outer (S i) c (Some pb0) end
        end) 0%nat c2 pb0
  end.

(** The loops a loop stands for. *)
Definition loops_of (c : loop) : vm (list loop) := match c with [h] => p ← polygon_of h; mret (pe_Loops p) | _ => mret [c] end.

Fixpoint Intersects (fuel : nat) (same : bool) (c1 c2 : loop) (pb1 pb2 : option BoundingBox) (cw1 : bool) : vm bool :=
  match fuel with
  | O => vnofuel
  | S fuel =>
      b1 ← match pb1 with Some b => mret b | None => LoopBound c1 end;
      b2 ← match pb2 with Some b => mret b | None => LoopBound c2 end;
      if negb same && negb (box_Intersects b1 b2 false) then mret false
      else if same && bool_decide (length c1 = 1%nat) then mret false
      else
        loops1 ← loops_of c1;
        loops2 ← (if same then mret loops1 else loops_of c2);
        match loops1, loops2 with
        | [l1], [l2] => BorderIntersects fuel same l1 l2 b1 None None cw1
        | _, _ =>
            if decide (1 < length loops1 \/ 1 < length loops2)%nat then
              (fix go1 (ls : list loop) (cw1 : bool) : vm bool :=
                 match ls with
                 | [] => mret false
                 | l1 :: ls => r ← vfor loops2 (fun l2 => t ← Intersects fuel false l1 l2 None None cw1; mret (if t : bool then Some tt else None));
                     match r with Some _ => mret true | None => go1 ls true end
                 end) loops1 cw1
            else vpanic
        end
  end.
End Crossing.

(** ** Common edges and inclusion *)

Definition any_loop (loops : list loop) (f : loop -> vm bool) : vm bool :=
  r ← vfor loops (fun l => t ← f l; mret (if t : bool then Some tt else None)); mret (bool_decide (r = Some tt)).

Fixpoint CommonEdge (fuel : nat) (p q : loop) : vm bool :=
  match fuel with
  | O => vnofuel
  | S fuel =>
      match p, q with
      | [h], _ => fe ← polygon_of h; any_loop (pe_Loops fe) (fun t => CommonEdge fuel t q)
      | _, [_] => CommonEdge fuel q p
      | _, _ =>
          r ← vfor p (fun l =>
            fe ← border_of l;
            vfor q (fun l2 =>
              if IsEqual (unsigned l) (unsigned l2) then mret (Some tt)
              else
                fe2 ← border_of l2;
                if negb (box_Intersects (GetBound fe) (GetBound fe2) false) then mret None
                else
                  r ← (if decide (be_Children fe = [] /\ be_Children fe2 = []) then mret (SameEdge fe fe2)
                       else if decide (length (be_Children fe2) < length (be_Children fe))%nat then CommonEdge fuel (be_Children fe) q
                       else CommonEdge fuel p (be_Children fe2));
                  mret (if r : bool then Some tt else None)));
          mret (bool_decide (r = Some tt))
      end
  end.

Fixpoint SelectBorders (fuel : nat) (lp : loop) (p : VertexDef) : vm loop :=
  match fuel with
  | O => vnofuel
  | S fuel =>
      (fix go (lp : loop) (acc : loop) : vm loop :=
         match lp with
         | [] => mret acc
         | l :: lp =>
             fe ← border_of l;
             let box := GetBound fe in
             if decide (north box <= lat p \/ east box < lng p \/ lng p < west box) then go lp (acc ++ [l])
             else if decide (be_Children fe = []) then go lp (acc ++ [l])
             else c ← SelectBorders fuel (ReorderChildren (be_Children fe) (reversed l)) p; go lp (acc ++ c)
         end) lp []
  end.

Definition quadrant (v p : VertexDef) : Z := if decide (lng v < lng p) then -1 else if decide (lng p < lng v) then 1 else 0.

(** The crossings of the ray from [p] to the north with the borders; nothing when [p] touches
    one of them. *)
Fixpoint ray_loop (lp : loop) (p : VertexDef) (intersects side : Z) : vm (option Z) :=
  match lp with
  | [] => mret (Some intersects)
  | l :: lp =>
      fe ← border_of l;
      let '(b, e) := directed l fe in
      if vertex_IsEqual p b then mret None
      else
        let box := GetBound fe in
        if decide (north box < lat p) then ray_loop lp p intersects 0
        else if decide (north box = lat p) then
          if decide (lat b = north box /\ lat e = north box) then mret None else ray_loop lp p intersects 0
        else if decide (east box < lng p) then ray_loop lp p intersects (-1)
        else if decide (lng p < west box) then ray_loop lp p intersects 1
        else
          let q1 := quadrant b p in
          let q2 := quadrant e p in
          if decide (q1 = 0 /\ q2 = 0) then
            if decide ((lat b <= lat p \/ lat e <= lat p) /\ (lat p <= lat b \/ lat p <= lat e)) then mret None
            else ray_loop lp p intersects (if decide (lat e < lat p) then 0 else side)
          else if decide (q1 = q2) then ray_loop lp p intersects q1
          else if decide (q2 = 0) then ray_loop lp p intersects side
          else if decide (q1 = 0 /\ (side = q2 \/ side = 0)) then ray_loop lp p intersects q2
          else if decide (q1 = 0) then
            if decide (lat b = lat p) then mret None else ray_loop lp p (if decide (lat p < lat b) then intersects + 1 else intersects) q2
          else
            let d := cross (lng e - lng b) (lat p - lat e) (lat e - lat b) (lng p - lng e) in
            if decide (d = 0) then mret None
            else ray_loop lp p (if decide (d < 0 /\ q1 < q2 \/ 0 < d /\ q2 < q1) then intersects + 1 else intersects) q2
  end.

(** 1 inside, -1 outside, 0 when [p] touches the loop. *)
Definition InsidePoint (fuel : nat) (lp : loop) (p : VertexDef) : vm Z :=
  l ← SelectBorders fuel lp p;
  r ← ray_loop l p 0 0;
  mret match r with None => 0 | Some n => if decide (Z.land n 1 = 1) then 1 else -1 end.

(** The scan of the middle line of the bounds [wd]: points to the east of it, of which there
    are none. *)
Fixpoint scan_line (fuel : nat) (p w : loop) (wd : BoundingBox) (v : VertexDef) (d : Z) : vm (option bool) :=
  if decide (lng v < east wd) then
    match fuel with
    | O => vnofuel
    | S fuel =>
        i ← InsidePoint fuel w v;
        res ← (if decide (i = 1) then
                 r ← InsidePoint fuel p v; mret (if decide (r = 1) then Some true else if decide (r = -1) then Some false else None)
               else mret None);
        match res with Some b => mret (Some b) | None => scan_line fuel p w wd (MkVertex (lat v) (i32 (lng v + i32 (2 * d))) (alt v)) d end
    end
  else mret None.
Fixpoint scan_lines (n fuel : nat) (p w : loop) (wd : BoundingBox) (y d : Z) : vm bool :=
  if decide (1 < d) then
    match n with
    | O => vnofuel
    | S n =>
        let d := Z.shiftr d 1 in
        r ← scan_line fuel p w wd (MkVertex y (i32 (east wd + d)) 0) d;
        match r with Some b => mret b | None => scan_lines n fuel p w wd y d end
    end
  else mret true.
Fixpoint bit_count (fuel : nat) (d n : Z) : outcome Z :=
  if decide (0 < d) then match fuel with O => NoFuel | S fuel => bit_count fuel (Z.shiftr d 1) (n + 1) end else Ok n.

Fixpoint InOutCheck (fuel : nat) (p w : loop) (wd : option BoundingBox) : vm bool :=
  match fuel with
  | O => vnofuel
  | S fuel =>
      match p, w with
      | [h], _ =>
          plg ← polygon_of h;
          any_loop (pe_Loops plg) (fun lp => bd ← LoopBound lp; b ← vnonnil wd; if Contain bd b then InOutCheck fuel lp w wd else mret false)
      | _, [h] => plg ← polygon_of h; any_loop (pe_Loops plg) (fun lp => bd ← LoopBound lp; InOutCheck fuel p lp (Some bd))
      | _, _ =>
          r ← vfor w (fun q =>
            b ← border_of q;
            inside ← (if decide (be_Children b = []) then mret false else InOutCheck fuel p (ReorderChildren (be_Children b) (reversed q)) None);
            if inside : bool then mret (Some true)
            else
              r ← InsidePoint fuel p (if reversed q then be_Begin b else be_End b);
              mret (if decide (0 < r) then Some true else if decide (r < 0) then Some false else None));
          match r, wd with
          | Some b, _ => mret b
          | None, None => mret false
          | None, Some wd =>
              n ← vlift (bit_count 32 (Z.quot (i32 (east wd - west wd)) 2) 0);
              scan_lines 32 fuel p w wd (Z.quot (i32 (north wd + south wd)) 2) (i32 (Z.shiftl 1 n))
          end
      end
  end.

(** ** The nesting of polygons *)

(** A polygon is one deeper than those its loops stand for, and at most 100 deep. *)
Definition nested_ok (v : ViewPointSet) : Prop :=
  forall h e, polygon_at v h = Ok (Some e) -> 1 <= pe_Depth e <= 100 /\
    forall q, [q] ∈ pe_Loops e -> exists e', polygon_at v q = Ok (Some e') /\ pe_Depth e' < pe_Depth e.

Lemma nested_flat v : nested_ok v -> forall fuel p,
  (forall q, [q] ∈ p -> exists e', polygon_at v q = Ok (Some e') /\ pe_Depth e' < Z.of_nat fuel) ->
  (0 < fuel)%nat -> exists l, flat fuel (polygon_at v) p = Ok l.
Proof.
  intros Hn. induction fuel as [|fuel IH]; intros p Hp Hf; [lia|]. cbn [flat]. generalize ([[]] : list loop) as loops.
  induction p as [|q p IHp]; intros loops; [by eexists|].
  assert (forall q, [q] ∈ p -> exists e', polygon_at v q = Ok (Some e') /\ pe_Depth e' < Z.of_nat (S fuel)) as Hp'
    by (intros q' H; apply Hp; by apply list_elem_of_further).
  destruct q as [|q [|q' qs]]; [by apply IHp| |by apply IHp].
  destruct (Hp q) as (e & He & Hd); [apply list_elem_of_here|]. rewrite He, outcome_bind_ok. destruct (Hn q e He) as [H1 H2].
  destruct (IH (pe_Loops e)) as (l & Hl).
  - intros q' Hq'. destruct (H2 q' Hq') as (e' & He' & Hd'). exists e'. split; [done|]. lia.
  - lia.
  - rewrite Hl, outcome_bind_ok. by apply IHp.
Qed.

Lemma nested_cached v v' : cached v v' -> nested_ok v -> nested_ok v'.
Proof.
  intros C Hn h e He. rewrite (ca_polygon _ _ C) in He. destruct (Hn h e He) as [H1 H2]. split; [done|].
  intros q Hq. destruct (H2 q Hq) as (e' & He' & Hd). exists e'. by rewrite (ca_polygon _ _ C).
Qed.

Lemma polygon_of_inv v h e v' : polygon_of h v = Ok (e, v') -> polygon_at v h = Ok (Some e) /\ cached v v'.
Proof.
  unfold polygon_of. intros H. apply vbind_inv in H as (o & v1 & H1 & H2). apply fetch_polygon_inv in H1 as [H1 C]. destruct o as [e'|]; [|done].
  injection H2 as <- <-. by split.
Qed.

Lemma max_depth_inv v0 loops : nested_ok v0 -> forall mx v mx' v', cached v0 v -> max_depth loops mx v = Ok (mx', v') -> 0 <= mx ->
  cached v0 v' /\ mx <= mx' /\ forall q, [q] ∈ loops -> exists e, polygon_at v0 q = Ok (Some e) /\ pe_Depth e <= mx'.
Proof.
  intros Hn. induction loops as [|l loops IH]; intros mx v mx' v' C H Hmx.
  - injection H as <- <-. split_and!; [done|lia|]. intros q Hq. by apply elem_of_nil in Hq.
  - destruct l as [|q [|q' qs]].
    + cbn [max_depth] in H. destruct (IH _ _ _ _ C H Hmx) as (C' & Hle & Hq). split_and!; try done. intros q Hin. apply elem_of_cons in Hin as [|Hin]; [done|auto].
    + cbn [max_depth] in H. apply vbind_inv in H as (e & v1 & H1 & H2). apply polygon_of_inv in H1 as [He C1].
      rewrite (ca_polygon _ _ C) in He. destruct (Hn q e He) as [Hd _]. assert (cached v0 v1) as C01 by (by transitivity v).
      destruct (IH _ _ _ _ C01 H2 ltac:(case_decide; lia)) as (C' & Hle & Hq). split_and!; [done|case_decide; lia|].
      intros q' Hin. apply elem_of_cons in Hin as [Hin|Hin]; [|auto]. injection Hin as ->. exists e. split; [done|]. case_decide; lia.
    + cbn [max_depth] in H. destruct (IH _ _ _ _ C H Hmx) as (C' & Hle & Hq). split_and!; try done. intros q0 Hin. apply elem_of_cons in Hin as [|Hin]; [done|auto].
Qed.

(** C21: no polygon is nested more than a hundred deep, and what the loops of a polygon stand
    for is found in so many steps.  A polygon that is added under a hash not yet known keeps
    every polygon deeper than those its loops stand for; given that, flattening the loops of
    a known polygon returns. *)
Theorem polygon_nesting (HashH : list Z -> list Z) (v : ViewPointSet) (hash : option (list Z)) (loops : list loop) (ccw : bool) (bx : BoundingBox)
  (h : list Z) (Hh : def_hash HashH (DPolygon hash loops) = Ok h) (Hnew : polygon_at v h = Ok None) (Hn : nested_ok v) :
  (forall ok v', addPolygon HashH (DPolygon hash loops) ccw bx v = Ok (ok, v') -> nested_ok v' /\
     (ok = true -> exists e, polygon_at v' h = Ok (Some e) /\ pe_Loops e = loops)) /\
  (forall h' e, polygon_at v h' = Ok (Some e) -> exists l v', Flattern 101 (pe_Loops e) v = Ok (l, v') /\ cached v v').
Proof.
  split.
  - intros ok v' H. unfold addPolygon in H. apply vbind_inv in H as (h0 & v0 & H0 & H). unfold vlift in H0. rewrite Hh, outcome_bind_ok in H0. injection H0 as <- <-.
    rewrite (vbind_ok _ _ _ _ _ eq_refl : _ = _) in H.
    assert (v_Polygon v !! h = None) as E by (unfold polygon_at in Hnew; by destruct (v_Polygon v !! h)). rewrite E in H.
    apply vbind_inv in H as (mx & v1 & H1 & H). destruct (max_depth_inv v loops Hn 0 v mx v1) as (C1 & Hmx & Hq); [done..|].
    case_decide as Hd; [injection H as <- <-; split; [by eapply nested_cached|done]|].
    injection H as <- <-. set (e := MkPolygon loops bx (negb ccw) (u8 (mx + 1)) TfModified).
    assert (pe_Depth e = mx + 1) as Hdep by (unfold e; cbn [pe_Depth]; rewrite uwrap_id; [done|]; unfold uint_range; change (2 ^ 8) with 256; lia).
    set (v2 := set_polygon v1 _).
    assert (forall q, polygon_at v2 q = if decide (q = h) then Ok (Some e) else polygon_at v q) as Hat.
    { intros q. rewrite <- (ca_polygon _ _ C1). unfold polygon_at, v2. cbn [v_Polygon v_Db set_polygon].
      case_decide as Hqh; [subst; by rewrite lookup_insert_eq|by rewrite lookup_insert_ne]. }
    split; [|intros _; exists e; by rewrite Hat, decide_True]. intros q e'. rewrite Hat. case_decide as Hqh.
    + intros He. injection He as <-. rewrite Hdep. split; [lia|]. intros q' Hq'. destruct (Hq q' Hq') as (e1 & He1 & Hle). exists e1.
      rewrite Hat. rewrite decide_False by (intros ->; congruence). split; [done|lia].
    + intros He. destruct (Hn q e' He) as [H2 H3]. split; [done|]. intros q' Hq'. destruct (H3 q' Hq') as (e1 & He1 & Hlt). exists e1.
      rewrite Hat. rewrite decide_False by (intros ->; congruence). by split.
  - intros h' e He. destruct (Hn h' e He) as [Hd Hq]. destruct (nested_flat v Hn 101 (pe_Loops e)) as (l & Hl); [|lia|].
    { intros q Hin. destruct (Hq q Hin) as (e' & He' & Hlt). exists e'. split; [done|lia]. }
    pose proof (Flattern_flat 101 (pe_Loops e) v) as F. rewrite Hl in F. destruct F as (v' & F & C). by exists l, v'.
Qed.

Definition empty_db : Db := MkDb ∅ ∅ ∅ ∅ ∅.
Definition sample_triangle : list loop := [[replicate 32 2; replicate 32 4; replicate 32 6]].

Lemma polygon_nesting_witness :
  let v := NewViewPointSet empty_db in
  exists v', addPolygon (fun _ => replicate 32 8) (DPolygon None sample_triangle) true (MkBox 1 0 0 1) v = Ok (true, v') /\ nested_ok v' /\
    exists l v2, Flattern 101 sample_triangle v' = Ok (l, v2) /\ l = [] :: sample_triangle.
Proof.
  intros v. eexists. split; [reflexivity|].
  match goal with |- nested_ok ?x /\ _ => set (v' := x) end.
  destruct (polygon_nesting (fun _ => replicate 32 8) v None sample_triangle true (MkBox 1 0 0 1) (replicate 32 8)) as [H _]; [reflexivity|reflexivity| |].
  - intros h e He. unfold polygon_at, DbFetchPolygon, b_Get in He. simpl in He. rewrite !lookup_empty in He. by case_decide.
  - destruct (H true v' eq_refl) as [Hn _]. split; [exact Hn|]. eexists _, _. split; reflexivity.
Defined.

(** ** Closed loops *)

Definition in_view (v : ViewPointSet) (lp : loop) : Prop := Forall (fun b => is_Some (v_Border v !! unsigned b)) lp.
(** The directed ends of the borders of a loop that is in the view. *)
Definition ends (v : ViewPointSet) (lp : loop) : list (VertexDef * VertexDef) :=
  (fun b => match v_Border v !! unsigned b with Some d => directed b d | None => (MkVertex 0 0 0, MkVertex 0 0 0) end) <$> lp.

(** Every border begins where the one before it ends. *)
Fixpoint linked (at_ : VertexDef) (ps : list (VertexDef * VertexDef)) (fin : VertexDef) : Prop :=
  match ps with [] => vertex_IsEqual fin at_ = true | (b, e) :: ps => vertex_IsEqual at_ b = true /\ linked e ps fin end.
Definition closed_chain (ps : list (VertexDef * VertexDef)) : Prop :=
  match ps with [] => False | (b, e) :: ps' => linked e ps' b /\ NoDup ps.*1 end.

Lemma fetch_in_view v b d : v_Border v !! unsigned b = Some d -> FetchBorderEntry b v = Ok (Some d, v).
Proof. intros H. unfold FetchBorderEntry, b_LookupEntry. by rewrite unsigned_idem, H. Qed.

Lemma chain_closes_ok v b0 lp : in_view v lp -> forall seen be,
  exists r, chain_closes lp seen (Some b0) (Some be) v = Ok (r, v) /\
    (r = true <-> linked be (ends v lp) b0 /\ NoDup (ends v lp).*1 /\ forall x, x ∈ (ends v lp).*1 -> x ∉ seen).
Proof.
  intros Hv. induction lp as [|b lp IH]; intros seen be.
  - eexists. split; [reflexivity|]. simpl. split; [intros ->|by intros [? _]]. split_and!; [done|constructor|]. intros x Hx. by apply elem_of_nil in Hx.
  - apply Forall_cons in Hv as [[d Hd] Hv]. cbn [chain_closes]. rewrite (vbind_ok _ _ _ _ _ (fetch_in_view v b d Hd)).
    unfold ends in *. cbn [fmap list_fmap]. rewrite Hd. destruct (directed b d) as [pb pe]. cbn [linked fst].
    destruct (vertex_IsEqual be pb) eqn:Eq; cbn [negb].
    2: { exists false. split; [done|]. split; [done|]. intros ((? & _) & _). done. }
    case_decide as Hs.
    { exists false. split; [done|]. split; [done|]. intros (_ & _ & Hx). exfalso. apply (Hx pb); [apply list_elem_of_here|done]. }
    destruct (IH Hv ({[pb]} ∪ seen) pe) as (r & Hr & Hiff). exists r. cbn [default]. split; [exact Hr|]. rewrite Hiff. rewrite NoDup_cons.
    split.
    + intros (HL & Hnd & Hx). split_and!; try done.
      * intros Hin. apply (Hx _ Hin). set_solver.
      * intros x Hin. apply elem_of_cons in Hin as [->|Hin]; [done|]. specialize (Hx x Hin). set_solver.
    + intros ((_ & HL) & (Hni & Hnd) & Hx). split_and!; try done. intros x Hin. apply not_elem_of_union. split.
      * intros E. apply elem_of_singleton in E as ->. done.
      * apply Hx. by apply list_elem_of_further.
Qed.

(** C34: for borders that are in the view, [IsLoop] says exactly whether they are a loop: not one
    border alone, each begins where the one before it ends, the last ends where the first
    begins, and no two begin at the same vertex; it panics on no border at all. *)
Theorem is_loop_exact (v : ViewPointSet) (lp : loop) (Hv : in_view v lp) :
  match lp with
  | [] => IsLoop lp v = Panic
  | _ => exists r, IsLoop lp v = Ok (r, v) /\ (r = true <-> length lp <> 1%nat /\ closed_chain (ends v lp))
  end.
Proof.
  destruct lp as [|b lp]; [reflexivity|]. unfold IsLoop. case_decide as Hl; [exists false; split; [done|]; naive_solver|].
  apply Forall_cons in Hv as [[d Hd] Hv]. cbn [chain_closes]. rewrite (vbind_ok _ _ _ _ _ (fetch_in_view v b d Hd)).
  unfold ends. cbn [fmap list_fmap]. rewrite Hd. destruct (directed b d) as [pb pe] eqn:Ed. rewrite decide_False by set_solver. cbn [default].
  destruct (chain_closes_ok v pb lp Hv ({[pb]} ∪ ∅) pe) as (r & Hr & Hiff). exists r. split; [exact Hr|]. rewrite Hiff. unfold ends in *. cbn [closed_chain fmap list_fmap fst].
  rewrite NoDup_cons. split.
  - intros (HL & Hnd & Hx). split_and!; try done. intros Hin. apply (Hx _ Hin). set_solver.
  - intros (_ & HL & Hni & Hnd). split_and!; try done. intros x Hin E. assert (x = pb) as -> by set_solver. done.
Qed.

(** A view with the borders of a closed line of vertices under the hashes [2], [4], ... *)
Fixpoint edges_from (n : Z) (p0 : Z * Z) (ps : list (Z * Z)) : list (list Z * BorderEntry) :=
  match ps with
  | [] => []
  | [p] => [([n], edge p.2 p.1 p0.2 p0.1)]
  | p :: (q :: _) as ps => ([n], edge p.2 p.1 q.2 q.1) :: edges_from (n + 2) p0 ps
  end.
Definition view_of (ps : list (Z * Z)) : ViewPointSet :=
  set_border (NewViewPointSet empty_db) (list_to_map (edges_from 2 (default (0, 0) (head ps)) ps)).
Definition loop_of_points (ps : list (Z * Z)) : loop := (edges_from 2 (default (0, 0) (head ps)) ps).*1.

Lemma is_loop_witness : IsLoop (loop_of_points [(0, 0); (4, 0); (0, 3)]) (view_of [(0, 0); (4, 0); (0, 3)]) = Ok (true, view_of [(0, 0); (4, 0); (0, 3)]).
Proof.
  destruct (is_loop_exact (view_of [(0, 0); (4, 0); (0, 3)]) (loop_of_points [(0, 0); (4, 0); (0, 3)])) as (r & Hr & _).
  - repeat constructor; by eexists.
  - rewrite Hr. vm_compute in Hr. by injection Hr as <-.
Defined.

(** ** Orientation *)

(** Twice the area inside a closed line of vertices, positive when it runs counterclockwise. *)
Fixpoint area_from (p0 : Z * Z) (ps : list (Z * Z)) : Z :=
  match ps with
  | [] => 0
  | [p] => p.1 * p0.2 - p.2 * p0.1
  | p :: (q :: _) as ps => p.1 * q.2 - p.2 * q.1 + area_from p0 ps
  end.
Definition area2 (ps : list (Z * Z)) : Z := area_from (default (0, 0) (head ps)) ps.

(** [LoopCCW] adds up how much the line turns at its vertices, each weighed with the lengths
    of its edges, which is not the sign of the area: a counterclockwise loop of five borders
    is taken for a clockwise one. *)
Definition dent : list (Z * Z) := [(5, 1); (4, 4); (5, 6); (2, 5); (3, 5)].
Theorem orientation_wrong :
  0 < area2 dent /\ (exists r, IsLoop (loop_of_points dent) (view_of dent) = Ok (true, r)) /\
  exists bx r, LoopCCW 1 (loop_of_points dent) (view_of dent) = Ok ((false, bx), r).
Proof. split; [reflexivity|]. split; [eexists; reflexivity|]. eexists _, _. reflexivity. Qed.

(** ** The scan of the middle line *)

Lemma scan_line_empty fuel p w wd y x d v : east wd <= x -> scan_line fuel p w wd (MkVertex y x 0) d v = Ok (None, v).
Proof. intros H. destruct fuel; cbn [scan_line lng]; by rewrite decide_False by lia. Qed.

(** When all the vertices of [w] are on [p], [InOutCheck] scans points that are not in the
    bounds of [w], so it looks at none and says that [w] is inside. *)
Theorem scan_looks_at_nothing (n fuel : nat) (p w : loop) (wd : BoundingBox) (y d : Z) (v : ViewPointSet)
  (He : 0 <= d) (Hd : d < 2 ^ Z.of_nat n) (Hw : east wd + d < 2 ^ 31) (Hl : - 2 ^ 31 <= east wd) :
  scan_lines n fuel p w wd y d v = Ok (true, v).
Proof.
  revert d He Hd Hw. induction n as [|n IH]; intros d He Hd Hw.
  - change (2 ^ Z.of_nat 0) with 1 in Hd. cbn [scan_lines]. by rewrite decide_False by lia.
  - cbn [scan_lines]. case_decide as H1; [|done].
    assert (Z.shiftr d 1 = d / 2) as Hs by (by rewrite Z.shiftr_div_pow2 by lia). rewrite Hs.
    assert (0 <= d / 2 < d) by (split; [apply Z.div_pos; lia|apply Z.div_lt; lia]).
    assert (i32 (east wd + d / 2) = east wd + d / 2) as -> by (apply swrap_id; [lia|]; unfold sint_range; change (32 - 1) with 31; lia).
    rewrite (vbind_ok _ _ _ None v) by (apply scan_line_empty; lia).
    apply IH; [lia| |lia]. replace (Z.of_nat (S n)) with (Z.of_nat n + 1) in Hd by lia. rewrite Z.pow_add_r in Hd by lia.
    change (2 ^ 1) with 2 in Hd. apply Z.div_lt_upper_bound; lia.
Qed.
