(* ===== verification/UtxoView.v ===== *)
(** * Unspent outputs: connecting and disconnecting blocks

    Models the view of unspent outputs of omega/viewpoint/utxo.go and the composition of the
    views in viewpoint.go: adding the outputs of transactions, spending inputs with the
    journal of what has been spent, undoing a block with that journal, loading from the
    database and writing to it.

    [HashH] is the hash of definitions, [DoubleHashH] that of transactions and blocks; [fuel]
    bounds the nesting of polygons and borders.  A loop over a map of the source is a loop
    over a list of its keys. *)
From Stdlib Require Import ZArith Lia.
From stdpp Require Import gmap list.
From S2P Require Import Prelude Vlq Wire Token MsgTx MsgBlock ViewDb UtxoEntry BorderEntry DefEntry ViewSet ViewFrame PolygonGeom.

Open Scope Z_scope.

Record Block := MkBtcBlock { b_msgBlock : MsgBlock; b_Height : Z }.
Definition b_Transactions (b : Block) : list MsgTx := Transactions (b_msgBlock b).

(** An input that spends nothing: a separator, a padding or the input of a coin base. *)
Definition spends_nothing (i : TxIn) : bool := IsEqual (op_Hash (PreviousOutPoint i)) zero_hash.

(** The inputs of transactions after the first; slicing no transactions at all panics. *)
Definition CountSpentOutputs (b : Block) : outcome Z :=
  match b_Transactions b with
  | [] => Panic
  | _ :: txs => Ok (foldl (fun n tx => if IsBtcL2 tx then n else if tx_IsCrossChain tx then n
      else foldl (fun n i => if spends_nothing i then n - 1 else n) (n + len (TxIns tx)) (TxIns tx)) 0 txs)
  end.

(** ** The view *)

Definition u_LookupEntry (v : ViewPointSet) (o : OutPoint) : option UtxoEntry := mjoin (v_Utxo v !! o).
Definition put_utxo (o : OutPoint) (e : UtxoEntry) : vm unit := vmodify (fun v => set_utxo v (<[o := Some e]> (v_Utxo v))).
Definition u_RemoveEntry (v : ViewPointSet) (o : OutPoint) : ViewPointSet := set_utxo v (delete o (v_Utxo v)).

(** The monitor of an entry that there is already stays. *)
Definition addTxOut (o : OutPoint) (txOut : TxOut) (isCoinBase : bool) (blockHeight : Z) : vm UtxoEntry := fun v =>
  let old := default new_utxo (u_LookupEntry v o) in
  let e := MkUtxo (TokenType (to_Token txOut)) (Value (to_Token txOut)) (Token.Rights (to_Token txOut)) (PkScript txOut) blockHeight
             (if isCoinBase then Z.lor TfModified TfCoinBase else TfModified) (ue_monitor old) in
  Ok (e, set_utxo v (<[o := Some e]> (v_Utxo v))).

Section View.
Context (HashH DoubleHashH : list Z -> list Z) (fuel : nat).

(** The index of a monitored output, for every right of [y] that monitors. *)
Fixpoint add_monitors (flags : Z) (o : OutPoint) (value : option TokenValue) (y : list (list Z)) (e : UtxoEntry) : vm UtxoEntry :=
  match y with
  | [] => mret e
  | r :: y =>
      re ← FetchRightEntry r;
      re ← vnonnil re;
      re ← the_right re;
      if decide (Z.land (re_Attrib re) Monitor <> 0) then
        d ← vlift (slice_sub (re_Desc re) 1 21);
        h ← vlift (hash_value value);
        m ← vlift (copy_at (go_copy (replicate 52 0) d) 20 h);
        let e := ue_set_monitor (ue_set_flags e (Z.lor (ue_packedFlags e) flags)) m in
        _ ← put_utxo o e;
        add_monitors flags o value y e
      else add_monitors flags o value y e
  end.
Definition monitor_output (flags : Z) (o : OutPoint) (value : option TokenValue) (e : UtxoEntry) : vm UtxoEntry :=
  y ← TokenRights HashH e; add_monitors flags o value y e.

(** One output; of a coin base only what comes before a separator is marked so. *)
Definition AddTxOut (tx : MsgTx) (txOutIdx : Z) (blockHeight : Z) : vm unit :=
  match TxOuts tx !! Z.to_nat txOutIdx with
  | None => mret ()
  | Some txOut =>
      hash ← vlift (TxHash DoubleHashH tx);
      let prevOut := MkOutPoint hash txOutIdx in
      if out_IsSeparator txOut then mret ()
      else
        coinbase ← vlift (IsCoinBase tx);
        let coinbase := coinbase && negb (existsb out_IsSeparator (take (Z.to_nat txOutIdx) (TxOuts tx))) in
        nopaying ← vlift (out_IsNopaying txOut);
        if nopaying : bool then mret ()
        else
          e ← addTxOut prevOut txOut coinbase blockHeight;
          _ ← monitor_output (Z.lor TfMonitoring TfModified) prevOut (Value (to_Token txOut)) e;
          mret ()
  end.

(** The outputs from index [i] on. *)
Fixpoint add_outs (hash : list Z) (i : Z) (outs : list TxOut) (isCoinBase : bool) (blockHeight : Z) : vm unit :=
  match outs with
  | [] => mret ()
  | txOut :: outs =>
      if out_IsSeparator txOut then add_outs hash (i + 1) outs isCoinBase blockHeight
      else
        nopaying ← vlift (out_IsNopaying txOut);
        if nopaying : bool then add_outs hash (i + 1) outs isCoinBase blockHeight
        else
          crossing ← vlift (out_Crossing txOut);
          if crossing : bool then add_outs hash (i + 1) outs isCoinBase blockHeight
          else
            let prevOut := MkOutPoint hash (u32 i) in
            e ← addTxOut prevOut txOut isCoinBase blockHeight;
            _ ← monitor_output TfMonitoring prevOut (Value (to_Token txOut)) e;
            add_outs hash (i + 1) outs isCoinBase blockHeight
  end.
Definition AddTxOuts (tx : MsgTx) (blockHeight : Z) : vm unit :=
  isCoinBase ← vlift (IsCoinBase tx);
  hash ← vlift (TxHash DoubleHashH tx);
  add_outs hash 0 (TxOuts tx) isCoinBase blockHeight.

(** ** Connecting *)

Definition spent_of (e : UtxoEntry) : SpentTxOut :=
  MkSpent (ue_TokenType e) (ue_Amount e) (ue_Rights e) (ue_pkScript e) (ue_blockHeight e) (ue_IsCoinBase e).

(** Spending inputs; the journal grows, when there is one.  An input that is missing stops it
    with an error. *)
Fixpoint spend_ins (ins : list TxIn) (stxos : option (list SpentTxOut)) : vm (option view_err * option (list SpentTxOut)) :=
  match ins with
  | [] => mret (None, stxos)
  | i :: ins =>
      if spends_nothing i then spend_ins ins stxos
      else
        v ← vget;
        match u_LookupEntry v (PreviousOutPoint i) with
        | None => mret (Some AssertError, stxos)
        | Some e =>
            let stxos := match stxos with Some l => Some (l ++ [spent_of e]) | None => None end in
            _ ← put_utxo (PreviousOutPoint i) (ue_Spend e);
            spend_ins ins stxos
        end
  end.

Definition ConnectTransaction (tx : MsgTx) (blockHeight : Z) (stxos : option (list SpentTxOut)) : vm (option view_err * option (list SpentTxOut)) :=
  coinbase ← vlift (IsCoinBase tx);
  if coinbase : bool then _ ← AddTxOuts tx blockHeight; mret (None, stxos)
  else
    '(err, stxos) ← (if tx_IsCrossChain tx then mret (None, stxos) else spend_ins (TxIns tx) stxos);
    match err with
    | Some e => mret (Some e, stxos)
    | None => _ ← AddTxOuts tx blockHeight; mret (None, stxos)
    end.

(** The references of the polygons that inputs spend go away, those of outputs come. *)
Fixpoint dereference_ins (ins : list TxIn) : vm (option view_err) :=
  match ins with
  | [] => mret None
  | i :: ins =>
      if spends_nothing i then dereference_ins ins
      else
        v ← vget;
        match u_LookupEntry v (PreviousOutPoint i) with
        | None => mret (Some AssertError)
        | Some e =>
            if decide (ue_TokenType e = PolyGonType) then
              h ← vlift (hash_value (ue_Amount e));
              p ← FetchPolygonEntry h;
              match p with Some p => _ ← pe_deReference fuel p; dereference_ins ins | None => dereference_ins ins end
            else dereference_ins ins
        end
  end.
Fixpoint reference_outs (outs : list TxOut) : vm unit :=
  match outs with
  | [] => mret ()
  | out :: outs =>
      if out_IsSeparator out then reference_outs outs
      else if decide (TokenType (to_Token out) = PolyGonType) then
        h ← vlift (hash_value (Value (to_Token out)));
        v ← vget;
        p ← vnonnil (v_Polygon v !! h);
        _ ← pe_reference fuel p;
        reference_outs outs
      else reference_outs outs
  end.

(** One transaction of [ConnectTransactions]; what [ConnectTransaction] gives is not looked at. *)
Definition connect_tx (tx : MsgTx) (blockHeight : Z) (stxos : option (list SpentTxOut)) : vm (option view_err * option (list SpentTxOut)) :=
  ok ← AddBorder HashH fuel tx;
  if negb ok then mret (Some IllegalBorder, stxos)
  else
    ok ← AddRights HashH tx;
    if negb ok then mret (Some IllegalRights, stxos)
    else
      ok ← AddPolygon HashH fuel tx;
      if negb ok then mret (Some IllegalPolygon, stxos)
      else
        coinbase ← vlift (IsCoinBase tx);
        err ← (if negb coinbase && negb (tx_IsCrossChain tx) then dereference_ins (TxIns tx) else mret None);
        match err with
        | Some e => mret (Some e, stxos)
        | None =>
            _ ← reference_outs (TxOuts tx);
            '(_, stxos) ← ConnectTransaction tx blockHeight stxos;
            mret (None, stxos)
        end.
Fixpoint connect_txs (txs : list MsgTx) (blockHeight : Z) (stxos : option (list SpentTxOut)) : vm (option view_err * option (list SpentTxOut)) :=
  match txs with
  | [] => mret (None, stxos)
  | tx :: txs => '(err, stxos) ← connect_tx tx blockHeight stxos; match err with Some e => mret (Some e, stxos) | None => connect_txs txs blockHeight stxos end
  end.
Definition ConnectTransactions (b : Block) (stxos : option (list SpentTxOut)) : vm (option view_err * option (list SpentTxOut)) :=
  '(err, stxos) ← connect_txs (b_Transactions b) (b_Height b) stxos;
  match err with
  | Some e => mret (Some e, stxos)
  | None => _ ← vmodify (fun v => SetBestHash v (BlockHash DoubleHashH (Header (b_msgBlock b)))); mret (None, stxos)
  end.

(** ** Loading *)

(** An entry, nothing, or an error. *)
Definition DbFetchUtxoEntry (b : bucket) (o : OutPoint) : outcome (option UtxoEntry + view_err) :=
  key ← OutpointKey o;
  match b_Get b key with
  | None => Ok (inl None)
  | Some [] => Ok (inr AssertError)
  | Some serialized =>
      r ← DeserializeUtxoEntry serialized;
      Ok (match r with inl e => inl (Some e) | inr ErrDeserialize => inr ErrCorruption | inr err => inr err end)
  end.

Definition dbFetchUtxoEntryByHash (b : bucket) (hash : list Z) : outcome (option UtxoEntry + view_err) :=
  key ← OutpointKey (MkOutPoint hash 0);
  match b_Seek b key with
  | None => Ok (inl None)
  | Some (cursorKey, value) =>
      if decide (len cursorKey < 32) then Ok (inl None)
      else if decide (take 32 cursorKey <> hash) then Ok (inl None)
      else r ← DeserializeUtxoEntry value; Ok (match r with inl e => inl (Some e) | inr err => inr err end)
  end.

Definition MaxOutputsPerTx : nat := 1000.

(** The first of [n] outputs from [idx] on that has an entry. *)
Fixpoint first_entry (v : ViewPointSet) (hash : list Z) (idx : Z) (n : nat) : option UtxoEntry :=
  match n with
  | O => None
  | S n => match u_LookupEntry v (MkOutPoint hash idx) with Some e => Some e | None => first_entry v hash (idx + 1) n end
  end.
Definition fetchEntryByHash (v : ViewPointSet) (hash : list Z) : outcome (option UtxoEntry + view_err) :=
  match first_entry v hash 0 MaxOutputsPerTx with
  | Some e => Ok (inl (Some e))
  | None => dbFetchUtxoEntryByHash (utxosetv2 (v_Db v)) hash
  end.

Fixpoint fetch_each (outpoints : list OutPoint) : vm (option view_err) :=
  match outpoints with
  | [] => mret None
  | o :: outpoints =>
      v ← vget;
      r ← vlift (DbFetchUtxoEntry (utxosetv2 (v_Db v)) o);
      match r with
      | inr err => mret (Some err)
      | inl e => _ ← vmodify (fun v => set_utxo v (<[o := e]> (v_Utxo v))); fetch_each outpoints
      end
  end.
(** What is in the view, even as nothing, is not loaded again. *)
Definition FetchUtxosMain (outpoints : list OutPoint) : vm (option view_err) :=
  v ← vget; fetch_each (filter (fun o => v_Utxo v !! o = None) outpoints).

Definition GetUtxo (o : OutPoint) : vm (option UtxoEntry) :=
  v ← vget;
  match v_Utxo v !! o with
  | Some e => mret e
  | None => err ← FetchUtxosMain [o]; match err with Some _ => mret None | None => v ← vget; mret (u_LookupEntry v o) end
  end.

(** The last index under which a transaction of the block has the hash. *)
Fixpoint hashes_of (txs : list MsgTx) : outcome (list (list Z)) :=
  match txs with [] => Ok [] | tx :: txs => h ← TxHash DoubleHashH tx; hs ← hashes_of txs; Ok (h :: hs) end.
Definition in_flight (hs : list (list Z)) (h : list Z) : option nat :=
  foldl (fun r '(i, h') => if decide (h' = h) then Some i else r) None (imap pair hs).

(** The inputs of the transaction at [i + 1]: outputs of earlier transactions of the block
    are added to the view, the rest is needed from the database. *)
Fixpoint input_utxos (txs : list MsgTx) (hs : list (list Z)) (height : Z) (i : nat) (ins : list TxIn) (needed : gset OutPoint) : vm (gset OutPoint) :=
  match ins with
  | [] => mret needed
  | ti :: ins =>
      if spends_nothing ti then input_utxos txs hs height i ins needed
      else
        let missing :=
          v ← vget;
          if decide (v_Utxo v !! PreviousOutPoint ti = None) then input_utxos txs hs height i ins ({[PreviousOutPoint ti]} ∪ needed)
          else input_utxos txs hs height i ins needed in
        match in_flight hs (op_Hash (PreviousOutPoint ti)) with
        | Some k => if decide (k <= i)%nat then originTx ← vnonnil (txs !! k); _ ← AddTxOuts originTx height; input_utxos txs hs height i ins needed else missing
        | None => missing
        end
  end.
Fixpoint all_input_utxos (all : list MsgTx) (hs : list (list Z)) (height : Z) (i : nat) (txs : list MsgTx) (needed : gset OutPoint) : vm (gset OutPoint) :=
  match txs with
  | [] => mret needed
  | tx :: txs =>
      needed ← (if tx_IsCrossChain tx then mret needed else input_utxos all hs height i (TxIns tx) needed);
      all_input_utxos all hs height (S i) txs needed
  end.
Definition FetchInputUtxos (b : Block) : vm (option view_err) :=
  hs ← vlift (hashes_of (b_Transactions b));
  match b_Transactions b with
  | [] => vpanic
  | _ :: txs => needed ← all_input_utxos (b_Transactions b) hs (b_Height b) 0 txs ∅; FetchUtxosMain (elements needed)
  end.

(** ** Disconnecting *)

(** The polygon of an output; that of the entry when the view does not have it. *)
Definition output_polygon (value amount : option TokenValue) : vm (option PolygonEntry) :=
  h ← vlift (hash_value value);
  v ← vget;
  match v_Polygon v !! h with
  | Some p => mret (Some p)
  | None => h' ← vlift (hash_value amount); FetchPolygonEntry h'
  end.

(** The outputs of a transaction are marked spent; those after a separator are not of the
    coin base. *)
Fixpoint remove_outs (hash : list Z) (i : Z) (outs : list TxOut) (packedFlags blockHeight : Z) : vm (option view_err) :=
  match outs with
  | [] => mret None
  | txOut :: outs =>
      if out_IsSeparator txOut then remove_outs hash (i + 1) outs (Z.ldiff packedFlags TfCoinBase) blockHeight
      else
        nopaying ← vlift (out_IsNopaying txOut);
        if nopaying : bool then remove_outs hash (i + 1) outs packedFlags blockHeight
        else
          let prevOut := MkOutPoint hash (u32 i) in
          v ← vget;
          let e := default (MkUtxo (TokenType (to_Token txOut)) (Value (to_Token txOut)) (Token.Rights (to_Token txOut)) (PkScript txOut) blockHeight packedFlags [])
                     (u_LookupEntry v prevOut) in
          _ ← put_utxo prevOut e;
          e ← monitor_output (Z.lor TfMonitoring TfModified) prevOut (Value (to_Token txOut)) e;
          err ← (if decide (TokenType (to_Token txOut) = 3) then
                   t ← output_polygon (Value (to_Token txOut)) (ue_Amount e);
                   match t with None => mret (Some MissingPolygon) | Some t => _ ← pe_deReference fuel t; mret None end
                 else mret None);
          match err with
          | Some err => mret (Some err)
          | None => _ ← put_utxo prevOut (ue_Spend e); remove_outs hash (i + 1) outs packedFlags blockHeight
          end
  end.

(** An output is restored from the journal.  A height of 0 stands for one that is not known,
    for which any output of the transaction [txHash] is asked. *)
Definition restore (txHash : list Z) (o : OutPoint) (stxo : SpentTxOut) : vm (option view_err) :=
  v ← vget;
  let old := default new_utxo (u_LookupEntry v o) in
  _ ← put_utxo o old;
  v ← vget;
  known ← (if decide (st_Height stxo = 0) then
             r ← vlift (fetchEntryByHash v txHash);
             mret (match r with inr err => inr err | inl None => inr AssertError | inl (Some u) => inl (ue_blockHeight u, ue_IsCoinBase u) end)
           else mret (inl (st_Height stxo, st_IsCoinBase stxo)));
  match known with
  | inr err => mret (Some err)
  | inl (height, coinbase) =>
      let e := MkUtxo (st_TokenType stxo) (st_Amount stxo) (st_Rights stxo) (st_PkScript stxo) height
                 (if coinbase : bool then Z.lor TfModified TfCoinBase else TfModified) (ue_monitor old) in
      _ ← put_utxo o e;
      err ← (if decide (ue_TokenType e = 3) then
               t ← output_polygon (ue_Amount e) (ue_Amount e);
               match t with None => mret (Some MissingPolygon) | Some t => _ ← pe_reference fuel t; mret None end
             else mret None);
      match err with
      | Some err => mret (Some err)
      | None => _ ← monitor_output TfMonitoring o (ue_Amount e) e; mret None
      end
  end.

(** The inputs from the last to the first, with the journal from its end; a journal that is
    too short panics. *)
Fixpoint restore_ins (txHash : list Z) (ins : list TxIn) (stxos : list SpentTxOut) : vm (option view_err * list SpentTxOut) :=
  match ins with
  | [] => mret (None, stxos)
  | i :: ins =>
      if spends_nothing i then restore_ins txHash ins stxos
      else
        match stxos with
        | [] => vpanic
        | stxo :: stxos =>
            err ← restore txHash (PreviousOutPoint i) stxo;
            match err with Some err => mret (Some err, stxos) | None => restore_ins txHash ins stxos end
        end
  end.

(** The transactions from the last to the first; the coin base is the one at index 0. *)
Fixpoint disconnect_txs (txs : list MsgTx) (blockHeight : Z) (stxos : list SpentTxOut) : vm (option view_err) :=
  match txs with
  | [] => mret None
  | tx :: txs =>
      let isCoinBase := bool_decide (txs = []) in
      txHash ← vlift (TxHash DoubleHashH tx);
      err ← remove_outs txHash 0 (TxOuts tx) (if isCoinBase then TfCoinBase else 0) blockHeight;
      match err with
      | Some err => mret (Some err)
      | None =>
          if isCoinBase || tx_IsCrossChain tx then disconnect_txs txs blockHeight stxos
          else
            '(err, stxos) ← restore_ins txHash (reverse (TxIns tx)) stxos;
            match err with Some err => mret (Some err) | None => disconnect_txs txs blockHeight stxos end
      end
  end.
Definition disconnectTransactions (b : Block) (stxos : list SpentTxOut) : vm (option view_err) :=
  n ← vlift (CountSpentOutputs b);
  if decide (len stxos <> n) then mret (Some AssertError)
  else
    err ← disconnect_txs (reverse (b_Transactions b)) (b_Height b) (reverse stxos);
    match err with
    | Some err => mret (Some err)
    | None => _ ← vmodify (fun v => SetBestHash v (h_PrevBlock (Header (b_msgBlock b)))); mret None
    end.

Definition DisconnectTransactions (b : Block) (stxos : list SpentTxOut) : vm (option view_err) :=
  let prev := h_PrevBlock (Header (b_msgBlock b)) in
  _ ← disconnectRightTransactions HashH (b_Transactions b) prev;
  _ ← disconnectPolygonTransactions HashH (b_Transactions b) prev;
  _ ← disconnectBorderTransactions HashH (b_Transactions b) prev;
  disconnectTransactions b stxos.
End View.

(** ** Writing *)

Fixpoint put_utxos (entries : list (OutPoint * option UtxoEntry)) (b : bucket) : outcome (option view_err * bucket) :=
  match entries with
  | [] => Ok (None, b)
  | (_, None) :: entries => put_utxos entries b
  | (o, Some e) :: entries =>
      if negb (ue_isModified e) then put_utxos entries b
      else
        key ← OutpointKey o;
        if ue_IsSpent e then
          let b := b_Delete b key in
          put_utxos entries (if decide (Z.land (ue_packedFlags e) TfMonitoring <> 0) then b_Delete b (ue_monitor e) else b)
        else
          r ← SerializeUtxoEntry e;
          match r with
          | inr err => Ok (Some err, b)
          | inl serialized =>
              match b_Put b key serialized with
              | (Some err, b) => Ok (Some err, b)
              | (None, b) => put_utxos entries (if decide (Z.land (ue_packedFlags e) TfMonitoring <> 0) then (b_Put b (ue_monitor e) key).2 else b)
              end
          end
  end.
Definition DbPutUtxoView (order : list (OutPoint * option UtxoEntry)) (db : Db) : outcome (option view_err * Db) :=
  '(err, b) ← put_utxos order (utxosetv2 db); Ok (err, MkDb b (borders db) (polygons db) (rights db) (contracts db)).

Definition FindMonitor (db : Db) (addr hash : list Z) : outcome (option UtxoEntry) :=
  match b_Get (utxosetv2 db) (addr ++ hash) with
  | None | Some [] => Ok None
  | Some key =>
      match b_Get (utxosetv2 db) key with
      | None | Some [] => Ok None
      | Some serialized => r ← DeserializeUtxoEntry serialized; Ok (match r with inl e => Some e | inr _ => None end)
      end
  end.

(** The first entry that is to be deleted ends the writing of borders. *)
Fixpoint put_borders (entries : list (list Z * BorderEntry)) (b : bucket) (m : gmap (list Z) BorderEntry) : outcome (bucket * gmap (list Z) BorderEntry) :=
  match entries with
  | [] => Ok (b, m)
  | (hash, e) :: entries =>
      if negb (be_isModified e) then put_borders entries b m
      else if be_toDelete e then Ok (b_Delete b hash, <[hash := be_set_flags e (Z.ldiff (be_PackedFlags e) TfModified)]> m)
      else
        '(e, serialized) ← serializeBorderEntry e;
        match b_Put b hash serialized with
        | (Some _, b) => Ok (b, <[hash := e]> m)
        | (None, b) => put_borders entries b (<[hash := be_set_flags e (Z.ldiff (be_PackedFlags e) TfModified)]> m)
        end
  end.
Fixpoint put_polygons (entries : list (list Z * PolygonEntry)) (b : bucket) : outcome bucket :=
  match entries with
  | [] => Ok b
  | (hash, e) :: entries =>
      if negb (pe_isModified e) then put_polygons entries b
      else if pe_toDelete e then put_polygons entries (b_Delete b hash)
      else s ← serializePolygonEntry e; match b_Put b hash s with (Some _, b) => Ok b | (None, b) => put_polygons entries b end
  end.
Fixpoint put_rights (entries : list (list Z * right_item)) (b : bucket) : outcome (option view_err * bucket) :=
  match entries with
  | [] => Ok (None, b)
  | (hash, e) :: entries =>
      if negb (ri_isModified e) then put_rights entries b
      else if ri_toDelete e then put_rights entries (b_Delete b hash)
      else s ← serializeRightEntry e; match b_Put b hash s with (Some err, b) => Ok (Some err, b) | (None, b) => put_rights entries b end
  end.

(** The four views are written one after the other, in an order of each of their maps; the
    errors of the first three are not looked at. *)
Definition DbPutViews (v : ViewPointSet) (us : list (OutPoint * option UtxoEntry)) (bs : list (list Z * BorderEntry)) (ps : list (list Z * PolygonEntry))
  (rs : list (list Z * right_item)) (db : Db) : outcome (option view_err * Db * ViewPointSet) :=
  '(_, db) ← DbPutUtxoView us db;
  pb ← put_polygons ps (polygons db);
  '(bb, m) ← put_borders bs (borders db) (v_Border v);
  '(err, rb) ← put_rights rs (rights db);
  Ok (err, MkDb (utxosetv2 db) bb pb rb (contracts db), set_border v m).
