(* ===== verification/UtxoStore.v ===== *)
(** * Unspent outputs: writing a view to the database

    A view over a database stands for a set of unspent outputs.  Writing the view gives a
    database that stands, alone, for the same set; forgetting what has been written
    ([Commit]) keeps it as well. *)
From Stdlib Require Import ZArith Lia.
From stdpp Require Import gmap list.
From S2P Require Import Prelude Vlq Wire Token MsgTx MsgBlock ViewDb UtxoEntry BorderEntry DefEntry ViewSet ViewFrame PolygonGeom UtxoView.

Open Scope Z_scope.

(** The output behind an entry, as the database would give it back. *)
Definition live (e : option UtxoEntry) : option UtxoEntry :=
  match e with Some e => if ue_IsSpent e then None else Some (stored e) | None => None end.

(** The unspent output [o] of the view [m] over the bucket [b]. *)
Definition unspent (m : gmap OutPoint (option UtxoEntry)) (b : bucket) (o : OutPoint) : outcome (option UtxoEntry + view_err) :=
  match m !! o with Some e => Ok (inl (live e)) | None => DbFetchUtxoEntry b o end.

(** What the view knows of an output that it has not changed is what the database has, and
    nothing is marked as monitored. *)
Definition in_step (b : bucket) (o : OutPoint) (e : option UtxoEntry) : Prop :=
  point_ok o /\
  match e with
  | None => DbFetchUtxoEntry b o = Ok (inl None)
  | Some e => utxo_ok e /\ Z.land (ue_packedFlags e) TfMonitoring = 0 /\ (ue_isModified e = false -> DbFetchUtxoEntry b o = Ok (inl (live (Some e))))
  end.

Lemma live_stored e : live (Some (stored e)) = Some (stored e).
Proof.
  unfold live, stored, ue_IsSpent. cbn [ue_packedFlags]. destruct (ue_IsCoinBase e) eqn:E; cbn; [|done].
  unfold ue_IsCoinBase at 1. cbn. done.
Qed.

Lemma fetch_key b o : point_ok o -> DbFetchUtxoEntry b o =
  match b !! outpoint_key o with
  | None => Ok (inl None)
  | Some [] => Ok (inr AssertError)
  | Some s => r ← DeserializeUtxoEntry s; Ok (match r with inl e => inl (Some e) | inr ErrDeserialize => inr ErrCorruption | inr err => inr err end)
  end.
Proof. intros Ho. unfold DbFetchUtxoEntry. rewrite OutpointKey_ok by done. rewrite outcome_bind_ok, b_Get_ne by (by apply outpoint_key_ne). done. Qed.

Lemma fetch_other b b' o : point_ok o -> b' !! outpoint_key o = b !! outpoint_key o -> DbFetchUtxoEntry b' o = DbFetchUtxoEntry b o.
Proof. intros Ho E. by rewrite !fetch_key, E by done. Qed.

Lemma put_utxos_ok entries : forall b, NoDup entries.*1 -> Forall (fun x => in_step b x.1 x.2) entries ->
  exists b', put_utxos entries b = Ok (None, b') /\
    (forall o e, (o, e) ∈ entries -> DbFetchUtxoEntry b' o = Ok (inl (live e))) /\
    (forall o, point_ok o -> o ∉ entries.*1 -> b' !! outpoint_key o = b !! outpoint_key o).
Proof.
  induction entries as [|[o e] entries IH]; intros b Hnd Hin.
  - exists b. split; [done|]. split; [|done]. intros o e H. by apply elem_of_nil in H.
  - apply NoDup_cons in Hnd as [Hni Hnd]. apply Forall_cons in Hin as [[Ho He] Hin]. cbn [fst snd] in *.
    (* the rest of the list is written over a bucket that differs in the key of [o] only *)
    assert (forall b1, (forall o', point_ok o' -> o' <> o -> b1 !! outpoint_key o' = b !! outpoint_key o') -> DbFetchUtxoEntry b1 o = Ok (inl (live e)) ->
      exists b', put_utxos entries b1 = Ok (None, b') /\ (forall o' e', (o', e') ∈ (o, e) :: entries -> DbFetchUtxoEntry b' o' = Ok (inl (live e'))) /\
        (forall o', point_ok o' -> o' ∉ o :: entries.*1 -> b' !! outpoint_key o' = b !! outpoint_key o')) as Hrest.
    { intros b1 Hb1 Hf. destruct (IH b1 Hnd) as (b' & Hput & Hget & Hframe).
      - apply Forall_forall. intros [o' e'] Hx. rewrite Forall_forall in Hin. destruct (Hin _ Hx) as [Ho' He']. split; [done|]. cbn [fst snd] in *.
        assert (o' <> o) as Hne by (intros ->; apply Hni, list_elem_of_fmap; by exists (o, e')).
        assert (DbFetchUtxoEntry b1 o' = DbFetchUtxoEntry b o') as E by (apply fetch_other; auto). by rewrite E.
      - exists b'. split; [done|]. split.
        + intros o' e' Hx. apply elem_of_cons in Hx as [Hx|Hx]; [|auto]. injection Hx as -> ->. rewrite <- Hf. by apply fetch_other, Hframe.
        + intros o' Ho' Hx. apply not_elem_of_cons in Hx as [Hx1 Hx2]. rewrite Hframe by done. auto. }
    cbn [put_utxos fmap list_fmap fst]. destruct e as [e|].
    + destruct He as (Hok & Hmon & Hun). destruct (ue_isModified e) eqn:Hm; cbn [negb]; [|apply Hrest; auto].
      rewrite OutpointKey_ok, outcome_bind_ok by done. rewrite Hmon. rewrite decide_False by (intros H; by apply H). destruct (ue_IsSpent e) eqn:Hs.
      * rewrite b_Delete_ne by (by apply outpoint_key_ne). apply Hrest.
        -- intros o' Ho' Hne. rewrite lookup_delete_ne; [done|]. intros E. apply Hne. symmetry. by apply outpoint_key_inj.
        -- rewrite fetch_key, lookup_delete_eq by done. cbn [live]. by rewrite Hs.
      * destruct (stored_entry e Hok Hs) as (s & Hser & Hne & Hdes). rewrite Hser, outcome_bind_ok. rewrite b_Put_ne by (by apply outpoint_key_ne). rewrite decide_False by (intros H; by apply H). apply Hrest.
        -- intros o' Ho' Hn. rewrite lookup_insert_ne; [done|]. intros E. apply Hn. symmetry. by apply outpoint_key_inj.
        -- rewrite fetch_key, lookup_insert_eq by done. destruct s as [|x s]; [done|]. rewrite Hdes, outcome_bind_ok. cbn [live]. by rewrite Hs.
    + apply Hrest; auto.
Qed.

Lemma commit_live e e' : utxo_commit (Some e) = Some e' -> live e' = live (Some e).
Proof.
  unfold utxo_commit. destruct (ue_isModified e && ue_IsSpent e); [done|]. intros E. injection E as <-. unfold live, stored, ue_IsSpent, ue_IsCoinBase. cbn [ue_packedFlags ue_set_flags ue_TokenType ue_Amount ue_Rights ue_pkScript ue_blockHeight].
  assert (flag_on (Z.ldiff (ue_packedFlags e) TfModified) TfSpent = flag_on (ue_packedFlags e) TfSpent) as -> by (flags; apply andb_true_r).
  assert (flag_on (Z.ldiff (ue_packedFlags e) TfModified) TfCoinBase = flag_on (ue_packedFlags e) TfCoinBase) as -> by (flags; apply andb_true_r). done.
Qed.

(** C8: writing a view of outputs to the database, in whatever order its map is gone through,
    loses and makes up nothing: every output is afterwards unspent in the database alone, or
    in the committed view over it, exactly when it was unspent in the view over the old
    database, with the same content. *)
Theorem written_view_reads_back (v : ViewPointSet) (order : list (OutPoint * option UtxoEntry))
  (Horder : order ≡ₚ map_to_list (v_Utxo v)) (Hstep : map_Forall (in_step (utxosetv2 (v_Db v))) (v_Utxo v)) :
  exists db', DbPutUtxoView order (v_Db v) = Ok (None, db') /\
    forall o, point_ok o -> unspent (v_Utxo v) (utxosetv2 (v_Db v)) o = DbFetchUtxoEntry (utxosetv2 db') o /\
      unspent (v_Utxo (Commit v)) (utxosetv2 db') o = DbFetchUtxoEntry (utxosetv2 db') o.
Proof.
  destruct (put_utxos_ok order (utxosetv2 (v_Db v))) as (b' & Hput & Hget & Hframe).
  - rewrite Horder. apply NoDup_fst_map_to_list.
  - apply Forall_forall. intros [o e] Hx. rewrite Horder in Hx. apply elem_of_map_to_list in Hx. by apply (Hstep o e).
  - exists (MkDb b' (borders (v_Db v)) (polygons (v_Db v)) (rights (v_Db v)) (contracts (v_Db v))).
    split; [unfold DbPutUtxoView; by rewrite Hput|]. intros o Ho. cbn [utxosetv2 v_Utxo Commit]. unfold unspent.
    assert (unspent (v_Utxo v) (utxosetv2 (v_Db v)) o = DbFetchUtxoEntry b' o) as E1.
    { unfold unspent. destruct (v_Utxo v !! o) as [e|] eqn:E.
      - symmetry. apply Hget. rewrite Horder. by apply elem_of_map_to_list.
      - symmetry. apply fetch_other; [done|]. apply Hframe; [done|]. rewrite Horder. intros Hx. apply list_elem_of_fmap in Hx as ([o' e] & -> & Hx).
        apply elem_of_map_to_list in Hx. cbn [fst] in E. congruence. }
    unfold unspent in E1. split; [done|]. rewrite lookup_omap. destruct (v_Utxo v !! o) as [[e|]|] eqn:E; cbn [mbind option_bind]; [|done|done].
    destruct (utxo_commit (Some e)) as [e'|] eqn:Ec; [|done]. rewrite (commit_live e e' Ec). done.
Qed.

Definition store_view : ViewPointSet := set_utxo (NewViewPointSet empty_db) {[sample_point := Some sample_utxo]}.

Lemma written_view_witness :
  exists db', DbPutUtxoView [(sample_point, Some sample_utxo)] empty_db = Ok (None, db') /\ DbFetchUtxoEntry (utxosetv2 db') sample_point = Ok (inl (Some (stored sample_utxo))).
Proof.
  destruct (written_view_reads_back store_view [(sample_point, Some sample_utxo)]) as (db' & Hput & Hget).
  - unfold store_view. cbn [v_Utxo set_utxo]. by rewrite map_to_list_singleton.
  - unfold store_view. cbn [v_Utxo set_utxo v_Db NewViewPointSet]. apply map_Forall_singleton. split; [exact sample_point_ok|].
    split; [exact sample_utxo_ok|]. split; [reflexivity|discriminate].
  - exists db'. split; [exact Hput|]. destruct (Hget sample_point sample_point_ok) as [<- _]. reflexivity.
Defined.
