(* ===== verification/UtxoUndo.v ===== *)
(** * Unspent outputs: disconnecting a block undoes connecting it

    The effect of connecting and of disconnecting a transaction on the set of unspent
    outputs and on the references of borders, and that the one undoes the other. *)
From Stdlib Require Import ZArith Lia.
From stdpp Require Import gmap list.
From S2P Require Import Prelude Vlq Wire Token MsgTx MsgBlock ViewDb UtxoEntry BorderEntry DefEntry ViewSet ViewFrame PolygonGeom UtxoView UtxoStore.

Open Scope Z_scope.

(** The unspent output [o] of a set of views. *)
Definition U (v : ViewPointSet) (o : OutPoint) : outcome (option UtxoEntry + view_err) := unspent (v_Utxo v) (utxosetv2 (v_Db v)) o.

Lemma U_cached v v' o : cached v v' -> U v' o = U v o.
Proof. intros C. unfold U. by rewrite (ca_db _ _ C), (ca_utxo _ _ C). Qed.

Lemma U_put v o e o' : U (set_utxo v (<[o := Some e]> (v_Utxo v))) o' = if decide (o' = o) then Ok (inl (live (Some e))) else U v o'.
Proof.
  unfold U, unspent. cbn [v_Utxo v_Db set_utxo]. case_decide as E; [subst; by rewrite lookup_insert_eq|by rewrite lookup_insert_ne].
Qed.

(** ** Rights and monitors *)

Section Undo.
Context (HashH DoubleHashH : list Z -> list Z) (fuel : nat).

(** [TokenRights] gives no rights, whatever the output has. *)
Lemma token_rights_none (e : UtxoEntry) (v : ViewPointSet) l v' : TokenRights HashH e v = Ok (l, v') -> l = [].
Proof.
  unfold TokenRights. destruct (ue_Rights e) as [rs|]; [|intros H; by injection H]. destruct (IsEqual rs zero_hash); [intros H; by injection H|].
  case_decide as Hd; [intros H; by injection H|]. intros Hrun. apply vbind_inv in Hrun as (t & v1 & _ & Hrun). apply vbind_inv in Hrun as (yy & v2 & _ & Hrun).
  apply vbind_inv in Hrun as (u & v3 & _ & Hrun). by injection Hrun.
Qed.

(** The rights of the database can be read, and the members of its sets are rights. *)
Definition rights_sane (v : ViewPointSet) : Prop := forall h, exists o, right_at v h = Ok o /\
  forall s, o = Some (RSet s) -> forall r, r ∈ rs_Rights s -> exists o', right_at v r = Ok o' /\ (o' = None \/ exists e, o' = Some (RRight e)).

Lemma rights_of_sane v hs : (forall r, r ∈ hs -> exists o', right_at v r = Ok o' /\ (o' = None \/ exists e, o' = Some (RRight e))) ->
  exists l v', rights_of hs v = Ok (l, v') /\ cached v v'.
Proof.
  revert v. induction hs as [|h hs IH]; intros v H; [by exists [], v|]. cbn [rights_of].
  destruct (H h (list_elem_of_here _ _)) as (o & Ho & Hk). destruct (fetch_right v h o Ho) as (v1 & F1 & C1). rewrite (vbind_ok _ _ _ _ _ F1).
  destruct (IH v1) as (l & v2 & F2 & C2).
  { intros r Hr. rewrite (ca_right _ _ C1). apply H. by apply list_elem_of_further. }
  destruct Hk as [->|[e ->]].
  - exists l, v2. split; [done|]. by transitivity v1.
  - cbn [the_right]. rewrite (vbind_ok _ _ _ e v1 eq_refl), (vbind_ok _ _ _ _ _ F2). exists (e :: l), v2. split; [done|]. by transitivity v1.
Qed.

Lemma hash_rights_ok es v : exists l, hash_rights HashH es v = Ok (l, v).
Proof. induction es as [|e es (l & IH)]; [by exists []|]. cbn [hash_rights]. rewrite (vbind_ok _ _ v _ v eq_refl), (vbind_ok _ _ _ _ _ IH). by eexists. Qed.

Lemma TokenRights_sane v e : rights_sane v -> exists v', TokenRights HashH e v = Ok ([], v') /\ cached v v'.
Proof.
  intros Hs. unfold TokenRights. destruct (ue_Rights e) as [rs|]; [|by exists v]. destruct (IsEqual rs zero_hash); [by exists v|]. case_decide; [by exists v|].
  destruct (Hs rs) as (o & Ho & Hset). destruct (fetch_right v rs o Ho) as (v1 & F1 & C1). rewrite (vbind_ok _ _ _ _ _ F1).
  assert (exists l v2, SetOfRights o v1 = Ok (l, v2) /\ cached v1 v2) as (l & v2 & F2 & C2).
  { destruct o as [[r|s]|]; cbn [SetOfRights]; [by eexists _, _|..]; [|by eexists _, _]. apply rights_of_sane. intros r Hr. rewrite (ca_right _ _ C1). by apply (Hset s). }
  rewrite (vbind_ok _ _ _ _ _ F2). destruct (hash_rights_ok l v2) as (hs & F3). rewrite (vbind_ok _ _ _ _ _ F3).
  exists v2. split; [done|]. by transitivity v1.
Qed.

Lemma monitor_sane v flags o value e : rights_sane v -> exists v', monitor_output HashH flags o value e v = Ok (e, v') /\ cached v v'.
Proof. intros Hs. destruct (TokenRights_sane v e Hs) as (v' & F & C). unfold monitor_output. rewrite (vbind_ok _ _ _ _ _ F). by exists v'. Qed.

(** ** Polygons and references *)

(** The polygons of the database can be read, and their loops are made of borders that there
    are. *)
Definition polygons_sane (v : ViewPointSet) : Prop := forall h, exists o, polygon_at v h = Ok o /\
  forall p, o = Some p -> exists l, flat fuel (polygon_at v) (pe_Loops p) = Ok l /\ known_borders v (concat l).

Definition sane (v : ViewPointSet) : Prop := rights_sane v /\ polygons_sane v.

Lemma moved_sane d v v' : moved d v v' -> sane v -> sane v'.
Proof.
  intros M [Hr Hp]. split.
  - intros h. destruct (Hr h) as (o & Ho & Hs). exists o. rewrite (mv_right _ _ _ M). split; [done|]. intros s E r Hin. rewrite (mv_right _ _ _ M). eauto.
  - intros h. destruct (Hp h) as (o & Ho & Hs). exists o. rewrite (mv_polygon _ _ _ M). split; [done|]. intros p E. destruct (Hs p E) as (l & Hl & Hk). exists l.
    rewrite (flat_ext _ _ (polygon_at v)) by apply (mv_polygon _ _ _ M). split; [done|]. by eapply moved_known.
Qed.

(** How often the borders of the polygon of a token occur in it. *)
Definition weight (v : ViewPointSet) (value : option TokenValue) (h : list Z) : Z :=
  match hash_value value with
  | Ok hh => match polygon_at v hh with
      | Ok (Some p) => match flat fuel (polygon_at v) (pe_Loops p) with Ok l => occurs (concat l) h | _ => 0 end
      | _ => 0
      end
  | _ => 0
  end.

Lemma weight_moved d v v' value h : moved d v v' -> weight v' value h = weight v value h.
Proof.
  intros M. unfold weight. destruct (hash_value value) as [hh| |]; try done. rewrite (mv_polygon _ _ _ M).
  destruct (polygon_at v hh) as [[p|]| |]; try done. by rewrite (flat_ext _ _ (polygon_at v)) by apply (mv_polygon _ _ _ M).
Qed.

(** Counting the references of a polygon that stands for [hh], in either direction. *)
Lemma count_polygon (f : BorderEntry -> BorderEntry) s v value hh p : (forall e, shifted s e (f e)) -> sane v -> hash_value value = Ok hh -> polygon_at v hh = Ok (Some p) ->
  exists v', (loops ← Flattern fuel (pe_Loops p); count_borders f (concat loops)) v = Ok ((), v') /\ v_Utxo v' = v_Utxo v /\ moved (fun h => s * weight v value h) v v'.
Proof.
  intros Hf [_ Hp] Hv Hat. destruct (Hp hh) as (o & Ho & Hs). rewrite Hat in Ho. injection Ho as <-. destruct (Hs p eq_refl) as (l & Hl & Hk).
  pose proof (Flattern_flat fuel (pe_Loops p) v) as F. rewrite Hl in F. destruct F as (v1 & F1 & C1). rewrite (vbind_ok _ _ _ _ _ F1).
  destruct (count_borders_moved f s (concat l) Hf v1) as (v2 & F2 & U2 & M2); [eapply moved_known; [by apply cached_moved|done]|].
  exists v2. split; [done|]. split; [rewrite U2; apply (ca_utxo _ _ C1)|].
  eapply moved_ext; [|eapply moved_trans; [by apply cached_moved|exact M2]]. intros h. cbv beta. unfold weight. rewrite Hv, Hat, Hl. lia.
Qed.

(** ** Inputs *)

(** The outputs that inputs spend. *)
Definition spent_points (ins : list TxIn) : list OutPoint := PreviousOutPoint <$> filter (fun i => spends_nothing i = false) ins.

Lemma spent_points_nothing i ins : spends_nothing i = true -> spent_points (i :: ins) = spent_points ins.
Proof. intros H. unfold spent_points. rewrite filter_cons_False; [done|]. by rewrite H. Qed.
Lemma spent_points_cons i ins : spends_nothing i = false -> spent_points (i :: ins) = PreviousOutPoint i :: spent_points ins.
Proof. intros H. unfold spent_points. by rewrite filter_cons_True. Qed.

(** An output that can be spent: it is in the view, unspent, of a known height, and the
    polygon it may be is known. *)
Definition spendable (v : ViewPointSet) (o : OutPoint) (e : UtxoEntry) : Prop :=
  u_LookupEntry v o = Some e /\ ue_IsSpent e = false /\ ue_blockHeight e <> 0 /\
  (ue_TokenType e = PolyGonType -> exists h p, hash_value (ue_Amount e) = Ok h /\ polygon_at v h = Ok (Some p)).

Lemma spendable_U v o e : spendable v o e -> U v o = Ok (inl (Some (stored e))).
Proof.
  intros (H & Hs & _). unfold U, unspent. unfold u_LookupEntry in H. destruct (v_Utxo v !! o) as [e'|]; [|done]. simpl in H. subst e'.
  cbn [live]. by rewrite Hs.
Qed.

Lemma spendable_moved d v v' o e : moved d v v' -> v_Utxo v' !! o = v_Utxo v !! o -> spendable v o e -> spendable v' o e.
Proof.
  intros M E (H1 & H2 & H3 & H4). split_and!; try done; [unfold u_LookupEntry in *; by rewrite E|]. intros Ht. destruct (H4 Ht) as (h & p & Hh & Hp).
  exists h, p. by rewrite (mv_polygon _ _ _ M).
Qed.

(** The weight of the tokens that are polygons. *)
Definition entry_weight (v : ViewPointSet) (e : UtxoEntry) (h : list Z) : Z :=
  if decide (ue_TokenType e = PolyGonType) then weight v (ue_Amount e) h else 0.
Definition sum_weights {A} (w : A -> list Z -> Z) (l : list A) (h : list Z) : Z := foldr (fun e n => w e h + n) 0 l.

Lemma sum_weights_cons {A} (w : A -> list Z -> Z) e l h : sum_weights w (e :: l) h = w e h + sum_weights w l h.
Proof. reflexivity. Qed.
Lemma sum_weights_app {A} (w : A -> list Z -> Z) l1 l2 h : sum_weights w (l1 ++ l2) h = sum_weights w l1 h + sum_weights w l2 h.
Proof. induction l1 as [|e l1 IH]; [done|]. cbn [app sum_weights foldr] in *. unfold sum_weights in *. lia. Qed.
Lemma sum_weights_ext {A} (w w' : A -> list Z -> Z) l h : (forall e, w e h = w' e h) -> sum_weights w l h = sum_weights w' l h.
Proof. intros E. induction l as [|e l IH]; [done|]. unfold sum_weights in *. simpl. by rewrite E, IH. Qed.
Lemma sum_weights_reverse {A} (w : A -> list Z -> Z) l h : sum_weights w (reverse l) h = sum_weights w l h.
Proof.
  induction l as [|e l IH]; [done|]. rewrite reverse_cons, sum_weights_app, IH. unfold sum_weights. simpl. lia.
Qed.

Lemma entry_weight_moved d v v' e h : moved d v v' -> entry_weight v' e h = entry_weight v e h.
Proof. intros M. unfold entry_weight. case_decide; [|done]. by eapply weight_moved. Qed.

Lemma dereference_ok ins es : forall v, sane v -> Forall2 (spendable v) (spent_points ins) es ->
  exists v', dereference_ins fuel ins v = Ok (None, v') /\ v_Utxo v' = v_Utxo v /\ moved (fun h => - sum_weights (entry_weight v) es h) v v'.
Proof.
  revert es. induction ins as [|i ins IH]; intros es v Hs Hes.
  - apply Forall2_nil_inv_l in Hes as ->. exists v. split; [done|]. split; [done|]. by apply cached_moved.
  - cbn [dereference_ins]. destruct (spends_nothing i) eqn:Ei.
    { rewrite spent_points_nothing in Hes by done. by apply IH. }
    rewrite spent_points_cons in Hes by done. apply Forall2_cons_inv_l in Hes as (e & es' & He & Hes & ->).
    rewrite (vbind_ok _ _ v v v eq_refl). destruct He as (Hl & Hsp & Hh & Hpoly). rewrite Hl. case_decide as Ht.
    + destruct (Hpoly Ht) as (h & p & Eh & Ep). unfold vlift. rewrite Eh. rewrite (vbind_ok _ _ _ h v eq_refl).
      destruct (fetch_polygon v h (Some p) Ep) as (v1 & F1 & C1). rewrite (vbind_ok _ _ _ _ _ F1).
      destruct (count_polygon be_deReference (-1) v1 (ue_Amount e) h p) as (v2 & F2 & U2 & M2).
      { apply deReference_shifted. } { eapply moved_sane; [by apply cached_moved|done]. } { done. } { by rewrite (ca_polygon _ _ C1). }
      unfold pe_deReference. rewrite (vbind_ok _ _ _ _ _ F2).
      pose proof (moved_trans _ _ _ _ _ (cached_moved _ _ C1) M2) as M02.
      destruct (IH es' v2) as (v3 & F3 & U3 & M3).
      { by eapply moved_sane. }
      { eapply Forall2_impl; [exact Hes|]. intros o' e' He'. eapply spendable_moved; [exact M02| |done]. by rewrite U2, (ca_utxo _ _ C1). }
      exists v3. split; [done|]. split; [by rewrite U3, U2, (ca_utxo _ _ C1)|].
      eapply moved_ext; [|eapply moved_trans; [exact M02|exact M3]]. intros h'. cbv beta.
      rewrite (sum_weights_ext _ (entry_weight v)) by (intros e0; by eapply entry_weight_moved). rewrite sum_weights_cons. unfold entry_weight at 2. rewrite decide_True by done.
      rewrite (weight_moved _ _ _ _ _ (cached_moved _ _ C1)). lia.
    + destruct (IH es' v) as (v3 & F3 & U3 & M3); [done|done|]. exists v3. split; [done|]. split; [done|].
      eapply moved_ext; [|exact M3]. intros h'. rewrite sum_weights_cons. unfold entry_weight at 2. rewrite decide_False by done. lia.
Qed.

(** Spending: the journal gets what the entries were, in order. *)
Lemma spend_ins_ok ins es : forall v J, Forall2 (spendable v) (spent_points ins) es -> NoDup (spent_points ins) ->
  exists v', spend_ins ins (Some J) v = Ok ((None, Some (J ++ (spent_of <$> es))), v') /\ moved (fun _ => 0) v v' /\
    forall o, U v' o = if decide (o ∈ spent_points ins) then Ok (inl None) else U v o.
Proof.
  revert es. induction ins as [|i ins IH]; intros es v J Hes Hnd.
  - apply Forall2_nil_inv_l in Hes as ->. exists v. cbn. rewrite app_nil_r. split; [done|]. split; [by apply cached_moved|done].
  - cbn [spend_ins]. destruct (spends_nothing i) eqn:Ei.
    { rewrite !spent_points_nothing in * by done. by apply IH. }
    rewrite !spent_points_cons in * by done. apply Forall2_cons_inv_l in Hes as (e & es' & He & Hes & ->). apply NoDup_cons in Hnd as [Hni Hnd].
    rewrite (vbind_ok _ _ v v v eq_refl). destruct He as (Hl & Hsp & _). rewrite Hl. rewrite (vbind_ok _ _ v _ _ eq_refl).
    set (v1 := set_utxo v _). destruct (IH es' v1 (J ++ [spent_of e])) as (v2 & F2 & M2 & U2); [|done|].
    { assert (forall os es0, Forall2 (spendable v) os es0 -> PreviousOutPoint i ∉ os -> Forall2 (spendable v1) os es0) as Hkeep.
      { induction 1 as [|o' e' os es0 He' _ IHf]; intros Hn; constructor; [|apply IHf; by intros ?; apply Hn, list_elem_of_further].
        eapply spendable_moved; [apply set_utxo_moved| |done]. cbn. rewrite lookup_insert_ne; [done|]. intros E. apply Hn. rewrite E. apply list_elem_of_here. }
      by apply Hkeep. }
    exists v2. split; [rewrite F2; cbn [fmap list_fmap]; by rewrite <- app_assoc|]. split.
    + eapply moved_ext; [|eapply moved_trans; [apply set_utxo_moved|exact M2]]. done.
    + intros o. rewrite U2. unfold v1. rewrite U_put. rewrite !decide_bool_decide. cbn [live].
      assert (ue_IsSpent (ue_Spend e) = true) as -> by apply spend_flags_spent.
      repeat case_bool_decide; try done; set_solver.
Qed.

(** ** Outputs *)

Definition nopays (out : TxOut) : bool := match out_IsNopaying out with Ok b => b | _ => true end.
Definition classified (out : TxOut) : Prop := out_IsSeparator out = true \/ exists b, out_IsNopaying out = Ok b.

(** The outputs that pay somebody, here or on another chain. *)
Fixpoint pay_points (hash : list Z) (i : Z) (outs : list TxOut) : list OutPoint :=
  match outs with
  | [] => []
  | out :: outs => if out_IsSeparator out || nopays out then pay_points hash (i + 1) outs else MkOutPoint hash (u32 i) :: pay_points hash (i + 1) outs
  end.

Definition is_polygon (out : TxOut) : Prop := out_IsSeparator out = false /\ TokenType (to_Token out) = PolyGonType.
Global Instance is_polygon_dec out : Decision (is_polygon out).
Proof. unfold is_polygon. apply _. Defined.
Definition out_weight (v : ViewPointSet) (out : TxOut) (h : list Z) : Z := if decide (is_polygon out) then weight v (Value (to_Token out)) h else 0.

Lemma out_weight_moved d v v' out h : moved d v v' -> out_weight v' out h = out_weight v out h.
Proof. intros M. unfold out_weight. case_decide; [|done]. by eapply weight_moved. Qed.

Lemma out_weight_no v out h : ~ is_polygon out -> out_weight v out h = 0.
Proof. intros H. unfold out_weight. by rewrite decide_False. Qed.
Lemma out_weight_yes v out h : is_polygon out -> out_weight v out h = weight v (Value (to_Token out)) h.
Proof. intros H. unfold out_weight. by rewrite decide_True. Qed.

Definition loaded (v : ViewPointSet) (out : TxOut) : Prop := is_polygon out -> exists h p, hash_value (Value (to_Token out)) = Ok h /\ v_Polygon v !! h = Some p.

Lemma loaded_moved d v v' outs : moved d v v' -> Forall (loaded v) outs -> Forall (loaded v') outs.
Proof.
  intros M H. eapply Forall_impl; [exact H|]. intros out Hl Hp. destruct (Hl Hp) as (h & p & Eh & Ep). exists h, p. split; [done|].
  eapply lookup_weaken; [exact Ep|apply (mv_loaded _ _ _ M)].
Qed.

Lemma polygon_in_view v h p : v_Polygon v !! h = Some p -> polygon_at v h = Ok (Some p).
Proof. intros H. unfold polygon_at. by rewrite H. Qed.

Lemma reference_inv outs : forall v v', sane v -> reference_outs fuel outs v = Ok ((), v') ->
  v_Utxo v' = v_Utxo v /\ moved (fun h => sum_weights (out_weight v) outs h) v v' /\ Forall (loaded v') outs.
Proof.
  induction outs as [|out outs IH]; intros v v' Hs Hrun.
  - injection Hrun as <-. split; [done|]. split; [by apply cached_moved|done].
  - cbn [reference_outs] in Hrun. destruct (out_IsSeparator out) eqn:Es; [|case_decide as Ht].
    + destruct (IH _ _ Hs Hrun) as (Hu & M & Hl). split; [done|]. split.
      * eapply moved_ext; [|exact M]. intros h. rewrite sum_weights_cons, out_weight_no; [done|]. intros [E _]. congruence.
      * constructor; [|done]. intros [E _]. congruence.
    + apply vbind_inv in Hrun as (h & v0 & Hh & Hrun). unfold vlift in Hh. apply bind_ok_inv in Hh as (h0 & Eh & E0). injection E0 as <- <-.
      rewrite (vbind_ok _ _ v v v eq_refl) in Hrun. apply vbind_inv in Hrun as (p & v0 & Hp & Hrun).
      destruct (v_Polygon v !! h0) as [p'|] eqn:Ep; [|done]. injection Hp as <- <-.
      apply vbind_inv in Hrun as ([] & v1 & H1 & Hrun).
      destruct (count_polygon be_reference 1 v (Value (to_Token out)) h0 p') as (v1' & F1 & U1 & M1); [apply reference_shifted|done|done|by apply polygon_in_view|].
      unfold pe_reference in H1. rewrite F1 in H1. injection H1 as ->. assert (sane v1) as Hs1 by (by eapply moved_sane).
      destruct (IH _ _ Hs1 Hrun) as (Hu & M & Hl). split; [congruence|].
      assert (moved (fun h => sum_weights (out_weight v) (out :: outs) h) v v') as MM.
      { eapply moved_ext; [|eapply moved_trans; [exact M1|exact M]]. intros h. cbv beta.
        rewrite (sum_weights_ext _ (out_weight v)) by (intros; by eapply out_weight_moved).
        rewrite sum_weights_cons, out_weight_yes by done. lia. }
      split; [done|]. constructor; [|done]. intros _. exists h0, p'. split; [done|]. eapply lookup_weaken; [exact Ep|apply (mv_loaded _ _ _ MM)].
    + destruct (IH _ _ Hs Hrun) as (Hu & M & Hl). split; [done|]. split.
      * eapply moved_ext; [|exact M]. intros h. rewrite sum_weights_cons, out_weight_no; [done|]. intros [_ E]. congruence.
      * constructor; [|done]. intros [_ E]. congruence.
Qed.

Lemma add_outs_inv hash cb ht outs : forall i v v', sane v -> add_outs HashH hash i outs cb ht v = Ok ((), v') ->
  Forall classified outs /\ moved (fun _ => 0) v v' /\ forall o, o ∉ pay_points hash i outs -> U v' o = U v o.
Proof.
  induction outs as [|out outs IH]; intros i v v' Hs Hrun.
  - injection Hrun as <-. split; [done|]. split; [by apply cached_moved|done].
  - cbn [add_outs] in Hrun. cbn [pay_points]. destruct (out_IsSeparator out) eqn:Es; cbn [orb].
    { destruct (IH _ _ _ Hs Hrun) as (Hc & M & HU). split; [|done]. constructor; [by left|done]. }
    apply vbind_inv in Hrun as (np & v0 & Hnp & Hrun). unfold vlift in Hnp. apply bind_ok_inv in Hnp as (b & Eb & E0). injection E0 as <- <-.
    assert (classified out) as Hcl by (right; by exists b). unfold nopays. rewrite Eb. destruct b.
    { destruct (IH _ _ _ Hs Hrun) as (Hc & M & HU). split; [|done]. by constructor. }
    apply vbind_inv in Hrun as (cr & v0 & Hcr & Hrun). unfold vlift in Hcr. apply bind_ok_inv in Hcr as (c & Ec & E0). injection E0 as <- <-. destruct c.
    { destruct (IH _ _ _ Hs Hrun) as (Hc & M & HU). split; [by constructor|]. split; [done|]. intros o Ho. apply HU. intros Hx. apply Ho. by apply list_elem_of_further. }
    apply vbind_inv in Hrun as (e & v1 & H1 & Hrun). unfold addTxOut in H1. injection H1 as He <-. rewrite He in Hrun.
    set (v1 := set_utxo v _) in Hrun. assert (moved (fun _ => 0) v v1) as M1 by apply set_utxo_moved.
    apply vbind_inv in Hrun as (e' & v2 & H2 & Hrun).
    destruct (monitor_sane v1 TfMonitoring (MkOutPoint hash (u32 i)) (Value (to_Token out)) e) as (v2' & F2 & C2); [by eapply moved_sane|].
    rewrite F2 in H2. injection H2 as <- <-. assert (moved (fun _ => 0) v v2') as M2.
    { eapply moved_ext; [|eapply moved_trans; [exact M1|by apply cached_moved]]. done. }
    destruct (IH _ _ _ (moved_sane _ _ _ M2 Hs) Hrun) as (Hc & M & HU). split; [by constructor|]. split.
    + eapply moved_ext; [|eapply moved_trans; [exact M2|exact M]]. done.
    + intros o Ho. apply not_elem_of_cons in Ho as [Hne Ho]. rewrite HU by done. rewrite (U_cached _ _ _ C2). unfold v1. rewrite U_put. by rewrite decide_False.
Qed.

(** ** Undoing *)

Lemma sum_moved d v v' outs h : moved d v v' -> sum_weights (out_weight v') outs h = sum_weights (out_weight v) outs h.
Proof. intros M. apply sum_weights_ext. intros out. by eapply out_weight_moved. Qed.

Lemma output_polygon_loaded value amount w h p : hash_value value = Ok h -> v_Polygon w !! h = Some p -> output_polygon value amount w = Ok (Some p, w).
Proof. intros Eh Ep. unfold output_polygon, vlift. rewrite Eh. rewrite (vbind_ok _ _ w h w eq_refl), (vbind_ok _ _ w w w eq_refl), Ep. done. Qed.

Lemma remove_outs_ok hash ht outs : forall i flags w, sane w -> Forall classified outs -> Forall (loaded w) outs ->
  Forall (fun out => is_polygon out -> nopays out = false) outs ->
  exists w', remove_outs HashH fuel hash i outs flags ht w = Ok (None, w') /\ moved (fun h => - sum_weights (out_weight w) outs h) w w' /\
    forall o, U w' o = if decide (o ∈ pay_points hash i outs) then Ok (inl None) else U w o.
Proof.
  induction outs as [|out outs IH]; intros i flags w Hs Hc Hl Hp.
  - exists w. split; [done|]. split; [by apply cached_moved|done].
  - apply Forall_cons in Hc as [Hc1 Hc], Hl as [Hl1 Hl], Hp as [Hp1 Hp]. cbn [remove_outs pay_points].
    destruct (out_IsSeparator out) eqn:Es; cbn [orb].
    { destruct (IH (i + 1) (Z.ldiff flags TfCoinBase) w) as (w' & F & M & HU); try done. exists w'. split; [done|]. split; [|done].
      eapply moved_ext; [|exact M]. intros h. rewrite sum_weights_cons, out_weight_no; [done|]. intros [E _]. congruence. }
    destruct Hc1 as [Hc1|(b & Eb)]; [congruence|]. unfold vlift at 1. rewrite Eb. rewrite (vbind_ok _ _ w b w eq_refl).
    unfold nopays in *. rewrite Eb in *. destruct b.
    { destruct (IH (i + 1) flags w) as (w' & F & M & HU); try done. exists w'. split; [done|]. split; [|done].
      eapply moved_ext; [|exact M]. intros h. rewrite sum_weights_cons, out_weight_no; [done|]. intros E. by specialize (Hp1 E). }
    rewrite (vbind_ok _ _ w w w eq_refl). set (o := MkOutPoint hash (u32 i)). set (e := default _ (u_LookupEntry w o)).
    rewrite (vbind_ok _ _ w _ _ eq_refl). set (w1 := set_utxo w _). assert (moved (fun _ => 0) w w1) as M1 by apply set_utxo_moved.
    destruct (monitor_sane w1 (Z.lor TfMonitoring TfModified) o (Value (to_Token out)) e) as (w2 & F2 & C2); [by eapply moved_sane|].
    rewrite (vbind_ok _ _ _ _ _ F2). pose proof (moved_trans _ _ _ _ _ M1 (cached_moved _ _ C2)) as M2.
    match goal with |- exists w', (?m ≫= _) w2 = _ /\ _ => assert (exists w3, m w2 = Ok (None, w3) /\ v_Utxo w3 = v_Utxo w2 /\ moved (fun h => - out_weight w out h) w2 w3) as (w3 & F3 & U3 & M3) end.
    { case_decide as Ht.
      - assert (is_polygon out) as Hpo by done. destruct (Hl1 Hpo) as (h & p & Eh & Ep).
        assert (v_Polygon w2 !! h = Some p) as Ep2 by (eapply lookup_weaken; [exact Ep|apply (mv_loaded _ _ _ M2)]).
        rewrite (vbind_ok _ _ _ _ _ (output_polygon_loaded _ (ue_Amount e) _ _ _ Eh Ep2)).
        destruct (count_polygon be_deReference (-1) w2 (Value (to_Token out)) h p) as (w3 & F3 & U3 & M3);
          [apply deReference_shifted|by eapply moved_sane|done|by apply polygon_in_view|].
        unfold pe_deReference. rewrite (vbind_ok _ _ _ _ _ F3). exists w3. split; [done|]. split; [done|]. eapply moved_ext; [|exact M3].
        intros h'. cbv beta. rewrite (weight_moved _ _ _ _ _ M2), out_weight_yes by done. lia.
      - exists w2. split; [done|]. split; [done|]. eapply moved_ext; [|by apply cached_moved]. intros h. rewrite out_weight_no; [done|]. by intros [_ E]. }
    rewrite (vbind_ok _ _ _ _ _ F3). rewrite (vbind_ok _ _ w3 _ _ eq_refl). set (w4 := set_utxo w3 _).
    assert (moved (fun h => - out_weight w out h) w w4) as M4.
    { eapply moved_ext; [|eapply moved_trans; [exact M2|eapply moved_trans; [exact M3|apply set_utxo_moved]]]. intros h. cbv beta. lia. }
    destruct (IH (i + 1) flags w4) as (w' & F & M & HU); [by eapply moved_sane|done|by eapply loaded_moved|done|].
    exists w'. split; [done|]. split.
    + eapply moved_ext; [|eapply moved_trans; [exact M4|exact M]]. intros h. cbv beta. rewrite (sum_moved _ _ _ _ _ M4), sum_weights_cons. lia.
    + intros o'. rewrite HU. unfold w4. rewrite U_put. fold o. cbn [live]. assert (ue_IsSpent (ue_Spend e) = true) as -> by apply spend_flags_spent.
      assert (o' <> o -> U w3 o' = U w o') as E3.
      { intros Hne. unfold U. rewrite U3, (mv_db _ _ _ M3), (ca_utxo _ _ C2), (ca_db _ _ C2). fold (U w1 o'). unfold w1. rewrite U_put. by rewrite decide_False. }
      destruct (decide (o' ∈ pay_points hash (i + 1) outs)); destruct (decide (o' = o)); destruct (decide (o' ∈ o :: pay_points hash (i + 1) outs)); try done; solve [set_solver|by apply E3].
Qed.

(** An entry whose spending can be undone from the journal. *)
Definition restorable (w : ViewPointSet) (e : UtxoEntry) : Prop :=
  ue_blockHeight e <> 0 /\ (ue_TokenType e = PolyGonType -> exists h p, hash_value (ue_Amount e) = Ok h /\ polygon_at w h = Ok (Some p)).

Lemma restorable_moved d w w' e : moved d w w' -> restorable w e -> restorable w' e.
Proof. intros M [H1 H2]. split; [done|]. intros Ht. destruct (H2 Ht) as (h & p & Eh & Ep). exists h, p. by rewrite (mv_polygon _ _ _ M). Qed.

Lemma restored_live e m : ue_IsSpent (MkUtxo (ue_TokenType e) (ue_Amount e) (ue_Rights e) (ue_pkScript e) (ue_blockHeight e) (if ue_IsCoinBase e then Z.lor TfModified TfCoinBase else TfModified) m) = false /\
  live (Some (MkUtxo (ue_TokenType e) (ue_Amount e) (ue_Rights e) (ue_pkScript e) (ue_blockHeight e) (if ue_IsCoinBase e then Z.lor TfModified TfCoinBase else TfModified) m)) = Some (stored e).
Proof. unfold live, stored, ue_IsSpent. cbn [ue_packedFlags]. destruct (ue_IsCoinBase e) eqn:E; split; try reflexivity. Qed.

Lemma restore_ok txHash o e w : sane w -> restorable w e -> exists w', restore HashH fuel txHash o (spent_of e) w = Ok (None, w') /\
  moved (entry_weight w e) w w' /\ forall o', U w' o' = if decide (o' = o) then Ok (inl (Some (stored e))) else U w o'.
Proof.
  intros Hs [Hh Hp]. unfold restore. rewrite (vbind_ok _ _ w w w eq_refl). set (old := default new_utxo _). rewrite (vbind_ok _ _ w _ _ eq_refl).
  set (w1 := set_utxo w _). rewrite (vbind_ok _ _ w1 w1 w1 eq_refl). cbn [st_Height spent_of st_TokenType st_Amount st_Rights st_PkScript st_IsCoinBase].
  rewrite decide_False by done. rewrite (vbind_ok _ _ w1 _ w1 eq_refl). set (e1 := MkUtxo _ _ _ _ _ _ _). rewrite (vbind_ok _ _ w1 _ _ eq_refl). set (w2 := set_utxo w1 _).
  assert (moved (fun _ => 0) w w2) as M2.
  { eapply moved_ext; [|eapply moved_trans; [apply (set_utxo_moved w)|apply (set_utxo_moved w1)]]. done. }
  cbn [ue_TokenType ue_Amount e1].
  match goal with |- exists w', (?m ≫= _) w2 = _ /\ _ => assert (exists w3, m w2 = Ok (None, w3) /\ v_Utxo w3 = v_Utxo w2 /\ moved (entry_weight w e) w2 w3) as (w3 & F3 & U3 & M3) end.
  { case_decide as Ht.
    - destruct (Hp Ht) as (h & p & Eh & Ep). assert (polygon_at w2 h = Ok (Some p)) as Ep2 by (by rewrite (mv_polygon _ _ _ M2)).
      assert (exists w3, output_polygon (ue_Amount e) (ue_Amount e) w2 = Ok (Some p, w3) /\ cached w2 w3) as (w3 & F & C).
      { unfold output_polygon, vlift. rewrite Eh. rewrite (vbind_ok _ _ w2 h w2 eq_refl), (vbind_ok _ _ w2 w2 w2 eq_refl).
        destruct (v_Polygon w2 !! h) as [p'|] eqn:Ev.
        - unfold polygon_at in Ep2. rewrite Ev in Ep2. injection Ep2 as ->. by exists w2.
        - rewrite (vbind_ok _ _ w2 h w2 eq_refl). by apply fetch_polygon. }
      rewrite (vbind_ok _ _ _ _ _ F).
      destruct (count_polygon be_reference 1 w3 (ue_Amount e) h p) as (w4 & F4 & U4 & M4);
        [apply reference_shifted|eapply moved_sane; [by apply cached_moved|by eapply moved_sane]|done|by rewrite (ca_polygon _ _ C)|].
      unfold pe_reference. rewrite (vbind_ok _ _ _ _ _ F4). exists w4. split; [done|]. split; [by rewrite U4, (ca_utxo _ _ C)|].
      eapply moved_ext; [|eapply moved_trans; [by apply cached_moved|exact M4]]. intros h'. cbv beta.
      rewrite (weight_moved _ _ _ _ _ (cached_moved _ _ C)), (weight_moved _ _ _ _ _ M2). unfold entry_weight. rewrite decide_True by done. lia.
    - exists w2. split; [done|]. split; [done|]. eapply moved_ext; [|by apply cached_moved]. intros h. unfold entry_weight. by rewrite decide_False. }
  rewrite (vbind_ok _ _ _ _ _ F3). destruct (monitor_sane w3 TfMonitoring o (ue_Amount e) e1) as (w4 & F4 & C4); [eapply moved_sane; [exact M3|by eapply moved_sane]|].
  rewrite (vbind_ok _ _ _ _ _ F4). exists w4. split; [done|]. split.
  - eapply moved_ext; [|eapply moved_trans; [exact M2|eapply moved_trans; [exact M3|by apply cached_moved]]]. intros h. cbv beta. lia.
  - intros o'. rewrite (U_cached _ _ _ C4). unfold U. rewrite U3, (mv_db _ _ _ M3). fold (U w2 o'). unfold w2. rewrite U_put. unfold w1. rewrite U_put.
    destruct (decide (o' = o)); [|done]. f_equal. f_equal. apply restored_live.
Qed.

Lemma restore_ins_ok txHash R ins es : forall w, sane w -> length (spent_points ins) = length es -> Forall (restorable w) es -> NoDup (spent_points ins) ->
  exists w', restore_ins HashH fuel txHash ins ((spent_of <$> es) ++ R) w = Ok ((None, R), w') /\ moved (fun h => sum_weights (entry_weight w) es h) w w' /\
    Forall2 (fun o e => U w' o = Ok (inl (Some (stored e)))) (spent_points ins) es /\ forall o, o ∉ spent_points ins -> U w' o = U w o.
Proof.
  revert es. induction ins as [|i ins IH]; intros es w Hs Hl Hr Hnd.
  - destruct es; [|done]. exists w. split; [done|]. split; [by apply cached_moved|]. split; [constructor|done].
  - cbn [restore_ins]. destruct (spends_nothing i) eqn:Ei.
    { rewrite !spent_points_nothing in * by done. by apply IH. }
    rewrite !spent_points_cons in * by done. destruct es as [|e es]; [done|]. apply Forall_cons in Hr as [Hr1 Hr]. apply NoDup_cons in Hnd as [Hni Hnd].
    cbn [fmap list_fmap app]. destruct (restore_ok txHash (PreviousOutPoint i) e w Hs Hr1) as (w1 & F1 & M1 & U1). rewrite (vbind_ok _ _ _ _ _ F1).
    destruct (IH es w1) as (w2 & F2 & M2 & HF & HU).
    { by eapply moved_sane. } { by injection Hl. } { eapply Forall_impl; [exact Hr|]. intros e'. by eapply restorable_moved. } { done. }
    exists w2. split; [done|]. split_and!.
    + eapply moved_ext; [|eapply moved_trans; [exact M1|exact M2]]. intros h. cbv beta. rewrite sum_weights_cons.
      f_equal. apply sum_weights_ext. intros e'. by eapply entry_weight_moved.
    + constructor; [|done]. rewrite HU by done. rewrite U1. by rewrite decide_True.
    + intros o Ho. apply not_elem_of_cons in Ho as [Hne Ho]. rewrite HU by done. rewrite U1. by rewrite decide_False.
Qed.

(** ** A transaction *)

(** What a transaction spends; the coin base ([first]) and what comes from another chain spend
    nothing. *)
Definition tx_spends (first : bool) (tx : MsgTx) : list OutPoint := if first || tx_IsCrossChain tx then [] else spent_points (TxIns tx).

(** A transaction that fits the view: it defines nothing, its outputs are new, no polygon is
    paid to nobody, and it spends each unspent output once. *)
Record fits (v : ViewPointSet) (first : bool) (tx : MsgTx) : Prop := MkFits {
  fi_def : TxDef tx = [];
  fi_coinbase : IsCoinBase tx = Ok first;
  fi_new : forall hash, TxHash DoubleHashH tx = Ok hash -> Forall (fun o => U v o = Ok (inl None)) (pay_points hash 0 (TxOuts tx));
  fi_polygon : Forall (fun out => is_polygon out -> nopays out = false) (TxOuts tx);
  fi_nodup : NoDup (tx_spends first tx);
  fi_ins : exists es, Forall2 (spendable v) (tx_spends first tx) es;
}.

Lemma AddTxOuts_inv tx ht v v' : AddTxOuts HashH DoubleHashH tx ht v = Ok ((), v') ->
  exists cb hash, TxHash DoubleHashH tx = Ok hash /\ add_outs HashH hash 0 (TxOuts tx) cb ht v = Ok ((), v').
Proof.
  unfold AddTxOuts. intros H. apply vbind_inv in H as (cb & v0 & H0 & H). unfold vlift in H0. apply bind_ok_inv in H0 as (cb' & _ & E0). injection E0 as <- <-.
  apply vbind_inv in H as (hash & v0 & H0 & H). unfold vlift in H0. apply bind_ok_inv in H0 as (hash' & Eh & E0). injection E0 as <- <-. by exists cb', hash'.
Qed.

(** The parts of connecting a transaction that fits. *)
Lemma connect_parts tx ht J0 J1 v v1 first es : sane v -> fits v first tx -> Forall2 (spendable v) (tx_spends first tx) es ->
  connect_tx HashH DoubleHashH fuel tx ht (Some J0) v = Ok ((None, J1), v1) ->
  exists vb vc hash cb, J1 = Some (J0 ++ (spent_of <$> es)) /\
    moved (fun h => - sum_weights (entry_weight v) es h + sum_weights (out_weight v) (TxOuts tx) h) v vb /\ Forall (loaded vb) (TxOuts tx) /\
    moved (fun _ => 0) vb vc /\ (forall o, U vc o = if decide (o ∈ tx_spends first tx) then Ok (inl None) else U v o) /\
    TxHash DoubleHashH tx = Ok hash /\ add_outs HashH hash 0 (TxOuts tx) cb ht vc = Ok ((), v1).
Proof.
  intros Hs Hf Hes Hrun. destruct Hf as [Hd Hcb _ _ Hnd _]. unfold connect_tx, AddBorder, AddRights, AddPolygon in Hrun. rewrite Hd in Hrun.
  cbn [add_defs] in Hrun. do 3 (rewrite (vbind_ok _ _ v true v eq_refl) in Hrun; cbn [negb] in Hrun).
  unfold vlift at 1 in Hrun. rewrite Hcb in Hrun. rewrite (vbind_ok _ _ v first v eq_refl) in Hrun.
  apply vbind_inv in Hrun as (err & va & Hder & Hrun).
  assert (err = None /\ v_Utxo va = v_Utxo v /\ moved (fun h => - sum_weights (entry_weight v) es h) v va) as (-> & Ua & Ma).
  { unfold tx_spends in *. destruct first, (tx_IsCrossChain tx); cbn [negb andb orb] in *;
      try (injection Hder as <- <-; split; [done|]; split; [done|]; apply Forall2_nil_inv_l in Hes as ->; by apply cached_moved).
    destruct (dereference_ok _ _ v Hs Hes) as (va' & F & Ua & Ma). rewrite F in Hder. by injection Hder as <- <-. }
  apply vbind_inv in Hrun as ([] & vb & Href & Hrun).
  destruct (reference_inv _ _ _ (moved_sane _ _ _ Ma Hs) Href) as (Ub & Mb & Hl).
  assert (moved (fun h => - sum_weights (entry_weight v) es h + sum_weights (out_weight v) (TxOuts tx) h) v vb) as Mvb.
  { eapply moved_ext; [|eapply moved_trans; [exact Ma|exact Mb]]. intros h. cbv beta. by rewrite (sum_moved _ _ _ _ _ Ma). }
  assert (forall o, U vb o = U v o) as Evb by (intros o; unfold U; by rewrite Ub, Ua, (mv_db _ _ _ Mvb)).
  apply vbind_inv in Hrun as ([err' st] & v1' & Hcon & Hrun). injection Hrun as <- <-.
  unfold ConnectTransaction in Hcon. unfold vlift at 1 in Hcon. rewrite Hcb in Hcon. rewrite (vbind_ok _ _ vb first vb eq_refl) in Hcon.
  assert (exists vc, moved (fun _ => 0) vb vc /\ (forall o, U vc o = if decide (o ∈ tx_spends first tx) then Ok (inl None) else U v o) /\ st = Some (J0 ++ (spent_of <$> es)) /\
    AddTxOuts HashH DoubleHashH tx ht vc = Ok ((), v1')) as (vc & Mc & Uc & Est & Hadd).
  { unfold tx_spends in *. destruct first; cbn [orb] in *; [|destruct (tx_IsCrossChain tx)].
    - apply vbind_inv in Hcon as ([] & v2 & Hadd & Hr). injection Hr as <- <- <-. apply Forall2_nil_inv_l in Hes as ->. cbn. rewrite app_nil_r.
      exists vb. split; [by apply cached_moved|]. split; [intros o; by rewrite Evb|]. done.
    - rewrite (vbind_ok _ _ vb (None, Some J0) vb eq_refl) in Hcon. apply vbind_inv in Hcon as ([] & v2 & Hadd & Hr). injection Hr as <- <- <-.
      apply Forall2_nil_inv_l in Hes as ->. cbn. rewrite app_nil_r. exists vb. split; [by apply cached_moved|]. split; [intros o; by rewrite Evb|]. done.
    - destruct (spend_ins_ok (TxIns tx) es vb J0) as (vc & F & Mc & Uc).
      { eapply Forall2_impl; [exact Hes|]. intros o e. eapply spendable_moved; [exact Mvb|]. by rewrite Ub, Ua. }
      { done. }
      rewrite (vbind_ok _ _ _ _ _ F) in Hcon. apply vbind_inv in Hcon as ([] & v2 & Hadd & Hr). injection Hr as <- <- <-.
      exists vc. split; [done|]. split; [intros o; rewrite Uc; by rewrite Evb|]. done. }
  destruct (AddTxOuts_inv _ _ _ _ Hadd) as (cb & hash & Eh & Hadd'). exists vb, vc, hash, cb. by split_and!.
Qed.

Lemma spent_points_reverse ins : spent_points (reverse ins) = reverse (spent_points ins).
Proof. unfold spent_points. by rewrite filter_reverse, fmap_reverse. Qed.

Lemma spendable_restorable v o e : spendable v o e -> restorable v e.
Proof. intros (_ & _ & H1 & H2). by split. Qed.

(** Undoing a transaction that has been connected: from any view that stands for the same
    outputs as the view after connecting it. *)
Lemma tx_undo tx ht J0 J1 v v1 first es : sane v -> fits v first tx -> Forall2 (spendable v) (tx_spends first tx) es ->
  connect_tx HashH DoubleHashH fuel tx ht (Some J0) v = Ok ((None, J1), v1) ->
  exists d, J1 = Some (J0 ++ (spent_of <$> es)) /\ moved d v v1 /\
    forall w d' R rest, moved d' v1 w -> (forall o, U w o = U v1 o) -> bool_decide (rest = []) = first ->
    exists w', disconnect_txs HashH DoubleHashH fuel (tx :: rest) ht (reverse (spent_of <$> es) ++ R) w =
      disconnect_txs HashH DoubleHashH fuel rest ht R w' /\ moved (fun h => - d h) w w' /\ forall o, U w' o = U v o.
Proof.
  intros Hs Hf Hes Hrun. destruct (connect_parts _ _ _ _ _ _ _ _ Hs Hf Hes Hrun) as (vb & vc & hash & cb & EJ & Mb & Hl & Mc & Uc & Eh & Hadd).
  pose proof (moved_trans _ _ _ _ _ Mb Mc) as Mvc.
  destruct (add_outs_inv _ _ _ _ _ _ _ (moved_sane _ _ _ Mvc Hs) Hadd) as (Hcl & M1 & U1). pose proof (moved_trans _ _ _ _ _ Mvc M1) as Mv1.
  eexists. split; [exact EJ|]. split; [exact Mv1|]. intros w d' R rest Mw Uw Hfirst. cbn [disconnect_txs]. rewrite Hfirst.
  unfold vlift. rewrite Eh. rewrite (vbind_ok _ _ w hash w eq_refl).
  pose proof (moved_trans _ _ _ _ _ Mv1 Mw) as Mvw. assert (sane w) as Hsw by (by eapply moved_sane).
  destruct Hf as [_ _ Hnew Hpoly Hnd _]. specialize (Hnew hash Eh).
  destruct (remove_outs_ok hash ht (TxOuts tx) 0 (if first then TfCoinBase else 0) w) as (w1 & F1 & Mr & Ur); try done.
  { eapply loaded_moved; [|exact Hl]. exact (moved_trans _ _ _ _ _ Mc (moved_trans _ _ _ _ _ M1 Mw)). }
  rewrite (vbind_ok _ _ _ _ _ F1).
  (* after removing the outputs: the unspent outputs but for the inputs *)
  assert (forall o, U w1 o = if decide (o ∈ tx_spends first tx) then Ok (inl None) else U v o) as Uw1.
  { intros o. rewrite Ur. case_decide as Hin.
    - rewrite Forall_forall in Hnew. rewrite (Hnew o Hin). by case_decide.
    - by rewrite Uw, U1, Uc by done. }
  assert (forall h, sum_weights (out_weight w) (TxOuts tx) h = sum_weights (out_weight v) (TxOuts tx) h) as Ow by (intros h; by apply (sum_moved _ _ _ _ _ Mvw)).
  destruct (first || tx_IsCrossChain tx) eqn:Efc.
  - assert (tx_spends first tx = []) as Esp by (unfold tx_spends; by rewrite Efc). rewrite Esp in Hes. apply Forall2_nil_inv_l in Hes as ->.
    exists w1. split; [done|]. split.
    + eapply moved_ext; [|exact Mr]. intros h. cbv beta. rewrite Ow. unfold sum_weights at 2. simpl. lia.
    + intros o. rewrite Uw1, Esp. rewrite decide_False; [done|]. apply not_elem_of_nil.
  - assert (tx_spends first tx = spent_points (TxIns tx)) as Esp by (unfold tx_spends; by rewrite Efc). rewrite Esp in *.
    rewrite <- fmap_reverse. destruct (restore_ins_ok hash R (reverse (TxIns tx)) (reverse es) w1) as (w2 & F2 & M2 & HF & HU).
    { by eapply moved_sane. }
    { rewrite spent_points_reverse, !length_reverse. by apply Forall2_length in Hes. }
    { apply Forall_reverse. apply Forall_forall. intros e He. apply list_elem_of_lookup in He as (k & Hk).
      destruct (Forall2_lookup_r _ _ _ _ _ Hes Hk) as (o & _ & Ho). eapply restorable_moved; [exact (moved_trans _ _ _ _ _ Mvw Mr)|]. by eapply spendable_restorable. }
    { rewrite spent_points_reverse. by rewrite reverse_Permutation. }
    rewrite (vbind_ok _ _ _ _ _ F2). exists w2. split; [done|]. split.
    + eapply moved_ext; [|eapply moved_trans; [exact Mr|exact M2]]. intros h. cbv beta. rewrite Ow, sum_weights_reverse.
      rewrite (sum_weights_ext (entry_weight w1) (entry_weight v)) by (intros e; eapply entry_weight_moved; exact (moved_trans _ _ _ _ _ Mvw Mr)). lia.
    + rewrite spent_points_reverse in HF, HU. intros o. destruct (decide (o ∈ spent_points (TxIns tx))) as [Hin|Hni].
      * apply list_elem_of_lookup in Hin as (k & Hk). destruct (Forall2_lookup_l _ _ _ _ _ Hes Hk) as (e & He & Hsp).
        rewrite (spendable_U _ _ _ Hsp). apply Forall2_reverse in HF. rewrite !reverse_involutive in HF. exact (Forall2_lookup_lr _ _ _ _ _ _ HF Hk He).
      * rewrite HU by (by rewrite elem_of_reverse). rewrite Uw1. by rewrite decide_False.
Qed.

(** ** A block *)

(** The transactions fit the views that connecting those before them gives. *)
Fixpoint fits_all (ht : Z) (v : ViewPointSet) (txs : list MsgTx) : Prop :=
  match txs with
  | [] => True
  | tx :: txs => fits v false tx /\ forall J0 J1 v1, connect_tx HashH DoubleHashH fuel tx ht (Some J0) v = Ok ((None, J1), v1) -> fits_all ht v1 txs
  end.
Definition block_fits (v : ViewPointSet) (b : Block) : Prop :=
  match b_Transactions b with
  | [] => False
  | tx :: txs => fits v true tx /\ forall J0 J1 v1, connect_tx HashH DoubleHashH fuel tx (b_Height b) (Some J0) v = Ok ((None, J1), v1) -> fits_all (b_Height b) v1 txs
  end.

Definition spend_count (txs : list MsgTx) : nat := foldr (fun tx n => length (tx_spends false tx) + n)%nat 0%nat txs.

Lemma txs_undo ht txs : forall v J0 J1 v1, sane v -> fits_all ht v txs -> connect_txs HashH DoubleHashH fuel txs ht (Some J0) v = Ok ((None, J1), v1) ->
  exists J d, J1 = Some (J0 ++ J) /\ length J = spend_count txs /\ Forall (fun tx => TxDef tx = []) txs /\ moved d v v1 /\
    forall w d' R rest, moved d' v1 w -> (forall o, U w o = U v1 o) -> rest <> [] ->
    exists w', disconnect_txs HashH DoubleHashH fuel (reverse txs ++ rest) ht (reverse J ++ R) w =
      disconnect_txs HashH DoubleHashH fuel rest ht R w' /\ moved (fun h => - d h) w w' /\ forall o, U w' o = U v o.
Proof.
  induction txs as [|tx txs IH]; intros v J0 J1 v1 Hs Hf Hrun.
  - injection Hrun as <- <-. exists [], (fun _ => 0). rewrite app_nil_r. split_and!; try done; [by apply cached_moved|].
    intros w d' R rest Mw Uw Hne. exists w. split; [done|]. split; [by apply cached_moved|done].
  - destruct Hf as [Hf Hfa]. cbn [connect_txs] in Hrun. apply vbind_inv in Hrun as ([err st] & v2 & Htx & Hrun). destruct err; [done|].
    destruct (fi_ins _ _ _ Hf) as (es & Hes). destruct (tx_undo _ _ _ _ _ _ _ _ Hs Hf Hes Htx) as (d1 & -> & M1 & Hundo1).
    destruct (IH v2 _ _ _ (moved_sane _ _ _ M1 Hs) (Hfa _ _ _ Htx) Hrun) as (J & d2 & -> & HJ & Hdefs & M2 & Hundo2).
    exists ((spent_of <$> es) ++ J), (fun h => d1 h + d2 h). rewrite <- app_assoc. split; [done|]. split; [|split; [|split]].
    + rewrite length_app, length_fmap, HJ. cbn [spend_count foldr]. by rewrite (Forall2_length _ _ _ Hes).
    + constructor; [apply (fi_def _ _ _ Hf)|done].
    + by eapply moved_trans.
    + intros w d' R rest Mw Uw Hne. rewrite reverse_cons, reverse_app, <- !app_assoc. cbn [app].
      destruct (Hundo2 w d' (reverse (spent_of <$> es) ++ R) (tx :: rest) Mw Uw ltac:(done)) as (w1 & -> & Mw1 & Uw1).
      destruct (Hundo1 w1 _ R rest (moved_trans _ _ _ _ _ M2 (moved_trans _ _ _ _ _ Mw Mw1)) Uw1) as (w2 & -> & Mw2 & Uw2); [by apply bool_decide_eq_false_2|].
      exists w2. split; [done|]. split; [|done]. eapply moved_ext; [|eapply moved_trans; [exact Mw1|exact Mw2]]. intros h. cbv beta. lia.
Qed.

Lemma count_tx ins : forall n, foldl (fun n i => if spends_nothing i then n - 1 else n) (n + len ins) ins = n + len (spent_points ins).
Proof.
  induction ins as [|i ins IH]; intros n; [done|]. cbn [foldl length]. destruct (spends_nothing i) eqn:E.
  - rewrite spent_points_nothing by done. rewrite <- IH. f_equal. lia.
  - rewrite spent_points_cons by done. cbn [length]. replace (n + Z.of_nat (S (length ins))) with (n + 1 + len ins) by lia. rewrite IH. lia.
Qed.

Lemma btc_crosses tx : IsBtcL2 tx = true -> tx_IsCrossChain tx = true.
Proof.
  unfold IsBtcL2, tx_IsCrossChain. destruct (TxIns tx) as [|i [|]]; try done. rewrite !andb_true_iff, !bool_decide_eq_true. intros [-> ->]. done.
Qed.

Lemma CountSpentOutputs_ok b tx txs : b_Transactions b = tx :: txs -> CountSpentOutputs b = Ok (Z.of_nat (spend_count txs)).
Proof.
  intros E. unfold CountSpentOutputs. rewrite E. f_equal. clear E.
  assert (forall l n, foldl (fun n tx => if IsBtcL2 tx then n else if tx_IsCrossChain tx then n
    else foldl (fun n i => if spends_nothing i then n - 1 else n) (n + len (TxIns tx)) (TxIns tx)) n l = n + Z.of_nat (spend_count l)) as H.
  { induction l as [|t l IH]; intros n; [simpl; lia|]. cbn [foldl spend_count foldr]. unfold tx_spends at 1. cbn [orb].
    destruct (IsBtcL2 t) eqn:Eb; [apply btc_crosses in Eb; rewrite Eb, IH; simpl; done|].
    destruct (tx_IsCrossChain t); [rewrite IH; done|]. rewrite count_tx, IH. fold (spend_count l). lia. }
  by rewrite H.
Qed.

Lemma each_def_none f txs v : Forall (fun tx => TxDef tx = []) txs -> each_def f txs v = Ok ((), v).
Proof. induction 1 as [|tx txs E _ IH]; [done|]. cbn [each_def]. rewrite E. cbn [add_defs]. rewrite (vbind_ok _ _ v true v eq_refl). done. Qed.

Lemma best_moved v h : moved (fun _ => 0) v (SetBestHash v h).
Proof. constructor; try done. intros h' _. apply oshifted_refl. Qed.
End Undo.

(** Disconnecting a block with the journal of what it spent undoes connecting it.  A block
    without definitions, whose transactions fit the view (every output they pay is new, and
    every output they spend is unspent, spent once and not of height 0), and which has been
    connected, can be disconnected; every output is then unspent exactly when it was before,
    with the same content, every border has the references it had, the polygons and rights
    are those there were, and the views stand at the block before it. *)
Lemma connect_undone (HashH DoubleHashH : list Z -> list Z) (fuel : nat) (b : Block) (v v1 : ViewPointSet) (stxos : list SpentTxOut)
  (Hsane : sane fuel v) (Hfits : block_fits HashH DoubleHashH fuel v b)
  (Hconnect : ConnectTransactions HashH DoubleHashH fuel b (Some []) v = Ok ((None, Some stxos), v1)) :
  exists v2, DisconnectTransactions HashH DoubleHashH fuel b stxos v1 = Ok (None, v2) /\
    (forall o, U v2 o = U v o) /\ (forall h, unsigned h = h -> oshifted 0 (border_at v h) (border_at v2 h)) /\
    (forall h, polygon_at v2 h = polygon_at v h) /\ (forall h, right_at v2 h = right_at v h) /\ v_utxoBest v2 = h_PrevBlock (Header (b_msgBlock b)).
Proof.
  unfold ConnectTransactions in Hconnect. apply vbind_inv in Hconnect as ([err st] & va & Hrun & Hbest). destruct err; [done|].
  rewrite (vbind_ok _ _ va () _ eq_refl) in Hbest. injection Hbest as -> <-.
  unfold block_fits in Hfits. destruct (b_Transactions b) as [|cb txs] eqn:Etx; [done|]. destruct Hfits as [Hf Hfa].
  cbn [connect_txs] in Hrun. apply vbind_inv in Hrun as ([err st] & vc & Hcb & Hrun). destruct err; [done|].
  destruct (fi_ins _ _ _ _ Hf) as (es & Hes). destruct (tx_undo _ _ _ _ _ _ _ _ _ _ _ Hsane Hf Hes Hcb) as (d1 & -> & M1 & Hundo1).
  cbn in Hes. apply Forall2_nil_inv_l in Hes as ->. cbn [fmap list_fmap app] in *.
  destruct (txs_undo _ _ _ _ txs vc _ _ _ (moved_sane _ _ _ _ M1 Hsane) (Hfa _ _ _ Hcb) Hrun) as (J & d2 & EJ & HJ & Hdefs & M2 & Hundo2).
  injection EJ as ->. cbn [app] in *.
  assert (Forall (fun tx => TxDef tx = []) (cb :: txs)) as Hall by (constructor; [apply (fi_def _ _ _ _ Hf)|done]).
  set (prev := h_PrevBlock (Header (b_msgBlock b))). unfold DisconnectTransactions, disconnectRightTransactions, disconnectPolygonTransactions, disconnectBorderTransactions.
  rewrite Etx. fold prev. set (v1 := SetBestHash va _).
  set (w := set_borderBest (set_polygonBest (set_rightsBest v1 prev) prev) prev).
  assert (forall (m : vm unit) (k : vm (option view_err)) x y, m x = Ok ((), y) -> (m ≫= fun _ : unit => k) x = k y) as step
    by (intros m k x y E; exact (vbind_ok m (fun _ => k) x () y E)).
  rewrite (step _ _ v1 (set_rightsBest v1 prev)) by (rewrite (vbind_ok _ _ v1 () v1) by (by apply each_def_none); done).
  rewrite (step _ _ _ (set_polygonBest (set_rightsBest v1 prev) prev)) by (rewrite (vbind_ok _ _ _ () _ (each_def_none _ _ _ Hall)); done).
  rewrite (step _ _ _ w) by (rewrite (vbind_ok _ _ _ () _ (each_def_none _ _ _ Hall)); done).
  unfold disconnectTransactions. rewrite (CountSpentOutputs_ok b cb txs Etx). unfold vlift. rewrite (vbind_ok _ _ w _ w eq_refl).
  rewrite decide_False by (rewrite HJ; intros H; by apply H). rewrite Etx, reverse_cons.
  assert (moved (fun _ => 0) va w) as Mw by (constructor; try done; intros h _; apply oshifted_refl).
  destruct (Hundo2 w _ [] [cb] Mw ltac:(done) ltac:(done)) as (w1 & F1 & Mw1 & Uw1). rewrite app_nil_r in F1.
  destruct (Hundo1 w1 _ [] [] (moved_trans _ _ _ _ _ M2 (moved_trans _ _ _ _ _ Mw Mw1)) Uw1 eq_refl) as (w2 & F2 & Mw2 & Uw2).
  cbn [reverse rev_append app] in F2. change (reverse [] ++ []) with (@nil SpentTxOut) in F2. rewrite F2 in F1. cbn [disconnect_txs] in F1.
  rewrite (vbind_ok _ _ _ _ _ F1). rewrite (vbind_ok _ _ w2 () _ eq_refl). eexists. split; [reflexivity|].
  assert (moved (fun _ => 0) v w2) as M.
  { eapply moved_ext; [|exact (moved_trans _ _ _ _ _ M1 (moved_trans _ _ _ _ _ M2 (moved_trans _ _ _ _ _ Mw (moved_trans _ _ _ _ _ Mw1 Mw2))))]. intros h. cbv beta. lia. }
  split; [exact Uw2|]. split; [exact (mv_border _ _ _ M)|]. split; [exact (mv_polygon _ _ _ M)|]. split; [exact (mv_right _ _ _ M)|done].
Qed.

(** ** A block that spends an output *)

Definition toy_hash (b : list Z) : list Z := replicate 31 9 ++ [foldr Z.add 0 b mod 256].
Definition old_point : OutPoint := MkOutPoint (replicate 32 5) 1.
Definition old_entry : UtxoEntry := MkUtxo 0 (Some (NumToken 50)) None pay_script 5 0 [].
Definition undo_view : ViewPointSet := set_utxo (NewViewPointSet empty_db) {[old_point := Some old_entry]}.
Definition pay (n : Z) : TxOut := MkTxOut (MkToken 0 (Some (NumToken n)) None) pay_script.
Definition undo_coinbase : MsgTx := MkMsgTx 1 [] [coin_in] [pay 10] 0 [].
Definition undo_spend : MsgTx := MkMsgTx 1 [] [MkTxIn old_point MaxTxInSequenceNum 0] [pay 20; pay 30] 0 [].
Definition undo_block : Block := MkBtcBlock (MkBlock sample_header [undo_coinbase; undo_spend]) 7.

Lemma empty_sane m : sane 1 (set_utxo (NewViewPointSet empty_db) m).
Proof.
  split; intros h; exists None; (split; [|done]).
  - unfold right_at, DbFetchRight, b_Get. cbn [v_Rights v_Db set_utxo NewViewPointSet rights empty_db]. rewrite !lookup_empty. by case_decide.
  - unfold polygon_at, DbFetchPolygon, b_Get. cbn [v_Polygon v_Db set_utxo NewViewPointSet polygons empty_db]. rewrite !lookup_empty. by case_decide.
Qed.

Definition view_after {A} (r : outcome (A * ViewPointSet)) : ViewPointSet := match r with Ok (_, v) => v | _ => undo_view end.
Definition after_coinbase : ViewPointSet := view_after (connect_tx toy_hash toy_hash 1 undo_coinbase 7 (Some []) undo_view).
Definition undo_connected : outcome ((option view_err * option (list SpentTxOut)) * ViewPointSet) := ConnectTransactions toy_hash toy_hash 1 undo_block (Some []) undo_view.
Definition undo_journal : list SpentTxOut := match undo_connected with Ok ((_, Some s), _) => s | _ => [] end.

Lemma undo_connects : ConnectTransactions toy_hash toy_hash 1 undo_block (Some []) undo_view = Ok ((None, Some undo_journal), view_after undo_connected).
Proof. vm_compute. reflexivity. Qed.

Lemma undo_block_fits : block_fits toy_hash toy_hash 1 undo_view undo_block.
Proof.
  split.
  - constructor; [reflexivity|reflexivity| | |constructor|exists []; constructor].
    + intros hash E. vm_compute in E. injection E as <-. repeat constructor.
    + repeat constructor.
  - intros J0 J1 v1 E. assert (v1 = after_coinbase) as ->.
    { apply (f_equal view_after) in E. cbn [view_after] in E. rewrite <- E. vm_compute. reflexivity. }
    split; [|done]. constructor; [reflexivity|reflexivity| | | |].
    + intros hash E'. vm_compute in E'. injection E' as <-. constructor; [vm_compute; reflexivity|]. constructor; [vm_compute; reflexivity|constructor].
    + repeat constructor.
    + apply NoDup_singleton.
    + exists [old_entry]. constructor; [|constructor]. split; [vm_compute; reflexivity|]. split; [reflexivity|]. split; [discriminate|]. discriminate.
Qed.
