(* ===== verification/RightTree.v ===== *)
(** * The trees of rights

    Rights are split from rights: every right knows its father, its root and its depth.
    Adding rights keeps them trees: following the fathers of a right as often as its depth
    says leads to its root, and nothing is split from a right that must not be split. *)
From Stdlib Require Import ZArith Lia.
From stdpp Require Import gmap list.
From S2P Require Import Prelude Wire Token MsgTx ViewDb UtxoEntry BorderEntry DefEntry ViewSet ViewFrame PolygonGeom.

Open Scope Z_scope.

(** The right [e] under [h] is a root, or has been split from a right that can be split. *)
Definition grown (v : ViewPointSet) (h : list Z) (e : RightEntry) : Prop :=
  (re_Father e = zero_hash /\ re_Depth e = 0 /\ re_Root e = h) \/
  (re_Father e <> zero_hash /\ exists f, right_at v (re_Father e) = Ok (Some (RRight f)) /\ re_Depth e = re_Depth f + 1 /\ re_Root e = re_Root f /\
     Z.land (re_Attrib f) Unsplittable = 0 /\ (Z.land (re_Attrib f) Monitor <> 0 -> Z.land (re_Attrib e) Monitor <> 0)).

Definition right_trees (v : ViewPointSet) : Prop := forall h e, right_at v h = Ok (Some (RRight e)) -> 0 <= re_Depth e /\ grown v h e.

(** [n] fathers up from the right under [h]. *)
Fixpoint ancestor (n : nat) (v : ViewPointSet) (h : list Z) : option (list Z) :=
  match n with
  | O => Some h
  | S n => match right_at v h with Ok (Some (RRight e)) => if IsEqual (re_Father e) zero_hash then None else ancestor n v (re_Father e) | _ => None end
  end.

Lemma IsEqual_true a b : IsEqual a b = true <-> a = b.
Proof. unfold IsEqual. apply bool_decide_eq_true. Qed.
Lemma IsEqual_false a b : IsEqual a b = false <-> a <> b.
Proof. unfold IsEqual. apply bool_decide_eq_false. Qed.

Lemma right_ancestor v : right_trees v -> forall n h e, right_at v h = Ok (Some (RRight e)) -> re_Depth e = Z.of_nat n ->
  exists r, ancestor n v h = Some (re_Root e) /\ right_at v (re_Root e) = Ok (Some (RRight r)) /\ re_Father r = zero_hash.
Proof.
  intros Ht. induction n as [|n IH]; intros h e He Hd.
  - destruct (Ht h e He) as [_ [(Hf & _ & Hr)|(_ & f & Hf & Hdep & _)]].
    + exists e. by rewrite Hr.
    + destruct (Ht _ _ Hf) as [H0 _]. lia.
  - destruct (Ht h e He) as [_ [(_ & Hz & _)|(Hne & f & Hf & Hdep & Hroot & _)]]; [lia|].
    cbn [ancestor]. rewrite He. rewrite (proj2 (IsEqual_false _ _) Hne). rewrite Hroot. apply IH; [done|lia].
Qed.

Lemma cached_trees v v' : cached v v' -> right_trees v -> right_trees v'.
Proof.
  intros C Ht h e He. rewrite (ca_right _ _ C) in He. destruct (Ht h e He) as [H0 Hg]. split; [done|].
  destruct Hg as [Hg|(Hne & f & Hf & Hg)]; [by left|]. right. split; [done|]. exists f. by rewrite (ca_right _ _ C).
Qed.

(** A right under a hash that is new leaves the trees there are. *)
Lemma put_right_trees v h e v' : right_trees v -> right_at v h = Ok None -> 0 <= re_Depth e -> re_Father e <> h -> grown v h e ->
  put_right h (RRight e) v = Ok ((), v') -> right_trees v' /\ right_at v' h = Ok (Some (RRight e)).
Proof.
  intros Ht Hnew Hd Hfh Hg Hput. injection Hput as <-.
  assert (forall q, right_at (set_rights v (<[h := RRight e]> (v_Rights v))) q = if decide (q = h) then Ok (Some (RRight e)) else right_at v q) as Hat.
  { intros q. unfold right_at. cbn [v_Rights v_Db set_rights]. case_decide; [subst; by rewrite lookup_insert_eq|by rewrite lookup_insert_ne]. }
  split; [|by rewrite Hat, decide_True]. intros q x. rewrite Hat.
  assert (forall y, grown v q y -> grown (set_rights v (<[h := RRight e]> (v_Rights v))) q y) as Hmono.
  { intros y [Hy|(Hne & f & Hf & Hy)]; [by left|]. right. split; [done|]. exists f. rewrite Hat. rewrite decide_False by congruence. done. }
  case_decide as Hq.
  - intros E. injection E as <-. split; [done|]. subst q. by apply Hmono.
  - intros E. destruct (Ht q x E) as [H0 Hx]. split; [done|]. by apply Hmono.
Qed.

(** C20: adding a right keeps the rights trees.  Given that the rights known are trees, a right
    whose hash is new, and is not its father's, is added or refused; the rights known
    afterwards are trees again, one that is added has been split from a right that can be
    split (or is a root) and is a monitor when its father is; and following the fathers of
    any right as often as its depth says leads to its root. *)
Theorem rights_form_trees (HashH : list Z -> list Z) (v v' : ViewPointSet) (hash : option (list Z)) (father desc h : list Z) (attrib : Z) (ok : bool)
  (Hh : def_hash HashH (DRight hash father desc attrib) = Ok h) (Hnew : right_at v h = Ok None) (Hfh : father <> h) (Ht : right_trees v)
  (Hdeep : forall f, right_at v father = Ok (Some (RRight f)) -> re_Depth f < 2 ^ 31 - 1)
  (Hrun : AddRight HashH (DRight hash father desc attrib) v = Ok (ok, v')) :
  right_trees v' /\
  (ok = true -> exists e, right_at v' h = Ok (Some (RRight e)) /\ re_Father e = father /\ re_Desc e = desc /\ re_Attrib e = attrib /\ grown v' h e) /\
  (forall q e, right_at v' q = Ok (Some (RRight e)) -> exists r, ancestor (Z.to_nat (re_Depth e)) v' q = Some (re_Root e) /\
     right_at v' (re_Root e) = Ok (Some (RRight r)) /\ re_Father r = zero_hash).
Proof.
  assert (right_trees v' /\ (ok = true -> exists e, right_at v' h = Ok (Some (RRight e)) /\ re_Father e = father /\ re_Desc e = desc /\ re_Attrib e = attrib)) as [Ht' Hadd].
  { unfold AddRight in Hrun. apply vbind_inv in Hrun as (h0 & v0 & H0 & Hrun). unfold vlift in H0. rewrite Hh, outcome_bind_ok in H0. injection H0 as <- <-.
    rewrite (vbind_ok _ _ v v v eq_refl) in Hrun. assert (LookupRightEntry v h = None) as El.
    { unfold LookupRightEntry. unfold right_at in Hnew. by destruct (v_Rights v !! h). }
    rewrite El in Hrun. repeat (case_decide; [injection Hrun as <- <-; by split|]).
    destruct (bool_decide _ && _); [injection Hrun as <- <-; by split|]. destruct (IsEqual father zero_hash) eqn:Ez.
    - apply IsEqual_true in Ez. apply vbind_inv in Hrun as ([] & v1 & Hput & Hrun). injection Hrun as <- <-.
      destruct (put_right_trees v h (MkRight father h 0 desc attrib TfModified) v1) as [T1 A1]; try done; [by left|]. split; [done|]. intros _. by eexists.
    - apply IsEqual_false in Ez. apply vbind_inv in Hrun as (o & v1 & Hfetch & Hrun). apply fetch_right_inv in Hfetch as [Hf C].
      destruct o as [r|]; [|injection Hrun as <- <-; split; [by eapply cached_trees|done]].
      apply vbind_inv in Hrun as (f & v2 & Hr & Hrun). destruct r as [f'|]; [|done]. injection Hr as <- <-.
      case_decide as Hu; [injection Hrun as <- <-; split; [by eapply cached_trees|done]|].
      case_decide as Hm; [injection Hrun as <- <-; split; [by eapply cached_trees|done]|].
      apply vbind_inv in Hrun as ([] & v3 & Hput & Hrun). injection Hrun as <- <-.
      destruct (Ht _ _ Hf) as [Hd0 _]. specialize (Hdeep f' Hf).
      assert (i32 (re_Depth f' + 1) = re_Depth f' + 1) as Ei by (apply swrap_id; [lia|]; unfold sint_range; change (32 - 1) with 31; lia).
      destruct (put_right_trees v1 h (MkRight father (re_Root f') (i32 (re_Depth f' + 1)) desc attrib TfModified) v3) as [T1 A1]; try done.
      + by eapply cached_trees.
      + by rewrite (ca_right _ _ C).
      + cbn [re_Depth]. lia.
      + right. split; [done|]. exists f'. rewrite (ca_right _ _ C). cbn [re_Father re_Depth re_Root re_Attrib]. split_and!; try done; lia.
      + split; [done|]. intros _. by eexists. }
  split; [done|]. split.
  - intros Hok. destruct (Hadd Hok) as (e & He & Hx). exists e. destruct (Ht' h e He) as [_ Hg]. naive_solver.
  - intros q e He. destruct (Ht' q e He) as [Hd _]. apply right_ancestor; [done|done|lia].
Qed.

Definition tree_hash (b : list Z) : list Z := replicate 31 7 ++ [len b].
Definition root_right : definition := DRight None zero_hash [1; 2; 3] 0x80.
Definition tree_view : ViewPointSet :=
  set_rights (NewViewPointSet empty_db) {[tree_hash (zero_hash ++ [1; 2; 3] ++ [0x80]) := RRight (MkRight zero_hash (tree_hash (zero_hash ++ [1; 2; 3] ++ [0x80])) 0 [1; 2; 3] 0x80 TfModified)]}.

Lemma rights_form_trees_witness :
  exists v', AddRight tree_hash (DRight None (tree_hash (zero_hash ++ [1; 2; 3] ++ [0x80])) [4] 0x82) tree_view = Ok (true, v') /\ right_trees v'.
Proof.
  eexists. split; [reflexivity|].
  destruct (rights_form_trees tree_hash tree_view) with (hash := @None (list Z)) (father := tree_hash (zero_hash ++ [1; 2; 3] ++ [0x80])) (desc := [4]) (attrib := 0x82)
    (h := tree_hash (replicate 34 0)) (ok := true) (v' := match AddRight tree_hash (DRight None (tree_hash (zero_hash ++ [1; 2; 3] ++ [0x80])) [4] 0x82) tree_view with Ok (_, v) => v | _ => tree_view end) as [H _].
  - reflexivity.
  - reflexivity.
  - discriminate.
  - intros h e He. unfold right_at, tree_view in He. cbn [v_Rights v_Db set_rights] in He.
    destruct (decide (h = tree_hash (zero_hash ++ [1; 2; 3] ++ [0x80]))) as [->|Hn].
    + rewrite lookup_singleton_eq in He. injection He as <-. split; [cbn; lia|]. left. split_and!; reflexivity.
    + rewrite lookup_singleton_ne in He by done. unfold DbFetchRight, b_Get in He. cbn in He. rewrite lookup_empty in He. by case_decide.
  - intros f Hf. vm_compute in Hf. injection Hf as <-. reflexivity.
  - reflexivity.
  - exact H.
Defined.
