(* ===== verification/ViewFaults.v ===== *)
(** * Where connecting and disconnecting do not match

    Runs of the views in which a block that has been disconnected leaves something behind:
    outputs of height 0, the children of borders, and borders that are not written. *)
From Stdlib Require Import ZArith Lia.
From stdpp Require Import gmap list.
From S2P Require Import Prelude Vlq Wire Token MsgTx MsgBlock ViewDb UtxoEntry BorderEntry DefEntry ViewSet ViewFrame PolygonGeom UtxoView UtxoStore UtxoUndo.

Open Scope Z_scope.

(** ** Outputs of the genesis block *)

Definition genesis_entry : UtxoEntry := MkUtxo 0 (Some (NumToken 50)) None pay_script 0 TfCoinBase [].
Definition genesis_view : ViewPointSet := set_utxo (NewViewPointSet empty_db) {[old_point := Some genesis_entry]}.

(** Connects a block and disconnects it again. *)
Definition there_and_back (b : Block) (v : ViewPointSet) : outcome (option view_err * ViewPointSet) :=
  '(r, v) ← ConnectTransactions toy_hash toy_hash 1 b (Some []) v;
  match r with (None, Some stxos) => DisconnectTransactions toy_hash toy_hash 1 b stxos v | (err, _) => Ok (err, v) end.

(** An output of height 0, as those of the genesis block have, is not restored as it was
    when the block that spent it is disconnected.  The journal's height 0 is taken for one
    that is not known, and the height and the coin base flag of an output of the spending
    transaction are taken instead: the output comes back as one of the disconnected block. *)
Theorem genesis_output_changed :
  U genesis_view old_point = Ok (inl (Some (MkUtxo 0 (Some (NumToken 50)) None pay_script 0 TfCoinBase []))) /\
  match there_and_back undo_block genesis_view with
  | Ok (None, v) => U v old_point = Ok (inl (Some (MkUtxo 0 (Some (NumToken 50)) None pay_script 7 0 [])))
  | _ => False
  end.
Proof. split; vm_compute; reflexivity. Qed.

(** ** Children of borders *)

Definition father_hash : list Z := 2 :: replicate 31 3.
Definition father_border : BorderEntry := MkBorder zero_hash (MkVertex 0 0 0) (MkVertex 10 10 0) [] None false 0 0 0.
Definition border_db : Db := MkDb ∅ {[father_hash := border_bytes father_border]} ∅ ∅ ∅.
Definition border_tx : MsgTx := MkMsgTx 1 [DBorder None father_hash (MkVertex 0 0 0) (MkVertex 5 5 0)] [coin_in] [pay 10] 0 [].
Definition border_block : Block := MkBtcBlock (MkBlock sample_header [border_tx]) 7.

(** A block is connected or disconnected on views of its own, which are then written. *)
Definition on_fresh_views (db : Db) (m : vm (option view_err)) : outcome (option view_err * Db) :=
  '(err, v) ← m (NewViewPointSet db);
  match err with
  | Some _ => Ok (err, db)
  | None =>
      '(_, db, _) ← DbPutViews v (map_to_list (v_Utxo v)) (map_to_list (v_Border v)) (map_to_list (v_Polygon v)) (map_to_list (v_Rights v)) db;
      Ok (None, db)
  end.
Definition connect_block (b : Block) : vm (option view_err) := '(err, _) ← ConnectTransactions toy_hash toy_hash 2 b (Some []); mret err.
Definition disconnect_block (b : Block) : vm (option view_err) := DisconnectTransactions toy_hash toy_hash 2 b [].

(** A block that splits a border can be connected, and disconnected, but not connected
    again: disconnecting it removes the new border but not from the children of its father,
    and a father that has children takes no more. *)
Theorem reconnect_refused :
  match on_fresh_views border_db (connect_block border_block) with
  | Ok (None, db1) =>
      match on_fresh_views db1 (disconnect_block border_block) with
      | Ok (None, db2) => on_fresh_views db2 (connect_block border_block) = Ok (Some IllegalBorder, db2)
      | _ => False
      end
  | _ => False
  end.
Proof. vm_compute. reflexivity. Qed.

(** ** Borders that are not written *)

(** The writing of borders ends with the first that is deleted: whatever comes after it in
    the order of the map is lost. *)
Theorem deletion_ends_writing (hash : list Z) (e : BorderEntry) (rest : list (list Z * BorderEntry)) (b : bucket) (m : gmap (list Z) BorderEntry)
  (Hmod : be_isModified e = true) (Hdel : be_toDelete e = true) :
  exists m', put_borders ((hash, e) :: rest) b m = Ok (b_Delete b hash, m').
Proof. cbn [put_borders]. rewrite Hmod, Hdel. by eexists. Qed.

(** ** Polygons with one hash *)

(** The hash of a polygon does not depend on where its loops end: different polygons have the
    same hash, and the second to be added is refused. *)
Theorem polygon_hash_ambiguous (HashH : list Z -> list Z) (l1 l2 : loop) :
  def_hash HashH (DPolygon None [l1; l2]) = def_hash HashH (DPolygon None [l1 ++ l2]).
Proof. unfold def_hash, Hash. cbn [concat]. by rewrite !app_nil_r. Qed.
