(* ===== verification/SpendJournal.v ===== *)
(** * The spend journal and the records of the chain

    Models the part of btcd/blockchain/chainio.go that stores what a block spends, the index
    of the blocks of the main chain and the state of the best block: their encodings, their
    buckets, and that a block can be undone with what has been read back from the disk. *)
From Stdlib Require Import ZArith Lia.
From stdpp Require Import gmap list.
From S2P Require Import Prelude Vlq Wire Token MsgTx MsgBlock ViewDb UtxoEntry BorderEntry DefEntry ViewSet ViewFrame PolygonGeom UtxoView UtxoStore UtxoUndo.

Open Scope Z_scope.

(** ** One spent output *)

Definition spentTxOutHeaderCode (stxo : SpentTxOut) : Z :=
  let headerCode := u64 (Z.shiftl (u64 (st_Height stxo)) 1) in
  if st_IsCoinBase stxo then Z.lor headerCode 1 else headerCode.

Definition spentTxOutSerializeSize (stxo : SpentTxOut) : outcome Z :=
  s1 ← SerializeSizeVLQ (spentTxOutHeaderCode stxo);
  s2 ← SerializeSizeVLQ (st_TokenType stxo);
  s3 ← (if decide (Z.land (st_TokenType stxo) 1 = 0) then
          v ← num_value (st_Amount stxo); c ← CompressTxOutAmount (u64 v); SerializeSizeVLQ c
        else Ok 32);
  let s4 := if decide (Z.land (st_TokenType stxo) 2 = 2) then 32 else 0 in
  s5 ← SerializeSizeVLQ (len (st_PkScript stxo));
  Ok (s1 + s2 + s3 + s4 + s5 + len (st_PkScript stxo)).

(** The target with the output written at its beginning, and the number of bytes. *)
Definition putSpentTxOut (target : list Z) (stxo : SpentTxOut) : outcome (list Z * Z) :=
  '(target, offset) ← vlq_at target 0 (spentTxOutHeaderCode stxo);
  '(target, w) ← vlq_at target offset (st_TokenType stxo);
  let offset := offset + w in
  '(target, offset) ←
    (if decide (Z.land (st_TokenType stxo) 1 = 0) then
       v ← num_value (st_Amount stxo); c ← CompressTxOutAmount (u64 v);
       '(target, w) ← vlq_at target offset c; Ok (target, offset + w)
     else h ← hash_value (st_Amount stxo); target ← copy_at target offset h; Ok (target, offset + 32));
  '(target, offset) ←
    (if decide (Z.land (st_TokenType stxo) 2 = 2) then
       match st_Rights stxo with
       | Some r => target ← copy_at target offset r; Ok (target, offset + 32)
       | None => Panic
       end
     else Ok (target, offset));
  '(target, w) ← vlq_at target offset (len (st_PkScript stxo));
  let offset := offset + w in
  target ← copy_at target offset (st_PkScript stxo);
  Ok (target, offset + len (st_PkScript stxo)).

(** The output and the number of bytes it took. *)
Definition decodeSpentTxOut (serialized : list Z) : outcome (SpentTxOut * Z + view_err) :=
  if decide (serialized = []) then Ok (inr ErrDeserialize)
  else
    let '(code, offset) := DeserializeVLQ serialized in
    if decide (len serialized <= offset) then Ok (inr ErrDeserialize)
    else
      let isCoinBase := bool_decide (Z.land code 1 <> 0) in
      let height := i32 (Z.shiftr code 1) in
      rest ← slice_from serialized offset;
      let '(tokenType, bytesRead) := DeserializeVLQ rest in
      let offset := offset + bytesRead in
      '(amount, offset) ←
        (if decide (Z.land tokenType 1 = 0) then
           rest ← slice_from serialized offset;
           let '(compressedAmount, bytesRead) := DeserializeVLQ rest in
           Ok (NumToken (i64 (DecompressTxOutAmount compressedAmount)), offset + bytesRead)
         else h ← slice_sub serialized offset (offset + 32); Ok (HashToken (hash_from h), offset + 32));
      '(rights, offset) ←
        (if decide (Z.land tokenType 2 = 2 /\ offset < len serialized) then
           h ← slice_sub serialized offset (offset + 32); Ok (Some (hash_from h), offset + 32)
         else Ok (None, offset));
      rest ← slice_from serialized offset;
      let '(pklen, bytesRead) := DeserializeVLQ rest in
      let offset := offset + bytesRead in
      script ← slice_sub serialized offset (offset + i64 pklen);
      Ok (inl (MkSpent tokenType (Some amount) rights script height isCoinBase, offset + i64 pklen)).

(** ** The journal of a block *)

(** The outputs that the transactions spend. *)
Definition count_stxos (txns : list MsgTx) : Z :=
  foldl (fun n tx => if tx_IsCrossChain tx then n
    else foldl (fun n i => if spends_nothing i then n - 1 else n) (n + len (TxIns tx)) (TxIns tx)) 0 txns.

(** The inputs of one transaction, from the last to the first; what has been read goes before
    what was there. *)
Fixpoint read_ins (ins : list TxIn) (serialized : list Z) (offset : Z) (stxos : list SpentTxOut) : outcome (Z * list SpentTxOut + view_err) :=
  match ins with
  | [] => Ok (inl (offset, stxos))
  | i :: ins =>
      if spends_nothing i then read_ins ins serialized offset stxos
      else
        s ← slice_from serialized offset;
        r ← decodeSpentTxOut s;
        match r with inr err => Ok (inr ErrDeserialize) | inl (stxo, n) => read_ins ins serialized (offset + n) (stxo :: stxos) end
  end.
(** The transactions, from the last to the first. *)
Fixpoint read_txs (txns : list MsgTx) (serialized : list Z) (offset : Z) (stxos : list SpentTxOut) : outcome (list SpentTxOut + view_err) :=
  match txns with
  | [] => Ok (inl stxos)
  | tx :: txns =>
      if tx_IsCrossChain tx then read_txs txns serialized offset stxos
      else
        r ← read_ins (reverse (TxIns tx)) serialized offset stxos;
        match r with inr err => Ok (inr err) | inl (offset, stxos) => read_txs txns serialized offset stxos end
  end.
Definition deserializeSpendJournalEntry (serialized : list Z) (txns : list MsgTx) : outcome (list SpentTxOut + view_err) :=
  if decide (serialized = []) then Ok (if decide (count_stxos txns <> 0) then inr AssertError else inl [])
  else read_txs (reverse txns) serialized 0 [].

Fixpoint journal_size (stxos : list SpentTxOut) (size : Z) : outcome Z :=
  match stxos with [] => Ok size | stxo :: stxos => s ← spentTxOutSerializeSize stxo; journal_size stxos (size + s) end.
(** [putSpentTxOut(serialized[offset:], stxo)] for the outputs one after the other. *)
Fixpoint put_stxos (stxos : list SpentTxOut) (serialized : list Z) (offset : Z) : outcome (list Z) :=
  match stxos with
  | [] => Ok serialized
  | stxo :: stxos =>
      t ← slice_from serialized offset;
      '(t, n) ← putSpentTxOut t stxo;
      put_stxos stxos (take (Z.to_nat offset) serialized ++ t) (offset + n)
  end.
Definition serializeSpendJournalEntry (stxos : list SpentTxOut) : outcome (list Z) :=
  if decide (stxos = []) then Ok []
  else size ← journal_size stxos 0; put_stxos (reverse stxos) (replicate (Z.to_nat size) 0) 0.

Section Journal.
Context (DoubleHashH : list Z -> list Z).

(** Whether a transaction after the first spends anything. *)
Definition realspend (txns : list MsgTx) : bool :=
  existsb (fun tx => negb (tx_IsCrossChain tx) && existsb (fun i => negb (spends_nothing i)) (TxIns tx)) txns.
Definition dbFetchSpendJournalEntry (spendBucket : bucket) (b : Block) : outcome (list SpentTxOut + view_err) :=
  let serialized := default [] (b_Get spendBucket (BlockHash DoubleHashH (Header (b_msgBlock b)))) in
  match b_Transactions b with
  | [] => Panic
  | _ :: blockTxns =>
      r ← deserializeSpendJournalEntry serialized blockTxns;
      Ok (match r with
          | inl stxos => inl stxos
          | inr err => if realspend blockTxns then inr (match err with ErrDeserialize => ErrCorruption | _ => err end) else inl []
          end)
  end.
End Journal.

Definition dbPutSpendJournalEntry (spendBucket : bucket) (blockHash : list Z) (stxos : list SpentTxOut) : outcome (option view_err * bucket) :=
  serialized ← serializeSpendJournalEntry stxos; Ok (b_Put spendBucket blockHash serialized).
Definition dbRemoveSpendJournalEntry (spendBucket : bucket) (blockHash : list Z) : bucket := b_Delete spendBucket blockHash.

(** ** The round trip of one output *)

Record stxo_ok (s : SpentTxOut) : Prop := MkStxoOk {
  so_type : uint_range 64 (st_TokenType s);
  so_amount : amount_ok (st_TokenType s) (st_Amount s);
  so_rights : rights_ok (st_TokenType s) (st_Rights s);
  so_height : sint_range 32 (st_Height s);
  so_script : len (st_PkScript s) < 2 ^ 63;
}.

(** The entry that was spent. *)
Definition entry_of (s : SpentTxOut) : UtxoEntry :=
  MkUtxo (st_TokenType s) (st_Amount s) (st_Rights s) (st_PkScript s) (st_Height s) (if st_IsCoinBase s then TfCoinBase else 0) [].

Lemma header_code_entry s : spentTxOutHeaderCode s = header_code (entry_of s).
Proof. unfold spentTxOutHeaderCode, header_code, ue_IsCoinBase. cbn. by destruct (st_IsCoinBase s). Qed.

Lemma spent_header s : sint_range 32 (st_Height s) -> uint_range 64 (spentTxOutHeaderCode s) /\ i32 (Z.shiftr (spentTxOutHeaderCode s) 1) = st_Height s /\
  bool_decide (Z.land (spentTxOutHeaderCode s) 1 <> 0) = st_IsCoinBase s.
Proof.
  intros H. rewrite header_code_entry. destruct (header_code_parts (entry_of s) H) as (H1 & H2 & H3). split_and!; [done|done|].
  unfold ue_IsCoinBase in H3. cbn [ue_packedFlags entry_of] in H3. destruct (st_IsCoinBase s); cbn in H3.
  - apply bool_decide_eq_true_2. intros E. by rewrite decide_False in H3 by (intros F; by apply F).
  - apply bool_decide_eq_false_2. intros E. by rewrite decide_True in H3.
Qed.

(** Filling a buffer from [pre] on with [bs]. *)
Definition fills (put : list Z -> Z -> outcome (list Z * Z)) (bs : list Z) : Prop :=
  forall pre k, (length bs <= k)%nat -> put (pre ++ replicate k 0) (len pre) = Ok ((pre ++ bs) ++ replicate (k - length bs) 0, len (pre ++ bs)).
(** Reading [a] from [bs], whatever comes before and after. *)
Definition reads {A} (get : list Z -> Z -> outcome (A * Z)) (bs : list Z) (a : A) : Prop :=
  forall pre rest, rest <> [] -> get (pre ++ bs ++ rest) (len pre) = Ok (a, len (pre ++ bs)).

Lemma amount_codec t a : uint_range 64 t -> amount_ok t a -> exists bs,
  (if decide (Z.land t 1 = 0) then v ← num_value a; c ← CompressTxOutAmount (u64 v); SerializeSizeVLQ c else Ok 32) = Ok (len bs) /\
  fills (fun target offset => if decide (Z.land t 1 = 0) then
           v ← num_value a; c ← CompressTxOutAmount (u64 v); '(target, w) ← vlq_at target offset c; Ok (target, offset + w)
         else h ← hash_value a; target ← copy_at target offset h; Ok (target, offset + 32)) bs /\
  exists a', a = Some a' /\ reads (fun serialized offset => if decide (Z.land t 1 = 0) then
           rest ← slice_from serialized offset;
           let '(compressedAmount, bytesRead) := DeserializeVLQ rest in
           Ok (NumToken (i64 (DecompressTxOutAmount compressedAmount)), offset + bytesRead)
         else h ← slice_sub serialized offset (offset + 32); Ok (HashToken (hash_from h), offset + 32)) bs a'.
Proof.
  intros Ht Ha. destruct (amount_coding _ _ Ht Ha) as (c & Hnum & Hhash). case_decide as Hd.
  - destruct (Hnum Hd) as (v & -> & Hcv & Hcr & _ & Hv & ->). exists (vlq c). split_and!; [by rewrite outcome_bind_ok, Hcv, outcome_bind_ok, SerializeSizeVLQ_ok|..].
    + intros pre k Hk. rewrite outcome_bind_ok, Hcv, outcome_bind_ok, vlq_at_fill by done. rewrite outcome_bind_ok, length_app. do 2 f_equal. lia.
    + eexists. split; [done|]. intros pre rest _. rewrite slice_from_app, outcome_bind_ok, vlq_decodes by done. rewrite Hv, length_app. do 2 f_equal. lia.
  - destruct (Hhash Hd) as (h & -> & Hl & _ & ->). exists h. split_and!; [by rewrite Hl|..].
    + intros pre k Hk. rewrite outcome_bind_ok, copy_at_fill by done. rewrite outcome_bind_ok, length_app, Hl. do 2 f_equal. unfold HashSize. lia.
    + eexists. split; [done|]. intros pre rest _. rewrite slice_sub_mid by (rewrite ?Hl; unfold HashSize; lia).
      rewrite outcome_bind_ok, <- (app_nil_r h), hash_from_app by done. rewrite app_nil_r, length_app, Hl. do 2 f_equal. unfold HashSize. lia.
Qed.

Lemma rights_codec t r : rights_ok t r -> exists bs,
  (if decide (Z.land t 2 = 2) then 32 else 0) = len bs /\
  fills (fun target offset => if decide (Z.land t 2 = 2) then
           match r with Some r => target ← copy_at target offset r; Ok (target, offset + 32) | None => Panic end
         else Ok (target, offset)) bs /\
  reads (fun serialized offset => if decide (Z.land t 2 = 2 /\ offset < len serialized) then
           h ← slice_sub serialized offset (offset + 32); Ok (Some (hash_from h), offset + 32)
         else Ok (None, offset)) bs r.
Proof.
  unfold rights_ok. destruct r as [h|].
  - intros [Hr Hl]. exists h. rewrite decide_True by done. split_and!; [by rewrite Hl|..].
    + intros pre k Hk. rewrite (decide_True (P := _ = _)) by done. rewrite copy_at_fill by done. rewrite outcome_bind_ok, length_app, Hl. do 2 f_equal. unfold HashSize. lia.
    + intros pre rest Hrest. rewrite decide_True by (split; [done|]; rewrite !length_app, Hl; destruct rest; [done|]; unfold HashSize; simpl; lia).
      rewrite slice_sub_mid by (rewrite ?Hl; unfold HashSize; lia). rewrite outcome_bind_ok, <- (app_nil_r h), hash_from_app by done.
      rewrite app_nil_r, length_app, Hl. do 2 f_equal. unfold HashSize. lia.
  - intros Hr. exists []. rewrite decide_False by done. split_and!; [done|..].
    + intros pre k _. rewrite decide_False by done. by rewrite !app_nil_r, Nat.sub_0_r.
    + intros pre rest _. rewrite decide_False by tauto. by rewrite app_nil_r.
Qed.

Lemma vlq_fills n : uint_range 64 n -> forall pre k, (length (vlq n) <= k)%nat ->
  vlq_at (pre ++ replicate k 0) (len pre) n = Ok ((pre ++ vlq n) ++ replicate (k - length (vlq n)) 0, len (vlq n)).
Proof. intros. by apply vlq_at_fill. Qed.

(** One output takes some bytes: so many are asked for, they are what is written, and they
    give the output back. *)
Lemma spent_codec s : stxo_ok s -> exists bs, bs <> [] /\ spentTxOutSerializeSize s = Ok (len bs) /\
  (forall k, (length bs <= k)%nat -> putSpentTxOut (replicate k 0) s = Ok (bs ++ replicate (k - length bs) 0, len bs)) /\
  (forall rest, decodeSpentTxOut (bs ++ rest) = Ok (inl (s, len bs))).
Proof.
  intros [Ht Ha Hr Hh Hp]. destruct (spent_header s Hh) as (Hc & Hheight & Hcoin). destruct (amount_codec _ _ Ht Ha) as (ba & Sa & Fa & a & Ea & Ra).
  destruct (rights_codec _ _ Hr) as (br & Sr & Fr & Rr). set (script := st_PkScript s) in *.
  assert (uint_range 64 (len script)) as Hl by (unfold uint_range; lia). set (vl := vlq (len script)). pose proof (vlq_nonempty _ Hl) as Nl. fold vl in Nl.
  set (vc := vlq (spentTxOutHeaderCode s)). set (vt := vlq (st_TokenType s)). pose proof (vlq_nonempty _ Hc) as Nc. fold vc in Nc. pose proof (vlq_nonempty _ Ht) as Nt. fold vt in Nt.
  assert (forall rest, DeserializeVLQ (vc ++ rest) = (spentTxOutHeaderCode s, len vc)) as Dc by (intros; by apply vlq_decodes).
  assert (forall rest, DeserializeVLQ (vt ++ rest) = (st_TokenType s, len vt)) as Dt by (intros; by apply vlq_decodes).
  assert (forall rest, DeserializeVLQ (vl ++ rest) = (len script, len vl)) as Dl by (intros; by apply vlq_decodes).
  exists (((((vc ++ vt) ++ ba) ++ br) ++ vl) ++ script). split_and!.
  - intros E. rewrite <- !app_assoc in E. by apply app_eq_nil in E as [E _].
  - unfold spentTxOutSerializeSize. rewrite !SerializeSizeVLQ_ok, !outcome_bind_ok by done. rewrite Sa, !outcome_bind_ok, Sr. fold script vl vc vt. rewrite !length_app. f_equal. lia.
  - intros k Hk. rewrite !length_app in Hk. unfold putSpentTxOut. fold script. change (replicate k 0) with ([] ++ replicate k 0). change 0 with (len (@nil Z)) at 2.
    rewrite vlq_fills by (done || fold vc; lia). fold vc. rewrite outcome_bind_ok, app_nil_l. rewrite vlq_fills by (done || fold vt; lia). fold vt. rewrite outcome_bind_ok.
    replace (len vc + len vt) with (len (vc ++ vt)) by (rewrite length_app; lia). rewrite (Fa (vc ++ vt)) by lia. rewrite outcome_bind_ok.
    rewrite (Fr ((vc ++ vt) ++ ba)) by lia. rewrite outcome_bind_ok. rewrite vlq_fills by (done || fold vl; lia). fold vl. rewrite outcome_bind_ok.
    replace (len (((vc ++ vt) ++ ba) ++ br) + len vl) with (len ((((vc ++ vt) ++ ba) ++ br) ++ vl)) by (rewrite !length_app; lia).
    rewrite copy_at_fill by lia. rewrite outcome_bind_ok, !length_app. do 2 f_equal; [f_equal; f_equal; lia|lia].
  - intros rest. unfold decodeSpentTxOut. rewrite decide_False by (intros E; rewrite <- !app_assoc in E; by apply app_eq_nil in E as [E _]).
    rewrite <- !app_assoc. rewrite Dc. assert (1 <= len vt) by (destruct vt; [done|simpl; lia]).
    rewrite decide_False by (rewrite !length_app; lia). rewrite Hheight, Hcoin, slice_from_app, outcome_bind_ok, Dt.
    replace (len vc + len vt) with (len (vc ++ vt)) by (rewrite length_app; lia).
    replace (vc ++ vt ++ ba ++ br ++ vl ++ script ++ rest) with ((vc ++ vt) ++ ba ++ (br ++ vl ++ script ++ rest)) by (by rewrite <- !app_assoc).
    assert (forall x, vl ++ x <> []) as Hne by (intros x E; by apply app_eq_nil in E as [E _]).
    rewrite Ra by (intros E; apply app_eq_nil in E as [_ E]; by apply Hne in E). rewrite outcome_bind_ok.
    replace ((vc ++ vt) ++ ba ++ br ++ vl ++ script ++ rest) with (((vc ++ vt) ++ ba) ++ br ++ (vl ++ script ++ rest)) by (by rewrite <- !app_assoc).
    rewrite Rr by apply Hne. rewrite outcome_bind_ok, (app_assoc ((vc ++ vt) ++ ba)). rewrite slice_from_app, outcome_bind_ok. rewrite Dl.
    rewrite swrap_id by (lia || unfold sint_range; simpl; lia).
    rewrite (app_assoc _ vl). rewrite slice_sub_mid by (rewrite !length_app; lia). rewrite outcome_bind_ok, <- Ea. subst script. destruct s; cbn. rewrite !length_app. do 3 f_equal. lia.
Qed.

(** ** The round trip of a journal *)

Definition codes (s : SpentTxOut) (bs : list Z) : Prop :=
  bs <> [] /\ spentTxOutSerializeSize s = Ok (len bs) /\
  (forall k, (length bs <= k)%nat -> putSpentTxOut (replicate k 0) s = Ok (bs ++ replicate (k - length bs) 0, len bs)) /\
  (forall rest, decodeSpentTxOut (bs ++ rest) = Ok (inl (s, len bs))).

Lemma journal_codec stxos : Forall stxo_ok stxos -> exists bss, Forall2 codes stxos bss.
Proof. induction 1 as [|s l H _ [bss IH]]; [by exists []|]. destruct (spent_codec s H) as (bs & Hbs). exists (bs :: bss). by constructor. Qed.

Lemma journal_size_ok l bss : Forall2 codes l bss -> forall n, journal_size l n = Ok (n + len (concat bss)).
Proof.
  induction 1 as [|s bs l bss (_ & Hs & _) _ IH]; intros n; [simpl; f_equal; lia|]. cbn [journal_size concat]. rewrite Hs, outcome_bind_ok, IH, length_app. f_equal. lia.
Qed.

Lemma put_stxos_ok l bss : Forall2 codes l bss -> forall pre k, (length (concat bss) <= k)%nat ->
  put_stxos l (pre ++ replicate k 0) (len pre) = Ok (pre ++ concat bss ++ replicate (k - length (concat bss)) 0).
Proof.
  induction 1 as [|s bs l bss (_ & _ & Hp & _) _ IH]; intros pre k Hk; [simpl; by rewrite Nat.sub_0_r|]. cbn [put_stxos concat] in *. rewrite length_app in *.
  rewrite slice_from_app, outcome_bind_ok, Hp, outcome_bind_ok by lia. rewrite Nat2Z.id, take_app_length, app_assoc.
  replace (len pre + len bs) with (len (pre ++ bs)) by (rewrite length_app; lia). rewrite IH by lia. by rewrite <- !app_assoc, Nat.sub_add_distr.
Qed.

Lemma concat_reverse_length {A} (ls : list (list A)) : length (concat (reverse ls)) = length (concat ls).
Proof. induction ls as [|l ls IH]; [done|]. rewrite reverse_cons, concat_app, length_app, IH. simpl. rewrite !length_app. simpl. lia. Qed.

(** The outputs are written from the last to the first. *)
Lemma serialize_journal stxos bss : Forall2 codes stxos bss -> serializeSpendJournalEntry stxos = Ok (concat (reverse bss)).
Proof.
  intros H. unfold serializeSpendJournalEntry. case_decide as E; [subst; by apply Forall2_nil_inv_l in H as ->|].
  rewrite (journal_size_ok _ _ H), outcome_bind_ok. assert (Forall2 codes (reverse stxos) (reverse bss)) as Hr by (by apply Forall2_reverse).
  change (replicate ?k 0) with ([] ++ replicate k 0). change 0 with (len (@nil Z)) at 3. rewrite (put_stxos_ok _ _ Hr) by (rewrite concat_reverse_length; lia).
  rewrite concat_reverse_length. replace (Z.to_nat _ - _)%nat with 0%nat by lia. by rewrite app_nil_r.
Qed.

Lemma read_ins_ok ins : forall l bss pre rest acc, length l = length (spent_points ins) -> Forall2 codes l bss ->
  read_ins ins (pre ++ concat bss ++ rest) (len pre) acc = Ok (inl (len (pre ++ concat bss), reverse l ++ acc)).
Proof.
  induction ins as [|i ins IH]; intros l bss pre rest acc Hl H.
  - destruct l; [|done]. apply Forall2_nil_inv_l in H as ->. cbn. by rewrite app_nil_r.
  - cbn [read_ins]. destruct (spends_nothing i) eqn:Ei; [rewrite spent_points_nothing in Hl by done; by apply IH|].
    rewrite spent_points_cons in Hl by done. destruct l as [|s l]; [done|]. injection Hl as Hl. apply Forall2_cons_inv_l in H as (bs & bss' & Hc & H & ->).
    cbn [concat]. rewrite slice_from_app, outcome_bind_ok, <- app_assoc. destruct Hc as (_ & _ & _ & Hd). rewrite Hd, outcome_bind_ok.
    replace (len pre + len bs) with (len (pre ++ bs)) by (rewrite length_app; lia). rewrite (app_assoc pre), (IH l bss') by done.
    by rewrite reverse_cons, <- !app_assoc.
Qed.

Lemma spent_points_reverse_length ins : length (spent_points (reverse ins)) = length (spent_points ins).
Proof. unfold spent_points. rewrite !length_fmap. apply Permutation_length. by rewrite reverse_Permutation. Qed.

Lemma read_txs_ok txs : forall l bss pre rest acc, length l = spend_count txs -> Forall2 codes l bss ->
  read_txs txs (pre ++ concat bss ++ rest) (len pre) acc = Ok (inl (reverse l ++ acc)).
Proof.
  induction txs as [|tx txs IH]; intros l bss pre rest acc Hl H; [by destruct l|]. cbn [read_txs]. cbn [spend_count foldr] in Hl. unfold tx_spends at 1 in Hl. cbn [orb] in Hl.
  destruct (tx_IsCrossChain tx); [by apply IH|]. set (n := length (spent_points (TxIns tx))) in *. fold (spend_count txs) in Hl.
  rewrite <- (take_drop n l) in H. apply Forall2_app_inv_l in H as (b1 & b2 & H1 & H2 & ->). rewrite concat_app, <- app_assoc.
  rewrite (read_ins_ok _ (take n l) b1) by (rewrite ?spent_points_reverse_length, ?length_take; try done; lia). rewrite outcome_bind_ok, app_assoc.
  rewrite (IH (drop n l) b2) by (rewrite ?length_drop; try done; lia). rewrite <- (take_drop n l) at 3. by rewrite reverse_app, <- app_assoc.
Qed.

Lemma spend_count_reverse txs : spend_count (reverse txs) = spend_count txs.
Proof.
  assert (forall a b, spend_count (a ++ b) = spend_count a + spend_count b)%nat as Happ by (intros a b; induction a as [|t a IH]; [done|]; cbn [app spend_count foldr] in *; unfold spend_count in *; lia).
  induction txs as [|tx txs IH]; [done|]. rewrite reverse_cons, Happ, IH. unfold spend_count. simpl. lia.
Qed.

Lemma count_stxos_ok txs : count_stxos txs = Z.of_nat (spend_count txs).
Proof.
  unfold count_stxos. assert (forall l n, foldl (fun n tx => if tx_IsCrossChain tx then n
    else foldl (fun n i => if spends_nothing i then n - 1 else n) (n + len (TxIns tx)) (TxIns tx)) n l = n + Z.of_nat (spend_count l)) as H.
  { induction l as [|t l IH]; intros n; [simpl; lia|]. cbn [foldl spend_count foldr]. unfold tx_spends at 1. cbn [orb].
    destruct (tx_IsCrossChain t); [rewrite IH; done|]. rewrite count_tx, IH. fold (spend_count l). lia. }
  by rewrite H.
Qed.

Lemma read_back_journal stxos txns : Forall stxo_ok stxos -> length stxos = spend_count txns ->
  exists bs, serializeSpendJournalEntry stxos = Ok bs /\ deserializeSpendJournalEntry bs txns = Ok (inl stxos).
Proof.
  intros Hok Hl. destruct (journal_codec _ Hok) as (bss & H). exists (concat (reverse bss)). split; [by apply serialize_journal|]. unfold deserializeSpendJournalEntry.
  case_decide as E.
  - destruct stxos as [|s l]; [rewrite count_stxos_ok, <- Hl; by rewrite decide_False by (intros F; by apply F)|].
    apply Forall2_cons_inv_l in H as (bs & bss' & (Hne & _) & _ & ->). rewrite reverse_cons, concat_app in E. apply app_eq_nil in E as [_ E]. simpl in E. by rewrite app_nil_r in E.
  - assert (Forall2 codes (reverse stxos) (reverse bss)) as Hr by (by apply Forall2_reverse). pose proof (read_txs_ok (reverse txns) _ _ [] [] [] ltac:(rewrite length_reverse, spend_count_reverse; exact Hl) Hr) as R.
    rewrite reverse_involutive, !app_nil_r in R. exact R.
Qed.

(** ** What a block spends can be written *)

(** The computation leaves the unspent outputs of the view alone. *)
Definition keeps {A} (m : vm A) : Prop := forall v a v', m v = Ok (a, v') -> v_Utxo v' = v_Utxo v.

Lemma unfetched_ret {A} (a : A) : keeps (mret a).
Proof. intros v a' v' H. by injection H as _ <-. Qed.
Lemma unfetched_bind {A B} (m : vm A) (k : A -> vm B) : keeps m -> (forall a, keeps (k a)) -> keeps (m ≫= k).
Proof. intros Hm Hk v b v' H. apply vbind_inv in H as (a & v1 & H1 & H2). rewrite (Hk _ _ _ _ H2). exact (Hm _ _ _ H1). Qed.
Lemma keeps_lift {A} (o : outcome A) : keeps (vlift o).
Proof. intros v a v' H. apply bind_ok_inv in H as (? & _ & H). by injection H as _ <-. Qed.
Lemma keeps_get : keeps vget.
Proof. intros v a v' H. by injection H as _ <-. Qed.
Lemma keeps_nonnil {A} (o : option A) : keeps (vnonnil o).
Proof. destruct o; [apply unfetched_ret|done]. Qed.
Lemma keeps_put_border h e : keeps (put_border h e).
Proof. intros v a v' H. by injection H as _ <-. Qed.
Lemma keeps_fetch_border h : keeps (FetchBorderEntry h).
Proof.
  intros v a v' H. unfold FetchBorderEntry in H. destruct (b_LookupEntry v _); [by injection H as _ <-|]. apply bind_ok_inv in H as ([e|err] & _ & H); by injection H as _ <-.
Qed.
Lemma keeps_fetch_right h : keeps (FetchRightEntry h).
Proof.
  intros v a v' H. unfold FetchRightEntry in H. destruct (v_Rights v !! h); [by injection H as _ <-|]. apply bind_ok_inv in H as ([[e|] err] & _ & H); by injection H as _ <-.
Qed.
Lemma keeps_fetch_polygon h : keeps (FetchPolygonEntry h).
Proof.
  intros v a v' H. unfold FetchPolygonEntry in H. destruct (v_Polygon v !! h); [by injection H as _ <-|]. apply bind_ok_inv in H as ([e|err] & _ & H); by injection H as _ <-.
Qed.

#[local] Hint Resolve unfetched_ret unfetched_bind keeps_lift keeps_get keeps_nonnil keeps_put_border keeps_fetch_border keeps_fetch_right keeps_fetch_polygon : keeps.

Lemma keeps_count f bs : keeps (count_borders f bs).
Proof. induction bs as [|b bs IH]; cbn [count_borders]; eauto 10 with keeps. Qed.
Lemma keeps_flattern fuel : forall p, keeps (Flattern fuel p).
Proof.
  induction fuel as [|fuel IH]; intros p; [done|]. cbn [Flattern]. generalize (@nil (list Z) :: nil) as loops. induction p as [|q p IHp]; intros loops; [apply unfetched_ret|].
  destruct q as [|h [|]]; [apply IHp| |apply IHp]. apply unfetched_bind; [apply keeps_fetch_polygon|]. intros [plg|]; [|apply unfetched_ret]. apply unfetched_bind; [apply IH|]. intros l. apply IHp.
Qed.
#[local] Hint Resolve keeps_count keeps_flattern : keeps.

Lemma keeps_dereference fuel ins : keeps (dereference_ins fuel ins).
Proof.
  induction ins as [|i ins IH]; cbn [dereference_ins]; [apply unfetched_ret|]. destruct (spends_nothing i); [done|]. apply unfetched_bind; [apply keeps_get|]. intros v.
  destruct (u_LookupEntry v _) as [e|]; [|apply unfetched_ret]. case_decide; [|done]. apply unfetched_bind; [apply keeps_lift|]. intros h. apply unfetched_bind; [apply keeps_fetch_polygon|].
  intros [p|]; [|done]. unfold pe_deReference. eauto 10 with keeps.
Qed.
Lemma keeps_reference fuel outs : keeps (reference_outs fuel outs).
Proof.
  induction outs as [|o outs IH]; cbn [reference_outs]; [apply unfetched_ret|]. destruct (out_IsSeparator o); [done|]. case_decide; [|done]. unfold pe_reference. eauto 20 with keeps.
Qed.
Lemma keeps_TokenRights HashH e : keeps (TokenRights HashH e).
Proof.
  unfold TokenRights. destruct (ue_Rights e); [|apply unfetched_ret]. destruct (IsEqual _ _); [apply unfetched_ret|]. case_decide; [apply unfetched_ret|].
  apply unfetched_bind; [apply keeps_fetch_right|]. intros t. apply unfetched_bind.
  - assert (forall hs, keeps (rights_of hs)) as Hr.
    { induction hs as [|h hs IH]; cbn [rights_of]; [apply unfetched_ret|]. apply unfetched_bind; [apply keeps_fetch_right|]. intros [[p|p]|]; [|done|done]. cbn [the_right]. eauto 10 with keeps. }
    destruct t as [[r|s]|]; cbn [SetOfRights]; auto with keeps.
  - intros yy. apply unfetched_bind; [|auto with keeps]. induction yy; cbn [hash_rights]; eauto 10 with keeps.
Qed.

(** The unspent outputs of a view that can be written to the database and to the journal. *)
Definition writable (e : UtxoEntry) : Prop := utxo_ok e /\ len (ue_pkScript e) < 2 ^ 63.
Definition all_writable (v : ViewPointSet) : Prop := forall o e, v_Utxo v !! o = Some (Some e) -> writable e.
Definition out_writable (out : TxOut) : Prop :=
  uint_range 64 (TokenType (to_Token out)) /\ amount_ok (TokenType (to_Token out)) (Value (to_Token out)) /\ rights_ok (TokenType (to_Token out)) (Token.Rights (to_Token out)) /\
  len (PkScript out) < 2 ^ 63.

Lemma spent_ok e : writable e -> stxo_ok (spent_of e).
Proof. intros [[] ?]. by constructor. Qed.

Lemma spend_writable ins : forall v J r v', all_writable v -> Forall stxo_ok J -> spend_ins ins (Some J) v = Ok (r, v') ->
  all_writable v' /\ exists J', r.2 = Some J' /\ Forall stxo_ok J'.
Proof.
  induction ins as [|i ins IH]; intros v J r v' Hv HJ Hrun; [injection Hrun as <- <-; eauto|]. cbn [spend_ins] in Hrun. destruct (spends_nothing i); [by eapply IH|].
  rewrite (vbind_ok _ _ v v v eq_refl) in Hrun. destruct (u_LookupEntry v (PreviousOutPoint i)) as [e|] eqn:Ee; [|injection Hrun as <- <-; eauto].
  assert (writable e) as He by (unfold u_LookupEntry in Ee; destruct (v_Utxo v !! PreviousOutPoint i) as [e'|] eqn:E; [|done]; simpl in Ee; subst e'; by eapply Hv).
  rewrite (vbind_ok _ _ v _ _ eq_refl) in Hrun. eapply IH; [| |exact Hrun].
  - intros o e' Ho. cbn [v_Utxo set_utxo] in Ho. apply lookup_insert_Some in Ho as [[_ E]|[_ Ho]]; [|by eapply Hv]. injection E as <-. destruct He as [[] ?]. by split.
  - apply Forall_app. split; [done|]. apply Forall_singleton. by apply spent_ok.
Qed.

Lemma add_writable HashH hash outs : forall i cb ht v v', sint_range 32 ht -> Forall out_writable outs -> all_writable v ->
  add_outs HashH hash i outs cb ht v = Ok ((), v') -> all_writable v'.
Proof.
  induction outs as [|out outs IH]; intros i cb ht v v' Hh Ho Hv Hrun; [by injection Hrun as <-|]. apply Forall_cons in Ho as [(Ht & Ha & Hr & Hs) Ho].
  cbn [add_outs] in Hrun. destruct (out_IsSeparator out); [by eapply IH|]. apply vbind_inv in Hrun as (np & v0 & H0 & Hrun). pose proof (keeps_lift _ _ _ _ H0) as E0.
  destruct np; [eapply IH; [done|done| |exact Hrun]; unfold all_writable; by rewrite E0|]. apply vbind_inv in Hrun as (cr & v1 & H1 & Hrun). pose proof (keeps_lift _ _ _ _ H1) as E1.
  rewrite E0 in E1. destruct cr; [eapply IH; [done|done| |exact Hrun]; unfold all_writable; by rewrite E1|].
  apply vbind_inv in Hrun as (e & v2 & H2 & Hrun). injection H2 as He <-. apply vbind_inv in Hrun as (e' & v3 & H3 & Hrun). eapply IH; [done|done| |exact Hrun].
  unfold monitor_output in H3. apply vbind_inv in H3 as (y & v4 & H4 & H3). pose proof (token_rights_none _ _ _ _ _ H4) as ->. injection H3 as _ <-.
  unfold all_writable. rewrite (keeps_TokenRights _ _ _ _ _ H4). cbn [v_Utxo set_utxo]. intros o' e0 Ho'. apply lookup_insert_Some in Ho' as [[_ E]|[_ Ho']].
  - injection E as <-. split; [constructor; done|done].
  - rewrite E1 in Ho'. by eapply Hv.
Qed.

Section Written.
Context (HashH DoubleHashH : list Z -> list Z) (fuel : nat).

Lemma outs_writable tx ht v v' : sint_range 32 ht -> Forall out_writable (TxOuts tx) -> all_writable v -> AddTxOuts HashH DoubleHashH tx ht v = Ok ((), v') -> all_writable v'.
Proof. intros Hh Ho Hv H. apply AddTxOuts_inv in H as (cb & hash & _ & H). by eapply add_writable. Qed.

Lemma tx_writable tx ht v J r v' : TxDef tx = [] -> sint_range 32 ht -> Forall out_writable (TxOuts tx) -> all_writable v -> Forall stxo_ok J ->
  connect_tx HashH DoubleHashH fuel tx ht (Some J) v = Ok (r, v') -> all_writable v' /\ exists J', r.2 = Some J' /\ Forall stxo_ok J'.
Proof.
  intros Hd Hh Ho Hv HJ Hrun. unfold connect_tx, AddBorder, AddRights, AddPolygon in Hrun. rewrite Hd in Hrun. cbn [add_defs] in Hrun.
  do 3 (rewrite (vbind_ok _ _ v true v eq_refl) in Hrun; cbn [negb] in Hrun). apply vbind_inv in Hrun as (cb & v1 & H1 & Hrun). pose proof (keeps_lift _ _ _ _ H1) as E1.
  apply vbind_inv in Hrun as (err & v2 & H2 & Hrun). assert (v_Utxo v2 = v_Utxo v1) as E2.
  { destruct (negb cb && negb (tx_IsCrossChain tx)); [by apply keeps_dereference in H2|by injection H2 as _ <-]. }
  assert (all_writable v2) as Hv2 by (unfold all_writable; by rewrite E2, E1). destruct err as [e|]; [injection Hrun as <- <-; eauto|].
  apply vbind_inv in Hrun as ([] & v3 & H3 & Hrun). apply keeps_reference in H3. assert (all_writable v3) as Hv3 by (unfold all_writable; by rewrite H3).
  apply vbind_inv in Hrun as ([err st] & v4 & H4 & Hrun). injection Hrun as <- <-. unfold ConnectTransaction in H4. apply vbind_inv in H4 as (cb' & v5 & H5 & H4).
  apply keeps_lift in H5. assert (all_writable v5) as Hv5 by (unfold all_writable; by rewrite H5). destruct cb'.
  - apply vbind_inv in H4 as ([] & v6 & H6 & H4). injection H4 as <- <- <-. split; [by eapply outs_writable|]. by exists J.
  - apply vbind_inv in H4 as ([err' st'] & v6 & H6 & H4). assert (all_writable v6 /\ exists J', st' = Some J' /\ Forall stxo_ok J') as [Hv6 (J' & -> & HJ')].
    { destruct (tx_IsCrossChain tx); [injection H6 as <- <- <-; eauto|]. by apply spend_writable in H6. }
    destruct err' as [e|]; [injection H4 as <- <- <-; eauto|]. apply vbind_inv in H4 as ([] & v7 & H7 & H4). injection H4 as <- <- <-.
    split; [by eapply outs_writable|]. by exists J'.
Qed.

Lemma txs_writable txs : forall ht v J r v', Forall (fun tx => TxDef tx = []) txs -> sint_range 32 ht -> Forall (fun tx => Forall out_writable (TxOuts tx)) txs -> all_writable v ->
  Forall stxo_ok J -> connect_txs HashH DoubleHashH fuel txs ht (Some J) v = Ok (r, v') -> exists J', r.2 = Some J' /\ Forall stxo_ok J'.
Proof.
  induction txs as [|tx txs IH]; intros ht v J r v' Hd Hh Ho Hv HJ Hrun; [injection Hrun as <- <-; by exists J|]. apply Forall_cons in Hd as [Hd Hds]. apply Forall_cons in Ho as [Ho Hos].
  cbn [connect_txs] in Hrun. apply vbind_inv in Hrun as ([err st] & v1 & H1 & Hrun). destruct (tx_writable _ _ _ _ _ _ Hd Hh Ho Hv HJ H1) as (Hv1 & J1 & E1 & HJ1).
  cbn in E1. subst st. destruct err; [injection Hrun as <- <-; by exists J1|]. by eapply IH.
Qed.

(** The journal that connecting a block gives has one output for every input that spends, and
    can be written. *)
Lemma block_journal b v v1 stxos tx txs : b_Transactions b = tx :: txs -> Forall (fun tx => TxDef tx = []) (tx :: txs) -> sint_range 32 (b_Height b) ->
  Forall (fun tx => Forall out_writable (TxOuts tx)) (tx :: txs) -> all_writable v ->
  ConnectTransactions HashH DoubleHashH fuel b (Some []) v = Ok ((None, Some stxos), v1) -> Forall stxo_ok stxos.
Proof.
  intros E Hd Hh Ho Hv H. unfold ConnectTransactions in H. apply vbind_inv in H as ([err st] & va & Hrun & H). rewrite E in Hrun.
  destruct (txs_writable _ _ _ _ _ _ Hd Hh Ho Hv (Forall_nil_2 _) Hrun) as (J & EJ & HJ). cbn in EJ. subst st.
  destruct err; [injection H as ???; by subst|]. rewrite (vbind_ok _ _ va () _ eq_refl) in H. by injection H as <- _.
Qed.
End Written.

(** The journal has one output for every input that spends, since disconnecting accepts it. *)
Lemma undo_counts HashH DoubleHashH fuel b stxos v v' : DisconnectTransactions HashH DoubleHashH fuel b stxos v = Ok (None, v') ->
  exists tx txs, b_Transactions b = tx :: txs /\ length stxos = spend_count txs.
Proof.
  intros H. unfold DisconnectTransactions in H. apply vbind_inv in H as ([] & v1 & _ & H). apply vbind_inv in H as ([] & v2 & _ & H). apply vbind_inv in H as ([] & v3 & _ & H).
  unfold disconnectTransactions in H. apply vbind_inv in H as (n & v4 & Hn & H). apply bind_ok_inv in Hn as (n' & Hn & En). injection En as <- <-.
  destruct (b_Transactions b) as [|tx txs] eqn:Etx; [by unfold CountSpentOutputs in Hn; rewrite Etx in Hn|]. exists tx, txs. split; [done|].
  rewrite (CountSpentOutputs_ok b tx txs Etx) in Hn. injection Hn as <-. case_decide as Hd; [done|]. lia.
Qed.

(** ** Theorems *)

(** C4: a block that only moves tokens can be undone from the disk.  The block defines nothing
    (no borders, polygons, rights: a block with definitions is not covered), its first
    transaction alone is the coin base, the outputs that it pays are new, those that it spends
    are unspent, spent once and not of height 0 (the journal keeps no height of 0), and it
    pays no polygon to nobody (the code counts its borders when it connects the block and not
    when it undoes it).  Connecting such a block, which may move polygons and so change the
    references of borders, gives a journal of what it spends; written to the database under
    the hash of the block and read back when the block is disconnected, it gives exactly the
    same outputs, and disconnecting the block with them makes every output unspent exactly
    when it was before, with the same content, gives every border the references it had,
    leaves the polygons and rights alone, and puts the views at the block before it. *)
Theorem block_undone_from_disk (HashH DoubleHashH : list Z -> list Z) (fuel : nat) (b : Block) (v v1 : ViewPointSet) (stxos : list SpentTxOut) (journal : bucket)
  (Hsane : sane fuel v) (Hfits : block_fits HashH DoubleHashH fuel v b)
  (Hconnect : ConnectTransactions HashH DoubleHashH fuel b (Some []) v = Ok ((None, Some stxos), v1))
  (Hwritable : all_writable v) (Houts : Forall (fun tx => Forall out_writable (TxOuts tx)) (b_Transactions b)) (Hheight : sint_range 32 (b_Height b))
  (Hhash : forall l, length (DoubleHashH l) = HashSize) :
  exists journal' v2, dbPutSpendJournalEntry journal (BlockHash DoubleHashH (Header (b_msgBlock b))) stxos = Ok (None, journal') /\
    dbFetchSpendJournalEntry DoubleHashH journal' b = Ok (inl stxos) /\
    DisconnectTransactions HashH DoubleHashH fuel b stxos v1 = Ok (None, v2) /\
    (forall o, U v2 o = U v o) /\ (forall h, unsigned h = h -> oshifted 0 (border_at v h) (border_at v2 h)) /\
    (forall h, polygon_at v2 h = polygon_at v h) /\ (forall h, right_at v2 h = right_at v h) /\ v_utxoBest v2 = h_PrevBlock (Header (b_msgBlock b)).
Proof.
  destruct (connect_undone _ _ _ _ _ _ _ Hsane Hfits Hconnect) as (v2 & Hdis & Hrest). destruct (undo_counts _ _ _ _ _ _ _ Hdis) as (tx & txs & Etx & Hn).
  assert (Forall stxo_ok stxos) as Hok.
  { rewrite Etx in Houts. eapply block_journal; try done. unfold block_fits in Hfits. rewrite Etx in Hfits. destruct Hfits as [Hf Hfa].
    constructor; [apply (fi_def _ _ _ _ Hf)|]. unfold ConnectTransactions in Hconnect. apply vbind_inv in Hconnect as ([err st] & va & Hrun & Hbest). destruct err; [done|].
    rewrite Etx in Hrun. cbn [connect_txs] in Hrun. apply vbind_inv in Hrun as ([err st'] & vc & Hcb & Hrun). destruct err; [done|].
    destruct (fi_ins _ _ _ _ Hf) as (es & Hes). destruct (tx_undo _ _ _ _ _ _ _ _ _ _ _ Hsane Hf Hes Hcb) as (d1 & -> & M1 & _).
    by destruct (txs_undo _ _ _ _ txs vc _ _ _ (moved_sane _ _ _ _ M1 Hsane) (Hfa _ _ _ Hcb) Hrun) as (? & ? & _ & _ & Hdefs & _). }
  destruct (read_back_journal stxos txs Hok Hn) as (bs & Hser & Hdes). set (h := BlockHash DoubleHashH (Header (b_msgBlock b))).
  assert (h <> []) as Hne by (intros E; apply (f_equal length) in E; unfold h, BlockHash in E; by rewrite Hhash in E).
  exists (<[h := bs]> journal), v2. unfold dbPutSpendJournalEntry. rewrite Hser, outcome_bind_ok, b_Put_ne by done. split; [done|]. split; [|done].
  unfold dbFetchSpendJournalEntry. fold h. rewrite b_Get_ne, lookup_insert_eq, Etx by done. cbn [default from_option id]. by rewrite Hdes.
Qed.

Lemma block_undone_from_disk_witness :
  U (view_after undo_connected) old_point = Ok (inl None) /\
  exists journal v2, dbPutSpendJournalEntry ∅ (BlockHash toy_hash (Header (b_msgBlock undo_block))) undo_journal = Ok (None, journal) /\
    dbFetchSpendJournalEntry toy_hash journal undo_block = Ok (inl undo_journal) /\
    DisconnectTransactions toy_hash toy_hash 1 undo_block undo_journal (view_after undo_connected) = Ok (None, v2) /\ U v2 old_point = U undo_view old_point.
Proof.
  split; [vm_compute; reflexivity|].
  destruct (block_undone_from_disk toy_hash toy_hash 1 undo_block undo_view (view_after undo_connected) undo_journal ∅) as (j & v2 & Hp & Hf & Hd & HU & _).
  - apply empty_sane.
  - apply undo_block_fits.
  - apply undo_connects.
  - intros o e Ho. cbn in Ho. apply lookup_singleton_Some in Ho as [_ E]. injection E as <-. split; [constructor; vm_compute; repeat split; congruence|reflexivity].
  - repeat constructor; vm_compute; congruence.
  - split; vm_compute; congruence.
  - intros l. unfold toy_hash. by rewrite length_app, length_replicate.
  - exists j, v2. split; [exact Hp|]. split; [exact Hf|]. split; [exact Hd|apply HU].
Defined.
