(* ===== verification/OrphanMgr.v ===== *)
(** * The pool of orphan blocks

    Models btcd/blockchain/chainutil/orphanmgr.go: the blocks whose parent is not known yet,
    by their hash and by the hash of their parent.  The pool keeps pointers: an orphan is one
    object in a heap, which the map of orphans, the lists of children and the oldest orphan
    share.  What the pool asks of a block is the interface [Orphaned]; the blocks of the
    transaction chain and of the miner chain implement it.  The order in which a map is
    visited and the readings of the clock are arguments. *)
From Stdlib Require Import ZArith Lia.
From stdpp Require Import gmap list.
From S2P Require Import Prelude Wire Token MsgTx MsgBlock.

Open Scope Z_scope.

Definition maxOrphanBlocks : Z := 2 * 500.
Definition orphan_hour : Z := 3600 * 10 ^ 9.

Class Orphaned (B : Type) := MkOrphaned {
  ob_PrevBlock : B -> list Z;
  ob_Hash : B -> list Z;
  ob_NeedUpdate : B -> B -> outcome bool;
  ob_Removable : B -> B -> outcome bool;
}.

Record orphanBlock (B : Type) := MkOrphan { o_block : B; o_expiration : Z }.
Arguments MkOrphan {B}.
Arguments o_block {B}.
Arguments o_expiration {B}.

Record Orphans (B : Type) := MkOrphans {
  o_heap : gmap loc (orphanBlock B);
  orphans : gmap (list Z) loc;
  prevOrphans : gmap (list Z) (list loc);
  oldestOrphan : ptr;
}.
Arguments MkOrphans {B}.
Arguments o_heap {B}.
Arguments orphans {B}.
Arguments prevOrphans {B}.
Arguments oldestOrphan {B}.

Section Pool.
Context {B : Type} `{Orphaned B}.

Definition NewOrphanMgr : Orphans B := MkOrphans ∅ ∅ ∅ None.
Definition set_oldest (b : Orphans B) (p : ptr) : Orphans B := MkOrphans (o_heap b) (orphans b) (prevOrphans b) p.

(** The message of an orphan; the map of orphans holds no nil. *)
Definition GetOrphanBlock (b : Orphans B) (hash : list Z) : outcome (option B) :=
  match orphans b !! hash with None => Ok None | Some p => o ← load (o_heap b) (Some p); Ok (Some (o_block o)) end.
Definition IsKnownOrphan (b : Orphans B) (hash : list Z) : bool := bool_decide (is_Some (orphans b !! hash)).
Definition Count (b : Orphans B) : Z := Z.of_nat (size (orphans b)).

(** The walk to the parent that is no orphan. *)
Fixpoint root_loop (fuel : nat) (b : Orphans B) (orphanRoot prevHash : list Z) : outcome (list Z) :=
  match orphans b !! prevHash with
  | None => Ok orphanRoot
  | Some p =>
      match fuel with
      | O => NoFuel
      | S fuel => o ← load (o_heap b) (Some p); root_loop fuel b prevHash (ob_PrevBlock (o_block o))
      end
  end.
Definition GetOrphanRoot (b : Orphans B) (hash : list Z) : outcome (list Z) := root_loop (size (orphans b)) b hash hash.

(** Every pointer to an orphan of that hash leaves the list. *)
Fixpoint drop_orphan (h : gmap loc (orphanBlock B)) (hash : list Z) (l : list loc) : outcome (list loc) :=
  match l with
  | [] => Ok []
  | p :: l => o ← load h (Some p); l ← drop_orphan h hash l; Ok (if IsEqual (ob_Hash (o_block o)) hash then l else p :: l)
  end.
Definition removeOrphanBlock (b : Orphans B) (orphan : ptr) : outcome (Orphans B) :=
  o ← load (o_heap b) orphan;
  let orphanHash := ob_Hash (o_block o) in
  let prevHash := ob_PrevBlock (o_block o) in
  l ← drop_orphan (o_heap b) orphanHash (default [] (prevOrphans b !! prevHash));
  let m := <[prevHash := l]> (prevOrphans b) in
  Ok (MkOrphans (o_heap b) (delete orphanHash (orphans b)) (if decide (l = []) then delete prevHash m else m) (oldestOrphan b)).

(** The visit of the orphans: [visits] has the hashes in the order of the visit, each with the
    time that the clock shows then.  An orphan that has gone is not visited. *)
Fixpoint expire_loop (visits : list (list Z * Z)) (b : Orphans B) : outcome (Orphans B) :=
  match visits with
  | [] => Ok b
  | (hash, now) :: visits =>
      match orphans b !! hash with
      | None => expire_loop visits b
      | Some p =>
          o ← load (o_heap b) (Some p);
          if decide (o_expiration o < now) then b ← removeOrphanBlock b (Some p); expire_loop visits b
          else
            older ← (match oldestOrphan b with
                     | None => Ok true
                     | Some _ => old ← load (o_heap b) (oldestOrphan b); Ok (bool_decide (o_expiration o < o_expiration old))
                     end);
            expire_loop visits (if older : bool then set_oldest b (Some p) else b)
      end
  end.

(** The parent, when it is not known as an orphan itself. *)
Definition AddOrphanBlock (b : Orphans B) (visits : list (list Z * Z)) (now : Z) (block : B) : outcome (option (list Z) * Orphans B) :=
  b ← expire_loop visits b;
  b ← (if decide (maxOrphanBlocks < Count b + 1) then b ← removeOrphanBlock b (oldestOrphan b); Ok (set_oldest b None) else Ok b);
  let hash := ob_Hash block in
  match orphans b !! hash with
  | Some p =>
      ob ← load (o_heap b) (Some p);
      update ← ob_NeedUpdate block (o_block ob);
      if update : bool then
        h ← modify (o_heap b) (Some p) (fun o => MkOrphan block (o_expiration o));
        Ok (None, MkOrphans h (orphans b) (prevOrphans b) (oldestOrphan b))
      else Ok (None, b)
  | None =>
      let p := fresh_loc (o_heap b) in
      let h := <[p := MkOrphan block (now + orphan_hour)]> (o_heap b) in
      let prevHash := ob_PrevBlock block in
      let b := MkOrphans h (<[hash := p]> (orphans b)) (<[prevHash := default [] (prevOrphans b !! prevHash) ++ [p]]> (prevOrphans b)) (oldestOrphan b) in
      Ok (if decide (orphans b !! prevHash = None) then Some prevHash else None, b)
  end.

Definition CheckOrphan (b : Orphans B) (blockHash : list Z) (block : B) : outcome (bool * Orphans B) :=
  match orphans b !! blockHash with
  | None => Ok (true, b)
  | Some p =>
      o ← load (o_heap b) (Some p);
      removable ← ob_Removable block (o_block o);
      if removable : bool then b ← removeOrphanBlock b (Some p); Ok (true, b) else Ok (false, b)
  end.

(** ** Processing *)

Section Process.
Context {S : Type} (handler : S -> list Z -> B -> bool * option B * S).

(** The children of [processHash] from index [i] on; the hashes of those that are accepted
    are added to [acc].  A message of the handler ends the processing. *)
Fixpoint children_loop (fuel : nat) (s : S) (b : Orphans B) (processHash : list Z) (i : nat) (acc : list (list Z)) : outcome (option B * list (list Z) * Orphans B * S) :=
  match default [] (prevOrphans b !! processHash) !! i with
  | None => Ok (None, acc, b, s)
  | Some p =>
      match fuel with
      | O => NoFuel
      | Datatypes.S fuel =>
          orphan ← load (o_heap b) (Some p);
          let '(t, h, s) := handler s processHash (o_block orphan) in
          match h with
          | Some h => Ok (Some h, acc, b, s)
          | None =>
              if t : bool then children_loop fuel s b processHash (Datatypes.S i) acc
              else b ← removeOrphanBlock b (Some p); children_loop fuel s b processHash i (acc ++ [ob_Hash (o_block orphan)])
          end
      end
  end.
Fixpoint process_loop (fuel : nat) (s : S) (b : Orphans B) (processHashes : list (list Z)) : outcome (option B * Orphans B * S) :=
  match processHashes with
  | [] => Ok (None, b, s)
  | processHash :: processHashes =>
      match fuel with
      | O => NoFuel
      | Datatypes.S fuel =>
          '(h, acc, b, s) ← children_loop (length (default [] (prevOrphans b !! processHash))) s b processHash 0 [];
          match h with Some h => Ok (Some h, b, s) | None => process_loop fuel s b (processHashes ++ acc) end
      end
  end.
Definition ProcessOrphans (s : S) (b : Orphans B) (hash : list Z) : outcome (option B * Orphans B * S) :=
  process_loop (Datatypes.S (size (orphans b))) s b [hash].
End Process.

(** The roots of the orphans, each once, with the parent that is missing; [handler] may change
    the state [S] and the pool. *)
Fixpoint roots_loop {S : Type} (handler : S -> Orphans B -> list Z -> list Z -> bool -> outcome (bool * Orphans B * S)) (visits : list (list Z))
  (s : S) (b : Orphans B) (root : gset (list Z)) (added : bool) : outcome (bool * Orphans B * S) :=
  match visits with
  | [] => Ok (added, b, s)
  | q :: visits =>
      if decide (orphans b !! q = None) then roots_loop handler visits s b root added
      else
        r ← GetOrphanRoot b q;
        if decide (r ∈ root) then roots_loop handler visits s b root added
        else
          p ← load (o_heap b) (orphans b !! r);
          '(added, b, s) ← handler s b (ob_PrevBlock (o_block p)) r added;
          roots_loop handler visits s b ({[r]} ∪ root) added
  end.
Definition OnNewMinerNode {S : Type} handler (visits : list (list Z)) (s : S) (b : Orphans B) := roots_loop handler visits s b ∅ false.
End Pool.

(** ** The blocks of the two chains *)

Section Blocks.
Context (DoubleHashH : list Z -> list Z).

Definition first_tx (b : MsgBlock) : outcome MsgTx := match Transactions b with [] => Panic | t :: _ => Ok t end.
Definition script_1 (t : MsgTx) : outcome (list Z) := match SignatureScripts t !! 1%nat with None => Panic | Some s => Ok s end.

Definition block_Removable (block oblock : MsgBlock) : outcome bool :=
  t ← first_tx block;
  o ← first_tx oblock;
  if decide (len (SignatureScripts o) < len (SignatureScripts t)) then Ok true
  else match TxIns o with [] => Panic | i :: _ => Ok (negb (IsEqual (op_Hash (PreviousOutPoint i)) zero_hash)) end.
Definition block_NeedUpdate (block oblock : MsgBlock) : outcome bool :=
  if decide (h_Nonce (Header block) < 0) then
    t ← first_tx block;
    o ← first_tx oblock;
    if decide (len (SignatureScripts o) < len (SignatureScripts t)) then Ok true
    else if decide (len (SignatureScripts t) = len (SignatureScripts o)) then
      s ← script_1 t; so ← script_1 o; Ok (bool_decide (len so < len s))
    else Ok false
  else Ok false.

Definition tx_orphans : Orphaned MsgBlock :=
  MkOrphaned _ (fun b => h_PrevBlock (Header b)) (fun b => BlockHash DoubleHashH (Header b)) block_NeedUpdate block_Removable.
Definition miner_orphans : Orphaned MingingRightBlock :=
  MkOrphaned _ mb_PrevBlock (MinerBlockHash DoubleHashH) (fun _ _ => Ok false) (fun _ _ => Ok false).
End Blocks.

(** ** The invariant of the pool *)

Section Invariant.
Context {B : Type} `{Orphaned B}.
(** The hash of a block covers the hash of its parent. *)
Context (hash_fixes_prev : forall b1 b2 : B, ob_Hash b1 = ob_Hash b2 -> ob_PrevBlock b1 = ob_PrevBlock b2).
Implicit Types (b : Orphans B) (h p : list Z) (l : loc) (ob : orphanBlock B).

(** The two maps agree: an orphan is found under its own hash and once among the children of
    its parent, and nothing else is there. *)
Record pool_ok b : Prop := MkPoolOk {
  po_orphan : forall h l, orphans b !! h = Some l -> exists ob, o_heap b !! l = Some ob /\ ob_Hash (o_block ob) = h;
  po_child : forall p ls l, prevOrphans b !! p = Some ls -> l ∈ ls ->
    exists ob, o_heap b !! l = Some ob /\ ob_PrevBlock (o_block ob) = p /\ orphans b !! ob_Hash (o_block ob) = Some l;
  po_list : forall p ls, prevOrphans b !! p = Some ls -> ls <> [] /\ NoDup ls;
  po_listed : forall h l ob, orphans b !! h = Some l -> o_heap b !! l = Some ob -> exists ls, prevOrphans b !! ob_PrevBlock (o_block ob) = Some ls /\ l ∈ ls;
  po_oldest : forall l, oldestOrphan b = Some l -> is_Some (o_heap b !! l);
}.

Definition children b p : list loc := default [] (prevOrphans b !! p).

Lemma child_spec b p l : pool_ok b -> l ∈ children b p <-> exists h ob, orphans b !! h = Some l /\ o_heap b !! l = Some ob /\ ob_PrevBlock (o_block ob) = p.
Proof.
  intros Hok. unfold children. split.
  - destruct (prevOrphans b !! p) as [ls|] eqn:E; [|by intros ?%elem_of_nil]. intros Hl. destruct (po_child _ Hok _ _ _ E Hl) as (ob & ? & ? & ?). eauto.
  - intros (h & ob & Hh & Hl & <-). by destruct (po_listed _ Hok _ _ _ Hh Hl) as (ls & -> & ?).
Qed.

Lemma children_nodup b p : pool_ok b -> NoDup (children b p).
Proof. intros Hok. unfold children. destruct (prevOrphans b !! p) as [ls|] eqn:E; [by apply (po_list _ Hok _ _ E)|constructor]. Qed.

Lemma new_pool_ok : pool_ok (@NewOrphanMgr B).
Proof. constructor; intros *; try done. Qed.

Lemma drop_orphan_ok (heap : gmap loc (orphanBlock B)) hash ls : Forall (fun l => is_Some (heap !! l)) ls ->
  exists ls', drop_orphan heap hash ls = Ok ls' /\ sublist ls' ls /\ forall l, l ∈ ls' <-> l ∈ ls /\ forall ob, heap !! l = Some ob -> ob_Hash (o_block ob) <> hash.
Proof.
  induction 1 as [|l ls [ob E] _ (ls' & D & Hs & IH)]; [exists []; split; [done|]; split; [done|]; set_solver|]. cbn [drop_orphan load]. rewrite E, outcome_bind_ok, D, outcome_bind_ok.
  unfold IsEqual. case_bool_decide as Eh.
  - exists ls'. split; [done|]. split; [by constructor|]. intros l'. rewrite IH, elem_of_cons. split; [tauto|]. intros [[->|?] Hn]; [by destruct (Hn _ E)|done].
  - exists (l :: ls'). split; [done|]. split; [by constructor|]. intros l'. rewrite !elem_of_cons, IH. split; [|tauto]. intros [->|?]; [|tauto]. split; [by left|]. intros ob' E'. by simplify_eq.
Qed.

(** Removing an orphan, also one that has left the pool, takes exactly its hash out. *)
Lemma remove_ok b l ob : pool_ok b -> o_heap b !! l = Some ob -> exists b', removeOrphanBlock b (Some l) = Ok b' /\ pool_ok b' /\
  orphans b' = delete (ob_Hash (o_block ob)) (orphans b) /\ o_heap b' = o_heap b /\ oldestOrphan b' = oldestOrphan b /\
  (forall p, sublist (children b' p) (children b p)) /\ (forall p, p <> ob_PrevBlock (o_block ob) -> children b' p = children b p).
Proof.
  intros Hok El. unfold removeOrphanBlock. cbn [load]. rewrite El, outcome_bind_ok. set (h := ob_Hash (o_block ob)). set (p := ob_PrevBlock (o_block ob)).
  assert (Forall (fun l => is_Some (o_heap b !! l)) (children b p)) as Hall.
  { apply Forall_forall. intros l' Hl'. apply (child_spec _ _ _ Hok) in Hl' as (_ & ob' & _ & E & _). eauto. }
  destruct (drop_orphan_ok (o_heap b) h _ Hall) as (ls & D & Hsub & Hin). unfold children in D. rewrite D, outcome_bind_ok.
  set (m := if decide (ls = []) then _ else _).
  assert (forall q, m !! q = if decide (q = p) then (if decide (ls = []) then None else Some ls) else prevOrphans b !! q) as Hm.
  { intros q. unfold m. case_decide; case_decide; subst; rewrite ?lookup_delete_eq, ?lookup_delete_ne, ?lookup_insert_eq, ?lookup_insert_ne by done; done. }
  eexists. split; [reflexivity|]. split; [|split_and!; cbn; try done].
  - constructor; cbn [orphans o_heap prevOrphans oldestOrphan].
    + intros h' l' E. apply lookup_delete_Some in E as [_ E]. by apply (po_orphan _ Hok).
    + intros q ls' l' Eq Hl'. rewrite Hm in Eq. case_decide as Hq; [subst q; case_decide; simplify_eq|].
      * apply Hin in Hl' as [Hl' Hne]. apply (child_spec _ _ _ Hok) in Hl' as (h' & ob' & Eh & E & Ep). exists ob'. split; [done|]. split; [done|].
        destruct (po_orphan _ Hok _ _ Eh) as (ob2 & E2 & Eh2). simplify_eq. rewrite lookup_delete_ne; [done|]. intros F. by apply (Hne _ E).
      * destruct (po_child _ Hok _ _ _ Eq Hl') as (ob' & E & Ep & Eo). exists ob'. split; [done|]. split; [done|]. rewrite lookup_delete_ne; [done|].
        intros F. apply Hq. rewrite <- Ep. unfold p. by apply hash_fixes_prev.
    + intros q ls' Eq. rewrite Hm in Eq. case_decide; [case_decide; simplify_eq|by apply (po_list _ Hok _ _ Eq)]. split; [done|]. eapply sublist_NoDup; [|exact Hsub]. by apply children_nodup.
    + intros h' l' ob' Eo E. apply lookup_delete_Some in Eo as [Hne Eo]. destruct (po_listed _ Hok _ _ _ Eo E) as (ls' & Els & Hl'). rewrite Hm. destruct (decide (ob_PrevBlock (o_block ob') = p)) as [Hq|Hq]; [|eauto].
      assert (l' ∈ ls) as Hl.
      { apply Hin. split; [rewrite Hq in Els; unfold children; by rewrite Els|]. intros ob2 E2. simplify_eq. destruct (po_orphan _ Hok _ _ Eo) as (ob3 & E3 & <-). by simplify_eq. }
      rewrite decide_False by (intros ->; by apply elem_of_nil in Hl). eauto.
    + intros l' E. by apply (po_oldest _ Hok).
  - intros q. unfold children. cbn [prevOrphans]. rewrite Hm. destruct (decide (q = p)) as [->|]; [|done]. case_decide; [apply sublist_nil_l|done].
  - intros q Hq. unfold children. cbn [prevOrphans]. by rewrite Hm, decide_False.
Qed.

(** ** The bound on the pool *)

(** The oldest orphan that is remembered has left the pool. *)
Definition stale b : Prop := exists l ob, oldestOrphan b = Some l /\ o_heap b !! l = Some ob /\ orphans b !! ob_Hash (o_block ob) = None.
Definition bounded b : Prop := Count b <= maxOrphanBlocks \/ (Count b = maxOrphanBlocks + 1 /\ ~ stale b).

Lemma Count_delete b h : (is_Some (orphans b !! h) -> Z.of_nat (size (delete h (orphans b))) = Count b - 1) /\ (orphans b !! h = None -> Z.of_nat (size (delete h (orphans b))) = Count b).
Proof.
  unfold Count. split.
  - intros Hs. rewrite map_size_delete_Some by done. pose proof (map_size_ne_0_lookup_2 (orphans b) h Hs). lia.
  - intros E. by rewrite delete_id.
Qed.

(** Removing what is in the pool makes room. *)
Lemma remove_bounded b l ob b' : pool_ok b -> bounded b -> o_heap b !! l = Some ob -> is_Some (orphans b !! ob_Hash (o_block ob)) -> removeOrphanBlock b (Some l) = Ok b' ->
  pool_ok b' /\ Count b' = Count b - 1 /\ bounded b' /\ oldestOrphan b' = oldestOrphan b /\ orphans b' = delete (ob_Hash (o_block ob)) (orphans b).
Proof.
  intros Hok Hb El Hs R. destruct (remove_ok b l ob Hok El) as (b2 & R2 & Hok2 & Eo & _ & Ed & _). rewrite R in R2. injection R2 as <-.
  assert (Count b' = Count b - 1) as Hc by (unfold Count at 1; rewrite Eo; by apply Count_delete). split_and!; try done. left. unfold bounded in Hb. lia.
Qed.

Lemma pool_hash b h l ob : pool_ok b -> orphans b !! h = Some l -> o_heap b !! l = Some ob -> ob_Hash (o_block ob) = h.
Proof. intros Hok Eo El. destruct (po_orphan _ Hok _ _ Eo) as (ob' & E & <-). by simplify_eq. Qed.

Lemma set_oldest_ok b h l : pool_ok b -> bounded b -> orphans b !! h = Some l -> pool_ok (set_oldest b (Some l)) /\ bounded (set_oldest b (Some l)).
Proof.
  intros Hok Hb Eo. destruct (po_orphan _ Hok _ _ Eo) as (ob & El & Eh). split.
  - destruct Hok as [H1 H2 H3 H4 H5]. constructor; try done. intros l' E. injection E as <-. eauto.
  - destruct Hb as [Hb|[Hb _]]; [by left|]. right. split; [done|]. intros (l' & ob' & E & E2 & E3). cbn in E, E2, E3. simplify_eq.
Qed.

(** A visit expires orphans, and remembers one when there is any left. *)
Lemma expire_ok visits : forall b, pool_ok b -> bounded b -> exists b', expire_loop visits b = Ok b' /\ pool_ok b' /\ bounded b' /\ orphans b' ⊆ orphans b /\
  (oldestOrphan b <> None -> oldestOrphan b' <> None) /\ (forall h, h ∈ visits.*1 -> is_Some (orphans b' !! h) -> oldestOrphan b' <> None).
Proof.
  induction visits as [|[h now] visits IH]; intros b Hok Hb; [exists b; split_and!; try done; intros ? ?%elem_of_nil; done|]. cbn [expire_loop fmap list_fmap fst].
  destruct (orphans b !! h) as [l|] eqn:Eo.
  - destruct (po_orphan _ Hok _ _ Eo) as (ob & El & Eh). cbn [load]. rewrite El, outcome_bind_ok. case_decide as Hexp.
    + destruct (remove_ok b l ob Hok El) as (b1 & R & _). rewrite R, outcome_bind_ok. destruct (remove_bounded b l ob b1 Hok Hb El ltac:(rewrite Eh; eauto) R) as (Hok1 & _ & Hb1 & Ed1 & Eo1).
      destruct (IH b1 Hok1 Hb1) as (b' & E' & Hok' & Hb' & Hsub & Hold & Hvis). exists b'. split_and!; try done.
      * etransitivity; [exact Hsub|]. rewrite Eo1. apply delete_subseteq.
      * intros Hne. apply Hold. by rewrite Ed1.
      * intros h' Hin Hs. apply elem_of_cons in Hin as [->|Hin]; [|by eapply Hvis]. exfalso. destruct Hs as [l' Hs]. eapply lookup_weaken in Hs; [|exact Hsub].
        rewrite Eo1, Eh, lookup_delete_eq in Hs. done.
    + assert (exists older, (match oldestOrphan b with None => Ok true | Some _ => old ← load (o_heap b) (oldestOrphan b); Ok (bool_decide (o_expiration ob < o_expiration old)) end) = Ok older /\
        (oldestOrphan b = None -> older = true)) as (older & -> & Hnone).
      { destruct (oldestOrphan b) as [lo|] eqn:Eold; [|eauto]. destruct (po_oldest _ Hok _ Eold) as [old E]. cbn [load]. rewrite E, outcome_bind_ok. by eexists. }
      rewrite outcome_bind_ok. set (b1 := if older then _ else _). destruct (set_oldest_ok b h l Hok Hb Eo) as [Hs1 Hs2].
      assert (pool_ok b1 /\ bounded b1 /\ orphans b1 = orphans b /\ oldestOrphan b1 <> None) as (Hok1 & Hb1 & Eo1 & Hne1).
      { unfold b1. destruct older; [by split_and!|]. split_and!; try done. intros E. by specialize (Hnone E). }
      destruct (IH b1 Hok1 Hb1) as (b' & E' & Hok' & Hb' & Hsub & Hold & Hvis). exists b'. rewrite <- Eo1. split_and!; try done; [by intros _; apply Hold|]. intros h' _ _. by apply Hold.
  - destruct (IH b Hok Hb) as (b' & E' & Hok' & Hb' & Hsub & Hold & Hvis). exists b'. split_and!; try done.
    intros h' Hin Hs. apply elem_of_cons in Hin as [->|Hin]; [|by eapply Hvis]. exfalso. destruct Hs as [l' Hs]. eapply lookup_weaken in Hs; [|exact Hsub]. by rewrite Eo in Hs.
Qed.

Lemma no_oldest_ok b : pool_ok b -> pool_ok (set_oldest b None) /\ ~ stale (set_oldest b None).
Proof. intros [H1 H2 H3 H4 H5]. split; [by constructor|]. by intros (l & ob & E & _). Qed.

(** Room is made when the pool is full, unless the oldest orphan is stale. *)
Lemma room_ok b : pool_ok b -> bounded b -> (forall h, is_Some (orphans b !! h) -> oldestOrphan b <> None) ->
  exists b', (if decide (maxOrphanBlocks < Count b + 1) then b ← removeOrphanBlock b (oldestOrphan b); Ok (set_oldest b None) else Ok b) = Ok b' /\ pool_ok b' /\
    orphans b' ⊆ orphans b /\ (Count b' < maxOrphanBlocks \/ (Count b' = maxOrphanBlocks /\ ~ stale b')).
Proof.
  intros Hok Hb Hne. case_decide as Hfull; [|exists b; split_and!; try done; left; lia].
  assert (exists h, is_Some (orphans b !! h)) as [h Hh].
  { destruct (decide (orphans b = ∅)) as [E|E]; [|apply map_choose in E as (h & l & E); eauto]. unfold Count in Hfull. rewrite E, map_size_empty in Hfull. unfold maxOrphanBlocks in Hfull. simpl in Hfull. lia. }
  destruct (oldestOrphan b) as [l|] eqn:Eold; [|by destruct (Hne h Hh)]. destruct (po_oldest _ Hok _ Eold) as [ob El].
  destruct (remove_ok b l ob Hok El) as (b1 & R & Hok1 & Eo1 & _). rewrite R, outcome_bind_ok. exists (set_oldest b1 None). split; [done|]. destruct (no_oldest_ok b1 Hok1) as [Hok2 Hst].
  split; [done|]. split; [cbn; rewrite Eo1; apply delete_subseteq|].
  assert (Count (set_oldest b1 None) = Z.of_nat (size (delete (ob_Hash (o_block ob)) (orphans b)))) as Hc by (unfold Count; cbn; by rewrite Eo1).
  destruct (Count_delete b (ob_Hash (o_block ob))) as [Hin Hout]. destruct (orphans b !! ob_Hash (o_block ob)) as [l'|] eqn:Eh.
  - rewrite Hin in Hc by eauto. destruct Hb as [Hb|[Hb _]]; [left; lia|]. right. split; [lia|done].
  - rewrite Hout in Hc by done. destruct Hb as [Hb|[_ Hb]]; [|by destruct Hb; exists l, ob]. right. split; [lia|done].
Qed.

Lemma insert_ok b block now : pool_ok b -> orphans b !! ob_Hash block = None ->
  pool_ok (MkOrphans (<[fresh_loc (o_heap b) := MkOrphan block now]> (o_heap b)) (<[ob_Hash block := fresh_loc (o_heap b)]> (orphans b))
    (<[ob_PrevBlock block := children b (ob_PrevBlock block) ++ [fresh_loc (o_heap b)]]> (prevOrphans b)) (oldestOrphan b)).
Proof.
  intros Hok Hnew. set (q := fresh_loc (o_heap b)). pose proof (fresh_loc_None (o_heap b)) as Hq. fold q in Hq.
  assert (forall l ob, o_heap b !! l = Some ob -> <[q := MkOrphan block now]> (o_heap b) !! l = Some ob) as Hkeep by (intros l ob E; rewrite lookup_insert_ne; [done|congruence]).
  constructor; cbn [orphans o_heap prevOrphans oldestOrphan].
  - intros h l E. apply lookup_insert_Some in E as [[<- <-]|[_ E]]; [eexists; by rewrite lookup_insert_eq|]. destruct (po_orphan _ Hok _ _ E) as (ob & El & Eh). eauto.
  - assert (forall p l, l ∈ children b p -> exists ob, o_heap b !! l = Some ob /\ ob_PrevBlock (o_block ob) = p /\ orphans b !! ob_Hash (o_block ob) = Some l) as Hchild.
    { intros p l Hl. unfold children in Hl. destruct (prevOrphans b !! p) as [ls|] eqn:E; [|by apply elem_of_nil in Hl]. by apply (po_child _ Hok _ _ _ E). }
    assert (forall p l, l ∈ children b p -> exists ob, <[q := MkOrphan block now]> (o_heap b) !! l = Some ob /\ ob_PrevBlock (o_block ob) = p /\ <[ob_Hash block := q]> (orphans b) !! ob_Hash (o_block ob) = Some l) as Hchild'.
    { intros p l Hl. destruct (Hchild p l Hl) as (ob & El & Ep & Eo). exists ob. split; [auto|]. split; [done|]. rewrite lookup_insert_ne; [done|congruence]. }
    intros p ls l E Hl. apply lookup_insert_Some in E as [[<- <-]|[_ E]]; [|apply Hchild'; unfold children; by rewrite E].
    apply elem_of_app in Hl as [Hl|Hl]; [by apply Hchild'|]. apply list_elem_of_singleton in Hl as ->. exists (MkOrphan block now). cbn. by rewrite !lookup_insert_eq.
  - intros p ls E. apply lookup_insert_Some in E as [[<- <-]|[_ E]]; [|by apply (po_list _ Hok _ _ E)]. split; [by destruct (children b _)|]. apply NoDup_app. split; [by apply children_nodup|].
    split; [|apply NoDup_singleton]. intros l Hl Hl'. apply list_elem_of_singleton in Hl' as ->. apply (child_spec _ _ _ Hok) in Hl as (h & ob & _ & E & _). congruence.
  - intros h l ob Eo El. apply lookup_insert_Some in Eo as [[<- <-]|[Hne Eo]].
    + rewrite lookup_insert_eq in El. injection El as <-. cbn. rewrite lookup_insert_eq. eexists. split; [done|]. apply elem_of_app. right. by apply list_elem_of_singleton.
    + destruct (po_orphan _ Hok _ _ Eo) as (ob' & El' & _). rewrite (Hkeep _ _ El') in El. injection El as <-. destruct (po_listed _ Hok _ _ _ Eo El') as (ls & Els & Hl).
      destruct (decide (ob_PrevBlock block = ob_PrevBlock (o_block ob'))) as [Ep|Ep].
      * rewrite Ep, lookup_insert_eq. eexists. split; [done|]. apply elem_of_app. left. unfold children. by rewrite Els.
      * rewrite lookup_insert_ne by done. eauto.
  - intros l E. destruct (po_oldest _ Hok _ E) as [ob El]. eauto.
Qed.

Lemma update_ok b h l ob block : pool_ok b -> orphans b !! h = Some l -> o_heap b !! l = Some ob -> ob_Hash block = h ->
  pool_ok (MkOrphans (<[l := MkOrphan block (o_expiration ob)]> (o_heap b)) (orphans b) (prevOrphans b) (oldestOrphan b)).
Proof.
  intros Hok Eo El Eb. pose proof (pool_hash _ _ _ _ Hok Eo El) as Eh. assert (ob_PrevBlock block = ob_PrevBlock (o_block ob)) as Ep by (apply hash_fixes_prev; congruence).
  assert (forall l' ob', o_heap b !! l' = Some ob' -> exists ob2, <[l := MkOrphan block (o_expiration ob)]> (o_heap b) !! l' = Some ob2 /\ ob_Hash (o_block ob2) = ob_Hash (o_block ob') /\
    ob_PrevBlock (o_block ob2) = ob_PrevBlock (o_block ob')) as Hkeep.
  { intros l' ob' E. destruct (decide (l' = l)) as [->|]; [rewrite lookup_insert_eq; simplify_eq; by eexists|rewrite lookup_insert_ne by done; eauto]. }
  constructor; cbn [orphans o_heap prevOrphans oldestOrphan].
  - intros h' l' E. destruct (po_orphan _ Hok _ _ E) as (ob' & E' & <-). destruct (Hkeep _ _ E') as (ob2 & ? & ? & ?). eauto.
  - intros p ls l' E Hl. destruct (po_child _ Hok _ _ _ E Hl) as (ob' & E' & <- & Eo'). destruct (Hkeep _ _ E') as (ob2 & E2 & Hh & Hp). exists ob2. by rewrite Hh, Hp.
  - intros p ls E. by apply (po_list _ Hok _ _ E).
  - intros h' l' ob2 Eo' E2. destruct (po_orphan _ Hok _ _ Eo') as (ob' & E' & _). destruct (Hkeep _ _ E') as (ob3 & E3 & _ & Hp). rewrite E2 in E3. injection E3 as <-. rewrite Hp. by eapply po_listed.
  - intros l' E. destruct (po_oldest _ Hok _ E) as [ob' E']. destruct (Hkeep _ _ E') as (? & ? & _). eauto.
Qed.

(** ** Processing *)

Lemma sublist_is_filter {A} `{EqDecision A} (P : A -> Prop) `{forall x, Decision (P x)} (k l : list A) :
  sublist k l -> NoDup l -> (forall x, x ∈ k <-> x ∈ l /\ P x) -> k = filter P l.
Proof.
  induction 1 as [|x k l Hs IH|x k l Hs IH]; intros Hnd Hin; [done|..]; apply NoDup_cons in Hnd as [Hx Hnd].
  - rewrite filter_cons_True by (apply Hin, elem_of_cons; by left). f_equal. apply IH; [done|]. intros y. specialize (Hin y). rewrite !elem_of_cons in Hin.
    split; [|intros [Hy HP]; destruct (proj2 Hin (conj (or_intror Hy) HP)) as [->|]; done]. intros Hy. split; [by eapply elem_of_sublist|]. apply Hin. by right.
  - assert (~ P x) as HP. { intros HP. apply Hx. eapply elem_of_sublist; [|exact Hs]. apply Hin. split; [apply elem_of_cons; by left|done]. }
    rewrite filter_cons_False by done. apply IH; [done|]. intros y. rewrite Hin, elem_of_cons. split; [|tauto]. intros [[->|] ?]; done.
Qed.

Lemma filter_keeps_all {A} (P : A -> Prop) `{forall x, Decision (P x)} (l : list A) : Forall P l -> filter P l = l.
Proof. induction 1 as [|x l Hx _ IH]; [done|]. by rewrite filter_cons_True, IH. Qed.

Lemma NoDup_take_out {A} `{EqDecision A} (l : list A) i x : NoDup l -> l !! i = Some x -> filter (fun y => y <> x) l = take i l ++ drop (S i) l.
Proof.
  intros Hnd Hi. rewrite <- (take_drop_middle l i x Hi) at 1. rewrite <- (take_drop_middle l i x Hi) in Hnd. apply NoDup_app in Hnd as (_ & Hn & Hnd). apply NoDup_cons in Hnd as [Hx _].
  rewrite filter_app, filter_cons_False by (by intros F). f_equal; apply filter_keeps_all; apply Forall_forall; intros y Hy ->; [|done]. apply (Hn x Hy). apply elem_of_cons. by left.
Qed.

(** The lists of children lose exactly the orphan that is removed. *)
Lemma remove_children b l ob b' : pool_ok b -> o_heap b !! l = Some ob -> orphans b !! ob_Hash (o_block ob) = Some l -> removeOrphanBlock b (Some l) = Ok b' ->
  forall p, children b' p = filter (fun l' => l' <> l) (children b p).
Proof.
  intros Hok El Eo R p. destruct (remove_ok b l ob Hok El) as (b2 & R2 & Hok' & Eo' & Eh' & _ & Hsub & _). rewrite R in R2. injection R2 as <-.
  apply sublist_is_filter; [apply Hsub|by apply children_nodup|]. intros l'. rewrite (child_spec b' p l' Hok'), (child_spec b p l' Hok), Eo', Eh'. split.
  - intros (h & ob' & E & E' & Ep). apply lookup_delete_Some in E as [Hne E]. split; [eauto|]. intros ->. destruct (po_orphan _ Hok _ _ E) as (ob2 & E2 & <-). by simplify_eq.
  - intros [(h & ob' & E & E' & Ep) Hne]. exists h, ob'. split; [|done]. apply lookup_delete_Some. split; [|done]. intros <-. congruence.
Qed.

Lemma next_children b l ob b' p i : pool_ok b -> o_heap b !! l = Some ob -> orphans b !! ob_Hash (o_block ob) = Some l -> removeOrphanBlock b (Some l) = Ok b' ->
  children b p !! i = Some l -> children b' p = take i (children b p) ++ drop (S i) (children b p).
Proof. intros Hok El Eo R Hi. rewrite (remove_children b l ob b' Hok El Eo R p). apply NoDup_take_out; [by apply children_nodup|done]. Qed.

Section AnyHandler.
Context {T : Type} (handler : T -> list Z -> B -> bool * option B * T).

Lemma children_loop_ok p : forall fuel s b i acc, pool_ok b -> bounded b -> (length (children b p) <= i + fuel)%nat ->
  exists m new b' s', children_loop handler fuel s b p i acc = Ok (m, acc ++ new, b', s') /\ pool_ok b' /\ bounded b' /\ orphans b' ⊆ orphans b /\
    Count b' + len new = Count b.
Proof.
  induction fuel as [|fuel IH]; intros s b i acc Hok Hb Hf; cbn [children_loop]; fold (children b p).
  - rewrite lookup_ge_None_2 by lia. exists None, [], b, s. rewrite app_nil_r. split_and!; try done. cbn. lia.
  - destruct (children b p !! i) as [l|] eqn:Hi; [|exists None, [], b, s; rewrite app_nil_r; split_and!; try done; cbn; lia].
    pose proof (list_elem_of_lookup_2 _ _ _ Hi) as Hl. apply (child_spec _ _ _ Hok) in Hl as (h & ob & Eo & El & Ep). pose proof (pool_hash _ _ _ _ Hok Eo El) as Eh. subst h.
    cbn [load]. rewrite El, outcome_bind_ok. destruct (handler s p (o_block ob)) as [[t [m|]] s1].
    + exists (Some m), [], b, s1. rewrite app_nil_r. split_and!; try done. cbn. lia.
    + destruct t; [apply IH; try done; lia|]. destruct (remove_ok b l ob Hok El) as (b1 & R & _). rewrite R, outcome_bind_ok.
      destruct (remove_bounded b l ob b1 Hok Hb El ltac:(eauto) R) as (Hok1 & Hc1 & Hb1 & _ & Eo1). pose proof (lookup_lt_Some _ _ _ Hi) as Hlt.
      destruct (IH s1 b1 i (acc ++ [ob_Hash (o_block ob)]) Hok1 Hb1) as (m & new & b' & s' & F & Hok' & Hb' & Hsub & Hc).
      { rewrite (next_children b l ob b1 p i) by done. rewrite length_app, length_take, length_drop. lia. }
      exists m, (ob_Hash (o_block ob) :: new), b', s'. rewrite F, <- app_assoc. split_and!; try done; [|cbn [length]; lia]. etransitivity; [exact Hsub|]. rewrite Eo1. apply delete_subseteq.
Qed.

(** Processing ends, whatever the handler does. *)
Lemma process_loop_ok : forall fuel s b hs, pool_ok b -> bounded b -> len hs + Count b <= Z.of_nat fuel ->
  exists m b' s', process_loop handler fuel s b hs = Ok (m, b', s') /\ pool_ok b' /\ bounded b'.
Proof.
  induction fuel as [|fuel IH]; intros s b hs Hok Hb Hf; destruct hs as [|h hs]; cbn [process_loop]; try (by eexists _, _, _).
  - cbn [length] in Hf. unfold Count in Hf. lia.
  - fold (children b h). destruct (children_loop_ok h (length (children b h)) s b 0 [] Hok Hb ltac:(lia)) as (m & new & b1 & s1 & -> & Hok1 & Hb1 & _ & Hc). rewrite outcome_bind_ok.
    destruct m as [m|]; [by eexists _, _, _|]. apply IH; [done|done|]. cbn [length app] in *. rewrite length_app. lia.
Qed.

Lemma ProcessOrphans_ok s b hash : pool_ok b -> bounded b -> exists m b' s', ProcessOrphans handler s b hash = Ok (m, b', s') /\ pool_ok b' /\ bounded b'.
Proof. intros Hok Hb. apply process_loop_ok; [done|done|]. unfold Count. cbn [length]. lia. Qed.
End AnyHandler.

(** ** What processing releases *)

Section Judge.
Context {T : Type} (accept : B -> bool).

(** A handler that judges a block by itself, and keeps what it does not accept. *)
Definition judge (s : T) (_ : list Z) (block : B) : bool * option B * T := (negb (accept block), None, s).

(** The accepted orphans whose parents are accepted up to [hash]. *)
Inductive released b (hash : list Z) : list Z -> Prop :=
  | released_child h l ob : orphans b !! h = Some l -> o_heap b !! l = Some ob -> accept (o_block ob) = true -> ob_PrevBlock (o_block ob) = hash -> released b hash h
  | released_further h l ob : orphans b !! h = Some l -> o_heap b !! l = Some ob -> accept (o_block ob) = true -> released b hash (ob_PrevBlock (o_block ob)) -> released b hash h.

Definition refused (heap : gmap loc (orphanBlock B)) (l : loc) : Prop := exists ob, heap !! l = Some ob /\ accept (o_block ob) = false.

Lemma children_loop_exact p (s : T) : forall fuel b i acc, pool_ok b -> (length (children b p) <= i + fuel)%nat -> Forall (refused (o_heap b)) (take i (children b p)) ->
  exists new b', children_loop judge fuel s b p i acc = Ok (None, acc ++ new, b', s) /\ pool_ok b' /\ o_heap b' = o_heap b /\
    (forall h, orphans b' !! h = if decide (h ∈ new) then None else orphans b !! h) /\ Count b' + len new = Count b /\
    Forall (fun h => exists l ob, orphans b !! h = Some l /\ o_heap b !! l = Some ob /\ accept (o_block ob) = true /\ ob_PrevBlock (o_block ob) = p) new /\
    Forall (refused (o_heap b)) (children b' p).
Proof.
  induction fuel as [|fuel IH]; intros b i acc Hok Hf Hre; cbn [children_loop]; fold (children b p).
  - rewrite lookup_ge_None_2 by lia. exists [], b. rewrite app_nil_r. split_and!; try done; [cbn; lia|]. by rewrite take_ge in Hre by lia.
  - destruct (children b p !! i) as [l|] eqn:Hi.
    2:{ exists [], b. rewrite app_nil_r. split_and!; try done; [cbn; lia|]. by rewrite take_ge in Hre by (by apply lookup_ge_None). }
    pose proof (list_elem_of_lookup_2 _ _ _ Hi) as Hl. apply (child_spec _ _ _ Hok) in Hl as (h & ob & Eo & El & Ep). pose proof (pool_hash _ _ _ _ Hok Eo El) as Eh. subst h.
    cbn [load]. rewrite El, outcome_bind_ok. unfold judge at 1. destruct (accept (o_block ob)) eqn:Ea; cbn [negb].
    + destruct (remove_ok b l ob Hok El) as (b1 & R & Hok1 & Eo1 & Eh1 & _). rewrite R, outcome_bind_ok. pose proof (next_children b l ob b1 p i Hok El Eo R Hi) as Hch.
      pose proof (lookup_lt_Some _ _ _ Hi) as Hlt. assert (take i (children b1 p) = take i (children b p)) as Ht by (rewrite Hch; apply take_app_length'; rewrite length_take; lia).
      destruct (IH b1 i (acc ++ [ob_Hash (o_block ob)]) Hok1) as (new & b' & F & Hok' & Eh' & Hor & Hc & Hnew & Hdone).
      { rewrite Hch, length_app, length_take, length_drop. lia. } { by rewrite Ht, Eh1. }
      rewrite Eh1 in *. exists (ob_Hash (o_block ob) :: new), b'. rewrite F, <- app_assoc. split_and!; try done.
      * intros h. rewrite Hor, Eo1. destruct (decide (h = ob_Hash (o_block ob))) as [->|Hne].
        { rewrite lookup_delete_eq. rewrite (decide_True (P := _ ∈ _ :: _)) by (apply elem_of_cons; by left). by case_decide. }
        rewrite lookup_delete_ne by done. apply decide_ext. rewrite elem_of_cons. naive_solver.
      * cbn [length]. assert (Count b1 = Count b - 1) by (unfold Count at 1; rewrite Eo1; apply Count_delete; eauto). lia.
      * constructor; [by exists l, ob|]. eapply Forall_impl; [exact Hnew|]. intros h (l' & ob' & E1 & E2 & E3 & E4). exists l', ob'. split_and!; try done. rewrite Eo1 in E1. by apply lookup_delete_Some in E1 as [_ ?].
    + apply IH; [done|lia|]. rewrite (take_S_r _ _ _ Hi). apply Forall_app. split; [done|]. constructor; [by exists ob|done].
Qed.

Lemma process_loop_exact (s : T) b0 hash : forall fuel b Q R, pool_ok b -> o_heap b = o_heap b0 -> (forall h, orphans b !! h = if decide (h ∈ R) then None else orphans b0 !! h) ->
  Forall (released b0 hash) R -> (forall h, h ∈ Q -> h = hash \/ h ∈ R) -> (forall p, p = hash \/ p ∈ R -> p ∈ Q \/ Forall (refused (o_heap b0)) (children b p)) ->
  len Q + Count b <= Z.of_nat fuel ->
  exists b' R', process_loop judge fuel s b Q = Ok (None, b', s) /\ pool_ok b' /\ o_heap b' = o_heap b0 /\ (forall h, orphans b' !! h = if decide (h ∈ R') then None else orphans b0 !! h) /\
    Forall (released b0 hash) R' /\ forall p, p = hash \/ p ∈ R' -> Forall (refused (o_heap b0)) (children b' p).
Proof.
  induction fuel as [|fuel IH]; intros b Q R Hok Hheap Hor HR HQ Hdone Hf; destruct Q as [|q Q]; cbn [process_loop].
  1,3: exists b, R; split_and!; try done; intros p Hp; destruct (Hdone p Hp) as [Hq|?]; [by apply elem_of_nil in Hq|done].
  - cbn [length] in Hf. unfold Count in Hf. lia.
  - fold (children b q). destruct (children_loop_exact q s (length (children b q)) b 0 [] Hok ltac:(lia) ltac:(constructor)) as (new & b1 & -> & Hok1 & Eh1 & Hor1 & Hc & Hnew & Href).
    rewrite outcome_bind_ok, app_nil_l. apply (IH b1 (Q ++ new) (R ++ new)); clear IH; try done.
    + by rewrite Eh1.
    + intros h. rewrite Hor1, Hor. repeat case_decide; try done; set_solver.
    + apply Forall_app. split; [done|]. eapply Forall_impl; [exact Hnew|]. intros h (l & ob & E1 & E2 & E3 & E4). rewrite Hheap in E2. rewrite Hor in E1. case_decide as HhR; [done|].
      destruct (HQ q ltac:(set_solver)) as [->|Hq]; [by eapply released_child|]. eapply released_further; try done. rewrite E4. by apply (proj1 (Forall_forall _ _) HR).
    + intros h Hh. apply elem_of_app in Hh as [Hh|Hh]; [|set_solver]. destruct (HQ h ltac:(set_solver)) as [->|]; [by left|set_solver].
    + intros p Hp. destruct (decide (p ∈ new)) as [Hpn|Hpn]; [left; set_solver|]. assert (p = hash \/ p ∈ R) as Hp' by set_solver.
      destruct (Hdone p Hp') as [Hq|Hq]; [apply elem_of_cons in Hq as [->|Hq]; [right; by rewrite <- Hheap|left; set_solver]|]. right.
      apply Forall_forall. intros l Hl. apply (proj1 (Forall_forall _ _) Hq). apply (child_spec _ _ _ Hok). apply (child_spec _ _ _ Hok1) in Hl as (h & ob & E1 & E2 & E3).
      exists h, ob. rewrite Eh1 in E2. split; [|done]. rewrite Hor1 in E1. by case_decide.
    + rewrite length_app. cbn [length app] in *. lia.
Qed.

Lemma process_exact (s : T) b hash : pool_ok b -> exists b', ProcessOrphans judge s b hash = Ok (None, b', s) /\ pool_ok b' /\
  forall h, (released b hash h -> orphans b' !! h = None) /\ (~ released b hash h -> orphans b' !! h = orphans b !! h).
Proof.
  intros Hok. destruct (process_loop_exact s b hash (Datatypes.S (size (orphans b))) b [hash] []) as (b' & R & F & Hok' & Hheap & Hor & HR & Hdone); try done.
  { intros h Hh. left. by apply list_elem_of_singleton in Hh. } { intros p [->|Hp]; [left; by apply list_elem_of_singleton|by apply elem_of_nil in Hp]. } { unfold Count. cbn [length]. lia. }
  exists b'. split; [done|]. split; [done|].
  assert (forall h l ob, orphans b !! h = Some l -> o_heap b !! l = Some ob -> accept (o_block ob) = true -> (ob_PrevBlock (o_block ob) = hash \/ ob_PrevBlock (o_block ob) ∈ R) -> h ∈ R) as Hstep.
  { intros h l ob E1 E2 E3 Hp. destruct (decide (h ∈ R)) as [|Hn]; [done|exfalso]. assert (orphans b' !! h = Some l) as E by (by rewrite Hor, decide_False).
    specialize (Hdone _ Hp). assert (l ∈ children b' (ob_PrevBlock (o_block ob))) as Hl by (apply (child_spec _ _ _ Hok'); exists h, ob; by rewrite Hheap).
    destruct (proj1 (Forall_forall _ _) Hdone l Hl) as (ob' & E4 & E5). congruence. }
  assert (forall h, released b hash h -> h ∈ R) as Hall by (induction 1; eauto). intros h. rewrite Hor. split; intros Hh.
  - by rewrite decide_True by auto.
  - rewrite decide_False; [done|]. intros HhR. by apply Hh, (proj1 (Forall_forall _ _) HR).
Qed.
End Judge.

(** ** Adding, and the runs of a pool *)

(** The orphans of the pool, each visited once. *)
Definition visits_all b (visits : list (list Z * Z)) : Prop := visits.*1 ≡ₚ (map_to_list (orphans b)).*1.

Lemma visited b visits h : visits_all b visits -> is_Some (orphans b !! h) -> h ∈ visits.*1.
Proof. intros Hv [l E]. rewrite Hv. apply list_elem_of_fmap. exists (h, l). split; [done|]. by apply elem_of_map_to_list. Qed.

Lemma AddOrphanBlock_ok b visits now block : pool_ok b -> bounded b -> visits_all b visits -> (forall o, exists u, ob_NeedUpdate block o = Ok u) ->
  exists r b', AddOrphanBlock b visits now block = Ok (r, b') /\ is_Some (orphans b' !! ob_Hash block).
Proof.
  intros Hok Hb Hv Hneed. destruct (expire_ok visits b Hok Hb) as (b1 & E1 & Hok1 & Hb1 & Hsub1 & _ & Hold). unfold AddOrphanBlock. rewrite E1, outcome_bind_ok.
  destruct (room_ok b1 Hok1 Hb1) as (b2 & E2 & Hok2 & Hsub2 & Hc2).
  { intros h Hh. apply (Hold h); [|done]. eapply visited; [done|]. destruct Hh as [l Hl]. exists l. by eapply lookup_weaken. }
  rewrite E2, outcome_bind_ok. destruct (orphans b2 !! ob_Hash block) as [l|] eqn:Eo.
  - destruct (po_orphan _ Hok2 _ _ Eo) as (ob & El & _). cbn [load]. rewrite El, outcome_bind_ok. destruct (Hneed (o_block ob)) as ([] & ->); rewrite outcome_bind_ok.
    + cbn [modify]. rewrite El, outcome_bind_ok. eexists _, _. split; [done|]. cbn. by rewrite Eo.
    + eexists _, _. split; [done|]. by rewrite Eo.
  - eexists _, _. split; [done|]. cbn. by rewrite lookup_insert_eq.
Qed.

Lemma AddOrphanBlock_inv b visits now block r b' : pool_ok b -> bounded b -> visits_all b visits -> AddOrphanBlock b visits now block = Ok (r, b') -> pool_ok b' /\ bounded b'.
Proof.
  intros Hok Hb Hv. destruct (expire_ok visits b Hok Hb) as (b1 & E1 & Hok1 & Hb1 & Hsub1 & _ & Hold). unfold AddOrphanBlock. rewrite E1, outcome_bind_ok.
  destruct (room_ok b1 Hok1 Hb1) as (b2 & E2 & Hok2 & Hsub2 & Hc2).
  { intros h Hh. apply (Hold h); [|done]. eapply visited; [done|]. destruct Hh as [l Hl]. exists l. by eapply lookup_weaken. }
  rewrite E2, outcome_bind_ok. destruct (orphans b2 !! ob_Hash block) as [l|] eqn:Eo.
  - destruct (po_orphan _ Hok2 _ _ Eo) as (ob & El & _). cbn [load]. rewrite El, outcome_bind_ok. intros Hrun. apply bind_ok_inv in Hrun as (u & _ & Hrun). destruct u.
    + cbn [modify] in Hrun. rewrite El, outcome_bind_ok in Hrun. injection Hrun as _ <-. split; [by eapply update_ok|]. left. unfold Count in *. cbn [orphans]. lia.
    + injection Hrun as _ <-. split; [done|]. left. lia.
  - intros Hrun. injection Hrun as _ <-. split; [by apply insert_ok|].
    assert (forall (hp : gmap loc (orphanBlock B)) pm, Count (MkOrphans hp (<[ob_Hash block := fresh_loc (o_heap b2)]> (orphans b2)) pm (oldestOrphan b2)) = Count b2 + 1) as Hc
      by (intros; unfold Count; cbn [orphans]; rewrite map_size_insert_None by done; lia).
    destruct Hc2 as [Hc2|[Hc2 Hst]]; [left; rewrite Hc; lia|]. right. rewrite Hc. split; [lia|]. intros (l & ob & E3 & E4 & E5). cbn in E3, E4, E5. apply Hst.
    destruct (po_oldest _ Hok2 _ E3) as [ob' Eob]. assert (l <> fresh_loc (o_heap b2)) as Hne by (intros ->; by rewrite fresh_loc_None in Eob).
    rewrite lookup_insert_ne in E4 by done. exists l, ob. split_and!; try done. by apply lookup_insert_None in E5 as [? _].
Qed.

(** What the node does with a pool. *)
Inductive pool_step b b' : Prop :=
  | step_add visits now block r : visits_all b visits -> AddOrphanBlock b visits now block = Ok (r, b') -> pool_step b b'
  | step_check hash block r : CheckOrphan b hash block = Ok (r, b') -> pool_step b b'
  | step_process (T : Type) (handler : T -> list Z -> B -> bool * option B * T) s s' hash m : ProcessOrphans handler s b hash = Ok (m, b', s') -> pool_step b b'.

Lemma pool_step_ok b b' : pool_step b b' -> pool_ok b -> bounded b -> pool_ok b' /\ bounded b'.
Proof.
  intros Hstep Hok Hb. destruct Hstep as [visits now block r Hv Hrun|hash block r Hrun|T handler s s' hash m Hrun].
  - by eapply AddOrphanBlock_inv.
  - unfold CheckOrphan in Hrun. destruct (orphans b !! hash) as [l|] eqn:Eo; [|by injection Hrun as _ <-]. destruct (po_orphan _ Hok _ _ Eo) as (ob & El & Eh). cbn [load] in Hrun.
    rewrite El, outcome_bind_ok in Hrun. apply bind_ok_inv in Hrun as (rm & _ & Hrun). destruct rm; [|by injection Hrun as _ <-]. destruct (remove_ok b l ob Hok El) as (b1 & R & _).
    rewrite R, outcome_bind_ok in Hrun. injection Hrun as _ <-. destruct (remove_bounded b l ob b1 Hok Hb El ltac:(rewrite Eh; eauto) R) as (? & _ & ? & _). done.
  - destruct (ProcessOrphans_ok handler s b hash Hok Hb) as (m' & b2 & s2 & E & ? & ?). rewrite Hrun in E. by injection E as _ <- _.
Qed.

Lemma reachable_ok b : rtc pool_step NewOrphanMgr b -> pool_ok b /\ bounded b.
Proof.
  assert (forall b1 b2, rtc pool_step b1 b2 -> pool_ok b1 /\ bounded b1 -> pool_ok b2 /\ bounded b2) as Hind by (induction 1; [done|]; intros []; eauto using pool_step_ok).
  intros Hr. apply (Hind _ _ Hr). split; [apply new_pool_ok|]. left. unfold Count. cbn. rewrite map_size_empty. unfold maxOrphanBlocks. lia.
Qed.
End Invariant.

(** ** Theorems *)

(** C23: whatever blocks arrive, are checked and processed, in any order and at any time, the
    pool of orphans never panics on its own pointers and holds at most one block more than
    its limit; its two maps agree, so that every orphan is found under its hash and once
    among the children of its parent; and a block that is added is in the pool. *)
Theorem orphan_pool_bounded {B} `{Orphaned B} (hash_fixes_prev : forall b1 b2 : B, ob_Hash b1 = ob_Hash b2 -> ob_PrevBlock b1 = ob_PrevBlock b2)
  (b : Orphans B) (Hrun : rtc pool_step NewOrphanMgr b) :
  pool_ok b /\ Count b <= maxOrphanBlocks + 1 /\
  (forall visits now block, visits_all b visits -> (forall o, exists u, ob_NeedUpdate block o = Ok u) ->
     exists r b', AddOrphanBlock b visits now block = Ok (r, b') /\ is_Some (orphans b' !! ob_Hash block)) /\
  forall T (handler : T -> list Z -> B -> bool * option B * T) s hash, exists m b' s', ProcessOrphans handler s b hash = Ok (m, b', s').
Proof.
  destruct (reachable_ok hash_fixes_prev b Hrun) as [Hok Hb]. split; [done|]. split; [unfold bounded in Hb; lia|]. split.
  - intros visits now block Hv Hneed. by apply AddOrphanBlock_ok.
  - intros T handler s hash. destruct (ProcessOrphans_ok hash_fixes_prev handler s b hash Hok Hb) as (m & b' & s' & E & _). eauto.
Qed.

(** C24: processing the orphans of a block ends, and when the handler judges each block by
    itself it takes out of the pool exactly the accepted blocks that descend from the given
    block through accepted orphans, whatever branches they form; everything else stays. *)
Theorem process_orphans_exact {B T} `{Orphaned B} (hash_fixes_prev : forall b1 b2 : B, ob_Hash b1 = ob_Hash b2 -> ob_PrevBlock b1 = ob_PrevBlock b2)
  (accept : B -> bool) (s : T) (b : Orphans B) (hash : list Z) (Hok : pool_ok b) :
  exists b', ProcessOrphans (judge accept) s b hash = Ok (None, b', s) /\ pool_ok b' /\
    forall h, (released accept b hash h -> orphans b' !! h = None) /\ (~ released accept b hash h -> orphans b' !! h = orphans b !! h).
Proof. by apply process_exact. Qed.

(** The limit itself does not hold: when the oldest orphan that is remembered has left the pool
    and none of the others is older, the full pool takes one more block. *)
Theorem stale_pool_overfills {B} `{Orphaned B} (b : Orphans B) (visits : list (list Z * Z)) (now : Z) (block : B) (lo : loc) (old : orphanBlock B)
  (Hok : pool_ok b) (Hfull : Count b = maxOrphanBlocks) (Hold : oldestOrphan b = Some lo) (Elo : o_heap b !! lo = Some old) (Hgone : orphans b !! ob_Hash (o_block old) = None)
  (Hyoung : forall h l ob t, orphans b !! h = Some l -> o_heap b !! l = Some ob -> t ∈ visits.*2 -> t <= o_expiration ob /\ o_expiration old <= o_expiration ob)
  (Hnew : orphans b !! ob_Hash block = None) (Hfix : forall b1 b2 : B, ob_Hash b1 = ob_Hash b2 -> ob_PrevBlock b1 = ob_PrevBlock b2) :
  exists r b', AddOrphanBlock b visits now block = Ok (r, b') /\ Count b' = maxOrphanBlocks + 1.
Proof.
  assert (expire_loop visits b = Ok b) as E.
  { revert Hyoung. induction visits as [|[h t] visits IH]; intros Hy; [done|]. cbn [expire_loop]. destruct (orphans b !! h) as [l|] eqn:Eo.
    - destruct (po_orphan _ Hok _ _ Eo) as (ob & El & _). destruct (Hy h l ob t Eo El) as [H1 H2]; [cbn; apply elem_of_cons; by left|].
      cbn [load]. rewrite El, outcome_bind_ok, decide_False by lia. rewrite Hold. cbn [load]. rewrite Elo, !outcome_bind_ok, bool_decide_eq_false_2 by lia.
      apply IH. intros h' l' ob' t' E1 E2 Ht. eapply Hy; [done|done|]. cbn. apply elem_of_cons. by right.
    - apply IH. intros h' l' ob' t' E1 E2 Ht. eapply Hy; [done|done|]. cbn. apply elem_of_cons. by right. }
  unfold AddOrphanBlock. rewrite E, outcome_bind_ok, decide_True by lia. rewrite Hold. destruct (remove_ok Hfix b lo old Hok Elo) as (b1 & R & _ & Eo1 & _). rewrite R, !outcome_bind_ok.
  rewrite delete_id in Eo1 by done. cbn [orphans set_oldest]. rewrite Eo1, Hnew. eexists _, _. split; [done|]. unfold Count in *. cbn [orphans]. rewrite map_size_insert_None by done. lia.
Qed.

(** ** Roots *)

(** From orphan [h] to its parent, in the pool. *)
Definition parent_of {B} `{Orphaned B} (b : Orphans B) (h p : list Z) : Prop :=
  exists l ob, orphans b !! h = Some l /\ o_heap b !! l = Some ob /\ ob_PrevBlock (o_block ob) = p /\ is_Some (orphans b !! p).

(** The root of an orphan is found: the orphan at the end of the chain of parents within the
    pool, whose own parent is not in the pool.  The hypothesis is that no chain of hashes
    closes: [rank] is smaller for a parent. *)
Theorem orphan_root_found {B} `{Orphaned B} (b : Orphans B) (rank : list Z -> nat) (hash : list Z) (Hok : pool_ok b) (Hin : is_Some (orphans b !! hash))
  (Hrank : forall h l ob, orphans b !! h = Some l -> o_heap b !! l = Some ob -> (rank (ob_PrevBlock (o_block ob)) < rank h)%nat) :
  exists r l ob, GetOrphanRoot b hash = Ok r /\ rtc (parent_of b) hash r /\ orphans b !! r = Some l /\ o_heap b !! l = Some ob /\ orphans b !! ob_PrevBlock (o_block ob) = None.
Proof.
  set (below := fun n => filter (fun kv : list Z * loc => (rank kv.1 <= n)%nat) (orphans b)).
  assert (forall fuel root h, is_Some (orphans b !! h) -> (size (below (rank h)) <= fuel)%nat ->
    exists r l ob, root_loop fuel b root h = Ok r /\ rtc (parent_of b) h r /\ orphans b !! r = Some l /\ o_heap b !! l = Some ob /\ orphans b !! ob_PrevBlock (o_block ob) = None) as Hloop.
  { induction fuel as [|fuel IH]; intros root h [l E] Hf; (assert (below (rank h) !! h = Some l) as Eb by (apply map_lookup_filter_Some; split; [done|cbn; lia])).
    - pose proof (map_size_ne_0_lookup_2 (below (rank h)) h (ex_intro _ _ Eb)). lia.
    - cbn [root_loop]. rewrite E. destruct (po_orphan _ Hok _ _ E) as (ob & El & Eh). cbn [load]. rewrite El, outcome_bind_ok. pose proof (Hrank _ _ _ E El) as Hlt.
      destruct (orphans b !! ob_PrevBlock (o_block ob)) as [l'|] eqn:E'.
      + destruct (IH h (ob_PrevBlock (o_block ob))) as (r & lr & obr & F & Hr & Hrest); [eauto| |].
        { assert (below (rank (ob_PrevBlock (o_block ob))) ⊆ delete h (below (rank h))) as Hsub.
          { apply map_subseteq_spec. intros k lk Hk. apply map_lookup_filter_Some in Hk as [Hk Hkr]. cbn in Hkr. apply lookup_delete_Some. split; [intros <-; lia|].
            apply map_lookup_filter_Some. split; [done|]. cbn. lia. }
          apply map_subseteq_size in Hsub. rewrite map_size_delete_Some in Hsub by eauto. pose proof (map_size_ne_0_lookup_2 (below (rank h)) h (ex_intro _ _ Eb)). lia. }
        exists r, lr, obr. split; [done|]. split; [|done]. eapply rtc_l; [|exact Hr]. exists l, ob. split_and!; done.
      + exists h, l, ob. split_and!; try done. destruct fuel; cbn [root_loop]; by rewrite E'. }
  apply Hloop; [done|]. apply map_subseteq_size, map_filter_subseteq.
Qed.

(** ** A pool of numbered blocks *)

(** The parent of block [n] is block [n / 2]. *)
Definition numbered : Orphaned Z := MkOrphaned _ (fun n => [n / 2]) (fun n => [n]) (fun _ _ => Ok false) (fun _ _ => Ok true).
#[local] Existing Instance numbered.

Lemma numbered_prev (n m : Z) : ob_Hash n = ob_Hash m -> ob_PrevBlock n = ob_PrevBlock m.
Proof. intros E. by injection E as ->. Qed.

Definition visit_now (now : Z) (b : Orphans Z) : list (list Z * Z) := (fun kv => (kv.1, now)) <$> map_to_list (orphans b).
Fixpoint add_numbered (ns : list Z) (b : Orphans Z) : outcome (Orphans Z) :=
  match ns with [] => Ok b | n :: ns => '(_, b) ← AddOrphanBlock b (visit_now 0 b) 0 n; add_numbered ns b end.

Lemma add_numbered_run ns : forall b b', add_numbered ns b = Ok b' -> rtc pool_step b b'.
Proof.
  induction ns as [|n ns IH]; intros b b' E; [by injection E as <-|]. cbn [add_numbered] in E. apply bind_ok_inv in E as ([r b1] & E1 & E). eapply rtc_l; [|by apply IH].
  eapply step_add; [|exact E1]. unfold visits_all, visit_now. by rewrite <- list_fmap_compose.
Qed.

Definition numbered_pool : Orphans Z := match add_numbered [12; 4; 6; 7; 5; 13; 9; 14] NewOrphanMgr with Ok b => b | _ => NewOrphanMgr end.
Lemma numbered_pool_run : rtc pool_step NewOrphanMgr numbered_pool.
Proof. apply (add_numbered_run [12; 4; 6; 7; 5; 13; 9; 14]). vm_compute. reflexivity. Qed.

Lemma orphan_pool_bounded_witness : Count numbered_pool = 8 /\ Count numbered_pool <= maxOrphanBlocks + 1.
Proof. split; [vm_compute; reflexivity|]. apply (orphan_pool_bounded numbered_prev numbered_pool numbered_pool_run). Defined.

(** Block 3 arrives, and block 6 is refused: of its descendants 7 and 14 leave the pool. *)
Lemma process_orphans_witness : exists b', ProcessOrphans (judge (fun n => negb (n =? 6))) () numbered_pool [3] = Ok (None, b', ()) /\
  orphans b' !! [14] = None /\ Count b' = 6 /\ is_Some (orphans b' !! [12]).
Proof.
  destruct (process_orphans_exact numbered_prev (fun n => negb (n =? 6)) () numbered_pool [3]) as (b' & F & _ & Hall).
  { apply (reachable_ok numbered_prev numbered_pool numbered_pool_run). }
  exists b'. split; [exact F|]. split.
  - apply Hall. eapply released_further; [vm_compute; reflexivity|vm_compute; reflexivity|reflexivity|]. eapply released_child; [vm_compute; reflexivity|vm_compute; reflexivity|reflexivity|reflexivity].
  - vm_compute in F. injection F as <-. split; [vm_compute; reflexivity|]. vm_compute. by eexists.
Defined.
