(* ===== verification/ChainOps.v ===== *)
(** * The chain of blocks: nodes, forks and reorganisations

    Models the part of btcd/blockchain/chain.go and chainio.go that walks the tree of blocks:
    finding nodes by hash and height with the records of the database behind the index, the
    fork of a side chain, the blocks to detach and to attach in a reorganisation, and the
    answers to the peers that ask for blocks.  The headers of the stored blocks and the
    blocks of the miner chain are what the database and the other chain answer. *)
From Stdlib Require Import ZArith Lia.
From stdpp Require Import gmap list.
From S2P Require Import Prelude Wire Token MsgTx MsgBlock BlockIndex ChainView ViewDb.

Open Scope Z_scope.

Definition MINER_RORATE_FREQ : Z := 20.
Definition POWRotate : Z := 2.

Record Chain := MkChain {
  c_nodes : bheap;
  c_Index : BlockIndex;
  c_BestChain : ChainView;
  c_hashIndex : bucket;
  c_heightIndex : bucket;
  c_headers : gmap (list Z) BlockHeader;
}.
Definition set_nodes (c : Chain) (h : bheap) : Chain := MkChain h (c_Index c) (c_BestChain c) (c_hashIndex c) (c_heightIndex c) (c_headers c).

(** ** Computations on a chain *)

Definition cm (A : Type) : Type := Chain -> outcome (A * Chain).
Global Instance cm_ret : MRet cm := fun A a c => Ok (a, c).
Global Instance cm_bind : MBind cm := fun A B k m c => '(a, c) ← m c; k a c.
Definition cget : cm Chain := fun c => Ok (c, c).
Definition clift {A} (o : outcome A) : cm A := fun c => a ← o; Ok (a, c).
Definition cnofuel {A} : cm A := fun _ => NoFuel.
Definition cpanic {A} : cm A := fun _ => Panic.
(** [p.Field] of a pointer *)
Definition cload (p : ptr) : cm BlockNode := fun c => nd ← load (c_nodes c) p; Ok (nd, c).
(** [new(BlockNode)] *)
Definition cnew (nd : BlockNode) : cm ptr := fun c => let '(h, p) := alloc (c_nodes c) nd in Ok (p, set_nodes c h).
Definition cmodify (p : ptr) (f : BlockNode -> BlockNode) : cm unit := fun c => h ← modify (c_nodes c) p f; Ok ((), set_nodes c h).
Definition tip_node : cm ptr := fun c => t ← tip (c_BestChain c); Ok (t, c).
Definition view_node (h : Z) : cm ptr := fun c => n ← NodeByHeight (c_BestChain c) h; Ok (n, c).
Definition view_contains (p : ptr) : cm bool := fun c => b ← Contains (c_nodes c) (c_BestChain c) p; Ok (b, c).

(** ** The index of the main chain in the database *)

Definition height_key (height : Z) : list Z := le_bytes 4 (u32 height).

Definition DbPutBlockIndex (hashIndex heightIndex : bucket) (hash : list Z) (height : Z) : option view_err * bucket * bucket :=
  match b_Put hashIndex hash (height_key height) with
  | (Some err, hashIndex) => (Some err, hashIndex, heightIndex)
  | (None, hashIndex) => let '(err, heightIndex) := b_Put heightIndex (height_key height) hash in (err, hashIndex, heightIndex)
  end.
Definition DbRemoveBlockIndex (hashIndex heightIndex : bucket) (hash : list Z) (height : Z) : bucket * bucket :=
  (b_Delete hashIndex hash, b_Delete heightIndex (height_key height)).
Definition DbFetchHeightByHash (hashIndex : bucket) (hash : list Z) : outcome (Z + view_err) :=
  match b_Get hashIndex hash with None => Ok (inr ErrNotInMainChain) | Some b => n ← le32 b; Ok (inl (i32 n)) end.
Definition DbFetchHashByHeight (heightIndex : bucket) (height : Z) : list Z + view_err :=
  match b_Get heightIndex (height_key height) with None => inr ErrNotInMainChain | Some b => inl (hash_from b) end.

Definition dbHashByHeight (blockHeight : Z) : cm (option (list Z)) := fun c =>
  Ok (hash_from <$> b_Get (c_heightIndex c) (height_key blockHeight), c).
Definition dbHeightofHash (key : list Z) : cm Z := fun c =>
  match b_Get (c_hashIndex c) key with None => Ok (-1, c) | Some d => n ← le32 d; Ok (i32 n, c) end.

(** ** Nodes *)

Section Nodes.
Context (DoubleHashH : list Z -> list Z).

Definition InitBlockNode (h : BlockHeader) (parent : option (loc * BlockNode)) : BlockNode :=
  MkNode (fst <$> parent) (BlockHash DoubleHashH h) (match parent with Some (_, p) => i32 (bn_Height p + 1) | None => 0 end) 0
    (h_Timestamp h) (h_Version h) (h_Nonce h) (h_MerkleRoot h) (h_ContractExec h).
Definition set_height (h : Z) (n : BlockNode) : BlockNode :=
  MkNode (bn_Parent n) (bn_Hash n) h (bn_Status n) (bn_TimeStamp n) (bn_Version n) (bn_Nonce n) (bn_MerkleRoot n) (bn_ContractExec n).
Definition set_parent (p : ptr) (n : BlockNode) : BlockNode :=
  MkNode p (bn_Hash n) (bn_Height n) (bn_Status n) (bn_TimeStamp n) (bn_Version n) (bn_Nonce n) (bn_MerkleRoot n) (bn_ContractExec n).

(** A node that is not in the index is made from its stored header, without a parent. *)
Definition NodeByHash (h : list Z) : cm ptr :=
  c ← cget;
  match LookupNode (c_Index c) h with
  | Some p => mret (Some p)
  | None =>
      match c_headers c !! h with
      | None => mret None
      | Some hd => p ← cnew (InitBlockNode hd None); ht ← dbHeightofHash h; _ ← cmodify p (set_height ht); mret p
      end
  end.

Definition NodeByHeight_b (blockHeight : Z) : cm ptr :=
  if decide (blockHeight < 0) then mret None
  else
    node ← view_node blockHeight;
    node ← (match node with
            | Some _ => mret node
            | None => h ← dbHashByHeight blockHeight; match h with None => mret None | Some h => NodeByHash h end
            end);
    match node with
    | None => mret None
    | Some _ => _ ← cmodify node (set_height blockHeight); mret node
    end.

Definition ParentNode (n : ptr) : cm ptr :=
  nd ← cload n;
  if decide (bn_Parent nd <> None \/ bn_Height nd = 0) then mret (bn_Parent nd) else NodeByHeight_b (i32 (bn_Height nd - 1)).
Definition Ancestor_b (n : ptr) (blockHeight : Z) : cm ptr :=
  c ← cget;
  node ← clift (Ancestor (c_nodes c) n blockHeight);
  match node with None => NodeByHeight_b blockHeight | Some _ => mret node end.

Definition HaveNode (h : list Z) : cm bool :=
  c ← cget;
  match LookupNode (c_Index c) h with Some _ => mret true | None => ht ← dbHeightofHash h; mret (bool_decide (0 <= ht)) end.
Definition MainChainNodeByHash (h : list Z) : cm ptr :=
  c ← cget;
  let p := LookupNode (c_Index c) h in
  inside ← view_contains p;
  mret (if inside : bool then p else None).

Definition LongestTip (tips : list loc) : cm ptr :=
  s ← tip_node;
  (fix go tips s := match tips with
     | [] => mret s
     | t :: tips => nt ← cload (Some t); ns ← cload s; go tips (if decide (bn_Height ns < bn_Height nt) then Some t else s)
     end) tips s.

(** ** Forks *)

(** [p == node || p.Hash.IsEqual(&node.Hash)]; a [p] that is nil panics on the second test. *)
Definition same_node (p node : ptr) : cm bool :=
  if decide (p = node) then mret true else a ← cload p; b ← cload node; mret (IsEqual (bn_Hash a) (bn_Hash b)).
Fixpoint find_fork_loop (fuel : nat) (node : ptr) : cm ptr :=
  match node with
  | None => mret None
  | Some _ =>
      match fuel with
      | O => cnofuel
      | S fuel =>
          nd ← cload node;
          p ← NodeByHeight_b (bn_Height nd);
          same ← same_node p node;
          if same : bool then mret node else n ← ParentNode node; find_fork_loop fuel n
      end
  end.
Definition FindFork (node : ptr) : cm ptr :=
  match node with
  | None => mret None
  | Some _ =>
      nd ← cload node;
      c ← cget;
      if decide (bn_Height nd <= i32 (bi_Cutoff (c_Index c))) then mret None
      else
        let chainHeight := height (c_BestChain c) in
        node ← (if decide (chainHeight < bn_Height nd) then Ancestor_b node chainHeight else mret node);
        find_fork_loop (S (Z.to_nat (bn_Height nd))) node
  end.

Section Miners.
(** [b.Miners.BlockByHeight]: whether the miner chain has a block at a height. *)
Context (miner_block : Z -> bool).

(** The node below the lowest block, between [p] and the fork, whose miner block is missing;
    nothing when that is the fork itself. *)
Fixpoint cut_loop (fuel : nat) (p forkNode node : ptr) : cm (option ptr) :=
  match p with
  | None => mret (Some node)
  | Some _ =>
      if decide (p = forkNode) then mret (Some node)
      else
        match fuel with
        | O => cnofuel
        | S fuel =>
            nd ← cload p;
            if decide (bn_Nonce nd <= - MINER_RORATE_FREQ) then
              if miner_block (i32 (- bn_Nonce nd - MINER_RORATE_FREQ)) then cut_loop fuel (bn_Parent nd) forkNode node
              else if decide (bn_Parent nd = forkNode) then mret None
              else cut_loop fuel (bn_Parent nd) forkNode (bn_Parent nd)
            else cut_loop fuel (bn_Parent nd) forkNode node
        end
  end.
(** The nodes to attach; an invalid one drops those above it. *)
Fixpoint attach_loop (fuel : nat) (n forkNode : ptr) (attachNodes : list loc) : cm (list loc) :=
  match n with
  | None => mret attachNodes
  | Some l =>
      if decide (n = forkNode) then mret attachNodes
      else
        match fuel with
        | O => cnofuel
        | S fuel => nd ← cload n; attach_loop fuel (bn_Parent nd) forkNode (if KnownInvalid (bn_Status nd) then [] else l :: attachNodes)
        end
  end.
Fixpoint detach_loop (fuel : nat) (n forkNode : ptr) (detachNodes : list loc) : cm (list loc) :=
  match n with
  | None => mret detachNodes
  | Some l =>
      if decide (n = forkNode) then mret detachNodes
      else
        match fuel with
        | O => cnofuel
        | S fuel =>
            nd ← cload n;
            f ← cload forkNode;
            if IsEqual (bn_Hash f) (bn_Hash nd) then mret detachNodes else detach_loop fuel (bn_Parent nd) forkNode (detachNodes ++ [l])
        end
  end.
Definition getReorganizeNodes (node : ptr) : cm (list loc * list loc) :=
  nd ← cload node;
  par ← cload (bn_Parent nd);
  if KnownInvalid (bn_Status par) then mret ([], [])
  else
    forkNode ← FindFork node;
    f ← cload forkNode;
    c ← cget;
    if decide (bn_Height f <= i32 (bi_Cutoff (c_Index c))) then mret ([], [])
    else
      node ← cut_loop (S (Z.to_nat (bn_Height nd))) node forkNode node;
      match node with
      | None => mret ([], [])
      | Some node =>
          attachNodes ← attach_loop (S (Z.to_nat (bn_Height nd))) node forkNode [];
          t ← tip_node;
          detachNodes ← detach_loop (S (length (cv_nodes (c_BestChain c)))) t forkNode [];
          mret (detachNodes, attachNodes)
      end.
End Miners.

(** How far the committee rotates with the blocks of a list. *)
Definition Advance (m : BlockNode) : Z :=
  if decide (0 < bn_Nonce m) then POWRotate else if decide (bn_Nonce m <= - MINER_RORATE_FREQ) then 1 else 0.
Fixpoint TotalRotate (lst : list loc) (s : Z) : cm Z :=
  match lst with [] => mret s | n :: lst => nd ← cload (Some n); TotalRotate lst (i32 (s + Advance nd)) end.

(** ** Questions about the main chain *)

(** Whether the hash that the database has at a height is this one; a height without a hash
    panics. *)
Definition at_height (h : Z) (hash : list Z) : cm bool :=
  g ← dbHashByHeight h; match g with None => cpanic | Some g => mret (IsEqual g hash) end.
Definition MainChainHasBlock (hash : list Z) : cm bool :=
  c ← cget;
  let p := LookupNode (c_Index c) hash in
  inside ← view_contains p;
  if inside : bool then mret true
  else match p with
       | Some _ => mret false
       | None => h ← dbHeightofHash hash; if decide (h < 0) then mret false else at_height h hash
       end.
Definition BlockHeightByHash (hash : list Z) : cm (Z + view_err) :=
  c ← cget;
  match LookupNode (c_Index c) hash with
  | None =>
      h ← dbHeightofHash hash;
      if decide (h < 0) then mret (inr ErrNotInMainChain)
      else same ← at_height h hash; mret (if same : bool then inl h else inr ErrNotInMainChain)
  | Some p =>
      nd ← cload (Some p);
      outside ← (if decide (i32 (bi_Cutoff (c_Index c)) <= bn_Height nd) then b ← view_contains (Some p); mret (negb b) else mret false);
      mret (if outside : bool then inr ErrNotInMainChain else inl (bn_Height nd))
  end.
Definition BestChainContains (snapshotHeight : Z) (hash : list Z) : cm bool :=
  c ← cget;
  match LookupNode (c_Index c) hash with
  | None => h ← dbHeightofHash hash; if decide (h < 0 \/ snapshotHeight < h) then mret false else at_height h hash
  | Some p => view_contains (Some p)
  end.
Definition BlockHashByHeight (blockHeight : Z) : cm (list Z + view_err) :=
  node ← view_node blockHeight;
  match node with
  | None => h ← dbHashByHeight blockHeight; mret (match h with Some h => inl h | None => inr ErrNotInMainChain end)
  | Some _ => nd ← cload node; mret (inl (bn_Hash nd))
  end.

Inductive range_err := RangeBelowZero | RangeReversed | RangeUnknown | RangeNotValid | RangeTooLong.

Fixpoint range_loop (n : nat) (i : Z) : cm (list (list Z)) :=
  match n with
  | O => mret []
  | S n =>
      node ← view_node i;
      node ← (match node with Some _ => mret node | None => NodeByHeight_b i end);
      nd ← cload node;
      hs ← range_loop n (i + 1);
      mret (bn_Hash nd :: hs)
  end.
Definition HeightRange (startHeight endHeight : Z) : cm (list (list Z) + range_err) :=
  if decide (startHeight < 0) then mret (inr RangeBelowZero)
  else if decide (endHeight < startHeight) then mret (inr RangeReversed)
  else if decide (startHeight = endHeight) then mret (inl [])
  else
    t ← tip_node;
    nd ← cload t;
    let latestHeight := bn_Height nd in
    if decide (latestHeight < startHeight) then mret (inl [])
    else
      let endHeight := if decide (i32 (latestHeight + 1) < endHeight) then i32 (latestHeight + 1) else endHeight in
      _ ← NodeByHeight_b (if decide (0 < startHeight) then startHeight - 1 else 1);
      hs ← range_loop (Z.to_nat (endHeight - startHeight)) startHeight;
      mret (inl hs).

(** [n] hashes down from the node, put in the order of their heights. *)
Fixpoint hash_range_loop (n : nat) (node : ptr) (hashes : list (list Z)) : cm (list (list Z)) :=
  match n with
  | O => mret hashes
  | S n => nd ← cload node; p ← ParentNode node; hash_range_loop n p (bn_Hash nd :: hashes)
  end.
Definition HeightToHashRange (startHeight : Z) (endHash : list Z) (maxResults : Z) : cm (list (list Z) + range_err) :=
  endNode ← NodeByHash endHash;
  match endNode with
  | None => mret (inr RangeUnknown)
  | Some _ =>
      nd ← cload endNode;
      if negb (KnownValid (bn_Status nd)) then mret (inr RangeNotValid)
      else if decide (startHeight < 0) then mret (inr RangeBelowZero)
      else if decide (bn_Height nd < startHeight) then mret (inr RangeReversed)
      else
        let resultsLength := i32 (i32 (bn_Height nd - startHeight) + 1) in
        if decide (maxResults < resultsLength) then mret (inr RangeTooLong)
        else hs ← hash_range_loop (Z.to_nat resultsLength) endNode []; mret (inl hs)
  end.

(** The hashes at the multiples [index * interval], from the highest down. *)
Fixpoint interval_loop (index : nat) (interval : Z) (blockNode : ptr) (hashes : list (list Z)) : cm (list (list Z)) :=
  match index with
  | O => mret hashes
  | S index' =>
      let blockHeight := i32 (Z.of_nat index * interval) in
      inside ← view_contains blockNode;
      c ← cget;
      blockNode ← (if inside : bool then view_node blockHeight else clift (Ancestor (c_nodes c) blockNode blockHeight));
      nd ← cload blockNode;
      interval_loop index' interval blockNode (bn_Hash nd :: hashes)
  end.
Definition IntervalBlockHashes (endHash : list Z) (interval : Z) : cm (list (list Z) + range_err) :=
  endNode ← NodeByHash endHash;
  match endNode with
  | None => mret (inr RangeUnknown)
  | Some _ =>
      nd ← cload endNode;
      if negb (KnownValid (bn_Status nd)) then mret (inr RangeNotValid)
      else if decide (interval = 0) then cpanic
      else
        let resultsLength := Z.quot (bn_Height nd) interval in
        if decide (resultsLength < 0) then cpanic
        else _ ← NodeByHeight_b (i32 interval); hs ← interval_loop (Z.to_nat resultsLength) interval endNode []; mret (inl hs)
  end.

(** Whether block [w] is block [u] or below it. *)
Fixpoint same_chain_loop (fuel : nat) (nu : ptr) (hash : list Z) (ht : Z) : cm bool :=
  match nu with
  | None => mret false
  | Some _ =>
      nd ← cload nu;
      if decide (bn_Height nd < ht) then mret false
      else if IsEqual (bn_Hash nd) hash then mret true
      else if decide (bn_Height nd = ht) then mret false
      else match fuel with O => cnofuel | S fuel => p ← ParentNode nu; same_chain_loop fuel p hash ht end
  end.
Definition SameChain (u w : list Z) : cm bool :=
  nu ← NodeByHash u;
  match nu with
  | None => mret false
  | Some _ =>
      nw ← NodeByHash w;
      match nw with
      | None => mret false
      | Some _ => du ← cload nu; dw ← cload nw; same_chain_loop (Z.to_nat (bn_Height du - bn_Height dw)) nu (bn_Hash dw) (bn_Height dw)
      end
  end.

(** ** What peers ask for *)

(** The first block of the locator that is in the main chain. *)
Fixpoint first_located (locator : list (list Z)) (startNode : ptr) : cm ptr :=
  match locator with
  | [] => mret startNode
  | hash :: locator =>
      node ← NodeByHash hash;
      match node with
      | None => first_located locator startNode
      | Some _ =>
          nd ← cload node;
          c ← cget;
          known ← (if decide (bn_Height nd <= i32 (bi_Cutoff (c_Index c))) then mret true else view_contains node);
          if known : bool then mret node else first_located locator startNode
      end
  end.
(** The last block of the locator that is known. *)
Fixpoint last_located (locator : list (list Z)) (startNode : ptr) : cm ptr :=
  match locator with
  | [] => mret startNode
  | hash :: locator => node ← NodeByHash hash; last_located locator (match node with Some _ => node | None => startNode end)
  end.
Fixpoint step_back (n : nat) (startNode : ptr) : cm ptr :=
  match n with
  | O => mret startNode
  | S n => nd ← cload startNode; step_back n (match bn_Parent nd with Some _ => bn_Parent nd | None => startNode end)
  end.
Definition next_node (node : ptr) : cm ptr := fun c => p ← next (c_nodes c) (c_BestChain c) node; Ok (p, c).

Definition locateInventory (locator : list (list Z)) (hashStop : list Z) (maxEntries : Z) : cm (ptr * Z * bool) :=
  stopNode ← NodeByHash hashStop;
  stopheight ← (match stopNode with None => mret 0 | Some _ => nd ← cload stopNode; mret (bn_Height nd) end);
  if decide (locator = []) then mret (match stopNode with None => (None, 0, false) | Some _ => (stopNode, 1, false) end)
  else
    c ← cget;
    startNode ← clift (genesis (c_BestChain c));
    let cutoff := i32 (bi_Cutoff (c_Index c)) in
    main ← (match stopNode with None => mret true | Some _ => if decide (stopheight <= cutoff) then mret true else view_contains stopNode end);
    startNode ← (if main : bool then first_located locator startNode else f ← FindFork stopNode; last_located locator f);
    nd ← cload startNode;
    startNode ← (if decide (i32 (u32 (bi_Cutoff (c_Index c) + 10)) < bn_Height nd) then n ← step_back 10 startNode; next_node n
                 else NodeByHeight_b (i32 (bn_Height nd + 1)));
    match startNode with
    | None => mret (None, 0, false)
    | Some _ =>
        nd ← cload startNode;
        let startheight := bn_Height nd in
        t ← tip_node;
        td ← cload t;
        let total := if decide (stopheight <> 0 /\ startheight <= stopheight) then u32 (i32 (i32 (stopheight - startheight) + 1))
                     else u32 (i32 (i32 (bn_Height td - startheight) + 1)) in
        mret (startNode, if decide (maxEntries < total) then maxEntries else total, negb main)
    end.

(** The hashes up from the node, at most [total] of them. *)
Fixpoint locate_up (total : nat) (node : ptr) : cm (list (list Z)) :=
  match total with
  | O => mret []
  | S total =>
      nd ← cload node;
      c ← cget;
      node ← (if decide (i32 (bi_Cutoff (c_Index c)) < bn_Height nd) then next_node node else NodeByHeight_b (i32 (bn_Height nd + 1)));
      match node with None => mret [bn_Hash nd] | Some _ => hs ← locate_up total node; mret (bn_Hash nd :: hs) end
  end.
(** The [total] hashes down from the node, in the order of their heights. *)
Fixpoint locate_down (total : nat) (node : ptr) (hashes : list (list Z)) : cm (list (list Z)) :=
  match total with
  | O => mret hashes
  | S total =>
      nd ← cload node;
      p ← (match bn_Parent nd with None => NodeByHeight_b (i32 (bn_Height nd - 1)) | Some _ => mret (bn_Parent nd) end);
      locate_down total p (bn_Hash nd :: hashes)
  end.
Definition locateBlocks (locator : list (list Z)) (hashStop : list Z) (maxHashes : Z) : cm (list (list Z)) :=
  '(node, total, sideChain) ← locateInventory locator hashStop maxHashes;
  if decide (total = 0 \/ node = None) then mret []
  else if sideChain : bool then node ← NodeByHash hashStop; locate_down (Z.to_nat total) node []
  else locate_up (Z.to_nat total) node.

(** The first locator whose height the database knows, with that height; otherwise the last
    height asked for. *)
Fixpoint db_located (locator : list (list Z)) (ht : Z) : cm Z :=
  match locator with [] => mret ht | h :: locator => ht ← dbHeightofHash h; if decide (0 <= ht) then mret ht else db_located locator ht end.
Fixpoint uncached_loop (total : nat) (height : Z) (hash : option (list Z)) (hashStop : list Z) : cm (list (list Z)) :=
  match total, hash with
  | O, _ | _, None => mret []
  | S total, Some h =>
      if IsEqual h hashStop then mret [h]
      else n ← dbHashByHeight (i32 (height + 1)); hs ← uncached_loop total (i32 (height + 1)) n hashStop; mret (h :: hs)
  end.
Definition locateUncachedBlocks (genesisHash : list Z) (locator : list (list Z)) (hashStop : list Z) : cm (list (list Z)) :=
  if decide (locator = []) then
    if IsEqual hashStop zero_hash then uncached_loop 480 0 (Some genesisHash) hashStop
    else ht ← dbHeightofHash hashStop; if decide (ht < 0) then uncached_loop 10 0 (Some genesisHash) hashStop else mret [hashStop]
  else
    ht ← db_located locator (-1);
    if decide (ht <= 0) then uncached_loop 10 0 (Some genesisHash) hashStop
    else hash ← dbHashByHeight (ht - 1); uncached_loop 500 (ht - 1) hash hashStop.

Fixpoint any_cached (c : Chain) (locator : list (list Z)) : outcome bool :=
  match locator with
  | [] => Ok false
  | h :: locator =>
      match LookupNode (c_Index c) h with
      | None => any_cached c locator
      | Some p => nd ← load (c_nodes c) (Some p); if decide (bn_Height nd <> 0) then Ok true else any_cached c locator
      end
  end.
Definition locatorCached (locator : list (list Z)) (hashStop : list Z) : cm bool :=
  c ← cget;
  if decide (locator = []) then
    mret (if IsEqual hashStop zero_hash then true else match LookupNode (c_Index c) hashStop with Some _ => true | None => false end)
  else clift (any_cached c locator).
Definition LocateBlocks (genesisHash : list Z) (locator : list (list Z)) (hashStop : list Z) (maxHashes : Z) : cm (list (list Z)) :=
  cached ← locatorCached locator hashStop;
  if cached : bool then locateBlocks locator hashStop maxHashes else locateUncachedBlocks genesisHash locator hashStop.

(** ** Signatures *)

(** Every signer has to differ from some member of the committee. *)
Definition signedBy (signers : list (list Z)) (miners : list (option (list Z))) : bool :=
  forallb (fun signer => existsb (fun sig => match sig with Some sig => bool_decide (signer <> sig) | None => false end) miners) signers.
End Nodes.
