(* ===== verification/Reorg.v ===== *)
(** * Reorganisations: the blocks to detach and to attach

    What [getReorganizeNodes] of [ChainOps] computes, for a main chain and a side chain whose
    nodes are all in memory. *)
From Stdlib Require Import ZArith Lia.
From stdpp Require Import gmap list.
From S2P Require Import Prelude Wire Token MsgTx MsgBlock BlockIndex ChainView ViewDb ChainOps.

Open Scope Z_scope.

(** ** Prefixes that satisfy a test *)

(** The longest prefix whose elements pass [P]. *)
Fixpoint prefix_while {A} (P : A -> bool) (l : list A) : list A :=
  match l with [] => [] | x :: l => if P x then x :: prefix_while P l else [] end.

Lemma prefix_while_prefix {A} (P : A -> bool) l : exists l', l = prefix_while P l ++ l' /\ forall x, head l' = Some x -> P x = false.
Proof.
  induction l as [|x l (l' & E & IH)]; [by exists []|]. cbn [prefix_while]. destruct (P x) eqn:Ex.
  - exists l'. cbn [app]. by rewrite <- E.
  - exists (x :: l). split; [done|]. intros y Hy. by injection Hy as <-.
Qed.

Lemma prefix_while_snoc {A} `{EqDecision A} (P : A -> bool) l x :
  prefix_while P (l ++ [x]) = if decide (prefix_while P l = l) then (if P x then l ++ [x] else l) else prefix_while P l.
Proof.
  induction l as [|y l IH]; [cbn; by destruct (P x)|]. cbn [app prefix_while]. destruct (P y) eqn:Ey; [|by rewrite decide_False].
  rewrite IH. case_decide as E; [rewrite E, decide_True by done; by destruct (P x)|]. rewrite decide_False; [done|]. intros F. by injection F.
Qed.

Lemma prefix_while_all {A} (P : A -> bool) l : Forall (fun x => P x = true) l -> prefix_while P l = l.
Proof. induction 1 as [|x l Hx _ IH]; [done|]. cbn. by rewrite Hx, IH. Qed.

Lemma prefix_while_forall {A} (P : A -> bool) l : Forall (fun x => P x = true) (prefix_while P l).
Proof. induction l as [|x l IH]; [constructor|]. cbn. destruct (P x) eqn:E; by constructor. Qed.

(** ** Computations *)

Lemma cbind_ok {A B} (m : cm A) (k : A -> cm B) c a c' : m c = Ok (a, c') -> (m ≫= k) c = k a c'.
Proof. intros E. unfold mbind, cm_bind. by rewrite E. Qed.

Lemma cload_ok c l nd : c_nodes c !! l = Some nd -> cload (Some l) c = Ok (nd, c).
Proof. intros E. unfold cload. simpl. by rewrite E. Qed.

Lemma set_nodes_id c : set_nodes c (c_nodes c) = c.
Proof. by destruct c. Qed.

(** The nodes of a branch above index [j], up to index [i]. *)
Definition above (s : list loc) (j i : nat) : list loc := drop (S j) (take (S i) s).

Lemma above_self s j : above s j j = [].
Proof. unfold above. apply drop_ge. rewrite length_take. lia. Qed.
Lemma above_S s j i a : (j < S i)%nat -> s !! S i = Some a -> above s j (S i) = above s j i ++ [a].
Proof. intros Hj Ha. unfold above. rewrite (take_S_r _ _ _ Ha). pose proof (lookup_lt_Some _ _ _ Ha). by rewrite drop_app_le by (rewrite length_take; lia). Qed.
Lemma above_all s j i : length s = S i -> above s j i = drop (S j) s.
Proof. intros H. unfold above. by rewrite take_ge by lia. Qed.
Lemma above_take s j n : (S j + n <= length s)%nat -> above s j (j + n) = take n (drop (S j) s).
Proof. intros H. unfold above. rewrite take_drop_commute. do 2 f_equal. Qed.

Section Reorg.
Context (DoubleHashH : list Z -> list Z) (miner_block : Z -> bool) (c : Chain) (r s : list loc).
Context (Hview : view_ok (c_nodes c) (c_BestChain c) r) (Hside : branch (c_nodes c) s).
(** Nodes of the two branches with one hash are one node. *)
Context (Hhash : forall a b na nb, a ∈ r -> b ∈ s -> c_nodes c !! a = Some na -> c_nodes c !! b = Some nb -> bn_Hash na = bn_Hash nb -> a = b).

Lemma node_of_view i a : r !! i = Some a -> NodeByHeight_b DoubleHashH (Z.of_nat i) c = Ok (Some a, c).
Proof.
  intros Ha. destruct Hview as (Hb & Hn & _). destruct (Hb i a Ha) as (nd & Hnd & Hh & _). unfold NodeByHeight_b. rewrite decide_False by lia.
  assert (view_node (Z.of_nat i) c = Ok (Some a, c)) as Ev.
  { unfold view_node. rewrite (NodeByHeight_ok _ _ _ _ Hview). rewrite Nat2Z.id. simpl. by rewrite decide_True by lia; rewrite Ha. }
  rewrite (cbind_ok _ _ _ _ _ Ev). rewrite (cbind_ok _ _ c (Some a) c eq_refl).
  assert (cmodify (Some a) (set_height (Z.of_nat i)) c = Ok ((), c)) as Em.
  { unfold cmodify. simpl. rewrite Hnd. simpl. assert (set_height (Z.of_nat i) nd = nd) as -> by (unfold set_height; rewrite <- Hh; by destruct nd). rewrite insert_id by done. by rewrite set_nodes_id. }
  by rewrite (cbind_ok _ _ _ _ _ Em).
Qed.

Lemma parent_of_branch q i a : branch (c_nodes c) q -> q !! i = Some a -> ParentNode DoubleHashH (Some a) c = Ok (match i with O => None | S j => q !! j end, c).
Proof.
  intros Hb Ha. destruct (Hb i a Ha) as (nd & Hnd & Hh & Hp). unfold ParentNode. rewrite (cbind_ok _ _ _ _ _ (cload_ok _ _ _ Hnd)). rewrite decide_True; [by rewrite Hp|].
  destruct i as [|i]; [right; lia|left]. rewrite Hp. destruct (branch_lt q i a Ha) as [b Hb']. by rewrite Hb'.
Qed.

Lemma find_fork_loop_ok : forall i a fuel, s !! i = Some a -> (i < length r)%nat -> (i < fuel)%nat -> find_fork_loop DoubleHashH fuel (Some a) c = Ok (meet s r i, c).
Proof.
  induction i as [|i IH]; intros a [|fuel] Ha Hlt Hf; try lia; cbn [find_fork_loop]; destruct (Hside _ a Ha) as (nd & Hnd & Hh & _);
    rewrite (cbind_ok _ _ _ _ _ (cload_ok _ _ _ Hnd)), Hh; destruct (lookup_lt_is_Some_2 r _ Hlt) as [b Hb]; rewrite (cbind_ok _ _ _ _ _ (node_of_view _ _ Hb));
    (assert (same_node (Some b) (Some a) c = Ok (bool_decide (b = a), c)) as Esame;
     [unfold same_node; case_decide as E; [injection E as ->; by rewrite bool_decide_eq_true_2|];
      destruct (proj1 Hview _ b Hb) as (nb & Hnb & _); rewrite (cbind_ok _ _ _ _ _ (cload_ok _ _ _ Hnb)), (cbind_ok _ _ _ _ _ (cload_ok _ _ _ Hnd));
      rewrite bool_decide_eq_false_2 by congruence; unfold IsEqual; rewrite bool_decide_eq_false_2; [done|];
      intros E'; apply E; f_equal; eapply Hhash; [by eapply list_elem_of_lookup_2|by eapply list_elem_of_lookup_2|done|done|done]|]);
    rewrite (cbind_ok _ _ _ _ _ Esame); cbn [meet]; rewrite Ha, Hb.
  - case_bool_decide as E; [subst b; by rewrite decide_True|]. rewrite decide_False by congruence. rewrite (cbind_ok _ _ _ _ _ (parent_of_branch s 0 a Hside Ha)). by destruct fuel.
  - case_bool_decide as E; [subst b; by rewrite decide_True|]. rewrite decide_False by congruence. rewrite (cbind_ok _ _ _ _ _ (parent_of_branch s (S i) a Hside Ha)).
    destruct (branch_lt s i a Ha) as [a' Ha']. rewrite Ha'. apply IH; [done|lia|lia].
Qed.

Lemma FindFork_ok a : last s = Some a -> i32 (bi_Cutoff (c_Index c)) < Z.of_nat (length s) - 1 -> r <> [] -> FindFork DoubleHashH (Some a) c = Ok (fork s r, c).
Proof.
  intros Hlast Hcut Hne. rewrite last_lookup in Hlast. destruct (length s) as [|i] eqn:El; [by rewrite (nil_length_inv s El) in Hlast|]. simpl in Hlast.
  destruct (Hside _ _ Hlast) as (nd & Hnd & Hh & _). unfold FindFork. rewrite (cbind_ok _ _ _ _ _ (cload_ok _ _ _ Hnd)). rewrite (cbind_ok _ _ c c c eq_refl). rewrite decide_False by lia.
  rewrite Hh, (view_height _ _ _ Hview). unfold fork. rewrite El. assert (0 < length r)%nat as Hr by (destruct r; [done|simpl; lia]). case_decide as Hd.
  - unfold Ancestor_b. rewrite (cbind_ok _ _ _ (s !! Z.to_nat (Z.of_nat (length r) - 1)) c).
    2:{ rewrite (cbind_ok _ _ c c c eq_refl). unfold clift. rewrite (Ancestor_ok _ s i a) by done. rewrite decide_True by lia.
        rewrite (cbind_ok _ _ c (s !! Z.to_nat (Z.of_nat (length r) - 1)) c eq_refl).
        destruct (lookup_lt_is_Some_2 s (Z.to_nat (Z.of_nat (length r) - 1))) as [b Hb]; [lia|]. by rewrite Hb. }
    replace (Nat.min (S i) (length r)) with (length r) by lia. destruct (length r) as [|j] eqn:Er; [lia|]. replace (Z.to_nat (Z.of_nat (S j) - 1)) with j by lia.
    destruct (lookup_lt_is_Some_2 s j) as [b Hb]; [lia|]. rewrite Hb. apply find_fork_loop_ok; [done|lia|lia].
  - rewrite (cbind_ok _ _ c (Some a) c eq_refl). replace (Nat.min (S i) (length r)) with (S i) by lia. apply find_fork_loop_ok; [done|lia|lia].
Qed.

(** ** The loops above the fork *)

(** The miner block that a block of the committee needs is there. *)
Definition good (l : loc) : bool :=
  match c_nodes c !! l with
  | Some nd => if decide (bn_Nonce nd <= - MINER_RORATE_FREQ) then miner_block (i32 (- bn_Nonce nd - MINER_RORATE_FREQ)) else true
  | None => true
  end.
Definition valid (l : loc) : bool := match c_nodes c !! l with Some nd => negb (KnownInvalid (bn_Status nd)) | None => true end.

Lemma branch_once q i j a : branch (c_nodes c) q -> q !! i = Some a -> q !! j = Some a -> i = j.
Proof. intros Hb Hi Hj. destruct (Hb _ _ Hi) as (nd & Hnd & Hh & _). pose proof (branch_height _ _ _ _ _ Hb Hj Hnd). lia. Qed.

(** One step of a loop from the node above [i] to the one at [i]. *)
Lemma branch_step q i a f j : branch (c_nodes c) q -> q !! S i = Some a -> q !! j = Some f -> (j <= i)%nat ->
  Some a <> Some f /\ exists nd b, c_nodes c !! a = Some nd /\ bn_Parent nd = Some b /\ q !! i = Some b /\ (b = f <-> i = j).
Proof.
  intros Hb Ha Hf Hj. split; [intros E; injection E as ->; pose proof (branch_once q _ _ _ Hb Ha Hf); lia|].
  destruct (Hb _ _ Ha) as (nd & Hnd & _ & Hp). destruct (branch_lt q i a Ha) as [b Eb]. exists nd, b. rewrite Hp. split_and!; try done.
  split; [intros ->; by eapply branch_once|intros ->; congruence].
Qed.

Lemma cut_loop_ok j f : s !! j = Some f -> forall i a cur fuel, s !! i = Some a -> (j <= i)%nat -> (i - j <= fuel)%nat ->
  cut_loop miner_block fuel (Some a) (Some f) cur c =
    Ok (if decide (prefix_while good (above s j i) = above s j i) then Some cur else Some <$> last (prefix_while good (above s j i)), c).
Proof.
  intros Hf. induction i as [|i IH]; intros a cur fuel Ha Hj Hfuel.
  { replace j with 0%nat in * by lia. rewrite Hf in Ha. injection Ha as ->. rewrite above_self. destruct fuel; cbn [cut_loop]; by rewrite decide_True. }
  destruct (decide (j = S i)) as [->|]; [rewrite Hf in Ha; injection Ha as ->; rewrite above_self; destruct fuel; cbn [cut_loop]; by rewrite decide_True|].
  destruct (branch_step s i a f j Hside Ha Hf ltac:(lia)) as (Hne & nd & b & Hnd & Hp & Hb & Hbf). destruct fuel as [|fuel]; [lia|]. cbn [cut_loop].
  rewrite decide_False by done. rewrite (cbind_ok _ _ _ _ _ (cload_ok _ _ _ Hnd)), Hp. rewrite (above_S s j i a) by (done || lia). rewrite prefix_while_snoc.
  assert (forall cur, cut_loop miner_block fuel (Some b) (Some f) cur c = Ok (if decide (prefix_while good (above s j i) = above s j i) then Some cur else Some <$> last (prefix_while good (above s j i)), c)) as IH'
    by (intros; apply IH; [done|lia|lia]).
  assert (above s j i <> above s j i ++ [a]) as Hlen by (intros E; apply (f_equal length) in E; rewrite length_app in E; simpl in E; lia).
  assert (prefix_while good (above s j i) <> above s j i ++ [a]) as Hlen'.
  { destruct (prefix_while_prefix good (above s j i)) as (l' & E & _). intros F. rewrite F in E. apply (f_equal length) in E. rewrite !length_app in E. simpl in E. lia. }
  assert (good a = if decide (bn_Nonce nd <= - MINER_RORATE_FREQ) then miner_block (i32 (- bn_Nonce nd - MINER_RORATE_FREQ)) else true) as Eg by (unfold good; by rewrite Hnd).
  destruct (good a) eqn:Ega.
  - transitivity (cut_loop miner_block fuel (Some b) (Some f) cur c); [by repeat case_match|]. rewrite IH'. repeat case_decide; try done; congruence.
  - destruct (decide (bn_Nonce nd <= - MINER_RORATE_FREQ)); [|done]. rewrite <- Eg. destruct (decide (Some b = Some f)) as [E|E].
    + injection E as E. apply Hbf in E as ->. rewrite above_self. cbn. by rewrite decide_False.
    + rewrite IH'. destruct (decide (prefix_while good (above s j i) = above s j i)) as [E1|E1]; rewrite decide_False by done; [|done].
      assert (i <> j) by (intros ->; apply E; f_equal; by apply Hbf). destruct i as [|i]; [lia|]. by rewrite (above_S s j i b), last_snoc by (done || lia).
Qed.

Lemma attach_loop_ok j f : s !! j = Some f -> forall i a acc fuel, s !! i = Some a -> (j <= i)%nat -> (i - j <= fuel)%nat ->
  attach_loop fuel (Some a) (Some f) acc c =
    Ok (if decide (prefix_while valid (above s j i) = above s j i) then above s j i ++ acc else prefix_while valid (above s j i), c).
Proof.
  intros Hf. induction i as [|i IH]; intros a acc fuel Ha Hj Hfuel.
  { replace j with 0%nat in * by lia. rewrite Hf in Ha. injection Ha as ->. rewrite above_self. destruct fuel; cbn [attach_loop]; by rewrite decide_True. }
  destruct (decide (j = S i)) as [->|]; [rewrite Hf in Ha; injection Ha as ->; rewrite above_self; destruct fuel; cbn [attach_loop]; by rewrite decide_True|].
  destruct (branch_step s i a f j Hside Ha Hf ltac:(lia)) as (Hne & nd & b & Hnd & Hp & Hb & Hbf). destruct fuel as [|fuel]; [lia|]. cbn [attach_loop].
  rewrite decide_False by done. rewrite (cbind_ok _ _ _ _ _ (cload_ok _ _ _ Hnd)), Hp. rewrite (above_S s j i a) by (done || lia). rewrite prefix_while_snoc.
  rewrite IH by (done || lia). assert (valid a = negb (KnownInvalid (bn_Status nd))) as -> by (unfold valid; by rewrite Hnd).
  assert (above s j i <> above s j i ++ [a]) as Hlen by (intros E; apply (f_equal length) in E; rewrite length_app in E; simpl in E; lia).
  assert (prefix_while valid (above s j i) <> above s j i ++ [a]) as Hlen'.
  { destruct (prefix_while_prefix valid (above s j i)) as (l' & E & _). intros F. rewrite F in E. apply (f_equal length) in E. rewrite !length_app in E. simpl in E. lia. }
  destruct (KnownInvalid (bn_Status nd)); simpl; destruct (decide (prefix_while valid (above s j i) = above s j i)) as [E|E];
    rewrite ?decide_True by done; rewrite ?decide_False by done; rewrite ?app_nil_r, <- ?app_assoc; done.
Qed.

Lemma detach_loop_ok j f : r !! j = Some f -> s !! j = Some f -> forall i a acc fuel, r !! i = Some a -> (j <= i)%nat -> (i - j <= fuel)%nat ->
  detach_loop fuel (Some a) (Some f) acc c = Ok (acc ++ reverse (above r j i), c).
Proof.
  intros Hf Hfs. pose proof (proj1 Hview) as Hr. destruct (Hr _ _ Hf) as (nf & Hnf & _). induction i as [|i IH]; intros a acc fuel Ha Hj Hfuel.
  { replace j with 0%nat in * by lia. rewrite Hf in Ha. injection Ha as ->. rewrite above_self, app_nil_r. destruct fuel; cbn [detach_loop]; by rewrite decide_True. }
  destruct (decide (j = S i)) as [->|]; [rewrite Hf in Ha; injection Ha as ->; rewrite above_self, app_nil_r; destruct fuel; cbn [detach_loop]; by rewrite decide_True|].
  destruct (branch_step r i a f j Hr Ha Hf ltac:(lia)) as (Hne & nd & b & Hnd & Hp & Hb & Hbf). destruct fuel as [|fuel]; [lia|]. cbn [detach_loop].
  rewrite decide_False by done. rewrite (cbind_ok _ _ _ _ _ (cload_ok _ _ _ Hnd)), (cbind_ok _ _ _ _ _ (cload_ok _ _ _ Hnf)). unfold IsEqual.
  rewrite bool_decide_eq_false_2.
  - rewrite Hp, IH by (done || lia). rewrite (above_S r j i a), reverse_app by (done || lia). by rewrite <- app_assoc.
  - intros E. apply Hne. f_equal. symmetry in E. eapply Hhash; [by eapply list_elem_of_lookup_2|by eapply list_elem_of_lookup_2|done|done|]. done.
Qed.

(** Where a prefix of the blocks above the fork ends. *)
Lemma prefix_end {A} (P : A -> bool) (q : list A) j x : last (prefix_while P (drop (S j) q)) = Some x ->
  exists n, (0 < n)%nat /\ q !! (j + n)%nat = Some x /\ take n (drop (S j) q) = prefix_while P (drop (S j) q).
Proof.
  intros Hl. destruct (prefix_while_prefix P (drop (S j) q)) as (l' & E & _). set (pre := prefix_while P (drop (S j) q)) in *.
  rewrite last_lookup in Hl. pose proof (lookup_lt_Some _ _ _ Hl). exists (length pre). split; [lia|]. split; [|by rewrite E, take_app_length].
  replace (j + length pre)%nat with (S j + pred (length pre))%nat by lia. rewrite <- lookup_drop, E. by apply lookup_app_l_Some.
Qed.

Definition first_missing (seg : list loc) : bool := match seg with [] => false | x :: _ => negb (good x) end.

Lemma first_missing_spec seg : first_missing seg = true <-> prefix_while good seg <> seg /\ prefix_while good seg = [].
Proof.
  destruct seg as [|x seg]; [by split; [|intros []]|]. cbn. destruct (good x); simpl; [|by split]. split; [done|]. intros [_ [=]].
Qed.

Lemma getReorganizeNodes_ok i j a b f nb : s !! S i = Some a -> length s = S (S i) -> s !! i = Some b -> c_nodes c !! b = Some nb -> r !! j = Some f -> s !! j = Some f ->
  FindFork DoubleHashH (Some a) c = Ok (Some f, c) ->
  getReorganizeNodes DoubleHashH miner_block (Some a) c =
    Ok (if KnownInvalid (bn_Status nb) || bool_decide (Z.of_nat j <= i32 (bi_Cutoff (c_Index c))) || first_missing (drop (S j) s) then ([], [])
        else (reverse (drop (S j) r), prefix_while valid (prefix_while good (drop (S j) s))), c).
Proof.
  intros Ha Hlen Hb Hnb Hfr Hfs Hfork. destruct (Hside _ _ Ha) as (nd & Hnd & Hh & Hp). rewrite Hb in Hp. unfold getReorganizeNodes.
  rewrite (cbind_ok _ _ _ _ _ (cload_ok _ _ _ Hnd)), Hp, (cbind_ok _ _ _ _ _ (cload_ok _ _ _ Hnb)). destruct (KnownInvalid (bn_Status nb)); [done|].
  destruct (Hside _ _ Hfs) as (nf & Hnf & Hhf & _). rewrite (cbind_ok _ _ _ _ _ Hfork), (cbind_ok _ _ _ _ _ (cload_ok _ _ _ Hnf)), (cbind_ok _ _ c c c eq_refl), Hhf.
  simpl orb. case_bool_decide as Hc; [by rewrite decide_True|]. rewrite decide_False by done. simpl orb. rewrite Hh.
  pose proof (lookup_lt_Some _ _ _ Hfs) as Hjs. assert (S (Z.to_nat (Z.of_nat (S i))) = S (S i)) as -> by lia.
  rewrite (cbind_ok _ _ _ _ _ (cut_loop_ok j f Hfs (S i) a (Some a) (S (S i)) Ha ltac:(lia) ltac:(lia))). rewrite !(above_all s j (S i)) by done.
  assert (forall n x, s !! (j + n)%nat = Some x -> forall seg, take n (drop (S j) s) = seg ->
    (attachNodes ← attach_loop (S (S i)) (Some x) (Some f) []; t ← tip_node; detachNodes ← detach_loop (S (length (cv_nodes (c_BestChain c)))) t (Some f) []; mret (detachNodes, attachNodes)) c
    = Ok (reverse (drop (S j) r), prefix_while valid seg, c)) as Hrest.
  { intros n x Hx seg Eseg. pose proof (lookup_lt_Some _ _ _ Hx). rewrite (cbind_ok _ _ _ _ _ (attach_loop_ok j f Hfs (j + n) x [] (S (S i)) Hx ltac:(lia) ltac:(lia))).
    assert (above s j (j + n) = seg) as -> by (rewrite <- Eseg; unfold above; by rewrite take_drop_commute).
    pose proof (lookup_lt_Some _ _ _ Hfr) as Hjr. destruct (lookup_lt_is_Some_2 r (pred (length r)) ltac:(lia)) as [t Ht].
    assert (tip_node c = Ok (Some t, c)) as Et.
    { unfold tip_node, tip. pose proof (view_len _ _ _ Hview) as El. rewrite decide_False by lia. destruct Hview as (_ & Hn & _).
      rewrite (slice_get_ok _ _ (Some t)); [done|lia|]. rewrite Hn, list_lookup_fmap, El. replace (Z.to_nat (Z.of_nat (length r) - 1)) with (pred (length r)) by lia. by rewrite Ht. }
    rewrite (cbind_ok _ _ _ _ _ Et). assert (length (cv_nodes (c_BestChain c)) = length r) as -> by (destruct Hview as (_ & -> & _); by rewrite length_fmap).
    rewrite (cbind_ok _ _ _ _ _ (detach_loop_ok j f Hfr Hfs _ t [] (S (length r)) Ht ltac:(lia) ltac:(lia))). rewrite (above_all r j) by lia.
    rewrite app_nil_l. case_decide as E; [by rewrite app_nil_r, E|done]. }
  pose proof (first_missing_spec (drop (S j) s)) as Hm. destruct (decide (prefix_while good (drop (S j) s) = drop (S j) s)) as [E|E].
  - destruct (first_missing (drop (S j) s)); [by destruct (proj1 Hm eq_refl)|]. rewrite E. apply (Hrest (S i - j)%nat); [by replace (j + (S i - j))%nat with (S i) by lia|].
    apply take_ge. rewrite length_drop. lia.
  - destruct (last (prefix_while good (drop (S j) s))) as [x|] eqn:El.
    + destruct (first_missing (drop (S j) s)); [by rewrite (proj2 (proj1 Hm eq_refl)) in El|]. destruct (prefix_end _ _ _ _ El) as (n & _ & Hx & Et). by apply (Hrest n).
    + apply last_None in El. by rewrite (proj2 Hm (conj E El)).
Qed.
End Reorg.

(** The two branches agree up to the fork. *)
Lemma common_prefix h (r s : list loc) j f : branch h r -> branch h s -> r !! j = Some f -> s !! j = Some f -> take (S j) r = take (S j) s.
Proof.
  intros Hr Hs Hfr Hfs. apply list_eq. intros k. destruct (decide (k < S j)%nat); [|by rewrite !lookup_take_ge by lia].
  rewrite !lookup_take_lt by lia. eapply branch_agree; [done|done|done|done|lia].
Qed.

(** C18: A reorganisation goes back to the last block that the main chain and the chain of the given block share, and no further (the two have one genesis block, different blocks have
    different hashes, and the block is above the cutoff of the blocks in memory).  The blocks to detach are the blocks of the main chain above it, from the tip down.  The blocks to
    attach are those of the chain of the given block above it, upwards, as far as the miner chain has the miner blocks they refer to and none of them is known to be invalid.  So the
    chain that results is that chain up to some block, and the whole of it when none of its blocks fails.  Nothing is reorganised when the parent of the block is invalid, the fork is
    not above the cutoff, or the first block of the side chain misses its miner block.  This is what the code does, and not what its comment says: the comment has the given block
    as the new end in every case, and both lists empty for a block of the main chain, while a block of the main chain below the tip detaches all that is above it, and an invalid first
    block detaches the main chain and attaches nothing. *)
Theorem reorganize_nodes_exact (DoubleHashH : list Z -> list Z) (miner_block : Z -> bool) (c : Chain) (r s : list loc) (a b : loc) (nb : BlockNode)
  (Hview : view_ok (c_nodes c) (c_BestChain c) r) (Hside : branch (c_nodes c) s)
  (Hhash : forall x y nx ny, x ∈ r -> y ∈ s -> c_nodes c !! x = Some nx -> c_nodes c !! y = Some ny -> bn_Hash nx = bn_Hash ny -> x = y)
  (Hgenesis : exists g, r !! 0%nat = Some g /\ s !! 0%nat = Some g)
  (Ha : last s = Some a) (Hb : last (removelast s) = Some b) (Hnb : c_nodes c !! b = Some nb) (Hcut : i32 (bi_Cutoff (c_Index c)) < Z.of_nat (length s) - 1) :
  exists j, take (S j) r = take (S j) s /\ (forall k x, (j < k)%nat -> r !! k = Some x -> s !! k <> Some x) /\
    let side := drop (S j) s in
    getReorganizeNodes DoubleHashH miner_block (Some a) c =
      Ok (if KnownInvalid (bn_Status nb) || bool_decide (Z.of_nat j <= i32 (bi_Cutoff (c_Index c))) || first_missing miner_block c side then ([], [])
          else (reverse (drop (S j) r), prefix_while (valid c) (prefix_while (good miner_block c) side)), c) /\
    (exists rest, take (S j) r ++ prefix_while (valid c) (prefix_while (good miner_block c) side) ++ rest = s) /\
    (Forall (fun x => good miner_block c x = true /\ valid c x = true) side -> take (S j) r ++ prefix_while (valid c) (prefix_while (good miner_block c) side) = s).
Proof.
  destruct Hgenesis as (g & Hgr & Hgs).
  assert (exists i, length s = S (S i) /\ s !! S i = Some a /\ s !! i = Some b) as (i & Hlen & Hsa & Hsb).
  { destruct s as [|x0 s0] using rev_ind; [done|]. rewrite removelast_last in Hb. rewrite last_snoc in Ha. injection Ha as ->.
    destruct s0 as [|y0 s1] using rev_ind; [done|]. rewrite last_snoc in Hb. injection Hb as ->. exists (length s1).
    rewrite !length_app. simpl. split_and!; [lia| |].
    - rewrite lookup_app_r by (rewrite length_app; simpl; lia). rewrite length_app. simpl. by replace (S (length s1) - (length s1 + 1))%nat with 0%nat by lia.
    - rewrite <- app_assoc. by apply list_lookup_middle. }
  assert (0 < length r)%nat as Hlr by (by apply lookup_lt_Some in Hgr).
  pose proof (FindFork_ok DoubleHashH c r s Hview Hside Hhash a Ha Hcut ltac:(by intros ->)) as Hfork.
  assert (exists j f, fork s r = Some f /\ r !! j = Some f /\ s !! j = Some f /\ forall k x, (j < k)%nat -> r !! k = Some x -> s !! k <> Some x) as (j & f & Ef & Hfr & Hfs & Habove).
  { unfold fork. destruct (Nat.min (length s) (length r)) as [|m] eqn:Em; [lia|]. pose proof (meet_spec s r m ltac:(lia) ltac:(lia)) as Hm.
    destruct (meet s r m) as [f|]; [|by destruct (Hm 0%nat ltac:(lia)); rewrite Hgr, Hgs]. destruct Hm as (j & Hj & Hs & Hr & Hk). exists j, f. split_and!; try done.
    intros k x Hjk Hx Hx'. apply (Hk k); [apply lookup_lt_Some in Hx, Hx'; lia|congruence]. }
  exists j. pose proof (common_prefix _ r s j f (proj1 Hview) Hside Hfr Hfs) as Epre. cbv zeta. rewrite Epre. split_and!; try done.
  - rewrite Ef in Hfork. by eapply (getReorganizeNodes_ok DoubleHashH miner_block c r s Hview Hside Hhash i).
  - destruct (prefix_while_prefix (good miner_block c) (drop (S j) s)) as (l1 & E1 & _).
    destruct (prefix_while_prefix (valid c) (prefix_while (good miner_block c) (drop (S j) s))) as (l2 & E2 & _).
    exists (l2 ++ l1). by rewrite (app_assoc _ l2 l1), <- E2, <- E1, take_drop.
  - intros Hall. rewrite (prefix_while_all (good miner_block c)) by (eapply Forall_impl; [done|by intros ? []]).
    rewrite prefix_while_all by (eapply Forall_impl; [done|by intros ? []]). by rewrite take_drop.
Qed.

(** A main chain 1-2-3 and a side chain 1-2-4-5-6 whose last block has no miner block. *)
Definition forked_nodes : bheap :=
  {[ 1%positive := MkNode None [1] 0 3 0 0 1 [] 0; 2%positive := MkNode (Some 1%positive) [2] 1 3 0 0 1 [] 0; 3%positive := MkNode (Some 2%positive) [3] 2 3 0 0 1 [] 0;
     4%positive := MkNode (Some 2%positive) [4] 2 1 0 0 (-1) [] 0; 5%positive := MkNode (Some 4%positive) [5] 3 1 0 0 (-2) [] 0;
     6%positive := MkNode (Some 5%positive) [6] 4 1 0 0 (-25) [] 0 ]}.
Definition forked_chain : Chain := MkChain forked_nodes NewBlockIndex (MkView [Some 1; Some 2; Some 3]%positive 10) ∅ ∅ ∅.

Lemma reorganize_nodes_witness :
  getReorganizeNodes (fun b => b) (fun h => bool_decide (h < 5)) (Some 6%positive) forked_chain = Ok ([3], [4; 5], forked_chain)%positive /\
  exists j, take (S j) [1; 2; 3]%positive = take (S j) [1; 2; 4; 5; 6]%positive.
Proof.
  split; [vm_compute; reflexivity|].
  destruct (reorganize_nodes_exact (fun b => b) (fun h => bool_decide (h < 5)) forked_chain [1; 2; 3]%positive [1; 2; 4; 5; 6]%positive 6%positive 5%positive
    (MkNode (Some 4%positive) [5] 3 1 0 0 (-2) [] 0)) as (j & Hj & _).
  - split_and!; [|done|vm_compute; intuition congruence..]. intros i x Hx. destruct i as [|[|[|]]]; simplify_eq/=; eexists; split; done.
  - intros i x Hx. destruct i as [|[|[|[|[|]]]]]; simplify_eq/=; eexists; split; done.
  - intros x y nx ny Hx Hy Ex Ey E. repeat (apply elem_of_cons in Hx as [->|Hx]); try (by apply elem_of_nil in Hx);
      repeat (apply elem_of_cons in Hy as [->|Hy]); try (by apply elem_of_nil in Hy); vm_compute in Ex, Ey; simplify_eq; done.
  - by exists 1%positive.
  - done.
  - done.
  - done.
  - vm_compute. reflexivity.
  - by exists j.
Defined.
