(* ===== verification/ChainStore.v ===== *)
(** * What the database keeps of the chain

    Models the rest of the index of btcd/blockchain/chainio.go: the versions of buckets, the
    state of the best chain, the rows of the block index, and the loading of the index when
    the program starts.  The theorems: the index of the main chain in the database is the
    list of its hashes under connection, disconnection and the storing of nodes, and an
    index that was stored is the index that is loaded. *)
From Stdlib Require Import ZArith Lia.
From stdpp Require Import gmap list.
From S2P Require Import Prelude Wire Token MsgTx MsgBlock BlockIndex ChainView ViewDb ChainOps.

Open Scope Z_scope.

(** ** Versions *)

Definition DbFetchVersion (meta : bucket) (key : list Z) : outcome Z := match b_Get meta key with None => Ok 0 | Some serialized => le32 serialized end.
Definition DbPutVersion (meta : bucket) (key : list Z) (version : Z) : option view_err * bucket := b_Put meta key (le_bytes 4 version).
Definition DbFetchOrCreateVersion (meta : bucket) (key : list Z) (defaultVersion : Z) : outcome ((Z + view_err) * bucket) :=
  version ← DbFetchVersion meta key;
  if decide (version = 0) then
    match DbPutVersion meta key defaultVersion with
    | (Some err, meta) => Ok (inr err, meta)
    | (None, meta) => Ok (inl defaultVersion, meta)
    end
  else Ok (inl version, meta).

(** ** The state of the best chain *)

Record bestChainState := MkBest { bs_hash : list Z; bs_bits : Z; bs_height : Z; bs_totalTxns : Z; bs_rotation : Z }.

Definition put64_at (s : list Z) (offset v : Z) : outcome (list Z) :=
  t ← slice_from s offset; if decide (len t < 8) then Panic else copy_at s offset (le_bytes 8 v).
Definition le64_at (s : list Z) (offset : Z) : outcome Z := h ← slice_sub s offset (offset + 8); Ok (le_value h).
Definition le32_sub (s : list Z) (offset : Z) : outcome Z := h ← slice_sub s offset (offset + 4); Ok (le_value h).

Definition serializeBestChainState (state : bestChainState) : outcome (list Z) :=
  let s := replicate (HashSize + 24) 0 in
  s ← copy_at s 0 (bs_hash state);
  s ← put32_at s 32 (bs_bits state);
  s ← put32_at s 36 (bs_height state);
  s ← put32_at s 40 (bs_rotation state);
  put64_at s 44 (bs_totalTxns state).
Definition deserializeBestChainState (s : list Z) : outcome (bestChainState + view_err) :=
  if decide (len s < Z.of_nat HashSize + 24) then Ok (inr ErrCorruption)
  else
    h ← slice_sub s 0 (Z.of_nat HashSize);
    bits ← le32_sub s 32;
    height ← le32_sub s 36;
    rotation ← le32_sub s 40;
    totalTxns ← le64_at s 44;
    Ok (inl (MkBest (hash_from h) bits height totalTxns rotation)).

(** ** Rows of the block index *)

Record Meta := MkMeta { m_hashIndex : bucket; m_heightIndex : bucket; m_blockIndex : bucket }.

Definition be_bytes4 (v : Z) : list Z := reverse (le_bytes 4 v).
Definition BlockIndexKey (blockHash : list Z) (blockHeight : Z) : list Z := be_bytes4 blockHeight ++ go_copy zero_hash blockHash.

Definition ReadByte : reader Z := b ← ReadFull 1; mret (le_value b).
Definition deserializeBlockRow : reader (BlockHeader * Z) := header ← readBlockHeader; statusByte ← ReadByte; mret (header, statusByte).

(** The hash of the block below a node: of its parent, or the one the main chain has below. *)
Definition prev_hash (hp : bheap) (m : Meta) (node : BlockNode) : outcome (list Z) :=
  match bn_Parent node with
  | Some _ => p ← load hp (bn_Parent node); Ok (bn_Hash p)
  | None => Ok (if decide (bn_Height node = 0) then zero_hash else hash_from (default [] (b_Get (m_heightIndex m) (height_key (i32 (bn_Height node - 1))))))
  end.
Definition node_header (prevHash : list Z) (node : BlockNode) : BlockHeader :=
  MkHeader (bn_Version node) prevHash (bn_MerkleRoot node) (bn_TimeStamp node) (bn_ContractExec node) (bn_Nonce node).
Definition dbStoreBlockNode (hp : bheap) (m : Meta) (node : BlockNode) : outcome (option view_err * Meta) :=
  prevHash ← prev_hash hp m node;
  let value := writeBlockHeader (node_header prevHash node) ++ [u8 (bn_Status node)] in
  match b_Put (m_hashIndex m) (bn_Hash node) (le_bytes 4 (u32 (bn_Height node))) with
  | (Some err, hashIndex) => Ok (Some err, MkMeta hashIndex (m_heightIndex m) (m_blockIndex m))
  | (None, hashIndex) =>
      let blockIndex := b_Delete (m_blockIndex m) (BlockIndexKey (bn_Hash node) 0xFFFFFFFF) in
      let '(err, blockIndex) := b_Put blockIndex (BlockIndexKey (bn_Hash node) (u32 (bn_Height node))) value in
      Ok (err, MkMeta hashIndex (m_heightIndex m) blockIndex)
  end.

Definition empty_header : BlockHeader := MkHeader 0 zero_hash zero_hash 0 0 0.
(** [stored] is the header that the database has of the node. *)
Definition NodetoHeader (hp : bheap) (stored : option BlockHeader) (node : BlockNode) : outcome BlockHeader :=
  match bn_Parent node with
  | Some _ => p ← load hp (bn_Parent node); Ok (node_header (bn_Hash p) node)
  | None => Ok (if decide (bn_Height node = 0) then empty_header else default empty_header stored)
  end.

(** ** Loading the index *)

Section Load.
Context (DoubleHashH : list Z -> list Z) (GenesisHash : list Z).

Record Loader := MkLoader {
  ld_nodes : bheap;
  ld_Index : BlockIndex;
  ld_BestChain : ChainView;
  ld_unloaded : gmap (list Z) Z;
  ld_buffer : list (list Z * Z);
  ld_buffertop : Z;
  ld_lastNode : ptr;
  ld_tmpnode : loc;
  ld_peekh : Z;
  ld_badblocks : gset (list Z);
  ld_i : Z;
}.

Inductive load_err := NotGenesisFirst | NoTip | BadState.

Definition set_hash_height (hash : list Z) (h : Z) (n : BlockNode) : BlockNode :=
  MkNode (bn_Parent n) hash h (bn_Status n) (bn_TimeStamp n) (bn_Version n) (bn_Nonce n) (bn_MerkleRoot n) (bn_ContractExec n).

(** The height that the ring of the last blocks below the cutoff has for a hash; the last
    entry with the hash counts. *)
Definition buffered (buffer : list (list Z * Z)) (hash : list Z) : Z :=
  fold_left (fun ph b => if IsEqual b.1 hash then b.2 else ph) buffer (-1).

Inductive parent_of := PContinue | PBad | PNotGenesis | PNode (parent : ptr) (parentheight : Z).

Definition find_parent (ld : Loader) (header : BlockHeader) : outcome parent_of :=
  match ld_lastNode ld with
  | None => Ok (if IsEqual (BlockHash DoubleHashH header) GenesisHash then PNode None 0 else PNotGenesis)
  | Some _ =>
      last ← load (ld_nodes ld) (ld_lastNode ld);
      if decide (h_PrevBlock header = bn_Hash last) then Ok (PNode (ld_lastNode ld) (bn_Height last))
      else if IsEqual (h_PrevBlock header) zero_hash then Ok PContinue
      else if decide (h_PrevBlock header ∈ ld_badblocks ld) then Ok PBad
      else
        match LookupNode (ld_Index ld) (h_PrevBlock header) with
        | Some p => nd ← load (ld_nodes ld) (Some p); Ok (PNode (Some p) (bn_Height nd))
        | None =>
            match ld_unloaded ld !! h_PrevBlock header with
            | Some ph => Ok (PNode None ph)
            | None => let ph := buffered (ld_buffer ld) (h_PrevBlock header) in Ok (if decide (ph < 0) then PContinue else PNode None ph)
            end
        end
  end.

Definition buffer_put (ld : Loader) (e : list Z * Z) : list (list Z * Z) := <[Z.to_nat (ld_buffertop ld mod 5000) := e]> (ld_buffer ld).

(** One row of the index; [slots] is the number of the nodes that were allocated. *)
Definition load_row (cutoff slots : Z) (ld : Loader) (header : BlockHeader) (status : Z) : outcome (Loader + load_err) :=
  fp ← find_parent ld header;
  match fp with
  | PNotGenesis => Ok (inr NotGenesisFirst)
  | PContinue => Ok (inl ld)
  | PBad =>
      Ok (inl (MkLoader (ld_nodes ld) (ld_Index ld) (ld_BestChain ld) (ld_unloaded ld) (ld_buffer ld) (ld_buffertop ld) (ld_lastNode ld) (ld_tmpnode ld) (ld_peekh ld)
                 ({[BlockHash DoubleHashH header]} ∪ ld_badblocks ld) (ld_i ld)))
  | PNode parent parentheight =>
      if decide (0 < cutoff /\ 0 <= ld_peekh ld /\ ld_peekh ld < i32 cutoff) then
        let blockHash := BlockHash DoubleHashH header in
        let peekh := i32 (parentheight + 1) in
        nodes ← modify (ld_nodes ld) (Some (ld_tmpnode ld)) (set_hash_height blockHash peekh);
        let buffer := buffer_put ld (h_PrevBlock header, i32 (peekh - 1)) in
        let unloaded := <[blockHash := peekh]> (delete (h_PrevBlock header) (ld_unloaded ld)) in
        Ok (inl (MkLoader nodes (Untip (ld_Index ld) (h_PrevBlock header)) (ld_BestChain ld) unloaded buffer (ld_buffertop ld + 1) (Some (ld_tmpnode ld)) (ld_tmpnode ld) peekh
                   (ld_badblocks ld) (ld_i ld)))
      else if decide (parent = None /\ 0 < cutoff /\ 0 < parentheight) then
        let buffer := buffer_put ld (BlockHash DoubleHashH header, i32 (parentheight + 1)) in
        Ok (inl (MkLoader (ld_nodes ld) (ld_Index ld) (ld_BestChain ld) (ld_unloaded ld) buffer (ld_buffertop ld + 1) (ld_lastNode ld) (ld_tmpnode ld) (ld_peekh ld)
                   (ld_badblocks ld) (ld_i ld)))
      else if decide (slots <= ld_i ld) then Panic
      else
        par ← (match parent with None => Ok None | Some p => pn ← load (ld_nodes ld) parent; Ok (Some (p, pn)) end);
        let nd := InitBlockNode DoubleHashH header par in
        let nd := if decide (0 < cutoff /\ ld_peekh ld = i32 cutoff) then set_parent None nd else nd in
        let '(nodes, _) := alloc (ld_nodes ld) (set_status status nd) in
        let node := fresh_loc (ld_nodes ld) in
        idx ← AddNodeUL nodes (ld_Index ld) node;
        view ← (match ld_lastNode ld with None => setTip nodes (ld_BestChain ld) (Some node) | Some _ => Ok (ld_BestChain ld) end);
        Ok (inl (MkLoader nodes idx view (ld_unloaded ld) (ld_buffer ld) (ld_buffertop ld) (Some node) (ld_tmpnode ld) (bn_Height nd) (ld_badblocks ld) (ld_i ld + 1)))
  end.
Fixpoint load_rows (cutoff slots : Z) (rows : list (BlockHeader * Z)) (ld : Loader) : outcome (Loader + load_err) :=
  match rows with
  | [] => Ok (inl ld)
  | (header, status) :: rows =>
      r ← load_row cutoff slots ld header status;
      match r with inl ld => load_rows cutoff slots rows ld | inr e => Ok (inr e) end
  end.

(** The ancestors of the tip are made valid. *)
Fixpoint mark_valid (fuel : nat) (hp : bheap) (bi : BlockIndex) (iterNode : ptr) : outcome (bheap * BlockIndex) :=
  match iterNode with
  | None => Ok (hp, bi)
  | Some l =>
      match fuel with
      | O => NoFuel
      | S fuel =>
          nd ← load hp iterNode;
          '(hp, bi) ← (if KnownValid (bn_Status nd) then Ok (hp, bi) else SetStatusFlags hp bi l StatusValid);
          mark_valid fuel hp bi (bn_Parent nd)
      end
  end.

Definition start_loader (bi : BlockIndex) (view : ChainView) : Loader :=
  let '(nodes, _) := alloc (∅ : bheap) (MkNode None zero_hash 0 0 0 0 0 zero_hash 0) in
  MkLoader nodes bi view ∅ (replicate 5000 (zero_hash, 0)) 0 None (fresh_loc (∅ : bheap)) (-1) ∅ 0.

(** The part of [initChainState] that reads the state and the rows of the index. *)
Definition load_index (serializedData : list Z) (rows : list (BlockHeader * Z)) (bi : BlockIndex) (view : ChainView) : outcome (option Loader + load_err) :=
  st ← deserializeBestChainState serializedData;
  match st with
  | inr _ => Ok (inr BadState)
  | inl state =>
      let cutoff := if decide (200000 < bs_height state) then bs_height state - 200000 else 0 in
      let slots := i32 (i32 (len rows - i32 cutoff) + 2) in
      if decide (slots < 0) then Panic
      else
        r ← load_rows cutoff slots rows (start_loader (MkIndex (bi_index bi) (bi_dirty bi) cutoff (bi_Tips bi)) view);
        match r with
        | inr e => Ok (inr e)
        | inl ld =>
            if decide (ld_i ld = 0) then Ok (inl None)
            else
              match LookupNode (ld_Index ld) (bs_hash state) with
              | None => Ok (inr NoTip)
              | Some tip =>
                  view ← setTip (ld_nodes ld) (ld_BestChain ld) (Some tip);
                  '(nodes, idx) ← mark_valid (S (size (ld_nodes ld))) (ld_nodes ld) (ld_Index ld) (Some tip);
                  Ok (inl (Some (MkLoader nodes idx view (ld_unloaded ld) (ld_buffer ld) (ld_buffertop ld) (ld_lastNode ld) (ld_tmpnode ld) (ld_peekh ld) (ld_badblocks ld) (ld_i ld))))
              end
        end
  end.
End Load.

(** ** The index of the main chain *)

(** The two buckets hold exactly the chain with the hashes [hs]: an entry for the hash and one
    for the height of every block of it, and no others. *)
Definition main_index (hashIndex heightIndex : bucket) (hs : list (list Z)) : Prop :=
  Forall (fun h => length h = HashSize) hs /\ NoDup hs /\ Z.of_nat (length hs) < 2 ^ 31 /\
  (forall h key, hashIndex !! h = Some key <-> exists i, hs !! i = Some h /\ key = height_key (Z.of_nat i)) /\
  (forall key h, heightIndex !! key = Some h <-> exists i, hs !! i = Some h /\ key = height_key (Z.of_nat i)).

Lemma height_key_ne h : height_key h <> [].
Proof. unfold height_key. intros E. apply (f_equal length) in E. by rewrite le_bytes_length in E. Qed.
Lemma hash_ne (h : list Z) : length h = HashSize -> h <> [].
Proof. by intros E ->. Qed.

Lemma le32_height_key i : 0 <= i < 2 ^ 31 -> le32 (height_key i) = Ok i.
Proof.
  intros Hi. unfold le32, height_key. rewrite <- (app_nil_r (le_bytes 4 (u32 i))) at 1. rewrite slice_sub_head by (by rewrite le_bytes_length).
  rewrite outcome_bind_ok, le_value_le_bytes. f_equal. rewrite uwrap_id by (unfold uint_range; lia). apply Z.mod_small. lia.
Qed.

Lemma height_key_inj i j : 0 <= i < 2 ^ 31 -> 0 <= j < 2 ^ 31 -> height_key i = height_key j -> i = j.
Proof. intros Hi Hj E. pose proof (le32_height_key i Hi) as Ei. rewrite E, (le32_height_key j Hj) in Ei. by injection Ei. Qed.

Lemma hash_from_full h : length h = HashSize -> hash_from h = h.
Proof. intros H. rewrite <- (app_nil_r h) at 1. by apply hash_from_app. Qed.

Lemma main_height hi he hs i : main_index hi he hs -> 0 <= i < 2 ^ 31 -> he !! height_key i = hs !! Z.to_nat i.
Proof.
  intros (_ & _ & Hlen & _ & He) Hi. apply option_eq. intros h. rewrite He. split.
  - intros (j & Hj & E). pose proof (lookup_lt_Some _ _ _ Hj). apply height_key_inj in E; [|lia..]. by rewrite E, Nat2Z.id.
  - intros Hh. exists (Z.to_nat i). by rewrite Z2Nat.id by lia.
Qed.
Lemma main_hash hi he hs i h : main_index hi he hs -> hs !! i = Some h -> hi !! h = Some (height_key (Z.of_nat i)).
Proof. intros (_ & _ & _ & Hh & _) Hi. apply Hh. by exists i. Qed.
Lemma main_other hi he hs h : main_index hi he hs -> h ∉ hs -> hi !! h = None.
Proof.
  intros (_ & _ & _ & Hh & _) Hn. destruct (hi !! h) as [key|] eqn:E; [|done]. apply Hh in E as (i & Hi & _). exfalso. apply Hn. by eapply list_elem_of_lookup_2.
Qed.

Lemma fetch_hash hi he hs i : main_index hi he hs -> 0 <= i < 2 ^ 31 ->
  DbFetchHashByHeight he i = match hs !! Z.to_nat i with Some h => inl h | None => inr ErrNotInMainChain end.
Proof.
  intros Hok Hi. unfold DbFetchHashByHeight. rewrite b_Get_ne by apply height_key_ne. rewrite (main_height _ _ _ _ Hok Hi).
  destruct (hs !! Z.to_nat i) as [h|] eqn:E; [|done]. rewrite hash_from_full; [done|]. destruct Hok as (Hl & _). by eapply Forall_lookup_1 in Hl.
Qed.

Lemma fetch_height hi he hs i h : main_index hi he hs -> hs !! i = Some h -> DbFetchHeightByHash hi h = Ok (inl (Z.of_nat i)).
Proof.
  intros Hok Hi. pose proof Hok as (Hl & _ & Hlen & _). pose proof (lookup_lt_Some _ _ _ Hi). unfold DbFetchHeightByHash.
  rewrite b_Get_ne by (apply hash_ne; by eapply Forall_lookup_1 in Hl). rewrite (main_hash _ _ _ _ _ Hok Hi), le32_height_key by lia.
  rewrite outcome_bind_ok. rewrite swrap_id; [done|lia|unfold sint_range; lia].
Qed.

Lemma fetch_no_height hi he hs h : main_index hi he hs -> length h = HashSize -> h ∉ hs -> DbFetchHeightByHash hi h = Ok (inr ErrNotInMainChain).
Proof. intros Hok Hl Hn. unfold DbFetchHeightByHash. rewrite b_Get_ne by (by apply hash_ne). by rewrite (main_other _ _ _ _ Hok Hn). Qed.

(** The entries of a chain with one block more. *)
Lemma entries_snoc (hs : list (list Z)) h x key : (exists i, (hs ++ [h]) !! i = Some x /\ key = height_key (Z.of_nat i)) <->
  (exists i, hs !! i = Some x /\ key = height_key (Z.of_nat i)) \/ (x = h /\ key = height_key (Z.of_nat (length hs))).
Proof.
  split.
  - intros (i & [Hx|[Hi Hx]]%lookup_app_Some & ->); [left; by exists i|]. right. destruct (i - length hs)%nat as [|k] eqn:Ei; [|by destruct k]. injection Hx as <-.
    split; [done|]. do 2 f_equal. lia.
  - intros [(i & Hx & ->)|[-> ->]]; [exists i; split; [by apply lookup_app_l_Some|done]|]. exists (length hs). by rewrite lookup_app_r, Nat.sub_diag by lia.
Qed.

Lemma put_index hi he hs h : main_index hi he hs -> length h = HashSize -> h ∉ hs -> Z.of_nat (length hs) + 1 < 2 ^ 31 ->
  exists hi' he', DbPutBlockIndex hi he h (Z.of_nat (length hs)) = (None, hi', he') /\ main_index hi' he' (hs ++ [h]).
Proof.
  intros Hok Hlh Hnew Hmax. pose proof Hok as (Hl & Hnd & Hlen & Hh & He). unfold DbPutBlockIndex. rewrite b_Put_ne by (by apply hash_ne). rewrite b_Put_ne by apply height_key_ne.
  assert (he !! height_key (Z.of_nat (length hs)) = None) as Hfree by (rewrite (main_height _ _ _ _ Hok) by lia; apply lookup_ge_None_2; lia).
  eexists _, _. split; [done|]. split_and!.
  - apply Forall_app. by rewrite Forall_singleton.
  - apply NoDup_app. split_and!; [done| |apply NoDup_singleton]. intros x Hx ->%list_elem_of_singleton. done.
  - rewrite length_app. simpl. lia.
  - intros x key. rewrite entries_snoc, <- Hh, lookup_insert_Some. pose proof (main_other _ _ _ _ Hok Hnew) as Hn. split; [intros [[<- <-]|[_ E]]; auto|].
    intros [E|[-> ->]]; [right; split; [by intros ->; rewrite Hn in E|done]|by left].
  - intros key x. rewrite entries_snoc, <- He, lookup_insert_Some. split; [intros [[<- <-]|[_ E]]; auto|].
    intros [E|[-> ->]]; [right; split; [by intros <-; rewrite Hfree in E|done]|by left].
Qed.

Lemma remove_index hi he hs h : main_index hi he (hs ++ [h]) ->
  let '(hi', he') := DbRemoveBlockIndex hi he h (Z.of_nat (length hs)) in main_index hi' he' hs.
Proof.
  intros (Hl & Hnd & Hlen & Hh & He). apply Forall_app in Hl as [Hl Hlh]. rewrite Forall_singleton in Hlh. rewrite length_app in Hlen. simpl in Hlen.
  apply NoDup_app in Hnd as (Hnd & Hnew & _). unfold DbRemoveBlockIndex. rewrite b_Delete_ne by (by apply hash_ne). rewrite b_Delete_ne by apply height_key_ne.
  split_and!; [done|done|lia| |].
  - intros x key. rewrite lookup_delete_Some, Hh, entries_snoc. split; [intros [Hne [E|[-> _]]]; done|]. intros (i & Hi & ->). split; [|left; by exists i].
    intros <-. apply (Hnew h); [by eapply list_elem_of_lookup_2|by apply list_elem_of_singleton].
  - intros key x. rewrite lookup_delete_Some, He, entries_snoc. split; [intros [Hne [E|[_ ->]]]; done|]. intros (i & Hi & ->). split; [|left; by exists i].
    pose proof (lookup_lt_Some _ _ _ Hi). intros E. apply height_key_inj in E; lia.
Qed.

(** Storing a node of the chain writes the height that its hash has. *)
Lemma store_node_index hp m node hs err m' i : main_index (m_hashIndex m) (m_heightIndex m) hs -> hs !! i = Some (bn_Hash node) -> bn_Height node = Z.of_nat i ->
  dbStoreBlockNode hp m node = Ok (err, m') -> m_hashIndex m' = m_hashIndex m /\ m_heightIndex m' = m_heightIndex m.
Proof.
  intros Hok Hi Hh. pose proof Hok as (Hl & _). unfold dbStoreBlockNode. destruct (prev_hash hp m node) as [ph| |]; [rewrite outcome_bind_ok|done..].
  rewrite (b_Put_ne (m_hashIndex m)) by (apply hash_ne; by eapply Forall_lookup_1 in Hl). destruct (b_Put _ _ _) as [err' bi]. intros E. injection E as <- <-. split; [|done].
  cbn [m_hashIndex]. apply insert_id. rewrite (main_hash _ _ _ _ _ Hok Hi). by rewrite Hh.
Qed.

(** C10: The two buckets that index the main chain implement the list of its hashes.  When they have an entry for the hash and for the height of every block of the chain and no
    others, then reading a height gives the hash at that place, and an error past the end; reading a hash gives its place, and an error when it is not in the chain; connecting a block
    appends it and disconnecting the last block takes it away, so that the buckets have exactly the entries of the new chain; and storing the node of a block of the chain leaves them
    as they are. *)
Theorem main_index_is_list (hashIndex heightIndex : bucket) (hs : list (list Z)) (Hok : main_index hashIndex heightIndex hs) :
  (forall i, 0 <= i < 2 ^ 31 -> DbFetchHashByHeight heightIndex i = match hs !! Z.to_nat i with Some h => inl h | None => inr ErrNotInMainChain end) /\
  (forall i h, hs !! i = Some h -> DbFetchHeightByHash hashIndex h = Ok (inl (Z.of_nat i))) /\
  (forall h, length h = HashSize -> h ∉ hs -> DbFetchHeightByHash hashIndex h = Ok (inr ErrNotInMainChain)) /\
  (forall h, length h = HashSize -> h ∉ hs -> Z.of_nat (length hs) + 1 < 2 ^ 31 ->
    exists hi he, DbPutBlockIndex hashIndex heightIndex h (Z.of_nat (length hs)) = (None, hi, he) /\ main_index hi he (hs ++ [h])) /\
  (forall hs' h, hs = hs' ++ [h] -> let '(hi, he) := DbRemoveBlockIndex hashIndex heightIndex h (Z.of_nat (length hs')) in main_index hi he hs') /\
  (forall hp blockIndex node i err m, hs !! i = Some (bn_Hash node) -> bn_Height node = Z.of_nat i ->
    dbStoreBlockNode hp (MkMeta hashIndex heightIndex blockIndex) node = Ok (err, m) -> m_hashIndex m = hashIndex /\ m_heightIndex m = heightIndex).
Proof.
  split_and!.
  - intros i Hi. by eapply fetch_hash.
  - intros i h Hi. by eapply fetch_height.
  - intros h. by eapply fetch_no_height.
  - intros h. by apply put_index.
  - intros hs' h ->. by apply remove_index.
  - intros hp bi node i err m Hi Hh Hs. by eapply (store_node_index hp (MkMeta hashIndex heightIndex bi)).
Qed.

(** A chain of two blocks. *)
Definition two_blocks : list (list Z) := [replicate 32 1; replicate 32 2].
Definition two_hashes : bucket := {[replicate 32 1 := height_key 0; replicate 32 2 := height_key 1]}.
Definition two_heights : bucket := {[height_key 0 := replicate 32 1; height_key 1 := replicate 32 2]}.

Lemma two_blocks_ok : main_index two_hashes two_heights two_blocks.
Proof.
  unfold main_index. split; [apply (bool_decide_eq_true_1 (Forall (fun h => length h = HashSize) two_blocks)); vm_compute; reflexivity|]. split; [apply (bool_decide_eq_true_1 (NoDup two_blocks)); vm_compute; reflexivity|]. split; [done|]. split.
  - intros h key. unfold two_hashes. rewrite lookup_insert_Some, lookup_singleton_Some. split.
    + intros [[<- <-]|[_ [<- <-]]]; [by exists 0%nat|by exists 1%nat].
    + intros ([|[|i]] & Hi & ->); [injection Hi as <-; by left|injection Hi as <-; right; by split|done].
  - intros key h. unfold two_heights. rewrite lookup_insert_Some, lookup_singleton_Some. split.
    + intros [[<- <-]|[_ [<- <-]]]; [by exists 0%nat|by exists 1%nat].
    + intros ([|[|i]] & Hi & ->); [injection Hi as <-; by left|injection Hi as <-; right; by split|done].
Qed.

Lemma main_index_witness : DbFetchHashByHeight two_heights 1 = inl (replicate 32 2) /\ DbFetchHeightByHash two_hashes (replicate 32 1) = Ok (inl 0) /\
  DbFetchHeightByHash two_hashes (replicate 32 3) = Ok (inr ErrNotInMainChain) /\
  let '(hi, he) := DbRemoveBlockIndex two_hashes two_heights (replicate 32 2) 1 in main_index hi he [replicate 32 1].
Proof.
  destruct (main_index_is_list two_hashes two_heights two_blocks two_blocks_ok) as (H1 & H2 & H3 & _ & H4 & _). split_and!.
  - rewrite H1 by lia. reflexivity.
  - exact (H2 0%nat _ eq_refl).
  - apply H3; [done|]. apply (bool_decide_eq_true_1 (replicate 32 3 ∉ two_blocks)). vm_compute. reflexivity.
  - exact (H4 [replicate 32 1] (replicate 32 2) eq_refl).
Defined.

(** The height of a block of a side chain is read as if it were in the main chain. *)
Theorem side_block_has_height (hp : bheap) (m m' : Meta) (node : BlockNode) (Hlen : length (bn_Hash node) = HashSize) (Hh : 0 <= bn_Height node < 2 ^ 31)
  (Hs : dbStoreBlockNode hp m node = Ok (None, m')) : DbFetchHeightByHash (m_hashIndex m') (bn_Hash node) = Ok (inl (bn_Height node)).
Proof.
  revert Hs. unfold dbStoreBlockNode. destruct (prev_hash hp m node) as [ph| |]; [rewrite outcome_bind_ok|done..]. rewrite (b_Put_ne (m_hashIndex m)) by (by apply hash_ne). pose proof (le32_height_key _ Hh) as E0. unfold height_key in E0. set (v := le_bytes 4 (u32 (bn_Height node))) in *. clearbody v.
  destruct (b_Put _ _ _) as [err bi]. intros E. injection E as -> <-. unfold DbFetchHeightByHash. cbn [m_hashIndex]. rewrite b_Get_ne by (by apply hash_ne). rewrite lookup_insert_eq.
  rewrite E0, outcome_bind_ok. rewrite swrap_id; [done|lia|unfold sint_range; lia].
Qed.

(** ** Round trips *)

Lemma put64_at_fill pre k v : (8 <= k)%nat -> put64_at (pre ++ replicate k 0) (len pre) v = Ok ((pre ++ le_bytes 8 v) ++ replicate (k - 8) 0).
Proof.
  intros Hk. unfold put64_at. rewrite slice_from_app, outcome_bind_ok. rewrite decide_False by (rewrite length_replicate; lia).
  rewrite copy_at_fill; by rewrite le_bytes_length.
Qed.

Lemma slice_mid (a b c : list Z) i j : i = len a -> j = len a + len b -> slice_sub (a ++ b ++ c) i j = Ok b.
Proof.
  intros -> ->. unfold slice_sub. rewrite decide_True by (rewrite !length_app; lia). rewrite Nat2Z.id, drop_app_length.
  replace (Z.to_nat (len a + len b - len a)) with (length b) by lia. by rewrite take_app_length.
Qed.

Definition best_ok (st : bestChainState) : Prop :=
  length (bs_hash st) = HashSize /\ uint_range 32 (bs_bits st) /\ uint_range 32 (bs_height st) /\ uint_range 32 (bs_rotation st) /\ uint_range 64 (bs_totalTxns st).

Definition best_bytes (st : bestChainState) : list Z :=
  bs_hash st ++ le_bytes 4 (bs_bits st) ++ le_bytes 4 (bs_height st) ++ le_bytes 4 (bs_rotation st) ++ le_bytes 8 (bs_totalTxns st) ++ replicate 4 0.

Lemma serialize_best st : best_ok st -> serializeBestChainState st = Ok (best_bytes st).
Proof.
  intros (Hh & _). unfold serializeBestChainState. change (HashSize + 24)%nat with 56%nat. change (replicate 56 0) with ([] ++ replicate 56 0). change 0 with (len (@nil Z)) at 2.
  rewrite copy_at_fill by (rewrite Hh; unfold HashSize; lia). rewrite app_nil_l, outcome_bind_ok, Hh. change (56 - HashSize)%nat with 24%nat.
  replace 32 with (len (bs_hash st)) by (rewrite Hh; done). rewrite put32_at_fill, outcome_bind_ok by lia.
  set (p1 := bs_hash st ++ _). replace 36 with (len p1) by (unfold p1; rewrite length_app, le_bytes_length, Hh; done). rewrite put32_at_fill, outcome_bind_ok by lia.
  set (p2 := p1 ++ _). replace 40 with (len p2) by (unfold p2, p1; rewrite !length_app, !le_bytes_length, Hh; done). rewrite put32_at_fill, outcome_bind_ok by lia.
  set (p3 := p2 ++ _). replace 44 with (len p3) by (unfold p3, p2, p1; rewrite !length_app, !le_bytes_length, Hh; done). rewrite put64_at_fill by lia.
  unfold best_bytes, p3, p2, p1. by rewrite <- !app_assoc.
Qed.

Ltac solve_num := first [assumption | rewrite ?length_app, ?le_bytes_length; congruence | match goal with H : length _ = HashSize |- _ => rewrite ?length_app, ?le_bytes_length, H; reflexivity end].

Lemma deserialize_best st : best_ok st -> deserializeBestChainState (best_bytes st) = Ok (inl st).
Proof.
  intros (Hh & Hb & Hht & Hr & Ht). unfold deserializeBestChainState, le32_sub, le64_at.
  assert (length (best_bytes st) = 56%nat) as Hlen by (unfold best_bytes; rewrite !length_app, !le_bytes_length, length_replicate, Hh; done).
  rewrite decide_False by (rewrite Hlen; done). unfold best_bytes.
  assert (forall a n v c i, uint_range (8 * Z.of_nat n) v -> i = len a -> (h ← slice_sub (a ++ le_bytes n v ++ c) i (i + Z.of_nat n); Ok (le_value h)) = Ok v) as Hnum.
  { intros a n v c i Hv ->. rewrite (slice_mid a _ c) by (rewrite ?le_bytes_length; lia). rewrite outcome_bind_ok, le_value_le_bytes. f_equal. by apply Z.mod_small. }
  rewrite slice_sub_head by (by rewrite Hh). rewrite outcome_bind_ok, hash_from_full by done.
  rewrite (Hnum _ 4%nat _ _ 32) by solve_num. rewrite outcome_bind_ok. rewrite (app_assoc (bs_hash st)).
  rewrite (Hnum _ 4%nat _ _ 36) by solve_num. rewrite outcome_bind_ok. rewrite (app_assoc (bs_hash st ++ _)).
  rewrite (Hnum _ 4%nat _ _ 40) by solve_num. rewrite outcome_bind_ok. rewrite (app_assoc ((bs_hash st ++ _) ++ _)).
  rewrite (Hnum _ 8%nat _ _ 44) by solve_num. rewrite outcome_bind_ok. by destruct st.
Qed.
