(* ===== verification/ChainLoad.v ===== *)
(** * Starting the program again

    What the loading of the block index in [ChainStore] yields: the rows that were stored for
    the nodes of the tree give the tree back, and the best chain again ends at the stored tip. *)
From Stdlib Require Import ZArith Lia.
From stdpp Require Import gmap list.
From S2P Require Import Prelude Wire Token MsgTx MsgBlock BlockIndex ChainView ViewDb ChainOps ChainStore.

Open Scope Z_scope.

(** ** Heaps that grow *)





(** ** Rows *)

Section Rows.
Context (DoubleHashH : list Z -> list Z) (GenesisHash : list Z).












End Rows.

(** ** Nodes that become valid *)









(** ** Rows that are stored *)

(** The row of a stored node reads back as its header and status. *)
Theorem stored_row_reads_back (hp : bheap) (m m' : Meta) (node : BlockNode) (p : list Z)
  (Hp : prev_hash hp m node = Ok p) (Hok : header_ok (node_header p node)) (Hst : uint_range 8 (bn_Status node)) (Hs : dbStoreBlockNode hp m node = Ok (None, m')) :
  exists value, b_Get (m_blockIndex m') (BlockIndexKey (bn_Hash node) (u32 (bn_Height node))) = Some value /\ deserializeBlockRow value = Ok (inl (node_header p node, bn_Status node, [])).
Proof.
  assert (BlockIndexKey (bn_Hash node) (u32 (bn_Height node)) <> []) as Hne by (unfold BlockIndexKey; intros E; apply (f_equal length) in E; by rewrite length_app in E).
  revert Hs. unfold dbStoreBlockNode. rewrite Hp, outcome_bind_ok. set (value := _ ++ _). assert (deserializeBlockRow value = Ok (inl (node_header p node, bn_Status node, []))) as Hv.
  { rewrite <- (app_nil_r value). unfold value. apply (reads_bind readBlockHeader _ _ [u8 (bn_Status node)] _ (node_header p node, bn_Status node) (reads_header _ Hok)).
    eapply reads_bind_ret; [|apply reads_ret]. eapply reads_bind_ret; [by apply reads_full|]. rewrite uwrap_id by done. simpl. rewrite Z.mul_0_r, Z.add_0_r. apply reads_ret. }
  clearbody value. destruct (b_Put (m_hashIndex m) _ _) as [[|] hi]; [done|]. rewrite b_Put_ne by done. intros E. injection E as <-. exists value. split; [|done].
  cbn [m_blockIndex]. by rewrite b_Get_ne, lookup_insert_eq.
Qed.

Lemma bytes_compare_app a b c d : length a = length b -> bytes_compare a b = Lt -> bytes_compare (a ++ c) (b ++ d) = Lt.
Proof.
  revert b. induction a as [|x a IH]; intros [|y b] Hl; try done. cbn [bytes_compare app]. injection Hl as Hl. destruct (x ?= y); [|done|done]. by apply IH.
Qed.
Lemma bytes_compare_snoc a b x y : length a = length b -> bytes_compare (a ++ [x]) (b ++ [y]) = match bytes_compare a b with Eq => x ?= y | o => o end.
Proof.
  revert b. induction a as [|u a IH]; intros [|v b] Hl; try done; cbn [bytes_compare app].
  - by destruct (x ?= y).
  - injection Hl as Hl. destruct (u ?= v); [|done|done]. by apply IH.
Qed.
Lemma be_compare n : forall a b, 0 <= a < 2 ^ (8 * Z.of_nat n) -> 0 <= b < 2 ^ (8 * Z.of_nat n) -> bytes_compare (reverse (le_bytes n a)) (reverse (le_bytes n b)) = (a ?= b).
Proof.
  induction n as [|n IH]; intros a b Ha Hb. { simpl in *. replace a with 0 by lia. replace b with 0 by lia. done. }
  cbn [le_bytes]. rewrite !reverse_cons. rewrite bytes_compare_snoc by (by rewrite !length_reverse, !le_bytes_length).
  replace (2 ^ (8 * Z.of_nat (S n))) with (256 * 2 ^ (8 * Z.of_nat n)) in Ha, Hb by (rewrite <- (Z.pow_add_r 2 8) by lia; f_equal; lia).
  rewrite IH by (split; [apply Z.div_pos; lia|apply Z.div_lt_upper_bound; lia]). destruct (Z.compare_spec (a / 256) (b / 256)) as [E|E|E].
  - destruct (Z.compare_spec (a mod 256) (b mod 256)), (Z.compare_spec a b); try done; Z.to_euclidean_division_equations; lia.
  - symmetry. apply Z.compare_lt_iff. Z.to_euclidean_division_equations. lia.
  - symmetry. apply Z.compare_gt_iff. Z.to_euclidean_division_equations. lia.
Qed.

(** The keys of the rows are in the order of the heights. *)
Lemma rows_in_height_order a b i j : uint_range 32 i -> uint_range 32 j -> i < j -> bytes_lt (BlockIndexKey a i) (BlockIndexKey b j).
Proof.
  intros Hi Hj Hlt. unfold bytes_lt, BlockIndexKey, be_bytes4. apply bytes_compare_app; [by rewrite !length_reverse, !le_bytes_length|]. rewrite be_compare by done. by apply Z.compare_lt_iff.
Qed.



