(* ===== verification/ChainMap.v ===== *)
(** * The map of the chains

    Models omega/chainmap/chainmap.go and btcd/wire/msgchainmap.go: the descriptors of the
    chains and their bytes, the tree of the chains, the route of a token from one chain to
    another with the fees on the way, and the adding and removing of chains.  The editing of
    the seeds inside the JSON text of the parameters is not modelled. *)
From Stdlib Require Import ZArith Lia.
From stdpp Require Import gmap list.
From S2P Require Import Prelude Wire Token MsgTx MsgBlock ViewDb.

Open Scope Z_scope.

(** ** Descriptors *)

(** Strings are their bytes. *)
Record ChainDescriptor := MkChainDesc {
  cd_Version : Z;
  cd_Magic : Z;
  cd_MRChain : bool;
  cd_Genesis : list Z;
  cd_MrGenesis : list Z;
  cd_Parent : Z;
  cd_ChainID : Z;
  cd_Dns : list Z;
  cd_DefaultPort : list Z;
  cd_DefaultRPCPort : list Z;
  cd_Height : Z;
  cd_GlobalParams : list Z;
  cd_Legacy : bool;
  cd_Final : Z;
}.

Global Instance cd_eq_dec : EqDecision ChainDescriptor.
Proof. solve_decision. Defined.

Definition cd_Match (t s : ChainDescriptor) : bool :=
  bool_decide (cd_Magic t = cd_Magic s) && bool_decide (cd_MRChain t = cd_MRChain s) && bool_decide (cd_Genesis t = cd_Genesis s) &&
  bool_decide (cd_MrGenesis t = cd_MrGenesis s) && bool_decide (cd_Dns t = cd_Dns s) && bool_decide (cd_DefaultRPCPort t = cd_DefaultRPCPort s) &&
  bool_decide (cd_DefaultPort t = cd_DefaultPort s) && bool_decide (cd_Parent t = cd_Parent s) && bool_decide (cd_ChainID t = cd_ChainID s) &&
  bool_decide (cd_GlobalParams t = cd_GlobalParams s).

Definition cd_OmcEncode (t : ChainDescriptor) : list Z :=
  PutUint32 (cd_Version t) ++ PutUint32 (cd_Magic t) ++ PutUint8 (if cd_MRChain t then 1 else 0) ++
  WriteVarBytes (cd_Genesis t) ++ WriteVarBytes (cd_MrGenesis t) ++ PutUint32 (cd_Parent t) ++ PutUint32 (cd_ChainID t) ++
  PutUint32 (u32 (len (cd_Dns t))) ++ PutUint32 (u32 (len (cd_DefaultPort t))) ++ PutUint32 (u32 (len (cd_DefaultRPCPort t))) ++
  cd_Dns t ++ cd_DefaultPort t ++ cd_DefaultRPCPort t ++ WriteVarBytes (cd_GlobalParams t) ++ PutUint8 (if cd_Legacy t then 1 else 0) ++ PutUint32 (cd_Final t).

(** The trailing commas go; a text of commas only panics. *)
Fixpoint drop_commas (s : list Z) : outcome (list Z) :=
  match s with [] => Panic | 44 :: s => drop_commas s | _ => Ok s end.
Definition trim_commas (s : list Z) : outcome (list Z) := r ← drop_commas (reverse s); Ok (reverse r).

Definition read_text (n : Z) : reader (list Z) := _ ← rlift (make 1 n); ReadFull (Z.to_nat n).
(** [ReadElements] into a variable that keeps its value when the reading fails. *)
Definition read_or {A} (m : reader A) (d : A) : reader A := rcatch m mret d.
(** The height is not among the bytes: [height] is the one the descriptor has before. *)
Definition cd_OmcDecode (height : Z) : reader ChainDescriptor :=
  version ← ReadUint32;
  vm ← (if decide (version <> 0x10000) then mret (0x10000, version) else magic ← ReadUint32; mret (version, magic));
  b ← Uint8;
  genesis ← ReadVarString;
  genesis ← rlift (trim_commas genesis);
  mrgenesis ← ReadVarString;
  parent ← ReadUint32;
  chainid ← ReadUint32;
  n ← ReadUint32;
  m ← ReadUint32;
  k ← ReadUint32;
  dns ← read_text n;
  port ← read_text m;
  rpcport ← read_text k;
  params ← ReadVarString;
  legacy ← read_or (ReadElement EBool) false;
  final ← read_or ReadUint32 21;
  mret (MkChainDesc vm.1 vm.2 (bool_decide (b = 1)) genesis mrgenesis parent chainid dns port rpcport height params legacy final).
Definition cd_Deserialize (height : Z) (res : list Z) : outcome (option ChainDescriptor) :=
  if decide (len res < 81 + 12) then Ok None
  else match cd_OmcDecode height res with
       | Ok (inl (t, _)) => Ok (Some t)
       | Ok (inr _) => Ok None
       | Panic => Panic
       | NoFuel => NoFuel
       end.

(** ** The tree *)

Definition ROOT : Z := 1.
Definition Licensed : bool := false.
Definition CrossChainTxFeePerChain : Z := 100000.

Abbreviation chains := (gmap Z ChainDescriptor).

(** [d, _ = m.ChainMap[id]]: a chain that is missing is nil. *)
Definition chain_at (m : chains) (id : Z) : outcome ChainDescriptor := match m !! id with Some d => Ok d | None => Panic end.

Fixpoint decendant_loop (fuel : nat) (m : chains) (t d : ChainDescriptor) : outcome ChainDescriptor :=
  if decide (cd_Parent d <> cd_ChainID t /\ cd_Parent d <> 0) then
    match fuel with O => NoFuel | S fuel => d ← chain_at m (cd_Parent d); decendant_loop fuel m t d end
  else Ok d.
Definition Decendant (fuel : nat) (m : chains) (t : ChainDescriptor) (cid : Z) : outcome bool :=
  match m !! cid with
  | None => Ok false
  | Some d => if decide (cd_ChainID t = cid) then Ok false else d ← decendant_loop fuel m t d; Ok (bool_decide (cd_Parent d = cd_ChainID t))
  end.

Definition FeeScript (t : ChainDescriptor) : list Z := 0 :: 1 :: replicate 19 0 ++ OP_PAYMINER :: take 3 (PutUint32 (cd_ChainID t)).
Definition FeeAmount (t : ChainDescriptor) : Z := CrossChainTxFeePerChain.

(** The chains from one up to a root. *)
Fixpoint to_root (fuel : nat) (m : chains) (d : ChainDescriptor) : outcome (list ChainDescriptor) :=
  if decide (cd_Parent d = 0) then Ok [d]
  else match fuel with O => NoFuel | S fuel => p ← chain_at m (cd_Parent d); l ← to_root fuel m p; Ok (d :: l) end.

(** What both ways share at the root is taken off, but for the last chain; [i] and [j] walk
    down, and [trm] tells whether the chains above were the same. *)
Fixpoint trim_loop (i j : nat) (src dst : list ChainDescriptor) (trm : bool) : outcome (list ChainDescriptor * list ChainDescriptor * bool) :=
  match i, j with
  | S i, S j =>
      a ← slice_get src (Z.of_nat i);
      b ← slice_get dst (Z.of_nat j);
      let nt := bool_decide (cd_ChainID a = cd_ChainID b) in
      let '(src, dst) := if trm && nt then (removelast src, removelast dst) else (src, dst) in
      if trm && negb nt then Ok (src, dst, trm) else trim_loop i j src dst nt
  | _, _ => Ok (src, dst, trm)
  end.

Definition CtxFees (fuel : nat) (m : chains) (t : ChainDescriptor) (dest : Z) : outcome (list (list Z) * list Z) :=
  srctoroot ← to_root fuel m t;
  match m !! dest with
  | None => Ok ([], [])
  | Some d =>
      desttoroot ← to_root fuel m d;
      '(src, dst, trm) ← trim_loop (length srctoroot) (length desttoroot) srctoroot desttoroot false;
      let dst := if trm : bool then removelast dst else dst in
      let route := filter (fun c => cd_Legacy c = false) (src ++ reverse dst) in
      Ok (FeeScript <$> route, FeeAmount <$> route)
  end.

(** The chain right below [tid] on the way up from [p]. *)
Fixpoint child_below (fuel : nat) (m : chains) (tid p : Z) : outcome Z :=
  d ← chain_at m p;
  if decide (cd_Parent d = tid) then Ok p else match fuel with O => NoFuel | S fuel => child_below fuel m tid (cd_Parent d) end.
Definition PassThru (fuel : nat) (m : chains) (tid src dest : Z) : outcome bool :=
  match m !! tid with
  | None => Ok false
  | Some t =>
      if decide (tid = src \/ tid = dest) then Ok true
      else
        sd ← Decendant fuel m t src;
        dd ← Decendant fuel m t dest;
        if negb (bool_decide (sd = dd)) then Ok true
        else if negb sd then Ok false
        else p ← child_below fuel m tid src; q ← child_below fuel m tid dest; Ok (negb (bool_decide (p = q)))
  end.

(** ** Chains that come and go *)

Record FOCMap := MkFOC { fm_ChainMap : chains; fm_bucket : bucket }.
Definition cid_key (id : Z) : list Z := PutUint32 id.

Definition same_chain (c d : ChainDescriptor) : bool :=
  bool_decide (cd_Magic d = cd_Magic c) || (bool_decide (cd_Dns d = cd_Dns c) && bool_decide (cd_DefaultPort d = cd_DefaultRPCPort c)) ||
  bool_decide (cd_Genesis d = cd_Genesis c) || (cd_MRChain c && cd_MRChain d && bool_decide (cd_MrGenesis d = cd_MrGenesis c)).

(** [params_ok]: the text of the parameters is the JSON of a [GlobalParams]. *)
Definition AddChain (params_ok : list Z -> bool) (m : FOCMap) (c : ChainDescriptor) : outcome (FOCMap * bool) :=
  if decide (cd_ChainID c <> ROOT /\ cd_Parent c = 0) then Ok (m, false)
  else if decide (cd_ChainID c = ROOT /\ cd_Parent c <> 0) then Ok (m, false)
  else if decide (is_Some (fm_ChainMap m !! cd_ChainID c)) then Ok (m, false)
  else if existsb (same_chain c) (map_to_list (fm_ChainMap m)).*2 then Ok (m, false)
  else if negb (params_ok (cd_GlobalParams c)) then Panic
  else Ok (MkFOC (<[cd_ChainID c := c]> (fm_ChainMap m)) (b_Put (fm_bucket m) (cid_key (cd_ChainID c)) (cd_OmcEncode c)).2, true).
Definition RemoveChain (m : FOCMap) (c : Z) : FOCMap :=
  if decide (fm_ChainMap m !! c = None) then m
  else if decide (c = ROOT) then m
  else MkFOC (delete c (fm_ChainMap m)) (b_Delete (fm_bucket m) (cid_key c)).

(** [LoadChainMap]: a row that cannot be read ends the loading, and a map that is no tree
    is replaced by the root alone.  [rows] are the pairs of the bucket in the order of the
    keys; every descriptor is written back unless the program is [Licensed]. *)
Fixpoint load_chains (rows : list (list Z * list Z)) (b : bucket) (m : chains) : outcome (bucket * chains) :=
  match rows with
  | [] => Ok (b, m)
  | (k, v) :: rows =>
      t ← cd_Deserialize 0 v;
      match t with
      | None => Ok (b, m)
      | Some t => id ← le32 k; load_chains rows (if Licensed then b else (b_Put b k (cd_OmcEncode t)).2) (<[id := t]> m)
      end
  end.
Definition bad_chain (m : chains) (i : Z) (n : ChainDescriptor) : bool :=
  negb (bool_decide (i = cd_ChainID n)) || (bool_decide (cd_Parent n = 0) && negb (bool_decide (i = ROOT))) ||
  (negb (bool_decide (cd_Parent n = 0)) && bool_decide (m !! cd_Parent n = None)).
Definition LoadChainMap (root : ChainDescriptor) (rows : list (list Z * list Z)) : outcome FOCMap :=
  '(b, m) ← load_chains rows (list_to_map rows) ∅;
  let bad := existsb (fun '(i, n) => bad_chain m i n) (map_to_list m) in
  if decide (m !! ROOT = None \/ bad = true) then Ok (MkFOC {[ROOT := root]} (b_Put ∅ (cid_key ROOT) (cd_OmcEncode root)).2)
  else Ok (MkFOC m b).

(** ** Bytes *)

Definition text_ok (s : list Z) : Prop := bytes s /\ len s <= MaxStringPayload.

Record desc_ok (t : ChainDescriptor) : Prop := MkDescOk {
  dk_version : cd_Version t = 0x10000;
  dk_magic : uint_range 32 (cd_Magic t);
  dk_genesis : text_ok (cd_Genesis t) /\ exists s x, cd_Genesis t = s ++ [x] /\ x <> 44;
  dk_mrgenesis : text_ok (cd_MrGenesis t);
  dk_parent : uint_range 32 (cd_Parent t) /\ uint_range 32 (cd_ChainID t);
  dk_texts : text_ok (cd_Dns t) /\ text_ok (cd_DefaultPort t) /\ text_ok (cd_DefaultRPCPort t) /\ text_ok (cd_GlobalParams t);
  dk_final : uint_range 32 (cd_Final t);
}.

Definition with_height (h : Z) (t : ChainDescriptor) : ChainDescriptor :=
  MkChainDesc (cd_Version t) (cd_Magic t) (cd_MRChain t) (cd_Genesis t) (cd_MrGenesis t) (cd_Parent t) (cd_ChainID t) (cd_Dns t) (cd_DefaultPort t)
    (cd_DefaultRPCPort t) h (cd_GlobalParams t) (cd_Legacy t) (cd_Final t).

Lemma trim_commas_end s x : x <> 44 -> trim_commas (s ++ [x]) = Ok (s ++ [x]).
Proof.
  intros Hx. unfold trim_commas. rewrite reverse_snoc. assert (drop_commas (x :: reverse s) = Ok (x :: reverse s)) as ->.
  { cbn [drop_commas]. repeat case_match; try done; lia. }
  by rewrite outcome_bind_ok, reverse_cons, reverse_involutive.
Qed.

Lemma reads_rlift {A B} (o : outcome A) a (k : A -> reader B) b x : o = Ok a -> reads (k a) b x -> reads (rlift o ≫= k) b x.
Proof. intros -> H r. unfold mbind, reader_bind, rlift. apply H. Qed.

Lemma reads_text s : len s <= MaxStringPayload -> reads (read_text (len s)) s s.
Proof.
  intros Hl. unfold read_text. eapply (reads_rlift _ ()); [|apply reads_full; by rewrite Nat2Z.id].
  unfold make. rewrite decide_True; [done|]. unfold make_ok. unfold MaxStringPayload in Hl. lia.
Qed.

Lemma reads_VarText s : len s <= MaxStringPayload -> reads ReadVarString (WriteVarBytes s) s.
Proof. intros Hl. unfold ReadVarString. apply reads_VarBytes; unfold uint_range, MaxStringPayload in *; lia. Qed.
Lemma reads_or {A} (m : reader A) d b a : reads m b a -> reads (read_or m d) b a.
Proof. intros H. rewrite <- (app_nil_r b). eapply reads_catch; [done|]. apply reads_ret. Qed.
Lemma reads_bool (b : bool) : reads (ReadElement EBool) (PutUint8 (if b then 1 else 0)) b.
Proof. cbn [ReadElement]. eapply reads_bind_ret; [apply reads_Uint8; by destruct b|]. destruct b; apply reads_ret. Qed.
#[export] Hint Resolve reads_text reads_VarText reads_or reads_bool : reads.

(** Reading a descriptor gives it back with another height: the height is not stored. *)
Theorem descriptor_roundtrip (t : ChainDescriptor) (h : Z) (Hok : desc_ok t) : reads (cd_OmcDecode h) (cd_OmcEncode t) (with_height h t).
Proof.
  destruct Hok as [Hv Hm [[Hgb Hgl] (gs & gx & Eg & Hx)] [_ Hml] [Hp Hc] ([_ Hd] & [_ Hpo] & [_ Hr] & [_ Hg]) Hf]. unfold cd_OmcDecode, cd_OmcEncode.
  assert (forall s : list Z, len s <= MaxStringPayload -> u32 (len s) = len s) as Hlen by (intros s Hs; apply uwrap_id; unfold uint_range, MaxStringPayload in *; lia).
  rewrite !Hlen by done. eapply reads_bind; [apply reads_ReadUint32; by rewrite Hv|]. rewrite decide_False by (rewrite Hv; lia).
  eapply reads_bind; [eapply reads_bind_ret; [by apply reads_ReadUint32|apply reads_ret]|]. eapply reads_bind; [apply reads_Uint8; by destruct (cd_MRChain t)|].
  eapply reads_bind; [by apply reads_VarText|]. eapply reads_rlift; [rewrite Eg; by apply trim_commas_end|]. rewrite <- Eg.
  do 2 (eapply reads_bind; [first [by apply reads_VarText|by apply reads_ReadUint32]|]). eapply reads_bind; [by apply reads_ReadUint32|].
  do 3 (eapply reads_bind; [apply reads_ReadUint32; unfold uint_range, MaxStringPayload in *; lia|]). do 3 (eapply reads_bind; [by apply reads_text|]).
  eapply reads_bind; [by apply reads_VarText|]. eapply reads_bind; [apply reads_or, reads_bool|]. eapply reads_bind_ret; [by apply reads_or, reads_ReadUint32|].
  unfold with_height. rewrite Hv. replace (bool_decide ((if cd_MRChain t then 1 else 0) = 1)) with (cd_MRChain t) by (by destruct (cd_MRChain t)). apply reads_ret.
Qed.

(** ** Routes *)

(** The chains from [d] up to a root. *)
Inductive route (m : chains) : ChainDescriptor -> list ChainDescriptor -> Prop :=
  | route_root d : cd_Parent d = 0 -> route m d [d]
  | route_up d p l : cd_Parent d <> 0 -> m !! cd_Parent d = Some p -> route m p l -> route m d (d :: l).

(** The chains of a map are under their identifiers, and none has the identifier zero. *)
Definition keyed (m : chains) : Prop := forall c d, m !! c = Some d -> cd_ChainID d = c /\ c <> 0.

Lemma to_root_ok m d l : route m d l -> forall fuel, (length l <= S fuel)%nat -> to_root fuel m d = Ok l.
Proof.
  induction 1 as [d Hd|d p l Hd Hp Hr IH]; intros fuel Hf; destruct fuel as [|fuel]; cbn [to_root]; rewrite ?(decide_True (P := cd_Parent d = 0)) by done; try done.
  - simpl in Hf. inversion Hr; subst; simpl in Hf; lia.
  - rewrite decide_False by done. unfold chain_at. rewrite Hp, outcome_bind_ok. rewrite IH by (simpl in Hf; lia). done.
Qed.

Lemma route_inj m d l : route m d l -> forall l', route m d l' -> l = l'.
Proof.
  induction 1 as [d Hd|d p l Hd Hp Hr IH]; intros l' H'; inversion H'; subst; try done. f_equal. simplify_eq. by apply IH.
Qed.

Lemma route_suffix m d a : forall l x b, route m d l -> l = a ++ x :: b -> route m x (x :: b).
Proof.
  revert d. induction a as [|y a IH]; intros d l x b Hr ->; simpl in Hr.
  - inversion Hr; subst; [by constructor|by eapply route_up].
  - inversion Hr as [|? p l' ? ? Hr']; subst; [by destruct a|]. by eapply IH.
Qed.

Lemma route_cons m d l : route m d l -> exists l', l = d :: l'.
Proof. inversion 1; eauto. Qed.

(** No chain is twice on a route. *)
Lemma route_once m d l a x b c : route m d l -> l = a ++ x :: b ++ x :: c -> False.
Proof.
  intros Hr ->. pose proof (route_suffix _ _ _ _ _ _ Hr eq_refl) as H1. pose proof (route_suffix m x (x :: b) _ x c H1 eq_refl) as H2.
  apply (route_inj _ _ _ H1) in H2. injection H2 as H2. apply (f_equal length) in H2. rewrite length_app in H2. simpl in H2. lia.
Qed.

Lemma route_in_map m d l x : route m d l -> m !! cd_ChainID d = Some d -> keyed m -> x ∈ l -> m !! cd_ChainID x = Some x.
Proof.
  intros Hr Hd Hk. induction Hr as [d Hp|d p l Hp Ep Hr IH]; intros Hx; apply elem_of_cons in Hx as [->|Hx]; try done; [by apply elem_of_nil in Hx|].
  apply IH; [|done]. by rewrite (proj1 (Hk _ _ Ep)).
Qed.

(** ** The way between two chains *)

Lemma slice_get_before {A} (X : list A) x a : slice_get ((X ++ [x]) ++ [a]) (Z.of_nat (length X)) = Ok x.
Proof. apply slice_get_ok; [lia|]. rewrite Nat2Z.id, <- app_assoc. by apply list_lookup_middle. Qed.

Lemma trim_loop_ok X : forall Y a b, cd_ChainID a = cd_ChainID b ->
  exists X' Y' a' b' C C', trim_loop (length X) (length Y) (X ++ [a]) (Y ++ [b]) true = Ok (X' ++ [a'], Y' ++ [b'], true) /\
    X ++ [a] = X' ++ a' :: C /\ Y ++ [b] = Y' ++ b' :: C' /\ cd_ChainID <$> C = cd_ChainID <$> C' /\ cd_ChainID a' = cd_ChainID b' /\
    forall u y d z, X' = u ++ [y] -> Y' = d ++ [z] -> cd_ChainID y <> cd_ChainID z.
Proof.
  induction X as [|x X IH] using rev_ind; intros Y a b Hab.
  { exists [], Y, a, b, [], []. split_and!; try done. intros u. by destruct u. }
  destruct Y as [|y Y _] using rev_ind.
  { exists (X ++ [x]), [], a, b, [], []. split_and!; try done; [by destruct (length (X ++ [x]))|]. intros u y' d z _ E. by destruct d. }
  rewrite !length_app. simpl. rewrite !Nat.add_1_r. cbn [trim_loop]. rewrite !slice_get_before, !outcome_bind_ok. case_bool_decide as E; simpl.
  - rewrite !removelast_last. destruct (IH Y x y E) as (X' & Y' & a' & b' & C & C' & Et & EX & EY & EC & Eab & Hdiff). rewrite Et. exists X', Y', a', b', (C ++ [a]), (C' ++ [b]).
    split_and!; try done; [by rewrite EX, <- app_assoc|by rewrite EY, <- app_assoc|]. rewrite !fmap_app, EC. simpl. by rewrite Hab.
  - exists (X ++ [x]), (Y ++ [y]), a, b, [], []. split_and!; try done. intros u y' d z Eu Ed. apply app_inj_tail in Eu as [_ <-]. apply app_inj_tail in Ed as [_ <-]. done.
Qed.

Lemma ids_equal m ls ld : keyed m -> Forall (fun x => m !! cd_ChainID x = Some x) ls -> Forall (fun x => m !! cd_ChainID x = Some x) ld -> cd_ChainID <$> ls = cd_ChainID <$> ld -> ls = ld.
Proof.
  intros Hk Hs. revert ld. induction Hs as [|x ls Hx Hs IH]; intros [|y ld] Hd E; try done. injection E as Exy E. inversion Hd as [|? ? Hy Hd']; subst. f_equal; [congruence|by apply IH].
Qed.

(** The fork of two routes: the way up, the chain where they meet, and the way down. *)
Definition meet_at (ls ld up down anc : list ChainDescriptor) (lca : ChainDescriptor) : Prop :=
  ls = up ++ lca :: anc /\ ld = down ++ lca :: anc /\ forall x, x ∈ up -> x ∉ down.

Lemma CtxFees_ok m fuel t dest d ls ld root : keyed m -> m !! cd_ChainID t = Some t -> m !! dest = Some d -> route m t ls -> route m d ld -> last ls = Some root -> last ld = Some root ->
  (length ls <= S fuel)%nat -> (length ld <= S fuel)%nat ->
  exists up down anc lca, meet_at ls ld up down anc lca /\
    let way := filter (fun c => cd_Legacy c = false) (up ++ lca :: reverse down) in CtxFees fuel m t dest = Ok (FeeScript <$> way, FeeAmount <$> way).
Proof.
  intros Hk Ht Hd Hrs Hrd Hls Hld Hfs Hfd. apply last_Some in Hls as [X Els], Hld as [Y Eld].
  assert (m !! cd_ChainID d = Some d) as Hdd by (by rewrite (proj1 (Hk _ _ Hd))).
  destruct (trim_loop_ok X Y root root eq_refl) as (up & down & lca & lca' & C & C' & Et & EX & EY & EC & Elca & Hdiff).
  assert (Forall (fun x => m !! cd_ChainID x = Some x) ls) as Hms by (apply Forall_forall; intros x Hx; by apply (route_in_map m t ls)).
  assert (Forall (fun x => m !! cd_ChainID x = Some x) ld) as Hmd by (apply Forall_forall; intros x Hx; by apply (route_in_map m d ld)).
  rewrite <- Els in EX. rewrite <- Eld in EY. rewrite EX, Forall_app, Forall_cons in Hms. rewrite EY, Forall_app, Forall_cons in Hmd. destruct Hms as (Hup & Hl & HC), Hmd as (Hdown & Hl' & HC').
  assert (lca' = lca) as -> by congruence. assert (C' = C) as -> by (symmetry; by eapply ids_equal).
  exists up, down, C, lca. split; [split_and!; [done|done|]|].
  - intros x (u1 & u2 & Eu)%list_elem_of_split (d1 & d2 & Ed)%list_elem_of_split.
    assert (x :: u2 ++ lca :: C = x :: d2 ++ lca :: C) as E.
    { eapply (route_inj m x).
      - eapply (route_suffix m t u1); [exact Hrs|]. by rewrite EX, Eu, <- app_assoc.
      - eapply (route_suffix m d d1); [exact Hrd|]. by rewrite EY, Ed, <- app_assoc. }
    injection E as E. apply app_inv_tail in E as ->. destruct d2 as [|y d2 _] using rev_ind.
    + by apply (Hdiff u1 x d1 x).
    + apply (Hdiff (u1 ++ x :: d2) y (d1 ++ x :: d2) y); [|..|done]; rewrite ?Eu, ?Ed, <- app_assoc; done.
  - cbv zeta. unfold CtxFees. rewrite (to_root_ok _ _ _ Hrs), outcome_bind_ok by lia. rewrite Hd, (to_root_ok _ _ _ Hrd), outcome_bind_ok by lia.
    rewrite Els, Eld. rewrite !length_app. simpl length. rewrite !Nat.add_1_r. cbn [trim_loop].
    rewrite !(slice_get_ok _ _ root) by (lia || (rewrite Nat2Z.id; by apply list_lookup_middle)). rewrite !outcome_bind_ok. rewrite bool_decide_eq_true_2 by done. cbn [andb negb]. cbv beta iota.
    rewrite Et, outcome_bind_ok. rewrite removelast_last, <- app_assoc. done.
Qed.

(** ** Chains on the way *)

Lemma decendant_loop_ok m t d l : route m d (d :: l) -> cd_ChainID t <> 0 -> keyed m -> forall fuel, (length l <= fuel)%nat ->
  exists d', decendant_loop fuel m t d = Ok d' /\ (cd_Parent d' = cd_ChainID t <-> cd_ChainID t ∈ cd_ChainID <$> l).
Proof.
  intros Hr Ht Hk. revert d Hr. induction l as [|x l IH]; intros d Hr fuel Hf; inversion Hr as [? Hp|? p ? Hp Ep Hr']; subst.
  - exists d. split; [destruct fuel; cbn [decendant_loop]; by rewrite decide_False by (intros []; lia)|]. split; [lia|]. by intros ?%elem_of_nil.
  - inversion Hr'.
  - assert (p = x) as -> by (by destruct (route_cons _ _ _ Hr') as [? [= ->]]). pose proof (proj1 (Hk _ _ Ep)) as Eid. destruct fuel as [|fuel]; [simpl in Hf; lia|]. cbn [decendant_loop].
    destruct (decide (cd_Parent d = cd_ChainID t)) as [E|E].
    + exists d. rewrite decide_False by tauto. split; [done|]. split; [intros _|done]. rewrite fmap_cons, <- E, <- Eid. by left.
    + rewrite decide_True by done. unfold chain_at. rewrite Ep, outcome_bind_ok. destruct (IH x Hr' fuel ltac:(simpl in Hf; lia)) as (d' & -> & Hd'). exists d'. split; [done|].
      rewrite Hd', fmap_cons, elem_of_cons, Eid. split; [by right|]. intros [?|?]; [congruence|done].
Qed.

Lemma Decendant_ok m t cid d l fuel : m !! cid = Some d -> route m d (d :: l) -> cd_ChainID t <> 0 -> keyed m -> cd_ChainID t <> cid -> (length l <= fuel)%nat ->
  Decendant fuel m t cid = Ok (bool_decide (cd_ChainID t ∈ cd_ChainID <$> l)).
Proof.
  intros Hd Hr Ht Hk Hne Hf. unfold Decendant. rewrite Hd, decide_False by done. destruct (decendant_loop_ok m t d l Hr Ht Hk fuel Hf) as (d' & -> & Hd'). rewrite outcome_bind_ok.
  f_equal. by apply bool_decide_ext.
Qed.

Lemma child_below_ok m tid u : forall d p t r fuel, keyed m -> m !! cd_ChainID d = Some d -> route m d (u ++ p :: t :: r) -> cd_ChainID t = tid -> (length u <= fuel)%nat -> (forall x, x ∈ u -> cd_Parent x <> tid) ->
  child_below fuel m tid (cd_ChainID d) = Ok (cd_ChainID p).
Proof.
  induction u as [|x u IH]; intros d p t r fuel Hk Hd Hr Ht Hf Hu.
  - simpl in Hr. inversion Hr as [|? q ? Hp Ep Hr']; subst. destruct (route_cons _ _ _ Hr') as [? [= -> _]]. pose proof (proj1 (Hk _ _ Ep)) as E.
    destruct fuel; cbn [child_below]; unfold chain_at; rewrite Hd, outcome_bind_ok, decide_True by congruence; done.
  - simpl in Hr. inversion Hr as [? ?|? q ? Hp Ep Hr']; subst; [by destruct u|]. destruct fuel as [|fuel]; [simpl in Hf; lia|]. cbn [child_below]. unfold chain_at. rewrite Hd, outcome_bind_ok.
    rewrite decide_False by (apply Hu; by left). pose proof (proj1 (Hk _ _ Ep)) as E. rewrite <- E. apply (IH q p t r); try done; [by rewrite E|simpl in Hf; lia|]. intros y Hy. apply Hu. by right.
Qed.

(** Above the first chain below [t], nothing on the way has [t] as its parent. *)
Lemma parents_before m d u p t r x : keyed m -> m !! cd_ChainID t = Some t -> route m d (u ++ p :: t :: r) -> x ∈ u -> cd_Parent x <> cd_ChainID t.
Proof.
  intros Hk Ht Hr (u1 & u2 & ->)%list_elem_of_split E. rewrite <- app_assoc in Hr. simpl in Hr. pose proof (route_suffix _ _ _ _ _ _ Hr eq_refl) as H1. inversion H1 as [? Ez|? q ? Hp Ep Hr']; subst.
  - by destruct u2.
  - rewrite E, Ht in Ep. injection Ep as <-. destruct (route_cons _ _ _ Hr') as [l' El]. destruct u2 as [|y u2]; simpl in El; injection El as -> El.
    + eapply (route_once m t (t :: t :: r) [] t []); [exact Hr'|done].
    + eapply (route_once m t (t :: u2 ++ p :: t :: r) [] t (u2 ++ [p])); [exact Hr'|]. simpl. by rewrite <- app_assoc.
Qed.

Lemma id_elem (m : chains) t l : m !! cd_ChainID t = Some t -> Forall (fun x => m !! cd_ChainID x = Some x) l -> cd_ChainID t ∈ cd_ChainID <$> l <-> t ∈ l.
Proof.
  intros Ht Hl. split.
  - intros (x & E & Hx)%list_elem_of_fmap. rewrite Forall_forall in Hl. specialize (Hl x Hx). rewrite <- E, Ht in Hl. by injection Hl as ->.
  - intros Hx. by apply list_elem_of_fmap_2.
Qed.

(** The chain below [t] on a route through it. *)
Lemma below_on_route m fuel d a p t b : keyed m -> m !! cd_ChainID d = Some d -> m !! cd_ChainID t = Some t -> route m d (a ++ p :: t :: b) -> (length (a ++ p :: t :: b) <= S fuel)%nat ->
  child_below fuel m (cd_ChainID t) (cd_ChainID d) = Ok (cd_ChainID p).
Proof.
  intros Hk Hd Ht Hr Hf. apply (child_below_ok m _ a d p t b); try done; [rewrite length_app in Hf; simpl in Hf; lia|]. intros x Hx. by eapply parents_before.
Qed.

Section PassThru.
Context (m : chains) (fuel : nat) (s d t : ChainDescriptor) (ls ld up down anc : list ChainDescriptor) (lca : ChainDescriptor).
Context (Hk : keyed m) (Hs : m !! cd_ChainID s = Some s) (Hd : m !! cd_ChainID d = Some d) (Ht : m !! cd_ChainID t = Some t) (Hrs : route m s ls) (Hrd : route m d ld).
Context (Hmeet : meet_at ls ld up down anc lca) (Hfs : (length ls <= S fuel)%nat) (Hfd : (length ld <= S fuel)%nat).

Lemma above_meeting : t ∈ lca :: anc -> t <> s -> t <> d ->
  exists p q, child_below fuel m (cd_ChainID t) (cd_ChainID s) = Ok (cd_ChainID p) /\ child_below fuel m (cd_ChainID t) (cd_ChainID d) = Ok (cd_ChainID q) /\ (cd_ChainID p = cd_ChainID q <-> t <> lca).
Proof.
  intros Hin Hns Hnd. destruct Hmeet as (Els & Eld & Hdis). destruct (route_cons _ _ _ Hrs) as [ls' Es], (route_cons _ _ _ Hrd) as [ld' Ed].
  assert (forall x, x ∈ ls -> m !! cd_ChainID x = Some x) as Hms by (intros x; by apply (route_in_map m s ls)).
  assert (forall x, x ∈ ld -> m !! cd_ChainID x = Some x) as Hmd by (intros x; by apply (route_in_map m d ld)).
  apply elem_of_cons in Hin as [->|Hin].
  - destruct up as [|p u _] using rev_ind; [simpl in Els; rewrite Es in Els; injection Els; congruence|]. destruct down as [|q w _] using rev_ind; [simpl in Eld; rewrite Ed in Eld; injection Eld; congruence|].
    rewrite <- app_assoc in Els, Eld. simpl in Els, Eld. exists p, q. split_and!.
    + apply (below_on_route m fuel s u p lca anc); try done; by rewrite <- Els.
    + apply (below_on_route m fuel d w q lca anc); try done; by rewrite <- Eld.
    + split; [|done]. intros E. exfalso. apply (Hdis p); [apply elem_of_app; right; by left|]. assert (p = q) as ->; [|apply elem_of_app; right; by left].
      assert (m !! cd_ChainID p = Some p) as Hp by (apply Hms; rewrite Els; apply elem_of_app; right; by left).
      assert (m !! cd_ChainID q = Some q) as Hq by (apply Hmd; rewrite Eld; apply elem_of_app; right; by left). congruence.
  - assert (t <> lca) as Hne. { intros ->. apply list_elem_of_split in Hin as (a1 & a2 & ->). by eapply (route_once m s ls up lca a1 a2). }
    apply list_elem_of_split in Hin as (a1 & a2 & Ea). assert (exists b p, lca :: a1 = b ++ [p]) as (b & p & Eb) by (destruct (exists_last (l := lca :: a1)) as (b & p & E); [done|by exists b, p]).
    assert (forall w l, l = w ++ lca :: anc -> l = (w ++ b) ++ p :: t :: a2) as Hl.
    { intros w l ->. rewrite Ea, <- app_assoc. f_equal. change (lca :: a1 ++ t :: a2) with ((lca :: a1) ++ t :: a2). by rewrite Eb, <- app_assoc. }
    exists p, p. split_and!; [| |done].
    + apply (below_on_route m fuel s (up ++ b) p t a2); try done; by rewrite <- (Hl up ls Els).
    + apply (below_on_route m fuel d (down ++ b) p t a2); try done; by rewrite <- (Hl down ld Eld).
Qed.

Lemma PassThru_ok : PassThru fuel m (cd_ChainID t) (cd_ChainID s) (cd_ChainID d) = Ok (bool_decide (cd_ChainID t ∈ cd_ChainID <$> (up ++ lca :: down))).
Proof.
  destruct Hmeet as (Els & Eld & Hdis). destruct (route_cons _ _ _ Hrs) as [ls' Es], (route_cons _ _ _ Hrd) as [ld' Ed].
  assert (Forall (fun x => m !! cd_ChainID x = Some x) ls) as Hms by (apply Forall_forall; intros x; by apply (route_in_map m s ls)).
  assert (Forall (fun x => m !! cd_ChainID x = Some x) ld) as Hmd by (apply Forall_forall; intros x; by apply (route_in_map m d ld)).
  assert (Forall (fun x => m !! cd_ChainID x = Some x) (up ++ lca :: down)) as Hmw.
  { rewrite Els, Forall_app, Forall_cons in Hms. rewrite Eld, Forall_app, Forall_cons in Hmd. apply Forall_app. rewrite Forall_cons. tauto. }
  rewrite (bool_decide_ext _ (t ∈ up ++ lca :: down)) by (by eapply id_elem). unfold PassThru. rewrite Ht.
  destruct (decide (cd_ChainID t = cd_ChainID s \/ cd_ChainID t = cd_ChainID d)) as [E|E].
  { rewrite bool_decide_eq_true_2; [done|]. destruct E as [E|E]; rewrite E in Ht.
    - assert (t = s) as -> by congruence. destruct up as [|x u]; simpl in Els; rewrite Es in Els; injection Els as -> _; by left.
    - assert (t = d) as -> by congruence. apply elem_of_app. right. destruct down as [|x u]; simpl in Eld; rewrite Ed in Eld; injection Eld as -> _; [by left|right; by left]. }
  assert (t <> s /\ t <> d) as [Hns Hnd] by (split; intros ->; tauto).
  assert (t ∈ ls' <-> t ∈ ls) as Hls by (rewrite Es, elem_of_cons; tauto). assert (t ∈ ld' <-> t ∈ ld) as Hld by (rewrite Ed, elem_of_cons; tauto).
  pose proof Hrs as Hrs'. rewrite Es in Hrs'. pose proof Hrd as Hrd'. rewrite Ed in Hrd'. pose proof (proj2 (Hk _ _ Ht)) as Hz.
  assert (length ls' <= fuel)%nat as Hfs' by (rewrite Es in Hfs; simpl in Hfs; lia). assert (length ld' <= fuel)%nat as Hfd' by (rewrite Ed in Hfd; simpl in Hfd; lia).
  rewrite (Decendant_ok m t _ s ls' fuel Hs Hrs' Hz Hk) by (tauto || lia). rewrite (Decendant_ok m t _ d ld' fuel Hd Hrd' Hz Hk) by (tauto || lia). rewrite !outcome_bind_ok.
  rewrite (bool_decide_ext (cd_ChainID t ∈ cd_ChainID <$> ls') (t ∈ ls)) by (rewrite <- Hls; eapply id_elem; [done|]; rewrite Es in Hms; by inversion Hms).
  rewrite (bool_decide_ext (cd_ChainID t ∈ cd_ChainID <$> ld') (t ∈ ld)) by (rewrite <- Hld; eapply id_elem; [done|]; rewrite Ed in Hmd; by inversion Hmd).
  destruct (decide (t ∈ ls)) as [H1|H1], (decide (t ∈ ld)) as [H2|H2]; rewrite ?(bool_decide_eq_true_2 (t ∈ ls)), ?(bool_decide_eq_true_2 (t ∈ ld)), ?(bool_decide_eq_false_2 (t ∈ ls)), ?(bool_decide_eq_false_2 (t ∈ ld)) by done; simpl.
  - assert (t ∈ lca :: anc) as Hin.
    { rewrite Els, elem_of_app in H1. destruct H1 as [H1|H1]; [|done]. rewrite Eld, elem_of_app in H2. destruct H2 as [H2|H2]; [by destruct (Hdis t)|done]. }
    destruct (above_meeting Hin Hns Hnd) as (p & q & -> & -> & Hpq). rewrite !outcome_bind_ok. f_equal. destruct (decide (t = lca)) as [->|Hne].
    + rewrite (bool_decide_eq_false_2 (_ = _)) by tauto. rewrite bool_decide_eq_true_2; [done|]. apply elem_of_app. right. by left.
    + rewrite (bool_decide_eq_true_2 (_ = _)) by tauto. rewrite bool_decide_eq_false_2; [done|]. apply elem_of_cons in Hin as [?|Hin]; [done|].
      apply list_elem_of_split in Hin as (a1 & a2 & Ea). rewrite elem_of_app, elem_of_cons. intros [Hx|[?|Hx]]; [|done|]; apply list_elem_of_split in Hx as (x1 & x2 & Ex).
      * eapply (route_once m s (s :: ls') x1 t (x2 ++ lca :: a1) a2); [exact Hrs'|]. rewrite <- Es, Els, Ex, Ea. simpl. by rewrite <- !app_assoc.
      * eapply (route_once m d (d :: ld') x1 t (x2 ++ lca :: a1) a2); [exact Hrd'|]. rewrite <- Ed, Eld, Ex, Ea. simpl. by rewrite <- !app_assoc.
  - rewrite bool_decide_eq_true_2; [done|]. rewrite Els, elem_of_app in H1. apply elem_of_app. destruct H1 as [?|H1]; [by left|]. destruct H2. rewrite Eld. apply elem_of_app. by right.
  - rewrite bool_decide_eq_true_2; [done|]. rewrite Eld, elem_of_app in H2. apply elem_of_app. right. destruct H2 as [?|H2]; [by right|]. destruct H1. rewrite Els. apply elem_of_app. by right.
  - rewrite bool_decide_eq_false_2; [done|]. rewrite Els, Eld, !elem_of_app, !elem_of_cons in *. tauto.
Qed.
End PassThru.

(** C25: A token that crosses from one chain to another goes up to the lowest chain above both and then down: the fees are one payment to the miners of each chain on that way, in its
    order, leaving out the chains marked as legacy; and a chain is passed through, in either direction, just when it is on that way. *)
Theorem way_between_chains (m : chains) (fuel : nat) (s d root : ChainDescriptor) (ls ld : list ChainDescriptor)
  (Hk : keyed m) (Hs : m !! cd_ChainID s = Some s) (Hd : m !! cd_ChainID d = Some d) (Hrs : route m s ls) (Hrd : route m d ld)
  (Hls : last ls = Some root) (Hld : last ld = Some root) (Hfuel : (length ls <= S fuel)%nat /\ (length ld <= S fuel)%nat) :
  exists up down anc lca, meet_at ls ld up down anc lca /\
    (let way := filter (fun c => cd_Legacy c = false) (up ++ lca :: reverse down) in CtxFees fuel m s (cd_ChainID d) = Ok (FeeScript <$> way, FeeAmount <$> way)) /\
    forall t, m !! cd_ChainID t = Some t -> PassThru fuel m (cd_ChainID t) (cd_ChainID s) (cd_ChainID d) = Ok (bool_decide (cd_ChainID t ∈ cd_ChainID <$> (up ++ lca :: down))).
Proof.
  destruct Hfuel as [Hfs Hfd]. destruct (CtxFees_ok m fuel s (cd_ChainID d) d ls ld root Hk Hs Hd Hrs Hrd Hls Hld Hfs Hfd) as (up & down & anc & lca & Hmeet & Hfees).
  exists up, down, anc, lca. split_and!; [done|done|]. intros t Ht. by eapply PassThru_ok.
Qed.

Definition toy_chain (id parent : Z) (legacy : bool) : ChainDescriptor := MkChainDesc 0x10000 id false [103; id] [] parent id [id] [] [] 0 [] legacy 21.
(** The root, two chains below it, and a chain below the first of them. *)
Definition toy_chains : chains := {[1 := toy_chain 1 0 false; 2 := toy_chain 2 1 false; 3 := toy_chain 3 1 true; 4 := toy_chain 4 2 false]}.

Lemma way_between_chains_witness :
  CtxFees 5 toy_chains (toy_chain 4 2 false) 3 = Ok (FeeScript <$> [toy_chain 4 2 false; toy_chain 2 1 false; toy_chain 1 0 false], [100000; 100000; 100000]) /\
  exists b, PassThru 5 toy_chains 2 4 3 = Ok b.
Proof.
  split; [vm_compute; reflexivity|].
  destruct (way_between_chains toy_chains 5 (toy_chain 4 2 false) (toy_chain 3 1 true) (toy_chain 1 0 false) [toy_chain 4 2 false; toy_chain 2 1 false; toy_chain 1 0 false] [toy_chain 3 1 true; toy_chain 1 0 false])
    as (up & down & anc & lca & _ & _ & H).
  - intros c d. unfold toy_chains. rewrite !lookup_insert_Some, lookup_singleton_Some. intros [[<- <-]|[_ [[<- <-]|[_ [[<- <-]|[_ [<- <-]]]]]]]; simpl; lia.
  - reflexivity.
  - reflexivity.
  - eapply route_up; [done|reflexivity|]. eapply route_up; [done|reflexivity|]. by apply route_root.
  - eapply route_up; [done|reflexivity|]. by apply route_root.
  - reflexivity.
  - reflexivity.
  - simpl. lia.
  - eexists. exact (H (toy_chain 2 1 false) eq_refl).
Defined.

(** ** Adding chains *)

(** Every chain of the map is below a root. *)
Definition rooted_map (m : chains) : Prop := keyed m /\ forall c d, m !! c = Some d -> exists l, route m d l.

Lemma route_grows m c x d l : m !! c = None -> route m d l -> route (<[c := x]> m) d l.
Proof. intros Hc. induction 1 as [d Hd|d p l Hd Hp Hr IH]; [by constructor|]. eapply route_up; [done| |done]. rewrite lookup_insert_ne; [done|]. intros ->. congruence. Qed.

Lemma AddChain_inv params_ok m c m' : AddChain params_ok m c = Ok (m', true) ->
  fm_ChainMap m !! cd_ChainID c = None /\ fm_ChainMap m' = <[cd_ChainID c := c]> (fm_ChainMap m) /\ (cd_Parent c = 0 -> cd_ChainID c = ROOT).
Proof.
  unfold AddChain. case_decide as H1; [done|]. case_decide; [done|]. destruct (decide (is_Some _)) as [|Hn]; [done|]. destruct (existsb _ _); [done|]. destruct (negb _); [done|].
  intros E. injection E as <-. split_and!; [by apply eq_None_not_Some|done|]. intros Hp. destruct (decide (cd_ChainID c = ROOT)); [done|tauto].
Qed.

(** A chain whose parent is known keeps the map a tree. *)
Theorem add_chain_keeps_tree (params_ok : list Z -> bool) (m m' : FOCMap) (c : ChainDescriptor)
  (Hm : rooted_map (fm_ChainMap m)) (Hid : cd_ChainID c <> 0) (Hpar : cd_Parent c = 0 \/ is_Some (fm_ChainMap m !! cd_Parent c)) (Hadd : AddChain params_ok m c = Ok (m', true)) :
  rooted_map (fm_ChainMap m').
Proof.
  destruct (AddChain_inv _ _ _ _ Hadd) as (Hnew & -> & _). destruct Hm as [Hk Hr]. split.
  - intros i d. destruct (decide (i = cd_ChainID c)) as [->|]; [rewrite lookup_insert_eq; by intros [= <-]|]. rewrite lookup_insert_ne by done. apply Hk.
  - intros i d. destruct (decide (i = cd_ChainID c)) as [->|].
    + rewrite lookup_insert_eq. intros [= <-]. destruct Hpar as [Hp|[p Hp]]; [exists [c]; by constructor|]. destruct (decide (cd_Parent c = 0)) as [|Hz]; [exists [c]; by constructor|].
      destruct (Hr _ _ Hp) as [l Hl]. exists (c :: l). eapply route_up; [done| |by apply route_grows]. rewrite lookup_insert_ne; [done|]. intros E. rewrite <- E, Hnew in Hp. done.
    + rewrite lookup_insert_ne by done. intros Hd. destruct (Hr _ _ Hd) as [l Hl]. exists l. by apply route_grows.
Qed.

(** A chain whose parent is unknown is added all the same, and the fees from it cannot be computed. *)
Theorem unknown_parent_accepted (params_ok : list Z -> bool) (m m' : FOCMap) (c : ChainDescriptor) (fuel : nat) (dest : Z)
  (Hz : cd_Parent c <> 0) (Hself : cd_Parent c <> cd_ChainID c) (Hunknown : fm_ChainMap m !! cd_Parent c = None) (Hadd : AddChain params_ok m c = Ok (m', true)) :
  CtxFees (S fuel) (fm_ChainMap m') c dest = Panic.
Proof.
  destruct (AddChain_inv _ _ _ _ Hadd) as (Hnew & -> & _). unfold CtxFees. cbn [to_root]. rewrite decide_False by done. unfold chain_at. rewrite (lookup_insert_ne _ (cd_ChainID c) (cd_Parent c)) by congruence. by rewrite Hunknown.
Qed.
Lemma unknown_parent_witness : exists m', AddChain (fun _ => true) (MkFOC toy_chains ∅) (toy_chain 6 9 false) = Ok (m', true).
Proof. eexists. vm_compute. reflexivity. Qed.
