(* ===== verification/TxDefs.v ===== *)
(** * The definitions of a transaction

    Models omega/validate/definitions.go and the check of polygons in omega/validate/validate.go:
    that every definition is used, that new borders, polygons and rights are allowed, and what
    the polygons of the inputs tell about the loops of the new ones. *)
From Stdlib Require Import ZArith Lia.
From stdpp Require Import gmap list.
From S2P Require Import Prelude Wire Token MsgTx ViewDb UtxoEntry BorderEntry DefEntry ViewSet PolygonGeom MsgBlock UtxoView.

Open Scope Z_scope.

(** The rules that are broken, as the codes of the errors. *)
Inductive rule_err :=
  | ErrNoTxInputs
  | ErrBadTxInput
  | ErrNoTxOutputs
  | ErrBadTxOutValue
  | ErrDuplicateTxInputs
  | ErrMissingTxOut
  | ErrImmatureSpend
  | ErrSpendTooHigh
  | ErrBlacklist
  | ErrLowFee
  | ErrNotIntegral
  | RightUndefined
  | BadDefinition
  | TooDeep
  | NoPreviousOutPoint
  | NoPolygon.

(** ** Loops *)

Fixpoint xor_hash (a b : list Z) : list Z := match a, b with x :: a, y :: b => Z.lxor x y :: xor_hash a b | _, _ => [] end.
Definition CheckSum (s : loop) : list Z := match s with [h] => h | _ => foldl xor_hash zero_hash s end.
Definition loop_Equal (s t : loop) : bool := bool_decide (s = t).

Definition Cs2Loop : Type := gmap (list Z) (list loop).
Definition cs_Add (s : Cs2Loop) (cs : list Z) (l : loop) : Cs2Loop := <[cs := default [] (s !! cs) ++ [l]]> s.
Definition cs_Match (s : Cs2Loop) (cs : list Z) (l : loop) : bool := match s !! cs with None => false | Some t => existsb (loop_Equal l) t end.

Definition MatchLoop : Type := gmap (list Z) (list (list Z * loop)).
Definition ml_Add (s : MatchLoop) (cs loopcs : list Z) (l : loop) : MatchLoop := <[cs := default [] (s !! cs) ++ [(loopcs, l)]]> s.
Definition ml_Match (s : MatchLoop) (cs1 cs2 : list Z) (l1 l2 : loop) : bool :=
  match s !! cs1, s !! cs2 with
  | Some t1, Some t2 =>
      existsb (fun p => bool_decide (p.1 = cs2) && loop_Equal l2 p.2) t1 && existsb (fun p => bool_decide (p.1 = cs1) && loop_Equal l1 p.2) t2
  | _, _ => false
  end.

(** What the polygons of the inputs tell: loops that turn left, loops that turn right, loops
    inside another, and loops that do not meet. *)
Record known := MkKnown { ccwloops : Cs2Loop; cwloops : Cs2Loop; inloops : MatchLoop; unxloops : MatchLoop }.
Definition nothing_known : known := MkKnown ∅ ∅ ∅ ∅.
Definition add_ccw (k : known) (cs : list Z) (l : loop) : known := MkKnown (cs_Add (ccwloops k) cs l) (cwloops k) (inloops k) (unxloops k).
Definition add_cw (k : known) (cs : list Z) (l : loop) : known := MkKnown (ccwloops k) (cs_Add (cwloops k) cs l) (inloops k) (unxloops k).
Definition add_in (k : known) (cs loopcs : list Z) (l : loop) : known := MkKnown (ccwloops k) (cwloops k) (ml_Add (inloops k) cs loopcs l) (unxloops k).
Definition add_unx (k : known) (cs loopcs : list Z) (l : loop) : known := MkKnown (ccwloops k) (cwloops k) (inloops k) (ml_Add (unxloops k) cs loopcs l).

(** The loop is known to be a good one at place [i] of a polygon. *)
Definition known_loop (k : known) (i : nat) (cs : list Z) (l : loop) : bool := cs_Match (cwloops k) cs l || (bool_decide (i = 0%nat) && cs_Match (ccwloops k) cs l).

(** [for len(plg.Loops[0]) == 1]: the polygon does not change in the loop. *)
Fixpoint first_loops (fuel : nat) (first : loop) (k : known) (ccws : list (list Z)) : vm (option (known * list (list Z))) :=
  match first with
  | [h] =>
      match fuel with
      | O => vnofuel
      | S fuel =>
          plg2 ← FetchPolygonEntry h;
          match plg2 with
          | None => mret None
          | Some plg2 => l ← vlift (slice_get (pe_Loops plg2) 0); let cs := CheckSum l in first_loops fuel first (add_ccw k cs l) (ccws ++ [cs])
          end
      end
  | _ => mret (Some (k, ccws))
  end.
(** The other loops: [seen] are those before, with their sums. *)
Fixpoint other_loops (loops : list loop) (seen : list (list Z * loop)) (ccws : list (list Z)) (k : known) : known :=
  match loops with
  | [] => k
  | l :: loops =>
      let cs := CheckSum l in
      let k := add_cw k cs l in
      let k := fold_left (fun k m => add_in k m cs l) ccws k in
      let k := fold_left (fun k s => add_unx (add_unx k cs s.1 s.2) s.1 cs l) seen k in
      other_loops loops (seen ++ [(cs, l)]) ccws k
  end.
Fixpoint input_facts (fuel : nat) (ins : list TxIn) (k : known) : vm (known + rule_err) :=
  match ins with
  | [] => mret (inl k)
  | d :: ins =>
      if spends_nothing d then input_facts fuel ins k
      else
        v ← vget;
        match u_LookupEntry v (PreviousOutPoint d) with
        | None => mret (inr NoPreviousOutPoint)
        | Some utxo =>
            if negb (bool_decide (ue_TokenType utxo = PolyGonType)) then input_facts fuel ins k
            else
              h ← vlift (hash_value (ue_Amount utxo));
              plg ← FetchPolygonEntry h;
              match plg with
              | None => mret (inr NoPolygon)
              | Some plg =>
                  first ← vlift (slice_get (pe_Loops plg) 0);
                  let cs := CheckSum first in
                  r ← first_loops fuel first (add_ccw k cs first) [cs];
                  match r with
                  | None => mret (inr NoPolygon)
                  | Some (k, ccws) => input_facts fuel ins (other_loops (tail (pe_Loops plg)) [] ccws k)
                  end
              end
        end
  end.

(** ** Sane polygons *)

Fixpoint commonEdge (fuel : nat) (p q : loop) : vm bool :=
  match fuel with
  | O => vnofuel
  | S fuel =>
      ploops ← loops_of p;
      qloops ← loops_of q;
      if decide (1 < length ploops \/ 1 < length qloops)%nat then
        pboxes ← (fix go ls := match ls with [] => mret [] | l :: ls => b ← LoopBound l; bs ← go ls; mret (b :: bs) end) ploops;
        qboxes ← (fix go ls := match ls with [] => mret [] | l :: ls => b ← LoopBound l; bs ← go ls; mret (b :: bs) end) qloops;
        r ← vfor (zip ploops pboxes) (fun p => vfor (zip qloops qboxes) (fun q =>
          if negb (box_Intersects p.2 q.2 false) then mret None else t ← commonEdge fuel p.1 q.1; mret (if t : bool then Some tt else None)));
        mret (bool_decide (r = Some tt))
      else CommonEdge fuel p q
  end.

(** A method of a box that is nil panics. *)
Definition with_boxes {A} (a b : option BoundingBox) (f : BoundingBox -> BoundingBox -> vm A) : vm A := a ← vnonnil a; b ← vnonnil b; f a b.

Section Sane.
Context (HashH : list Z -> list Z) (fuel : nat) (k : known).

Fixpoint depths_ok (loops : list loop) : vm bool :=
  match loops with
  | [] => mret true
  | [h] :: loops => d ← polygon_of h; if decide (100 <= pe_Depth d) then mret false else depths_ok loops
  | _ :: loops => depths_ok loops
  end.

(** The first loop over the loops: their boxes, nil for the known ones, and whether the first
    one turns right; [None] is an error. *)
Fixpoint orient (i : nat) (loops : list loop) (firstCW : bool) : vm (option (list (option BoundingBox) * bool)) :=
  match loops with
  | [] => mret (Some ([], firstCW))
  | lp :: loops =>
      r ← (if known_loop k i (CheckSum lp) lp then mret (Some (None, firstCW))
           else match lp with
                | [h] =>
                    plg ← FetchPolygonEntry h;
                    mret (match plg with
                          | None => None
                          | Some plg => if decide (i = 0%nat) then Some (Some (pe_Bound plg), pe_FirstCW plg)
                                        else if pe_FirstCW plg then Some (Some (pe_Bound plg), firstCW) else None
                          end)
                | _ =>
                    closed ← IsLoop lp;
                    if negb closed then mret None
                    else '(ccw, box) ← LoopCCW fuel lp;
                         mret (if decide (i = 0%nat) then Some (Some box, negb ccw) else if ccw : bool then None else Some (Some box, firstCW))
                end);
      match r with
      | None => mret None
      | Some (box, firstCW) =>
          r ← orient (S i) loops firstCW;
          mret (match r with None => None | Some (boxes, firstCW) => Some (box :: boxes, firstCW) end)
      end
  end.

(** Whether the body of a loop finds a fault at one of the places. *)
Definition any_at {A} (places : list A) (bad : A -> vm bool) : vm bool :=
  r ← vfor places (fun a => t ← bad a; mret (if t : bool then Some tt else None)); mret (bool_decide (r = Some tt)).
(** [for i := start; i < n; i++] with [for j := start; j < i; j++] inside *)
Definition pairs (start n : nat) : list (nat * nat) := seq start (n - start) ≫= (fun i => (fun j => (i, j)) <$> seq start (i - start)).

(** What the four checks look at: the loops, their sums, which are known, and their boxes. *)
Section Checks.
Context (loops : list loop) (boxes : list (option BoundingBox)).
Definition lp (i : nat) : loop := default [] (loops !! i).
Definition cs (i : nat) : list Z := CheckSum (lp i).
Definition safe (i : nat) : bool := known_loop k i (cs i) (lp i).
Definition box (i : nat) : option BoundingBox := mjoin (boxes !! i).

(** Two loops with a common edge. *)
Definition shares_edge (ij : nat * nat) : vm bool :=
  let '(i, j) := ij in
  if safe i && safe j then mret false
  else with_boxes (box i) (box j) (fun a b => if negb (box_Intersects a b false) then mret false else commonEdge fuel (lp i) (lp j)).
(** A loop that is not inside the first one. *)
Definition not_inside (i : nat) : vm bool :=
  if ml_Match (inloops k) (cs 0) (cs i) (lp 0) (lp i) then mret false
  else with_boxes (box 0) (box i) (fun a b =>
    if negb (Contain a b) then mret true
    else cross ← Intersects HashH fuel false (lp 0) (lp i) (Some a) (Some b) false;
         if cross : bool then mret true else inside ← InOutCheck fuel (lp 0) (lp i) (Some b); mret (negb inside)).
(** A loop that meets itself. *)
Definition meets_itself (i : nat) : vm bool :=
  if decide (length (lp i) = 1%nat) then mret false
  else if safe i then mret false
  else Intersects HashH fuel true (lp i) (lp i) (box i) (box i) true.
(** Two loops that meet, or one inside the other. *)
Definition meet_or_nest (ij : nat * nat) : vm bool :=
  let '(i, j) := ij in
  if ml_Match (unxloops k) (cs i) (cs j) (lp i) (lp j) then mret false
  else with_boxes (box i) (box j) (fun a b =>
    if negb (box_Intersects a b false) then mret false
    else
      let '(major, minor, b1, b2) := if safe i then (lp i, lp j, a, b) else (lp j, lp i, b, a) in
      cross ← Intersects HashH fuel false major minor (Some b1) (Some b2) false;
      if cross : bool then mret true
      else if Contain b1 b2 then InOutCheck fuel major minor (Some b2) else mret false).
End Checks.

Definition sanePolygon (loops : list loop) : vm (option rule_err) :=
  ok ← depths_ok loops;
  if negb ok then mret (Some TooDeep)
  else
    let n := length loops in
    r ← orient 0 loops false;
    match r with
    | None => mret (Some BadDefinition)
    | Some (boxes, firstCW) =>
        let start := if firstCW : bool then 0%nat else 1%nat in
        bad ← any_at (pairs 0 n) (shares_edge loops boxes);
        if bad : bool then mret (Some BadDefinition)
        else
        bad ← (if firstCW then mret false else any_at (seq 1 (n - 1)) (not_inside loops boxes));
        if bad : bool then mret (Some BadDefinition)
        else
        bad ← any_at (seq 0 n) (meets_itself loops boxes);
        if bad : bool then mret (Some BadDefinition)
        else
        bad ← any_at (pairs start n) (meet_or_nest loops boxes);
        mret (if bad : bool then Some BadDefinition else None)
    end.
End Sane.

(** ** Every definition is used *)

Section Scan.
Context (HashH : list Z -> list Z).

Definition in_polygons (h : list Z) (defs : list definition) : bool :=
  existsb (fun b => match b with DPolygon _ loops => existsb (existsb (fun l => IsEqual l h)) loops | _ => false end) defs.
(** A polygon that an output pays; an output of a hash that has none panics. *)
Fixpoint in_outputs (h : list Z) (outs : list TxOut) : outcome bool :=
  match outs with
  | [] => Ok false
  | to :: outs =>
      if out_IsSeparator to || (negb (bool_decide (TokenType (to_Token to) = PolyGonType)) && negb (bool_decide (TokenType (to_Token to) = 1))) then in_outputs h outs
      else n ← hash_value (Value (to_Token to)); if IsEqual n h then Ok true else in_outputs h outs
  end.
(** A polygon that a later one has as a loop. *)
Definition as_loop (h : list Z) (later : list definition) : bool :=
  existsb (fun q => match q with DPolygon _ loops => existsb (fun l => match l with [x] => IsEqual x h | _ => false end) loops | _ => false end) later.
Definition in_rights (h : list Z) (defs : list definition) : bool :=
  existsb (fun b => match b with DRightSet _ rights _ => existsb (IsEqual h) rights | DRight _ father _ _ => IsEqual h father | _ => false end) defs.
Definition right_paid (h : list Z) (outs : list TxOut) : bool :=
  existsb (fun to => negb (out_IsSeparator to) && HasRight (to_Token to) && match Rights (to_Token to) with Some r => IsEqual r h | None => false end) outs.

(** [rest] are the definitions from the current one on. *)
Fixpoint scan_defs (all : list definition) (outs : list TxOut) (rest : list definition) (newrights newrightsets : gmap (list Z) definition)
    : outcome (option rule_err * gmap (list Z) definition * gmap (list Z) definition) :=
  match rest with
  | [] => Ok (None, newrights, newrightsets)
  | def :: rest =>
      let bad := Ok (Some BadDefinition, ∅, ∅) in
      match def with
      | DBorder _ father _ _ =>
          if negb (IsEqual father zero_hash) then scan_defs all outs rest newrights newrightsets
          else h ← def_hash HashH def; if in_polygons h all then scan_defs all outs rest newrights newrightsets else bad
      | DPolygon _ _ =>
          h ← def_hash HashH def;
          paid ← in_outputs h outs;
          if paid || as_loop h rest then scan_defs all outs rest newrights newrightsets else bad
      | DRight _ _ _ _ =>
          h ← def_hash HashH def;
          if decide (is_Some (newrights !! h)) then bad
          else if in_rights h all || right_paid h outs then scan_defs all outs rest (<[h := def]> newrights) newrightsets else bad
      | DRightSet _ _ _ =>
          h ← def_hash HashH def;
          if decide (is_Some (newrightsets !! h)) then bad
          else if right_paid h outs then scan_defs all outs rest newrights (<[h := def]> newrightsets) else bad
      | _ => scan_defs all outs rest newrights newrightsets
      end
  end.
Definition ScanDefinitions (tx : MsgTx) := scan_defs (TxDef tx) (TxOuts tx) (TxDef tx) ∅ ∅.
Definition CheckDefinitions (tx : MsgTx) : outcome (option rule_err) := '(e, _, _) ← ScanDefinitions tx; Ok e.
End Scan.

(** ** New borders, polygons and rights *)

Definition abs64 (x : Z) : Z := if decide (x < 0) then i64 (- x) else x.

(** [online]: a point on the segment, beyond [delim]. *)
Definition online (r begin end_ : VertexDef) (delim : option VertexDef) : bool :=
  let d (a b : Z) := i64 (a - b) in
  let dot (p : VertexDef) := i64 (i64 (d (lng p) (lng begin) * d (lng end_) (lng begin)) + i64 (d (lat p) (lat begin) * d (lat end_) (lat begin))) in
  let ln := i64 (i64 (d (lng end_) (lng begin) * d (lng end_) (lng begin)) + i64 (d (lat end_) (lat begin) * d (lat end_) (lat begin))) in
  let t := dot r in
  if decide (t < 0 \/ ln < t) then false
  else
    let dd := i64 (i64 (d (lng r) (lng begin) * d (lat end_) (lat begin)) - i64 (d (lat r) (lat begin) * d (lng end_) (lng begin))) in
    let mn1 := abs64 (d (lat end_) (lat begin)) in
    let mn2 := abs64 (d (lng end_) (lng begin)) in
    let mn := Z.quot (if decide (mn2 < mn1) then mn2 else mn1) 2 in
    if decide (mn < dd) then false
    else match delim with None => true | Some delim => negb (bool_decide (t <= dot delim)) end.

(** How often the borders of [as_] are in a polygon. *)
Fixpoint appeared (fuel : nat) (p : list Z) (as_ : gset (list Z)) : vm Z :=
  match fuel with
  | O => vnofuel
  | S fuel =>
      plg ← polygon_of p;
      (fix go (loops : list loop) (sum : Z) : vm Z :=
         match loops with
         | [] => mret sum
         | [h] :: loops => n ← appeared fuel h as_; go loops (i32 (sum + n))
         | l :: loops => go loops (i32 (sum + Z.of_nat (length (filter (fun bd => unsigned bd ∈ as_) l))))
         end) (pe_Loops plg) 0
  end.

Record pending := MkPending { pendBdr : gmap (list Z) (list definition); redefbl : gset (list Z); defdef : gset (list Z) }.

(** The fathers of a border: at most a hundred. *)
Fixpoint fathers_ok (n : nat) (f : list Z) : vm bool :=
  if IsEqual f zero_hash then mret true
  else match n with O => mret false | S n => ft ← FetchBorderEntry f; ft ← vnonnil ft; fathers_ok n (be_Father ft) end.

Fixpoint rights_known (hs : list (list Z)) (defs : gset (list Z)) : vm bool :=
  match hs with
  | [] => mret true
  | r :: hs => if decide (r ∈ defs) then rights_known hs defs else ft ← FetchRightEntry r; match ft with None => mret false | Some _ => rights_known hs defs end
  end.
(** A father that can be split. *)
Definition splittable (f : list Z) : vm bool :=
  ft ← FetchRightEntry f; match ft with None => mret false | Some ft => e ← the_right ft; mret (bool_decide (Z.land (re_Attrib e) Unsplittable = 0)) end.

Section Inputs.
Context (HashH : list Z -> list Z) (fuel : nat).

Definition check_polygon (outs : list TxOut) (k : known) (h : list Z) (d : definition) (loops : list loop) : vm (option rule_err) :=
  ft ← FetchPolygonEntry h;
  match ft with
  | Some _ => mret (Some BadDefinition)
  | None =>
      e ← sanePolygon HashH fuel k loops;
      match e with
      | Some e => mret (Some e)
      | None =>
          ccw ← vlift (paid_out h outs);
          '(rcw, bx) ← PolygonInfo fuel loops;
          if negb (bool_decide (rcw = ccw)) then mret (Some BadDefinition) else _ ← addPolygon HashH d ccw bx; mret None
      end
  end.
Definition check_border (h : list Z) (d : definition) (f : list Z) (p : pending) : vm (pending + rule_err) :=
  ft ← FetchBorderEntry h;
  match ft with
  | Some _ => mret (inr BadDefinition)
  | None =>
      let redef := if decide (f ∈ redefbl p) then {[h]} ∪ redefbl p else redefbl p in
      r ← (if IsEqual f zero_hash then mret (inl (pendBdr p))
           else
             ft ← FetchBorderEntry f;
             match ft with
             | None => mret (inr BadDefinition)
             | Some _ => ok ← fathers_ok 100 f; mret (if ok : bool then inl (<[f := default [] (pendBdr p !! f) ++ [d]]> (pendBdr p)) else inr TooDeep)
             end);
      match r with
      | inr e => mret (inr e)
      | inl pend => ok ← addBorder HashH fuel d; mret (if ok : bool then inl (MkPending pend redef (defdef p)) else inr BadDefinition)
      end
  end.
Definition check_right (h : list Z) (d : definition) (p : pending) : vm (pending + rule_err) :=
  ft ← FetchRightEntry h;
  match ft with
  | Some _ => mret (inr BadDefinition)
  | None =>
      ok ← (match d with
            | DRight _ f _ _ => if IsEqual f zero_hash then mret true else if decide (f ∈ defdef p) then mret true else splittable f
            | DRightSet _ rights _ => rights_known rights (defdef p)
            | _ => mret true
            end);
      mret (if ok : bool then inl (MkPending (pendBdr p) (redefbl p) ({[h]} ∪ defdef p)) else inr BadDefinition)
  end.

Fixpoint check_defs (outs : list TxOut) (k : known) (defs : list definition) (p : pending) : vm (pending + rule_err) :=
  match defs with
  | [] => mret (inl p)
  | d :: defs =>
      if def_IsSeparator d then check_defs outs k defs p
      else
        h ← vlift (def_hash HashH d);
        r ← (match d with
             | DPolygon _ loops => e ← check_polygon outs k h d loops; mret (match e with Some e => inr e | None => inl p end)
             | DBorder _ f _ _ => check_border h d f p
             | DRight _ _ _ _ | DRightSet _ _ _ => check_right h d p
             | _ => mret (inl p)
             end);
        match r with inr e => mret (inr e) | inl p => check_defs outs k defs p end
  end.

(** The children of a border, one behind the other from [v] on: the hashes so far, and
    where they end, or nothing when there is a gap. *)
Fixpoint link_children (pend : list definition) (v : VertexDef) (hs : list (list Z)) : outcome (list (list Z) * option VertexDef) :=
  match pend with
  | DBorder _ _ b e as r :: pend =>
      if negb (vertex_IsEqual v b) then Ok (hs, None) else h ← def_hash HashH r; link_children pend e (hs ++ [h])
  | _ :: pend => link_children pend v hs
  | [] => Ok (hs, Some v)
  end.
Fixpoint all_online (pend : list definition) (b e : VertexDef) (delim : option VertexDef) : bool :=
  match pend with
  | DBorder _ _ r _ :: pend => online r b e delim && all_online pend b e (Some r)
  | _ :: pend => all_online pend b e delim
  | [] => true
  end.

Fixpoint sum_refs (as_ : list (list Z)) (sum : Z) : vm Z :=
  match as_ with
  | [] => mret sum
  | a :: as_ => v ← vget; e ← vnonnil (b_LookupEntry v a); sum_refs as_ (i32 (sum + be_RefCnt e))
  end.
(** The sum of the references has to be zero behind every polygon of the inputs. *)
Fixpoint sum_inputs (ins : list TxIn) (as_ : gset (list Z)) (sum : Z) : vm bool :=
  match ins with
  | [] => mret true
  | i :: ins =>
      if spends_nothing i then sum_inputs ins as_ sum
      else
        v ← vget;
        utxo ← vnonnil (u_LookupEntry v (PreviousOutPoint i));
        if negb (bool_decide (ue_TokenType utxo = PolyGonType)) then sum_inputs ins as_ sum
        else
          h ← vlift (hash_value (ue_Amount utxo));
          n ← appeared fuel h as_;
          let sum := i32 (sum - n) in
          if decide (sum = 0) then sum_inputs ins as_ sum else mret false
  end.

Definition check_pending (tx : MsgTx) (redef : gset (list Z)) (fp : list Z * list definition) : vm (option rule_err) :=
  let '(f, pend) := fp in
  fb ← FetchBorderEntry f;
  fb ← vnonnil fb;
  '(hs, end_) ← vlift (link_children pend (be_Begin fb) []);
  match end_ with
  | None => _ ← put_border (unsigned f) (be_set_children fb hs (be_newchildren fb)); mret (Some BadDefinition)
  | Some v =>
      if negb (vertex_IsEqual v (be_End fb)) then _ ← put_border (unsigned f) (be_set_children fb [] (be_newchildren fb)); mret (Some BadDefinition)
      else
        let fb := be_set_flags (be_set_children fb hs (be_newchildren fb)) (Z.lor (be_PackedFlags fb) TfModified) in
        _ ← put_border (unsigned f) fb;
        if decide (f ∈ redef) then mret None
        else if all_online (tail pend) (be_Begin fb) (be_End fb) None || bool_decide (be_RefCnt fb = 0) then mret None
        else
          as_ ← Anciesters fuel fb;
          let as_ : gset (list Z) := {[f]} ∪ list_to_set as_ in
          sum ← sum_refs (elements as_) 0;
          ok ← (if tx_IsCrossChain tx then mret true else sum_inputs (TxIns tx) as_ sum);
          mret (if ok : bool then None else Some BadDefinition)
  end.

(** [CheckTransactionInputs] of the package validate. *)
Definition def_CheckTransactionInputs (tx : MsgTx) : vm (option rule_err) :=
  if IsBtcL2 tx then mret None
  else
    k ← (if tx_IsCrossChain tx then mret (inl nothing_known) else input_facts fuel (TxIns tx) nothing_known);
    match k with
    | inr e => mret (Some e)
    | inl k =>
        r ← check_defs (TxOuts tx) k (TxDef tx) (MkPending ∅ {[zero_hash]} ∅);
        match r with
        | inr e => mret (Some e)
        | inl p => vfor (map_to_list (pendBdr p)) (check_pending tx (redefbl p))
        end
    end.

(** The definitions that a contract has added. *)
Fixpoint check_added (defs : list definition) (additional : bool) : vm (option rule_err) :=
  match defs with
  | [] => mret None
  | d :: defs =>
      if def_IsSeparator d then check_added defs true
      else if negb additional then check_added defs additional
      else
        h ← vlift (def_hash HashH d);
        ok ← (match d with
              | DRight _ f _ _ =>
                  ft ← FetchRightEntry h;
                  match ft with Some _ => mret false | None => if IsEqual f zero_hash then mret true else splittable f end
              | DRightSet _ rights _ => ft ← FetchRightEntry h; match ft with Some _ => mret false | None => rights_known rights ∅ end
              | _ => mret true
              end);
        if ok : bool then check_added defs additional else mret (Some BadDefinition)
  end.
Definition CheckTransactionAdditionalInputs (tx : MsgTx) : vm (option rule_err) := check_added (TxDef tx) false.
End Inputs.
