(* ===== verification/TxCheck.v ===== *)
(** * The checks of transactions

    Models the checks of one transaction in btcd/blockchain/validate.go and chain.go: the
    sanity of its amounts and inputs, the inputs against the view, the blacklist, the
    tokens of a hash, the fees, the lock times and the relative locks. *)
From Stdlib Require Import ZArith Lia.
From stdpp Require Import gmap list.
From S2P Require Import Prelude Wire Token MsgTx MsgBlock BlockIndex ChainView ViewDb UtxoEntry BorderEntry DefEntry ViewSet PolygonGeom UtxoView ChainOps ChainMap TxDefs.

Open Scope Z_scope.

Definition FeeCoinTyp : Z := 0.
Definition ZENTCoinTyp : Z := 0x10000000000.
Definition HaoPerBitcoin : Z := 100000000.
Definition MaxHao : Z := 430000000 * HaoPerBitcoin.
Definition BaseSubsidy : Z := 6 * HaoPerBitcoin.
Definition TxExpire : Z := 0x40.
Definition LockTimeThreshold : Z := 0x5effa4cf.
Definition SequenceLockTimeDisabled : Z := Z.shiftl 1 31.
Definition SequenceLockTimeIsSeconds : Z := Z.shiftl 1 22.
Definition SequenceLockTimeMask : Z := 0x0000ffff.
Definition SequenceLockTimeGranularity : Z := 9.

Record Params := MkParams {
  CoinbaseMaturity : Z;
  SubsidyReductionInterval : Z;
  ChainID : Z;
  MainChainID : Z;
  MinBorderFee : Z;
  MinContractDeployFee : Z;
  MinRelayTxFee : Z;
}.

(** ** Coin bases, subsidies, lock times *)

Definition isNullOutpoint (o : OutPoint) : bool := bool_decide (op_Hash o = zero_hash).

Definition IsCoinBaseTx (tx : MsgTx) : bool :=
  match TxIns tx with
  | [i] =>
      bool_decide (op_Hash (PreviousOutPoint i) = zero_hash) && bool_decide (TxDef tx = []) &&
      forallb (fun to => out_IsSeparator to || bool_decide (TokenType (to_Token to) = FeeCoinTyp)) (TxOuts tx)
  | _ => false
  end.

(** [BaseSubsidy >> uint(height/interval)]: a negative count is a huge one. *)
Definition CalcBlockSubsidy (height : Z) (p : Params) : Z :=
  if decide (SubsidyReductionInterval p = 0) then BaseSubsidy else Z.shiftr BaseSubsidy (u64 (i32 (Z.quot height (SubsidyReductionInterval p)))).

Record SequenceLock := MkSeqLock { sl_Seconds : Z; sl_BlockHeight : Z }.
Definition SequenceLockActive (l : SequenceLock) (blockHeight medianTimePast : Z) : bool :=
  negb (bool_decide (medianTimePast <= sl_Seconds l) || bool_decide (blockHeight <= sl_BlockHeight l)).

Definition IsFinalizedTransaction (tx : MsgTx) (blockHeight blockTime : Z) : bool :=
  if decide (Z.land (Version tx) TxExpire <> 0 \/ LockTime tx = 0) then true
  else if decide (LockTime tx < (if decide (LockTime tx < LockTimeThreshold) then blockHeight else blockTime)) then true
  else tx_IsCrossChain tx || forallb (fun i => spends_nothing i || bool_decide (Sequence i = 0xffffffff)) (TxIns tx).

Definition LockTimeToSequence (isSeconds : bool) (locktime : Z) : Z :=
  if isSeconds then Z.lor SequenceLockTimeIsSeconds (Z.shiftr locktime SequenceLockTimeGranularity) else locktime.

Section Locks.
Context (DoubleHashH : list Z -> list Z).

(** The nodes from [i] on, each made the parent of the next. *)
Fixpoint relink (n : nat) (i : Z) (blockNode : ptr) : cm ptr :=
  match n with
  | O => mret blockNode
  | S n => node ← NodeByHeight_b DoubleHashH i; _ ← cmodify node (set_parent blockNode); relink n (i32 (i + 1)) node
  end.
Definition past_median (node : ptr) (prevInputHeight : Z) : cm Z :=
  c ← cget;
  blockNode ← (if decide (i32 (bi_Cutoff (c_Index c)) < prevInputHeight) then Ancestor_b DoubleHashH node prevInputHeight
               else relink (Z.to_nat MedianTimeBlocks) (i32 (i32 (prevInputHeight - MedianTimeBlocks) + 1)) None);
  c ← cget;
  clift (CalcPastMedianTime (c_nodes c) blockNode).

Fixpoint lock_inputs (v : ViewPointSet) (node : ptr) (nextHeight : Z) (ins : list TxIn) (l : SequenceLock) : cm (SequenceLock * option rule_err) :=
  match ins with
  | [] => mret (l, None)
  | i :: ins =>
      if spends_nothing i then lock_inputs v node nextHeight ins l
      else
        match u_LookupEntry v (PreviousOutPoint i) with
        | None => mret (l, Some ErrMissingTxOut)
        | Some utxo =>
            let inputHeight := if decide (ue_blockHeight utxo = 0x7fffffff) then nextHeight else ue_blockHeight utxo in
            let relativeLock := Z.land (Sequence i) SequenceLockTimeMask in
            if decide (Z.land (Sequence i) SequenceLockTimeDisabled = SequenceLockTimeDisabled) then lock_inputs v node nextHeight ins l
            else if decide (Z.land (Sequence i) SequenceLockTimeIsSeconds = SequenceLockTimeIsSeconds) then
              let prev := i32 (inputHeight - 1) in
              median ← past_median node (if decide (prev < 0) then 0 else prev);
              let timeLock := i64 (median + (i64 (Z.shiftl relativeLock SequenceLockTimeGranularity) - 1)) in
              lock_inputs v node nextHeight ins (if decide (sl_Seconds l < timeLock) then MkSeqLock timeLock (sl_BlockHeight l) else l)
            else
              let blockHeight := i32 (inputHeight + i32 (relativeLock - 1)) in
              lock_inputs v node nextHeight ins (if decide (sl_BlockHeight l < blockHeight) then MkSeqLock (sl_Seconds l) blockHeight else l)
        end
  end.
Definition calcSequenceLock (node : ptr) (tx : MsgTx) (v : ViewPointSet) : cm (SequenceLock * option rule_err) :=
  let free := MkSeqLock (-1) (-1) in
  coinbase ← (if IsForfeit tx then mret true else clift (IsCoinBase tx));
  if coinbase || IsBtcL2 tx then mret (free, None)
  else
    nd ← cload node;
    if tx_IsCrossChain tx then mret (free, None) else lock_inputs v node (i32 (bn_Height nd + 1)) (TxIns tx) free.
End Locks.

(** ** Sanity *)

Definition capped (t : Z) : bool := bool_decide (t = FeeCoinTyp) || bool_decide (t = ZENTCoinTyp).

Fixpoint has_contract (outs : list TxOut) (contract : bool) : outcome bool :=
  match outs with
  | [] => Ok contract
  | to :: outs =>
      if out_IsSeparator to then has_contract outs contract
      else if contract then has_contract outs contract
      else b ← slice_get (PkScript to) 0; has_contract outs (bool_decide (b = 0x88))
  end.

(** The amounts, with the totals so far. *)
Fixpoint sane_outs (outs : list TxOut) (totals : gmap Z Z) : outcome (option rule_err) :=
  match outs with
  | [] => Ok None
  | txOut :: outs =>
      if out_IsSeparator txOut || negb (IsNumeric (to_Token txOut)) then sane_outs outs totals
      else
        let t := TokenType (to_Token txOut) in
        hao ← num_value (Value (to_Token txOut));
        if decide (hao < 0) then Ok (Some ErrBadTxOutValue)
        else if capped t && bool_decide (MaxHao < hao) then Ok (Some ErrBadTxOutValue)
        else
          let total := match totals !! t with Some n => i64 (n + hao) | None => hao end in
          if decide (total < 0) then Ok (Some ErrBadTxOutValue)
          else if capped t && bool_decide (MaxHao < total) then Ok (Some ErrBadTxOutValue)
          else sane_outs outs (<[t := total]> totals)
  end.

Fixpoint sane_ins (contract : bool) (ins : list TxIn) (existing : gset OutPoint) : option rule_err :=
  match ins with
  | [] => None
  | i :: ins =>
      if spends_nothing i then sane_ins contract ins existing
      else if decide (PreviousOutPoint i ∈ existing) then Some ErrDuplicateTxInputs
      else if contract && negb (bool_decide (Sequence i = 0xFFFFFFFF)) then Some ErrBadTxInput
      else sane_ins contract ins ({[PreviousOutPoint i]} ∪ existing)
  end.

Definition CheckTransactionSanity (HashH : list Z -> list Z) (tx : MsgTx) : outcome (option rule_err) :=
  if decide (Z.land (Version tx) (Z.lor TxExpire TxNoLock) = Z.lor TxExpire TxNoLock) then Ok (Some ErrNoTxInputs)
  else
    let forfeit := IsForfeit tx in
    contract ← has_contract (TxOuts tx) false;
    if (forfeit || contract) && bool_decide (Z.land (Version tx) TxExpire = 0) && negb (bool_decide (LockTime tx = 0)) then Ok (Some ErrBadTxInput)
    else if forfeit && bool_decide (0 < len (TxDef tx)) then Ok (Some ErrBadTxInput)
    else if bool_decide (TxIns tx = []) && negb contract then Ok (Some ErrNoTxInputs)
    else if decide (TxOuts tx = []) then Ok (Some ErrNoTxOutputs)
    else
      e ← sane_outs (TxOuts tx) ∅;
      match e with
      | Some e => Ok (Some e)
      | None =>
          e ← CheckDefinitions HashH tx;
          match e with
          | Some e => Ok (Some e)
          | None => Ok (if tx_IsCrossChain tx then None else sane_ins contract (TxIns tx) ∅)
          end
      end.

(** ** Inputs *)

(** The checks of an output that is spent; [fee_only] are the additional inputs, where only
    the total of the fee coin is bounded. *)
Definition add_input (fee_only : bool) (utxo : UtxoEntry) (totalIns : gmap Z Z) : outcome (gmap Z Z + rule_err) :=
  let t := ue_TokenType utxo in
  if negb (bool_decide (Z.land t 1 = 0)) then Ok (inl totalIns)
  else
    hao ← num_value (ue_Amount utxo);
    if decide (hao < 0) then Ok (inr ErrBadTxOutValue)
    else if capped t && bool_decide (MaxHao < hao) then Ok (inr ErrBadTxOutValue)
    else
      let lastHaoIn := default 0 (totalIns !! t) in
      let total := i64 (lastHaoIn + hao) in
      if bool_decide (total < lastHaoIn) || ((if fee_only then bool_decide (t = FeeCoinTyp) else capped t) && bool_decide (MaxHao < total)) then Ok (inr ErrBadTxOutValue)
      else Ok (inl (<[t := total]> totalIns)).

Fixpoint check_ins (p : Params) (txHeight : Z) (v : ViewPointSet) (ins : list TxIn) (totalIns : gmap Z Z) : outcome (option rule_err) :=
  match ins with
  | [] => Ok None
  | i :: ins =>
      if in_IsSeparator i then Ok None
      else if in_IsSepadding i then check_ins p txHeight v ins totalIns
      else
        match u_LookupEntry v (PreviousOutPoint i) with
        | None => Ok (Some ErrMissingTxOut)
        | Some utxo =>
            if ue_IsSpent utxo then Ok (Some ErrMissingTxOut)
            else if ue_IsCoinBase utxo && negb (bool_decide (ue_blockHeight utxo = 0)) && bool_decide (i32 (txHeight - ue_blockHeight utxo) < CoinbaseMaturity p) then Ok (Some ErrImmatureSpend)
            else r ← add_input false utxo totalIns; match r with inr e => Ok (Some e) | inl totalIns => check_ins p txHeight v ins totalIns end
        end
  end.
Definition CheckTransactionInputs (HashH : list Z -> list Z) (fuel : nat) (p : Params) (tx : MsgTx) (txHeight : Z) : vm (option rule_err) :=
  match TxIns tx with
  | [] => mret None
  | i :: _ =>
      if IsBtcL2 tx || tx_IsCrossChain tx || spends_nothing i then mret None
      else
        e ← def_CheckTransactionInputs HashH fuel tx;
        match e with
        | Some e => mret (Some e)
        | None => v ← vget; vlift (check_ins p txHeight v (TxIns tx) ∅)
        end
  end.

Fixpoint check_added_ins (v : ViewPointSet) (ins : list TxIn) (additional : bool) (totalIns : gmap Z Z) : outcome (option rule_err) :=
  match ins with
  | [] => Ok None
  | i :: ins =>
      if in_IsSeparator i then check_added_ins v ins true totalIns
      else if spends_nothing i || negb additional then check_added_ins v ins additional totalIns
      else
        match u_LookupEntry v (PreviousOutPoint i) with
        | None => Ok (Some ErrMissingTxOut)
        | Some utxo =>
            if ue_IsSpent utxo then Ok (Some ErrMissingTxOut)
            else r ← add_input true utxo totalIns; match r with inr e => Ok (Some e) | inl totalIns => check_added_ins v ins additional totalIns end
        end
  end.
Definition CheckAdditionalTransactionInputs (HashH : list Z -> list Z) (tx : MsgTx) : vm (option rule_err) :=
  match TxIns tx with
  | [] => mret None
  | i :: _ =>
      if spends_nothing i then mret None
      else
        e ← CheckTransactionAdditionalInputs HashH tx;
        match e with
        | Some e => mret (Some e)
        | None => if tx_IsCrossChain tx then mret None else v ← vget; vlift (check_added_ins v (TxIns tx) false ∅)
        end
  end.

(** [blacklist] is the bucket of the addresses. *)
Fixpoint CheckBlacklist (blacklist : bucket) (v : ViewPointSet) (ins : list TxIn) : outcome (option rule_err) :=
  match ins with
  | [] => Ok None
  | i :: ins =>
      if spends_nothing i then CheckBlacklist blacklist v ins
      else
        match u_LookupEntry v (PreviousOutPoint i) with
        | None => CheckBlacklist blacklist v ins
        | Some utxo =>
            a ← slice_sub (ue_pkScript utxo) 0 21;
            match b_Get blacklist a with
            | Some (_ :: _) => Ok (Some ErrBlacklist)
            | _ => CheckBlacklist blacklist v ins
            end
        end
  end.

(** ** Tokens of a hash *)

(** The tokens of the inputs that are a hash without rights; an input that the view does not
    have is fetched. *)
Fixpoint hash_inputs (ins : list TxIn) : vm (list Token + rule_err) :=
  match ins with
  | [] => mret (inl [])
  | i :: ins =>
      if in_IsSepadding i then hash_inputs ins
      else
        v ← vget;
        x ← (match u_LookupEntry v (PreviousOutPoint i) with
             | Some x => mret (Some x)
             | None => _ ← FetchUtxosMain [PreviousOutPoint i]; v ← vget; mret (u_LookupEntry v (PreviousOutPoint i))
             end);
        match x with
        | None => mret (inr ErrSpendTooHigh)
        | Some x =>
            r ← hash_inputs ins;
            mret (match r with
                  | inr e => inr e
                  | inl l => inl (if decide (Z.land (ue_TokenType x) 3 = 1) then to_Token (ToTxOut x) :: l else l)
                  end)
        end
  end.
(** The first input with the type and the hash of an output; it becomes a fee coin. *)
Fixpoint match_input (t : Token) (inputs : list Token) : outcome (option (list Token)) :=
  match inputs with
  | [] => Ok None
  | tk :: inputs =>
      same ← (if decide (TokenType t = TokenType tk) then a ← hash_value (Value t); b ← hash_value (Value tk); Ok (IsEqual a b) else Ok false);
      if same : bool then Ok (Some (MkToken FeeCoinTyp (Value tk) (Rights tk) :: inputs))
      else r ← match_input t inputs; Ok (match r with Some l => Some (tk :: l) | None => None end)
  end.
Fixpoint match_outputs (outs : list TxOut) (inputs : list Token) (rem : Z) : outcome bool :=
  match outs with
  | [] => Ok (bool_decide (rem = 0))
  | to :: outs =>
      if out_IsSeparator to || negb (bool_decide (Z.land (TokenType (to_Token to)) 3 = 1)) then match_outputs outs inputs rem
      else r ← match_input (to_Token to) inputs; match r with None => Ok false | Some inputs => match_outputs outs inputs (rem - 1) end
  end.
(** The part of [CheckTransactionIntegrity] before the rights. *)
Definition hash_tokens_integral (tx : MsgTx) : vm (option rule_err) :=
  if IsBtcL2 tx || tx_IsCrossChain tx || match TxIns tx with i :: _ => spends_nothing i | [] => false end then mret None
  else
    inputs ← hash_inputs (TxIns tx);
    match inputs with
    | inr e => mret (Some e)
    | inl inputs => ok ← vlift (match_outputs (TxOuts tx) inputs (len inputs)); mret (if ok : bool then None else Some ErrSpendTooHigh)
    end.

(** ** Fees *)

Definition local_type (p : Params) (t : Z) : Z := if decide (u32 (Z.shiftr t 40) = ChainID p) then Z.land t 0xFFFFFFFFFF else t.
Definition local_out_type (p : Params) (t : Z) : Z := if decide (Z.land (u32 (Z.shiftr t 40)) 0x3FFFFF = ChainID p) then Z.land t 0xFFFFFFFFFF else t.

(** What the outputs pay to the miners directly. *)
Fixpoint direct_pays (outs : list TxOut) (directFee : Z) (directPay : gmap Z Z) : outcome (Z * gmap Z Z) :=
  match outs with
  | [] => Ok (directFee, directPay)
  | to :: outs =>
      let t := TokenType (to_Token to) in
      if out_IsSeparator to || negb (bool_decide (Z.land t 3 = 0)) || bool_decide (Value (to_Token to) = None) then direct_pays outs directFee directPay
      else
        call ← out_IsContractCall to;
        if call : bool then direct_pays outs directFee directPay
        else
          op ← slice_sub (PkScript to) 21 25;
          if decide (op = [OP_PAYMINER; 0; 0; 0]) then
            n ← num_value (Value (to_Token to));
            if decide (t = FeeCoinTyp) then direct_pays outs (i64 (directFee + n)) directPay
            else direct_pays outs directFee (<[t := match directPay !! t with Some amt => i64 (n + amt) | None => n end]> directPay)
          else direct_pays outs directFee directPay
  end.

Fixpoint total_ins (p : Params) (v : ViewPointSet) (ins : list TxIn) (totalIns : gmap Z Z) : outcome (gmap Z Z) :=
  match ins with
  | [] => Ok totalIns
  | i :: ins =>
      if in_IsSepadding i then total_ins p v ins totalIns
      else
        match u_LookupEntry v (PreviousOutPoint i) with
        | None => total_ins p v ins totalIns
        | Some utxo =>
            if negb (bool_decide (Z.land (ue_TokenType utxo) 3 = 0)) then total_ins p v ins totalIns
            else
              n ← num_value (ue_Amount utxo);
              let t := local_type p (ue_TokenType utxo) in
              total_ins p v ins (<[t := i64 (default 0 (totalIns !! t) + n)]> totalIns)
        end
  end.

(** The fees that the chains on the way want are taken off, the payments to miners put on. *)
Fixpoint charge (path : list (list Z)) (fees : list Z) (crosschainfees : gmap Z Z) : outcome (gmap Z Z) :=
  match path, fees with
  | s :: path, f :: fees =>
      rest ← slice_sub s 21 (len s);
      n ← le32 rest;
      let c := Z.shiftr n 8 in
      charge path fees (<[c := i64 (default 0 (crosschainfees !! c) - f)]> crosschainfees)
  | _, _ => Ok crosschainfees
  end.

Record out_totals := MkTotals { totalHaoOut : gmap Z Z; crosschainfees : gmap Z Z; deployFee : Z }.

Definition dest_of (s : list Z) : outcome Z := rest ← slice_sub s 21 (len s); n ← le32 rest; Ok (Z.shiftr n 8).

Fixpoint total_outs (p : Params) (m : chains) (fuel : nat) (outs : list TxOut) (tt : out_totals) : outcome out_totals :=
  match outs with
  | [] => Ok tt
  | to :: outs =>
      let t := TokenType (to_Token to) in
      if out_IsSeparator to || negb (bool_decide (Z.land t 3 = 0)) || bool_decide (Value (to_Token to) = None) then total_outs p m fuel outs tt
      else
        let dtype := local_out_type p t in
        cross ← out_IsCrossChain to;
        call ← out_IsContractCall to;
        fees ← (if cross : bool then
                  dest ← dest_of (PkScript to);
                  here ← chain_at m (ChainID p);
                  '(path, pf) ← CtxFees fuel m here dest;
                  charge path pf (crosschainfees tt)
                else if call : bool then Ok (crosschainfees tt)
                else if decide (len (PkScript to) <= 21) then Ok (crosschainfees tt)
                else
                  op ← slice_get (PkScript to) 21;
                  if decide (op = OP_PAYMINER) then
                    dest ← dest_of (PkScript to);
                    let dest := if decide (dest = 0) then ChainID p else dest in
                    n ← num_value (Value (to_Token to));
                    Ok (<[dest := i64 (default 0 (crosschainfees tt !! dest) + n)]> (crosschainfees tt))
                  else Ok (crosschainfees tt));
        n ← num_value (Value (to_Token to));
        let total := match totalHaoOut tt !! dtype with Some o => i64 (o + n) | None => n end in
        create ← (if call && bool_decide (25 < len (PkScript to)) then s ← slice_sub (PkScript to) 21 25; Ok (bool_decide (s = [0; 0; 0; 0])) else Ok false);
        let deploy := if create : bool then i64 (deployFee tt + i64 ((len (PkScript to) - 25) * MinContractDeployFee p)) else deployFee tt in
        total_outs p m fuel outs (MkTotals (<[dtype := total]> (totalHaoOut tt)) fees deploy)
  end.

(** No type pays out more than comes in, and all but the fee coin pay out what comes in. *)
Definition spends_ok (totalIns totalOuts : gmap Z Z) : bool :=
  forallb (fun '(t, out) => let v := default 0 (totalIns !! t) in negb (bool_decide (v < out)) && (bool_decide (t = FeeCoinTyp) || bool_decide (v = out))) (map_to_list totalOuts) &&
  forallb (fun '(t, v) => bool_decide (t = FeeCoinTyp) || bool_decide (default 0 (totalOuts !! t) = v)) (map_to_list totalIns).

Definition new_borders (defs : list definition) : Z := len (filter (fun d => (match d with DBorder _ f _ _ => IsEqual f zero_hash | _ => false end) = true) defs).

Definition CheckTransactionFees (fuel : nat) (p : Params) (m : chains) (v : ViewPointSet) (tx : MsgTx) : outcome (Z * gmap Z Z + rule_err) :=
  '(directFee, directPay) ← direct_pays (TxOuts tx) 0 ∅;
  if tx_IsCrossChain tx then Ok (inl (directFee, directPay))
  else
    totalIns ← total_ins p v (TxIns tx) ∅;
    outs ← total_outs p m fuel (TxOuts tx) (MkTotals ∅ ∅ 0);
    if existsb (fun '(_, f) => negb (bool_decide (f = 0))) (map_to_list (crosschainfees outs)) then Ok (inr ErrBadTxOutValue)
    else if negb (spends_ok totalIns (totalHaoOut outs)) then Ok (inr ErrSpendTooHigh)
    else
      let txFeeInHao := i64 (default 0 (totalIns !! FeeCoinTyp) - default 0 (totalHaoOut outs !! FeeCoinTyp)) in
      let borderFee := i64 (new_borders (TxDef tx) * MinBorderFee p) in
      if decide (txFeeInHao < i64 (i64 (borderFee + deployFee outs) + MinRelayTxFee p)) then Ok (inr ErrLowFee)
      else Ok (inl (i64 (i64 (i64 (txFeeInHao - deployFee outs) - borderFee) + directFee), directPay)).

(** An output that comes from another chain as this chain sees it. *)
Definition normalizeTxo (p : Params) (txo : TxOut) : outcome TxOut :=
  dc ← dest_of (PkScript txo);
  op ← slice_get (PkScript txo) 21;
  script ← (if decide (op = OP_PAYCROSSCHAIN) then
              rest ← slice_sub (PkScript txo) 25 (len (PkScript txo));
              Ok (take 21 (PkScript txo) ++ rest)
            else if decide (op = OP_PAYMINER /\ dc = MainChainID p) then
              Ok (take 22 (PkScript txo) ++ [0; 0; 0] ++ drop 25 (PkScript txo))
            else Ok (PkScript txo));
  let t := TokenType (to_Token txo) in
  let t := if decide (u32 (Z.shiftr t 40) = MainChainID p /\ dc = MainChainID p) then Z.land t 0xFFFFFFFFFF else t in
  Ok (MkTxOut (MkToken t (Value (to_Token txo)) (Rights (to_Token txo))) script).
