(* ===== verification/TxValue.v ===== *)
(** * No value out of nothing

    What the checks of [TxCheck] guarantee of the amounts of a transaction, for the tokens
    that are amounts without rights: the outputs of every type add up to its inputs, but for
    the fee coin, whose outputs are at most its inputs.  And where they do not: the types
    that carry the number of the chain itself. *)
From Stdlib Require Import ZArith Lia.
From stdpp Require Import gmap list.
From S2P Require Import Prelude Wire Token MsgTx MsgBlock BlockIndex ChainView ViewDb UtxoEntry BorderEntry DefEntry ViewSet PolygonGeom UtxoView ChainOps ChainMap TxDefs TxCheck.

Open Scope Z_scope.

(** ** Sums by type *)

(** The sum of the amounts of type [t]; [f] is the type and the amount of an item. *)
Fixpoint sum_of {A} (f : A -> option (Z * Z)) (t : Z) (l : list A) : Z :=
  match l with
  | [] => 0
  | a :: l => match f a with Some (t', n) => if decide (t' = t) then n + sum_of f t l else sum_of f t l | None => sum_of f t l end
  end.

Definition amount (v : option TokenValue) : Z := match v with Some (NumToken n) => n | _ => 0 end.
(** The amount of an output without rights. *)
Definition out_amount (to : TxOut) : option (Z * Z) :=
  if out_IsSeparator to || negb (IsNumeric (to_Token to)) then None else Some (TokenType (to_Token to), amount (Value (to_Token to))).
Definition in_amount (v : ViewPointSet) (i : TxIn) : option (Z * Z) :=
  if in_IsSepadding i then None
  else match u_LookupEntry v (PreviousOutPoint i) with
       | Some e => if decide (Z.land (ue_TokenType e) 1 = 0) then Some (ue_TokenType e, amount (ue_Amount e)) else None
       | None => None
       end.

Lemma land3_land1 t : Z.land t 3 = 0 -> Z.land t 1 = 0.
Proof. intros H. change 1 with (Z.land 3 1). by rewrite Z.land_assoc, H. Qed.

Lemma num_value_inv v n : num_value v = Ok n -> v = Some (NumToken n).
Proof. destruct v as [[]|]; try done. by intros [= ->]. Qed.

(** ** Outputs *)

Definition out_int64 (to : TxOut) : Prop := sint_range 64 (amount (Value (to_Token to))).

(** Totals that are no negative numbers of 64 bits. *)
Definition totals_ok (m : gmap Z Z) : Prop := forall t n, m !! t = Some n -> 0 <= n < 2 ^ 63.
Lemma totals_default m t : totals_ok m -> 0 <= default 0 (m !! t) < 2 ^ 63.
Proof. intros H. destruct (m !! t) as [n|] eqn:E; [by apply (H t)|simpl; lia]. Qed.
Lemma totals_insert m t n : totals_ok m -> 0 <= n < 2 ^ 63 -> totals_ok (<[t := n]> m).
Proof. intros H Hn t' n' E. apply lookup_insert_Some in E as [[_ <-]|[_ E]]; [done|by apply (H t')]. Qed.
Lemma default_insert (m : gmap Z Z) (t t' n : Z) : default 0 (<[t := n]> m !! t') = if decide (t = t') then n else default 0 (m !! t').
Proof. case_decide as E; [subst; by rewrite lookup_insert_eq|by rewrite lookup_insert_ne]. Qed.

(** Two amounts that are no negative numbers add without a wrap when the sum is none. *)
Lemma add_no_wrap a b : 0 <= a < 2 ^ 63 -> 0 <= b < 2 ^ 63 -> (0 <= i64 (a + b) <-> a + b < 2 ^ 63) /\ (a + b < 2 ^ 63 -> i64 (a + b) = a + b).
Proof.
  intros Ha Hb. assert (a + b < 2 ^ 63 -> i64 (a + b) = a + b) as H by (intros; apply swrap_id; [lia|unfold sint_range; lia]). split; [|done]. split; [|intros Hs; rewrite H; lia].
  intros Hs. destruct (decide (a + b < 2 ^ 63)); [done|]. assert (i64 (a + b) = a + b - 2 ^ 64) as E; [|lia].
  transitivity (i64 (a + b - 2 ^ 64)); [|apply swrap_id; [lia|unfold sint_range; lia]]. apply swrap_cong; [lia|]. unfold uwrap. rewrite <- (Z_mod_plus_full (a + b) (-1) (2 ^ 64)). done.
Qed.

Lemma sane_outs_sound outs : forall totals, Forall out_int64 outs -> sane_outs outs totals = Ok None -> totals_ok totals ->
  (forall t, 0 <= default 0 (totals !! t) + sum_of out_amount t outs < 2 ^ 63) /\ Forall (fun to => forall t n, out_amount to = Some (t, n) -> 0 <= n) outs.
Proof.
  induction outs as [|to outs IH]; intros totals Hint Hs Hok; cbn [sane_outs sum_of] in *.
  { split; [|done]. intros t. pose proof (totals_default _ t Hok). lia. }
  inversion Hint as [|? ? Hto Hint']; subst. unfold out_int64 in Hto.
  destruct (out_IsSeparator to || negb (IsNumeric (to_Token to))) eqn:Eskip.
  { assert (out_amount to = None) as Eo by (unfold out_amount; by rewrite Eskip). rewrite Eo. destruct (IH _ Hint' Hs Hok) as [H1 H2]. split; [done|]. constructor; [by rewrite Eo|done]. }
  destruct (num_value (Value (to_Token to))) as [hao| |] eqn:Ev; try done. apply num_value_inv in Ev. rewrite outcome_bind_ok in Hs. rewrite Ev in Hto. cbn [amount] in Hto.
  assert (out_amount to = Some (TokenType (to_Token to), hao)) as Eo by (unfold out_amount; by rewrite Eskip, Ev). rewrite Eo.
  destruct (decide (hao < 0)) as [|Hpos]; [done|]. destruct (capped _ && _); [done|]. set (t0 := TokenType (to_Token to)) in *.
  set (total := match totals !! t0 with Some n => i64 (n + hao) | None => hao end) in *. destruct (decide (total < 0)) as [|Htot]; [done|]. destruct (capped t0 && bool_decide (MaxHao < total)); [done|].
  unfold sint_range in Hto. simpl in Hto.
  assert (total = default 0 (totals !! t0) + hao /\ total < 2 ^ 63) as [Etot Hlt].
  { unfold total in *. destruct (totals !! t0) as [n|] eqn:En; simpl; [|lia]. pose proof (Hok _ _ En) as Hn. destruct (add_no_wrap n hao Hn ltac:(lia)) as [H1 H2]. specialize (proj1 H1 ltac:(lia)). intros H3. rewrite H2 by done. lia. }
  destruct (IH _ Hint' Hs (totals_insert _ t0 total Hok ltac:(lia))) as [H1 H2]. split.
  - intros t. specialize (H1 t). rewrite default_insert in H1. case_decide as E; [subst t; lia|done].
  - constructor; [|done]. intros t n. rewrite Eo. intros [= <- <-]. lia.
Qed.

Lemma i64_add_l a b : i64 (i64 a + b) = i64 (a + b).
Proof. by rewrite swrap_add_l. Qed.
Lemma i64_add_r a b : i64 (a + i64 b) = i64 (a + b).
Proof. by rewrite Z.add_comm, i64_add_l, Z.add_comm. Qed.

Lemma total_outs_sum p m fuel outs : forall tt tt', Forall out_int64 outs -> Forall (fun to => local_out_type p (TokenType (to_Token to)) = TokenType (to_Token to)) outs ->
  total_outs p m fuel outs tt = Ok tt' -> (forall t n, totalHaoOut tt !! t = Some n -> sint_range 64 n) ->
  forall t, Z.land t 3 = 0 -> default 0 (totalHaoOut tt' !! t) = i64 (default 0 (totalHaoOut tt !! t) + sum_of out_amount t outs).
Proof.
  induction outs as [|to outs IH]; intros tt tt' Hint Hloc Hs Hok t Ht; cbn [total_outs sum_of] in *.
  { injection Hs as <-. rewrite Z.add_0_r, swrap_id; [done|lia|]. destruct (totalHaoOut tt !! t) as [n|] eqn:E; [by apply (Hok t)|simpl; unfold sint_range; lia]. }
  inversion Hint as [|? ? Hto Hint']; subst. inversion Hloc as [|? ? Hl Hloc']; subst. unfold out_int64 in Hto. set (t0 := TokenType (to_Token to)) in *.
  destruct (out_IsSeparator to || negb (bool_decide (Z.land t0 3 = 0)) || bool_decide (Value (to_Token to) = None)) eqn:Eskip.
  { rewrite (IH _ _ Hint' Hloc' Hs Hok t Ht). do 2 f_equal. unfold out_amount. fold t0. destruct (out_IsSeparator to); [reflexivity|]. destruct (IsNumeric (to_Token to)); [|reflexivity]. simpl.
    destruct (decide (t0 = t)) as [E|E]; [|reflexivity]. rewrite E, bool_decide_eq_true_2 in Eskip by done. simpl in Eskip. apply bool_decide_eq_true in Eskip. by rewrite Eskip. }
  apply orb_false_iff in Eskip as [Eskip Eval]. apply orb_false_iff in Eskip as [Esep E3]. apply negb_false_iff, bool_decide_eq_true in E3.
  apply bind_ok_inv in Hs as (cross & _ & Hs). apply bind_ok_inv in Hs as (call & _ & Hs). apply bind_ok_inv in Hs as (fees & _ & Hs). apply bind_ok_inv in Hs as (n & Ev & Hs). apply bind_ok_inv in Hs as (create & _ & Hs).
  apply num_value_inv in Ev. rewrite Hl in Hs. rewrite Ev in Hto. cbn [amount] in Hto.
  assert (out_amount to = Some (t0, n)) as Eo.
  { unfold out_amount, IsNumeric. fold t0. rewrite Esep, bool_decide_eq_true_2 by (by apply land3_land1). simpl. by rewrite Ev. }
  set (total := match totalHaoOut tt !! t0 with Some o => i64 (o + n) | None => n end) in *.
  assert (total = i64 (default 0 (totalHaoOut tt !! t0) + n)) as Etot.
  { unfold total. destruct (totalHaoOut tt !! t0); [done|]. simpl. by rewrite swrap_id. }
  rewrite (IH _ _ Hint' Hloc' Hs); [|intros t' n' E; cbn [totalHaoOut] in E; apply lookup_insert_Some in E as [[_ <-]|[_ E]]; [rewrite Etot; apply swrap_range; lia|by apply (Hok t')]|done].
  cbn [totalHaoOut]. rewrite default_insert, Eo. case_decide as E; [|done]. subst t. by rewrite Etot, i64_add_l, Z.add_assoc.
Qed.

(** ** Inputs *)

Definition utxo_int64 (v : ViewPointSet) (i : TxIn) : Prop := forall e, u_LookupEntry v (PreviousOutPoint i) = Some e -> sint_range 64 (amount (ue_Amount e)).

Lemma add_input_sound fee_only e totals totals' : add_input fee_only e totals = Ok (inl totals') -> sint_range 64 (amount (ue_Amount e)) -> totals_ok totals ->
  totals_ok totals' /\ forall t, default 0 (totals' !! t) = default 0 (totals !! t) + (if decide (Z.land (ue_TokenType e) 1 = 0) then if decide (ue_TokenType e = t) then amount (ue_Amount e) else 0 else 0).
Proof.
  unfold add_input. intros Hs Hint Hok. destruct (decide (Z.land (ue_TokenType e) 1 = 0)) as [E1|E1].
  - rewrite bool_decide_eq_true_2 in Hs by done. simpl negb in Hs. cbv iota in Hs. apply bind_ok_inv in Hs as (hao & Ev & Hs). apply num_value_inv in Ev. rewrite Ev in Hint |- *. cbn [amount] in *.
    destruct (decide (hao < 0)); [done|]. destruct (capped (ue_TokenType e) && bool_decide (MaxHao < hao)); [done|]. set (last := default 0 (totals !! ue_TokenType e)) in *.
    destruct (_ || _) eqn:Eover in Hs; [done|]. injection Hs as <-. apply orb_false_iff in Eover as [Eover _]. apply bool_decide_eq_false in Eover.
    pose proof (totals_default _ (ue_TokenType e) Hok) as Hlast. fold last in Hlast. unfold sint_range in Hint. simpl in Hint. destruct (add_no_wrap last hao Hlast ltac:(lia)) as [H1 H2].
    specialize (H2 (proj1 H1 ltac:(lia))). rewrite H2. split; [apply totals_insert; [done|]; specialize (proj1 H1 ltac:(lia)); lia|]. intros t. rewrite default_insert. destruct (decide (ue_TokenType e = t)) as [E|E]; [subst t; by fold last|lia].
  - rewrite bool_decide_eq_false_2 in Hs by done. injection Hs as <-. split; [done|]. intros t. lia.
Qed.

Lemma check_ins_sound p h v ins : forall totals, Forall (utxo_int64 v) ins -> Forall (fun i => in_IsSeparator i = false) ins -> check_ins p h v ins totals = Ok None -> totals_ok totals ->
  (forall t, 0 <= default 0 (totals !! t) + sum_of (in_amount v) t ins < 2 ^ 63) /\
  Forall (fun i => in_IsSepadding i = false -> exists e, u_LookupEntry v (PreviousOutPoint i) = Some e /\ ue_IsSpent e = false) ins.
Proof.
  induction ins as [|i ins IH]; intros totals Hint Hsep Hs Hok; cbn [check_ins sum_of] in *.
  { split; [|done]. intros t. pose proof (totals_default _ t Hok). lia. }
  inversion Hint as [|? ? Hi Hint']; subst. inversion Hsep as [|? ? Hsi Hsep']; subst. rewrite Hsi in Hs. destruct (in_IsSepadding i) eqn:Epad.
  { assert (in_amount v i = None) as -> by (unfold in_amount; by rewrite Epad). destruct (IH _ Hint' Hsep' Hs Hok) as [H1 H2]. split; [done|]. constructor; [congruence|done]. }
  destruct (u_LookupEntry v (PreviousOutPoint i)) as [e|] eqn:El; [|done].
  assert (in_amount v i = if decide (Z.land (ue_TokenType e) 1 = 0) then Some (ue_TokenType e, amount (ue_Amount e)) else None) as -> by (unfold in_amount; by rewrite Epad, El).
  destruct (ue_IsSpent e) eqn:Espent; [done|]. destruct (_ && _ && _) in Hs; [done|].
  apply bind_ok_inv in Hs as ([totals'|err] & Ea & Hs); [|done]. destruct (add_input_sound _ _ _ _ Ea (Hi e El) Hok) as [Hok' Hd].
  destruct (IH _ Hint' Hsep' Hs Hok') as [H1 H2]. split; [|constructor; [intros _; by exists e|done]]. intros t. specialize (H1 t). rewrite Hd in H1.
  destruct (decide (Z.land (ue_TokenType e) 1 = 0)); [|lia]. destruct (decide (ue_TokenType e = t)); lia.
Qed.

Lemma total_ins_sum p v ins : forall totals totals', Forall (fun i => forall e, u_LookupEntry v (PreviousOutPoint i) = Some e -> local_type p (ue_TokenType e) = ue_TokenType e) ins ->
  total_ins p v ins totals = Ok totals' -> (forall t n, totals !! t = Some n -> sint_range 64 n) ->
  forall t, Z.land t 3 = 0 -> default 0 (totals' !! t) = i64 (default 0 (totals !! t) + sum_of (in_amount v) t ins).
Proof.
  induction ins as [|i ins IH]; intros totals totals' Hloc Hs Hok t Ht; cbn [total_ins sum_of] in *.
  { injection Hs as <-. rewrite Z.add_0_r, swrap_id; [done|lia|]. destruct (totals !! t) as [n|] eqn:E; [by apply (Hok t)|simpl; unfold sint_range; lia]. }
  inversion Hloc as [|? ? Hl Hloc']; subst. destruct (in_IsSepadding i) eqn:Epad.
  { assert (in_amount v i = None) as -> by (unfold in_amount; by rewrite Epad). by apply IH. }
  destruct (u_LookupEntry v (PreviousOutPoint i)) as [e|] eqn:El.
  2:{ assert (in_amount v i = None) as -> by (unfold in_amount; by rewrite Epad, El). by apply IH. }
  assert (in_amount v i = if decide (Z.land (ue_TokenType e) 1 = 0) then Some (ue_TokenType e, amount (ue_Amount e)) else None) as -> by (unfold in_amount; by rewrite Epad, El).
  destruct (decide (Z.land (ue_TokenType e) 3 = 0)) as [E3|E3].
  - rewrite bool_decide_eq_true_2 in Hs by done. simpl negb in Hs. cbv iota in Hs. apply bind_ok_inv in Hs as (n & Ev & Hs). apply num_value_inv in Ev. rewrite (Hl e eq_refl) in Hs. rewrite Ev. cbn [amount].
    rewrite (decide_True (P := Z.land (ue_TokenType e) 1 = 0)) by (by apply land3_land1).
    rewrite (IH _ _ Hloc' Hs); [|intros t' n' E; apply lookup_insert_Some in E as [[_ <-]|[_ E]]; [apply swrap_range; lia|by apply (Hok t')]|done].
    rewrite default_insert. case_decide as E; [|done]. subst t. by rewrite i64_add_l, Z.add_assoc.
  - rewrite bool_decide_eq_false_2 in Hs by done. simpl negb in Hs. cbv iota in Hs. rewrite (IH _ _ Hloc' Hs Hok t Ht). destruct (decide (Z.land (ue_TokenType e) 1 = 0)); [|done]. case_decide as E; [congruence|done].
Qed.

Lemma spends_ok_spec ins outs : spends_ok ins outs = true ->
  (forall t, t <> FeeCoinTyp -> default 0 (ins !! t) = default 0 (outs !! t)) /\ (0 <= default 0 (ins !! FeeCoinTyp) -> default 0 (outs !! FeeCoinTyp) <= default 0 (ins !! FeeCoinTyp)).
Proof.
  unfold spends_ok. rewrite andb_true_iff, !forallb_forall. intros [H1 H2]. split.
  - intros t Ht. destruct (outs !! t) as [o|] eqn:Eo.
    + specialize (H1 (t, o) ltac:(apply list_elem_of_In; by apply elem_of_map_to_list)). cbv beta iota in H1. rewrite andb_true_iff, orb_true_iff, !bool_decide_eq_true in H1. simpl. destruct H1 as [_ [?|?]]; [done|done].
    + destruct (ins !! t) as [n|] eqn:En; [|done]. specialize (H2 (t, n) ltac:(apply list_elem_of_In; by apply elem_of_map_to_list)). cbv beta iota in H2. rewrite orb_true_iff, !bool_decide_eq_true, Eo in H2.
      simpl in *. destruct H2 as [?|?]; [done|lia].
  - intros Hin. destruct (outs !! FeeCoinTyp) as [o|] eqn:Eo; [|done]. specialize (H1 (FeeCoinTyp, o) ltac:(apply list_elem_of_In; by apply elem_of_map_to_list)). cbv beta iota in H1.
    rewrite andb_true_iff, negb_true_iff, bool_decide_eq_false in H1. simpl. lia.
Qed.

(** No output is an input twice. *)
Lemma sane_ins_nodup contract ins : forall existing, sane_ins contract ins existing = None ->
  NoDup (PreviousOutPoint <$> filter (fun i => spends_nothing i = false) ins) /\ forall o, o ∈ PreviousOutPoint <$> filter (fun i => spends_nothing i = false) ins -> o ∉ existing.
Proof.
  induction ins as [|i ins IH]; intros existing Hs; cbn [sane_ins] in Hs; [split; [constructor|by intros o ?%elem_of_nil]|]. rewrite filter_cons.
  destruct (spends_nothing i) eqn:E; [rewrite decide_False by done; by apply IH|]. rewrite decide_True by done. rewrite fmap_cons. destruct (decide (PreviousOutPoint i ∈ existing)) as [|Hn]; [done|]. destruct (contract && _); [done|].
  destruct (IH _ Hs) as [H1 H2]. split.
  - constructor; [|done]. intros Hin. apply (H2 _ Hin). set_solver.
  - intros o Ho. apply elem_of_cons in Ho as [->|Ho]; [done|]. specialize (H2 _ Ho). set_solver.
Qed.

(** ** What the checks guarantee *)

(** Types whose high bits are not the number of this chain. *)
Definition foreign_or_plain (p : Params) (t : Z) : Prop := local_type p t = t /\ local_out_type p t = t.

(** ** The fee *)

Global Instance outcome_eq_dec {A} `{EqDecision A} : EqDecision (outcome A).
Proof. solve_decision. Defined.

(** An output whose amount counts: no separator, no rights, with a value. *)
Definition counts (to : TxOut) : bool := negb (out_IsSeparator to || negb (bool_decide (Z.land (TokenType (to_Token to)) 3 = 0)) || bool_decide (Value (to_Token to) = None)).
(** An output that creates a contract: it calls one, with the method 0 and code behind it. *)
Definition creates_contract (to : TxOut) : bool :=
  counts to && bool_decide (out_IsContractCall to = Ok true) && bool_decide (25 < len (PkScript to)) && bool_decide (slice_sub (PkScript to) 21 25 = Ok [0; 0; 0; 0]).
(** An output that pays the miners of this chain. *)
Definition miner_amount (to : TxOut) : option (Z * Z) :=
  if counts to && bool_decide (out_IsContractCall to = Ok false) && bool_decide (slice_sub (PkScript to) 21 25 = Ok [OP_PAYMINER; 0; 0; 0]) then Some (TokenType (to_Token to), amount (Value (to_Token to))) else None.

(** The fees for contract code and for new borders, and the least fee of a transaction, as numbers without overflow. *)
Definition deploy_fee (p : Params) (outs : list TxOut) : Z := foldr (fun to n => (if creates_contract to then (len (PkScript to) - 25) * MinContractDeployFee p else 0) + n) 0 outs.
Definition border_fee (p : Params) (tx : MsgTx) : Z := new_borders (TxDef tx) * MinBorderFee p.
Definition least_fee (p : Params) (tx : MsgTx) : Z := border_fee p tx + deploy_fee p (TxOuts tx) + MinRelayTxFee p.

(** Parameters that are no negative numbers, and a least fee of 63 bits. *)
Definition fee_fits (p : Params) (tx : MsgTx) : Prop := 0 <= MinBorderFee p /\ 0 <= MinContractDeployFee p /\ 0 <= MinRelayTxFee p /\ least_fee p tx < 2 ^ 63.

Lemma deploy_fee_nonneg p outs : 0 <= MinContractDeployFee p -> 0 <= deploy_fee p outs.
Proof.
  intros Hp. induction outs as [|to outs IH]; [done|]. cbn [deploy_fee foldr]. fold (deploy_fee p outs). destruct (creates_contract to) eqn:E; [|lia].
  unfold creates_contract in E. rewrite !andb_true_iff, !bool_decide_eq_true in E. nia.
Qed.

Lemma total_outs_deploy p m fuel outs : forall tt tt', total_outs p m fuel outs tt = Ok tt' -> sint_range 64 (deployFee tt) -> deployFee tt' = i64 (deployFee tt + deploy_fee p outs).
Proof.
  induction outs as [|to outs IH]; intros tt tt' Hs Hr; cbn [total_outs] in Hs; [injection Hs as <-; simpl; by rewrite Z.add_0_r, swrap_id|].
  cbn [deploy_fee foldr]. fold (deploy_fee p outs). unfold creates_contract, counts. destruct (_ || _ || _) eqn:Eskip in Hs; rewrite Eskip; cbn [negb andb]; [by rewrite (IH _ _ Hs Hr)|].
  apply bind_ok_inv in Hs as (cross & _ & Hs). apply bind_ok_inv in Hs as (call & Ec & Hs). apply bind_ok_inv in Hs as (fees & _ & Hs). apply bind_ok_inv in Hs as (n & _ & Hs).
  apply bind_ok_inv in Hs as (create & Ecr & Hs). rewrite Ec.
  assert (create = bool_decide (@Ok bool call = Ok true) && bool_decide (25 < len (PkScript to)) && bool_decide (slice_sub (PkScript to) 21 25 = Ok [0; 0; 0; 0])) as <-.
  { destruct call; [rewrite (bool_decide_eq_true_2 (Ok true = Ok true)) by done|by injection Ecr as <-]. cbn [andb] in *. destruct (bool_decide (25 < _)); [|by injection Ecr as <-].
    apply bind_ok_inv in Ecr as (sl & -> & Ecr). injection Ecr as <-. apply bool_decide_ext. split; [by intros ->|by intros [= ->]]. }
  rewrite (IH _ _ Hs); cbn [deployFee]; destruct create; try done; [|apply swrap_range; lia]. rewrite i64_add_l. rewrite <- Z.add_assoc, (Z.add_comm (i64 _)), Z.add_assoc, i64_add_r. f_equal. lia.
Qed.

Lemma direct_pays_sum outs : forall d m d' m', direct_pays outs d m = Ok (d', m') -> sint_range 64 d -> d' = i64 (d + sum_of miner_amount FeeCoinTyp outs).
Proof.
  induction outs as [|to outs IH]; intros d m d' m' Hs Hr; cbn [direct_pays] in Hs; [injection Hs as <- <-; simpl; by rewrite Z.add_0_r, swrap_id|].
  cbn [sum_of]. unfold miner_amount at 1, counts. destruct (_ || _ || _) eqn:Eskip in Hs; rewrite Eskip; cbn [negb andb]; [by apply (IH _ _ _ _ Hs)|].
  apply bind_ok_inv in Hs as (call & Ec & Hs). rewrite Ec. destruct call; [rewrite bool_decide_eq_false_2 by done; by apply (IH _ _ _ _ Hs)|]. rewrite bool_decide_eq_true_2 by done.
  apply bind_ok_inv in Hs as (op & Eop & Hs). rewrite Eop. case_decide as Ed; [|rewrite bool_decide_eq_false_2 by congruence; by apply (IH _ _ _ _ Hs)].
  rewrite bool_decide_eq_true_2 by congruence. apply bind_ok_inv in Hs as (n & Ev & Hs). apply num_value_inv in Ev. rewrite Ev. cbn [andb amount].
  destruct (decide (TokenType (to_Token to) = FeeCoinTyp)); [|by apply (IH _ _ _ _ Hs)]. rewrite (IH _ _ _ _ Hs) by (apply swrap_range; lia). rewrite i64_add_l. f_equal. lia.
Qed.

(** What is paid to the miners is among the outputs. *)
Lemma miner_sum_bound outs : Forall (fun to => forall t n, out_amount to = Some (t, n) -> 0 <= n) outs -> 0 <= sum_of miner_amount FeeCoinTyp outs <= sum_of out_amount FeeCoinTyp outs.
Proof.
  induction 1 as [|to outs Hto _ IH]; [done|]. cbn [sum_of]. destruct (miner_amount to) as [[t n]|] eqn:Em.
  - unfold miner_amount, counts in Em. destruct (_ && _ && _) eqn:E in Em; [|done]. rewrite !andb_true_iff, negb_true_iff, !orb_false_iff, negb_false_iff, bool_decide_eq_true in E. destruct E as [[[[Es E3] _] _] _].
    assert (out_amount to = Some (t, n)) as Eo by (unfold out_amount, IsNumeric; rewrite Es, bool_decide_eq_true_2 by (by apply land3_land1); exact Em). rewrite Eo. specialize (Hto _ _ Eo). case_decide; lia.
  - destruct (out_amount to) as [[t n]|]; [|done]. specialize (Hto _ _ eq_refl). case_decide; lia.
Qed.

(** The least fee is compared without a wrap, and the fee is a number without a wrap. *)
Lemma fee_exact p tx ins outs miners direct deploy : fee_fits p tx -> 0 <= miners <= outs -> 0 <= outs <= ins -> ins < 2 ^ 63 -> direct = i64 miners -> deploy = i64 (deploy_fee p (TxOuts tx)) ->
  ~ ins - outs < i64 (i64 (i64 (new_borders (TxDef tx) * MinBorderFee p) + deploy) + MinRelayTxFee p) ->
  least_fee p tx <= ins - outs /\ i64 (i64 (i64 (ins - outs - deploy) - i64 (new_borders (TxDef tx) * MinBorderFee p)) + direct) = ins - outs - border_fee p tx - deploy_fee p (TxOuts tx) + miners.
Proof.
  intros (F1 & F2 & F3 & F4) Hm Ho Hi -> ->. unfold least_fee, border_fee in *. pose proof (deploy_fee_nonneg p (TxOuts tx) F2) as Hd.
  assert (0 <= new_borders (TxDef tx) * MinBorderFee p) as Hb by (unfold new_borders; nia). set (b := new_borders (TxDef tx) * MinBorderFee p) in *. set (d := deploy_fee p (TxOuts tx)) in *.
  rewrite (swrap_id 64 b), (swrap_id 64 d), (swrap_id 64 (b + d)), (swrap_id 64 (b + d + _)), (swrap_id 64 miners) by (lia || unfold sint_range; lia). intros Hge.
  rewrite (swrap_id 64 (ins - outs - d)), (swrap_id 64 (ins - outs - d - b)), swrap_id by (lia || unfold sint_range; lia). lia.
Qed.

(** C2: A transaction that passes the sanity check, the check of its inputs and the check of its fees creates no value, when it is not a coin base, does not come from Bitcoin or
    another chain, has no input that is a separator, and no output or spent output has a type with the number of this chain in its high bits (for these the sums overflow: see
    [own_type_mints]).  Its inputs name different outputs that the view has and that are not spent; for every type of amounts without rights the outputs add up to exactly the inputs,
    as numbers without overflow, except for the fee coin, of which at most the inputs are paid out.  What is left over of it is at least the fee for its new borders, for the code of
    the contracts that it creates and for relaying (as long as this fee is a number of 63 bits), and the fee that the check returns is exactly what is left over, less the fees for
    borders and code, and with what the outputs pay the miners. *)
Theorem value_conserved (HashH : list Z -> list Z) (fuel : nat) (p : Params) (m : chains) (tx : MsgTx) (h : Z) (v v' : ViewPointSet) (fee : Z) (pay : gmap Z Z) (i0 : TxIn) (ins : list TxIn)
  (Hins : TxIns tx = i0 :: ins) (Hkind : spends_nothing i0 = false /\ IsBtcL2 tx = false /\ tx_IsCrossChain tx = false) (Hsep : Forall (fun i => in_IsSeparator i = false) (TxIns tx))
  (Hout : Forall out_int64 (TxOuts tx)) (Hutxo : Forall (utxo_int64 v') (TxIns tx)) (Hfit : fee_fits p tx)
  (Htypes : Forall (fun to => foreign_or_plain p (TokenType (to_Token to))) (TxOuts tx) /\
    Forall (fun i => forall e, u_LookupEntry v' (PreviousOutPoint i) = Some e -> foreign_or_plain p (ue_TokenType e)) (TxIns tx))
  (Hsane : CheckTransactionSanity HashH tx = Ok None) (Hinputs : CheckTransactionInputs HashH fuel p tx h v = Ok (None, v')) (Hfees : CheckTransactionFees fuel p m v' tx = Ok (inl (fee, pay))) :
  NoDup (PreviousOutPoint <$> filter (fun i => spends_nothing i = false) (TxIns tx)) /\
  Forall (fun i => in_IsSepadding i = false -> exists e, u_LookupEntry v' (PreviousOutPoint i) = Some e /\ ue_IsSpent e = false) (TxIns tx) /\
  (forall t, Z.land t 3 = 0 -> t <> FeeCoinTyp -> sum_of out_amount t (TxOuts tx) = sum_of (in_amount v') t (TxIns tx)) /\
  let left := sum_of (in_amount v') FeeCoinTyp (TxIns tx) - sum_of out_amount FeeCoinTyp (TxOuts tx) in
  0 <= left /\ least_fee p tx <= left /\ fee = left - border_fee p tx - deploy_fee p (TxOuts tx) + sum_of miner_amount FeeCoinTyp (TxOuts tx).
Proof.
  destruct Hkind as (Hk1 & Hk2 & Hk3). destruct Htypes as [Hto Hti].
  assert (sane_outs (TxOuts tx) ∅ = Ok None /\ exists contract, sane_ins contract (TxIns tx) ∅ = None) as [Hso [contract Hsi]].
  { revert Hsane. unfold CheckTransactionSanity. case_decide; [done|]. destruct (has_contract _ _) as [contract| |]; try done. rewrite outcome_bind_ok. destruct (_ && _ && _); [done|]. destruct (_ && bool_decide (0 < _)); [done|]. destruct (_ && negb contract); [done|]. destruct (decide (TxOuts tx = [])); [done|].
    destruct (sane_outs (TxOuts tx) ∅) as [[e|]| |]; try done. rewrite outcome_bind_ok. destruct (CheckDefinitions HashH tx) as [[e|]| |]; try done. rewrite outcome_bind_ok, Hk3. intros [= Hs]. eauto. }
  assert (check_ins p h v' (TxIns tx) ∅ = Ok None) as Hci.
  { revert Hinputs. unfold CheckTransactionInputs. rewrite Hins. rewrite <- Hins, Hk1, Hk2, Hk3. simpl orb. cbv iota. intros H. apply vbind_inv in H as ([e|] & v1 & _ & H); [by injection H|].
    apply vbind_inv in H as (v2 & v3 & Hg & H). injection Hg as <- <-. unfold vlift in H. destruct (check_ins p h v1 (TxIns tx) ∅) eqn:E; try done. simpl in H. injection H as -> ->. done. }
  assert (totals_ok ∅) as He by (intros t n; by rewrite lookup_empty).
  destruct (sane_outs_sound _ _ Hout Hso He) as [Hob Hpos]. destruct (check_ins_sound _ _ _ _ _ Hutxo Hsep Hci He) as [Hib Hex].
  revert Hfees. unfold CheckTransactionFees. intros Hf. apply bind_ok_inv in Hf as ([direct pays] & Hdir & Hf). rewrite Hk3 in Hf. apply bind_ok_inv in Hf as (tins & Hti' & Hf). apply bind_ok_inv in Hf as (touts & Hto' & Hf).
  destruct (existsb _ _) in Hf; [done|]. destruct (spends_ok tins (totalHaoOut touts)) eqn:Hsp; [|done]. simpl negb in Hf. cbv iota in Hf.
  assert (forall t, Z.land t 3 = 0 -> default 0 (tins !! t) = sum_of (in_amount v') t (TxIns tx)) as Hi.
  { intros t Ht. rewrite (total_ins_sum p v' (TxIns tx) ∅ tins); [|eapply Forall_impl; [exact Hti|]; intros x Hx e El; by apply Hx|done|done|done]. specialize (Hib t). rewrite lookup_empty in *. simpl in *.
    apply swrap_id; [lia|unfold sint_range; lia]. }
  assert (forall t, Z.land t 3 = 0 -> default 0 (totalHaoOut touts !! t) = sum_of out_amount t (TxOuts tx)) as Ho.
  { intros t Ht. rewrite (total_outs_sum p m fuel (TxOuts tx) (MkTotals ∅ ∅ 0) touts); [|done|eapply Forall_impl; [exact Hto|]; intros x Hx; by apply Hx|done|done|done]. specialize (Hob t). cbn [totalHaoOut]. rewrite lookup_empty in *. simpl in *.
    apply swrap_id; [lia|unfold sint_range; lia]. }
  destruct (spends_ok_spec _ _ Hsp) as [Hall Hfee]. pose proof (Hi FeeCoinTyp eq_refl) as Hi0. pose proof (Ho FeeCoinTyp eq_refl) as Ho0. pose proof (Hib FeeCoinTyp) as Hib0. pose proof (Hob FeeCoinTyp) as Hob0.
  rewrite lookup_empty in Hib0, Hob0. simpl in Hib0, Hob0. rewrite Hi0, Ho0 in Hfee, Hf. specialize (Hfee ltac:(lia)). split; [exact (proj1 (sane_ins_nodup _ _ _ Hsi))|]. split; [done|]. split.
  - intros t Ht Hne. rewrite <- Hi, <- Ho by done. symmetry. by apply Hall.
  - cbv zeta. split; [lia|]. rewrite (swrap_id 64 (_ - _)) in Hf by (lia || unfold sint_range; lia). case_decide as Hmin; [done|]. injection Hf as <- _.
    apply direct_pays_sum in Hdir; [|unfold sint_range; lia]. apply total_outs_deploy in Hto'; [|unfold sint_range; simpl; lia]. cbn [deployFee] in Hto'. rewrite Z.add_0_l in Hdir, Hto'.
    refine (fee_exact p tx _ _ _ direct (deployFee touts) Hfit (miner_sum_bound _ Hpos) _ _ Hdir Hto' Hmin); lia.
Qed.

(** ** Examples *)

Definition coin_point : OutPoint := MkOutPoint (replicate 32 5) 0.
Definition coins (n : Z) : UtxoEntry := MkUtxo FeeCoinTyp (Some (NumToken n)) None pay_script 7 0 [].
(** A view with one output, of [n] fee coins. *)
Definition purse (n : Z) : ViewPointSet := set_utxo (NewViewPointSet empty_db) {[coin_point := Some (coins n)]}.
Definition spend_coins : TxIn := MkTxIn coin_point MaxTxInSequenceNum 0.
Definition pay (t n : Z) : TxOut := MkTxOut (MkToken t (Some (NumToken n)) None) pay_script.
Definition simple_tx (outs : list TxOut) : MsgTx := MkMsgTx 1 [] [spend_coins] outs 0 [].
Definition side_chain (id : Z) : Params := MkParams 100 0 id id 1000 10 50.

Lemma value_conserved_witness : sum_of (in_amount (purse 1000)) FeeCoinTyp [spend_coins] = 1000 /\
  least_fee (side_chain 5) (simple_tx [pay 0 900]) <= sum_of (in_amount (purse 1000)) FeeCoinTyp [spend_coins] - sum_of out_amount FeeCoinTyp (TxOuts (simple_tx [pay 0 900])).
Proof.
  destruct (value_conserved (fun b => b) 5 (side_chain 5) ∅ (simple_tx [pay 0 900]) 9 (purse 1000) (purse 1000) 100 ∅ spend_coins []) as (_ & _ & _ & _ & Hle & _).
  - reflexivity.
  - split_and!; reflexivity.
  - repeat constructor.
  - repeat constructor; unfold sint_range; simpl; lia.
  - constructor; [|constructor]. intros e He. vm_compute in He. injection He as <-. unfold sint_range. simpl. lia.
  - unfold fee_fits. split_and!; vm_compute; congruence.
  - split; [repeat constructor|]. constructor; [|constructor]. intros e He. vm_compute in He. injection He as <-. by vm_compute.
  - vm_compute. reflexivity.
  - vm_compute. reflexivity.
  - vm_compute. reflexivity.
  - split; [vm_compute; reflexivity|]. exact Hle.
Defined.

(** Two types that stand for the fee coin of chain 5 when they are paid out, and the first of them also when it is spent. *)
Definition own_type : Z := Z.shiftl 5 40.
Definition marked_type : Z := Z.shiftl 0x400005 40.

(** Where the types carry the number of the chain, the sum of the outputs overflows: from 1000 fee coins a transaction pays out twice 2^63 - 1, and each of the two is then spent as fee coins. *)
Theorem own_type_mints :
  let n := 2 ^ 63 - 1 in let p := side_chain 5 in let tx := simple_tx [pay own_type n; pay marked_type n] in
  CheckTransactionSanity (fun b => b) tx = Ok None /\ CheckTransactionInputs (fun b => b) 5 p tx 9 (purse 1000) = Ok (None, purse 1000) /\
  CheckTransactionFees 5 p ∅ (purse 1000) tx = Ok (inl (1002, ∅)) /\ local_out_type p own_type = FeeCoinTyp /\ local_out_type p marked_type = FeeCoinTyp /\ local_type p own_type = FeeCoinTyp.
Proof. cbv zeta. split_and!; vm_compute; reflexivity. Qed.

(** The output of the own type is spent as fee coins: the whole supply comes out of it. *)
Theorem minted_type_spends :
  let v := set_utxo (NewViewPointSet empty_db) {[coin_point := Some (MkUtxo own_type (Some (NumToken (2 ^ 63 - 1))) None pay_script 7 0 [])]} in
  let tx := simple_tx [pay FeeCoinTyp MaxHao] in
  CheckTransactionSanity (fun b => b) tx = Ok None /\ CheckTransactionInputs (fun b => b) 5 (side_chain 5) tx 9 v = Ok (None, v) /\
  exists fee, CheckTransactionFees 5 (side_chain 5) ∅ v tx = Ok (inl (fee, ∅)).
Proof. cbv zeta. split_and!; [vm_compute; reflexivity..|]. eexists. vm_compute. reflexivity. Qed.

(** ** Tokens of a hash *)

(** A token that is a hash without rights. *)
Definition live (tk : Token) : bool := bool_decide (Z.land (TokenType tk) 3 = 1).
Definition type_and_value (tk : Token) : Z * option TokenValue := (TokenType tk, Value tk).

Lemma hash_value_inv v h : hash_value v = Ok h -> v = Some (HashToken h).
Proof. destruct v as [[]|]; try done. by intros [= ->]. Qed.

Lemma match_input_spec t inputs : forall inputs', match_input t inputs = Ok (Some inputs') ->
  exists pre tk post, inputs = pre ++ tk :: post /\ inputs' = pre ++ MkToken FeeCoinTyp (Value tk) (Rights tk) :: post /\ type_and_value tk = type_and_value t.
Proof.
  induction inputs as [|tk inputs IH]; intros inputs'; cbn [match_input]; [done|]. destruct (decide (TokenType t = TokenType tk)) as [E|E].
  - destruct (hash_value (Value t)) as [a| |] eqn:Ea; try done. destruct (hash_value (Value tk)) as [b| |] eqn:Eb; try done. rewrite !outcome_bind_ok. unfold IsEqual. case_bool_decide as Eab.
    + intros [= <-]. exists [], tk, inputs. split_and!; [done|done|]. apply hash_value_inv in Ea, Eb. unfold type_and_value. congruence.
    + intros H. apply bind_ok_inv in H as ([l|] & Hl & H); [|done]. injection H as <-. destruct (IH _ Hl) as (pre & tk' & post & -> & -> & Ht). by exists (tk :: pre), tk', post.
  - rewrite outcome_bind_ok. intros H. apply bind_ok_inv in H as ([l|] & Hl & H); [|done]. injection H as <-. destruct (IH _ Hl) as (pre & tk' & post & -> & -> & Ht). by exists (tk :: pre), tk', post.
Qed.

Definition live_outs (outs : list TxOut) : list Token := filter (fun tk => live tk = true) (to_Token <$> filter (fun to => out_IsSeparator to = false) outs).

Lemma match_outputs_spec outs : forall inputs rem, match_outputs outs inputs rem = Ok true -> rem = len (filter (fun tk => live tk = true) inputs) ->
  type_and_value <$> live_outs outs ≡ₚ type_and_value <$> filter (fun tk => live tk = true) inputs.
Proof.
  unfold live_outs. induction outs as [|to outs IH]; intros inputs rem; cbn [match_outputs].
  { intros [= E] ->. apply bool_decide_eq_true in E. by rewrite (nil_length_inv (filter _ inputs)) by lia. }
  rewrite filter_cons. destruct (out_IsSeparator to); [by rewrite decide_False; [apply IH|]|]. rewrite decide_True by done. rewrite fmap_cons, filter_cons. change (bool_decide (Z.land (TokenType (to_Token to)) 3 = 1)) with (live (to_Token to)). simpl orb.
  destruct (live (to_Token to)) eqn:E; [|rewrite decide_False by done; by apply IH]. simpl negb. cbv iota.
  intros H Hrem. apply bind_ok_inv in H as ([inputs'|] & Hm & H); [|done]. destruct (match_input_spec _ _ _ Hm) as (pre & tk & post & -> & -> & Ht). rewrite decide_True by done.
  assert (live tk = true) as Hlive by (unfold live in *; injection Ht as -> _; done).
  rewrite filter_app, filter_cons, decide_True in Hrem |- * by done. rewrite length_app in Hrem. simpl in Hrem. rewrite fmap_cons.
  specialize (IH _ _ H). rewrite filter_app, filter_cons, decide_False in IH by done. rewrite length_app in IH. rewrite IH by lia. rewrite !fmap_app, fmap_cons, Ht. apply Permutation_middle.
Qed.

(** What is in the view stays when other outputs are loaded. *)
Definition keeps (v v' : ViewPointSet) : Prop := forall o e, u_LookupEntry v o = Some e -> u_LookupEntry v' o = Some e.

Lemma fetch_one_keeps o v r v' : u_LookupEntry v o = None -> FetchUtxosMain [o] v = Ok (r, v') -> keeps v v'.
Proof.
  intros Hn H. unfold FetchUtxosMain in H. apply vbind_inv in H as (v1 & v2 & Hg & H). injection Hg as <- <-. rewrite filter_cons in H. case_decide as E.
  - cbn [filter list_filter fetch_each] in H. apply vbind_inv in H as (v1 & v2 & Hg & H). injection Hg as <- <-. apply vbind_inv in H as ([e|err] & v3 & Hd & H).
    + unfold vlift in Hd. destruct (DbFetchUtxoEntry _ o) as [x| |]; try done. injection Hd as -> <-. apply vbind_inv in H as ([] & v4 & Hm & H). injection Hm as <-. injection H as <- <-.
      intros o' e' Ho. unfold u_LookupEntry in *. simpl. rewrite lookup_insert_ne; [done|]. intros ->. congruence.
    + unfold vlift in Hd. destruct (DbFetchUtxoEntry _ o) as [x| |]; try done. injection Hd as -> <-. injection H as <- <-. by intros o' e'.
  - injection H as <- <-. by intros o' e'.
Qed.

(** The tokens of a hash among the inputs, as the view has them. *)
Definition live_ins (v : ViewPointSet) (ins : list TxIn) : list Token :=
  filter (fun tk => live tk = true) (omap (fun i => if in_IsSepadding i then None else (fun e => to_Token (ToTxOut e)) <$> u_LookupEntry v (PreviousOutPoint i)) ins).

Definition all_found (v : ViewPointSet) (ins : list TxIn) : Prop := Forall (fun i => in_IsSepadding i = false -> is_Some (u_LookupEntry v (PreviousOutPoint i))) ins.

Lemma live_ins_sep v i ins : in_IsSepadding i = true -> live_ins v (i :: ins) = live_ins v ins.
Proof. intros E. unfold live_ins. simpl. by rewrite E. Qed.

Lemma live_ins_found v i ins e : in_IsSepadding i = false -> u_LookupEntry v (PreviousOutPoint i) = Some e ->
  live_ins v (i :: ins) = (if live (to_Token (ToTxOut e)) then [to_Token (ToTxOut e)] else []) ++ live_ins v ins.
Proof. intros E El. unfold live_ins. simpl. rewrite E, El. simpl. rewrite filter_cons. destruct (live _); [by rewrite decide_True|by rewrite decide_False]. Qed.

Lemma hash_inputs_spec ins : forall v l v', hash_inputs ins v = Ok (inl l, v') -> l = live_ins v' ins /\ all_found v' ins /\ keeps v v'.
Proof.
  induction ins as [|i ins IH]; intros v l v'; cbn [hash_inputs]; [intros [= <- <-]; split_and!; [done|constructor|by intros o e]|].
  destruct (in_IsSepadding i) eqn:Ep.
  { intros H. destruct (IH _ _ _ H) as (-> & Hf & Hk). split_and!; [by rewrite live_ins_sep|constructor; [congruence|done]|done]. }
  intros H. apply vbind_inv in H as (v1 & v2 & Hg & H). injection Hg as <- <-. apply vbind_inv in H as (x & v1 & Hx & H).
  assert (keeps v v1 /\ x = u_LookupEntry v1 (PreviousOutPoint i)) as [Hk1 Ex].
  { destruct (u_LookupEntry v (PreviousOutPoint i)) as [e|] eqn:El; [injection Hx as <- <-; by split; [intros o e'|]|].
    apply vbind_inv in Hx as (r & v2 & Hf & Hx). apply vbind_inv in Hx as (v3 & v4 & Hg & Hx). injection Hg as <- <-. injection Hx as <- <-. split; [by eapply fetch_one_keeps|done]. }
  destruct x as [e|]; [|done]. symmetry in Ex. apply vbind_inv in H as ([l'|err] & v2 & Hl & H); [|done]. injection H as <- <-. destruct (IH _ _ _ Hl) as (-> & Hf & Hk). split_and!.
  - rewrite (live_ins_found _ _ _ e) by auto. unfold live. simpl. destruct (decide (Z.land (ue_TokenType e) 3 = 1)) as [E|E]; [by rewrite bool_decide_eq_true_2|by rewrite bool_decide_eq_false_2].
  - constructor; [intros _; exists e; by apply Hk|done].
  - intros o e' Ho. by apply Hk, Hk1.
Qed.

(** The transactions that the check lets pass at once: from Bitcoin, from another chain, coin bases. *)
Definition exempt (tx : MsgTx) : bool := IsBtcL2 tx || tx_IsCrossChain tx || match TxIns tx with i :: _ => spends_nothing i | [] => false end.

(** C19: Tokens that are a hash and carry no rights pass through a transaction unchanged.  When the check of the integrity finds nothing, then either the transaction is a coin base
    or comes from Bitcoin or from another chain, for which nothing is looked at; or every output that it spends is in the view, and the tokens of this kind among its outputs are
    exactly those that its inputs spend, each as often. *)
Theorem hash_tokens_conserved (tx : MsgTx) (v v' : ViewPointSet) (Hok : hash_tokens_integral tx v = Ok (None, v')) :
  if exempt tx then v' = v
  else all_found v' (TxIns tx) /\ type_and_value <$> live_outs (TxOuts tx) ≡ₚ type_and_value <$> live_ins v' (TxIns tx).
Proof.
  revert Hok. unfold hash_tokens_integral. fold (exempt tx). destruct (exempt tx); [by intros [= <-]|]. intros H.
  apply vbind_inv in H as ([l|err] & v1 & Hl & H); [|done]. apply vbind_inv in H as (ok & v2 & Hm & H). unfold vlift in Hm. destruct (match_outputs (TxOuts tx) l (len l)) as [b| |] eqn:Em; try done. injection Hm as -> <-.
  destruct ok; [|done]. injection H as <-. destruct (hash_inputs_spec _ _ _ _ Hl) as (-> & Hf & _). split; [done|].
  assert (filter (fun tk => live tk = true) (live_ins v1 (TxIns tx)) = live_ins v1 (TxIns tx)) as Efil by (unfold live_ins; by apply list_filter_filter_l).
  rewrite <- Efil. apply (match_outputs_spec _ _ _ Em). by rewrite Efil.
Qed.

(** A view with one output, the token of a hash. *)
Definition keepsake : TokenValue := HashToken (replicate 32 9).
Definition one_hash : ViewPointSet := set_utxo (NewViewPointSet empty_db) {[coin_point := Some (MkUtxo 1 (Some keepsake) None pay_script 7 0 [])]}.
Definition pass_on : MsgTx := simple_tx [MkTxOut (MkToken 1 (Some keepsake) None) pay_script].

Lemma hash_tokens_conserved_witness : all_found one_hash (TxIns pass_on) /\ type_and_value <$> live_outs (TxOuts pass_on) ≡ₚ type_and_value <$> live_ins one_hash (TxIns pass_on).
Proof. apply (hash_tokens_conserved pass_on one_hash one_hash). vm_compute. reflexivity. Defined.
