(* ===== verification/TxRights.v ===== *)
(** * The rights of tokens in a transaction

    Models omega/validate/rights.go (the reading of the rights and [QuickCheckRight]) with
    [GetRight] of omega/viewpoint/right.go.

    [QuickCheckRight] sums the amounts by type, right and polygon in a map and then, as long
    as it changes something, goes over the map: an amount of a negative right is kept as an
    amount of the complement of the positive one, and where both the right and its complement
    have an amount, it goes up to the father.  The order in which Go visits a map is not
    fixed, and an entry that is added while it is visited may or may not be visited: the
    order of every pass is an argument, and the theorems hold for all orders.  *)
From Stdlib Require Import ZArith Lia Morphisms.
From stdpp Require Import gmap list.
From S2P Require Import Prelude Wire Token MsgTx MsgBlock ViewDb UtxoEntry BorderEntry DefEntry ViewSet PolygonGeom UtxoView TxDefs TxCheck.

Open Scope Z_scope.

(** ** Looking for a right *)

(** What an interface holds: nothing, or a pointer, which may be nil. *)
Inductive right_iface := INil | IRight (e : option RightEntry) | ISet (e : option RightSetEntry).

Definition in_view (v : ViewPointSet) (h : list Z) : option right_item := v_Rights v !! h.

(** Entries that are not in the view are loaded, without flags; errors are not reported. *)
Definition FetchRight (h : list Z) : vm unit := fun v =>
  match in_view v h with
  | Some _ => Ok ((), v)
  | None => '(e, err) ← DbFetchRight (rights (v_Db v)) h; match e, err with Some e, None => put_right h (ri_set_flags e 0) v | _, _ => Ok ((), v) end
  end.
Definition GetRight (hash : list Z) : vm right_iface :=
  if IsEqual hash zero_hash then mret INil
  else
    v ← vget;
    match LookupRightEntry v hash, LookupRightSetEntry v hash with
    | Some e, _ => mret (IRight (Some e))
    | None, Some e => mret (ISet (Some e))
    | None, None =>
        _ ← FetchRight hash;
        v ← vget;
        match LookupRightEntry v hash with Some e => mret (IRight (Some e)) | None => mret (ISet (LookupRightSetEntry v hash)) end
    end.

(** The rights and the sets that the transaction defines come after those of the view. *)
Definition unirightfetch (right : list Z) (defdrights : gmap (list Z) RightEntry) (defdrsets : option (gmap (list Z) RightSetEntry)) : vm right_iface :=
  p ← GetRight right;
  mret (match p with
        | IRight None | ISet None =>
            match defdrights !! right with
            | Some u => IRight (Some u)
            | None => match (match defdrsets with Some m => m !! right | None => None end) with Some u => ISet (Some u) | None => IRight None end
            end
        | p => p
        end).

(** [monitored]: the type assertion panics on a right that is not found and on a set. *)
Fixpoint monitored (rs : list (list Z)) : vm bool :=
  match rs with
  | [] => mret false
  | d :: rs => e ← FetchRightEntry d; e ← vnonnil e; e ← the_right e; if decide (Z.land (re_Attrib e) Monitored <> 0) then mret true else monitored rs
  end.

Section Rights.
Context (HashH : list Z -> list Z).

(** ** The sums *)

Record tokenRElement := MkRElement { tr_tokenType : Z; tr_right : list Z; tr_polygon : list Z }.
Global Instance tokenRElement_eq_dec : EqDecision tokenRElement.
Proof. solve_decision. Defined.
Global Instance tokenRElement_countable : Countable tokenRElement.
Proof. apply (inj_countable' (fun e => (tr_tokenType e, tr_right e, tr_polygon e)) (fun p => MkRElement p.1.1 p.1.2 p.2)). by intros []. Defined.

Abbreviation sums := (gmap tokenRElement Z).

(** [m[k] += n]: a key that is not there counts as 0. *)
Definition sum_add (m : sums) (k : tokenRElement) (n : Z) : sums := <[k := i64 (default 0 (m !! k) + n)]> m.
Definition add_rights (t : Z) (rs : list (list Z)) (polygon : list Z) (n : Z) (res : sums) : sums := foldl (fun res r => sum_add res (MkRElement t r polygon) n) res rs.

(** The polygon and the amount of a token with rights. *)
Definition r_amount (t : Z) (v : option TokenValue) : outcome (list Z * Z) :=
  if decide (Z.land t 1 = 1) then h ← hash_value v; Ok (h, 1) else n ← num_value v; Ok (zero_hash, n).

(** An amount is added for a right, or for each right of a set; an interface that is nil adds nothing. *)
Definition add_found (p : right_iface) (t : Z) (right polygon : list Z) (n : Z) (res : sums) : option sums :=
  match p with
  | INil => Some res
  | IRight None | ISet None => None
  | IRight (Some _) => Some (sum_add res (MkRElement t right polygon) n)
  | ISet (Some s) => Some (add_rights t (rs_Rights s) polygon n res)
  end.

Fixpoint io_ins (ins : list TxIn) (res : sums) : vm (option sums) :=
  match ins with
  | [] => mret (Some res)
  | i :: ins =>
      if spends_nothing i then io_ins ins res
      else
        v ← vget;
        e ← vnonnil (u_LookupEntry v (PreviousOutPoint i));
        let t := ue_TokenType e in
        if decide (Z.land t 2 = 0) then io_ins ins res
        else
          '(polygon, n) ← vlift (r_amount t (ue_Amount e));
          r ← vnonnil (ue_Rights e);
          p ← GetRight r;
          match add_found p t r polygon (i64 (- n)) res with Some res => io_ins ins res | None => mret None end
  end.

(** What is not a right is taken for a set of rights. *)
Fixpoint right_defs (defs : list definition) (rts : gmap (list Z) RightEntry) (sets : gmap (list Z) RightSetEntry) : outcome (gmap (list Z) RightEntry * gmap (list Z) RightSetEntry) :=
  match defs with
  | [] => Ok (rts, sets)
  | d :: defs =>
      if def_IsSeparator d then right_defs defs rts sets
      else
        '(h, d) ← Hash HashH d;
        match d with
        | DRight _ father desc attrib => right_defs defs (<[h := MkRight father zero_hash 0 desc attrib 0]> rts) sets
        | DRightSet _ rs _ => right_defs defs rts (<[h := MkRightSet rs 0]> sets)
        | _ => Panic
        end
  end.

Fixpoint io_outs (rts : gmap (list Z) RightEntry) (sets : gmap (list Z) RightSetEntry) (outs : list TxOut) (res : sums) : vm (option sums) :=
  match outs with
  | [] => mret (Some res)
  | x :: outs =>
      let t := TokenType (to_Token x) in
      if out_IsSeparator x || bool_decide (Z.land t 2 = 0) then io_outs rts sets outs res
      else
        '(polygon, n) ← vlift (r_amount t (Value (to_Token x)));
        r ← vnonnil (Rights (to_Token x));
        p ← unirightfetch r rts (Some sets);
        match add_found p t r polygon n res with Some res => io_outs rts sets outs res | None => mret None end
  end.

Definition ioRTokens (tx : MsgTx) : vm (option (sums * gmap (list Z) RightEntry)) :=
  res ← (if tx_IsCrossChain tx then mret (Some ∅) else io_ins (TxIns tx) ∅);
  match res with
  | None => mret None
  | Some res =>
      '(rts, sets) ← vlift (right_defs (TxDef tx) ∅ ∅);
      res ← io_outs rts sets (TxOuts tx) res;
      mret (match res with Some res => Some (res, rts) | None => None end)
  end.

(** ** Going up to the fathers *)

Record Sums := MkSums { sumVals : sums; siblingVals : sums }.

Definition negative (g : RightEntry) : bool := bool_decide (Z.land (re_Attrib g) 1 <> 0).
(** The hash of the right with [Attrib &= 0xFE]. *)
Definition positive (g : RightEntry) : outcome (list Z) := def_hash HashH (DRight None (re_Father g) (re_Desc g) (Z.land (re_Attrib g) 0xFE)).
Definition with_right (te : tokenRElement) (r : list Z) : tokenRElement := MkRElement (tr_tokenType te) r (tr_polygon te).
Definition add_sum (st : Sums) (te : tokenRElement) (n : Z) : Sums := MkSums (sum_add (sumVals st) te n) (siblingVals st).
Definition add_sibling (st : Sums) (te : tokenRElement) (n : Z) : Sums := MkSums (sumVals st) (sum_add (siblingVals st) te n).
Definition drop_zero (m : sums) (te : tokenRElement) : sums := if decide (m !! te = Some 0) then delete te m else m.
(** [m] goes from the right and its complement. *)
Definition take_both (st : Sums) (te : tokenRElement) (m : Z) : Sums :=
  MkSums (drop_zero (sum_add (sumVals st) te (- m)) te) (drop_zero (sum_add (siblingVals st) te (- m)) te).

(** [g] is the right of [te]. *)
Fixpoint climb (rts : gmap (list Z) RightEntry) (fuel : nat) (te : tokenRElement) (g : RightEntry) (tks : Z) (st : Sums) (checking : bool) : vm (option (Sums * bool)) :=
  match siblingVals st !! te with
  | None => mret (Some (st, checking))
  | Some s =>
      if decide (0 < i64 (s * tks)) then
        match fuel with
        | O => vnofuel
        | S fuel =>
            let m := if decide (abs64 s < abs64 tks) then s else tks in
            let st := take_both st te m in
            let father := re_Father g in
            g ← unirightfetch father rts None;
            match g with
            | IRight (Some g) =>
                '(te, st) ← (if negative g then pos ← vlift (positive g); let te := with_right te pos in mret (te, add_sibling st te m)
                             else let te := with_right te father in mret (te, add_sum st te m));
                climb rts fuel te g (default 0 (sumVals st !! te)) st true
            | _ => mret None
            end
        end
      else mret (Some (st, checking))
  end.

(** One entry of the map: the pass is repeated when something was done. *)
Definition visit (rts : gmap (list Z) RightEntry) (fuel : nat) (i : tokenRElement) (tks : Z) (st : Sums) (checking : bool) : vm (option (Sums * bool)) :=
  if decide (tks = 0) then mret (Some (MkSums (delete i (sumVals st)) (siblingVals st), true))
  else
    g ← unirightfetch (tr_right i) rts None;
    match g with
    | IRight (Some g) =>
        if negative g then
          pos ← vlift (positive g);
          let te := with_right i pos in
          let st := add_sibling st te tks in
          climb rts fuel te g tks (MkSums (delete i (sumVals st)) (siblingVals st)) true
        else climb rts fuel i g tks st checking
    | _ => mret None
    end.

(** A pass over the map, in the order that is given: an entry that is not there any more is not visited. *)
Fixpoint pass (rts : gmap (list Z) RightEntry) (fuel : nat) (order : list tokenRElement) (st : Sums) (checking : bool) : vm (option (Sums * bool)) :=
  match order with
  | [] => mret (Some (st, checking))
  | i :: order =>
      match sumVals st !! i with
      | None => pass rts fuel order st checking
      | Some tks => r ← visit rts fuel i tks st checking; match r with Some (st, checking) => pass rts fuel order st checking | None => mret None end
      end
  end.

Fixpoint passes (rts : gmap (list Z) RightEntry) (fuel : nat) (orders : list (list tokenRElement)) (st : Sums) : vm (option Sums) :=
  if decide (sumVals st = ∅) then mret (Some st)
  else
    match orders with
    | [] => vnofuel
    | order :: orders =>
        r ← pass rts fuel order st false;
        match r with Some (st, checking) => if checking : bool then passes rts fuel orders st else mret (Some st) | None => mret None end
    end.

(** ** The check *)

(** The outputs with bits in [TokenType&3] are skipped before these bits are looked at. *)
Fixpoint zero_checked (outs : list TxOut) : outcome (option rule_err) :=
  match outs with
  | [] => Ok None
  | x :: outs =>
      let t := TokenType (to_Token x) in
      if out_IsSeparator x || negb (bool_decide (Z.land t 3 = 0)) then zero_checked outs
      else
        zero ← (if decide (Z.land t 1 <> 0) then h ← hash_value (Value (to_Token x)); Ok (IsEqual h zero_hash) else Ok false);
        if zero : bool then Ok (Some BadDefinition)
        else if bool_decide (Z.land t 2 <> 0) && match Rights (to_Token x) with None => true | Some r => IsEqual r zero_hash end then Ok (Some RightUndefined)
        else zero_checked outs
  end.

Definition is_polygon_def (d : definition) : bool := match d with DPolygon _ _ => true | _ => false end.

(** At most one polygon among the outputs; it is returned with the verdict. *)
Fixpoint one_polygon (outs : list TxOut) (checkPolygon : bool) (polyhash : list Z) : outcome (bool * list Z) :=
  match outs with
  | [] => Ok (checkPolygon, polyhash)
  | x :: outs =>
      if negb (out_IsSeparator x) && bool_decide (TokenType (to_Token x) = PolyGonType) && checkPolygon then
        h ← hash_value (Value (to_Token x));
        if IsEqual polyhash zero_hash then one_polygon outs checkPolygon h else one_polygon outs (IsEqual h polyhash) polyhash
      else one_polygon outs checkPolygon polyhash
  end.

(** The polygons of the inputs are that one, without monitored rights; [None] is an input without rights. *)
Fixpoint same_polygon (ins : list TxIn) (checkPolygon : bool) (polyhash : list Z) : vm (option bool) :=
  match ins with
  | [] => mret (Some checkPolygon)
  | i :: ins =>
      if spends_nothing i then same_polygon ins checkPolygon polyhash
      else
        v ← vget;
        e ← vnonnil (u_LookupEntry v (PreviousOutPoint i));
        if bool_decide (ue_TokenType e = PolyGonType) && checkPolygon then
          match ue_Rights e with
          | None => mret None
          | Some r =>
              rt ← GetRight r;
              m ← (match rt with
                   | ISet (Some s) => monitored (rs_Rights s)
                   | ISet None => vpanic
                   | IRight _ => monitored [r]
                   | INil => mret false
                   end);
              other ← (if (m : bool) || IsEqual polyhash zero_hash then mret true else h ← vlift (hash_value (ue_Amount e)); mret (negb (IsEqual h polyhash)));
              same_polygon ins (negb other) polyhash
          end
        else same_polygon ins checkPolygon polyhash
  end.

(** An entry whose type is not that of polygons is left with an amount. *)
Definition unbalanced (m : sums) : bool := existsb (fun kv => negb (bool_decide (tr_tokenType kv.1 = PolyGonType)) && negb (bool_decide (kv.2 = 0))) (map_to_list m).

Definition QuickCheckRight (fuel : nat) (orders : list (list tokenRElement)) (tx : MsgTx) : vm (bool * option rule_err) :=
  e ← vlift (zero_checked (TxOuts tx));
  match e with
  | Some e => mret (false, Some e)
  | None =>
      '(checkPolygon, polyhash) ← (if existsb is_polygon_def (TxDef tx) then mret (false, zero_hash) else vlift (one_polygon (TxOuts tx) true zero_hash));
      c ← (if (checkPolygon : bool) && negb (tx_IsCrossChain tx) then same_polygon (TxIns tx) true polyhash else mret (Some checkPolygon));
      match c with
      | None => mret (false, Some RightUndefined)
      | Some checkPolygon =>
          io ← ioRTokens tx;
          match io with
          | None => mret (false, Some RightUndefined)
          | Some (sumVals, rts) =>
              r ← passes rts fuel orders (MkSums sumVals ∅);
              match r with
              | None => mret (false, Some RightUndefined)
              | Some (MkSums sumVals siblingVals) =>
                  if unbalanced sumVals || unbalanced siblingVals then mret (false, Some ErrNotIntegral)
                  else mret (bool_decide (sumVals = ∅) && bool_decide (siblingVals = ∅) && checkPolygon, None)
              end
          end
      end
  end.
End Rights.

(** ** Numbers modulo 2^64 *)

Definition eq64 (a b : Z) : Prop := exists q, a = b + q * 2 ^ 64.
Global Instance eq64_equiv : Equivalence eq64.
Proof.
  split; [intros a; exists 0; lia|intros a b [q ->]; exists (- q); lia|intros a b c [q ->] [r ->]; exists (q + r); lia].
Qed.
Global Instance eq64_add : Proper (eq64 ==> eq64 ==> eq64) Z.add.
Proof. intros a b [q ->] c d [r ->]. exists (q + r). lia. Qed.
Global Instance eq64_sub : Proper (eq64 ==> eq64 ==> eq64) Z.sub.
Proof. intros a b [q ->] c d [r ->]. exists (q - r). lia. Qed.
Global Instance eq64_mul : Proper (eq64 ==> eq64 ==> eq64) Z.mul.
Proof. intros a b [q ->] c d [r ->]. exists (b * r + q * d + q * r * 2 ^ 64). lia. Qed.
Lemma eq64_i64 a : eq64 (i64 a) a.
Proof. exists (- ((a + 2 ^ 63) / 2 ^ 64)). unfold swrap. change (64 - 1) with 63. pose proof (Z.div_mod (a + 2 ^ 63) (2 ^ 64)). lia. Qed.
Lemma eq64_range a b : uint_range 64 a -> uint_range 64 b -> eq64 a b -> a = b.
Proof. unfold uint_range. intros Ha Hb [q ->]. nia. Qed.
Lemma eq64_of_eq a b : a = b -> eq64 a b.
Proof. intros ->. reflexivity. Qed.

(** ** What the sums are worth *)

(** The sum of the amounts, each times the worth of its key. *)
Definition total (F : tokenRElement -> Z) (m : gmap tokenRElement Z) : Z := map_fold (fun k n acc => n * F k + acc) 0 m.

Lemma total_empty F : total F ∅ = 0.
Proof. done. Qed.
Lemma total_new F m k n : m !! k = None -> total F (<[k := n]> m) = n * F k + total F m.
Proof. intros E. unfold total. rewrite map_fold_insert_L; [done|intros; lia|done]. Qed.
Lemma total_delete F m k : total F (delete k m) = total F m - default 0 (m !! k) * F k.
Proof.
  destruct (m !! k) as [n|] eqn:E; simpl.
  - rewrite <- (insert_delete_id m k n E) at 2. rewrite total_new by apply lookup_delete_eq. lia.
  - rewrite delete_id by done. lia.
Qed.
Lemma total_insert F m k n : total F (<[k := n]> m) = total F m + (n - default 0 (m !! k)) * F k.
Proof. rewrite <- insert_delete_eq, total_new by apply lookup_delete_eq. rewrite total_delete. lia. Qed.

Lemma total_add F m k n : eq64 (total F (sum_add m k n)) (total F m + n * F k).
Proof. unfold sum_add. rewrite total_insert, eq64_i64. apply eq64_of_eq. lia. Qed.
Lemma total_drop F m k : total F (drop_zero m k) = total F m.
Proof. unfold drop_zero. case_decide as E; [|done]. rewrite total_delete, E. simpl. lia. Qed.

Lemma total_rights F t rs poly n m : eq64 (total F (add_rights t rs poly n m)) (total F m + n * foldr (fun r acc => F (MkRElement t r poly) + acc) 0 rs).
Proof.
  unfold add_rights. revert m. induction rs as [|r rs IH]; intros m; simpl; [apply eq64_of_eq; lia|]. rewrite IH, total_add. apply eq64_of_eq. lia.
Qed.

(** ** Rights in a view *)

(** What a hash stands for, in the view or the database. *)
Definition item_of (v : ViewPointSet) (h : list Z) : option right_item :=
  match v_Rights v !! h with
  | Some x => Some x
  | None => match DbFetchRight (rights (v_Db v)) h with Ok (x, None) => x | _ => None end
  end.
(** The right of a hash: also one that the transaction defines. *)
Definition right_of (rts : gmap (list Z) RightEntry) (v : ViewPointSet) (h : list Z) : option RightEntry :=
  if IsEqual h zero_hash then None else match item_of v h with Some (RRight e) => Some e | Some (RSet _) => None | None => rts !! h end.

Record loads (v v' : ViewPointSet) : Prop := MkLoads { lo_utxo : v_Utxo v' = v_Utxo v; lo_item : forall h, item_of v' h = item_of v h }.
Global Instance loads_preorder : PreOrder loads.
Proof. split; [by intros v; constructor|]. intros v1 v2 v3 [A1 A2] [B1 B2]. constructor; [congruence|]. intros h. by rewrite B2. Qed.

Lemma decode_no_flags s x : decodeRight s = Ok (Some x) -> ri_set_flags x 0 = x.
Proof.
  unfold decodeRight. intros H. apply bind_ok_inv in H as (tag & _ & H). destruct (decide (tag = 0)).
  - apply bind_ok_inv in H as (f & _ & H). apply bind_ok_inv in H as (a & _ & H). apply bind_ok_inv in H as (r & _ & H). apply bind_ok_inv in H as (d & _ & H). apply bind_ok_inv in H as (ds & _ & H). by injection H as <-.
  - destruct (decide (tag = 1)); [|done]. apply bind_ok_inv in H as (hs & _ & H). by injection H as <-.
Qed.
Lemma db_no_flags b h x err : DbFetchRight b h = Ok (Some x, err) -> ri_set_flags x 0 = x /\ err = None.
Proof. unfold DbFetchRight. destruct (b_Get b h) as [s|]; [|done]. intros H. apply bind_ok_inv in H as (r & Hr & H). injection H as -> <-. split; [by eapply decode_no_flags|done]. Qed.

Lemma loads_insert v h x : v_Rights v !! h = None -> item_of v h = Some x -> loads v (set_rights v (<[h := x]> (v_Rights v))).
Proof.
  intros E Hx. constructor; [done|]. intros h'. unfold item_of. simpl. destruct (decide (h' = h)) as [->|Hn]; [|by rewrite lookup_insert_ne].
  rewrite lookup_insert_eq, E. unfold item_of in Hx. by rewrite E in Hx.
Qed.

Lemma fetch_loads h v x v' : FetchRightEntry h v = Ok (x, v') -> loads v v' /\ (x = item_of v h).
Proof.
  unfold FetchRightEntry, item_of. destruct (v_Rights v !! h) as [e|] eqn:E; [by intros [= <- <-]|]. intros H. apply bind_ok_inv in H as ([[e|] err] & He & H); rewrite He.
  - destruct (db_no_flags _ _ _ _ He) as [_ ->]. injection H as <- <-. split; [|done]. apply loads_insert; [done|]. unfold item_of. by rewrite E, He.
  - injection H as <- <-. split; [done|]. by destruct err.
Qed.

(** What [GetRight] finds. *)
Definition iface_of (x : option right_item) : right_iface := match x with Some (RRight e) => IRight (Some e) | Some (RSet e) => ISet (Some e) | None => ISet None end.
Lemma get_right_loads h v p v' : GetRight h v = Ok (p, v') -> loads v v' /\ p = if IsEqual h zero_hash then INil else iface_of (item_of v h).
Proof.
  unfold GetRight. destruct (IsEqual h zero_hash); [by intros [= <- <-]|]. intros H. apply vbind_inv in H as (v1 & v2 & Hg & H). injection Hg as <- <-.
  unfold LookupRightEntry, LookupRightSetEntry in H. destruct (v_Rights v !! h) as [[e|e]|] eqn:E.
  1-2: injection H as <- <-; unfold item_of; by rewrite E.
  apply vbind_inv in H as ([] & v1 & Hf & H). apply vbind_inv in H as (v2 & v3 & Hg & H). injection Hg as <- <-.
  unfold FetchRight, in_view in Hf. rewrite E in Hf. apply bind_ok_inv in Hf as ([[e|] err] & He & Hf).
  - destruct (db_no_flags _ _ _ _ He) as [Efl ->]. rewrite Efl in Hf. injection Hf as <-. simpl in H. rewrite lookup_insert_eq in H.
    assert (item_of v h = Some e) as Ei by (unfold item_of; by rewrite E, He). rewrite Ei. split; [|by destruct e; injection H as <-].
    destruct e; injection H as _ <-; by apply loads_insert.
  - injection Hf as <-. rewrite E in H. injection H as <- <-. split; [done|]. unfold item_of. rewrite E, He. by destruct err.
Qed.

Lemma unirightfetch_loads h rts sets v p v' : unirightfetch h rts sets v = Ok (p, v') -> loads v v' /\ (forall g, p = IRight (Some g) <-> right_of rts v h = Some g).
Proof.
  intros H. unfold unirightfetch in H. apply vbind_inv in H as (q & v1 & Hq & H). injection H as <- <-. destruct (get_right_loads _ _ _ _ Hq) as [Hl ->]. split; [done|]. intros g. unfold right_of.
  destruct (IsEqual h zero_hash); [done|]. destruct (item_of v h) as [[e|e]|]; simpl; [naive_solver|done|]. destruct (rts !! h) as [u|]; [naive_solver|].
  destruct (match sets with Some m => m !! h | None => None end); done.
Qed.

Definition found (rts : gmap (list Z) RightEntry) (sets : gmap (list Z) RightSetEntry) (v : ViewPointSet) (r : list Z) : right_iface :=
  if IsEqual r zero_hash then INil
  else match item_of v r with
       | Some x => iface_of (Some x)
       | None => match rts !! r with Some u => IRight (Some u) | None => match sets !! r with Some u => ISet (Some u) | None => IRight None end end
       end.
Lemma unirightfetch_found h rts sets v p v' : unirightfetch h rts (Some sets) v = Ok (p, v') -> loads v v' /\ p = found rts sets v h.
Proof.
  intros H. unfold unirightfetch in H. apply vbind_inv in H as (q & v1 & Hq & H). injection H as <- <-. destruct (get_right_loads _ _ _ _ Hq) as [Hl ->]. split; [done|]. unfold found.
  destruct (IsEqual h zero_hash); [done|]. by destruct (item_of v h) as [[e|e]|].
Qed.

(** ** What is kept *)

(** Worths of the rights: a right that is split is worth its positive part and the complement of that part, which is what the negative right is. *)
Record additive (HashH : list Z -> list Z) (rts : gmap (list Z) RightEntry) (v : ViewPointSet) (f complement : list Z -> Z) : Prop := MkAdditive {
  ad_positive : forall h g, right_of rts v h = Some g -> negative g = false -> f (re_Father g) = f h + complement h;
  ad_negative : forall h g p, right_of rts v h = Some g -> negative g = true -> positive HashH g = Ok p -> f (re_Father g) = f p + complement p /\ f h = complement p;
}.

Lemma right_of_loads rts v v' h : loads v v' -> right_of rts v' h = right_of rts v h.
Proof. intros Hl. unfold right_of. by rewrite (lo_item _ _ Hl). Qed.
Lemma additive_loads HashH rts v v' f c : additive HashH rts v f c -> loads v v' -> additive HashH rts v' f c.
Proof. intros [H1 H2] Hl. constructor; intros h g; rewrite (right_of_loads _ _ _ _ Hl); [apply H1|apply H2]. Qed.

Section Worth.
Context (HashH : list Z -> list Z) (rts : gmap (list Z) RightEntry) (f complement : list Z -> Z) (t : Z) (poly : list Z).

(** Only the amounts of one type and one polygon count. *)
Definition of_kind (g : list Z -> Z) (k : tokenRElement) : Z := if decide (tr_tokenType k = t /\ tr_polygon k = poly) then g (tr_right k) else 0.
Definition worth (st : Sums) : Z := total (of_kind f) (sumVals st) + total (of_kind complement) (siblingVals st).

Lemma kind_split te g : f (re_Father g) = f (tr_right te) + complement (tr_right te) -> of_kind f (with_right te (re_Father g)) = of_kind f te + of_kind complement te.
Proof. unfold of_kind. simpl. intros E. case_decide; lia. Qed.
Lemma kind_swap te p : f (tr_right te) = complement p -> of_kind complement (with_right te p) = of_kind f te.
Proof. unfold of_kind. simpl. intros E. case_decide; lia. Qed.

Lemma worth_take st te m : eq64 (worth (take_both st te m)) (worth st - m * (of_kind f te + of_kind complement te)).
Proof. unfold worth. simpl. rewrite !total_drop, !total_add. apply eq64_of_eq. lia. Qed.
Lemma worth_sum st te n : eq64 (worth (add_sum st te n)) (worth st + n * of_kind f te).
Proof. unfold worth. simpl. rewrite total_add. apply eq64_of_eq. lia. Qed.
Lemma worth_sibling st te n : eq64 (worth (add_sibling st te n)) (worth st + n * of_kind complement te).
Proof. unfold worth. simpl. rewrite total_add. apply eq64_of_eq. lia. Qed.

Lemma climb_worth fuel : forall te g tks st c v st' c' v', additive HashH rts v f complement -> f (re_Father g) = f (tr_right te) + complement (tr_right te) ->
  climb HashH rts fuel te g tks st c v = Ok (Some (st', c'), v') -> loads v v' /\ eq64 (worth st') (worth st).
Proof.
  induction fuel as [|fuel IH]; intros te g tks st c v st' c' v' Ha Hg; cbn [climb]; (destruct (siblingVals st !! te) as [s|]; [|by intros [= <- _ <-]]); (case_decide; [|by intros [= <- _ <-]]); [done|].
  intros H1. apply vbind_inv in H1 as (p & v1 & Hp & H1). destruct (unirightfetch_loads _ _ _ _ _ _ Hp) as [Hl Hr]. destruct p as [|[g'|]|]; try done.
  specialize (Hr g'). destruct Hr as [Hr _]. specialize (Hr eq_refl). set (m := if decide (abs64 s < abs64 tks) then s else tks) in *.
  assert (additive HashH rts v1 f complement) as Ha1 by (by eapply additive_loads). pose proof (kind_split te g Hg) as Hk.
  apply vbind_inv in H1 as ([te' st1] & v2 & Hs & H1). destruct (negative g') eqn:En.
  - apply vbind_inv in Hs as (pos & v3 & Hpos & Hs). unfold vlift in Hpos. destruct (positive HashH g') as [pos'| |] eqn:Ep; try done. injection Hpos as -> <-. injection Hs as <- <- <-.
    destruct (ad_negative _ _ _ _ _ Ha _ _ _ Hr En Ep) as [Hf Hc]. apply IH in H1 as [Hl2 Hw]; [|done|done]. split; [by transitivity v1|].
    pose proof (kind_swap (with_right te (re_Father g)) pos Hc : of_kind complement (with_right te pos) = _) as Ek.
    rewrite Hw, worth_sibling, worth_take, Ek, Hk. apply eq64_of_eq. lia.
  - injection Hs as <- <- <-. apply IH in H1 as [Hl2 Hw]; [|done|exact (ad_positive _ _ _ _ _ Ha _ _ Hr En)]. split; [by transitivity v1|].
    rewrite Hw, worth_sum, worth_take, Hk. apply eq64_of_eq. lia.
Qed.

Lemma worth_remove m sib i n : m !! i = Some n -> worth (MkSums (delete i m) sib) = worth (MkSums m sib) - n * of_kind f i.
Proof. intros E. unfold worth. simpl. rewrite total_delete, E. simpl. lia. Qed.

Lemma visit_worth fuel i tks st c v st' c' v' : additive HashH rts v f complement -> sumVals st !! i = Some tks ->
  visit HashH rts fuel i tks st c v = Ok (Some (st', c'), v') -> loads v v' /\ eq64 (worth st') (worth st).
Proof.
  intros Ha Hi. unfold visit. destruct (decide (tks = 0)) as [->|Hn].
  { intros [= <- _ <-]. split; [done|]. rewrite (worth_remove _ _ _ _ Hi). destruct st. cbn [sumVals siblingVals]. apply eq64_of_eq. lia. }
  intros H. apply vbind_inv in H as (p & v1 & Hp & H). destruct (unirightfetch_loads _ _ _ _ _ _ Hp) as [Hl Hr]. destruct p as [|[g|]|]; try done.
  specialize (Hr g). destruct Hr as [Hr _]. specialize (Hr eq_refl). assert (additive HashH rts v1 f complement) as Ha1 by (by eapply additive_loads). destruct (negative g) eqn:En.
  - apply vbind_inv in H as (pos & v3 & Hpos & H). unfold vlift in Hpos. destruct (positive HashH g) as [pos'| |] eqn:Ep; try done. injection Hpos as -> <-.
    destruct (ad_negative _ _ _ _ _ Ha _ _ _ Hr En Ep) as [Hf Hc]. apply climb_worth in H as [Hl2 Hw]; [|done|done]. split; [by transitivity v1|].
    rewrite Hw. rewrite (worth_remove _ _ _ tks) by done. pose proof (worth_sibling st (with_right i pos) tks) as Hs. unfold add_sibling in Hs at 1. cbn [sumVals siblingVals add_sibling] in *. rewrite Hs, kind_swap by done. apply eq64_of_eq. lia.
  - apply climb_worth in H as [Hl2 Hw]; [|done|exact (ad_positive _ _ _ _ _ Ha _ _ Hr En)]. split; [by transitivity v1|done].
Qed.

Lemma pass_worth fuel order : forall st c v st' c' v', additive HashH rts v f complement ->
  pass HashH rts fuel order st c v = Ok (Some (st', c'), v') -> loads v v' /\ eq64 (worth st') (worth st).
Proof.
  induction order as [|i order IH]; intros st c v st' c' v' Ha; cbn [pass]; [by intros [= <- _ <-]|]. destruct (sumVals st !! i) as [tks|] eqn:Ei; [|by apply IH].
  intros H. apply vbind_inv in H as ([[st1 c1]|] & v1 & Hv & H); [|done]. apply visit_worth in Hv as [Hl Hw]; [|done|done]. apply IH in H as [Hl' Hw']; [|by eapply additive_loads]. split; [by transitivity v1|by rewrite Hw', Hw].
Qed.

Lemma passes_worth fuel orders : forall st v st' v', additive HashH rts v f complement ->
  passes HashH rts fuel orders st v = Ok (Some st', v') -> loads v v' /\ eq64 (worth st') (worth st).
Proof.
  induction orders as [|order orders IH]; intros st v st' v' Ha; cbn [passes]; (destruct (decide (sumVals st = ∅)); [by intros [= <- <-]|]); [done|].
  intros H. apply vbind_inv in H as ([[st1 c1]|] & v1 & Hv & H); [|done]. apply pass_worth in Hv as [Hl Hw]; [|done]. destruct c1; [|injection H as <- <-; by split].
  apply IH in H as [Hl' Hw']; [|by eapply additive_loads]. split; [by transitivity v1|by rewrite Hw', Hw].
Qed.
End Worth.

(** ** What the inputs and the outputs are worth *)

Section Io.
Context (f : list Z -> Z) (t : Z) (poly : list Z).

Definition set_worth (rs : list (list Z)) : Z := foldr (fun r n => f r + n) 0 rs.

Section Defs.
Context (rts : gmap (list Z) RightEntry) (sets : gmap (list Z) RightSetEntry).

(** A right, a set of rights, or what the transaction defines; the zero hash is worth nothing. *)
Definition right_worth (v : ViewPointSet) (r : list Z) : Z :=
  if IsEqual r zero_hash then 0
  else match item_of v r with
       | Some (RRight _) => f r
       | Some (RSet s) => set_worth (rs_Rights s)
       | None => match rts !! r with Some _ => f r | None => match sets !! r with Some s => set_worth (rs_Rights s) | None => 0 end end
       end.
(** The amount of a token of the kind that counts. *)
Definition kind_amount (tk : Token) : Z :=
  if decide (TokenType tk = t /\ Z.land t 2 <> 0) then match r_amount t (Value tk) with Ok (p, n) => if decide (p = poly) then n else 0 | _ => 0 end else 0.
Definition token_worth (v : ViewPointSet) (tk : Token) : Z := match Rights tk with Some r => kind_amount tk * right_worth v r | None => 0 end.

Definition ins_worth (v : ViewPointSet) (ins : list TxIn) : Z :=
  foldr (fun i n => (if spends_nothing i then 0 else match u_LookupEntry v (PreviousOutPoint i) with Some e => token_worth v (to_Token (ToTxOut e)) | None => 0 end) + n) 0 ins.
Definition outs_worth (v : ViewPointSet) (outs : list TxOut) : Z := foldr (fun x n => (if out_IsSeparator x then 0 else token_worth v (to_Token x)) + n) 0 outs.

Lemma right_worth_loads v v' r : loads v v' -> right_worth v' r = right_worth v r.
Proof. intros Hl. unfold right_worth. by rewrite (lo_item _ _ Hl). Qed.
Lemma token_worth_loads v v' tk : loads v v' -> token_worth v' tk = token_worth v tk.
Proof. intros Hl. unfold token_worth. destruct (Rights tk); [|done]. by rewrite (right_worth_loads v v'). Qed.
Lemma ins_worth_loads v v' ins : loads v v' -> ins_worth v' ins = ins_worth v ins.
Proof.
  intros Hl. unfold ins_worth. induction ins as [|i ins IH]; cbn [foldr]; [done|]. rewrite IH. unfold u_LookupEntry. rewrite (lo_utxo _ _ Hl).
  destruct (spends_nothing i), (mjoin (v_Utxo v !! PreviousOutPoint i)); rewrite ?(token_worth_loads v v') by done; done.
Qed.
Lemma outs_worth_loads v v' outs : loads v v' -> outs_worth v' outs = outs_worth v outs.
Proof. intros Hl. unfold outs_worth. induction outs as [|x outs IH]; cbn [foldr]; [done|]. by rewrite IH, (token_worth_loads v v'). Qed.

(** Sums that are kept for the kind that counts, and what a set adds to them. *)
Lemma set_kind T p rs : foldr (fun r n => of_kind t poly f (MkRElement T r p) + n) 0 rs = if decide (T = t /\ p = poly) then set_worth rs else 0.
Proof. unfold of_kind, set_worth. simpl. destruct (decide (T = t /\ p = poly)); induction rs as [|r rs IH]; simpl; lia. Qed.

(** [sg] is 1 for the outputs and -1 for the inputs. *)
Lemma add_found_worth v T r val rg p n a sg res res' : eq64 a (sg * n) ->
  Z.land T 2 <> 0 -> r_amount T val = Ok (p, n) -> rg = Some r ->
  add_found (found rts sets v r) T r p a res = Some res' ->
  eq64 (total (of_kind t poly f) res') (total (of_kind t poly f) res + sg * token_worth v (MkToken T val rg)).
Proof.
  intros Hsg H2 Hn ->. unfold token_worth, kind_amount, right_worth, found. simpl. destruct (IsEqual r zero_hash); [intros [= <-]; apply eq64_of_eq; lia|].
  assert (forall rs, eq64 (total (of_kind t poly f) (add_rights T rs p a res))
    (total (of_kind t poly f) res + sg * ((if decide (T = t /\ Z.land t 2 <> 0) then match r_amount t val with Ok (p', n') => if decide (p' = poly) then n' else 0 | _ => 0 end else 0) * set_worth rs))) as Hset.
  { intros rs. rewrite total_rights, Hsg, set_kind. apply eq64_of_eq. destruct (decide (T = t)) as [->|Ht]; [|rewrite !decide_False by tauto; lia].
    rewrite (decide_True (P := t = t /\ Z.land t 2 <> 0)) by done. rewrite Hn. destruct (decide (p = poly)); [rewrite decide_True by done|rewrite decide_False by tauto]; lia. }
  assert (set_worth [r] = f r) as E1 by (unfold set_worth; simpl; lia).
  destruct (item_of v r) as [[e|e]|]; [|intros [= <-]; apply Hset|destruct (rts !! r); [|destruct (sets !! r); [intros [= <-]; apply Hset|done]]]; intros [= <-]; rewrite <- E1; apply (Hset [r]).
Qed.

Lemma io_ins_worth ins : forall res v res' v', io_ins ins res v = Ok (Some res', v') -> loads v v' /\ eq64 (total (of_kind t poly f) res') (total (of_kind t poly f) res - ins_worth v ins).
Proof.
  induction ins as [|i ins IH]; intros res v res' v'; cbn [io_ins]; [intros [= <- <-]; split; [done|]; apply eq64_of_eq; cbn; lia|].
  unfold ins_worth. cbn [foldr]. fold (ins_worth v ins). destruct (spends_nothing i).
  { intros H. destruct (IH _ _ _ _ H) as [Hl Hw]. split; [done|]. rewrite Hw. apply eq64_of_eq. lia. }
  intros H. apply vbind_inv in H as (v1 & v2 & Hg & H). injection Hg as <- <-. apply vbind_inv in H as (e & v1 & He & H). unfold vnonnil in He.
  destruct (u_LookupEntry v (PreviousOutPoint i)) as [e'|]; [|done]. injection He as -> <-. destruct (decide (Z.land (ue_TokenType e) 2 = 0)) as [E2|E2].
  { destruct (IH _ _ _ _ H) as [Hl Hw]. split; [done|]. rewrite Hw. unfold token_worth, kind_amount. simpl. destruct (ue_Rights e); [rewrite decide_False by (intros [<- ?]; done)|]; apply eq64_of_eq; lia. }
  apply vbind_inv in H as ([p n] & v1 & Hp & H). unfold vlift in Hp. destruct (r_amount (ue_TokenType e) (ue_Amount e)) as [[p' n']| |] eqn:Er; try done. injection Hp as -> -> <-.
  apply vbind_inv in H as (r & v1 & Hr & H). unfold vnonnil in Hr. destruct (ue_Rights e) as [r'|] eqn:Ert; [|done]. injection Hr as -> <-.
  apply vbind_inv in H as (q & v1 & Hq & H). destruct (get_right_loads _ _ _ _ Hq) as [Hl ->].
  destruct (add_found _ _ _ _ _ _) as [res1|] eqn:Ea; [|done]. destruct (IH _ _ _ _ H) as [Hl' Hw]. split; [by transitivity v1|]. rewrite Hw, (ins_worth_loads v v1) by done.
  rewrite (add_found_worth v (ue_TokenType e) r (ue_Amount e) (ue_Rights e) p n (i64 (- n)) (-1) res res1); [| |done|done|done|].
  - unfold ToTxOut. cbn [to_Token]. rewrite Ert. apply eq64_of_eq. lia.
  - rewrite eq64_i64. apply eq64_of_eq. lia.
  - rewrite <- Ea. unfold found. destruct (IsEqual r zero_hash); [done|]. by destruct (item_of v r).
Qed.

Lemma io_outs_worth outs : forall res v res' v',
  io_outs rts sets outs res v = Ok (Some res', v') -> loads v v' /\ eq64 (total (of_kind t poly f) res') (total (of_kind t poly f) res + outs_worth v outs).
Proof.
  induction outs as [|x outs IH]; intros res v res' v'; cbn [io_outs]; [intros [= <- <-]; split; [done|]; apply eq64_of_eq; cbn; lia|].
  unfold outs_worth. cbn [foldr]. fold (outs_worth v outs). destruct (out_IsSeparator x); simpl orb; cbv iota.
  { intros H. destruct (IH _ _ _ _ H) as [Hl Hw]. split; [done|]. rewrite Hw. apply eq64_of_eq. lia. }
  destruct x as [[T val rg] script]. cbn [to_Token TokenType Value Rights] in *. case_bool_decide as E2; intros H.
  { destruct (IH _ _ _ _ H) as [Hl Hw]. split; [done|]. rewrite Hw. unfold token_worth, kind_amount. simpl. destruct rg; [rewrite decide_False by (intros [<- ?]; done)|]; apply eq64_of_eq; lia. }
  apply vbind_inv in H as ([p n] & v1 & Hp & H). unfold vlift in Hp. destruct (r_amount T val) as [[p' n']| |] eqn:Er; try done. injection Hp as -> -> <-.
  apply vbind_inv in H as (r & v1 & Hr & H). unfold vnonnil in Hr. destruct rg as [r'|]; [|done]. injection Hr as -> <-.
  apply vbind_inv in H as (q & v1 & Hq & H). destruct (unirightfetch_found _ _ _ _ _ _ Hq) as [Hl ->].
  destruct (add_found _ _ _ _ _ _) as [res1|] eqn:Ea; [|done]. destruct (IH _ _ _ _ H) as [Hl' Hw]. split; [by transitivity v1|]. rewrite Hw, (outs_worth_loads v v1) by done.
  rewrite (add_found_worth v T r val (Some r) p n n 1 res res1); [apply eq64_of_eq; lia|apply eq64_of_eq; lia|done..].
Qed.
End Defs.
End Io.

(** ** The check keeps the rights *)

Lemma monitored_loads rs : forall v b v', monitored rs v = Ok (b, v') -> loads v v'.
Proof.
  induction rs as [|d rs IH]; intros v b v'; cbn [monitored]; [by intros [= _ <-]|]. intros H. apply vbind_inv in H as (x & v1 & Hx & H). destruct (fetch_loads _ _ _ _ Hx) as [Hl _]. transitivity v1; [done|].
  apply vbind_inv in H as (e & v2 & He & H). destruct x as [x|]; [|done]. injection He as -> <-. apply vbind_inv in H as (g & v2 & Hg & H). destruct e as [g'|]; [|done]. injection Hg as -> <-. case_decide; [by injection H as _ <-|by eapply IH].
Qed.

Lemma same_polygon_loads ins : forall c p v r v', same_polygon ins c p v = Ok (r, v') -> loads v v'.
Proof.
  induction ins as [|i ins IH]; intros c p v r v'; cbn [same_polygon]; [by intros [= _ <-]|]. destruct (spends_nothing i); [by apply IH|]. intros H.
  apply vbind_inv in H as (v1 & v2 & Hg & H). injection Hg as <- <-. apply vbind_inv in H as (e & v1 & He & H). destruct (u_LookupEntry v _) as [e'|]; [|done]. injection He as -> <-.
  destruct (bool_decide (ue_TokenType e = PolyGonType) && c); [|by eapply IH]. destruct (ue_Rights e) as [rg|]; [|by injection H as _ <-].
  apply vbind_inv in H as (rt & v1 & Hrt & H). destruct (get_right_loads _ _ _ _ Hrt) as [Hl _]. transitivity v1; [done|]. apply vbind_inv in H as (m & v2 & Hm & H). transitivity v2.
  { destruct rt as [|x|[s|]]; [by injection Hm as _ <-|by eapply monitored_loads|by eapply monitored_loads|done]. }
  apply vbind_inv in H as (o & v3 & Ho & H). apply IH in H. replace v2 with v3; [done|]. destruct (m || IsEqual p zero_hash); [by injection Ho|].
  apply vbind_inv in Ho as (h & v4 & Hh & Ho). unfold vlift in Hh. destruct (hash_value _); try done. by injection Ho as _ <-; injection Hh.
Qed.

(** When no entry but those of polygons is left with an amount, the rest is worth nothing. *)
Lemma balanced_total F m : unbalanced m = false -> (forall k, tr_tokenType k = PolyGonType -> F k = 0) -> total F m = 0.
Proof.
  intros H HF. assert (forall k n, m !! k = Some n -> n * F k = 0) as Hz.
  { intros k n Hk. apply elem_of_map_to_list in Hk. unfold unbalanced in H. destruct (decide (tr_tokenType k = PolyGonType)) as [E|E]; [rewrite HF by done; lia|]. destruct (decide (n = 0)) as [->|En]; [lia|].
    exfalso. eapply not_true_iff_false; [exact H|]. apply existsb_exists. exists (k, n). split; [by apply list_elem_of_In|]. simpl. by rewrite !bool_decide_eq_false_2. }
  clear H HF. induction m as [|k n m Hk IH] using map_ind; [done|]. rewrite total_new by done. rewrite (Hz k n) by apply lookup_insert_eq. rewrite IH; [done|].
  intros k' n' Hk'. apply Hz. rewrite lookup_insert_ne; [done|]. intros ->. congruence.
Qed.

(** C3: Rights are neither made nor lost. When the quick check of a transaction finds no fault, in whatever order it goes over its sums, the tokens with rights that go out are worth what
    comes in, for every way to value the rights in which a right that is split is worth its two parts together. It holds modulo 2^64 for the tokens of every type and polygon, other than
    the type of polygons itself, and of that too when the check answers true; where both sides are numbers of 64 bits it is an equality. *)
Theorem rights_conserved (HashH : list Z -> list Z) (fuel : nat) (orders : list (list tokenRElement)) (tx : MsgTx) (v v' : ViewPointSet) (ok : bool)
  (rts : gmap (list Z) RightEntry) (sets : gmap (list Z) RightSetEntry) (f complement : list Z -> Z) (t : Z) (poly : list Z)
  (Hcross : tx_IsCrossChain tx = false) (Hdefs : right_defs HashH (TxDef tx) ∅ ∅ = Ok (rts, sets)) (Hadd : additive HashH rts v f complement)
  (Hok : QuickCheckRight HashH fuel orders tx v = Ok ((ok, None), v')) (Ht : t <> PolyGonType \/ ok = true) :
  let outs := outs_worth f t poly rts sets v (TxOuts tx) in let ins := ins_worth f t poly rts sets v (TxIns tx) in
  eq64 outs ins /\ (uint_range 64 outs -> uint_range 64 ins -> outs = ins).
Proof.
  intros outs ins. assert (eq64 outs ins) as H; [|split; [done|intros; by apply eq64_range]]. revert Hok. unfold QuickCheckRight. intros H.
  apply vbind_inv in H as (e & v1 & He & H). unfold vlift in He. destruct (zero_checked (TxOuts tx)) as [e'| |]; try done. injection He as -> <-. destruct e; [done|].
  apply vbind_inv in H as ([c0 p] & v1 & Hc & H). assert (v1 = v) as ->.
  { destruct (existsb is_polygon_def (TxDef tx)); [by injection Hc|]. unfold vlift in Hc. destruct (one_polygon _ _ _); try done. by injection Hc. }
  apply vbind_inv in H as (c & v1 & Hc1 & H). assert (loads v v1) as Hl1 by (destruct (c0 && negb (tx_IsCrossChain tx)); [by eapply same_polygon_loads|by injection Hc1 as _ <-]).
  destruct c as [c|]; [|done]. apply vbind_inv in H as (io & v2 & Hio & H). destruct io as [[sum rts']|]; [|done].
  unfold ioRTokens in Hio. rewrite Hcross, Hdefs in Hio. apply vbind_inv in Hio as (r1 & v3 & Hin & Hio). destruct r1 as [r1|]; [|done].
  apply vbind_inv in Hio as ([rts1 sets1] & v4 & Hd & Hio). injection Hd as <- <- <-. apply vbind_inv in Hio as (r2 & v4 & Hout & Hio). destruct r2 as [r2|]; [|done]. injection Hio as <- <- <-.
  destruct (io_ins_worth f t poly rts sets _ _ _ _ _ Hin) as [Hl3 Hw3]. destruct (io_outs_worth f t poly rts sets _ _ _ _ _ Hout) as [Hl4 Hw4].
  assert (loads v v4) as Hl by (transitivity v1; [done|]; by transitivity v3).
  apply vbind_inv in H as (r & v5 & Hp & H). destruct r as [[sum sib]|]; [|done]. destruct (passes_worth HashH rts f complement t poly _ _ _ _ _ _ (additive_loads _ _ _ _ _ _ Hadd Hl) Hp) as [_ Hw5].
  unfold worth in Hw5. cbn [sumVals siblingVals] in Hw5. rewrite (total_empty (of_kind t poly complement)) in Hw5.
  destruct (unbalanced sum || unbalanced sib) eqn:Eu; [done|]. apply orb_false_iff in Eu as [Eu1 Eu2]. injection H as Eok <-.
  assert (total (of_kind t poly f) sum = 0 /\ total (of_kind t poly complement) sib = 0) as [E1 E2].
  { destruct Ht as [Ht| ->].
    - split; apply balanced_total; try done; intros k Ek; unfold of_kind; rewrite decide_False; [done|intros [? _]; congruence|done|intros [? _]; congruence].
    - apply andb_true_iff in Eok as [Eok _]. apply andb_true_iff in Eok as [X Y]. apply bool_decide_eq_true in X, Y. by rewrite X, Y. }
  rewrite E1, E2, Hw4, Hw3, total_empty, (outs_worth_loads f t poly rts sets v v3), (ins_worth_loads f t poly rts sets v v1) in Hw5 by (done || by transitivity v1).
  fold outs ins in Hw5. transitivity (ins + (0 - ins + outs + 0)); [apply eq64_of_eq; lia|]. rewrite <- Hw5. apply eq64_of_eq. lia.
Qed.

(** ** Examples *)

(** A right that is split into two parts. *)
Definition whole : RightEntry := MkRight zero_hash zero_hash 0 [1] 128 0.
Definition whole_hash : list Z := zero_hash ++ [1; 128].
Definition part : RightEntry := MkRight whole_hash whole_hash 1 [2] 128 0.
Definition part_hash : list Z := whole_hash ++ [2; 128].
Definition rest : RightEntry := MkRight whole_hash whole_hash 1 [2] 129 0.
Definition rest_hash : list Z := whole_hash ++ [2; 129].

Definition point (n : Z) : OutPoint := MkOutPoint (replicate 32 5) n.
Definition owned (r : list Z) (n : Z) : UtxoEntry := MkUtxo 2 (Some (NumToken n)) (Some r) [] 7 0 [].
(** Five coins of each part. *)
Definition two_parts : ViewPointSet :=
  set_rights (set_utxo (NewViewPointSet empty_db) {[point 0 := Some (owned part_hash 5); point 1 := Some (owned rest_hash 5)]})
    {[whole_hash := RRight whole; part_hash := RRight part; rest_hash := RRight rest]}.
Definition owning_tx (defs : list definition) (outs : list TxOut) : MsgTx := MkMsgTx 1 defs [MkTxIn (point 0) MaxTxInSequenceNum 0; MkTxIn (point 1) MaxTxInSequenceNum 0] outs 0 [].
Definition out_of (r : list Z) (n : Z) : TxOut := MkTxOut (MkToken 2 (Some (NumToken n)) (Some r)) [].
Definition key (r : list Z) : tokenRElement := MkRElement 2 r zero_hash.
Definition some_orders : list (list tokenRElement) := replicate 3 [key rest_hash; key part_hash; key whole_hash].

(** The first part has the worth of the whole. *)
Definition first_worth (h : list Z) : Z := if decide (h = whole_hash \/ h = part_hash) then 1 else 0.
Definition rest_worth (h : list Z) : Z := if decide (h = whole_hash) then -1 else 0.

Lemma first_additive : additive (fun b => b) ∅ two_parts first_worth rest_worth.
Proof.
  assert (forall h g, right_of ∅ two_parts h = Some g -> h = whole_hash /\ g = whole \/ h = part_hash /\ g = part \/ h = rest_hash /\ g = rest) as Hr.
  { intros h g. unfold right_of, item_of. case_match; [done|]. cbn [two_parts v_Rights set_rights]. destruct (decide (h = whole_hash)) as [->|H1]; [intros [= <-]; auto|]. rewrite lookup_insert_ne by done.
    destruct (decide (h = part_hash)) as [->|H2]; [intros [= <-]; auto|]. rewrite lookup_insert_ne by done. destruct (decide (h = rest_hash)) as [->|H3]; [intros [= <-]; auto|]. rewrite lookup_singleton_ne by done. unfold DbFetchRight, b_Get. cbn [v_Db two_parts set_rights set_utxo NewViewPointSet empty_db rights]. destruct (decide (h = [])); rewrite ?lookup_empty; done. }
  constructor.
  - intros h g H Hn. destruct (Hr h g H) as [[-> ->]|[[-> ->]|[-> ->]]]; [reflexivity|reflexivity|done].
  - intros h g p H Hn Hp. destruct (Hr h g H) as [[-> ->]|[[-> ->]|[-> ->]]]; [done|done|]. injection Hp as <-. by vm_compute.
Qed.

Lemma rights_conserved_witness : outs_worth first_worth 2 zero_hash ∅ ∅ two_parts [out_of whole_hash 5] = ins_worth first_worth 2 zero_hash ∅ ∅ two_parts (TxIns (owning_tx [] [])).
Proof.
  destruct (rights_conserved (fun b => b) 3 some_orders (owning_tx [] [out_of whole_hash 5]) two_parts two_parts true ∅ ∅ first_worth rest_worth 2 zero_hash) as [_ H].
  - reflexivity.
  - reflexivity.
  - exact first_additive.
  - vm_compute. reflexivity.
  - by right.
  - apply H; unfold uint_range; vm_compute; split; congruence.
Defined.

(** What is left over or made up is refused. *)
Example rights_are_checked :
  (exists v, QuickCheckRight (fun b => b) 3 some_orders (owning_tx [] [out_of whole_hash 6]) two_parts = Ok ((false, Some ErrNotIntegral), v)) /\
  (exists v, QuickCheckRight (fun b => b) 3 some_orders (owning_tx [] [out_of part_hash 5; out_of part_hash 5]) two_parts = Ok ((false, Some ErrNotIntegral), v)).
Proof. split; eexists; vm_compute; reflexivity. Qed.

(** A token whose right is the zero hash is not counted: any amount of it goes out, although the check means to refuse this hash. *)
Theorem zero_right_unchecked (n : Z) : zero_checked [out_of zero_hash n] = Ok None /\ io_outs ∅ ∅ [out_of zero_hash n] ∅ two_parts = Ok (Some ∅, two_parts).
Proof. by split. Qed.

Lemma hash_keeps_kind HashH d h d' : Hash HashH d = Ok (h, d') -> DefType d' = DefType d.
Proof.
  destruct d as [v|[c|] f b e|[c|] loops|[c|] f desc a|c rs n|]; cbn [Hash]; intros H; try (by injection H as _ <-); try (apply bind_ok_inv in H as (x & _ & H); by injection H as _ <-).
  by destruct (if decide (n = len rs) then c else None); injection H as _ <-.
Qed.

Lemma hash_returns HashH d : Hash HashH d <> NoFuel.
Proof.
  destruct d as [v|[c|] f b e|[c|] loops|[c|] f desc a|c rs n|]; cbn [Hash]; try done.
  - unfold clear_low. destruct (HashH _); [done|]. cbn. by repeat case_decide.
  - by destruct (if decide (n = len rs) then c else None).
Qed.

(** The loop over the definitions takes a border or a polygon for a set of rights, which panics. *)
Theorem geometry_definition_panics (HashH : list Z -> list Z) (defs : list definition) (rts : gmap (list Z) RightEntry) (sets : gmap (list Z) RightSetEntry)
  (Hd : Exists (fun d => match d with DRight _ _ _ _ | DRightSet _ _ _ | DSeparator => False | _ => True end) defs) :
  right_defs HashH defs rts sets = Panic.
Proof.
  revert rts sets. induction Hd as [d defs Hd|d defs Hd IH]; intros rts sets; cbn [right_defs].
  - replace (def_IsSeparator d) with false by (by destruct d). pose proof (hash_returns HashH d). destruct (Hash HashH d) as [[h d']| |] eqn:Hh; [|done..]. apply hash_keeps_kind in Hh. by destruct d, d'.
  - destruct (def_IsSeparator d); [by apply IH|]. pose proof (hash_returns HashH d). destruct (Hash HashH d) as [[h d']| |]; [|done..]. destruct d'; try done; by eapply IH.
Qed.

Lemma geometry_definition_panics_witness : right_defs (fun b => b) [DSeparator; DBorder None zero_hash (MkVertex 1 1 0) (MkVertex 2 2 0)] ∅ ∅ = Panic.
Proof. apply (geometry_definition_panics (fun b => b)). apply Exists_cons_tl, Exists_cons_hd. exact I. Defined.

Example border_definition_panics : QuickCheckRight (fun b => b) 3 some_orders (owning_tx [DBorder None zero_hash (MkVertex 1 1 0) (MkVertex 2 2 0)] [out_of whole_hash 5]) two_parts = Panic.
Proof. vm_compute. reflexivity. Qed.
