(* ===== verification/BlockFiles.v ===== *)
(** * The block files of the database

    Models btcd/database/ffldb/blockio.go and reconcile.go: the flat files that hold the
    blocks, the cursor where the next block goes, the open files, the undoing of writes and
    the repair at the start.

    The file system is part of the state: what the files hold, what of it was synchronised,
    and the outcomes of the coming calls to the system.  A call that fails is [Some n]: for a
    write, after [n] bytes.  A handle stands for the file of its number; no file is deleted
    while it is open for reading, as only the files above the last committed block are.  The
    locks are left out: there is one writer, and readers do not change the files. *)
From Stdlib Require Import ZArith Lia.
From stdpp Require Import gmap list.
From S2P Require Import Prelude Wire ViewDb.

Open Scope Z_scope.

Definition maxOpenFiles : Z := 25.
Definition maxBlockFileSize : Z := 512 * 1024 * 1024.

Inductive blk_err := ErrDriverSpecific | ErrCorruption | ErrBlockNotFound | ErrBlockRegionInvalid | ErrBlockExists | ErrTxNotWritable | ErrTxClosed.

Record blockStore := MkStore {
  bs_network : Z;
  bs_maxBlockFileSize : Z;
  bs_files : gmap Z (list Z);
  bs_synced : gmap Z (list Z);
  bs_io : list (option nat);
  bs_openBlocksLRU : list Z;
  bs_fileNumToLRUElem : gset Z;
  bs_openBlockFiles : gset Z;
  bs_curFile : bool;
  bs_curFileNum : Z;
  bs_curOffset : Z;
}.

Definition set_files (s : blockStore) (f : gmap Z (list Z)) : blockStore :=
  MkStore (bs_network s) (bs_maxBlockFileSize s) f (bs_synced s) (bs_io s) (bs_openBlocksLRU s) (bs_fileNumToLRUElem s) (bs_openBlockFiles s) (bs_curFile s) (bs_curFileNum s) (bs_curOffset s).
Definition set_synced (s : blockStore) (f : gmap Z (list Z)) : blockStore :=
  MkStore (bs_network s) (bs_maxBlockFileSize s) (bs_files s) f (bs_io s) (bs_openBlocksLRU s) (bs_fileNumToLRUElem s) (bs_openBlockFiles s) (bs_curFile s) (bs_curFileNum s) (bs_curOffset s).
Definition set_io (s : blockStore) (io : list (option nat)) : blockStore :=
  MkStore (bs_network s) (bs_maxBlockFileSize s) (bs_files s) (bs_synced s) io (bs_openBlocksLRU s) (bs_fileNumToLRUElem s) (bs_openBlockFiles s) (bs_curFile s) (bs_curFileNum s) (bs_curOffset s).
Definition set_open (s : blockStore) (lru : list Z) (elems files : gset Z) : blockStore :=
  MkStore (bs_network s) (bs_maxBlockFileSize s) (bs_files s) (bs_synced s) (bs_io s) lru elems files (bs_curFile s) (bs_curFileNum s) (bs_curOffset s).
Definition set_cursor (s : blockStore) (open : bool) (num offset : Z) : blockStore :=
  MkStore (bs_network s) (bs_maxBlockFileSize s) (bs_files s) (bs_synced s) (bs_io s) (bs_openBlocksLRU s) (bs_fileNumToLRUElem s) (bs_openBlockFiles s) open num offset.

(** ** Computations on a store *)

Definition sm (A : Type) : Type := blockStore -> outcome (A * blockStore).
Global Instance sm_ret : MRet sm := fun A a s => Ok (a, s).
Global Instance sm_bind : MBind sm := fun A B k m s => '(a, s) ← m s; k a s.
Definition sget : sm blockStore := fun s => Ok (s, s).
Definition smodify (f : blockStore -> blockStore) : sm unit := fun s => Ok ((), f s).
Definition slift {A} (o : outcome A) : sm A := fun s => a ← o; Ok (a, s).
Definition spanic {A} : sm A := fun _ => Panic.

Lemma sbind_inv {A B} (m : sm A) (k : A -> sm B) s b s' : (m ≫= k) s = Ok (b, s') -> exists a s1, m s = Ok (a, s1) /\ k a s1 = Ok (b, s').
Proof. unfold mbind at 1, sm_bind. intros H. apply bind_ok_inv in H as ([a s1] & H1 & H2). by exists a, s1. Qed.

(** ** Calls to the system *)

(** The outcome of the next call; when none is left the calls succeed. *)
Definition os_call : sm (option nat) := fun s => match bs_io s with [] => Ok (None, s) | f :: io => Ok (f, set_io s io) end.

Definition write_at (c : list Z) (offset : nat) (data : list Z) : list Z :=
  take offset c ++ replicate (offset - length c) 0 ++ data ++ drop (offset + length data) c.
Definition truncate (c : list Z) (size : nat) : list Z := take size c ++ replicate (size - length c) 0.

(** [file.WriteAt(data, offset)]: how much was written, and whether all of it. *)
Definition os_write (num offset : Z) (data : list Z) : sm (Z * bool) :=
  f ← os_call;
  let written := match f with None => data | Some n => take n data end in
  _ ← smodify (fun s => set_files s (alter (fun c => write_at c (Z.to_nat offset) written) num (bs_files s)));
  mret (len written, bool_decide (f = None)).
Definition os_read (num offset n : Z) : sm (option (list Z)) :=
  f ← os_call;
  s ← sget;
  mret (match f, bs_files s !! num with
        | None, Some c => if decide (offset + n <= len c) then Some (take (Z.to_nat n) (drop (Z.to_nat offset) c)) else None
        | _, _ => None
        end).
Definition os_truncate (num size : Z) : sm bool :=
  f ← os_call;
  match f with
  | None => _ ← smodify (fun s => set_files s (alter (fun c => truncate c (Z.to_nat size)) num (bs_files s))); mret true
  | Some _ => mret false
  end.
Definition os_sync (num : Z) : sm bool :=
  f ← os_call;
  match f with
  | None => _ ← smodify (fun s => set_synced s (match bs_files s !! num with Some c => <[num := c]> (bs_synced s) | None => bs_synced s end)); mret true
  | Some _ => mret false
  end.

Definition openWriteFile (num : Z) : sm bool :=
  f ← os_call;
  match f with
  | None => _ ← smodify (fun s => set_files s (match bs_files s !! num with Some _ => bs_files s | None => <[num := []]> (bs_files s) end)); mret true
  | Some _ => mret false
  end.
Definition deleteFile (num : Z) : sm bool :=
  f ← os_call;
  s ← sget;
  match f, bs_files s !! num with
  | None, Some _ => _ ← smodify (fun s => set_files s (delete num (bs_files s))); mret true
  | _, _ => mret false
  end.

(** ** Open files *)

(** The least recently used file is closed when there are too many. *)
Definition openFile (num : Z) : sm (option blk_err) :=
  f ← os_call;
  s ← sget;
  match f, bs_files s !! num with
  | None, Some _ =>
      _ ← (if decide (maxOpenFiles <= len (bs_openBlocksLRU s)) then
             match last (bs_openBlocksLRU s) with
             | None => spanic
             | Some old =>
                 if decide (old ∈ bs_openBlockFiles s) then
                   smodify (fun s => set_open s (removelast (bs_openBlocksLRU s)) (bs_fileNumToLRUElem s ∖ {[old]}) (bs_openBlockFiles s ∖ {[old]}))
                 else spanic
             end
           else mret ());
      _ ← smodify (fun s => set_open s (num :: bs_openBlocksLRU s) ({[num]} ∪ bs_fileNumToLRUElem s) ({[num]} ∪ bs_openBlockFiles s));
      mret None
  | _, _ => mret (Some ErrDriverSpecific)
  end.
Definition move_to_front (num : Z) (l : list Z) : list Z := num :: filter (fun i => i <> num) l.
Definition blockFile (num : Z) : sm (option blk_err) :=
  s ← sget;
  if bool_decide (num = bs_curFileNum s) && bs_curFile s then mret None
  else if decide (num ∈ bs_openBlockFiles s) then
    if decide (num ∈ bs_fileNumToLRUElem s) then _ ← smodify (fun s => set_open s (move_to_front num (bs_openBlocksLRU s)) (bs_fileNumToLRUElem s) (bs_openBlockFiles s)); mret None
    else spanic
  else openFile num.

(** ** Checksums *)

(** [crc32.Checksum] and [hash/crc32] with the table of Castagnoli, whose entry for a byte is eight steps of the division. *)
Definition crc_bit (c : Z) : Z := if Z.odd c then Z.lxor (Z.shiftr c 1) 0x82F63B78 else Z.shiftr c 1.
Definition crc_entry (i : Z) : Z := Nat.iter 8 crc_bit i.
Definition crc_step (c b : Z) : Z := Z.lxor (crc_entry (Z.land (Z.lxor c b) 255)) (Z.shiftr c 8).
Definition crc_Update (crc : Z) (p : list Z) : Z := Z.lxor (foldl crc_step (Z.lxor crc 0xffffffff) p) 0xffffffff.
Definition crc_Checksum (p : list Z) : Z := crc_Update 0 p.
Definition be_bytes (v : Z) : list Z := reverse (le_bytes 4 v).

Example crc_of_digits : crc_Checksum [49; 50; 51; 52; 53; 54; 55; 56; 57] = 0xe3069283.
Proof. vm_compute. reflexivity. Qed.

(** ** Locations *)

Record blockLocation := MkLoc { bl_blockFileNum : Z; bl_fileOffset : Z; bl_blockLen : Z }.
Global Instance blockLocation_eq_dec : EqDecision blockLocation.
Proof. solve_decision. Defined.

Definition le4 (s : list Z) (lo hi : Z) : outcome Z := b ← slice_sub s lo hi; Ok (le_value b).
Definition deserializeBlockLoc (s : list Z) : outcome blockLocation := a ← le4 s 0 4; b ← le4 s 4 8; c ← le4 s 8 12; Ok (MkLoc a b c).
Definition serializeBlockLoc (l : blockLocation) : list Z := le_bytes 4 (bl_blockFileNum l) ++ le_bytes 4 (bl_fileOffset l) ++ le_bytes 4 (bl_blockLen l).

Definition serializeWriteRow (num offset : Z) : list Z := let row := le_bytes 4 num ++ le_bytes 4 offset in row ++ le_bytes 4 (crc_Checksum row).
Definition deserializeWriteRow (row : list Z) : outcome (Z * Z + blk_err) :=
  r ← slice_sub row 0 8;
  want ← le4 row 8 12;
  if decide (crc_Checksum r <> want) then Ok (inr ErrCorruption)
  else num ← le4 row 0 4; offset ← le4 row 4 8; Ok (inl (num, offset)).

(** ** Writing and reading blocks *)

(** The cursor moves by what was written, also when the write fails. *)
Definition writeData (data : list Z) : sm bool :=
  s ← sget;
  '(n, ok) ← os_write (bs_curFileNum s) (bs_curOffset s) data;
  _ ← smodify (fun s => set_cursor s (bs_curFile s) (bs_curFileNum s) (u32 (bs_curOffset s + n)));
  mret ok.

Definition writeBlock (rawBlock : list Z) : sm (blockLocation + blk_err) :=
  let blockLen := u32 (len rawBlock) in
  let fullLen := u32 (blockLen + 12) in
  s ← sget;
  let finalOffset := u32 (bs_curOffset s + fullLen) in
  _ ← (if decide (finalOffset < bs_curOffset s \/ bs_maxBlockFileSize s < finalOffset) then smodify (fun s => set_cursor s false (u32 (bs_curFileNum s + 1)) 0) else mret ());
  s ← sget;
  ok ← (if bs_curFile s then mret true
        else ok ← openWriteFile (bs_curFileNum s); if ok : bool then _ ← smodify (fun s => set_cursor s true (bs_curFileNum s) (bs_curOffset s)); mret true else mret false);
  if negb ok then mret (inr ErrDriverSpecific)
  else
    s ← sget;
    let origOffset := bs_curOffset s in
    let net := le_bytes 4 (bs_network s) in
    ok ← writeData net;
    if negb ok then mret (inr ErrDriverSpecific)
    else
    let size := le_bytes 4 blockLen in
    ok ← writeData size;
    if negb ok then mret (inr ErrDriverSpecific)
    else
    ok ← writeData rawBlock;
    if negb ok then mret (inr ErrDriverSpecific)
    else
    ok ← writeData (be_bytes (crc_Update (crc_Update (crc_Update 0 net) size) rawBlock));
    if negb ok then mret (inr ErrDriverSpecific)
    else s ← sget; mret (inl (MkLoc (bs_curFileNum s) origOffset fullLen)).

Definition readBlock (loc : blockLocation) : sm (list Z + blk_err) :=
  e ← blockFile (bl_blockFileNum loc);
  match e with
  | Some e => mret (inr e)
  | None =>
      d ← os_read (bl_blockFileNum loc) (bl_fileOffset loc) (bl_blockLen loc);
      match d with
      | None => mret (inr ErrDriverSpecific)
      | Some d =>
          let n := bl_blockLen loc in
          sum ← slift (slice_sub d (n - 4) n);
          body ← slift (slice_sub d 0 (n - 4));
          if decide (le_value (reverse (take 4 sum)) <> crc_Checksum body) then mret (inr ErrCorruption)
          else
            net ← slift (le4 d 0 4);
            s ← sget;
            if decide (net <> u32 (bs_network s)) then mret (inr ErrDriverSpecific)
            else raw ← slift (slice_sub d 8 (n - 4)); mret (inl raw)
      end
  end.

Definition readBlockRegion (loc : blockLocation) (offset numBytes : Z) : sm (list Z + blk_err) :=
  e ← blockFile (bl_blockFileNum loc);
  match e with
  | Some e => mret (inr e)
  | None =>
      d ← os_read (bl_blockFileNum loc) (u32 (bl_fileOffset loc + 8 + offset)) numBytes;
      mret (match d with Some d => inl d | None => inr ErrDriverSpecific end)
  end.

Definition syncBlocks : sm (option blk_err) :=
  s ← sget;
  if bs_curFile s then ok ← os_sync (bs_curFileNum s); mret (if ok : bool then None else Some ErrDriverSpecific) else mret None.

(** ** Undoing writes *)

(** The files above the one to go back to, from the newest; a failure stops. *)
Fixpoint delete_newer (n : nat) : sm bool :=
  match n with
  | O => mret true
  | S n =>
      s ← sget;
      ok ← deleteFile (bs_curFileNum s);
      if ok : bool then _ ← smodify (fun s => set_cursor s (bs_curFile s) (u32 (bs_curFileNum s - 1)) (bs_curOffset s)); delete_newer n else mret false
  end.
Definition undo_writes (oldNum oldOffset : Z) : sm unit :=
  s ← sget;
  _ ← (if decide (oldNum < bs_curFileNum s) then smodify (fun s => set_cursor s false (bs_curFileNum s) (bs_curOffset s)) else mret ());
  ok ← delete_newer (Z.to_nat (bs_curFileNum s - oldNum));
  if negb ok then mret ()
  else
    s ← sget;
    ok ← (if bs_curFile s then mret true
          else ok ← openWriteFile (bs_curFileNum s); if ok : bool then _ ← smodify (fun s => set_cursor s true (bs_curFileNum s) (bs_curOffset s)); mret true else mret false);
    if negb ok then mret ()
    else
      ok ← os_truncate (bs_curFileNum s) oldOffset;
      if negb ok then mret () else _ ← os_sync (bs_curFileNum s); mret ().
(** The cursor goes back whatever fails. *)
Definition handleRollback (oldNum oldOffset : Z) : sm unit :=
  s ← sget;
  if decide (bs_curFileNum s = oldNum /\ bs_curOffset s = oldOffset) then mret ()
  else _ ← undo_writes oldNum oldOffset; smodify (fun s => set_cursor s (bs_curFile s) oldNum oldOffset).

(** ** The start *)

(** The files from 0 on, until one is missing. *)
Fixpoint scan_files (fuel : nat) (files : gmap Z (list Z)) (i : Z) (r : Z * Z) : Z * Z :=
  match fuel with O => r | S fuel => match files !! i with None => r | Some c => scan_files fuel files (i + 1) (i, u32 (len c)) end end.
Definition scanBlockFiles (files : gmap Z (list Z)) : Z * Z := scan_files (S (size files)) files 0 (-1, 0).

Definition newBlockStore (network maxSize : Z) (files : gmap Z (list Z)) (io : list (option nat)) : blockStore :=
  let '(num, off) := scanBlockFiles files in
  let '(num, off) := if decide (num = -1) then (0, 0) else (num, off) in
  MkStore network maxSize files files io [] ∅ ∅ false (u32 num) off.

(** The part of [reconcileDB] after the row of the cursor is read. *)
Definition reconcileDB (writeRow : option (list Z)) : sm (option blk_err) :=
  match writeRow with
  | None => mret (Some ErrCorruption)
  | Some row =>
      r ← slift (deserializeWriteRow row);
      match r with
      | inr e => mret (Some e)
      | inl (num, offset) =>
          s ← sget;
          _ ← (if decide (num < bs_curFileNum s \/ (bs_curFileNum s = num /\ offset < bs_curOffset s)) then handleRollback num offset else mret ());
          s ← sget;
          mret (if decide (bs_curFileNum s < num \/ (bs_curFileNum s = num /\ bs_curOffset s < offset)) then Some ErrCorruption else None)
      end
  end.

(** ** Facts on checksums *)

Lemma lxor_range w a b : 0 < w -> uint_range w a -> uint_range w b -> uint_range w (Z.lxor a b).
Proof.
  unfold uint_range. intros Hw Ha Hb. assert (0 <= Z.lxor a b) by (apply Z.lxor_nonneg; lia). split; [done|].
  destruct (decide (Z.lxor a b = 0)) as [->|Hn]; [lia|]. apply Z.log2_lt_pow2; [lia|]. pose proof (Z.log2_lxor a b ltac:(lia) ltac:(lia)).
  assert (forall x, 0 <= x < 2 ^ w -> Z.log2 x < w) as Hlog; [|pose proof (Hlog a Ha); pose proof (Hlog b Hb); lia].
  intros x Hx. destruct (decide (x = 0)) as [->|]; [by rewrite Z.log2_nonpos|]. apply Z.log2_lt_pow2; lia.
Qed.

Lemma shiftr_range w a k : 0 <= k -> uint_range w a -> uint_range w (Z.shiftr a k).
Proof. unfold uint_range. intros Hk Ha. rewrite Z.shiftr_div_pow2 by done. split; [apply Z.div_pos; lia|]. apply Z.div_lt_upper_bound; nia. Qed.

Lemma crc_bit_range c : uint_range 32 c -> uint_range 32 (crc_bit c).
Proof. intros Hc. unfold crc_bit. destruct (Z.odd c); [apply lxor_range; [lia| |by vm_compute]|]; by apply shiftr_range. Qed.

Lemma crc_step_range c b : uint_range 32 c -> uint_range 32 (crc_step c b).
Proof.
  intros Hc. unfold crc_step. apply lxor_range; [lia| |by apply shiftr_range]. unfold crc_entry.
  assert (uint_range 32 (Z.land (Z.lxor c b) 255)) as H0.
  { unfold uint_range. change 255 with (Z.ones 8). rewrite Z.land_ones by lia. pose proof (Z.mod_pos_bound (Z.lxor c b) (2 ^ 8)). lia. }
  apply Nat.iter_invariant; [apply crc_bit_range|done].
Qed.

Lemma crc_range p : uint_range 32 (crc_Checksum p).
Proof.
  unfold crc_Checksum, crc_Update. apply lxor_range; [lia| |by vm_compute]. generalize (Z.lxor 0 0xffffffff) as c, (ltac:(by vm_compute) : uint_range 32 (Z.lxor 0 0xffffffff)).
  induction p as [|b p IH]; intros c Hc; simpl; [done|]. by apply IH, crc_step_range.
Qed.

Lemma crc_app c p q : crc_Update (crc_Update c p) q = crc_Update c (p ++ q).
Proof. unfold crc_Update. by rewrite foldl_app, Z.lxor_assoc, Z.lxor_nilpotent, Z.lxor_0_r. Qed.

Lemma le4_app a v b : uint_range 32 v -> le4 (a ++ le_bytes 4 v ++ b) (len a) (len a + 4) = Ok v.
Proof.
  intros Hv. unfold le4, slice_sub. rewrite !length_app, le_bytes_length. rewrite decide_True by lia.
  replace (Z.to_nat (len a + 4 - len a)) with 4%nat by lia. rewrite Nat2Z.id, drop_app_length, take_app_length' by (by rewrite le_bytes_length). rewrite outcome_bind_ok.
  by rewrite le_value_le_bytes, Z.mod_small.
Qed.

(** The cursor is read back from its row. *)
Lemma write_row_roundtrip num offset : uint_range 32 num -> uint_range 32 offset -> deserializeWriteRow (serializeWriteRow num offset) = Ok (inl (num, offset)).
Proof.
  intros Hn Ho. unfold deserializeWriteRow, serializeWriteRow. set (row := le_bytes 4 num ++ le_bytes 4 offset). assert (length row = 8%nat) as Hlen by (unfold row; by rewrite length_app, !le_bytes_length).
  unfold slice_sub at 1. rewrite length_app, le_bytes_length, Hlen. rewrite decide_True by lia. change (Z.to_nat (8 - 0)) with 8%nat. rewrite drop_0, take_app_length' by done. rewrite outcome_bind_ok.
  assert (le4 (row ++ le_bytes 4 (crc_Checksum row)) 8 12 = Ok (crc_Checksum row)) as ->.
  { pose proof (le4_app row (crc_Checksum row) [] (crc_range row)) as H. by rewrite Hlen, app_nil_r in H. }
  rewrite outcome_bind_ok, decide_False by tauto. generalize (le_bytes 4 (crc_Checksum row)) as k. intros k. unfold row. rewrite <- app_assoc.
  assert (le4 (le_bytes 4 num ++ le_bytes 4 offset ++ k) 0 4 = Ok num) as -> by apply (le4_app [] num _ Hn). rewrite outcome_bind_ok.
  pose proof (le4_app (le_bytes 4 num) offset k Ho) as H. rewrite le_bytes_length in H. change (Z.of_nat 4 + 4) with 8 in H. change (Z.of_nat 4) with 4 in H. by rewrite H.
Qed.

Lemma location_roundtrip l : uint_range 32 (bl_blockFileNum l) -> uint_range 32 (bl_fileOffset l) -> uint_range 32 (bl_blockLen l) -> deserializeBlockLoc (serializeBlockLoc l) = Ok l.
Proof.
  destruct l as [a b c]. simpl. intros Ha Hb Hc. unfold deserializeBlockLoc, serializeBlockLoc. simpl bl_blockFileNum. simpl bl_fileOffset. simpl bl_blockLen.
  assert (le4 (le_bytes 4 a ++ le_bytes 4 b ++ le_bytes 4 c) 0 4 = Ok a) as -> by apply (le4_app [] a _ Ha). rewrite outcome_bind_ok.
  pose proof (le4_app (le_bytes 4 a) b (le_bytes 4 c) Hb) as H. rewrite le_bytes_length in H. change (Z.of_nat 4 + 4) with 8 in H. change (Z.of_nat 4) with 4 in H. rewrite H, outcome_bind_ok.
  pose proof (le4_app (le_bytes 4 a ++ le_bytes 4 b) c [] Hc) as H'. rewrite app_nil_r, length_app, !le_bytes_length, <- app_assoc in H'. change (Z.of_nat (4 + 4) + 4) with 12 in H'. change (Z.of_nat (4 + 4)) with 8 in H'. by rewrite H'.
Qed.
