(* ===== verification/BlockKept.v ===== *)
(** * What the block files keep

    Proofs about [BlockFiles]: files below a position stay as they are whatever is written
    after it and whatever fails, so that committed blocks are read back after an undone
    write and after a restart, and the number of open files is bounded.  There is no code of
    its own here. *)
From Stdlib Require Import ZArith Lia.
From stdpp Require Import gmap list.
From S2P Require Import Prelude Wire ViewDb BlockFiles.

Open Scope Z_scope.

(** ** Runs that return *)

(** [m] returns from [s], with a result and a state that satisfy [Q]. *)
Definition returns {A} (m : sm A) (s : blockStore) (Q : A -> blockStore -> Prop) : Prop := exists a s', m s = Ok (a, s') /\ Q a s'.

Lemma returns_ret {A} (a : A) s (Q : A -> blockStore -> Prop) : Q a s -> returns (mret a) s Q.
Proof. intros H. by exists a, s. Qed.

Lemma returns_bind {A B} (m : sm A) (k : A -> sm B) s Q : returns m s (fun a s' => returns (k a) s' Q) -> returns (m ≫= k) s Q.
Proof. intros (a & s1 & H1 & b & s2 & H2 & HQ). exists b, s2. unfold mbind, sm_bind. by rewrite H1, outcome_bind_ok. Qed.

Lemma returns_mono {A} (m : sm A) s (P Q : A -> blockStore -> Prop) : returns m s P -> (forall a s', P a s' -> Q a s') -> returns m s Q.
Proof. intros (a & s' & H & HP) HPQ. exists a, s'. auto. Qed.

Lemma returns_get s (Q : blockStore -> blockStore -> Prop) : Q s s -> returns sget s Q.
Proof. intros H. by exists s, s. Qed.

Lemma returns_modify f s (Q : unit -> blockStore -> Prop) : Q () (f s) -> returns (smodify f) s Q.
Proof. intros H. by exists (), (f s). Qed.

Lemma returns_lift {A} (o : outcome A) a s (Q : A -> blockStore -> Prop) : o = Ok a -> Q a s -> returns (slift o) s Q.
Proof. intros -> H. by exists a, s. Qed.

(** No call to the system is going to fail. *)
Definition faultless (s : blockStore) : Prop := Forall (fun f => f = None) (bs_io s).

Lemma returns_call s (Q : option nat -> blockStore -> Prop) :
  (forall f io, (faultless s -> f = None /\ Forall (fun f => f = None) io) -> Q f (set_io s io)) -> returns os_call s Q.
Proof.
  unfold faultless, os_call, returns. intros H. destruct (bs_io s) as [|f io] eqn:E.
  - exists None, s. split; [done|]. specialize (H None []). destruct s. simpl in *. subst. by apply H.
  - exists f, (set_io s io). split; [done|]. apply H. by intros [H1 H2]%Forall_cons.
Qed.

Ltac sm_step :=
  match goal with
  | |- returns (mret _) _ _ => apply returns_ret
  | |- returns (_ ≫= _) _ _ => apply returns_bind
  | |- returns sget _ _ => apply returns_get
  | |- returns (smodify _) _ _ => apply returns_modify
  end.
Ltac sm_steps := repeat sm_step; cbn beta.

(** ** Positions in the files *)

(** The files below [n] are the same, and file [n] still starts with its first [o] bytes. *)
Record kept (n o : Z) (f f' : gmap Z (list Z)) : Prop := {
  kept_below : forall i, i < n -> f' !! i = f !! i;
  kept_at : forall c, f !! n = Some c -> exists c', f' !! n = Some c' /\ take (Z.to_nat o) c `prefix_of` c';
}.

Definition pos_le (n o n' o' : Z) : Prop := n < n' \/ (n = n' /\ o <= o').

Lemma kept_refl n o f : kept n o f f.
Proof. split; [done|]. intros c Hc. exists c. split; [done|]. apply prefix_take. Qed.

Lemma take_prefix_mono {A} (n : nat) (l k : list A) : l `prefix_of` k -> take n l `prefix_of` take n k.
Proof. intros [t ->]. exists (take (n - length l) t). apply take_app. Qed.

Lemma kept_trans n o f g h : kept n o f g -> kept n o g h -> kept n o f h.
Proof.
  intros [B1 A1] [B2 A2]. split.
  - intros i Hi. by rewrite B2, B1.
  - intros c Hc. destruct (A1 c Hc) as (c1 & H1 & P1). destruct (A2 c1 H1) as (c2 & H2 & P2). exists c2. split; [done|].
    etrans; [|exact P2]. apply (take_prefix_mono (Z.to_nat o)) in P1. by rewrite take_take, Nat.min_id in P1.
Qed.

Lemma kept_mono n o n' o' f g : pos_le n o n' o' -> kept n' o' f g -> kept n o f g.
Proof.
  intros [Hlt|[-> Hle]] [B K]; split.
  - intros i Hi. apply B. lia.
  - intros c Hc. exists c. rewrite B by done. split; [done|]. apply prefix_take.
  - done.
  - intros c Hc. destruct (K c Hc) as (c' & H' & P). exists c'. split; [done|]. etrans; [|exact P].
    replace (take (Z.to_nat o) c) with (take (Z.to_nat o) (take (Z.to_nat o') c)) by (rewrite take_take; f_equal; lia). apply prefix_take.
Qed.

(** ** Contents *)

Lemma write_at_spec c o d : exists pre suf, write_at c o d = pre ++ d ++ suf /\ length pre = o /\ pre = take o c ++ replicate (o - length c) 0.
Proof.
  eexists (take o c ++ replicate (o - length c) 0), _. unfold write_at. rewrite <- (app_assoc (take o c)). split; [reflexivity|]. split; [|done].
  rewrite length_app, length_take, length_replicate. lia.
Qed.

Lemma write_at_app c o a b : write_at (write_at c o a) (o + length a) b = write_at c o (a ++ b).
Proof.
  destruct (write_at_spec c o a) as (pre & suf & Hw & Hp & Hpre).
  assert (suf = drop (o + length a) c) as Hs. { unfold write_at in Hw. rewrite app_assoc, <- Hpre in Hw. by apply app_inv_head, app_inv_head in Hw. }
  rewrite Hw. unfold write_at. rewrite (app_assoc pre a suf), take_app_length' by (rewrite length_app; lia). rewrite !length_app.
  replace (o + length a - (length pre + length a + length suf))%nat with 0%nat by lia.
  rewrite drop_app_ge, Hs, drop_drop by (rewrite length_app; lia). rewrite (app_assoc (take o c)), <- Hpre, length_app, <- !app_assoc.
  simpl. do 4 f_equal. lia.
Qed.

Lemma write_at_len c o d : (length (write_at c o d) <= length c `max` (o + length d))%nat.
Proof. unfold write_at. rewrite !length_app, length_take, length_replicate, length_drop. lia. Qed.

Lemma write_at_keeps c o o' d : (o' <= o)%nat -> take o' c `prefix_of` write_at c o d.
Proof.
  intros H. unfold write_at. apply prefix_app_r. replace (take o' c) with (take o' (take o c)) by (rewrite take_take; f_equal; lia). apply prefix_take.
Qed.

Lemma truncate_keeps c o : take o c `prefix_of` truncate c o.
Proof. unfold truncate. by eexists. Qed.

Lemma truncate_length c o : length (truncate c o) = o.
Proof. unfold truncate. rewrite length_app, length_take, length_replicate. lia. Qed.

(** Changing file [n] from [o] on. *)
Lemma kept_alter n o f g : (forall c, f !! n = Some c -> take (Z.to_nat o) c `prefix_of` g c) -> kept n o f (alter g n f).
Proof.
  intros H. split.
  - intros i Hi. apply lookup_alter_ne. lia.
  - intros c Hc. exists (g c). split; [by rewrite lookup_alter_eq, Hc|by apply H].
Qed.

Lemma kept_above n o f g i : n < i -> kept n o f (alter g i f).
Proof. intros Hi. split; intros; [|eexists]; rewrite lookup_alter_ne by lia; [done|]. split; [done|]. apply prefix_take. Qed.

Lemma kept_delete n o f i : n < i -> kept n o f (delete i f).
Proof. intros Hi. split; intros; [|eexists]; rewrite lookup_delete_ne by lia; [done|]. split; [done|]. apply prefix_take. Qed.

Lemma kept_create n o f i : n <= i -> kept n o f (match f !! i with Some _ => f | None => <[i := []]> f end).
Proof.
  intros Hi. destruct (f !! i) as [c|] eqn:E; [apply kept_refl|]. split.
  - intros j Hj. apply lookup_insert_ne. lia.
  - intros c Hc. exists c. rewrite lookup_insert_ne by congruence. split; [done|]. apply prefix_take.
Qed.

(** ** Stores in order *)

Record lru_ok (lru : list Z) (elems files : gset Z) : Prop := {
  lru_distinct : NoDup lru;
  lru_elems : elems = list_to_set lru;
  lru_open : files = list_to_set lru;
  lru_bound : len lru <= maxOpenFiles;
}.

(** The numbers and lengths of files fit in 32 bits. *)
Definition sized (f : gmap Z (list Z)) : Prop := map_Forall (fun i c => uint_range 32 i /\ len c < 2 ^ 32) f.

Record store_ok (s : blockStore) : Prop := {
  ok_lru : lru_ok (bs_openBlocksLRU s) (bs_fileNumToLRUElem s) (bs_openBlockFiles s);
  ok_num : uint_range 32 (bs_curFileNum s);
  ok_offset : uint_range 32 (bs_curOffset s);
  ok_network : uint_range 32 (bs_network s);
  ok_cur : bs_curFile s = true -> is_Some (bs_files s !! bs_curFileNum s);
  ok_sized : sized (bs_files s);
}.

(** From [s] to [s'] the configuration and the open files are the same and the files keep what is before a position. *)
Record follows (n o : Z) (s s' : blockStore) : Prop := {
  fo_kept : kept n o (bs_files s) (bs_files s');
  fo_network : bs_network s' = bs_network s;
  fo_max : bs_maxBlockFileSize s' = bs_maxBlockFileSize s;
  fo_lru : bs_openBlocksLRU s' = bs_openBlocksLRU s;
  fo_elems : bs_fileNumToLRUElem s' = bs_fileNumToLRUElem s;
  fo_open : bs_openBlockFiles s' = bs_openBlockFiles s;
}.

Lemma follows_refl n o s s' : bs_files s' = bs_files s -> bs_network s' = bs_network s -> bs_maxBlockFileSize s' = bs_maxBlockFileSize s -> bs_openBlocksLRU s' = bs_openBlocksLRU s ->
  bs_fileNumToLRUElem s' = bs_fileNumToLRUElem s -> bs_openBlockFiles s' = bs_openBlockFiles s -> follows n o s s'.
Proof. intros H **. split; try done. rewrite H. apply kept_refl. Qed.

Lemma follows_trans n o s1 s2 s3 : follows n o s1 s2 -> follows n o s2 s3 -> follows n o s1 s3.
Proof. intros [] []. split; try congruence. by eapply kept_trans. Qed.

Lemma follows_mono n o n' o' s s' : pos_le n o n' o' -> follows n' o' s s' -> follows n o s s'.
Proof. intros Hp []. split; try done. by eapply kept_mono. Qed.

Lemma sized_alter f n g : sized f -> (forall c, f !! n = Some c -> len c < 2 ^ 32 -> len (g c) < 2 ^ 32) -> sized (alter g n f).
Proof.
  intros Hs Hg i c. destruct (decide (i = n)) as [->|Hn]; [|rewrite lookup_alter_ne by done; apply Hs].
  rewrite lookup_alter_eq. destruct (f !! n) as [d|] eqn:E; simpl; [|done]. intros [= <-]. destruct (Hs n d E). split; [done|]. by apply Hg.
Qed.

Lemma sized_create f i : sized f -> uint_range 32 i -> sized (match f !! i with Some _ => f | None => <[i := []]> f end).
Proof. intros Hs Hi. destruct (f !! i) as [c|] eqn:E; [done|]. apply map_Forall_insert_2; [split; [done|simpl; lia]|done]. Qed.

(** ** Writing *)

(** The current file is opened when it is not. *)
Lemma open_current_ok s o : store_ok s ->
  returns (if bs_curFile s then mret true
           else ok ← openWriteFile (bs_curFileNum s); if ok : bool then _ ← smodify (fun s => set_cursor s true (bs_curFileNum s) (bs_curOffset s)); mret true else mret false) s
    (fun ok s' => store_ok s' /\ follows (bs_curFileNum s) o s s' /\ bs_curFileNum s' = bs_curFileNum s /\ bs_curOffset s' = bs_curOffset s /\ bs_curFile s' = ok /\ (faultless s -> ok = true /\ faultless s')).
Proof.
  intros Hok. pose proof Hok as [L N O W _ Z]. destruct (bs_curFile s) eqn:Ec.
  - apply returns_ret. split; [done|]. split; [by apply follows_refl|]. done.
  - apply returns_bind. unfold openWriteFile. apply returns_bind, returns_call. intros [k|] io Hio.
    + sm_steps. split; [split; simpl; try done; by rewrite Ec|]. split; [by apply follows_refl|]. simpl. split_and!; try done. by intros [H _]%Hio.
    + sm_steps. split; [|split].
      * split; simpl; try done; [|by apply sized_create]. intros _. destruct (bs_files s !! bs_curFileNum s) eqn:E; [by rewrite E|]. by rewrite lookup_insert_eq.
      * split; simpl; try done. apply kept_create. lia.
      * simpl. split_and!; try done. intros H. by apply Hio in H as [_ H].
Qed.

(** Data [d] has been written at the cursor of [s]. *)
Record wrote (s : blockStore) (d : list Z) (s' : blockStore) : Prop := {
  wr_ok : store_ok s';
  wr_follows : follows (bs_curFileNum s) (bs_curOffset s) s s';
  wr_num : bs_curFileNum s' = bs_curFileNum s;
  wr_cur : bs_curFile s' = true;
  wr_offset : bs_curOffset s' = bs_curOffset s + len d;
  wr_files : bs_files s' = alter (fun c => write_at c (Z.to_nat (bs_curOffset s)) d) (bs_curFileNum s) (bs_files s);
  wr_good : faultless s -> faultless s';
}.

(** A write at the cursor of [s] has failed. *)
Record stopped (s s' : blockStore) : Prop := {
  st_ok : store_ok s';
  st_follows : follows (bs_curFileNum s) (bs_curOffset s) s s';
  st_num : bs_curFileNum s' = bs_curFileNum s;
  st_offset : bs_curOffset s <= bs_curOffset s';
  st_fault : ~ faultless s;
}.

Lemma write_data_ok d s : store_ok s -> bs_curFile s = true -> bs_curOffset s + len d < 2 ^ 32 ->
  returns (writeData d) s (fun ok s' => if ok then wrote s d s' else stopped s s').
Proof.
  intros [L N O W C Z] Hc Hd. unfold writeData, os_write. apply returns_bind, returns_get, returns_bind, returns_bind, returns_call. intros f io Hio.
  set (w := match f with None => d | Some n => take n d end).
  assert (len w <= len d) as Hw by (destruct f; unfold w; rewrite ?length_take; lia). unfold uint_range in O.
  assert (u32 (bs_curOffset s + len w) = bs_curOffset s + len w) as Hu by (apply uwrap_id; unfold uint_range; lia).
  assert (forall c, len c < 2 ^ 32 -> len (write_at c (Z.to_nat (bs_curOffset s)) w) < 2 ^ 32) as Hs by (intros c ?; pose proof (write_at_len c (Z.to_nat (bs_curOffset s)) w); lia).
  sm_steps. cbn [set_files set_cursor set_io bs_curOffset bs_curFile bs_curFileNum]. rewrite Hu.
  match goal with |- if _ then wrote _ _ ?x else _ => set (s' := x) end.
  assert (store_ok s') as Hok.
  { split; simpl; try done; [unfold uint_range; lia| |apply sized_alter; auto].
    intros _. destruct (C Hc) as [c E]. rewrite lookup_alter_eq, E. by eexists. }
  assert (follows (bs_curFileNum s) (bs_curOffset s) s s') as Hf.
  { split; simpl; try done. apply kept_alter. intros c _. by apply write_at_keeps. }
  case_bool_decide as Hn.
  - subst f. split; simpl; try done. intros H. by apply Hio in H as [_ H].
  - split; simpl; try done; [lia|]. by intros [H _]%Hio.
Qed.

Lemma write_more_ok a b s s1 : wrote s a s1 -> 0 <= bs_curOffset s -> bs_curOffset s + len a + len b < 2 ^ 32 ->
  returns (writeData b) s1 (fun ok s' => if ok then wrote s (a ++ b) s' else stopped s s').
Proof.
  intros [K F N C O Fi G] H0 Hl. eapply returns_mono; [apply write_data_ok; [done..|lia]|]. intros [|] s2.
  - intros [K2 F2 N2 C2 O2 Fi2 G2]. rewrite N, O in F2. split; try done; auto; try congruence.
    + eapply follows_trans; [done|]. eapply follows_mono; [|done]. right. lia.
    + rewrite O2, O, length_app. lia.
    + rewrite Fi2, Fi, N, O. rewrite alter_alter_eq. apply alter_ext. intros c _. simpl. rewrite <- write_at_app. f_equal. lia.
  - intros [K2 F2 N2 O2 G2]. rewrite N, O in F2. split; try done; try congruence; [|lia|tauto].
    eapply follows_trans; [done|]. eapply follows_mono; [|done]. right. lia.
Qed.

(** What is written for a block: the network, the length, the block and the checksum. *)
Definition framed (net : Z) (raw : list Z) : list Z := le_bytes 4 net ++ le_bytes 4 (len raw) ++ raw.
Definition framed_sum (net : Z) (raw : list Z) : list Z := framed net raw ++ be_bytes (crc_Checksum (framed net raw)).

(** The files have a block at a location. *)
Definition holds (net : Z) (f : gmap Z (list Z)) (loc : blockLocation) (raw : list Z) : Prop :=
  exists pre suf, f !! bl_blockFileNum loc = Some (pre ++ framed_sum net raw ++ suf) /\ len pre = bl_fileOffset loc /\ bl_blockLen loc = len raw + 12.
Definition below (loc : blockLocation) (n o : Z) : Prop := pos_le (bl_blockFileNum loc) (bl_fileOffset loc + bl_blockLen loc) n o.

Lemma framed_sum_length net raw : len (framed_sum net raw) = len raw + 12.
Proof. unfold framed_sum, framed, be_bytes. rewrite !length_app, length_reverse, !le_bytes_length. lia. Qed.

Lemma holds_kept net f f' loc raw n o : holds net f loc raw -> below loc n o -> kept n o f f' -> holds net f' loc raw.
Proof.
  intros (pre & suf & Hf & Hp & Hl) [Hlt|[Hn Ho]] [B K].
  - exists pre, suf. by rewrite B.
  - rewrite Hn in Hf. destruct (K _ Hf) as (c' & Hc' & P). rewrite app_assoc, take_app_ge in P.
    + destruct P as [k ->]. rewrite <- !app_assoc in Hc'. exists pre, (take (Z.to_nat o - length (pre ++ framed_sum net raw)) suf ++ k). by rewrite Hn.
    + pose proof (framed_sum_length net raw). rewrite length_app. lia.
Qed.

(** The files up to [n] are there, and file [n] has [o] bytes; or there is nothing yet. *)
Definition complete (n o : Z) (f : gmap Z (list Z)) : Prop :=
  (n = 0 /\ o = 0) \/ ((forall i, 0 <= i < n -> is_Some (f !! i)) /\ exists c, f !! n = Some c /\ o <= len c).

Lemma kept_complete n o f f' : complete n o f -> kept n o f f' -> complete n o f'.
Proof.
  intros [?|[B (c & Hc & Ho)]] [KB KA]; [by left|]. right. split; [intros i Hi; rewrite KB by lia; by apply B|].
  destruct (KA c Hc) as (c' & Hc' & P%prefix_length). exists c'. split; [done|]. rewrite length_take in P. lia.
Qed.

(** The cursor moves on in its file, or to the next file when it is not at the start of its file. *)
Lemma complete_after s s' c : complete (bs_curFileNum s) (bs_curOffset s) (bs_files s) -> kept (bs_curFileNum s) (bs_curOffset s) (bs_files s) (bs_files s') ->
  bs_curFileNum s' = bs_curFileNum s \/ (bs_curFileNum s' = bs_curFileNum s + 1 /\ 0 < bs_curOffset s) ->
  bs_files s' !! bs_curFileNum s' = Some c -> bs_curOffset s' <= len c -> complete (bs_curFileNum s') (bs_curOffset s') (bs_files s').
Proof.
  intros Hcm Hk Hn Hc Ho. apply (kept_complete _ _ _ _ Hcm) in Hk. right. split; [|by exists c]. intros i Hi.
  destruct Hk as [[]|[B (d & Hd & _)]]; [lia|]. destruct (decide (i = bs_curFileNum s)) as [->|]; [by rewrite Hd|]. apply B. lia.
Qed.

(** What a write of a block does, whether it succeeds or not. *)
Record block_written (raw : list Z) (s : blockStore) (r : blockLocation + blk_err) (s' : blockStore) : Prop := {
  bw_ok : store_ok s';
  bw_follows : follows (bs_curFileNum s) (bs_curOffset s) s s';
  bw_pos : pos_le (bs_curFileNum s) (bs_curOffset s) (bs_curFileNum s') (bs_curOffset s');
  bw_num : bs_curFileNum s' <= bs_curFileNum s + 1;
  bw_result : match r with
    | inl loc => holds (bs_network s) (bs_files s') loc raw /\ below loc (bs_curFileNum s') (bs_curOffset s') /\
        uint_range 32 (bl_blockFileNum loc) /\ uint_range 32 (bl_fileOffset loc) /\ uint_range 32 (bl_blockLen loc) /\
        (len raw + 12 <= bs_maxBlockFileSize s -> complete (bs_curFileNum s) (bs_curOffset s) (bs_files s) -> complete (bs_curFileNum s') (bs_curOffset s') (bs_files s'))
    | inr _ => ~ faultless s
    end;
  bw_good : faultless s -> faultless s';
}.

Lemma pos_le_trans n o n1 o1 n2 o2 : pos_le n o n1 o1 -> pos_le n1 o1 n2 o2 -> pos_le n o n2 o2.
Proof. unfold pos_le. lia. Qed.

(** The file after a whole record is written. *)
Lemma wrote_holds net raw s s' : wrote s (framed_sum net raw) s' -> bs_curFile s = true -> store_ok s ->
  holds net (bs_files s') (MkLoc (bs_curFileNum s) (bs_curOffset s) (len raw + 12)) raw.
Proof.
  intros [K F N C O Fi G] Hc [_ _ Ho _ Hcur _]. destruct (Hcur Hc) as [c E]. destruct (write_at_spec c (Z.to_nat (bs_curOffset s)) (framed_sum net raw)) as (pre & suf & Hw & Hp & _).
  exists pre, suf. simpl. split_and!; [|unfold uint_range in Ho; lia|done]. rewrite Fi, lookup_alter_eq, E. simpl. by rewrite Hw.
Qed.

Lemma roll_over_ok s (n : Z) : store_ok s -> bs_curFileNum s + 1 < 2 ^ 32 -> 0 <= n < 2 ^ 32 ->
  returns (if decide (u32 (bs_curOffset s + n) < bs_curOffset s \/ bs_maxBlockFileSize s < u32 (bs_curOffset s + n)) then smodify (fun s => set_cursor s false (u32 (bs_curFileNum s + 1)) 0) else mret ()) s
    (fun _ s' => store_ok s' /\ follows (bs_curFileNum s) (bs_curOffset s) s s' /\ pos_le (bs_curFileNum s) (bs_curOffset s) (bs_curFileNum s') (bs_curOffset s') /\
       bs_curFileNum s' <= bs_curFileNum s + 1 /\ bs_curOffset s' + n < 2 ^ 32 /\ bs_io s' = bs_io s /\
       (bs_curFileNum s' = bs_curFileNum s \/ (bs_curFileNum s' = bs_curFileNum s + 1 /\ (0 < bs_curOffset s \/ bs_maxBlockFileSize s < n)))).
Proof.
  intros Hok Hn Hr. pose proof Hok as [L N O W C Z]. unfold uint_range in N, O. case_decide as Hd.
  - assert (u32 (bs_curFileNum s + 1) = bs_curFileNum s + 1) as Hu by (apply uwrap_id; unfold uint_range; lia).
    sm_steps. simpl. rewrite Hu. split; [split; simpl; try done; unfold uint_range; lia|]. split; [by apply follows_refl|]. unfold pos_le. split_and!; try done; [lia..|]. right. split; [lia|]. destruct (decide (bs_curOffset s = 0)) as [E|]; [|lia]. rewrite E, uwrap_id in Hd by (unfold uint_range; lia). lia.
  - sm_steps. split; [done|]. split; [by apply follows_refl|]. unfold pos_le. split_and!; try lia; [|done..].
    destruct (decide (bs_curOffset s + n < 2 ^ 32)) as [|Hbig]; [done|]. destruct Hd. left. unfold uwrap.
    rewrite <- (Z_mod_plus_full _ (-1)), Z.mod_small; lia.
Qed.

Lemma stopped_written raw s s1 s' e : store_ok s -> follows (bs_curFileNum s) (bs_curOffset s) s s1 -> pos_le (bs_curFileNum s) (bs_curOffset s) (bs_curFileNum s1) (bs_curOffset s1) ->
  bs_curFileNum s1 <= bs_curFileNum s + 1 -> (faultless s -> faultless s1) -> stopped s1 s' -> block_written raw s (inr e) s'.
Proof.
  intros Hok Hf Hp Hn Hg [K F N O G]. split; try done; [| |lia|tauto|tauto].
  - eapply follows_trans; [done|]. by eapply follows_mono.
  - rewrite N. eapply pos_le_trans; [done|]. right. lia.
Qed.

Theorem write_block_ok raw s : store_ok s -> bs_curFileNum s + 1 < 2 ^ 32 -> len raw + 12 < 2 ^ 32 -> returns (writeBlock raw) s (block_written raw s).
Proof.
  intros Hok Hn Hl. unfold writeBlock.
  assert (u32 (len raw) = len raw) as -> by (apply uwrap_id; unfold uint_range; lia). assert (u32 (len raw + 12) = len raw + 12) as -> by (apply uwrap_id; unfold uint_range; lia).
  cbv zeta. apply returns_bind, returns_get, returns_bind. eapply returns_mono; [apply roll_over_ok; [done..|lia]|]. intros _ s1 (K1 & F1 & P1 & N1 & O1 & G1 & R1).
  assert (faultless s -> faultless s1) as Hg1 by (unfold faultless; congruence).
  apply returns_bind, returns_get, returns_bind. eapply returns_mono; [apply (open_current_ok s1 (bs_curOffset s1) K1)|]. intros ok s2 (K2 & F2 & N2 & O2 & C2 & G2).
  assert (follows (bs_curFileNum s) (bs_curOffset s) s s2) as F12 by (eapply follows_trans; [done|]; by eapply follows_mono).
  assert (pos_le (bs_curFileNum s) (bs_curOffset s) (bs_curFileNum s2) (bs_curOffset s2)) as P2 by (by rewrite N2, O2).
  destruct ok; simpl negb; [|apply returns_ret; split; try done; [lia|naive_solver..]].
  assert (forall e s', stopped s2 s' -> block_written raw s (inr e) s') as Hstop by (intros e s' Hst; eapply stopped_written; [..|exact Hst]; try done; [lia|naive_solver]).
  assert (bs_network s2 = bs_network s) as W2 by apply F12. pose proof (ok_offset _ K2) as R2. unfold uint_range in R2.
  apply returns_bind, returns_get, returns_bind. rewrite W2. eapply returns_mono; [apply write_data_ok; [done..|rewrite le_bytes_length; lia]|].
  intros [|] s3 H3; simpl negb; [|apply returns_ret; by apply Hstop].
  apply returns_bind. eapply returns_mono; [apply (write_more_ok _ _ _ _ H3); rewrite ?le_bytes_length; lia|].
  intros [|] s4 H4; simpl negb; [|apply returns_ret; by apply Hstop].
  apply returns_bind. eapply returns_mono; [apply (write_more_ok _ _ _ _ H4); rewrite ?length_app, ?le_bytes_length; lia|].
  intros [|] s5 H5; simpl negb; [|apply returns_ret; by apply Hstop].
  apply returns_bind. eapply returns_mono; [apply (write_more_ok _ _ _ _ H5); unfold be_bytes; rewrite ?length_app, ?length_reverse, ?le_bytes_length; lia|].
  intros [|] s6 H6; simpl negb; [|apply returns_ret; by apply Hstop].
  rewrite !crc_app in H6. rewrite <- (app_assoc (le_bytes 4 _)) in H6. change (_ ++ be_bytes _) with (framed_sum (bs_network s) raw) in H6.
  apply returns_bind, returns_get, returns_ret. pose proof (wrote_holds _ _ _ _ H6 C2 K2) as Hh. destruct H6 as [K6 F6 N6 C6 O6 Fi6 G6]. rewrite framed_sum_length in O6. rewrite N6.
  split; try done.
  - eapply follows_trans; [done|]. by eapply follows_mono.
  - rewrite N6. eapply pos_le_trans; [done|]. right. lia.
  - lia.
  - split; [done|]. split; [right; simpl; lia|]. destruct K2 as [_ U2 V2 _ _ _]. simpl. split_and!; try done; [unfold uint_range; lia|].
    intros Hmax Hcm. destruct Hh as (pre & suf & Hc & Hp & _). cbn [bl_blockFileNum bl_fileOffset] in Hc, Hp. eapply complete_after; [done| | |rewrite N6; exact Hc|].
    + eapply kept_trans; [apply F12|]. eapply kept_mono; [exact P2|apply F6].
    + lia.
    + rewrite !length_app, O6. pose proof (framed_sum_length (bs_network s) raw). lia.
  - naive_solver.
Qed.

(** ** Open files *)

Lemma lru_front l e f n : lru_ok l e f -> n ∈ l -> lru_ok (move_to_front n l) e f.
Proof.
  intros [D E F B] Hn. unfold move_to_front.
  assert (n :: filter (fun i => i <> n) l ≡ₚ l) as P.
  { apply NoDup_Permutation; [|done|].
    - apply NoDup_cons. split; [|by apply NoDup_filter]. intros H. by apply list_elem_of_filter in H as [? _].
    - intros x. rewrite elem_of_cons, list_elem_of_filter. destruct (decide (x = n)) as [->|]; tauto. }
  split; [by rewrite P| | |by rewrite P].
  - rewrite E. apply leibniz_equiv. by rewrite P.
  - rewrite F. apply leibniz_equiv. by rewrite P.
Qed.

Lemma lru_drop l e f old : lru_ok l e f -> last l = Some old -> old ∈ f /\ lru_ok (removelast l) (e ∖ {[old]}) (f ∖ {[old]}) /\ len (removelast l) < maxOpenFiles.
Proof.
  intros [D -> -> B] Hl. apply last_Some in Hl as [l' ->]. rewrite removelast_last. rewrite length_app in B. simpl in B. apply NoDup_app in D as (D & Hd & _).
  assert (old ∉ l') as Ho by (intros H; apply (Hd old H); left).
  split; [set_solver|]. split; [|lia]. split; [done|set_solver..|lia].
Qed.

Lemma lru_add l e f n : lru_ok l e f -> n ∉ f -> len l < maxOpenFiles -> lru_ok (n :: l) ({[n]} ∪ e) ({[n]} ∪ f).
Proof. intros [D -> -> B] Hn Hl. split; [|done..|simpl; lia]. apply NoDup_cons. split; [set_solver|done]. Qed.

(** A step that only opens and closes files. *)
Record opened (s s' : blockStore) : Prop := {
  op_ok : store_ok s';
  op_files : bs_files s' = bs_files s;
  op_network : bs_network s' = bs_network s;
  op_num : bs_curFileNum s' = bs_curFileNum s;
  op_offset : bs_curOffset s' = bs_curOffset s;
  op_good : faultless s -> faultless s';
}.

Lemma open_file_ok num s : store_ok s -> num ∉ bs_openBlockFiles s ->
  returns (openFile num) s (fun e s' => opened s s' /\ (faultless s -> is_Some (bs_files s !! num) -> e = None)).
Proof.
  intros [L N O W C Z] Hn. unfold openFile. apply returns_bind, returns_call. intros f io Hio. apply returns_bind, returns_get. simpl bs_files. simpl bs_openBlocksLRU.
  assert (opened s (set_io s io)) as Hsame by (split; simpl; try done; intros H; by apply Hio in H as [_ H]).
  destruct f as [k|]; [apply returns_ret; split; [done|]; by intros [H _]%Hio|]. destruct (bs_files s !! num) as [c|] eqn:Ec; [|apply returns_ret; split; [done|]; by intros _ [? ?]].
  assert (forall l e f, lru_ok l e f -> num ∉ f -> len l < maxOpenFiles ->
    returns (_ ← smodify (fun s => set_open s (num :: bs_openBlocksLRU s) ({[num]} ∪ bs_fileNumToLRUElem s) ({[num]} ∪ bs_openBlockFiles s)); mret (M := sm) (A := option blk_err) None) (set_open (set_io s io) l e f)
      (fun e s' => opened s s' /\ (faultless s -> is_Some (Some c) -> e = None))) as Hadd.
  { intros l e f Hl Hf Hb. sm_steps. split; [|done]. split; simpl; try done; [|intros H; by apply Hio in H as [_ H]].
    split; simpl; try done. by apply lru_add. }
  apply returns_bind. case_decide as Hmax.
  - destruct (last (bs_openBlocksLRU s)) as [old|] eqn:El; [|apply last_None in El; rewrite El in Hmax; by vm_compute in Hmax].
    destruct (lru_drop _ _ _ _ L El) as (Ho & L' & B'). simpl bs_openBlockFiles. rewrite decide_True by done. apply returns_modify. simpl. apply Hadd; [done| |done]. set_solver.
  - apply returns_ret. replace (set_io s io) with (set_open (set_io s io) (bs_openBlocksLRU s) (bs_fileNumToLRUElem s) (bs_openBlockFiles s)) by (by destruct s). apply Hadd; [done..|lia].
Qed.

Lemma block_file_ok num s : store_ok s -> returns (blockFile num) s (fun e s' => opened s s' /\ (faultless s -> is_Some (bs_files s !! num) -> e = None)).
Proof.
  intros Hok. pose proof Hok as [L N O W C Z]. unfold blockFile. apply returns_bind, returns_get. destruct (_ && _); [sm_steps; split; [|done]; by split|].
  case_decide as Ho; [|by apply open_file_ok]. destruct L as [D E F B] eqn:EL. rewrite decide_True by (by rewrite E, <- F).
  sm_steps. split; [|done]. split; simpl; try done. split; simpl; try done. apply lru_front; [exact L|]. rewrite F in Ho. set_solver.
Qed.

(** ** Reading *)

Lemma os_read_ok num o n s : returns (os_read num o n) s (fun d s' =>
  (exists io, s' = set_io s io /\ (faultless s -> Forall (fun f => f = None) io)) /\ (forall x, d = Some x -> 0 <= o -> 0 <= n -> len x = n) /\
  (faultless s -> forall a x b, bs_files s !! num = Some (a ++ x ++ b) -> o = len a -> n = len x -> d = Some x)).
Proof.
  unfold os_read. apply returns_bind, returns_call. intros f io Hio. apply returns_bind, returns_get, returns_ret. simpl bs_files.
  split; [exists io; split; [done|]; intros H; by apply Hio in H as [_ H]|]. split.
  - intros x. destruct f; [done|]. destruct (bs_files s !! num) as [c|]; [|done]. case_decide; [|done]. intros [= <-] ? ?. rewrite length_take, length_drop. lia.
  - intros Hg a x b Hf -> ->. apply Hio in Hg as [-> _]. rewrite Hf, decide_True by (rewrite !length_app; lia). rewrite !Nat2Z.id, drop_app_length. by rewrite take_app_length.
Qed.

Lemma opened_io s s1 io : opened s s1 -> (faultless s1 -> Forall (fun f => f = None) io) -> opened s (set_io s1 io).
Proof. intros [[] F N C O G] Hio. split; [by split|done..|]. intros H. apply Hio, G, H. Qed.

Lemma split_record (d : list Z) : 12 <= len d -> exists p q r t, d = p ++ q ++ r ++ t /\ length p = 4%nat /\ length q = 4%nat /\ length t = 4%nat.
Proof.
  intros H. exists (take 4 d), (take 4 (drop 4 d)), (take (length d - 12) (drop 8 d)), (drop (length d - 4) d). rewrite !length_take, !length_drop. split; [|lia].
  rewrite <- (take_drop 4 d) at 1. f_equal. rewrite <- (take_drop 4 (drop 4 d)) at 1. f_equal. rewrite drop_drop. change (4 + 4)%nat with 8%nat.
  replace (drop (length d - 4) d) with (drop (length d - 12) (drop 8 d)) by (rewrite drop_drop; f_equal; lia). by rewrite take_drop.
Qed.

Lemma framed_sum_parts net raw p q r t : p ++ q ++ r ++ t = framed_sum net raw -> length p = 4%nat -> length q = 4%nat -> length t = 4%nat ->
  p = le_bytes 4 net /\ r = raw /\ t = be_bytes (crc_Checksum (p ++ q ++ r)).
Proof.
  intros H Lp Lq Lt. unfold framed_sum in H. rewrite (app_assoc q), (app_assoc p) in H. apply app_inj_2 in H as [H Ht]; [|unfold be_bytes; rewrite length_reverse, le_bytes_length; lia].
  rewrite <- H in Ht. unfold framed in H. apply app_inj_1 in H as [Hp H]; [|rewrite le_bytes_length; lia]. apply app_inj_1 in H as [_ Hr]; [|rewrite le_bytes_length; lia]. done.
Qed.

Lemma sum_reads_back v : uint_range 32 v -> le_value (reverse (take 4 (be_bytes v))) = v.
Proof.
  intros H. rewrite take_ge by (unfold be_bytes; by rewrite length_reverse, le_bytes_length). unfold be_bytes. rewrite reverse_involutive, le_value_le_bytes. by apply Z.mod_small.
Qed.

(** Reading leaves the files alone, and a block that is there is read. *)
Lemma read_block_ok loc s : store_ok s -> 12 <= bl_blockLen loc -> 0 <= bl_fileOffset loc ->
  returns (readBlock loc) s (fun r s' => opened s s' /\ (faultless s -> forall raw, holds (bs_network s) (bs_files s) loc raw -> r = inl raw)).
Proof.
  intros Hok Hlen Hoff. unfold readBlock. apply returns_bind. eapply returns_mono; [by apply block_file_ok|]. intros e s1 [H1 E1].
  destruct e as [e|]. { apply returns_ret. split; [done|]. intros Hg raw (pre & suf & Hf & _). eapply mk_is_Some in Hf. by apply E1 in Hf. }
  apply returns_bind. eapply returns_mono; [apply os_read_ok|]. intros d s2 ((io & -> & Hio) & Hd & Hx). apply (opened_io s s1 io H1) in Hio as H2.
  assert (faultless s -> forall raw, holds (bs_network s) (bs_files s) loc raw -> d = Some (framed_sum (bs_network s) raw)) as Hraw.
  { intros Hg raw (pre & suf & Hf & Hp & Hl). apply (op_good _ _ H1) in Hg. rewrite <- (op_files _ _ H1) in Hf. eapply Hx; [done..|]. by rewrite framed_sum_length. }
  destruct d as [d|]; [|apply returns_ret; split; [done|]; intros Hg raw Hh; by apply (Hraw Hg) in Hh]. clear Hx.
  specialize (Hd d eq_refl Hoff ltac:(lia)). destruct (split_record d ltac:(lia)) as (p & q & r & t & -> & Lp & Lq & Lt). rewrite !length_app in Hd.
  assert (faultless s -> forall raw, holds (bs_network s) (bs_files s) loc raw -> p = le_bytes 4 (bs_network s) /\ r = raw /\ t = be_bytes (crc_Checksum (p ++ q ++ r))) as Hparts.
  { intros Hg raw Hh. apply (Hraw Hg) in Hh. injection Hh as Hh. by apply framed_sum_parts. }
  cbv zeta. apply returns_bind, (returns_lift _ t). { rewrite (app_assoc q), (app_assoc p). apply slice_sub_tail; rewrite !length_app; lia. }
  apply returns_bind, (returns_lift _ (p ++ q ++ r)). { rewrite (app_assoc q), (app_assoc p). apply slice_sub_head. rewrite !length_app. lia. }
  case_decide as Hsum.
  { apply returns_ret. split; [done|]. intros Hg raw Hh. destruct (Hparts Hg raw Hh) as (_ & _ & Ht). destruct Hsum. subst t. apply sum_reads_back, crc_range. }
  apply returns_bind, (returns_lift _ (le_value p)). { unfold le4. by rewrite slice_sub_head by lia. }
  apply returns_bind, returns_get. case_decide as Hnet.
  - apply returns_ret. split; [done|]. intros Hg raw Hh. destruct (Hparts Hg raw Hh) as (Hp & _ & _). destruct Hnet. rewrite Hp, le_value_le_bytes. simpl bs_network. by rewrite (op_network _ _ H1).
  - apply returns_bind, (returns_lift _ r). { rewrite (app_assoc p). apply slice_sub_mid; rewrite !length_app; lia. }
    apply returns_ret. split; [done|]. intros Hg raw Hh. by destruct (Hparts Hg raw Hh) as (_ & -> & _).
Qed.

(** A part of a block that is there is read. *)
Lemma read_region_ok loc offset n s : store_ok s ->
  returns (readBlockRegion loc offset n) s (fun r s' => opened s s' /\ (faultless s -> forall raw, holds (bs_network s) (bs_files s) loc raw -> 0 <= offset -> 0 <= n -> offset + n <= len raw ->
    r = inl (take (Z.to_nat n) (drop (Z.to_nat offset) raw)))).
Proof.
  intros Hok. unfold readBlockRegion. apply returns_bind. eapply returns_mono; [by apply block_file_ok|]. intros e s1 [H1 E1].
  destruct e as [e|]. { apply returns_ret. split; [done|]. intros Hg raw (pre & suf & Hf & _). eapply mk_is_Some in Hf. by apply E1 in Hf. }
  apply returns_bind. eapply returns_mono; [apply os_read_ok|]. intros d s2 ((io & -> & Hio) & _ & Hx). apply (opened_io s s1 io H1) in Hio as H2.
  apply returns_ret. split; [done|]. intros Hg raw (pre & suf & Hf & Hp & Hl) H0 Hn Ho. apply (op_good _ _ H1) in Hg. pose proof (ok_sized _ Hok _ _ Hf) as [_ Hsz]. rewrite <- (op_files _ _ H1) in Hf.
  unfold framed_sum, framed in *. rewrite !length_app, !le_bytes_length in Hsz. rewrite <- !app_assoc in Hf. generalize dependent (be_bytes (crc_Checksum (le_bytes 4 (bs_network s) ++ le_bytes 4 (len raw) ++ raw)) ++ suf). intros tl Hf.
  rewrite (Hx Hg (pre ++ le_bytes 4 (bs_network s) ++ le_bytes 4 (len raw) ++ take (Z.to_nat offset) raw) (take (Z.to_nat n) (drop (Z.to_nat offset) raw)) (drop (Z.to_nat n) (drop (Z.to_nat offset) raw) ++ tl)); [done|..].
  - rewrite Hf. f_equal. rewrite <- !app_assoc. do 3 f_equal. by rewrite (app_assoc (take (Z.to_nat n) _)), take_drop, app_assoc, take_drop.
  - rewrite !length_app, !le_bytes_length, length_take. rewrite uwrap_id; [lia|]. unfold uint_range. lia.
  - rewrite length_take, length_drop. lia.
Qed.

(** ** Undoing writes *)

Lemma delete_newer_ok n o k : forall s, store_ok s -> bs_curFileNum s = n + Z.of_nat k -> 0 <= n -> bs_curFile s = false \/ k = 0%nat ->
  returns (delete_newer k) s (fun ok s' => store_ok s' /\ follows n o s s' /\ bs_curOffset s' = bs_curOffset s /\ bs_curFile s' = bs_curFile s /\ (ok = true \/ k = 0%nat -> bs_curFileNum s' = n)).
Proof.
  induction k as [|k IH]; intros s Hok Hk Hn Hc; cbn [delete_newer]; [apply returns_ret; split; [done|]; split; [by apply follows_refl|]; split_and!; try done; lia|].
  pose proof Hok as [L N O W C Z]. destruct Hc as [Hc|]; [|done]. unfold uint_range in N.
  apply returns_bind, returns_get, returns_bind. unfold deleteFile. apply returns_bind, returns_call. intros f io _. apply returns_bind, returns_get. simpl bs_files.
  assert (store_ok (set_io s io)) as Hio by (by split). assert (follows n o s (set_io s io)) as Fio by (by apply follows_refl).
  destruct f; [sm_steps; split_and!; naive_solver|]. destruct (bs_files s !! bs_curFileNum s) eqn:E; [|sm_steps; split_and!; naive_solver].
  sm_steps. cbn [bs_files set_files set_io bs_curFileNum bs_curOffset bs_curFile]. rewrite uwrap_id by (unfold uint_range; lia).
  eapply returns_mono; [apply IH; simpl; try done; [|lia|by left]|].
  - split; simpl; try done; [unfold uint_range; lia|by rewrite Hc|]. by apply map_Forall_delete.
  - intros ok s' (K & F & P & Q & R). split; [done|]. split; [|naive_solver]. eapply follows_trans; [|exact F]. split; simpl; try done. apply kept_delete. lia.
Qed.

Lemma truncate_ok n o s : store_ok s -> uint_range 32 o -> bs_curFileNum s = n ->
  returns (os_truncate n o) s (fun ok s' => store_ok s' /\ follows n o s s' /\ bs_curFileNum s' = bs_curFileNum s).
Proof.
  intros [L N O W C Z] Ho Hn. unfold os_truncate. apply returns_bind, returns_call. intros [k|] io _; sm_steps; (split; [split; simpl; try done|split; [|done]]).
  - by apply follows_refl.
  - rewrite Hn in C |- *. intros [c E]%C. rewrite lookup_alter_eq, E. by eexists.
  - apply sized_alter; [done|]. intros c _ _. rewrite truncate_length. unfold uint_range in Ho. lia.
  - split; simpl; try done. apply kept_alter. intros c _. apply truncate_keeps.
Qed.

Lemma sync_ok n s : store_ok s -> returns (os_sync n) s (fun _ s' => store_ok s' /\ (forall m o, follows m o s s') /\ bs_curFileNum s' = bs_curFileNum s).
Proof.
  intros [L N O W C Z]. unfold os_sync. apply returns_bind, returns_call. intros [k|] io _; sm_steps; (split; [by split|split; [|done]]); intros m o; by apply follows_refl.
Qed.

Lemma undo_writes_ok n o s : store_ok s -> n <= bs_curFileNum s -> uint_range 32 n -> uint_range 32 o ->
  returns (undo_writes n o) s (fun _ s' => store_ok s' /\ follows n o s s' /\ (bs_curFile s' = true -> bs_curFileNum s' = n)).
Proof.
  intros Hok Hle Hn Ho. unfold undo_writes, uint_range in *. apply returns_bind, returns_get, returns_bind.
  eapply (returns_mono _ _ (fun _ s1 => store_ok s1 /\ follows n o s s1 /\ bs_curFileNum s1 = bs_curFileNum s /\ (bs_curFile s1 = false \/ bs_curFileNum s = n))).
  { case_decide; sm_steps; [|split; [done|]; split; [by apply follows_refl|]; split; [done|]; right; lia].
    split; [destruct Hok; by split|]. split; [by apply follows_refl|]. split; [done|]. by left. }
  intros _ s1 (K1 & F1 & N1 & C1). apply returns_bind. eapply returns_mono; [apply (delete_newer_ok n o); [done|lia|lia|]|]. { destruct C1 as [|]; [by left|right; lia]. }
  intros ok s2 (K2 & F2 & _ & C2 & N2). assert (follows n o s s2) as F12 by (by eapply follows_trans).
  destruct ok; simpl negb; [|apply returns_ret; split; [done|]; split; [done|]].
  2:{ intros Hc. rewrite C2 in Hc. destruct C1 as [|C1]; [congruence|]. apply N2. right. lia. }
  specialize (N2 (or_introl eq_refl)). apply returns_bind, returns_get, returns_bind. eapply returns_mono; [apply (open_current_ok s2 o K2)|]. intros ok s3 (K3 & F3 & N3 & _ & C3 & _).
  rewrite N2 in F3. assert (follows n o s s3) as F13 by (by eapply follows_trans).
  destruct ok; simpl negb; [|apply returns_ret; split; [done|]; split; [done|congruence]].
  apply returns_bind. rewrite N2. eapply returns_mono; [apply (truncate_ok n o s3 K3 Ho); congruence|]. intros ok s4 (K4 & F4 & N4). assert (follows n o s s4) as F14 by (by eapply follows_trans).
  destruct ok; simpl negb; [|apply returns_ret; split; [done|]; split; [done|congruence]].
  apply returns_bind. eapply returns_mono; [by apply sync_ok|]. intros _ s5 (K5 & F5 & N5). apply returns_ret. split; [done|]. split; [by eapply follows_trans|congruence].
Qed.

(** The cursor goes back and what is before it is kept, whatever fails. *)
Lemma rollback_ok n o s : store_ok s -> pos_le n o (bs_curFileNum s) (bs_curOffset s) -> uint_range 32 n -> uint_range 32 o ->
  returns (handleRollback n o) s (fun _ s' => store_ok s' /\ follows n o s s' /\ bs_curFileNum s' = n /\ bs_curOffset s' = o).
Proof.
  intros Hok Hp Hn Ho. unfold handleRollback. apply returns_bind, returns_get. case_decide as Hd.
  - apply returns_ret. split; [done|]. split; [by apply follows_refl|done].
  - apply returns_bind. eapply returns_mono; [apply undo_writes_ok; [done| |done..]; unfold pos_le in Hp; lia|]. intros _ s1 (K & F & C). apply returns_modify.
    split; [|split; [|done]]; [|eapply follows_trans; [exact F|by apply follows_refl]]. destruct K as [L N O W Cu Z]. split; simpl; try done. intros Hc. rewrite <- (C Hc). by apply Cu.
Qed.

(** ** The start *)

Lemma scan_files_last fuel f : forall i r, scan_files fuel f i r = r \/ exists j c, i <= j /\ f !! j = Some c /\ scan_files fuel f i r = (j, u32 (len c)).
Proof.
  induction fuel as [|fuel IH]; intros i r; cbn [scan_files]; [by left|]. destruct (f !! i) as [c|] eqn:E; [|by left]. right.
  destruct (IH (i + 1) (i, u32 (len c))) as [->|(j & d & Hj & Hd & ->)]; [by exists i, c|]. exists j, d. split_and!; try done. lia.
Qed.

Lemma scan_files_reaches fuel f n : forall i r, (forall k, i <= k <= n -> is_Some (f !! k)) -> n - i < Z.of_nat fuel -> i <= n -> n <= fst (scan_files fuel f i r).
Proof.
  induction fuel as [|fuel IH]; intros i r Hk Hf Hn; cbn [scan_files]; [lia|]. destruct (Hk i ltac:(lia)) as [c E]. rewrite E.
  destruct (decide (i = n)) as [->|]; [|apply IH; [intros; apply Hk; lia|lia..]].
  destruct (scan_files_last fuel f (n + 1) (n, u32 (len c))) as [->|(j & d & Hj & _ & ->)]; simpl; lia.
Qed.

(** There are as many files as numbers up to [n]. *)
Lemma files_counted (f : gmap Z (list Z)) n : (forall k, 0 <= k <= n -> is_Some (f !! k)) -> n < Z.of_nat (size f).
Proof.
  intros H. destruct (decide (n < 0)) as [|Hn]; [lia|]. set (l := Z.of_nat <$> seq 0 (S (Z.to_nat n))).
  assert (NoDup l) as Hl by (apply NoDup_fmap_2; [apply _|apply NoDup_seq]).
  assert ((list_to_set l : gset Z) ⊆ dom f) as Hs. { intros k Hk. apply elem_of_list_to_set, list_elem_of_fmap in Hk as (x & -> & Hx%elem_of_seq). apply elem_of_dom, H. lia. }
  apply subseteq_size in Hs. rewrite size_list_to_set in Hs by done. rewrite size_dom in Hs. unfold l in Hs. rewrite length_fmap, length_seq in Hs. lia.
Qed.

Lemma scan_number f n c : (forall i, 0 <= i < n -> is_Some (f !! i)) -> f !! n = Some c -> 0 <= n -> n <= fst (scan_files (S (size f)) f 0 (-1, 0)).
Proof.
  intros B Hc Hn. assert (forall k, 0 <= k <= n -> is_Some (f !! k)) as Hk by (intros k ?; destruct (decide (k = n)) as [->|]; [by rewrite Hc|apply B; lia]).
  apply scan_files_reaches; [done| |done]. pose proof (files_counted f n Hk). lia.
Qed.

Lemma scan_reaches net mx f io n o : complete n o f -> uint_range 32 n -> uint_range 32 net -> sized f ->
  let s := newBlockStore net mx f io in store_ok s /\ pos_le n o (bs_curFileNum s) (bs_curOffset s) /\ bs_files s = f /\ bs_network s = net /\ bs_io s = io.
Proof.
  intros Hcm Hr Hnet Hs. unfold newBlockStore, scanBlockFiles. destruct (scan_files _ f 0 (-1, 0)) as [m l] eqn:E.
  assert ((m, l) = (-1, 0) \/ exists c, 0 <= m /\ f !! m = Some c /\ l = u32 (len c)) as Hm.
  { destruct (scan_files_last (S (size f)) f 0 (-1, 0)) as [E'|(j & c & Hj & Hc & E')]; rewrite E in E'; [by left|]. injection E' as -> ->. right. by exists c. }
  assert (forall a b, uint_range 32 a -> uint_range 32 b -> store_ok (MkStore net mx f f io [] ∅ ∅ false a b)) as Hok by (intros a b Ha Hb; split; try done; split; try done; constructor).
  destruct Hm as [[= -> ->]|(c & H0 & Hc & ->)].
  - rewrite decide_True by done. cbn zeta match. split; [apply Hok; by vm_compute|]. split; [|done]. change (u32 0) with 0. simpl. destruct Hcm as [[-> ->]|[B (c & Hc & Ho)]]; [right; lia|].
    pose proof (scan_number f n c B Hc) as Hm. rewrite E in Hm. simpl in Hm. unfold uint_range in Hr. lia.
  - rewrite decide_False by lia. destruct (Hs _ _ Hc) as [Hm Hl]. rewrite !(uwrap_id 32) by (try done; unfold uint_range; lia). split; [apply Hok; [done|unfold uint_range; lia]|]. split; [|done]. simpl.
    unfold uint_range in *. destruct Hcm as [[-> ->]|[B (d & Hd & Ho)]]; [unfold pos_le; lia|].
    pose proof (scan_number f n d B Hd) as Hm'. rewrite E in Hm'. simpl in Hm'.
    unfold pos_le. destruct (decide (m = n)) as [->|]; [|left; lia]. right. replace c with d by congruence. lia.
Qed.

(** The repair puts the cursor back to its row and keeps what is before it. *)
Lemma reconcile_ok n o s : store_ok s -> pos_le n o (bs_curFileNum s) (bs_curOffset s) -> uint_range 32 n -> uint_range 32 o ->
  returns (reconcileDB (Some (serializeWriteRow n o))) s (fun r s' => r = None /\ store_ok s' /\ follows n o s s' /\ bs_curFileNum s' = n /\ bs_curOffset s' = o).
Proof.
  intros Hok Hp Hn Ho. unfold reconcileDB. rewrite write_row_roundtrip by done. apply returns_bind, (returns_lift _ (inl (n, o))); [done|]. apply returns_bind, returns_get, returns_bind.
  eapply (returns_mono _ _ (fun _ s' => store_ok s' /\ follows n o s s' /\ bs_curFileNum s' = n /\ bs_curOffset s' = o)).
  - case_decide as Hd; [by apply rollback_ok|]. apply returns_ret. split; [done|]. split; [by apply follows_refl|]. unfold pos_le in Hp. lia.
  - intros _ s' (K & F & N & O). apply returns_bind, returns_get, returns_ret. rewrite N, O, decide_False by lia. done.
Qed.

(** ** Transactions on the files *)

(** The loop over the blocks of a transaction: the locations, or the first error. *)
Fixpoint write_each (raws : list (list Z)) : sm (list blockLocation + blk_err) :=
  match raws with
  | [] => mret (inl [])
  | raw :: raws =>
      r ← writeBlock raw;
      match r with
      | inr e => mret (inr e)
      | inl loc => r ← write_each raws; mret (match r with inl locs => inl (loc :: locs) | inr e => inr e end)
      end
  end.

(** Blocks that are in the files, before a position. *)
Definition stored (net : Z) (f : gmap Z (list Z)) (n o : Z) (blocks : list (blockLocation * list Z)) : Prop :=
  Forall (fun '(loc, raw) => holds net f loc raw /\ below loc n o) blocks.

Lemma stored_kept net f f' n o n' o' blocks : stored net f n o blocks -> pos_le n o n' o' -> kept n o f f' -> stored net f' n' o' blocks.
Proof.
  intros H Hp Hk. eapply Forall_impl; [exact H|]. intros [loc raw] [H1 H2]. split; [by eapply holds_kept|]. by eapply pos_le_trans.
Qed.

Definition fitting (s : blockStore) (raws : list (list Z)) : Prop :=
  bs_curFileNum s + len raws < 2 ^ 32 /\ bs_maxBlockFileSize s < 2 ^ 32 /\ Forall (fun raw => len raw + 12 <= bs_maxBlockFileSize s) raws.

(** What the loop does, whether it succeeds or not. *)
Record all_written (raws : list (list Z)) (s : blockStore) (r : list blockLocation + blk_err) (s' : blockStore) : Prop := {
  aw_ok : store_ok s';
  aw_follows : follows (bs_curFileNum s) (bs_curOffset s) s s';
  aw_pos : pos_le (bs_curFileNum s) (bs_curOffset s) (bs_curFileNum s') (bs_curOffset s');
  aw_result : match r with
    | inl locs => length locs = length raws /\ stored (bs_network s) (bs_files s') (bs_curFileNum s') (bs_curOffset s') (zip locs raws) /\
        Forall (fun loc => uint_range 32 (bl_blockFileNum loc) /\ uint_range 32 (bl_fileOffset loc) /\ uint_range 32 (bl_blockLen loc)) locs /\
        (complete (bs_curFileNum s) (bs_curOffset s) (bs_files s) -> complete (bs_curFileNum s') (bs_curOffset s') (bs_files s'))
    | inr _ => ~ faultless s
    end;
  aw_good : faultless s -> faultless s';
}.

Lemma write_each_ok raws : forall s, store_ok s -> fitting s raws -> returns (write_each raws) s (all_written raws s).
Proof.
  induction raws as [|raw raws IH]; intros s Hok (Hn & Hm & Hl); cbn [write_each].
  { apply returns_ret. split; try done; [by apply follows_refl|right; lia|]. split_and!; try done; constructor. }
  apply Forall_cons in Hl as [Hr Hl]. simpl in Hn. apply returns_bind. eapply returns_mono; [apply write_block_ok; [done|lia..]|]. intros r s1 [K1 F1 P1 N1 R1 G1].
  destruct r as [loc|e]; [|apply returns_ret; by split]. destruct R1 as (H1 & B1 & U1 & U2 & U3 & C1).
  apply returns_bind. eapply returns_mono; [apply IH; [done|]|]. { split; [lia|]. by rewrite (fo_max _ _ _ _ F1). }
  intros r s2 [K2 F2 P2 R2 G2]. apply returns_ret.
  assert (follows (bs_curFileNum s) (bs_curOffset s) s s2) as F12 by (eapply follows_trans; [done|]; by eapply follows_mono).
  destruct r as [locs|e]; (split; [done|done|by eapply pos_le_trans| |auto]); [|tauto].
  destruct R2 as (L2 & S2 & V2 & C2). rewrite (fo_network _ _ _ _ F1) in S2. split_and!; [simpl; by rewrite L2| |by constructor|auto].
  constructor; [|done]. split; [eapply holds_kept; [done..|apply F2]|by eapply pos_le_trans].
Qed.

(** Every block is read, as long as the system does not fail. *)
Definition all_read (s : blockStore) (blocks : list (blockLocation * list Z)) : Prop :=
  forall loc raw, (loc, raw) ∈ blocks -> forall io, Forall (fun f => f = None) io -> exists s', readBlock loc (set_io s io) = Ok (inl raw, s').

Lemma stored_read s n o blocks : store_ok s -> stored (bs_network s) (bs_files s) n o blocks -> all_read s blocks.
Proof.
  intros Hok Hs loc raw Hin io Hio. destruct (proj1 (Forall_forall _ _) Hs _ Hin) as [Hh _]. pose proof Hh as (pre & suf & _ & Hp & Hl).
  assert (store_ok (set_io s io)) as Hok' by (destruct Hok; by split).
  destruct (read_block_ok loc (set_io s io) Hok' ltac:(lia) ltac:(lia)) as (r & s' & H & _ & Hr). exists s'. by rewrite H, (Hr Hio raw Hh).
Qed.

(** C26: Whatever blocks are written after the committed ones, and whatever calls to the system fail on the way, the files lose no committed block: undoing the writes puts the cursor back and every committed block is read; after a crash in place of that, the new store that scans the files and is repaired from the committed row ends at the same cursor without an error, and every committed block is read. *)
Theorem committed_blocks_survive (s : blockStore) (blocks : list (blockLocation * list Z)) (raws : list (list Z)) (io : list (option nat))
  (Hok : store_ok s) (Hs : stored (bs_network s) (bs_files s) (bs_curFileNum s) (bs_curOffset s) blocks) (Hc : complete (bs_curFileNum s) (bs_curOffset s) (bs_files s)) (Hr : fitting s raws) :
  exists r s1, write_each raws s = Ok (r, s1) /\
  (exists s2, handleRollback (bs_curFileNum s) (bs_curOffset s) s1 = Ok ((), s2) /\ bs_curFileNum s2 = bs_curFileNum s /\ bs_curOffset s2 = bs_curOffset s /\ all_read s2 blocks) /\
  (exists s2, reconcileDB (Some (serializeWriteRow (bs_curFileNum s) (bs_curOffset s))) (newBlockStore (bs_network s) (bs_maxBlockFileSize s) (bs_files s1) io) = Ok (None, s2) /\
     bs_curFileNum s2 = bs_curFileNum s /\ bs_curOffset s2 = bs_curOffset s /\ all_read s2 blocks).
Proof.
  destruct (write_each_ok raws s Hok Hr) as (r & s1 & Hw & [K1 F1 P1 _ _]). exists r, s1. split; [done|]. destruct Hok as [_ N O W _ _].
  assert (forall s2, store_ok s2 -> bs_network s2 = bs_network s -> kept (bs_curFileNum s) (bs_curOffset s) (bs_files s1) (bs_files s2) -> all_read s2 blocks) as Hread.
  { intros s2 K2 W2 Hk. eapply stored_read; [done|]. rewrite W2. eapply stored_kept; [exact Hs|right; split; [reflexivity|reflexivity]|]. eapply kept_trans; [apply F1|done]. }
  split.
  - destruct (rollback_ok _ _ _ K1 P1 N O) as ([] & s2 & H2 & K2 & F2 & N2 & O2). exists s2. split_and!; try done. apply Hread; [done| |apply F2]. by rewrite (fo_network _ _ _ _ F2), (fo_network _ _ _ _ F1).
  - pose proof (kept_complete _ _ _ _ Hc (fo_kept _ _ _ _ F1)) as Hc1.
    destruct (scan_reaches (bs_network s) (bs_maxBlockFileSize s) (bs_files s1) io _ _ Hc1 N W (ok_sized _ K1)) as (K0 & P0 & Fi & Wi & _).
    destruct (reconcile_ok _ _ _ K0 P0 N O) as (e & s2 & H2 & -> & K2 & F2 & N2 & O2). exists s2. split_and!; try done. apply Hread; [done| |rewrite <- Fi; apply F2]. by rewrite (fo_network _ _ _ _ F2), Wi.
Qed.

(** A store with one committed block, and calls to come of which some fail. *)
Definition sample_loc : blockLocation := MkLoc 0 0 15.
Definition sample_store : blockStore := MkStore 7 64 {[0 := framed_sum 7 [1; 2; 3]]} ∅ [None; None; Some 1%nat; None; Some 0%nat] [] ∅ ∅ true 0 15.

Lemma sample_store_ok : store_ok sample_store.
Proof.
  split; [split; simpl; [constructor|done..]|by vm_compute..| |].
  - intros _. exists (framed_sum 7 [1; 2; 3]). apply lookup_singleton_eq.
  - apply map_Forall_singleton. split; by vm_compute.
Qed.

Lemma committed_blocks_survive_witness : exists r s1, write_each [[4; 5; 6; 7]; [8]] sample_store = Ok (r, s1) /\
  (exists s2, handleRollback 0 15 s1 = Ok ((), s2) /\ bs_curFileNum s2 = 0 /\ bs_curOffset s2 = 15 /\ all_read s2 [(sample_loc, [1; 2; 3])]) /\
  (exists s2, reconcileDB (Some (serializeWriteRow 0 15)) (newBlockStore 7 64 (bs_files s1) [Some 0%nat]) = Ok (None, s2) /\ bs_curFileNum s2 = 0 /\ bs_curOffset s2 = 15 /\ all_read s2 [(sample_loc, [1; 2; 3])]).
Proof.
  apply (committed_blocks_survive sample_store [(sample_loc, [1; 2; 3])] [[4; 5; 6; 7]; [8]] [Some 0%nat]).
  - exact sample_store_ok.
  - constructor; [|constructor]. split; [|right; by vm_compute]. exists [], []. split_and!; [|done..]. rewrite app_nil_r. apply lookup_singleton_eq.
  - right. split; [simpl; lia|]. exists (framed_sum 7 [1; 2; 3]). split; [apply lookup_singleton_eq|by vm_compute].
  - split; [by vm_compute|]. split; [by vm_compute|]. repeat constructor; by vm_compute.
Defined.

(** What a call to [syncBlocks] makes durable is the current file. *)
Lemma sync_blocks_current s s' : syncBlocks s = Ok (None, s') -> bs_curFile s = true -> store_ok s -> bs_synced s' !! bs_curFileNum s = bs_files s !! bs_curFileNum s.
Proof.
  intros H Hc [_ _ _ _ C _]. destruct (C Hc) as [c E]. unfold syncBlocks in H. apply sbind_inv in H as (a & s1 & H1 & H). injection H1 as <- <-. rewrite Hc in H.
  apply sbind_inv in H as (ok & s2 & H2 & H). destruct ok; [|done]. injection H as <-. unfold os_sync in H2. apply sbind_inv in H2 as (f & s3 & H3 & H2).
  assert (bs_files s3 = bs_files s) as Hf by (unfold os_call in H3; destruct (bs_io s); by injection H3 as _ <-).
  destruct f; [done|]. apply sbind_inv in H2 as (u & s4 & H4 & H2). injection H2 as <-. injection H4 as _ <-. simpl. rewrite Hf, E. by rewrite lookup_insert_eq.
Qed.

(** The file that is left when a block does not fit is not made durable: its block is lost when the machine stops, although the files were synchronised after it. *)
Example closed_file_not_synced :
  let s := newBlockStore 7 20 ∅ [] in
  exists l s1 s2, write_each [[1; 2; 3]; [4; 5; 6]] s = Ok (inl l, s1) /\ syncBlocks s1 = Ok (None, s2) /\ bs_curFileNum s2 = 1 /\ is_Some (bs_files s2 !! 0) /\ bs_synced s2 !! 0 = None /\
    exists s3, reconcileDB (Some (serializeWriteRow 1 15)) (newBlockStore 7 20 (bs_synced s2) []) = Ok (Some ErrCorruption, s3).
Proof.
  cbv zeta. do 3 eexists. split; [vm_compute; reflexivity|]. split; [vm_compute; reflexivity|]. split; [reflexivity|]. split; [eexists; vm_compute; reflexivity|]. split; [vm_compute; reflexivity|].
  eexists. vm_compute. reflexivity.
Qed.
