(* ===== verification/DbBlocks.v ===== *)
(** * Blocks in transactions of the database

    Models the part of btcd/database/ffldb/db.go that stores and fetches blocks: the blocks a
    transaction holds until its commit, the rows that give their places in the block files,
    and the commit, which writes the files and then hands the keys to the cache.  It puts
    [BlockFiles] and [DbCache] together.

    A block comes with its hash and its serialization, [None] when that fails.  The snapshot
    of a closed transaction stays in its record but is not read any more. *)
From Stdlib Require Import ZArith Lia Ascii String.
From stdpp Require Import gmap list sorting.
From S2P Require Import Prelude TreapNode TreapTree TreapMutable TreapImmutable TreapStore TreapIter DbCache Wire ViewDb BlockFiles BlockKept.

Open Scope Z_scope.

Definition metadataBucketID : list Z := [0; 0; 0; 0].
Definition blockIdxBucketID : list Z := [0; 0; 0; 1].
Definition writeLocKeyName : list Z := Eval vm_compute in str "ffldb-writeloc".
Definition blockHdrSize : Z := 24 + 32 * 2.
Definition bucketizedKey (bucketID key : list Z) : list Z := bucketID ++ key.

Inductive tx_error := FileErr (e : blk_err) | CacheErr (e : db_error) | KeyRequired.

(** A block that is written when the transaction commits. *)
Record pendingBlock := MkPending { pb_hash : list Z; pb_bytes : list Z }.

(** A part of a block. *)
Record BlockRegion := MkRegion { rg_Hash : list Z; rg_Offset : Z; rg_Len : Z }.

Section DbBlocks.
Context {I M It DB Snap Tx : Type}.
Context `{OrderedStore I} `{OrderedStore M} `{!StoreIter M It} `{LevelDB DB Snap Tx}.

Abbreviation ktx := (transaction I M It Snap).

(** The fields of [transaction] about blocks, over those about keys. *)
Record btx := MkBtx {
  bt_managed : bool;
  bt_closed : bool;
  bt_keys : ktx;
  bt_pendingBlocks : gmap (list Z) Z;
  bt_pendingBlockData : list pendingBlock;
}.

Definition set_keys (tx : btx) (k : ktx) : btx := MkBtx (bt_managed tx) (bt_closed tx) k (bt_pendingBlocks tx) (bt_pendingBlockData tx).
Definition set_pending (tx : btx) (p : gmap (list Z) Z) (d : list pendingBlock) : btx := MkBtx (bt_managed tx) (bt_closed tx) (bt_keys tx) p d.
Definition set_managed (tx : btx) (b : bool) : btx := MkBtx b (bt_closed tx) (bt_keys tx) (bt_pendingBlocks tx) (bt_pendingBlockData tx).

Definition checkClosed (tx : btx) : option tx_error := if bt_closed tx then Some (FileErr ErrTxClosed) else None.

(** ** Buckets *)

Definition bucket_Put (tx : btx) (id key value : list Z) (rnd : Z) : outcome (option tx_error * btx) :=
  match checkClosed tx with
  | Some e => Ok (Some e, tx)
  | None =>
      if negb (tx_writable (bt_keys tx)) then Ok (Some (FileErr ErrTxNotWritable), tx)
      else if decide (key = []) then Ok (Some KeyRequired, tx)
      else k ← tx_putKey (bt_keys tx) (bucketizedKey id key) (Some value) rnd; Ok (None, set_keys tx k)
  end.
Definition bucket_Get (tx : btx) (id key : list Z) : outcome (option (list Z)) :=
  if bt_closed tx then Ok None else if decide (key = []) then Ok None else tx_fetchKey (bt_keys tx) (bucketizedKey id key).
Definition bucket_Delete (tx : btx) (id key : list Z) (rnd : Z) : outcome (option tx_error * btx) :=
  match checkClosed tx with
  | Some e => Ok (Some e, tx)
  | None =>
      if negb (tx_writable (bt_keys tx)) then Ok (Some (FileErr ErrTxNotWritable), tx)
      else if decide (key = []) then Ok (None, tx)
      else k ← tx_deleteKey (bt_keys tx) (bucketizedKey id key) true rnd; Ok (None, set_keys tx k)
  end.

(** ** Storing blocks *)

Definition hasBlock (tx : btx) (hash : list Z) : outcome bool :=
  match bt_pendingBlocks tx !! hash with Some _ => Ok true | None => tx_hasKey (bt_keys tx) (bucketizedKey blockIdxBucketID hash) end.

Definition add_pending (tx : btx) (hash bytes : list Z) : btx :=
  set_pending tx (<[hash := len (bt_pendingBlockData tx)]> (bt_pendingBlocks tx)) (bt_pendingBlockData tx ++ [MkPending hash bytes]).

(** [StoreMinerBlock] differs in the type of the block only. *)
Definition StoreBlock (tx : btx) (hash : list Z) (bytes : option (list Z)) : outcome (option tx_error * btx) :=
  match checkClosed tx with
  | Some e => Ok (Some e, tx)
  | None =>
      if negb (tx_writable (bt_keys tx)) then Ok (Some (FileErr ErrTxNotWritable), tx)
      else
        exists_ ← hasBlock tx hash;
        if exists_ : bool then Ok (Some (FileErr ErrBlockExists), tx)
        else match bytes with None => Ok (Some (FileErr ErrDriverSpecific), tx) | Some bytes => Ok (None, add_pending tx hash bytes) end
  end.
Definition StoreMinerBlock (tx : btx) (hash : list Z) (bytes : option (list Z)) : outcome (option tx_error * btx) := StoreBlock tx hash bytes.

(** A block that is there already is written again, at a new place. *)
Definition UpdateBlock (tx : btx) (hash : list Z) (bytes : option (list Z)) : outcome (option tx_error * btx) :=
  match checkClosed tx with
  | Some e => Ok (Some e, tx)
  | None =>
      if negb (tx_writable (bt_keys tx)) then Ok (Some (FileErr ErrTxNotWritable), tx)
      else
        match bytes with
        | None => Ok (Some (FileErr ErrDriverSpecific), tx)
        | Some bytes =>
            match bt_pendingBlocks tx !! hash with
            | Some p => d ← slice_set (bt_pendingBlockData tx) p (MkPending hash bytes); Ok (None, set_pending tx (bt_pendingBlocks tx) d)
            | None => Ok (None, add_pending tx hash bytes)
            end
        end
  end.

Definition HasBlock (tx : btx) (hash : list Z) : outcome (bool + tx_error) :=
  match checkClosed tx with Some e => Ok (inr e) | None => b ← hasBlock tx hash; Ok (inl b) end.
Fixpoint has_each (tx : btx) (hashes : list (list Z)) : outcome (list bool) :=
  match hashes with [] => Ok [] | h :: hashes => b ← hasBlock tx h; l ← has_each tx hashes; Ok (b :: l) end.
Definition HasBlocks (tx : btx) (hashes : list (list Z)) : outcome (list bool + tx_error) :=
  match checkClosed tx with Some e => Ok (inr e) | None => l ← has_each tx hashes; Ok (inl l) end.

(** ** Fetching blocks *)

Definition fetchBlockRow (tx : btx) (hash : list Z) : outcome (list Z + tx_error) :=
  row ← bucket_Get tx blockIdxBucketID hash; Ok (match row with Some row => inl row | None => inr (FileErr ErrBlockNotFound) end).

Definition FetchBlock (tx : btx) (hash : list Z) : sm (list Z + tx_error) :=
  match checkClosed tx with
  | Some e => mret (inr e)
  | None =>
      match bt_pendingBlocks tx !! hash with
      | Some idx => b ← slift (slice_get (bt_pendingBlockData tx) idx); mret (inl (pb_bytes b))
      | None =>
          row ← slift (fetchBlockRow tx hash);
          match row with
          | inr e => mret (inr e)
          | inl row =>
              location ← slift (deserializeBlockLoc row);
              b ← readBlock location;
              mret (match b with inl b => inl b | inr e => inr (FileErr e) end)
          end
      end
  end.
Fixpoint fetch_each (tx : btx) (hashes : list (list Z)) : sm (list (list Z) + tx_error) :=
  match hashes with
  | [] => mret (inl [])
  | h :: hashes =>
      b ← FetchBlock tx h;
      match b with
      | inr e => mret (inr e)
      | inl b => l ← fetch_each tx hashes; mret (match l with inl l => inl (b :: l) | inr e => inr e end)
      end
  end.
Definition FetchBlocks (tx : btx) (hashes : list (list Z)) : sm (list (list Z) + tx_error) :=
  match checkClosed tx with Some e => mret (inr e) | None => fetch_each tx hashes end.

(** [None] when the block is not pending. *)
Definition fetchPendingRegion (tx : btx) (region : BlockRegion) : outcome (option (list Z) + tx_error) :=
  match bt_pendingBlocks tx !! rg_Hash region with
  | None => Ok (inl None)
  | Some idx =>
      b ← slice_get (bt_pendingBlockData tx) idx;
      let blockLen := u32 (len (pb_bytes b)) in
      let endOffset := u32 (rg_Offset region + rg_Len region) in
      if decide (endOffset < rg_Offset region \/ blockLen < endOffset) then Ok (inr (FileErr ErrBlockRegionInvalid))
      else r ← slice_sub (pb_bytes b) (rg_Offset region) endOffset; Ok (inl (Some r))
  end.

Definition FetchBlockRegion (tx : btx) (region : BlockRegion) : sm (list Z + tx_error) :=
  match checkClosed tx with
  | Some e => mret (inr e)
  | None =>
      p ← slift (fetchPendingRegion tx region);
      match p with
      | inr e => mret (inr e)
      | inl (Some r) => mret (inl r)
      | inl None =>
          row ← slift (fetchBlockRow tx (rg_Hash region));
          match row with
          | inr e => mret (inr e)
          | inl row =>
              location ← slift (deserializeBlockLoc row);
              let endOffset := u32 (rg_Offset region + rg_Len region) in
              if decide (endOffset < rg_Offset region \/ bl_blockLen location < endOffset) then mret (inr (FileErr ErrBlockRegionInvalid))
              else
                r ← readBlockRegion location (rg_Offset region) (rg_Len region);
                mret (match r with inl r => inl r | inr e => inr (FileErr e) end)
          end
      end
  end.
Definition FetchBlockHeader (tx : btx) (hash : list Z) : sm (list Z + tx_error) := FetchBlockRegion tx (MkRegion hash 0 blockHdrSize).

(** *** Many regions at once: rows first, then the reads in the order of the files *)

Record bulkFetchData := MkBulk { bf_location : blockLocation; bf_replyIndex : nat }.
(** Not [Less] of the two the other way round. *)
Definition bulk_le (a b : bulkFetchData) : Prop :=
  let p := bf_location a in let q := bf_location b in
  bl_blockFileNum p < bl_blockFileNum q \/ (bl_blockFileNum p = bl_blockFileNum q /\ bl_fileOffset p <= bl_fileOffset q).
#[local] Instance bulk_le_dec a b : Decision (bulk_le a b).
Proof. unfold bulk_le. apply _. Defined.

(** A region that is too long is cut, in the slice of the caller. *)
Definition trim_region (region : BlockRegion) (blockLen : Z) : BlockRegion :=
  let endOffset := u32 (rg_Offset region + rg_Len region) in
  if decide (endOffset < rg_Offset region \/ blockLen < endOffset) then MkRegion (rg_Hash region) (rg_Offset region) (u32 (rg_Len region - u32 (endOffset - blockLen))) else region.
Definition bulk_state : Type := list (list Z) * list bulkFetchData * list BlockRegion.
Fixpoint collect_regions (tx : btx) (i : nat) (regions : list BlockRegion) (st : bulk_state) : outcome (bulk_state + tx_error) :=
  match regions with
  | [] => Ok (inl st)
  | region :: regions =>
      let '(replies, fetchList, seen) := st in
      p ← fetchPendingRegion tx region;
      match p with
      | inr e => Ok (inr e)
      | inl (Some r) => collect_regions tx (S i) regions (replies ++ [r], fetchList, seen ++ [region])
      | inl None =>
          row ← fetchBlockRow tx (rg_Hash region);
          match row with
          | inr e => Ok (inr e)
          | inl row =>
              location ← deserializeBlockLoc row;
              collect_regions tx (S i) regions (replies ++ [[]], fetchList ++ [MkBulk location i], seen ++ [trim_region region (bl_blockLen location)])
          end
      end
  end.
Fixpoint read_regions (fetchList : list bulkFetchData) (regions : list BlockRegion) (replies : list (list Z)) : sm (list (list Z) + tx_error) :=
  match fetchList with
  | [] => mret (inl replies)
  | f :: fetchList =>
      region ← slift (slice_get regions (Z.of_nat (bf_replyIndex f)));
      r ← readBlockRegion (bf_location f) (rg_Offset region) (rg_Len region);
      match r with
      | inr e => mret (inr (FileErr e))
      | inl r => replies ← slift (slice_set replies (Z.of_nat (bf_replyIndex f)) r); read_regions fetchList regions replies
      end
  end.
Definition FetchBlockRegions (tx : btx) (regions : list BlockRegion) : sm (list (list Z) + tx_error) :=
  match checkClosed tx with
  | Some e => mret (inr e)
  | None =>
      st ← slift (collect_regions tx 0 regions ([], [], []));
      match st with
      | inr e => mret (inr e)
      | inl (replies, fetchList, regions) => read_regions (merge_sort bulk_le fetchList) regions replies
      end
  end.
Definition FetchBlockHeaders (tx : btx) (hashes : list (list Z)) : sm (list (list Z) + tx_error) := FetchBlockRegions tx (map (fun h => MkRegion h 0 blockHdrSize) hashes).

(** ** The end of a transaction *)

Definition close (tx : btx) : btx :=
  let k := bt_keys tx in MkBtx (bt_managed tx) true (MkTx (tx_writable k) (tx_snapshot k) None None (tx_activeIters k)) ∅ [].

(** The blocks go to the files and their places to the index. *)
Fixpoint write_pending (rnd : nat -> Z) (i : nat) (data : list pendingBlock) (tx : btx) : sm (btx + tx_error) :=
  match data with
  | [] => mret (inl tx)
  | b :: data =>
      location ← writeBlock (pb_bytes b);
      match location with
      | inr e => mret (inr (FileErr e))
      | inl location =>
          '(e, tx) ← slift (bucket_Put tx blockIdxBucketID (pb_hash b) (serializeBlockLoc location) (rnd i));
          match e with Some e => mret (inr e) | None => write_pending rnd (S i) data tx end
      end
  end.

(** The cache is flushed on the way to its commit when it is full or old, which first
    synchronises the block files. *)
Definition commit_keys (now : Z) (draw : nat -> Z) (c : dbCache I DB) (tx : btx) : sm (option tx_error * dbCache I DB * btx) :=
  ok ← (if needsFlush now c (bt_keys tx) then e ← syncBlocks; mret (bool_decide (e = None)) else mret true);
  '(c, k, err) ← slift (commitTx now ok draw c (bt_keys tx));
  mret (match err with None => None | Some e => Some (CacheErr e) end, c, set_keys tx k).

Definition writePendingAndCommit (now : Z) (draw rnd : nat -> Z) (c : dbCache I DB) (tx : btx) : sm (option tx_error * dbCache I DB * btx) :=
  s ← sget;
  let rollback (e : tx_error) : sm (option tx_error * dbCache I DB * btx) := _ ← handleRollback (bs_curFileNum s) (bs_curOffset s); mret (Some e, c, tx) in
  r ← write_pending rnd 0 (bt_pendingBlockData tx) tx;
  match r with
  | inr e => rollback e
  | inl tx =>
      s ← sget;
      '(e, tx) ← slift (bucket_Put tx metadataBucketID writeLocKeyName (serializeWriteRow (bs_curFileNum s) (bs_curOffset s)) (rnd (length (bt_pendingBlockData tx))));
      match e with Some e => rollback e | None => commit_keys now draw c tx end
  end.

Definition Commit (now : Z) (draw rnd : nat -> Z) (c : dbCache I DB) (tx : btx) : sm (option tx_error * dbCache I DB * btx) :=
  if bt_managed tx then spanic
  else match checkClosed tx with
  | Some e => mret (Some e, c, tx)
  | None =>
      if negb (tx_writable (bt_keys tx)) then mret (Some (FileErr ErrTxNotWritable), c, close tx)
      else '(e, c, tx) ← writePendingAndCommit now draw rnd c tx; mret (e, c, close tx)
  end.
Definition Rollback (tx : btx) : outcome (option tx_error * btx) :=
  if bt_managed tx then Panic else match checkClosed tx with Some e => Ok (Some e, tx) | None => Ok (None, close tx) end.

(** ** Managed transactions *)

Definition begin (closed : bool) (c : dbCache I DB) (writable : bool) : btx + tx_error :=
  match begin_tx closed c writable with inr e => inr (CacheErr e) | inl k => inl (MkBtx false false k ∅ []) end.

(** A panic of [fn] ends the transaction and goes on. *)
Definition View (closed : bool) (c : dbCache I DB) (fn : btx -> sm (option tx_error * btx)) : sm (option tx_error) :=
  match begin closed c false with
  | inr e => mret (Some e)
  | inl tx =>
      '(e, tx) ← fn (set_managed tx true);
      '(e', _) ← slift (Rollback (set_managed tx false));
      mret (match e with Some e => Some e | None => e' end)
  end.
Definition Update (closed : bool) (now : Z) (draw rnd : nat -> Z) (c : dbCache I DB) (fn : btx -> sm (option tx_error * btx)) : sm (option tx_error * dbCache I DB) :=
  match begin closed c true with
  | inr e => mret (Some e, c)
  | inl tx =>
      '(e, tx) ← fn (set_managed tx true);
      match e with
      | Some e => _ ← slift (Rollback (set_managed tx false)); mret (Some e, c)
      | None => '(e, c, _) ← Commit now draw rnd c (set_managed tx false); mret (e, c)
      end
  end.

(** ** The start *)

(** The batch that makes a new database. *)
Definition initial_rows : bmap :=
  <[bucketizedKey metadataBucketID writeLocKeyName := serializeWriteRow 0 0]>
  (<[str "bidx" ++ metadataBucketID ++ str "ffldb-blockidx" := blockIdxBucketID]> (<[str "bidx-cbid" := blockIdxBucketID]> ∅)).

(** [reconcileDB] on a database that exists: the row is read in a transaction of its own. *)
Definition openDB (network maxSize now : Z) (cacheSize flushSecs : Z) (ldb : DB) (files : gmap Z (list Z)) (io : list (option nat)) : outcome ((dbCache I DB * blockStore) + tx_error) :=
  let store := newBlockStore network maxSize files io in
  let cache := newDbCache ldb cacheSize flushSecs now in
  match begin false cache false with
  | inr e => Ok (inr e)
  | inl tx =>
      row ← bucket_Get tx metadataBucketID writeLocKeyName;
      '(e, store) ← reconcileDB row store;
      Ok (match e with Some e => inr (FileErr e) | None => inl (cache, store) end)
  end.
End DbBlocks.
Arguments btx : clear implicits.

(** ** What a database holds *)

Definition block_key (hash : list Z) : list Z := bucketizedKey blockIdxBucketID hash.
Definition write_key : list Z := bucketizedKey metadataBucketID writeLocKeyName.
Definition hash_ok (hash : list Z) : Prop := length hash = 32%nat.
Abbreviation blockmap := (gmap (list Z) (list Z)).

(** The row of a block gives its place in the files, before a position. *)
Definition row_ok (net : Z) (f : gmap Z (list Z)) (n o : Z) (row raw : option (list Z)) : Prop :=
  match raw with
  | None => row = None
  | Some raw => exists loc, row = Some (serializeBlockLoc loc) /\ (uint_range 32 (bl_blockFileNum loc) /\ uint_range 32 (bl_fileOffset loc) /\ uint_range 32 (bl_blockLen loc)) /\
      holds net f loc raw /\ below loc n o
  end.

(** The keys [m] have the rows of the blocks [B] and the cursor [n], [o], at which or after which the store writes. *)
Record index_ok (m : bmap) (B : blockmap) (s : blockStore) (n o : Z) : Prop := {
  ix_num : uint_range 32 n;
  ix_offset : uint_range 32 o;
  ix_row : m !! write_key = Some (serializeWriteRow n o);
  ix_pos : pos_le n o (bs_curFileNum s) (bs_curOffset s);
  ix_complete : complete n o (bs_files s);
  ix_blocks : forall hash, hash_ok hash -> row_ok (bs_network s) (bs_files s) n o (m !! block_key hash) (B !! hash);
}.

Lemma row_kept net f f' n o n' o' row raw : row_ok net f n o row raw -> pos_le n o n' o' -> kept n o f f' -> row_ok net f' n' o' row raw.
Proof.
  destruct raw as [raw|]; [|done]. intros (loc & Hr & Hl & Hh & Hb) Hp Hk. exists loc. split_and!; try apply Hl; [done|by eapply holds_kept|by eapply pos_le_trans].
Qed.

Lemma index_kept m B s s' n o : index_ok m B s n o -> kept n o (bs_files s) (bs_files s') -> bs_network s' = bs_network s -> pos_le n o (bs_curFileNum s') (bs_curOffset s') -> index_ok m B s' n o.
Proof.
  intros [N O R P C X] Hk Hn Hp. split; try done; [by eapply kept_complete|]. intros hash Hh. rewrite Hn. eapply row_kept; [by apply X|right; done|done].
Qed.

Lemma index_follows m B s s' n o : index_ok m B s n o -> follows (bs_curFileNum s) (bs_curOffset s) s s' ->
  pos_le (bs_curFileNum s) (bs_curOffset s) (bs_curFileNum s') (bs_curOffset s') -> index_ok m B s' n o.
Proof. intros Hi [K W _ _ _ _] Hp. pose proof (ix_pos _ _ _ _ _ Hi) as P. eapply index_kept; [done|by eapply kept_mono|done|by eapply pos_le_trans]. Qed.

Lemma block_key_inj h h' : block_key h = block_key h' -> h = h'.
Proof. by intros [= ->]. Qed.
Lemma block_key_write h : block_key h <> write_key.
Proof. done. Qed.

(** The rows and blocks of a transaction. *)
Definition put_row (m : bmap) (x : blockLocation * pendingBlock) : bmap := <[block_key (pb_hash x.2) := serializeBlockLoc x.1]> m.
Definition put_block (B : blockmap) (b : pendingBlock) : blockmap := <[pb_hash b := pb_bytes b]> B.

Lemma rows_ok net f n o data : forall locs m B, length locs = length data -> stored net f n o (zip locs (pb_bytes <$> data)) ->
  Forall (fun loc => uint_range 32 (bl_blockFileNum loc) /\ uint_range 32 (bl_fileOffset loc) /\ uint_range 32 (bl_blockLen loc)) locs ->
  (forall hash, hash_ok hash -> row_ok net f n o (m !! block_key hash) (B !! hash)) ->
  forall hash, hash_ok hash -> row_ok net f n o (foldl put_row m (zip locs data) !! block_key hash) (foldl put_block B data !! hash).
Proof.
  induction data as [|b data IH]; intros [|loc locs] m B Hl Hs Hr HB; try done. injection Hl as Hl. apply Forall_cons in Hr as [Hr Hrs]. apply Forall_cons in Hs as [[Hh Hb] Hs].
  simpl. apply IH; try done. intros hash Hok. unfold put_row, put_block. simpl. destruct (decide (hash = pb_hash b)) as [->|Hn].
  - rewrite !lookup_insert_eq. by exists loc.
  - rewrite !lookup_insert_ne by (try done; intros E; by apply block_key_inj in E). by apply HB.
Qed.

Lemma rows_other k locs data m : (forall hash, k <> block_key hash) -> foldl put_row m (zip locs data) !! k = m !! k.
Proof.
  intros Hk. revert locs m. induction data as [|b data IH]; intros [|loc locs] m; try done. simpl. rewrite IH. unfold put_row. apply lookup_insert_ne. intros E. by apply (Hk (pb_hash b)).
Qed.

Section Proofs.
Context {I M It DB Snap Tx : Type}.
Context `{OrderedStoreLaws I} `{OrderedStoreLaws M} `{!StoreIter M It} `{!StoreIterLaws M It} `{LevelDBLaws DB Snap Tx}.
Abbreviation tx_of := (btx I M It Snap).
Abbreviation cache := (dbCache I DB).

(** ** Keys *)

(** What a transaction reads, whether it can write or not. *)
Definition reads_as (tx : tx_of) (m : bmap) : Prop :=
  bt_closed tx = false /\ forall k, tx_fetchKey (bt_keys tx) k = Ok (m !! k) /\ tx_hasKey (bt_keys tx) k = Ok (bool_decide (is_Some (m !! k))).

Lemma view_reads tx base m : bt_closed tx = false -> tx_view (bt_keys tx) base m -> reads_as tx m.
Proof. intros Hc Hv. split; [done|]. intros k. split; [by eapply tx_fetchKey_ok|by eapply tx_hasKey_ok]. Qed.

Lemma begin_reads (c : cache) m w tx : cache_view c m -> begin false c w = inl tx -> reads_as tx m.
Proof.
  intros (K & R & HK & HR & Hd & ->). unfold begin, begin_tx, cache_Snapshot. destruct (ldb_GetSnapshot (c_ldb c)) as [sn|] eqn:E; [|done]. intros [= <-]. apply ldb_GetSnapshot_view in E.
  assert (snapshot_view (MkSnapshot sn (c_cachedKeys c) (c_cachedRemove c)) (layer K R (ldb_view (c_ldb c)))) as Hs by (exists K, R; simpl; by rewrite E).
  destruct w.
  - eapply view_reads; [done|]. simpl. split; [done|]. split; [exact Hs|]. exists os_new, os_new, ∅, ∅. split_and!; try apply os_new_ok; try done. by rewrite layer_empty.
  - split; [done|]. intros k. split; [by apply snapshot_Get_ok|by apply snapshot_Has_ok].
Qed.

Lemma put_ok (tx : tx_of) base m id key value rnd : bt_closed tx = false -> tx_view (bt_keys tx) base m -> key <> [] ->
  exists k, bucket_Put tx id key value rnd = Ok (None, set_keys tx k) /\ tx_view k base (<[bucketizedKey id key := value]> m).
Proof.
  intros Hc Hv Hk. unfold bucket_Put, checkClosed. pose proof Hv as (Hw & _). rewrite Hc, Hw, decide_False by done. simpl.
  destruct (tx_putKey_ok (bt_keys tx) base m (bucketizedKey id key) (Some value) rnd Hv) as (k & -> & Hv'). by exists k.
Qed.

(** ** The commit *)

(** The files decide what the loop over the blocks does; its rows follow. *)
Lemma write_pending_files rnd base data : forall i (tx : tx_of) m s, bt_closed tx = false -> tx_view (bt_keys tx) base m -> Forall (fun b => hash_ok (pb_hash b)) data ->
  match write_each (pb_bytes <$> data) s with
  | Ok (inl locs, s') => exists k, write_pending rnd i data tx s = Ok (inl (set_keys tx k), s') /\ tx_view k base (foldl put_row m (zip locs data))
  | Ok (inr e, s') => write_pending rnd i data tx s = Ok (inr (FileErr e), s')
  | _ => True
  end.
Proof.
  induction data as [|b data IH]; intros i tx m s Hc Hv Hh; cbn [fmap list_fmap write_each write_pending]; [exists (bt_keys tx); split; [by destruct tx|done]|].
  apply Forall_cons in Hh as [Hb Hh]. unfold mbind, sm_bind. destruct (writeBlock (pb_bytes b) s) as [[[loc|e] s1]| |]; try done. cbn [mbind outcome_bind].
  assert (pb_hash b <> []) as Hne by (destruct b as [[|? ?] ?]; done).
  destruct (put_ok tx base m blockIdxBucketID (pb_hash b) (serializeBlockLoc loc) (rnd i) Hc Hv Hne) as (k & Hput & Hv').
  specialize (IH (S i) (set_keys tx k) _ s1 Hc Hv' Hh). unfold slift. rewrite Hput. cbn [mbind outcome_bind].
  destruct (write_each (pb_bytes <$> data) s1) as [[[locs|e] s2]| |]; done.
Qed.

Lemma sync_blocks_ok s : store_ok s -> returns syncBlocks s (fun _ s' => store_ok s' /\ (forall n o, follows n o s s') /\ bs_curFileNum s' = bs_curFileNum s /\ bs_curOffset s' = bs_curOffset s).
Proof.
  intros Hok. unfold syncBlocks. apply returns_bind, returns_get. destruct (bs_curFile s); [|apply returns_ret; split_and!; try done; intros; by apply follows_refl].
  apply returns_bind. pose proof Hok as [L N O W C Z]. unfold os_sync. apply returns_bind, returns_call. intros [k|] io _; sm_steps; (split; [by split|split; [|done]]); intros n o; by apply follows_refl.
Qed.

Lemma flush_ldb now ok (c c' : cache) e : flush now ok c = Ok (c', Some e) -> c_ldb c' = c_ldb c.
Proof.
  unfold flush. destruct ok; simpl; [|by intros [= <- _]]. case_decide; [done|]. intros Hf. apply bind_ok_inv in Hf as ([d|e'] & _ & Hf); [done|]. by injection Hf as <- _.
Qed.

(** What is in leveldb after a commit: what was there, what the cache had read, or all of it. *)
Lemma commit_ldb now ok draw (c c' : cache) (tx tx' : transaction I M It Snap) base m err : cache_view c base -> small c -> tx_view tx base m -> commitTx now ok draw c tx = Ok (c', tx', err) ->
  ldb_view (c_ldb c') = ldb_view (c_ldb c) \/ ldb_view (c_ldb c') = base \/ (err = None /\ ldb_view (c_ldb c') = m).
Proof.
  intros Hc Hsm (Hw & Hs & p & r & P & R & Hp & Hr & HP & HR & Hit & Hd & ->). unfold commitTx. rewrite Hp, Hr. simpl. destruct (needsFlush now c tx).
  - destruct (flush_ok now ok c base Hc Hsm) as (c1 & e & Hf & Hc1 & Hdone). rewrite Hf. simpl. destruct e as [e|].
    { intros [= <- <- <-]. left. by rewrite (flush_ldb _ _ _ _ _ Hf). }
    destruct (Hdone eq_refl) as (Hdb & _ & _). destruct (commitTreaps_ok (c_ldb c1) p r P R HP HR) as ([db'|e] & -> & Hdb'); simpl; intros [= <- <- <-]; simpl.
    + right. right. by rewrite Hdb', Hdb.
    + right. by left.
  - intros H'. apply bind_ok_inv in H' as (st & _ & H'). apply bind_ok_inv in H' as (st' & _ & H'). apply bind_ok_inv in H' as ([[keys rm] n] & _ & H'). injection H' as <- <- <-. by left.
Qed.

(** The cache reads the keys [m], which have the blocks [B]; leveldb has the keys of the blocks [D], which are left when the program stops. *)
Record db_ok (c : cache) (s : blockStore) (m : bmap) (B D : blockmap) : Prop := {
  db_cache : cache_view c m;
  db_store : store_ok s;
  db_complete : complete (bs_curFileNum s) (bs_curOffset s) (bs_files s);
  db_index : exists n o, index_ok m B s n o;
  db_durable : exists n o, index_ok (ldb_view (c_ldb c)) D s n o;
}.

Lemma indexes_follow (c : cache) s s' m B D : db_ok c s m B D -> follows (bs_curFileNum s) (bs_curOffset s) s s' ->
  pos_le (bs_curFileNum s) (bs_curOffset s) (bs_curFileNum s') (bs_curOffset s') -> (exists n o, index_ok m B s' n o) /\ (exists n o, index_ok (ldb_view (c_ldb c)) D s' n o).
Proof. intros [_ _ _ (n & o & Hi) (n' & o' & Hd)] Hf Hp. split; [exists n, o|exists n', o']; by eapply index_follows. Qed.

(** The files go back to the cursor they had. *)
Lemma rolled_back (c : cache) s s1 m B D : db_ok c s m B D -> follows (bs_curFileNum s) (bs_curOffset s) s s1 ->
  store_ok s1 -> pos_le (bs_curFileNum s) (bs_curOffset s) (bs_curFileNum s1) (bs_curOffset s1) ->
  returns (handleRollback (bs_curFileNum s) (bs_curOffset s)) s1 (fun _ s' => db_ok c s' m B D).
Proof.
  intros Hdb Hf Hok Hp. pose proof (db_store _ _ _ _ _ Hdb) as [_ N O _ _ _]. eapply returns_mono; [by apply rollback_ok|]. intros _ s2 (K2 & F2 & N2 & O2).
  assert (follows (bs_curFileNum s) (bs_curOffset s) s s2) as F by (by eapply follows_trans).
  destruct (indexes_follow _ _ s2 _ _ _ Hdb F) as [Hi Hd]; [rewrite N2, O2; by right|]. split; try done; [apply Hdb|]. rewrite N2, O2. eapply kept_complete; [apply Hdb|apply F].
Qed.

(** The index once the blocks are written. *)
Lemma index_written m m1 B s s1 n o data locs : index_ok m B s n o -> all_written (pb_bytes <$> data) s (inl locs) s1 -> (forall hash, m1 !! block_key hash = m !! block_key hash) ->
  complete (bs_curFileNum s1) (bs_curOffset s1) (bs_files s1) ->
  index_ok (<[write_key := serializeWriteRow (bs_curFileNum s1) (bs_curOffset s1)]> (foldl put_row m1 (zip locs data))) (foldl put_block B data) s1 (bs_curFileNum s1) (bs_curOffset s1).
Proof.
  intros Hi [K F P (L & S & U & _) _] Hm Hc. destruct K as [_ N O _ _ _]. split; try done; [by rewrite lookup_insert_eq|by right|].
  intros hash Hh. rewrite lookup_insert_ne by (intros E; by apply (block_key_write hash)). rewrite (fo_network _ _ _ _ F). apply rows_ok; try done; [by rewrite length_fmap in L|].
  intros h Hh'. rewrite Hm. eapply row_kept; [by apply Hi|eapply pos_le_trans; [apply Hi|done]|]. eapply kept_mono; [apply Hi|apply F].
Qed.

(** What a commit leaves. *)
Definition committed (m m1 : bmap) (B D B' : blockmap) (r : option tx_error * cache * tx_of) (s' : blockStore) : Prop :=
  let '(err, c', tx') := r in bt_closed tx' = true /\
  match err with
  | None => exists m' D', db_ok c' s' m' B' D' /\ (D' = D \/ D' = B \/ D' = B') /\ (forall k, k <> write_key -> (forall h, k <> block_key h) -> m' !! k = m1 !! k)
  | Some _ => exists D', db_ok c' s' m B D' /\ (D' = D \/ D' = B)
  end.

Lemma commit_keys_ok now draw (c : cache) (tx : tx_of) s s1 m m1 m2 B D B' : db_ok c s m B D -> small c -> tx_view (bt_keys tx) m m2 -> follows (bs_curFileNum s) (bs_curOffset s) s s1 -> store_ok s1 ->
  pos_le (bs_curFileNum s) (bs_curOffset s) (bs_curFileNum s1) (bs_curOffset s1) -> complete (bs_curFileNum s1) (bs_curOffset s1) (bs_files s1) ->
  index_ok m2 B' s1 (bs_curFileNum s1) (bs_curOffset s1) -> (forall k, k <> write_key -> (forall h, k <> block_key h) -> m2 !! k = m1 !! k) ->
  returns (commit_keys now draw c tx) s1 (fun '(err, c', tx') s' => committed m m1 B D B' (err, c', close tx') s').
Proof.
  intros Hdb Hsm Hv Hf Hok Hp Hc Hi Hk. unfold commit_keys. apply returns_bind.
  eapply (returns_mono _ _ (fun _ s' => store_ok s' /\ (forall n o, follows n o s1 s') /\ bs_curFileNum s' = bs_curFileNum s1 /\ bs_curOffset s' = bs_curOffset s1)).
  { destruct (needsFlush _ _ _); [|apply returns_ret; split_and!; try done; intros; by apply follows_refl].
    apply returns_bind. eapply returns_mono; [by apply sync_blocks_ok|]. intros e s' Hs. by apply returns_ret. }
  intros ok s2 (K2 & F2 & N2 & O2). apply returns_bind.
  destruct (commitTx_ok now ok draw c (bt_keys tx) m m2 (db_cache _ _ _ _ _ Hdb) Hsm Hv) as (c' & k & err & Hcom & Hview).
  pose proof (commit_ldb _ _ _ _ _ _ _ _ _ _ (db_cache _ _ _ _ _ Hdb) Hsm Hv Hcom) as Hldb.
  eapply returns_lift; [exact Hcom|]. apply returns_ret.
  assert (pos_le (bs_curFileNum s) (bs_curOffset s) (bs_curFileNum s2) (bs_curOffset s2)) as P2 by (by rewrite N2, O2).
  assert (follows (bs_curFileNum s) (bs_curOffset s) s s2) as F by (eapply follows_trans; [done|apply F2]).
  destruct (indexes_follow _ _ s2 _ _ _ Hdb F P2) as [(n & o & Hi2) (n' & o' & Hd2)].
  assert (index_ok m2 B' s2 (bs_curFileNum s1) (bs_curOffset s1)) as Hi' by (eapply index_follows; [done|apply F2|rewrite N2, O2; by right]).
  assert (complete (bs_curFileNum s2) (bs_curOffset s2) (bs_files s2)) as Hc2 by (rewrite N2, O2; eapply kept_complete; [done|apply F2]).
  split; [done|]. destruct err as [e|].
  - destruct Hldb as [Hl|[Hl|[? _]]]; [exists D|exists B|done]; (split; [|auto]); (split; [done..|by eexists _, _|rewrite Hl; by eexists _, _]).
  - exists m2. destruct Hldb as [Hl|[Hl|[_ Hl]]]; [exists D|exists B|exists B']; (split; [|auto]); (split; [done..|by eexists _, _|rewrite Hl; by eexists _, _]).
Qed.

Lemma commit_stores now draw rnd (c : cache) (tx : tx_of) s m m1 B D : db_ok c s m B D -> small c -> bt_managed tx = false -> bt_closed tx = false -> tx_view (bt_keys tx) m m1 ->
  (forall hash, m1 !! block_key hash = m !! block_key hash) -> Forall (fun b => hash_ok (pb_hash b)) (bt_pendingBlockData tx) -> fitting s (pb_bytes <$> bt_pendingBlockData tx) ->
  returns (Commit now draw rnd c tx) s (committed m m1 B D (foldl put_block B (bt_pendingBlockData tx))).
Proof.
  intros Hdb Hsm Hman Hcl Hv Hm Hh Hfit. unfold Commit, checkClosed. rewrite Hman, Hcl. pose proof Hv as (-> & _). simpl negb. cbn iota.
  apply returns_bind. unfold writePendingAndCommit. apply returns_bind, returns_get, returns_bind.
  destruct (write_each_ok _ s (db_store _ _ _ _ _ Hdb) Hfit) as (r & s1 & Hw & Haw). pose proof (write_pending_files rnd m _ 0 tx m1 s Hcl Hv Hh) as Hpend. rewrite Hw in Hpend.
  pose proof Haw as [K1 F1 P1 R1 _]. destruct r as [locs|e].
  - destruct Hpend as (k & Hpend & Hvk). exists (inl (set_keys tx k)), s1. split; [done|]. apply returns_bind, returns_get, returns_bind.
    destruct (put_ok (set_keys tx k) m _ metadataBucketID writeLocKeyName (serializeWriteRow (bs_curFileNum s1) (bs_curOffset s1)) (rnd (length (bt_pendingBlockData (set_keys tx k)))) Hcl Hvk) as (k' & Hput & Hv'); [done|].
    eapply returns_lift; [exact Hput|]. destruct R1 as (_ & _ & _ & Hcm). specialize (Hcm (db_complete _ _ _ _ _ Hdb)). destruct (db_index _ _ _ _ _ Hdb) as (n & o & Hi).
    eapply returns_mono; [eapply (commit_keys_ok now draw c (set_keys (set_keys tx k) k') s s1 m m1); try done; [by eapply index_written|]|].
    + intros key Hk1 Hk2. rewrite lookup_insert_ne by done. by apply rows_other.
    + intros [[err c'] tx'] s' Hcom. by apply returns_ret.
  - exists (inr (FileErr e)), s1. split; [done|]. apply returns_bind. eapply returns_mono; [by apply rolled_back|]. intros u s2 Hdb2. do 2 apply returns_ret. split; [done|]. exists D. auto.
Qed.

(** ** Fetching *)

Definition found (o : option (list Z)) : list Z + tx_error := match o with Some raw => inl raw | None => inr (FileErr ErrBlockNotFound) end.

Lemma fetch_stored (tx : tx_of) m B s n o h io : index_ok m B s n o -> store_ok s -> bt_closed tx = false -> tx_fetchKey (bt_keys tx) (block_key h) = Ok (m !! block_key h) ->
  bt_pendingBlocks tx !! h = None -> hash_ok h -> Forall (fun f => f = None) io -> exists s', FetchBlock tx h (set_io s io) = Ok (found (B !! h), s').
Proof.
  intros Hi Hok Hc Hr Hp Hh Hio. pose proof (ix_blocks _ _ _ _ _ Hi h Hh) as Hrow. assert (store_ok (set_io s io)) as Hok' by (destruct Hok; by split).
  assert (fetchBlockRow tx h = Ok (match m !! block_key h with Some row => inl row | None => inr (FileErr ErrBlockNotFound) end)) as Hfetch.
  { unfold fetchBlockRow, bucket_Get. rewrite Hc, decide_False by (intros ->; done). change (bucketizedKey blockIdxBucketID h) with (block_key h). by rewrite Hr. }
  assert (returns (FetchBlock tx h) (set_io s io) (fun r _ => r = found (B !! h))) as (r & s' & H' & ->); [|by exists s'].
  unfold FetchBlock, checkClosed. rewrite Hc, Hp. apply returns_bind. eapply returns_lift; [exact Hfetch|].
  destruct (B !! h) as [raw|]; simpl in Hrow; [|rewrite Hrow; by apply returns_ret]. destruct Hrow as (loc & -> & (U1 & U2 & U3) & Hh' & Hb).
  apply returns_bind. eapply returns_lift; [by apply location_roundtrip|]. pose proof Hh' as (pre & suf & _ & _ & Hl). unfold uint_range in U2.
  apply returns_bind. eapply returns_mono; [apply read_block_ok; [done|lia..]|]. intros r s' [_ Hr']. apply returns_ret. by rewrite (Hr' Hio raw Hh').
Qed.

(** ** What a caller does in a transaction *)

Inductive user_op :=
  | UPut (id key value : list Z) (rnd : Z)
  | UDelete (id key : list Z) (rnd : Z)
  | UStore (hash bytes : list Z)
  | UUpdate (hash bytes : list Z).

Definition user_step (tx : tx_of) (op : user_op) : outcome (option tx_error * tx_of) :=
  match op with
  | UPut id key value rnd => bucket_Put tx id key value rnd
  | UDelete id key rnd => bucket_Delete tx id key rnd
  | UStore hash bytes => StoreBlock tx hash (Some bytes)
  | UUpdate hash bytes => UpdateBlock tx hash (Some bytes)
  end.
(** The errors of the single calls do not end the transaction. *)
Fixpoint user_run (ops : list user_op) (tx : tx_of) : outcome tx_of :=
  match ops with [] => Ok tx | op :: ops => '(_, tx) ← user_step tx op; user_run ops tx end.

(** The same on the keys and blocks a transaction sees. *)
Definition spec_step (st : bmap * blockmap) (op : user_op) : bmap * blockmap :=
  let '(m, B) := st in
  match op with
  | UPut id key value _ => (if decide (key = []) then m else <[id ++ key := value]> m, B)
  | UDelete id key _ => (if decide (key = []) then m else delete (id ++ key) m, B)
  | UStore hash bytes => (m, match B !! hash with Some _ => B | None => <[hash := bytes]> B end)
  | UUpdate hash bytes => (m, <[hash := bytes]> B)
  end.

(** The bucket of the block index is not given to callers. *)
Definition op_ok (s : blockStore) (op : user_op) : Prop :=
  match op with
  | UPut id _ _ _ | UDelete id _ _ => length id = 4%nat /\ id <> blockIdxBucketID
  | UStore hash bytes | UUpdate hash bytes => hash_ok hash /\ len bytes + 12 <= bs_maxBlockFileSize s
  end.

(** The map of pending blocks gives the places of their data. *)
Definition pending_ok (p : gmap (list Z) Z) (d : list pendingBlock) : Prop :=
  forall h i, p !! h = Some i <-> 0 <= i /\ exists b, d !! Z.to_nat i = Some b /\ pb_hash b = h.

Lemma pending_add p d b : pending_ok p d -> p !! pb_hash b = None -> pending_ok (<[pb_hash b := len d]> p) (d ++ [b]).
Proof.
  intros Hp Hn h i. rewrite lookup_insert_Some. split.
  - intros [[<- <-]|[Hne Hi]].
    + split; [lia|]. exists b. rewrite Nat2Z.id. by rewrite lookup_app_r, Nat.sub_diag by lia.
    + apply Hp in Hi as (Hge & x & Hx & Hh). split; [done|]. exists x. split; [|done]. by apply lookup_app_l_Some.
  - intros (Hge & x & Hx & Hh). apply lookup_app_Some in Hx as [Hx|[Hle Hx]].
    + right. assert (p !! h = Some i) by (apply Hp; eauto). split; [congruence|done].
    + left. apply list_lookup_singleton_Some in Hx as [Hz <-]. split; [done|]. lia.
Qed.

Lemma pending_set p d i b b0 : pending_ok p d -> d !! i = Some b0 -> pb_hash b0 = pb_hash b -> pending_ok p (<[i := b]> d).
Proof.
  intros Hp Hi Hb h j. rewrite (Hp h j). split; intros (Hge & x & Hx & Hh); (split; [done|]).
  - destruct (decide (Z.to_nat j = i)) as [E|E]; [|exists x; by rewrite list_lookup_insert_ne]. exists b. rewrite E, list_lookup_insert_eq by (by eapply lookup_lt_Some). split; [done|]. congruence.
  - apply list_lookup_insert_Some in Hx as [(Ej & <- & _)|[_ Hx]]; [|by exists x]. exists b0. rewrite <- Ej. split; [done|congruence].
Qed.

(** The blocks of a transaction, by hash. *)
Lemma put_blocks_lookup p d B h : pending_ok p d ->
  foldl put_block B d !! h = match p !! h with Some i => pb_bytes <$> d !! Z.to_nat i | None => B !! h end.
Proof.
  intros Hp. assert (forall l B, (forall b, b ∈ l -> pb_hash b <> h) -> foldl put_block B l !! h = B !! h) as Hout.
  { induction l as [|b l IH]; intros B0 Hl; [done|]. simpl. rewrite IH by (intros; apply Hl; by right). apply lookup_insert_ne. apply Hl. left. }
  destruct (p !! h) as [i|] eqn:E.
  - pose proof (proj1 (Hp h i) E) as (Hge & b & Hb & Hh). rewrite Hb. simpl. rewrite <- (take_drop_middle d (Z.to_nat i) b Hb) at 1. rewrite foldl_app. simpl.
    rewrite Hout; [unfold put_block; by rewrite Hh, lookup_insert_eq|]. intros x Hx Hxh. apply list_elem_of_lookup in Hx as [j Hj]. rewrite lookup_drop in Hj.
    assert (p !! h = Some (Z.of_nat (S (Z.to_nat i) + j))) as E' by (apply Hp; split; [lia|]; exists x; by rewrite Nat2Z.id). rewrite E in E'. injection E' as E'. lia.
  - apply Hout. intros b Hb Hh. apply list_elem_of_lookup in Hb as [j Hj]. assert (p !! h = Some (Z.of_nat j)) by (apply Hp; split; [lia|]; exists b; by rewrite Nat2Z.id). congruence.
Qed.

(** A transaction over the keys [base] and blocks [B] that sees the keys and blocks [st]. *)
Record tx_ok (mx : Z) (base : bmap) (B : blockmap) (tx : tx_of) (st : bmap * blockmap) : Prop := {
  to_open : bt_closed tx = false;
  to_unmanaged : bt_managed tx = false;
  to_view : tx_view (bt_keys tx) base st.1;
  to_index : forall hash, st.1 !! block_key hash = base !! block_key hash;
  to_pending : pending_ok (bt_pendingBlocks tx) (bt_pendingBlockData tx);
  to_data : Forall (fun b => hash_ok (pb_hash b) /\ len (pb_bytes b) + 12 <= mx) (bt_pendingBlockData tx);
  to_blocks : st.2 = foldl put_block B (bt_pendingBlockData tx);
}.

Lemma other_bucket id key hash : length id = 4%nat -> id <> blockIdxBucketID -> id ++ key <> block_key hash.
Proof. intros Hl Hn E. unfold block_key, bucketizedKey in E. apply app_inj_1 in E as [-> _]; done. Qed.

Lemma pending_added mx base B tx m B1 hash bytes : tx_ok mx base B tx (m, B1) -> bt_pendingBlocks tx !! hash = None -> hash_ok hash -> len bytes + 12 <= mx ->
  tx_ok mx base B (add_pending tx hash bytes) (m, <[hash := bytes]> B1).
Proof.
  intros [C U V X P F E] Hn Hh Hl. split; simpl in *; try done; [by apply (pending_add _ _ (MkPending hash bytes))| |].
  - apply Forall_app. split; [done|]. by repeat constructor.
  - rewrite foldl_app, <- E. done.
Qed.

Lemma pending_replaced mx base B tx m B1 hash bytes i : tx_ok mx base B tx (m, B1) -> bt_pendingBlocks tx !! hash = Some i -> hash_ok hash -> len bytes + 12 <= mx ->
  exists d, slice_set (bt_pendingBlockData tx) i (MkPending hash bytes) = Ok d /\ length d = length (bt_pendingBlockData tx) /\ tx_ok mx base B (set_pending tx (bt_pendingBlocks tx) d) (m, <[hash := bytes]> B1).
Proof.
  intros [C U V X P F E] Hn Hh Hl. pose proof (proj1 (P _ _) Hn) as (Hge & b & Hb & Hbh). pose proof (lookup_lt_Some _ _ _ Hb) as Hlt.
  eexists. split; [unfold slice_set; rewrite decide_True by lia; reflexivity|]. split; [apply length_insert|].
  assert (pending_ok (bt_pendingBlocks tx) (<[Z.to_nat i := MkPending hash bytes]> (bt_pendingBlockData tx))) as P' by (by eapply pending_set).
  split; simpl in *; try done; [by apply Forall_insert|]. apply map_eq. intros h. rewrite (put_blocks_lookup _ _ _ _ P'). destruct (decide (h = hash)) as [->|Hne].
  - by rewrite lookup_insert_eq, Hn, list_lookup_insert_eq.
  - rewrite lookup_insert_ne, E, (put_blocks_lookup _ _ _ _ P) by done. destruct (bt_pendingBlocks tx !! h) as [j|] eqn:Ej; [|done]. rewrite list_lookup_insert_ne; [done|].
    apply P in Ej as (Hge' & x & Hx & Hxh). intros Eij. rewrite <- Eij in Hx. congruence.
Qed.

Lemma user_step_ok s base B tx st op : tx_ok (bs_maxBlockFileSize s) base B tx st -> op_ok s op -> (forall h, hash_ok h -> is_Some (base !! block_key h) <-> is_Some (B !! h)) ->
  exists e tx', user_step tx op = Ok (e, tx') /\ tx_ok (bs_maxBlockFileSize s) base B tx' (spec_step st op) /\ (length (bt_pendingBlockData tx') <= S (length (bt_pendingBlockData tx)))%nat.
Proof.
  intros Htx Hop HB. pose proof Htx as [C U V X P F E]. destruct st as [m B1]. pose proof V as (Hw & _). simpl in *. destruct op as [id key value rnd|id key rnd|hash bytes|hash bytes]; cbn [user_step spec_step].
  - destruct Hop as [Hid Hne]. unfold bucket_Put, checkClosed. rewrite C, Hw. simpl. case_decide as Hk; [eexists _, _; split; [done|]; split; [done|lia]|].
    destruct (tx_putKey_ok (bt_keys tx) base m (bucketizedKey id key) (Some value) rnd V) as (k & -> & Hv). simpl. eexists _, _. split; [done|]. split; [|simpl; lia].
    split; simpl; try done. intros hash. rewrite lookup_insert_ne; [done|]. by apply other_bucket.
  - destruct Hop as [Hid Hne]. unfold bucket_Delete, checkClosed. rewrite C, Hw. simpl. case_decide as Hk; [eexists _, _; split; [done|]; split; [done|lia]|].
    destruct (tx_deleteKey_ok (bt_keys tx) base m (bucketizedKey id key) true rnd V) as (k & -> & Hv). simpl. eexists _, _. split; [done|]. split; [|simpl; lia].
    split; simpl; try done. intros hash. rewrite lookup_delete_ne; [done|]. by apply other_bucket.
  - destruct Hop as [Hh Hl]. unfold StoreBlock, checkClosed, hasBlock. rewrite C, Hw. cbn [negb]. pose proof (put_blocks_lookup _ _ B hash P) as Hlook. rewrite <- E in Hlook.
    destruct (bt_pendingBlocks tx !! hash) as [i|] eqn:Ei.
    + pose proof (proj1 (P _ _) Ei) as (Hge & b & Hb & _). rewrite Hlook, Hb. simpl. eexists _, _. split; [done|]. split; [done|lia].
    + change (bucketizedKey blockIdxBucketID hash) with (block_key hash). rewrite (tx_hasKey_ok _ _ _ (block_key hash) V), outcome_bind_ok, X, Hlook. pose proof (HB hash Hh) as Hiff.
      case_bool_decide as Hsome.
      * apply Hiff in Hsome as [raw Hraw]. rewrite Hraw. eexists _, _. split; [done|]. split; [done|lia].
      * destruct (B !! hash) as [raw|] eqn:Eb; [destruct Hsome; by apply Hiff|]. eexists _, _. split; [done|]. split; [by apply pending_added|]. simpl. rewrite length_app. simpl. lia.
  - destruct Hop as [Hh Hl]. unfold UpdateBlock, checkClosed. rewrite C, Hw. simpl. destruct (bt_pendingBlocks tx !! hash) as [i|] eqn:Ei.
    + destruct (pending_replaced _ _ _ _ _ _ _ _ _ Htx Ei Hh Hl) as (d & -> & Hd & Htx'). simpl. eexists _, _. split; [done|]. split; [done|]. simpl. lia.
    + eexists _, _. split; [done|]. split; [by apply pending_added|]. simpl. rewrite length_app. simpl. lia.
Qed.

Lemma user_run_ok s base B ops : (forall h, hash_ok h -> is_Some (base !! block_key h) <-> is_Some (B !! h)) -> Forall (op_ok s) ops -> forall tx st, tx_ok (bs_maxBlockFileSize s) base B tx st ->
  exists tx', user_run ops tx = Ok tx' /\ tx_ok (bs_maxBlockFileSize s) base B tx' (foldl spec_step st ops) /\ (length (bt_pendingBlockData tx') <= length (bt_pendingBlockData tx) + length ops)%nat.
Proof.
  intros HB Hops. induction Hops as [|op ops Hop Hops IH]; intros tx st Htx; cbn [user_run foldl]; [exists tx; split; [done|]; split; [done|simpl; lia]|].
  destruct (user_step_ok s base B tx st op Htx Hop HB) as (e & tx1 & -> & Htx1 & Hlen). cbn [mbind outcome_bind].
  destruct (IH tx1 _ Htx1) as (tx2 & -> & Htx2 & Hlen2). exists tx2. split; [done|]. split; [done|]. simpl. lia.
Qed.

Lemma begun (c : cache) m B mx tx : cache_view c m -> begin false c true = inl tx -> tx_ok mx m B tx (m, B).
Proof.
  intros Hc Hb. unfold begin in Hb. destruct (begin_tx false c true) as [k|] eqn:E; [|done]. injection Hb as <-. split; simpl; try done.
  - by eapply begin_ok.
  - intros h i. rewrite lookup_empty. split; [done|]. intros (_ & b & Hb & _). by rewrite lookup_nil in Hb.
Qed.

Lemma rows_present m B s n o h : index_ok m B s n o -> hash_ok h -> is_Some (m !! block_key h) <-> is_Some (B !! h).
Proof. intros Hi Hh. pose proof (ix_blocks _ _ _ _ _ Hi h Hh) as Hr. destruct (B !! h); simpl in Hr; [destruct Hr as (loc & -> & _)|rewrite Hr]; split; (done || by eexists). Qed.

(** Every hash is answered with the block or the error that there is none. *)
Definition fetches (tx : tx_of) (s : blockStore) (B : blockmap) : Prop :=
  forall h io, hash_ok h -> Forall (fun f => f = None) io -> exists s', FetchBlock tx h (set_io s io) = Ok (found (B !! h), s').

Lemma tx_fetches tx s m B n o st : index_ok m B s n o -> store_ok s -> tx_ok (bs_maxBlockFileSize s) m B tx st -> fetches tx s st.2.
Proof.
  intros Hi Hok [C U V X P F E] h io Hh Hio. rewrite E, (put_blocks_lookup _ _ _ _ P). destruct (bt_pendingBlocks tx !! h) as [i|] eqn:Ei.
  - pose proof (proj1 (P _ _) Ei) as (Hge & b & Hb & _). exists (set_io s io). unfold FetchBlock, checkClosed. rewrite C, Ei, Hb. unfold mbind, sm_bind, slift, slice_get. by rewrite decide_True, Hb by done.
  - eapply fetch_stored; try done. rewrite (tx_fetchKey_ok _ _ _ _ V). by rewrite X.
Qed.

Lemma db_fetches c s m B D w tx : db_ok c s m B D -> begin false c w = inl tx -> fetches tx s B.
Proof.
  intros Hdb Hb h io Hh Hio. destruct (begin_reads _ _ _ _ (db_cache _ _ _ _ _ Hdb) Hb) as [Hc Hr]. destruct (db_index _ _ _ _ _ Hdb) as (n & o & Hi).
  eapply fetch_stored; try done; [apply Hdb|apply Hr|]. unfold begin in Hb. destruct (begin_tx _ _ _); [|done]. by injection Hb as <-.
Qed.

(** A transaction that stores blocks and keys ends with all of them or none, whatever calls to the system or to leveldb fail. *)
Lemma commit_all_or_nothing (c : cache) s m B D tx ops now draw rnd : db_ok c s m B D -> small c -> begin false c true = inl tx -> Forall (op_ok s) ops ->
  bs_curFileNum s + len ops < 2 ^ 32 -> bs_maxBlockFileSize s < 2 ^ 32 ->
  exists tx1, user_run ops tx = Ok tx1 /\ fetches tx1 s (foldl spec_step (m, B) ops).2 /\
    returns (Commit now draw rnd c tx1) s (committed m (foldl spec_step (m, B) ops).1 B D (foldl spec_step (m, B) ops).2).
Proof.
  intros Hdb Hsm Hb Hops Hn Hmx. destruct (db_index _ _ _ _ _ Hdb) as (n & o & Hi). pose proof (begun c m B (bs_maxBlockFileSize s) tx (db_cache _ _ _ _ _ Hdb) Hb) as Htx.
  destruct (user_run_ok s m B ops (fun h => rows_present _ _ _ _ _ h Hi) Hops tx _ Htx) as (tx1 & Hrun & Htx1 & Hlen).
  exists tx1. split; [done|]. split; [by eapply tx_fetches; [|apply Hdb|]|]. destruct Htx1 as [C U V X P F E]. rewrite E.
  assert (bt_pendingBlockData tx = []) as Hnil by (unfold begin in Hb; destruct (begin_tx _ _ _); [|done]; by injection Hb as <-). rewrite Hnil in Hlen. simpl in Hlen.
  apply commit_stores; try done.
  - eapply Forall_impl; [exact F|]. by intros b [? _].
  - split; [rewrite length_fmap; lia|]. split; [done|]. apply Forall_fmap. eapply Forall_impl; [exact F|]. by intros b [_ ?].
Qed.

(** ** The start *)

Lemma new_cache_view (ldb : DB) cs fs now : cache_view (newDbCache ldb cs fs now : cache) (ldb_view ldb).
Proof. exists ∅, ∅. split_and!; [apply os_new_ok..|apply map_disjoint_empty_l|]. by rewrite layer_empty. Qed.

Lemma open_steps net mx now cs fs (ldb : DB) files io (tx : tx_of) row s' : begin false (newDbCache ldb cs fs now : cache) false = inl tx ->
  bucket_Get tx metadataBucketID writeLocKeyName = Ok row -> reconcileDB row (newBlockStore net mx files io) = Ok (None, s') ->
  openDB (M := M) (It := It) net mx now cs fs ldb files io = Ok (inl (newDbCache ldb cs fs now : cache, s')).
Proof. intros H1' H2' H3'. unfold openDB. rewrite H1', H2', outcome_bind_ok, H3'. reflexivity. Qed.

Lemma get_row (tx : tx_of) m : reads_as tx m -> bucket_Get tx metadataBucketID writeLocKeyName = Ok (m !! write_key).
Proof. intros [Hc Hr]. unfold bucket_Get. rewrite Hc, decide_False by done. apply Hr. Qed.

(** The files and leveldb are what is left of a database that was not closed. *)
Lemma open_ok (c : cache) s m B D now cs fs io : db_ok c s m B D -> is_Some (ldb_GetSnapshot (c_ldb c)) ->
  exists c' s', openDB (M := M) (It := It) (bs_network s) (bs_maxBlockFileSize s) now cs fs (c_ldb c) (bs_files s) io = Ok (inl (c', s')) /\ db_ok c' s' (ldb_view (c_ldb c)) D D /\
    ldb_view (c_ldb c) !! write_key = Some (serializeWriteRow (bs_curFileNum s') (bs_curOffset s')).
Proof.
  intros Hdb [sn Hsn]. destruct (db_durable _ _ _ _ _ Hdb) as (n & o & Hi). pose proof Hi as [N O R P C X]. pose proof (db_store _ _ _ _ _ Hdb) as [_ _ _ W _ Z].
  set (cache := newDbCache (c_ldb c) cs fs now : cache).
  destruct (scan_reaches (bs_network s) (bs_maxBlockFileSize s) (bs_files s) io n o C N W Z) as (K0 & P0 & Fi & Wi & _).
  destruct (reconcile_ok _ _ _ K0 P0 N O) as (e & s' & Hr & -> & K & F & Nn & Oo). exists cache, s'.
  assert (exists tx : tx_of, begin false cache false = inl tx) as [tx Htx] by (unfold begin, begin_tx, cache_Snapshot; simpl; rewrite Hsn; by eexists).
  pose proof (begin_reads cache (ldb_view (c_ldb c)) false tx (new_cache_view _ _ _ _) Htx) as Hread.
  split; [|split].
  - eapply open_steps; [exact Htx| |exact Hr]. rewrite <- R. by apply get_row.
  - assert (index_ok (ldb_view (c_ldb c)) D s' n o) as Hi'. { eapply index_kept; [exact Hi|rewrite <- Fi; apply F|by rewrite (fo_network _ _ _ _ F)|rewrite Nn, Oo; by right]. }
    split; [apply new_cache_view|done|rewrite Nn, Oo; apply Hi'|by eexists _, _|by eexists _, _].
  - by rewrite Nn, Oo.
Qed.
End Proofs.

(** ** The theorems *)

Abbreviation Trans Snap := (btx Imm Mut iterator Snap).

Section Theorems.
Context {DB Snap Tx : Type} `{LevelDBLaws DB Snap Tx}.

(** C14: A transaction that stores and updates blocks and changes keys sees its own blocks at once; its commit never panics, and whatever calls to the file system or to leveldb fail on the way, afterwards every new transaction fetches the blocks and reads the keys of the whole transaction when the commit returned no error, and exactly the old ones when it returned one.  What leveldb holds then is the old durable state, the state before the transaction, or, without an error, the one after it, and never a part of it. *)
Theorem transaction_stores_blocks (c : dbCache Imm DB) (s : blockStore) (m : bmap) (B D : blockmap) (tx : Trans Snap) (ops : list user_op) (now : Z) (draw rnd : nat -> Z)
  (Hdb : db_ok c s m B D) (Hsmall : small c) (Hbegin : begin false c true = inl tx) (Hops : Forall (op_ok s) ops)
  (Hfiles : bs_curFileNum s + len ops < 2 ^ 32) (Hmax : bs_maxBlockFileSize s < 2 ^ 32) :
  let after := foldl spec_step (m, B) ops in
  exists tx1 err c' tx2 s' m' D', user_run ops tx = Ok tx1 /\ fetches tx1 s after.2 /\ Commit now draw rnd c tx1 s = Ok ((err, c', tx2), s') /\ bt_closed tx2 = true /\
    let '(m1, B1) := match err with None => after | Some _ => (m, B) end in
    db_ok c' s' m' B1 D' /\ (D' = D \/ D' = B \/ D' = B1) /\ (forall k, k <> write_key -> (forall h, k <> block_key h) -> m' !! k = m1 !! k) /\
    (forall w tx', begin false c' w = inl tx' -> fetches (tx' : Trans Snap) s' B1).
Proof.
  intros after. destruct (commit_all_or_nothing c s m B D tx ops now draw rnd Hdb Hsmall Hbegin Hops Hfiles Hmax) as (tx1 & Hrun & Hf & ([[err c'] tx2] & s' & Hcom & Hcl & Hres)).
  fold after in Hf, Hres. exists tx1, err, c', tx2, s'. destruct after as [m1 B1]. destruct err as [e|].
  - destruct Hres as (D' & Hdb' & HD). exists m, D'. split_and!; try done; [tauto|]. intros w tx'. by eapply db_fetches.
  - destruct Hres as (m' & D' & Hdb' & HD & Hk). exists m', D'. split_and!; try done. intros w tx'. by eapply db_fetches.
Qed.

(** C15: When the program stops without closing the database, opening it again finds no corruption, whatever repairs of the files fail: the store is then at exactly the place that the index in leveldb has as its cursor, however far the block files had been written, and every transaction fetches exactly the blocks that leveldb knew of. *)
Theorem reopened_database (c : dbCache Imm DB) (s : blockStore) (m : bmap) (B D : blockmap) (now cs fs : Z) (io : list (option nat))
  (Hdb : db_ok c s m B D) (Hsnap : is_Some (ldb_GetSnapshot (c_ldb c))) :
  exists c' s', openDB (M := Mut) (It := iterator) (bs_network s) (bs_maxBlockFileSize s) now cs fs (c_ldb c) (bs_files s) io = Ok (inl (c' : dbCache Imm DB, s')) /\
    db_ok c' s' (ldb_view (c_ldb c)) D D /\ ldb_view (c_ldb c) !! write_key = Some (serializeWriteRow (bs_curFileNum s') (bs_curOffset s')) /\
    (forall w tx, begin false c' w = inl tx -> fetches (tx : Trans Snap) s' D).
Proof.
  destruct (open_ok c s m B D now cs fs io Hdb Hsnap) as (c' & s' & Ho & Hdb' & Hrow). exists c', s'. split; [exact Ho|]. split; [done|]. split; [done|]. intros w tx. by eapply db_fetches.
Qed.
End Theorems.

(** ** A new database *)

Definition new_db : dbCache Imm bmap := mem_cache initial_rows.
Definition new_store (io : list (option nat)) : blockStore := newBlockStore 7 64 ∅ io.

Lemma new_rows hash : initial_rows !! block_key hash = None.
Proof. unfold initial_rows. rewrite !lookup_insert_ne; done. Qed.

Lemma new_db_ok io : db_ok new_db (new_store io) initial_rows ∅ ∅.
Proof.
  assert (index_ok initial_rows ∅ (new_store io) 0 0) as Hi.
  { split; [by vm_compute..|right; by vm_compute|by left|]. intros hash _. rewrite lookup_empty. apply new_rows. }
  split; [apply mem_cache_view| |by left|by exists 0, 0|by exists 0, 0].
  split; [split; simpl; [constructor|done..]|by vm_compute..|done|apply map_Forall_empty].
Qed.

Definition hash_of (n : Z) : list Z := n :: replicate 31 0.
Definition some_ops : list user_op := [UStore (hash_of 1) [1; 2; 3]; UPut [0; 0; 0; 2] [9] [8] 5; UStore (hash_of 1) [7]; UStore (hash_of 2) [4; 5]; UUpdate (hash_of 2) [4; 5; 6]].

Lemma some_ops_ok io : Forall (op_ok (new_store io)) some_ops.
Proof. repeat constructor; simpl; try done; lia. Qed.

Definition first_tx : Trans bmap := MkBtx false false (MkTx true (MkSnapshot initial_rows os_new os_new) (Some os_new) (Some os_new) []) ∅ [].

Lemma transaction_stores_blocks_witness : exists tx1 err c' tx2 s', user_run some_ops first_tx = Ok tx1 /\
  Commit 7 (fun _ => 4) (fun _ => 5) new_db tx1 (new_store [None; None; None; None; Some 1%nat]) = Ok ((err, c', tx2), s') /\
  (forall tx', begin false c' false = inl tx' -> fetches (tx' : Trans bmap) s' (match err with None => <[hash_of 2 := [4; 5; 6]]> {[hash_of 1 := [1; 2; 3]]} | Some _ => ∅ end)).
Proof.
  destruct (transaction_stores_blocks new_db (new_store [None; None; None; None; Some 1%nat]) initial_rows ∅ ∅ first_tx some_ops 7 (fun _ => 4) (fun _ => 5)
    (new_db_ok _) (mem_cache_small _) eq_refl (some_ops_ok _) ltac:(by vm_compute) ltac:(by vm_compute)) as (tx1 & err & c' & tx2 & s' & m' & D' & Hr & _ & Hc & _ & Hres).
  exists tx1, err, c', tx2, s'. split; [exact Hr|]. split; [exact Hc|]. intros tx' Hb. destruct err as [e|]; destruct Hres as (_ & _ & _ & Hf); [by apply Hf in Hb|].
  apply Hf in Hb. intros h io Hh Hio. destruct (Hb h io Hh Hio) as (s1 & H1). exists s1. exact H1.
Defined.

(** A database with one block, which is written to the files and not yet to leveldb. *)
Definition with_block : outcome (dbCache Imm bmap * blockStore) :=
  tx ← user_run [UStore (hash_of 1) [1; 2; 3]] first_tx;
  '((_, c, _), s) ← Commit 7 (fun _ => 4) (fun _ => 5) new_db tx (new_store []);
  Ok (c, s).

Lemma ok_inj {A} (a b : A) : Ok a = Ok b -> a = b.
Proof. by intros [= ->]. Qed.

Lemma with_block_ok : exists c s m B D, with_block = Ok (c, s) /\ bs_curOffset s = 15 /\ bs_network s = 7 /\ bs_maxBlockFileSize s = 64 /\ c_ldb c = initial_rows /\ db_ok c s m B D.
Proof.
  assert (Forall (op_ok (new_store [])) [UStore (hash_of 1) [1; 2; 3]]) as Hops by (repeat constructor; simpl; try done; lia).
  destruct (commit_all_or_nothing new_db (new_store []) initial_rows ∅ ∅ first_tx _ 7 (fun _ => 4) (fun _ => 5) (new_db_ok _) (mem_cache_small _) eq_refl Hops
    ltac:(by vm_compute) ltac:(by vm_compute)) as (tx1 & Hr & _ & ([[err c'] tx2] & s' & Hc & _ & Hres)).
  assert (with_block = Ok (c', s')) as Hw by (unfold with_block; by rewrite Hr, outcome_bind_ok, Hc).
  assert (bs_curOffset s' = 15 /\ bs_network s' = 7 /\ bs_maxBlockFileSize s' = 64 /\ c_ldb c' = initial_rows) as (E1 & E2 & E3 & E4).
  { assert (('(c, s) ← with_block; Ok (bs_curOffset s, bs_network s, bs_maxBlockFileSize s, c_ldb c)) = Ok (15, 7, 64, initial_rows)) as E by (vm_compute; reflexivity).
    rewrite Hw, outcome_bind_ok in E. apply ok_inj in E. rewrite !pair_equal_spec in E. tauto. }
  exists c', s'. destruct err; [destruct Hres as (D' & Hdb & _)|destruct Hres as (m' & D' & Hdb & _)]; eexists _, _, _; by split_and!.
Qed.

(** The program stops with a block that leveldb does not know of: the store goes back to the beginning of the file. *)
Lemma reopened_database_witness : exists c s c' s', with_block = Ok (c, s) /\ bs_curOffset s = 15 /\
  openDB (M := Mut) (It := iterator) 7 64 9 1000 300 (c_ldb c) (bs_files s) [Some 0%nat] = Ok (inl (c' : dbCache Imm bmap, s')) /\
  initial_rows !! write_key = Some (serializeWriteRow (bs_curFileNum s') (bs_curOffset s')) /\ initial_rows !! write_key = Some (serializeWriteRow 0 0) /\
  (forall w tx, begin false c' w = inl tx -> fetches (tx : Trans bmap) s' ∅).
Proof.
  destruct with_block_ok as (c & s & m & B & D & Hw & Hoff & Hnet & Hmax & Hl & Hdb). exists c, s.
  destruct (reopened_database c s m B D 9 1000 300 [Some 0%nat] Hdb ltac:(by eexists)) as (c' & s' & Ho & Hdb' & Hrow & Hf). rewrite Hnet, Hmax in Ho. rewrite Hl in Hrow.
  exists c', s'. split_and!; [done|done|exact Ho|exact Hrow|by vm_compute|]. intros w tx Hb h io Hh Hio. destruct (Hf w tx Hb h io Hh Hio) as (s1 & H1). exists s1. rewrite H1.
  destruct (db_durable _ _ _ _ _ Hdb) as (n & o & Hi). pose proof (ix_blocks _ _ _ _ _ Hi h Hh) as Hr. rewrite Hl, new_rows in Hr. destruct (D !! h); [|done]. by destruct Hr as (loc & ? & _).
Defined.

Definition answer {A} (o : outcome (A * blockStore)) : outcome A := '(a, _) ← o; Ok a.

(** A block and two regions of it. *)
Definition some_answers : outcome ((list Z + tx_error) * (list Z + tx_error) * (list Z + tx_error)) :=
  '(c, s) ← with_block;
  match begin false c false with
  | inr _ => Panic
  | inl tx =>
      a ← answer (FetchBlock (tx : Trans bmap) (hash_of 1) s);
      b ← answer (FetchBlockRegion tx (MkRegion (hash_of 1) 1 2) s);
      d ← answer (FetchBlockRegion tx (MkRegion (hash_of 1) 1 6) s);
      Ok (a, b, d)
  end.

(** A region that ends past the block is not refused, as the bound is the length of the
    record with its header and checksum: it is filled with the bytes of the checksum. *)
Example region_past_end : some_answers = Ok (inl [1; 2; 3], inl [2; 3], inl [2; 3; 105; 225; 206; 144]).
Proof. vm_compute. reflexivity. Qed.

(** A commit that the cache refuses, as the files cannot be synchronised before its flush. *)
Definition refused_commit : outcome (option tx_error * Z * option (list Z)) :=
  tx ← user_run [UStore (hash_of 1) [1; 2; 3]] first_tx;
  '((e, _, _), s) ← Commit (10 ^ 12) (fun _ => 4) (fun _ => 5) new_db tx (new_store [None; None; None; None; None; Some 0%nat]);
  Ok (e, bs_curOffset s, bs_files s !! 0).

(** The files are not rolled back then: the next block is written behind blocks that belong
    to nobody.  [index_ok] allows for it, as the cursor of the store may be ahead of the one
    in the keys. *)
Example refused_commit_keeps_cursor : refused_commit = Ok (Some (CacheErr ErrSync), 15, Some (framed_sum 7 [1; 2; 3])).
Proof. vm_compute. reflexivity. Qed.
