(* ===== verification/KvIters.v ===== *)
(** * Iterators over two layers of keys

    The iterators of the database have the interface of leveldb's.  Twice an iterator over
    a layer of new keys is merged with one over the keys below it: the cache over leveldb
    ([dbCacheIterator] of btcd/database/ffldb/dbcache.go) and the pending keys of a
    transaction over its snapshot ([cursor] of db.go).  The code is the same both times, and
    is modelled once: [layered], an iterator made of two.

    [KvIterLaws] says what an iterator promises: where it is, moving in one direction, is
    the list of the pairs that are left.  A merged iterator keeps the promise if its two
    parts do.  It promises nothing when the direction changes: see [turning_back]. *)
From Stdlib Require Import ZArith Lia.
From stdpp Require Import gmap list sorting.
From S2P Require Import Prelude TreapNode TreapTree TreapMutable TreapImmutable TreapStore TreapIter.

Open Scope Z_scope.

(** ** The interface *)

(** The calls on an iterator [It] over a store [St].  [ki_bound] is not a call: it bounds the
    pairs of the iterator, and is the fuel of loops over it. *)
Class KvIter (St It : Type) := {
  ki_First : St -> It -> outcome (It * bool);
  ki_Last : St -> It -> outcome (It * bool);
  ki_Next : St -> It -> outcome (It * bool);
  ki_Prev : St -> It -> outcome (It * bool);
  ki_Seek : St -> It -> list Z -> outcome (It * bool);
  ki_Valid : It -> bool;
  ki_Key : St -> It -> outcome (option (list Z));
  ki_Value : St -> It -> outcome (option (list Z));
  ki_bound : St -> It -> nat;
}.

(** A step in the direction [s], forwards when it is [true], and to the end it starts from. *)
Definition ki_step {St It} `{KvIter St It} (s : bool) (st : St) (it : It) : outcome (It * bool) := if s then ki_Next st it else ki_Prev st it.
Definition ki_start {St It} `{KvIter St It} (s : bool) (st : St) (it : It) : outcome (It * bool) := if s then ki_First st it else ki_Last st it.

Definition turned (s : bool) (l : list kv) : list kv := if s then l else reverse l.
(** The pairs at or after a key. *)
Definition at_least (k : list Z) (x : kv) : Prop := acc true true k x = true.
Global Instance at_least_dec k x : Decision (at_least k x).
Proof. unfold at_least. apply _. Defined.
#[global] Typeclasses Opaque at_least.

Class KvIterLaws (St It : Type) `{KvIter St It} := {
  (** The iterator is over the pairs of the list, in the order of their keys. *)
  ki_over : St -> It -> list kv -> Prop;
  (** It is over the first list, and moving in the direction it has the second before it, with the current pair at its head. *)
  ki_at : bool -> St -> It -> list kv -> list kv -> Prop;
  ki_at_over s st it l r : ki_at s st it l r -> ki_over st it l;
  ki_over_sorted st it l : ki_over st it l -> keys_sorted l /\ (length l <= ki_bound st it)%nat;
  ki_start_ok s st it l : ki_over st it l -> exists it', ki_start s st it = Ok (it', bool_decide (l <> [])) /\ ki_at s st it' l (turned s l);
  (** The keys it can be moved to: a treap iterator gives up on keys before its range. *)
  ki_from : It -> list Z -> Prop;
  ki_seek_ok st it l k : ki_over st it l -> ki_from it k -> exists it' r, r = filter (at_least k) l /\ ki_Seek st it k = Ok (it', bool_decide (r <> [])) /\ ki_at true st it' l r;
  ki_step_ok s st it l x r : ki_at s st it l (x :: r) -> exists it', ki_step s st it = Ok (it', bool_decide (r <> [])) /\ ki_at s st it' l r;
  ki_valid_ok s st it l r : ki_at s st it l r -> ki_Valid it = bool_decide (r <> []);
  ki_reads_ok s st it l x r : ki_at s st it l (x :: r) -> ki_Key st it = Ok (Some x.1) /\ ki_Value st it = Ok (Some x.2);
  ki_bound_ok s st it l r : ki_at s st it l r -> (length r <= ki_bound st it)%nat;
}.

(** ** Treap iterators *)

Definition treap_bound (h : nheap) : nat := size h.

Global Instance imm_iter : KvIter (nheap * Immutable) (Iterator parentStack) := {
  ki_First st it := iter_First st.1 it; ki_Last st it := iter_Last st.1 it; ki_Next st it := iter_Next st.1 it; ki_Prev st it := iter_Prev st.1 it;
  ki_Seek st it k := iter_Seek st.1 it k; ki_Valid it := iter_Valid it; ki_Key st it := iter_Key st.1 it; ki_Value st it := iter_Value st.1 it; ki_bound st it := treap_bound st.1;
}.
Global Instance mut_iter : KvIter (nheap * Mutable) (Iterator parentStack) := {
  ki_First st it := iter_First st.1 it; ki_Last st it := iter_Last st.1 it; ki_Next st it := iter_Next st.1 it; ki_Prev st it := iter_Prev st.1 it;
  ki_Seek st it k := iter_Seek st.1 it k; ki_Valid it := iter_Valid it; ki_Key st it := iter_Key st.1 it; ki_Value st it := iter_Value st.1 it; ki_bound st it := treap_bound st.1;
}.

(** ** Two layers *)

(** [ly_current]: [Some true] is the iterator below, [Some false] the one over the new keys. *)
Record layered (Ai Bi : Type) := MkLayered { ly_db : Ai; ly_pending : Bi; ly_current : option bool }.
Arguments MkLayered {Ai Bi}.
Arguments ly_db {Ai Bi}.
Arguments ly_pending {Ai Bi}.
Arguments ly_current {Ai Bi}.

Section Layered.
Context {A Ai B Bi : Type} `{KvIter A Ai} `{KvIter B Bi}.
(** Whether the new keys or the removed ones have a key. *)
Variable has_update : list Z -> outcome bool.

Fixpoint skipPendingUpdates (fuel : nat) (a : A) (forwards : bool) (db : Ai) : outcome Ai :=
  if negb (ki_Valid db) then Ok db
  else
    key ← ki_Key a db;
    skip ← has_update (default [] key);
    if negb skip then Ok db
    else
      match fuel with
      | O => NoFuel
      | S fuel => '(db, _) ← ki_step forwards a db; skipPendingUpdates fuel a forwards db
      end.

Definition chooseIterator (a : A) (b : B) (forwards : bool) (it : layered Ai Bi) : outcome (layered Ai Bi * bool) :=
  db ← skipPendingUpdates (ki_bound a (ly_db it)) a forwards (ly_db it);
  let pending := ly_pending it in
  if negb (ki_Valid db) && negb (ki_Valid pending) then Ok (MkLayered db pending None, false)
  else if negb (ki_Valid pending) then Ok (MkLayered db pending (Some true), true)
  else if negb (ki_Valid db) then Ok (MkLayered db pending (Some false), true)
  else
    dk ← ki_Key a db;
    pk ← ki_Key b pending;
    let below := match bytes_compare (default [] dk) (default [] pk) with Gt => negb forwards | Lt => forwards | Eq => true end in
    Ok (MkLayered db pending (Some below), true).

Definition layered_start (s : bool) (a : A) (b : B) (it : layered Ai Bi) : outcome (layered Ai Bi * bool) :=
  '(db, _) ← ki_start s a (ly_db it);
  '(pending, _) ← ki_start s b (ly_pending it);
  chooseIterator a b s (MkLayered db pending (ly_current it)).
Definition layered_step (s : bool) (a : A) (b : B) (it : layered Ai Bi) : outcome (layered Ai Bi * bool) :=
  match ly_current it with
  | None => Ok (it, false)
  | Some true => '(db, _) ← ki_step s a (ly_db it); chooseIterator a b s (MkLayered db (ly_pending it) (ly_current it))
  | Some false => '(pending, _) ← ki_step s b (ly_pending it); chooseIterator a b s (MkLayered (ly_db it) pending (ly_current it))
  end.
Definition layered_Seek (a : A) (b : B) (it : layered Ai Bi) (key : list Z) : outcome (layered Ai Bi * bool) :=
  '(db, _) ← ki_Seek a (ly_db it) key;
  '(pending, _) ← ki_Seek b (ly_pending it) key;
  chooseIterator a b true (MkLayered db pending (ly_current it)).
Definition layered_Valid (it : layered Ai Bi) : bool := match ly_current it with Some _ => true | None => false end.
Definition layered_Key (a : A) (b : B) (it : layered Ai Bi) : outcome (option (list Z)) :=
  match ly_current it with None => Ok None | Some true => ki_Key a (ly_db it) | Some false => ki_Key b (ly_pending it) end.
Definition layered_Value (a : A) (b : B) (it : layered Ai Bi) : outcome (option (list Z)) :=
  match ly_current it with None => Ok None | Some true => ki_Value a (ly_db it) | Some false => ki_Value b (ly_pending it) end.
Definition layered_bound (a : A) (b : B) (it : layered Ai Bi) : nat := (ki_bound a (ly_db it) + ki_bound b (ly_pending it))%nat.
End Layered.

(** ** Merging sorted lists *)

(** The order in a direction, and the choice between two keys: the lower layer on equality. *)
Definition key_lt (s : bool) (x y : kv) : Prop := if s then bytes_lt x.1 y.1 else bytes_lt y.1 x.1.
Definition key_le (s : bool) (x y : kv) : Prop := match bytes_compare x.1 y.1 with Gt => s = false | Lt => s = true | Eq => True end.
Global Instance key_le_dec s x y : Decision (key_le s x y).
Proof. unfold key_le. destruct (bytes_compare x.1 y.1); apply _. Defined.
Definition sorted_dir (s : bool) (l : list kv) : Prop := StronglySorted (key_lt s) l.

Lemma key_lt_trans s x y z : key_lt s x y -> key_lt s y z -> key_lt s x z.
Proof. destruct s; simpl; intros; by etrans. Qed.
Lemma key_lt_irrefl s x y : key_lt s x y -> x.1 <> y.1.
Proof. intros Hlt E. destruct s; simpl in Hlt; rewrite E in Hlt; by apply bytes_lt_irrefl in Hlt. Qed.
Lemma key_le_lt s x y : x.1 <> y.1 -> key_le s x y -> key_lt s x y.
Proof.
  intros Hne. unfold key_le, key_lt. destruct (bytes_compare x.1 y.1) eqn:E; intros Hs; [by apply bytes_compare_eq in E|by subst|]. subst. by apply bytes_compare_gt.
Qed.
Lemma key_not_le s x y : ~ key_le s x y -> key_lt s y x.
Proof.
  unfold key_le, key_lt. destruct (bytes_compare x.1 y.1) eqn:E; intros Hn; [by destruct Hn|..]; destruct s; try (by destruct Hn); [done|]. by apply bytes_compare_gt.
Qed.

Lemma key_le_bool s x y : bool_decide (key_le s x y) = match bytes_compare x.1 y.1 with Gt => negb s | Lt => s | Eq => true end.
Proof. case_bool_decide as Hle; unfold key_le in Hle; destruct (bytes_compare x.1 y.1); destruct s; try done; by destruct Hle. Qed.

Lemma sorted_turned s l : keys_sorted l -> sorted_dir s (turned s l).
Proof.
  intros Hs. apply keys_sorted_pairs in Hs. destruct s; [exact Hs|]. by apply StronglySorted_reverse in Hs.
Qed.

Lemma sorted_keys l : sorted_dir true l -> keys_sorted l.
Proof.
  unfold sorted_dir, keys_sorted. induction 1 as [|x l Hs IH Hx]; simpl; constructor; [done|]. rewrite Forall_fmap. eapply Forall_impl; [exact Hx|]. done.
Qed.

Lemma sorted_unturned s l : sorted_dir s (turned s l) -> keys_sorted l.
Proof.
  destruct s; simpl; intros Hs; [by apply sorted_keys|]. apply sorted_keys. apply StronglySorted_reverse in Hs. by rewrite reverse_involutive in Hs.
Qed.

Lemma filter_sorted s (P : kv -> Prop) `{!forall x, Decision (P x)} l : sorted_dir s l -> sorted_dir s (filter P l).
Proof.
  unfold sorted_dir. induction 1 as [|x l Hs IH Hx]; [constructor|]. rewrite filter_cons. case_decide; [|done]. constructor; [done|].
  apply Forall_forall. intros y Hy. apply list_elem_of_filter in Hy as [_ Hy]. rewrite Forall_forall in Hx. by apply Hx.
Qed.

Lemma merge_sorted s l1 l2 : sorted_dir s l1 -> sorted_dir s l2 -> (forall x y, x ∈ l1 -> y ∈ l2 -> x.1 <> y.1) -> sorted_dir s (list_merge (key_le s) l1 l2).
Proof.
  intros H1. revert l2. induction H1 as [|x l1 Hs1 IH1 Hx]; intros l2 H2; [by rewrite list_merge_nil_l|].
  induction H2 as [|y l2 Hs2 IH2 Hy]; intros Hd; [rewrite list_merge_nil_r; by constructor|]. rewrite list_merge_cons. case_decide as Hle.
  - assert (key_lt s x y) as Hxy by (apply key_le_lt; [apply Hd; left|done]).
    constructor; [apply IH1; [by constructor|]; intros; apply Hd; [by right|done]|]. rewrite merge_Permutation. apply Forall_app. split; [done|]. constructor; [done|].
    eapply Forall_impl; [exact Hy|]. intros z Hz. by eapply key_lt_trans.
  - apply key_not_le in Hle. constructor; [apply IH2; intros; apply Hd; [done|by right]|]. rewrite merge_Permutation. apply Forall_app. split; [|done]. constructor; [done|].
    eapply Forall_impl; [exact Hx|]. intros z Hz. by eapply key_lt_trans.
Qed.

(** Sorted lists with the same pairs are the same. *)
Lemma sorted_unique s l1 l2 : sorted_dir s l1 -> sorted_dir s l2 -> l1 ≡ₚ l2 -> l1 = l2.
Proof.
  intros H1. revert l2. induction H1 as [|x l1 Hs1 IH Hx]; intros l2 H2 Hp; [by apply Permutation_nil_l in Hp|].
  destruct H2 as [|y l2 Hs2 Hy]; [by apply Permutation_nil_r in Hp|]. assert (x = y) as ->.
  { assert (x ∈ y :: l2) as [?|Hin1]%elem_of_cons by (rewrite <- Hp; left); [done|]. assert (y ∈ x :: l1) as [?|Hin2]%elem_of_cons by (rewrite Hp; left); [done|].
    rewrite Forall_forall in Hx, Hy. exfalso. eapply key_lt_irrefl; [|reflexivity]. eapply key_lt_trans; [apply Hx, Hin2|apply Hy, Hin1]. }
  f_equal. apply IH; [done|]. by apply Permutation_cons_inv in Hp.
Qed.

Lemma nonempty_merge (l1 l2 : list kv) s : bool_decide (list_merge (key_le s) l1 l2 <> []) = negb (negb (bool_decide (l1 <> [])) && negb (bool_decide (l2 <> []))).
Proof.
  destruct l1 as [|x l1], l2 as [|y l2]; rewrite ?list_merge_nil_l, ?list_merge_nil_r; try done. rewrite list_merge_cons. by case_decide.
Qed.

Section LayeredLaws.
Context {A Ai B Bi : Type} `{KvIterLaws A Ai} `{KvIterLaws B Bi}.
Variable has_update : list Z -> outcome bool.
Variable updated : list Z -> bool.
Hypothesis has_update_ok : forall k, has_update k = Ok (updated k).

(** The pairs of the lower layer that show. *)
Definition unchanged (x : kv) : Prop := updated x.1 = false.
Definition old (l : list kv) : list kv := filter unchanged l.
Definition merged (lD lK : list kv) : list kv := list_merge (key_le true) (old lD) lK.

Definition all_updated (l : list kv) : Prop := Forall (fun x => updated x.1 = true) l.

Definition layered_over (a : A) (b : B) (it : layered Ai Bi) (l : list kv) : Prop :=
  exists lD lK, ki_over a (ly_db it) lD /\ ki_over b (ly_pending it) lK /\ all_updated lK /\ l = merged lD lK.

Definition choice (s : bool) (rD rK : list kv) : option bool :=
  match rD, rK with [], [] => None | _ :: _, [] => Some true | [], _ :: _ => Some false | x :: _, y :: _ => Some (bool_decide (key_le s x y)) end.

Definition layered_at (s : bool) (a : A) (b : B) (it : layered Ai Bi) (l r : list kv) : Prop :=
  exists lD lK rD rK, ki_at s a (ly_db it) lD rD /\ ki_at s b (ly_pending it) lK rK /\ all_updated lK /\ l = merged lD lK /\
    r = list_merge (key_le s) (old rD) rK /\ match rD with x :: _ => unchanged x | [] => True end /\ ly_current it = choice s rD rK.

Lemma layered_at_over s a b it l r : layered_at s a b it l r -> layered_over a b it l.
Proof. intros (lD & lK & rD & rK & HA & HB & Hu & Hl & _). exists lD, lK. split_and!; try done; by eapply ki_at_over. Qed.

Lemma apart lD lK x y : all_updated lK -> x ∈ old lD -> y ∈ lK -> x.1 <> y.1.
Proof.
  intros Hu Hx Hy E. apply list_elem_of_filter in Hx as [Hx _]. unfold all_updated in Hu. rewrite Forall_forall in Hu. apply Hu in Hy. unfold unchanged in Hx. congruence.
Qed.

Lemma merged_sorted lD lK : keys_sorted lD -> keys_sorted lK -> all_updated lK -> keys_sorted (merged lD lK).
Proof.
  intros HD HK Hu. apply sorted_keys, merge_sorted; [apply filter_sorted|..]; [by apply (sorted_turned true)|by apply (sorted_turned true)|]. intros x y. by apply apart.
Qed.

Lemma layered_over_sorted a b it l : layered_over a b it l -> keys_sorted l /\ (length l <= layered_bound a b it)%nat.
Proof.
  intros (lD & lK & HD & HK & Hu & ->). apply ki_over_sorted in HD as [HD LD], HK as [HK LK]. split; [by apply merged_sorted|].
  unfold merged, layered_bound. rewrite merge_Permutation, length_app. pose proof (length_filter unchanged lD). unfold old. lia.
Qed.

Lemma old_cons x l : unchanged x -> old (x :: l) = x :: old l.
Proof. intros Hx. unfold old. by rewrite filter_cons_True. Qed.

Lemma skip_ok s (a : A) lD : forall fuel (db : Ai) rD, ki_at s a db lD rD -> (length rD <= fuel)%nat ->
  exists db' rD', skipPendingUpdates has_update fuel a s db = Ok db' /\ ki_at s a db' lD rD' /\ old rD' = old rD /\ match rD' with x :: _ => unchanged x | [] => True end.
Proof.
  induction fuel as [|fuel IH]; intros db [|x rD] Hat Hlen; cbn [skipPendingUpdates]; rewrite (ki_valid_ok _ _ _ _ _ Hat); simpl in *.
  - exists db, []. by split_and!.
  - lia.
  - exists db, []. by split_and!.
  - destruct (ki_reads_ok _ _ _ _ _ _ Hat) as [-> _]. simpl. rewrite has_update_ok. simpl. destruct (updated x.1) eqn:E; simpl.
    + destruct (ki_step_ok _ _ _ _ _ _ Hat) as (db1 & -> & Hat1). simpl. destruct (IH db1 rD Hat1 ltac:(lia)) as (db' & rD' & -> & Hat' & Ho & Hh).
      exists db', rD'. split_and!; try done. rewrite Ho. unfold old. by rewrite filter_cons_False by (unfold unchanged; congruence).
    + exists db, (x :: rD). by split_and!.
Qed.

Lemma choose_ok s (a : A) (b : B) (db : Ai) (pending : Bi) cur lD lK rD rK : ki_at s a db lD rD -> ki_at s b pending lK rK -> all_updated lK ->
  exists it', chooseIterator has_update a b s (MkLayered db pending cur) = Ok (it', bool_decide (list_merge (key_le s) (old rD) rK <> [])) /\
    layered_at s a b it' (merged lD lK) (list_merge (key_le s) (old rD) rK).
Proof.
  intros HA HB Hu. unfold chooseIterator. simpl ly_db. simpl ly_pending. destruct (skip_ok s a lD (ki_bound a db) db rD HA (ki_bound_ok _ _ _ _ _ HA)) as (db' & rD' & -> & HA' & <- & Hh).
  cbn [mbind outcome_bind]. rewrite nonempty_merge, (ki_valid_ok _ _ _ _ _ HA'), (ki_valid_ok _ _ _ _ _ HB).
  assert (forall c, c = choice s rD' rK -> layered_at s a b (MkLayered db' pending c) (merged lD lK) (list_merge (key_le s) (old rD') rK)) as Hat by (intros c ->; exists lD, lK, rD', rK; by split_and!).
  destruct rD' as [|x rD'], rK as [|y rK]; simpl in *.
  - eexists. split; [done|]. by apply Hat.
  - eexists. split; [done|]. by apply Hat.
  - rewrite (old_cons x rD' Hh) in Hat |- *. eexists. split; [done|]. by apply Hat.
  - rewrite (old_cons x rD' Hh) in Hat |- *. destruct (ki_reads_ok _ _ _ _ _ _ HA') as [-> _]. destruct (ki_reads_ok _ _ _ _ _ _ HB) as [-> _]. simpl.
    eexists. split; [done|]. apply Hat. by rewrite key_le_bool.
Qed.

Lemma turned_old s l : old (turned s l) = turned s (old l).
Proof. destruct s; simpl; [done|]. unfold old. apply filter_reverse. Qed.

Lemma turned_merged s lD lK : keys_sorted lD -> keys_sorted lK -> all_updated lK -> list_merge (key_le s) (old (turned s lD)) (turned s lK) = turned s (merged lD lK).
Proof.
  intros HD HK Hu. apply (sorted_unique s).
  - apply merge_sorted; [apply filter_sorted; by apply sorted_turned|by apply sorted_turned|]. intros x y Hx Hy. apply (apart (turned s lD) (turned s lK)); try done.
    unfold all_updated. destruct s; simpl; [done|]. by rewrite Forall_reverse_iff.
  - by apply sorted_turned, merged_sorted.
  - rewrite merge_Permutation, turned_old. unfold merged. destruct s; simpl; [by rewrite merge_Permutation|]. by rewrite !reverse_Permutation, merge_Permutation.
Qed.

Lemma turned_nonempty s (l : list kv) : bool_decide (turned s l <> []) = bool_decide (l <> []).
Proof. destruct s; [done|]. apply bool_decide_ext. simpl. split; intros Hn E; apply Hn; [by rewrite E|]. by apply (f_equal reverse) in E; rewrite reverse_involutive in E. Qed.

Lemma layered_start_ok s (a : A) (b : B) (it : layered Ai Bi) l : layered_over a b it l ->
  exists it', layered_start has_update s a b it = Ok (it', bool_decide (l <> [])) /\ layered_at s a b it' l (turned s l).
Proof.
  intros (lD & lK & HD & HK & Hu & ->). unfold layered_start. pose proof (proj1 (ki_over_sorted _ _ _ HD)) as SD. pose proof (proj1 (ki_over_sorted _ _ _ HK)) as SK.
  destruct (ki_start_ok s _ _ _ HD) as (db & -> & HA). cbn [mbind outcome_bind]. destruct (ki_start_ok s _ _ _ HK) as (pending & -> & HB). cbn [mbind outcome_bind].
  destruct (choose_ok s a b db pending (ly_current it) lD lK _ _ HA HB Hu) as (it' & Hc & Hat). rewrite turned_merged in Hc, Hat by done. rewrite turned_nonempty in Hc. by exists it'.
Qed.

Lemma merge_at_least k l1 l2 : sorted_dir true l1 -> sorted_dir true l2 -> (forall x y, x ∈ l1 -> y ∈ l2 -> x.1 <> y.1) ->
  list_merge (key_le true) (filter (at_least k) l1) (filter (at_least k) l2) = filter (at_least k) (list_merge (key_le true) l1 l2).
Proof.
  intros H1' H2' Hd. apply (sorted_unique true).
  - apply merge_sorted; [by apply filter_sorted..|]. intros x y [_ Hx]%list_elem_of_filter [_ Hy]%list_elem_of_filter. by apply Hd.
  - apply filter_sorted. by apply merge_sorted.
  - by rewrite !merge_Permutation, filter_app.
Qed.

Lemma filter_swap (P Q : kv -> Prop) `{!forall x, Decision (P x)} `{!forall x, Decision (Q x)} (l : list kv) : filter P (filter Q l) = filter Q (filter P l).
Proof. rewrite !list_filter_filter. apply list_filter_iff. tauto. Qed.

Definition layered_from (it : layered Ai Bi) (k : list Z) : Prop := ki_from (ly_db it) k /\ ki_from (ly_pending it) k.

Lemma layered_seek_ok (a : A) (b : B) (it : layered Ai Bi) l k : layered_over a b it l -> layered_from it k ->
  exists it' r, r = filter (at_least k) l /\ layered_Seek has_update a b it k = Ok (it', bool_decide (r <> [])) /\ layered_at true a b it' l r.
Proof.
  intros (lD & lK & HD & HK & Hu & ->) [FD FK]. unfold layered_Seek. pose proof (proj1 (ki_over_sorted _ _ _ HD)) as SD. pose proof (proj1 (ki_over_sorted _ _ _ HK)) as SK.
  destruct (ki_seek_ok _ _ _ k HD FD) as (db & ? & -> & -> & HA). cbn [mbind outcome_bind]. destruct (ki_seek_ok _ _ _ k HK FK) as (pending & ? & -> & -> & HB). cbn [mbind outcome_bind].
  destruct (choose_ok true a b db pending (ly_current it) lD lK _ _ HA HB Hu) as (it' & Hc & Hat). unfold old in Hc, Hat. rewrite filter_swap in Hc, Hat.
  rewrite merge_at_least in Hc, Hat by (try (intros x y; by apply apart); try apply filter_sorted; by apply (sorted_turned true)).
  by exists it', (filter (at_least k) (merged lD lK)).
Qed.

Lemma layered_step_ok s (a : A) (b : B) (it : layered Ai Bi) l x r : layered_at s a b it l (x :: r) ->
  exists it', layered_step has_update s a b it = Ok (it', bool_decide (r <> [])) /\ layered_at s a b it' l r.
Proof.
  intros (lD & lK & rD & rK & HA & HB & Hu & -> & Hr & Hh & Hcur). unfold layered_step. rewrite Hcur. destruct rD as [|d rD], rK as [|y rK]; simpl in Hr |- *; try done.
  - injection Hr as -> ->. destruct (ki_step_ok _ _ _ _ _ _ HB) as (p & -> & HB'). cbn [mbind outcome_bind].
    destruct (choose_ok s a b (ly_db it) p (Some false) lD lK [] rK HA HB' Hu) as (it' & Hc & Hat). change (old []) with (@nil kv) in Hc, Hat. rewrite list_merge_nil_l in Hc, Hat. by exists it'.
  - rewrite (old_cons d rD Hh), list_merge_nil_r in Hr. injection Hr as -> ->. destruct (ki_step_ok _ _ _ _ _ _ HA) as (db & -> & HA'). cbn [mbind outcome_bind].
    destruct (choose_ok s a b db (ly_pending it) (Some true) lD lK rD [] HA' HB Hu) as (it' & Hc & Hat). rewrite list_merge_nil_r in Hc, Hat. by exists it'.
  - rewrite (old_cons d rD Hh), list_merge_cons in Hr. destruct (decide (key_le s d y)) as [Hle|Hle]; [rewrite (bool_decide_true _ Hle)|rewrite (bool_decide_false _ Hle)]; injection Hr as -> ->.
    + destruct (ki_step_ok _ _ _ _ _ _ HA) as (db & -> & HA'). cbn [mbind outcome_bind]. destruct (choose_ok s a b db (ly_pending it) (Some true) lD lK rD (y :: rK) HA' HB Hu) as (it' & Hc & Hat).
      exists it'. split; [exact Hc|exact Hat].
    + destruct (ki_step_ok _ _ _ _ _ _ HB) as (p & -> & HB'). cbn [mbind outcome_bind].
      destruct (choose_ok s a b (ly_db it) p (Some false) lD lK (d :: rD) rK HA HB' Hu) as (it' & Hc & Hat). rewrite (old_cons d rD Hh) in Hc, Hat. by exists it'.
Qed.

Lemma layered_reads_ok s (a : A) (b : B) (it : layered Ai Bi) l x r : layered_at s a b it l (x :: r) -> layered_Key a b it = Ok (Some x.1) /\ layered_Value a b it = Ok (Some x.2).
Proof.
  intros (lD & lK & rD & rK & HA & HB & Hu & -> & Hr & Hh & Hcur). unfold layered_Key, layered_Value. rewrite Hcur. destruct rD as [|d rD], rK as [|y rK]; simpl in Hr |- *; try done.
  - injection Hr as -> ->. by eapply ki_reads_ok.
  - rewrite (old_cons d rD Hh), list_merge_nil_r in Hr. injection Hr as -> ->. by eapply ki_reads_ok.
  - rewrite (old_cons d rD Hh), list_merge_cons in Hr. destruct (decide (key_le s d y)) as [Hle|Hle]; [rewrite (bool_decide_true _ Hle)|rewrite (bool_decide_false _ Hle)]; injection Hr as -> ->; by eapply ki_reads_ok.
Qed.

Lemma layered_valid_ok s (a : A) (b : B) (it : layered Ai Bi) l r : layered_at s a b it l r -> layered_Valid it = bool_decide (r <> []).
Proof.
  intros (lD & lK & rD & rK & HA & HB & Hu & -> & -> & Hh & Hcur). unfold layered_Valid. rewrite Hcur, nonempty_merge. destruct rD as [|d rD], rK as [|y rK]; try done; by rewrite (old_cons d rD Hh).
Qed.

Lemma layered_bound_ok s (a : A) (b : B) (it : layered Ai Bi) l r : layered_at s a b it l r -> (length r <= layered_bound a b it)%nat.
Proof.
  intros (lD & lK & rD & rK & HA & HB & Hu & _ & -> & _). rewrite merge_Permutation, length_app. unfold layered_bound. apply ki_bound_ok in HA, HB. pose proof (length_filter unchanged rD). unfold old. lia.
Qed.
End LayeredLaws.

(** ** Treap iterators keep the promise *)

(** What moving an iterator leaves alone. *)
Definition same_iter (it it' : Iterator parentStack) : Prop :=
  iter_root it' = iter_root it /\ iter_isNew it' = iter_isNew it /\ iter_seekKey it' = iter_seekKey it /\ iter_startKey it' = iter_startKey it /\ iter_limitKey it' = iter_limitKey it.

Lemma limit_same h it it' b : limitIterator h it = Ok (it', b) -> same_iter it it'.
Proof.
  unfold limitIterator. destruct (iter_node it); [|by intros [= <- _]]. intros E. apply bind_ok_inv in E as (n & _ & E).
  destruct (iter_startKey it), (iter_limitKey it); repeat match type of E with context [bytes_compare ?x ?y] => destruct (bytes_compare x y) end; by injection E as <- _.
Qed.

Lemma seek_same h it k e g it' b : seek h it k e g = Ok (it', b) -> same_iter it it'.
Proof.
  unfold seek. intros E. apply bind_ok_inv in E as ([[[cur ps] d] ex] & _ & E). destruct ex; [by apply limit_same in E|].
  apply bind_ok_inv in E as (ps' & _ & E). by apply limit_same in E.
Qed.

Lemma advance_same h it near far it' b : advance h it near far = Ok (it', b) -> same_iter it it'.
Proof.
  unfold advance. intros E. apply bind_ok_inv in E as (n & _ & E). destruct (far n).
  - apply bind_ok_inv in E as (ps & _ & E). apply bind_ok_inv in E as ([nd ps'] & _ & E). by apply limit_same in E.
  - apply bind_ok_inv in E as ([p ps] & _ & E). apply bind_ok_inv in E as ([nd ps'] & _ & E). by apply limit_same in E.
Qed.

Section TreapLaws.
Implicit Types it : Iterator parentStack.

(** An iterator with both ends of its range over a tree in the heap. *)
Record treap_range (h : nheap) it (t : ltree) (start limit : list Z) : Prop := {
  tr_rep : rep h t;
  tr_locs : NoDup (locs t);
  tr_sorted : keys_sorted (inorder t);
  tr_root : iter_root it = lroot t;
  tr_seek : iter_seekKey it = None;
  tr_start : iter_startKey it = Some start;
  tr_limit : iter_limitKey it = Some limit;
}.

Definition pairs_in (t : ltree) (start limit : list Z) : list kv := ranged true (Some start) (Some limit) (inorder t).
Definition treap_over (h : nheap) it (l : list kv) : Prop := exists t start limit, treap_range h it t start limit /\ l = pairs_in t start limit.
Definition treap_at (s : bool) (h : nheap) it (l r : list kv) : Prop :=
  exists t start limit, treap_range h it t start limit /\ l = pairs_in t start limit /\ (length r <= size h)%nat /\ iter_isNew it = false /\
    match r with
    | [] => iter_node it = None
    | _ => exists path n, iter_on it path n /\ plug path n = t /\ take_while (in_range (Some start) (Some limit)) (pos_list s path n) = r
    end.

Lemma range_same h it it' t start limit : treap_range h it t start limit -> same_iter it it' -> treap_range h it' t start limit.
Proof. intros [] (E1 & E2 & E3 & E4 & E5). split; congruence. Qed.

Lemma range_new h it t start limit b : treap_range h it t start limit -> treap_range h (set_isNew it b) t start limit.
Proof. intros []. by split. Qed.

Lemma inorder_size h t : rep h t -> NoDup (locs t) -> (length (inorder t) <= size h)%nat.
Proof. intros Hr Hn. etrans; [|by apply rep_size]. clear. induction t as [|l IHl a d r IHr]; simpl; [done|]. rewrite !length_app. simpl. lia. Qed.

Lemma pairs_size h t start limit : rep h t -> NoDup (locs t) -> (length (pairs_in t start limit) <= size h)%nat.
Proof. intros Hr Hn. etrans; [|by apply (inorder_size h t)]. unfold pairs_in, ranged. apply length_filter. Qed.

(** Where an operation lands. *)
Lemma lands_at s h t it start limit L it' b : treap_range h it t start limit -> iter_isNew it = false -> lands t s it L (it', b) -> same_iter it it' ->
  (length (take_while (in_range (Some start) (Some limit)) L) <= size h)%nat ->
  b = bool_decide (take_while (in_range (Some start) (Some limit)) L <> []) /\ treap_at s h it' (pairs_in t start limit) (take_while (in_range (Some start) (Some limit)) L).
Proof.
  intros Hr Hnew [_ Hl] Hsame Hlen. simpl in Hl. assert (iter_range it = in_range (Some start) (Some limit)) as E by (unfold iter_range; by rewrite (tr_start _ _ _ _ _ Hr), (tr_limit _ _ _ _ _ Hr)).
  rewrite E in Hl. assert (iter_isNew it' = false) as Hnew' by (destruct Hsame as (_ & -> & _); done). apply (range_same _ _ _ _ _ _ Hr) in Hsame.
  destruct L as [|x L]; cbn [take_while] in *; [destruct Hl as [-> Hl]; split; [done|]; by exists t, start, limit|].
  destruct (in_range (Some start) (Some limit) x) eqn:Ex; [|destruct Hl as [-> Hl]; split; [done|]; by exists t, start, limit].
  destruct Hl as (-> & path & n & Hon & Hp & Hpos). split; [done|]. exists t, start, limit. split_and!; try done. exists path, n. split_and!; try done. rewrite Hpos. cbn [take_while]. by rewrite Ex.
Qed.

Definition treap_start (s : bool) (h : nheap) it : outcome (Iterator parentStack * bool) := if s then iter_First h it else iter_Last h it.

Lemma treap_start_ok s h it l : treap_over h it l -> exists it', treap_start s h it = Ok (it', bool_decide (l <> [])) /\ treap_at s h it' l (turned s l).
Proof.
  intros (t & start & limit & Hr & ->). apply (range_new _ _ _ _ _ false) in Hr as Hr'. pose proof Hr' as [R N S Ro Sk St Li].
  assert (treap_start s h it = seek h (set_isNew it false) (if s then start else limit) s s) as ->.
  { unfold treap_start, iter_First, iter_Last. rewrite St, Li. by destruct s. }
  destruct (seek_lands h t s s (if s then start else limit) (set_isNew it false) R N S Ro eq_refl Sk) as ([it' b] & E & Hl). rewrite E.
  assert (take_while (in_range (Some start) (Some limit)) (filter (fun x => acc s s (if s then start else limit) x = true) (order s t)) = turned s (pairs_in t start limit)) as Htw.
  { pose proof (take_while_range s (Some start) (Some limit) (inorder t) S ltac:(by destruct s)) as Htw. unfold pairs_in, ranged in *. destruct s; simpl in *; [done|]. by rewrite Htw, filter_reverse. }
  destruct (lands_at s h t _ start limit _ it' b Hr' eq_refl Hl (seek_same _ _ _ _ _ _ _ E)) as [-> Hat]; [|].
  - rewrite Htw. destruct s; simpl; rewrite ?length_reverse; by apply pairs_size.
  - rewrite Htw in *. exists it'. rewrite turned_nonempty. done.
Qed.

Lemma ge_start_trans start k x : ge_start (Some start) k = true -> ge_start (Some k) x = true -> ge_start (Some start) x = true.
Proof.
  intros Hs Hk. destruct (bytes_compare k x) eqn:E; [apply bytes_compare_eq in E; by subst|by eapply ge_start_mono|].
  apply bytes_compare_gt in E. unfold ge_start in Hk. by rewrite E in Hk.
Qed.

Lemma take_while_from start limit k l : keys_sorted l -> ge_start (Some start) k = true ->
  take_while (in_range (Some start) (Some limit)) (filter (fun x => acc true true k x = true) l) = filter (at_least k) (ranged true (Some start) (Some limit) l).
Proof.
  intros Hs Hk. apply keys_sorted_pairs in Hs. unfold ranged, at_least. rewrite filter_swap.
  assert (forall x : kv, acc true true k x = true -> in_range (Some start) (Some limit) x = lt_limit (Some limit) x.1) as Hin.
  { intros x Hx. rewrite acc_start in Hx. unfold in_range. by rewrite (ge_start_trans start k x.1 Hk Hx). }
  induction Hs as [|x l Hs IH Hx]; [done|]. destruct (decide (acc true true k x = true)) as [Ea|Ea]; [|by rewrite !filter_cons_False by done].
  rewrite !(filter_cons_True (fun x => acc true true k x = true) x l Ea). cbn [take_while]. rewrite (Hin x Ea). destruct (lt_limit (Some limit) x.1) eqn:El.
  - rewrite filter_cons_True by (by rewrite (Hin x Ea)). by rewrite IH.
  - rewrite filter_cons_False by (rewrite (Hin x Ea); congruence). symmetry. apply filter_none. apply Forall_forall. intros y [Hr Hl]%list_elem_of_filter Hy. rewrite Forall_forall in Hx.
    rewrite (Hin y Hr) in Hy. pose proof (lt_limit_mono (Some limit) x.1 y.1 (Hx y Hl) Hy). congruence.
Qed.

Lemma treap_seek_ok h it l k : treap_over h it l -> ge_start (iter_startKey it) k = true ->
  exists it' r, r = filter (at_least k) l /\ iter_Seek h it k = Ok (it', bool_decide (r <> [])) /\ treap_at true h it' l r.
Proof.
  intros (t & start & limit & Hr & ->) Hk. apply (range_new _ _ _ _ _ false) in Hr as Hr'. pose proof Hr' as [R N S Ro Sk St Li]. simpl in St. rewrite St in Hk. unfold iter_Seek.
  destruct (seek_lands h t true true k (set_isNew it false) R N S Ro eq_refl Sk) as ([it' b] & E & Hl). rewrite E. simpl order in Hl.
  assert (take_while (in_range (Some start) (Some limit)) (filter (fun x => acc true true k x = true) (inorder t)) = filter (at_least k) (pairs_in t start limit)) as Htw.
  { by apply take_while_from. }
  pose proof (lands_at true h t _ start limit _ it' b Hr' eq_refl Hl (seek_same _ _ _ _ _ _ _ E)) as Hat. rewrite Htw in Hat.
  destruct Hat as [-> Hat]; [|by exists it', (filter (at_least k) (pairs_in t start limit))]. etrans; [apply length_filter|by apply pairs_size].
Qed.

Lemma pos_bound s h t path n start limit : rep h t -> NoDup (locs t) -> plug path n = t -> (length (take_while (in_range (Some start) (Some limit)) (tail (pos_list s path n))) <= size h)%nat.
Proof.
  intros Hr Hn Hp. etrans; [|by apply (inorder_size h t)]. rewrite <- Hp, inorder_plug, !length_app. assert (forall (p : kv -> bool) l, (length (take_while p l) <= length l)%nat) as Htw.
  { intros p l. induction l as [|x l IH]; simpl; [done|]. destruct (p x); simpl; lia. }
  etrans; [apply Htw|]. destruct n as [|l a d r]; simpl; [lia|]. rewrite !length_app. simpl. destruct s; simpl; rewrite ?length_reverse; lia.
Qed.

Lemma treap_step_ok s h it l x r : treap_at s h it l (x :: r) -> exists it', nav s h it = Ok (it', bool_decide (r <> [])) /\ treap_at s h it' l r.
Proof.
  intros (t & start & limit & Hr & -> & Hlen & Hnew & path & n & Hon & Hp & Htw). rewrite (nav_on s h it path n Hon). pose proof Hr as [R N S Ro Sk St Li].
  destruct (advance_lands h t s it path n R N Hon Hp) as ([it' b] & E & Hl). rewrite E.
  destruct (lands_at s h t it start limit _ it' b Hr Hnew Hl (advance_same _ _ _ _ _ _ E)) as [-> Hat]; [by eapply pos_bound|].
  assert (take_while (in_range (Some start) (Some limit)) (tail (pos_list s path n)) = r) as Hr'.
  { destruct (pos_list s path n) as [|y L]; [done|]. cbn [take_while tail] in *. destruct (in_range (Some start) (Some limit) y); [by injection Htw|done]. }
  rewrite Hr' in *. by exists it'.
Qed.

Lemma treap_reads s h it l r : treap_at s h it l r -> iter_Valid it = bool_decide (r <> []) /\ match r with x :: _ => iter_Key h it = Ok (Some x.1) /\ iter_Value h it = Ok (Some x.2) | [] => True end.
Proof.
  intros (t & start & limit & Hr & -> & Hlen & Hnew & Hpos). destruct r as [|x r]; [unfold iter_Valid; by rewrite Hpos|]. destruct Hpos as (path & n & (Hnode & _ & Hn & _) & Hp & Htw).
  destruct n as [|nl a d nr]; [done|]. simpl in Hnode. cbn [pos_list take_while] in Htw. destruct (in_range _ _ _); [|done]. injection Htw as <- _.
  pose proof (tr_rep _ _ _ _ _ Hr) as R. rewrite <- Hp in R. apply rep_plug in R as [_ (Ha & _)].
  unfold iter_Valid, iter_Key, iter_Value. rewrite Hnode. simpl. by rewrite Ha.
Qed.

Lemma treap_at_over s h it l r : treap_at s h it l r -> treap_over h it l /\ (length r <= size h)%nat.
Proof. intros (t & start & limit & Hr & -> & Hlen & _). split; [by exists t, start, limit|done]. Qed.

Lemma treap_over_sorted h it l : treap_over h it l -> keys_sorted l /\ (length l <= size h)%nat.
Proof.
  intros (t & start & limit & [R N S _ _ _ _] & ->). split; [|by apply pairs_size]. apply sorted_keys. unfold pairs_in, ranged. apply filter_sorted. by apply (sorted_turned true).
Qed.
End TreapLaws.

Global Instance imm_iter_laws : KvIterLaws (nheap * Immutable) (Iterator parentStack).
Proof.
  refine {| ki_over st it l := treap_over st.1 it l; ki_at s st it l r := treap_at s st.1 it l r; ki_from it k := ge_start (iter_startKey it) k = true |}; intros.
  - match goal with H : treap_at _ _ _ _ _ |- _ => exact (proj1 (treap_at_over _ _ _ _ _ H)) end.
  - by eapply treap_over_sorted.
  - by apply treap_start_ok.
  - by apply treap_seek_ok.
  - by eapply treap_step_ok.
  - match goal with H : treap_at _ _ _ _ _ |- _ => exact (proj1 (treap_reads _ _ _ _ _ H)) end.
  - match goal with H : treap_at _ _ _ _ _ |- _ => exact (proj2 (treap_reads _ _ _ _ _ H)) end.
  - match goal with H : treap_at _ _ _ _ _ |- _ => exact (proj2 (treap_at_over _ _ _ _ _ H)) end.
Defined.
Global Instance mut_iter_laws : KvIterLaws (nheap * Mutable) (Iterator parentStack).
Proof.
  refine {| ki_over st it l := treap_over st.1 it l; ki_at s st it l r := treap_at s st.1 it l r; ki_from it k := ge_start (iter_startKey it) k = true |}; intros.
  - match goal with H : treap_at _ _ _ _ _ |- _ => exact (proj1 (treap_at_over _ _ _ _ _ H)) end.
  - by eapply treap_over_sorted.
  - by apply treap_start_ok.
  - by apply treap_seek_ok.
  - by eapply treap_step_ok.
  - match goal with H : treap_at _ _ _ _ _ |- _ => exact (proj1 (treap_reads _ _ _ _ _ H)) end.
  - match goal with H : treap_at _ _ _ _ _ |- _ => exact (proj2 (treap_reads _ _ _ _ _ H)) end.
  - match goal with H : treap_at _ _ _ _ _ |- _ => exact (proj2 (treap_at_over _ _ _ _ _ H)) end.
Defined.

(** ** New iterators *)

(** [ri_NewIterator]: an iterator over the keys at or after the first and before the second. *)
Class RangeIter (St It : Type) := { ri_NewIterator : St -> option (list Z) -> option (list Z) -> It }.

Class RangeIterLaws (St It : Type) `{KvIterLaws St It, !RangeIter St It} (abs : St -> gmap (list Z) (list Z) -> Prop) := {
  ri_ok st m start limit : abs st m -> exists l, sorted_pairs l m /\ ki_over st (ri_NewIterator st (Some start) (Some limit)) (ranged true (Some start) (Some limit) l);
  ri_from st start limit k : ge_start (Some start) k = true -> ki_from (ri_NewIterator st (Some start) (Some limit)) k;
}.

Global Instance imm_range : RangeIter (nheap * Immutable) (Iterator parentStack) := { ri_NewIterator st start limit := i_Iterator st.2 start limit }.
Global Instance mut_range : RangeIter (nheap * Mutable) (Iterator parentStack) := { ri_NewIterator st start limit := m_Iterator st.2 start limit }.

Global Instance imm_range_laws : RangeIterLaws (nheap * Immutable) (Iterator parentStack) os_abs.
Proof.
  split; [|done]. intros [h x] m start limit (t & Hok & <-). pose proof Hok as (Hroot & R & N & S & _). exists (inorder t). split; [done|]. by exists t, start, limit.
Qed.
Global Instance mut_range_laws : RangeIterLaws (nheap * Mutable) (Iterator parentStack) os_abs.
Proof.
  split; [|done]. intros [h x] m start limit (t & Hok & <-). pose proof Hok as (Hroot & R & N & S & _). exists (inorder t). split; [done|]. by exists t, start, limit.
Qed.

(** ** Iterators in memory: the laws can hold *)

(** The pairs, and the place of the current one. *)
Definition mem_iter : Type := list kv * option nat.
Definition mem_at (it : mem_iter) : option kv := match it.2 with Some i => it.1 !! i | None => None end.
Definition mem_move (it : mem_iter) (i : option nat) : outcome (mem_iter * bool) :=
  match i with
  | Some i => if decide (i < length it.1)%nat then Ok ((it.1, Some i), true) else Ok ((it.1, None), false)
  | None => Ok ((it.1, None), false)
  end.
Definition mem_Next (it : mem_iter) : option nat := match it.2 with Some i => Some (S i) | None => None end.
Definition mem_Prev (it : mem_iter) : option nat := match it.2 with Some (S i) => Some i | _ => None end.

Global Instance mem_kv_iter {St : Type} : KvIter St mem_iter := {
  ki_First st it := mem_move it (Some 0%nat); ki_Last st it := mem_move it (Some (length it.1 - 1)%nat); ki_Next st it := mem_move it (mem_Next it); ki_Prev st it := mem_move it (mem_Prev it);
  ki_Seek st it k := mem_move it (fst <$> list_find (at_least k) it.1); ki_Valid it := bool_decide (is_Some it.2);
  ki_Key st it := Ok (fst <$> mem_at it); ki_Value st it := Ok (snd <$> mem_at it); ki_bound st it := length it.1;
}.

(** What is left from a place, in a direction. *)
Definition mem_left (s : bool) (l : list kv) (i : option nat) : list kv :=
  match i with None => [] | Some i => if s then drop i l else reverse (take (S i) l) end.
Definition mem_place (s : bool) (it : mem_iter) (l r : list kv) : Prop :=
  it.1 = l /\ keys_sorted l /\ r = mem_left s l it.2 /\ match it.2 with Some i => (i < length l)%nat | None => True end.

Lemma take_snoc (l : list kv) i x : l !! i = Some x -> reverse (take (S i) l) = x :: reverse (take i l).
Proof. intros E. by rewrite (take_S_r l i x E), reverse_app. Qed.

Lemma mem_left_cons s l i x r : (i < length l)%nat -> mem_left s l (Some i) = x :: r ->
  l !! i = Some x /\ r = mem_left s l (if s then (if decide (S i < length l)%nat then Some (S i) else None) else match i with S j => Some j | O => None end).
Proof.
  intros Hi. destruct (lookup_lt_is_Some_2 l i Hi) as [y Ey]. unfold mem_left. destruct s.
  - rewrite (drop_S l y i Ey). intros [= <- <-]. split; [done|]. case_decide; [done|]. apply drop_ge. lia.
  - rewrite (take_snoc l i y Ey). intros [= <- <-]. split; [done|]. by destruct i.
Qed.

Lemma mem_left_nonempty s l i : (i < length l)%nat -> bool_decide (mem_left s l (Some i) <> []) = true.
Proof.
  intros Hi. destruct (lookup_lt_is_Some_2 l i Hi) as [y Ey]. apply bool_decide_true. unfold mem_left. destruct s; [by rewrite (drop_S l y i Ey)|by rewrite (take_snoc l i y Ey)].
Qed.

Lemma mem_move_ok {St : Type} (st : St) s it l i : it.1 = l -> keys_sorted l -> let i' := match i with Some i => if decide (i < length l)%nat then Some i else None | None => None end in
  mem_move it i = Ok ((l, i'), bool_decide (mem_left s l i' <> [])) /\ mem_place s (l, i') l (mem_left s l i').
Proof.
  intros El Hs. unfold mem_move. rewrite El. destruct i as [i|]; simpl; [case_decide as Hi|]; (split; [|by split_and!]); try done. by rewrite (mem_left_nonempty s l i Hi).
Qed.

Lemma find_at_least k l : keys_sorted l ->
  mem_left true l (match fst <$> list_find (at_least k) l with Some i => if decide (i < length l)%nat then Some i else None | None => None end) = filter (at_least k) l.
Proof.
  intros Hs. apply keys_sorted_pairs in Hs. destruct (list_find (at_least k) l) as [[i x]|] eqn:E; simpl.
  - apply list_find_Some in E as (Ex & Hx & Hmin). pose proof (lookup_lt_Some _ _ _ Ex). rewrite decide_True by done. simpl. revert i Ex Hmin H. induction Hs as [|y l Hs IH Hy]; intros i Ex Hmin Hi; [done|].
    destruct i as [|i]; simpl in *.
    + injection Ex as ->. symmetry. apply filter_all. constructor; [done|]. eapply Forall_impl; [exact Hy|]. intros z Hz. unfold at_least in *. rewrite acc_start in *. by eapply ge_start_mono.
    + rewrite filter_cons_False by (by apply (Hmin 0%nat y); [done|lia]). apply IH; [done| |lia]. intros j z Ez Hj. apply (Hmin (S j)); [done|lia].
  - apply list_find_None in E. symmetry. by apply filter_none.
Qed.

Global Instance mem_iter_laws {St : Type} : KvIterLaws St mem_iter.
Proof.
  refine {| ki_over st it l := it.1 = l /\ keys_sorted l; ki_at s st it l r := mem_place s it l r; ki_from it k := True |}.
  - intros s st it l r (? & ? & _). done.
  - intros st it l [<- ?]. split; [done|]. simpl. lia.
  - intros s st it l [El Hs]. set (i := if s then 0%nat else (length l - 1)%nat). destruct (mem_move_ok st s it l (Some i) El Hs) as [E Hp].
    exists (l, if decide (i < length l)%nat then Some i else None). assert (mem_left s l (if decide (i < length l)%nat then Some i else None) = turned s l) as Hd.
    { subst i. destruct l as [|x l], s; simpl in *; rewrite ?decide_True by lia; try done. simpl. by rewrite Nat.sub_0_r, firstn_all. }
    rewrite Hd in *. rewrite turned_nonempty in E. split; [|exact Hp]. rewrite <- E. unfold ki_start. simpl. rewrite El. by destruct s.
  - intros st it l k [El Hs] _. destruct (mem_move_ok st true it l (fst <$> list_find (at_least k) l) El Hs) as [E Hp]. rewrite (find_at_least k l Hs) in E, Hp.
    eexists _, _. split; [done|]. split; [|exact Hp]. simpl. by rewrite El.
  - intros s st [l0 [i|]] l x r (El & Hs & Hr & Hi); [|done]. simpl in *. subst l0. destruct (mem_left_cons s l i x r Hi (eq_sym Hr)) as [Ex ->].
    destruct (mem_move_ok st s (l, Some i) l (if s then Some (S i) else match i with S j => Some j | O => None end) eq_refl Hs) as [E Hp].
    destruct s; unfold ki_step; simpl in *; [by eauto|]. unfold mem_Prev. simpl. destruct i as [|j]; [by eauto|]. destruct (decide (j < length l)%nat); [by eauto|lia].
  - intros s st [l0 [i|]] l r (El & Hs & -> & Hi); [|done]. symmetry. by apply (mem_left_nonempty s l i).
  - intros s st [l0 [i|]] l x r (El & Hs & Hr & Hi); [|done]. simpl in *. subst l0. destruct (mem_left_cons s l i x r Hi (eq_sym Hr)) as [Ex _]. unfold mem_at. simpl. by rewrite Ex.
  - intros s st [l0 [i|]] l r (El & Hs & -> & Hi); simpl in *; [|lia]. subst l0. destruct s; rewrite ?length_reverse, ?length_drop, ?length_take; lia.
Defined.

(** The pairs of a map in the order of their keys. *)
Definition map_pairs (m : gmap (list Z) (list Z)) : list kv := merge_sort (key_le true) (map_to_list m).

Global Instance key_le_total : Total (key_le true).
Proof. intros x y. unfold key_le. rewrite (bytes_compare_antisym x.1 y.1). destruct (bytes_compare x.1 y.1); simpl; auto. Qed.
Global Instance key_le_trans : Transitive (key_le true).
Proof.
  intros x y z Hxy Hyz. destruct (decide (x.1 = y.1)) as [E|E]; [unfold key_le in *; by rewrite E|]. destruct (decide (y.1 = z.1)) as [E'|E']; [unfold key_le in *; by rewrite <- E'|].
  apply key_le_lt in Hxy, Hyz; [|done..]. unfold key_le. by rewrite (key_lt_trans true x y z Hxy Hyz : bytes_compare x.1 z.1 = Lt).
Qed.

Lemma map_pairs_sorted m : sorted_pairs (map_pairs m) m.
Proof.
  unfold map_pairs. pose proof (merge_sort_Permutation (key_le true) (map_to_list m)) as Hp. split.
  - apply sorted_keys. pose proof (StronglySorted_merge_sort (key_le true) (map_to_list m)) as Hs. assert (NoDup (merge_sort (key_le true) (map_to_list m)).*1) as Hn by (rewrite Hp; apply NoDup_fst_map_to_list).
    revert Hs Hn. generalize (merge_sort (key_le true) (map_to_list m)). induction 1 as [|x l Hs IH Hx]; simpl; [constructor|]. intros [Hnx Hn]%NoDup_cons. constructor; [by apply IH|].
    rewrite Forall_forall in Hx |- *. intros y Hy. apply key_le_lt; [|by apply Hx]. intros E. apply Hnx. rewrite E. by apply list_elem_of_fmap_2.
  - rewrite <- (list_to_map_to_list m) at 2. apply list_to_map_proper; [rewrite Hp; apply NoDup_fst_map_to_list|done].
Qed.

Global Instance mem_range : RangeIter (gmap (list Z) (list Z)) mem_iter := { ri_NewIterator m start limit := (ranged true start limit (map_pairs m), None) }.
Global Instance mem_range_laws : RangeIterLaws (gmap (list Z) (list Z)) mem_iter (fun s m => s = m).
Proof.
  split; [|done]. intros st m start limit <-. exists (map_pairs st). pose proof (map_pairs_sorted st) as [Hs Hl]. split; [done|]. split; [done|].
  apply sorted_keys. unfold ranged. apply filter_sorted. by apply (sorted_turned true).
Qed.
