(* ===== verification/DbCursor.v ===== *)
(** * Cursors and buckets

    Models [dbCacheIterator] and [NewIterator] of [btcd/database/ffldb/dbcache.go], the
    iterators of [ldbtreapiter.go], and of db.go the cursors over the keys of a bucket or
    over the buckets nested in it, and the calls on buckets that read and write through
    them.  A cursor merges the pending keys of its transaction with its snapshot, which
    merges the cached keys with leveldb: [layered] of KvIters, twice.

    The iterators of leveldb are not part of the repository, nor is [util.BytesPrefix]:
    they are classes, with the documented behaviour as their laws.  The cursors of
    [bucket.Cursor], over leveldb's merged iterators, are not modelled. *)
From Stdlib Require Import ZArith Lia Ascii String.
From stdpp Require Import gmap list sorting.
From S2P Require Import Prelude TreapNode TreapTree TreapMutable TreapImmutable TreapStore TreapIter DbCache BlockFiles DbBlocks KvIters.

Open Scope Z_scope.

(** ** The iterator of a snapshot *)

Section CacheIterator.
Context {I Ii Snap Ldi : Type} `{OrderedStore I} `{KvIter I Ii} `{!RangeIter I Ii} `{KvIter Snap Ldi} `{!RangeIter Snap Ldi}.
Abbreviation snapshot := (dbCacheSnapshot I Snap).

(** Whether the cache has a later word on a key of leveldb. *)
Definition snapshot_updates (snap : snapshot) (key : list Z) : outcome bool :=
  removed ← os_has (snap_pendingRemove snap) key;
  if removed : bool then Ok true else os_has (snap_pendingKeys snap) key.

Global Instance dbCacheIterator : KvIter snapshot (layered Ldi Ii) := {
  ki_First snap it := layered_start (snapshot_updates snap) true (snap_dbSnapshot snap) (snap_pendingKeys snap) it;
  ki_Last snap it := layered_start (snapshot_updates snap) false (snap_dbSnapshot snap) (snap_pendingKeys snap) it;
  ki_Next snap it := layered_step (snapshot_updates snap) true (snap_dbSnapshot snap) (snap_pendingKeys snap) it;
  ki_Prev snap it := layered_step (snapshot_updates snap) false (snap_dbSnapshot snap) (snap_pendingKeys snap) it;
  ki_Seek snap it key := layered_Seek (snapshot_updates snap) (snap_dbSnapshot snap) (snap_pendingKeys snap) it key;
  ki_Valid it := layered_Valid it;
  ki_Key snap it := layered_Key (snap_dbSnapshot snap) (snap_pendingKeys snap) it;
  ki_Value snap it := layered_Value (snap_dbSnapshot snap) (snap_pendingKeys snap) it;
  ki_bound snap it := layered_bound (snap_dbSnapshot snap) (snap_pendingKeys snap) it;
}.

Definition newLdbCacheIter (snap : snapshot) (start limit : option (list Z)) : Ii := ri_NewIterator (snap_pendingKeys snap) start limit.
Definition snapshot_NewIterator (snap : snapshot) (start limit : option (list Z)) : layered Ldi Ii :=
  MkLayered (ri_NewIterator (snap_dbSnapshot snap) start limit) (newLdbCacheIter snap start limit) None.
Global Instance snapshot_range : RangeIter snapshot (layered Ldi Ii) := { ri_NewIterator := snapshot_NewIterator }.
End CacheIterator.

(** ** Iterators that a transaction keeps *)

(** A pointer to an iterator is a number: [tx_activeIters] pairs them with what they point to. *)
Section ActiveIters.
Context {M Mi : Type}.

Global Instance tagged_iters `{StoreIter M Mi} : StoreIter M (nat * Mi) := { si_reseek m x := it ← si_reseek m x.2; Ok (x.1, it) }.

Definition active_iter (i : nat) (l : list (nat * Mi)) : outcome Mi := match list_find (fun x => x.1 = i) l with Some (_, x) => Ok x.2 | None => Panic end.
Definition set_active (i : nat) (it : Mi) (l : list (nat * Mi)) : list (nat * Mi) := map (fun x => if decide (x.1 = i) then (i, it) else x) l.
Definition new_pointer (l : list (nat * Mi)) : nat := S (max_list (map fst l)).
(** The index moves on after a removal. *)
Fixpoint remove_active (i : nat) (l : list (nat * Mi)) : list (nat * Mi) :=
  match l with
  | [] => []
  | x :: l => if decide (x.1 = i) then match l with [] => [] | y :: l => y :: remove_active i l end else x :: remove_active i l
  end.
End ActiveIters.

Global Instance tagged_iters_laws {M Mi : Type} `{StoreIterLaws M Mi} : StoreIterLaws M (nat * Mi).
Proof.
  refine {| si_ok m x := si_ok m x.2 |}.
  - intros ? ? ? ? ? ?. apply si_put.
  - intros ? ? ? ?. apply si_delete.
  - intros m [i it] Hit. destruct (si_reseek_ok m it Hit) as (it' & E & ?). exists (i, it'). simpl. by rewrite E.
Defined.

(** ** Keys *)

Definition bucketIndexPrefix : list Z := Eval vm_compute in str "bidx".
Definition curBucketIDKeyName : list Z := Eval vm_compute in str "bidx-cbid".
Definition blockIdxBucketName : list Z := Eval vm_compute in str "ffldb-blockidx".
Definition bucketIndexKey (parentID key : list Z) : list Z := bucketIndexPrefix ++ parentID ++ key.
Definition has_prefix (p key : list Z) : bool := bool_decide (take (length p) key = p).
(** [key[n:]] *)
Definition key_from (key : list Z) (n : nat) : outcome (list Z) := if decide (n <= length key)%nat then Ok (drop n key) else Panic.
(** The bytes copied to an array of four. *)
Definition bucket_id (s : list Z) : list Z := let s := take 4 s in s ++ replicate (4 - length s) 0.
Definition be_Uint32 (b : list Z) : outcome Z := b ← slice_sub b 0 4; Ok (le_value (reverse b)).

(** [util.BytesPrefix]: the range of the keys with a prefix. *)
Class KeyPrefix := { BytesPrefix : list Z -> option (list Z) * option (list Z) }.

Inductive bucket_error := TxErr (e : tx_error) | BucketExists | BucketNameRequired | BucketNotFound | IncompatibleValue.
Inductive cursorType := ctKeys | ctBuckets.

Section Cursor.
Context {I Ii M Mi Ldi DB Snap Tx : Type}.
Context `{OrderedStore I} `{KvIter I Ii} `{!RangeIter I Ii} `{OrderedStore M} `{KvIter M Mi} `{!RangeIter M Mi} `{!StoreIter M Mi}.
Context `{LevelDB DB Snap Tx} `{KvIter Snap Ldi} `{!RangeIter Snap Ldi} `{KeyPrefix}.
Abbreviation tx_of := (btx I M (nat * Mi) Snap).
Abbreviation below := (layered Ldi Ii).

(** [cu_pendingIter] points to one of the active iterators of the transaction;
    [cu_currentIter] as in [layered]. *)
Record cursor := MkCursor { cu_bucket : list Z; cu_dbIter : below; cu_pendingIter : nat; cu_currentIter : option bool }.

Definition set_iters (tx : tx_of) (l : list (nat * Mi)) : tx_of :=
  let k := bt_keys tx in set_keys tx (MkTx (tx_writable k) (tx_snapshot k) (tx_pendingKeys k) (tx_pendingRemove k) l).
Definition addActiveIter (tx : tx_of) (i : nat) (it : Mi) : tx_of := set_iters tx (tx_activeIters (bt_keys tx) ++ [(i, it)]).
Definition removeActiveIter (tx : tx_of) (i : nat) : tx_of := set_iters tx (remove_active i (tx_activeIters (bt_keys tx))).
Definition newLdbTreapIter (tx : tx_of) (start limit : option (list Z)) : outcome (nat * tx_of) :=
  p ← treap (tx_pendingKeys (bt_keys tx));
  let i := new_pointer (tx_activeIters (bt_keys tx)) in
  Ok (i, addActiveIter tx i (ri_NewIterator p start limit)).

Definition newCursor (tx : tx_of) (b bucketID : list Z) (cursorTyp : cursorType) : outcome (cursor * tx_of) :=
  let prefix := match cursorTyp with ctKeys => bucketID | ctBuckets => bucketIndexPrefix ++ bucket_id bucketID end in
  let '(start, limit) := BytesPrefix prefix in
  '(i, tx) ← newLdbTreapIter tx start limit;
  Ok (MkCursor b (snapshot_NewIterator (tx_snapshot (bt_keys tx)) start limit) i None, tx).
Definition cursorFinalizer (tx : tx_of) (c : cursor) : tx_of := removeActiveIter tx (cu_pendingIter c).

(** *** Moving *)

(** Whether the transaction has a later word on a key of its snapshot. *)
Definition tx_updates (tx : tx_of) (key : list Z) : outcome bool :=
  r ← treap (tx_pendingRemove (bt_keys tx));
  removed ← os_has r key;
  if removed : bool then Ok true else p ← treap (tx_pendingKeys (bt_keys tx)); os_has p key.

(** The two iterators of a cursor. *)
Definition cursor_iters (tx : tx_of) (c : cursor) : outcome (M * layered below Mi) :=
  p ← treap (tx_pendingKeys (bt_keys tx));
  it ← active_iter (cu_pendingIter c) (tx_activeIters (bt_keys tx));
  Ok (p, MkLayered (cu_dbIter c) it (cu_currentIter c)).
Definition cursor_move (tx : tx_of) (c : cursor) (f : dbCacheSnapshot I Snap -> M -> layered below Mi -> outcome (layered below Mi * bool)) : outcome (bool * tx_of * cursor) :=
  '(p, it) ← cursor_iters tx c;
  '(it, ok) ← f (tx_snapshot (bt_keys tx)) p it;
  Ok (ok, set_iters tx (set_active (cu_pendingIter c) (ly_pending it) (tx_activeIters (bt_keys tx))),
      MkCursor (cu_bucket c) (ly_db it) (cu_pendingIter c) (ly_current it)).

Definition cursor_First (tx : tx_of) (c : cursor) : outcome (bool * tx_of * cursor) :=
  if bt_closed tx then Ok (false, tx, c) else cursor_move tx c (layered_start (tx_updates tx) true).
Definition cursor_Last (tx : tx_of) (c : cursor) : outcome (bool * tx_of * cursor) :=
  if bt_closed tx then Ok (false, tx, c) else cursor_move tx c (layered_start (tx_updates tx) false).
Definition cursor_Next (tx : tx_of) (c : cursor) : outcome (bool * tx_of * cursor) :=
  if bt_closed tx then Ok (false, tx, c)
  else match cu_currentIter c with None => Ok (false, tx, c) | Some _ => cursor_move tx c (layered_step (tx_updates tx) true) end.
Definition cursor_Prev (tx : tx_of) (c : cursor) : outcome (bool * tx_of * cursor) :=
  if bt_closed tx then Ok (false, tx, c)
  else match cu_currentIter c with None => Ok (false, tx, c) | Some _ => cursor_move tx c (layered_step (tx_updates tx) false) end.
Definition cursor_Seek (tx : tx_of) (c : cursor) (seek : list Z) : outcome (bool * tx_of * cursor) :=
  if bt_closed tx then Ok (false, tx, c)
  else let seekKey := bucketizedKey (cu_bucket c) seek in cursor_move tx c (fun a b it => layered_Seek (tx_updates tx) a b it seekKey).

(** *** Reading *)

Definition rawKey (tx : tx_of) (c : cursor) : outcome (option (list Z)) :=
  match cu_currentIter c with None => Ok None | Some _ => '(p, it) ← cursor_iters tx c; layered_Key (tx_snapshot (bt_keys tx)) p it end.
Definition rawValue (tx : tx_of) (c : cursor) : outcome (option (list Z)) :=
  match cu_currentIter c with None => Ok None | Some _ => '(p, it) ← cursor_iters tx c; layered_Value (tx_snapshot (bt_keys tx)) p it end.
Definition cursor_Key (tx : tx_of) (c : cursor) : outcome (option (list Z)) :=
  if bt_closed tx then Ok None
  else match cu_currentIter c with
  | None => Ok None
  | Some _ =>
      key ← rawKey tx c;
      let key := default [] key in
      key ← (if has_prefix bucketIndexPrefix key then key_from key (length bucketIndexPrefix + 4) else key_from key (length (cu_bucket c)));
      Ok (Some key)
  end.
Definition cursor_Value (tx : tx_of) (c : cursor) : outcome (option (list Z)) :=
  if bt_closed tx then Ok None
  else match cu_currentIter c with
  | None => Ok None
  | Some _ =>
      key ← rawKey tx c;
      if has_prefix bucketIndexPrefix (default [] key) then Ok None else value ← rawValue tx c; Ok (Some (default [] value))
  end.

Definition cursor_Delete (tx : tx_of) (c : cursor) (rnd : Z) : outcome (option bucket_error * tx_of) :=
  match checkClosed tx with
  | Some e => Ok (Some (TxErr e), tx)
  | None =>
      match cu_currentIter c with
      | None => Ok (Some IncompatibleValue, tx)
      | Some _ =>
          key ← rawKey tx c;
          let key := default [] key in
          if has_prefix bucketIndexPrefix key then Ok (Some IncompatibleValue, tx)
          else k ← tx_deleteKey (bt_keys tx) key true rnd; Ok (None, set_keys tx k)
      end
  end.

(** ** Walking over a bucket *)

Definition cursor_fuel (tx : tx_of) (c : cursor) : outcome nat :=
  '(p, it) ← cursor_iters tx c; Ok (S (layered_bound (tx_snapshot (bt_keys tx)) p it)).

(** [fn] has a state of its own, and does not write to the transaction, as the comment asks. *)
Section ForEach.
Context {St E : Type}.

Fixpoint each_loop (fuel : nat) (fn : St -> tx_of -> cursor -> outcome (St * option E)) (ok : bool) (tx : tx_of) (c : cursor) (st : St) : outcome (St * option E * tx_of * cursor) :=
  if negb ok then Ok (st, None, tx, c)
  else
    match fuel with
    | O => NoFuel
    | S fuel =>
        '(st, err) ← fn st tx c;
        match err with
        | Some err => Ok (st, Some err, tx, c)
        | None => '(ok, tx, c) ← cursor_Next tx c; each_loop fuel fn ok tx c st
        end
    end.

Definition walk (tx : tx_of) (b : list Z) (typ : cursorType) (fn : St -> tx_of -> cursor -> outcome (St * option E)) (st : St) : outcome (St * option (tx_error + E) * tx_of) :=
  match checkClosed tx with
  | Some e => Ok (st, Some (inl e), tx)
  | None =>
      '(c, tx) ← newCursor tx b b typ;
      fuel ← cursor_fuel tx c;
      '(ok, tx, c) ← cursor_First tx c;
      '(st, err, tx, c) ← each_loop fuel fn ok tx c st;
      Ok (st, match err with Some e => Some (inr e) | None => None end, cursorFinalizer tx c)
  end.

Definition ForEach (tx : tx_of) (b : list Z) (fn : St -> list Z -> option (list Z) -> St * option E) (st : St) : outcome (St * option (tx_error + E) * tx_of) :=
  walk tx b ctKeys (fun st tx c => k ← cursor_Key tx c; v ← cursor_Value tx c; Ok (fn st (default [] k) v)) st.
Definition ForEachBucket (tx : tx_of) (b : list Z) (fn : St -> list Z -> St * option E) (st : St) : outcome (St * option (tx_error + E) * tx_of) :=
  walk tx b ctBuckets (fun st tx c => k ← cursor_Key tx c; Ok (fn st (default [] k))) st.
End ForEach.

(** ** Nested buckets *)

Definition Bucket (tx : tx_of) (b key : list Z) : outcome (option (list Z)) :=
  if bt_closed tx then Ok None
  else childID ← tx_fetchKey (bt_keys tx) (bucketIndexKey b key); Ok (option_map bucket_id childID).

Definition nextBucketID (tx : tx_of) (rnd : Z) : outcome (list Z * tx_of) :=
  curIDBytes ← tx_fetchKey (bt_keys tx) curBucketIDKeyName;
  curBucketNum ← be_Uint32 (default [] curIDBytes);
  let next := be_bytes (u32 (curBucketNum + 1)) in
  k ← tx_putKey (bt_keys tx) curBucketIDKeyName (Some next) rnd;
  Ok (next, set_keys tx k).

Definition CreateBucket (tx : tx_of) (b key : list Z) (rnd1 rnd2 : Z) : outcome ((list Z + bucket_error) * tx_of) :=
  match checkClosed tx with
  | Some e => Ok (inr (TxErr e), tx)
  | None =>
      if negb (tx_writable (bt_keys tx)) then Ok (inr (TxErr (FileErr ErrTxNotWritable)), tx)
      else if decide (key = []) then Ok (inr BucketNameRequired, tx)
      else
        let bidxKey := bucketIndexKey b key in
        exists_ ← tx_hasKey (bt_keys tx) bidxKey;
        if exists_ : bool then Ok (inr BucketExists, tx)
        else
          '(childID, tx) ← (if decide (b = metadataBucketID /\ key = blockIdxBucketName) then Ok (blockIdxBucketID, tx) else nextBucketID tx rnd1);
          k ← tx_putKey (bt_keys tx) bidxKey (Some childID) rnd2;
          Ok (inl childID, set_keys tx k)
  end.
Definition CreateBucketIfNotExists (tx : tx_of) (b key : list Z) (rnd1 rnd2 : Z) : outcome ((list Z + bucket_error) * tx_of) :=
  match checkClosed tx with
  | Some e => Ok (inr (TxErr e), tx)
  | None =>
      if negb (tx_writable (bt_keys tx)) then Ok (inr (TxErr (FileErr ErrTxNotWritable)), tx)
      else
        id ← Bucket tx b key;
        match id with Some id => Ok (inl id, tx) | None => CreateBucket tx b key rnd1 rnd2 end
  end.

(** *** Deleting *)

(** The keys of a bucket, then the index of the buckets in it: the priorities of the nodes that are put are drawn in turn. *)
Fixpoint delete_keys (fuel : nat) (draw : nat -> Z) (n : nat) (ok : bool) (tx : tx_of) (c : cursor) : outcome (nat * tx_of * cursor) :=
  if negb ok then Ok (n, tx, c)
  else
    match fuel with
    | O => NoFuel
    | S fuel =>
        key ← rawKey tx c;
        k ← tx_deleteKey (bt_keys tx) (default [] key) false (draw n);
        '(ok, tx, c) ← cursor_Next (set_keys tx k) c;
        delete_keys fuel draw (S n) ok tx c
    end.
Fixpoint delete_buckets (fuel : nat) (draw : nat -> Z) (n : nat) (ok : bool) (tx : tx_of) (c : cursor) (childIDs : list (list Z)) : outcome (nat * tx_of * cursor * list (list Z)) :=
  if negb ok then Ok (n, tx, c, childIDs)
  else
    match fuel with
    | O => NoFuel
    | S fuel =>
        childID ← rawValue tx c;
        key ← rawKey tx c;
        k ← tx_deleteKey (bt_keys tx) (default [] key) false (draw n);
        '(ok, tx, c) ← cursor_Next (set_keys tx k) c;
        delete_buckets fuel draw (S n) ok tx c (default [] childID :: childIDs)
    end.
(** [childIDs] is a stack, with its top first. *)
Fixpoint delete_nested (fuel : nat) (draw : nat -> Z) (n : nat) (tx : tx_of) (b : list Z) (childIDs : list (list Z)) : outcome (nat * tx_of) :=
  match childIDs with
  | [] => Ok (n, tx)
  | childID :: childIDs =>
      match fuel with
      | O => NoFuel
      | S fuel' =>
          '(c, tx) ← newCursor tx b childID ctKeys;
          '(ok, tx, c) ← cursor_First tx c;
          '(n, tx, c) ← delete_keys fuel draw n ok tx c;
          let tx := cursorFinalizer tx c in
          '(c, tx) ← newCursor tx b childID ctBuckets;
          '(ok, tx, c) ← cursor_First tx c;
          '(n, tx, c, childIDs) ← delete_buckets fuel draw n ok tx c childIDs;
          delete_nested fuel' draw n (cursorFinalizer tx c) b childIDs
      end
  end.
Definition DeleteBucket (fuel : nat) (draw : nat -> Z) (tx : tx_of) (b key : list Z) : outcome (option bucket_error * tx_of) :=
  match checkClosed tx with
  | Some e => Ok (Some (TxErr e), tx)
  | None =>
      if negb (tx_writable (bt_keys tx)) then Ok (Some (TxErr (FileErr ErrTxNotWritable)), tx)
      else
        let bidxKey := bucketIndexKey b key in
        childID ← tx_fetchKey (bt_keys tx) bidxKey;
        match childID with
        | None => Ok (Some BucketNotFound, tx)
        | Some childID =>
            '(n, tx) ← delete_nested fuel draw 0 tx b [childID];
            k ← tx_deleteKey (bt_keys tx) bidxKey true (draw n);
            Ok (None, set_keys tx k)
        end
  end.
End Cursor.
Arguments cursor : clear implicits.

(** ** Layers of sorted pairs *)

Lemma sorted_pairs_elem (l : list kv) (m : bmap) k v : sorted_pairs l m -> (k, v) ∈ l <-> m !! k = Some v.
Proof. intros [Hs <-]. apply elem_of_list_to_map, keys_sorted_NoDup, Hs. Qed.

Lemma merge_filter (P : kv -> Prop) `{!forall x, Decision (P x)} l1 l2 : keys_sorted l1 -> keys_sorted l2 -> (forall x y, x ∈ l1 -> y ∈ l2 -> x.1 <> y.1) ->
  list_merge (key_le true) (filter P l1) (filter P l2) = filter P (list_merge (key_le true) l1 l2).
Proof.
  intros H1%(sorted_turned true) H2%(sorted_turned true) Hd. apply (sorted_unique true).
  - apply merge_sorted; [by apply filter_sorted..|]. intros x y [_ Hx]%list_elem_of_filter [_ Hy]%list_elem_of_filter. by apply Hd.
  - apply filter_sorted. by apply merge_sorted.
  - by rewrite !merge_Permutation, filter_app.
Qed.

Section LayerPairs.
Variable updated : list Z -> bool.
Variables K R D : bmap.
Variables lD lK : list kv.
Hypothesis HD : sorted_pairs lD D.
Hypothesis HK : sorted_pairs lK K.
Hypothesis Hdisj : K ##ₘ R.
Hypothesis updated_ok : forall k, updated k = bool_decide (is_Some (R !! k)) || bool_decide (is_Some (K !! k)).

Lemma pending_updated : all_updated updated lK.
Proof.
  apply Forall_forall. intros [k v] Hx. apply (sorted_pairs_elem lK K k v HK) in Hx. simpl. rewrite updated_ok, (bool_decide_true (is_Some (K !! k))) by done. apply orb_true_r.
Qed.

Lemma old_sorted : keys_sorted (old updated lD).
Proof. apply sorted_keys, filter_sorted, (sorted_turned true), HD. Qed.

Lemma merged_elem k v : (k, v) ∈ merged updated lD lK <-> layer K R D !! k = Some v.
Proof.
  unfold merged. rewrite merge_Permutation, elem_of_app. unfold old. rewrite list_elem_of_filter, (sorted_pairs_elem lD D k v HD), (sorted_pairs_elem lK K k v HK), lookup_layer.
  unfold unchanged. simpl. rewrite updated_ok. pose proof (proj1 (map_disjoint_alt K R) Hdisj k) as Hk.
  destruct (R !! k) as [r|] eqn:ER, (K !! k) as [w|] eqn:EK; simpl; naive_solver.
Qed.

Lemma merged_pairs : sorted_pairs (merged updated lD lK) (layer K R D).
Proof.
  assert (keys_sorted (merged updated lD lK)) as Hs by (apply merged_sorted; [apply HD|apply HK|apply pending_updated]). split; [done|].
  apply map_eq. intros k. apply option_eq. intros v. rewrite <- merged_elem. symmetry. apply elem_of_list_to_map, keys_sorted_NoDup, Hs.
Qed.

Lemma merged_ranged a b : merged updated (ranged true a b lD) (ranged true a b lK) = ranged true a b (merged updated lD lK).
Proof.
  unfold merged, ranged, old. rewrite filter_swap. apply merge_filter; [apply old_sorted|apply HK|]. intros x y. apply apart, pending_updated.
Qed.

Lemma ranged_updated a b : all_updated updated (ranged true a b lK).
Proof. apply Forall_forall. intros x [_ Hx]%list_elem_of_filter. pose proof pending_updated as Hu. unfold all_updated in Hu. rewrite Forall_forall in Hu. by apply Hu. Qed.
End LayerPairs.

(** ** The iterator of a snapshot keeps the promise *)

Section CacheIteratorLaws.
Context {I Ii DB Snap Tx Ldi : Type} `{OrderedStoreLaws I} `{KvIterLaws I Ii} `{!RangeIter I Ii} `{!RangeIterLaws I Ii os_abs}.
Context `{LevelDBLaws DB Snap Tx} `{KvIterLaws Snap Ldi} `{!RangeIter Snap Ldi} `{!RangeIterLaws Snap Ldi (fun s m => snap_view s = m)}.
Abbreviation snapshot := (dbCacheSnapshot I Snap).

Definition cache_over (snap : snapshot) (it : layered Ldi Ii) (l : list kv) : Prop :=
  exists updated, (forall k, snapshot_updates snap k = Ok (updated k)) /\ layered_over updated (snap_dbSnapshot snap) (snap_pendingKeys snap) it l.
Definition cache_at (s : bool) (snap : snapshot) (it : layered Ldi Ii) (l r : list kv) : Prop :=
  exists updated, (forall k, snapshot_updates snap k = Ok (updated k)) /\ layered_at updated s (snap_dbSnapshot snap) (snap_pendingKeys snap) it l r.

Global Instance dbCacheIterator_laws : KvIterLaws snapshot (layered Ldi Ii).
Proof.
  refine {| ki_over := cache_over; ki_at := cache_at; ki_from := layered_from |}.
  - intros s st it l r (u & Hu & Hat). exists u. split; [done|]. by eapply layered_at_over.
  - intros st it l (u & Hu & Ho). by eapply layered_over_sorted.
  - intros s st it l (u & Hu & Ho). destruct (layered_start_ok _ u Hu s _ _ _ _ Ho) as (it' & E & Hat). exists it'. split; [|by exists u]. unfold ki_start. simpl. rewrite <- E. by destruct s.
  - intros st it l k (u & Hu & Ho) Hf. destruct (layered_seek_ok _ u Hu _ _ _ _ k Ho Hf) as (it' & r & Hr & E & Hat). exists it', r. split_and!; [done..|by exists u].
  - intros s st it l x r (u & Hu & Ho). destruct (layered_step_ok _ u Hu s _ _ _ _ _ _ Ho) as (it' & E & Hat). exists it'. split; [|by exists u]. unfold ki_step. simpl. rewrite <- E. by destruct s.
  - intros s st it l r (u & Hu & Hat). by eapply layered_valid_ok.
  - intros s st it l x r (u & Hu & Hat). by eapply layered_reads_ok.
  - intros s st it l r (u & Hu & Hat). by eapply layered_bound_ok.
Defined.

Lemma snapshot_updates_ok (snap : snapshot) K R k : os_abs (snap_pendingKeys snap) K -> os_abs (snap_pendingRemove snap) R ->
  snapshot_updates snap k = Ok (bool_decide (is_Some (R !! k)) || bool_decide (is_Some (K !! k))).
Proof. intros HK HR. unfold snapshot_updates. rewrite (os_has_ok _ _ _ HR). simpl. destruct (bool_decide _); [done|]. by rewrite (os_has_ok _ _ _ HK). Qed.

Global Instance snapshot_range_laws : RangeIterLaws snapshot (layered Ldi Ii) snapshot_view.
Proof.
  split.
  - intros snap m start limit (K & R & HK & HR & Hd & ->). destruct (ri_ok (snap_dbSnapshot snap) _ start limit eq_refl) as (lD & SD & OD). destruct (ri_ok (snap_pendingKeys snap) K start limit HK) as (lK & SK & OK).
    pose proof (fun k => snapshot_updates_ok snap K R k HK HR) as Hu. eexists. split; [by apply (merged_pairs _ K R (snap_view (snap_dbSnapshot snap)) lD lK SD SK Hd (fun k => eq_refl))|].
    eexists. split; [exact Hu|]. eexists _, _. split_and!; [exact OD|exact OK|by eapply ranged_updated|]. symmetry. by eapply merged_ranged.
  - intros snap start limit k Hk. split; by apply ri_from.
Qed.
End CacheIteratorLaws.

(** ** Cursors keep the promise *)

(** The documented behaviour of [util.BytesPrefix]; a prefix of bytes 0xff only has no end. *)
Class KeyPrefixLaws `{KeyPrefix} := {
  BytesPrefix_ok p : bytes p -> Exists (fun b => b <> 255) p ->
    exists start limit, BytesPrefix p = (Some start, Some limit) /\ forall k v, bytes k -> in_range (Some start) (Some limit) (k, v) = has_prefix p k;
}.

Section PointerLemmas.
Context {Mi : Type}.
Implicit Types L : list (nat * Mi).

Lemma new_pointer_fresh L : new_pointer L ∉ L.*1.
Proof. unfold new_pointer. intros Hin. apply max_list_elem_of_le in Hin. change (map fst L) with (L.*1) in Hin. lia. Qed.

Lemma active_last i it L : i ∉ L.*1 -> active_iter i (L ++ [(i, it)]) = Ok it.
Proof.
  intros Hi. unfold active_iter. assert (list_find (fun x : nat * Mi => x.1 = i) (L ++ [(i, it)]) = Some (length L, (i, it))) as ->; [|done].
  apply list_find_Some. split_and!; [by rewrite lookup_app_r, Nat.sub_diag by lia|done|]. intros j y Ej Hj Ey. apply Hi. rewrite lookup_app_l in Ej by done. subst i. apply list_elem_of_lookup_2 in Ej. by apply list_elem_of_fmap_2.
Qed.

Lemma set_last i it it' L : i ∉ L.*1 -> set_active i it' (L ++ [(i, it)]) = L ++ [(i, it')].
Proof.
  intros Hi. unfold set_active. rewrite map_app. simpl. rewrite decide_True by done. f_equal. induction L as [|x L IH]; [done|]. simpl in *. apply not_elem_of_cons in Hi as [Hx Hi].
  rewrite decide_False by done. by rewrite IH.
Qed.

Lemma remove_last i it L : i ∉ L.*1 -> remove_active i (L ++ [(i, it)]) = L.
Proof.
  intros Hi. induction L as [|x L IH]; simpl in *; [by rewrite decide_True|]. apply not_elem_of_cons in Hi as [Hx Hi]. rewrite decide_False by done. by rewrite IH.
Qed.
End PointerLemmas.

(** *** Prefixes *)

Lemma has_prefix_true p k : has_prefix p k = true <-> exists k', k = p ++ k'.
Proof.
  unfold has_prefix. rewrite bool_decide_eq_true. split; [|intros [k' ->]; apply take_app_length].
  intros E. exists (drop (length p) k). rewrite <- E at 1. symmetry. apply take_drop.
Qed.
Lemma bytes_compare_prefix p a b : bytes_compare (p ++ a) (p ++ b) = bytes_compare a b.
Proof. induction p as [|x p IH]; simpl; [done|]. by rewrite Z.compare_refl. Qed.

(** The pairs whose keys have a prefix, without it. *)
Definition strip (p : list Z) (x : kv) : kv := (drop (length p) x.1, x.2).
Definition prefixed (p : list Z) (x : kv) : Prop := has_prefix p x.1 = true.
Global Instance prefixed_dec p x : Decision (prefixed p x).
Proof. unfold prefixed. apply _. Defined.
Definition bucket_pairs (p : list Z) (m : bmap) : list kv := strip p <$> filter (prefixed p) (map_pairs m).
Definition byte_keys (m : bmap) : Prop := map_Forall (fun k _ => bytes k) m.

Lemma bucket_pairs_elem p m k v : (k, v) ∈ bucket_pairs p m <-> m !! (p ++ k) = Some v.
Proof.
  unfold bucket_pairs. rewrite list_elem_of_fmap. setoid_rewrite list_elem_of_filter. split.
  - intros ([k' v'] & [= -> ->] & [k'' E]%has_prefix_true & Hin). simpl in *. subst k'. rewrite drop_app_length. by apply (sorted_pairs_elem _ _ _ _ (map_pairs_sorted m)).
  - intros E. exists (p ++ k, v). unfold strip. simpl. rewrite drop_app_length. split_and!; [done|by apply has_prefix_true; exists k|]. by apply (sorted_pairs_elem _ _ _ _ (map_pairs_sorted m)).
Qed.
Lemma bucket_pairs_sorted p m : keys_sorted (bucket_pairs p m).
Proof.
  apply sorted_keys. unfold bucket_pairs. pose proof (filter_sorted true (prefixed p) _ (sorted_turned true _ (proj1 (map_pairs_sorted m)))) as Hs. unfold sorted_dir in *. simpl turned in Hs.
  assert (Forall (prefixed p) (filter (prefixed p) (map_pairs m))) as Hp by (apply Forall_forall; by intros x [? _]%list_elem_of_filter).
  induction Hs as [|x l Hs IH Hx]; simpl; [constructor|]. apply Forall_cons in Hp as [Hpx Hp]. constructor; [by apply IH|]. rewrite Forall_fmap. rewrite Forall_forall in Hx, Hp |- *. intros y Hy.
  specialize (Hx y Hy). specialize (Hp y Hy). apply has_prefix_true in Hpx as [a Ea], Hp as [b Eb]. unfold key_lt, bytes_lt in *. simpl in *. rewrite Ea, Eb in *. rewrite !drop_app_length. by rewrite bytes_compare_prefix in Hx.
Qed.

(** The range of a prefix. *)
Lemma ranged_prefix p start limit m l : byte_keys m -> sorted_pairs l m -> (forall k v, bytes k -> in_range (Some start) (Some limit) (k, v) = has_prefix p k) ->
  ranged true (Some start) (Some limit) l = filter (prefixed p) (map_pairs m).
Proof.
  intros Hb Hs Hr. rewrite (sorted_pairs_eq _ _ m Hs (map_pairs_sorted m)). unfold ranged, prefixed. pose proof (map_pairs_sorted m) as Hs'.
  assert (Forall (fun x => bytes x.1) (map_pairs m)) as Hf by (apply Forall_forall; intros [k v] Hin; apply (sorted_pairs_elem _ _ _ _ Hs') in Hin; exact (Hb k v Hin)).
  clear Hs Hs'. induction Hf as [|[k v] l' Hx Hf IH]; [done|]. rewrite !filter_cons, (Hr k v Hx). simpl. by rewrite IH.
Qed.

(** The callback of a walk, until its first error. *)
Fixpoint fold_until {St E X} (g : St -> X -> St * option E) (st : St) (l : list X) : St * option E :=
  match l with
  | [] => (st, None)
  | x :: l => match g st x with (st, Some e) => (st, Some e) | (st, None) => fold_until g st l end
  end.

Lemma fold_until_map {St E X Y} (g : St -> Y -> St * option E) (f : X -> Y) l : forall st, fold_until g st (f <$> l) = fold_until (fun st x => g st (f x)) st l.
Proof. induction l as [|x l IH]; intros st; simpl; [done|]. destruct (g st (f x)) as [st' [e|]]; [done|apply IH]. Qed.

Section CursorProofs.
Context {I Ii M Mi Ldi DB Snap Tx : Type}.
Context `{OrderedStoreLaws I} `{KvIterLaws I Ii} `{!RangeIter I Ii} `{!RangeIterLaws I Ii os_abs}.
Context `{OrderedStoreLaws M} `{KvIterLaws M Mi} `{!RangeIter M Mi} `{!RangeIterLaws M Mi os_abs} `{!StoreIter M Mi}.
Context `{LevelDBLaws DB Snap Tx} `{KvIterLaws Snap Ldi} `{!RangeIter Snap Ldi} `{!RangeIterLaws Snap Ldi (fun s m => snap_view s = m)} `{KeyPrefixLaws}.
Abbreviation tx_of := (btx I M (nat * Mi) Snap).
Abbreviation below := (layered Ldi Ii).
Abbreviation cur := (cursor Ii Ldi).

(** The layers of an open transaction, whether it can write or not. *)
Definition tx_layers (tx : tx_of) (m : bmap) : Prop :=
  bt_closed tx = false /\
  exists base p r P R, snapshot_view (tx_snapshot (bt_keys tx)) base /\ tx_pendingKeys (bt_keys tx) = Some p /\ tx_pendingRemove (bt_keys tx) = Some r /\
    os_abs p P /\ os_abs r R /\ P ##ₘ R /\ m = layer P R base.

Definition tx_updated (tx : tx_of) (updated : list Z -> bool) : Prop := forall k, tx_updates tx k = Ok (updated k).

(** The cursor of a transaction [tx0], which holds its iterator last, has [at_]. *)
Definition cursor_has (tx0 tx : tx_of) (c : cur) (at_ : (list Z -> bool) -> M -> layered below Mi -> Prop) : Prop :=
  exists p it updated, bt_closed tx0 = false /\ tx_pendingKeys (bt_keys tx0) = Some p /\ tx_updated tx0 updated /\
    cu_pendingIter c ∉ (tx_activeIters (bt_keys tx0)).*1 /\ tx = addActiveIter tx0 (cu_pendingIter c) it /\
    at_ updated p (MkLayered (cu_dbIter c) it (cu_currentIter c)).
Definition cursor_over (tx0 tx : tx_of) (c : cur) (l : list kv) : Prop := cursor_has tx0 tx c (fun u p it => layered_over u (tx_snapshot (bt_keys tx0)) p it l).
Definition cursor_at (s : bool) (tx0 tx : tx_of) (c : cur) (l r : list kv) : Prop := cursor_has tx0 tx c (fun u p it => layered_at u s (tx_snapshot (bt_keys tx0)) p it l r).

Lemma set_iters_twice (tx : tx_of) L L' : set_iters (set_iters tx L) L' = set_iters tx L'.
Proof. done. Qed.
Lemma set_iters_same (tx : tx_of) : set_iters tx (tx_activeIters (bt_keys tx)) = tx.
Proof. by destruct tx as [? ? [] ? ?]. Qed.

Lemma finalizer_ok (tx0 tx : tx_of) c at_ : cursor_has tx0 tx c at_ -> cursorFinalizer tx c = tx0.
Proof.
  intros (p & it & u & _ & _ & _ & Hi & -> & _). unfold cursorFinalizer, removeActiveIter, addActiveIter. rewrite set_iters_twice. simpl tx_activeIters. rewrite remove_last by done. apply set_iters_same.
Qed.

Lemma move_ok (tx0 tx : tx_of) (c : cur) f p it it' ok : tx_pendingKeys (bt_keys tx0) = Some p -> cu_pendingIter c ∉ (tx_activeIters (bt_keys tx0)).*1 -> tx = addActiveIter tx0 (cu_pendingIter c) it ->
  f (tx_snapshot (bt_keys tx0)) p (MkLayered (cu_dbIter c) it (cu_currentIter c)) = Ok (it', ok) ->
  cursor_move tx c f = Ok (ok, addActiveIter tx0 (cu_pendingIter c) (ly_pending it'), MkCursor (cu_bucket c) (ly_db it') (cu_pendingIter c) (ly_current it')).
Proof.
  intros Hp Hi -> Hf. unfold cursor_move, cursor_iters. simpl. rewrite Hp. simpl. rewrite active_last by done. simpl. rewrite Hf. simpl. unfold addActiveIter. rewrite set_iters_twice. simpl. by rewrite set_last.
Qed.

Lemma moved (tx0 : tx_of) (c : cur) p it' updated (at_ : (list Z -> bool) -> M -> layered below Mi -> Prop) : bt_closed tx0 = false -> tx_pendingKeys (bt_keys tx0) = Some p -> tx_updated tx0 updated ->
  cu_pendingIter c ∉ (tx_activeIters (bt_keys tx0)).*1 -> at_ updated p it' ->
  cursor_has tx0 (addActiveIter tx0 (cu_pendingIter c) (ly_pending it')) (MkCursor (cu_bucket c) (ly_db it') (cu_pendingIter c) (ly_current it')) at_.
Proof. intros ? ? ? ? Hat. exists p, (ly_pending it'), updated. simpl. by destruct it'. Qed.

Definition cursor_start (s : bool) (tx : tx_of) (c : cur) : outcome (bool * tx_of * cur) := if s then cursor_First tx c else cursor_Last tx c.
Definition cursor_step (s : bool) (tx : tx_of) (c : cur) : outcome (bool * tx_of * cur) := if s then cursor_Next tx c else cursor_Prev tx c.

Lemma cursor_start_ok s (tx0 tx : tx_of) c l : cursor_over tx0 tx c l ->
  exists tx' c', cursor_start s tx c = Ok (bool_decide (l <> []), tx', c') /\ cursor_at s tx0 tx' c' l (turned s l) /\ cu_bucket c' = cu_bucket c.
Proof.
  intros (p & it & u & Hc & Hp & Hu & Hi & -> & Ho). destruct (layered_start_ok _ u Hu s _ _ _ _ Ho) as (it' & E & Hat).
  eexists _, _. split; [|split; [by apply (moved tx0 c p it' u)|done]]. unfold cursor_start, cursor_First, cursor_Last. simpl. rewrite Hc.
  destruct s; by apply (move_ok tx0 _ c _ p it).
Qed.

Lemma cursor_step_ok s (tx0 tx : tx_of) c l x r : cursor_at s tx0 tx c l (x :: r) ->
  exists tx' c', cursor_step s tx c = Ok (bool_decide (r <> []), tx', c') /\ cursor_at s tx0 tx' c' l r /\ cu_bucket c' = cu_bucket c.
Proof.
  intros (p & it & u & Hc & Hp & Hu & Hi & -> & Hl). destruct (layered_step_ok _ u Hu s _ _ _ _ _ _ Hl) as (it' & E & Hat). pose proof (layered_valid_ok u s _ _ _ _ _ Hl) as Hv. unfold layered_Valid in Hv. simpl in Hv.
  eexists _, _. split; [|split; [by apply (moved tx0 c p it' u)|done]]. unfold cursor_step, cursor_Next, cursor_Prev. simpl. rewrite Hc. destruct (cu_currentIter c) eqn:Ec; [|done]. rewrite <- Ec in *.
  destruct s; by apply (move_ok tx0 _ c _ p it).
Qed.

Lemma cursor_reads_ok s (tx0 tx : tx_of) c l x r : cursor_at s tx0 tx c l (x :: r) -> is_Some (cu_currentIter c) /\ bt_closed tx = false /\ rawKey tx c = Ok (Some x.1) /\ rawValue tx c = Ok (Some x.2).
Proof.
  intros (p & it & u & Hc & Hp & Hu & Hi & -> & Hl). pose proof (layered_valid_ok u s _ _ _ _ _ Hl) as Hv. unfold layered_Valid in Hv. simpl in Hv. destruct (layered_reads_ok u s _ _ _ _ _ _ Hl) as [Hk Hval].
  unfold rawKey, rawValue, cursor_iters. simpl. rewrite Hp. simpl. rewrite active_last by done. simpl. destruct (cu_currentIter c) eqn:Ec; [|done]. by split_and!.
Qed.

Lemma cursor_seek_ok (tx0 tx : tx_of) c l k : cursor_over tx0 tx c l -> (forall it, ki_from (cu_dbIter c) (bucketizedKey (cu_bucket c) k) /\ (tx = addActiveIter tx0 (cu_pendingIter c) it -> ki_from it (bucketizedKey (cu_bucket c) k))) ->
  exists tx' c' r, r = filter (at_least (bucketizedKey (cu_bucket c) k)) l /\ cursor_Seek tx c k = Ok (bool_decide (r <> []), tx', c') /\ cursor_at true tx0 tx' c' l r /\ cu_bucket c' = cu_bucket c.
Proof.
  intros (p & it & u & Hc & Hp & Hu & Hi & -> & Ho) Hf. destruct (layered_seek_ok _ u Hu _ _ _ _ (bucketizedKey (cu_bucket c) k) Ho) as (it' & r & Hr & E & Hat).
  { destruct (Hf it) as [F1 F2]. split; [exact F1|by apply F2]. }
  eexists _, _, r. split; [done|]. split; [|split; [by apply (moved tx0 c p it' u)|done]]. unfold cursor_Seek. simpl. rewrite Hc. by apply (move_ok tx0 _ c _ p it).
Qed.

Lemma tx_updates_ok (tx : tx_of) p r P R : tx_pendingKeys (bt_keys tx) = Some p -> tx_pendingRemove (bt_keys tx) = Some r -> os_abs p P -> os_abs r R ->
  tx_updated tx (fun k => bool_decide (is_Some (R !! k)) || bool_decide (is_Some (P !! k))).
Proof. intros Hp Hr HP HR k. unfold tx_updates. rewrite Hp, Hr. simpl. rewrite (os_has_ok _ _ _ HR). simpl. destruct (bool_decide _); [done|]. by rewrite (os_has_ok _ _ _ HP). Qed.

Definition cursor_prefix (bucketID : list Z) (typ : cursorType) : list Z := match typ with ctKeys => bucketID | ctBuckets => bucketIndexPrefix ++ bucket_id bucketID end.

Lemma newCursor_ok (tx : tx_of) m b id typ start limit : tx_layers tx m -> BytesPrefix (cursor_prefix id typ) = (Some start, Some limit) ->
  exists (c : cur) tx' l, newCursor tx b id typ = Ok (c, tx') /\ sorted_pairs l m /\ cursor_over tx tx' c (ranged true (Some start) (Some limit) l) /\ cu_bucket c = b /\
    forall k it, ge_start (Some start) k = true -> ki_from (cu_dbIter c) k /\ (tx' = addActiveIter tx (cu_pendingIter c) it -> ki_from it k).
Proof.
  intros (Hc & base & p & r & P & R & Hs & Hp & Hr & HP & HR & Hd & ->) Hb. unfold newCursor. fold (cursor_prefix id typ). rewrite Hb. unfold newLdbTreapIter. rewrite Hp. simpl.
  pose proof (tx_updates_ok tx p r P R Hp Hr HP HR) as Hu. destruct (ri_ok (tx_snapshot (bt_keys tx)) base start limit Hs) as (lD & SD & OD). destruct (ri_ok p P start limit HP) as (lK & SK & OK).
  eexists _, _, _. split; [done|]. split; [exact (merged_pairs _ P R base lD lK SD SK Hd (fun k => eq_refl (bool_decide (is_Some (R !! k)) || bool_decide (is_Some (P !! k)))))|]. split; [|split; [done|]].
  - exists p. eexists _, _. split_and!; [done|done|exact Hu|apply new_pointer_fresh|done|]. eexists _, _. split_and!; [exact OD|exact OK|by eapply ranged_updated|]. symmetry. by eapply merged_ranged.
  - intros k it Hk. split; [exact (ri_from (abs := snapshot_view) (tx_snapshot (bt_keys tx)) start limit k Hk)|]. intros E. apply (f_equal (fun t => tx_activeIters (bt_keys t))) in E. simpl in E. apply app_inv_head in E. injection E as <-. exact (ri_from (abs := os_abs) p start limit k Hk).
Qed.

Lemma cursor_fuel_ok (tx0 tx : tx_of) c l : cursor_over tx0 tx c l -> exists n, cursor_fuel tx c = Ok n /\ (length l < n)%nat.
Proof.
  intros (p & it & u & Hc & Hp & Hu & Hi & -> & Ho). unfold cursor_fuel, cursor_iters. simpl. rewrite Hp. simpl. rewrite active_last by done. simpl. eexists. split; [done|].
  apply layered_over_sorted in Ho as [_ Ho]. simpl in Ho. lia.
Qed.

Section Walks.
Context {St E : Type}.
Variable g : St -> kv -> St * option E.

Lemma each_loop_ok (fn : St -> tx_of -> cur -> outcome (St * option E)) (tx0 : tx_of) b l : forall r fuel tx c st, cursor_at true tx0 tx c l r -> cu_bucket c = b -> (length r < fuel)%nat ->
  (forall st tx c x r', x ∈ r -> cu_bucket c = b -> cursor_at true tx0 tx c l (x :: r') -> fn st tx c = Ok (g st x)) ->
  exists tx' c' r', each_loop fuel fn (bool_decide (r <> [])) tx c st = Ok (fold_until g st r, tx', c') /\ cursor_at true tx0 tx' c' l r'.
Proof.
  induction r as [|x r IH]; intros fuel tx c st Hat Hb Hlen Hfn; (destruct fuel as [|fuel]; [simpl in Hlen; lia|]).
  - exists tx, c, []. done.
  - cbn [each_loop]. rewrite bool_decide_true by done. cbn [negb]. rewrite (Hfn st tx c x r ltac:(left) Hb Hat). cbn [mbind outcome_bind]. cbn [fold_until]. destruct (g st x) as [st' [e|]]; [by exists tx, c, (x :: r)|].
    destruct (cursor_step_ok true _ _ _ _ _ _ Hat) as (tx' & c' & Hn & Hat' & Hb'). simpl in Hn. rewrite Hn. cbn [mbind outcome_bind]. simpl in Hlen.
    apply (IH fuel tx' c' st' Hat'); [congruence|lia|]. intros st1 tx1 c1 y r' Hy. apply Hfn. by right.
Qed.

Lemma walk_ok (tx : tx_of) m b typ start limit (fn : St -> tx_of -> cur -> outcome (St * option E)) st : tx_layers tx m -> BytesPrefix (cursor_prefix b typ) = (Some start, Some limit) ->
  exists l, sorted_pairs l m /\
    ((forall st tx1 c x r' l', x ∈ ranged true (Some start) (Some limit) l -> cu_bucket c = b -> cursor_at true tx tx1 c l' (x :: r') -> fn st tx1 c = Ok (g st x)) ->
     let '(st', err) := fold_until g st (ranged true (Some start) (Some limit) l) in
     walk tx b typ fn st = Ok (st', match err with Some e => Some (inr e) | None => None end, tx)).
Proof.
  intros Hl Hb. destruct (newCursor_ok tx m b b typ start limit Hl Hb) as (c & tx1 & l & Hn & Hs & Ho & Hcb & _). exists l. split; [done|]. intros Hfn.
  destruct (fold_until g st _) as [st' err] eqn:Ef. unfold walk, checkClosed. rewrite (proj1 Hl), Hn. cbn [mbind outcome_bind].
  destruct (cursor_fuel_ok tx tx1 c _ Ho) as (n & -> & Hlen). cbn [mbind outcome_bind]. destruct (cursor_start_ok true tx tx1 c _ Ho) as (tx2 & c2 & Hf & Hat & Hb2). simpl in Hf. rewrite Hf. cbn [mbind outcome_bind].
  destruct (each_loop_ok fn tx b _ _ n tx2 c2 st Hat ltac:(congruence) Hlen) as (tx3 & c3 & r3 & He & Hat3).
  { intros st1 tx4 c4 x r' Hx Hb4 Hat4. by eapply Hfn. }
  simpl turned in He. rewrite He, Ef. cbn [mbind outcome_bind]. by rewrite (finalizer_ok _ _ _ _ Hat3).
Qed.
End Walks.

(** *** A bucket's keys *)

Lemma Key_plain s (tx0 tx : tx_of) (c : cur) l x r : cursor_at s tx0 tx c l (x :: r) -> has_prefix bucketIndexPrefix x.1 = false -> (length (cu_bucket c) <= length x.1)%nat ->
  cursor_Key tx c = Ok (Some (drop (length (cu_bucket c)) x.1)) /\ cursor_Value tx c = Ok (Some x.2).
Proof.
  intros Hat Hx Hlen. destruct (cursor_reads_ok _ _ _ _ _ _ _ Hat) as ([b Hb] & Hc & Hk & Hv). unfold cursor_Key, cursor_Value. rewrite Hc, Hb, Hk. cbn [mbind outcome_bind]. change (default [] (Some x.1)) with (x.1). rewrite Hx, Hv. unfold key_from. by rewrite decide_True.
Qed.
Lemma Key_nested s (tx0 tx : tx_of) (c : cur) l x r : cursor_at s tx0 tx c l (x :: r) -> has_prefix bucketIndexPrefix x.1 = true -> (8 <= length x.1)%nat -> cursor_Key tx c = Ok (Some (drop 8 x.1)).
Proof.
  intros Hat Hx Hlen. destruct (cursor_reads_ok _ _ _ _ _ _ _ Hat) as ([b Hb] & Hc & Hk & Hv). unfold cursor_Key. rewrite Hc, Hb, Hk. cbn [mbind outcome_bind]. change (default [] (Some x.1)) with (x.1). rewrite Hx. unfold key_from. simpl Nat.add. by rewrite decide_True.
Qed.

(** The identifier of a bucket, other than the prefix of the index. *)
Record id_ok (id : list Z) : Prop := { id_length : length id = 4%nat; id_bytes : bytes id; id_bounded : Exists (fun b => b <> 255) id; id_plain : id <> bucketIndexPrefix }.

Lemma plain_key id x : id_ok id -> prefixed id x -> has_prefix bucketIndexPrefix x.1 = false /\ (length id <= length x.1)%nat.
Proof.
  intros [Hl _ _ Hp] [k E]%has_prefix_true. rewrite E. split; [|rewrite length_app; lia]. apply not_true_iff_false. intros [k' E']%has_prefix_true. apply Hp. apply app_inj_1 in E' as [? _]; [done|by rewrite Hl].
Qed.
Lemma nested_key id x : length id = 4%nat -> prefixed (bucketIndexPrefix ++ id) x -> has_prefix bucketIndexPrefix x.1 = true /\ (8 <= length x.1)%nat.
Proof. intros Hl [k E]%has_prefix_true. rewrite E, <- app_assoc. split; [apply has_prefix_true; by eexists|]. rewrite !length_app, Hl. simpl. lia. Qed.

Lemma bucket_id_same id : length id = 4%nat -> bucket_id id = id.
Proof. intros Hl. unfold bucket_id. rewrite <- Hl, firstn_all, Nat.sub_diag. apply app_nil_r. Qed.

Lemma nested_prefix id : length id = 4%nat -> bytes id -> bytes (bucketIndexPrefix ++ id) /\ Exists (fun b => b <> 255) (bucketIndexPrefix ++ id).
Proof. intros Hl Hb. split; [apply Forall_app; split; [repeat constructor; done|done]|by constructor]. Qed.

Lemma ForEach_ok {St E} (tx : tx_of) m id (fn : St -> list Z -> option (list Z) -> St * option E) st : tx_layers tx m -> byte_keys m -> id_ok id ->
  let '(st', err) := fold_until (fun st x => fn st x.1 (Some x.2)) st (bucket_pairs id m) in ForEach (Ii := Ii) (Ldi := Ldi) tx id fn st = Ok (st', match err with Some e => Some (inr e) | None => None end, tx).
Proof.
  intros Hl Hm Hid. destruct (BytesPrefix_ok id (id_bytes _ Hid) (id_bounded _ Hid)) as (start & limit & Hb & Hr). unfold bucket_pairs. rewrite fold_until_map.
  destruct (walk_ok (fun st x => fn st (strip id x).1 (Some (strip id x).2)) tx m id ctKeys start limit (fun st (tx : tx_of) (c : cur) => k ← cursor_Key tx c; v ← cursor_Value tx c; Ok (fn st (default [] k) v)) st Hl Hb) as (l & Hs & Hw).
  rewrite (ranged_prefix id start limit m l Hm Hs Hr) in Hw. apply Hw. clear Hw. intros st1 tx1 c x r' l' [Hx _]%list_elem_of_filter Hcb Hat. destruct (plain_key id x Hid Hx) as [Hp Hlen].
  rewrite <- Hcb in Hlen. destruct (Key_plain _ _ _ _ _ _ _ Hat Hp Hlen) as [-> ->]. simpl. by rewrite Hcb.
Qed.

Lemma ForEachBucket_ok {St E} (tx : tx_of) m id (fn : St -> list Z -> St * option E) st : tx_layers tx m -> byte_keys m -> length id = 4%nat -> bytes id ->
  let '(st', err) := fold_until (fun st x => fn st x.1) st (bucket_pairs (bucketIndexPrefix ++ id) m) in ForEachBucket (Ii := Ii) (Ldi := Ldi) tx id fn st = Ok (st', match err with Some e => Some (inr e) | None => None end, tx).
Proof.
  intros Hl Hm Hlen Hid. destruct (nested_prefix id Hlen Hid) as [Hb1 Hb2]. destruct (BytesPrefix_ok _ Hb1 Hb2) as (start & limit & Hb & Hr). unfold bucket_pairs. rewrite fold_until_map.
  assert (BytesPrefix (cursor_prefix id ctBuckets) = (Some start, Some limit)) as Hb' by (simpl; by rewrite bucket_id_same).
  destruct (walk_ok (fun st x => fn st (strip (bucketIndexPrefix ++ id) x).1) tx m id ctBuckets start limit (fun st (tx : tx_of) (c : cur) => k ← cursor_Key tx c; Ok (fn st (default [] k))) st Hl Hb') as (l & Hs & Hw).
  rewrite (ranged_prefix (bucketIndexPrefix ++ id) start limit m l Hm Hs Hr) in Hw. apply Hw. clear Hw. intros st1 tx1 c x r' l' [Hx _]%list_elem_of_filter Hcb Hat. destruct (nested_key id x Hlen Hx) as [Hp Hlen'].
  rewrite (Key_nested _ _ _ _ _ _ _ Hat Hp Hlen'). unfold strip. simpl. by rewrite Hlen.
Qed.

(** *** Both directions *)

(** The loop of a client, from where the cursor is. *)
Fixpoint cursor_collect (fuel : nat) (s ok : bool) (tx : tx_of) (c : cur) : outcome (list (list Z * option (list Z))) :=
  if negb ok then Ok []
  else
    match fuel with
    | O => NoFuel
    | S fuel =>
        k ← cursor_Key tx c;
        v ← cursor_Value tx c;
        '(ok, tx, c) ← cursor_step s tx c;
        rest ← cursor_collect fuel s ok tx c;
        Ok ((default [] k, v) :: rest)
    end.
Definition shown (p : list Z) (x : kv) : list Z * option (list Z) := ((strip p x).1, Some x.2).

Lemma collect_ok s (tx0 : tx_of) id l : id_ok id -> forall r fuel tx c, cursor_at s tx0 tx c l r -> cu_bucket c = id -> Forall (prefixed id) r -> (length r <= fuel)%nat ->
  cursor_collect fuel s (bool_decide (r <> [])) tx c = Ok (shown id <$> r).
Proof.
  intros Hid. induction r as [|x r IH]; intros fuel tx c Hat Hcb Hf Hlen; [by destruct fuel|]. destruct fuel as [|fuel]; [simpl in Hlen; lia|]. apply Forall_cons in Hf as [Hx Hf].
  cbn [cursor_collect]. rewrite bool_decide_true by done. cbn [negb]. destruct (plain_key id x Hid Hx) as [Hp Hl]. rewrite <- Hcb in Hl. destruct (Key_plain _ _ _ _ _ _ _ Hat Hp Hl) as [-> ->]. cbn [mbind outcome_bind].
  destruct (cursor_step_ok _ _ _ _ _ _ _ Hat) as (tx' & c' & -> & Hat' & Hb'). cbn [mbind outcome_bind]. simpl in Hlen. rewrite (IH fuel tx' c' Hat') by (done || congruence || lia). simpl. unfold shown, strip. by rewrite Hcb.
Qed.

Lemma bucket_pairs_length id m : (length (filter (prefixed id) (map_pairs m)) <= size m)%nat.
Proof. etrans; [apply length_filter|]. pose proof (map_pairs_sorted m) as [Hs Hl]. rewrite <- Hl at 2. by rewrite map_size_list_to_map by (by apply keys_sorted_NoDup). Qed.

Lemma seek_prefix id (seek : list Z) l : Forall (prefixed id) l -> strip id <$> filter (at_least (id ++ seek)) l = filter (at_least seek) (strip id <$> l).
Proof.
  induction 1 as [|x l [k E]%has_prefix_true Hf IH]; [done|]. rewrite fmap_cons, !filter_cons. assert (at_least (id ++ seek) x <-> at_least seek (strip id x)) as Hiff.
  { unfold at_least, acc, strip. simpl. by rewrite E, drop_app_length, bytes_compare_prefix. }
  destruct (decide (at_least (id ++ seek) x)), (decide (at_least seek (strip id x))); [by rewrite fmap_cons, IH|tauto|tauto|done].
Qed.

Lemma scans_ok (tx : tx_of) m id seek fuel : tx_layers tx m -> byte_keys m -> id_ok id -> bytes seek -> (size m <= fuel)%nat ->
  let rows := (fun x : kv => (x.1, Some x.2)) <$> bucket_pairs id m in
  exists (c : cur) tx1, newCursor tx id id ctKeys = Ok (c, tx1) /\ cursorFinalizer tx1 c = tx /\
    ('(ok, tx2, c2) ← cursor_First tx1 c; cursor_collect fuel true ok tx2 c2) = Ok rows /\
    ('(ok, tx2, c2) ← cursor_Last tx1 c; cursor_collect fuel false ok tx2 c2) = Ok (reverse rows) /\
    ('(ok, tx2, c2) ← cursor_Seek tx1 c seek; cursor_collect fuel true ok tx2 c2) = Ok ((fun x : kv => (x.1, Some x.2)) <$> filter (at_least seek) (bucket_pairs id m)).
Proof.
  intros Hl Hm Hid Hseek Hfuel rows. destruct (BytesPrefix_ok id (id_bytes _ Hid) (id_bounded _ Hid)) as (start & limit & Hb & Hr).
  destruct (newCursor_ok tx m id id ctKeys start limit Hl Hb) as (c & tx1 & l & Hn & Hs & Ho & Hcb & Hfrom). rewrite (ranged_prefix id start limit m l Hm Hs Hr) in Ho. set (L := filter (prefixed id) (map_pairs m)) in *.
  assert (Forall (prefixed id) L) as HL by (apply Forall_forall; by intros x [? _]%list_elem_of_filter). assert (length L <= fuel)%nat as Hlen by (pose proof (bucket_pairs_length id m); unfold L; lia).
  assert (rows = shown id <$> L) as Hrows by (unfold rows, bucket_pairs; by rewrite <- list_fmap_compose). exists c, tx1. split_and!; [done|by eapply finalizer_ok|..].
  - destruct (cursor_start_ok true tx tx1 c _ Ho) as (tx2 & c2 & Hf & Hat & Hb2). simpl in Hf, Hat. rewrite Hf. cbn [mbind outcome_bind]. rewrite (collect_ok true tx id L Hid L fuel tx2 c2) by (done || congruence). by rewrite Hrows.
  - destruct (cursor_start_ok false tx tx1 c _ Ho) as (tx2 & c2 & Hf & Hat & Hb2). simpl in Hf, Hat. rewrite Hf. cbn [mbind outcome_bind]. rewrite <- (turned_nonempty false L). simpl turned.
    rewrite (collect_ok false tx id L Hid (reverse L) fuel tx2 c2) by (rewrite ?Forall_reverse_iff, ?length_reverse; done || congruence). by rewrite Hrows, fmap_reverse.
  - destruct (cursor_seek_ok tx tx1 c L seek Ho) as (tx2 & c2 & r & Hr2 & Hf & Hat & Hb2).
    { intros it. apply Hfrom. rewrite Hcb. unfold bucketizedKey. assert (bytes (id ++ seek)) as Hbk by (apply Forall_app; split; [apply Hid|done]). pose proof (Hr (id ++ seek) [] Hbk) as Hin.
      rewrite (proj2 (has_prefix_true id (id ++ seek))) in Hin by (by eexists). unfold in_range in Hin. simpl in Hin. by apply andb_true_iff in Hin as [? _]. }
    rewrite Hf. cbn [mbind outcome_bind]. rewrite Hcb in Hr2. unfold bucketizedKey in Hr2. rewrite (collect_ok true tx id L Hid r fuel tx2 c2); [|done|congruence|subst r; rewrite Forall_forall in HL |- *; intros x [_ ?]%list_elem_of_filter; by apply HL|].
    + unfold bucket_pairs. fold L. rewrite <- (seek_prefix id seek L HL), <- list_fmap_compose, Hr2. done.
    + subst r. etrans; [apply length_filter|done].
Qed.
End CursorProofs.

(** ** Buckets have identifiers of their own *)

Lemma be_bytes_length v : length (be_bytes v) = 4%nat.
Proof. unfold be_bytes. by rewrite length_reverse, le_bytes_length. Qed.
Lemma be_Uint32_bytes v : 0 <= v < 2 ^ 32 -> be_Uint32 (be_bytes v) = Ok v.
Proof.
  intros Hv. unfold be_Uint32. pose proof (be_bytes_length v) as Hl. rewrite slice_sub_ok by (rewrite ?Hl; lia). cbn [mbind outcome_bind]. change (Z.to_nat (4 - 0)) with 4%nat. change (Z.to_nat 0) with 0%nat.
  rewrite drop_0, <- Hl, firstn_all. unfold be_bytes. rewrite reverse_involutive, le_value_le_bytes. f_equal. apply Z.mod_small. lia.
Qed.
Lemma be_bytes_inj v w : 0 <= v < 2 ^ 32 -> 0 <= w < 2 ^ 32 -> be_bytes v = be_bytes w -> v = w.
Proof. intros Hv Hw E. apply (f_equal be_Uint32) in E. rewrite !be_Uint32_bytes in E by done. by injection E. Qed.

(** The counter has the form of an index entry, of a bucket with this identifier. *)
Definition counter_parent : list Z := Eval vm_compute in str "-cbi".
Definition parent_ok (b : list Z) : Prop := length b = 4%nat /\ b <> counter_parent.

Lemma index_key_inj b b' n n' : length b = 4%nat -> length b' = 4%nat -> bucketIndexKey b n = bucketIndexKey b' n' -> b = b' /\ n = n'.
Proof. unfold bucketIndexKey. intros Hb Hb' E. apply app_inv_head in E. apply app_inj_1 in E; [done|lia]. Qed.
Lemma index_key_counter b n : parent_ok b -> bucketIndexKey b n <> curBucketIDKeyName.
Proof. intros [Hl Hb] E. change curBucketIDKeyName with (bucketIndexKey counter_parent [100]) in E. by apply index_key_inj in E as [? _]. Qed.

(** The entries of the index: [c] is the number of the last identifier. *)
Record buckets_ok (m : bmap) (c : Z) : Prop := {
  bk_range : 0 <= c < 2 ^ 32;
  bk_counter : m !! curBucketIDKeyName = Some (be_bytes c);
  bk_block : is_Some (m !! bucketIndexKey metadataBucketID blockIdxBucketName);
  bk_ids b n id : parent_ok b -> m !! bucketIndexKey b n = Some id -> exists j, 1 <= j <= c /\ id = be_bytes j;
  bk_apart b n b' n' id : parent_ok b -> parent_ok b' -> m !! bucketIndexKey b n = Some id -> m !! bucketIndexKey b' n' = Some id -> b = b' /\ n = n';
}.

Definition with_bucket (m : bmap) (b n id : list Z) : bmap := <[bucketIndexKey b n := id]> (<[curBucketIDKeyName := id]> m).

Lemma with_bucket_other m b n id b' n' : parent_ok b -> parent_ok b' -> (b, n) <> (b', n') -> with_bucket m b n id !! bucketIndexKey b' n' = m !! bucketIndexKey b' n'.
Proof.
  intros Hb Hb' Hne. unfold with_bucket. rewrite !lookup_insert_ne; [done|..]; intros E; [by apply (index_key_counter b' n' Hb')|]. apply index_key_inj in E as [-> ->]; [done|apply Hb|apply Hb'].
Qed.

Lemma with_bucket_ok m c b n : buckets_ok m c -> parent_ok b -> m !! bucketIndexKey b n = None -> c + 1 < 2 ^ 32 -> buckets_ok (with_bucket m b n (be_bytes (c + 1))) (c + 1).
Proof.
  intros [Hr Hc Hbk Hi Ha] Hb Hn Hlt. set (m' := with_bucket m b n (be_bytes (c + 1))).
  assert (forall b' n' id, parent_ok b' -> m' !! bucketIndexKey b' n' = Some id -> (b, n) = (b', n') /\ id = be_bytes (c + 1) \/ (b, n) <> (b', n') /\ m !! bucketIndexKey b' n' = Some id) as Hcase.
  { intros b' n' id Hb' E. destruct (decide ((b, n) = (b', n'))) as [[= <- <-]|Hne]; [left|right; by rewrite <- (with_bucket_other m b n (be_bytes (c + 1)) b' n')].
    unfold m', with_bucket in E. rewrite lookup_insert_eq in E. by injection E. }
  assert (forall b' n', parent_ok b' -> m !! bucketIndexKey b' n' <> Some (be_bytes (c + 1))) as Hnew.
  { intros b' n' Hb' E. destruct (Hi b' n' _ Hb' E) as (j & Hj & Ej). apply be_bytes_inj in Ej; lia. }
  split.
  - lia.
  - unfold m', with_bucket. rewrite lookup_insert_ne by (by apply index_key_counter). apply lookup_insert_eq.
  - unfold m'. destruct (decide ((b, n) = (metadataBucketID, blockIdxBucketName))) as [[= -> ->]|Hne]; [by rewrite Hn in Hbk; destruct Hbk|]. by rewrite with_bucket_other.
  - intros b' n' id Hb' [[_ ->]|[_ E]]%Hcase; [exists (c + 1); split; [lia|done]| |exact Hb']. destruct (Hi b' n' id Hb' E) as (j & ? & ?). exists j. split; [lia|done].
  - intros b1 n1 b2 n2 id H1 H2 E1 E2. destruct (Hcase _ _ _ H1 E1) as [[[= <- <-] ->]|[_ E1']], (Hcase _ _ _ H2 E2) as [[[= <- <-] ?]|[_ E2']].
    + done.
    + by apply (Hnew b2 n2 H2) in E2'.
    + subst id. by apply (Hnew b1 n1 H1) in E1'.
    + by eapply Ha.
Qed.

Section BucketProofs.
Context {I M Mi DB Snap Tx : Type}.
Context `{OrderedStoreLaws I} `{OrderedStoreLaws M} `{!StoreIter M Mi} `{!StoreIterLaws M Mi} `{LevelDBLaws DB Snap Tx}.
Abbreviation tx_of := (btx I M (nat * Mi) Snap).

Lemma view_layers (tx : tx_of) base m : bt_closed tx = false -> tx_view (bt_keys tx) base m -> tx_layers tx m.
Proof. intros Hc (_ & Hs & p & r & P & R & Hp & Hr & HP & HR & _ & Hd & Hm). split; [done|]. by exists base, p, r, P, R. Qed.

Lemma begin_layers (c : dbCache I DB) m w (tx : tx_of) : cache_view c m -> begin false c w = inl tx -> tx_layers tx m.
Proof.
  intros (K & R & HK & HR & Hd & ->). unfold begin, begin_tx, cache_Snapshot. destruct (ldb_GetSnapshot (c_ldb c)) as [sn|] eqn:E; [|done]. intros [= <-]. apply ldb_GetSnapshot_view in E.
  split; [done|]. exists (layer K R (ldb_view (c_ldb c))), os_new, os_new, ∅, ∅. simpl. split_and!; try apply os_new_ok; [|done|done|apply map_disjoint_empty_l|by rewrite layer_empty]. exists K, R. simpl. by rewrite E.
Qed.

Lemma Bucket_ok (tx : tx_of) base m b n : bt_closed tx = false -> tx_view (bt_keys tx) base m -> Bucket tx b n = Ok (option_map bucket_id (m !! bucketIndexKey b n)).
Proof. intros Hc Hv. unfold Bucket. by rewrite Hc, (tx_fetchKey_ok _ _ _ _ Hv). Qed.

Lemma CreateBucket_ok (tx : tx_of) base m c b n rnd1 rnd2 : bt_closed tx = false -> tx_view (bt_keys tx) base m -> buckets_ok m c -> n <> [] ->
  match m !! bucketIndexKey b n with
  | Some _ => CreateBucket tx b n rnd1 rnd2 = Ok (inr BucketExists, tx)
  | None => exists k, CreateBucket tx b n rnd1 rnd2 = Ok (inl (be_bytes (u32 (c + 1))), set_keys tx k) /\ tx_view k base (with_bucket m b n (be_bytes (u32 (c + 1))))
  end.
Proof.
  intros Hc Hv Hb Hn. unfold CreateBucket, checkClosed. rewrite Hc. pose proof Hv as (-> & _). cbn [negb]. rewrite decide_False by done. rewrite (tx_hasKey_ok _ _ _ _ Hv). cbn [mbind outcome_bind].
  destruct (m !! bucketIndexKey b n) as [id|] eqn:E; [done|]. rewrite bool_decide_false by (by intros [? ?]). rewrite decide_False by (intros [-> ->]; pose proof (bk_block _ _ Hb) as [? ?]; congruence).
  unfold nextBucketID. rewrite (tx_fetchKey_ok _ _ _ _ Hv), (bk_counter _ _ Hb). cbn [mbind outcome_bind]. change (default [] (Some (be_bytes c))) with (be_bytes c). rewrite be_Uint32_bytes by apply Hb. cbn [mbind outcome_bind].
  destruct (tx_putKey_ok _ _ _ curBucketIDKeyName (Some (be_bytes (u32 (c + 1)))) rnd1 Hv) as (k & -> & Hv1). cbn [mbind outcome_bind]. simpl bt_keys.
  destruct (tx_putKey_ok _ _ _ (bucketIndexKey b n) (Some (be_bytes (u32 (c + 1)))) rnd2 Hv1) as (k2 & -> & Hv2). cbn [mbind outcome_bind]. exists k2. by split.
Qed.
End BucketProofs.

(** ** Ranges of prefixes in memory: the laws can hold *)

(** The last byte that can grow does. *)
Fixpoint prefix_limit (p : list Z) : option (list Z) :=
  match p with
  | [] => None
  | x :: p => match prefix_limit p with Some l => Some (x :: l) | None => if decide (x < 255) then Some [x + 1] else None end
  end.
Global Instance mem_prefix : KeyPrefix := { BytesPrefix p := (Some p, prefix_limit p) }.

Lemma has_prefix_cons x p y k : has_prefix (x :: p) (y :: k) = bool_decide (y = x) && has_prefix p k.
Proof. unfold has_prefix. simpl. rewrite <- bool_decide_and. apply bool_decide_ext. split; [by intros [= -> ->]|by intros [-> ->]]. Qed.

Lemma prefix_limit_none p : bytes p -> prefix_limit p = None -> Forall (fun b => b = 255) p.
Proof.
  induction 1 as [|x p Hx Hp IH]; simpl; [done|]. destruct (prefix_limit p); [done|]. case_decide; [done|]. unfold uint_range in Hx. constructor; [lia|by apply IH].
Qed.
Lemma last_prefix p : Forall (fun b => b = 255) p -> forall k, bytes k -> ge_start (Some p) k = has_prefix p k.
Proof.
  induction 1 as [|x p -> Hp IH]; intros k Hk; [unfold ge_start; destruct k; done|]. destruct Hk as [|y k Hy Hk]; [done|]. rewrite has_prefix_cons. unfold uint_range in Hy. specialize (IH k Hk). unfold ge_start in *. simpl.
  destruct (Z.compare_spec y 255); [by rewrite bool_decide_true|by rewrite bool_decide_false by lia|lia].
Qed.

Lemma prefix_limit_ok p : bytes p -> Exists (fun b => b <> 255) p -> exists limit, prefix_limit p = Some limit /\ forall k, bytes k -> ge_start (Some p) k && lt_limit (Some limit) k = has_prefix p k.
Proof.
  induction 1 as [|x p Hx Hp IH]; intros He; [by inversion He|]. simpl. destruct (prefix_limit p) as [l|] eqn:El.
  - destruct IH as (? & [= <-] & IH). { apply not_Forall_Exists; [apply _|]. intros Hf. clear -Hf El. revert l El. induction Hf as [|x p -> Hf IH]; intros l; simpl; [done|]. destruct (prefix_limit p) as [l'|]; [by destruct (IH l')|done]. }
    eexists. split; [done|]. intros k [|y k' Hy Hk]; [done|]. rewrite has_prefix_cons. specialize (IH k' Hk). unfold ge_start, lt_limit in *. simpl.
    destruct (Z.compare_spec y x) as [->|Hlt|Hgt]; [by rewrite bool_decide_true|by rewrite bool_decide_false by lia|by rewrite bool_decide_false by lia].
  - pose proof (prefix_limit_none p Hp El) as Hf. unfold uint_range in Hx. assert (x < 255) as Hlt.
    { apply Exists_cons in He as [?|He]; [lia|]. apply Exists_exists in He as (z & Hz & Hne). rewrite Forall_forall in Hf. by apply Hf in Hz. }
    rewrite decide_True by done. eexists. split; [done|]. intros k [|y k' Hy Hk]; [done|]. rewrite has_prefix_cons, <- (last_prefix p Hf k' Hk). unfold ge_start, lt_limit. simpl.
    destruct (Z.compare_spec y x) as [->|Hl|Hg]; [|by rewrite bool_decide_false by lia|].
    + rewrite bool_decide_true by done. destruct (Z.compare_spec x (x + 1)); [lia| |lia]. by rewrite andb_true_r.
    + rewrite bool_decide_false by lia. destruct (Z.compare_spec y (x + 1)); [by destruct k'|lia|done].
Qed.
Global Instance mem_prefix_laws : KeyPrefixLaws.
Proof. split. intros p Hp He. destruct (prefix_limit_ok p Hp He) as (limit & El & Hk). exists p, limit. simpl. rewrite El. split; [done|]. intros k v Hb. by apply Hk. Qed.

(** ** The theorems *)

Section Theorems.
Context {DB Snap Tx Ldi : Type} `{LevelDBLaws DB Snap Tx} `{KvIterLaws Snap Ldi} `{!RangeIter Snap Ldi} `{!RangeIterLaws Snap Ldi (fun s m => snap_view s = m)} `{KeyPrefixLaws}.
Abbreviation Trans := (btx Imm Mut (nat * iterator) Snap).

(** C27: [ForEach] calls its function with every key and value of the bucket in the transaction's
    view, its own writes and deletions, the cache and leveldb merged, once each and in the
    order of the keys, up to the first error, which it returns; [ForEachBucket] does so with
    the names of the nested buckets.  Neither runs out of fuel or panics, and the
    transaction is left as it was, without the iterator of the walk. *)
Theorem for_each_visits_bucket {St E : Type} (tx : Trans) (m : bmap) (id : list Z) (st : St)
    (fn : St -> list Z -> option (list Z) -> St * option E) (fnb : St -> list Z -> St * option E)
    (Htx : tx_layers tx m) (Hkeys : byte_keys m) (Hid : id_ok id) :
  let rows := bucket_pairs id m in
  let nested := bucket_pairs (bucketIndexPrefix ++ id) m in
  let answer (r : St * option E) := Ok (r.1, match r.2 with Some e => Some (inr e) | None => None end, tx) in
  ForEach (Ii := iterator) (Ldi := Ldi) tx id fn st = answer (fold_until (fun st x => fn st x.1 (Some x.2)) st rows) /\
  ForEachBucket (Ii := iterator) (Ldi := Ldi) tx id fnb st = answer (fold_until (fun st x => fnb st x.1) st nested) /\
  keys_sorted rows /\ (forall k v, (k, v) ∈ rows <-> m !! bucketizedKey id k = Some v) /\
  keys_sorted nested /\ (forall k v, (k, v) ∈ nested <-> m !! bucketIndexKey id k = Some v).
Proof.
  intros rows nested answer. split_and!.
  - pose proof (ForEach_ok (Ii := iterator) (Ldi := Ldi) tx m id fn st Htx Hkeys Hid) as Hf. unfold answer. fold rows in Hf. by destruct (fold_until _ st rows).
  - pose proof (ForEachBucket_ok (Ii := iterator) (Ldi := Ldi) tx m id fnb st Htx Hkeys (id_length _ Hid) (id_bytes _ Hid)) as Hf. unfold answer. fold nested in Hf. by destruct (fold_until _ st nested).
  - apply bucket_pairs_sorted.
  - intros k v. apply bucket_pairs_elem.
  - apply bucket_pairs_sorted.
  - intros k v. unfold nested. rewrite bucket_pairs_elem. unfold bucketIndexKey. by rewrite <- app_assoc.
Qed.

(** A cursor over the keys of a bucket shows the rows of the bucket from [First] with [Next], the
    same rows backwards from [Last] with [Prev], and the rows at or after a key from
    [Seek] with [Next]; releasing it gives the transaction back. *)
Theorem cursor_scans (tx : Trans) (m : bmap) (id seek : list Z) (fuel : nat)
    (Htx : tx_layers tx m) (Hkeys : byte_keys m) (Hid : id_ok id) (Hseek : bytes seek) (Hfuel : (size m <= fuel)%nat) :
  let shown (l : list kv) := (fun x : kv => (x.1, Some x.2)) <$> l in
  exists (c : cursor iterator Ldi) tx1, newCursor tx id id ctKeys = Ok (c, tx1) /\ cursorFinalizer tx1 c = tx /\
    ('(ok, tx2, c2) ← cursor_First tx1 c; cursor_collect fuel true ok tx2 c2) = Ok (shown (bucket_pairs id m)) /\
    ('(ok, tx2, c2) ← cursor_Last tx1 c; cursor_collect fuel false ok tx2 c2) = Ok (reverse (shown (bucket_pairs id m))) /\
    ('(ok, tx2, c2) ← cursor_Seek tx1 c seek; cursor_collect fuel true ok tx2 c2) = Ok (shown (filter (at_least seek) (bucket_pairs id m))).
Proof. intros shown. by apply scans_ok. Qed.
End Theorems.

Section BucketTheorems.
Context {DB Snap Tx : Type} `{LevelDBLaws DB Snap Tx}.
Abbreviation Trans := (btx Imm Mut (nat * iterator) Snap).

(** C32: creating a bucket below the limit of the counter gives it an identifier that no other
    bucket has, at any depth and also among those of earlier transactions; afterwards the
    bucket is found under its name, every other bucket is found as before, and the index
    is still in order.  A name that is taken is refused and nothing changes. *)
Theorem created_bucket_is_new (tx : Trans) (base m : bmap) (c : Z) (b n : list Z) (rnd1 rnd2 : Z)
    (Hopen : bt_closed tx = false) (Hview : tx_view (bt_keys tx) base m) (Hbuckets : buckets_ok m c)
    (Hb : parent_ok b) (Hn : n <> []) (Hc : c + 1 < 2 ^ 32) :
  match m !! bucketIndexKey b n with
  | Some _ => CreateBucket tx b n rnd1 rnd2 = Ok (inr BucketExists, tx)
  | None =>
      exists id tx' m', CreateBucket tx b n rnd1 rnd2 = Ok (inl id, tx') /\ tx_view (bt_keys tx') base m' /\ buckets_ok m' (c + 1) /\
        Bucket tx' b n = Ok (Some id) /\
        forall b' n', parent_ok b' -> (b', n') <> (b, n) -> Bucket tx' b' n' = Bucket tx b' n' /\ Bucket tx b' n' <> Ok (Some id)
  end.
Proof.
  pose proof (CreateBucket_ok tx base m c b n rnd1 rnd2 Hopen Hview Hbuckets Hn) as Hok. destruct (m !! bucketIndexKey b n) eqn:E; [done|]. destruct Hok as (k & Hcr & Hv).
  pose proof (bk_range _ _ Hbuckets) as Hr. assert (u32 (c + 1) = c + 1) as Eu by (apply Z.mod_small; lia). rewrite Eu in *. set (tx' := set_keys tx k) in *.
  pose proof (with_bucket_ok m c b n Hbuckets Hb E Hc) as Hm'. exists (be_bytes (c + 1)), tx', (with_bucket m b n (be_bytes (c + 1))). split_and!; [done|done|done|..].
  - rewrite (Bucket_ok tx' base _ b n Hopen Hv). unfold with_bucket. rewrite lookup_insert_eq. simpl. by rewrite bucket_id_same by apply be_bytes_length.
  - intros b' n' Hb' Hne. rewrite (Bucket_ok tx' base _ b' n' Hopen Hv), (Bucket_ok tx base m b' n' Hopen Hview), with_bucket_other by done. split; [done|].
    destruct (m !! bucketIndexKey b' n') as [id|] eqn:E'; [|done]. destruct (bk_ids _ _ Hbuckets b' n' id Hb' E') as (j & Hj & ->). simpl. rewrite bucket_id_same by apply be_bytes_length.
    intros Ej. assert (be_bytes j = be_bytes (c + 1)) as Ej' by congruence. apply be_bytes_inj in Ej'; lia.
Qed.
End BucketTheorems.

(** ** Examples *)

Definition open_tx (rows : bmap) : btx Imm Mut (nat * iterator) bmap := MkBtx false false (MkTx true (MkSnapshot rows os_new os_new) (Some os_new) (Some os_new) []) ∅ [].
Definition some_rows : bmap := <[[0; 0; 0; 2; 1] := [10]]> (<[[0; 0; 0; 2; 3] := [30]]> (<[[0; 0; 0; 3; 7] := [70]]> initial_rows)).

Lemma open_tx_view rows : tx_view (bt_keys (open_tx rows)) rows rows.
Proof.
  split; [done|]. split; [exists ∅, ∅; split_and!; [apply os_new_ok..|apply map_disjoint_empty_l|]; by rewrite layer_empty|].
  exists os_new, os_new, ∅, ∅. split_and!; try apply os_new_ok; try done. by rewrite layer_empty.
Qed.

Lemma bucket_two_ok : id_ok [0; 0; 0; 2].
Proof. split; [done|by repeat constructor|by constructor|done]. Qed.

(** A bucket with two keys in leveldb and one put on the way. *)
Lemma for_each_visits_bucket_witness :
  exists tx : btx Imm Mut (nat * iterator) bmap, bucket_Put (open_tx some_rows) [0; 0; 0; 2] [2] [20] 5 = Ok (None, tx) /\
    ForEach (Ii := iterator) (Ldi := mem_iter) tx [0; 0; 0; 2] (fun st k v => (st ++ [(k, v)], if decide (k = [3]) then Some tt else None)) [] =
      Ok ([([1], Some [10]); ([2], Some [20]); ([3], Some [30])], Some (inr tt), tx).
Proof.
  destruct (put_ok (open_tx some_rows) some_rows some_rows [0; 0; 0; 2] [2] [20] 5 eq_refl (open_tx_view _) ltac:(done)) as (k & Hput & Hv).
  exists (set_keys (open_tx some_rows) k). split; [exact Hput|].
  destruct (for_each_visits_bucket (Ldi := mem_iter) (set_keys (open_tx some_rows) k) _ [0; 0; 0; 2] [] (fun st k v => (st ++ [(k, v)], if decide (k = [3]) then Some tt else None)) (fun st k => (st, None))
    (view_layers (set_keys (open_tx some_rows) k) some_rows _ eq_refl Hv)) as (Hf & _); [|exact bucket_two_ok|].
  - apply (bool_decide_unpack _). vm_compute. exact I.
  - rewrite Hf. vm_compute. reflexivity.
Defined.

Lemma cursor_scans_witness :
  exists (c : cursor iterator mem_iter) tx1, newCursor (open_tx some_rows) [0; 0; 0; 2] [0; 0; 0; 2] ctKeys = Ok (c, tx1) /\
    ('(ok, tx2, c2) ← cursor_Last tx1 c; cursor_collect 6 false ok tx2 c2) = Ok [([3], Some [30]); ([1], Some [10])].
Proof.
  destruct (cursor_scans (Ldi := mem_iter) (open_tx some_rows) some_rows [0; 0; 0; 2] [2] 6 (view_layers (open_tx some_rows) some_rows _ eq_refl (open_tx_view _))) as (c & tx1 & Hn & _ & _ & Hl & _).
  - apply (bool_decide_unpack _). vm_compute. exact I.
  - exact bucket_two_ok.
  - by repeat constructor.
  - vm_compute. lia.
  - exists c, tx1. split; [exact Hn|]. rewrite Hl. vm_compute. reflexivity.
Defined.

(** The index of a new database: the block index only. *)
Lemma initial_buckets : buckets_ok initial_rows 1.
Proof.
  assert (forall b n id, parent_ok b -> initial_rows !! bucketIndexKey b n = Some id -> b = metadataBucketID /\ n = blockIdxBucketName /\ id = blockIdxBucketID) as Hin.
  { intros b n id Hb. unfold initial_rows. change (str "bidx" ++ metadataBucketID ++ str "ffldb-blockidx") with (bucketIndexKey metadataBucketID blockIdxBucketName). change (str "bidx-cbid") with curBucketIDKeyName.
    rewrite lookup_insert_ne by (unfold bucketIndexKey, bucketizedKey; done). destruct (decide (bucketIndexKey metadataBucketID blockIdxBucketName = bucketIndexKey b n)) as [E|E].
    - apply index_key_inj in E as [<- <-]; [|done|apply Hb]. rewrite lookup_insert_eq. by intros [= <-].
    - rewrite lookup_insert_ne by done. rewrite lookup_insert_ne; [by rewrite lookup_empty|]. intros E'. by apply (index_key_counter b n Hb). }
  split.
  - lia.
  - vm_compute. reflexivity.
  - vm_compute. by eexists.
  - intros b n id Hb (-> & -> & ->)%Hin; [|done]. exists 1. split; [lia|]. reflexivity.
  - intros b n b' n' id Hb Hb' (-> & -> & _)%Hin (-> & -> & _)%Hin; done.
Qed.

Lemma created_bucket_is_new_witness :
  exists id tx', CreateBucket (open_tx initial_rows) metadataBucketID [98] 4 5 = Ok (inl id, tx') /\ Bucket tx' metadataBucketID [98] = Ok (Some id) /\
    Bucket tx' metadataBucketID blockIdxBucketName = Ok (Some blockIdxBucketID).
Proof.
  pose proof (created_bucket_is_new (open_tx initial_rows) initial_rows initial_rows 1 metadataBucketID [98] 4 5 eq_refl (open_tx_view _) initial_buckets ltac:(done) ltac:(done) ltac:(lia)) as Hc.
  destruct (initial_rows !! bucketIndexKey metadataBucketID [98]) eqn:E; [vm_compute in E; discriminate|]. destruct Hc as (id & tx' & m' & Hcr & _ & _ & Hb & Ho).
  exists id, tx'. split_and!; [done|done|]. destruct (Ho metadataBucketID blockIdxBucketName) as [-> _]; [done|done|]. vm_compute. reflexivity.
Defined.

(** The counter wraps around: the bucket created after 2^32 - 1 others has the identifier of the
    top bucket, and writes to the keys of that one. *)
Definition full_counter : bmap := <[curBucketIDKeyName := [255; 255; 255; 255]]> initial_rows.
Example bucket_id_wraps :
  ('(id, tx) ← CreateBucket (open_tx full_counter) [0; 0; 0; 5] [98] 4 5;
   match id with
   | inr _ => Panic
   | inl id => '(_, tx) ← bucket_Put tx id writeLocKeyName [7] 6; row ← bucket_Get tx metadataBucketID writeLocKeyName; Ok (id, row)
   end) = Ok (metadataBucketID, Some [7]).
Proof. vm_compute. reflexivity. Qed.

(** Turning back: over the keys 1 and 3 of the snapshot and the pending key 2, [Prev] after
    [First] and [Next] moves to 3, not to 1: the iterator of the snapshot is left where
    going forwards put it. *)
Example turning_back :
  ('(_, tx) ← bucket_Put (open_tx some_rows) [0; 0; 0; 2] [2] [20] 5;
   '(c, tx) ← newCursor (Ii := iterator) (Ldi := mem_iter) tx [0; 0; 0; 2] [0; 0; 0; 2] ctKeys;
   '(_, tx, c) ← cursor_First tx c;
   k1 ← cursor_Key tx c;
   '(_, tx, c) ← cursor_Next tx c;
   k2 ← cursor_Key tx c;
   '(_, tx, c) ← cursor_Prev tx c;
   k3 ← cursor_Key tx c;
   Ok (k1, k2, k3)) = Ok (Some [1], Some [2], Some [3]).
Proof. vm_compute. reflexivity. Qed.

(** [DeleteBucket] can leave keys behind: the keys 2, 1 and 3 are put in a bucket and the bucket is
    deleted in the same transaction.  The iterator over the pending keys is not told of
    the deletions under it: when the node of 2, the root, is deleted, the one of 3 is no
    longer below it, and the walk ends. *)
Theorem deleted_bucket_keeps_key :
  ('(id, tx) ← CreateBucket (open_tx initial_rows) metadataBucketID [98] 50 50;
   match id with
   | inr _ => Panic
   | inl id =>
       '(_, tx) ← bucket_Put tx id [2] [20] 10;
       '(_, tx) ← bucket_Put tx id [1] [10] 20;
       '(_, tx) ← bucket_Put tx id [3] [30] 30;
       '(err, tx) ← DeleteBucket (Ii := iterator) (Ldi := mem_iter) 9 (fun _ => 7) tx metadataBucketID [98];
       gone ← Bucket tx metadataBucketID [98];
       a ← bucket_Get tx id [1];
       b ← bucket_Get tx id [2];
       c ← bucket_Get tx id [3];
       Ok (err, gone, a, b, c)
   end) = Ok (None, None, None, None, Some [30]).
Proof. vm_compute. reflexivity. Qed.
